(* ===== verification/_CoqProject ===== *)
-Q . S2P
Prelude.v
Bytes.v
Rocks.v
TreeNode.v
TreeDb.v
BTree.v
TreeRefine.v
TreeBatch.v
TreeScan.v
TreeMulti.v
TreeBlocks.v
TreeHeights.v
Demo.v
TreeClaims.v
Mdb.v
MdbProps.v
MdbClaims.v
Pointers.v
Reorg.v
ReorgProps.v
CommitProps.v
ReorgClaims.v
RunesTransfer.v
RunesUndo.v
RunesUndoProps.v
RunesStore.v
StateM.v
RunesTxIndex.v
RunesTxIndexProps.v
RunesChain.v
RunesInscriptions.v
RunesIndexer.v
RunesConserve.v
RunesJournal.v
RunesFrame.v
RunesLive.v
RunesHolders.v
RunesLedger.v
RunesSupply.v
RunesModule.v
RunesModuleProps.v
RunesClaims.v
RunesIndexClaims.v
AlkTrace.v
AlkClean.v
AlkSheets.v
AlkSheetsProps.v
AlkDeltas.v
AlkDeltasProps.v
AlkFlow.v
AlkTransfer.v
AlkTransferProps.v
AlkTransferTx.v
AlkClaims.v
AmmPath.v
AmmPathProps.v
AmmSearch.v
AmmRoute.v
AmmCandles.v
AmmCandlesProps.v
AmmChart.v
AmmChartFill.v
AmmDepth.v
AmmClaims.v
AmmActivity.v
AmmActivityProps.v
AmmVolume.v
AmmBlock.v
AmmBlockProps.v
AmmLog.v
AmmVolumeProps.v
AmmIndex.v
AmmIndexClaims.v
AmmWindows.v
AmmWindowsProps.v
AmmTvl.v
AmmTvlProps.v
AmmTvlClaims.v
AmmPools.v
AmmPoolsProps.v
