(* ===== verification/Prelude.v ===== *)
(** * Espo: verification of the indexer's storage core and of its modules' accounting

    Espo indexes a Bitcoin chain into a RocksDB database.  Its core is a versioned
    key-value store, a copy-on-write B+tree whose nodes are rows of RocksDB and
    whose root is recorded per block; namespaces over it, which the modules of the
    indexer write their rows through; the loop that indexes a block with every
    module, commits it or rolls it back, and switches chains after a
    reorganisation; and the modules themselves: the runes module is modelled in
    full, of the essentials module the accounting of alkanes in a transaction, of
    the ammdata module swap planning, routes, the discovery of pools, and the rows it
    keeps of trades: candles, activity, volumes, trade windows, locked value.

    ** The program and the files that model it

    Shared: this file (lemmas on lists and finite maps, tactics), [Bytes] (bytes as
    [Byte.byte], the order of keys, prefixes and their exclusive bound, big and
    little endian integers), [StateM] (the state monad with failure, with two
    logics: [safe] for invariants that survive errors, [runs] for commands that
    succeed).

    The tree, [src/src/runtime/tree_db.rs]:
    - [Rocks]: RocksDB as a class with the laws the code relies on, and its write
      batches; [TreeNode]: nodes, their page format, hashes and row keys; [TreeDb]:
      [VersionedTreeDb], its state and every operation, in the order of the file.
    - [BTree]: the abstract trees and the map they stand for; [TreeRefine]: loading
      a node gives its abstract tree, point reads; [TreeBatch]: mutations and
      batches with the buffer of pending nodes; [TreeScan], [TreeMulti]: range
      scans, pages, batched reads; [TreeBlocks], [TreeHeights]: the run of calls on a
      tree as a step relation, its invariant, blocks, rewinds, pins, heights and
      ancestry; [Demo], [TreeClaims]: a concrete database, the properties.

    Namespaces, [src/src/runtime/mdb.rs] and [src/src/runtime/state_at.rs]: [Mdb] (handles on the
    raw database or on the tree, reads, scans, pages, batches), [MdbProps],
    [MdbClaims].  [Pointers], [src/src/runtime/pointers.rs]: keys relative to a handle and
    the paging of lists, with its properties.

    Modules and the indexer loop, [src/src/modules/defs.rs], [src/src/modules/reorg.rs],
    [src/src/main.rs]: [Reorg] (the class [EspoModule], registration, the
    reorganisation switch, one block from the canonicality check to the commit or
    the rollback, start-up, the divergence search), [ReorgProps] and [CommitProps]
    (proved against the classes [ModuleLaws] and [IndexLaws], which say what a
    module promises), [ReorgClaims].

    Runes, [src/src/modules/runes/]:
    - [transfer.rs]: [RunesTransfer] (edicts, even splits, leftovers).
    - [storage.rs]: [RunesUndo] and [RunesUndoProps] (block batches, their undo
      records, rollback), [RunesStore] (records, keys, mint terms), [RunesTxIndex] and
      [RunesTxIndexProps] (the chunked lists of transactions).
    - [main.rs] and [inscriptions.rs]: [RunesChain] (transactions, artifacts, fees,
      commitments), [RunesInscriptions] (envelopes, icons), [RunesIndexer]
      ([BlockRunesIndexer], every method, up to the batch of a block), [RunesModule]
      (the module: index height, live outpoints, [EspoModule]).
    - [RunesConserve]: a transaction balances.  [RunesJournal]: the batch of a block
      remembers true previous values, so that it can be undone.  [RunesFrame]: which
      operation touches which family of rows, and the namespace with the
      batch on top.  [RunesHolders]: balances and holder counts.  [RunesLive]: the set
      of live outpoints.  [RunesModuleProps]: the module satisfies [ModuleLaws] and
      [IndexLaws], and the statements above at the level of its calls.  [RunesLedger] and
      [RunesSupply]: what the unspent outpoints hold, and that it is what was issued.
    - [RunesClaims], [RunesIndexClaims]: the properties.

    Alkanes, [src/src/alkanes/] and [src/src/modules/essentials/utils/balances/]:
    - [AlkTrace]: the events of a trace, the numbers in their strings, the repair of a
      trace that has returns of host functions in it; [AlkClean]: what the repair does.
    - [AlkSheets], [AlkSheetsProps]: signed amounts, sheets of balances, queues of
      sources.  [AlkDeltas], [AlkDeltasProps]: the walk over a trace that gives the
      change of every contract's balances, and the recursion over the tree of calls it
      is.  [AlkFlow]: the sources of what a trace sends.
    - [AlkTransfer]: the routing of a transaction's alkanes through its protostones;
      [AlkTransferProps], [AlkTransferTx]: what it conserves; [AlkClaims]: the properties.

    AMM data, [src/src/modules/ammdata/]:
    - [utils/pathfinder.rs]: [AmmPath] (the graph of pools, constant-product arithmetic,
      searches and planners), [AmmPathProps] (arithmetic, edges), [AmmSearch] (the two
      searches: termination, soundness, short routes; cycles and profits).
    - [utils/route.rs]: [AmmRoute].  [utils/candles.rs]: [AmmCandles]; [AmmCandlesProps]
      (keys, candles as a semigroup), [AmmChart] (rows follow trades), [AmmChartFill] (the
      chart).  [utils/canonical_depth.rs]: [AmmDepth].
    - [AmmClaims]: the properties of these.
    - [utils/activity.rs]: [AmmActivity] (rows, their indexes, pages), [AmmActivityProps].
      [utils/token_volume.rs]: [AmmVolume] (buckets per token and timeframe, running
      totals, the volume chart).  [utils/index_activity.rs] and the write of its rows:
      [AmmBlock] (the balance deltas of a block, up to its batch); [AmmBlockProps], [AmmLog],
      [AmmVolumeProps] (what the batch of a block does to the namespace), [AmmIndex] (a
      chain of blocks), [AmmIndexClaims].
    - [utils/index_factories.rs], [utils/index_pools.rs], [utils/cryptoswap.rs],
      [utils/index_snapshot.rs] and the new pools of [utils/reserves.rs]: [AmmPools] (how
      factories and pools are found, and the block with all its passes), [AmmPoolsProps]
      (with its properties).
    - The trade windows of [main.rs]: [AmmWindows], [AmmWindowsProps] (with its properties).
    - [utils/index_tvl.rs] and [utils/index_total_volume_amm.rs]: [AmmTvl], [AmmTvlProps],
      [AmmTvlClaims].

    ** What the theorems show

    - Tree (C1, C2, C5, C6, C9-C12): every run of calls keeps the invariant that ties the
      state in memory to the rows; scans and pages are those of a map; batches
      apply their changes in order; blocks are isolated until they are finished, whatever
      they write, can be aborted, rewound and recovered after a restart.  Point reads, the
      collection of cached nodes, batched reads, pins, ancestry and prefix bounds are
      theorems beside them.
    - Namespaces (C19, C20, C23): a handle is a map of its own, on both backends.
    - Pointers (C36): following the cursor visits every row of a list once and ends.
    - Indexer (C25-C28): a block is committed whole or rolled back, or the rollback
      fails and says so with the tree still sound; a reorganisation leaves tree and modules
      at the fork or changes nothing, and the divergence search ends at the first height of
      the fork.
    - Runes (C35, C37-C40): transactions conserve every rune and a block keeps the supply
      accounted for; a block that was indexed is taken back exactly, the namespace and the
      module with it, from a namespace whose counters cover their rows and that has nothing
      of the block yet (that indexing keeps the first of these is not proved);
      transaction lists behave as lists; the two copies of a balance agree and holder
      counts are exact; the live outpoints in memory are those of the namespace.
    - Alkanes (C7, C14, C17, C29-C31): routing creates nothing, and loses nothing where
      every target can be delivered to, before and after the change of the rules; the walk
      over a trace is a recursion over its calls and only moves tokens, failed and static
      calls cut out; the repair of a trace is exact.
    - AMM data (C3, C4, C8, C13, C15, C16, C18, C21, C22, C24, C32-C34): the quotes of the
      planners are true and short routes do not beat them; exact-output quotes ask for
      enough; routes are recovered from their legs; charts have no gaps; the price of a
      token lies between those of its pools.  The tables of factories, pools and reserves
      stay in agreement through a block, and the two factory records decide who may set
      prices, either of them.  Indexing a chain of blocks, in which no pool is active twice
      at one timestamp, leaves the candles, activity and volumes of all its trades;
      reserves move by the balance changes of their pool; pages of activity and reads of
      volume windows return what the trades say; trade windows are those of the trades in them; the stored totals of locked
      value are the sums over the pools.  That the planners end, that cycles are found
      exactly, that profits are profits, that dust does not move a price and that stored
      candles summarise all trades are theorems beside them.

    ** Modelling choices

    - State is passed explicitly; an error of the store or of a decoder is [None], an
      error value where the code has one.  A failed call of the runes indexer keeps
      the state it had reached, because the live outpoints are shared with the
      module.
    - Machine integers are [Z] with their wrapping, saturating or checked operations
      written out.  Unchecked [+=] wraps, as in a release build.
    - RocksDB, SHA-256, Borsh, the [bitcoin] and [ordinals] crates, the node, and the
      rows of other modules are classes; their laws (round trips, collision freedom on
      the nodes in use, widths of decoded values) are hypotheses, and every
      application instantiates them with concrete functions.
    - Loops whose recursion is not structural take fuel.  Walks down the tree need
      more than its height, walks over the journal more than the number of blocks in
      it, scans of leaves more than the number of nodes, a search of swap paths the size of
      the tree of its paths, a chart the number of its buckets, the pages of activity and of
      a list pointer one round more than there are rows; the theorems say how much
      is enough, or the definitions take it, and they conclude that the call returns.
    - [HashMap] and [HashSet] are finite maps and sets.  Where the code iterates over one,
      the model does so in the order of the finite map; only the order of the address lists
      of volumes and the order in which equally good swap paths are met depend on it.
    - A [BinaryHeap] is a class: it gives a greatest element, any of them.

    ** Not modelled

    The rows of the essentials module and the update of a block's balances; of the ammdata
    module the metrics of tokens and pools, and the queries; the
    tokendata, pizzafun, subfrost, oylapi and explorer-extensions modules; the mempool
    service; the clients of the node and of metashrew, and the decoding of its messages; RPC
    and the explorer; configuration and logging.  JSON values.  The query functions of
    the runes store that only serve RPC.  Concurrency: the locks of the tree and of the
    modules are held for whole calls, which are modelled as atomic.

    What would come next: the block update of the alkanes balances and the balance of an
    address as a sum over outpoints, and the metrics of tokens and pools. *)
From stdpp Require Export base tactics option list list_numbers numbers gmap sorting.
From stdpp Require Import options.
From Stdlib Require Export ZArith Lia.

(** ** Automation shared by the development. *)

Create HintDb espo.

(** Split every conjunction of the goal and try the closing tactics. *)
Ltac split_all := repeat match goal with |- _ /\ _ => split end.

(** Case analysis on the innermost [match]/[if] of the goal, keeping the equation. *)
Ltac case_goal :=
  match goal with
  | |- context [match ?x with _ => _ end] =>
      lazymatch x with
      | context [match _ with _ => _ end] => fail
      | _ => let H := fresh "Hcase" in destruct x eqn:H
      end
  end.

(** ** Generic lemmas on lists. *)

Lemma list_update_split {A} (l : list A) i x y :
  l !! i = Some y -> <[i := x]> l = take i l ++ x :: drop (S i) l.
Proof. intros H. apply insert_take_drop. by eapply lookup_lt_Some. Qed.

Lemma take_drop_split {A} (l : list A) i x :
  l !! i = Some x -> l = take i l ++ x :: drop (S i) l.
Proof. intros H. symmetry. by apply take_drop_middle. Qed.

Lemma drop_S_inv {A} (l : list A) i x l' : drop i l = x :: l' -> l !! i = Some x /\ drop (S i) l = l'.
Proof.
  revert i. induction l as [|y l IH]; intros [|i]; cbn; try done; [by intros [= -> ->]|apply IH].
Qed.

(** [Vec::insert] at index [i]: everything from [i] on shifts right. *)
Definition vec_insert {A} (i : nat) (x : A) (l : list A) : list A :=
  take i l ++ x :: drop i l.

(** [Vec::remove] at index [i]. *)
Definition vec_remove {A} (i : nat) (l : list A) : list A :=
  take i l ++ drop (S i) l.

(** [slice::sort_by] is a stable sort: insertion that puts an element before the
    elements it does not exceed. *)
Fixpoint insert_by {A} (le : A -> A -> bool) (x : A) (l : list A) : list A :=
  match l with
  | [] => [x]
  | y :: l' => if le x y then x :: y :: l' else y :: insert_by le x l'
  end.

Fixpoint sort_by {A} (le : A -> A -> bool) (l : list A) : list A :=
  match l with
  | [] => []
  | x :: l' => insert_by le x (sort_by le l')
  end.

(** The longest prefix whose elements satisfy [f]: what an iterator yields before the first
    [break]. *)
Fixpoint take_while {A} (f : A -> bool) (l : list A) : list A :=
  match l with
  | [] => []
  | x :: l' => if f x then x :: take_while f l' else []
  end.

(** [slice::partition_point]: the length of the prefix that satisfies [f], on a slice where
    [f] holds of a prefix and of nothing else. *)
Definition partition_point {A} (f : A -> bool) (l : list A) : nat := length (take_while f l).

Lemma insert_by_perm {A} (le : A -> A -> bool) x l : insert_by le x l ≡ₚ x :: l.
Proof.
  induction l as [|y l IH]; cbn; [done|]. destruct (le x y); [done|].
  rewrite IH. constructor.
Qed.

Lemma sort_by_perm {A} (le : A -> A -> bool) (l : list A) : sort_by le l ≡ₚ l.
Proof. induction l as [|x l IH]; cbn; [done|]. by rewrite insert_by_perm, IH. Qed.

Lemma insert_by_ordered {A} (le : A -> A -> bool) (R : relation A) `{!Transitive R} x l :
  (forall a b, le a b = true -> R a b) -> (forall a b, le a b = false -> R b a) ->
  StronglySorted R l -> StronglySorted R (insert_by le x l).
Proof.
  intros Ht Hf. induction 1 as [|y l Hl IH Hy]; cbn; [by repeat constructor|]. destruct (le x y) eqn:E.
  - constructor; [by constructor|]. constructor; [by apply Ht|]. eapply Forall_impl; [exact Hy|]. intros z Hz. transitivity y; auto.
  - constructor; [done|]. rewrite insert_by_perm. constructor; [by apply Hf|done].
Qed.

(** Sorting with a total comparison puts the list in order. *)
Lemma sort_by_ordered {A} (le : A -> A -> bool) (R : relation A) `{!Transitive R} l :
  (forall a b, le a b = true -> R a b) -> (forall a b, le a b = false -> R b a) -> StronglySorted R (sort_by le l).
Proof. intros Ht Hf. induction l as [|x l IH]; cbn; [constructor|]. by apply insert_by_ordered. Qed.

Lemma take_while_app {A} (f : A -> bool) (l1 l2 : list A) :
  Forall (fun x => f x = true) l1 -> take_while f (l1 ++ l2) = l1 ++ take_while f l2.
Proof. induction 1 as [|x l Hx Hl IH]; cbn; [done|]. by rewrite Hx, IH. Qed.

Lemma take_while_forall {A} (f : A -> bool) (l : list A) :
  Forall (fun x => f x = true) (take_while f l).
Proof.
  induction l as [|x l IH]; cbn; [constructor|].
  destruct (f x) eqn:E; [by constructor|constructor].
Qed.

Lemma take_while_stop {A} (f : A -> bool) (l : list A) x :
  l !! length (take_while f l) = Some x -> f x = false.
Proof.
  induction l as [|y l IH]; cbn; [done|]. destruct (f y) eqn:E; cbn; [apply IH|].
  by intros [= ->].
Qed.

Lemma take_partition_point {A} (f : A -> bool) (l : list A) :
  take (partition_point f l) l = take_while f l.
Proof.
  unfold partition_point. induction l as [|x l IH]; cbn; [done|].
  destruct (f x); cbn; [by rewrite IH|done].
Qed.

Lemma partition_point_le {A} (f : A -> bool) (l : list A) : partition_point f l <= length l.
Proof.
  unfold partition_point. induction l as [|x l IH]; cbn; [lia|]. destruct (f x); cbn; lia.
Qed.

Lemma vec_insert_app {A} (l1 l2 : list A) x n :
  length l1 = n -> vec_insert n x (l1 ++ l2) = l1 ++ x :: l2.
Proof. intros <-. unfold vec_insert. by rewrite take_app_length, drop_app_length. Qed.

Lemma vec_insert_app_next {A} (l1 l2 : list A) x y n :
  length l1 = n -> vec_insert (n + 1) y (l1 ++ x :: l2) = l1 ++ x :: y :: l2.
Proof.
  intros Hn. change (x :: l2) with ([x] ++ l2). rewrite app_assoc.
  rewrite vec_insert_app by (rewrite length_app; cbn; lia). by rewrite <- app_assoc.
Qed.

Lemma update_app {A} (l1 l2 : list A) x y n :
  length l1 = n -> <[n := y]> (l1 ++ x :: l2) = l1 ++ y :: l2.
Proof. intros <-. by rewrite insert_app_r_alt, Nat.sub_diag by lia. Qed.

Lemma match_nonempty {A B} (l : list A) (x y : B) :
  l <> [] -> match l with [] => x | _ :: _ => y end = y.
Proof. by destruct l. Qed.
