(* ===== verification/Bytes.v ===== *)
(** * Byte strings

    [Vec<u8>] / [&[u8]] as lists of [byte], the lexicographic order Rust's
    slices have, prefixes, fixed-width big- and little-endian integers, and
    [prefix_end_exclusive], the exclusive upper bound of a prefix scan. *)
From Stdlib Require Import Strings.Byte.
From stdpp Require Import strings.
From S2P Require Import Prelude.
From stdpp Require Import options.

Open Scope Z_scope.

(** ** Bytes and byte strings *)

Abbreviation byte := Init.Byte.byte.
Abbreviation bytes := (list Init.Byte.byte).

(** A literal such as [b"__espo_bptree:"]. *)
Definition bstr (s : string) : bytes := String.list_byte_of_string s.

(** A byte as the integer it holds, and the low eight bits of an integer as a byte. *)
Definition b2z (b : byte) : Z := Z.of_N (Byte.to_N b).

Definition z2b (z : Z) : byte :=
  match Byte.of_N (Z.to_N (z mod 256)) with Some b => b | None => x00 end.

#[global] Instance byte_eq_dec : EqDecision byte := Byte.byte_eq_dec.

#[global] Program Instance byte_countable : Countable byte :=
  inj_countable Byte.to_N Byte.of_N _.
Next Obligation. intros b. apply Byte.of_to_N. Qed.

Lemma b2z_range b : 0 <= b2z b < 256.
Proof.
  unfold b2z. pose proof (Byte.to_N_bounded b). lia.
Qed.

#[global] Instance b2z_inj : Inj (=) (=) b2z.
Proof.
  intros a b H. unfold b2z in H. apply N2Z.inj in H.
  pose proof (Byte.of_to_N a) as Ha. rewrite H, Byte.of_to_N in Ha. congruence.
Qed.

Lemma b2z_z2b z : b2z (z2b z) = z mod 256.
Proof.
  unfold b2z, z2b. pose proof (Z.mod_pos_bound z 256 ltac:(lia)).
  destruct (Byte.of_N (Z.to_N (z mod 256))) as [b|] eqn:E.
  - apply Byte.to_of_N in E. rewrite E. lia.
  - apply Byte.of_N_None_iff in E. lia.
Qed.

Lemma z2b_b2z b : z2b (b2z b) = b.
Proof.
  apply b2z_inj. rewrite b2z_z2b. apply Z.mod_small, b2z_range.
Qed.

(** ** Lexicographic order: [<[u8] as Ord>::cmp] *)

Fixpoint bytes_cmp (a b : bytes) : comparison :=
  match a, b with
  | [], [] => Eq
  | [], _ :: _ => Lt
  | _ :: _, [] => Gt
  | x :: a', y :: b' =>
      match b2z x ?= b2z y with
      | Eq => bytes_cmp a' b'
      | c => c
      end
  end.

Definition bytes_ltb (a b : bytes) : bool :=
  match bytes_cmp a b with Lt => true | _ => false end.

Definition bytes_leb (a b : bytes) : bool := negb (bytes_ltb b a).

Definition bytes_eqb (a b : bytes) : bool := bool_decide (a = b).

Definition blt (a b : bytes) : Prop := bytes_ltb a b = true.
Definition ble (a b : bytes) : Prop := bytes_ltb b a = false.

Declare Scope espo_scope.
Delimit Scope espo_scope with espo.
Infix "<b" := blt (at level 70) : espo_scope.
Infix "<=b" := ble (at level 70) : espo_scope.
Open Scope espo_scope.

Lemma bytes_cmp_refl a : bytes_cmp a a = Eq.
Proof. induction a as [|x a IH]; [done|]. cbn. by rewrite Z.compare_refl. Qed.

Lemma bytes_cmp_eq a b : bytes_cmp a b = Eq <-> a = b.
Proof.
  split; [|intros ->; apply bytes_cmp_refl].
  revert b; induction a as [|x a IH]; intros [|y b]; cbn; try done.
  destruct (Z.compare_spec (b2z x) (b2z y)) as [E| |]; try done.
  intros H. f_equal; [by apply b2z_inj|by apply IH].
Qed.

Lemma bytes_cmp_antisym a b : bytes_cmp b a = CompOpp (bytes_cmp a b).
Proof.
  revert b; induction a as [|x a IH]; intros [|y b]; cbn; try done.
  rewrite (Z.compare_antisym (b2z x) (b2z y)).
  destruct (b2z x ?= b2z y); cbn; [apply IH|done|done].
Qed.

Lemma blt_cmp a b : a <b b <-> bytes_cmp a b = Lt.
Proof. unfold blt, bytes_ltb. destruct (bytes_cmp a b); split; congruence. Qed.

Lemma blt_cons x y a b :
  (x :: a) <b (y :: b) <-> b2z x < b2z y \/ (x = y /\ a <b b).
Proof.
  rewrite !blt_cmp. cbn. destruct (Z.compare_spec (b2z x) (b2z y)) as [E|E|E].
  - apply b2z_inj in E as ->. split; [auto|]. intros [?|[_ ?]]; [lia|done].
  - split; [auto|done].
  - split; [done|]. intros [?|[-> _]]; lia.
Qed.

#[global] Instance blt_strict : StrictOrder blt.
Proof.
  split.
  - intros a H. apply blt_cmp in H. rewrite bytes_cmp_refl in H. done.
  - intros a. induction a as [|x a IH]; intros [|y b] [|z c]; try done.
    rewrite !blt_cons. intros [?|[-> ?]] [?|[-> ?]]; try (left; lia).
    right. eauto.
Qed.

Lemma blt_irrefl a : ~ a <b a.
Proof. apply (irreflexivity blt). Qed.

Lemma blt_trans a b c : a <b b -> b <b c -> a <b c.
Proof. apply (transitivity (R := blt)). Qed.

Lemma ble_lteq a b : a <=b b <-> a <b b \/ a = b.
Proof.
  unfold ble, blt, bytes_ltb. rewrite (bytes_cmp_antisym a b).
  destruct (bytes_cmp a b) eqn:E; cbn; split; try done; eauto.
  - apply bytes_cmp_eq in E. auto.
  - intros [?| ->]; [done|]. rewrite bytes_cmp_refl in E. done.
Qed.

Lemma ble_refl a : a <=b a.
Proof. apply ble_lteq. auto. Qed.

Lemma blt_ble a b : a <b b -> a <=b b.
Proof. rewrite ble_lteq. auto. Qed.

Lemma ble_trans a b c : a <=b b -> b <=b c -> a <=b c.
Proof. rewrite !ble_lteq. intros [?| ->] [?| ->]; eauto using blt_trans. Qed.

Lemma blt_ble_trans a b c : a <b b -> b <=b c -> a <b c.
Proof. rewrite ble_lteq. intros ? [?| ->]; eauto using blt_trans. Qed.

Lemma ble_blt_trans a b c : a <=b b -> b <b c -> a <b c.
Proof. rewrite ble_lteq. intros [?| ->] ?; eauto using blt_trans. Qed.

Lemma blt_not_ble a b : a <b b -> b <=b a -> False.
Proof. unfold blt, ble. congruence. Qed.

Lemma bytes_ltb_spec a b : BoolSpec (a <b b) (b <=b a) (bytes_ltb a b).
Proof. destruct (bytes_ltb a b) eqn:E; by constructor. Qed.

Lemma bytes_ltb_false a b : bytes_ltb a b = false <-> b <=b a.
Proof. done. Qed.

Lemma blt_total a b : a <b b \/ a = b \/ b <b a.
Proof.
  destruct (bytes_ltb_spec a b) as [|H]; [auto|].
  apply ble_lteq in H as [?| ->]; auto.
Qed.

#[global] Instance blt_dec a b : Decision (a <b b).
Proof. unfold blt. apply _. Defined.

#[global] Instance ble_dec a b : Decision (a <=b b).
Proof. unfold ble. apply _. Defined.

#[global] Instance ble_total : Total ble.
Proof.
  intros a b. destruct (blt_total a b) as [?|[->|?]];
    eauto using ble_refl, blt_ble.
Qed.

#[global] Instance ble_trans_inst : Transitive ble := ble_trans.

(** Decide the order facts about byte strings that follow by transitivity. *)
Create HintDb border.
#[export] Hint Resolve ble_refl blt_ble : border.
#[export] Hint Resolve blt_trans ble_trans blt_ble_trans ble_blt_trans : border.

Ltac border := first
  [ done
  | solve [eauto 4 with border]
  | solve [exfalso; eapply blt_irrefl; eauto 5 with border] ].

(** ** Prefixes *)

(** [key.starts_with(prefix)]. *)
Fixpoint starts_with (k p : bytes) {struct p} : bool :=
  match p, k with
  | [], _ => true
  | y :: p', x :: k' => bool_decide (x = y) && starts_with k' p'
  | _ :: _, [] => false
  end.

Lemma starts_with_iff k p : starts_with k p = true <-> exists r, k = p ++ r.
Proof.
  revert k; induction p as [|y p IH]; intros k; cbn.
  - split; [by exists k|done].
  - destruct k as [|x k].
    + split; [done|]. intros [r Hr]. done.
    + rewrite andb_true_iff, bool_decide_eq_true, IH. split.
      * intros [-> [r ->]]. by exists r.
      * intros [r [= -> ->]]. eauto.
Qed.

Lemma starts_with_app p r : starts_with (p ++ r) p = true.
Proof. apply starts_with_iff. eauto. Qed.

Lemma ble_prefix p r : p <=b p ++ r.
Proof.
  unfold ble, bytes_ltb. induction p as [|x p IH]; cbn; [by destruct r|].
  by rewrite Z.compare_refl.
Qed.

Lemma blt_app p a b : p ++ a <b p ++ b <-> a <b b.
Proof.
  induction p as [|x p IH]; [done|]. cbn [app]. rewrite blt_cons, IH.
  split; [intros [?|[_ ?]]; [lia|done]|auto].
Qed.

Lemma ble_app p a b : p ++ a <=b p ++ b <-> a <=b b.
Proof.
  rewrite !ble_lteq, blt_app. split; (intros [?|H]; [auto|right]).
  - by eapply app_inv_head.
  - by rewrite H.
Qed.

(** ** [prefix_end_exclusive]: the least string above every extension of a prefix

    The loop runs from the last byte to the first; the first byte that is not
    [0xFF] is incremented and everything after it dropped. *)
Fixpoint prefix_end_loop (i : nat) (e : bytes) : option bytes :=
  match i with
  | O => None
  | S j =>
      match e !! j with
      | Some b =>
          if b2z b =? 255 then prefix_end_loop j e
          else Some (take (S j) (<[j := z2b (Z.min 255 (b2z b + 1))]> e))
      | None => None
      end
  end.

Definition prefix_end_exclusive (prefix : bytes) : option bytes :=
  prefix_end_loop (length prefix) prefix.

(** What the loop has established when it reaches index [i]: all later bytes are [0xFF]. *)
Lemma prefix_end_loop_spec i e :
  (i <= length e)%nat ->
  Forall (fun b => b2z b = 255) (drop i e) ->
  match prefix_end_loop i e with
  | None => Forall (fun b => b2z b = 255) e
  | Some r => exists p b s, e = p ++ b :: s /\ b2z b < 255 /\
                Forall (fun b => b2z b = 255) s /\ r = p ++ [z2b (b2z b + 1)]
  end.
Proof.
  induction i as [|j IH]; intros Hle Hff; cbn [prefix_end_loop]; [done|].
  destruct (e !! j) as [b|] eqn:Ej.
  2: { apply lookup_ge_None in Ej. lia. }
  pose proof (b2z_range b) as Hb.
  destruct (Z.eqb_spec (b2z b) 255) as [E|E].
  - apply IH; [lia|]. erewrite drop_S by done. by constructor.
  - exists (take j e), b, (drop (S j) e). split_all; try done.
    + symmetry. by apply take_drop_middle.
    + lia.
    + rewrite (list_update_split _ _ _ b) by done.
      pose proof (lookup_lt_Some _ _ _ Ej).
      rewrite take_app_ge by (rewrite length_take; lia).
      rewrite length_take, Nat.min_l by lia.
      replace (S j - j)%nat with 1%nat by lia. cbn.
      rewrite Z.min_r by lia. done.
Qed.

Lemma prefix_end_exclusive_spec p :
  match prefix_end_exclusive p with
  | None => Forall (fun b => b2z b = 255) p
  | Some r => exists q b s, p = q ++ b :: s /\ b2z b < 255 /\
                Forall (fun b => b2z b = 255) s /\ r = q ++ [z2b (b2z b + 1)]
  end.
Proof.
  apply prefix_end_loop_spec; [lia|]. by rewrite drop_all.
Qed.

(** Above a run of [0xFF] bytes only its own extensions remain. *)
Lemma ff_prefix_max s k :
  Forall (fun b => b2z b = 255) s -> s <=b k -> starts_with k s = true.
Proof.
  revert k; induction s as [|x s IH]; intros k Hff Hle; [by destruct k|].
  inversion Hff as [|? ? Hx Hs]; subst.
  destruct k as [|y k]; [done|]. cbn.
  unfold ble in Hle. apply not_true_iff_false in Hle.
  pose proof (b2z_range y).
  destruct (decide (y = x)) as [->|Hne].
  - rewrite bool_decide_eq_true_2 by done. cbn. apply IH; [done|].
    unfold ble. apply not_true_iff_false. intros Hlt. apply Hle.
    apply blt_cons. auto.
  - exfalso. apply Hle, blt_cons. left.
    assert (b2z y <> b2z x) by (intros ?; by apply Hne, b2z_inj). lia.
Qed.

(** A key carries the prefix exactly when it lies in the scanned range. *)
Theorem prefix_range p k :
  starts_with k p = true <->
  p <=b k /\ match prefix_end_exclusive p with Some e => k <b e | None => True end.
Proof.
  pose proof (prefix_end_exclusive_spec p) as Hspec.
  destruct (prefix_end_exclusive p) as [e|].
  - destruct Hspec as (q & b & s & -> & Hb & Hff & ->).
    pose proof (b2z_range b).
    assert (Hsucc : b2z (z2b (b2z b + 1)) = b2z b + 1).
    { rewrite b2z_z2b. apply Z.mod_small. lia. }
    split.
    + intros [r ->]%starts_with_iff. split; [apply ble_prefix|].
      rewrite <- app_assoc. apply blt_app. cbn. apply blt_cons. left. lia.
    + intros [Hlo Hhi].
      assert (exists k', k = q ++ k') as [k' ->].
      { clear Hff Hb Hsucc. revert k Hlo Hhi. induction q as [|x q IH]; intros k Hlo Hhi.
        - by exists k.
        - destruct k as [|y k]; [done|]. cbn in Hlo, Hhi.
          apply blt_cons in Hhi. unfold ble in Hlo. apply not_true_iff_false in Hlo.
          change (~ (y :: k) <b x :: (q ++ b :: s)) in Hlo.
          rewrite blt_cons in Hlo.
          assert (y = x /\ k <b q ++ [z2b (b2z b + 1)]) as [-> Hk].
          { destruct Hhi as [Hhi|Hhi]; [|done]. exfalso. apply Hlo. left. lia. }
          destruct (IH k) as [k' ->]; [|done|by exists k'].
          unfold ble. apply not_true_iff_false. intros Hlt. apply Hlo. right. done. }
      apply ble_app in Hlo. apply blt_app in Hhi.
      destruct k' as [|y k']; [done|].
      apply blt_cons in Hhi.
      assert (y = b) as ->.
      { apply b2z_inj. unfold ble in Hlo. apply not_true_iff_false in Hlo.
        change (~ (y :: k') <b b :: s) in Hlo. rewrite blt_cons in Hlo.
        destruct Hhi as [Hhi|[-> Hhi]]; [|destruct k'; done].
        assert (~ b2z y < b2z b) by (intros ?; apply Hlo; auto). lia. }
      assert (s <=b k') as Hs.
      { change (b :: s) with ([b] ++ s) in Hlo. change (b :: k') with ([b] ++ k') in Hlo.
        by apply ble_app in Hlo. }
      apply ff_prefix_max in Hs as [r ->]%starts_with_iff; [|done].
      apply starts_with_iff. exists r. by rewrite <- app_assoc.
  - split.
    + intros [r ->]%starts_with_iff. split; [apply ble_prefix|done].
    + intros [Hlo _]. by apply ff_prefix_max.
Qed.

(** ** Fixed-width integers: [to_be_bytes], [from_be_bytes], [from_le_bytes] *)

Fixpoint be_bytes (n : nat) (z : Z) : bytes :=
  match n with
  | O => []
  | S m => z2b (z / 256 ^ Z.of_nat m) :: be_bytes m z
  end.

Fixpoint from_be (l : bytes) : Z :=
  match l with
  | [] => 0
  | b :: l' => b2z b * 256 ^ Z.of_nat (length l') + from_be l'
  end.

Fixpoint le_bytes (n : nat) (z : Z) : bytes :=
  match n with
  | O => []
  | S m => z2b z :: le_bytes m (z / 256)
  end.

Fixpoint from_le (l : bytes) : Z :=
  match l with
  | [] => 0
  | b :: l' => b2z b + 256 * from_le l'
  end.

Lemma length_be_bytes n z : length (be_bytes n z) = n.
Proof. induction n; cbn; auto. Qed.

Lemma length_le_bytes n z : length (le_bytes n z) = n.
Proof. revert z; induction n; intros; cbn; auto. Qed.

Lemma from_be_range l : 0 <= from_be l < 256 ^ Z.of_nat (length l).
Proof.
  induction l as [|b l IH]; [cbn; lia|]. cbn [from_be length].
  rewrite Nat2Z.inj_succ, Z.pow_succ_r by lia. pose proof (b2z_range b). nia.
Qed.

Lemma from_le_range l : 0 <= from_le l < 256 ^ Z.of_nat (length l).
Proof.
  induction l as [|b l IH]; [cbn; lia|]. cbn [from_le length].
  rewrite Nat2Z.inj_succ, Z.pow_succ_r by lia. pose proof (b2z_range b). nia.
Qed.

Lemma from_be_be_bytes n z : from_be (be_bytes n z) = z mod 256 ^ Z.of_nat n.
Proof.
  induction n as [|n IH]; cbn [from_be be_bytes]; [by rewrite Z.mod_1_r|].
  rewrite IH, length_be_bytes, b2z_z2b, Nat2Z.inj_succ, Z.pow_succ_r by lia.
  assert (0 < 256 ^ Z.of_nat n) by (apply Z.pow_pos_nonneg; lia).
  rewrite (Z.mul_comm 256), Z.rem_mul_r by lia. lia.
Qed.

Lemma be_bytes_inj n a b :
  0 <= a < 256 ^ Z.of_nat n -> 0 <= b < 256 ^ Z.of_nat n -> be_bytes n a = be_bytes n b -> a = b.
Proof. intros Ha Hb E. apply (f_equal from_be) in E. by rewrite !from_be_be_bytes, !Z.mod_small in E. Qed.

Lemma from_le_le_bytes n z : from_le (le_bytes n z) = z mod 256 ^ Z.of_nat n.
Proof.
  revert z; induction n as [|n IH]; intros z; cbn [from_le le_bytes]; [by rewrite Z.mod_1_r|].
  rewrite IH, b2z_z2b, Nat2Z.inj_succ, Z.pow_succ_r by lia.
  assert (0 < 256 ^ Z.of_nat n) by (apply Z.pow_pos_nonneg; lia).
  rewrite Z.rem_mul_r by lia. lia.
Qed.

(** Big-endian byte strings of one width are ordered as the numbers they encode. *)
Lemma blt_from_be a b :
  length a = length b -> a <b b <-> from_be a < from_be b.
Proof.
  revert b; induction a as [|x a IH]; intros [|y b] Hlen; try done.
  injection Hlen as Hlen. rewrite blt_cons, IH by done. cbn [from_be].
  rewrite Hlen. pose proof (from_be_range a) as Ha. pose proof (from_be_range b) as Hb.
  rewrite Hlen in Ha. set (m := 256 ^ Z.of_nat (length b)) in *.
  destruct (decide (x = y)) as [->|Hne].
  - split; [intros [?|[_ ?]]; lia|intros; right; split; [done|lia]].
  - assert (b2z x <> b2z y) by (intros ?; by apply Hne, b2z_inj).
    split; [intros [?|[? _]]; [nia|done]|].
    intros. left. nia.
Qed.

(** [u32] heights as keys: the range the type gives, and the round trip. *)
Definition in_u32 (z : Z) : Prop := 0 <= z < 2 ^ 32.

Lemma from_be_u32 z : in_u32 z -> from_be (be_bytes 4 z) = z.
Proof. intros H. rewrite from_be_be_bytes. by apply Z.mod_small. Qed.

Lemma be_bytes_u32_inj a b : in_u32 a -> in_u32 b -> be_bytes 4 a = be_bytes 4 b -> a = b.
Proof. intros Ha Hb H. by rewrite <- (from_be_u32 a), <- (from_be_u32 b), H. Qed.

Lemma be_bytes_u32_lt a b :
  in_u32 a -> in_u32 b -> be_bytes 4 a <b be_bytes 4 b <-> a < b.
Proof.
  intros Ha Hb. rewrite blt_from_be by (by rewrite !length_be_bytes).
  by rewrite !from_be_u32.
Qed.

Lemma from_be_inj a b : length a = length b -> from_be a = from_be b -> a = b.
Proof.
  revert b. induction a as [|x a IH]; intros [|y b] Hl; try done. injection Hl as Hl. cbn [from_be].
  rewrite Hl. pose proof (from_be_range a) as Ha. pose proof (from_be_range b) as Hb. rewrite Hl in Ha.
  intros H. destruct (Z.div_mod_unique (256 ^ Z.of_nat (length b)) (b2z x) (b2z y) (from_be a) (from_be b))
    as [Hx Hr]; [lia..|]. rewrite (IH b Hl Hr). f_equal. apply (f_equal z2b) in Hx. by rewrite !z2b_b2z in Hx.
Qed.

Lemma be_bytes_from_be l : be_bytes (length l) (from_be l) = l.
Proof.
  apply from_be_inj; [apply length_be_bytes|]. rewrite from_be_be_bytes. apply Z.mod_small, from_be_range.
Qed.
