(* ===== verification/Rocks.v ===== *)
(** * The ordered key-value store underneath

    RocksDB is not part of the repository: the code only calls it.  It is an
    interface here, [RocksDB], the calls the sources make, and [RocksLaws], their
    documented behaviour: an ordered map from byte strings to byte strings,
    atomic write batches applied in order, and iterators that walk the keys in
    lexicographic order from a seek point.  [gmap_rocks] implements it, so the
    laws can hold.  I/O errors, which every caller passes on unchanged with
    [?], are not part of the interface. *)
From S2P Require Import Prelude Bytes.
From stdpp Require Import options.

Open Scope Z_scope.

(** ** Key-ordered entry lists *)

Abbreviation kv := (bytes * bytes)%type.

Definition key_lt (a b : kv) : Prop := a.1 <b b.1.
Definition key_le (a b : kv) : Prop := a.1 <=b b.1.

#[global] Instance key_lt_trans : Transitive key_lt.
Proof. intros a b c. unfold key_lt. apply blt_trans. Qed.
#[global] Instance key_le_trans : Transitive key_le.
Proof. intros a b c. unfold key_le. apply ble_trans. Qed.
#[global] Instance key_le_total : Total key_le.
Proof. intros a b. unfold key_le. apply ble_total. Qed.
#[global] Instance key_le_dec a b : Decision (key_le a b).
Proof. unfold key_le. apply _. Defined.

(** Strictly increasing keys: the shape of every list a scan returns. *)
Abbreviation sorted_entries := (StronglySorted key_lt).

(** The entries of a map in key order. *)
Definition map_entries (m : gmap bytes bytes) : list kv :=
  merge_sort key_le (map_to_list m).

Lemma map_entries_elem m k v : (k, v) ∈ map_entries m <-> m !! k = Some v.
Proof. unfold map_entries. by rewrite merge_sort_Permutation, elem_of_map_to_list. Qed.

Lemma sorted_entries_NoDup l : sorted_entries l -> NoDup l.*1.
Proof.
  induction 1 as [|[k v] l Hs IH Hall]; [constructor|]. cbn. constructor; [|done].
  intros Hin. apply list_elem_of_fmap in Hin as [[k' v'] [Hk Hin]]. cbn in Hk. subst k'.
  rewrite Forall_forall in Hall. specialize (Hall _ Hin). by apply blt_irrefl in Hall.
Qed.

Lemma map_entries_sorted m : sorted_entries (map_entries m).
Proof.
  assert (Hnd : NoDup (map_entries m).*1).
  { unfold map_entries. rewrite merge_sort_Permutation. apply NoDup_fst_map_to_list. }
  assert (Hs : StronglySorted key_le (map_entries m)).
  { apply (StronglySorted_merge_sort key_le). }
  induction Hs as [|e l Hs IH Hall]; [constructor|].
  cbn in Hnd. apply NoDup_cons in Hnd as [Hni Hnd].
  constructor; [by apply IH|]. apply Forall_forall. intros e' He'.
  rewrite Forall_forall in Hall. specialize (Hall _ He').
  unfold key_le in Hall. apply ble_lteq in Hall as [?|Heq]; [done|].
  exfalso. apply Hni. rewrite Heq. apply list_elem_of_fmap. eauto.
Qed.

(** A key-ordered list is determined by its members. *)
Lemma sorted_entries_ext l1 l2 :
  sorted_entries l1 -> sorted_entries l2 -> (forall e, e ∈ l1 <-> e ∈ l2) -> l1 = l2.
Proof.
  intros H1 H2 Heq. eapply (StronglySorted_unique_strong key_lt); [|done|done|].
  - intros x1 x2 _ _ Ha Hb. exfalso. unfold key_lt in *.
    eapply blt_irrefl, blt_trans; eauto.
  - apply NoDup_Permutation; [| |done].
    + eapply NoDup_fmap_1, sorted_entries_NoDup, H1.
    + eapply NoDup_fmap_1, sorted_entries_NoDup, H2.
Qed.

Lemma sorted_entries_filter (P : kv -> Prop) `{!forall e, Decision (P e)} l :
  sorted_entries l -> sorted_entries (filter P l).
Proof.
  induction 1 as [|e l Hs IH Hall]; [constructor|]. rewrite filter_cons.
  case_decide; [|done]. constructor; [done|].
  apply Forall_forall. intros e' [_ He']%list_elem_of_filter.
  rewrite Forall_forall in Hall. eauto.
Qed.

Lemma map_entries_unique l m :
  sorted_entries l -> (forall k v, (k, v) ∈ l <-> m !! k = Some v) -> l = map_entries m.
Proof.
  intros Hs Heq. apply sorted_entries_ext; [done|apply map_entries_sorted|].
  intros [k v]. by rewrite Heq, map_entries_elem.
Qed.

(** ** Write batches *)

Inductive batch_op :=
| BPut (k v : bytes)
| BDelete (k : bytes).

Abbreviation WriteBatch := (list batch_op).

Definition apply_op (m : gmap bytes bytes) (op : batch_op) : gmap bytes bytes :=
  match op with
  | BPut k v => <[k := v]> m
  | BDelete k => delete k m
  end.

Definition apply_ops (m : gmap bytes bytes) (wb : WriteBatch) : gmap bytes bytes :=
  foldl apply_op m wb.

Definition op_key (op : batch_op) : bytes :=
  match op with BPut k _ => k | BDelete k => k end.

Lemma apply_ops_app m wb1 wb2 : apply_ops m (wb1 ++ wb2) = apply_ops (apply_ops m wb1) wb2.
Proof. apply foldl_app. Qed.

(** Keys a batch does not name are untouched. *)
Lemma apply_ops_other m wb k :
  Forall (fun op => op_key op <> k) wb -> apply_ops m wb !! k = m !! k.
Proof.
  revert m; induction wb as [|op wb IH]; intros m Hall; [done|].
  inversion Hall as [|? ? Hop Hwb]; subst. cbn. unfold apply_ops in IH. rewrite IH by done.
  destruct op; cbn in *; by simplify_map_eq.
Qed.

(** ** The interface *)

Class RocksDB (DB : Type) := {
  db_view : DB -> gmap bytes bytes;
  db_get : DB -> bytes -> option bytes;
  db_put : DB -> bytes -> bytes -> DB;
  db_delete : DB -> bytes -> DB;
  db_write : DB -> WriteBatch -> DB;
  (** [IteratorMode::From(k, Direction::Forward)] *)
  db_iter_from : DB -> bytes -> list kv;
  (** [IteratorMode::From(k, Direction::Reverse)] *)
  db_iter_from_rev : DB -> bytes -> list kv;
  (** [IteratorMode::End] *)
  db_iter_end : DB -> list kv;
}.

Class RocksLaws (DB : Type) `{!RocksDB DB} : Prop := {
  db_get_spec d k : db_get d k = db_view d !! k;
  db_put_spec d k v : db_view (db_put d k v) = <[k := v]> (db_view d);
  db_delete_spec d k : db_view (db_delete d k) = delete k (db_view d);
  db_write_spec d wb : db_view (db_write d wb) = apply_ops (db_view d) wb;
  db_iter_from_spec d k :
    db_iter_from d k = filter (fun e => k <=b e.1) (map_entries (db_view d));
  db_iter_from_rev_spec d k :
    db_iter_from_rev d k = reverse (filter (fun e => e.1 <=b k) (map_entries (db_view d)));
  db_iter_end_spec d : db_iter_end d = reverse (map_entries (db_view d));
}.

(** The laws hold of a finite map. *)
#[global] Instance gmap_rocks : RocksDB (gmap bytes bytes) := {
  db_view := id;
  db_get m k := m !! k;
  db_put m k v := <[k := v]> m;
  db_delete m k := delete k m;
  db_write := apply_ops;
  db_iter_from m k := filter (fun e => k <=b e.1) (map_entries m);
  db_iter_from_rev m k := reverse (filter (fun e => e.1 <=b k) (map_entries m));
  db_iter_end m := reverse (map_entries m);
}.

#[global] Instance gmap_rocks_laws : RocksLaws (gmap bytes bytes).
Proof. by split. Qed.

(** ** Prefix scans *)

Lemma take_while_filter {A} (f : A -> bool) (l : list A) :
  StronglySorted (fun a b => f a = false -> f b = false) l ->
  take_while f l = filter (fun x => f x = true) l.
Proof.
  induction 1 as [|x l Hs IH Hall]; [done|]. cbn [take_while]. destruct (f x) eqn:E.
  - rewrite filter_cons_True by done. by rewrite IH.
  - rewrite filter_cons_False by congruence. symmetry.
    clear IH Hs. induction Hall as [|y l Hy Hl IH]; [done|].
    rewrite filter_cons_False by (rewrite Hy by done; congruence). done.
Qed.

Lemma sorted_weaken {A} (R S : A -> A -> Prop) l :
  (forall a b, a ∈ l -> b ∈ l -> R a b -> S a b) -> StronglySorted R l -> StronglySorted S l.
Proof.
  intros H Hs. induction Hs as [|x l Hs IH Hall]; [constructor|]. constructor.
  - apply IH. intros a b Ha Hb. apply H; set_solver.
  - rewrite Forall_forall in Hall |- *. intros y Hy. apply H; [set_solver|set_solver|auto].
Qed.

(** From the prefix on, the keys that carry it come first. *)
Lemma prefix_scan (m : gmap bytes bytes) p :
  take_while (fun e : kv => starts_with e.1 p) (filter (fun e : kv => p <=b e.1) (map_entries m))
  = filter (fun e : kv => starts_with e.1 p = true) (map_entries m).
Proof.
  rewrite take_while_filter.
  - rewrite list_filter_filter_l; [done|]. intros e. rewrite prefix_range. by intros [? _].
  - apply (sorted_weaken key_lt); [|by apply sorted_entries_filter, map_entries_sorted].
    intros a b [Ha _]%list_elem_of_filter [Hb _]%list_elem_of_filter Hab Hf.
    destruct (starts_with b.1 p) eqn:E; [|done]. exfalso. apply prefix_range in E as [_ E].
    assert (starts_with a.1 p = true); [|congruence]. apply prefix_range. split; [done|].
    unfold key_lt in Hab. destruct (prefix_end_exclusive p); [border|done].
Qed.

Lemma db_prefix_scan `{!RocksDB DB, !RocksLaws DB} (d : DB) p :
  take_while (fun e : kv => starts_with e.1 p) (db_iter_from d p)
  = filter (fun e : kv => starts_with e.1 p = true) (map_entries (db_view d)).
Proof. rewrite db_iter_from_spec. apply prefix_scan. Qed.

Lemma apply_deletes m ks k :
  apply_ops m (BDelete <$> ks) !! k = if decide (k ∈ ks) then None else m !! k.
Proof.
  revert m; induction ks as [|x ks IH]; intros m.
  - cbn. rewrite decide_False; [done|apply not_elem_of_nil].
  - change (apply_ops (delete x m) (BDelete <$> ks) !! k
            = if decide (k ∈ x :: ks) then None else m !! k).
    rewrite IH. destruct (decide (x = k)) as [->|Hne].
    + rewrite lookup_delete_eq, (decide_True (P := k ∈ k :: ks)) by set_solver. by case_decide.
    + rewrite lookup_delete_ne by done. repeat case_decide; set_solver.
Qed.
