(* ===== verification/TreeNode.v ===== *)
(** * Nodes of the persistent Merkle B+tree

    Models the data types, key families, node codec and searches of
    [src/runtime/tree_db.rs].  SHA-256 and borsh are third-party: they are the
    fields of [NodeCodec], and [CodecLaws] states what the tree relies on, on a
    set of nodes [U] (those of a given run): borsh decodes what it encoded and no
    two of these nodes have the same digest. *)
From Stdlib Require Import Strings.Byte.
From stdpp Require Import strings.
From S2P Require Import Prelude Bytes Rocks.
From stdpp Require Import options.

Open Scope nat_scope.

(** ** Constants *)

Definition ROOT_PREFIX : bytes := bstr "__espo_bptree:".
Definition NODE_PREFIX : bytes := bstr "__espo_bptree:node:".
Definition META_ACTIVE_ROOT : bytes := bstr "__espo_bptree:meta:active_root".
Definition META_ACTIVE_BLOCK : bytes := bstr "__espo_bptree:meta:active_block".
Definition META_PINNED_ROOT : bytes := bstr "__espo_bptree:meta:pinned_root".
Definition META_PIN_UNTIL_HEIGHT : bytes := bstr "__espo_bptree:meta:pin_until_height".
Definition BLOCK_ROOT_PREFIX : bytes := bstr "__espo_bptree:block:".
Definition HEIGHT_BLOCK_PREFIX : bytes := bstr "__espo_bptree:height:".
Definition BLOCK_HEIGHT_PREFIX : bytes := bstr "__espo_bptree:block_height:".
Definition BLOCK_PARENT_PREFIX : bytes := bstr "__espo_bptree:parent:".

Definition MAX_LEAF_ENTRIES : nat := 128.
Definition MAX_INTERNAL_KEYS : nat := 128.
Definition NODE_PAGE_BYTES : Z := 16 * 1024.
Definition BATCH_PENDING_GC_INTERVAL : Z := 8192.
Definition BATCH_PENDING_SOFT_LIMIT : Z := 25000.
Definition BATCH_PENDING_SOFT_GC_INTERVAL : Z := 4096.
Definition BATCH_PENDING_HARD_LIMIT : Z := 50000.

(** ** Nodes.  A node id, [[u8; 32]], is a byte string. *)

Record LeafEntry := mkLeafEntry { le_key : bytes; le_value : option bytes }.

Record LeafNode := mkLeafNode { entries : list LeafEntry; next : option bytes }.

Record InternalNode := mkInternalNode { keys : list bytes; children : list bytes }.

Inductive BptreeNode :=
| Leaf (leaf : LeafNode)
| Internal (internal : InternalNode).

Definition LeafNode_default : LeafNode := mkLeafNode [] None.
Definition InternalNode_default : InternalNode := mkInternalNode [] [].

#[global] Instance LeafEntry_eq_dec : EqDecision LeafEntry.
Proof. solve_decision. Defined.
#[global] Instance LeafNode_eq_dec : EqDecision LeafNode.
Proof. solve_decision. Defined.
#[global] Instance InternalNode_eq_dec : EqDecision InternalNode.
Proof. solve_decision. Defined.
#[global] Instance BptreeNode_eq_dec : EqDecision BptreeNode.
Proof. solve_decision. Defined.

Inductive MutationOutcome :=
| MNode (id : bytes)
| MSplit (left right separator : bytes).

(** ** The codec *)

Class NodeCodec := {
  sha256 : bytes -> bytes;
  borsh_to_vec : BptreeNode -> bytes;
  borsh_try_from_slice : bytes -> option BptreeNode;
}.

Section Codec.
Context {codec : NodeCodec}.

Definition hash_node (node : BptreeNode) : bytes := sha256 (borsh_to_vec node).

Definition encode_node_page (node : BptreeNode) : bytes := borsh_to_vec node.

(** The second attempt decodes the fixed 16 KiB pages of older databases: a
    four-byte length and the payload. *)
Definition decode_node_page (b : bytes) : option BptreeNode :=
  match borsh_try_from_slice b with
  | Some node => Some node
  | None =>
      if (Z.of_nat (length b) =? NODE_PAGE_BYTES)%Z then
        if (Z.of_nat (length b) <? 4)%Z then None
        else
          let payload_len := from_be (take 4 b) in
          if (NODE_PAGE_BYTES <? payload_len + 4)%Z then None
          else borsh_try_from_slice (take (Z.to_nat payload_len) (drop 4 b))
      else None
  end.

Definition empty_root_id : bytes := hash_node (Leaf LeafNode_default).

End Codec.

(** What the tree relies on, for the nodes [U] that ever occur. *)
Class CodecLaws `{!NodeCodec} (U : BptreeNode -> Prop) : Prop := {
  sha256_len b : length (sha256 b) = 32;
  borsh_roundtrip n : U n -> borsh_try_from_slice (borsh_to_vec n) = Some n;
  hash_collision_free a b : U a -> U b -> hash_node a = hash_node b -> a = b;
  U_empty : U (Leaf LeafNode_default);
}.

(** ** Key families *)

Definition node_key (id : bytes) : bytes := NODE_PREFIX ++ id.
Definition block_root_key (hash : bytes) : bytes := BLOCK_ROOT_PREFIX ++ hash.
Definition height_block_key (height : Z) : bytes := HEIGHT_BLOCK_PREFIX ++ be_bytes 4 height.
Definition block_height_key (block_hash : bytes) : bytes := BLOCK_HEIGHT_PREFIX ++ block_hash.
Definition block_parent_key (block_hash : bytes) : bytes := BLOCK_PARENT_PREFIX ++ block_hash.

Definition decode_height_block_key (key : bytes) : option Z :=
  if negb (length key =? length HEIGHT_BLOCK_PREFIX + 4)
     || negb (starts_with key HEIGHT_BLOCK_PREFIX)
  then None
  else Some (from_be (drop (length HEIGHT_BLOCK_PREFIX) key)).

Definition is_tree_internal_key (full_key : bytes) : bool := starts_with full_key ROOT_PREFIX.

(** ** Searches *)

(** [child_index_for_key]: the bisection loop on [lo, hi). *)
Fixpoint child_index_loop (fuel : nat) (ks : list bytes) (key : bytes) (lo hi : nat) : nat :=
  match fuel with
  | O => lo
  | S fuel' =>
      if lo <? hi then
        let mid := (lo + hi) / 2 in
        if bytes_ltb key (default [] (ks !! mid))
        then child_index_loop fuel' ks key lo mid
        else child_index_loop fuel' ks key (mid + 1) hi
      else lo
  end.

Definition child_index_for_key (ks : list bytes) (key : bytes) : nat :=
  child_index_loop (S (length ks)) ks key 0 (length ks).

(** [entries.binary_search_by(|e| e.key.cmp(key))]: [inl] the index of the key, [inr] the
    index it would be inserted at. *)
Definition binary_search (es : list LeafEntry) (key : bytes) : nat + nat :=
  let i := partition_point (fun e => bytes_ltb (le_key e) key) es in
  match es !! i with
  | Some e => if bytes_eqb (le_key e) key then inl i else inr i
  | None => inr i
  end.
