(* ===== verification/TreeDb.v ===== *)
(** * The versioned tree database: operations

    The operations of [VersionedTreeDb] in [src/runtime/tree_db.rs], one
    definition per function, on explicit states: the RocksDB handle, the batch
    cache and the [TreeState] behind the lock.  Functions that follow node ids
    take [fuel], an upper bound on the number of nodes on a path (and, for
    scans, of leaves visited); [None] means the fuel ran out.  A [Vec] used as a
    stack is a list whose head is the top. *)
From Stdlib Require Import Strings.Byte.
From S2P Require Import Prelude Bytes Rocks TreeNode.
From stdpp Require Import options.

Open Scope nat_scope.

(** ** State *)

Record BlockContext := mkBlockContext {
  bc_height : Z;
  bc_block_hash : bytes;
  bc_parent_hash : bytes;
  bc_working_root : bytes;
}.

Record TreeState := mkTreeState {
  active_root_ : bytes;
  active_block : option bytes;
  pinned_root : option bytes;
  pin_until_height : option Z;
  current_block : option BlockContext;
}.

Record BatchWriteContext := mkBatch {
  pending_nodes : gmap bytes BptreeNode;
  ops_since_gc : Z;
}.

Definition BatchWriteContext_default : BatchWriteContext := mkBatch ∅ 0.

Definition usize_max : Z := 2 ^ 64 - 1.

(** [anyhow] errors of the block operations. *)
Inductive TreeError :=
| MissingParentRoot (height : Z) (parent_hash : bytes)
| MissingBlockHash (height : Z)
| MissingRoot (height : Z) (block_hash : bytes).

(** The store a mutation runs against: the database and, in a batch, the cache of nodes
    not yet written. *)
Record Env {DB : Type} := mkEnv { env_db : DB; env_ctx : option BatchWriteContext }.
Arguments Env : clear implicits.
Arguments mkEnv {DB} _ _.

Record VersionedTreeDb {DB : Type} := mkTree { tdb : DB; state : TreeState }.
Arguments VersionedTreeDb : clear implicits.
Arguments mkTree {DB} _ _.

(** A change of a batch: a new value, or [None] for a deletion. *)
Abbreviation Change := (bytes * option bytes)%type.

(** The stack of (internal node, child index) from a leaf up to the root. *)
Abbreviation Path := (list (bytes * nat)).

Section Ops.
Context {DB : Type} {rocks : RocksDB DB} {codec : NodeCodec}.

Definition TreeState_default : TreeState :=
  mkTreeState empty_root_id None None None None.

(** ** Loading and storing nodes *)

Definition load_node (db : DB) (id : bytes) : BptreeNode :=
  match db_get db (node_key id) with
  | None => Leaf LeafNode_default
  | Some b =>
      match decode_node_page b with
      | Some node => node
      | None => Leaf LeafNode_default
      end
  end.

Definition load_leaf (db : DB) (id : bytes) : LeafNode :=
  match load_node db id with
  | Leaf leaf => leaf
  | Internal _ => LeafNode_default
  end.

Definition load_internal (db : DB) (id : bytes) : InternalNode :=
  match load_node db id with
  | Internal node => node
  | Leaf _ => InternalNode_default
  end.

Definition load_node_with_ctx (env : Env DB) (id : bytes) : BptreeNode :=
  match env_ctx env with
  | Some ctx =>
      match pending_nodes ctx !! id with
      | Some node => node
      | None => load_node (env_db env) id
      end
  | None => load_node (env_db env) id
  end.

Definition store_node_with_ctx (env : Env DB) (node : BptreeNode) : Env DB * bytes :=
  let id := hash_node node in
  match env_ctx env with
  | Some ctx =>
      let pending :=
        match pending_nodes ctx !! id with
        | Some _ => pending_nodes ctx
        | None => <[id := node]> (pending_nodes ctx)
        end in
      (mkEnv (env_db env) (Some (mkBatch pending (ops_since_gc ctx))), id)
  | None =>
      let key := node_key id in
      match db_get (env_db env) key with
      | None => (mkEnv (db_put (env_db env) key (encode_node_page node)) None, id)
      | Some _ => (env, id)
      end
  end.

(** ** Point reads *)

Fixpoint get_at_root (fuel : nat) (db : DB) (root : bytes) (key : bytes)
    : option (option bytes) :=
  match fuel with
  | O => None
  | S fuel' =>
      match load_node db root with
      | Leaf leaf =>
          match binary_search (entries leaf) key with
          | inl idx => Some (entries leaf !! idx ≫= le_value)
          | inr _ => Some None
          end
      | Internal internal =>
          match children internal with
          | [] => Some None
          | _ :: _ =>
              let idx := child_index_for_key (keys internal) key in
              match children internal !! idx with
              | Some next => get_at_root fuel' db next key
              | None => Some None
              end
          end
      end
  end.

(** The [while end < len && same child] run that starts at the head of the list. *)
Definition run_length (ks : list bytes) (qs : list bytes) (child_idx : nat) (rest : list nat) : nat :=
  S (partition_point
       (fun i => child_index_for_key ks (default [] (qs !! i)) =? child_idx) (tail rest)).

(** The loop over the runs of queries that go to the same child; [n] bounds the runs. *)
Fixpoint multi_get_groups (rec : bytes -> list nat -> list (option bytes) -> option (list (option bytes)))
    (internal : InternalNode) (qs : list bytes) (n : nat) (rest : list nat)
    (out : list (option bytes)) : option (list (option bytes)) :=
  match n, rest with
  | O, _ => Some out
  | _, [] => Some out
  | S n', first :: _ =>
      let child_idx := child_index_for_key (keys internal) (default [] (qs !! first)) in
      let len := run_length (keys internal) qs child_idx rest in
      match children internal !! child_idx with
      | Some child_id =>
          match rec child_id (take len rest) out with
          | Some out' => multi_get_groups rec internal qs n' (drop len rest) out'
          | None => None
          end
      | None => multi_get_groups rec internal qs n' (drop len rest) out
      end
  end.

(** One query answered in a leaf. *)
Definition multi_get_leaf1 (es : list LeafEntry) (qs : list bytes) (out : list (option bytes))
    (idx : nat) : list (option bytes) :=
  match binary_search es (default [] (qs !! idx)) with
  | inl entry_idx => <[idx := es !! entry_idx ≫= le_value]> out
  | inr _ => out
  end.

Fixpoint multi_get_node (fuel : nat) (db : DB) (qs : list bytes) (node_id : bytes)
    (sorted_indices : list nat) (out : list (option bytes)) : option (list (option bytes)) :=
  match fuel with
  | O => None
  | S fuel' =>
      match sorted_indices with
      | [] => Some out
      | _ :: _ =>
          match load_node db node_id with
          | Leaf leaf => Some (foldl (multi_get_leaf1 (entries leaf) qs) out sorted_indices)
          | Internal internal =>
              match children internal with
              | [] => Some out
              | _ :: _ =>
                  multi_get_groups (multi_get_node fuel' db qs) internal qs
                    (length sorted_indices) sorted_indices out
              end
          end
      end
  end.

Definition multi_get_at_root (fuel : nat) (db : DB) (root : bytes) (qs : list bytes)
    : option (list (option bytes)) :=
  match qs with
  | [] => Some []
  | _ :: _ =>
      let sorted_indices :=
        sort_by (fun a b => bytes_leb (default [] (qs !! a)) (default [] (qs !! b)))
                (seq 0 (length qs)) in
      multi_get_node fuel db qs root sorted_indices (replicate (length qs) None)
  end.

(** ** Mutation *)

(** The leaf branch of [mutate_node] up to the size check: the new entries and [changed]. *)
Definition mutate_leaf (es : list LeafEntry) (key : bytes) (value : option bytes)
    : list LeafEntry * bool :=
  let '(es1, changed1) :=
    match binary_search es key with
    | inl idx =>
        match value with
        | Some next =>
            if bool_decide ((es !! idx ≫= le_value) = Some next) then (es, false)
            else (<[idx := mkLeafEntry key (Some next)]> es, true)
        | None => (vec_remove idx es, true)
        end
    | inr idx =>
        match value with
        | Some next => (vec_insert idx (mkLeafEntry key (Some next)) es, true)
        | None => (es, false)
        end
    end in
  if existsb (fun e => bool_decide (le_value e = None)) es1
  then (filter (fun e => is_Some (le_value e)) es1, true)
  else (es1, changed1).

(** The tail of the internal branch: store the node, or split it at half. *)
Definition finish_internal (env : Env DB) (ks cs : list bytes) : Env DB * MutationOutcome :=
  if length ks <=? MAX_INTERNAL_KEYS then
    let '(env1, new_id) := store_node_with_ctx env (Internal (mkInternalNode ks cs)) in
    (env1, MNode new_id)
  else
    let mid := length ks / 2 in
    let separator := default [] (ks !! mid) in
    let left_keys := take mid ks in
    let right_keys := drop (mid + 1) ks in
    let left_children := take (mid + 1) cs in
    let right_children := drop (mid + 1) cs in
    let '(env1, left_id) :=
      store_node_with_ctx env (Internal (mkInternalNode left_keys left_children)) in
    let '(env2, right_id) :=
      store_node_with_ctx env1 (Internal (mkInternalNode right_keys right_children)) in
    (env2, MSplit left_id right_id separator).

Fixpoint mutate_node (fuel : nat) (env : Env DB) (node_id key : bytes) (value : option bytes)
    : option (Env DB * MutationOutcome) :=
  match fuel with
  | O => None
  | S fuel' =>
      match load_node_with_ctx env node_id with
      | Leaf leaf =>
          let '(es, changed) := mutate_leaf (entries leaf) key value in
          if negb changed then Some (env, MNode node_id)
          else if length es <=? MAX_LEAF_ENTRIES then
            let '(env1, new_id) := store_node_with_ctx env (Leaf (mkLeafNode es (next leaf))) in
            Some (env1, MNode new_id)
          else
            let mid := length es / 2 in
            let right_entries := drop mid es in
            let left_entries := take mid es in
            let separator := default [] (le_key <$> head right_entries) in
            let '(env1, right_id) :=
              store_node_with_ctx env (Leaf (mkLeafNode right_entries (next leaf))) in
            let '(env2, left_id) :=
              store_node_with_ctx env1 (Leaf (mkLeafNode left_entries (Some right_id))) in
            Some (env2, MSplit left_id right_id separator)
      | Internal internal =>
          match children internal with
          | [] => Some (env, MNode node_id)
          | _ :: _ =>
              let idx := child_index_for_key (keys internal) key in
              match children internal !! idx with
              | None => Some (env, MNode node_id)
              | Some child_id =>
                  match mutate_node fuel' env child_id key value with
                  | None => None
                  | Some (env1, outcome) =>
                      match outcome with
                      | MNode new_child =>
                          if bytes_eqb new_child child_id then Some (env1, MNode node_id)
                          else Some (finish_internal env1 (keys internal)
                                       (<[idx := new_child]> (children internal)))
                      | MSplit left_id right_id separator =>
                          Some (finish_internal env1
                                  (vec_insert idx separator (keys internal))
                                  (vec_insert (idx + 1) right_id
                                     (<[idx := left_id]> (children internal))))
                      end
                  end
              end
          end
      end
  end.

Definition apply_single (fuel : nat) (env : Env DB) (root key : bytes) (value : option bytes)
    : option (Env DB * bytes) :=
  match mutate_node fuel env root key value with
  | None => None
  | Some (env1, MNode id) => Some (env1, id)
  | Some (env1, MSplit left_id right_id separator) =>
      Some (store_node_with_ctx env1 (Internal (mkInternalNode [separator] [left_id; right_id])))
  end.

(** ** The batch cache *)

Definition node_children (n : BptreeNode) : list bytes :=
  match n with Leaf _ => [] | Internal internal => children internal end.

(** Children are pushed in order, so the last one is on top. *)
Definition push_children (n : BptreeNode) (stack : list bytes) : list bytes :=
  foldl (fun st child => child :: st) stack (node_children n).

(** An upper bound on the iterations of the two walks below: the root and every child of
    every pending node is pushed at most once. *)
Definition walk_fuel (pending : gmap bytes BptreeNode) : nat :=
  2 + map_fold (fun _ n acc => length (node_children n) + acc) 0 pending.

Fixpoint mark_reachable (fuel : nat) (pending : gmap bytes BptreeNode)
    (stack : list bytes) (reachable : gset bytes) : option (gset bytes) :=
  match fuel with
  | O => None
  | S fuel' =>
      match stack with
      | [] => Some reachable
      | id :: stack' =>
          if bool_decide (id ∈ reachable) then mark_reachable fuel' pending stack' reachable
          else
            let reachable' := {[id]} ∪ reachable in
            match pending !! id with
            | None => mark_reachable fuel' pending stack' reachable'
            | Some node => mark_reachable fuel' pending (push_children node stack') reachable'
            end
      end
  end.

Definition retain_reachable_pending_nodes (root : bytes) (ctx : BatchWriteContext)
    : option BatchWriteContext :=
  if bool_decide (pending_nodes ctx = ∅) then Some ctx
  else
    match mark_reachable (walk_fuel (pending_nodes ctx)) (pending_nodes ctx) [root] ∅ with
    | None => None
    | Some reachable =>
        if size reachable =? size (pending_nodes ctx) then Some ctx
        else Some (mkBatch (filter (fun e => e.1 ∈ reachable) (pending_nodes ctx))
                           (ops_since_gc ctx))
    end.

Fixpoint flush_walk (fuel : nat) (pending : gmap bytes BptreeNode)
    (stack : list bytes) (visited : gset bytes) (wb : WriteBatch) : option WriteBatch :=
  match fuel with
  | O => None
  | S fuel' =>
      match stack with
      | [] => Some wb
      | id :: stack' =>
          if bool_decide (id ∈ visited) then flush_walk fuel' pending stack' visited wb
          else
            let visited' := {[id]} ∪ visited in
            match pending !! id with
            | None => flush_walk fuel' pending stack' visited' wb
            | Some node =>
                flush_walk fuel' pending (push_children node stack') visited'
                  (wb ++ [BPut (node_key id) (encode_node_page node)])
            end
      end
  end.

Definition flush_pending_batch_nodes (db : DB) (root : bytes) (ctx : BatchWriteContext)
    : option DB :=
  if bool_decide (pending_nodes ctx = ∅) then Some db
  else
    match flush_walk (walk_fuel (pending_nodes ctx)) (pending_nodes ctx) [root] ∅ [] with
    | None => None
    | Some [] => Some db
    | Some wb => Some (db_write db wb)
    end.

Definition maybe_compact_batch_nodes (db : DB) (root : bytes) (ctx : BatchWriteContext)
    : option (DB * BatchWriteContext) :=
  if bool_decide (pending_nodes ctx = ∅) then Some (db, ctx)
  else
    let ops := Z.min usize_max (ops_since_gc ctx + 1) in
    let pending_len := Z.of_nat (size (pending_nodes ctx)) in
    let over_soft := (BATCH_PENDING_SOFT_LIMIT <=? pending_len)%Z in
    let should_gc := (BATCH_PENDING_GC_INTERVAL <=? ops)%Z
                     || (over_soft && (BATCH_PENDING_SOFT_GC_INTERVAL <=? ops)%Z) in
    let ctx1 := mkBatch (pending_nodes ctx) ops in
    octx2 ← (if should_gc
             then ctx' ← retain_reachable_pending_nodes root ctx1;
                  Some (mkBatch (pending_nodes ctx') 0)
             else Some ctx1);
    if (BATCH_PENDING_HARD_LIMIT <=? Z.of_nat (size (pending_nodes octx2)))%Z then
      ctx3 ← retain_reachable_pending_nodes root octx2;
      db' ← flush_pending_batch_nodes db root ctx3;
      Some (db', mkBatch ∅ 0)
    else Some (db, octx2).

(** ** [apply_batch_owned] *)

Definition change_leb (a b : Change) : bool := bytes_leb a.1 b.1.

(** The in-place compaction loop over the sorted changes: [read] runs over the indices,
    [write] is the length of the compacted prefix. *)
Fixpoint canonical_loop (n read write : nat) (cs : list Change) : nat * list Change :=
  match n with
  | O => (write, cs)
  | S n' =>
      let cur := default ([], None) (cs !! read) in
      let prev := default ([], None) (cs !! (write - 1)) in
      if (0 <? write) && bytes_eqb prev.1 cur.1 then
        let cs1 := <[read := (cur.1, None)]> cs in
        canonical_loop n' (S read) write (<[write - 1 := (prev.1, cur.2)]> cs1)
      else if negb (write =? read) then
        let at_write := default ([], None) (cs !! write) in
        canonical_loop n' (S read) (S write) (<[read := at_write]> (<[write := cur]> cs))
      else canonical_loop n' (S read) (S write) cs
  end.

Definition canonicalize (changes : list Change) : list Change :=
  let sorted := sort_by change_leb changes in
  let '(write, cs) := canonical_loop (length sorted) 0 0 sorted in
  take write cs.

(** The mutation loop: each change through the cache, then a compaction. *)
Fixpoint batch_loop (fuel : nat) (db : DB) (ctx : BatchWriteContext) (root : bytes)
    (cs : list Change) : option (DB * BatchWriteContext * bytes) :=
  match cs with
  | [] => Some (db, ctx, root)
  | (k, v) :: cs' =>
      match apply_single fuel (mkEnv db (Some ctx)) root k v with
      | Some (mkEnv db1 (Some ctx1), root1) =>
          match maybe_compact_batch_nodes db1 root1 ctx1 with
          | Some (db2, ctx2) => batch_loop fuel db2 ctx2 root1 cs'
          | None => None
          end
      | _ => None
      end
  end.

(** The loop and the final flush of the nodes still pending. *)
Definition batch_apply (fuel : nat) (db : DB) (root : bytes) (cs : list Change)
    : option (DB * bytes) :=
  match batch_loop fuel db BatchWriteContext_default root cs with
  | Some (db1, ctx1, root1) =>
      match flush_pending_batch_nodes db1 root1 ctx1 with
      | Some db2 => Some (db2, root1)
      | None => None
      end
  | None => None
  end.

Definition set_active_root (st : TreeState) (root : bytes) : TreeState :=
  mkTreeState root (active_block st) (pinned_root st) (pin_until_height st) (current_block st).

Definition set_current_block (st : TreeState) (cb : option BlockContext) : TreeState :=
  mkTreeState (active_root_ st) (active_block st) (pinned_root st) (pin_until_height st) cb.

Definition set_working_root (ctx : BlockContext) (root : bytes) : BlockContext :=
  mkBlockContext (bc_height ctx) (bc_block_hash ctx) (bc_parent_hash ctx) root.

(** The write batch that records the active root after a change outside a block. *)
Definition active_meta (root : bytes) (st : TreeState) : WriteBatch :=
  BPut META_ACTIVE_ROOT root ::
  match active_block st with
  | Some b => [BPut META_ACTIVE_BLOCK b]
  | None => []
  end.

Definition apply_batch_owned (fuel : nat) (T : VersionedTreeDb DB) (changes : list Change)
    : option (VersionedTreeDb DB) :=
  match changes with
  | [] => Some T
  | _ :: _ =>
      let cs := canonicalize changes in
      let st := state T in
      match current_block st with
      | Some ctx =>
          '(db', root) ← batch_apply fuel (tdb T) (bc_working_root ctx) cs;
          Some (mkTree db' (set_current_block st (Some (set_working_root ctx root))))
      | None =>
          '(db', root) ← batch_apply fuel (tdb T) (active_root_ st) cs;
          Some (mkTree (db_write db' (active_meta root st)) (set_active_root st root))
      end
  end.

Definition apply_batch (fuel : nat) (T : VersionedTreeDb DB) (changes : list Change)
    : option (VersionedTreeDb DB) :=
  match changes with
  | [] => Some T
  | _ :: _ => apply_batch_owned fuel T changes
  end.

Definition apply_mutation (fuel : nat) (T : VersionedTreeDb DB) (key : bytes)
    (value : option bytes) : option (VersionedTreeDb DB) :=
  let st := state T in
  match current_block st with
  | Some ctx =>
      '(env, root) ← apply_single fuel (mkEnv (tdb T) None) (bc_working_root ctx) key value;
      Some (mkTree (env_db env) (set_current_block st (Some (set_working_root ctx root))))
  | None =>
      '(env, root) ← apply_single fuel (mkEnv (tdb T) None) (active_root_ st) key value;
      Some (mkTree (db_write (env_db env) (active_meta root st)) (set_active_root st root))
  end.

Definition put (fuel : nat) (T : VersionedTreeDb DB) (key value : bytes)
    : option (VersionedTreeDb DB) := apply_mutation fuel T key (Some value).

Definition delete_key (fuel : nat) (T : VersionedTreeDb DB) (key : bytes)
    : option (VersionedTreeDb DB) := apply_mutation fuel T key None.

(** ** Leaf traversal *)

Fixpoint find_leaf_loop (fuel : nat) (db : DB) (current key : bytes) (path : Path)
    : option (option (bytes * Path)) :=
  match fuel with
  | O => None
  | S fuel' =>
      match load_node db current with
      | Leaf _ => Some (Some (current, path))
      | Internal internal =>
          match children internal with
          | [] => Some None
          | _ :: _ =>
              let idx := child_index_for_key (keys internal) key in
              match children internal !! idx with
              | None => Some None
              | Some next => find_leaf_loop fuel' db next key ((current, idx) :: path)
              end
          end
      end
  end.

Definition find_leaf_with_path (fuel : nat) (db : DB) (root key : bytes)
    : option (option (bytes * Path)) := find_leaf_loop fuel db root key [].

Fixpoint rightmost_leaf_loop (fuel : nat) (db : DB) (current : bytes) (path : Path)
    : option (option (bytes * Path)) :=
  match fuel with
  | O => None
  | S fuel' =>
      match load_node db current with
      | Leaf _ => Some (Some (current, path))
      | Internal internal =>
          match length (children internal) with
          | O => Some None
          | S last_idx =>
              match children internal !! last_idx with
              | None => Some None
              | Some next => rightmost_leaf_loop fuel' db next ((current, last_idx) :: path)
              end
          end
      end
  end.

Definition rightmost_leaf_with_path (fuel : nat) (db : DB) (root : bytes)
    : option (option (bytes * Path)) := rightmost_leaf_loop fuel db root [].

(** The inner loop of [next_leaf_from_path]: down the first children. *)
Fixpoint leftmost_descent (fuel : nat) (db : DB) (node_id : bytes) (path : Path)
    : option (option bytes * Path) :=
  match fuel with
  | O => None
  | S fuel' =>
      match load_node db node_id with
      | Leaf _ => Some (Some node_id, path)
      | Internal next_internal =>
          match children next_internal with
          | [] => Some (None, path)
          | first :: _ => leftmost_descent fuel' db first ((node_id, 0) :: path)
          end
      end
  end.

Fixpoint next_leaf_from_path (fuel : nat) (db : DB) (path : Path)
    : option (option bytes * Path) :=
  match path with
  | [] => Some (None, [])
  | (internal_id, child_idx) :: path' =>
      let internal := load_internal db internal_id in
      let next_idx := child_idx + 1 in
      match children internal !! next_idx with
      | None => next_leaf_from_path fuel db path'
      | Some node_id => leftmost_descent fuel db node_id ((internal_id, next_idx) :: path')
      end
  end.

(** The inner loop of [prev_leaf_from_path]: down the last children. *)
Fixpoint rightmost_descent (fuel : nat) (db : DB) (node_id : bytes) (path : Path)
    : option (option bytes * Path) :=
  match fuel with
  | O => None
  | S fuel' =>
      match load_node db node_id with
      | Leaf _ => Some (Some node_id, path)
      | Internal prev_internal =>
          match length (children prev_internal) with
          | O => Some (None, path)
          | S last_idx =>
              rightmost_descent fuel' db (default [] (children prev_internal !! last_idx))
                ((node_id, last_idx) :: path)
          end
      end
  end.

Fixpoint prev_leaf_from_path (fuel : nat) (db : DB) (path : Path)
    : option (option bytes * Path) :=
  match path with
  | [] => Some (None, [])
  | (internal_id, child_idx) :: path' =>
      match child_idx with
      | O => prev_leaf_from_path fuel db path'
      | S prev_idx =>
          let internal := load_internal db internal_id in
          match children internal !! prev_idx with
          | None => prev_leaf_from_path fuel db path'
          | Some node_id => rightmost_descent fuel db node_id ((internal_id, prev_idx) :: path')
          end
      end
  end.

(** ** Range scans *)

(** [entry.key >= end] for an optional exclusive end. *)
Definition past_end (end_exclusive : option bytes) (k : bytes) : bool :=
  match end_exclusive with Some e => bytes_leb e k | None => false end.

(** The entries of one leaf: [true] when the scan reached the end bound and returned. *)
Fixpoint range_scan_leaf (es : list LeafEntry) (end_exclusive : option bytes)
    (out : list kv) : list kv * bool :=
  match es with
  | [] => (out, false)
  | e :: es' =>
      if past_end end_exclusive (le_key e) then (out, true)
      else
        match le_value e with
        | Some v => range_scan_leaf es' end_exclusive (out ++ [(le_key e, v)])
        | None => range_scan_leaf es' end_exclusive out
        end
  end.

Definition first_index (first_leaf : bool) (start : bytes) (es : list LeafEntry) : nat :=
  if first_leaf then partition_point (fun e => bytes_ltb (le_key e) start) es else 0.

Fixpoint range_loop (fuel dfuel : nat) (db : DB) (cursor : bytes) (path : Path)
    (first_leaf : bool) (start : bytes) (end_exclusive : option bytes) (out : list kv)
    : option (list kv) :=
  match fuel with
  | O => None
  | S fuel' =>
      let leaf := load_leaf db cursor in
      let start_idx := first_index first_leaf start (entries leaf) in
      match range_scan_leaf (drop start_idx (entries leaf)) end_exclusive out with
      | (out', true) => Some out'
      | (out', false) =>
          match next_leaf_from_path dfuel db path with
          | None => None
          | Some (None, _) => Some out'
          | Some (Some next, path') =>
              range_loop fuel' dfuel db next path' false start end_exclusive out'
          end
      end
  end.

Definition range_entries_at_root (fuel : nat) (db : DB) (root start : bytes)
    (end_exclusive : option bytes) : option (list kv) :=
  match find_leaf_with_path fuel db root start with
  | None => None
  | Some None => Some []
  | Some (Some (cursor, path)) =>
      range_loop fuel fuel db cursor path true start end_exclusive []
  end.

(** One leaf of a page scan, in either direction: [stop] is the bound that ends the scan,
    [remaining_offset] the entries still to skip. *)
Fixpoint page_scan_leaf (es : list LeafEntry) (stop : bytes -> bool) (limit : nat)
    (remaining_offset : nat) (out : list kv) : list kv * nat * bool :=
  match es with
  | [] => (out, remaining_offset, false)
  | e :: es' =>
      if stop (le_key e) then (out, remaining_offset, true)
      else
        match le_value e with
        | None => page_scan_leaf es' stop limit remaining_offset out
        | Some value =>
            match remaining_offset with
            | S r => page_scan_leaf es' stop limit r out
            | O =>
                let out' := out ++ [(le_key e, value)] in
                if limit <=? length out' then (out', O, true)
                else page_scan_leaf es' stop limit O out'
            end
        end
  end.

Fixpoint page_forward_loop (fuel dfuel : nat) (db : DB) (cursor : bytes) (path : Path)
    (first_leaf : bool) (start : bytes) (end_exclusive : option bytes)
    (limit remaining_offset : nat) (out : list kv) : option (list kv) :=
  match fuel with
  | O => None
  | S fuel' =>
      let leaf := load_leaf db cursor in
      let start_idx := first_index first_leaf start (entries leaf) in
      match page_scan_leaf (drop start_idx (entries leaf)) (past_end end_exclusive) limit
              remaining_offset out with
      | (out', _, true) => Some out'
      | (out', off', false) =>
          match next_leaf_from_path dfuel db path with
          | None => None
          | Some (None, _) => Some out'
          | Some (Some next, path') =>
              page_forward_loop fuel' dfuel db next path' false start end_exclusive
                limit off' out'
          end
      end
  end.

Definition range_entries_page_at_root_forward (fuel : nat) (db : DB) (root start : bytes)
    (end_exclusive : option bytes) (offset limit : nat) : option (list kv) :=
  match find_leaf_with_path fuel db root start with
  | None => None
  | Some None => Some []
  | Some (Some (cursor, path)) =>
      page_forward_loop fuel fuel db cursor path true start end_exclusive limit offset []
  end.

Definition upper_index (first_leaf : bool) (end_exclusive : option bytes)
    (es : list LeafEntry) : nat :=
  if first_leaf then
    match end_exclusive with
    | Some e => partition_point (fun entry => bytes_ltb (le_key entry) e) es
    | None => length es
    end
  else length es.

Fixpoint page_reverse_loop (fuel dfuel : nat) (db : DB) (cursor : bytes) (path : Path)
    (first_leaf : bool) (start : bytes) (end_exclusive : option bytes)
    (limit remaining_offset : nat) (out : list kv) : option (list kv) :=
  match fuel with
  | O => None
  | S fuel' =>
      let leaf := load_leaf db cursor in
      let upper := upper_index first_leaf end_exclusive (entries leaf) in
      match page_scan_leaf (reverse (take upper (entries leaf)))
              (fun k => bytes_ltb k start) limit remaining_offset out with
      | (out', _, true) => Some out'
      | (out', off', false) =>
          match prev_leaf_from_path dfuel db path with
          | None => None
          | Some (None, _) => Some out'
          | Some (Some prev, path') =>
              page_reverse_loop fuel' dfuel db prev path' false start end_exclusive
                limit off' out'
          end
      end
  end.

Definition range_entries_page_at_root_reverse (fuel : nat) (db : DB) (root start : bytes)
    (end_exclusive : option bytes) (offset limit : nat) : option (list kv) :=
  match (match end_exclusive with
         | Some e => find_leaf_with_path fuel db root e
         | None => rightmost_leaf_with_path fuel db root
         end) with
  | None => None
  | Some None => Some []
  | Some (Some (cursor, path)) =>
      page_reverse_loop fuel fuel db cursor path true start end_exclusive limit offset []
  end.

Definition range_entries_page_at_root (fuel : nat) (db : DB) (root start : bytes)
    (end_exclusive : option bytes) (offset limit : nat) (rev : bool) : option (list kv) :=
  if limit =? 0 then Some []
  else if rev then
    range_entries_page_at_root_reverse fuel db root start end_exclusive offset limit
  else range_entries_page_at_root_forward fuel db root start end_exclusive offset limit.

Definition collect_prefixed_entries_at_root (fuel : nat) (db : DB) (root prefix : bytes)
    : option (list kv) :=
  let e := prefix_end_exclusive prefix in
  out ← range_entries_at_root fuel db root prefix e;
  Some (filter (fun kv => starts_with kv.1 prefix = true) out).

Definition collect_prefixed_keys_at_root (fuel : nat) (db : DB) (root prefix : bytes)
    : option (list bytes) :=
  es ← collect_prefixed_entries_at_root fuel db root prefix;
  Some es.*1.

(** ** Blocks, roots and heights *)

(** A stored value of the width the reader expects ([bytes.len() == 32]). *)
Definition read32 (raw : option bytes) : option bytes :=
  b ← raw; if length b =? 32 then Some b else None.

Definition read_u32 (raw : option bytes) : option Z :=
  b ← raw; if length b =? 4 then Some (from_be b) else None.

(** [VersionedTreeDb::new]: open the tree on a database, recovering the active root. *)
Definition new (db : DB) : VersionedTreeDb DB :=
  let empty := Leaf LeafNode_default in
  let empty_key := node_key (hash_node empty) in
  let db1 := match db_get db empty_key with
             | None => db_put db empty_key (encode_node_page empty)
             | Some _ => db
             end in
  mkTree db1
    (mkTreeState
       (default (active_root_ TreeState_default) (read32 (db_get db1 META_ACTIVE_ROOT)))
       (read32 (db_get db1 META_ACTIVE_BLOCK))
       (read32 (db_get db1 META_PINNED_ROOT))
       (read_u32 (db_get db1 META_PIN_UNTIL_HEIGHT))
       None).

Definition active_root (T : VersionedTreeDb DB) : bytes :=
  default (active_root_ (state T)) (pinned_root (state T)).

Definition active_blockhash (T : VersionedTreeDb DB) : option bytes := active_block (state T).

Definition root_for_blockhash (T : VersionedTreeDb DB) (block_hash : bytes) : option bytes :=
  match current_block (state T) with
  | Some ctx =>
      if bytes_eqb (bc_block_hash ctx) block_hash then Some (bc_working_root ctx)
      else read32 (db_get (tdb T) (block_root_key block_hash))
  | None => read32 (db_get (tdb T) (block_root_key block_hash))
  end.

Definition blockhash_for_height (T : VersionedTreeDb DB) (height : Z) : option bytes :=
  read32 (db_get (tdb T) (height_block_key height)).

Definition height_for_blockhash (T : VersionedTreeDb DB) (block_hash : bytes) : option Z :=
  read_u32 (db_get (tdb T) (block_height_key block_hash)).

Definition parent_for_blockhash (T : VersionedTreeDb DB) (block_hash : bytes) : option bytes :=
  read32 (db_get (tdb T) (block_parent_key block_hash)).

Definition has_committed_blocks (T : VersionedTreeDb DB) : bool :=
  match db_iter_from (tdb T) HEIGHT_BLOCK_PREFIX with
  | (k, _) :: _ => starts_with k HEIGHT_BLOCK_PREFIX
  | [] => false
  end.

Definition begin_block (T : VersionedTreeDb DB) (height : Z) (block_hash parent_hash : bytes)
    : VersionedTreeDb DB + TreeError :=
  let st := state T in
  let base_root :=
    match root_for_blockhash T parent_hash with
    | Some root => Some root
    | None =>
        if bool_decide (active_block st = None)
           && (bytes_eqb (active_root_ st) empty_root_id || negb (has_committed_blocks T))
        then Some empty_root_id
        else None
    end in
  match base_root with
  | None => inr (MissingParentRoot height parent_hash)
  | Some root =>
      inl (mkTree (tdb T)
             (set_current_block st (Some (mkBlockContext height block_hash parent_hash root))))
  end.

Definition abort_block (T : VersionedTreeDb DB) : VersionedTreeDb DB :=
  mkTree (tdb T) (set_current_block (state T) None).

Definition finish_block (T : VersionedTreeDb DB) : VersionedTreeDb DB :=
  let st := state T in
  match current_block st with
  | None => T
  | Some ctx =>
      let wb0 := [ BPut (block_root_key (bc_block_hash ctx)) (bc_working_root ctx);
                   BPut (height_block_key (bc_height ctx)) (bc_block_hash ctx);
                   BPut (block_height_key (bc_block_hash ctx)) (be_bytes 4 (bc_height ctx));
                   BPut (block_parent_key (bc_block_hash ctx)) (bc_parent_hash ctx) ] in
      let '(should_switch_active, pin_until, pinned, wb1) :=
        match pin_until_height st with
        | Some until_height =>
            if (bc_height ctx <=? until_height)%Z
            then (false, Some until_height, pinned_root st, wb0)
            else (true, None, None,
                  wb0 ++ [BDelete META_PIN_UNTIL_HEIGHT; BDelete META_PINNED_ROOT])
        | None => (true, None, pinned_root st, wb0)
        end in
      if should_switch_active : bool then
        mkTree (db_write (tdb T)
                  (wb1 ++ [BPut META_ACTIVE_ROOT (bc_working_root ctx);
                           BPut META_ACTIVE_BLOCK (bc_block_hash ctx)]))
          (mkTreeState (bc_working_root ctx) (Some (bc_block_hash ctx)) pinned pin_until None)
      else
        mkTree (db_write (tdb T) (wb1 ++ active_meta (active_root_ st) st))
          (mkTreeState (active_root_ st) (active_block st) pinned pin_until None)
  end.

(** The scan over the height rows: the keys above the target, and the block-height rows of
    the blocks they name. *)
Fixpoint stale_rows (rows : list kv) (target_height : option Z) : list bytes * list bytes :=
  match rows with
  | [] => ([], [])
  | (key, value) :: rows' =>
      if negb (starts_with key HEIGHT_BLOCK_PREFIX) then ([], [])
      else
        match decode_height_block_key key with
        | None => stale_rows rows' target_height
        | Some height =>
            if match target_height with Some target => (target <? height)%Z | None => true end
            then
              let '(hs, bs) := stale_rows rows' target_height in
              (key :: hs,
               if length value =? 32 then block_height_key value :: bs else bs)
            else stale_rows rows' target_height
        end
  end.

Definition rewind_to_height (T : VersionedTreeDb DB) (target_height : option Z)
    : VersionedTreeDb DB + TreeError :=
  let target :=
    match target_height with
    | Some height =>
        match blockhash_for_height T height with
        | None => inr (MissingBlockHash height)
        | Some block_hash =>
            match root_for_blockhash T block_hash with
            | None => inr (MissingRoot height block_hash)
            | Some root => inl (root, Some block_hash)
            end
        end
    | None => inl (empty_root_id, None)
    end in
  match target with
  | inr e => inr e
  | inl (root, block) =>
      let '(hs, bs) := stale_rows (db_iter_from (tdb T) HEIGHT_BLOCK_PREFIX) target_height in
      let wb := [BPut META_ACTIVE_ROOT root;
                 match block with
                 | Some block_hash => BPut META_ACTIVE_BLOCK block_hash
                 | None => BDelete META_ACTIVE_BLOCK
                 end;
                 BDelete META_PINNED_ROOT;
                 BDelete META_PIN_UNTIL_HEIGHT]
                ++ (BDelete <$> hs) ++ (BDelete <$> bs) in
      inl (mkTree (db_write (tdb T) wb) (mkTreeState root block None None None))
  end.

Definition pin_active_root_until_height (T : VersionedTreeDb DB) (until_height : Z)
    : VersionedTreeDb DB :=
  let st := state T in
  mkTree (db_write (tdb T) [BPut META_PINNED_ROOT (active_root_ st);
                            BPut META_PIN_UNTIL_HEIGHT (be_bytes 4 until_height)])
    (mkTreeState (active_root_ st) (active_block st) (Some (active_root_ st))
       (Some until_height) (current_block st)).

(** [is_ancestor]: [n] is [current_height - ancestor_height], the parents still to follow. *)
Fixpoint ancestor_walk (T : VersionedTreeDb DB) (n : nat) (cursor : bytes) : option bytes :=
  match n with
  | O => Some cursor
  | S n' =>
      match parent_for_blockhash T cursor with
      | None => None
      | Some parent => ancestor_walk T n' parent
      end
  end.

Definition is_ancestor (T : VersionedTreeDb DB) (ancestor descendant : bytes) : bool :=
  match height_for_blockhash T ancestor with
  | None => false
  | Some ancestor_height =>
      match height_for_blockhash T descendant with
      | None => false
      | Some current_height =>
          if (current_height <? ancestor_height)%Z then false
          else
            match ancestor_walk T (Z.to_nat (current_height - ancestor_height)) descendant with
            | None => false
            | Some cursor => bytes_eqb cursor ancestor
            end
      end
  end.

Fixpoint first_indexed_height (rows : list kv) : option Z :=
  match rows with
  | [] => None
  | (key, _) :: rows' =>
      if negb (starts_with key HEIGHT_BLOCK_PREFIX) then None
      else
        match decode_height_block_key key with
        | Some height => Some height
        | None => first_indexed_height rows'
        end
  end.

Fixpoint last_indexed_height (rows : list kv) (last : Z) : Z :=
  match rows with
  | [] => last
  | (key, _) :: rows' =>
      if negb (starts_with key HEIGHT_BLOCK_PREFIX) then
        if bytes_ltb key HEIGHT_BLOCK_PREFIX then last else last_indexed_height rows' last
      else
        match decode_height_block_key key with
        | Some height => height
        | None => last_indexed_height rows' last
        end
  end.

Definition indexed_height_bounds (T : VersionedTreeDb DB) : option (Z * Z) :=
  match first_indexed_height (db_iter_from (tdb T) HEIGHT_BLOCK_PREFIX) with
  | None => None
  | Some first_height =>
      let last :=
        match prefix_end_exclusive HEIGHT_BLOCK_PREFIX with
        | Some end_prefix =>
            last_indexed_height (db_iter_from_rev (tdb T) end_prefix) first_height
        | None => first_height
        end in
      Some (first_height, last)
  end.

(** ** Reads at the active root *)

Definition get (fuel : nat) (T : VersionedTreeDb DB) (key : bytes) : option (option bytes) :=
  get_at_root fuel (tdb T) (active_root T) key.

Definition multi_get (fuel : nat) (T : VersionedTreeDb DB) (qs : list bytes)
    : option (list (option bytes)) := multi_get_at_root fuel (tdb T) (active_root T) qs.

Definition range_entries (fuel : nat) (T : VersionedTreeDb DB) (start : bytes)
    (end_exclusive : option bytes) : option (list kv) :=
  range_entries_at_root fuel (tdb T) (active_root T) start end_exclusive.

Definition collect_prefixed_entries (fuel : nat) (T : VersionedTreeDb DB) (prefix : bytes)
    : option (list kv) := collect_prefixed_entries_at_root fuel (tdb T) (active_root T) prefix.

Definition collect_prefixed_keys (fuel : nat) (T : VersionedTreeDb DB) (prefix : bytes)
    : option (list bytes) := collect_prefixed_keys_at_root fuel (tdb T) (active_root T) prefix.

End Ops.
