(* ===== verification/BTree.v ===== *)
(** * The B+tree as a value

    A reference model of the tree that [tree_db.rs] keeps as content-addressed
    nodes: [tree h] is a tree of height [h] whose internal nodes hold their
    children themselves.  [t_mutate] is [mutate_node] on it.  The theorems here
    are about the value: search structure and fan-out bounds are preserved and
    a mutation changes the represented entries at one key ([lupd]). *)
From S2P Require Import Prelude Bytes Rocks TreeNode TreeDb.
From stdpp Require Import options.

Open Scope nat_scope.

(** ** Entries a reader sees: legacy tombstones are skipped *)

Definition live1 (e : LeafEntry) : option kv := v ← le_value e; Some (le_key e, v).
Definition live (es : list LeafEntry) : list kv := omap live1 es.

(** The reference update of a key-ordered list at one key. *)
Definition lupd (k : bytes) (v : option bytes) (l : list kv) : list kv :=
  filter (fun e => e.1 <b k) l
  ++ match v with Some v => [(k, v)] | None => [] end
  ++ filter (fun e => k <b e.1) l.

Abbreviation les_sorted := (StronglySorted (fun a b : LeafEntry => le_key a <b le_key b)).

Definition in_range (lo hi : option bytes) (k : bytes) : Prop :=
  match lo with Some l => l <=b k | None => True end
  /\ match hi with Some h => k <b h | None => True end.

Definition olt (lo hi : option bytes) : Prop :=
  match lo, hi with Some a, Some b => a <b b | _, _ => True end.

Lemma live_app es1 es2 : live (es1 ++ es2) = live es1 ++ live es2.
Proof. apply omap_app. Qed.

Lemma elem_of_live k v es :
  (k, v) ∈ live es <-> exists e, e ∈ es /\ le_key e = k /\ le_value e = Some v.
Proof.
  unfold live. rewrite list_elem_of_omap. split.
  - intros (e & He & Hl). exists e. unfold live1 in Hl.
    destruct (le_value e) as [w|] eqn:E; cbn in Hl; [|done]. by injection Hl as <- <-.
  - intros (e & He & <- & Hv). exists e. split; [done|]. unfold live1. by rewrite Hv.
Qed.

Lemma live_keys (Q : bytes -> Prop) es :
  Forall (fun e => Q (le_key e)) es -> Forall (fun e : kv => Q e.1) (live es).
Proof.
  rewrite !Forall_forall. intros H [k v] (e & He & <- & _)%elem_of_live. by apply H.
Qed.

Lemma live_sorted es : les_sorted es -> sorted_entries (live es).
Proof.
  induction 1 as [|e es Hs IH Hall]; [constructor|]. cbn. unfold live1 at 1.
  destruct (le_value e) as [v|]; cbn; [|done]. constructor; [done|].
  by apply (live_keys (fun k => le_key e <b k)) in Hall.
Qed.

Lemma live_filter_some es : live (filter (fun e => is_Some (le_value e)) es) = live es.
Proof.
  unfold live. induction es as [|e es IH]; [done|]. rewrite filter_cons. case_decide as H.
  - cbn. by rewrite IH.
  - rewrite IH. cbn. unfold live1 at 2. destruct (le_value e); [|done].
    exfalso. apply H. eauto.
Qed.

(** ** The reference update *)

Lemma filter_all {A} (P : A -> Prop) `{!forall x, Decision (P x)} l :
  Forall P l -> filter P l = l.
Proof. induction 1; [done|]. rewrite filter_cons_True by done. by f_equal. Qed.

Lemma filter_none {A} (P : A -> Prop) `{!forall x, Decision (P x)} l :
  Forall (fun x => ~ P x) l -> filter P l = [].
Proof. induction 1; [done|]. by rewrite filter_cons_False. Qed.

Lemma filter_lt_below k (l : list kv) :
  Forall (fun e : kv => e.1 <b k) l -> filter (fun e => e.1 <b k) l = l.
Proof. apply filter_all. Qed.

Lemma filter_gt_below k (l : list kv) :
  Forall (fun e : kv => e.1 <b k) l -> filter (fun e : kv => k <b e.1) l = [].
Proof.
  intros H. apply filter_none. eapply Forall_impl; [done|].
  intros e Hlt Hgt. eapply blt_irrefl, blt_trans; [exact Hlt|exact Hgt].
Qed.

Lemma filter_lt_above k (l : list kv) :
  Forall (fun e : kv => k <b e.1) l -> filter (fun e : kv => e.1 <b k) l = [].
Proof.
  intros H. apply filter_none. eapply Forall_impl; [done|].
  intros e Hlt Hgt. eapply blt_irrefl, blt_trans; [exact Hlt|exact Hgt].
Qed.

(** An update inside the middle of a list leaves what is below and above alone. *)
Lemma lupd_middle k v l1 m l2 :
  Forall (fun e : kv => e.1 <b k) l1 -> Forall (fun e : kv => k <b e.1) l2 ->
  lupd k v (l1 ++ m ++ l2) = l1 ++ lupd k v m ++ l2.
Proof.
  intros H1 H2. unfold lupd. rewrite !filter_app.
  rewrite filter_lt_below, filter_gt_below by done.
  rewrite (filter_lt_above _ l2), (filter_all (fun e : kv => k <b e.1) l2) by done.
  rewrite app_nil_r. cbn. by rewrite <- !app_assoc.
Qed.

Lemma lupd_nil k v :
  lupd k v [] = match v with Some v => [(k, v)] | None => [] end.
Proof. by destruct v. Qed.

Lemma lupd_single k v w :
  lupd k v [(k, w)] = match v with Some v => [(k, v)] | None => [] end.
Proof.
  unfold lupd. rewrite !filter_cons_False by apply blt_irrefl. cbn.
  by rewrite app_nil_r.
Qed.

Lemma elem_of_lupd k v l k' v' :
  (k', v') ∈ lupd k v l <-> (k' = k /\ v = Some v') \/ (k' <> k /\ (k', v') ∈ l).
Proof.
  unfold lupd. rewrite !elem_of_app, !list_elem_of_filter. cbn.
  assert (Hm : (k', v') ∈ match v with Some v0 => [(k, v0)] | None => [] end
               <-> k' = k /\ v = Some v').
  { destruct v as [w|]; [|by rewrite elem_of_nil; naive_solver].
    rewrite list_elem_of_singleton. naive_solver. }
  rewrite Hm. split.
  - intros [[Hlt Hin]|[?|[Hlt Hin]]]; [right|by left|right];
      (split; [intros ->; by apply blt_irrefl in Hlt|done]).
  - intros [?|[Hne Hin]]; [auto|].
    destruct (blt_total k' k) as [?|[?|?]]; [by left|done|by right; right].
Qed.

Lemma lupd_sorted k v l : sorted_entries l -> sorted_entries (lupd k v l).
Proof.
  intros Hs. unfold lupd.
  apply StronglySorted_app_2; [|by apply sorted_entries_filter|].
  - intros [k1 v1] [k2 v2] [Hlt _]%list_elem_of_filter [Hin|[Hgt _]%list_elem_of_filter]%elem_of_app;
      unfold key_lt; cbn in *.
    + destruct v; [|by apply elem_of_nil in Hin].
      apply list_elem_of_singleton in Hin. by injection Hin as -> ->.
    + eauto using blt_trans.
  - apply StronglySorted_app_2; [| |by apply sorted_entries_filter].
    + intros [k1 v1] [k2 v2] Hin [Hgt _]%list_elem_of_filter. unfold key_lt; cbn in *.
      destruct v; [|by apply elem_of_nil in Hin].
      apply list_elem_of_singleton in Hin. by injection Hin as -> ->.
    + destruct v; repeat constructor.
Qed.

(** As maps: an update is an insertion or a deletion. *)
Definition kv_update (k : bytes) (v : option bytes) (m : gmap bytes bytes) : gmap bytes bytes :=
  match v with Some v => <[k := v]> m | None => delete k m end.

Lemma kv_update_lookup k v m k' :
  kv_update k v m !! k' = if decide (k' = k) then v else m !! k'.
Proof.
  destruct v; cbn; case_decide; subst; by simplify_map_eq.
Qed.

Lemma lupd_entries k v m : lupd k v (map_entries m) = map_entries (kv_update k v m).
Proof.
  apply map_entries_unique; [apply lupd_sorted, map_entries_sorted|].
  intros k' v'. rewrite elem_of_lupd, map_entries_elem, kv_update_lookup.
  case_decide; naive_solver.
Qed.

(** ** Leaves *)

Lemma les_sorted_app es1 es2 :
  les_sorted (es1 ++ es2) <->
  (forall a b, a ∈ es1 -> b ∈ es2 -> le_key a <b le_key b) /\ les_sorted es1 /\ les_sorted es2.
Proof. apply StronglySorted_app. Qed.

(** The split point [binary_search] finds, and its answer there. *)
Lemma binary_search_spec es key :
  les_sorted es ->
  exists es1 es2, es = es1 ++ es2
    /\ Forall (fun e => le_key e <b key) es1
    /\ ((binary_search es key = inr (length es1)
         /\ Forall (fun e => key <b le_key e) es2)
        \/ exists e es3, es2 = e :: es3 /\ le_key e = key
             /\ binary_search es key = inl (length es1)
             /\ Forall (fun e => key <b le_key e) es3).
Proof.
  intros Hs. set (f := fun e => bytes_ltb (le_key e) key).
  exists (take_while f es), (drop (partition_point f es) es).
  assert (Hes : es = take_while f es ++ drop (partition_point f es) es).
  { rewrite <- take_partition_point. by rewrite take_drop. }
  split; [done|]. split; [apply take_while_forall|].
  pose proof (take_while_stop f es) as Hstop.
  rewrite Hes in Hs. apply les_sorted_app in Hs as (_ & _ & Hs2).
  unfold binary_search. fold f. change (length (take_while f es)) with (partition_point f es) in *.
  destruct (es !! partition_point f es) as [e|] eqn:He.
  - rewrite (drop_S _ e) in * by done.
    specialize (Hstop e eq_refl). apply bytes_ltb_false in Hstop.
    apply StronglySorted_inv in Hs2 as [_ Hall].
    apply ble_lteq in Hstop as [Hlt|Heq].
    + left. unfold bytes_eqb. rewrite bool_decide_eq_false_2.
      2: { intros Heq. rewrite Heq in Hlt. by apply blt_irrefl in Hlt. }
      split; [done|]. constructor; [done|]. eapply Forall_impl; [done|]. cbn.
      intros. eauto using blt_trans.
    + right. exists e, (drop (S (partition_point f es)) es). subst key.
      unfold bytes_eqb. by rewrite bool_decide_eq_true_2.
  - left. split; [done|]. apply lookup_ge_None in He.
    by rewrite drop_ge.
Qed.

(** The entry a leaf lookup returns is the live one at the key. *)
Lemma leaf_lookup es key :
  les_sorted es ->
  match binary_search es key with
  | inl idx => es !! idx ≫= le_value
  | inr _ => None
  end = (list_to_map (live es) : gmap bytes bytes) !! key.
Proof.
  intros Hs. pose proof (sorted_entries_NoDup _ (live_sorted _ Hs)) as Hnd.
  symmetry. apply option_eq. intros v. rewrite <- elem_of_list_to_map by done.
  rewrite elem_of_live.
  destruct (binary_search_spec es key Hs) as (es1 & es2 & -> & Hlt & Hcase).
  destruct Hcase as [[-> Hgt]|(e & es3 & -> & Hk & -> & Hgt)].
  - split; [|done]. intros (e & He & Hek & _). exfalso.
    rewrite Forall_forall in Hlt, Hgt. subst key.
    apply elem_of_app in He as [He|He]; eapply blt_irrefl; eauto.
  - rewrite list_lookup_middle by done. cbn. split; [|by exists e; set_solver].
    intros (e' & He & Hek & Hv). rewrite Forall_forall in Hlt, Hgt.
    apply elem_of_app in He as [He|[->|He]%elem_of_cons]; [|done|]; exfalso.
    + specialize (Hlt _ He). rewrite Hek in Hlt. by apply blt_irrefl in Hlt.
    + specialize (Hgt _ He). rewrite Hek in Hgt. by apply blt_irrefl in Hgt.
Qed.

Lemma les_sorted_filter (P : LeafEntry -> Prop) `{!forall e, Decision (P e)} es :
  les_sorted es -> les_sorted (filter P es).
Proof.
  induction 1 as [|e l Hs IH Hall]; [constructor|]. rewrite filter_cons.
  case_decide; [|done]. constructor; [done|].
  apply Forall_forall. intros e' [_ He']%list_elem_of_filter.
  rewrite Forall_forall in Hall. eauto.
Qed.

Lemma les_sorted_insert es1 e es2 :
  les_sorted (es1 ++ es2) ->
  Forall (fun a => le_key a <b le_key e) es1 -> Forall (fun b => le_key e <b le_key b) es2 ->
  les_sorted (es1 ++ e :: es2).
Proof.
  rewrite !les_sorted_app. intros (H12 & H1 & H2) Hlo Hhi. rewrite Forall_forall in Hlo.
  split_all; [|done|by constructor].
  intros a b Ha [->|Hb]%elem_of_cons; eauto.
Qed.

(** What [mutate_leaf] promises. *)
Record leaf_result (es : list LeafEntry) (key : bytes) (value : option bytes)
    (es' : list LeafEntry) (changed : bool) : Prop := {
  lr_live : live es' = lupd key value (live es);
  lr_sorted : les_sorted es';
  lr_keys : forall e, e ∈ es' -> le_key e = key \/ exists e0, e0 ∈ es /\ le_key e0 = le_key e;
  lr_len : length es' <= S (length es);
  lr_same : changed = false -> es' = es;
}.

(** The update step before tombstones are compacted. *)
Lemma mutate_leaf_step es key value :
  les_sorted es ->
  exists es1 changed1,
    mutate_leaf es key value =
      (if existsb (fun e => bool_decide (le_value e = None)) es1
       then (filter (fun e => is_Some (le_value e)) es1, true) else (es1, changed1))
    /\ leaf_result es key value es1 changed1.
Proof.
  intros Hs. unfold mutate_leaf.
  destruct (binary_search_spec es key Hs) as (es1 & es2 & -> & Hlt & Hcase).
  pose proof (live_keys (fun k => k <b key) _ Hlt) as Hlt'.
  destruct Hcase as [[-> Hgt]|(e & es3 & -> & Hk & -> & Hgt)];
    pose proof (live_keys (fun k => key <b k) _ Hgt) as Hgt'.
  - assert (Hl : forall v, lupd key v (live (es1 ++ es2)) =
              live es1 ++ match v with Some v => [(key, v)] | None => [] end ++ live es2).
    { intros v. rewrite live_app, <- (app_nil_l (live es2)), lupd_middle by done.
      by rewrite lupd_nil. }
    destruct value as [w|].
    + eexists _, _. split; [reflexivity|]. unfold vec_insert.
      rewrite take_app_length, drop_app_length. split.
      * rewrite Hl, live_app. done.
      * by apply les_sorted_insert.
      * intros e' He'. apply elem_of_app in He' as [He'|[->|He']%elem_of_cons]; [|by left|];
          right; exists e'; set_solver.
      * rewrite !length_app. cbn. lia.
      * done.
    + eexists _, _. split; [reflexivity|]. split; [by rewrite Hl, live_app|done| |lia|done].
      intros e' He'. right. by exists e'.
  - subst key. assert (Hl : forall v, lupd (le_key e) v (live (es1 ++ e :: es3)) =
              live es1 ++ match v with Some v => [(le_key e, v)] | None => [] end ++ live es3).
    { intros v. change (e :: es3) with ([e] ++ es3).
      rewrite !live_app, lupd_middle by done. f_equal. f_equal.
      cbn. unfold live1. destruct (le_value e); [apply lupd_single|apply lupd_nil]. }
    rewrite list_lookup_middle by done. cbn [mbind option_bind].
    destruct value as [w|].
    + case_bool_decide as Hv.
      * eexists _, _. split; [reflexivity|].
        split; [|done|intros e' He'; right; by exists e'|lia|done].
        rewrite Hl, live_app. f_equal. cbn. unfold live1. by rewrite Hv.
      * eexists _, _. split; [reflexivity|].
        rewrite insert_app_r_alt, Nat.sub_diag by lia. cbn [insert list_insert].
        apply les_sorted_app in Hs as (H12 & H1 & H3).
        split; [by rewrite Hl, live_app| | |rewrite !length_app; cbn; lia|done].
        -- apply les_sorted_insert; [|done|done].
           apply les_sorted_app. apply StronglySorted_inv in H3 as [H3 _]. set_solver.
        -- intros e' He'. apply elem_of_app in He' as [He'|[->|He']%elem_of_cons];
             [|by left|]; right; exists e'; set_solver.
    + eexists _, _. split; [reflexivity|]. unfold vec_remove.
      rewrite take_app_length, <- Nat.add_1_r, drop_app_add.
      cbn [drop]. rewrite ?drop_0. apply les_sorted_app in Hs as (H12 & H1 & H3).
      split; [by rewrite Hl, live_app| | |rewrite !length_app; cbn; lia|done].
      * apply les_sorted_app. apply StronglySorted_inv in H3 as [H3 _]. set_solver.
      * intros e' He'. right. exists e'. set_solver.
Qed.

Lemma mutate_leaf_spec es key value :
  les_sorted es ->
  leaf_result es key value (mutate_leaf es key value).1 (mutate_leaf es key value).2.
Proof.
  intros Hs. destruct (mutate_leaf_step es key value Hs) as (es1 & ch & -> & [Hl Hst Hk Hln Hsame]).
  destruct (existsb _ es1); [|by split]. cbn. split; [| | | |done].
  - by rewrite live_filter_some.
  - by apply les_sorted_filter.
  - intros e [_ He]%list_elem_of_filter. by apply Hk.
  - etrans; [apply length_filter|done].
Qed.

(** ** Separators: the bisection finds the first separator above the key *)

Definition upper_bound (ks : list bytes) (key : bytes) : nat :=
  partition_point (fun k => bytes_leb k key) ks.

Lemma bytes_leb_ble a b : bytes_leb a b = true <-> a <=b b.
Proof. unfold bytes_leb, ble. by rewrite negb_true_iff. Qed.

Lemma bytes_leb_false a b : bytes_leb a b = false <-> b <b a.
Proof. unfold bytes_leb, blt. by rewrite negb_false_iff. Qed.

(** In sorted separators, being at most the key is a property of a prefix. *)
Lemma upper_bound_spec ks key i k :
  StronglySorted blt ks -> ks !! i = Some k -> k <=b key <-> i < upper_bound ks key.
Proof.
  unfold upper_bound, partition_point.
  revert i; induction ks as [|k0 ks IH]; intros i Hs Hi; [done|].
  apply StronglySorted_inv in Hs as [Hs Hall]. cbn.
  destruct (bytes_leb k0 key) eqn:E; cbn.
  - apply bytes_leb_ble in E. destruct i as [|i]; cbn in Hi.
    + injection Hi as ->. split; [lia|done].
    + rewrite IH by done. lia.
  - apply bytes_leb_false in E. split; [|lia]. intros Hle. exfalso.
    destruct i as [|i]; cbn in Hi.
    + injection Hi as ->. by eapply blt_not_ble.
    + rewrite Forall_forall in Hall.
      assert (k0 <b k) by (apply Hall; by eapply list_elem_of_lookup_2).
      eapply blt_not_ble; [|done]. eauto using blt_trans.
Qed.

Lemma child_index_loop_spec fuel ks key lo hi :
  StronglySorted blt ks -> hi - lo < fuel ->
  lo <= upper_bound ks key <= hi -> hi <= length ks ->
  child_index_loop fuel ks key lo hi = upper_bound ks key.
Proof.
  intros Hs. revert lo hi. induction fuel as [|fuel IH]; intros lo hi Hf Hb Hlen; [lia|].
  cbn [child_index_loop]. destruct (Nat.ltb_spec lo hi); [|lia].
  pose proof (Nat.div_mod_eq (lo + hi) 2) as Hd.
  pose proof (Nat.mod_upper_bound (lo + hi) 2 ltac:(lia)) as Hm.
  set (mid := (lo + hi) / 2) in *.
  destruct (lookup_lt_is_Some_2 ks mid ltac:(lia)) as [k Hk]. rewrite Hk. cbn [default].
  pose proof (upper_bound_spec ks key mid k Hs Hk) as Hub. unfold id.
  destruct (bytes_ltb_spec key k) as [Hlt|Hle].
  - apply IH; [lia| |lia]. destruct (decide (mid < upper_bound ks key)); [|lia].
    exfalso. eapply blt_not_ble; [done|]. by apply Hub.
  - apply IH; [lia| |lia]. apply Hub in Hle. lia.
Qed.

Lemma child_index_spec ks key :
  StronglySorted blt ks -> child_index_for_key ks key = upper_bound ks key.
Proof.
  intros Hs. apply child_index_loop_spec; [done|lia| |lia].
  split; [lia|]. apply partition_point_le.
Qed.

(** ** Separator segments

    [seg P lo hi ks cs]: the children [cs] separated by [ks] cover the key range
    [lo, hi), each satisfying [P] on its own part.  [lseg] is the part before a
    child (every child followed by its separator), [rseg] the part after it. *)
Section Segments.
Context {A : Type} (P : option bytes -> option bytes -> A -> Prop).

Fixpoint seg (lo hi : option bytes) (ks : list bytes) (cs : list A) : Prop :=
  match ks, cs with
  | [], [c] => olt lo hi /\ P lo hi c
  | k :: ks', c :: cs' => olt lo (Some k) /\ P lo (Some k) c /\ seg (Some k) hi ks' cs'
  | _, _ => False
  end.

Fixpoint lseg (lo mid : option bytes) (ks : list bytes) (cs : list A) : Prop :=
  match ks, cs with
  | [], [] => lo = mid
  | k :: ks', c :: cs' => olt lo (Some k) /\ P lo (Some k) c /\ lseg (Some k) mid ks' cs'
  | _, _ => False
  end.

Definition rseg (hi : option bytes) (ks : list bytes) (cs : list A) : Prop :=
  match ks with
  | [] => cs = []
  | k :: ks' => seg (Some k) hi ks' cs
  end.

Definition first_bound (hi : option bytes) (ks : list bytes) : option bytes :=
  match ks with [] => hi | k :: _ => Some k end.

Lemma seg_length lo hi ks cs : seg lo hi ks cs -> length cs = S (length ks).
Proof.
  revert lo cs; induction ks as [|k ks IH]; intros lo [|c cs]; cbn; try done.
  - by destruct cs.
  - intros (_ & _ & H). by erewrite IH.
Qed.

Lemma lseg_length lo mid ks cs : lseg lo mid ks cs -> length cs = length ks.
Proof.
  revert lo cs; induction ks as [|k ks IH]; intros lo [|c cs]; cbn; try done.
  intros (_ & _ & H). by erewrite IH.
Qed.

Lemma seg_cons_inv lo hi ks c cs :
  seg lo hi ks (c :: cs) <->
  olt lo (first_bound hi ks) /\ P lo (first_bound hi ks) c /\ rseg hi ks cs.
Proof.
  destruct ks as [|k ks]; cbn; [|done]. destruct cs; naive_solver.
Qed.

Lemma seg_app lo mid hi ks1 cs1 ks2 cs2 :
  lseg lo mid ks1 cs1 -> seg mid hi ks2 cs2 -> seg lo hi (ks1 ++ ks2) (cs1 ++ cs2).
Proof.
  revert lo cs1; induction ks1 as [|k ks1 IH]; intros lo [|c cs1]; cbn; try done.
  - by intros ->.
  - intros (? & ? & ?) ?. split_all; auto.
Qed.

Lemma seg_app_inv lo hi ks1 ks2 cs1 cs2 :
  length ks1 = length cs1 -> seg lo hi (ks1 ++ ks2) (cs1 ++ cs2) ->
  exists mid, lseg lo mid ks1 cs1 /\ seg mid hi ks2 cs2.
Proof.
  revert lo cs1; induction ks1 as [|k ks1 IH]; intros lo [|c cs1] Hlen; cbn; try done.
  - eauto.
  - injection Hlen as Hlen. intros (? & ? & H).
    destruct (IH _ _ Hlen H) as (mid & ? & ?). exists mid. auto.
Qed.

Lemma olt_trans a k b : olt a (Some k) -> olt (Some k) b -> olt a b.
Proof. destruct a, b; cbn; try done. apply blt_trans. Qed.

(** The separators of a segment are strictly increasing and inside its range. *)
Lemma seg_keys lo hi ks cs :
  seg lo hi ks cs ->
  StronglySorted blt ks /\ Forall (fun k => olt lo (Some k)) ks
  /\ Forall (fun k => olt (Some k) hi) ks.
Proof.
  revert lo cs; induction ks as [|k ks IH]; intros lo [|c cs]; cbn; try done;
    [intros _; split_all; constructor|].
  intros (Hlo & _ & H). destruct (IH _ _ H) as (Hs & Hl & Hh).
  split_all.
  - by constructor.
  - constructor; [done|]. eapply Forall_impl; [exact Hl|]. intros k' Hk'.
    eapply olt_trans; [exact Hlo|exact Hk'].
  - constructor; [|done]. destruct ks as [|k' ks].
    + destruct cs as [|? [|]]; cbn in H; naive_solver.
    + inversion Hh; inversion Hl; subst. by apply (olt_trans (Some k) k' hi).
Qed.

Lemma seg_olt lo hi ks cs : seg lo hi ks cs -> olt lo hi.
Proof.
  intros H. pose proof (seg_keys _ _ _ _ H) as (_ & Hl & Hh).
  destruct ks as [|k ks].
  - destruct cs as [|? [|]]; cbn in H; naive_solver.
  - inversion Hl; inversion Hh; subst. by apply (olt_trans lo k hi).
Qed.

(** Where a key of the range lands. *)
Lemma seg_find lo hi ks cs key :
  seg lo hi ks cs -> in_range lo hi key ->
  exists ks1 ks2 cs1 c cs2 lo',
    ks = ks1 ++ ks2 /\ cs = cs1 ++ c :: cs2
    /\ length ks1 = upper_bound ks key /\ length cs1 = upper_bound ks key
    /\ lseg lo lo' ks1 cs1 /\ olt lo' (first_bound hi ks2)
    /\ P lo' (first_bound hi ks2) c /\ rseg hi ks2 cs2
    /\ in_range lo' (first_bound hi ks2) key.
Proof.
  revert lo cs; induction ks as [|k ks IH]; intros lo [|c cs] H Hr; try done.
  - apply seg_cons_inv in H as (? & ? & Hr2). cbn in Hr2. subst cs.
    exists [], [], [], c, [], lo. by split_all.
  - unfold upper_bound, partition_point in *. cbn [take_while].
    destruct (bytes_leb k key) eqn:E.
    + destruct H as (Ho & HP & H). apply bytes_leb_ble in E.
      destruct (IH (Some k) cs H) as (ks1 & ks2 & cs1 & c' & cs2 & lo' & Hks & -> & Hl1 & Hl2 & Hrest).
      { destruct Hr. split; done. }
      rewrite Hks. exists (k :: ks1), ks2, (c :: cs1), c', cs2, lo'. cbn. rewrite Hks in Hl1, Hl2.
      split_all; try done; try lia; naive_solver.
    + apply bytes_leb_false in E. destruct H as (Ho & HP & H).
      exists [], (k :: ks), [], c, cs, lo. cbn. split_all; try done; by destruct Hr.
Qed.

(** Cutting a segment at a separator. *)
Lemma seg_split_at lo hi ks1 k ks2 cs1 c cs2 :
  length cs1 = length ks1 ->
  seg lo hi (ks1 ++ k :: ks2) (cs1 ++ c :: cs2) ->
  seg lo (Some k) ks1 (cs1 ++ [c]) /\ seg (Some k) hi ks2 cs2.
Proof.
  intros Hlen H. destruct (seg_app_inv _ _ _ _ _ _ (eq_sym Hlen) H) as (mid & Hl & Hr).
  cbn in Hr. destruct Hr as (? & ? & ?). split; [|done].
  rewrite <- (app_nil_r ks1). eapply seg_app; [done|]. done.
Qed.
End Segments.

(** ** Trees *)

Fixpoint tree (h : nat) : Type :=
  match h with
  | O => LeafNode
  | S h' => (list bytes * list (tree h'))%type
  end.

Section Trees.
Context {codec : NodeCodec}.

(** The stored node of a tree: children by their ids. *)
Fixpoint node_of (h : nat) : tree h -> BptreeNode :=
  match h return tree h -> BptreeNode with
  | O => fun t => Leaf t
  | S h' => fun t => Internal (mkInternalNode t.1 (map (fun c => hash_node (node_of h' c)) t.2))
  end.

Definition tid {h} (t : tree h) : bytes := hash_node (node_of h t).

Fixpoint flatten (h : nat) : tree h -> list LeafEntry :=
  match h return tree h -> list LeafEntry with
  | O => fun t => entries t
  | S h' => fun t => concat (map (flatten h') t.2)
  end.

(** Every node of the tree satisfies [U]. *)
Fixpoint all_nodes (U : BptreeNode -> Prop) (h : nat) : tree h -> Prop :=
  match h return tree h -> Prop with
  | O => fun t => U (Leaf t)
  | S h' => fun t => U (node_of (S h') t) /\ Forall (all_nodes U h') t.2
  end.

(** The number of leaves: the bound on the steps of a scan. *)
Fixpoint leaf_count (h : nat) : tree h -> nat :=
  match h return tree h -> nat with
  | O => fun _ => 1
  | S h' => fun t => sum_list_with (leaf_count h') t.2
  end.

(** Search structure, fan-out bounds and uniform depth. *)
Definition leaf_ok (lo hi : option bytes) (t : LeafNode) : Prop :=
  les_sorted (entries t) /\ Forall (fun e => in_range lo hi (le_key e)) (entries t)
  /\ length (entries t) <= MAX_LEAF_ENTRIES.

Fixpoint wf (h : nat) : option bytes -> option bytes -> tree h -> Prop :=
  match h return option bytes -> option bytes -> tree h -> Prop with
  | O => leaf_ok
  | S h' => fun lo hi t => length t.1 <= MAX_INTERNAL_KEYS /\ seg (wf h') lo hi t.1 t.2
  end.

Inductive tout (h : nat) :=
| TNode (t : tree h)
| TSplit (l r : tree h) (sep : bytes).
Arguments TNode {h} _.
Arguments TSplit {h} _ _ _.

(** [mutate_node] on the value. *)
Definition t_leaf (t : LeafNode) (key : bytes) (value : option bytes) : tout 0 :=
  let '(es, changed) := mutate_leaf (entries t) key value in
  if negb changed then TNode (h := 0) t
  else if length es <=? MAX_LEAF_ENTRIES then TNode (h := 0) (mkLeafNode es (next t))
  else
    let mid := length es / 2 in
    let r := mkLeafNode (drop mid es) (next t) in
    TSplit (h := 0) (mkLeafNode (take mid es) (Some (tid (h := 0) r))) r
      (default [] (le_key <$> head (drop mid es))).

Definition t_finish {h} (ks : list bytes) (cs : list (tree h)) : tout (S h) :=
  if length ks <=? MAX_INTERNAL_KEYS then TNode (h := S h) (ks, cs)
  else
    let mid := length ks / 2 in
    TSplit (h := S h) (take mid ks, take (mid + 1) cs) (drop (mid + 1) ks, drop (mid + 1) cs)
      (default [] (ks !! mid)).

Fixpoint t_mutate (h : nat) (key : bytes) (value : option bytes) : tree h -> tout h :=
  match h return tree h -> tout h with
  | O => fun t => t_leaf t key value
  | S h' => fun t =>
      let idx := child_index_for_key t.1 key in
      match t.2 !! idx with
      | None => TNode (h := S h') t
      | Some c =>
          match t_mutate h' key value c with
          | TNode c' =>
              if bytes_eqb (tid c') (tid c) then TNode (h := S h') t
              else t_finish t.1 (<[idx := c']> t.2)
          | TSplit l r sep =>
              t_finish (vec_insert idx sep t.1) (vec_insert (idx + 1) r (<[idx := l]> t.2))
          end
      end
  end.

Definition out_nodes {h} (o : tout h) : list BptreeNode :=
  match o with
  | TNode t => [node_of h t]
  | TSplit l r _ => [node_of h l; node_of h r]
  end.

(** The nodes a mutation builds on its way up. *)
Fixpoint built (h : nat) (key : bytes) (value : option bytes) : tree h -> list BptreeNode :=
  match h return tree h -> list BptreeNode with
  | O => fun t => out_nodes (h := 0) (t_mutate 0 key value t)
  | S h' => fun t =>
      match t.2 !! child_index_for_key t.1 key with
      | None => []
      | Some c => built h' key value c ++ out_nodes (h := S h') (t_mutate (S h') key value t)
      end
  end.

Lemma t_mutate_S h key value ks (cs : list (tree h)) :
  t_mutate (S h) key value (ks, cs) =
    match cs !! child_index_for_key ks key with
    | None => TNode (h := S h) (ks, cs)
    | Some c =>
        match t_mutate h key value c with
        | TNode c' =>
            if bytes_eqb (tid c') (tid c) then TNode (h := S h) (ks, cs)
            else t_finish ks (<[child_index_for_key ks key := c']> cs)
        | TSplit l r sep =>
            t_finish (vec_insert (child_index_for_key ks key) sep ks)
              (vec_insert (child_index_for_key ks key + 1) r
                 (<[child_index_for_key ks key := l]> cs))
        end
    end.
Proof. done. Qed.

Lemma built_S h key value ks (cs : list (tree h)) :
  built (S h) key value (ks, cs) =
    match cs !! child_index_for_key ks key with
    | None => []
    | Some c => built h key value c ++ out_nodes (h := S h) (t_mutate (S h) key value (ks, cs))
    end.
Proof. done. Qed.

(** Ranges and order of a well-formed tree's entries. *)
Lemma in_range_weaken lo hi lo' hi' k :
  in_range lo' hi' k ->
  (forall l, lo = Some l -> exists l', lo' = Some l' /\ l <=b l') ->
  (forall u, hi = Some u -> exists u', hi' = Some u' /\ u' <=b u) ->
  in_range lo hi k.
Proof.
  intros [Hl Hh] Hlo Hhi. split.
  - destruct lo as [l|]; [|done]. destruct (Hlo l eq_refl) as (l' & -> & ?). border.
  - destruct hi as [u|]; [|done]. destruct (Hhi u eq_refl) as (u' & -> & ?). border.
Qed.

Lemma seg_entries (h : nat) :
  (forall lo hi t, wf h lo hi t ->
     Forall (fun e => in_range lo hi (le_key e)) (flatten h t) /\ les_sorted (flatten h t)) ->
  forall ks cs lo hi, seg (wf h) lo hi ks cs ->
    Forall (fun e => in_range lo hi (le_key e)) (concat (map (flatten h) cs))
    /\ les_sorted (concat (map (flatten h) cs)).
Proof.
  intros IH ks. induction ks as [|k ks IHk]; intros [|c cs] lo hi H; try done.
  - apply seg_cons_inv in H as (_ & Hw & Hr). cbn in Hr. subst cs. cbn. rewrite app_nil_r.
    by apply IH.
  - destruct H as (Ho & Hw & Hs). cbn [map concat].
    destruct (IH _ _ _ Hw) as [Hr1 Hs1]. destruct (IHk _ _ _ Hs) as [Hr2 Hs2].
    pose proof (seg_olt _ _ _ _ _ Hs) as Hkhi.
    rewrite Forall_forall in Hr1, Hr2. split.
    + apply Forall_forall. intros e [He|He]%elem_of_app.
      * eapply in_range_weaken; [by apply Hr1| |]; [eauto using ble_refl|].
        intros u ->. cbn in Hkhi. eauto using blt_ble.
      * eapply in_range_weaken; [by apply Hr2| |]; [|eauto using ble_refl].
        intros l ->. cbn in Ho. eauto using blt_ble.
    + apply les_sorted_app. split_all; [|done|done].
      intros a b Ha Hb. destruct (Hr1 _ Ha) as [_ ?], (Hr2 _ Hb) as [? _]. border.
Qed.

Lemma wf_entries h lo hi (t : tree h) :
  wf h lo hi t ->
  Forall (fun e => in_range lo hi (le_key e)) (flatten h t) /\ les_sorted (flatten h t).
Proof.
  revert lo hi t. induction h as [|h IH]; intros lo hi t H.
  - by destruct H as (? & ? & _).
  - destruct H as [_ H]. by eapply seg_entries.
Qed.

Lemma lseg_bound {h} lo mid ks (cs : list (tree h)) l :
  lseg (wf h) lo mid ks cs -> lo = Some l -> exists m, mid = Some m /\ l <=b m.
Proof.
  revert lo cs l; induction ks as [|k ks IH]; intros lo [|c cs] l H ->; try done.
  - cbn in H. subst mid. eauto using ble_refl.
  - destruct H as (Ho & _ & H). cbn in Ho.
    destruct (IH _ _ k H eq_refl) as (m & -> & ?). exists m. split; [done|]. border.
Qed.

Lemma lseg_below {h} lo mid hi ks (cs : list (tree h)) key :
  lseg (wf h) lo mid ks cs -> in_range mid hi key ->
  Forall (fun e => le_key e <b key) (concat (map (flatten h) cs)).
Proof.
  intros H Hr. revert lo cs H; induction ks as [|k ks IH]; intros lo [|c cs] H; try done.
  destruct H as (_ & Hw & H). cbn. apply Forall_app. split; [|by eapply IH].
  destruct (lseg_bound _ _ _ _ k H eq_refl) as (m & -> & Hkm). destruct Hr as [Hm _].
  apply wf_entries in Hw as [Hw _]. eapply Forall_impl; [exact Hw|].
  intros e [_ He]. cbn in He. border.
Qed.

Lemma rseg_above {h} lo hi ks (cs : list (tree h)) key :
  rseg (wf h) hi ks cs -> in_range lo (first_bound hi ks) key ->
  Forall (fun e => key <b le_key e) (concat (map (flatten h) cs)).
Proof.
  destruct ks as [|k ks]; cbn [rseg]; [intros ->; constructor|].
  intros H [_ Hk]. cbn in Hk.
  destruct (seg_entries h (wf_entries h) _ _ _ _ H) as [Hr _].
  eapply Forall_impl; [exact Hr|]. intros e [He _]. cbn in He. border.
Qed.

(** ** What a mutation returns *)

Definition out_flat {h} (o : tout h) : list LeafEntry :=
  match o with
  | TNode t => flatten h t
  | TSplit l r _ => flatten h l ++ flatten h r
  end.

Definition out_wf {h} (lo hi : option bytes) (o : tout h) : Prop :=
  match o with
  | TNode t => wf h lo hi t
  | TSplit l r sep =>
      olt lo (Some sep) /\ olt (Some sep) hi /\ wf h lo (Some sep) l /\ wf h (Some sep) hi r
  end.

Definition out_all (U : BptreeNode -> Prop) {h} (o : tout h) : Prop :=
  match o with
  | TNode t => all_nodes U h t
  | TSplit l r _ => all_nodes U h l /\ all_nodes U h r
  end.

Lemma leaf_split_wf lo hi es nl nr :
  les_sorted es -> Forall (fun e => in_range lo hi (le_key e)) es ->
  MAX_LEAF_ENTRIES < length es <= S MAX_LEAF_ENTRIES ->
  out_wf (h := 0) lo hi
    (TSplit (h := 0) (mkLeafNode (take (length es / 2) es) nl)
       (mkLeafNode (drop (length es / 2) es) nr)
       (default [] (le_key <$> head (drop (length es / 2) es)))).
Proof.
  intros Hs Hr Hlen. assert (length es = 129) as Hn by (unfold MAX_LEAF_ENTRIES in Hlen; lia).
  rewrite Hn. change (129 / 2) with 64.
  destruct (lookup_lt_is_Some_2 es 64 ltac:(lia)) as [e He].
  destruct (lookup_lt_is_Some_2 es 0 ltac:(lia)) as [e0 He0'].
  assert (Hd : drop 64 es = e :: drop 65 es) by (by apply drop_S).
  rewrite <- (take_drop 64 es) in Hs, Hr. rewrite Hd in *. cbn [head fmap option_fmap option_map default].
  apply les_sorted_app in Hs as (Hx & Hs1 & Hs2). apply Forall_app in Hr as [Hr1 Hr2].
  assert (He0 : e0 ∈ take 64 es).
  { apply elem_of_take. exists 0. split; [done|lia]. }
  assert (Hlt : le_key e0 <b le_key e) by (apply Hx; [done|set_solver]).
  rewrite Forall_forall in Hr1. cbn. unfold leaf_ok, MAX_LEAF_ENTRIES. cbn [entries].
  apply StronglySorted_inv in Hs2 as Hs2'. destruct Hs2' as [_ Hall].
  inversion Hr2 as [|? ? Hre _]; subst. destruct Hre as [Hre1 Hre2]. split_all.
  - destruct lo as [l|]; [|done]. destruct (Hr1 _ He0) as [? _]. cbn in *. border.
  - destruct hi; [|done]. done.
  - done.
  - apply Forall_forall. intros a Ha. split; [by apply Hr1|]. apply Hx; [done|set_solver].
  - rewrite length_take. lia.
  - done.
  - rewrite Forall_forall in Hr2, Hall |- *. intros a Ha. split; [|by apply Hr2].
    apply elem_of_cons in Ha as [->|Ha]; [apply ble_refl|]. by apply blt_ble, Hall.
  - cbn [length]. rewrite length_drop. lia.
Qed.

Lemma t_leaf_spec lo hi (t : tree 0) key value :
  wf 0 lo hi t -> in_range lo hi key ->
  out_wf lo hi (t_mutate 0 key value t)
  /\ live (out_flat (t_mutate 0 key value t)) = lupd key value (live (flatten 0 t)).
Proof.
  intros (Hs & Hr & Hlen) Hkey. cbn [t_mutate]. unfold t_leaf.
  destruct (mutate_leaf_spec (entries t) key value Hs) as [Hl Hs' Hk Hln Hsame].
  destruct (mutate_leaf (entries t) key value) as [es changed]. cbn [fst snd] in *.
  destruct changed; cbn [negb].
  2: { rewrite Hsame in Hl by done. by split. }
  assert (Hr' : Forall (fun e => in_range lo hi (le_key e)) es).
  { rewrite Forall_forall in Hr |- *. intros e He.
    destruct (Hk _ He) as [->|(e0 & He0 & <-)]; auto. }
  destruct (Nat.leb_spec (length es) MAX_LEAF_ENTRIES); [by split|].
  split; [apply leaf_split_wf; [done|done|lia]|].
  cbn [out_flat flatten entries]. by rewrite take_drop.
Qed.

Lemma t_finish_spec {h} lo hi ks (cs : list (tree h)) :
  seg (wf h) lo hi ks cs -> length ks <= S MAX_INTERNAL_KEYS ->
  out_wf lo hi (t_finish ks cs) /\ out_flat (t_finish ks cs) = concat (map (flatten h) cs).
Proof.
  intros Hseg Hlen. unfold t_finish.
  destruct (Nat.leb_spec (length ks) MAX_INTERNAL_KEYS); [done|].
  assert (Hn : length ks = 129) by (unfold MAX_INTERNAL_KEYS in *; lia).
  pose proof (seg_length _ _ _ _ _ Hseg) as Hcs.
  rewrite Hn. change (129 / 2) with 64. change (64 + 1) with 65.
  destruct (lookup_lt_is_Some_2 ks 64 ltac:(lia)) as [k Hk].
  destruct (lookup_lt_is_Some_2 cs 64 ltac:(lia)) as [c Hc]. rewrite Hk. cbn [default].
  split.
  2: { cbn [out_flat flatten fst snd]. by rewrite <- concat_app, <- map_app, take_drop. }
  rewrite (take_drop_split _ _ _ Hk), (take_drop_split _ _ _ Hc) in Hseg.
  pose proof (seg_keys _ _ _ _ _ Hseg) as (_ & Hlo & Hhi).
  apply Forall_app in Hlo as [_ Hlo], Hhi as [_ Hhi].
  inversion Hlo; inversion Hhi; subst.
  apply seg_split_at in Hseg as [Hl Hr]; [|rewrite !length_take; lia].
  rewrite (take_S_r _ _ _ Hc). cbn. unfold id, MAX_INTERNAL_KEYS. split_all; try done.
  - rewrite length_take. lia.
  - rewrite length_drop. lia.
Qed.

Lemma all_nodes_root U h (t : tree h) : all_nodes U h t -> U (node_of h t).
Proof. destruct h; cbn; naive_solver. Qed.

(** Equal ids, equal trees. *)
Lemma tid_inj U {HU : CodecLaws U} h (t1 t2 : tree h) :
  all_nodes U h t1 -> all_nodes U h t2 -> tid t1 = tid t2 -> t1 = t2.
Proof.
  intros H1 H2 Heq.
  pose proof (hash_collision_free _ _ (all_nodes_root _ _ _ H1) (all_nodes_root _ _ _ H2) Heq)
    as Hn. clear Heq. revert t1 t2 H1 H2 Hn.
  induction h as [|h IH]; intros t1 t2 H1 H2 Hn; [by injection Hn|].
  destruct t1 as [ks cs1], t2 as [ks2 cs2]. injection Hn as Hk Hc. cbn in Hk, Hc. subst ks2.
  f_equal. destruct H1 as [_ H1], H2 as [_ H2]. cbn [snd] in *.
  revert cs2 H2 Hc. induction cs1 as [|c1 cs1 IHc]; intros [|c2 cs2] H2 Hc; try done.
  cbn in Hc. injection Hc as Hc Hcs.
  apply Forall_cons in H1 as [Ha H1], H2 as [Hb H2]. f_equal; [|by apply IHc].
  apply IH; [done|done|].
  by apply hash_collision_free; [apply all_nodes_root|apply all_nodes_root|].
Qed.

Lemma t_finish_all U {h} ks (cs : list (tree h)) :
  Forall (all_nodes U h) cs -> Forall U (out_nodes (t_finish ks cs)) ->
  out_all U (t_finish ks cs).
Proof.
  intros Hcs. unfold t_finish. destruct (length ks <=? MAX_INTERNAL_KEYS); cbn [out_nodes out_all].
  - intros [HU _]%Forall_cons. by split.
  - intros [H1 [H2 _]%Forall_cons]%Forall_cons. split; (split; [done|]); cbn [snd].
    + by apply Forall_take.
    + by apply Forall_drop.
Qed.

Lemma t_leaf_all U (t : tree 0) key value :
  Forall U (out_nodes (t_mutate 0 key value t)) -> out_all U (t_mutate 0 key value t).
Proof.
  destruct (t_mutate 0 key value t); cbn; rewrite ?Forall_cons; naive_solver.
Qed.

Lemma concat_map_middle {A B} (f : A -> list B) cs1 cs2 m :
  concat (map f (cs1 ++ m ++ cs2)) = concat (map f cs1) ++ concat (map f m) ++ concat (map f cs2).
Proof. by rewrite !map_app, !concat_app. Qed.

(** The update reaches the list of a whole internal node through one child. *)
Lemma live_update_child {h} lo lo' hi hi' ks1 ks2 (cs1 cs2 m m' : list (tree h)) key value :
  lseg (wf h) lo lo' ks1 cs1 -> rseg (wf h) hi ks2 cs2 ->
  in_range lo' hi' key -> hi' = first_bound hi ks2 ->
  live (concat (map (flatten h) m')) = lupd key value (live (concat (map (flatten h) m))) ->
  live (concat (map (flatten h) (cs1 ++ m' ++ cs2)))
  = lupd key value (live (concat (map (flatten h) (cs1 ++ m ++ cs2)))).
Proof.
  intros Hl Hr Hk -> Hm. rewrite !concat_map_middle, !live_app, Hm, lupd_middle; [done| |].
  - eapply (live_keys (fun k => k <b key)), lseg_below; eassumption.
  - eapply (live_keys (fun k => key <b k)), rseg_above; eassumption.
Qed.

(** Finishing an internal node whose child [m] became [m']. *)
Lemma t_finish_child U {h} lo lo' hi hi' ks1 ks2 ks' (cs1 cs2 m m' : list (tree h)) key value :
  lseg (wf h) lo lo' ks1 cs1 -> rseg (wf h) hi ks2 cs2 ->
  in_range lo' hi' key -> hi' = first_bound hi ks2 ->
  seg (wf h) lo' hi ks' (m' ++ cs2) -> length (ks1 ++ ks') <= S MAX_INTERNAL_KEYS ->
  Forall (all_nodes U h) (cs1 ++ m' ++ cs2) ->
  Forall U (out_nodes (t_finish (ks1 ++ ks') (cs1 ++ m' ++ cs2))) ->
  live (concat (map (flatten h) m')) = lupd key value (live (concat (map (flatten h) m))) ->
  out_wf lo hi (t_finish (ks1 ++ ks') (cs1 ++ m' ++ cs2))
  /\ out_all U (t_finish (ks1 ++ ks') (cs1 ++ m' ++ cs2))
  /\ live (out_flat (t_finish (ks1 ++ ks') (cs1 ++ m' ++ cs2)))
     = lupd key value (live (concat (map (flatten h) (cs1 ++ m ++ cs2)))).
Proof.
  intros Hl Hr Hk Hhi Hseg Hlen Hall Hb Hm.
  destruct (t_finish_spec lo hi (ks1 ++ ks') (cs1 ++ m' ++ cs2)) as [H1 H2];
    [by eapply seg_app|done|].
  split_all; [done|by apply t_finish_all|].
  rewrite H2. by eapply live_update_child.
Qed.

(** A mutation of a well-formed tree gives one or two well-formed trees over the same range,
    holding the old entries updated at the key. *)
Theorem t_mutate_spec U {HU : CodecLaws U} h lo hi (t : tree h) key value :
  wf h lo hi t -> in_range lo hi key -> all_nodes U h t ->
  Forall U (built h key value t) ->
  out_wf lo hi (t_mutate h key value t)
  /\ out_all U (t_mutate h key value t)
  /\ live (out_flat (t_mutate h key value t)) = lupd key value (live (flatten h t)).
Proof.
  revert lo hi t. induction h as [|h IH]; intros lo hi t Hw Hk Hall Hb.
  { destruct (t_leaf_spec lo hi t key value Hw Hk) as [H1 H2].
    split_all; [done|by apply t_leaf_all|done]. }
  destruct t as [ks cs]. destruct Hw as [Hlen Hseg]. destruct Hall as [Hroot Hcs].
  cbn [fst snd] in *.
  destruct (seg_keys _ _ _ _ _ Hseg) as (Hsorted & _ & _).
  destruct (seg_find _ _ _ _ _ _ Hseg Hk)
    as (ks1 & ks2 & cs1 & c & cs2 & lo' & -> & -> & Hl1 & Hl2 & Hls & Ho & Hc & Hrs & Hkc).
  cbn [t_mutate built fst snd] in *. rewrite (child_index_spec _ _ Hsorted) in *.
  rewrite <- Hl2 in *. rewrite list_lookup_middle in * by done.
  apply Forall_app in Hb as [Hb Hb'].
  apply Forall_app in Hcs as Hcs'. destruct Hcs' as [Hcs1 [Hcc Hcs2]%Forall_cons].
  destruct (IH _ _ c Hc Hkc Hcc Hb) as (Hw' & Ha' & Hf').
  destruct (t_mutate h key value c) as [c'|l r sep]; cbn [out_wf out_all out_flat] in *.
  - destruct (bytes_eqb (tid c') (tid c)) eqn:E.
    + unfold bytes_eqb in E. apply bool_decide_eq_true in E.
      apply (tid_inj U) in E; [|done|done]. subst c'.
      split_all; [by split|by split|].
      eapply (live_update_child lo lo' hi _ ks1 ks2 cs1 cs2 [c] [c]); try done.
      cbn. by rewrite app_nil_r.
    + rewrite update_app in * by done.
      eapply (t_finish_child U lo lo' hi _ ks1 ks2 ks2 cs1 cs2 [c] [c']); try done; [|lia| |].
      * by apply seg_cons_inv.
      * apply Forall_app. by split; [|constructor].
      * cbn. by rewrite !app_nil_r.
  - rewrite update_app, vec_insert_app, vec_insert_app_next in * by done.
    eapply (t_finish_child U lo lo' hi _ ks1 ks2 (sep :: ks2) cs1 cs2 [c] [l; r]); try done.
    + destruct Hw' as (? & ? & ? & ?). cbn. split_all; [done|done|]. by apply seg_cons_inv.
    + rewrite length_app in *. cbn. lia.
    + destruct Ha'. apply Forall_app. split; [done|]. cbn. by rewrite !Forall_cons.
    + cbn. by rewrite !app_nil_r.
Qed.

(** ** Trees of any height *)

Record Tree := mkT { ht : nat; tr : tree ht }.

Definition root_id (T : Tree) : bytes := tid (tr T).
Definition tree_entries (T : Tree) : list kv := live (flatten (ht T) (tr T)).
Definition tree_wf (T : Tree) : Prop := wf (ht T) None None (tr T).

(** The map a tree represents. *)
Definition contents (T : Tree) : gmap bytes bytes := list_to_map (tree_entries T).

Definition grow_root {h} (o : tout h) : Tree :=
  match o with
  | TNode t => mkT h t
  | TSplit l r sep => mkT (S h) ([sep], [l; r])
  end.

(** [apply_single] on the value, and the nodes it builds. *)
Definition apply_tree (T : Tree) (key : bytes) (value : option bytes) : Tree :=
  grow_root (t_mutate (ht T) key value (tr T)).

Definition apply_built (T : Tree) (key : bytes) (value : option bytes) : list BptreeNode :=
  built (ht T) key value (tr T)
  ++ match t_mutate (ht T) key value (tr T) with
     | TNode _ => []
     | TSplit l r sep => [node_of (S (ht T)) ([sep], [l; r])]
     end.

Lemma in_range_none k : in_range None None k.
Proof. by split. Qed.

Lemma contents_entries T : tree_wf T -> map_entries (contents T) = tree_entries T.
Proof.
  intros Hw. pose proof (wf_entries _ _ _ _ Hw) as [_ Hs]. apply live_sorted in Hs.
  symmetry. apply map_entries_unique; [done|]. intros k v.
  apply elem_of_list_to_map. by apply sorted_entries_NoDup.
Qed.

Lemma apply_tree_spec U {HU : CodecLaws U} T key value :
  tree_wf T -> all_nodes U (ht T) (tr T) -> Forall U (apply_built T key value) ->
  tree_wf (apply_tree T key value)
  /\ all_nodes U _ (tr (apply_tree T key value))
  /\ contents (apply_tree T key value) = kv_update key value (contents T)
  /\ ht (apply_tree T key value) <= S (ht T).
Proof.
  intros Hw Ha [Hb Hb']%Forall_app.
  destruct (t_mutate_spec U _ _ _ _ key value Hw (in_range_none key) Ha Hb) as (Hw' & Ha' & Hl).
  assert (Hgoal : tree_wf (apply_tree T key value) /\ all_nodes U _ (tr (apply_tree T key value))
            /\ tree_entries (apply_tree T key value) = lupd key value (tree_entries T)
            /\ ht (apply_tree T key value) <= S (ht T)).
  { unfold apply_tree, tree_entries.
    destruct (t_mutate (ht T) key value (tr T)) as [t'|l r sep];
      cbn [out_wf out_all out_flat grow_root tr ht] in *; [split_all; [done|done|done|lia]|].
    destruct Hw' as (? & ? & ? & ?). apply Forall_cons in Hb' as [? _]. destruct Ha'. split_all.
    - split; [cbn; unfold MAX_INTERNAL_KEYS; lia|]. cbn. by split_all.
    - split; [done|]. cbn. by rewrite !Forall_cons.
    - cbn. by rewrite app_nil_r.
    - lia. }
  destruct Hgoal as (Hw2 & Ha2 & He & Hh). split_all; [done|done| |done].
  rewrite <- (contents_entries _ Hw), <- (contents_entries _ Hw2), lupd_entries in He.
  apply map_eq. intros k. apply option_eq. intros v.
  by rewrite <- !map_entries_elem, He.
Qed.

(** ** Lookup *)

Fixpoint t_get (h : nat) (key : bytes) : tree h -> option bytes :=
  match h return tree h -> option bytes with
  | O => fun t =>
      match binary_search (entries t) key with
      | inl idx => entries t !! idx ≫= le_value
      | inr _ => None
      end
  | S h' => fun t =>
      match t.2 !! child_index_for_key t.1 key with
      | Some c => t_get h' key c
      | None => None
      end
  end.

Lemma t_get_S h key ks (cs : list (tree h)) :
  t_get (S h) key (ks, cs)
  = match cs !! child_index_for_key ks key with Some c => t_get h key c | None => None end.
Proof. done. Qed.

Lemma kv_lookup_middle (l1 m l2 : list kv) key :
  Forall (fun e : kv => e.1 <b key) l1 -> Forall (fun e : kv => key <b e.1) l2 ->
  (list_to_map (l1 ++ m ++ l2) : gmap bytes bytes) !! key
  = (list_to_map m : gmap bytes bytes) !! key.
Proof.
  intros H1 H2. rewrite !list_to_map_app.
  rewrite lookup_union_r, lookup_union_l; [done| |]; apply not_elem_of_list_to_map_1;
    intros ([k v] & -> & Hin)%list_elem_of_fmap; rewrite Forall_forall in *; cbn in *.
  - specialize (H2 _ Hin). by apply blt_irrefl in H2.
  - specialize (H1 _ Hin). by apply blt_irrefl in H1.
Qed.

Lemma t_get_spec h lo hi (t : tree h) key :
  wf h lo hi t -> in_range lo hi key ->
  t_get h key t = (list_to_map (live (flatten h t)) : gmap bytes bytes) !! key.
Proof.
  revert lo hi t. induction h as [|h IH]; intros lo hi t Hw Hk.
  { destruct Hw as (Hs & _). by apply leaf_lookup. }
  destruct t as [ks cs]. destruct Hw as [_ Hseg].
  destruct (seg_keys _ _ _ _ _ Hseg) as (Hsorted & _ & _).
  destruct (seg_find _ _ _ _ _ _ Hseg Hk)
    as (ks1 & ks2 & cs1 & c & cs2 & lo' & Hks & Hcs & Hl1 & Hl2 & Hls & Ho & Hc & Hrs & Hkc).
  cbn [fst snd] in *. subst ks cs. cbn [t_get fst snd].
  rewrite (child_index_spec _ _ Hsorted), <- Hl2, list_lookup_middle by done.
  rewrite (IH _ _ c Hc Hkc). symmetry.
  cbn [flatten snd]. change (c :: cs2) with ([c] ++ cs2).
  rewrite concat_map_middle, !live_app, kv_lookup_middle; [cbn; by rewrite app_nil_r| |].
  - eapply (live_keys (fun k => k <b key)), lseg_below; eassumption.
  - eapply (live_keys (fun k => key <b k)), rseg_above; eassumption.
Qed.

End Trees.

Arguments TNode {h} _.
Arguments TSplit {h} _ _ _.
