(* ===== verification/TreeRefine.v ===== *)
(** * The Merkle store implements the B+tree

    Nodes live in RocksDB under their hash, and during a batch in the cache.
    [repr env t] says the tree value [t] is stored in [env]: every node of it is
    found under its id.  [mutate_node], [apply_single] and [get_at_root] are
    shown to implement the value-level operations of [BTree] while every node
    present before stays present (versions are immutable). *)
From S2P Require Import Prelude Bytes Rocks TreeNode TreeDb BTree.

Open Scope nat_scope.


Section Refine.
Context {DB : Type} {rocks : RocksDB DB} {laws : RocksLaws DB}.
Context {codec : NodeCodec} (U : BptreeNode -> Prop) {HU : CodecLaws U}.

(** ** What is stored *)

(** The node found under an id, if there is one and it decodes. *)
Definition db_node (db : DB) (id : bytes) : option BptreeNode :=
  db_view db !! node_key id ≫= decode_node_page.

Definition env_node (env : Env DB) (id : bytes) : option BptreeNode :=
  match env_ctx env with
  | Some ctx =>
      match pending_nodes ctx !! id with
      | Some n => Some n
      | None => db_node (env_db env) id
      end
  | None => db_node (env_db env) id
  end.

(** The store invariant: what is under an id decodes, hashes to the id, belongs to the run's
    nodes, and has its children in the store. *)
Definition db_ok (db : DB) : Prop :=
  forall id b, db_view db !! node_key id = Some b ->
    exists n, decode_node_page b = Some n /\ hash_node n = id /\ U n
      /\ forall c, c ∈ node_children n -> is_Some (db_node db c).

Definition pending_ok (db : DB) (pending : gmap bytes BptreeNode) : Prop :=
  forall id n, pending !! id = Some n ->
    hash_node n = id /\ U n
    /\ forall c, c ∈ node_children n -> is_Some (pending !! c) \/ is_Some (db_node db c).

Definition env_ok (env : Env DB) : Prop :=
  db_ok (env_db env)
  /\ match env_ctx env with
     | Some ctx => pending_ok (env_db env) (pending_nodes ctx)
     | None => True
     end.

(** Nothing that was there is lost or changed. *)
Definition env_le (env env' : Env DB) : Prop :=
  forall id n, env_node env id = Some n -> env_node env' id = Some n.

Definition db_le (db db' : DB) : Prop :=
  forall id n, db_node db id = Some n -> db_node db' id = Some n.

(** Rows outside the node family. *)
Definition not_node_key (k : bytes) : Prop := starts_with k NODE_PREFIX = false.

Definition same_meta (db db' : DB) : Prop :=
  forall k, not_node_key k -> db_view db' !! k = db_view db !! k.

#[global] Instance db_le_refl : Reflexive db_le.
Proof. by intros ???. Qed.
#[global] Instance db_le_trans : Transitive db_le.
Proof. intros ??? H1 H2 id n H. auto. Qed.
#[global] Instance same_meta_refl : Reflexive same_meta.
Proof. by intros ??. Qed.
#[global] Instance same_meta_trans : Transitive same_meta.
Proof. intros ??? H1 H2 k Hk. by rewrite H2, H1. Qed.

(** What a mutation may do to the environment: outside a batch it adds node rows, inside a
    batch it only fills the cache. *)
Record env_step (env env' : Env DB) : Prop := {
  es_ok : env_ok env';
  es_le : env_le env env';
  es_meta : same_meta (env_db env) (env_db env');
  es_db_le : db_le (env_db env) (env_db env');
  es_ctx : match env_ctx env with
           | Some _ => env_db env' = env_db env /\ is_Some (env_ctx env')
           | None => env_ctx env' = None
           end;
}.

Lemma node_key_inj a b : node_key a = node_key b -> a = b.
Proof. apply app_inv_head. Qed.

Lemma node_key_not_meta id k : not_node_key k -> node_key id <> k.
Proof. unfold not_node_key, node_key. intros Hk <-. by rewrite starts_with_app in Hk. Qed.

Lemma load_node_eq db id : load_node db id = default (Leaf LeafNode_default) (db_node db id).
Proof.
  unfold load_node, db_node. rewrite db_get_spec.
  destruct (db_view db !! node_key id) as [b|]; [|done]. cbn. by destruct (decode_node_page b).
Qed.

Lemma load_node_with_ctx_eq env id :
  load_node_with_ctx env id = default (Leaf LeafNode_default) (env_node env id).
Proof.
  unfold load_node_with_ctx, env_node. destruct (env_ctx env) as [ctx|]; [|apply load_node_eq].
  destruct (pending_nodes ctx !! id); [done|apply load_node_eq].
Qed.

Lemma db_node_ok db id n :
  db_ok db -> db_node db id = Some n ->
  hash_node n = id /\ U n /\ forall c, c ∈ node_children n -> is_Some (db_node db c).
Proof.
  intros Hok. unfold db_node at 1. destruct (db_view db !! node_key id) as [b|] eqn:E; [|done].
  cbn. intros Hn. destruct (Hok _ _ E) as (n' & Hn' & ?). by simplify_eq.
Qed.

Lemma env_node_ok env id n :
  env_ok env -> env_node env id = Some n ->
  hash_node n = id /\ U n /\ forall c, c ∈ node_children n -> is_Some (env_node env c).
Proof.
  intros [Hdb Hctx]. unfold env_node. destruct (env_ctx env) as [ctx|].
  - assert (Hc : forall c, is_Some (pending_nodes ctx !! c) \/ is_Some (db_node (env_db env) c) ->
              is_Some (match pending_nodes ctx !! c with
                       | Some n0 => Some n0 | None => db_node (env_db env) c end)).
    { intros c. destruct (pending_nodes ctx !! c); naive_solver. }
    destruct (pending_nodes ctx !! id) as [m|] eqn:E.
    + intros [= ->]. destruct (Hctx _ _ E) as (? & ? & ?). naive_solver.
    + intros Hn. destruct (db_node_ok _ _ _ Hdb Hn) as (? & ? & ?). naive_solver.
  - by apply db_node_ok.
Qed.

Lemma env_step_refl env : env_ok env -> env_step env env.
Proof. intros H. split; try (intros ??; done); [done|]. destruct (env_ctx env) eqn:E; eauto. Qed.

Lemma env_step_trans e1 e2 e3 : env_step e1 e2 -> env_step e2 e3 -> env_step e1 e3.
Proof.
  intros [O1 L1 M1 D1 C1] [O2 L2 M2 D2 C2]. split; [done| | | |].
  - intros id n H. auto.
  - intros k Hk. rewrite M2, M1; done.
  - intros id n H. auto.
  - destruct (env_ctx e1).
    + destruct C1 as [E1 [c2 E2]]. rewrite E2 in C2. destruct C2 as [-> ?]. done.
    + by rewrite C1 in C2.
Qed.

(** A freshly encoded node decodes to itself. *)
Lemma decode_encode n : U n -> decode_node_page (encode_node_page n) = Some n.
Proof. intros H. unfold decode_node_page, encode_node_page. by rewrite borsh_roundtrip. Qed.

Lemma db_put_node db n :
  U n -> db_view db !! node_key (hash_node n) = None ->
  (forall c, c ∈ node_children n -> is_Some (db_node db c)) -> db_ok db ->
  let db' := db_put db (node_key (hash_node n)) (encode_node_page n) in
  db_ok db' /\ db_node db' (hash_node n) = Some n /\ db_le db db' /\ same_meta db db'.
Proof.
  intros Hn Hfree Hch Hok db'.
  assert (Hle : db_le db db').
  { intros id m. unfold db_node, db'. rewrite db_put_spec.
    destruct (decide (node_key (hash_node n) = node_key id)) as [E|E].
    - rewrite <- E, Hfree. done.
    - by rewrite lookup_insert_ne. }
  assert (Hnew : db_node db' (hash_node n) = Some n).
  { unfold db_node, db'. rewrite db_put_spec, lookup_insert_eq. by apply decode_encode. }
  split_all; [|done|done|].
  - intros id b Hb. unfold db' in Hb. rewrite db_put_spec in Hb.
    apply lookup_insert_Some in Hb as [[Hk <-]|[Hk Hb]].
    + apply node_key_inj in Hk as <-. exists n. split_all; [by apply decode_encode|done|done|].
      intros c Hc. destruct (Hch c Hc) as [m Hm]. apply Hle in Hm. eauto.
    + destruct (Hok _ _ Hb) as (m & ? & ? & ? & Hc). exists m. split_all; try done.
      intros c Hin. destruct (Hc c Hin) as [m' Hm]. apply Hle in Hm. eauto.
  - intros k Hk. unfold db'. rewrite db_put_spec, lookup_insert_ne; [done|].
    by apply node_key_not_meta.
Qed.

(** Caching a node during a batch. *)
Lemma store_node_pending env ctx n :
  env_ctx env = Some ctx ->
  env_ok env -> U n -> (forall c, c ∈ node_children n -> is_Some (env_node env c)) ->
  exists env', store_node_with_ctx env n = (env', hash_node n)
    /\ env_step env env' /\ env_node env' (hash_node n) = Some n.
Proof.
  intros Ec [Hdb Hctx] Hn Hch. unfold store_node_with_ctx. rewrite Ec in *.
  set (p := match pending_nodes ctx !! hash_node n with Some _ => _ | None => _ end).
  assert (Hp : forall id, p !! id = if decide (id = hash_node n) then Some n
                                    else pending_nodes ctx !! id).
  { intros id. unfold p. destruct (pending_nodes ctx !! hash_node n) as [m|] eqn:Ep.
    - case_decide as E; [subst id|done]. rewrite Ep. f_equal.
      destruct (Hctx _ _ Ep) as (Hh & HUm & _). by apply hash_collision_free.
    - case_decide as E; [subst id; apply lookup_insert_eq|by apply lookup_insert_ne]. }
  eexists; split; [reflexivity|].
  assert (Hnode : forall id, env_node (mkEnv (env_db env) (Some (mkBatch p (ops_since_gc ctx)))) id
            = if decide (id = hash_node n) then Some n else env_node env id).
  { intros id. unfold env_node. rewrite Ec. cbn. rewrite Hp. by case_decide. }
  split; [|rewrite Hnode; by rewrite decide_True].
  assert (Hsome : forall c, is_Some (pending_nodes ctx !! c) -> is_Some (p !! c)).
  { intros c. rewrite Hp. case_decide; eauto. }
  split; [|intros id m Hm; rewrite Hnode|intros ??; done|intros ??; done|rewrite Ec; cbn; eauto].
  - split; [done|]. cbn. intros id m. rewrite Hp. case_decide as E.
    + intros [= <-]. split_all; [done|done|]. intros c Hc. specialize (Hch c Hc).
      unfold env_node in Hch. rewrite Ec in Hch.
      destruct (pending_nodes ctx !! c) eqn:Epc; [left; apply Hsome; eauto|by right].
    + intros Hm. destruct (Hctx _ _ Hm) as (? & ? & Hc). split_all; [done|done|]. intros c Hin.
      destruct (Hc c Hin); [left; by apply Hsome|by right].
  - case_decide as E; [subst id|done]. f_equal.
    destruct (env_node_ok env (hash_node n) m) as (Hh & HUm & _); [|done|].
    + split; [done|]. by rewrite Ec.
    + by apply hash_collision_free.
Qed.

(** Storing a node whose children are stored. *)
Lemma store_node_spec env n :
  env_ok env -> U n -> (forall c, c ∈ node_children n -> is_Some (env_node env c)) ->
  exists env', store_node_with_ctx env n = (env', hash_node n)
    /\ env_step env env' /\ env_node env' (hash_node n) = Some n.
Proof.
  intros Hok Hn Hch. destruct (env_ctx env) as [ctx|] eqn:Ec; [by eapply store_node_pending|].
  pose proof Hok as [Hdb _]. unfold store_node_with_ctx. rewrite Ec, db_get_spec.
  destruct (db_view (env_db env) !! node_key (hash_node n)) as [b|] eqn:Eb.
  - eexists; split; [reflexivity|]. split; [by apply env_step_refl|].
    destruct (Hdb _ _ Eb) as (m & Hm & Hh & HUm & _).
    assert (m = n) as -> by (by apply hash_collision_free).
    unfold env_node, db_node. by rewrite Ec, Eb.
  - eexists; split; [reflexivity|].
    assert (Hch' : forall c, c ∈ node_children n -> is_Some (db_node (env_db env) c)).
    { intros c Hc. specialize (Hch c Hc). unfold env_node in Hch. by rewrite Ec in Hch. }
    destruct (db_put_node _ _ Hn Eb Hch' Hdb) as (Hok' & Hnew & Hle & Hmeta).
    split; [|done]. split; [by split| |done|done|by rewrite Ec].
    intros id m. unfold env_node. rewrite Ec. cbn. apply Hle.
Qed.

(** ** Stored trees *)

Fixpoint repr (env : Env DB) (h : nat) : tree h -> Prop :=
  match h return tree h -> Prop with
  | O => fun t => env_node env (tid (h := 0) t) = Some (Leaf t)
  | S h' => fun t =>
      env_node env (tid (h := S h') t) = Some (node_of (S h') t) /\ Forall (repr env h') t.2
  end.

Lemma repr_root env h (t : tree h) : repr env h t -> env_node env (tid t) = Some (node_of h t).
Proof. destruct h; cbn; [done|naive_solver]. Qed.

Lemma repr_mono env env' h (t : tree h) : env_le env env' -> repr env h t -> repr env' h t.
Proof.
  intros Hle. induction h as [|h IH]; cbn; [by apply Hle|].
  intros [Hn Hc]. split; [by apply Hle|]. eapply Forall_impl; [exact Hc|]. apply IH.
Qed.

Lemma repr_all env h (t : tree h) : env_ok env -> repr env h t -> all_nodes U h t.
Proof.
  intros Hok. induction h as [|h IH]; cbn.
  - intros Hn. by apply (env_node_ok _ _ _ Hok) in Hn as (_ & ? & _).
  - intros [Hn Hc]. apply (env_node_ok _ _ _ Hok) in Hn as (_ & ? & _). split; [done|].
    eapply Forall_impl; [exact Hc|]. apply IH.
Qed.

Lemma node_children_of h ks (cs : list (tree h)) :
  node_children (node_of (S h) (ks, cs)) = map tid cs.
Proof. done. Qed.

Lemma repr_children env h (cs : list (tree h)) c :
  Forall (repr env h) cs -> c ∈ map tid cs -> is_Some (env_node env c).
Proof.
  intros H (t & -> & Ht)%list_elem_of_fmap. rewrite Forall_forall in H.
  specialize (H _ Ht). apply repr_root in H. eauto.
Qed.

Definition out_id {h} (o : tout h) : MutationOutcome :=
  match o with
  | TNode t => MNode (tid t)
  | TSplit l r sep => MSplit (tid l) (tid r) sep
  end.

Definition out_repr (env : Env DB) {h} (o : tout h) : Prop :=
  match o with
  | TNode t => repr env h t
  | TSplit l r _ => repr env h l /\ repr env h r
  end.

Lemma store_tree env h (t : tree (S h)) :
  env_ok env -> U (node_of (S h) t) -> Forall (repr env h) t.2 ->
  exists env', store_node_with_ctx env (node_of (S h) t) = (env', tid t)
    /\ env_step env env' /\ repr env' (S h) t.
Proof.
  intros Hok HU' Hc. destruct (store_node_spec env (node_of (S h) t) Hok HU')
    as (env' & He & Hstep & Hn).
  { intros c. by apply repr_children. }
  exists env'. split_all; [done|done|]. split; [done|].
  eapply Forall_impl; [exact Hc|]. intros c. apply repr_mono, (es_le _ _ Hstep).
Qed.

Lemma store_leaf env (t : tree 0) :
  env_ok env -> U (Leaf t) ->
  exists env', store_node_with_ctx env (Leaf t) = (env', tid (h := 0) t)
    /\ env_step env env' /\ repr env' 0 t.
Proof.
  intros Hok HU'. destruct (store_node_spec env (Leaf t) Hok HU') as (env' & He & Hstep & Hn);
    [|by exists env'].
  intros c Hc. by apply elem_of_nil in Hc.
Qed.

Lemma finish_internal_spec env h ks (cs : list (tree h)) :
  env_ok env -> Forall (repr env h) cs -> Forall U (out_nodes (t_finish ks cs)) ->
  exists env', finish_internal env ks (map tid cs) = (env', out_id (t_finish ks cs))
    /\ env_step env env' /\ out_repr env' (t_finish ks cs).
Proof.
  intros Hok Hc. unfold finish_internal, t_finish.
  destruct (length ks <=? MAX_INTERNAL_KEYS); cbn [out_nodes out_id out_repr].
  - intros [HU1 _]%Forall_cons.
    destruct (store_tree env h (ks, cs) Hok HU1 Hc) as (env' & He & ? & ?).
    exists env'. split; [|done].
    change (Internal (mkInternalNode ks (map tid cs))) with (node_of (S h) (ks, cs)).
    by rewrite He.
  - set (mid := length ks / 2). intros [HU1 [HU2 _]%Forall_cons]%Forall_cons.
    destruct (store_tree env h (take mid ks, take (mid + 1) cs) Hok HU1)
      as (env1 & He1 & Hs1 & Hr1); [by apply Forall_take|].
    destruct (store_tree env1 h (drop (mid + 1) ks, drop (mid + 1) cs) (es_ok _ _ Hs1) HU2)
      as (env2 & He2 & Hs2 & Hr2).
    { apply Forall_drop. eapply Forall_impl; [exact Hc|].
      intros c. apply repr_mono, (es_le _ _ Hs1). }
    exists env2. split_all; [|by eapply env_step_trans| |done].
    + rewrite firstn_map, skipn_map.
      change (Internal (mkInternalNode ?a (map tid ?b))) with (node_of (S h) (a, b)).
      by rewrite He1, He2.
    + eapply repr_mono; [apply (es_le _ _ Hs2)|done].
Qed.

(** [mutate_node] on the store is [t_mutate] on the value. *)
Lemma mutate_node_refines env h (t : tree h) key value fuel :
  env_ok env -> repr env h t -> h < fuel -> Forall U (built h key value t) ->
  exists env', mutate_node fuel env (tid t) key value
                 = Some (env', out_id (t_mutate h key value t))
    /\ env_step env env' /\ out_repr env' (t_mutate h key value t).
Proof.
  revert env t fuel. induction h as [|h IH]; intros env t fuel Hok Hr Hf Hb;
    (destruct fuel as [|fuel]; [lia|]); cbn [mutate_node].
  - rewrite load_node_with_ctx_eq, (repr_root _ _ _ Hr). cbn [default node_of t_mutate].
    cbn [built t_mutate] in Hb. unfold t_leaf, id in *.
    destruct (mutate_leaf (entries t) key value) as [es changed].
    destruct (negb changed); [exists env; split_all; [done|by apply env_step_refl|done]|].
    destruct (length es <=? MAX_LEAF_ENTRIES); cbn [out_nodes out_id out_repr] in *.
    + apply Forall_cons in Hb as [Hb _].
      destruct (store_leaf env (mkLeafNode es (next t)) Hok Hb) as (env' & -> & ? & ?). eauto.
    + apply Forall_cons in Hb as [Hb1 [Hb2 _]%Forall_cons].
      destruct (store_leaf env _ Hok Hb2) as (env1 & -> & Hs1 & Hr1).
      destruct (store_leaf env1 _ (es_ok _ _ Hs1) Hb1) as (env2 & -> & Hs2 & Hr2).
      exists env2. split_all; [done|by eapply env_step_trans|done|].
      eapply repr_mono; [apply (es_le _ _ Hs2)|done].
  - destruct t as [ks cs]. destruct Hr as [Hn Hc]. cbn [snd] in Hc.
    rewrite built_S, t_mutate_S in *. rewrite load_node_with_ctx_eq, Hn.
    cbn [default node_of fst snd keys children] in *.
    unfold id. change (map (fun c => hash_node (node_of h c)) cs) with (map tid cs).
    cbn [keys children]. set (idx := child_index_for_key ks key) in *.
    assert (Hlk : map tid cs !! idx = tid <$> cs !! idx) by apply list_lookup_fmap.
    destruct (cs !! idx) as [c|] eqn:Ec; cbn [fmap option_fmap option_map] in Hlk.
    2: { exists env. split_all; [|by apply env_step_refl|exact (conj Hn Hc)].
         rewrite Hlk. by destruct (map tid cs). }
    rewrite Hlk, match_nonempty by (intros Hnil; by rewrite Hnil in Hlk).
    apply Forall_app in Hb as [Hb Hb'].
    assert (Hrc : repr env h c) by (rewrite Forall_forall in Hc; apply Hc; by eapply list_elem_of_lookup_2).
    destruct (IH env c fuel Hok Hrc ltac:(lia) Hb) as (env1 & -> & Hs1 & Hr1).
    assert (Hc1 : Forall (repr env1 h) cs).
    { eapply Forall_impl; [exact Hc|]. intros x. apply repr_mono, (es_le _ _ Hs1). }
    destruct (t_mutate h key value c) as [c'|l r sep]; cbn [out_id out_repr] in *.
    + destruct (bytes_eqb (tid c') (tid c)) eqn:E.
      * exists env1. split_all; [done|done|]. exact (conj (es_le _ _ Hs1 _ _ Hn) Hc1).
      * destruct (finish_internal_spec env1 h ks (<[idx := c']> cs)) as (env2 & He2 & Hs2 & Hr2);
          [by apply (es_ok _ _ Hs1)|by apply Forall_insert|done|].
        exists env2. split_all; [|by eapply env_step_trans|done].
        rewrite <- He2. do 2 f_equal. symmetry. apply (list_fmap_insert tid).
    + destruct (finish_internal_spec env1 h (vec_insert idx sep ks)
                  (vec_insert (idx + 1) r (<[idx := l]> cs))) as (env2 & He2 & Hs2 & Hr2);
        [by apply (es_ok _ _ Hs1)| |done|].
      { destruct Hr1. unfold vec_insert. apply Forall_app. split.
        - by apply Forall_take, Forall_insert.
        - constructor; [done|]. by apply Forall_drop, Forall_insert. }
      exists env2. split_all; [|by eapply env_step_trans|done].
      rewrite <- He2. do 2 f_equal. unfold vec_insert. rewrite map_app. cbn [map].
      rewrite <- firstn_map, <- skipn_map. symmetry.
      by rewrite (list_fmap_insert tid cs idx l : map tid (<[idx:=l]> cs) = <[idx:=tid l]> (map tid cs)).
Qed.

(** ** Versions

    [stored env root T]: the id [root] names the well-formed tree [T] in [env]. *)
Definition stored (env : Env DB) (root : bytes) (T : Tree) : Prop :=
  root = root_id T /\ repr env (ht T) (tr T) /\ tree_wf T.

Lemma stored_mono env env' root T : env_le env env' -> stored env root T -> stored env' root T.
Proof. intros Hle (-> & Hr & Hw). split; [done|]. split; [by eapply repr_mono|done]. Qed.

Lemma apply_single_refines env root T key value fuel :
  env_ok env -> stored env root T -> ht T < fuel -> Forall U (apply_built T key value) ->
  exists env', apply_single fuel env root key value
                 = Some (env', root_id (apply_tree T key value))
    /\ env_step env env' /\ stored env' (root_id (apply_tree T key value)) (apply_tree T key value)
    /\ contents (apply_tree T key value) = kv_update key value (contents T)
    /\ ht (apply_tree T key value) <= S (ht T).
Proof.
  intros Hok (-> & Hr & Hw) Hf Hb.
  destruct (apply_tree_spec U T key value Hw (repr_all _ _ _ Hok Hr) Hb) as (Hw' & _ & Hc & Hh).
  apply Forall_app in Hb as [Hb Hb'].
  destruct (mutate_node_refines env _ _ key value fuel Hok Hr Hf Hb) as (env1 & He & Hs1 & Hr1).
  unfold apply_single, root_id. rewrite He. unfold apply_tree, stored in *.
  destruct (t_mutate (ht T) key value (tr T)) as [t'|l r sep]; cbn [out_id out_repr] in *.
  - exists env1. by split_all.
  - apply Forall_cons in Hb' as [HU' _].
    destruct (store_tree env1 (ht T) ([sep], [l; r]) (es_ok _ _ Hs1) HU') as (env2 & He2 & Hs2 & Hr2).
    { cbn. destruct Hr1. by rewrite !Forall_cons. }
    exists env2. split_all; try done; [|by eapply env_step_trans].
    cbn [node_of fst snd map] in He2. unfold tid at 1 2. by rewrite He2.
Qed.

(** ** Reading: the database alone, no cache *)

Definition denv (db : DB) : Env DB := mkEnv db None.

Lemma get_at_root_refines db h (t : tree h) key fuel :
  repr (denv db) h t -> h < fuel -> get_at_root fuel db (tid t) key = Some (t_get h key t).
Proof.
  revert t fuel. induction h as [|h IH]; intros t fuel Hr Hf; (destruct fuel as [|fuel]; [lia|]);
    cbn [get_at_root]; rewrite load_node_eq;
    pose proof (repr_root _ _ _ Hr) as Hn; unfold env_node in Hn; cbn in Hn; rewrite Hn.
  - cbn. by destruct (binary_search (entries t) key).
  - destruct t as [ks cs]. destruct Hr as [_ Hc]. cbn [default node_of fst snd t_get] in *.
    unfold id. cbn [keys children].
    change (map (fun c => hash_node (node_of h c)) cs) with (map tid cs).
    set (idx := child_index_for_key ks key).
    assert (Hlk : map tid cs !! idx = tid <$> cs !! idx) by apply list_lookup_fmap.
    rewrite Hlk. destruct (cs !! idx) as [c|] eqn:Ec; cbn [fmap option_fmap option_map] in *.
    + rewrite match_nonempty by (intros Hnil; by rewrite Hnil in Hlk).
      rewrite Forall_forall in Hc. rewrite IH; [|apply Hc; by eapply list_elem_of_lookup_2|lia].
      f_equal. symmetry. change (match cs !! idx with Some c => t_get h key c | None => None end = t_get h key c).
      by rewrite Ec.
    + change (match map tid cs with [] => Some None | _ :: _ => Some None end =
              Some (match cs !! idx with Some c => t_get h key c | None => None end)).
      rewrite Ec. by destruct (map tid cs).
Qed.

Lemma get_at_root_spec db root T key fuel :
  stored (denv db) root T -> ht T < fuel ->
  get_at_root fuel db root key = Some (contents T !! key).
Proof.
  intros (-> & Hr & Hw) Hf. unfold root_id. rewrite get_at_root_refines by done.
  f_equal. eapply t_get_spec; [exact Hw|apply in_range_none].
Qed.

End Refine.
