(* ===== verification/TreeBatch.v ===== *)
(** * Batches

    [apply_batch_owned] sorts and deduplicates the changes, mutates through the
    node cache, drops unreachable cache nodes when it grows and writes the rest
    in one batch.  Shown here: the canonicalisation keeps the meaning of the
    change list, the two graph walks terminate, collection and flushing lose
    nothing that the new root needs, and the whole batch applies the changes. *)
From S2P Require Import Prelude Bytes Rocks TreeNode TreeDb BTree TreeRefine.

Open Scope nat_scope.

(** ** Change lists *)

Definition change_update (m : gmap bytes bytes) (c : Change) : gmap bytes bytes :=
  kv_update c.1 c.2 m.

(** The changes in order, later ones on top. *)
Definition apply_changes (m : gmap bytes bytes) (cs : list Change) : gmap bytes bytes :=
  foldl change_update m cs.

Lemma change_update_comm m a b :
  a.1 <> b.1 -> change_update (change_update m a) b = change_update (change_update m b) a.
Proof.
  intros Hne. apply map_eq. intros k. unfold change_update.
  rewrite !kv_update_lookup. repeat case_decide; congruence.
Qed.

Lemma change_update_same m k v w :
  change_update (change_update m (k, v)) (k, w) = change_update m (k, w).
Proof.
  apply map_eq. intros k'. unfold change_update. rewrite !kv_update_lookup.
  repeat case_decide; done.
Qed.

Lemma apply_changes_app m a b : apply_changes m (a ++ b) = apply_changes (apply_changes m a) b.
Proof. apply foldl_app. Qed.

(** ** Sorting *)

Lemma change_leb_false a b : change_leb a b = false -> a.1 <> b.1.
Proof.
  unfold change_leb. rewrite bytes_leb_false. intros Hlt Heq. rewrite Heq in Hlt.
  by apply blt_irrefl in Hlt.
Qed.

Lemma insert_by_apply m c cs :
  apply_changes m (insert_by change_leb c cs) = apply_changes m (c :: cs).
Proof.
  revert m; induction cs as [|d cs IH]; intros m; [done|]. cbn [insert_by].
  destruct (change_leb c d) eqn:E; [done|]. apply change_leb_false in E.
  change (apply_changes (change_update m d) (insert_by change_leb c cs)
          = apply_changes (change_update (change_update m c) d) cs).
  rewrite IH. cbn. by rewrite change_update_comm by done.
Qed.

Lemma sort_by_apply m cs : apply_changes m (sort_by change_leb cs) = apply_changes m cs.
Proof.
  revert m; induction cs as [|c cs IH]; intros m; [done|]. cbn [sort_by].
  rewrite insert_by_apply. apply (IH (change_update m c)).
Qed.

(** ** The compaction loop *)

(** One element in: merge with the last entry when the key repeats. *)
Definition dedup_push (acc : list Change) (c : Change) : list Change :=
  match last acc with
  | Some d => if bytes_eqb d.1 c.1 then take (length acc - 1) acc ++ [(d.1, c.2)] else acc ++ [c]
  | None => acc ++ [c]
  end.

Definition dedup (cs : list Change) : list Change := foldl dedup_push [] cs.

Lemma last_lookup_pred {A} (l : list A) : last l = l !! (length l - 1).
Proof.
  destruct l as [|x l] using rev_ind; [done|].
  rewrite last_snoc, length_app. cbn. replace (length l + 1 - 1) with (length l) by lia.
  by rewrite list_lookup_middle.
Qed.

Lemma dedup_push_apply m acc c :
  apply_changes m (dedup_push acc c) = change_update (apply_changes m acc) c.
Proof.
  unfold dedup_push. destruct acc as [|d acc _] using rev_ind; [done|]. rewrite last_snoc.
  destruct (bytes_eqb d.1 c.1) eqn:E.
  2: { by rewrite apply_changes_app. }
  unfold bytes_eqb in E. apply bool_decide_eq_true in E.
  rewrite length_app. cbn [length]. replace (length acc + 1 - 1) with (length acc) by lia.
  rewrite take_app_length, !apply_changes_app. cbn.
  destruct d as [dk dv], c as [ck cv]. cbn in *. subst ck. by rewrite change_update_same.
Qed.

Lemma dedup_apply m cs : apply_changes m (dedup cs) = apply_changes m cs.
Proof.
  unfold dedup. assert (H : forall acc, apply_changes m (foldl dedup_push acc cs)
                            = apply_changes (apply_changes m acc) cs).
  { induction cs as [|c cs IH]; intros acc; [done|]. cbn. rewrite IH. by rewrite dedup_push_apply. }
  apply H.
Qed.

(** Appending the current element: in place, or by the swap. *)
Lemma canonical_push read write (cs : list Change) c :
  write <= read -> cs !! read = Some c ->
  let cs' := if negb (write =? read)
             then <[read := default ([], None) (cs !! write)]> (<[write := c]> cs) else cs in
  length cs' = length cs /\ take (S write) cs' = take write cs ++ [c]
  /\ drop (S read) cs' = drop (S read) cs.
Proof.
  intros Hle Hc cs'. unfold cs'. pose proof (lookup_lt_Some _ _ _ Hc).
  destruct (Nat.eqb_spec write read) as [->|Hne]; cbn [negb].
  - split_all; [done|by apply take_S_r|done].
  - rewrite !length_insert. split_all; [done| |].
    + rewrite take_insert_ge by lia.
      rewrite (take_S_r _ _ c) by (apply list_lookup_insert_eq; lia).
      by rewrite take_insert_ge by lia.
    + by rewrite !drop_insert_lt by lia.
Qed.

(** Merging the current element into the last kept one. *)
Lemma canonical_merge read write (cs : list Change) x y :
  0 < write <= read -> read < length cs ->
  let cs' := <[write - 1 := y]> (<[read := x]> cs) in
  length cs' = length cs /\ take write cs' = take (write - 1) cs ++ [y]
  /\ drop (S read) cs' = drop (S read) cs.
Proof.
  intros Hw Hr cs'. unfold cs'. rewrite !length_insert. split_all; [done| |].
  - replace write with (S (write - 1)) at 1 by lia.
    rewrite (take_S_r _ _ y) by (apply list_lookup_insert_eq; rewrite length_insert; lia).
    by rewrite !take_insert_ge by lia.
  - by rewrite !drop_insert_lt by lia.
Qed.

(** The array after [read] steps: a compacted prefix of length [write], an untouched tail. *)
Lemma canonical_loop_spec n read write (cs sorted : list Change) :
  length cs = length sorted -> read + n = length sorted -> write <= read ->
  take write cs = dedup (take read sorted) ->
  drop read cs = drop read sorted ->
  let '(w, out) := canonical_loop n read write cs in
  take w out = dedup sorted.
Proof.
  revert read write cs. induction n as [|n IH]; intros read write cs Hlen Hn Hw Ht Hd;
    cbn [canonical_loop].
  { by rewrite Ht, take_ge by lia. }
  destruct (lookup_lt_is_Some_2 sorted read ltac:(lia)) as [c Hc].
  assert (Hcs : cs !! read = Some c).
  { rewrite <- (Nat.add_0_r read), <- lookup_drop, Hd, lookup_drop, Nat.add_0_r. done. }
  assert (Hd1 : drop (S read) cs = drop (S read) sorted).
  { rewrite <- Nat.add_1_r, <- !drop_drop. by rewrite Hd. }
  assert (Hfold : dedup (take (S read) sorted) = dedup_push (take write cs) c).
  { unfold dedup in *. rewrite (take_S_r _ _ c Hc), foldl_app, <- Ht. done. }
  assert (Hlast : last (take write cs) = if decide (0 < write) then cs !! (write - 1) else None).
  { rewrite last_lookup_pred, length_take, Nat.min_l by (apply lookup_lt_Some in Hcs; lia).
    case_decide; [by rewrite lookup_take_lt by lia|by replace write with 0 by lia]. }
  pose proof (lookup_lt_Some _ _ _ Hcs) as Hlt.
  pose proof (canonical_push read write cs c Hw Hcs) as (Hpl & Hpt & Hpd).
  rewrite Hcs. cbn [default]. unfold id in *. unfold dedup_push in Hfold.
  destruct (Nat.ltb_spec 0 write) as [Hpos|Hpos]; cbn [andb].
  - rewrite decide_True in Hlast by done.
    destruct (lookup_lt_is_Some_2 cs (write - 1) ltac:(lia)) as [d Hdk].
    rewrite Hdk in Hlast |- *. rewrite Hlast in Hfold. cbn [default].
    destruct (bytes_eqb d.1 c.1).
    + destruct (canonical_merge read write cs (c.1, None) (d.1, c.2)) as (Hml & Hmt & Hmd);
        [lia|lia|].
      apply IH; [congruence|lia|lia| |congruence].
      rewrite Hmt, Hfold, length_take, take_take. f_equal. f_equal. lia.
    + destruct (negb (write =? read)); (apply IH; [congruence|lia|lia|congruence|congruence]).
  - rewrite decide_False in Hlast by lia. rewrite Hlast in Hfold.
    destruct (negb (write =? read)); (apply IH; [congruence|lia|lia|congruence|congruence]).
Qed.

Lemma canonicalize_dedup cs : canonicalize cs = dedup (sort_by change_leb cs).
Proof.
  unfold canonicalize.
  pose proof (canonical_loop_spec (length (sort_by change_leb cs)) 0 0 _ _
                eq_refl eq_refl (le_n 0) eq_refl eq_refl) as H.
  by destruct (canonical_loop _ 0 0 _).
Qed.

Lemma canonicalize_apply m cs : apply_changes m (canonicalize cs) = apply_changes m cs.
Proof. by rewrite canonicalize_dedup, dedup_apply, sort_by_apply. Qed.

(** Each key once, in order. *)
Definition sorted_keys (cs : list Change) : Prop :=
  StronglySorted (fun a b : Change => a.1 <b b.1) cs.

Lemma sort_by_sorted cs : StronglySorted (fun a b : Change => a.1 <=b b.1) (sort_by change_leb cs).
Proof.
  apply sort_by_ordered.
  - intros a b c Hab Hbc. by eapply ble_trans.
  - intros a b E. by apply bytes_leb_ble.
  - intros a b E. by apply blt_ble, bytes_leb_false.
Qed.

Lemma dedup_push_sorted acc c :
  sorted_keys acc -> Forall (fun d : Change => d.1 <=b c.1) acc ->
  sorted_keys (dedup_push acc c) /\ Forall (fun d : Change => d.1 <=b c.1) (dedup_push acc c).
Proof.
  intros Hs Hle. unfold dedup_push. destruct acc as [|d acc _] using rev_ind.
  { cbn. split; [by repeat constructor|]. repeat constructor. apply ble_refl. }
  rewrite last_snoc. apply StronglySorted_app in Hs as Hs'. destruct Hs' as (Hx & Hacc & _).
  apply Forall_app in Hle as [Hle [Hd _]%Forall_cons].
  unfold bytes_eqb. case_bool_decide as E.
  - rewrite length_app. cbn [length]. replace (length acc + 1 - 1) with (length acc) by lia.
    rewrite take_app_length. split.
    + apply StronglySorted_app_2; [|done|by repeat constructor].
      intros a b Ha Hb. apply list_elem_of_singleton in Hb as ->. cbn. apply (Hx a d); set_solver.
    + apply Forall_app. split; [done|]. repeat constructor. cbn. rewrite E. apply ble_refl.
  - assert (Hdc : d.1 <b c.1) by (apply ble_lteq in Hd as [?|?]; [done|congruence]). split.
    + apply StronglySorted_app_2; [|done|by repeat constructor].
      intros a b [Ha|Ha]%elem_of_app Hb; apply list_elem_of_singleton in Hb as ->.
      * assert (a.1 <b d.1) by (apply (Hx a d); set_solver). border.
      * by apply list_elem_of_singleton in Ha as ->.
    + rewrite !Forall_app. split_all; [done|by repeat constructor|]. repeat constructor. apply ble_refl.
Qed.

Lemma dedup_sorted acc cs :
  StronglySorted (fun a b : Change => a.1 <=b b.1) cs -> sorted_keys acc ->
  Forall (fun d : Change => Forall (fun c : Change => d.1 <=b c.1) cs) acc ->
  sorted_keys (foldl dedup_push acc cs).
Proof.
  intros Hs. revert acc. induction Hs as [|c cs Hs IH Hall]; intros acc Ha Hle; [done|]. cbn [foldl].
  assert (Hc : Forall (fun d : Change => d.1 <=b c.1) acc).
  { eapply Forall_impl; [exact Hle|]. intros d Hd. by apply Forall_cons in Hd as [? _]. }
  destruct (dedup_push_sorted acc c Ha Hc) as [H1 H2]. apply IH; [done|].
  eapply Forall_impl; [exact H2|]. cbn. intros d Hd. eapply Forall_impl; [exact Hall|]. cbn.
  intros x Hx. border.
Qed.

Lemma canonicalize_sorted cs : sorted_keys (canonicalize cs).
Proof.
  rewrite canonicalize_dedup. apply dedup_sorted; [apply sort_by_sorted|constructor|constructor].
Qed.

Lemma dedup_push_length acc c : length (dedup_push acc c) <= S (length acc).
Proof.
  unfold dedup_push. destruct (last acc) as [d|]; [destruct (bytes_eqb _ _)|];
    rewrite length_app; rewrite ?length_take; cbn; lia.
Qed.

Lemma canonicalize_length cs : length (canonicalize cs) <= length cs.
Proof.
  rewrite canonicalize_dedup. unfold dedup.
  assert (H : forall l acc, length (foldl dedup_push acc l) <= length acc + length l).
  { induction l as [|c l IH]; intros acc; cbn; [lia|].
    specialize (IH (dedup_push acc c)). pose proof (dedup_push_length acc c). lia. }
  specialize (H (sort_by change_leb cs) []).
  pose proof (Permutation_length (sort_by_perm change_leb cs)). cbn in H. lia.
Qed.

(** ** The walks over the cache *)

Lemma push_children_eq n stack : push_children n stack = reverse (node_children n) ++ stack.
Proof.
  unfold push_children. revert stack. induction (node_children n) as [|c cs IH]; intros st; [done|].
  cbn [foldl]. by rewrite IH, reverse_cons, <- app_assoc.
Qed.

(** The pushes still to come: the children of the pending nodes not yet marked. *)
Definition unmarked (p : gmap bytes BptreeNode) (R : gset bytes) : nat :=
  map_fold (fun _ n acc => length (node_children n) + acc) 0 (filter (fun e => e.1 ∉ R) p).

Lemma unmarked_step p R id n :
  id ∉ R -> p !! id = Some n ->
  unmarked p R = length (node_children n) + unmarked p ({[id]} ∪ R).
Proof.
  intros Hid Hp. unfold unmarked.
  rewrite (map_fold_delete_L (fun _ n acc => length (node_children n) + acc) 0 id n).
  - f_equal. f_equal. apply map_eq. intros k.
    rewrite lookup_delete. case_decide as E.
    + subst k. symmetry. apply map_lookup_filter_None. right. intros ? _ Hni. set_solver.
    + rewrite !map_lookup_filter. destruct (p !! k) eqn:Ek; cbn; [|done].
      case_guard; case_guard; set_solver.
  - intros. lia.
  - by apply map_lookup_filter_Some.
Qed.

Lemma unmarked_None p R id : p !! id = None -> unmarked p ({[id]} ∪ R) = unmarked p R.
Proof.
  intros Hp. unfold unmarked. f_equal. apply map_filter_ext. intros k n Hk. cbn.
  assert (k <> id) by congruence. set_solver.
Qed.

Lemma walk_fuel_enough p : 1 + unmarked p ∅ < walk_fuel p.
Proof.
  unfold walk_fuel, unmarked. rewrite map_filter_id; [lia|]. cbn. set_solver.
Qed.

(** The marking loop ends. *)
Lemma mark_reachable_total fuel p stack R :
  length stack + unmarked p R < fuel -> is_Some (mark_reachable fuel p stack R).
Proof.
  revert stack R. induction fuel as [|fuel IH]; intros stack R Hf; [lia|]. cbn [mark_reachable].
  destruct stack as [|id stack]; [eauto|]. cbn [length] in Hf. case_bool_decide as Hin.
  { apply IH. lia. }
  destruct (p !! id) as [n|] eqn:Ep.
  - apply IH. rewrite push_children_eq, length_app, length_reverse.
    rewrite (unmarked_step p R id n) in Hf by done. lia.
  - apply IH. rewrite unmarked_None by done. lia.
Qed.

(** A set of ids closed under the children of pending nodes. *)
Definition walk_closed (p : gmap bytes BptreeNode) (R : gset bytes) (stack : list bytes) : Prop :=
  forall id n c, id ∈ R -> p !! id = Some n -> c ∈ node_children n -> c ∈ R \/ c ∈ stack.

Lemma walk_closed_mark p R stack id :
  walk_closed p R (id :: stack) ->
  walk_closed p ({[id]} ∪ R)
    (match p !! id with Some n => push_children n stack | None => stack end).
Proof.
  intros Hc x n c Hx Hp Hin. destruct (decide (x = id)) as [->|Hne].
  - rewrite Hp, push_children_eq. right. rewrite elem_of_app, elem_of_reverse. auto.
  - destruct (Hc x n c) as [?|Hs]; [set_solver|done|done|set_solver|].
    apply elem_of_cons in Hs as [->|Hs]; [set_solver|]. right.
    destruct (p !! id); [|done]. rewrite push_children_eq. set_solver.
Qed.

Lemma walk_closed_skip p R stack id :
  id ∈ R -> walk_closed p R (id :: stack) -> walk_closed p R stack.
Proof. intros Hid Hc x n c Hx Hp Hin. specialize (Hc x n c Hx Hp Hin). set_solver. Qed.

Lemma mark_reachable_closed fuel p stack R R' :
  mark_reachable fuel p stack R = Some R' -> walk_closed p R stack ->
  (forall x, x ∈ stack -> x ∈ R') /\ R ⊆ R' /\ walk_closed p R' [].
Proof.
  revert stack R. induction fuel as [|fuel IH]; intros stack R Hm Hc; [done|].
  cbn [mark_reachable] in Hm. destruct stack as [|id stack].
  { injection Hm as <-. split_all; [|done|done]. intros x Hx. by apply elem_of_nil in Hx. }
  case_bool_decide as Hin.
  - destruct (IH _ _ Hm) as (H1 & H2 & H3); [by eapply walk_closed_skip|]. set_solver.
  - pose proof (walk_closed_mark _ _ _ _ Hc) as Hc'.
    destruct (p !! id) as [n|] eqn:Ep.
    + destruct (IH _ _ Hm) as (H1 & H2 & H3); [done|]. rewrite push_children_eq in H1. set_solver.
    + destruct (IH _ _ Hm) as (H1 & H2 & H3); [done|]. set_solver.
Qed.

Section Batch.
Context {DB : Type} {rocks : RocksDB DB} {laws : RocksLaws DB}.
Context {codec : NodeCodec} (U : BptreeNode -> Prop) {HU : CodecLaws U}.

Abbreviation env_ok := (env_ok U).
Abbreviation db_ok := (db_ok U).
Abbreviation pending_ok := (pending_ok U).

(** The flush loop visits the same ids, recording a write for each pending one. *)
Definition written (p : gmap bytes BptreeNode) (R : gset bytes) (wb : WriteBatch) : Prop :=
  (forall id n, id ∈ R -> p !! id = Some n -> BPut (node_key id) (encode_node_page n) ∈ wb)
  /\ (forall op, op ∈ wb -> exists id n, p !! id = Some n
        /\ op = BPut (node_key id) (encode_node_page n) /\ id ∈ R).

Lemma flush_walk_mark fuel p stack R wb :
  flush_walk fuel p stack R wb = None <-> mark_reachable fuel p stack R = None.
Proof.
  revert stack R wb. induction fuel as [|fuel IH]; intros stack R wb; [done|].
  cbn. destruct stack as [|id stack]; [done|]. case_bool_decide; [apply IH|].
  destruct (p !! id); apply IH.
Qed.

Lemma flush_walk_spec fuel p stack R wb wb' :
  flush_walk fuel p stack R wb = Some wb' -> walk_closed p R stack -> written p R wb ->
  exists R', (forall x, x ∈ stack -> x ∈ R') /\ R ⊆ R' /\ walk_closed p R' []
    /\ written p R' wb'.
Proof.
  revert stack R wb. induction fuel as [|fuel IH]; intros stack R wb Hm Hc Hw; [done|].
  cbn [flush_walk] in Hm. destruct stack as [|id stack].
  { injection Hm as <-. exists R. split_all; [|done|done|done].
    intros x Hx. by apply elem_of_nil in Hx. }
  case_bool_decide as Hin.
  - destruct (IH _ _ _ Hm) as (R' & H1 & H2 & H3); [by eapply walk_closed_skip|done|].
    exists R'. set_solver.
  - pose proof (walk_closed_mark _ _ _ _ Hc) as Hc'. destruct Hw as [Hw1 Hw2].
    destruct (p !! id) as [n|] eqn:Ep.
    + destruct (IH _ _ _ Hm) as (R' & H1 & H2 & H3); [done| |].
      { split.
        - intros x m Hx Hp. apply elem_of_app.
          destruct (decide (x = id)) as [->|]; [right; rewrite Ep in Hp; set_solver|].
          left. apply Hw1; set_solver.
        - intros op [Hop|Hop]%elem_of_app.
          + destruct (Hw2 _ Hop) as (x & m & ? & ? & ?). exists x, m. set_solver.
          + apply list_elem_of_singleton in Hop as ->. exists id, n. set_solver. }
      rewrite push_children_eq in H1. exists R'. set_solver.
    + destruct (IH _ _ _ Hm) as (R' & H1 & H2 & H3); [done| |].
      { split.
        - intros x m Hx Hp. apply Hw1; [|done]. assert (x <> id) by congruence. set_solver.
        - intros op Hop. destruct (Hw2 _ Hop) as (x & m & ? & ? & ?). exists x, m. set_solver. }
      exists R'. set_solver.
Qed.

(** Batches of node rows. *)
Lemma apply_written m p R wb k :
  written p R wb ->
  apply_ops m wb !! k = m !! k \/
  exists id n, k = node_key id /\ p !! id = Some n /\ id ∈ R
    /\ apply_ops m wb !! k = Some (encode_node_page n).
Proof.
  intros [_ Hw]. revert m. induction wb as [|op wb IH] using rev_ind; intros m; [by left|].
  rewrite apply_ops_app. destruct (Hw op) as (id & n & Hp & -> & HR); [set_solver|]. cbn.
  destruct (decide (k = node_key id)) as [->|Hne].
  - right. exists id, n. split_all; try done. apply lookup_insert_eq.
  - rewrite lookup_insert_ne by done. apply IH. intros op Hop. apply Hw. set_solver.
Qed.

Lemma apply_written_in m p R wb id n :
  written p R wb -> id ∈ R -> p !! id = Some n ->
  apply_ops m wb !! node_key id = Some (encode_node_page n).
Proof.
  intros [Hw1 Hw] HR Hp. pose proof (Hw1 _ _ HR Hp) as Hin. clear Hw1 HR.
  revert m. induction wb as [|op wb IH] using rev_ind; intros m.
  { by apply elem_of_nil in Hin. }
  rewrite apply_ops_app. destruct (Hw op) as (id' & n' & Hp' & -> & HR); [set_solver|].
  cbn [apply_ops foldl apply_op].
  destruct (decide (node_key id = node_key id')) as [E|Hne].
  - rewrite E, lookup_insert_eq. apply node_key_inj in E as ->. congruence.
  - rewrite lookup_insert_ne by done. apply IH.
    + intros op Hop. apply Hw. set_solver.
    + apply elem_of_app in Hin as [?|Hin]; [done|]. apply list_elem_of_singleton in Hin.
      exfalso. exact (Hne (f_equal op_key Hin)).
Qed.

(** A closed set of cached nodes written out. *)
Lemma db_write_pending db p R wb :
  db_ok db -> pending_ok db p -> walk_closed p R [] -> written p R wb ->
  let db' := db_write db wb in
  db_ok db' /\ db_le db db' /\ same_meta db db'
  /\ (forall id n, id ∈ R -> p !! id = Some n -> db_node db' id = Some n).
Proof.
  intros Hdb Hp Hc Hw db'.
  assert (Hnew : forall id n, id ∈ R -> p !! id = Some n -> db_node db' id = Some n).
  { intros id n HR Hn. unfold db_node, db'. rewrite db_write_spec.
    rewrite (apply_written_in _ p R wb id n) by done. cbn.
    destruct (Hp _ _ Hn) as (_ & HUn & _). by apply (decode_encode U). }
  assert (Hle : db_le db db').
  { intros id m Hm. destruct (apply_written (db_view db) p R wb (node_key id) Hw)
      as [E|(id' & n & E & Hn & HR & _)].
    - unfold db_node, db'. by rewrite db_write_spec, E.
    - apply node_key_inj in E as <-. rewrite (Hnew id n HR Hn). f_equal.
      destruct (Hp _ _ Hn) as (Hh & HUn & _). destruct (db_node_ok U _ _ _ Hdb Hm) as (Hh' & HUm & _).
      apply hash_collision_free; congruence. }
  split_all; [|done| |done].
  - intros id b Hb. unfold db' in Hb. rewrite db_write_spec in Hb.
    destruct (apply_written (db_view db) p R wb (node_key id) Hw)
      as [E|(id' & n & E & Hn & HR & Hv)].
    + rewrite E in Hb. destruct (Hdb _ _ Hb) as (m & ? & ? & ? & Hcm). exists m.
      split_all; try done. intros c Hin. destruct (Hcm c Hin) as [x Hx]. apply Hle in Hx. eauto.
    + apply node_key_inj in E as <-. rewrite Hv in Hb. injection Hb as <-.
      destruct (Hp _ _ Hn) as (Hh & HUn & Hch). exists n.
      split_all; [by apply (decode_encode U)|done|done|]. intros c Hin.
      destruct (Hc id n c HR Hn Hin) as [HcR|Habs]; [|by apply elem_of_nil in Habs].
      destruct (Hch c Hin) as [[m Hm]|[m Hm]]; [|apply Hle in Hm; eauto].
      rewrite (Hnew c m HcR Hm). eauto.
  - intros k Hk. unfold db'. rewrite db_write_spec.
    destruct (apply_written (db_view db) p R wb k Hw) as [E|(id & n & E & _)]; [done|].
    subst k. by destruct (node_key_not_meta id _ Hk).
Qed.

(** A root present in a sound store brings its whole tree. *)
Lemma closed_repr env h (t : tree h) :
  env_ok env -> all_nodes U h t -> is_Some (env_node env (tid t)) -> repr env h t.
Proof.
  intros Hok. induction h as [|h IH]; intros Ha [n Hn];
    destruct (env_node_ok U _ _ _ Hok Hn) as (Hh & HUn & Hc);
    assert (n = node_of _ t) as -> by
      (apply hash_collision_free; [done|by apply all_nodes_root|done]); [done|].
  split; [done|]. destruct Ha as [_ Ha]. rewrite Forall_forall in Ha |- *. intros c Hin.
  apply IH; [by apply Ha|]. apply Hc. cbn. apply list_elem_of_fmap. eauto.
Qed.

Lemma stored_move env env' root T :
  env_ok env -> env_ok env' -> stored env root T ->
  is_Some (env_node env' root) -> stored env' root T.
Proof.
  intros Hok Hok' (-> & Hr & Hw) Hs. split; [done|]. split; [|done].
  apply closed_repr; [done|by apply (repr_all U env)|done].
Qed.

(** ** Collecting and flushing *)

(** What a step of the batch keeps: a sound environment that still has the root. *)
Record batch_step (db : DB) (root : bytes) (db' : DB) (ctx' : BatchWriteContext) : Prop := {
  bs_ok : env_ok (mkEnv db' (Some ctx'));
  bs_root : is_Some (env_node (mkEnv db' (Some ctx')) root);
  bs_le : db_le db db';
  bs_meta : same_meta db db';
}.

Lemma batch_step_refl db root ctx :
  env_ok (mkEnv db (Some ctx)) -> is_Some (env_node (mkEnv db (Some ctx)) root) ->
  batch_step db root db ctx.
Proof. intros. by split. Qed.

Lemma batch_step_ops db root db' p n m :
  batch_step db root db' (mkBatch p n) -> batch_step db root db' (mkBatch p m).
Proof. intros H. destruct H. by split. Qed.

Lemma mark_root p root :
  exists R, mark_reachable (walk_fuel p) p [root] ∅ = Some R /\ root ∈ R /\ walk_closed p R [].
Proof.
  destruct (mark_reachable_total (walk_fuel p) p [root] ∅ (walk_fuel_enough p)) as [R HR].
  destruct (mark_reachable_closed _ _ _ _ _ HR) as (H1 & _ & H3); [by intros ???|].
  exists R. split_all; [done|apply H1; set_solver|done].
Qed.

Lemma retain_spec db root ctx :
  env_ok (mkEnv db (Some ctx)) -> is_Some (env_node (mkEnv db (Some ctx)) root) ->
  exists ctx', retain_reachable_pending_nodes root ctx = Some ctx'
    /\ batch_step db root db ctx' /\ pending_nodes ctx' ⊆ pending_nodes ctx.
Proof.
  intros Hok Hroot. unfold retain_reachable_pending_nodes.
  assert (Hsame : batch_step db root db ctx) by by apply batch_step_refl.
  case_bool_decide; [by exists ctx|].
  destruct (mark_root (pending_nodes ctx) root) as (R & -> & HR & Hc).
  destruct (size R =? _); [by exists ctx|]. eexists. split; [done|].
  destruct Hok as [Hdb Hp]. cbn in Hdb, Hp.
  set (p' := filter _ _). assert (Hp' : forall id n, p' !! id = Some n <->
    pending_nodes ctx !! id = Some n /\ id ∈ R) by (intros; apply map_lookup_filter_Some).
  split; [|apply map_filter_subseteq]. split; [split; [done|]| |done|done].
  - intros id n [Hn HidR]%Hp'. destruct (Hp _ _ Hn) as (Hh & HUn & Hch).
    split_all; [done|done|]. intros c Hin. destruct (Hch c Hin) as [[m Hm]|?]; [left|by right].
    destruct (Hc id n c HidR Hn Hin) as [HcR|Habs]; [|by apply elem_of_nil in Habs].
    exists m. by apply Hp'.
  - unfold env_node in *. cbn in *. destruct (p' !! root) eqn:E; [eauto|].
    destruct (pending_nodes ctx !! root) as [m|] eqn:Er; [|done].
    exfalso. assert (p' !! root = Some m) by by apply Hp'. congruence.
Qed.

Lemma flush_spec db root ctx :
  env_ok (mkEnv db (Some ctx)) -> is_Some (env_node (mkEnv db (Some ctx)) root) ->
  exists db', flush_pending_batch_nodes db root ctx = Some db'
    /\ db_ok db' /\ is_Some (db_node db' root) /\ db_le db db' /\ same_meta db db'.
Proof.
  intros [Hdb Hp] Hroot. unfold flush_pending_batch_nodes. unfold env_node in Hroot. cbn in Hdb, Hp, Hroot.
  case_bool_decide as E; [rewrite E, lookup_empty in Hroot; by exists db|].
  destruct (flush_walk (walk_fuel (pending_nodes ctx)) (pending_nodes ctx) [root] ∅ []) as [wb|] eqn:Ew.
  2: { apply flush_walk_mark in Ew. destruct (mark_root (pending_nodes ctx) root) as (R & HR & _).
       by rewrite Ew in HR. }
  destruct (flush_walk_spec _ _ _ _ _ _ Ew) as (R & H1 & _ & Hc & Hw).
  { by intros ???. }
  { split; [intros ???|intros ??]; set_solver. }
  destruct (decide (wb = [])) as [->|Hne].
  { exists db. split_all; [done|done| |done|done].
    destruct (pending_nodes ctx !! root) as [n|] eqn:Er; [|done]. destruct Hw as [Hw _].
    specialize (Hw root n (H1 root ltac:(set_solver)) Er). by apply elem_of_nil in Hw. }
  exists (db_write db wb). split; [by destruct wb|].
  destruct (db_write_pending db _ R wb Hdb Hp Hc Hw) as (? & Hle & ? & Hnew).
  split_all; try done. destruct (pending_nodes ctx !! root) as [n|] eqn:Er.
  - exists n. apply Hnew; [apply H1; set_solver|done].
  - destruct Hroot as [n Hn]. exists n. by apply Hle.
Qed.

Lemma batch_step_flush db root ctx :
  env_ok (mkEnv db (Some ctx)) -> is_Some (env_node (mkEnv db (Some ctx)) root) ->
  exists db', flush_pending_batch_nodes db root ctx = Some db'
    /\ batch_step db root db' (mkBatch ∅ 0).
Proof.
  intros Hok Hroot. destruct (flush_spec db root ctx Hok Hroot) as (db' & He & ? & ? & ? & ?).
  exists db'. split; [done|]. by split; [split| |done|done].
Qed.

Lemma maybe_compact_spec db root ctx :
  env_ok (mkEnv db (Some ctx)) -> is_Some (env_node (mkEnv db (Some ctx)) root) ->
  exists db' ctx', maybe_compact_batch_nodes db root ctx = Some (db', ctx')
    /\ batch_step db root db' ctx'.
Proof.
  intros Hok Hroot. unfold maybe_compact_batch_nodes.
  pose proof (batch_step_refl db root ctx Hok Hroot) as H0.
  case_bool_decide; [by exists db, ctx|].
  set (ops := Z.min _ _). set (gc := orb _ _).
  assert (H1 : exists ctx', (if gc
             then ctx' ← retain_reachable_pending_nodes root (mkBatch (pending_nodes ctx) ops);
                  Some (mkBatch (pending_nodes ctx') 0)
             else Some (mkBatch (pending_nodes ctx) ops)) = Some ctx'
           /\ batch_step db root db ctx').
  { assert (H1 : batch_step db root db (mkBatch (pending_nodes ctx) ops)).
    { destruct ctx. by eapply batch_step_ops. }
    destruct gc; [|by eauto].
    destruct (retain_spec db root _ (bs_ok _ _ _ _ H1) (bs_root _ _ _ _ H1)) as (c & -> & Hs & _).
    eexists; split; [done|]. destruct c. by eapply batch_step_ops. }
  destruct H1 as (c1 & -> & Hs1). cbn [mbind option_bind].
  clear gc ops; destruct (BATCH_PENDING_HARD_LIMIT <=? _)%Z; [|exists db, c1; by split].
  destruct (retain_spec db root c1 (bs_ok _ _ _ _ Hs1) (bs_root _ _ _ _ Hs1)) as (c2 & -> & Hs2 & _).
  cbn [mbind option_bind].
  destruct (batch_step_flush db root c2 (bs_ok _ _ _ _ Hs2) (bs_root _ _ _ _ Hs2))
    as (db' & -> & Hs3). by exists db', (mkBatch ∅ 0).
Qed.

(** ** The batch on the value *)

Definition apply_trees (T : Tree) (cs : list Change) : Tree :=
  foldl (fun T c => apply_tree T c.1 c.2) T cs.

(** The nodes built along the way. *)
Fixpoint batch_built (T : Tree) (cs : list Change) : list BptreeNode :=
  match cs with
  | [] => []
  | c :: cs' => apply_built T c.1 c.2 ++ batch_built (apply_tree T c.1 c.2) cs'
  end.

Lemma stored_root env root T : stored env root T -> is_Some (env_node env root).
Proof. intros (-> & Hr & _). apply repr_root in Hr. eauto. Qed.

Lemma batch_loop_spec fuel db ctx root T cs :
  env_ok (mkEnv db (Some ctx)) -> stored (mkEnv db (Some ctx)) root T ->
  ht T + length cs < fuel -> Forall U (batch_built T cs) ->
  exists db' ctx', batch_loop fuel db ctx root cs = Some (db', ctx', root_id (apply_trees T cs))
    /\ batch_step db (root_id (apply_trees T cs)) db' ctx'
    /\ stored (mkEnv db' (Some ctx')) (root_id (apply_trees T cs)) (apply_trees T cs)
    /\ contents (apply_trees T cs) = apply_changes (contents T) cs.
Proof.
  revert db ctx root T. induction cs as [|[k v] cs IH]; intros db ctx root T Hok Hst Hf Hb;
    cbn [batch_loop].
  { pose proof (proj1 Hst) as ->. exists db, ctx. split_all; [done| |done|done].
    apply batch_step_refl; [done|]. by eapply stored_root. }
  cbn [batch_built length] in Hf, Hb. apply Forall_app in Hb as [Hb Hb'].
  destruct (apply_single_refines U _ root T k v fuel Hok Hst ltac:(lia) Hb)
    as (env1 & -> & Hs & Hst1 & Hc1 & Hh1).
  destruct (es_ctx _ _ _ Hs) as [Hdb [ctx1 Hctx]]. destruct env1 as [db1 o1]. cbn in Hdb, Hctx.
  subst db1 o1.
  destruct (maybe_compact_spec db (root_id (apply_tree T k v)) ctx1 (es_ok _ _ _ Hs)
              (stored_root _ _ _ Hst1)) as (db2 & ctx2 & -> & [Hok2 Hr2 Hle2 Hm2]).
  assert (Hst2 : stored (mkEnv db2 (Some ctx2)) (root_id (apply_tree T k v)) (apply_tree T k v)).
  { eapply stored_move; [apply (es_ok _ _ _ Hs)|done|done|done]. }
  destruct (IH db2 ctx2 _ _ Hok2 Hst2 ltac:(lia) Hb')
    as (db3 & ctx3 & -> & [Hok3 Hr3 Hle3 Hm3] & Hst3 & Hc3).
  exists db3, ctx3. split_all; [done| |done|].
  - split; [done|done|by transitivity db2|by transitivity db2].
  - change (contents (apply_trees (apply_tree T k v) cs)
            = apply_changes (kv_update k v (contents T)) cs).
    by rewrite Hc3, Hc1.
Qed.

Lemma db_env_ok db : db_ok db -> env_ok (denv db).
Proof. by split. Qed.

Lemma stored_denv db p root T :
  p = ∅ -> stored (denv db) root T -> stored (mkEnv db (Some (mkBatch p 0))) root T.
Proof.
  intros ->. apply stored_mono. intros id n. unfold env_node. cbn. by rewrite lookup_empty.
Qed.

Lemma batch_apply_spec fuel db root T cs :
  db_ok db -> stored (denv db) root T -> ht T + length cs < fuel ->
  Forall U (batch_built T cs) ->
  exists db', batch_apply fuel db root cs = Some (db', root_id (apply_trees T cs))
    /\ db_ok db' /\ db_le db db' /\ same_meta db db'
    /\ stored (denv db') (root_id (apply_trees T cs)) (apply_trees T cs)
    /\ contents (apply_trees T cs) = apply_changes (contents T) cs.
Proof.
  intros Hdb Hst Hf Hb. unfold batch_apply.
  destruct (batch_loop_spec fuel db BatchWriteContext_default root T cs)
    as (db1 & ctx1 & -> & [Hok1 Hr1 Hle1 Hm1] & Hst1 & Hc1); [by split|by apply stored_denv|done|done|].
  destruct (flush_spec db1 _ ctx1 Hok1 Hr1) as (db2 & -> & Hdb2 & Hr2 & Hle2 & Hm2).
  exists db2. split_all; [done|done|by transitivity db1|by transitivity db1| |done].
  by eapply stored_move; [exact Hok1|apply db_env_ok| |].
Qed.

(** ** Rows outside the node family *)

Lemma db_meta_write db wb :
  Forall (fun op => not_node_key (op_key op)) wb ->
  forall id, db_view (db_write db wb) !! node_key id = db_view db !! node_key id.
Proof.
  intros H id. rewrite db_write_spec. apply apply_ops_other. eapply Forall_impl; [exact H|].
  intros op Hop E. by apply (node_key_not_meta id) in Hop.
Qed.

Lemma db_meta_write_ok db wb :
  Forall (fun op => not_node_key (op_key op)) wb ->
  (db_ok db -> db_ok (db_write db wb)) /\ db_le db (db_write db wb)
  /\ (forall root T, stored (denv db) root T -> stored (denv (db_write db wb)) root T).
Proof.
  intros H. pose proof (db_meta_write db wb H) as Hv.
  assert (Hn : forall id, db_node (db_write db wb) id = db_node db id).
  { intros id. unfold db_node. by rewrite Hv. }
  split_all.
  - intros Hok id b. rewrite Hv. intros Hb. destruct (Hok _ _ Hb) as (n & ? & ? & ? & Hc).
    exists n. split_all; try done. intros c Hin. rewrite Hn. auto.
  - intros id n. by rewrite Hn.
  - intros root T. apply stored_mono. intros id n. unfold env_node. cbn. by rewrite Hn.
Qed.

End Batch.
