(* ===== verification/TreeScan.v ===== *)
(** * Scans

    Range scans, pages in both directions and prefix collections walk the leaves
    with an explicit stack of (node, child index) pairs, the [Path].  [zip] says
    which leaves lie to the left and to the right of the leaf a path leads to;
    the moves along the path are shown to visit the neighbours, and the scans
    are shown to return exactly the entries of the version in the requested
    range, in order. *)
From S2P Require Import Prelude Bytes Rocks TreeNode TreeDb BTree TreeRefine.

Open Scope nat_scope.

(** ** Leaves of a tree *)

Fixpoint leaves (h : nat) : tree h -> list LeafNode :=
  match h return tree h -> list LeafNode with
  | O => fun t => [t]
  | S h' => fun t => concat (map (leaves h') t.2)
  end.

(** No internal node is childless. *)
Fixpoint nonempty (h : nat) : tree h -> Prop :=
  match h return tree h -> Prop with
  | O => fun _ => True
  | S h' => fun t => t.2 <> [] /\ Forall (nonempty h') t.2
  end.

Definition leaf_list_entries (ls : list LeafNode) : list LeafEntry := concat (map entries ls).

Lemma leaf_list_entries_app a b :
  leaf_list_entries (a ++ b) = leaf_list_entries a ++ leaf_list_entries b.
Proof. unfold leaf_list_entries. by rewrite map_app, concat_app. Qed.

Lemma flatten_leaves h (t : tree h) : flatten h t = leaf_list_entries (leaves h t).
Proof.
  induction h as [|h IH]; [cbn; by rewrite app_nil_r|]. destruct t as [ks cs]. cbn [flatten leaves snd].
  induction cs as [|c cs IHc]; [done|]. cbn [map concat].
  by rewrite leaf_list_entries_app, IH, IHc.
Qed.

Lemma leaves_count h (t : tree h) : length (leaves h t) = leaf_count h t.
Proof.
  induction h as [|h IH]; [done|]. destruct t as [ks cs]. cbn [leaves leaf_count snd].
  induction cs as [|c cs IHc]; [done|]. cbn [map concat sum_list_with].
  by rewrite length_app, IH, IHc.
Qed.

Lemma seg_forall {A} (P : option bytes -> option bytes -> A -> Prop) (Q : A -> Prop) lo hi ks cs :
  (forall lo hi c, P lo hi c -> Q c) -> seg P lo hi ks cs -> Forall Q cs.
Proof.
  intros HPQ. revert lo cs; induction ks as [|k ks IH]; intros lo [|c cs]; cbn; try done.
  - destruct cs; [|done]. intros [_ ?]. constructor; [by eapply HPQ|constructor].
  - intros (_ & ? & ?). constructor; [by eapply HPQ|by eapply IH].
Qed.

Lemma wf_nonempty h lo hi (t : tree h) : wf h lo hi t -> nonempty h t.
Proof.
  revert lo hi t; induction h as [|h IH]; intros lo hi t; [done|]. intros [_ Hseg]. split.
  - apply seg_length in Hseg. by destruct t.2.
  - by eapply seg_forall.
Qed.

Section Scan.
Context {DB : Type} {rocks : RocksDB DB} {laws : RocksLaws DB}.
Context {codec : NodeCodec}.

Lemma load_node_repr db h (t : tree h) : repr (denv db) h t -> load_node db (tid t) = node_of h t.
Proof.
  intros Hr. apply repr_root in Hr. unfold env_node in Hr. cbn in Hr.
  by rewrite load_node_eq, Hr.
Qed.

Lemma load_internal_repr db h ks (cs : list (tree h)) :
  repr (denv db) (S h) (ks, cs) ->
  load_internal db (tid (h := S h) (ks, cs)) = mkInternalNode ks (map tid cs).
Proof. intros Hr. unfold load_internal. by rewrite (load_node_repr _ _ _ Hr). Qed.

(** ** Zippers *)

(** A stored subtree all of whose internal nodes have children. *)
Definition sub (db : DB) (h : nat) (t : tree h) : Prop := repr (denv db) h t /\ nonempty h t.

Lemma sub_child db h ks (cs : list (tree h)) i c :
  sub db (S h) (ks, cs) -> cs !! i = Some c -> sub db h c.
Proof.
  intros [[_ Hr] [_ Hn]] Hc. rewrite Forall_forall in Hr, Hn.
  apply list_elem_of_lookup_2 in Hc. split; auto.
Qed.

(** [zip db h path L R]: the path leads to a node of height [h]; [L] and [R] are the leaves
    before and after that node. *)
Fixpoint zip (db : DB) (h : nat) (path : Path) (L R : list LeafNode) : Prop :=
  match path with
  | [] => L = [] /\ R = []
  | (id, idx) :: path' =>
      exists ks (cs : list (tree h)) L' R',
        id = tid (h := S h) (ks, cs) /\ sub db (S h) (ks, cs) /\ idx < length cs
        /\ L = L' ++ concat (map (leaves h) (take idx cs))
        /\ R = concat (map (leaves h) (drop (S idx) cs)) ++ R'
        /\ zip db (S h) path' L' R'
  end.

Lemma zip_down db h ks (cs : list (tree h)) path L R idx :
  sub db (S h) (ks, cs) -> idx < length cs -> zip db (S h) path L R ->
  zip db h ((tid (h := S h) (ks, cs), idx) :: path)
    (L ++ concat (map (leaves h) (take idx cs)))
    (concat (map (leaves h) (drop (S idx) cs)) ++ R).
Proof. intros. cbn [zip]. exists ks, cs, L, R. by split_all. Qed.

Lemma leaves_split h (cs : list (tree h)) idx c :
  cs !! idx = Some c ->
  concat (map (leaves h) cs) =
    concat (map (leaves h) (take idx cs)) ++ leaves h c ++ concat (map (leaves h) (drop (S idx) cs)).
Proof.
  intros Hc. rewrite (take_drop_split _ _ _ Hc) at 1. by rewrite map_app, concat_app.
Qed.

Lemma map_tid_lookup h (cs : list (tree h)) i : map tid cs !! i = tid <$> cs !! i.
Proof. apply list_lookup_fmap. Qed.

Lemma leftmost_spec db fuel h (t : tree h) path L R :
  sub db h t -> zip db h path L R -> h < fuel ->
  exists l rest path', leaves h t = l :: rest
    /\ leftmost_descent fuel db (tid t) path = Some (Some (tid (h := 0) l), path')
    /\ sub db 0 l /\ zip db 0 path' L (rest ++ R) /\ length path' = h + length path.
Proof.
  revert fuel t path L R; induction h as [|h IH]; intros fuel t path L R Hs Hz Hf;
    (destruct fuel as [|fuel]; [lia|]); cbn [leftmost_descent];
    rewrite (load_node_repr _ _ _ (proj1 Hs)).
  { exists t, [], path. by split_all. }
  destruct t as [ks cs]. cbn [node_of fst snd children].
  destruct cs as [|c cs]; [by destruct Hs as [_ [? _]]|]. cbn [map].
  pose proof (zip_down db h ks (c :: cs) path L R 0 Hs ltac:(cbn; lia) Hz) as Hz'.
  destruct (IH fuel c _ _ _ (sub_child db h ks (c :: cs) 0 c Hs eq_refl) Hz' ltac:(lia))
    as (l & rest & path' & Hl & He & Hsl & Hzl & Hlen).
  exists l, (rest ++ concat (map (leaves h) cs)), path'.
  split_all; [cbn; by rewrite Hl|exact He|done| |cbn in Hlen; lia].
  cbn [take drop map concat] in Hzl. rewrite app_nil_r in Hzl. by rewrite <- app_assoc.
Qed.

Lemma rightmost_spec db fuel h (t : tree h) path L R :
  sub db h t -> zip db h path L R -> h < fuel ->
  exists l rest path', leaves h t = rest ++ [l]
    /\ rightmost_descent fuel db (tid t) path = Some (Some (tid (h := 0) l), path')
    /\ rightmost_leaf_loop fuel db (tid t) path = Some (Some (tid (h := 0) l, path'))
    /\ sub db 0 l /\ zip db 0 path' (L ++ rest) R /\ length path' = h + length path.
Proof.
  revert fuel t path L R; induction h as [|h IH]; intros fuel t path L R Hs Hz Hf;
    (destruct fuel as [|fuel]; [lia|]); cbn [rightmost_descent rightmost_leaf_loop];
    rewrite (load_node_repr _ _ _ (proj1 Hs)).
  { exists t, [], path. split_all; try done. by rewrite app_nil_r. }
  destruct t as [ks cs]. cbn [node_of fst snd children].
  change (map (fun c => hash_node (node_of h c)) cs) with (map tid cs). rewrite length_map.
  destruct (length cs) as [|n] eqn:En; [by apply nil_length_inv in En; destruct Hs as [_ [? _]]|].
  destruct (lookup_lt_is_Some_2 cs n ltac:(lia)) as [c Hc].
  rewrite map_tid_lookup, Hc. cbn [fmap option_fmap option_map default].
  pose proof (zip_down db h ks cs path L R n Hs ltac:(lia) Hz) as Hz'.
  destruct (IH fuel c _ _ _ (sub_child db h ks cs n c Hs Hc) Hz' ltac:(lia))
    as (l & rest & path' & Hl & He1 & He2 & Hsl & Hzl & Hlen).
  rewrite (drop_ge cs (S n)) in Hzl by lia. cbn [map concat app] in Hzl.
  exists l, (concat (map (leaves h) (take n cs)) ++ rest), path'.
  split_all; [|exact He1|exact He2|done|by rewrite app_assoc|cbn in Hlen; lia].
  cbn [leaves snd]. rewrite (leaves_split h cs n c Hc), Hl, (drop_ge cs (S n)) by lia.
  cbn [map concat]. by rewrite app_nil_r, app_assoc.
Qed.

(** ** Moves *)

Lemma next_leaf_spec db fuel h path L R :
  zip db h path L R -> h + length path < fuel ->
  match R with
  | [] => exists p, next_leaf_from_path fuel db path = Some (None, p)
  | l :: R' => exists path' L', next_leaf_from_path fuel db path = Some (Some (tid (h := 0) l), path')
      /\ sub db 0 l /\ zip db 0 path' L' R' /\ length path' = h + length path
  end.
Proof.
  revert h L R; induction path as [|[nid idx] path IH]; intros h L R Hz Hf.
  { destruct Hz as [_ ->]. by exists []. }
  destruct Hz as (ks & cs & L' & R' & -> & Hs & Hi & _ & -> & Hz). cbn [length] in Hf.
  cbn [next_leaf_from_path]. rewrite (load_internal_repr _ _ _ _ (proj1 Hs)). cbn [children].
  rewrite map_tid_lookup, Nat.add_1_r. destruct (cs !! S idx) as [c|] eqn:Ec;
    cbn [fmap option_fmap option_map].
  - destruct (leftmost_spec db fuel h c _ _ _ (sub_child _ _ _ _ _ _ Hs Ec)
                (zip_down db h ks cs path L' R' (S idx) Hs (lookup_lt_Some _ _ _ Ec) Hz) ltac:(lia))
      as (l & rest & path' & Hl & He & Hsl & Hzl & Hlen).
    rewrite (drop_S _ _ _ Ec). cbn [map concat]. rewrite Hl. cbn [app].
    exists path', (L' ++ concat (map (leaves h) (take (S idx) cs))).
    split_all; [exact He|done| |cbn in Hlen |- *; lia]. by rewrite <- app_assoc.
  - apply lookup_ge_None in Ec. rewrite drop_ge by lia. cbn [map concat app].
    specialize (IH (S h) L' R' Hz ltac:(lia)). destruct R' as [|l R']; [done|].
    destruct IH as (path' & L'' & ? & ? & ? & ?). exists path', L''.
    split_all; try done. cbn [length] in *. lia.
Qed.

Lemma prev_leaf_spec db fuel h path L R :
  zip db h path L R -> h + length path < fuel ->
  match reverse L with
  | [] => exists p, prev_leaf_from_path fuel db path = Some (None, p)
  | l :: L' => exists path' R', prev_leaf_from_path fuel db path = Some (Some (tid (h := 0) l), path')
      /\ sub db 0 l /\ zip db 0 path' (reverse L') R' /\ length path' = h + length path
  end.
Proof.
  revert h L R; induction path as [|[nid idx] path IH]; intros h L R Hz Hf.
  { destruct Hz as [-> _]. by exists []. }
  destruct Hz as (ks & cs & L' & R' & -> & Hs & Hi & -> & _ & Hz). cbn [length] in Hf.
  cbn [prev_leaf_from_path]. destruct idx as [|idx].
  - cbn [take map concat]. rewrite app_nil_r. specialize (IH (S h) L' R' Hz ltac:(lia)).
    destruct (reverse L'); [done|]. destruct IH as (path' & R'' & ? & ? & ? & ?).
    exists path', R''. split_all; try done. cbn [length] in *. lia.
  - rewrite (load_internal_repr _ _ _ _ (proj1 Hs)). cbn [children].
    destruct (lookup_lt_is_Some_2 cs idx ltac:(lia)) as [c Ec].
    rewrite map_tid_lookup, Ec. cbn [fmap option_fmap option_map].
    destruct (rightmost_spec db fuel h c _ _ _ (sub_child _ _ _ _ _ _ Hs Ec)
                (zip_down db h ks cs path L' R' idx Hs ltac:(lia) Hz) ltac:(lia))
      as (l & rest & path' & Hl & He & _ & Hsl & Hzl & Hlen).
    rewrite (take_S_r _ _ _ Ec), map_app, concat_app. cbn [map concat].
    rewrite app_nil_r, Hl, !app_assoc, reverse_snoc.
    eexists path', _. split_all; [exact He|done| |cbn in Hlen |- *; lia].
    rewrite reverse_involutive. exact Hzl.
Qed.

(** The leaf a key belongs to, and what lies around it. *)
Lemma find_leaf_spec db fuel h lo hi (t : tree h) key path L R :
  sub db h t -> wf h lo hi t -> in_range lo hi key -> zip db h path L R -> h < fuel ->
  exists l A B path', leaves h t = A ++ l :: B
    /\ find_leaf_loop fuel db (tid t) key path = Some (Some (tid (h := 0) l, path'))
    /\ sub db 0 l /\ zip db 0 path' (L ++ A) (B ++ R) /\ length path' = h + length path
    /\ Forall (fun e => le_key e <b key) (leaf_list_entries A)
    /\ Forall (fun e => key <b le_key e) (leaf_list_entries B).
Proof.
  revert fuel lo hi t path L R; induction h as [|h IH];
    intros fuel lo hi t path L R Hs Hw Hk Hz Hf;
    (destruct fuel as [|fuel]; [lia|]); cbn [find_leaf_loop];
    rewrite (load_node_repr _ _ _ (proj1 Hs)).
  { exists t, [], [], path. split_all; try done; try constructor. by rewrite app_nil_r. }
  destruct t as [ks cs]. destruct Hw as [_ Hseg]. cbn [fst snd] in Hseg.
  destruct (seg_keys _ _ _ _ _ Hseg) as (Hsorted & _ & _).
  destruct (seg_find _ _ _ _ _ _ Hseg Hk)
    as (ks1 & ks2 & cs1 & c & cs2 & lo' & Hks & Hcs & Hl1 & Hl2 & Hls & Ho & Hc & Hrs & Hkc).
  cbn [node_of fst snd children keys].
  change (map (fun c => hash_node (node_of h c)) cs) with (map tid cs).
  assert (Hix : cs !! upper_bound ks key = Some c).
  { rewrite Hcs, <- Hl2. by rewrite list_lookup_middle. }
  rewrite (child_index_spec _ _ Hsorted), map_tid_lookup, Hix.
  cbn [fmap option_fmap option_map].
  rewrite match_nonempty by (rewrite Hcs, map_app; by destruct (map tid cs1)).
  pose proof (zip_down db h ks cs path L R _ Hs (lookup_lt_Some _ _ _ Hix) Hz) as Hz'.
  destruct (IH fuel _ _ c _ _ _ (sub_child _ _ _ _ _ _ Hs Hix) Hc Hkc Hz' ltac:(lia))
    as (l & A & B & path' & Hl & He & Hsl & Hzl & Hlen & HA & HB).
  assert (Ht : take (upper_bound ks key) cs = cs1) by (by rewrite <- Hl2, Hcs, take_app_length).
  assert (Hd : drop (S (upper_bound ks key)) cs = cs2).
  { rewrite <- Hl2, Hcs, (cons_middle c), app_assoc. apply drop_app_length'.
    rewrite length_app. cbn. lia. }
  rewrite Ht, Hd in Hzl.
  exists l, (concat (map (leaves h) cs1) ++ A), (B ++ concat (map (leaves h) cs2)), path'.
  assert (Hfl : forall xs : list (tree h),
    leaf_list_entries (concat (map (leaves h) xs)) = concat (map (flatten h) xs)).
  { intros xs. symmetry. apply (flatten_leaves (S h) ([], xs)). }
  split_all; [|exact He|done|by rewrite app_assoc, <- (app_assoc B)|cbn in Hlen; lia| |].
  - cbn [leaves snd]. rewrite (leaves_split h cs _ c Hix), Hl, Ht, Hd.
    by rewrite <- !app_assoc.
  - rewrite leaf_list_entries_app, Hfl. apply Forall_app. split; [|done]. by eapply lseg_below.
  - rewrite leaf_list_entries_app, Hfl. apply Forall_app. split; [done|]. by eapply rseg_above.
Qed.

(** ** The loops over leaves *)

Lemma range_scan_app es1 es2 hi out :
  range_scan_leaf (es1 ++ es2) hi out =
    match range_scan_leaf es1 hi out with
    | (out', true) => (out', true)
    | (out', false) => range_scan_leaf es2 hi out'
    end.
Proof.
  revert out; induction es1 as [|e es1 IH]; intros out; [done|]. cbn [app range_scan_leaf].
  destruct (past_end hi (le_key e)); [done|]. destruct (le_value e); apply IH.
Qed.

Lemma page_scan_app es1 es2 stop limit off out :
  page_scan_leaf (es1 ++ es2) stop limit off out =
    match page_scan_leaf es1 stop limit off out with
    | (out', off', true) => (out', off', true)
    | (out', off', false) => page_scan_leaf es2 stop limit off' out'
    end.
Proof.
  revert off out; induction es1 as [|e es1 IH]; intros off out; [done|].
  cbn [app page_scan_leaf]. destruct (stop (le_key e)); [done|].
  destruct (le_value e); [|apply IH]. destruct off; [|apply IH].
  destruct (limit <=? _); [done|apply IH].
Qed.

Lemma load_leaf_repr db l : sub db 0 l -> load_leaf db (tid (h := 0) l) = l.
Proof. intros [Hr _]. unfold load_leaf. by rewrite (load_node_repr db 0 l Hr). Qed.

(** The scan of a sequence of leaves is the scan of their concatenated entries. *)
Lemma range_loop_spec db fuel dfuel l path L R first start hi out :
  sub db 0 l -> zip db 0 path L R -> length R < fuel -> length path < dfuel ->
  range_loop fuel dfuel db (tid (h := 0) l) path first start hi out =
    Some (range_scan_leaf (drop (first_index first start (entries l)) (entries l)
                           ++ leaf_list_entries R) hi out).1.
Proof.
  revert l path L R first out; induction fuel as [|fuel IH];
    intros l path L R first out Hl Hz Hf Hd; [lia|]. cbn [range_loop].
  rewrite (load_leaf_repr _ _ Hl), range_scan_app.
  destruct (range_scan_leaf _ hi out) as [out' [|]]; [done|].
  pose proof (next_leaf_spec db dfuel 0 path L R Hz Hd) as Hn. destruct R as [|r R].
  - by destruct Hn as [p ->].
  - destruct Hn as (path' & L' & -> & Hr & Hz' & Hlen). cbn [length] in Hf.
    rewrite (IH r path' L' R false out' Hr Hz' ltac:(lia) ltac:(lia)).
    by rewrite drop_0.
Qed.

Lemma page_forward_spec db fuel dfuel l path L R first start hi limit off out :
  sub db 0 l -> zip db 0 path L R -> length R < fuel -> length path < dfuel ->
  page_forward_loop fuel dfuel db (tid (h := 0) l) path first start hi limit off out =
    Some (page_scan_leaf (drop (first_index first start (entries l)) (entries l)
                          ++ leaf_list_entries R) (past_end hi) limit off out).1.1.
Proof.
  revert l path L R first off out; induction fuel as [|fuel IH];
    intros l path L R first off out Hl Hz Hf Hd; [lia|]. cbn [page_forward_loop].
  rewrite (load_leaf_repr _ _ Hl), page_scan_app.
  destruct (page_scan_leaf _ _ limit off out) as [[out' off'] [|]]; [done|].
  pose proof (next_leaf_spec db dfuel 0 path L R Hz Hd) as Hn. destruct R as [|r R].
  - by destruct Hn as [p ->].
  - destruct Hn as (path' & L' & -> & Hr & Hz' & Hlen). cbn [length] in Hf.
    rewrite (IH r path' L' R false off' out' Hr Hz' ltac:(lia) ltac:(lia)).
    by rewrite drop_0.
Qed.

Lemma page_reverse_spec db fuel dfuel l path L R first start hi limit off out :
  sub db 0 l -> zip db 0 path L R -> length L < fuel -> length path < dfuel ->
  page_reverse_loop fuel dfuel db (tid (h := 0) l) path first start hi limit off out =
    Some (page_scan_leaf (reverse (take (upper_index first hi (entries l)) (entries l))
                          ++ reverse (leaf_list_entries L))
            (fun k => bytes_ltb k start) limit off out).1.1.
Proof.
  revert l path L R first off out; induction fuel as [|fuel IH];
    intros l path L R first off out Hl Hz Hf Hd; [lia|]. cbn [page_reverse_loop].
  rewrite (load_leaf_repr _ _ Hl), page_scan_app.
  destruct (page_scan_leaf _ _ limit off out) as [[out' off'] [|]]; [done|].
  pose proof (prev_leaf_spec db dfuel 0 path L R Hz Hd) as Hn.
  destruct L as [|r L _] using rev_ind; [by destruct Hn as [p ->]|].
  rewrite reverse_snoc in Hn. destruct Hn as (path' & R' & -> & Hr & Hz' & Hlen).
  rewrite length_app in Hf. cbn [length] in Hf. rewrite reverse_involutive in Hz'.
  rewrite (IH r path' L R' false off' out' Hr Hz' ltac:(lia) ltac:(lia)).
  rewrite leaf_list_entries_app, reverse_app. cbn [leaf_list_entries map concat upper_index].
  by rewrite app_nil_r, firstn_all.
Qed.

End Scan.

(** ** Scans of an entry list *)

#[global] Instance in_range_dec lo hi k : Decision (in_range lo hi k).
Proof. unfold in_range. destruct lo, hi; apply _. Defined.

(** Once the scan has reached a stopping entry, every later entry stops it too. *)
Abbreviation stop_sorted stop :=
  (StronglySorted (fun a b : LeafEntry => stop (le_key a) = true -> stop (le_key b) = true)).

Lemma live_take_while stop es :
  stop_sorted stop es ->
  live (take_while (fun e => negb (stop (le_key e))) es)
  = filter (fun e : kv => stop e.1 = false) (live es).
Proof.
  induction 1 as [|e es Hs IH Hall]; [done|]. cbn [take_while].
  destruct (stop (le_key e)) eqn:E; cbn [negb].
  - symmetry. apply filter_none, (live_keys (fun k => ~ stop k = false)).
    constructor; [congruence|]. eapply Forall_impl; [exact Hall|]. intros x Hx.
    cbn. by rewrite Hx.
  - change (e :: ?l) with ([e] ++ l). rewrite !live_app, filter_app, IH. f_equal.
    symmetry. apply filter_all, (live_keys (fun k => stop k = false)). by constructor.
Qed.

Lemma range_scan_live es hi out :
  (range_scan_leaf es hi out).1
  = out ++ live (take_while (fun e => negb (past_end hi (le_key e))) es).
Proof.
  revert out; induction es as [|e es IH]; intros out; cbn [range_scan_leaf take_while];
    [by rewrite app_nil_r|].
  destruct (past_end hi (le_key e)); cbn [negb]; [by rewrite app_nil_r|].
  unfold live. cbn [omap list_omap]. unfold live1 at 1.
  destruct (le_value e); rewrite IH; [by rewrite <- app_assoc|done].
Qed.

Lemma page_scan_live es stop limit off out :
  length out < limit ->
  (page_scan_leaf es stop limit off out).1.1
  = out ++ take (limit - length out)
             (drop off (live (take_while (fun e => negb (stop (le_key e))) es))).
Proof.
  revert off out; induction es as [|e es IH]; intros off out Hl;
    cbn [page_scan_leaf take_while]; [by (change (live []) with (@nil kv); rewrite drop_nil, take_nil, app_nil_r)|].
  destruct (stop (le_key e)); cbn [negb]; [by (change (live []) with (@nil kv); rewrite drop_nil, take_nil, app_nil_r)|].
  unfold live. cbn [omap list_omap]. unfold live1 at 1.
  destruct (le_value e) as [v|]; cbn; [|by rewrite IH]. destruct off as [|off]; [|by rewrite IH].
  rewrite length_app, drop_0. cbn [length]. destruct (Nat.leb_spec limit (length out + 1)).
  - replace (limit - length out) with 1 by lia. done.
  - rewrite IH by (rewrite length_app; cbn; lia). rewrite length_app, <- app_assoc, drop_0.
    cbn [length app]. replace (limit - length out) with (S (limit - (length out + 1))) by lia.
    done.
Qed.

Lemma StronglySorted_reverse {A} (R : A -> A -> Prop) l :
  StronglySorted R l -> StronglySorted (fun a b => R b a) (reverse l).
Proof.
  induction 1 as [|x l Hs IH Hall]; [constructor|]. rewrite reverse_cons.
  apply StronglySorted_app_2; [|done|by repeat constructor].
  intros a b Ha Hb. apply list_elem_of_singleton in Hb as ->.
  rewrite Forall_forall in Hall. by apply Hall, elem_of_reverse.
Qed.

Lemma StronglySorted_impl {A} (R S : A -> A -> Prop) l :
  (forall a b, R a b -> S a b) -> StronglySorted R l -> StronglySorted S l.
Proof.
  intros H. induction 1 as [|x l Hs IH Hall]; constructor; [done|].
  eapply Forall_impl; [exact Hall|]. auto.
Qed.

Lemma live_reverse es : live (reverse es) = reverse (live es).
Proof.
  unfold live. induction es as [|e es IH]; [done|].
  rewrite reverse_cons, omap_app, IH. cbn [omap list_omap].
  destruct (live1 e); [by rewrite reverse_cons|by rewrite app_nil_r].
Qed.

Lemma past_end_false hi k : past_end hi k = false <-> match hi with Some e => k <b e | None => True end.
Proof. destruct hi; cbn; [apply bytes_leb_false|done]. Qed.

Lemma in_range_past_end start hi k :
  in_range (Some start) hi k <-> start <=b k /\ past_end hi k = false.
Proof. unfold in_range. by rewrite past_end_false. Qed.

Lemma past_end_sorted hi es : les_sorted es -> stop_sorted (past_end hi) es.
Proof.
  apply StronglySorted_impl. intros a b Hlt. destruct hi as [h|]; cbn; [|done].
  rewrite !bytes_leb_ble. intros. border.
Qed.

Lemma before_start_sorted start es :
  les_sorted es -> stop_sorted (fun k => bytes_ltb k start) (reverse es).
Proof.
  intros Hs. apply StronglySorted_reverse in Hs. revert Hs. apply StronglySorted_impl.
  intros a b Hlt Ha. change (le_key a <b start) in Ha. change (le_key b <b start). border.
Qed.

(** Splitting a sorted list at [partition_point (< k)]. *)
Lemma partition_below k es :
  les_sorted es ->
  Forall (fun e => le_key e <b k) (take (partition_point (fun e => bytes_ltb (le_key e) k) es) es)
  /\ Forall (fun e => k <=b le_key e)
       (drop (partition_point (fun e => bytes_ltb (le_key e) k) es) es).
Proof.
  intros Hs. split; [rewrite take_partition_point; apply take_while_forall|].
  unfold partition_point. induction Hs as [|e es Hs IH Hall]; [constructor|]. cbn [take_while].
  destruct (bytes_ltb (le_key e) k) eqn:E; cbn [length drop]; [done|].
  assert (k <=b le_key e) by by apply bytes_leb_ble; unfold bytes_leb; rewrite E.
  constructor; [done|]. eapply Forall_impl; [exact Hall|]. cbn. intros x Hx. border.
Qed.

Lemma filter_ext_on {A} (P Q : A -> Prop) `{!forall x, Decision (P x)} `{!forall x, Decision (Q x)} l :
  Forall (fun x => P x <-> Q x) l -> filter P l = filter Q l.
Proof.
  induction 1 as [|x l Hx Hl IH]; [done|]. rewrite !filter_cons. repeat case_decide; by rewrite ?IH; tauto.
Qed.

(** The entries a forward scan meets. *)
Lemma forward_rest A l B start hi :
  les_sorted (A ++ l ++ B) -> Forall (fun e => le_key e <b start) A ->
  Forall (fun e => start <b le_key e) B ->
  live (take_while (fun e => negb (past_end hi (le_key e)))
          (drop (partition_point (fun e => bytes_ltb (le_key e) start) l) l ++ B))
  = filter (fun e : kv => in_range (Some start) hi e.1) (live (A ++ l ++ B)).
Proof.
  intros Hs HA HB. apply les_sorted_app in Hs as (_ & _ & Hs).
  apply les_sorted_app in Hs as Hs'. destruct Hs' as (Hx & Hl & HBs).
  destruct (partition_below start l Hl) as [Ht Hd]. set (i := partition_point _ l) in *.
  rewrite <- (take_drop i l) in Hs at 1. rewrite <- app_assoc in Hs.
  apply les_sorted_app in Hs as (_ & _ & Hs).
  rewrite live_take_while by by apply past_end_sorted.
  rewrite <- (take_drop i l) at 2. rewrite <- (app_assoc (take i l)), (app_assoc A), (live_app (A ++ _)), filter_app.
  rewrite (filter_none _ (live (A ++ take i l))).
  - cbn [app]. apply filter_ext_on, (live_keys (fun k => past_end hi k = false <-> in_range (Some start) hi k)).
    apply Forall_app. split; (eapply Forall_impl; [done|]; cbn; intros e He;
      rewrite in_range_past_end; intuition; border).
  - apply (live_keys (fun k => ~ in_range (Some start) hi k)). apply Forall_app.
    split; (eapply Forall_impl; [done|]; cbn; intros e He [Hr _]; cbn in Hr; border).
Qed.

(** The entries a reverse scan meets. *)
Lemma reverse_rest A l B start hi up :
  les_sorted (A ++ l ++ B) ->
  Forall (fun e => past_end hi (le_key e) = false) (A ++ take up l) ->
  Forall (fun e => past_end hi (le_key e) = true) (drop up l ++ B) ->
  live (take_while (fun e => negb (bytes_ltb (le_key e) start))
          (reverse (take up l) ++ reverse A))
  = reverse (filter (fun e : kv => in_range (Some start) hi e.1) (live (A ++ l ++ B))).
Proof.
  intros Hs Hin Hout.
  assert (E : A ++ l ++ B = (A ++ take up l) ++ drop up l ++ B).
  { by rewrite <- app_assoc, (app_assoc (take up l)), take_drop. }
  rewrite E in Hs |- *.
  apply les_sorted_app in Hs as (_ & Hs & _).
  rewrite <- reverse_app, (live_take_while (fun k => bytes_ltb k start))
    by by apply before_start_sorted.
  rewrite live_reverse, filter_reverse, (live_app (A ++ take up l) (drop up l ++ B)), filter_app.
  f_equal.
  rewrite (filter_none _ (live (drop up l ++ B))), app_nil_r.
  - apply filter_ext_on, (live_keys (fun k => bytes_ltb k start = false <-> in_range (Some start) hi k)).
    eapply Forall_impl; [exact Hin|]. cbn. intros e He. rewrite in_range_past_end.
    unfold ble. naive_solver.
  - apply (live_keys (fun k => ~ in_range (Some start) hi k)).
    eapply Forall_impl; [exact Hout|]. cbn. intros e He [_ Hr]%in_range_past_end. congruence.
Qed.

(** ** Scans of a version *)

Section Versions.
Context {DB : Type} {rocks : RocksDB DB} {laws : RocksLaws DB}.
Context {codec : NodeCodec}.

(** Enough for the descent to a leaf and for the walk over all leaves. *)
Definition scan_fuel (T : Tree) : nat := ht T + leaf_count (ht T) (tr T).

(** The specification of a range: the entries of the version with keys in [start, end). *)
Definition range_of (m : gmap bytes bytes) (start : bytes) (end_exclusive : option bytes)
    : list kv :=
  filter (fun e : kv => in_range (Some start) end_exclusive e.1) (map_entries m).

(** A seek by key: the leaf, and the version's entries around it. *)
Lemma seek_spec db root T key fuel :
  stored (denv db) root T -> scan_fuel T < fuel ->
  exists l A B path, find_leaf_with_path fuel db root key = Some (Some (tid (h := 0) l, path))
    /\ sub db 0 l /\ zip db 0 path A B
    /\ length path < fuel /\ length A < fuel /\ length B < fuel
    /\ les_sorted (leaf_list_entries A ++ entries l ++ leaf_list_entries B)
    /\ tree_entries T = live (leaf_list_entries A ++ entries l ++ leaf_list_entries B)
    /\ Forall (fun e => le_key e <b key) (leaf_list_entries A)
    /\ Forall (fun e => key <b le_key e) (leaf_list_entries B).
Proof.
  intros (-> & Hr & Hw) Hf. unfold scan_fuel in Hf.
  pose proof (leaves_count _ (tr T)) as Hc.
  destruct (find_leaf_spec db fuel _ None None (tr T) key [] [] []
              (conj Hr (wf_nonempty _ _ _ _ Hw)) Hw (in_range_none key) (conj eq_refl eq_refl)
              ltac:(lia)) as (l & A & B & path & Hl & He & Hs & Hz & Hlen & HA & HB).
  rewrite app_nil_r in Hz. cbn [app length] in Hz, Hlen.
  rewrite Hl, length_app in Hc. cbn [length] in Hc.
  destruct (wf_entries _ _ _ _ Hw) as [_ Hsorted].
  unfold tree_entries. rewrite flatten_leaves, Hl, leaf_list_entries_app in Hsorted |- *.
  exists l, A, B, path. split_all; try done; lia.
Qed.

Lemma range_entries_spec db root T start hi fuel :
  stored (denv db) root T -> scan_fuel T < fuel ->
  range_entries_at_root fuel db root start hi = Some (range_of (contents T) start hi).
Proof.
  intros Hst Hf. unfold range_entries_at_root, range_of.
  rewrite contents_entries by apply Hst.
  destruct (seek_spec db root T start fuel Hst Hf)
    as (l & A & B & path & -> & Hl & Hz & Hp & HlA & HlB & Hs & -> & HA & HB).
  erewrite range_loop_spec by done. rewrite range_scan_live. cbn [first_index app].
  by erewrite forward_rest by done.
Qed.

Lemma page_forward_version db root T start hi off limit fuel :
  stored (denv db) root T -> scan_fuel T < fuel -> 0 < limit ->
  range_entries_page_at_root_forward fuel db root start hi off limit
  = Some (take limit (drop off (range_of (contents T) start hi))).
Proof.
  intros Hst Hf Hpos. unfold range_entries_page_at_root_forward, range_of.
  rewrite contents_entries by apply Hst.
  destruct (seek_spec db root T start fuel Hst Hf)
    as (l & A & B & path & -> & Hl & Hz & Hp & HlA & HlB & Hs & -> & HA & HB).
  erewrite page_forward_spec by done. rewrite page_scan_live by done. cbn [first_index app length].
  erewrite forward_rest by done. by rewrite Nat.sub_0_r.
Qed.

(** The rightmost leaf, for a reverse scan without an upper bound. *)
Lemma seek_last_spec db root T fuel :
  stored (denv db) root T -> scan_fuel T < fuel ->
  exists l A path, rightmost_leaf_with_path fuel db root = Some (Some (tid (h := 0) l, path))
    /\ sub db 0 l /\ zip db 0 path A [] /\ length path < fuel /\ length A < fuel
    /\ les_sorted (leaf_list_entries A ++ entries l ++ [])
    /\ tree_entries T = live (leaf_list_entries A ++ entries l ++ []).
Proof.
  intros (-> & Hr & Hw) Hf. unfold scan_fuel in Hf.
  pose proof (leaves_count _ (tr T)) as Hc.
  destruct (rightmost_spec db fuel _ (tr T) [] [] [] (conj Hr (wf_nonempty _ _ _ _ Hw))
              (conj eq_refl eq_refl) ltac:(lia)) as (l & A & path & Hl & _ & He & Hs & Hz & Hlen).
  rewrite Hl, length_app in Hc. cbn [app length] in *.
  destruct (wf_entries _ _ _ _ Hw) as [_ Hsorted].
  unfold tree_entries. rewrite flatten_leaves, Hl, leaf_list_entries_app in Hsorted |- *.
  exists l, A, path. split_all; try done; lia.
Qed.

Lemma past_end_above hi k es :
  hi = Some k -> Forall (fun e => k <=b le_key e) es ->
  Forall (fun e => past_end hi (le_key e) = true) es.
Proof. intros -> H. eapply Forall_impl; [exact H|]. intros e. cbn. apply bytes_leb_ble. Qed.

Lemma past_end_below hi k es :
  hi = Some k -> Forall (fun e => le_key e <b k) es ->
  Forall (fun e => past_end hi (le_key e) = false) es.
Proof. intros -> H. eapply Forall_impl; [exact H|]. intros e. cbn. apply bytes_leb_false. Qed.

Lemma page_reverse_version db root T start hi off limit fuel :
  stored (denv db) root T -> scan_fuel T < fuel -> 0 < limit ->
  range_entries_page_at_root_reverse fuel db root start hi off limit
  = Some (take limit (drop off (reverse (range_of (contents T) start hi)))).
Proof.
  intros Hst Hf Hpos. unfold range_entries_page_at_root_reverse, range_of.
  rewrite contents_entries by apply Hst. destruct hi as [k|].
  - destruct (seek_spec db root T k fuel Hst Hf)
      as (l & A & B & path & -> & Hl & Hz & Hp & HlA & HlB & Hs & -> & HA & HB).
    erewrite page_reverse_spec by done. rewrite page_scan_live by done.
    cbn [upper_index app length].
    assert (Hls : les_sorted (entries l)) by by apply les_sorted_app in Hs as (_ & _ & (_ & ? & _)%les_sorted_app).
    destruct (partition_below k _ Hls) as [Ht Hd].
    erewrite reverse_rest; [by rewrite Nat.sub_0_r|done| |].
    + apply (past_end_below _ k); [done|]. by apply Forall_app.
    + apply (past_end_above _ k); [done|]. apply Forall_app. split; [done|].
      eapply Forall_impl; [exact HB|]. intros e. apply blt_ble.
  - destruct (seek_last_spec db root T fuel Hst Hf)
      as (l & A & path & -> & Hl & Hz & Hp & HlA & Hs & ->).
    erewrite page_reverse_spec by done. rewrite page_scan_live by done.
    cbn [upper_index app length]. erewrite reverse_rest; [by rewrite Nat.sub_0_r|done| |].
    + by apply Forall_true.
    + by rewrite drop_all.
Qed.

(** Pages in either direction. *)
Lemma page_version db root T start hi off limit rev fuel :
  stored (denv db) root T -> scan_fuel T < fuel ->
  range_entries_page_at_root fuel db root start hi off limit rev
  = Some (take limit (drop off (if rev : bool then reverse (range_of (contents T) start hi)
                                else range_of (contents T) start hi))).
Proof.
  intros Hst Hf. unfold range_entries_page_at_root. destruct (Nat.eqb_spec limit 0) as [->|].
  { by rewrite take_0. }
  destruct rev; [apply page_reverse_version|apply page_forward_version]; try done; lia.
Qed.

(** Prefix collections. *)
Lemma collect_prefixed_version db root T prefix fuel :
  stored (denv db) root T -> scan_fuel T < fuel ->
  collect_prefixed_entries_at_root fuel db root prefix
  = Some (filter (fun e : kv => starts_with e.1 prefix = true) (map_entries (contents T))).
Proof.
  intros Hst Hf. unfold collect_prefixed_entries_at_root.
  rewrite (range_entries_spec db root T prefix _ fuel Hst Hf). cbn [mbind option_bind].
  f_equal. unfold range_of. rewrite list_filter_filter_l; [done|].
  intros e. rewrite prefix_range. done.
Qed.

End Versions.
