(* ===== verification/TreeMulti.v ===== *)
(** * Batched lookups

    [multi_get_at_root] sorts the queries and descends once per run of queries
    that share a child.  Shown here: it answers every query as a single lookup
    would, at the position of the query. *)
From S2P Require Import Prelude Bytes Rocks TreeNode TreeDb BTree TreeRefine.

Open Scope nat_scope.

(** The answers at [idxs] filled in by [f], the rest of [out] kept. *)
Definition filled (f : nat -> option bytes) (idxs : list nat) (out out' : list (option bytes)) : Prop :=
  length out' = length out
  /\ forall i, out' !! i = if decide (i ∈ idxs) then Some (f i) else out !! i.

(** Every queried position exists and is still unanswered. *)
Definition open_at (idxs : list nat) (out : list (option bytes)) : Prop :=
  forall i, i ∈ idxs -> out !! i = Some None.

Lemma filled_nil f out : filled f [] out out.
Proof. split; [done|]. intros i. rewrite decide_False; [done|]. apply not_elem_of_nil. Qed.

Lemma filled_app f a b out mid out' :
  filled f a out mid -> filled f b mid out' -> filled f (a ++ b) out out'.
Proof.
  intros [L1 H1] [L2 H2]. split; [congruence|]. intros i. rewrite H2, H1.
  repeat case_decide; set_solver.
Qed.

Lemma filled_open f a b out mid :
  filled f a out mid -> open_at b out -> (forall i, i ∈ a -> i ∉ b) -> open_at b mid.
Proof.
  intros [_ H] Ho Hd i Hi. rewrite H. rewrite decide_False; [by apply Ho|]. set_solver.
Qed.

Lemma filled_ext f g idxs out out' :
  (forall i, i ∈ idxs -> f i = g i) -> filled f idxs out out' -> filled g idxs out out'.
Proof.
  intros Hfg [L H]. split; [done|]. intros i. rewrite H. case_decide; [|done]. by rewrite Hfg.
Qed.

(** Nothing to write where the answer is [None]. *)
Lemma filled_none f idxs out :
  open_at idxs out -> (forall i, i ∈ idxs -> f i = None) -> filled f idxs out out.
Proof.
  intros Ho Hf. split; [done|]. intros i. case_decide as E; [|done]. by rewrite Ho, Hf.
Qed.

Section MultiGet.
Context {DB : Type} {rocks : RocksDB DB} {laws : RocksLaws DB} {codec : NodeCodec}.
Variable qs : list bytes.

Abbreviation q i := (default [] (qs !! i)).

Lemma leaf1_filled (t : tree 0) i out :
  open_at [i] out ->
  filled (fun i => t_get 0 (q i) t) [i] out (multi_get_leaf1 (entries t) qs out i).
Proof.
  intros Ho. assert (Hi : out !! i = Some None) by (apply Ho; set_solver).
  unfold multi_get_leaf1. cbn [t_get].
  destruct (binary_search (entries t) (q i)) as [j|j] eqn:E.
  - split; [apply length_insert|]. intros k. case_decide as Hk.
    + apply list_elem_of_singleton in Hk as ->. rewrite E.
      apply list_lookup_insert_eq. by eapply lookup_lt_Some.
    + apply list_lookup_insert_ne. set_solver.
  - apply filled_none; [done|]. intros k Hk%list_elem_of_singleton. subst k. by rewrite E.
Qed.

Lemma leaf_filled (t : tree 0) idxs out :
  NoDup idxs -> open_at idxs out ->
  filled (fun i => t_get 0 (q i) t) idxs out (foldl (multi_get_leaf1 (entries t) qs) out idxs).
Proof.
  intros Hnd. revert out. induction Hnd as [|i idxs Hni Hnd IH]; intros out Ho;
    [apply filled_nil|]. cbn [foldl].
  assert (H1 : filled (fun i => t_get 0 (q i) t) [i] out (multi_get_leaf1 (entries t) qs out i)).
  { apply leaf1_filled. intros k Hk. apply Ho. set_solver. }
  apply (filled_app _ [i] idxs _ _ _ H1). apply IH.
  eapply filled_open; [exact H1| |set_solver]. intros k Hk. apply Ho. set_solver.
Qed.

(** The run that starts a list: its members go to the same child. *)
Lemma run_length_take ks first rest :
  let child := child_index_for_key ks (q first) in
  let len := run_length ks qs child (first :: rest) in
  forall i, i ∈ take len (first :: rest) -> child_index_for_key ks (q i) = child.
Proof.
  intros child len i. unfold len, run_length. cbn [tail take].
  rewrite take_partition_point. intros [->|Hi]%elem_of_cons; [done|].
  pose proof (take_while_forall
    (fun i => child_index_for_key ks (q i) =? child) rest) as Hall.
  rewrite Forall_forall in Hall. by apply Nat.eqb_eq, Hall.
Qed.

Lemma groups_filled (rec : bytes -> list nat -> list (option bytes) -> option (list (option bytes)))
    h ks (cs : list (tree h)) :
  (forall c idxs out, c ∈ cs -> NoDup idxs -> open_at idxs out ->
     exists out', rec (tid c) idxs out = Some out'
       /\ filled (fun i => t_get h (q i) c) idxs out out') ->
  forall n rest out, length rest <= n -> NoDup rest -> open_at rest out ->
  exists out', multi_get_groups rec (mkInternalNode ks (map tid cs)) qs n rest out = Some out'
    /\ filled (fun i => t_get (S h) (q i) (ks, cs)) rest out out'.
Proof.
  intros Hrec. induction n as [|n IH]; intros rest out Hlen Hnd Ho.
  { destruct rest; [|cbn in Hlen; lia]. exists out. split; [done|apply filled_nil]. }
  destruct rest as [|first rest]; [exists out; split; [done|apply filled_nil]|].
  cbn [multi_get_groups keys children].
  pose proof (run_length_take ks first rest) as Hrun. cbv zeta in Hrun.
  set (child := child_index_for_key ks (q first)) in *.
  set (len := run_length ks qs child (first :: rest)) in *.
  set (all := first :: rest) in *.
  assert (Hpos : 0 < len) by (unfold len, run_length; lia).
  assert (Hd : length (drop len all) <= n) by (rewrite length_drop; cbn in Hlen |- *; lia).
  rewrite <- (take_drop len all) in Hnd. apply NoDup_app in Hnd as (Hn1 & Hdis & Hn2).
  assert (Ho1 : open_at (take len all) out).
  { intros i Hi. apply Ho. rewrite <- (take_drop len all). set_solver. }
  assert (Ho2 : open_at (drop len all) out).
  { intros i Hi. apply Ho. rewrite <- (take_drop len all). set_solver. }
  assert (Hstep : exists mid, filled (fun i => t_get (S h) (q i) (ks, cs)) (take len all) out mid
    /\ match map tid cs !! child with
       | Some child_id =>
           match rec child_id (take len all) out with
           | Some out' => multi_get_groups rec (mkInternalNode ks (map tid cs)) qs n (drop len all) out'
           | None => None
           end
       | None => multi_get_groups rec (mkInternalNode ks (map tid cs)) qs n (drop len all) out
       end = multi_get_groups rec (mkInternalNode ks (map tid cs)) qs n (drop len all) mid).
  { rewrite (list_lookup_fmap tid cs child : map tid cs !! child = tid <$> cs !! child).
    destruct (cs !! child) as [c|] eqn:Ec; cbn [fmap option_fmap option_map].
    - destruct (Hrec c (take len all) out) as (mid & -> & Hm);
        [by eapply list_elem_of_lookup_2|done|done|].
      exists mid. split; [|done]. eapply filled_ext; [|exact Hm]. intros i Hi.
      by rewrite t_get_S, (Hrun i Hi), Ec.
    - exists out. split; [|done]. apply filled_none; [done|]. intros i Hi.
      by rewrite t_get_S, (Hrun i Hi), Ec. }
  destruct Hstep as (mid & Hm & ->).
  destruct (IH (drop len all) mid Hd Hn2) as (out' & -> & Hf'); [by eapply filled_open|].
  exists out'. split; [done|]. rewrite <- (take_drop len all). by eapply filled_app.
Qed.

Lemma multi_get_node_filled db h (t : tree h) fuel idxs out :
  repr (denv db) h t -> h < fuel -> NoDup idxs -> open_at idxs out ->
  exists out', multi_get_node fuel db qs (tid t) idxs out = Some out'
    /\ filled (fun i => t_get h (q i) t) idxs out out'.
Proof.
  revert t fuel idxs out; induction h as [|h IH]; intros t fuel idxs out Hr Hf Hnd Ho;
    (destruct fuel as [|fuel]; [lia|]); cbn [multi_get_node];
    (destruct idxs as [|i idxs]; [exists out; split; [done|apply filled_nil]|]);
    rewrite load_node_eq; pose proof (repr_root _ _ _ Hr) as Hn;
    unfold env_node in Hn; cbn in Hn; rewrite Hn; cbn [default node_of].
  - eexists. split; [done|]. by apply leaf_filled.
  - destruct t as [ks cs]. cbn [fst snd]. unfold id. cbn [children].
    change (map (fun c => hash_node (node_of h c)) cs) with (map tid cs).
    destruct cs as [|c0 cs].
    { exists out. split; [done|]. apply filled_none; [done|]. intros j _.
      by rewrite t_get_S, lookup_nil. }
    cbn [map]. apply (groups_filled (multi_get_node fuel db qs) h ks (c0 :: cs)); [|done|done|done].
    intros c js o Hc Hj Hoj. destruct Hr as [_ Hcs]. rewrite Forall_forall in Hcs.
    apply IH; [by apply Hcs|lia|done|done].
Qed.

Lemma multi_get_spec db root T fuel :
  stored (denv db) root T -> ht T < fuel ->
  multi_get_at_root fuel db root qs = Some (map (fun k => contents T !! k) qs).
Proof.
  intros (-> & Hr & Hw) Hf. unfold multi_get_at_root. destruct (decide (qs = [])) as [E|Hne].
  { by rewrite E. }
  rewrite match_nonempty by done. set (idxs := sort_by _ _).
  assert (Hp : idxs ≡ₚ seq 0 (length qs)) by apply sort_by_perm.
  destruct (multi_get_node_filled db _ (tr T) fuel idxs (replicate (length qs) None) Hr Hf)
    as (out' & He & [Hlen Hout]).
  { rewrite Hp. apply NoDup_seq. }
  { intros i Hi. rewrite Hp in Hi. apply elem_of_seq in Hi. apply lookup_replicate_2. lia. }
  unfold root_id. rewrite He. f_equal. apply list_eq. intros i. rewrite Hout.
  rewrite (list_lookup_fmap (fun k => contents T !! k) qs i
           : map _ qs !! i = _ <$> qs !! i).
  destruct (qs !! i) as [k|] eqn:Ek.
  - rewrite decide_True by (rewrite Hp, elem_of_seq; apply lookup_lt_Some in Ek; lia).
    cbn. f_equal. eapply t_get_spec; [exact Hw|apply in_range_none].
  - apply lookup_ge_None in Ek.
    rewrite decide_False by (rewrite Hp, elem_of_seq; lia). cbn.
    apply lookup_ge_None. rewrite length_replicate. lia.
Qed.

End MultiGet.
