(* ===== verification/TreeBlocks.v ===== *)
(** * Blocks, versions and the state of the tree

    [VersionedTreeDb] as a state machine: opening a database, writing inside and
    outside a block, finishing and aborting blocks, rewinding and pinning.
    [tree_inv] ties the in-memory state to the rows of the database; every
    operation keeps it, so a restart recovers the state, and no operation loses
    a version. *)
From S2P Require Import Prelude Bytes Rocks TreeNode TreeDb BTree TreeRefine TreeBatch.

Open Scope nat_scope.

(** ** Key families do not meet *)

Ltac key_ne :=
  let E := fresh in intros E; cbv -[be_bytes] in E; discriminate E.

Create HintDb keys.
#[global] Hint Extern 1 (_ <> _) => key_ne : keys.

Lemma block_root_not_node h : not_node_key (block_root_key h). Proof. done. Qed.
Lemma block_height_not_node h : not_node_key (block_height_key h). Proof. done. Qed.
Lemma block_parent_not_node h : not_node_key (block_parent_key h). Proof. done. Qed.
Lemma height_block_not_node h : not_node_key (height_block_key h).
Proof. unfold not_node_key, height_block_key. cbv -[be_bytes]. done. Qed.
Lemma active_root_not_node : not_node_key META_ACTIVE_ROOT. Proof. done. Qed.
Lemma active_block_not_node : not_node_key META_ACTIVE_BLOCK. Proof. done. Qed.
Lemma pinned_root_not_node : not_node_key META_PINNED_ROOT. Proof. done. Qed.
Lemma pin_height_not_node : not_node_key META_PIN_UNTIL_HEIGHT. Proof. done. Qed.

#[export] Hint Resolve block_root_not_node block_height_not_node block_parent_not_node
  height_block_not_node active_root_not_node active_block_not_node pinned_root_not_node
  pin_height_not_node : keys.

Lemma block_root_key_inj a b : block_root_key a = block_root_key b -> a = b.
Proof. apply app_inv_head. Qed.
Lemma block_height_key_inj a b : block_height_key a = block_height_key b -> a = b.
Proof. apply app_inv_head. Qed.
Lemma block_parent_key_inj a b : block_parent_key a = block_parent_key b -> a = b.
Proof. apply app_inv_head. Qed.
Lemma height_block_key_inj a b :
  in_u32 a -> in_u32 b -> height_block_key a = height_block_key b -> a = b.
Proof. intros Ha Hb E%app_inv_head. by apply be_bytes_u32_inj. Qed.

(** The four singleton rows. *)
Definition META_KEYS : list bytes :=
  [META_ACTIVE_ROOT; META_ACTIVE_BLOCK; META_PINNED_ROOT; META_PIN_UNTIL_HEIGHT].

Lemma prefixed_not_meta p k :
  Forall (fun m => starts_with m p = false) META_KEYS -> starts_with k p = true -> k ∉ META_KEYS.
Proof. rewrite Forall_forall. intros H Hk Hin%H. congruence. Qed.

Lemma block_root_not_meta b : block_root_key b ∉ META_KEYS.
Proof. apply (prefixed_not_meta BLOCK_ROOT_PREFIX); [by repeat constructor|apply starts_with_app]. Qed.
Lemma block_height_not_meta b : block_height_key b ∉ META_KEYS.
Proof. apply (prefixed_not_meta BLOCK_HEIGHT_PREFIX); [by repeat constructor|apply starts_with_app]. Qed.
Lemma block_parent_not_meta b : block_parent_key b ∉ META_KEYS.
Proof. apply (prefixed_not_meta BLOCK_PARENT_PREFIX); [by repeat constructor|apply starts_with_app]. Qed.
Lemma height_prefix_not_meta k : starts_with k HEIGHT_BLOCK_PREFIX = true -> k ∉ META_KEYS.
Proof. apply prefixed_not_meta. by repeat constructor. Qed.
Lemma height_block_not_meta h : height_block_key h ∉ META_KEYS.
Proof. apply height_prefix_not_meta, starts_with_app. Qed.

#[export] Hint Resolve block_root_not_meta block_height_not_meta block_parent_not_meta
  height_prefix_not_meta height_block_not_meta : keys.

(** Look-ups through a run of puts and deletes at concrete keys. *)
Ltac map_keys :=
  repeat first
    [ rewrite lookup_insert_eq
    | rewrite lookup_insert_ne by (auto with keys; congruence)
    | rewrite lookup_delete_eq
    | rewrite lookup_delete_ne by (auto with keys; congruence) ].

Section Blocks.
Context {DB : Type} {rocks : RocksDB DB} {laws : RocksLaws DB}.
Context {codec : NodeCodec} (U : BptreeNode -> Prop) {HU : CodecLaws U}.

Abbreviation db_ok := (db_ok U).

(** A root that names a complete, well-formed version. *)
Definition is_version (db : DB) (root : bytes) : Prop := exists V, stored (denv db) root V.

Definition empty_tree : Tree := mkT 0 LeafNode_default.

(** The root writes go to: the block under construction, or the active root. *)
Definition write_root (T : VersionedTreeDb DB) : bytes :=
  match current_block (state T) with
  | Some ctx => bc_working_root ctx
  | None => active_root_ (state T)
  end.

(** A block context as the indexer supplies it. *)
Record ctx_ok (db : DB) (ctx : BlockContext) : Prop := {
  co_root : is_version db (bc_working_root ctx);
  co_hash : length (bc_block_hash ctx) = 32;
  co_parent : length (bc_parent_hash ctx) = 32;
  co_height : in_u32 (bc_height ctx);
}.

Record tree_inv (T : VersionedTreeDb DB) : Prop := {
  ti_db : db_ok (tdb T);
  ti_empty : is_Some (db_node (tdb T) empty_root_id);
  ti_active : is_version (tdb T) (active_root_ (state T));
  ti_pinned r : pinned_root (state T) = Some r -> is_version (tdb T) r;
  ti_current ctx : current_block (state T) = Some ctx -> ctx_ok (tdb T) ctx;
  ti_blocks bh r : db_view (tdb T) !! block_root_key bh = Some r -> is_version (tdb T) r;
  ti_heights k bh : starts_with k HEIGHT_BLOCK_PREFIX = true ->
    db_view (tdb T) !! k = Some bh ->
    length bh = 32 /\ exists h, in_u32 h /\ k = height_block_key h;
  ti_row_root : default empty_root_id (db_view (tdb T) !! META_ACTIVE_ROOT)
                = active_root_ (state T);
  ti_row_block : db_view (tdb T) !! META_ACTIVE_BLOCK = active_block (state T);
  ti_row_pinned : db_view (tdb T) !! META_PINNED_ROOT = pinned_root (state T);
  ti_row_pin : db_view (tdb T) !! META_PIN_UNTIL_HEIGHT
               = be_bytes 4 <$> pin_until_height (state T);
  ti_block_len b : active_block (state T) = Some b -> length b = 32;
  ti_pin_pair : is_Some (pinned_root (state T)) <-> is_Some (pin_until_height (state T));
  ti_pin_u32 h : pin_until_height (state T) = Some h -> in_u32 h;
}.

Lemma is_version_mono db db' r : db_le db db' -> is_version db r -> is_version db' r.
Proof.
  intros Hle [V HV]. exists V. eapply stored_mono; [|exact HV]. exact Hle.
Qed.

Lemma ctx_ok_mono db db' c : db_le db db' -> ctx_ok db c -> ctx_ok db' c.
Proof. intros Hle [? ? ? ?]. split; [by eapply is_version_mono|done|done|done]. Qed.

Lemma is_version_len db r : is_version db r -> length r = 32.
Proof. intros [V [-> _]]. apply sha256_len. Qed.

Lemma empty_tree_wf : tree_wf empty_tree.
Proof. split; cbn; [constructor|]. split; [constructor|unfold MAX_LEAF_ENTRIES; lia]. Qed.

Lemma empty_is_version db :
  db_ok db -> is_Some (db_node db empty_root_id) -> stored (denv db) empty_root_id empty_tree.
Proof.
  intros Hdb [n Hn]. split; [done|]; split; [|apply empty_tree_wf].
  destruct (db_node_ok U _ _ _ Hdb Hn) as (Hh & HUn & _).
  assert (n = Leaf LeafNode_default) as ->
    by (apply hash_collision_free; [done|apply U_empty|done]).
  exact Hn.
Qed.

Lemma empty_contents : contents empty_tree = ∅.
Proof. done. Qed.

(** ** Writes *)

(** The invariant after a step that only adds node rows and rewrites some metadata rows. *)
Lemma inv_step T db' st' :
  tree_inv T -> db_ok db' -> db_le (tdb T) db' ->
  (forall bh r, db_view db' !! block_root_key bh = Some r ->
     db_view (tdb T) !! block_root_key bh = Some r \/ is_version db' r) ->
  (forall k bh, starts_with k HEIGHT_BLOCK_PREFIX = true -> db_view db' !! k = Some bh ->
     db_view (tdb T) !! k = Some bh
     \/ length bh = 32 /\ exists h, in_u32 h /\ k = height_block_key h) ->
  is_version db' (active_root_ st') ->
  (forall r, pinned_root st' = Some r -> pinned_root (state T) = Some r \/ is_version db' r) ->
  (forall ctx, current_block st' = Some ctx -> ctx_ok db' ctx) ->
  default empty_root_id (db_view db' !! META_ACTIVE_ROOT) = active_root_ st' ->
  db_view db' !! META_ACTIVE_BLOCK = active_block st' ->
  db_view db' !! META_PINNED_ROOT = pinned_root st' ->
  db_view db' !! META_PIN_UNTIL_HEIGHT = be_bytes 4 <$> pin_until_height st' ->
  (forall b, active_block st' = Some b -> length b = 32) ->
  (is_Some (pinned_root st') <-> is_Some (pin_until_height st')) ->
  (forall h, pin_until_height st' = Some h -> in_u32 h) ->
  tree_inv (mkTree db' st').
Proof.
  intros HI Hdb Hle Hb Hh Ha Hp Hc R1 R2 R3 R4 L1 L2 L3. destruct HI.
  split; cbn; try done.
  - by destruct ti_empty0 as [n ?%Hle]; eauto.
  - intros r [H|H]%Hp; [|done]. eapply is_version_mono; eauto.
  - intros bh r [H|H]%Hb; [|done]. eapply is_version_mono; eauto.
  - intros k bh Hk [H|H]%Hh; [eauto|done|done].
Qed.

Lemma height_key_not_node k : starts_with k HEIGHT_BLOCK_PREFIX = true -> not_node_key k.
Proof. intros [x ->]%starts_with_iff. done. Qed.

(** A write inside a block. *)
Lemma inv_block_write T db' ctx root :
  tree_inv T -> db_ok db' -> db_le (tdb T) db' -> same_meta (tdb T) db' -> is_version db' root ->
  current_block (state T) = Some ctx ->
  tree_inv (mkTree db' (set_current_block (state T) (Some (set_working_root ctx root)))).
Proof.
  intros HI Hdb Hle Hm Hr Ec. pose proof HI as HI'. destruct HI'.
  apply (inv_step T); try done; cbn; rewrite ?Hm by auto with keys; try done.
  - intros bh r. rewrite Hm by auto with keys. eauto.
  - intros k bh Hk. rewrite Hm by by apply height_key_not_node. eauto.
  - by eapply is_version_mono.
  - eauto.
  - intros c [= <-]. destruct (ti_current0 _ Ec). by split.
Qed.

Lemma active_meta_keys root st : Forall (fun op => not_node_key (op_key op)) (active_meta root st).
Proof. unfold active_meta. destruct (active_block st); repeat constructor. Qed.

(** The rows after recording a new active root outside a block. *)
Lemma active_meta_view T db' root k :
  tree_inv T -> same_meta (tdb T) db' -> not_node_key k ->
  db_view (db_write db' (active_meta root (state T))) !! k
  = if decide (k = META_ACTIVE_ROOT) then Some root else db_view (tdb T) !! k.
Proof.
  intros HI Hm Hk. pose proof (ti_row_block _ HI) as Hb.
  rewrite db_write_spec. unfold active_meta.
  destruct (active_block (state T)) as [b|]; cbn [apply_ops foldl apply_op]; case_decide as E;
    rewrite ?E; map_keys; try done.
  - destruct (decide (k = META_ACTIVE_BLOCK)) as [->|Hne]; map_keys; [done|by apply Hm].
  - by apply Hm.
Qed.

(** A write outside a block. *)
Lemma inv_plain_write T db' root :
  tree_inv T -> db_ok db' -> db_le (tdb T) db' -> same_meta (tdb T) db' -> is_version db' root ->
  current_block (state T) = None ->
  tree_inv (mkTree (db_write db' (active_meta root (state T))) (set_active_root (state T) root)).
Proof.
  intros HI Hdb Hle Hm Hr Ec. pose proof HI as HI'. destruct HI'.
  destruct (db_meta_write_ok U db' _ (active_meta_keys root (state T))) as (Hok' & Hle' & _).
  pose proof (fun k => active_meta_view T db' root k HI Hm) as Hv.
  apply (inv_step T); try done; cbn; rewrite ?Hv by auto with keys; try done; eauto.
  - by transitivity db'.
  - intros bh r. rewrite Hv by auto with keys. rewrite decide_False by auto with keys. eauto.
  - intros k bh Hk. rewrite Hv by by apply height_key_not_node.
    rewrite decide_False; [eauto|]. intros ->. done.
  - by eapply is_version_mono.
  - by rewrite Ec.
Qed.

(** Rows outside the tree's key space do not matter to it. *)
Lemma inv_foreign T db' :
  (forall k, starts_with k ROOT_PREFIX = true -> db_view db' !! k = db_view (tdb T) !! k) ->
  tree_inv T ->
  tree_inv (mkTree db' (state T))
  /\ forall root V, stored (denv (tdb T)) root V -> stored (denv db') root V.
Proof.
  intros Hv HI. assert (Hn : forall id, db_node db' id = db_node (tdb T) id).
  { intros id. unfold db_node. by rewrite Hv. }
  assert (Hle : db_le (tdb T) db') by (intros id n; by rewrite Hn).
  split; [|intros root V; apply stored_mono; exact Hle].
  pose proof HI as HI'. destruct HI'. apply (inv_step T); try done; rewrite ?Hv by done; try done.
  - intros id b. rewrite Hv by done. intros Hb. destruct (ti_db0 _ _ Hb) as (n & ? & ? & ? & Hc).
    exists n. split_all; try done. intros c Hin. rewrite Hn. auto.
  - intros bh r. rewrite Hv by done. eauto.
  - intros k bh Hk. rewrite Hv; [eauto|]. apply starts_with_iff in Hk as [x ->]. done.
  - by eapply is_version_mono.
  - eauto.
  - intros ctx Hc. eapply ctx_ok_mono; eauto.
Qed.

(** ** Mutations *)

(** The state that records [root] for the writer. *)
Definition after_write (T : VersionedTreeDb DB) (db' : DB) (root : bytes) : VersionedTreeDb DB :=
  match current_block (state T) with
  | Some ctx => mkTree db' (set_current_block (state T) (Some (set_working_root ctx root)))
  | None => mkTree (db_write db' (active_meta root (state T))) (set_active_root (state T) root)
  end.

Record write_result (T T' : VersionedTreeDb DB) (V V' : Tree) : Prop := {
  wr_inv : tree_inv T';
  wr_le : db_le (tdb T) (tdb T');
  wr_root : write_root T' = root_id V';
  wr_stored : stored (denv (tdb T')) (write_root T') V';
  wr_state : (forall ctx, current_block (state T) = Some ctx ->
                state T' = set_current_block (state T) (Some (set_working_root ctx (root_id V'))))
             /\ (current_block (state T) = None -> state T' = set_active_root (state T) (root_id V'));
  wr_rows k : not_node_key k -> k <> META_ACTIVE_ROOT ->
    db_view (tdb T') !! k = db_view (tdb T) !! k;
}.

Lemma after_write_result T db' V V' :
  tree_inv T -> db_ok db' -> db_le (tdb T) db' -> same_meta (tdb T) db' ->
  stored (denv db') (root_id V') V' ->
  write_result T (after_write T db' (root_id V')) V V'.
Proof.
  intros HI Hdb Hle Hm Hst. assert (Hv : is_version db' (root_id V')) by by exists V'.
  unfold after_write. destruct (current_block (state T)) as [ctx|] eqn:Ec.
  - split; try done; [by apply inv_block_write|naive_solver|]. intros k Hk _. by apply Hm.
  - destruct (db_meta_write_ok U db' _ (active_meta_keys (root_id V') (state T)))
      as (_ & Hle' & Hst').
    split; cbn; unfold write_root; cbn; rewrite ?Ec.
    + by apply inv_plain_write.
    + by transitivity db'.
    + done.
    + by apply Hst'.
    + naive_solver.
    + intros k Hk Hne. by rewrite (active_meta_view T), decide_False.
Qed.

(** [apply_batch_owned] applies the changes to the version being written. *)
Lemma apply_batch_result fuel T V changes :
  tree_inv T -> stored (denv (tdb T)) (write_root T) V ->
  ht V + length changes < fuel -> Forall U (batch_built V (canonicalize changes)) ->
  changes <> [] ->
  exists T', apply_batch_owned fuel T changes = Some T'
    /\ write_result T T' V (apply_trees V (canonicalize changes))
    /\ contents (apply_trees V (canonicalize changes)) = apply_changes (contents V) changes.
Proof.
  intros HI Hst Hf Hb Hne.
  destruct (batch_apply_spec U fuel (tdb T) (write_root T) V (canonicalize changes))
    as (db' & He & Hdb & Hle & Hm & Hst' & Hc); [apply HI|done| |done|].
  { pose proof (canonicalize_length changes). lia. }
  exists (after_write T db' (root_id (apply_trees V (canonicalize changes)))).
  split_all; [|by apply after_write_result|by rewrite Hc, canonicalize_apply].
  unfold apply_batch_owned, after_write, write_root in *.
  rewrite match_nonempty by done. destruct (current_block (state T)); by rewrite He.
Qed.

(** [apply_mutation], the path of [put] and [delete]. *)
Lemma apply_mutation_result fuel T V key value :
  tree_inv T -> stored (denv (tdb T)) (write_root T) V ->
  ht V < fuel -> Forall U (apply_built V key value) ->
  exists T', apply_mutation fuel T key value = Some T'
    /\ write_result T T' V (apply_tree V key value)
    /\ contents (apply_tree V key value) = kv_update key value (contents V).
Proof.
  intros HI Hst Hf Hb.
  destruct (apply_single_refines U (denv (tdb T)) (write_root T) V key value fuel)
    as (env' & He & Hs & Hst' & Hc & _); [split; [apply HI|done]|done|done|done|].
  pose proof (es_ctx _ _ _ Hs) as Hctx. cbn in Hctx. destruct env' as [db' o']. cbn in Hctx. subst o'.
  destruct Hs as [[Hdb _] _ Hm Hle _]. cbn in Hdb, Hm, Hle.
  exists (after_write T db' (root_id (apply_tree V key value))).
  split_all; [|by apply after_write_result|done].
  unfold apply_mutation, after_write, write_root, denv in *.
  destruct (current_block (state T)); by rewrite He.
Qed.

(** A write of the tree, a batch or a single put or delete, with enough fuel. *)
Inductive tree_write (T : VersionedTreeDb DB) : VersionedTreeDb DB -> Prop :=
| tw_batch fuel changes V T' :
    stored (denv (tdb T)) (write_root T) V -> ht V + length changes < fuel ->
    Forall U (batch_built V (canonicalize changes)) ->
    apply_batch_owned fuel T changes = Some T' -> tree_write T T'
| tw_mutation fuel key value V T' :
    stored (denv (tdb T)) (write_root T) V -> ht V < fuel ->
    Forall U (apply_built V key value) ->
    apply_mutation fuel T key value = Some T' -> tree_write T T'.

(** A write of the tree is a write of the version in progress. *)
Lemma tree_write_result T T' :
  tree_inv T -> tree_write T T' -> T' = T \/ exists V V', write_result T T' V V'.
Proof.
  intros HI [fuel cs V T1 Hst Hf HB He|fuel k v V T1 Hst Hf HB He].
  - destruct (decide (cs = [])) as [->|Hne]; [left; cbn in He; by simplify_eq|]. right.
    destruct (apply_batch_result fuel T V cs HI Hst Hf HB Hne) as (T2 & He2 & Hw & _).
    rewrite He in He2. injection He2 as ->. eauto.
  - right. destruct (apply_mutation_result fuel T V k v HI Hst Hf HB) as (T2 & He2 & Hw & _).
    rewrite He in He2. injection He2 as ->. eauto.
Qed.

(** Inside a block, writes move the block's working root and nothing else of the state. *)
Lemma writes_in_block T T' ctx :
  tree_inv T -> current_block (state T) = Some ctx -> rtc tree_write T T' ->
  tree_inv T' /\ db_le (tdb T) (tdb T')
  /\ exists r, state T' = set_current_block (state T) (Some (set_working_root ctx r)).
Proof.
  intros HI Hc Hr. revert ctx HI Hc. induction Hr as [T|T T1 T2 Hw _ IH]; intros ctx HI Hc.
  { split; [done|]. split; [done|]. exists (bc_working_root ctx). destruct T as [d [] ], ctx. cbn in *. by subst. }
  destruct (tree_write_result _ _ HI Hw) as [->|(V & V' & [HI1 Hle1 _ _ [Hs _] _])]; [by apply IH|].
  specialize (Hs _ Hc).
  destruct (IH (set_working_root ctx (root_id V')) HI1) as (HI2 & Hle2 & r & Hs2); [by rewrite Hs|].
  split; [done|]. split; [by transitivity (tdb T1)|]. exists r. by rewrite Hs2, Hs.
Qed.

(** ** Opening *)

Definition closed_state (st : TreeState) : TreeState := set_current_block st None.

Lemma read32_len b : length b = 32 -> read32 (Some b) = Some b.
Proof. intros H. unfold read32. cbn. by rewrite H. Qed.

Lemma read_u32_be h : in_u32 h -> read_u32 (Some (be_bytes 4 h)) = Some h.
Proof.
  intros H. unfold read_u32. cbn [mbind option_bind].
  rewrite length_be_bytes, from_be_u32 by done. done.
Qed.

(** Opening the database of a tree recovers its state, without the block in progress. *)
Lemma new_recovers T : tree_inv T -> new (tdb T) = mkTree (tdb T) (closed_state (state T)).
Proof.
  intros HI. pose proof (is_version_len _ _ (ti_active _ HI)) as Hlen.
  destruct HI. unfold new. rewrite !db_get_spec.
  assert (Hrow : is_Some (db_view (tdb T) !! node_key (hash_node (Leaf LeafNode_default)))).
  { destruct ti_empty0 as [n Hn]. unfold db_node, empty_root_id in Hn.
    destruct (db_view (tdb T) !! _) eqn:E; [eauto|done]. }
  destruct Hrow as [b ->]. f_equal. unfold closed_state, set_current_block.
  rewrite ti_row_block0, ti_row_pinned0, ti_row_pin0. f_equal.
  - rewrite <- ti_row_root0 in Hlen |- *.
    destruct (db_view (tdb T) !! META_ACTIVE_ROOT) as [r|]; [|done]. cbn in Hlen.
    by rewrite read32_len.
  - destruct (active_block (state T)) as [x|]; [|done]. rewrite read32_len; [done|]. auto.
  - destruct (pinned_root (state T)) as [x|]; [|done]. rewrite read32_len; [done|].
    eapply is_version_len. eauto.
  - destruct (pin_until_height (state T)) as [x|]; [|done]. apply read_u32_be. auto.
Qed.

(** A database without tree rows. *)
Definition fresh_db (db : DB) : Prop :=
  forall k, starts_with k ROOT_PREFIX = true -> db_view db !! k = None.

Lemma node_key_internal id : starts_with (node_key id) ROOT_PREFIX = true. Proof. done. Qed.
Lemma block_root_internal id : starts_with (block_root_key id) ROOT_PREFIX = true. Proof. done. Qed.

Lemma new_inv db : fresh_db db -> tree_inv (new db).
Proof.
  intros Hf. pose proof (U_empty (U := U)) as HUe.
  assert (Hrow : forall k, starts_with k ROOT_PREFIX = true -> not_node_key k ->
    db_view (db_put db (node_key empty_root_id) (encode_node_page (Leaf LeafNode_default))) !! k = None).
  { intros k Hk Hn. rewrite db_put_spec, lookup_insert_ne by by apply node_key_not_meta. auto. }
  destruct (db_put_node U db (Leaf LeafNode_default) HUe) as (Hok & Hn & _ & _).
  { by apply Hf, node_key_internal. }
  { intros c Hc. by apply elem_of_nil in Hc. }
  { intros id b Hb. by rewrite Hf in Hb by apply node_key_internal. }
  unfold new. fold empty_root_id in *. rewrite db_get_spec, Hf by apply node_key_internal.
  rewrite !db_get_spec, !Hrow by done.
  assert (Hv : stored (denv (db_put db (node_key empty_root_id)
                (encode_node_page (Leaf LeafNode_default)))) empty_root_id empty_tree).
  { apply empty_is_version; eauto. }
  split; cbn [tdb state active_root_ pinned_root active_block pin_until_height current_block
              read32 read_u32 mbind option_bind default]; try rewrite Hrow by done; try done.
  - by exists empty_tree.
  - intros bh r. by rewrite Hrow by done.
  - intros k bh Hk. rewrite Hrow; [done| |by apply height_key_not_node].
    apply starts_with_iff in Hk as [x ->]. done.
Qed.

(** ** Beginning and finishing blocks *)

Lemma root_for_blockhash_version T bh r :
  tree_inv T -> root_for_blockhash T bh = Some r -> is_version (tdb T) r.
Proof.
  intros HI. assert (Hrow : read32 (db_get (tdb T) (block_root_key bh)) = Some r ->
                            is_version (tdb T) r).
  { rewrite db_get_spec. unfold read32. destruct (db_view (tdb T) !! _) as [b|] eqn:E; [|done].
    cbn [mbind option_bind]. destruct (length b =? 32); [|done]. intros [= <-].
    by eapply (ti_blocks _ HI). }
  unfold root_for_blockhash. destruct (current_block (state T)) as [ctx|] eqn:Ec; [|done].
  destruct (bytes_eqb (bc_block_hash ctx) bh); [|done]. intros [= <-].
  by apply (co_root _ _ (ti_current _ HI _ Ec)).
Qed.

(** Replacing the block in progress keeps the rest. *)
Lemma inv_set_block T cb :
  tree_inv T -> (forall ctx, cb = Some ctx -> ctx_ok (tdb T) ctx) ->
  tree_inv (mkTree (tdb T) (set_current_block (state T) cb)).
Proof. intros HI Hc. pose proof HI as HI'. destruct HI'. by apply (inv_step T); eauto. Qed.

(** The version a block on top of [parent] starts from. *)
Definition base_root (T : VersionedTreeDb DB) (parent : bytes) : option bytes :=
  match root_for_blockhash T parent with
  | Some root => Some root
  | None =>
      if bool_decide (active_block (state T) = None)
         && (bytes_eqb (active_root_ (state T)) empty_root_id || negb (has_committed_blocks T))
      then Some empty_root_id else None
  end.

Lemma begin_block_eq T h bh ph :
  begin_block T h bh ph =
    match base_root T ph with
    | None => inr (MissingParentRoot h ph)
    | Some root => inl (mkTree (tdb T)
        (set_current_block (state T) (Some (mkBlockContext h bh ph root))))
    end.
Proof. done. Qed.

Lemma base_root_version T ph r : tree_inv T -> base_root T ph = Some r -> is_version (tdb T) r.
Proof.
  intros HI. unfold base_root. destruct (root_for_blockhash T ph) eqn:E.
  - intros [= <-]. by eapply root_for_blockhash_version.
  - destruct (_ && _); [|done]. intros [= <-]. exists empty_tree.
    apply empty_is_version; [apply HI|apply (ti_empty _ HI)].
Qed.

Lemma begin_inv T h bh ph T' :
  tree_inv T -> in_u32 h -> length bh = 32 -> length ph = 32 ->
  begin_block T h bh ph = inl T' -> tree_inv T'.
Proof.
  intros HI Hh Hb Hp. rewrite begin_block_eq. destruct (base_root T ph) as [r|] eqn:E; [|done].
  intros [= <-]. apply inv_set_block; [done|]. intros ctx [= <-].
  split; cbn; [by eapply base_root_version|done|done|done].
Qed.

Lemma abort_inv T : tree_inv T -> tree_inv (abort_block T).
Proof. intros HI. by apply inv_set_block. Qed.

(** The rows of a finished block. *)
Definition block_rows (ctx : BlockContext) : WriteBatch :=
  [ BPut (block_root_key (bc_block_hash ctx)) (bc_working_root ctx);
    BPut (height_block_key (bc_height ctx)) (bc_block_hash ctx);
    BPut (block_height_key (bc_block_hash ctx)) (be_bytes 4 (bc_height ctx));
    BPut (block_parent_key (bc_block_hash ctx)) (bc_parent_hash ctx) ].

(** Whether a block of this height is kept out of the active root by a pin. *)
Definition held_by_pin (st : TreeState) (height : Z) : bool :=
  match pin_until_height st with Some u => (height <=? u)%Z | None => false end.

Definition finish_meta (st : TreeState) (ctx : BlockContext) : WriteBatch :=
  if held_by_pin st (bc_height ctx) then active_meta (active_root_ st) st
  else match pin_until_height st with
       | Some _ => [BDelete META_PIN_UNTIL_HEIGHT; BDelete META_PINNED_ROOT]
       | None => []
       end
       ++ [BPut META_ACTIVE_ROOT (bc_working_root ctx); BPut META_ACTIVE_BLOCK (bc_block_hash ctx)].

Definition finish_state (st : TreeState) (ctx : BlockContext) : TreeState :=
  if held_by_pin st (bc_height ctx) then set_current_block st None
  else mkTreeState (bc_working_root ctx) (Some (bc_block_hash ctx))
         (match pin_until_height st with Some _ => None | None => pinned_root st end) None None.

Lemma finish_block_eq T ctx :
  current_block (state T) = Some ctx ->
  finish_block T = mkTree (db_write (tdb T) (block_rows ctx ++ finish_meta (state T) ctx))
                     (finish_state (state T) ctx).
Proof.
  intros Ec. unfold finish_block, finish_meta, finish_state, held_by_pin. rewrite Ec.
  destruct (state T) as [ar ab pr [u|] cb]; cbn [pin_until_height]; [|done].
  by destruct (bc_height ctx <=? u)%Z.
Qed.

Lemma finish_meta_keys st ctx :
  Forall (fun op => op_key op ∈ META_KEYS) (finish_meta st ctx).
Proof.
  unfold META_KEYS, finish_meta, active_meta.
  destruct (held_by_pin _ _), (active_block st), (pin_until_height st);
    repeat constructor; cbn [op_key]; set_solver.
Qed.

Lemma finish_view_row T ctx k :
  current_block (state T) = Some ctx ->
  k ∉ META_KEYS ->
  db_view (tdb (finish_block T)) !! k = apply_ops (db_view (tdb T)) (block_rows ctx) !! k.
Proof.
  intros Ec Hk. rewrite (finish_block_eq _ _ Ec). cbn [tdb].
  rewrite db_write_spec, apply_ops_app. apply apply_ops_other.
  eapply Forall_impl; [apply finish_meta_keys|]. cbn. intros op Hop <-. done.
Qed.

(** The metadata rows are those of the new state. *)
Lemma finish_view_meta T ctx :
  tree_inv T -> current_block (state T) = Some ctx ->
  let v := db_view (tdb (finish_block T)) in
  let st := state (finish_block T) in
  default empty_root_id (v !! META_ACTIVE_ROOT) = active_root_ st
  /\ v !! META_ACTIVE_BLOCK = active_block st /\ v !! META_PINNED_ROOT = pinned_root st
  /\ v !! META_PIN_UNTIL_HEIGHT = be_bytes 4 <$> pin_until_height st.
Proof.
  intros HI Ec. rewrite (finish_block_eq _ _ Ec). cbn [tdb state]. rewrite db_write_spec.
  destruct HI. unfold block_rows, finish_meta, finish_state, active_meta.
  destruct (held_by_pin (state T) (bc_height ctx)).
  - destruct (active_block (state T)) as [b|] eqn:Eb; cbn [app apply_ops foldl apply_op];
      map_keys; cbn; rewrite ?Eb; split_all; try done; congruence.
  - destruct (pin_until_height (state T)) as [u|] eqn:Ep;
      cbn [app apply_ops foldl apply_op]; map_keys; cbn; split_all; try done.
Qed.

Lemma finish_batch_keys st ctx :
  Forall (fun op => not_node_key (op_key op)) (block_rows ctx ++ finish_meta st ctx).
Proof.
  apply Forall_app. split; [unfold block_rows; repeat constructor; cbn [op_key]; auto with keys|].
  eapply Forall_impl; [apply finish_meta_keys|]. intros op. unfold META_KEYS. rewrite !elem_of_cons.
  intros [->|[->|[->|[->|H]]]]; auto with keys. by apply elem_of_nil in H.
Qed.

Lemma finish_le T : db_le (tdb T) (tdb (finish_block T)).
Proof.
  destruct (current_block (state T)) as [ctx|] eqn:Ec.
  - rewrite (finish_block_eq _ _ Ec).
    apply (db_meta_write_ok U (tdb T) _ (finish_batch_keys (state T) ctx)).
  - unfold finish_block. by rewrite Ec.
Qed.

Lemma finish_inv T : tree_inv T -> tree_inv (finish_block T).
Proof.
  intros HI. destruct (current_block (state T)) as [ctx|] eqn:Ec.
  2: { unfold finish_block. by rewrite Ec. }
  pose proof (finish_view_meta T ctx HI Ec) as (M1 & M2 & M3 & M4). cbn zeta in *.
  pose proof (finish_le T) as Hle. pose proof HI as HI'. destruct HI'.
  destruct (ti_current0 _ Ec) as [Hv Hh Hp Hu].
  assert (Hok : db_ok (tdb (finish_block T))).
  { rewrite (finish_block_eq _ _ Ec).
    by apply (db_meta_write_ok U (tdb T) _ (finish_batch_keys (state T) ctx)). }
  assert (Hrow := finish_view_row T ctx). rewrite (finish_block_eq _ _ Ec) in *.
  apply (inv_step T); try done; cbn [tdb state] in *.
  - intros bh r. rewrite Hrow by auto with keys.
    destruct (decide (bh = bc_block_hash ctx)) as [->|Hne]; cbn [block_rows apply_ops foldl apply_op];
      map_keys; [intros [= <-]; right; by eapply is_version_mono|].
    rewrite lookup_insert_ne by (intros E%block_root_key_inj; done). eauto.
  - intros k bh Hk. assert (Hn : forall k', starts_with k' HEIGHT_BLOCK_PREFIX = false -> k' <> k).
    { intros k' H ->. congruence. }
    rewrite Hrow by auto with keys.
    cbn [block_rows apply_ops foldl apply_op]. rewrite !(lookup_insert_ne _ (block_parent_key _)), !(lookup_insert_ne _ (block_height_key _)) by by apply Hn.
    destruct (decide (height_block_key (bc_height ctx) = k)) as [<-|Hne].
    + map_keys. intros [= <-]. right. eauto.
    + rewrite lookup_insert_ne by done. rewrite lookup_insert_ne by by apply Hn. eauto.
  - unfold finish_state. destruct (held_by_pin _ _); by eapply is_version_mono.
  - intros r. unfold finish_state. destruct (held_by_pin _ _); cbn [pinned_root]; [eauto|].
    destruct (pin_until_height (state T)); [discriminate|eauto].
  - intros c. unfold finish_state. by destruct (held_by_pin _ _).
  - intros b. unfold finish_state. destruct (held_by_pin _ _); cbn [pinned_root pin_until_height active_block]; [eauto|naive_solver].
  - unfold finish_state. destruct (held_by_pin _ _); cbn [pinned_root pin_until_height active_block]; [done|].
    destruct (pin_until_height (state T)); [by split; intros [? ?]|]. done.
  - intros h. unfold finish_state. destruct (held_by_pin _ _); cbn [pinned_root pin_until_height active_block]; [eauto|done].
Qed.

(** ** Pinning *)

Lemma pin_inv T u : tree_inv T -> in_u32 u -> tree_inv (pin_active_root_until_height T u).
Proof.
  intros HI Hu. pose proof HI as HI'. destruct HI'. unfold pin_active_root_until_height.
  set (wb := [_; _]).
  assert (Hwb : Forall (fun op => not_node_key (op_key op)) wb) by by repeat constructor.
  assert (Hrow : forall k, k ∉ META_KEYS -> db_view (db_write (tdb T) wb) !! k = db_view (tdb T) !! k).
  { intros k Hk. rewrite db_write_spec. apply apply_ops_other.
    unfold META_KEYS in Hk. repeat constructor; cbn [op_key]; set_solver. }
  destruct (db_meta_write_ok U (tdb T) wb Hwb) as (Hok & Hle & _).
  apply (inv_step T); cbn [active_root_ pinned_root active_block current_block pin_until_height];
    try done; try (rewrite db_write_spec; unfold wb; cbn [apply_ops foldl apply_op]; map_keys; done).
  - by apply Hok.
  - intros bh r. rewrite Hrow by auto with keys. eauto.
  - intros k bh Hk. rewrite Hrow by auto with keys. eauto.
  - by eapply is_version_mono.
  - intros r [= <-]. right. by eapply is_version_mono.
  - intros c Hc. eapply ctx_ok_mono; eauto.
  - naive_solver.
Qed.

(** ** Rewinding *)

(** The rows a rewind removes: heights above the target. *)
Definition is_stale (target : option Z) (e : kv) : bool :=
  match decode_height_block_key e.1 with
  | None => false
  | Some h => match target with Some t => (t <? h)%Z | None => true end
  end.

Lemma stale_rows_eq rows target :
  let rs := filter (fun e => is_stale target e = true)
              (take_while (fun e : kv => starts_with e.1 HEIGHT_BLOCK_PREFIX) rows) in
  stale_rows rows target
  = (rs.*1, block_height_key <$> filter (fun v => length v = 32) rs.*2).
Proof.
  cbv zeta. induction rows as [|[k v] rows IH]; [done|]. cbn [stale_rows take_while fst].
  destruct (starts_with k HEIGHT_BLOCK_PREFIX) eqn:Ek; cbn [negb]; [|done].
  assert (E : forall r, match decode_height_block_key k with
    | None => stale_rows rows target
    | Some h => if match target with Some t => (t <? h)%Z | None => true end
                then r else stale_rows rows target
    end = if is_stale target (k, v) then r else stale_rows rows target).
  { intros r. unfold is_stale. cbn [fst]. by destruct (decode_height_block_key k). }
  rewrite E, IH. destruct (is_stale target (k, v)) eqn:Es.
  - rewrite filter_cons_True by done. cbn [fmap list_fmap fst snd]. rewrite filter_cons.
    by destruct (Nat.eqb_spec (length v) 32); [rewrite decide_True by done|rewrite decide_False by done].
  - by rewrite filter_cons_False by congruence.
Qed.

Lemma decode_height_key h : in_u32 h -> decode_height_block_key (height_block_key h) = Some h.
Proof.
  intros Hh. unfold decode_height_block_key, height_block_key.
  rewrite starts_with_app, length_app, length_be_bytes, Nat.eqb_refl. cbn [negb orb].
  by rewrite drop_app_length, from_be_u32.
Qed.

Definition rewind_batch (T : VersionedTreeDb DB) (target : option Z) (root : bytes)
    (block : option bytes) : WriteBatch :=
  let '(hs, bs) := stale_rows (db_iter_from (tdb T) HEIGHT_BLOCK_PREFIX) target in
  [BPut META_ACTIVE_ROOT root;
   match block with
   | Some block_hash => BPut META_ACTIVE_BLOCK block_hash
   | None => BDelete META_ACTIVE_BLOCK
   end;
   BDelete META_PINNED_ROOT; BDelete META_PIN_UNTIL_HEIGHT]
  ++ (BDelete <$> hs) ++ (BDelete <$> bs).

(** The height and block-height rows removed. *)
Definition stale_keys (T : VersionedTreeDb DB) (target : option Z) : list bytes :=
  let '(hs, bs) := stale_rows (db_iter_from (tdb T) HEIGHT_BLOCK_PREFIX) target in hs ++ bs.

Lemma stale_keys_elem T target k :
  k ∈ stale_keys T target <->
  (starts_with k HEIGHT_BLOCK_PREFIX = true
   /\ exists v, db_view (tdb T) !! k = Some v /\ is_stale target (k, v) = true)
  \/ (exists k' b, k = block_height_key b /\ starts_with k' HEIGHT_BLOCK_PREFIX = true
       /\ db_view (tdb T) !! k' = Some b /\ is_stale target (k', b) = true /\ length b = 32).
Proof.
  unfold stale_keys. rewrite stale_rows_eq, db_prefix_scan.
  set (rs := filter _ (filter _ _)).
  assert (Hrs : forall k v, (k, v) ∈ rs <-> is_stale target (k, v) = true
            /\ starts_with k HEIGHT_BLOCK_PREFIX = true /\ db_view (tdb T) !! k = Some v).
  { intros x v. unfold rs. by rewrite !list_elem_of_filter, map_entries_elem. }
  rewrite elem_of_app, !list_elem_of_fmap. split.
  - intros [([x v] & -> & (H1 & H2 & H3)%Hrs)|(b & -> & Hb)]; [left; eauto|right].
    apply list_elem_of_filter in Hb as [Hb ([x v] & -> & (H1 & H2 & H3)%Hrs)%list_elem_of_fmap]. eauto 10.
  - intros [[H1 (v & H2 & H3)]|(x & b & -> & H1 & H2 & H3 & H4)]; [left|right].
    + exists (k, v). split; [done|]. by apply Hrs.
    + exists b. split; [done|]. apply list_elem_of_filter. split; [done|].
      apply list_elem_of_fmap. exists (x, b). split; [done|]. by apply Hrs.
Qed.

Lemma stale_keys_not_node T target : Forall not_node_key (stale_keys T target).
Proof.
  apply Forall_forall. intros k [[H _]|(x & b & -> & _)]%stale_keys_elem; auto with keys.
  by apply height_key_not_node.
Qed.

Lemma rewind_batch_eq T target root block :
  rewind_batch T target root block =
  [BPut META_ACTIVE_ROOT root;
   match block with
   | Some block_hash => BPut META_ACTIVE_BLOCK block_hash
   | None => BDelete META_ACTIVE_BLOCK
   end;
   BDelete META_PINNED_ROOT; BDelete META_PIN_UNTIL_HEIGHT] ++ (BDelete <$> stale_keys T target).
Proof.
  unfold rewind_batch, stale_keys. destruct (stale_rows _ target) as [hs bs].
  by rewrite fmap_app.
Qed.

(** What a rewind goes back to. *)
Definition rewind_target (T : VersionedTreeDb DB) (target : option Z)
    : (bytes * option bytes) + TreeError :=
  match target with
  | Some height =>
      match blockhash_for_height T height with
      | None => inr (MissingBlockHash height)
      | Some block_hash =>
          match root_for_blockhash T block_hash with
          | None => inr (MissingRoot height block_hash)
          | Some root => inl (root, Some block_hash)
          end
      end
  | None => inl (empty_root_id, None)
  end.

Lemma rewind_eq T target :
  rewind_to_height T target =
    match rewind_target T target with
    | inr e => inr e
    | inl (root, block) =>
        inl (mkTree (db_write (tdb T) (rewind_batch T target root block))
               (mkTreeState root block None None None))
    end.
Proof.
  unfold rewind_to_height, rewind_target, rewind_batch.
  destruct (match target with Some _ => _ | None => _ end) as [[root block]|e]; [|done].
  by destruct (stale_rows _ target).
Qed.

Lemma rewind_view T target root block k :
  db_view (db_write (tdb T) (rewind_batch T target root block)) !! k
  = if decide (k ∈ stale_keys T target) then None
    else if decide (k = META_ACTIVE_ROOT) then Some root
    else if decide (k = META_ACTIVE_BLOCK) then block
    else if decide (k = META_PINNED_ROOT) then None
    else if decide (k = META_PIN_UNTIL_HEIGHT) then None
    else db_view (tdb T) !! k.
Proof.
  rewrite db_write_spec, rewind_batch_eq, apply_ops_app, apply_deletes. case_decide; [done|].
  repeat case_decide; subst; destruct block; cbn [apply_ops foldl apply_op]; map_keys; done.
Qed.

Lemma meta_not_stale T target k : k ∈ META_KEYS -> k ∉ stale_keys T target.
Proof.
  intros Hk [[H _]|(x & b & -> & _)]%stale_keys_elem.
  - by apply height_prefix_not_meta in H.
  - by apply block_height_not_meta in Hk.
Qed.

Lemma rewind_meta T target root block :
  let v := db_view (db_write (tdb T) (rewind_batch T target root block)) in
  v !! META_ACTIVE_ROOT = Some root /\ v !! META_ACTIVE_BLOCK = block
  /\ v !! META_PINNED_ROOT = None /\ v !! META_PIN_UNTIL_HEIGHT = None.
Proof.
  cbv zeta. rewrite !rewind_view.
  rewrite !(decide_False (P := _ ∈ stale_keys T target))
    by (apply meta_not_stale; unfold META_KEYS; set_solver).
  split_all; repeat (first [rewrite decide_True by done|rewrite decide_False by key_ne]); done.
Qed.

(** A row that is neither metadata nor removed. *)
Lemma rewind_row T target root block k :
  k ∉ META_KEYS ->
  db_view (db_write (tdb T) (rewind_batch T target root block)) !! k
  = if decide (k ∈ stale_keys T target) then None else db_view (tdb T) !! k.
Proof.
  intros Hk. rewrite rewind_view. case_decide; [done|]. unfold META_KEYS in Hk.
  repeat rewrite decide_False by set_solver. done.
Qed.

Lemma rewind_batch_keys T target root block :
  Forall (fun op => not_node_key (op_key op)) (rewind_batch T target root block).
Proof.
  rewrite rewind_batch_eq. apply Forall_app. split.
  - destruct block; repeat constructor.
  - apply Forall_fmap. eapply Forall_impl; [apply stale_keys_not_node|]. done.
Qed.

Lemma rewind_target_ok T target root block :
  tree_inv T -> rewind_target T target = inl (root, block) ->
  is_version (tdb T) root /\ forall b, block = Some b -> length b = 32.
Proof.
  intros HI. unfold rewind_target. destruct target as [h|].
  - destruct (blockhash_for_height T h) as [bh|] eqn:Eb; [|done].
    destruct (root_for_blockhash T bh) as [r|] eqn:Er; [|done]. intros [= <- <-].
    split; [by eapply root_for_blockhash_version|]. intros b [= <-].
    unfold blockhash_for_height, read32 in Eb. destruct (db_get _ _) as [x|]; [|done].
    cbn [mbind option_bind] in Eb. destruct (Nat.eqb_spec (length x) 32); by simplify_eq.
  - intros [= <- <-]. split; [|done]. exists empty_tree.
    apply empty_is_version; [apply HI|apply (ti_empty _ HI)].
Qed.

Lemma rewind_inv T target T' :
  tree_inv T -> rewind_to_height T target = inl T' ->
  tree_inv T' /\ db_le (tdb T) (tdb T').
Proof.
  intros HI. rewrite rewind_eq. destruct (rewind_target T target) as [[root block]|] eqn:Et; [|done].
  intros [= <-]. destruct (rewind_target_ok _ _ _ _ HI Et) as [Hv Hl].
  destruct (db_meta_write_ok U (tdb T) _ (rewind_batch_keys T target root block)) as (Hok & Hle & _).
  destruct (rewind_meta T target root block) as (M1 & M2 & M3 & M4). cbv zeta in *.
  split; [|done]. pose proof HI as HI'. destruct HI'.
  apply (inv_step T); cbn [active_root_ pinned_root active_block current_block pin_until_height];
    try done.
  - by apply Hok.
  - intros bh r. rewrite rewind_row by auto with keys. case_decide; [done|eauto].
  - intros k bh Hk. rewrite rewind_row by auto with keys. case_decide; [done|eauto].
  - by eapply is_version_mono.
  - by rewrite M1.
Qed.

(** ** Runs *)

(** One call on the tree, with arguments as the indexer supplies them. *)
Inductive tree_step (T : VersionedTreeDb DB) : VersionedTreeDb DB -> Prop :=
| step_begin h bh ph T' :
    in_u32 h -> length bh = 32 -> length ph = 32 ->
    begin_block T h bh ph = inl T' -> tree_step T T'
| step_abort : tree_step T (abort_block T)
| step_finish : tree_step T (finish_block T)
| step_rewind target T' : rewind_to_height T target = inl T' -> tree_step T T'
| step_pin u : in_u32 u -> tree_step T (pin_active_root_until_height T u)
| step_batch fuel changes V T' :
    stored (denv (tdb T)) (write_root T) V -> ht V + length changes < fuel ->
    Forall U (batch_built V (canonicalize changes)) ->
    apply_batch_owned fuel T changes = Some T' -> tree_step T T'
| step_mutation fuel key value V T' :
    stored (denv (tdb T)) (write_root T) V -> ht V < fuel ->
    Forall U (apply_built V key value) ->
    apply_mutation fuel T key value = Some T' -> tree_step T T'
| step_restart : tree_step T (new (tdb T)).

Abbreviation tree_run := (rtc tree_step).

Lemma pin_le T u : db_le (tdb T) (tdb (pin_active_root_until_height T u)).
Proof.
  apply (db_meta_write_ok U (tdb T)). by repeat constructor.
Qed.

Lemma step_inv T T' : tree_inv T -> tree_step T T' -> tree_inv T' /\ db_le (tdb T) (tdb T').
Proof.
  intros HI [h bh ph T1 Hh Hb Hp He| | |target T1 He|u Hu|fuel cs V T1 Hst Hf HB He
            |fuel k v V T1 Hst Hf HB He|].
  - split; [by apply (begin_inv T h bh ph)|]. rewrite begin_block_eq in He.
    destruct (base_root T ph); by simplify_eq.
  - split; [by apply abort_inv|done].
  - split; [by apply finish_inv|apply finish_le].
  - by eapply rewind_inv.
  - split; [by apply pin_inv|apply pin_le].
  - destruct (decide (cs = [])) as [->|Hne].
    { cbn in He. by simplify_eq. }
    destruct (apply_batch_result fuel T V cs HI Hst Hf HB Hne) as (T2 & He2 & Hw & _).
    rewrite He in He2. injection He2 as ->. by destruct Hw.
  - destruct (apply_mutation_result fuel T V k v HI Hst Hf HB) as (T2 & He2 & Hw & _).
    rewrite He in He2. injection He2 as ->. by destruct Hw.
  - rewrite new_recovers by done. split; [by apply inv_set_block|done].
Qed.

Lemma run_inv T T' : tree_inv T -> tree_run T T' -> tree_inv T' /\ db_le (tdb T) (tdb T').
Proof.
  intros HI Hr. induction Hr as [T|T T1 T2 Hs Hr IH]; [done|].
  destruct (step_inv T T1 HI Hs) as [HI1 Hle1]. destruct (IH HI1) as [? Hle2].
  split; [done|]. by transitivity (tdb T1).
Qed.

End Blocks.
