(* ===== verification/TreeHeights.v ===== *)
(** * Height rows and ancestry

    What the bookkeeping rows say: the indexed height range, the heights left by a
    rewind, and the ancestry test along parent rows. *)
From S2P Require Import Prelude Bytes Rocks TreeNode TreeDb BTree TreeRefine TreeBatch.
From S2P Require Import TreeBlocks.

Open Scope nat_scope.

Section Heights.
Context {DB : Type} {rocks : RocksDB DB} {laws : RocksLaws DB}.
Context {codec : NodeCodec} (U : BptreeNode -> Prop) {HU : CodecLaws U}.

Abbreviation tree_inv := (tree_inv U).

(** A height has a committed block. *)
Definition indexed (T : VersionedTreeDb DB) (h : Z) : Prop :=
  in_u32 h /\ is_Some (db_view (tdb T) !! height_block_key h).

(** The height rows, in key order. *)
Definition height_rows (T : VersionedTreeDb DB) : list kv :=
  filter (fun e : kv => starts_with e.1 HEIGHT_BLOCK_PREFIX = true) (map_entries (db_view (tdb T))).

Lemma starts_height h : starts_with (height_block_key h) HEIGHT_BLOCK_PREFIX = true.
Proof. apply starts_with_app. Qed.

Lemma height_rows_decode T k v :
  tree_inv T -> (k, v) ∈ height_rows T ->
  exists h, in_u32 h /\ k = height_block_key h /\ decode_height_block_key k = Some h
    /\ indexed T h.
Proof.
  intros HI [Hk Hin%map_entries_elem]%list_elem_of_filter. cbn in Hk.
  destruct (ti_heights _ _ HI k v Hk Hin) as (_ & h & Hh & ->). exists h.
  split_all; [done|done|by apply decode_height_key|]. split; eauto.
Qed.

Lemma indexed_row T h : indexed T h -> exists v, (height_block_key h, v) ∈ height_rows T.
Proof.
  intros [_ [v Hv]]. exists v. apply list_elem_of_filter. split; [apply starts_with_app|].
  by apply map_entries_elem.
Qed.

Lemma height_rows_sorted T : sorted_entries (height_rows T).
Proof. apply sorted_entries_filter, map_entries_sorted. Qed.

(** Key order is height order. *)
Lemma height_key_lt a b :
  in_u32 a -> in_u32 b -> height_block_key a <b height_block_key b <-> (a < b)%Z.
Proof. intros Ha Hb. unfold height_block_key. rewrite blt_app. by apply be_bytes_u32_lt. Qed.

Lemma height_key_le a b :
  in_u32 a -> in_u32 b -> height_block_key a <=b height_block_key b -> (a <= b)%Z.
Proof.
  intros Ha Hb [Hlt|Heq]%ble_lteq; [apply height_key_lt in Hlt; [lia|done|done]|].
  apply height_block_key_inj in Heq; [lia|done|done].
Qed.

Lemma sorted_head_le l e x : sorted_entries (e :: l) -> x ∈ e :: l -> e.1 <=b x.1.
Proof.
  intros [_ Hall]%StronglySorted_inv [->|Hx]%elem_of_cons; [apply ble_refl|].
  rewrite Forall_forall in Hall. by apply blt_ble, Hall.
Qed.

Lemma sorted_last_le l e x : sorted_entries (l ++ [e]) -> x ∈ l ++ [e] -> x.1 <=b e.1.
Proof.
  intros (Hlt & _ & _)%StronglySorted_app [Hx|Hx]%elem_of_app.
  - apply blt_ble. apply (Hlt x e Hx). set_solver.
  - apply list_elem_of_singleton in Hx as ->. apply ble_refl.
Qed.

(** The forward walk reads the first height row. *)
Lemma first_height_rows rows :
  first_indexed_height rows
  = first_indexed_height (take_while (fun e : kv => starts_with e.1 HEIGHT_BLOCK_PREFIX) rows).
Proof.
  induction rows as [|[k v] rows IH]; [done|]. cbn [first_indexed_height take_while fst].
  destruct (starts_with k HEIGHT_BLOCK_PREFIX) eqn:E; cbn [negb]; [|done].
  cbn [first_indexed_height]. rewrite E. cbn [negb]. by destruct (decode_height_block_key k).
Qed.

(** The reverse walk skips what lies above the prefix. *)
Lemma last_height_rows rows d :
  (forall k v, (k, v) ∈ rows -> starts_with k HEIGHT_BLOCK_PREFIX = true ->
     is_Some (decode_height_block_key k)) ->
  last_indexed_height rows d
  = match take_while (fun e : kv => negb (bytes_ltb e.1 HEIGHT_BLOCK_PREFIX)) rows with
    | rs => match filter (fun e : kv => starts_with e.1 HEIGHT_BLOCK_PREFIX = true) rs with
            | [] => d
            | e :: _ => default d (decode_height_block_key e.1)
            end
    end.
Proof.
  induction rows as [|[k v] rows IH]; intros Hd; [done|].
  specialize (IH (fun k' v' Hin => Hd k' v' (list_elem_of_further _ _ _ Hin))).
  cbn [last_indexed_height take_while fst].
  destruct (starts_with k HEIGHT_BLOCK_PREFIX) eqn:E; cbn [negb].
  - assert (bytes_ltb k HEIGHT_BLOCK_PREFIX = false) as ->.
    { apply prefix_range in E as [E _]. done. }
    cbn [negb]. rewrite filter_cons_True by done. cbn [fst].
    destruct (Hd k v) as [h ->]; [set_solver|done|done].
  - destruct (bytes_ltb k HEIGHT_BLOCK_PREFIX); cbn [negb]; [done|].
    rewrite filter_cons_False by (cbn [fst]; congruence). exact IH.
Qed.

Lemma bounds_first T :
  tree_inv T ->
  first_indexed_height (db_iter_from (tdb T) HEIGHT_BLOCK_PREFIX)
  = head (height_rows T) ≫= fun e => decode_height_block_key e.1.
Proof.
  intros HI. rewrite first_height_rows, db_prefix_scan. fold (height_rows T).
  destruct (height_rows T) as [|[k v] rs] eqn:E; [done|].
  destruct (height_rows_decode T k v HI) as (h & _ & -> & Hd & _); [rewrite E; set_solver|].
  cbn [first_indexed_height]. rewrite starts_height. cbn [negb head mbind option_bind fst].
  by rewrite Hd.
Qed.

Lemma bounds_last T e d :
  tree_inv T -> prefix_end_exclusive HEIGHT_BLOCK_PREFIX = Some e ->
  last_indexed_height (db_iter_from_rev (tdb T) e) d
  = default d (last (height_rows T) ≫= fun r => decode_height_block_key r.1).
Proof.
  intros HI He. rewrite db_iter_from_rev_spec, last_height_rows.
  2: { intros k v Hin Hk. apply elem_of_reverse, list_elem_of_filter in Hin as [_ Hin].
       destruct (height_rows_decode T k v HI) as (h & _ & _ & -> & _); [|eauto].
       by apply list_elem_of_filter. }
  rewrite take_while_filter.
  2: { apply (sorted_weaken (fun a b : kv => key_lt b a)).
       - unfold key_lt. intros a b _ _ Hlt. rewrite !negb_false_iff. intros H.
         change (b.1 <b HEIGHT_BLOCK_PREFIX). change (a.1 <b HEIGHT_BLOCK_PREFIX) in H. border.
       - assert (Hr : forall l, sorted_entries l -> StronglySorted (fun a b => key_lt b a) (reverse l)).
         { induction 1 as [|x l Hs IH Hall]; [constructor|]. rewrite reverse_cons.
           apply StronglySorted_app_2; [|done|by repeat constructor].
           intros a b Ha ->%list_elem_of_singleton. rewrite Forall_forall in Hall.
           by apply Hall, elem_of_reverse. }
         apply Hr, sorted_entries_filter, map_entries_sorted. }
  rewrite !filter_reverse, !list_filter_filter_l.
  2: { intros a [_ Ha]%prefix_range. rewrite He in Ha. by apply blt_ble. }
  2: { intros a [Ha _]%prefix_range. by rewrite negb_true_iff. }
  fold (height_rows T). destruct (height_rows T) as [|r rs] using rev_ind; [done|].
  by rewrite reverse_snoc, last_snoc.
Qed.

(** [indexed_height_bounds]: the least and the greatest indexed height. *)
Lemma bounds_spec T :
  tree_inv T ->
  match indexed_height_bounds T with
  | None => forall h, ~ indexed T h
  | Some (lo, hi) => indexed T lo /\ indexed T hi /\ forall h, indexed T h -> (lo <= h <= hi)%Z
  end.
Proof.
  intros HI. unfold indexed_height_bounds. rewrite bounds_first by done.
  destruct (prefix_end_exclusive HEIGHT_BLOCK_PREFIX) as [e|] eqn:He; [|by vm_compute in He].
  pose proof (height_rows_sorted T) as Hs.
  destruct (height_rows T) as [|[k v] rs] eqn:Er; cbn [head mbind option_bind].
  { intros h (w & Hw)%indexed_row. rewrite Er in Hw. by apply elem_of_nil in Hw. }
  destruct (height_rows_decode T k v HI) as (lo & Hlo & -> & Hd & Hilo); [rewrite Er; set_solver|].
  cbn [fst]. rewrite Hd. rewrite (bounds_last T e lo HI He), Er.
  destruct (last ((height_block_key lo, v) :: rs)) as [[k' v']|] eqn:El; [|by destruct rs using rev_ind; rewrite ?app_comm_cons, ?last_snoc in El].
  destruct (height_rows_decode T k' v' HI) as (hi & Hhi & -> & Hd' & Hihi).
  { rewrite Er. apply last_Some in El as [l' El]. rewrite El. set_solver. }
  cbn [mbind option_bind fst default]. rewrite Hd'. cbn. split_all; [done|done|].
  intros h Hh. destruct (indexed_row _ _ Hh) as [w Hw]. rewrite Er in Hw. destruct Hh as [Hu _].
  split.
  - apply height_key_le; [done|done|]. apply (sorted_head_le _ _ _ Hs Hw).
  - apply last_Some in El as [l' El]. rewrite El in Hs, Hw.
    apply height_key_le; [done|done|]. apply (sorted_last_le _ _ _ Hs Hw).
Qed.

(** ** After a rewind *)

(** Heights a rewind to [target] drops. *)
Definition above (target : option Z) (h : Z) : bool :=
  match target with Some t => (t <? h)%Z | None => true end.

Lemma stale_height_iff T target h :
  in_u32 h ->
  height_block_key h ∈ stale_keys T target
  <-> is_Some (db_view (tdb T) !! height_block_key h) /\ above target h = true.
Proof.
  intros Hh. rewrite stale_keys_elem. unfold is_stale. cbn [fst].
  rewrite decode_height_key by done. split.
  - intros [[_ (v & Hv & Ha)]|(k & b & E & _)]; [eauto|].
    exfalso. revert E. key_ne.
  - intros [[v Hv] Ha]. left. split; [apply starts_height|eauto].
Qed.

Lemma rewind_heights T target T' h :
  rewind_to_height T target = inl T' -> in_u32 h ->
  blockhash_for_height T' h = if above target h then None else blockhash_for_height T h.
Proof.
  intros He Hh. rewrite rewind_eq in He.
  destruct (rewind_target T target) as [[root block]|]; [|done]. injection He as <-.
  unfold blockhash_for_height. cbn [tdb]. rewrite !db_get_spec, (rewind_row U) by auto with keys.
  pose proof (stale_height_iff T target h Hh) as Hiff. case_decide as Hd.
  - apply Hiff in Hd as [_ ->]. done.
  - destruct (above target h); [|done].
    destruct (db_view (tdb T) !! height_block_key h) eqn:E; [|done]. exfalso. apply Hd, Hiff. eauto.
Qed.

(** Committed block roots and parents outlive a rewind. *)
Lemma rewind_keeps_rows T target T' b :
  rewind_to_height T target = inl T' ->
  db_view (tdb T') !! block_root_key b = db_view (tdb T) !! block_root_key b
  /\ db_view (tdb T') !! block_parent_key b = db_view (tdb T) !! block_parent_key b.
Proof.
  intros He. rewrite rewind_eq in He.
  destruct (rewind_target T target) as [[root block]|]; [|done]. injection He as <-. cbn [tdb].
  rewrite !(rewind_row U) by auto with keys.
  rewrite !decide_False; [done| |];
    (intros [[H _]|(x & c & E & _)]%stale_keys_elem; [done|revert E; key_ne]).
Qed.

(** ** After a commit *)

Lemma finish_row T ctx k v :
  current_block (state T) = Some ctx -> k ∉ META_KEYS ->
  apply_ops (db_view (tdb T)) (block_rows ctx) !! k = Some v ->
  db_get (tdb (finish_block T)) k = Some v.
Proof. intros Ec Hk Hv. by rewrite db_get_spec, (finish_view_row T ctx). Qed.

(** The committed block can be found by hash and by height. *)
Lemma finish_result T ctx :
  tree_inv T -> current_block (state T) = Some ctx ->
  let T' := finish_block T in
  root_for_blockhash T' (bc_block_hash ctx) = Some (bc_working_root ctx)
  /\ blockhash_for_height T' (bc_height ctx) = Some (bc_block_hash ctx)
  /\ height_for_blockhash T' (bc_block_hash ctx) = Some (bc_height ctx)
  /\ parent_for_blockhash T' (bc_block_hash ctx) = Some (bc_parent_hash ctx)
  /\ current_block (state T') = None
  /\ active_root T' = (if held_by_pin (state T) (bc_height ctx) then active_root T
                       else bc_working_root ctx).
Proof.
  intros HI Ec T'. destruct (ti_current _ _ HI _ Ec) as [Hv Hh Hp Hu].
  pose proof (is_version_len U _ _ Hv) as Hr.
  assert (Hst : state T' = finish_state (state T) ctx) by (unfold T'; by rewrite (finish_block_eq _ _ Ec)).
  assert (Hc : current_block (state T') = None).
  { rewrite Hst. unfold finish_state. by destruct (held_by_pin _ _). }
  unfold root_for_blockhash, blockhash_for_height, height_for_blockhash, parent_for_blockhash.
  rewrite Hc. unfold T' at 1 2 3 4.
  rewrite (finish_row T ctx (block_root_key (bc_block_hash ctx)) (bc_working_root ctx)),
    (finish_row T ctx (height_block_key (bc_height ctx)) (bc_block_hash ctx)),
    (finish_row T ctx (block_height_key (bc_block_hash ctx)) (be_bytes 4 (bc_height ctx))),
    (finish_row T ctx (block_parent_key (bc_block_hash ctx)) (bc_parent_hash ctx));
    try done; try (by auto with keys);
    try (cbn [block_rows apply_ops foldl apply_op]; map_keys; done).
  rewrite !read32_len, read_u32_be by done. split_all; try done.
  unfold active_root. rewrite Hst. unfold finish_state.
  pose proof (ti_pin_pair _ _ HI) as Hpp. unfold held_by_pin.
  destruct (pin_until_height (state T)) as [u|] eqn:Eu; [by destruct (_ <=? u)%Z|]. cbn.
  destruct (pinned_root (state T)); [|done]. exfalso.
  destruct (proj1 Hpp ltac:(eauto)) as [? ?]. done.
Qed.

(** ** Ancestry *)

Definition parent_step (T : VersionedTreeDb DB) (d p : bytes) : Prop :=
  parent_for_blockhash T d = Some p.

Lemma ancestor_walk_spec T n d x :
  ancestor_walk T n d = Some x <-> nsteps (parent_step T) n d x.
Proof.
  revert d; induction n as [|n IH]; intros d; cbn [ancestor_walk].
  - split; [intros [= ->]; constructor|by inversion 1].
  - split.
    + destruct (parent_for_blockhash T d) as [p|] eqn:E; [|done].
      intros H%IH. by econstructor.
    + inversion 1 as [|? ? p ? Hp Hn]; subst. unfold parent_step in Hp. rewrite Hp. by apply IH.
Qed.

Lemma is_ancestor_spec T a d ha hd :
  height_for_blockhash T a = Some ha -> height_for_blockhash T d = Some hd ->
  is_ancestor T a d = true
  <-> exists n, (hd = ha + Z.of_nat n)%Z /\ nsteps (parent_step T) n d a.
Proof.
  intros Ha Hd. unfold is_ancestor. rewrite Ha, Hd. destruct (Z.ltb_spec hd ha).
  { split; [done|]. intros (n & -> & _). lia. }
  split.
  - destruct (ancestor_walk T _ d) as [x|] eqn:E; [|done]. unfold bytes_eqb.
    intros ->%bool_decide_eq_true. eexists. split; [|by apply ancestor_walk_spec]. lia.
  - intros (n & -> & Hn). replace (Z.to_nat (ha + Z.of_nat n - ha)) with n by lia.
    apply ancestor_walk_spec in Hn. rewrite Hn. by apply bool_decide_eq_true.
Qed.

End Heights.
