(* ===== verification/Demo.v ===== *)
(** * A concrete instance

    A finite table of nodes gives a codec for which [CodecLaws] holds: a node is
    encoded as its index in the table.  Together with [gmap_rocks] it
    instantiates every interface of the tree, so that the theorems can be
    applied to concrete databases. *)
From Stdlib Require Import Strings.Byte.
From stdpp Require Import strings.
From S2P Require Import Prelude Bytes Rocks TreeNode TreeDb BTree TreeRefine TreeBatch.
From S2P Require Import TreeBlocks TreeHeights.

Open Scope nat_scope.

Definition node_index (ns : list BptreeNode) (n : BptreeNode) : nat :=
  match list_find (fun m => n = m) ns with Some (i, _) => i | None => length ns end.

(** Index [i] as 32 bytes. *)
Definition table_codec (ns : list BptreeNode) : NodeCodec := {|
  sha256 b := if length b =? 32 then b else replicate 32 x00;
  borsh_to_vec n := z2b (Z.of_nat (node_index ns n)) :: replicate 31 x00;
  borsh_try_from_slice b := match b with x :: _ => ns !! Z.to_nat (b2z x) | [] => None end;
|}.

Lemma node_index_lookup ns n : n ∈ ns -> ns !! node_index ns n = Some n.
Proof.
  intros Hin. unfold node_index. destruct (list_find (fun m => n = m) ns) as [[i m]|] eqn:E.
  - apply list_find_Some in E as (Hi & -> & _). done.
  - apply list_find_None in E. rewrite Forall_forall in E. by destruct (E n Hin).
Qed.

Lemma node_index_lt ns n : n ∈ ns -> node_index ns n < length ns.
Proof. intros H. by eapply lookup_lt_Some, node_index_lookup. Qed.

Lemma table_laws ns :
  length ns <= 256 -> Leaf LeafNode_default ∈ ns ->
  @CodecLaws (table_codec ns) (fun n => n ∈ ns).
Proof.
  intros Hlen He. assert (Hb : forall n, n ∈ ns ->
    Z.to_nat (b2z (z2b (Z.of_nat (node_index ns n)))) = node_index ns n).
  { intros n Hn. pose proof (node_index_lt ns n Hn). rewrite b2z_z2b, Z.mod_small; lia. }
  split.
  - intros b. cbn. destruct (Nat.eqb_spec (length b) 32); [done|]. done.
  - intros n Hn. cbn. rewrite Hb by done. by apply node_index_lookup.
  - intros a b Ha Hb'. unfold hash_node. cbn. intros [= E].
    assert (E' : node_index ns a = node_index ns b) by (rewrite <- (Hb a), <- (Hb b) by done; by rewrite E).
    pose proof (node_index_lookup ns a Ha) as La. rewrite E', node_index_lookup in La by done.
    by injection La.
  - done.
Qed.

(** The run used as an example: one key written to an empty tree. *)
Definition demo_key : bytes := bstr "essentials:k".
Definition demo_value : bytes := bstr "v".
Definition demo_leaf : BptreeNode := Leaf (mkLeafNode [mkLeafEntry demo_key (Some demo_value)] None).
Definition demo_nodes : list BptreeNode := [Leaf LeafNode_default; demo_leaf].

#[global] Instance demo_codec : NodeCodec := table_codec demo_nodes.

Definition demo_U (n : BptreeNode) : Prop := n ∈ demo_nodes.

#[global] Instance demo_laws : CodecLaws demo_U.
Proof. apply table_laws; [cbn; lia|set_solver]. Qed.

Abbreviation DemoDB := (gmap bytes bytes).

Definition demo_T0 : VersionedTreeDb DemoDB := new (∅ : DemoDB).

Lemma demo_inv0 : tree_inv demo_U demo_T0.
Proof. apply new_inv; [apply _|]. by intros k _. Qed.

Lemma demo_stored0 : stored (denv (tdb demo_T0)) (write_root demo_T0) empty_tree.
Proof. apply (empty_is_version demo_U); [apply demo_inv0|apply (ti_empty _ _ demo_inv0)]. Qed.

Lemma demo_stored_active0 : stored (denv (tdb demo_T0)) (active_root demo_T0) empty_tree.
Proof. exact demo_stored0. Qed.

(** The tree after writing the key. *)
Definition demo_T1 : VersionedTreeDb DemoDB :=
  default demo_T0 (put 3 demo_T0 demo_key demo_value).

Definition demo_V1 : Tree := apply_tree empty_tree demo_key (Some demo_value).

Lemma demo_built1 : Forall demo_U (apply_built empty_tree demo_key (Some demo_value)).
Proof. vm_compute. repeat constructor. Qed.

Lemma demo_put : exists T', put 3 demo_T0 demo_key demo_value = Some T'
  /\ write_result demo_U demo_T0 T' empty_tree demo_V1
  /\ contents demo_V1 = {[demo_key := demo_value]}.
Proof.
  destruct (apply_mutation_result demo_U 3 demo_T0 empty_tree demo_key (Some demo_value)
              demo_inv0 demo_stored0 ltac:(cbn; lia) demo_built1) as (T' & He & Hw & Hc).
  exists T'. split_all; [exact He|exact Hw|]. unfold demo_V1. rewrite Hc. done.
Qed.

Lemma demo_result1 : write_result demo_U demo_T0 demo_T1 empty_tree demo_V1.
Proof.
  destruct demo_put as (T' & He & Hw & _). unfold demo_T1. by rewrite He.
Qed.

Lemma demo_inv1 : tree_inv demo_U demo_T1.
Proof. apply demo_result1. Qed.

Lemma demo_stored1 : stored (denv (tdb demo_T1)) (active_root demo_T1) demo_V1.
Proof. exact (wr_stored _ _ _ _ _ demo_result1). Qed.

Lemma demo_contents1 : contents demo_V1 = {[demo_key := demo_value]}.
Proof. by destruct demo_put as (_ & _ & _ & Hc). Qed.

Definition demo_hash (i : Z) : bytes := be_bytes 32 i.

(** The state after beginning block 5. *)
Definition demo_ctx : BlockContext := mkBlockContext 5 (demo_hash 7) (demo_hash 6) empty_root_id.

Definition demo_begun : VersionedTreeDb DemoDB :=
  mkTree (tdb demo_T0) (set_current_block (state demo_T0) (Some demo_ctx)).

Lemma demo_base : base_root demo_T0 (demo_hash 6) = Some empty_root_id.
Proof. vm_compute. reflexivity. Qed.

Lemma demo_begin_eq : begin_block demo_T0 5 (demo_hash 7) (demo_hash 6) = inl demo_begun.
Proof. by rewrite begin_block_eq, demo_base. Qed.

Lemma demo_begun_inv : tree_inv demo_U demo_begun.
Proof.
  apply (begin_inv demo_U demo_T0 5 (demo_hash 7) (demo_hash 6));
    [exact demo_inv0|split; lia|done|done|exact demo_begin_eq].
Qed.

(** The tree after committing the empty block 5. *)
Definition demo_T5 : VersionedTreeDb DemoDB := finish_block demo_begun.

Lemma demo_inv5 : tree_inv demo_U demo_T5.
Proof. exact (finish_inv demo_U _ demo_begun_inv). Qed.

Lemma demo_root5 : root_for_blockhash demo_T5 (demo_hash 7) = Some empty_root_id.
Proof. by apply (finish_result demo_U demo_begun demo_ctx demo_begun_inv). Qed.

Lemma demo_stored5 : stored (denv (tdb demo_T5)) empty_root_id empty_tree.
Proof. apply (empty_is_version demo_U); [apply demo_inv5|apply (ti_empty _ _ demo_inv5)]. Qed.
