(* ===== verification/TreeClaims.v ===== *)
(** * The versioned tree: the properties

    The theorems of the tree component, each with an application to a concrete
    database where it has hypotheses. *)
From stdpp Require Import strings.
From S2P Require Import Prelude Bytes Rocks TreeNode TreeDb BTree TreeRefine TreeBatch.
From S2P Require Import TreeScan TreeMulti TreeBlocks TreeHeights Demo.

Open Scope nat_scope.

Section Claims.
Context {DB : Type} {rocks : RocksDB DB} {laws : RocksLaws DB}.
Context {codec : NodeCodec} (U : BptreeNode -> Prop) {HU : CodecLaws U}.

(** C1: in every run of calls on a tree opened on a database without tree rows, the invariant
    that ties the in-memory state to the rows holds, and every version that was complete at
    some point of the run is still complete and unchanged at every later point. *)
Theorem tree_run_invariant db T T' :
  fresh_db db -> rtc (tree_step U) (new db) T -> rtc (tree_step U) T T' ->
  tree_inv U T'
  /\ forall root V, stored (denv (tdb T)) root V -> stored (denv (tdb T')) root V.
Proof.
  intros Hf H1 H2. destruct (run_inv U _ _ (new_inv U db Hf) H1) as [HI _].
  destruct (run_inv U _ _ HI H2) as [HI' Hle]. split; [done|].
  intros root V. apply stored_mono. exact Hle.
Qed.

(** C2: [apply_batch_owned] on a version returns, and what it writes is the version with the
    changes applied in their order, later changes of a key on top. *)
Theorem apply_batch_correct fuel T V changes :
  tree_inv U T -> stored (denv (tdb T)) (write_root T) V ->
  ht V + length changes < fuel -> Forall U (batch_built V (canonicalize changes)) ->
  exists T' V', apply_batch_owned fuel T changes = Some T' /\ tree_inv U T'
    /\ stored (denv (tdb T')) (write_root T') V'
    /\ contents V' = apply_changes (contents V) changes.
Proof.
  intros HI Hst Hf Hb. destruct (decide (changes = [])) as [->|Hne].
  { exists T, V. by split_all. }
  destruct (apply_batch_result U fuel T V changes HI Hst Hf Hb Hne) as (T' & He & Hw & Hc).
  exists T', (apply_trees V (canonicalize changes)). destruct Hw. by split_all.
Qed.

(** [put] and [delete] return; in the version they write, every key reads as before except
    the given one, which has the new value or is absent. *)
Theorem put_delete_correct fuel T V key value :
  tree_inv U T -> stored (denv (tdb T)) (write_root T) V ->
  S (ht V) < fuel -> Forall U (apply_built V key value) ->
  exists T', (match value with Some v => put fuel T key v | None => delete_key fuel T key end) = Some T'
    /\ tree_inv U T'
    /\ forall k, get_at_root fuel (tdb T') (write_root T') k
         = Some (if decide (k = key) then value else contents V !! k).
Proof.
  intros HI Hst Hf Hb.
  destruct (apply_mutation_result U fuel T V key value HI Hst ltac:(lia) Hb) as (T' & He & Hw & Hc).
  exists T'. split_all; [by destruct value|by destruct Hw|]. intros k.
  rewrite (get_at_root_spec _ _ (apply_tree V key value)).
  - by rewrite Hc, kv_update_lookup.
  - by destruct Hw.
  - destruct (apply_tree_spec U V key value) as (_ & _ & _ & Hh); [apply Hst| |done|lia].
    apply (repr_all U (denv (tdb T))); [split; [apply HI|done]|apply Hst].
Qed.

(** A point read at a root returns the version's value at the key. *)
Theorem get_correct fuel db root V key :
  stored (denv db) root V -> ht V < fuel ->
  get_at_root fuel db root key = Some (contents V !! key).
Proof. apply get_at_root_spec. Qed.

(** C5: a range scan returns exactly the version's entries with keys in [start, end), in key
    order. *)
Theorem range_correct fuel db root V start end_exclusive :
  stored (denv db) root V -> scan_fuel V < fuel ->
  range_entries_at_root fuel db root start end_exclusive
  = Some (filter (fun e : kv => in_range (Some start) end_exclusive e.1) (map_entries (contents V))).
Proof. apply range_entries_spec. Qed.

(** C6: a page, forward or reverse, is the slice [offset, offset + limit) of the range in that
    direction, whatever the way the leaves are cut. *)
Theorem page_correct fuel db root V start end_exclusive offset limit rev :
  stored (denv db) root V -> scan_fuel V < fuel ->
  range_entries_page_at_root fuel db root start end_exclusive offset limit rev
  = Some (take limit (drop offset
      (if rev : bool then reverse (range_of (contents V) start end_exclusive)
       else range_of (contents V) start end_exclusive))).
Proof. apply page_version. Qed.

(** A prefix collection returns exactly the version's entries whose key carries the
    prefix, in key order. *)
Theorem prefix_collection_correct fuel db root V prefix :
  stored (denv db) root V -> scan_fuel V < fuel ->
  collect_prefixed_entries_at_root fuel db root prefix
  = Some (filter (fun e : kv => starts_with e.1 prefix = true) (map_entries (contents V))).
Proof. apply collect_prefixed_version. Qed.

(** a batched read, which descends once per run of sorted queries, answers each query as a
    point read would, in the order the queries were given. *)
Theorem multi_get_correct fuel db root V qs :
  stored (denv db) root V -> ht V < fuel ->
  multi_get_at_root fuel db root qs = Some (map (fun k => contents V !! k) qs).
Proof. apply multi_get_spec. Qed.

(** C9: a block that is begun, written and finished is committed: its hash and height name each
    other, its parent is recorded, and its root is its parent's version with the block's
    changes applied; reads follow it unless a pin holds its height back. *)
Theorem block_commit fuel T h bh ph root V changes T1 :
  tree_inv U T -> in_u32 h -> length bh = 32 -> length ph = 32 ->
  begin_block T h bh ph = inl T1 -> base_root T ph = Some root ->
  stored (denv (tdb T)) root V -> ht V + length changes < fuel ->
  Forall U (batch_built V (canonicalize changes)) ->
  exists T2 V', apply_batch_owned fuel T1 changes = Some T2
    /\ stored (denv (tdb (finish_block T2))) (root_id V') V'
    /\ contents V' = apply_changes (contents V) changes
    /\ root_for_blockhash (finish_block T2) bh = Some (root_id V')
    /\ blockhash_for_height (finish_block T2) h = Some bh
    /\ height_for_blockhash (finish_block T2) bh = Some h
    /\ parent_for_blockhash (finish_block T2) bh = Some ph
    /\ active_root (finish_block T2)
       = (if held_by_pin (state T) h then active_root T else root_id V').
Proof.
  intros HI Hh Hb Hp He Hbase Hst Hf HB.
  assert (HI1 : tree_inv U T1) by by apply (begin_inv U T h bh ph).
  rewrite begin_block_eq, Hbase in He. injection He as <-.
  set (T1 := mkTree _ _) in *. set (ctx := mkBlockContext h bh ph root) in *.
  assert (Hres : exists T2 V', apply_batch_owned fuel T1 changes = Some T2 /\ tree_inv U T2
    /\ state T2 = set_current_block (state T) (Some (set_working_root ctx (root_id V')))
    /\ stored (denv (tdb T2)) (root_id V') V' /\ contents V' = apply_changes (contents V) changes).
  { destruct (decide (changes = [])) as [->|Hne].
    - exists T1, V. destruct Hst as (-> & Hr & Hw). by split_all.
    - destruct (apply_batch_result U fuel T1 V changes HI1 Hst Hf HB Hne) as (T2 & He2 & [] & Hc).
      exists T2, (apply_trees V (canonicalize changes)). split_all; try done.
      + by rewrite (proj1 wr_state ctx eq_refl).
      + by rewrite <- wr_root. }
  destruct Hres as (T2 & V' & He2 & HI2 & Hs2 & Hst2 & Hc).
  destruct (finish_result U T2 (set_working_root ctx (root_id V')) HI2) as (R1 & R2 & R3 & R4 & _ & R6).
  { by rewrite Hs2. }
  exists T2, V'. split_all; try done.
  - eapply stored_mono; [|exact Hst2]. exact (finish_le U T2).
  - rewrite R6. unfold active_root. by rewrite Hs2.
Qed.

(** C10: what is written between [begin_block] and [abort_block] is invisible.  Whatever
    batches, puts and deletes the block makes, in whatever order: during the block reads still
    go to the root they went to before, and every version there was is still whole; after the
    abort the state is the one before the block; and so it is when the process stops in the
    middle of the block and the database is opened again. *)
Theorem block_isolation T h bh ph T1 T2 :
  tree_inv U T -> in_u32 h -> length bh = 32 -> length ph = 32 ->
  current_block (state T) = None ->
  begin_block T h bh ph = inl T1 -> rtc (tree_write U) T1 T2 ->
  active_root T2 = active_root T
  /\ (forall r W, stored (denv (tdb T)) r W -> stored (denv (tdb T2)) r W)
  /\ state (abort_block T2) = state T /\ tdb (abort_block T2) = tdb T2
  /\ state (new (tdb T2)) = state T.
Proof.
  intros HI Hh Hb Hp Hcur He Hw.
  assert (HI1 : tree_inv U T1) by by apply (begin_inv U T h bh ph).
  rewrite begin_block_eq in He. destruct (base_root T ph) as [root|]; [|done]. injection He as <-.
  destruct (writes_in_block U _ T2 (mkBlockContext h bh ph root) HI1 eq_refl Hw) as (HI2 & Hle & r & Hs). cbn in Hs, Hle.
  rewrite (new_recovers U) by done. unfold active_root, abort_block. cbn [state tdb]. rewrite Hs.
  assert (E : set_current_block (state T) None = state T) by (destruct (state T); cbn in *; by rewrite Hcur).
  split_all; try done. intros r' W. apply stored_mono. exact Hle.
Qed.

(** C11: a successful rewind to a height makes the version of that height's block the active
    one, which reads then go to, clears the pin and the block in progress, forgets every height
    above the target and keeps the others; block roots and parents are never forgotten. *)
Theorem rewind_correct T target T' :
  tree_inv U T -> rewind_to_height T target = inl T' ->
  tree_inv U T'
  /\ rewind_target T target = inl (active_root T', active_blockhash T')
  /\ current_block (state T') = None /\ pinned_root (state T') = None /\ pin_until_height (state T') = None
  /\ (forall h, in_u32 h -> blockhash_for_height T' h
        = if match target with Some t => (t <? h)%Z | None => true end then None
          else blockhash_for_height T h)
  /\ (forall b, db_view (tdb T') !! block_root_key b = db_view (tdb T) !! block_root_key b
        /\ db_view (tdb T') !! block_parent_key b = db_view (tdb T) !! block_parent_key b).
Proof.
  intros HI He. split_all.
  - by apply (rewind_inv U _ _ _ HI He).
  - rewrite rewind_eq in He. destruct (rewind_target T target) as [[r b]|]; [|done]. by injection He as <-.
  - rewrite rewind_eq in He. destruct (rewind_target T target) as [[r b]|]; [|done]. by injection He as <-.
  - rewrite rewind_eq in He. destruct (rewind_target T target) as [[r b]|]; [|done]. by injection He as <-.
  - rewrite rewind_eq in He. destruct (rewind_target T target) as [[r b]|]; [|done]. by injection He as <-.
  - intros h. by apply (rewind_heights U).
  - intros b. by apply (rewind_keeps_rows U T target).
Qed.

(** C12: opening the database of a tree again gives the tree back, without the block that was in
    progress: the active root, its block and the pin are all recovered from their rows. *)
Theorem restart_recovers T :
  tree_inv U T -> new (tdb T) = mkTree (tdb T) (set_current_block (state T) None).
Proof. apply (new_recovers U). Qed.

(** pinning freezes what readers see: while the pin covers a block's height, finishing the
    block leaves the reading root where it was, and the first block beyond it releases it. *)
Theorem pin_holds_reads T u ctx :
  tree_inv U T -> in_u32 u -> current_block (state T) = Some ctx ->
  let P := pin_active_root_until_height T u in
  active_root P = active_root_ (state T)
  /\ active_root (finish_block P)
     = if (bc_height ctx <=? u)%Z then active_root_ (state T) else bc_working_root ctx.
Proof.
  intros HI Hu Hc P. split; [done|].
  by destruct (finish_result U P ctx (pin_inv U T u HI Hu) Hc) as (_ & _ & _ & _ & _ & ->).
Qed.

(** [indexed_height_bounds] is the least and the greatest height with a committed block,
    and [None] exactly when there is none. *)
Theorem height_bounds_correct T :
  tree_inv U T ->
  match indexed_height_bounds T with
  | None => forall h, ~ indexed T h
  | Some (lo, hi) => indexed T lo /\ indexed T hi /\ forall h, indexed T h -> (lo <= h <= hi)%Z
  end.
Proof. apply (bounds_spec U). Qed.

(** [is_ancestor] holds exactly when following as many parent rows as the heights are
    apart leads from the descendant to the ancestor. *)
Theorem is_ancestor_correct T a d ha hd :
  height_for_blockhash T a = Some ha -> height_for_blockhash T d = Some hd ->
  is_ancestor T a d = true
  <-> exists n, (hd = ha + Z.of_nat n)%Z /\ nsteps (parent_step T) n d a.
Proof. apply is_ancestor_spec. Qed.

(** Dropping the cached nodes a root does not reach, as the batch does when its cache
    grows, terminates and loses nothing of the version under that root. *)
Theorem collection_safe db root ctx V :
  env_ok U (mkEnv db (Some ctx)) -> stored (mkEnv db (Some ctx)) root V ->
  exists ctx', retain_reachable_pending_nodes root ctx = Some ctx'
    /\ stored (mkEnv db (Some ctx')) root V /\ pending_nodes ctx' ⊆ pending_nodes ctx.
Proof.
  intros Hok Hst. destruct (retain_spec U db root ctx Hok (stored_root _ _ _ Hst))
    as (ctx' & He & [] & Hsub). exists ctx'. split_all; [done| |done].
  by apply (stored_move U (mkEnv db (Some ctx))).
Qed.

End Claims.

(** The in-place compaction of a sorted change list leaves each key once, with its last
    change, and means the same as the list it was given. *)
Theorem canonicalize_correct (m : gmap bytes bytes) changes :
  apply_changes m (canonicalize changes) = apply_changes m changes
  /\ sorted_keys (canonicalize changes).
Proof. split; [apply canonicalize_apply|apply canonicalize_sorted]. Qed.

(** the exclusive bound [prefix_end_exclusive] computes makes [prefix, bound) exactly the
    set of keys that carry the prefix. *)
Theorem prefix_end_correct prefix key :
  starts_with key prefix = true
  <-> prefix <=b key
      /\ match prefix_end_exclusive prefix with Some e => key <b e | None => True end.
Proof. apply prefix_range. Qed.

(** ** Applications to a concrete tree *)

Definition demo_changes : list Change := [(demo_key, None); (demo_key, Some demo_value)].

Lemma demo_changes_built : Forall demo_U (batch_built empty_tree (canonicalize demo_changes)).
Proof. vm_compute. repeat constructor. Qed.

Lemma tree_run_invariant_witness :
  exists T', tree_inv demo_U T' /\ T' = abort_block (new (∅ : DemoDB)).
Proof.
  eexists. split; [|reflexivity].
  refine (proj1 (tree_run_invariant demo_U ∅ (new ∅) (abort_block (new ∅)) _ _ _)).
  - by intros k _.
  - apply rtc_refl.
  - eapply rtc_l; [apply step_abort|apply rtc_refl].
Defined.

Lemma apply_batch_correct_witness :
  exists T' V', apply_batch_owned 4 demo_T0 demo_changes = Some T' /\ tree_inv demo_U T'
    /\ stored (denv (tdb T')) (write_root T') V'
    /\ contents V' = apply_changes (contents empty_tree) demo_changes.
Proof.
  apply (apply_batch_correct demo_U 4 demo_T0 empty_tree demo_changes).
  - exact demo_inv0.
  - exact demo_stored0.
  - cbn. lia.
  - exact demo_changes_built.
Defined.

Lemma put_delete_correct_witness :
  exists T', put 3 demo_T0 demo_key demo_value = Some T' /\ tree_inv demo_U T'
    /\ forall k, get_at_root 3 (tdb T') (write_root T') k
         = Some (if decide (k = demo_key) then Some demo_value else contents empty_tree !! k).
Proof.
  apply (put_delete_correct demo_U 3 demo_T0 empty_tree demo_key (Some demo_value)).
  - exact demo_inv0.
  - exact demo_stored0.
  - cbn. lia.
  - exact demo_built1.
Defined.

Lemma get_correct_witness :
  get_at_root 2 (tdb demo_T1) (active_root demo_T1) demo_key = Some (contents demo_V1 !! demo_key).
Proof. apply (get_correct 2); [exact demo_stored1|vm_compute; lia]. Defined.

Lemma range_correct_witness :
  range_entries_at_root 3 (tdb demo_T1) (active_root demo_T1) (bstr "e") (Some (bstr "f"))
  = Some (filter (fun e : kv => in_range (Some (bstr "e")) (Some (bstr "f")) e.1)
            (map_entries (contents demo_V1))).
Proof. apply (range_correct 3); [exact demo_stored1|vm_compute; lia]. Defined.

Lemma page_correct_witness :
  range_entries_page_at_root 3 (tdb demo_T1) (active_root demo_T1) (bstr "e") None 0 5 true
  = Some (take 5 (drop 0 (reverse (range_of (contents demo_V1) (bstr "e") None)))).
Proof.
  apply (page_correct 3 _ _ _ (bstr "e") None 0 5 true); [exact demo_stored1|vm_compute; lia].
Defined.

Lemma prefix_collection_correct_witness :
  collect_prefixed_entries_at_root 3 (tdb demo_T1) (active_root demo_T1) (bstr "ess")
  = Some (filter (fun e : kv => starts_with e.1 (bstr "ess") = true) (map_entries (contents demo_V1))).
Proof. apply (prefix_collection_correct 3); [exact demo_stored1|vm_compute; lia]. Defined.

Lemma multi_get_correct_witness :
  multi_get_at_root 2 (tdb demo_T1) (active_root demo_T1) [bstr "a"; demo_key]
  = Some (map (fun k => contents demo_V1 !! k) [bstr "a"; demo_key]).
Proof. apply (multi_get_correct 2); [exact demo_stored1|vm_compute; lia]. Defined.

Lemma block_commit_witness :
  exists T2 V', apply_batch_owned 4 demo_begun demo_changes = Some T2
    /\ stored (denv (tdb (finish_block T2))) (root_id V') V'
    /\ contents V' = apply_changes (contents empty_tree) demo_changes
    /\ root_for_blockhash (finish_block T2) (demo_hash 7) = Some (root_id V')
    /\ blockhash_for_height (finish_block T2) 5 = Some (demo_hash 7)
    /\ height_for_blockhash (finish_block T2) (demo_hash 7) = Some 5%Z
    /\ parent_for_blockhash (finish_block T2) (demo_hash 7) = Some (demo_hash 6)
    /\ active_root (finish_block T2)
       = (if held_by_pin (state demo_T0) 5 then active_root demo_T0 else root_id V').
Proof.
  apply (block_commit demo_U 4 demo_T0 5 (demo_hash 7) (demo_hash 6) empty_root_id empty_tree).
  - exact demo_inv0.
  - split; lia.
  - reflexivity.
  - reflexivity.
  - exact demo_begin_eq.
  - exact demo_base.
  - exact demo_stored0.
  - cbn. lia.
  - exact demo_changes_built.
Defined.

Definition demo_written : VersionedTreeDb DemoDB :=
  default demo_T0 (apply_batch_owned 4 demo_begun demo_changes).

Lemma demo_written_eq : apply_batch_owned 4 demo_begun demo_changes = Some demo_written.
Proof.
  destruct (apply_batch_result demo_U 4 demo_begun empty_tree demo_changes demo_begun_inv)
    as (T' & He & _); [exact demo_stored0|cbn; lia|exact demo_changes_built|done|].
  unfold demo_written. by rewrite He.
Qed.

(** The block goes on to delete the key again. *)
Definition demo_erased : VersionedTreeDb DemoDB := default demo_T0 (apply_mutation 4 demo_written demo_key None).

Lemma demo_block_writes : rtc (tree_write demo_U) demo_begun demo_erased.
Proof.
  destruct (apply_batch_result demo_U 4 demo_begun empty_tree demo_changes demo_begun_inv)
    as (T' & He & Hw & _); [exact demo_stored0|cbn; lia|exact demo_changes_built|done|].
  rewrite demo_written_eq in He. apply (inj Some) in He. rewrite <- He in Hw. clear T' He. destruct Hw as [HI _ _ Hst _ _].
  eapply rtc_l; [eapply (tw_batch demo_U _ 4 demo_changes); [exact demo_stored0|cbn; lia|exact demo_changes_built|exact demo_written_eq]|].
  assert (HB : Forall demo_U (apply_built (apply_trees empty_tree (canonicalize demo_changes)) demo_key None)) by (vm_compute; repeat constructor).
  assert (Hf : ht (apply_trees empty_tree (canonicalize demo_changes)) < 4) by (vm_compute; lia).
  destruct (apply_mutation_result demo_U 4 demo_written _ demo_key None HI Hst Hf HB) as (T' & He & _).
  apply rtc_once. eapply (tw_mutation demo_U _ 4 demo_key None); [exact Hst|exact Hf|exact HB|]. unfold demo_erased. rewrite He. reflexivity.
Qed.

Lemma block_isolation_witness :
  active_root demo_erased = active_root demo_T0
  /\ (forall r W, stored (denv (tdb demo_T0)) r W -> stored (denv (tdb demo_erased)) r W)
  /\ state (abort_block demo_erased) = state demo_T0 /\ tdb (abort_block demo_erased) = tdb demo_erased
  /\ state (new (tdb demo_erased)) = state demo_T0.
Proof.
  apply (block_isolation demo_U demo_T0 5 (demo_hash 7) (demo_hash 6) demo_begun).
  - exact demo_inv0.
  - split; lia.
  - reflexivity.
  - reflexivity.
  - reflexivity.
  - exact demo_begin_eq.
  - exact demo_block_writes.
Defined.

Definition demo_rewound : VersionedTreeDb DemoDB :=
  match rewind_to_height demo_T1 None with inl T => T | inr _ => demo_T1 end.

Lemma rewind_correct_witness :
  tree_inv demo_U demo_rewound
  /\ rewind_target demo_T1 None = inl (active_root demo_rewound, active_blockhash demo_rewound)
  /\ current_block (state demo_rewound) = None /\ pinned_root (state demo_rewound) = None
  /\ pin_until_height (state demo_rewound) = None
  /\ (forall h, in_u32 h -> blockhash_for_height demo_rewound h = None)
  /\ (forall b, db_view (tdb demo_rewound) !! block_root_key b = db_view (tdb demo_T1) !! block_root_key b
        /\ db_view (tdb demo_rewound) !! block_parent_key b = db_view (tdb demo_T1) !! block_parent_key b).
Proof. apply (rewind_correct demo_U demo_T1 None); [exact demo_inv1|unfold demo_rewound; rewrite rewind_eq; reflexivity]. Defined.

Lemma restart_recovers_witness :
  new (tdb demo_T1) = mkTree (tdb demo_T1) (set_current_block (state demo_T1) None).
Proof. apply (restart_recovers demo_U). exact demo_inv1. Defined.

Lemma pin_holds_reads_witness :
  active_root (finish_block (pin_active_root_until_height demo_begun 9))
  = active_root_ (state demo_begun).
Proof.
  refine (proj2 (pin_holds_reads demo_U demo_begun 9
    demo_ctx demo_begun_inv _ _)).
  - split; lia.
  - reflexivity.
Defined.

Lemma height_bounds_correct_witness :
  match indexed_height_bounds demo_T1 with
  | None => forall h, ~ indexed demo_T1 h
  | Some (lo, hi) => indexed demo_T1 lo /\ indexed demo_T1 hi
      /\ forall h, indexed demo_T1 h -> (lo <= h <= hi)%Z
  end.
Proof. apply (height_bounds_correct demo_U). exact demo_inv1. Defined.

Lemma is_ancestor_correct_witness :
  is_ancestor (finish_block demo_begun) (demo_hash 7) (demo_hash 7) = true
  <-> exists n, (5 = 5 + Z.of_nat n)%Z
      /\ nsteps (parent_step (finish_block demo_begun)) n (demo_hash 7) (demo_hash 7).
Proof.
  apply (is_ancestor_correct (finish_block demo_begun) (demo_hash 7) (demo_hash 7) 5 5);
    vm_compute; reflexivity.
Defined.

Lemma collection_safe_witness :
  exists ctx', retain_reachable_pending_nodes (active_root demo_T1) BatchWriteContext_default = Some ctx'
    /\ stored (mkEnv (tdb demo_T1) (Some ctx')) (active_root demo_T1) demo_V1
    /\ pending_nodes ctx' ⊆ ∅.
Proof.
  apply (collection_safe demo_U (tdb demo_T1) (active_root demo_T1) BatchWriteContext_default demo_V1).
  - split; [apply demo_inv1|]. intros id n Hn. cbn in Hn. by rewrite lookup_empty in Hn.
  - apply stored_denv; [reflexivity|exact demo_stored1].
Defined.
