(* ===== verification/Mdb.v ===== *)
(** * Namespaced stores

    [Mdb] of [src/runtime/mdb.rs]: a key prefix over either the raw RocksDB or,
    for the namespaces that follow reorganisations, the global versioned tree;
    and the null backend of client mode.  The database and the global tree are
    shared by all handles: they are the [World] that operations pass along.  The
    tree lives in the same RocksDB as the raw namespaces, so one [w_db] holds
    both.  [StateAt] of [src/runtime/state_at.rs] selects a block. *)
From Stdlib Require Import Strings.Byte.
From stdpp Require Import strings.
From S2P Require Import Prelude Bytes Rocks TreeNode TreeDb.
From stdpp Require Import options.

Open Scope nat_scope.

Inductive MdbStore := Local | Null.

Record Mdb := mkMdb { store : MdbStore; prefix : bytes; versioned : bool }.

(** The RocksDB and the state of the global tree, if one was opened. *)
Record World {DB : Type} := mkWorld { w_db : DB; w_tree : option TreeState }.
Arguments World : clear implicits.
Arguments mkWorld {DB} _ _.

Definition versioned_namespaces : list bytes :=
  [bstr "essentials:"; bstr "ammdata:"; bstr "tokendata:"; bstr "subfrost:"; bstr "pizzafun:";
   bstr "oylapi:"; bstr "explorerextensions:"].

Definition should_enable_versioned_namespace (p : bytes) : bool :=
  existsb (bytes_eqb p) versioned_namespaces.

Definition from_parts (p : bytes) (v : bool) : Mdb := mkMdb Local p v.

Definition null (p : bytes) : Mdb := mkMdb Null p false.

Definition is_null (m : Mdb) : bool := match store m with Null => true | Local => false end.

Definition from_db (p : bytes) : Mdb := from_parts p (should_enable_versioned_namespace p).

Definition clone_with_prefix (m : Mdb) (p : bytes) : Mdb :=
  match store m with
  | Local => from_parts p (should_enable_versioned_namespace p)
  | Null => null p
  end.

Definition prefixed (m : Mdb) (k : bytes) : bytes := prefix m ++ k.

(** The loop that strips the namespace from the entries of a scan. *)
Fixpoint strip_entries (p : bytes) (es : list kv) : list kv :=
  match es with
  | [] => []
  | (k, v) :: es' =>
      if starts_with k p then (drop (length p) k, v) :: strip_entries p es'
      else strip_entries p es'
  end.

Fixpoint strip_keys (p : bytes) (ks : list bytes) : list bytes :=
  match ks with
  | [] => []
  | k :: ks' => if starts_with k p then drop (length p) k :: strip_keys p ks' else strip_keys p ks'
  end.

Section Ops.
Context {DB : Type} {rocks : RocksDB DB} {codec : NodeCodec}.

Definition versioned_manager (w : World DB) (m : Mdb) : option (VersionedTreeDb DB) :=
  if negb (versioned m) || is_null m then None
  else st ← w_tree w; Some (mkTree (w_db w) st).

(** The world after an operation of the tree. *)
Definition with_tree (T : VersionedTreeDb DB) : World DB := mkWorld (tdb T) (Some (state T)).

Definition is_versioned (w : World DB) (m : Mdb) : bool :=
  match versioned_manager w m with Some _ => true | None => false end.

(** The scan that counts the rows of a namespace. *)
Definition warm_up_namespace (w : World DB) (m : Mdb) : nat :=
  if is_null m || is_versioned w m then 0
  else length (take_while (fun e : kv => starts_with e.1 (prefix m)) (db_iter_from (w_db w) (prefix m))).

(** ** Reads *)

Definition get (fuel : nat) (w : World DB) (m : Mdb) (k : bytes) : option (option bytes) :=
  if is_null m then Some None
  else
    let full := prefixed m k in
    match versioned_manager w m with
    | Some tree =>
        if is_tree_internal_key full then Some (db_get (w_db w) full)
        else TreeDb.get fuel tree full
    | None => Some (db_get (w_db w) full)
    end.

Definition get_at_blockhash (fuel : nat) (w : World DB) (m : Mdb) (block_hash k : bytes)
    : option (option bytes) :=
  if is_null m then Some None
  else
    let full := prefixed m k in
    match versioned_manager w m with
    | Some tree =>
        match root_for_blockhash tree block_hash with
        | Some root => get_at_root fuel (tdb tree) root full
        | None => Some None
        end
    | None => Some (db_get (w_db w) full)
    end.

(** The unversioned prefix loop: break at the first foreign key, strip the namespace. *)
Fixpoint prefix_loop (rows : list kv) (ns_prefix p : bytes) : list kv :=
  match rows with
  | [] => []
  | (k, v) :: rows' =>
      if negb (starts_with k ns_prefix) then []
      else if starts_with k p then (drop (length p) k, v) :: prefix_loop rows' ns_prefix p
      else prefix_loop rows' ns_prefix p
  end.

Definition scan_prefix_entries (fuel : nat) (w : World DB) (m : Mdb) (p : bytes)
    : option (list kv) :=
  if is_null m then Some []
  else
    let ns_prefix := prefixed m p in
    match versioned_manager w m with
    | Some tree =>
        es ← collect_prefixed_entries fuel tree ns_prefix; Some (strip_entries (prefix m) es)
    | None => Some (prefix_loop (db_iter_from (w_db w) ns_prefix) ns_prefix (prefix m))
    end.

Definition scan_prefix_entries_at_blockhash (fuel : nat) (w : World DB) (m : Mdb)
    (block_hash p : bytes) : option (list kv) :=
  if is_null m then Some []
  else
    let ns_prefix := prefixed m p in
    match versioned_manager w m with
    | Some tree =>
        match root_for_blockhash tree block_hash with
        | None => Some []
        | Some root =>
            es ← collect_prefixed_entries_at_root fuel (tdb tree) root ns_prefix;
            Some (strip_entries (prefix m) es)
        end
    | None => scan_prefix_entries fuel w m p
    end.

Fixpoint range_rows (rows : list kv) (ns_end : option bytes) (p : bytes) : list kv :=
  match rows with
  | [] => []
  | (k, v) :: rows' =>
      if past_end ns_end k then []
      else if starts_with k p then (drop (length p) k, v) :: range_rows rows' ns_end p
      else range_rows rows' ns_end p
  end.

Definition scan_range_entries (fuel : nat) (w : World DB) (m : Mdb) (start_inclusive : bytes)
    (end_exclusive : option bytes) : option (list kv) :=
  if is_null m then Some []
  else
    let ns_start := prefixed m start_inclusive in
    let ns_end := prefixed m <$> end_exclusive in
    match versioned_manager w m with
    | Some tree =>
        es ← range_entries fuel tree ns_start ns_end; Some (strip_entries (prefix m) es)
    | None => Some (range_rows (db_iter_from (w_db w) ns_start) ns_end (prefix m))
    end.

Definition scan_range_entries_at_blockhash (fuel : nat) (w : World DB) (m : Mdb)
    (block_hash start_inclusive : bytes) (end_exclusive : option bytes) : option (list kv) :=
  if is_null m then Some []
  else
    let ns_start := prefixed m start_inclusive in
    let ns_end := prefixed m <$> end_exclusive in
    match versioned_manager w m with
    | Some tree =>
        match root_for_blockhash tree block_hash with
        | None => Some []
        | Some root =>
            es ← range_entries_at_root fuel (tdb tree) root ns_start ns_end;
            Some (strip_entries (prefix m) es)
        end
    | None => scan_range_entries fuel w m start_inclusive end_exclusive
    end.

(** The loop of [scan_range_entries_page_unversioned] over the iterator's rows. *)
Fixpoint page_rows (rows : list kv) (ns_start : bytes) (ns_end : option bytes) (p : bytes)
    (rev : bool) (offset limit skipped : nat) (out : list kv) : list kv :=
  match rows with
  | [] => out
  | (k, v) :: rows' =>
      let next := page_rows rows' ns_start ns_end p rev offset limit in
      if rev && bytes_ltb k ns_start then out
      else if rev && past_end ns_end k then next skipped out
      else if negb rev && past_end ns_end k then out
      else if negb (starts_with k p) then next skipped out
      else if skipped <? offset then next (S skipped) out
      else
        let out' := out ++ [(drop (length p) k, v)] in
        if limit <=? length out' then out' else next skipped out'
  end.

Definition scan_range_entries_page_unversioned (w : World DB) (m : Mdb) (ns_start : bytes)
    (ns_end : option bytes) (offset limit : nat) (rev : bool) : list kv :=
  if limit =? 0 then []
  else
    let rows :=
      if rev then
        match ns_end with
        | Some e => db_iter_from_rev (w_db w) e
        | None => db_iter_end (w_db w)
        end
      else db_iter_from (w_db w) ns_start in
    page_rows rows ns_start ns_end (prefix m) rev offset limit 0 [].

Definition scan_range_entries_page (fuel : nat) (w : World DB) (m : Mdb)
    (start_inclusive : bytes) (end_exclusive : option bytes) (offset limit : nat) (rev : bool)
    : option (list kv) :=
  if is_null m then Some []
  else
    let ns_start := prefixed m start_inclusive in
    let ns_end := prefixed m <$> end_exclusive in
    match versioned_manager w m with
    | Some tree =>
        es ← range_entries_page_at_root fuel (tdb tree) (active_root tree) ns_start ns_end
               offset limit rev;
        Some (strip_entries (prefix m) es)
    | None => Some (scan_range_entries_page_unversioned w m ns_start ns_end offset limit rev)
    end.

Definition scan_range_entries_page_at_blockhash (fuel : nat) (w : World DB) (m : Mdb)
    (block_hash start_inclusive : bytes) (end_exclusive : option bytes) (offset limit : nat)
    (rev : bool) : option (list kv) :=
  if is_null m then Some []
  else
    let ns_start := prefixed m start_inclusive in
    let ns_end := prefixed m <$> end_exclusive in
    match versioned_manager w m with
    | Some tree =>
        match root_for_blockhash tree block_hash with
        | None => Some []
        | Some root =>
            es ← range_entries_page_at_root fuel (tdb tree) root ns_start ns_end offset limit rev;
            Some (strip_entries (prefix m) es)
        end
    | None => Some (scan_range_entries_page_unversioned w m ns_start ns_end offset limit rev)
    end.

Definition scan_prefix_keys (fuel : nat) (w : World DB) (m : Mdb) (p : bytes)
    : option (list bytes) :=
  if is_null m then Some []
  else
    let ns_prefix := prefixed m p in
    match versioned_manager w m with
    | Some tree => ks ← collect_prefixed_keys fuel tree ns_prefix; Some (strip_keys (prefix m) ks)
    | None => Some (prefix_loop (db_iter_from (w_db w) ns_prefix) ns_prefix (prefix m)).*1
    end.

Definition scan_prefix_keys_at_blockhash (fuel : nat) (w : World DB) (m : Mdb)
    (block_hash p : bytes) : option (list bytes) :=
  if is_null m then Some []
  else
    let ns_prefix := prefixed m p in
    match versioned_manager w m with
    | Some tree =>
        match root_for_blockhash tree block_hash with
        | None => Some []
        | Some root =>
            ks ← collect_prefixed_keys_at_root fuel (tdb tree) root ns_prefix;
            Some (strip_keys (prefix m) ks)
        end
    | None => scan_prefix_keys fuel w m p
    end.

Definition multi_get (fuel : nat) (w : World DB) (m : Mdb) (ks : list bytes)
    : option (list (option bytes)) :=
  if is_null m then Some (replicate (length ks) None)
  else
    match versioned_manager w m with
    | Some tree => TreeDb.multi_get fuel tree (map (prefixed m) ks)
    | None => Some (map (db_get (w_db w)) (map (prefixed m) ks))
    end.

Definition multi_get_at_blockhash (fuel : nat) (w : World DB) (m : Mdb) (block_hash : bytes)
    (ks : list bytes) : option (list (option bytes)) :=
  if is_null m then Some (replicate (length ks) None)
  else
    match versioned_manager w m with
    | Some tree =>
        match root_for_blockhash tree block_hash with
        | None => Some (replicate (length ks) None)
        | Some root => multi_get_at_root fuel (tdb tree) root (map (prefixed m) ks)
        end
    | None => multi_get fuel w m ks
    end.

(** [iter_from] collects the versioned namespace and drops what is below the start; a raw
    iterator runs on to the end of the database. *)
Definition iter_from (fuel : nat) (w : World DB) (m : Mdb) (start : bytes) : option (list kv) :=
  if is_null m then Some []
  else
    match versioned_manager w m with
    | Some tree =>
        es ← collect_prefixed_entries fuel tree (prefix m);
        Some (filter (fun e : kv => prefixed m start <=b e.1) es)
    | None => Some (db_iter_from (w_db w) (prefixed m start))
    end.

(** ** Writes *)

Definition put (fuel : nat) (w : World DB) (m : Mdb) (k v : bytes) : option (World DB) :=
  if is_null m then Some w
  else
    let full := prefixed m k in
    match versioned_manager w m with
    | Some tree =>
        if is_tree_internal_key full then Some (mkWorld (db_put (w_db w) full v) (w_tree w))
        else with_tree <$> TreeDb.put fuel tree full v
    | None => Some (mkWorld (db_put (w_db w) full v) (w_tree w))
    end.

Definition delete (fuel : nat) (w : World DB) (m : Mdb) (k : bytes) : option (World DB) :=
  if is_null m then Some w
  else
    let full := prefixed m k in
    match versioned_manager w m with
    | Some tree =>
        if is_tree_internal_key full then Some (mkWorld (db_delete (w_db w) full) (w_tree w))
        else with_tree <$> delete_key fuel tree full
    | None => Some (mkWorld (db_delete (w_db w) full) (w_tree w))
    end.

(** The two buffers a batch closure fills; the calls it makes are its argument. *)
Record MdbBatch := mkMdbBatch { mb_wb : option WriteBatch; mb_changes : option (list Change) }.

Definition batch_put (m : Mdb) (mb : MdbBatch) (k v : bytes) : MdbBatch :=
  let key := prefixed m k in
  match mb_changes mb with
  | Some buf => mkMdbBatch (mb_wb mb) (Some (buf ++ [(key, Some v)]))
  | None =>
      match mb_wb mb with
      | Some wb => mkMdbBatch (Some (wb ++ [BPut key v])) None
      | None => mb
      end
  end.

Definition batch_delete (m : Mdb) (mb : MdbBatch) (k : bytes) : MdbBatch :=
  let key := prefixed m k in
  match mb_changes mb with
  | Some buf => mkMdbBatch (mb_wb mb) (Some (buf ++ [(key, None)]))
  | None =>
      match mb_wb mb with
      | Some wb => mkMdbBatch (Some (wb ++ [BDelete key])) None
      | None => mb
      end
  end.

Definition batch_call (m : Mdb) (mb : MdbBatch) (op : batch_op) : MdbBatch :=
  match op with BPut k v => batch_put m mb k v | BDelete k => batch_delete m mb k end.

Definition bulk_write (fuel : nat) (w : World DB) (m : Mdb) (build : list batch_op)
    : option (World DB) :=
  if is_null m then Some w
  else
    match versioned_manager w m with
    | Some tree =>
        let mb := foldl (batch_call m) (mkMdbBatch None (Some [])) build in
        with_tree <$> apply_batch_owned fuel tree (default [] (mb_changes mb))
    | None =>
        let mb := foldl (batch_call m) (mkMdbBatch (Some []) None) build in
        Some (mkWorld (db_write (w_db w) (default [] (mb_wb mb))) (w_tree w))
    end.

End Ops.

(** ** [StateAt] *)

Inductive StateAt := Latest | Block (blockhash : bytes).

Definition StateAt_default : StateAt := Latest.

Definition to_option (s : StateAt) : option bytes :=
  match s with Latest => None | Block b => Some b end.

Definition resolve (s : StateAt) (fallback : option bytes) : option bytes :=
  match s with Latest => fallback | Block b => Some b end.
