(* ===== verification/MdbProps.v ===== *)
(** * A namespace is an ordered map of its own

    Whether a handle reads the raw database or a version of the tree, its answers
    are those of the map [ns_of prefix base]: the entries of the backing map that
    carry the prefix, with the prefix removed.  Writes change that map and leave
    the other namespaces alone. *)
From stdpp Require Import strings.
From S2P Require Import Prelude Bytes Rocks TreeNode TreeDb BTree TreeRefine TreeBatch.
From S2P Require Import TreeScan TreeMulti TreeBlocks Mdb.

Open Scope nat_scope.

(** ** The namespace of a map *)

Definition ns_of (p : bytes) (m : gmap bytes bytes) : gmap bytes bytes :=
  list_to_map (strip_entries p (map_entries m)).

Lemma strip_entries_elem p es k v : (k, v) ∈ strip_entries p es <-> (p ++ k, v) ∈ es.
Proof.
  induction es as [|[k' v'] es IH]; [by rewrite !elem_of_nil|]. cbn [strip_entries].
  destruct (starts_with k' p) eqn:E.
  - apply starts_with_iff in E as [r ->]. rewrite drop_app_length, !elem_of_cons, IH.
    split; (intros [H|H]; [left|by right]).
    + by injection H as -> ->.
    + injection H as Hk ->. by apply app_inv_head in Hk as ->.
  - rewrite elem_of_cons, IH. split; [auto|]. intros [H|H]; [|done]. exfalso.
    injection H as <- <-. by rewrite starts_with_app in E.
Qed.

Lemma strip_entries_sorted p es : sorted_entries es -> sorted_entries (strip_entries p es).
Proof.
  induction 1 as [|[k v] es Hs IH Hall]; [constructor|]. cbn [strip_entries].
  destruct (starts_with k p) eqn:E; [|done]. apply starts_with_iff in E as [r ->].
  rewrite drop_app_length. constructor; [done|]. apply Forall_forall.
  intros [k' v'] Hin%strip_entries_elem. rewrite Forall_forall in Hall.
  specialize (Hall _ Hin). unfold key_lt in *. cbn in *. by apply blt_app in Hall.
Qed.

Lemma ns_of_lookup p m k : ns_of p m !! k = m !! (p ++ k).
Proof.
  apply option_eq. intros v. unfold ns_of.
  rewrite <- elem_of_list_to_map, strip_entries_elem, map_entries_elem; [done|].
  apply sorted_entries_NoDup, strip_entries_sorted, map_entries_sorted.
Qed.

Lemma ns_of_entries p m : map_entries (ns_of p m) = strip_entries p (map_entries m).
Proof.
  symmetry. apply map_entries_unique; [apply strip_entries_sorted, map_entries_sorted|].
  intros k v. by rewrite strip_entries_elem, ns_of_lookup, map_entries_elem.
Qed.

(** Filtering commutes with stripping. *)
Lemma strip_filter p (P Q : kv -> Prop) `{!forall e, Decision (P e)} `{!forall e, Decision (Q e)} es :
  (forall k v, P (p ++ k, v) <-> Q (k, v)) ->
  strip_entries p (filter P es) = filter Q (strip_entries p es).
Proof.
  intros HPQ. induction es as [|[k v] es IH]; [done|]. rewrite filter_cons. cbn [strip_entries].
  destruct (starts_with k p) eqn:E.
  - apply starts_with_iff in E as [r ->]. rewrite drop_app_length, filter_cons.
    destruct (decide (P (p ++ r, v))) as [HP|HP]; [rewrite decide_True by by apply HPQ|
      rewrite decide_False by by rewrite <- HPQ]; cbn [strip_entries].
    + by rewrite starts_with_app, drop_app_length, IH.
    + done.
  - case_decide; cbn [strip_entries]; [by rewrite E|done].
Qed.

(** Where every entry carries the prefix, stripping is a map. *)
Lemma strip_all p es :
  Forall (fun e : kv => starts_with e.1 p = true) es ->
  strip_entries p es = map (fun e => (drop (length p) e.1, e.2)) es.
Proof. induction 1 as [|[k v] es Hk Hes IH]; [done|]. cbn in *. by rewrite Hk, IH. Qed.

Lemma strip_keys_entries p es : strip_keys p es.*1 = (strip_entries p es).*1.
Proof.
  induction es as [|[k v] es IH]; [done|]. cbn. destruct (starts_with k p); cbn; by rewrite ?IH.
Qed.

Lemma prefix_loop_eq rows q p :
  prefix_loop rows q p = strip_entries p (take_while (fun e : kv => starts_with e.1 q) rows).
Proof.
  induction rows as [|[k v] rows IH]; [done|]. cbn.
  destruct (starts_with k q); cbn; [|done]. by rewrite IH.
Qed.

Lemma range_rows_eq rows e p :
  range_rows rows e p = strip_entries p (take_while (fun r : kv => negb (past_end e r.1)) rows).
Proof.
  induction rows as [|[k v] rows IH]; [done|]. cbn.
  destruct (past_end e k); cbn; [done|]. by rewrite IH.
Qed.

(** ** Ranges *)

Lemma prefixed_range p s e k :
  in_range (Some (p ++ s)) (app p <$> e) (p ++ k) <-> in_range (Some s) e k.
Proof.
  unfold in_range. rewrite ble_app. destruct e; cbn; [|done]. by rewrite blt_app.
Qed.

(** A key between two extensions of a prefix extends it. *)
Lemma between_prefixed p a b k : p ++ a <=b k -> k <b p ++ b -> starts_with k p = true.
Proof.
  intros H1 H2. apply prefix_range. pose proof (ble_prefix p a) as Ha. split; [border|].
  assert (Hb : starts_with (p ++ b) p = true) by apply starts_with_app.
  apply prefix_range in Hb as [_ Hb]. destruct (prefix_end_exclusive p); [border|done].
Qed.

Lemma ns_range_of p m s e :
  strip_entries p (range_of m (p ++ s) (app p <$> e)) = range_of (ns_of p m) s e.
Proof.
  unfold range_of. rewrite ns_of_entries. apply strip_filter. intros k v. apply prefixed_range.
Qed.

(** With an upper bound, the range holds only keys of the namespace. *)
Lemma ns_range_bounded p m s e :
  Forall (fun x : kv => starts_with x.1 p = true) (range_of m (p ++ s) (Some (p ++ e))).
Proof.
  apply Forall_forall. intros x [[H1 H2] _]%list_elem_of_filter. by eapply between_prefixed.
Qed.

Lemma strip_page p es off limit :
  Forall (fun x : kv => starts_with x.1 p = true) es ->
  strip_entries p (take limit (drop off es)) = take limit (drop off (strip_entries p es)).
Proof.
  intros H. rewrite strip_all by by apply Forall_take, Forall_drop.
  by rewrite strip_all, skipn_map, firstn_map.
Qed.

Lemma strip_reverse p es : strip_entries p (reverse es) = reverse (strip_entries p es).
Proof.
  assert (Happ : forall a b, strip_entries p (a ++ b) = strip_entries p a ++ strip_entries p b).
  { induction a as [|[k v] a IH]; intros b; [done|]. cbn. destruct (starts_with k p); by rewrite IH. }
  induction es as [|[k v] es IH]; [done|]. rewrite reverse_cons, Happ, IH. cbn [strip_entries].
  destruct (starts_with k p); [by rewrite reverse_cons|by rewrite app_nil_r].
Qed.

(** ** The raw page loop *)

Lemma page_rows_forward rows ns e p off limit skipped out :
  length out < limit -> skipped <= off ->
  page_rows rows ns e p false off limit skipped out
  = out ++ take (limit - length out) (drop (off - skipped)
      (strip_entries p (take_while (fun r : kv => negb (past_end e r.1)) rows))).
Proof.
  revert skipped out; induction rows as [|[k v] rows IH]; intros skipped out Hl Hs; cbn [page_rows take_while strip_entries fst andb negb].
  { by rewrite drop_nil, take_nil, app_nil_r. }
  destruct (past_end e k);
    cbn [page_rows take_while strip_entries fst andb negb]; [by rewrite drop_nil, take_nil, app_nil_r|].
  destruct (starts_with k p);
    cbn [page_rows take_while strip_entries fst andb negb]; [|by apply IH].
  destruct (Nat.ltb_spec skipped off).
  - rewrite IH by lia. by replace (off - skipped) with (S (off - S skipped)) by lia.
  - replace (off - skipped) with 0 by lia. rewrite drop_0, length_app. cbn [length].
    destruct (Nat.leb_spec limit (length out + 1)).
    + by replace (limit - length out) with 1 by lia.
    + rewrite IH by (rewrite ?length_app; cbn; lia). rewrite length_app, <- app_assoc.
      cbn [length app]. replace (off - skipped) with 0 by lia. rewrite drop_0.
      by replace (limit - length out) with (S (limit - (length out + 1))) by lia.
Qed.

Lemma page_rows_reverse rows ns e p off limit skipped out :
  length out < limit -> skipped <= off ->
  page_rows rows ns e p true off limit skipped out
  = out ++ take (limit - length out) (drop (off - skipped)
      (strip_entries p (filter (fun r : kv => past_end e r.1 = false)
         (take_while (fun r : kv => negb (bytes_ltb r.1 ns)) rows)))).
Proof.
  revert skipped out; induction rows as [|[k v] rows IH]; intros skipped out Hl Hs; cbn [page_rows take_while strip_entries fst andb negb].
  { by (rewrite filter_nil; cbn [strip_entries]; rewrite drop_nil, take_nil, app_nil_r). }
  destruct (bytes_ltb k ns);
    cbn [page_rows take_while strip_entries fst andb negb]; [by (rewrite filter_nil; cbn [strip_entries]; rewrite drop_nil, take_nil, app_nil_r)|].
  rewrite filter_cons. cbn [fst]. destruct (past_end e k) eqn:Ee.
  { rewrite decide_False by done. by apply IH. }
  rewrite decide_True by done. cbn [page_rows take_while strip_entries fst andb negb]. destruct (starts_with k p);
    cbn [page_rows take_while strip_entries fst andb negb]; [|by apply IH].
  destruct (Nat.ltb_spec skipped off).
  - rewrite IH by lia. by replace (off - skipped) with (S (off - S skipped)) by lia.
  - replace (off - skipped) with 0 by lia. rewrite drop_0, length_app. cbn [length].
    destruct (Nat.leb_spec limit (length out + 1)).
    + by replace (limit - length out) with 1 by lia.
    + rewrite IH by (rewrite ?length_app; cbn; lia). rewrite length_app, <- app_assoc.
      cbn [length app]. replace (off - skipped) with 0 by lia. rewrite drop_0.
      by replace (limit - length out) with (S (limit - (length out + 1))) by lia.
Qed.

Section Namespace.
Context {DB : Type} {rocks : RocksDB DB} {laws : RocksLaws DB}.
Context {codec : NodeCodec}.

(** A handle as the constructors build it. *)
Definition mdb_ok (m : Mdb) : Prop :=
  is_null m = false /\ (versioned m = true -> prefix m ∈ versioned_namespaces).

(** [backed fuel w m at_root base]: the reads of [m] go to the map [base], the raw database or
    the version named by [at_root]. *)
Definition backed (fuel : nat) (w : World DB) (m : Mdb)
    (at_root : VersionedTreeDb DB -> option bytes) (base : gmap bytes bytes) : Prop :=
  match versioned_manager w m with
  | Some tree => exists root V, at_root tree = Some root
      /\ stored (denv (w_db w)) root V /\ contents V = base /\ scan_fuel V < fuel
  | None => base = db_view (w_db w)
  end.

(** Reads at the tip, and at a block. *)
Definition at_tip (T : VersionedTreeDb DB) : option bytes := Some (active_root T).
Definition at_block (bh : bytes) (T : VersionedTreeDb DB) : option bytes := root_for_blockhash T bh.

Lemma manager_tree (w : World DB) m tree : versioned_manager w m = Some tree -> tdb tree = w_db w.
Proof.
  unfold versioned_manager. destruct (_ || _); [done|]. destruct (w_tree w); [|done].
  cbn. by intros [= <-].
Qed.

Lemma manager_versioned (w : World DB) m tree : versioned_manager w m = Some tree -> versioned m = true.
Proof. unfold versioned_manager. destruct (versioned m); [done|]. done. Qed.

(** Keys of the versioned namespaces are never rows of the tree itself. *)
Lemma namespace_not_internal m k :
  prefix m ∈ versioned_namespaces -> is_tree_internal_key (prefixed m k) = false.
Proof.
  unfold prefixed. intros H.
  assert (Ha : Forall (fun p => forall k, is_tree_internal_key (p ++ k) = false)
            versioned_namespaces) by by repeat constructor.
  rewrite Forall_forall in Ha. by apply Ha.
Qed.

Lemma scan_fuel_ht T : ht T <= scan_fuel T.
Proof. unfold scan_fuel. lia. Qed.

Lemma ns_get fuel w m base k :
  mdb_ok m -> backed fuel w m at_tip base -> get fuel w m k = Some (ns_of (prefix m) base !! k).
Proof.
  intros [Hn Hp] Hb. unfold get, backed in *. rewrite Hn, ns_of_lookup.
  destruct (versioned_manager w m) as [tree|] eqn:E; [|by rewrite Hb, db_get_spec].
  pose proof (manager_tree _ _ _ E) as Et.
  rewrite namespace_not_internal by (eapply Hp, manager_versioned, E).
  destruct Hb as (root & V & [= <-] & Hst & <- & Hf). unfold TreeDb.get. rewrite Et.
  apply get_at_root_spec; [done|]. pose proof (scan_fuel_ht V). lia.
Qed.

Lemma ns_get_at fuel w m bh base k :
  mdb_ok m -> backed fuel w m (at_block bh) base ->
  get_at_blockhash fuel w m bh k = Some (ns_of (prefix m) base !! k).
Proof.
  intros [Hn Hp] Hb. unfold get_at_blockhash, backed in *. rewrite Hn, ns_of_lookup.
  destruct (versioned_manager w m) as [tree|] eqn:E; [|by rewrite Hb, db_get_spec].
  pose proof (manager_tree _ _ _ E) as Et.
  destruct Hb as (root & V & Hr & Hst & <- & Hf). unfold at_block in Hr. rewrite Hr, Et.
  apply get_at_root_spec; [done|]. pose proof (scan_fuel_ht V). lia.
Qed.

Lemma ns_prefix_filter p q m :
  strip_entries p (filter (fun e : kv => starts_with e.1 (p ++ q) = true) (map_entries m))
  = filter (fun e : kv => starts_with e.1 q = true) (map_entries (ns_of p m)).
Proof.
  rewrite ns_of_entries.
  apply strip_filter. intros k v. cbn [fst]. rewrite !starts_with_iff. split; intros [r H]; exists r.
  - rewrite <- app_assoc in H. by apply app_inv_head in H.
  - by rewrite H, app_assoc.
Qed.

Lemma ns_scan_prefix fuel w m base q :
  mdb_ok m -> backed fuel w m at_tip base ->
  scan_prefix_entries fuel w m q
  = Some (filter (fun e : kv => starts_with e.1 q = true) (map_entries (ns_of (prefix m) base))).
Proof.
  intros [Hn _] Hb. unfold scan_prefix_entries, backed, prefixed in *. rewrite Hn.
  rewrite <- ns_prefix_filter. destruct (versioned_manager w m) as [tree|] eqn:E.
  - pose proof (manager_tree _ _ _ E) as Et. destruct Hb as (root & V & [= <-] & Hst & <- & Hf).
    unfold collect_prefixed_entries. rewrite Et.
    by rewrite (collect_prefixed_version _ _ V) by done.
  - by rewrite prefix_loop_eq, db_prefix_scan, Hb.
Qed.

Lemma raw_range d s e :
  take_while (fun r : kv => negb (past_end e r.1)) (db_iter_from d s)
  = range_of (db_view d) s e.
Proof.
  rewrite db_iter_from_spec, take_while_filter, list_filter_filter.
  - apply list_filter_iff. intros x. rewrite in_range_past_end, negb_true_iff. tauto.
  - apply (sorted_weaken key_lt); [|apply sorted_entries_filter, map_entries_sorted].
    unfold key_lt. intros a b _ _ Hab. rewrite !negb_false_iff. destruct e; [|done]. cbn.
    rewrite !bytes_leb_ble. intros. border.
Qed.

Lemma ns_scan_range fuel w m base s e :
  mdb_ok m -> backed fuel w m at_tip base ->
  scan_range_entries fuel w m s e = Some (range_of (ns_of (prefix m) base) s e).
Proof.
  intros [Hn _] Hb. unfold scan_range_entries, backed, prefixed in *. rewrite Hn.
  rewrite <- ns_range_of. destruct (versioned_manager w m) as [tree|] eqn:E.
  - pose proof (manager_tree _ _ _ E) as Et. destruct Hb as (root & V & [= <-] & Hst & <- & Hf).
    unfold range_entries. rewrite Et. by rewrite (range_entries_spec _ _ V) by done.
  - by rewrite range_rows_eq, raw_range, Hb.
Qed.

(** Reads of a handle outside the tree do not depend on the block they are asked for. *)
Lemma backed_raw fuel w m at1 at2 base :
  versioned_manager w m = None -> backed fuel w m at1 base -> backed fuel w m at2 base.
Proof. unfold backed. by intros ->. Qed.

Lemma ns_scan_prefix_at fuel w m bh base q :
  mdb_ok m -> backed fuel w m (at_block bh) base ->
  scan_prefix_entries_at_blockhash fuel w m bh q
  = Some (filter (fun e : kv => starts_with e.1 q = true) (map_entries (ns_of (prefix m) base))).
Proof.
  intros Hok Hb. unfold scan_prefix_entries_at_blockhash. rewrite (proj1 Hok).
  destruct (versioned_manager w m) as [tree|] eqn:E.
  - pose proof (manager_tree _ _ _ E) as Et. unfold backed in Hb. rewrite E in Hb.
    destruct Hb as (root & V & Hr & Hst & <- & Hf). unfold at_block in Hr. rewrite Hr, Et.
    rewrite (collect_prefixed_version _ _ V) by done. by rewrite <- ns_prefix_filter.
  - apply ns_scan_prefix; [done|by eapply backed_raw].
Qed.

Lemma ns_scan_range_at fuel w m bh base s e :
  mdb_ok m -> backed fuel w m (at_block bh) base ->
  scan_range_entries_at_blockhash fuel w m bh s e = Some (range_of (ns_of (prefix m) base) s e).
Proof.
  intros Hok Hb. unfold scan_range_entries_at_blockhash. rewrite (proj1 Hok).
  destruct (versioned_manager w m) as [tree|] eqn:E.
  - pose proof (manager_tree _ _ _ E) as Et. unfold backed in Hb. rewrite E in Hb.
    destruct Hb as (root & V & Hr & Hst & <- & Hf). unfold at_block in Hr. rewrite Hr, Et.
    rewrite (range_entries_spec _ _ V) by done. by rewrite <- ns_range_of.
  - apply ns_scan_range; [done|by eapply backed_raw].
Qed.

Lemma ns_multi_get fuel w m base ks :
  mdb_ok m -> backed fuel w m at_tip base ->
  multi_get fuel w m ks = Some (map (fun k => ns_of (prefix m) base !! k) ks).
Proof.
  intros [Hn _] Hb. unfold multi_get, backed in *. rewrite Hn.
  assert (Hmap : forall f : bytes -> option bytes, (forall k, f (prefix m ++ k) = base !! (prefix m ++ k)) ->
    map f (map (prefixed m) ks) = map (fun k => ns_of (prefix m) base !! k) ks).
  { intros f Hf. rewrite map_map. apply map_ext. intros k. by rewrite ns_of_lookup, <- Hf. }
  destruct (versioned_manager w m) as [tree|] eqn:E.
  - pose proof (manager_tree _ _ _ E) as Et. destruct Hb as (root & V & [= <-] & Hst & <- & Hf).
    unfold TreeDb.multi_get. rewrite Et, (multi_get_spec _ _ _ V) by (pose proof (scan_fuel_ht V); done || lia).
    f_equal. by apply Hmap.
  - f_equal. apply Hmap. intros k. by rewrite db_get_spec, Hb.
Qed.

Lemma raw_range_rev d s e :
  filter (fun r : kv => past_end e r.1 = false)
    (take_while (fun r : kv => negb (bytes_ltb r.1 s))
       match e with Some x => db_iter_from_rev d x | None => db_iter_end d end)
  = reverse (range_of (db_view d) s e).
Proof.
  assert (Hrows : exists P : kv -> bool, (forall x, past_end e x.1 = false -> P x = true) /\
    match e with Some x => db_iter_from_rev d x | None => db_iter_end d end
    = reverse (filter (fun r => P r = true) (map_entries (db_view d)))).
  { destruct e as [x|].
    - exists (fun r => bytes_leb r.1 x). split.
      + intros r H%bytes_leb_false. by apply bytes_leb_ble, blt_ble.
      + rewrite db_iter_from_rev_spec. f_equal. apply list_filter_iff. intros r.
        by rewrite bytes_leb_ble.
    - exists (fun _ => true). split; [done|]. rewrite db_iter_end_spec, filter_all; [done|].
      by apply Forall_true. }
  destruct Hrows as (P & HP & ->). rewrite take_while_filter.
  - rewrite !filter_reverse, !list_filter_filter. f_equal. apply list_filter_iff. intros x.
    rewrite in_range_past_end, negb_true_iff. specialize (HP x). unfold ble. tauto.
  - apply (sorted_weaken (fun a b : kv => key_lt b a)).
    + unfold key_lt. intros a b _ _ Hab. rewrite !negb_false_iff. intros H.
      change (b.1 <b s). change (a.1 <b s) in H. border.
    + apply (StronglySorted_reverse key_lt), sorted_entries_filter, map_entries_sorted.
Qed.

Lemma raw_page w m s e off limit rev :
  scan_range_entries_page_unversioned w m (prefix m ++ s) (app (prefix m) <$> e) off limit rev
  = take limit (drop off (if rev : bool then reverse (range_of (ns_of (prefix m) (db_view (w_db w))) s e)
                          else range_of (ns_of (prefix m) (db_view (w_db w))) s e)).
Proof.
  unfold scan_range_entries_page_unversioned. destruct (Nat.eqb_spec limit 0) as [->|Hl]; [done|].
  destruct rev.
  - rewrite page_rows_reverse by (cbn; lia). cbn [length app]. rewrite !Nat.sub_0_r.
    by rewrite raw_range_rev, strip_reverse, ns_range_of.
  - rewrite page_rows_forward by (cbn; lia). cbn [length app]. rewrite !Nat.sub_0_r.
    by rewrite raw_range, ns_range_of.
Qed.

(** With an upper bound, both backends give the page of the namespace. *)
Lemma ns_page fuel w m base s e off limit rev :
  mdb_ok m -> backed fuel w m at_tip base ->
  scan_range_entries_page fuel w m s (Some e) off limit rev
  = Some (take limit (drop off
      (if rev : bool then reverse (range_of (ns_of (prefix m) base) s (Some e))
       else range_of (ns_of (prefix m) base) s (Some e)))).
Proof.
  intros [Hn _] Hb. unfold scan_range_entries_page, backed in *. rewrite Hn.
  destruct (versioned_manager w m) as [tree|] eqn:E; [|by rewrite Hb, <- raw_page].
  pose proof (manager_tree _ _ _ E) as Et. destruct Hb as (root & V & [= <-] & Hst & <- & Hf).
  rewrite Et, (page_version _ _ V) by done. cbn [mbind option_bind fmap option_fmap option_map].
  unfold prefixed. pose proof (ns_range_bounded (prefix m) (contents V) s e) as Hall.
  rewrite <- (ns_range_of _ _ s (Some e)). cbn [fmap option_fmap option_map]. f_equal.
  destruct rev; [rewrite <- strip_reverse|]; apply strip_page; [|done].
  rewrite Forall_forall in Hall |- *. intros x Hx. apply Hall. by apply elem_of_reverse.
Qed.

(** ** Writes *)

Context (U : BptreeNode -> Prop) {HU : CodecLaws U}.

Definition world_inv (w : World DB) : Prop :=
  match w_tree w with Some st => tree_inv U (mkTree (w_db w) st) | None => True end.

(** The map the writes of [m] go to. *)
Definition write_backed (w : World DB) (m : Mdb) (base : gmap bytes bytes) : Prop :=
  match versioned_manager w m with
  | Some tree => exists V, stored (denv (w_db w)) (write_root tree) V /\ contents V = base
  | None => base = db_view (w_db w)
  end.

(** Neither string is a prefix of the other. *)
Definition apart (p q : bytes) : Prop := forall a b, p ++ a <> q ++ b.

Definition op_change (m : Mdb) (op : batch_op) : Change :=
  match op with BPut k v => (prefixed m k, Some v) | BDelete k => (prefixed m k, None) end.

Definition op_prefixed (m : Mdb) (op : batch_op) : batch_op :=
  match op with BPut k v => BPut (prefixed m k) v | BDelete k => BDelete (prefixed m k) end.

Lemma batch_calls_changes m build buf :
  foldl (batch_call m) (mkMdbBatch None (Some buf)) build
  = mkMdbBatch None (Some (buf ++ map (op_change m) build)).
Proof.
  revert buf; induction build as [|op build IH]; intros buf; cbn [foldl map]; [by rewrite app_nil_r|].
  destruct op; cbn [batch_call batch_put batch_delete mb_changes mb_wb]; rewrite IH, <- app_assoc; done.
Qed.

Lemma batch_calls_wb m build wb :
  foldl (batch_call m) (mkMdbBatch (Some wb) None) build
  = mkMdbBatch (Some (wb ++ map (op_prefixed m) build)) None.
Proof.
  revert wb; induction build as [|op build IH]; intros wb; cbn [foldl map]; [by rewrite app_nil_r|].
  destruct op; cbn [batch_call batch_put batch_delete mb_changes mb_wb]; rewrite IH, <- app_assoc; done.
Qed.

Lemma ns_of_update p k v b : ns_of p (kv_update (p ++ k) v b) = kv_update k v (ns_of p b).
Proof.
  apply map_eq. intros x. rewrite ns_of_lookup, !kv_update_lookup, ns_of_lookup.
  repeat case_decide; simplify_eq; try done.
Qed.

Lemma ns_of_update_apart p q k v b : apart p q -> ns_of q (kv_update (p ++ k) v b) = ns_of q b.
Proof.
  intros Ha. apply map_eq. intros x. rewrite !ns_of_lookup, kv_update_lookup.
  case_decide as E; [by destruct (Ha k x)|done].
Qed.

Lemma ns_changes m build b :
  ns_of (prefix m) (apply_changes b (map (op_change m) build))
  = apply_ops (ns_of (prefix m) b) build
  /\ forall q, apart (prefix m) q ->
     ns_of q (apply_changes b (map (op_change m) build)) = ns_of q b.
Proof.
  revert b; induction build as [|op build IH]; intros b; [done|].
  set (b' := change_update b (op_change m op)). specialize (IH b') as [H1 H2].
  assert (E : exists k v, op_change m op = (prefix m ++ k, v)
            /\ forall x, apply_op x op = kv_update k v x) by (destruct op; eexists _, _; done).
  destruct E as (k & v & E & Eop). split.
  - change (ns_of (prefix m) (apply_changes b' (map (op_change m) build))
            = apply_ops (apply_op (ns_of (prefix m) b) op) build).
    rewrite H1. unfold b', change_update. by rewrite E, Eop, <- ns_of_update.
  - intros q Hq. change (ns_of q (apply_changes b' (map (op_change m) build)) = ns_of q b).
    rewrite H2 by done. unfold b', change_update. rewrite E. by apply ns_of_update_apart.
Qed.

Lemma apply_ops_changes m b build :
  apply_ops b (map (op_prefixed m) build) = apply_changes b (map (op_change m) build).
Proof.
  revert b; induction build as [|op build IH]; intros b; [done|].
  change (apply_ops (apply_op b (op_prefixed m op)) (map (op_prefixed m) build)
          = apply_changes (change_update b (op_change m op)) (map (op_change m) build)).
  rewrite IH. by destruct op.
Qed.

(** A batch through the tree. *)
Lemma bulk_write_versioned fuel w m tree V build :
  mdb_ok m -> world_inv w -> versioned_manager w m = Some tree ->
  stored (denv (w_db w)) (write_root tree) V ->
  let changes := map (op_change m) build in
  ht V + length changes < fuel -> Forall U (batch_built V (canonicalize changes)) ->
  build <> [] ->
  exists w' base', bulk_write fuel w m build = Some w' /\ world_inv w'
    /\ write_backed w' m base'
    /\ base' = apply_changes (contents V) changes.
Proof.
  intros [Hn Hp] HW E Hst changes Hf Hb Hne. pose proof E as E'. unfold versioned_manager in E.
  destruct (negb (versioned m) || is_null m) eqn:Ev; [done|].
  unfold world_inv in HW. destruct (w_tree w) as [st|] eqn:Ew; [|done]. injection E as <-.
  destruct (apply_batch_result U fuel (mkTree (w_db w) st) V changes HW Hst Hf Hb)
    as (T' & He & [HI _ _ Hst' _] & Hc); [by destruct build|].
  exists (with_tree T'), (apply_changes (contents V) changes). split_all; [|by destruct T'| |done].
  - unfold bulk_write. rewrite Hn, E', batch_calls_changes. cbn [mb_changes default app].
    unfold id. fold changes. by rewrite He.
  - unfold write_backed, versioned_manager. rewrite Ev. destruct T'. cbn in *. eauto.
Qed.

(** A batch on a raw namespace. *)
Lemma bulk_write_raw fuel w m build :
  mdb_ok m -> world_inv w -> versioned_manager w m = None -> apart (prefix m) ROOT_PREFIX ->
  exists w' base', bulk_write fuel w m build = Some w' /\ world_inv w'
    /\ write_backed w' m base'
    /\ base' = apply_changes (db_view (w_db w)) (map (op_change m) build).
Proof.
  intros [Hn Hp] HW E Ha.
  set (w' := mkWorld (db_write (w_db w) (map (op_prefixed m) build)) (w_tree w)).
  exists w', (db_view (w_db w')). split_all.
  - unfold bulk_write. by rewrite Hn, E, batch_calls_wb.
  - unfold world_inv in *. cbn [w_tree w' w_db]. destruct (w_tree w) as [st|]; [|done].
    apply (inv_foreign U (mkTree (w_db w) st)); [|done]. intros k Hk. cbn [tdb w' w_db].
    rewrite db_write_spec. apply apply_ops_other, Forall_fmap, Forall_true. intros op.
    apply starts_with_iff in Hk as [r ->]. destruct op; cbn; apply Ha.
  - unfold write_backed. assert (versioned_manager w' m = None) as -> by
      (revert E; unfold versioned_manager; cbn; by destruct (_ || _), (w_tree w)). done.
  - cbn. by rewrite db_write_spec, apply_ops_changes.
Qed.

End Namespace.
