(* ===== verification/MdbClaims.v ===== *)
(** * Namespaces: the properties *)
From stdpp Require Import strings.
From S2P Require Import Prelude Bytes Rocks TreeNode TreeDb BTree TreeRefine TreeBatch.
From S2P Require Import TreeScan TreeMulti TreeBlocks TreeHeights Demo Mdb MdbProps.

Open Scope nat_scope.

Section Claims.
Context {DB : Type} {rocks : RocksDB DB} {laws : RocksLaws DB}.
Context {codec : NodeCodec} (U : BptreeNode -> Prop) {HU : CodecLaws U}.

(** C19: point reads of a handle, single and batched, are lookups in the namespace's own map,
    whether the handle is backed by the raw database or by the tree's active version. *)
Theorem namespace_reads fuel w m base k ks :
  mdb_ok m -> backed fuel w m at_tip base ->
  get fuel w m k = Some (ns_of (prefix m) base !! k)
  /\ multi_get fuel w m ks = Some (map (fun x => ns_of (prefix m) base !! x) ks).
Proof. intros. split; [by apply ns_get|by apply ns_multi_get]. Qed.

(** C20: prefix and range scans of a handle list the namespace's own map: exactly the entries
    asked for, in key order, with the namespace prefix removed and nothing of a neighbouring
    namespace, on both backends. *)
Theorem namespace_scans fuel w m base q s e :
  mdb_ok m -> backed fuel w m at_tip base ->
  scan_prefix_entries fuel w m q
    = Some (filter (fun x : kv => starts_with x.1 q = true) (map_entries (ns_of (prefix m) base)))
  /\ scan_range_entries fuel w m s e = Some (range_of (ns_of (prefix m) base) s e).
Proof. intros. split; [by apply ns_scan_prefix|by apply ns_scan_range]. Qed.

(** a page of a bounded range is the slice [offset, offset + limit) of the namespace's
    entries in the range, in either direction, on both backends. *)
Theorem namespace_page fuel w m base s e offset limit rev :
  mdb_ok m -> backed fuel w m at_tip base ->
  scan_range_entries_page fuel w m s (Some e) offset limit rev
  = Some (take limit (drop offset
      (if rev : bool then reverse (range_of (ns_of (prefix m) base) s (Some e))
       else range_of (ns_of (prefix m) base) s (Some e)))).
Proof. apply ns_page. Qed.

(** reads at a block hash answer from the namespace as that block left it. *)
Theorem namespace_history fuel w m bh base k q s e :
  mdb_ok m -> backed fuel w m (at_block bh) base ->
  get_at_blockhash fuel w m bh k = Some (ns_of (prefix m) base !! k)
  /\ scan_prefix_entries_at_blockhash fuel w m bh q
     = Some (filter (fun x : kv => starts_with x.1 q = true) (map_entries (ns_of (prefix m) base)))
  /\ scan_range_entries_at_blockhash fuel w m bh s e = Some (range_of (ns_of (prefix m) base) s e).
Proof.
  intros. split_all; [by apply ns_get_at|by apply ns_scan_prefix_at|by apply ns_scan_range_at].
Qed.

(** C23: a bulk write through a versioned handle returns, keeps the tree's invariant, applies
    its calls in order to the namespace and leaves every other namespace as it was. *)
Theorem bulk_write_through_tree fuel w m tree V build :
  mdb_ok m -> world_inv U w -> versioned_manager w m = Some tree ->
  stored (denv (w_db w)) (write_root tree) V ->
  ht V + length build < fuel ->
  Forall U (batch_built V (canonicalize (map (op_change m) build))) -> build <> [] ->
  exists w' base', bulk_write fuel w m build = Some w' /\ world_inv U w' /\ write_backed w' m base'
    /\ ns_of (prefix m) base' = apply_ops (ns_of (prefix m) (contents V)) build
    /\ forall q, apart (prefix m) q -> ns_of q base' = ns_of q (contents V).
Proof.
  intros Hok HW E Hst Hf HB Hne.
  destruct (bulk_write_versioned U fuel w m tree V build) as (w' & base' & He & HW' & Hb & ->); try done.
  { by rewrite length_map. }
  exists w', (apply_changes (contents V) (map (op_change m) build)).
  split_all; try done; apply ns_changes.
Qed.

(** a bulk write through a raw handle does the same to the database rows, and does not
    disturb the tree stored beside it. *)
Theorem bulk_write_raw_rows fuel w m build :
  mdb_ok m -> world_inv U w -> versioned_manager w m = None -> apart (prefix m) ROOT_PREFIX ->
  exists w', bulk_write fuel w m build = Some w' /\ world_inv U w'
    /\ ns_of (prefix m) (db_view (w_db w')) = apply_ops (ns_of (prefix m) (db_view (w_db w))) build
    /\ forall q, apart (prefix m) q -> ns_of q (db_view (w_db w')) = ns_of q (db_view (w_db w)).
Proof.
  intros Hok HW E Ha.
  destruct (bulk_write_raw U fuel w m build Hok HW E Ha) as (w' & base' & He & HW' & Hb & ->).
  assert (E' : versioned_manager w' m = None).
  { unfold bulk_write in He. rewrite (proj1 Hok), E in He. injection He as <-.
    revert E. unfold versioned_manager. cbn. by destruct (_ || _), (w_tree w). }
  unfold write_backed in Hb. rewrite E' in Hb.
  exists w'. rewrite <- Hb. split_all; try done; apply ns_changes.
Qed.

End Claims.

(** ** Applications *)

Definition demo_w0 : World DemoDB := with_tree demo_T0.
Definition demo_w1 : World DemoDB := with_tree demo_T1.
Definition demo_m : Mdb := from_db (bstr "essentials:").
Definition raw_m : Mdb := from_db (bstr "runes:").

Lemma demo_m_ok : mdb_ok demo_m.
Proof. split; [done|]. intros _. unfold demo_m. cbn [prefix from_db from_parts]. set_solver. Qed.

Lemma raw_m_ok : mdb_ok raw_m.
Proof. by split. Qed.

Lemma demo_backed : backed 3 demo_w1 demo_m at_tip (contents demo_V1).
Proof.
  change (exists root V, at_tip demo_T1 = Some root /\ stored (denv (tdb demo_T1)) root V
    /\ contents V = contents demo_V1 /\ scan_fuel V < 3).
  exists (active_root demo_T1), demo_V1. split_all; [done|exact demo_stored1|done|vm_compute; lia].
Qed.

Lemma raw_m_apart : apart (prefix raw_m) ROOT_PREFIX.
Proof. intros a b. cbn. discriminate. Qed.

Lemma demo_w0_inv : world_inv demo_U demo_w0.
Proof. exact demo_inv0. Qed.

Lemma namespace_reads_witness :
  get 3 demo_w1 demo_m (bstr "k") = Some (ns_of (prefix demo_m) (contents demo_V1) !! bstr "k")
  /\ multi_get 3 demo_w1 demo_m [bstr "k"]
     = Some (map (fun x => ns_of (prefix demo_m) (contents demo_V1) !! x) [bstr "k"]).
Proof. apply (namespace_reads 3); [exact demo_m_ok|exact demo_backed]. Defined.

Lemma namespace_scans_witness :
  scan_prefix_entries 3 demo_w1 demo_m (bstr "k")
    = Some (filter (fun x : kv => starts_with x.1 (bstr "k") = true)
              (map_entries (ns_of (prefix demo_m) (contents demo_V1))))
  /\ scan_range_entries 3 demo_w1 demo_m (bstr "a") (Some (bstr "z"))
     = Some (range_of (ns_of (prefix demo_m) (contents demo_V1)) (bstr "a") (Some (bstr "z"))).
Proof. apply (namespace_scans 3); [exact demo_m_ok|exact demo_backed]. Defined.

Lemma namespace_page_witness :
  scan_range_entries_page 3 demo_w1 demo_m (bstr "a") (Some (bstr "z")) 0 10 true
  = Some (take 10 (drop 0 (reverse
      (range_of (ns_of (prefix demo_m) (contents demo_V1)) (bstr "a") (Some (bstr "z")))))).
Proof.
  apply (namespace_page 3 demo_w1 demo_m (contents demo_V1) (bstr "a") (bstr "z") 0 10 true);
    [exact demo_m_ok|exact demo_backed].
Defined.

Definition demo_w5 : World DemoDB := with_tree demo_T5.

Lemma demo_backed5 : backed 3 demo_w5 demo_m (at_block (demo_hash 7)) (contents empty_tree).
Proof.
  change (exists root V, at_block (demo_hash 7) demo_T5 = Some root
    /\ stored (denv (tdb demo_T5)) root V
    /\ contents V = contents empty_tree /\ scan_fuel V < 3).
  exists empty_root_id, empty_tree.
  split_all; [exact demo_root5|exact demo_stored5|done|vm_compute; lia].
Qed.

Lemma namespace_history_witness :
  get_at_blockhash 3 demo_w5 demo_m (demo_hash 7) (bstr "a")
    = Some (ns_of (prefix demo_m) (contents empty_tree) !! bstr "a")
  /\ scan_prefix_entries_at_blockhash 3 demo_w5 demo_m (demo_hash 7) (bstr "a")
     = Some (filter (fun x : kv => starts_with x.1 (bstr "a") = true)
               (map_entries (ns_of (prefix demo_m) (contents empty_tree))))
  /\ scan_range_entries_at_blockhash 3 demo_w5 demo_m (demo_hash 7) (bstr "a") None
     = Some (range_of (ns_of (prefix demo_m) (contents empty_tree)) (bstr "a") None).
Proof. apply (namespace_history 3); [exact demo_m_ok|exact demo_backed5]. Defined.

Definition demo_build : list batch_op := [BDelete (bstr "k"); BPut (bstr "k") demo_value].

Lemma bulk_write_through_tree_witness :
  exists w' base', bulk_write 4 demo_w0 demo_m demo_build = Some w'
    /\ world_inv demo_U w' /\ write_backed w' demo_m base'
    /\ ns_of (prefix demo_m) base'
       = apply_ops (ns_of (prefix demo_m) (contents empty_tree)) demo_build
    /\ forall q, apart (prefix demo_m) q -> ns_of q base' = ns_of q (contents empty_tree).
Proof.
  apply (bulk_write_through_tree demo_U 4 demo_w0 demo_m demo_T0 empty_tree demo_build).
  - exact demo_m_ok.
  - exact demo_w0_inv.
  - reflexivity.
  - exact demo_stored0.
  - cbn. lia.
  - vm_compute. repeat constructor.
  - discriminate.
Defined.

Lemma bulk_write_raw_rows_witness :
  exists w', bulk_write 4 demo_w0 raw_m demo_build = Some w' /\ world_inv demo_U w'
    /\ ns_of (prefix raw_m) (db_view (w_db w'))
       = apply_ops (ns_of (prefix raw_m) (db_view (w_db demo_w0))) demo_build
    /\ forall q, apart (prefix raw_m) q ->
         ns_of q (db_view (w_db w')) = ns_of q (db_view (w_db demo_w0)).
Proof.
  apply (bulk_write_raw_rows demo_U 4 demo_w0 raw_m demo_build).
  - exact raw_m_ok.
  - exact demo_w0_inv.
  - reflexivity.
  - exact raw_m_apart.
Defined.
