(* ===== verification/Pointers.v ===== *)
(** * Pointers

    [src/runtime/pointers.rs]: how the tables of a module address its namespace.  A pointer
    is a handle and a key; selecting below it extends the key.  A list pointer also pages
    through the rows under its key from the greatest down, with the last key of a page as
    the cursor of the next.  The handle's world is passed along, as for [Mdb].  The
    properties close the file. *)
From stdpp Require Import strings.
From S2P Require Import Prelude Bytes Rocks TreeNode TreeDb BTree TreeRefine TreeBatch.
From S2P Require Import TreeScan TreeMulti TreeBlocks TreeHeights Mdb MdbProps.
From S2P Require Import Demo MdbClaims.
Open Scope nat_scope.

Record CursorScanPage := mkPage { pg_entries : list kv; next_cursor : option bytes; has_more : bool }.

Definition CursorScanPage_default : CursorScanPage := mkPage [] None false.

Record KvPointer := mkKvPointer { kp_mdb : Mdb; kp_key : bytes }.
Record ListPointer := mkListPointer { lp_mdb : Mdb; lp_key : bytes }.

Definition kv_root (m : Mdb) : KvPointer := mkKvPointer m [].
Definition kv_select (p : KvPointer) (suffix : bytes) : KvPointer := mkKvPointer (kp_mdb p) (kp_key p ++ suffix).
Definition kv_keyword (p : KvPointer) (suffix : string) : KvPointer := kv_select p (bstr suffix).
Definition kv_list_select (p : KvPointer) (suffix : bytes) : ListPointer := mkListPointer (kp_mdb p) (kp_key p ++ suffix).
Definition kv_list_keyword (p : KvPointer) (suffix : string) : ListPointer := kv_list_select p (bstr suffix).

Definition list_root (m : Mdb) : ListPointer := mkListPointer m [].
Definition list_select (p : ListPointer) (suffix : bytes) : ListPointer := mkListPointer (lp_mdb p) (lp_key p ++ suffix).
Definition list_keyword (p : ListPointer) (suffix : string) : ListPointer := list_select p (bstr suffix).
Definition list_kv_select (p : ListPointer) (suffix : bytes) : KvPointer := mkKvPointer (lp_mdb p) (lp_key p ++ suffix).
Definition list_kv_keyword (p : ListPointer) (suffix : string) : KvPointer := list_kv_select p (bstr suffix).

Section Pointers.
Context {DB : Type} {rocks : RocksDB DB} {codec : NodeCodec}.
Context (fuel : nat).

(** ** Key-value pointers *)

Definition kv_get (w : World DB) (p : KvPointer) : option (option bytes) := Mdb.get fuel w (kp_mdb p) (kp_key p).

Definition kv_get_at_blockhash (w : World DB) (p : KvPointer) (block_hash : bytes) : option (option bytes) :=
  Mdb.get_at_blockhash fuel w (kp_mdb p) block_hash (kp_key p).

Definition kv_put (w : World DB) (p : KvPointer) (value : bytes) : option (World DB) := Mdb.put fuel w (kp_mdb p) (kp_key p) value.

Definition kv_multi_get (w : World DB) (p : KvPointer) (keys : list bytes) : option (list (option bytes)) :=
  Mdb.multi_get fuel w (kp_mdb p) (map (fun k => kp_key p ++ k) keys).

Definition kv_multi_get_at_blockhash (w : World DB) (p : KvPointer) (block_hash : bytes) (keys : list bytes)
    : option (list (option bytes)) :=
  mapM (fun key => Mdb.get_at_blockhash fuel w (kp_mdb p) block_hash key) (map (fun k => kp_key p ++ k) keys).

Definition kv_bulk_write (w : World DB) (p : KvPointer) (build : list batch_op) : option (World DB) :=
  Mdb.bulk_write fuel w (kp_mdb p) build.

(** ** List pointers *)

Definition list_get (w : World DB) (p : ListPointer) : option (option bytes) := Mdb.get fuel w (lp_mdb p) (lp_key p).

Definition list_get_at_blockhash (w : World DB) (p : ListPointer) (block_hash : bytes) : option (option bytes) :=
  Mdb.get_at_blockhash fuel w (lp_mdb p) block_hash (lp_key p).

Definition list_put (w : World DB) (p : ListPointer) (value : bytes) : option (World DB) := Mdb.put fuel w (lp_mdb p) (lp_key p) value.

Definition list_multi_get (w : World DB) (p : ListPointer) (keys : list bytes) : option (list (option bytes)) :=
  Mdb.multi_get fuel w (lp_mdb p) (map (fun k => lp_key p ++ k) keys).

Definition list_multi_get_at_blockhash (w : World DB) (p : ListPointer) (block_hash : bytes) (keys : list bytes)
    : option (list (option bytes)) :=
  mapM (fun key => Mdb.get_at_blockhash fuel w (lp_mdb p) block_hash key) (map (fun k => lp_key p ++ k) keys).

Definition list_bulk_write (w : World DB) (p : ListPointer) (build : list batch_op) : option (World DB) :=
  Mdb.bulk_write fuel w (lp_mdb p) build.

(** What [scan_desc_cursor_page] does with the entries of the scan. *)
Definition cut_page (entries : list kv) (cursor : option bytes) (limit : nat) : CursorScanPage :=
  let entries := sort_by (fun a b : kv => bytes_leb a.1 b.1) entries in
  let entries :=
    match cursor with
    | Some c => take (partition_point (fun e : kv => bytes_ltb e.1 c) entries) entries
    | None => entries
    end in
  let entries := reverse entries in
  let more := limit <? length entries in
  let entries := if more then take limit entries else entries in
  mkPage entries (if more then fst <$> last entries else None) more.

Definition scan_desc_cursor_page (w : World DB) (p : ListPointer) (at_blockhash : option bytes) (cursor : option bytes) (limit : nat)
    : option CursorScanPage :=
  if limit =? 0 then Some CursorScanPage_default
  else
    entries ← match at_blockhash with
              | Some blockhash => Mdb.scan_prefix_entries_at_blockhash fuel w (lp_mdb p) blockhash (lp_key p)
              | None => Mdb.scan_prefix_entries fuel w (lp_mdb p) (lp_key p)
              end;
    Some (cut_page entries cursor limit).

(** ** Two surfaces: versioned locators, payloads that are not *)

Record ListNonMutatePointer := mkNonMutate { locator : ListPointer; blob : ListPointer }.

Definition nm_root (locator_mdb blob_mdb : Mdb) : ListNonMutatePointer := mkNonMutate (list_root locator_mdb) (list_root blob_mdb).
Definition nm_key (p : ListNonMutatePointer) : bytes := lp_key (locator p).
Definition nm_select (p : ListNonMutatePointer) (suffix : bytes) : ListNonMutatePointer :=
  mkNonMutate (list_select (locator p) suffix) (list_select (blob p) suffix).
Definition nm_keyword (p : ListNonMutatePointer) (suffix : string) : ListNonMutatePointer := nm_select p (bstr suffix).
Definition locator_get (w : World DB) (p : ListNonMutatePointer) := list_get w (locator p).
Definition locator_get_at_blockhash (w : World DB) (p : ListNonMutatePointer) := list_get_at_blockhash w (locator p).
Definition blob_get (w : World DB) (p : ListNonMutatePointer) := list_get w (blob p).
Definition locator_multi_get (w : World DB) (p : ListNonMutatePointer) := list_multi_get w (locator p).
Definition locator_multi_get_at_blockhash (w : World DB) (p : ListNonMutatePointer) := list_multi_get_at_blockhash w (locator p).
Definition blob_multi_get (w : World DB) (p : ListNonMutatePointer) := list_multi_get w (blob p).
Definition locator_put (w : World DB) (p : ListNonMutatePointer) := list_put w (locator p).
Definition blob_put (w : World DB) (p : ListNonMutatePointer) := list_put w (blob p).
Definition locator_bulk_write (w : World DB) (p : ListNonMutatePointer) := list_bulk_write w (locator p).
Definition blob_bulk_write (w : World DB) (p : ListNonMutatePointer) := list_bulk_write w (blob p).
Definition locator_scan_desc_cursor_page (w : World DB) (p : ListNonMutatePointer) := scan_desc_cursor_page w (locator p).

(** A reader that follows the cursors. *)
Fixpoint walk_pages (rounds : nat) (w : World DB) (p : ListPointer) (at_blockhash cursor : option bytes) (limit : nat)
    : option (list (list kv)) :=
  match rounds with
  | O => None
  | S rounds =>
      page ← scan_desc_cursor_page w p at_blockhash cursor limit;
      if has_more page then
        rest ← walk_pages rounds w p at_blockhash (next_cursor page) limit; Some (pg_entries page :: rest)
      else Some [pg_entries page]
  end.

End Pointers.

(** ** A page of sorted entries *)

Lemma sort_by_entries l : sorted_entries l -> sort_by (fun a b : kv => bytes_leb a.1 b.1) l = l.
Proof.
  induction 1 as [|e l Hs IH Hall]; [done|]. cbn [sort_by]. rewrite IH. destruct Hall as [|e' l He _]; [done|].
  cbn [insert_by]. apply blt_ble in He. unfold bytes_leb. by rewrite He.
Qed.

(** The cursor stands between the entries still to come and those already seen. *)
Definition cursor_at (seen : list kv) (cursor : option bytes) : Prop :=
  match seen with [] => cursor = None | e :: _ => cursor = Some e.1 end.

Lemma before_cursor rest seen c :
  sorted_entries (rest ++ seen) -> cursor_at seen (Some c) ->
  take_while (fun e : kv => bytes_ltb e.1 c) (rest ++ seen) = rest.
Proof.
  intros Hs Hc. destruct seen as [|e seen]; [done|]. injection Hc as ->.
  rewrite take_while_app.
  - cbn. rewrite (proj2 (bytes_ltb_false e.1 e.1)) by apply ble_refl. by rewrite app_nil_r.
  - apply StronglySorted_app in Hs as (Hlt & _ & _). apply Forall_forall. intros x Hx. apply Hlt; [done|set_solver].
Qed.

Lemma cut_page_spec rest seen cursor limit :
  sorted_entries (rest ++ seen) -> cursor_at seen cursor ->
  cut_page (rest ++ seen) cursor limit =
  mkPage (take limit (reverse rest)) (if limit <? length rest then fst <$> last (take limit (reverse rest)) else None)
    (limit <? length rest).
Proof.
  intros Hs Hc. unfold cut_page. rewrite sort_by_entries by done.
  assert (E : match cursor with
              | Some c => take (partition_point (fun e : kv => bytes_ltb e.1 c) (rest ++ seen)) (rest ++ seen)
              | None => rest ++ seen end = rest).
  { destruct cursor as [c|].
    - rewrite take_partition_point. by apply before_cursor.
    - destruct seen; [by rewrite app_nil_r|done]. }
  rewrite E, length_reverse. destruct (Nat.ltb_spec limit (length rest)) as [|Hge]; [done|].
  rewrite take_ge by (by rewrite length_reverse). done.
Qed.

Section Paging.
Context {DB : Type} {rocks : RocksDB DB} {laws : RocksLaws DB} {codec : NodeCodec}.

(** The entries a list pointer sees. *)
Definition list_entries (p : ListPointer) (base : gmap bytes bytes) : list kv :=
  filter (fun x : kv => starts_with x.1 (lp_key p) = true) (map_entries (ns_of (prefix (lp_mdb p)) base)).

Lemma list_entries_sorted p base : sorted_entries (list_entries p base).
Proof. apply sorted_entries_filter, map_entries_sorted. Qed.

Definition at_of (at_blockhash : option bytes) : VersionedTreeDb DB -> option bytes :=
  match at_blockhash with Some bh => at_block bh | None => at_tip end.

Lemma scan_page_spec fuel w p at_blockhash base cursor limit :
  mdb_ok (lp_mdb p) -> backed fuel w (lp_mdb p) (at_of at_blockhash) base -> limit <> 0 ->
  scan_desc_cursor_page fuel w p at_blockhash cursor limit = Some (cut_page (list_entries p base) cursor limit).
Proof using laws.
  intros Hok Hb Hl. unfold scan_desc_cursor_page. rewrite (proj2 (Nat.eqb_neq limit 0)) by done.
  destruct at_blockhash as [bh|]; cbn in Hb.
  - by rewrite (ns_scan_prefix_at fuel w (lp_mdb p) bh base).
  - by rewrite (ns_scan_prefix fuel w (lp_mdb p) base).
Qed.

(** Following the cursors visits what is left, a full page at a time. *)
Lemma walk_pages_spec fuel w p at_blockhash base limit :
  mdb_ok (lp_mdb p) -> backed fuel w (lp_mdb p) (at_of at_blockhash) base -> limit <> 0 ->
  forall rounds rest seen cursor,
  list_entries p base = rest ++ seen -> cursor_at seen cursor -> length rest < rounds ->
  exists pages, walk_pages fuel rounds w p at_blockhash cursor limit = Some pages
    /\ concat pages = reverse rest
    /\ forall i page, pages !! i = Some page -> length page <= limit /\ (S i < length pages -> length page = limit).
Proof using laws.
  intros Hok Hb Hl. induction rounds as [|rounds IH]; intros rest seen cursor E Hc Hlen; [lia|]. cbn [walk_pages].
  rewrite (scan_page_spec fuel w p at_blockhash base cursor limit) by done. cbn [mbind option_bind].
  pose proof (list_entries_sorted p base) as Hs. rewrite E in Hs |- *. rewrite (cut_page_spec rest seen cursor limit) by done.
  cbn [has_more next_cursor pg_entries]. destruct (Nat.ltb_spec limit (length rest)) as [Hlt|Hge].
  - set (page := take limit (reverse rest)).
    assert (Hpl : length page = limit) by (unfold page; rewrite length_take, length_reverse; lia).
    destruct (last page) as [e|] eqn:Ee; [|apply last_None in Ee; rewrite Ee in Hpl; cbn in Hpl; lia]. cbn [fmap option_fmap option_map].
    destruct (IH (reverse (drop limit (reverse rest))) (reverse page ++ seen) (Some e.1)) as (pages & Hw & Hcat & Hall).
    + rewrite E, app_assoc, <- reverse_app. unfold page. by rewrite take_drop, reverse_involutive.
    + apply last_Some in Ee as [l ->]. rewrite reverse_app. done.
    + rewrite length_reverse, length_drop, length_reverse. lia.
    + rewrite Hw. cbn [mbind option_bind]. eexists. split; [done|]. split.
      * cbn [concat]. rewrite Hcat, reverse_involutive. apply take_drop.
      * intros [|i] pg Hi; cbn in Hi; [injection Hi as <-; lia|]. destruct (Hall i pg Hi) as [H1 H2]. split; [done|]. cbn. intros. apply H2. lia.
  - rewrite take_ge by (by rewrite length_reverse). eexists. split; [done|]. split; [cbn; by rewrite app_nil_r|].
    intros [|i] pg Hi; cbn in Hi; [|done]. injection Hi as <-. rewrite length_reverse. cbn. lia.
Qed.

End Paging.


Section Claims.
Context {DB : Type} {rocks : RocksDB DB} {laws : RocksLaws DB} {codec : NodeCodec}.

(** C36: a reader that starts without a cursor and follows the cursors of the pages comes to
    an end, within one round more than there are rows: every row under the list pointer's key
    is shown exactly once, from the greatest key down, every page but the last is full and no
    page is over the limit, at the tip or at a past block. *)
Theorem pages_visit_all fuel w p at_blockhash base limit :
  mdb_ok (lp_mdb p) -> backed fuel w (lp_mdb p) (at_of at_blockhash) base -> limit <> 0 ->
  exists pages,
    walk_pages fuel (S (length (list_entries p base))) w p at_blockhash None limit = Some pages
    /\ concat pages = reverse (list_entries p base)
    /\ forall i page, pages !! i = Some page ->
         length page <= limit /\ (S i < length pages -> length page = limit).
Proof.
  intros Hok Hb Hl. apply (walk_pages_spec fuel w p at_blockhash base limit Hok Hb Hl _ _ []); [by rewrite app_nil_r|done|lia].
Qed.

(** Selecting below a pointer only extends its key, so a row written through a nested pointer
    is the row its parent names with the joined suffix. *)
Lemma select_nests w fuel p a b v :
  kv_put fuel w (kv_select (kv_select p a) b) v = kv_put fuel w (kv_select p (a ++ b)) v
  /\ kv_get fuel w (kv_select (kv_select p a) b) = kv_get fuel w (kv_select p (a ++ b))
  /\ list_entries (kv_list_select (kv_select p a) b) = list_entries (kv_list_select p (a ++ b)).
Proof. unfold kv_put, kv_get, list_entries. cbn. by rewrite app_assoc. Qed.

End Claims.

Definition demo_list : ListPointer := list_root demo_m.

Lemma pages_visit_all_witness :
  exists pages,
    walk_pages 3 (S (length (list_entries demo_list (contents demo_V1)))) demo_w1 demo_list None None 1 = Some pages
    /\ concat pages = reverse (list_entries demo_list (contents demo_V1))
    /\ forall i page, pages !! i = Some page ->
         length page <= 1 /\ (S i < length pages -> length page = 1).
Proof. apply (pages_visit_all 3 demo_w1 demo_list None (contents demo_V1) 1); [exact demo_m_ok|exact demo_backed|lia]. Defined.
