(* ===== verification/Reorg.v ===== *)
(** * Modules, block commits and reorganisations

    The module interface and registry of [src/modules/defs.rs], the four-phase
    rollback of [src/modules/reorg.rs] and the parts of the indexer loop of
    [src/main.rs] that drive the tree: committing a block, rolling back a failed
    one, finding the first diverging height, and choosing where to resume.

    Modules are trait objects: the trait is the class [EspoModule], whose
    methods act on the shared [World] and on the module's own state. *)
From Stdlib Require Import Strings.Byte.
From stdpp Require Import strings.
From S2P Require Import Prelude Bytes Rocks TreeNode TreeDb Mdb.
From stdpp Require Import options.

Open Scope Z_scope.

(** [Result<()>] of a trait method: its message is not modelled. *)
Abbreviation Res := bool (only parsing).

Class EspoModule (DB M Blk : Type) := {
  get_name : M -> bytes;
  get_genesis_block : M -> Z;
  (** [config_spec]/[set_config]: the configured module, [None] when the section is missing
      or invalid. *)
  load_config : M -> option M;
  (** May read and clear the module's namespace. *)
  set_mdb : World DB -> M -> Mdb -> World DB * M;
  index_block : World DB -> M -> Blk -> World DB * M * Res;
  get_index_height : M -> option Z;
  preflight_reorg : World DB -> M -> Z -> Res;
  handle_reorg : World DB -> M -> Z -> World DB * M * Res;
}.

Inductive ReorgError :=
| CannotRollBack (name : bytes) (next_height : Z)
| RewindFailed (e : TreeError)
| HandleFailed (name : bytes) (next_height : Z)
| StillAhead (name : bytes) (height next_height : Z).

(** [u32] arithmetic of the heights. *)
Definition u32_max : Z := 2 ^ 32 - 1.
Definition sat_add (a b : Z) : Z := Z.min u32_max (a + b).
Definition sat_sub (a b : Z) : Z := Z.max 0 (a - b).

Section Ops.
Context {DB M Blk : Type} {rocks : RocksDB DB} {codec : NodeCodec} {mods : EspoModule DB M Blk}.

(** ** The registry: [module_db] is [true] when a database is shared, [false] in client mode. *)

Record ModuleRegistry := mkRegistry { modules : list M; module_db : bool }.

(** [None] is a panic. *)
Definition register_module (w : World DB) (reg : ModuleRegistry) (module : M)
    : option (World DB * ModuleRegistry) :=
  let name := get_name module in
  let essentials := bstr "essentials" in
  let allowed :=
    match modules reg with
    | [] => bytes_eqb name essentials
    | first :: _ => negb (bytes_eqb name essentials) && bytes_eqb (get_name first) essentials
    end in
  if negb allowed then None
  else
    module1 ← load_config module;
    let prefix_kv := name ++ bstr ":" in
    let mdb := if module_db reg then from_db prefix_kv else null prefix_kv in
    let '(w', module2) := set_mdb w module1 mdb in
    Some (w', mkRegistry (modules reg ++ [module2]) (module_db reg)).

(** ** Rolling back *)

Definition rewind_tree_to_before (w : World DB) (next_height : Z) : World DB + TreeError :=
  match w_tree w with
  | None => inl w
  | Some st =>
      let tree := mkTree (w_db w) st in
      let target_height :=
        if next_height <? 1 then None
        else
          let parent_height := next_height - 1 in
          match indexed_height_bounds tree with
          | Some (first_height, _) =>
              if first_height <=? parent_height then Some parent_height else None
          | None => None
          end in
      match rewind_to_height tree target_height with
      | inl tree' => inl (with_tree tree')
      | inr e => inr e
      end
  end.

Fixpoint preflight_all (w : World DB) (ms : list M) (next_height : Z) : option ReorgError :=
  match ms with
  | [] => None
  | m :: ms' =>
      if preflight_reorg w m next_height then preflight_all w ms' next_height
      else Some (CannotRollBack (get_name m) next_height)
  end.

Fixpoint handle_all (w : World DB) (ms : list M) (next_height : Z)
    : World DB * list M * option ReorgError :=
  match ms with
  | [] => (w, [], None)
  | m :: ms' =>
      let '(w1, m1, ok) := handle_reorg w m next_height in
      if ok : bool then
        let '(w2, ms2, e) := handle_all w1 ms' next_height in (w2, m1 :: ms2, e)
      else (w1, m1 :: ms', Some (HandleFailed (get_name m) next_height))
  end.

Fixpoint verify_all (ms : list M) (next_height : Z) : option ReorgError :=
  match ms with
  | [] => None
  | m :: ms' =>
      match get_index_height m with
      | None => verify_all ms' next_height
      | Some height =>
          if next_height <=? height then Some (StillAhead (get_name m) height next_height)
          else verify_all ms' next_height
      end
  end.

(** The world and the modules after the call, and its error if any. *)
Definition handle_reorg_switch (w : World DB) (ms : list M) (next_height : Z)
    : World DB * list M * option ReorgError :=
  match preflight_all w ms next_height with
  | Some e => (w, ms, Some e)
  | None =>
      match rewind_tree_to_before w next_height with
      | inr e => (w, ms, Some (RewindFailed e))
      | inl w1 =>
          match handle_all w1 ms next_height with
          | (w2, ms2, Some e) => (w2, ms2, Some e)
          | (w2, ms2, None) => (w2, ms2, verify_all ms2 next_height)
          end
      end
  end.

Definition abort_tree (w : World DB) : World DB :=
  match w_tree w with
  | Some st => with_tree (abort_block (mkTree (w_db w) st))
  | None => w
  end.

Definition rollback_failed_block (w : World DB) (ms : list M) (next_height : Z)
    : World DB * list M * option ReorgError :=
  handle_reorg_switch (abort_tree w) ms next_height.

(** ** Resuming *)

Definition module_next (m : M) : Z :=
  let g := get_genesis_block m in
  match get_index_height m with
  | Some h => Z.max (sat_add h 1) g
  | None => g
  end.

Definition module_resume_start_height (ms : list M) (alkanes_genesis : Z) : Z :=
  match map module_next ms with
  | [] => alkanes_genesis
  | h :: hs => foldl Z.min h hs
  end.

Inductive StartupResult :=
| ResumeAt (height : Z)
| StartupRefused
| StartupFailed (e : ReorgError).

Definition apply_startup_rollback (w : World DB) (ms : list M)
    (requested_tip_height resume_start_height : Z) (view_only : bool)
    : World DB * list M * StartupResult :=
  if view_only then (w, ms, StartupRefused)
  else
    let current_tip_height := sat_sub resume_start_height 1 in
    if current_tip_height <? requested_tip_height then (w, ms, StartupRefused)
    else if u32_max <? requested_tip_height + 1 then (w, ms, StartupRefused)
    else
      let replay_start_height := requested_tip_height + 1 in
      if replay_start_height =? resume_start_height then (w, ms, ResumeAt resume_start_height)
      else
        match handle_reorg_switch w ms replay_start_height with
        | (w', ms', Some e) => (w', ms', StartupFailed e)
        | (w', ms', None) => (w', ms', ResumeAt replay_start_height)
        end.

(** ** Divergence *)

(** [chain h] is the node's answer for height [h], [None] an RPC error. *)
Fixpoint divergence_loop (fuel : nat) (chain stored : Z -> option bytes)
    (check_tip genesis_height h : Z) : option (option Z) :=
  match fuel with
  | O => None
  | S fuel' =>
      match chain h with
      | None => Some None
      | Some chain_hash =>
          match stored h with
          | None => Some None
          | Some indexed_hash =>
              if bytes_eqb indexed_hash chain_hash then
                if h =? check_tip then Some None else Some (Some (sat_add h 1))
              else if h =? genesis_height then Some (Some genesis_height)
              else divergence_loop fuel' chain stored check_tip genesis_height (sat_sub h 1)
          end
      end
  end.

Definition detect_first_divergence_height (fuel : nat) (w : World DB)
    (chain : Z -> option bytes) (indexed_tip active_tip genesis_height : Z)
    : option (option Z) :=
  match w_tree w with
  | None => Some None
  | Some st =>
      let check_tip := Z.min indexed_tip active_tip in
      if check_tip <? genesis_height then Some None
      else divergence_loop fuel chain (blockhash_for_height (mkTree (w_db w) st))
             check_tip genesis_height check_tip
  end.

(** [set_rewind_target]: the compare-exchange loop.  [seen] are the values the loads and the
    failed exchanges observe, in order; the exchange succeeds against the last of them. *)
Fixpoint set_rewind_target (seen : list Z) (divergence_height : Z) : option Z :=
  match seen with
  | [] => None
  | current :: seen' =>
      if divergence_height <? current then
        match seen' with
        | [] => Some divergence_height
        | _ :: _ => set_rewind_target seen' divergence_height
        end
      else None
  end.

(** ** Committing a block *)

Inductive BlockOutcome :=
| Committed
| RolledBack
| RollbackFailed (e : ReorgError).

(** The modules other than [runes], in order; the first failure stops the loop. *)
Fixpoint index_all (w : World DB) (ms : list M) (next_height : Z) (blk : Blk)
    : World DB * list M * Res :=
  match ms with
  | [] => (w, [], true)
  | m :: ms' =>
      if bytes_eqb (get_name m) (bstr "runes") || (next_height <? get_genesis_block m) then
        let '(w2, ms2, ok) := index_all w ms' next_height blk in (w2, m :: ms2, ok)
      else
        let '(w1, m1, ok1) := index_block w m blk in
        if ok1 : bool then
          let '(w2, ms2, ok) := index_all w1 ms' next_height blk in (w2, m1 :: ms2, ok)
        else (w1, m1 :: ms', false)
  end.

(** The last module named [runes], indexed after the tree has committed. *)
Fixpoint index_deferred (w : World DB) (ms : list M) (next_height : Z) (blk : Blk)
    : World DB * list M * Res :=
  match ms with
  | [] => (w, [], true)
  | m :: ms' =>
      if bytes_eqb (get_name m) (bstr "runes")
         && negb (existsb (fun m' => bytes_eqb (get_name m') (bstr "runes")) ms') then
        if next_height <? get_genesis_block m then (w, m :: ms', true)
        else
          let '(w1, m1, ok) := index_block w m blk in (w1, m1 :: ms', ok)
      else
        let '(w2, ms2, ok) := index_deferred w ms' next_height blk in (w2, m :: ms2, ok)
  end.

Definition begin_tree (w : World DB) (h : Z) (block_hash parent_hash : bytes)
    : World DB + TreeError :=
  match w_tree w with
  | None => inl w
  | Some st =>
      match begin_block (mkTree (w_db w) st) h block_hash parent_hash with
      | inl t => inl (with_tree t)
      | inr e => inr e
      end
  end.

Definition finish_tree (w : World DB) : World DB :=
  match w_tree w with
  | Some st => with_tree (finish_block (mkTree (w_db w) st))
  | None => w
  end.

Definition roll_back (w : World DB) (ms : list M) (next_height : Z)
    : World DB * list M * BlockOutcome :=
  match rollback_failed_block w ms next_height with
  | (w', ms', None) => (w', ms', RolledBack)
  | (w', ms', Some e) => (w', ms', RollbackFailed e)
  end.

(** One block of [run_indexer_loop], from the canonicality check to the summary update:
    [canonical] is the node's hash for the height, [None] an RPC error; [update_summary] is
    [update_indexed_block_interaction_summary], which writes the block's summary row into the
    raw blob namespace of [essentials]. *)
Definition commit_block (update_summary : World DB -> Blk -> World DB * Res)
    (w : World DB) (ms : list M) (next_height : Z)
    (block_hash parent_hash : bytes) (canonical : option bytes) (blk : Blk)
    : World DB * list M * BlockOutcome :=
  if negb (bool_decide (canonical = Some block_hash)) then roll_back w ms next_height
  else
    match begin_tree w next_height block_hash parent_hash with
    | inr _ => roll_back w ms next_height
    | inl w1 =>
        let '(w2, ms2, ok) := index_all w1 ms next_height blk in
        if negb ok then roll_back w2 ms2 next_height
        else
          let w3 := finish_tree w2 in
          let '(w4, ms4, ok4) := index_deferred w3 ms2 next_height blk in
          if negb ok4 then roll_back w4 ms4 next_height
          else
            let '(w5, ok5) := update_summary w4 blk in
            if ok5 : bool then (w5, ms4, Committed) else roll_back w5 ms4 next_height
    end.

End Ops.
Arguments ModuleRegistry : clear implicits.
Arguments mkRegistry {M} _ _.
