(* ===== verification/ReorgProps.v ===== *)
(** * What a reorganisation leaves behind

    Against the module interface: after a successful switch the tree stands at
    the last common block and no module is ahead of it; a veto changes nothing;
    the divergence search finds the first height at which the stored and the
    node's chains differ. *)
From stdpp Require Import strings.
From S2P Require Import Prelude Bytes Rocks TreeNode TreeDb BTree TreeRefine TreeBatch.
From S2P Require Import TreeScan TreeBlocks TreeHeights Mdb MdbProps Reorg.

Open Scope Z_scope.

(** A module that the registry has given a handle on its own namespace. *)
Class Wired (M : Type) := wired : M -> Prop.

(** What the rollback relies on in a module: it refreshes its own state and may write its raw
    namespace, but does not touch the shared tree. *)
Class ModuleLaws {DB M Blk : Type} `{!RocksDB DB} `{!EspoModule DB M Blk} `{!Wired M} : Prop := {
  handle_name (w : World DB) m h w' m' ok :
    handle_reorg w m h = (w', m', ok) -> get_name m' = get_name m;
  handle_wired (w : World DB) m h w' m' ok :
    wired m -> handle_reorg w m h = (w', m', ok) -> wired m';
  handle_keeps_tree (w : World DB) m h w' m' ok :
    wired m -> handle_reorg w m h = (w', m', ok) ->
    w_tree w' = w_tree w
    /\ forall k, starts_with k ROOT_PREFIX = true -> db_view (w_db w') !! k = db_view (w_db w) !! k;
}.
Arguments ModuleLaws DB M Blk {_ _ _}.

(** ** What the loops over the modules decide *)

Section Modules.
Context {DB M Blk : Type} {mods : EspoModule DB M Blk}.

Lemma verify_all_spec ms next :
  verify_all (mods := mods) ms next = None <->
  Forall (fun m => forall h, get_index_height m = Some h -> h < next) ms.
Proof.
  induction ms as [|m ms IH]; cbn; [by rewrite Forall_nil|]. rewrite Forall_cons, <- IH.
  destruct (get_index_height m) as [h|]; [|naive_solver].
  destruct (Z.leb_spec next h) as [Hle|Hlt]; [|naive_solver lia]. split; [done|]. intros [Hh _].
  specialize (Hh h eq_refl). lia.
Qed.

Lemma preflight_all_spec w ms next :
  preflight_all w ms next = None <-> Forall (fun m => preflight_reorg w m next = true) ms.
Proof.
  induction ms as [|m ms IH]; cbn; [by rewrite Forall_nil|]. rewrite Forall_cons, <- IH.
  destruct (preflight_reorg w m next); naive_solver.
Qed.

End Modules.

Section Props.
Context {DB M Blk : Type} {rocks : RocksDB DB} {laws : RocksLaws DB}.
Context {codec : NodeCodec} (U : BptreeNode -> Prop) {HU : CodecLaws U}.
Context {mods : EspoModule DB M Blk} {wrd : Wired M} {mlaws : ModuleLaws DB M Blk}.

Abbreviation tree_of w st := (mkTree (w_db w) st).

(** ** Rewinding before a height *)

Lemma blockhash_indexed T h bh :
  in_u32 h -> blockhash_for_height T h = Some bh -> indexed T h.
Proof.
  intros Hh. unfold blockhash_for_height. rewrite db_get_spec. split; [done|].
  destruct (db_view (tdb T) !! height_block_key h); [eauto|done].
Qed.

(** The target the rewind chooses. *)
Definition before_target (T : VersionedTreeDb DB) (next : Z) : option Z :=
  if next <? 1 then None
  else match indexed_height_bounds T with
       | Some (first, _) => if first <=? next - 1 then Some (next - 1) else None
       | None => None
       end.

Lemma rewind_before_eq w st next :
  w_tree w = Some st ->
  rewind_tree_to_before w next
  = match rewind_to_height (tree_of w st) (before_target (tree_of w st) next) with
    | inl t => inl (with_tree t) | inr e => inr e
    end.
Proof. intros E. unfold rewind_tree_to_before, before_target. by rewrite E. Qed.

Lemma before_target_above T next h :
  tree_inv U T -> in_u32 h ->
  (if above (before_target T next) h then None else blockhash_for_height T h)
  = if h <? next then blockhash_for_height T h else None.
Proof.
  intros HI Hh. unfold before_target. pose proof (bounds_spec U T HI) as Hb.
  assert (Hnone : (forall bh, blockhash_for_height T h = Some bh -> h < next -> False) ->
            None = if h <? next then blockhash_for_height T h else None).
  { intros H. destruct (Z.ltb_spec h next); [|done].
    destruct (blockhash_for_height T h) eqn:E; [|done]. exfalso. eauto. }
  destruct (Z.ltb_spec next 1) as [Hn|Hn].
  { cbn [above]. apply Hnone. intros bh _. unfold in_u32 in Hh. lia. }
  destruct (indexed_height_bounds T) as [[lo hi]|].
  - destruct Hb as (_ & _ & Hb). destruct (Z.leb_spec lo (next - 1)).
    + cbn [above]. destruct (Z.ltb_spec (next - 1) h), (Z.ltb_spec h next); try done; lia.
    + cbn [above]. apply Hnone. intros bh Hbh Hlt.
      specialize (Hb h (blockhash_indexed _ _ _ Hh Hbh)). lia.
  - cbn [above]. apply Hnone. intros bh Hbh _. by apply (Hb h), (blockhash_indexed _ _ bh).
Qed.

Lemma rewind_before_spec w st next w' :
  w_tree w = Some st -> tree_inv U (tree_of w st) ->
  rewind_tree_to_before w next = inl w' ->
  exists st', w_tree w' = Some st' /\ tree_inv U (tree_of w' st')
    /\ current_block st' = None /\ pinned_root st' = None
    /\ (forall h, in_u32 h -> blockhash_for_height (tree_of w' st') h
          = if h <? next then blockhash_for_height (tree_of w st) h else None)
    /\ rewind_target (tree_of w st) (before_target (tree_of w st) next)
       = inl (active_root_ st', active_block st').
Proof.
  intros E HI. rewrite (rewind_before_eq w st next E).
  destruct (rewind_to_height (tree_of w st) (before_target (tree_of w st) next)) as [t|e] eqn:Er; [|done].
  intros [= <-]. destruct (rewind_inv U _ _ _ HI Er) as [HI' _].
  exists (state t). destruct t as [d s]. cbn [with_tree w_tree w_db tdb state].
  pose proof (fun h => rewind_heights U _ _ _ h Er) as Hh.
  split_all; [done|done| | | |].
  - rewrite rewind_eq in Er. destruct (rewind_target _ _) as [[r b]|]; [|done]. by injection Er as <- <-.
  - rewrite rewind_eq in Er. destruct (rewind_target _ _) as [[r b]|]; [|done]. by injection Er as <- <-.
  - intros h Hu. rewrite (Hh h Hu). by apply before_target_above.
  - rewrite rewind_eq in Er. destruct (rewind_target _ _) as [[r b]|]; [|done]. by injection Er as <- <-.
Qed.

(** ** The switch *)

Lemma handle_all_tree w ms next w' ms' e :
  Forall wired ms -> handle_all w ms next = (w', ms', e) ->
  w_tree w' = w_tree w
  /\ forall k, starts_with k ROOT_PREFIX = true -> db_view (w_db w') !! k = db_view (w_db w) !! k.
Proof.
  revert w ms'. induction ms as [|m ms IH]; intros w ms' Hw H; cbn in H; [by simplify_eq|].
  apply Forall_cons in Hw as [Hm Hw]. destruct (handle_reorg w m next) as [[w1 m1] ok] eqn:E.
  destruct (handle_keeps_tree _ _ _ _ _ _ Hm E) as [Ht Hk]. destruct ok; [|by simplify_eq].
  destruct (handle_all w1 ms next) as [[w2 ms2] e2] eqn:E2. injection H as <- <- <-.
  destruct (IH _ _ Hw E2) as [Ht2 Hk2]. split; [congruence|]. intros k Hkp. by rewrite Hk2, Hk.
Qed.

Lemma blockhash_rows T db' h :
  (forall k, starts_with k ROOT_PREFIX = true -> db_view db' !! k = db_view (tdb T) !! k) ->
  blockhash_for_height (mkTree db' (state T)) h = blockhash_for_height T h.
Proof.
  intros Hk. unfold blockhash_for_height. cbn [tdb]. rewrite !db_get_spec, Hk; [done|].
  unfold height_block_key. done.
Qed.

Lemma switch_spec w st ms next w' ms' :
  w_tree w = Some st -> tree_inv U (tree_of w st) -> Forall wired ms ->
  handle_reorg_switch w ms next = (w', ms', None) ->
  Forall (fun m => forall h, get_index_height m = Some h -> h < next) ms'
  /\ exists st', w_tree w' = Some st' /\ tree_inv U (tree_of w' st')
    /\ current_block st' = None /\ pinned_root st' = None
    /\ (forall h, in_u32 h -> blockhash_for_height (tree_of w' st') h
          = if h <? next then blockhash_for_height (tree_of w st) h else None)
    /\ rewind_target (tree_of w st) (before_target (tree_of w st) next)
       = inl (active_root_ st', active_block st').
Proof.
  intros Et HI Hw. unfold handle_reorg_switch. destruct (preflight_all w ms next); [done|].
  destruct (rewind_tree_to_before w next) as [w1|] eqn:Er; [|done].
  destruct (handle_all w1 ms next) as [[w2 ms2] [e|]] eqn:Eh; [done|].
  intros [= -> -> Hv]. split; [by apply verify_all_spec|].
  destruct (rewind_before_spec w st next w1 Et HI Er) as (st1 & Et1 & HI1 & Hc & Hp & Hh & Ht).
  destruct (handle_all_tree _ _ _ _ _ _ Hw Eh) as [Htree Hk].
  exists st1. split_all; try done; [congruence| |].
  - by apply (inv_foreign U (tree_of w1 st1)).
  - intros h Hu. rewrite <- (Hh h Hu). by apply (blockhash_rows (tree_of w1 st1)).
Qed.

End Props.

(** ** Divergence *)

(** The stored and the node's hash at a height are both known and differ. *)
Definition diverges (chain stored : Z -> option bytes) (h : Z) : Prop :=
  exists a b, stored h = Some a /\ chain h = Some b /\ a <> b.

(** The answer of the search: the least height from which everything up to the tip differs. *)
Definition divergence_answer (chain stored : Z -> option bytes) (tip genesis : Z)
    (r : option Z) : Prop :=
  match r with
  | Some d => genesis <= d <= tip /\ (forall h, d <= h <= tip -> diverges chain stored h)
      /\ (d = genesis \/ exists a, stored (d - 1) = Some a /\ chain (d - 1) = Some a)
  | None => (exists a, stored tip = Some a /\ chain tip = Some a)
      \/ exists h, genesis <= h <= tip /\ (stored h = None \/ chain h = None)
  end.

Lemma divergence_loop_spec fuel chain stored tip genesis h :
  0 <= genesis <= h -> h <= tip <= u32_max -> h - genesis < Z.of_nat fuel ->
  (forall x, h < x <= tip -> diverges chain stored x) ->
  exists r, divergence_loop fuel chain stored tip genesis h = Some r
    /\ divergence_answer chain stored tip genesis r.
Proof.
  revert h. induction fuel as [|fuel IH]; intros h Hg Ht Hf Hd; [lia|]. cbn [divergence_loop].
  destruct (chain h) as [c|] eqn:Ec; [|exists None; split; [done|]; right; exists h; split; [lia|auto]].
  destruct (stored h) as [i|] eqn:Es; [|exists None; split; [done|]; right; exists h; split; [lia|auto]].
  unfold bytes_eqb. case_bool_decide as Heq.
  - subst i. destruct (Z.eqb_spec h tip) as [->|Hne]; [exists None; split; [done|left; eauto]|].
    exists (Some (h + 1)). unfold sat_add. rewrite Z.min_r by lia. split; [done|].
    split; [lia|]. split.
    + intros x Hx. apply Hd. lia.
    + right. exists c. by replace (h + 1 - 1) with h by lia.
  - assert (Hh : diverges chain stored h) by (exists i, c; done).
    assert (Hd' : forall x, h <= x <= tip -> diverges chain stored x).
    { intros x Hx. destruct (decide (x = h)) as [->|]; [done|]. apply Hd. lia. }
    destruct (Z.eqb_spec h genesis) as [->|Hne].
    + exists (Some genesis). split; [done|]. split; [lia|]. split; [done|by left].
    + unfold sat_sub. rewrite Z.max_r by lia.
      destruct (IH (h - 1)) as (r & Hr & Ha); [lia|lia|lia| |by exists r].
      intros x Hx. apply Hd'. lia.
Qed.

Section Registry.
Context {DB M Blk : Type} {rocks : RocksDB DB} {codec : NodeCodec} {mods : EspoModule DB M Blk}.

Lemma switch_veto w ms next e :
  preflight_all w ms next = Some e -> handle_reorg_switch w ms next = (w, ms, Some e).
Proof. intros H. unfold handle_reorg_switch. by rewrite H. Qed.

(** ** Resuming *)

Lemma foldl_min_le hs h : foldl Z.min h hs <= h /\ Forall (fun x => foldl Z.min h hs <= x) hs
  /\ foldl Z.min h hs ∈ h :: hs.
Proof.
  revert h; induction hs as [|x hs IH]; intros h; cbn [foldl].
  { split_all; [lia|constructor|set_solver]. }
  destruct (IH (Z.min h x)) as (H1 & H2 & H3). split_all; [lia|constructor; [lia|done]|].
  apply elem_of_cons in H3 as [H3|H3]; [|set_solver]. rewrite H3.
  destruct (Z.min_spec h x) as [[_ ->]|[_ ->]]; set_solver.
Qed.

Lemma resume_spec ms g :
  ms <> [] ->
  Forall (fun m => module_resume_start_height (mods := mods) ms g <= module_next m) ms
  /\ exists m, m ∈ ms /\ module_resume_start_height (mods := mods) ms g = module_next m.
Proof.
  intros Hne. unfold module_resume_start_height. destruct ms as [|m ms]; [done|]. cbn [map].
  destruct (foldl_min_le (map module_next ms) (module_next m)) as (H1 & H2 & H3). split.
  - constructor; [done|]. apply (proj1 (Forall_fmap _ _ _)) in H2. exact H2.
  - apply elem_of_cons in H3 as [H3|H3]; [exists m; split; [set_solver|done]|].
    apply list_elem_of_fmap in H3 as (x & Hx & Hin). exists x. split; [set_solver|done].
Qed.

(** ** The registry *)

(** [essentials] is the first module and the only one of that name. *)
Definition registry_ok (reg : ModuleRegistry M) : Prop :=
  match modules reg with
  | [] => True
  | first :: rest => get_name first = bstr "essentials"
      /\ Forall (fun m => get_name m <> bstr "essentials") rest
  end.

(** Names are constants of the module type: configuring and wiring a module keeps its name. *)
Hypothesis config_keeps_name : forall m m', load_config m = Some m' -> get_name m' = get_name m.
Hypothesis set_mdb_keeps_name : forall w m mdb, get_name (set_mdb w m mdb).2 = get_name m.

Lemma register_ok w reg m w' reg' :
  registry_ok reg -> register_module w reg m = Some (w', reg') ->
  registry_ok reg' /\ exists m', modules reg' = modules reg ++ [m'] /\ get_name m' = get_name m.
Proof.
  intros Hok. unfold register_module.
  destruct (negb _) eqn:Ea; [done|]. apply negb_false_iff in Ea.
  destruct (load_config m) as [m1|] eqn:El; [|done]. cbn.
  pose proof (set_mdb_keeps_name w m1 (if module_db reg then from_db (get_name m ++ bstr ":")
    else null (get_name m ++ bstr ":"))) as Hset.
  destruct (set_mdb w m1 _) as [w1 m'] eqn:Es. cbn in Hset. intros [= <- <-].
  assert (Hn : get_name m' = get_name m) by (rewrite Hset; by apply config_keeps_name).
  split; [|exists m'; done]. unfold registry_ok in *. cbn [modules].
  destruct (modules reg) as [|first rest]; cbn in *.
  - unfold bytes_eqb in Ea. apply bool_decide_eq_true in Ea. split; [congruence|constructor].
  - apply andb_true_iff in Ea as [E1 E2]. unfold bytes_eqb in E1, E2.
    rewrite negb_true_iff in E1. apply bool_decide_eq_false in E1. destruct Hok as [? Hr].
    split; [done|]. apply Forall_app. split; [done|]. repeat constructor. congruence.
Qed.

End Registry.
