(* ===== verification/CommitProps.v ===== *)
(** * Indexing a block

    [commit_block] against the module interface.  While a block is indexed the
    modules write through the tree and into raw namespaces; whatever they do and
    wherever they fail, the tree ends up either with the block committed on top
    of the old chain or rolled back to the heights below it. *)
From stdpp Require Import strings.
From S2P Require Import Prelude Bytes Rocks TreeNode TreeDb BTree TreeRefine TreeBatch.
From S2P Require Import TreeScan TreeBlocks TreeHeights Mdb MdbProps Reorg ReorgProps.

Open Scope Z_scope.

Section Writes.
Context {DB : Type} {rocks : RocksDB DB} {laws : RocksLaws DB}.
Context {codec : NodeCodec} (U : BptreeNode -> Prop).

Abbreviation tree_of w st := (mkTree (w_db w) st).

(** The rows of the tree are those of [w]. *)
Definition same_tree (w w' : World DB) : Prop :=
  w_tree w' = w_tree w
  /\ forall k, starts_with k ROOT_PREFIX = true -> db_view (w_db w') !! k = db_view (w_db w) !! k.

(** What a module may do to the shared world: write the tree, or rows that are not the tree's. *)
Inductive module_write (w : World DB) : World DB -> Prop :=
| mw_tree st T' :
    w_tree w = Some st -> tree_write U (tree_of w st) T' -> module_write w (with_tree T')
| mw_raw w' : same_tree w w' -> module_write w w'.

End Writes.

Class IndexLaws {DB M Blk : Type} `{!RocksDB DB} `{!NodeCodec} (U : BptreeNode -> Prop)
    `{!EspoModule DB M Blk} `{!Wired M} : Prop := {
  index_wired (w : World DB) m blk w' m' ok :
    wired m -> index_block w m blk = (w', m', ok) -> wired m';
  index_writes (w : World DB) m blk w' m' ok :
    wired m -> index_block w m blk = (w', m', ok) -> rtc (module_write U) w w';
  (** The runes module owns a raw namespace: it never writes the tree. *)
  runes_writes_raw (w : World DB) m blk w' m' ok :
    wired m -> get_name m = bstr "runes" -> index_block w m blk = (w', m', ok) -> same_tree w w';
}.
Arguments IndexLaws DB M Blk {_ _} U {_ _}.

Section Commit.
Context {DB M Blk : Type} {rocks : RocksDB DB} {laws : RocksLaws DB}.
Context {codec : NodeCodec} (U : BptreeNode -> Prop) {HU : CodecLaws U}.
Context {mods : EspoModule DB M Blk} {wrd : Wired M}.
Context {mlaws : ModuleLaws DB M Blk} {ilaws : IndexLaws DB M Blk U}.

Abbreviation tree_of w st := (mkTree (w_db w) st).

(** The stored chain, by height. *)
Definition heights_of (w : World DB) (h : Z) : option bytes :=
  match w_tree w with
  | Some st => blockhash_for_height (tree_of w st) h
  | None => None
  end.

(** [indexing h bh ph R w]: the block is open in [w], on top of the chain [R]. *)
Definition indexing (h : Z) (bh ph : bytes) (R : Z -> option bytes) (w : World DB) : Prop :=
  exists st ctx, w_tree w = Some st /\ tree_inv U (tree_of w st)
    /\ current_block st = Some ctx
    /\ bc_height ctx = h /\ bc_block_hash ctx = bh /\ bc_parent_hash ctx = ph
    /\ forall x, heights_of w x = R x.

(** [settled R w]: no block is open, the chain is [R]. *)
Definition settled (R : Z -> option bytes) (w : World DB) : Prop :=
  exists st, w_tree w = Some st /\ tree_inv U (tree_of w st) /\ current_block st = None
    /\ forall x, in_u32 x -> heights_of w x = R x.

Lemma heights_rows (w w' : World DB) st st' x :
  w_tree w = Some st -> w_tree w' = Some st' ->
  db_view (w_db w') !! height_block_key x = db_view (w_db w) !! height_block_key x ->
  heights_of w' x = heights_of w x.
Proof.
  intros E E' Hk. unfold heights_of, blockhash_for_height. rewrite E, E'. cbn [tdb].
  by rewrite !db_get_spec, Hk.
Qed.

Lemma height_key_tree x : starts_with (height_block_key x) ROOT_PREFIX = true.
Proof. done. Qed.

Lemma height_key_active x : height_block_key x <> META_ACTIVE_ROOT.
Proof. unfold height_block_key. done. Qed.

Lemma raw_write_keeps h bh ph R w w' :
  same_tree w w' -> indexing h bh ph R w -> indexing h bh ph R w'.
Proof.
  intros [Ht Hk] (st & ctx & E & HI & Hc & H1 & H2 & H3 & HR). exists st, ctx.
  split_all; try done; [congruence|by apply (inv_foreign U (tree_of w st))|].
  intros x. rewrite <- HR. apply (heights_rows w w' st st); [done|congruence|].
  apply Hk, height_key_tree.
Qed.

Lemma tree_write_keeps h bh ph R w st T' :
  w_tree w = Some st -> tree_write U (tree_of w st) T' ->
  indexing h bh ph R w -> indexing h bh ph R (with_tree T').
Proof.
  intros Ew Hw (st0 & ctx & E & HI & Hc & H1 & H2 & H3 & HR).
  assert (st0 = st) as -> by congruence.
  destruct (tree_write_result U _ _ HI Hw) as [->|(V & V' & Hres)].
  { destruct w as [db t]. cbn in Ew. subst t. by exists st, ctx. }
  pose proof (wr_state _ _ _ _ _ Hres) as [Hs _]. specialize (Hs _ Hc).
  destruct T' as [db' st']. cbn [state] in Hs.
  exists st', (set_working_root ctx (root_id V')).
  split_all; try done; [by apply Hres|by rewrite Hs|].
  intros x. rewrite <- HR. apply (heights_rows w (with_tree (mkTree db' st')) st st'); [done|done|].
  apply (wr_rows _ _ _ _ _ Hres); [auto with keys|apply height_key_active].
Qed.

Lemma writes_keep h bh ph R w w' :
  rtc (module_write U) w w' -> indexing h bh ph R w -> indexing h bh ph R w'.
Proof.
  induction 1 as [w|w w1 w2 [st T' E Hw|w1' Hs] _ IH]; intros Hi; [done| |]; apply IH.
  - by eapply tree_write_keeps.
  - by eapply raw_write_keeps.
Qed.

Lemma index_all_keeps h bh ph R w ms next blk w' ms' ok :
  Forall wired ms -> index_all w ms next blk = (w', ms', ok) -> indexing h bh ph R w ->
  indexing h bh ph R w' /\ Forall wired ms'.
Proof.
  revert w ms'. induction ms as [|m ms IH]; intros w ms' Hw H Hi; cbn in H; [by simplify_eq|].
  apply Forall_cons in Hw as [Hm Hw]. destruct (_ || _).
  - destruct (index_all w ms next blk) as [[w2 ms2] ok2] eqn:E. injection H as <- <- <-.
    destruct (IH _ _ Hw E Hi). split; [done|by constructor].
  - destruct (index_block w m blk) as [[w1 m1] ok1] eqn:E1.
    assert (Hi1 : indexing h bh ph R w1) by (eapply writes_keep; [by eapply index_writes|done]).
    pose proof (index_wired _ _ _ _ _ _ Hm E1) as Hm1.
    destruct ok1; [|simplify_eq; split; [done|by constructor]].
    destruct (index_all w1 ms next blk) as [[w2 ms2] ok2] eqn:E. injection H as <- <- <-.
    destruct (IH _ _ Hw E Hi1). split; [done|by constructor].
Qed.

Lemma settled_same R w w' : same_tree w w' -> settled R w -> settled R w'.
Proof.
  intros [Ht Hk] (st & E & HI & Hc & HR). exists st.
  split_all; try done; [congruence|by apply (inv_foreign U (tree_of w st))|].
  intros x Hx. rewrite <- HR by done. apply (heights_rows w w' st st); [done|congruence|].
  apply Hk, height_key_tree.
Qed.

Lemma index_deferred_keeps R w ms next blk w' ms' ok :
  Forall wired ms -> index_deferred w ms next blk = (w', ms', ok) -> settled R w ->
  settled R w' /\ Forall wired ms'.
Proof.
  revert w ms'. induction ms as [|m ms IH]; intros w ms' Hw H Hi; cbn in H; [by simplify_eq|].
  pose proof Hw as [Hm Hms]%Forall_cons. destruct (_ && _) eqn:Er.
  - destruct (next <? get_genesis_block m); [by simplify_eq|].
    destruct (index_block w m blk) as [[w1 m1] ok1] eqn:E1. injection H as <- <- <-.
    apply andb_true_iff in Er as [Er _]. unfold bytes_eqb in Er. apply bool_decide_eq_true in Er.
    split; [eapply settled_same; [by eapply runes_writes_raw|done]|].
    constructor; [by eapply index_wired|done].
  - destruct (index_deferred w ms next blk) as [[w2 ms2] ok2] eqn:E. injection H as <- <- <-.
    destruct (IH _ _ Hms E Hi). split; [done|by constructor].
Qed.

(** Opening and closing the block. *)
Lemma begin_tree_indexing R h bh ph w w1 :
  (exists st, w_tree w = Some st /\ tree_inv U (tree_of w st)) -> (forall x, heights_of w x = R x) ->
  in_u32 h -> length bh = 32%nat -> length ph = 32%nat ->
  begin_tree w h bh ph = inl w1 -> indexing h bh ph R w1.
Proof.
  intros (st & E & HI) HR Hh Hb Hp. unfold begin_tree. rewrite E.
  destruct (begin_block _ _ _ _) as [t|] eqn:Eb; [|done]. intros [= <-].
  pose proof (begin_inv U _ _ _ _ _ HI Hh Hb Hp Eb) as HI'. rewrite begin_block_eq in Eb.
  destruct (base_root _ _) as [r|]; [|done]. injection Eb as <-.
  eexists _, _. split_all; [done|exact HI'|done|done|done|done|].
  intros x. rewrite <- HR. by eapply heights_rows.
Qed.

(** The chain with a block on top. *)
Definition extended (R : Z -> option bytes) (h : Z) (bh : bytes) (x : Z) : option bytes :=
  if x =? h then Some bh else R x.

Lemma finish_tree_settled R h bh ph w :
  indexing h bh ph R w -> settled (extended R h bh) (finish_tree w)
  /\ exists st, w_tree (finish_tree w) = Some st
     /\ height_for_blockhash (tree_of (finish_tree w) st) bh = Some h
     /\ parent_for_blockhash (tree_of (finish_tree w) st) bh = Some ph.
Proof.
  intros (st & ctx & E & HI & Hc & <- & <- & <- & HR).
  destruct (finish_result U (tree_of w st) ctx HI Hc) as (_ & Hh & Hb & Hp & Hcb & _).
  pose proof (finish_inv U _ HI) as HI'. pose proof (ti_current U _ HI _ Hc) as [_ _ _ Hu].
  unfold finish_tree. rewrite E.
  destruct (finish_block (tree_of w st)) as [db' st'] eqn:Ef. split; [|by exists st'].
  exists st'. split_all; [done|done|done|]. intros x Hx. unfold extended.
  destruct (Z.eqb_spec x (bc_height ctx)) as [->|Hne]; [exact Hh|]. rewrite <- HR.
  apply (heights_rows w (with_tree (mkTree db' st')) st st'); [done|done|].
  pose proof (finish_view_row (tree_of w st) ctx (height_block_key x) Hc) as Hrow.
  rewrite Ef in Hrow. cbn [with_tree w_db tdb] in *. rewrite Hrow by auto with keys.
  apply apply_ops_other. unfold block_rows. repeat constructor; cbn [op_key]; try by key_ne.
  intros Heq. by apply Hne, height_block_key_inj, eq_sym.
Qed.

(** ** Rolling back *)

(** The chain without the heights from [next] on. *)
Definition truncated (R : Z -> option bytes) (next x : Z) : option bytes := if x <? next then R x else None.

(** The errors of a rollback that had already rewound the tree. *)
Definition after_rewind (e : ReorgError) : bool :=
  match e with HandleFailed _ _ | StillAhead _ _ _ => true | CannotRollBack _ _ | RewindFailed _ => false end.

Lemma preflight_error (w : World DB) ms next e : preflight_all w ms next = Some e -> after_rewind e = false.
Proof. induction ms as [|m ms IH]; cbn; [done|]. destruct (preflight_reorg w m next); [done|by intros [= <-]]. Qed.

Lemma verify_error (ms : list M) next e : verify_all ms next = Some e -> after_rewind e = true.
Proof.
  induction ms as [|m ms IH]; cbn; [done|]. destruct (get_index_height m); [|done].
  destruct (next <=? _); [by intros [= <-]|done].
Qed.

Lemma handle_error (w : World DB) ms next w' ms' e : handle_all w ms next = (w', ms', Some e) -> after_rewind e = true.
Proof.
  revert w ms'. induction ms as [|m ms IH]; intros w ms'; cbn; [done|].
  destruct (handle_reorg w m next) as [[w1 m1] [|]]; [|by intros [= <- <- <-]].
  destruct (handle_all w1 ms next) as [[w2 ms2] e2] eqn:E. intros [= <- <- ->]. by eapply IH.
Qed.

(** A rollback that fails leaves the tree whole: at the chain without the heights from [next]
    on, or, when the tree was not rewound, at the chain it had. *)
Lemma roll_back_failed R w ms next w' ms' e :
  (exists st, w_tree w = Some st /\ tree_inv U (tree_of w st)) ->
  (forall x, in_u32 x -> heights_of w x = R x) -> Forall wired ms ->
  roll_back w ms next = (w', ms', RollbackFailed e) ->
  settled (if after_rewind e then truncated R next else R) w'.
Proof.
  intros (st & E & HI) HR Hw. unfold roll_back, rollback_failed_block, abort_tree. rewrite E.
  set (w0 := with_tree _). unfold handle_reorg_switch.
  assert (Hw0 : settled R w0).
  { exists (state (abort_block (tree_of w st))). split_all; [done|exact (abort_inv U _ HI)|done|].
    intros x Hx. rewrite <- HR by done. by eapply heights_rows. }
  destruct (preflight_all w0 ms next) as [e0|] eqn:Ep.
  { intros [= <- <- <-]. apply preflight_error in Ep. by rewrite Ep. }
  destruct (rewind_tree_to_before w0 next) as [w1|e1] eqn:Er; [|by intros [= <- <- <-]].
  destruct (rewind_before_spec U w0 (state (abort_block (tree_of w st))) next w1 eq_refl (abort_inv U _ HI) Er)
    as (st1 & Et1 & HI1 & Hc & _ & Hh & _).
  destruct (handle_all w1 ms next) as [[w2 ms2] eh] eqn:Eh.
  destruct (handle_all_tree _ _ _ _ _ _ Hw Eh) as [Htree Hk].
  assert (Hw2 : settled (truncated R next) w2).
  { apply (settled_same _ w1); [done|]. exists st1. split_all; try done. intros x Hx. unfold heights_of. rewrite Et1, Hh by done.
    unfold truncated. destruct (x <? next); [|done]. rewrite <- HR by done. unfold heights_of. by rewrite E. }
  destruct eh as [e1|].
  - intros [= <- <- <-]. apply handle_error in Eh. by rewrite Eh.
  - destruct (verify_all ms2 next) as [e1|] eqn:Ev; [|done]. intros [= <- <- <-]. apply verify_error in Ev. by rewrite Ev.
Qed.

Lemma roll_back_settled R w ms next w' ms' :
  (exists st, w_tree w = Some st /\ tree_inv U (tree_of w st)) ->
  (forall x, in_u32 x -> x < next -> heights_of w x = R x) -> Forall wired ms ->
  roll_back w ms next = (w', ms', RolledBack) ->
  settled (truncated R next) w'
  /\ Forall (fun m => forall h, get_index_height m = Some h -> h < next) ms'.
Proof.
  intros (st & E & HI) HR Hw. unfold roll_back, rollback_failed_block, abort_tree. rewrite E.
  set (w0 := with_tree _). destruct (handle_reorg_switch w0 ms next) as [[w1 ms1] [e|]] eqn:Es; [done|].
  intros [= <- <-].
  destruct (switch_spec U w0 (state (abort_block (tree_of w st))) ms next w1 ms1 eq_refl
              (abort_inv U _ HI) Hw Es) as (Hm & st' & E' & HI' & Hc & _ & Hh & _).
  split; [|done]. exists st'. split_all; try done. intros x Hx. unfold heights_of. rewrite E', Hh by done. unfold truncated.
  destruct (Z.ltb_spec x next); [|done]. rewrite <- HR by done. unfold heights_of. by rewrite E.
Qed.

(** What the outcome of a block says of the world and the modules after it. *)
Definition outcome_ok (w : World DB) (next : Z) (bh : bytes) (canonical : option bytes)
    (w' : World DB) (ms' : list M) (out : BlockOutcome) : Prop :=
  match out with
  | Committed => canonical = Some bh /\ settled (extended (heights_of w) next bh) w'
  | RolledBack => settled (truncated (heights_of w) next) w'
      /\ Forall (fun m => forall h, get_index_height m = Some h -> h < next) ms'
  | RollbackFailed e =>
      if after_rewind e then settled (truncated (heights_of w) next) w'
      else settled (heights_of w) w' \/ settled (extended (heights_of w) next bh) w'
  end.

Lemma roll_back_outcome R w w1 ms1 next bh canonical w' ms' out :
  (exists st, w_tree w1 = Some st /\ tree_inv U (tree_of w1 st)) ->
  (forall x, in_u32 x -> heights_of w1 x = R x) -> R = heights_of w \/ R = extended (heights_of w) next bh -> Forall wired ms1 ->
  roll_back w1 ms1 next = (w', ms', out) -> outcome_ok w next bh canonical w' ms' out.
Proof.
  intros H1 H2 HR Hw H3.
  assert (Hlow : forall x, truncated R next x = truncated (heights_of w) next x).
  { intros x. unfold truncated. destruct (Z.ltb_spec x next), HR as [->| ->]; try done. unfold extended. destruct (Z.eqb_spec x next); [lia|done]. }
  assert (Hcut : settled (truncated R next) w' -> settled (truncated (heights_of w) next) w').
  { intros (st & E & HI & Hc & Hh). exists st. split_all; try done. intros x Hx. by rewrite Hh, Hlow. }
  destruct out as [| |e]; cbn.
  - unfold roll_back in H3. by destruct (rollback_failed_block w1 ms1 next) as [[? ?] [?|]].
  - destruct (roll_back_settled R w1 ms1 next w' ms') as [? ?]; auto.
  - pose proof (roll_back_failed R w1 ms1 next w' ms' e H1 H2 Hw H3) as Hs. destruct (after_rewind e); [by apply Hcut|].
    destruct HR as [->| ->]; [by left|by right].
Qed.

Lemma settled_roll_back w w1 ms1 next bh canonical w' ms' out :
  settled (extended (heights_of w) next bh) w1 -> Forall wired ms1 ->
  roll_back w1 ms1 next = (w', ms', out) -> outcome_ok w next bh canonical w' ms' out.
Proof. intros (st & E & HI & _ & HR). apply (roll_back_outcome (extended (heights_of w) next bh)); eauto. Qed.

Context (update_summary : World DB -> Blk -> World DB * bool).
Hypothesis summary_raw : forall w blk, same_tree w (update_summary w blk).1.

(** A block commits on top of the chain, or everything from its height on is gone. *)
Lemma commit_block_spec w ms next bh ph canonical blk w' ms' out :
  (exists st, w_tree w = Some st /\ tree_inv U (tree_of w st)) ->
  in_u32 next -> length bh = 32%nat -> length ph = 32%nat -> Forall wired ms ->
  commit_block update_summary w ms next bh ph canonical blk = (w', ms', out) ->
  outcome_ok w next bh canonical w' ms' out.
Proof.
  intros Hw Hn Hb Hp Hms. unfold commit_block.
  case_bool_decide as Hcan; cbn [negb]; [|by apply (roll_back_outcome (heights_of w)); auto].
  destruct (begin_tree w next bh ph) as [w1|] eqn:Eb; [|by apply (roll_back_outcome (heights_of w)); auto].
  pose proof (begin_tree_indexing (heights_of w) _ _ _ _ _ Hw (fun _ => eq_refl) Hn Hb Hp Eb) as Hi.
  destruct (index_all w1 ms next blk) as [[w2 ms2] ok] eqn:Ei.
  destruct (index_all_keeps _ _ _ _ _ _ _ _ _ _ _ Hms Ei Hi) as [Hi2 Hms2]. destruct ok; cbn [negb].
  - destruct (finish_tree_settled _ _ _ _ _ Hi2) as [Hs _].
    destruct (index_deferred (finish_tree w2) ms2 next blk) as [[w4 ms4] ok4] eqn:Ed.
    destruct (index_deferred_keeps _ _ _ _ _ _ _ _ Hms2 Ed Hs) as [Hs4 Hms4]. destruct ok4; cbn [negb].
    + pose proof (settled_same _ _ _ (summary_raw w4 blk) Hs4) as Hs5.
      destruct (update_summary w4 blk) as [w5 [|]]; cbn [fst] in Hs5; [by intros [= <- <- <-]|].
      by apply settled_roll_back.
    + by apply settled_roll_back.
  - destruct Hi2 as (st & ctx & E & HI & _ & _ & _ & _ & HR).
    apply (roll_back_outcome (heights_of w)); eauto.
Qed.

End Commit.
