(* ===== verification/ReorgClaims.v ===== *)
(** * Indexing and reorganisations: the properties *)
From stdpp Require Import strings.
From S2P Require Import Prelude Bytes Rocks TreeNode TreeDb BTree TreeRefine TreeBatch.
From S2P Require Import TreeScan TreeBlocks TreeHeights Demo Mdb MdbProps Reorg ReorgProps.
From S2P Require Import CommitProps.

Open Scope Z_scope.

Section Claims.
Context {DB M Blk : Type} {rocks : RocksDB DB} {laws : RocksLaws DB}.
Context {codec : NodeCodec} (U : BptreeNode -> Prop) {HU : CodecLaws U}.
Context {mods : EspoModule DB M Blk} {wrd : Wired M}.
Context {mlaws : ModuleLaws DB M Blk} {ilaws : IndexLaws DB M Blk U}.

Abbreviation tree_of w st := (mkTree (w_db w) st).

(** C25: indexing a block has one of three ends.  It is committed on top of the unchanged chain,
    and then only if the node still names it at its height; or it is rolled back: every height
    from the block's on is gone, the heights below are as before, and no module is ahead; or the
    rollback itself fails, because a module refuses it, the tree cannot be rewound, a module
    fails to follow or stays ahead.  In the first two of these cases the chain is the one there
    was, with or without the block, in the last two the tree has been rewound all the same.
    Whatever the modules had written, and wherever they fail, the tree's invariant holds again
    and no block is left open. *)
Theorem block_commit_or_rollback update_summary w ms next bh ph canonical blk w' ms' out :
  (forall w blk, same_tree w (update_summary w blk).1) ->
  (exists st, w_tree w = Some st /\ tree_inv U (tree_of w st)) ->
  in_u32 next -> length bh = 32%nat -> length ph = 32%nat -> Forall wired ms ->
  commit_block update_summary w ms next bh ph canonical blk = (w', ms', out) ->
  match out with
  | Committed => canonical = Some bh /\ settled U (extended (heights_of w) next bh) w'
  | RolledBack => settled U (truncated (heights_of w) next) w'
      /\ Forall (fun m => forall h, get_index_height m = Some h -> h < next) ms'
  | RollbackFailed (CannotRollBack _ _ | RewindFailed _) =>
      settled U (heights_of w) w' \/ settled U (extended (heights_of w) next bh) w'
  | RollbackFailed (HandleFailed _ _ | StillAhead _ _ _) => settled U (truncated (heights_of w) next) w'
  end.
Proof.
  intros Hs H1 H2 H3 H4 H5 H6.
  pose proof (commit_block_spec U update_summary Hs w ms next bh ph canonical blk w' ms' out H1 H2 H3 H4 H5 H6) as H.
  by destruct out as [| |[]].
Qed.

(** C26: a successful reorganisation switch leaves the tree at the last height below
    [next_height] that was indexed, with no block open and no pin, forgets every height from
    [next_height] on, keeps the heights below, and leaves no module ahead of the tree. *)
Theorem reorg_switch_correct w st ms next w' ms' :
  w_tree w = Some st -> tree_inv U (tree_of w st) -> Forall wired ms ->
  handle_reorg_switch w ms next = (w', ms', None) ->
  Forall (fun m => forall h, get_index_height m = Some h -> h < next) ms'
  /\ exists st', w_tree w' = Some st' /\ tree_inv U (tree_of w' st')
    /\ current_block st' = None /\ pinned_root st' = None
    /\ (forall h, in_u32 h -> blockhash_for_height (tree_of w' st') h
          = if h <? next then blockhash_for_height (tree_of w st) h else None)
    /\ rewind_target (tree_of w st) (before_target (tree_of w st) next)
       = inl (active_root_ st', active_block st').
Proof. exact (switch_spec U w st ms next w' ms'). Qed.

(** C27: when one module cannot roll back, the switch reports an error and nothing was touched:
    neither the database, nor the tree, nor any module. *)
Theorem reorg_veto_changes_nothing w ms next :
  Exists (fun m => preflight_reorg w m next = false) ms ->
  exists e, handle_reorg_switch w ms next = (w, ms, Some e).
Proof.
  intros Hex. destruct (preflight_all w ms next) as [e|] eqn:E.
  - exists e. by apply switch_veto.
  - exfalso. apply preflight_all_spec in E. rewrite Forall_forall in E.
    apply Exists_exists in Hex as (m & Hm & Hf). specialize (E m Hm). congruence.
Qed.

(** C28: the divergence search returns, and its answer is the first height of the fork: the
    stored and the node's chains differ from it up to the checked tip, and agree just below it
    unless it is the genesis height.  No answer means the tips agree or a hash is unknown. *)
Theorem divergence_search_correct fuel w st chain indexed_tip active_tip genesis :
  w_tree w = Some st -> 0 <= genesis -> indexed_tip <= u32_max ->
  Z.min indexed_tip active_tip - genesis < Z.of_nat fuel ->
  exists r, detect_first_divergence_height fuel w chain indexed_tip active_tip genesis = Some r
    /\ (genesis <= Z.min indexed_tip active_tip ->
        divergence_answer chain (blockhash_for_height (tree_of w st))
          (Z.min indexed_tip active_tip) genesis r).
Proof.
  intros E Hg Ht Hf. unfold detect_first_divergence_height. rewrite E.
  destruct (Z.ltb_spec (Z.min indexed_tip active_tip) genesis); [exists None; split; [done|lia]|].
  destruct (divergence_loop_spec fuel chain (blockhash_for_height (tree_of w st))
              (Z.min indexed_tip active_tip) genesis (Z.min indexed_tip active_tip))
    as (r & Hr & Ha); [lia|lia|lia|lia|]. by exists r.
Qed.

(** Indexing resumes at the least height some module still needs. *)
Theorem resume_height_correct ms g :
  ms <> [] ->
  Forall (fun m => module_resume_start_height (mods := mods) ms g <= module_next m) ms
  /\ exists m, m ∈ ms /\ module_resume_start_height (mods := mods) ms g = module_next m.
Proof. exact (resume_spec ms g). Qed.

(** Registration keeps [essentials] first and unique, and appends in order. *)
Theorem registration_order w reg m w' reg' :
  (forall m m', load_config m = Some m' -> get_name m' = get_name m) ->
  (forall w m mdb, get_name (set_mdb w m mdb).2 = get_name m) ->
  registry_ok reg -> register_module w reg m = Some (w', reg') ->
  registry_ok reg' /\ exists m', modules reg' = modules reg ++ [m'] /\ get_name m' = get_name m.
Proof. intros H1 H2. exact (register_ok H1 H2 w reg m w' reg'). Qed.

End Claims.

(** ** A concrete module *)

(** It keeps its height in memory and can go back to [dm_keeps]. *)
Record DemoModule := mkDemoModule {
  dm_name : bytes;
  dm_genesis : Z;
  dm_keeps : Z;
  dm_height : option Z;
}.

Definition dm_set (m : DemoModule) (h : option Z) : DemoModule :=
  mkDemoModule (dm_name m) (dm_genesis m) (dm_keeps m) h.

Definition dm_back (m : DemoModule) (next : Z) : option Z :=
  h ← dm_height m;
  if h <? next then Some h else if next <=? dm_genesis m then None else Some (next - 1).

#[global] Instance demo_module : EspoModule DemoDB DemoModule Z := {|
  get_name := dm_name;
  get_genesis_block := dm_genesis;
  load_config m := Some m;
  set_mdb w m _ := (w, m);
  index_block w m h := (w, dm_set m (Some h), true);
  get_index_height := dm_height;
  preflight_reorg _ m next := dm_keeps m <=? next;
  handle_reorg w m next := (w, dm_set m (dm_back m next), true);
|}.

#[global] Instance demo_wired : Wired DemoModule := fun _ => True.

#[global] Instance demo_module_laws : ModuleLaws DemoDB DemoModule Z.
Proof. split; [by intros w m h w' m' ok [= <- <- <-]| |]; by intros w m h w' m' ok _ [= <- <- <-]. Qed.

#[global] Instance demo_index_laws : IndexLaws DemoDB DemoModule Z demo_U.
Proof.
  split; [done|intros w m b w' m' ok _ [= <- _ _]; apply rtc_refl|].
  by intros w m b w' m' ok _ _ [= <- _ _].
Qed.

Definition demo_essentials : DemoModule := mkDemoModule (bstr "essentials") 5 0 None.
Definition demo_stuck : DemoModule := mkDemoModule (bstr "runes") 5 9 (Some 9).

Definition demo_world : World DemoDB := with_tree demo_T5.

Lemma demo_world_ok :
  exists st, w_tree demo_world = Some st /\ tree_inv demo_U (mkTree (w_db demo_world) st).
Proof. eexists. split; [reflexivity|exact demo_inv5]. Qed.

Definition demo_commit : World DemoDB * list DemoModule * BlockOutcome :=
  commit_block (fun w _ => (w, true)) demo_world [demo_essentials] 6 (demo_hash 8) (demo_hash 7) (Some (demo_hash 8)) 6.

Lemma demo_commit_eq : demo_commit = (demo_commit.1.1, demo_commit.1.2, Committed).
Proof.
  assert (H : demo_commit.2 = Committed) by (vm_compute; reflexivity).
  destruct demo_commit as [[w ms] o]. cbn in *. by rewrite H.
Qed.

Lemma block_commit_or_rollback_witness :
  Some (demo_hash 8) = Some (demo_hash 8)
  /\ settled demo_U (extended (heights_of demo_world) 6 (demo_hash 8)) demo_commit.1.1.
Proof.
  apply (block_commit_or_rollback demo_U (fun w _ => (w, true)) demo_world [demo_essentials] 6
           (demo_hash 8) (demo_hash 7) (Some (demo_hash 8)) 6 demo_commit.1.1 demo_commit.1.2 Committed).
  - done.
  - exact demo_world_ok.
  - split; lia.
  - reflexivity.
  - reflexivity.
  - repeat constructor.
  - exact demo_commit_eq.
Defined.

Definition demo_ahead : DemoModule := dm_set demo_essentials (Some 5).

Definition demo_switch : World DemoDB * list DemoModule * option ReorgError :=
  handle_reorg_switch demo_world [demo_ahead] 5.

Lemma demo_switch_ok : demo_switch.2 = None.
Proof.
  unfold demo_switch, handle_reorg_switch. cbn [preflight_all preflight_reorg demo_module].
  change (dm_keeps demo_ahead <=? 5) with true. cbn match. unfold demo_world.
  rewrite (rewind_before_eq (with_tree demo_T5) (state demo_T5) 5 eq_refl).
  vm_compute. reflexivity.
Qed.

Lemma reorg_switch_correct_witness :
  Forall (fun m => forall h, get_index_height m = Some h -> h < 5) demo_switch.1.2.
Proof.
  refine (proj1 (reorg_switch_correct demo_U demo_world (state demo_T5) [demo_ahead] 5
    demo_switch.1.1 demo_switch.1.2 _ _ _ _)).
  - reflexivity.
  - exact demo_inv5.
  - repeat constructor.
  - pose proof demo_switch_ok as H. fold demo_switch. destruct demo_switch as [[w ms] e]. cbn in *. by subst.
Defined.

Lemma reorg_veto_changes_nothing_witness :
  exists e, handle_reorg_switch demo_world [demo_ahead; demo_stuck] 6
    = (demo_world, [demo_ahead; demo_stuck], Some e).
Proof. apply reorg_veto_changes_nothing. right. left. reflexivity. Defined.

Lemma divergence_search_correct_witness :
  exists r, detect_first_divergence_height 10 demo_world (fun h => Some (demo_hash h)) 5 9 5 = Some r
    /\ (5 <= 5 -> divergence_answer (fun h => Some (demo_hash h))
          (blockhash_for_height demo_T5) 5 5 r).
Proof.
  apply (divergence_search_correct 10 demo_world (state demo_T5) (fun h => Some (demo_hash h)) 5 9 5).
  - reflexivity.
  - lia.
  - vm_compute. discriminate.
  - vm_compute. reflexivity.
Defined.

Lemma resume_height_correct_witness :
  Forall (fun m => module_resume_start_height [demo_ahead; demo_stuck] 0 <= module_next m)
    [demo_ahead; demo_stuck]
  /\ exists m, m ∈ [demo_ahead; demo_stuck]
     /\ module_resume_start_height [demo_ahead; demo_stuck] 0 = module_next m.
Proof. apply resume_height_correct. discriminate. Defined.

Definition demo_registry : ModuleRegistry DemoModule := mkRegistry [demo_essentials] true.

Lemma registration_order_witness :
  registry_ok (mkRegistry [demo_essentials; demo_stuck] true)
  /\ exists m', modules (mkRegistry [demo_essentials; demo_stuck] true) = modules demo_registry ++ [m']
     /\ get_name m' = get_name demo_stuck.
Proof.
  apply (registration_order demo_world demo_registry demo_stuck demo_world).
  - by intros m m' [= <-].
  - reflexivity.
  - split; [reflexivity|constructor].
  - reflexivity.
Defined.
