(* ===== verification/RunesTransfer.v ===== *)
(** * Moving runes between outputs

    [TransferRules] of [src/modules/runes/transfer.rs]: edicts and the routing of
    what is left over, and the mint terms and supply of a [RuneEntry] from
    [src/modules/runes/storage.rs].  Amounts are [u128]: [+=] wraps, and the
    theorems show it never does as long as the runes in flight fit.

    A transaction is seen through its outputs; whether a script is an
    [OP_RETURN] is asked of the [bitcoin] crate, the parameter [is_op_return]. *)
From S2P Require Import Prelude Bytes.
From stdpp Require Import options.

Open Scope Z_scope.

Definition u128_mod : Z := 2 ^ 128.
Definition u128_add (a b : Z) : Z := (a + b) mod u128_mod.
Definition u128_sat_sub (a b : Z) : Z := Z.max 0 (a - b).
Definition u64_sat_add (a b : Z) : Z := Z.min (2 ^ 64 - 1) (a + b).

(** ** Sheets *)

Section Transfer.
Context {I : Type} `{!EqDecision I, !Countable I}.
Context {Script : Type} (is_op_return : Script -> bool).

Abbreviation RuneSheet := (gmap I Z).
Abbreviation OutputRuneSheets := (gmap Z RuneSheet).

Inductive LeftoverPolicy := PointerOrFirstNonOpReturn.

Record TransferRules := mkRules { leftover_policy : LeftoverPolicy }.

Definition TransferRules_default : TransferRules := mkRules PointerOrFirstNonOpReturn.

(** [*sheet.entry(id).or_default() += amount] *)
Definition sheet_add (sheet : RuneSheet) (id : I) (amount : Z) : RuneSheet :=
  <[id := u128_add (default 0 (sheet !! id)) amount]> sheet.

(** [*outputs.entry(vout).or_default().entry(id).or_default() += amount] *)
Definition output_add (outputs : OutputRuneSheets) (vout : Z) (id : I) (amount : Z)
    : OutputRuneSheets :=
  <[vout := sheet_add (default ∅ (outputs !! vout)) id amount]> outputs.

(** The closure [allocate]: the balance left and the outputs. *)
Definition allocate (id : I) (balance amount vout : Z) (outputs : OutputRuneSheets)
    : Z * OutputRuneSheets :=
  if amount =? 0 then (balance, outputs)
  else (u128_sat_sub balance amount, output_add outputs vout id amount).

(** The indices of the outputs that are not [OP_RETURN], from [vout] on. *)
Fixpoint destinations_from (vout : Z) (outs : list Script) : list Z :=
  match outs with
  | [] => []
  | s :: outs' =>
      if negb (is_op_return s) then vout :: destinations_from (vout + 1) outs'
      else destinations_from (vout + 1) outs'
  end.

Definition destinations (outs : list Script) : list Z := destinations_from 0 outs.

(** The even split: the first [remainder] destinations get one more. *)
Fixpoint split_loop (id : I) (each remainder idx : Z) (dests : list Z) (balance : Z)
    (outputs : OutputRuneSheets) : Z * OutputRuneSheets :=
  match dests with
  | [] => (balance, outputs)
  | vout :: dests' =>
      let '(b, o) := allocate id balance (if idx <? remainder then each + 1 else each) vout outputs in
      split_loop id each remainder (idx + 1) dests' b o
  end.

(** A fixed amount for every destination, while the balance lasts. *)
Fixpoint amount_loop (id : I) (amount : Z) (dests : list Z) (balance : Z)
    (outputs : OutputRuneSheets) : Z * OutputRuneSheets :=
  match dests with
  | [] => (balance, outputs)
  | vout :: dests' =>
      let '(b, o) := allocate id balance (Z.min amount balance) vout outputs in
      amount_loop id amount dests' b o
  end.

Definition apply_edict (outs : list Script) (unallocated : RuneSheet)
    (outputs : OutputRuneSheets) (id : I) (amount output : Z) : RuneSheet * OutputRuneSheets :=
  match unallocated !! id with
  | None => (unallocated, outputs)
  | Some balance =>
      let n := Z.of_nat (length outs) in
      if n <? output then (unallocated, outputs)
      else if output =? n then
        match destinations outs with
        | [] => (unallocated, outputs)
        | d :: ds =>
            let count := Z.of_nat (length (d :: ds)) in
            let '(b, o) :=
              if amount =? 0
              then split_loop id (balance / count) (balance mod count) 0 (d :: ds) balance outputs
              else amount_loop id amount (d :: ds) balance outputs in
            (<[id := b]> unallocated, o)
        end
      else
        let qty := if amount =? 0 then balance else Z.min amount balance in
        let '(b, o) := allocate id balance qty output outputs in
        (<[id := b]> unallocated, o)
  end.

(** Adding a whole sheet to an output, entry by entry. *)
Definition sheet_merge (unallocated sheet : RuneSheet) : RuneSheet :=
  foldl (fun s e => if 0 <? e.2 then sheet_add s e.1 e.2 else s) sheet (map_to_list unallocated).

(** What cannot be routed is returned, to be burned. *)
Definition route_leftovers (rules : TransferRules) (outs : list Script) (unallocated : RuneSheet)
    (outputs : OutputRuneSheets) (pointer : option Z) : RuneSheet * OutputRuneSheets :=
  let destination :=
    match leftover_policy rules with
    | PointerOrFirstNonOpReturn =>
        match pointer with Some p => Some p | None => head (destinations outs) end
    end in
  match destination with
  | None => (unallocated, outputs)
  | Some vout =>
      if Z.of_nat (length outs) <=? vout then (unallocated, outputs)
      else (∅, <[vout := sheet_merge unallocated (default ∅ (outputs !! vout))]> outputs)
  end.

(** ** Conservation *)

(** The amount of a rune in a sheet and in all outputs. *)
Definition amount_of (id : I) (s : RuneSheet) : Z := default 0 (s !! id).

Definition outputs_total (id : I) (o : OutputRuneSheets) : Z :=
  map_fold (fun _ s acc => amount_of id s + acc) 0 o.

Definition in_flight (id : I) (u : RuneSheet) (o : OutputRuneSheets) : Z :=
  amount_of id u + outputs_total id o.

Definition sheet_ok (s : RuneSheet) : Prop := forall id x, s !! id = Some x -> 0 <= x.
Definition outputs_ok (o : OutputRuneSheets) : Prop := forall v s, o !! v = Some s -> sheet_ok s.

Lemma amount_nonneg id s : sheet_ok s -> 0 <= amount_of id s.
Proof. intros H. unfold amount_of. destruct (s !! id) eqn:E; cbn; [by eapply H|lia]. Qed.

Lemma outputs_total_insert id o v s :
  outputs_total id (<[v := s]> o)
  = outputs_total id o - amount_of id (default ∅ (o !! v)) + amount_of id s.
Proof.
  unfold outputs_total. rewrite <- insert_delete_eq.
  rewrite map_fold_insert_L; [|intros; lia|apply lookup_delete_eq].
  destruct (o !! v) as [t|] eqn:E; cbn [default].
  - rewrite (map_fold_delete_L (fun _ s acc => amount_of id s + acc) 0 v t o); [cbn; lia|intros; lia|done].
  - rewrite delete_id by done. assert (amount_of id ∅ = 0) as -> by done. lia.
Qed.

Lemma outputs_total_nonneg id o : outputs_ok o -> 0 <= outputs_total id o.
Proof.
  unfold outputs_total. induction o as [|v s o Hv IH] using map_ind; intros Hok.
  { by rewrite map_fold_empty. }
  rewrite map_fold_insert_L; [|intros; lia|done].
  assert (0 <= amount_of id s) by (apply amount_nonneg, (Hok v), lookup_insert_eq).
  assert (0 <= outputs_total id o); [|unfold outputs_total in *; lia].
  apply IH. intros w t Hw. apply (Hok w). rewrite lookup_insert_ne; [done|congruence].
Qed.

Lemma output_part_le id o v :
  outputs_ok o -> amount_of id (default ∅ (o !! v)) <= outputs_total id o.
Proof.
  intros Hok. destruct (o !! v) as [s|] eqn:E; cbn [default].
  2: { unfold amount_of. rewrite lookup_empty. by apply outputs_total_nonneg. }
  assert (Hd : outputs_ok (delete v o)).
  { intros w t Hw. apply lookup_delete_Some in Hw as [_ Hw]. by apply (Hok w). }
  pose proof (outputs_total_nonneg id _ Hd) as Hn. unfold outputs_total in *.
  rewrite (map_fold_delete_L (fun _ s acc => amount_of id s + acc) 0 v s o); [cbn; lia|intros; lia|done].
Qed.

Lemma output_ok_default o v : outputs_ok o -> sheet_ok (default ∅ (o !! v)).
Proof.
  intros Hok. destruct (o !! v) eqn:E; cbn; [by eapply Hok|]. intros id x. by rewrite lookup_empty.
Qed.

(** Adding to an output without overflow. *)
Lemma output_add_spec o v id amount :
  outputs_ok o -> 0 <= amount -> outputs_total id o + amount < u128_mod ->
  outputs_ok (output_add o v id amount)
  /\ outputs_total id (output_add o v id amount) = outputs_total id o + amount
  /\ (forall id', id' <> id -> outputs_total id' (output_add o v id amount) = outputs_total id' o)
  /\ (forall v', v' <> v -> output_add o v id amount !! v' = o !! v').
Proof.
  intros Hok Ha Hb. pose proof (output_part_le id o v Hok) as Hle.
  pose proof (output_ok_default o v Hok) as Hs. pose proof (amount_nonneg id _ Hs) as Hn.
  assert (Hadd : u128_add (default 0 (default ∅ (o !! v) !! id)) amount
                 = amount_of id (default ∅ (o !! v)) + amount).
  { unfold u128_add, amount_of in *. apply Z.mod_small. lia. }
  unfold output_add, sheet_add. rewrite Hadd. split_all.
  - intros w t [[<- <-]|[_ Hw]]%lookup_insert_Some; [|by eapply Hok].
    intros i x [[<- <-]|[_ Hi]]%lookup_insert_Some; [lia|by eapply Hs].
  - rewrite outputs_total_insert. unfold amount_of at 2. rewrite lookup_insert_eq. cbn. lia.
  - intros i Hi. rewrite outputs_total_insert. unfold amount_of at 2.
    rewrite lookup_insert_ne by done. unfold amount_of. lia.
  - intros w Hw. by rewrite lookup_insert_ne.
Qed.

(** What an allocation of a rune does to the balance and the outputs. *)
Record moved (id : I) (b b' : Z) (o o' : OutputRuneSheets) : Prop := {
  mv_ok : outputs_ok o';
  mv_pos : 0 <= b';
  mv_sum : b' + outputs_total id o' = b + outputs_total id o;
  mv_other : forall i, i <> id -> outputs_total i o' = outputs_total i o;
}.

Lemma moved_refl id b o : outputs_ok o -> 0 <= b -> moved id b b o o.
Proof. by intros. Qed.

Lemma moved_trans id b1 b2 b3 o1 o2 o3 :
  moved id b1 b2 o1 o2 -> moved id b2 b3 o2 o3 -> moved id b1 b3 o1 o3.
Proof.
  intros [? ? ? H1] [? ? ? H2]. split; [done|done|lia|]. intros i Hi. by rewrite H2, H1.
Qed.

Lemma allocate_moved id b amount vout o :
  outputs_ok o -> 0 <= amount <= b -> b + outputs_total id o < u128_mod ->
  let r := allocate id b amount vout o in
  moved id b r.1 o r.2 /\ r.1 = b - amount.
Proof.
  intros Hok Ha Hb. unfold allocate. destruct (Z.eqb_spec amount 0); cbn [fst snd].
  { split; [apply moved_refl; [done|lia]|lia]. }
  destruct (output_add_spec o vout id amount Hok ltac:(lia) ltac:(lia)) as (H1 & H2 & H3 & _).
  unfold u128_sat_sub. rewrite Z.max_r by lia. split; [split; [done|lia|lia|done]|done].
Qed.

Lemma amount_loop_moved id amount dests b o :
  outputs_ok o -> 0 <= amount -> 0 <= b -> b + outputs_total id o < u128_mod ->
  let r := amount_loop id amount dests b o in moved id b r.1 o r.2.
Proof.
  revert b o. induction dests as [|v dests IH]; intros b o Hok Ha Hb Hf; cbn [amount_loop].
  { by apply moved_refl. }
  destruct (allocate_moved id b (Z.min amount b) v o Hok ltac:(lia) Hf) as [Hm _].
  destruct (allocate id b (Z.min amount b) v o) as [b1 o1]. cbn [fst snd] in Hm.
  eapply moved_trans; [exact Hm|]. destruct Hm. apply IH; [done|done|done|lia].
Qed.

Lemma split_loop_moved id each rem idx dests b o :
  outputs_ok o -> 0 <= each -> 0 <= idx -> b + outputs_total id o < u128_mod ->
  b = each * Z.of_nat (length dests) + Z.max 0 (rem - idx) ->
  rem - idx <= Z.of_nat (length dests) ->
  let r := split_loop id each rem idx dests b o in moved id b r.1 o r.2 /\ r.1 = 0.
Proof.
  revert idx b o. induction dests as [|v dests IH]; intros idx b o Hok He Hi Hf Hb Hr;
    cbn [split_loop length] in *.
  { cbn [fst snd]. split; [apply moved_refl; [done|lia]|lia]. }
  set (a := if idx <? rem then each + 1 else each).
  rewrite Nat2Z.inj_succ, Z.mul_succ_r in Hb.
  assert (Hen : 0 <= each * Z.of_nat (length dests)) by nia.
  assert (Ha : 0 <= a <= b).
  { unfold a. destruct (Z.ltb_spec idx rem); lia. }
  destruct (allocate_moved id b a v o Hok Ha Hf) as [Hm Hb1].
  destruct (allocate id b a v o) as [b1 o1]. cbn [fst snd] in Hm, Hb1.
  destruct (IH (idx + 1) b1 o1) as [Hm2 H0]; [apply Hm|done|lia|destruct Hm; lia| | |].
  - unfold a in Hb1. destruct (Z.ltb_spec idx rem); lia.
  - lia.
  - split; [|done]. by eapply moved_trans.
Qed.

(** What an output holds of a rune. *)
Definition held (id : I) (o : OutputRuneSheets) (v : Z) : Z := amount_of id (default ∅ (o !! v)).

Lemma allocate_held id b amount vout o v :
  outputs_ok o -> 0 <= amount <= b -> b + outputs_total id o < u128_mod ->
  held id (allocate id b amount vout o).2 v = held id o v + if decide (v = vout) then amount else 0.
Proof.
  intros Hok Ha Hb. unfold allocate, held. destruct (Z.eqb_spec amount 0) as [->|Hne]; cbn [snd].
  { case_decide; lia. }
  pose proof (output_part_le id o vout Hok) as Hle.
  pose proof (amount_nonneg id _ (output_ok_default o vout Hok)) as Hn.
  unfold output_add, sheet_add. case_decide as D.
  - subst v. unfold u128_add, amount_of in *. rewrite lookup_insert_eq.
    cbn [default Datatypes.id]. unfold Datatypes.id. rewrite lookup_insert_eq.
    apply Z.mod_small. unfold default, Datatypes.id in *. lia.
  - rewrite lookup_insert_ne by congruence. lia.
Qed.

(** Each destination of the even split gets its share, the first ones one more. *)
Lemma split_loop_held id each rem idx dests b o :
  outputs_ok o -> 0 <= each -> 0 <= idx -> b + outputs_total id o < u128_mod ->
  b = each * Z.of_nat (length dests) + Z.max 0 (rem - idx) ->
  rem - idx <= Z.of_nat (length dests) -> NoDup dests ->
  let r := split_loop id each rem idx dests b o in
  (forall v, v ∉ dests -> held id r.2 v = held id o v)
  /\ forall i v, dests !! i = Some v ->
       held id r.2 v = held id o v + each + if idx + Z.of_nat i <? rem then 1 else 0.
Proof.
  revert idx b o. induction dests as [|d dests IH]; intros idx b o Hok He Hi Hf Hb Hr Hnd;
    cbn [split_loop length] in *; [done|].
  set (a := if idx <? rem then each + 1 else each).
  rewrite Nat2Z.inj_succ, Z.mul_succ_r in Hb.
  assert (Hen : 0 <= each * Z.of_nat (length dests)) by nia.
  assert (Ha : 0 <= a <= b).
  { unfold a. destruct (Z.ltb_spec idx rem); lia. }
  destruct (allocate_moved id b a d o Hok Ha Hf) as [Hm Hb1].
  pose proof (fun v => allocate_held id b a d o v Hok Ha Hf) as Hh.
  destruct (allocate id b a d o) as [b1 o1]. cbn [fst snd] in Hm, Hb1, Hh.
  apply NoDup_cons in Hnd as [Hd Hnd].
  destruct (IH (idx + 1) b1 o1) as [H1 H2]; [apply Hm|done|lia|destruct Hm; lia| |lia|done|].
  { unfold a in Hb1. destruct (Z.ltb_spec idx rem); lia. }
  split.
  - intros v [Hv Hv']%not_elem_of_cons. rewrite H1, Hh, decide_False by done. lia.
  - intros [|i] v Hv; cbn in Hv.
    + injection Hv as <-. rewrite H1, Hh, decide_True by done. rewrite Z.add_0_r.
      unfold a. destruct (idx <? rem); lia.
    + rewrite (H2 i v Hv), Hh, decide_False.
      * replace (idx + 1 + Z.of_nat i) with (idx + Z.of_nat (S i)) by lia. lia.
      * intros ->. by apply Hd, list_elem_of_lookup_2 with i.
Qed.

Lemma destinations_from_ge v outs x : x ∈ destinations_from v outs -> v <= x.
Proof.
  revert v. induction outs as [|s outs IH]; intros v; cbn; [set_solver|].
  destruct (negb _); [rewrite elem_of_cons; intros [->|H%IH]; lia|intros H%IH; lia].
Qed.

Lemma destinations_NoDup outs : NoDup (destinations outs).
Proof.
  unfold destinations. generalize 0 as v. induction outs as [|s outs IH]; intros v; cbn; [constructor|].
  destruct (negb _); [|done]. apply NoDup_cons. split; [|done]. intros H%destinations_from_ge. lia.
Qed.

(** Allocations only go to outputs of the transaction. *)
Definition vouts_below (n : Z) (o : OutputRuneSheets) : Prop := forall v, is_Some (o !! v) -> 0 <= v < n.

Lemma destinations_from_lt v outs x : x ∈ destinations_from v outs -> x < v + Z.of_nat (length outs).
Proof.
  revert v. induction outs as [|s outs IH]; intros v; cbn [destinations_from length]; [set_solver|].
  destruct (negb _); [rewrite elem_of_cons; intros [->|H%IH]; lia|intros H%IH; lia].
Qed.

Lemma destinations_below outs : Forall (fun v => 0 <= v < Z.of_nat (length outs)) (destinations outs).
Proof.
  apply Forall_forall. intros v Hv. split; [by eapply destinations_from_ge|].
  apply destinations_from_lt in Hv. lia.
Qed.

Lemma vouts_insert n o v s : 0 <= v < n -> vouts_below n o -> vouts_below n (<[v := s]> o).
Proof.
  intros Hv H x. destruct (decide (x = v)) as [->|Hne]; [done|]. rewrite lookup_insert_ne by done. apply H.
Qed.

Lemma allocate_below n id b q v o : 0 <= v < n -> vouts_below n o -> vouts_below n (allocate id b q v o).2.
Proof. intros Hv H. unfold allocate. destruct (q =? 0); [done|]. by apply vouts_insert. Qed.

Lemma split_below n id e r i ds b o :
  Forall (fun v => 0 <= v < n) ds -> vouts_below n o -> vouts_below n (split_loop id e r i ds b o).2.
Proof.
  intros Hd. revert i b o. induction Hd as [|v ds Hv _ IH]; intros i b o Ho; cbn [split_loop]; [done|].
  pose proof (allocate_below n id b (if i <? r then e + 1 else e) v o Hv Ho) as Ha.
  destruct (allocate _ _ _ _ _) as [b' o']. by apply IH.
Qed.

Lemma amount_below n id a ds b o :
  Forall (fun v => 0 <= v < n) ds -> vouts_below n o -> vouts_below n (amount_loop id a ds b o).2.
Proof.
  intros Hd. revert b o. induction Hd as [|v ds Hv _ IH]; intros b o Ho; cbn [amount_loop]; [done|].
  pose proof (allocate_below n id b (Z.min a b) v o Hv Ho) as Ha.
  destruct (allocate _ _ _ _ _) as [b' o']. by apply IH.
Qed.

Lemma edict_below outs u o id amount output :
  0 <= output -> vouts_below (Z.of_nat (length outs)) o ->
  vouts_below (Z.of_nat (length outs)) (apply_edict outs u o id amount output).2.
Proof.
  intros Hp Ho. unfold apply_edict. destruct (u !! id) as [b|]; [|done].
  destruct (Z.ltb_spec (Z.of_nat (length outs)) output) as [|H1]; [done|].
  destruct (Z.eqb_spec output (Z.of_nat (length outs))) as [|H2].
  - pose proof (destinations_below outs) as Hd. destruct (destinations outs) as [|d ds]; [done|].
    set (r := if amount =? 0 then _ else _). assert (Hr : vouts_below (Z.of_nat (length outs)) r.2).
    { unfold r. destruct (amount =? 0); [by apply split_below|by apply amount_below]. }
    by destruct r.
  - pose proof (allocate_below (Z.of_nat (length outs)) id b (if amount =? 0 then b else Z.min amount b) output o
      ltac:(lia) Ho) as Ha. by destruct (allocate _ _ _ _ _).
Qed.

Lemma route_below rules outs u o pointer :
  (forall p, pointer = Some p -> 0 <= p) -> vouts_below (Z.of_nat (length outs)) o ->
  vouts_below (Z.of_nat (length outs)) (route_leftovers rules outs u o pointer).2.
Proof.
  intros Hp Ho. unfold route_leftovers. destruct (leftover_policy rules).
  set (d := match pointer with Some p => Some p | None => head (destinations outs) end).
  assert (Hd : forall v, d = Some v -> 0 <= v).
  { intros v. unfold d. destruct pointer as [p|]; [intros [= <-]; by apply Hp|]. intros Hv.
    pose proof (destinations_below outs) as Hb. rewrite Forall_forall in Hb.
    apply head_Some_elem_of in Hv. by apply Hb. }
  destruct d as [v|]; [|done]. destruct (Z.leb_spec (Z.of_nat (length outs)) v); [done|].
  apply vouts_insert; [|done]. specialize (Hd v eq_refl). lia.
Qed.

(** An edict of amount zero to all outputs empties the balance evenly. *)
Lemma even_split_spec outs u o id b :
  sheet_ok u -> outputs_ok o -> u !! id = Some b -> in_flight id u o < u128_mod ->
  destinations outs <> [] ->
  let n := Z.of_nat (length (destinations outs)) in
  let r := apply_edict outs u o id 0 (Z.of_nat (length outs)) in
  r.1 !! id = Some 0
  /\ forall i v, destinations outs !! i = Some v ->
       held id r.2 v = held id o v + b / n + if Z.of_nat i <? b mod n then 1 else 0.
Proof.
  intros Hs Hok Hu Hf Hne n. unfold apply_edict. rewrite Hu, Z.ltb_irrefl, Z.eqb_refl.
  assert (Hf' : b + outputs_total id o < u128_mod).
  { unfold in_flight, amount_of in Hf. by rewrite Hu in Hf. }
  pose proof (destinations_NoDup outs) as Hnd. subst n.
  destruct (destinations outs) as [|d ds]; [done|]. set (dests := d :: ds) in *. cbn [Z.eqb].
  assert (Hn : 0 < Z.of_nat (length dests)) by (unfold dests; cbn; lia).
  assert (Hb : 0 <= b) by by eapply Hs.
  pose proof (Z.div_mod b (Z.of_nat (length dests)) ltac:(lia)) as Hdm.
  pose proof (Z.mod_pos_bound b (Z.of_nat (length dests)) Hn) as Hmb.
  pose proof (Z.div_pos b _ Hb Hn) as Hd.
  destruct (split_loop_held id (b / Z.of_nat (length dests)) (b mod Z.of_nat (length dests)) 0 dests b o)
    as [_ Hh]; [done|done|lia|done|lia|lia|done|].
  destruct (split_loop_moved id (b / Z.of_nat (length dests)) (b mod Z.of_nat (length dests)) 0 dests b o)
    as [_ H0]; [done|done|lia|done|lia|lia|].
  destruct (split_loop _ _ _ _ dests b o) as [b' o']. cbn [fst snd] in *. subst b'.
  split; [apply lookup_insert_eq|exact Hh].
Qed.

Lemma moved_edict id b b' u o o' :
  u !! id = Some b -> sheet_ok u -> moved id b b' o o' ->
  sheet_ok (<[id := b']> u) /\ outputs_ok o'
  /\ forall i, in_flight i (<[id := b']> u) o' = in_flight i u o.
Proof.
  intros Hu Hs [Hok Hp Hsum Hoth]. split_all; [|done|].
  - intros i x [[<- <-]|[_ Hi]]%lookup_insert_Some; [done|by eapply Hs].
  - intros i. unfold in_flight, amount_of. destruct (decide (i = id)) as [->|Hne].
    + rewrite lookup_insert_eq, Hu. cbn. lia.
    + rewrite lookup_insert_ne by done. by rewrite Hoth.
Qed.

(** An edict moves runes, it neither makes nor destroys any. *)
Lemma apply_edict_spec outs u o id amount output :
  sheet_ok u -> outputs_ok o -> 0 <= amount -> in_flight id u o < u128_mod ->
  let r := apply_edict outs u o id amount output in
  sheet_ok r.1 /\ outputs_ok r.2 /\ forall i, in_flight i r.1 r.2 = in_flight i u o.
Proof.
  intros Hs Hok Ha Hf. unfold apply_edict. destruct (u !! id) as [b|] eqn:Eu; [|done].
  assert (Hb : 0 <= b) by by eapply Hs.
  assert (Hf' : b + outputs_total id o < u128_mod).
  { unfold in_flight, amount_of in Hf. by rewrite Eu in Hf. }
  destruct (_ <? output); [done|]. destruct (output =? _).
  - destruct (destinations outs) as [|d ds]; [done|]. set (dests := d :: ds).
    assert (Hn : 0 < Z.of_nat (length dests)) by (unfold dests; cbn; lia).
    assert (Hm : let r := if amount =? 0
              then split_loop id (b / Z.of_nat (length dests)) (b mod Z.of_nat (length dests)) 0 dests b o
              else amount_loop id amount dests b o in moved id b r.1 o r.2).
    { destruct (amount =? 0); [|by apply amount_loop_moved].
      pose proof (Z.div_mod b (Z.of_nat (length dests)) ltac:(lia)) as Hdm.
      pose proof (Z.mod_pos_bound b (Z.of_nat (length dests)) Hn) as Hmb.
      apply split_loop_moved; [done|by apply Z.div_pos|lia|done|lia|lia]. }
    cbn zeta in Hm. destruct (if amount =? 0 then _ else _) as [b' o']. by eapply moved_edict.
  - destruct (allocate_moved id b (if amount =? 0 then b else Z.min amount b) output o Hok)
      as [Hm _]; [destruct (amount =? 0); lia|done|].
    destruct (allocate id b _ output o) as [b' o']. by eapply moved_edict.
Qed.

(** Merging a sheet adds it entry by entry. *)
Lemma sheet_merge_list l s :
  NoDup l.*1 -> sheet_ok s -> Forall (fun e : I * Z => 0 <= e.2) l ->
  (forall e, e ∈ l -> amount_of e.1 s + e.2 < u128_mod) ->
  let r := foldl (fun s e => if 0 <? e.2 then sheet_add s e.1 e.2 else s) s l in
  sheet_ok r /\ forall i, amount_of i r = amount_of i s + amount_of i (list_to_map l).
Proof.
  revert s. induction l as [|[k x] l IH]; intros s Hnd Hs Hpos Hb; cbn [foldl].
  { split; [done|]. intros i. unfold amount_of at 3. cbn. rewrite lookup_empty. cbn. lia. }
  cbn in Hnd. apply NoDup_cons in Hnd as [Hk Hnd]. apply Forall_cons in Hpos as [Hx Hpos].
  cbn [fst snd] in *. set (s1 := if 0 <? x then sheet_add s k x else s).
  assert (H1 : sheet_ok s1 /\ forall i, amount_of i s1 = amount_of i s + if decide (i = k) then x else 0).
  { unfold s1. destruct (Z.ltb_spec 0 x); [|split; [done|]; intros i; case_decide; lia].
    pose proof (Hb (k, x) ltac:(set_solver)) as Hkx. cbn in Hkx. pose proof (amount_nonneg k s Hs).
    assert (E : u128_add (default 0 (s !! k)) x = amount_of k s + x).
    { unfold u128_add, amount_of in *. apply Z.mod_small. lia. }
    unfold sheet_add. rewrite E. split.
    - intros i y [[<- <-]|[_ Hi]]%lookup_insert_Some; [lia|by eapply Hs].
    - intros i. unfold amount_of. case_decide as D; [subst i; by rewrite lookup_insert_eq|].
      rewrite lookup_insert_ne by done. lia. }
  destruct H1 as [Hs1 H1].
  assert (Hni : forall e, e ∈ l -> e.1 <> k).
  { intros e He Heq. subst k. apply Hk, list_elem_of_fmap. eauto. }
  destruct (IH s1 Hnd Hs1 Hpos) as [H2 H3].
  { intros e He. rewrite H1, decide_False by by apply Hni. specialize (Hb e ltac:(set_solver)). lia. }
  split; [exact H2|]. intros i. rewrite H3, H1. unfold amount_of. cbn [list_to_map foldr].
  case_decide as D.
  - subst i. rewrite (not_elem_of_list_to_map_1 l k) by done. cbn. rewrite lookup_insert_eq. cbn. lia.
  - cbn. rewrite lookup_insert_ne by done. lia.
Qed.

Lemma route_spec rules outs u o pointer :
  sheet_ok u -> outputs_ok o -> (forall i, in_flight i u o < u128_mod) ->
  let r := route_leftovers rules outs u o pointer in
  sheet_ok r.1 /\ outputs_ok r.2 /\ forall i, in_flight i r.1 r.2 = in_flight i u o.
Proof.
  intros Hs Hok Hf. unfold route_leftovers.
  destruct (match leftover_policy rules with PointerOrFirstNonOpReturn => _ end) as [v|]; [|done].
  destruct (_ <=? v); [done|].
  destruct (sheet_merge_list (map_to_list u) (default ∅ (o !! v))) as [H1 H2].
  - apply NoDup_fst_map_to_list.
  - by apply output_ok_default.
  - apply Forall_forall. intros [k x] Hk%elem_of_map_to_list. by eapply Hs.
  - intros [k x] Hk%elem_of_map_to_list. cbn. specialize (Hf k).
    pose proof (output_part_le k o v Hok). unfold in_flight, amount_of at 1 in Hf.
    rewrite Hk in Hf. cbn in Hf. lia.
  - fold (sheet_merge u (default ∅ (o !! v))) in H1, H2. split_all.
    + intros i x. cbn [fst]. by rewrite lookup_empty.
    + cbn [snd]. intros w t [[<- <-]|[_ Hw]]%lookup_insert_Some; [done|by eapply Hok].
    + intros i. unfold in_flight. cbn [fst snd]. rewrite outputs_total_insert, H2, list_to_map_to_list.
      assert (amount_of i ∅ = 0) as -> by done. lia.
Qed.

End Transfer.
