(* ===== verification/RunesUndo.v ===== *)
(** * The undo journal of the runes module

    [RunesProvider] of [src/modules/runes/storage.rs] writes its raw namespace
    directly, so every block stores the previous value of each key it touches,
    and a reorganisation replays these records backwards.  Operations act on the
    shared [World] through the module's [Mdb] handle, as in the source.  Borsh
    encodes the records: it is the parameter [UndoCodec].  Client mode, in which
    the index height is asked of a remote instance, is not modelled. *)
From Stdlib Require Import Strings.Byte.
From stdpp Require Import strings.
From S2P Require Import Prelude Bytes Rocks TreeNode TreeDb Mdb.
From stdpp Require Import options.

Open Scope Z_scope.

Definition INDEX_HEIGHT_KEY : bytes := bstr "/index_height".
Definition INDEX_BLOCK_HASH_KEY : bytes := bstr "/index_block_hash".
Definition UNDO_PREFIX : bytes := bstr "/undo/".

Record RuneUndoChange := mkChange { uc_key : bytes; uc_previous : option bytes }.

Record RunesBlockUndo := mkUndo {
  ub_height : Z;
  ub_block_hash : bytes;
  prev_index_height : option Z;
  prev_index_block_hash : option bytes;
  ub_changes : list RuneUndoChange;
}.

Class UndoCodec := {
  encode_undo : RunesBlockUndo -> bytes;
  decode_undo : bytes -> option RunesBlockUndo;
}.

(** Records the types of the source can hold. *)
Definition undo_wf (u : RunesBlockUndo) : Prop :=
  in_u32 (ub_height u) /\ length (ub_block_hash u) = 32%nat
  /\ (forall h, prev_index_height u = Some h -> in_u32 h)
  /\ (forall b, prev_index_block_hash u = Some b -> length b = 32%nat).

Class UndoLaws `{!UndoCodec} : Prop := {
  undo_roundtrip u : undo_wf u -> decode_undo (encode_undo u) = Some u;
}.

Inductive RollbackError :=
| MissingUndo (height : Z)
| UndecodableUndo (height : Z)
| HeightMismatch (height record_height : Z)
| HashMismatch (height : Z).

(** ** Keys *)

Definition undo_key (height : Z) : bytes := UNDO_PREFIX ++ be_bytes 4 height.

Definition ends_with (k s : bytes) : bool :=
  (length s <=? length k)%nat && bytes_eqb (drop (length k - length s) k) s.

Definition address_balance_history_list_key_requires_preimage (key : bytes) : bool :=
  starts_with key (bstr "/address_balance_height_idx/") && ends_with key (bstr "/len").

Definition volume_index_key_requires_preimage (key : bytes) : bool :=
  starts_with key (bstr "/volume_idx/") && ends_with key (bstr "/len").

Definition runes_put_key_requires_preimage (key : bytes) : bool :=
  bytes_eqb key (bstr "/tx_index/pointer/count")
  || bytes_eqb key (bstr "/tx_index/actions/pointer/count")
  || bytes_eqb key (bstr "/rune/seq/count")
  || starts_with key (bstr "/tx_index/chunk_count/")
  || starts_with key (bstr "/rune/by_id/")
  || starts_with key (bstr "/holder/")
  || starts_with key (bstr "/holder_count/")
  || starts_with key (bstr "/address/")
  || address_balance_history_list_key_requires_preimage key
  || starts_with key (bstr "/volume/")
  || volume_index_key_requires_preimage key.

(** [Vec::dedup]: runs of equal elements become one. *)
Fixpoint dedup_runs (l : list bytes) : list bytes :=
  match l with
  | [] => []
  | x :: l' =>
      match dedup_runs l' with
      | y :: ys => if bytes_eqb x y then y :: ys else x :: y :: ys
      | [] => [x]
      end
  end.

(** Fixed-width integers of the counters. *)
Definition encode_u128 (value : Z) : bytes := le_bytes 16 value.
Definition decode_u128 (value : bytes) : option Z :=
  if negb (length value =? 16)%nat then None else Some (from_le value).
Definition encode_u64 (value : Z) : bytes := le_bytes 8 value.
Definition decode_u64 (value : bytes) : option Z :=
  if negb (length value =? 8)%nat then None else Some (from_le value).
Definition encode_u32 (value : Z) : bytes := le_bytes 4 value.
Definition decode_u32 (value : bytes) : option Z :=
  if negb (length value =? 4)%nat then None else Some (from_le value).

Section Ops.
Context {DB : Type} {rocks : RocksDB DB} {codec : NodeCodec} {ucodec : UndoCodec}.

(** The provider is the module's handle [m]. *)
Definition get_index_height (fuel : nat) (w : World DB) (m : Mdb) : option (option Z) :=
  raw ← get fuel w m INDEX_HEIGHT_KEY;
  Some (b ← raw; if (length b =? 4)%nat then Some (from_le b) else None).

Definition get_index_block_hash (fuel : nat) (w : World DB) (m : Mdb) : option (option bytes) :=
  raw ← get fuel w m INDEX_BLOCK_HASH_KEY;
  Some (b ← raw; if (length b =? 32)%nat then Some b else None).

Definition set_index_height (fuel : nat) (w : World DB) (m : Mdb) (height : Z)
    : option (World DB) := put fuel w m INDEX_HEIGHT_KEY (le_bytes 4 height).

(** The calls a closure makes on the batch. *)
Definition batch_calls (puts : list kv) (deletes : list bytes) : list batch_op :=
  (BDelete <$> deletes) ++ ((fun e : kv => BPut e.1 e.2) <$> puts).

Definition set_batch (fuel : nat) (w : World DB) (m : Mdb) (puts : list kv) (deletes : list bytes)
    : option (World DB) := bulk_write fuel w m (batch_calls puts deletes).

(** The keys whose previous value must be read, and those known to be new. *)
Definition read_keys_of (puts : list kv) (deletes : list bytes)
    (known : gmap bytes (option bytes)) : list bytes :=
  sort_by bytes_leb (remove_dups
    (filter (fun k => known !! k = None) deletes
     ++ filter (fun k => known !! k = None /\ runes_put_key_requires_preimage k = true) puts.*1)).

Definition append_only_of (puts : list kv) (known : gmap bytes (option bytes)) : list bytes :=
  dedup_runs (sort_by bytes_leb
    (filter (fun k => known !! k = None /\ runes_put_key_requires_preimage k = false) puts.*1)).

Definition touched_by (puts : list kv) (deletes : list bytes) : list bytes := puts.*1 ++ deletes.

Definition set_block_batch (fuel : nat) (w : World DB) (m : Mdb) (puts : list kv)
    (deletes : list bytes) (known_preimages : gmap bytes (option bytes)) (index_height : Z)
    (block_hash : bytes) : option (World DB) :=
  let touched := touched_by puts deletes in
  let known := filter (fun e => e.1 ∈ touched) known_preimages in
  let read_keys := read_keys_of puts deletes known in
  let append_only_put_keys := append_only_of puts known in
  previous_values ← multi_get fuel w m read_keys;
  let changes :=
    ((fun e : bytes * option bytes => mkChange e.1 e.2)
       <$> sort_by (fun a b : bytes * option bytes => bytes_leb a.1 b.1) (map_to_list known))
    ++ zip_with mkChange read_keys previous_values
    ++ ((fun k => mkChange k None) <$> append_only_put_keys) in
  prev_height ← get_index_height fuel w m;
  prev_hash ← get_index_block_hash fuel w m;
  let undo := mkUndo index_height block_hash prev_height prev_hash changes in
  bulk_write fuel w m
    (batch_calls puts deletes
     ++ [BPut INDEX_HEIGHT_KEY (le_bytes 4 index_height);
         BPut INDEX_BLOCK_HASH_KEY block_hash;
         BPut (undo_key index_height) (encode_undo undo)]).

Definition has_undo_for_height (fuel : nat) (w : World DB) (m : Mdb) (height : Z) : option bool :=
  raw ← get fuel w m (undo_key height);
  Some (bool_decide (raw <> None)).

(** The record of a height, checked against the index. *)
Definition load_undo (fuel : nat) (w : World DB) (m : Mdb) (current_height : Z)
    (current_hash : option bytes) : option (RunesBlockUndo + RollbackError) :=
  raw ← get fuel w m (undo_key current_height);
  Some match raw with
       | None => inr (MissingUndo current_height)
       | Some undo_bytes =>
           match decode_undo undo_bytes with
           | None => inr (UndecodableUndo current_height)
           | Some undo =>
               if negb (ub_height undo =? current_height)
               then inr (HeightMismatch current_height (ub_height undo))
               else if match current_hash with
                       | Some h => negb (bytes_eqb h (ub_block_hash undo))
                       | None => false
                       end
               then inr (HashMismatch current_height)
               else inl undo
           end
       end.

(** Whether a height is at or below the rollback target. *)
Definition reached (target_height : option Z) (current_height : Z) : bool :=
  match target_height with Some t => current_height <=? t | None => false end.

Fixpoint preflight_loop (fuel : nat) (w : World DB) (m : Mdb) (target_height : option Z)
    (simulated_height : option Z) (simulated_hash : option bytes)
    : option (unit + RollbackError) :=
  match fuel with
  | O => None
  | S fuel' =>
      match simulated_height with
      | None => Some (inl tt)
      | Some current_height =>
          if reached target_height current_height then Some (inl tt)
          else
            r ← load_undo fuel w m current_height simulated_hash;
            match r with
            | inr e => Some (inr e)
            | inl undo =>
                preflight_loop fuel' w m target_height (prev_index_height undo)
                  (prev_index_block_hash undo)
            end
      end
  end.

(** [next_height.checked_sub(1)] *)
Definition checked_pred (next_height : Z) : option Z :=
  if next_height <? 1 then None else Some (next_height - 1).

Definition preflight_rollback_before_height (fuel : nat) (w : World DB) (m : Mdb)
    (next_height : Z) : option (unit + RollbackError) :=
  h ← get_index_height fuel w m;
  b ← get_index_block_hash fuel w m;
  preflight_loop fuel w m (checked_pred next_height) h b.

(** The batch that undoes a block. *)
Definition undo_calls (undo : RunesBlockUndo) (key : bytes) : list batch_op :=
  ((fun c => match uc_previous c with
             | Some value => BPut (uc_key c) value
             | None => BDelete (uc_key c)
             end) <$> ub_changes undo)
  ++ [match prev_index_height undo with
      | Some height => BPut INDEX_HEIGHT_KEY (le_bytes 4 height)
      | None => BDelete INDEX_HEIGHT_KEY
      end;
      match prev_index_block_hash undo with
      | Some hash => BPut INDEX_BLOCK_HASH_KEY hash
      | None => BDelete INDEX_BLOCK_HASH_KEY
      end;
      BDelete key].

Fixpoint rollback_to_height (fuel : nat) (w : World DB) (m : Mdb) (target_height : option Z)
    : option (World DB * option RollbackError) :=
  match fuel with
  | O => None
  | S fuel' =>
      h ← get_index_height fuel w m;
      match h with
      | None => Some (w, None)
      | Some current_height =>
          if reached target_height current_height then Some (w, None)
          else
            current_hash ← get_index_block_hash fuel w m;
            r ← load_undo fuel w m current_height current_hash;
            match r with
            | inr e => Some (w, Some e)
            | inl undo =>
                w' ← bulk_write fuel w m (undo_calls undo (undo_key current_height));
                rollback_to_height fuel' w' m target_height
            end
      end
  end.

Definition rollback_before_height (fuel : nat) (w : World DB) (m : Mdb) (next_height : Z)
    : option (World DB * option RollbackError) :=
  rollback_to_height fuel w m (checked_pred next_height).

Definition clear_namespace (fuel : nat) (w : World DB) (m : Mdb) : option (World DB * nat) :=
  ks ← scan_prefix_keys fuel w m [];
  w' ← bulk_write fuel w m (BDelete <$> ks);
  Some (w', length ks).

End Ops.
