(* ===== verification/RunesUndoProps.v ===== *)
(** * Rolling back the journal restores the namespace

    A block's record holds the previous value of every key the block touches,
    provided the values the indexer claims to know are right and the keys it
    treats as append-only are new.  Replaying the records of a chain of blocks
    backwards then gives back the namespace before the chain, exactly. *)
From stdpp Require Import strings.
From S2P Require Import Prelude Bytes Rocks TreeNode TreeDb TreeScan TreeBlocks Mdb MdbProps.
From S2P Require Import RunesUndo.

Open Scope Z_scope.

(** ** Batches at one key *)

Definition op_value (op : batch_op) : option bytes :=
  match op with BPut _ v => Some v | BDelete _ => None end.

Lemma apply_ops_const m wb k x :
  (forall op, op ∈ wb -> op_key op = k -> op_value op = x) ->
  (exists op, op ∈ wb /\ op_key op = k) -> apply_ops m wb !! k = x.
Proof.
  intros Hall Hex. induction wb as [|op wb IH] using rev_ind.
  { destruct Hex as (op & Hop & _). by apply elem_of_nil in Hop. }
  rewrite apply_ops_app. destruct (decide (op_key op = k)) as [Hk|Hk].
  - rewrite <- (Hall op); [|set_solver|done]. destruct op; cbn in *; subst; by simplify_map_eq.
  - assert (E : apply_ops (apply_ops m wb) [op] !! k = apply_ops m wb !! k).
    { apply apply_ops_other. by repeat constructor. }
    rewrite E. apply IH.
    + intros o Ho. apply Hall. set_solver.
    + destruct Hex as (o & [Ho|Ho]%elem_of_app & Hok); [eauto|].
      apply list_elem_of_singleton in Ho as ->. done.
Qed.

Lemma dedup_runs_elem l k : k ∈ dedup_runs l <-> k ∈ l.
Proof.
  induction l as [|x l IH]; cbn; [done|]. rewrite elem_of_cons, <- IH.
  destruct (dedup_runs l) as [|y ys]; [set_solver|].
  unfold bytes_eqb. case_bool_decide; set_solver.
Qed.

(** ** Raw handles *)

Section Raw.
Context {DB : Type} {rocks : RocksDB DB} {laws : RocksLaws DB} {codec : NodeCodec}.

(** A handle on a namespace outside the tree. *)
Definition raw_handle (m : Mdb) : Prop := is_null m = false /\ versioned m = false.

(** The namespace of a handle. *)
Definition ns (w : World DB) (m : Mdb) : gmap bytes bytes := ns_of (prefix m) (db_view (w_db w)).

Lemma raw_manager w m : raw_handle m -> versioned_manager (DB := DB) w m = None.
Proof. intros [_ Hv]. unfold versioned_manager. by rewrite Hv. Qed.

Lemma raw_backed fuel w m : raw_handle m -> backed fuel w m at_tip (db_view (w_db w)).
Proof. intros H. unfold backed. by rewrite raw_manager. Qed.

Lemma raw_mdb_ok m : raw_handle m -> mdb_ok m.
Proof. intros [Hn Hv]. split; [done|]. by rewrite Hv. Qed.

Lemma raw_get fuel w m k : raw_handle m -> get fuel w m k = Some (ns w m !! k).
Proof. intros H. apply ns_get; [by apply raw_mdb_ok|by apply raw_backed]. Qed.

Lemma raw_multi_get fuel w m ks :
  raw_handle m -> multi_get fuel w m ks = Some (map (fun k => ns w m !! k) ks).
Proof. intros H. apply ns_multi_get; [by apply raw_mdb_ok|by apply raw_backed]. Qed.

Lemma raw_bulk fuel w m build :
  raw_handle m -> exists w', bulk_write fuel w m build = Some w'
    /\ ns w' m = apply_ops (ns w m) build.
Proof.
  intros H. unfold bulk_write. rewrite (proj1 H), raw_manager, batch_calls_wb by done.
  eexists. split; [done|]. unfold ns. cbn. rewrite db_write_spec, apply_ops_changes.
  apply ns_changes.
Qed.

End Raw.

(** ** Blocks on the namespace *)

Record RBlock := mkRBlock {
  rb_puts : list kv;
  rb_deletes : list bytes;
  rb_known : gmap bytes (option bytes);
  rb_height : Z;
  rb_hash : bytes;
}.

Definition touched (b : RBlock) : list bytes := touched_by (rb_puts b) (rb_deletes b).

Definition reserved (k : bytes) : Prop :=
  k = INDEX_HEIGHT_KEY \/ k = INDEX_BLOCK_HASH_KEY \/ starts_with k UNDO_PREFIX = true.

(** The index rows of a namespace. *)
Record index_rows (N : gmap bytes bytes) (oh : option Z) (ob : option bytes) : Prop := {
  ir_height : N !! INDEX_HEIGHT_KEY = le_bytes 4 <$> oh;
  ir_hash : N !! INDEX_BLOCK_HASH_KEY = ob;
  ir_u32 h : oh = Some h -> in_u32 h;
  ir_len b : ob = Some b -> length b = 32%nat;
}.

(** What the indexer guarantees of a block batch against the namespace [N] it is written to. *)
Record block_ok (N : gmap bytes bytes) (b : RBlock) : Prop := {
  bo_known k p : rb_known b !! k = Some p -> k ∈ touched b -> N !! k = p;
  bo_append k : k ∈ (rb_puts b).*1 -> rb_known b !! k = None ->
    runes_put_key_requires_preimage k = false -> N !! k = None;
  bo_reserved k : k ∈ touched b -> ~ reserved k;
  bo_new : N !! undo_key (rb_height b) = None;
  bo_u32 : in_u32 (rb_height b);
  bo_len : length (rb_hash b) = 32%nat;
}.

Section Journal.
Context {ucodec : UndoCodec} {ulaws : UndoLaws}.

Definition known_of (b : RBlock) : gmap bytes (option bytes) :=
  filter (fun e => e.1 ∈ touched b) (rb_known b).

(** The record [set_block_batch] writes. *)
Definition undo_of (N : gmap bytes bytes) (b : RBlock) (oh : option Z) (ob : option bytes)
    : RunesBlockUndo :=
  let reads := read_keys_of (rb_puts b) (rb_deletes b) (known_of b) in
  mkUndo (rb_height b) (rb_hash b) oh ob
    (((fun e : bytes * option bytes => mkChange e.1 e.2)
        <$> sort_by (fun a b : bytes * option bytes => bytes_leb a.1 b.1) (map_to_list (known_of b)))
     ++ zip_with mkChange reads (map (fun k => N !! k) reads)
     ++ ((fun k => mkChange k None) <$> append_only_of (rb_puts b) (known_of b))).

(** The namespace after the block. *)
Definition commit_ns (N : gmap bytes bytes) (b : RBlock) (oh : option Z) (ob : option bytes)
    : gmap bytes bytes :=
  apply_ops N (batch_calls (rb_puts b) (rb_deletes b)
    ++ [BPut INDEX_HEIGHT_KEY (le_bytes 4 (rb_height b)); BPut INDEX_BLOCK_HASH_KEY (rb_hash b);
        BPut (undo_key (rb_height b)) (encode_undo (undo_of N b oh ob))]).

Lemma known_of_lookup b k p : known_of b !! k = Some p <-> rb_known b !! k = Some p /\ k ∈ touched b.
Proof. unfold known_of. by rewrite map_lookup_filter_Some. Qed.

Lemma read_keys_elem puts deletes known k :
  k ∈ read_keys_of puts deletes known <->
  known !! k = None /\ (k ∈ deletes \/ k ∈ puts.*1 /\ runes_put_key_requires_preimage k = true).
Proof.
  unfold read_keys_of. rewrite sort_by_perm, elem_of_remove_dups, elem_of_app, !list_elem_of_filter.
  tauto.
Qed.

Lemma append_only_elem puts known k :
  k ∈ append_only_of puts known <->
  known !! k = None /\ k ∈ puts.*1 /\ runes_put_key_requires_preimage k = false.
Proof. unfold append_only_of. rewrite dedup_runs_elem, sort_by_perm, list_elem_of_filter. tauto. Qed.

Lemma zip_map_elem (N : gmap bytes bytes) ks c :
  c ∈ zip_with mkChange ks (map (fun k => N !! k) ks) <-> exists k, k ∈ ks /\ c = mkChange k (N !! k).
Proof.
  induction ks as [|k ks IH]; cbn; [set_solver|]. rewrite elem_of_cons, IH. set_solver.
Qed.

(** The record's changes are previous values, of exactly the touched keys. *)
Lemma undo_changes N b oh ob :
  block_ok N b ->
  (forall c, c ∈ ub_changes (undo_of N b oh ob) -> uc_key c ∈ touched b /\ N !! uc_key c = uc_previous c)
  /\ forall k, k ∈ touched b -> exists c, c ∈ ub_changes (undo_of N b oh ob) /\ uc_key c = k.
Proof.
  intros Hok. unfold undo_of. cbn [ub_changes].
  set (reads := read_keys_of _ _ _). split.
  - intros c. rewrite !elem_of_app, !list_elem_of_fmap, zip_map_elem.
    intros [([k p] & -> & Hk)|[(k & Hk & ->)|(k & -> & Hk)]]; cbn [uc_key uc_previous].
    + rewrite sort_by_perm in Hk. apply elem_of_map_to_list, known_of_lookup in Hk as [Hk Ht].
      split; [done|]. by apply (bo_known _ _ Hok).
    + apply read_keys_elem in Hk as [_ Hk]. split; [|done]. unfold touched, touched_by. set_solver.
    + apply append_only_elem in Hk as (Hn & Hk & Hr). cbn.
      assert (Ht : k ∈ touched b) by (unfold touched, touched_by; set_solver). split; [done|].
      apply (bo_append _ _ Hok); [done| |done]. destruct (rb_known b !! k) eqn:E; [|done].
      assert (known_of b !! k = Some o) by by apply known_of_lookup. congruence.
  - intros k Hk. destruct (known_of b !! k) as [p|] eqn:E.
    { exists (mkChange k p). split; [|done]. rewrite !elem_of_app, !list_elem_of_fmap. left.
      exists (k, p). split; [done|]. by rewrite sort_by_perm, elem_of_map_to_list. }
    destruct (decide (k ∈ reads)) as [Hr|Hr].
    { exists (mkChange k (N !! k)). split; [|done]. rewrite !elem_of_app, zip_map_elem. eauto. }
    exists (mkChange k None). split; [|done]. rewrite !elem_of_app, !list_elem_of_fmap. right; right.
    exists k. split; [done|]. unfold reads in Hr. rewrite read_keys_elem in Hr.
    apply append_only_elem. unfold touched, touched_by in Hk. apply elem_of_app in Hk as [Hk|Hk].
    + destruct (runes_put_key_requires_preimage k) eqn:Er; [|done]. exfalso. auto.
    + exfalso. auto.
Qed.

Lemma undo_key_reserved h : reserved (undo_key h).
Proof. right; right. apply starts_with_app. Qed.

Lemma undo_key_index h : undo_key h <> INDEX_HEIGHT_KEY /\ undo_key h <> INDEX_BLOCK_HASH_KEY.
Proof. split; intros E; cbv -[be_bytes] in E; discriminate E. Qed.

Lemma index_keys_ne : INDEX_HEIGHT_KEY <> INDEX_BLOCK_HASH_KEY.
Proof. done. Qed.

(** The operations that undo a block name each of its keys with its previous value. *)
Lemma undo_ops N b oh ob op :
  block_ok N b -> index_rows N oh ob ->
  op ∈ undo_calls (undo_of N b oh ob) (undo_key (rb_height b)) -> op_value op = N !! op_key op.
Proof.
  intros Hok [Hh Hb _ _]. unfold undo_calls. rewrite elem_of_app, list_elem_of_fmap.
  intros [(c & -> & Hc)|Hop].
  - apply undo_changes in Hc as [_ Hc]; [|done].
    destruct (uc_previous c) eqn:E; cbn [op_value op_key]; by rewrite Hc.
  - rewrite !elem_of_cons in Hop. cbn [prev_index_height prev_index_block_hash undo_of] in Hop.
    destruct Hop as [->|[->|[->|Hop]]].
    + destruct oh; cbn [op_value op_key]; by rewrite Hh.
    + destruct ob; cbn [op_value op_key]; by rewrite Hb.
    + symmetry. exact (bo_new _ _ Hok).
    + by apply elem_of_nil in Hop.
Qed.

Lemma undo_names N b oh ob k :
  block_ok N b ->
  k ∈ touched b \/ k = INDEX_HEIGHT_KEY \/ k = INDEX_BLOCK_HASH_KEY \/ k = undo_key (rb_height b) ->
  exists op, op ∈ undo_calls (undo_of N b oh ob) (undo_key (rb_height b)) /\ op_key op = k.
Proof.
  intros Hok [Hk|[-> | [-> | ->] ] ]; unfold undo_calls.
  - destruct (undo_changes N b oh ob Hok) as [_ Hcov]. destruct (Hcov k Hk) as (c & Hc & <-).
    eexists. rewrite elem_of_app, list_elem_of_fmap. split; [left; eauto|].
    by destruct (uc_previous c).
  - eexists. split; [rewrite elem_of_app, elem_of_cons; right; left; reflexivity|].
    by destruct (prev_index_height _).
  - eexists. split; [rewrite elem_of_app, !elem_of_cons; right; right; left; reflexivity|].
    by destruct (prev_index_block_hash _).
  - eexists. split; [rewrite elem_of_app, !elem_of_cons; right; right; right; left; reflexivity|].
    done.
Qed.

Lemma commit_other N b oh ob k :
  k ∉ touched b -> k <> INDEX_HEIGHT_KEY -> k <> INDEX_BLOCK_HASH_KEY ->
  k <> undo_key (rb_height b) -> commit_ns N b oh ob !! k = N !! k.
Proof.
  intros Hk H1 H2 H3. unfold commit_ns. apply apply_ops_other, Forall_app. split.
  - unfold batch_calls. unfold touched, touched_by in Hk. apply Forall_app.
    split; apply Forall_fmap, Forall_forall.
    + intros x Hx E. cbn in E. set_solver.
    + intros [x v] Hx E. cbn in E. subst x. apply Hk, elem_of_app. left.
      apply list_elem_of_fmap. by exists (k, v).
  - repeat constructor; cbn [op_key]; congruence.
Qed.

(** Undoing a block gives back the namespace before it. *)
Lemma undo_restores N b oh ob :
  block_ok N b -> index_rows N oh ob ->
  apply_ops (commit_ns N b oh ob) (undo_calls (undo_of N b oh ob) (undo_key (rb_height b))) = N.
Proof.
  intros Hok Hi. apply map_eq. intros k.
  destruct (decide (k ∈ touched b \/ k = INDEX_HEIGHT_KEY \/ k = INDEX_BLOCK_HASH_KEY
                    \/ k = undo_key (rb_height b))) as [Hk|Hk].
  - apply apply_ops_const; [|by apply undo_names]. intros op Hop <-. by eapply undo_ops.
  - rewrite apply_ops_other; [apply commit_other; tauto|]. apply Forall_forall. intros op Hop E.
    apply Hk. unfold undo_calls in Hop. rewrite elem_of_app, list_elem_of_fmap in Hop.
    destruct Hop as [(c & -> & Hc)|Hop].
    + left. apply undo_changes in Hc as [Hc _]; [|done].
      assert (uc_key c = k) as <- by by destruct (uc_previous c). done.
    + right. rewrite !elem_of_cons in Hop. destruct Hop as [->|[->|[->|Hop]]].
      * left. by destruct (prev_index_height _).
      * right; left. by destruct (prev_index_block_hash _).
      * right; right. done.
      * by apply elem_of_nil in Hop.
Qed.

(** The rows a commit leaves. *)
Lemma commit_rows N b oh ob :
  in_u32 (rb_height b) -> length (rb_hash b) = 32%nat ->
  index_rows (commit_ns N b oh ob) (Some (rb_height b)) (Some (rb_hash b))
  /\ commit_ns N b oh ob !! undo_key (rb_height b) = Some (encode_undo (undo_of N b oh ob)).
Proof.
  intros Hu Hl. destruct (undo_key_index (rb_height b)) as [H1 H2]. pose proof index_keys_ne as H3.
  unfold commit_ns. rewrite !apply_ops_app. set (M := apply_ops N _). split; [split|].
  - change (<[undo_key (rb_height b) := encode_undo (undo_of N b oh ob)]>
      (<[INDEX_BLOCK_HASH_KEY := rb_hash b]> (<[INDEX_HEIGHT_KEY := le_bytes 4 (rb_height b)]> M))
      !! INDEX_HEIGHT_KEY = Some (le_bytes 4 (rb_height b))).
    by rewrite !lookup_insert_ne, lookup_insert_eq by congruence.
  - change (<[undo_key (rb_height b) := encode_undo (undo_of N b oh ob)]>
      (<[INDEX_BLOCK_HASH_KEY := rb_hash b]> (<[INDEX_HEIGHT_KEY := le_bytes 4 (rb_height b)]> M))
      !! INDEX_BLOCK_HASH_KEY = Some (rb_hash b)).
    by rewrite lookup_insert_ne, lookup_insert_eq by congruence.
  - by intros h [= <-].
  - by intros x [= <-].
  - change (<[undo_key (rb_height b) := encode_undo (undo_of N b oh ob)]>
      (<[INDEX_BLOCK_HASH_KEY := rb_hash b]> (<[INDEX_HEIGHT_KEY := le_bytes 4 (rb_height b)]> M))
      !! undo_key (rb_height b) = Some (encode_undo (undo_of N b oh ob))).
    by rewrite lookup_insert_eq.
Qed.

Lemma undo_of_wf N b oh ob : block_ok N b -> index_rows N oh ob -> undo_wf (undo_of N b oh ob).
Proof. intros Hok []. split; [apply Hok|]. split; [apply Hok|]. by split. Qed.

(** ** Chains of blocks *)

(** [chain N oh ob bs N' oh' ob']: the blocks [bs] in order on the namespace [N]. *)
Inductive chain (N : gmap bytes bytes) (oh : option Z) (ob : option bytes)
    : list RBlock -> gmap bytes bytes -> option Z -> option bytes -> Prop :=
| chain_nil : chain N oh ob [] N oh ob
| chain_snoc bs N1 oh1 ob1 b :
    chain N oh ob bs N1 oh1 ob1 -> block_ok N1 b ->
    chain N oh ob (bs ++ [b]) (commit_ns N1 b oh1 ob1) (Some (rb_height b)) (Some (rb_hash b)).

Lemma chain_rows N oh ob bs N' oh' ob' :
  index_rows N oh ob -> chain N oh ob bs N' oh' ob' -> index_rows N' oh' ob'.
Proof. intros Hi Hc. destruct Hc as [|? ? ? ? ? ? Hok]; [done|]. apply commit_rows; apply Hok. Qed.

(** The conditions on a list of blocks, oldest first. *)
Fixpoint blocks_ok (N : gmap bytes bytes) (oh : option Z) (ob : option bytes) (bs : list RBlock)
    : Prop :=
  match bs with
  | [] => True
  | b :: bs' =>
      block_ok N b /\ blocks_ok (commit_ns N b oh ob) (Some (rb_height b)) (Some (rb_hash b)) bs'
  end.

Lemma chain_cons N oh ob b bs N' oh' ob' :
  block_ok N b ->
  chain (commit_ns N b oh ob) (Some (rb_height b)) (Some (rb_hash b)) bs N' oh' ob' ->
  chain N oh ob (b :: bs) N' oh' ob'.
Proof.
  intros Hb. induction 1 as [|bs N1 oh1 ob1 b1 Hc IH Hok].
  - apply (chain_snoc N oh ob [] N oh ob b); [constructor|done].
  - apply (chain_snoc N oh ob (b :: bs)); done.
Qed.

Lemma chain_app N oh ob bs1 N1 oh1 ob1 bs2 N2 oh2 ob2 :
  chain N oh ob bs1 N1 oh1 ob1 -> chain N1 oh1 ob1 bs2 N2 oh2 ob2 ->
  chain N oh ob (bs1 ++ bs2) N2 oh2 ob2.
Proof.
  intros H1. induction 1 as [|bs N3 oh3 ob3 b Hc IH Hok]; [by rewrite app_nil_r|].
  rewrite app_assoc. by apply chain_snoc.
Qed.

Section Worlds.
Context {DB : Type} {rocks : RocksDB DB} {laws : RocksLaws DB} {codec : NodeCodec}.

Lemma from_le_u32 h : in_u32 h -> from_le (le_bytes 4 h) = h.
Proof. intros Hh. rewrite from_le_le_bytes. unfold in_u32 in Hh. apply Z.mod_small. cbn. lia. Qed.

Lemma height_of_rows fuel (w : World DB) m oh ob :
  raw_handle m -> index_rows (ns w m) oh ob -> get_index_height fuel w m = Some oh.
Proof.
  intros Hr [Hh _ Hu _]. unfold get_index_height. rewrite raw_get, Hh by done.
  destruct oh as [h|]; [|done]. cbn [fmap option_fmap option_map mbind option_bind].
  rewrite length_le_bytes, from_le_u32 by auto. done.
Qed.

Lemma hash_of_rows fuel (w : World DB) m oh ob :
  raw_handle m -> index_rows (ns w m) oh ob -> get_index_block_hash fuel w m = Some ob.
Proof.
  intros Hr [_ Hb _ Hl]. unfold get_index_block_hash. rewrite raw_get, Hb by done.
  destruct ob as [b|]; [|done]. cbn [mbind option_bind]. by rewrite Hl.
Qed.

(** [set_block_batch] is [commit_ns] on the namespace. *)
Lemma set_block_batch_spec fuel (w : World DB) m b oh ob :
  raw_handle m -> index_rows (ns w m) oh ob ->
  exists w', set_block_batch fuel w m (rb_puts b) (rb_deletes b) (rb_known b) (rb_height b) (rb_hash b)
             = Some w' /\ ns w' m = commit_ns (ns w m) b oh ob.
Proof.
  intros Hr Hi. unfold set_block_batch. rewrite raw_multi_get by done. cbn [mbind option_bind].
  rewrite (height_of_rows fuel w m oh ob Hr Hi). cbn [mbind option_bind].
  rewrite (hash_of_rows fuel w m oh ob Hr Hi). cbn [mbind option_bind].
  by apply raw_bulk.
Qed.

(** Writing the blocks of a list in order. *)
Fixpoint write_blocks (fuel : nat) (w : World DB) (m : Mdb) (bs : list RBlock) : option (World DB) :=
  match bs with
  | [] => Some w
  | b :: bs' =>
      w1 ← set_block_batch fuel w m (rb_puts b) (rb_deletes b) (rb_known b) (rb_height b) (rb_hash b);
      write_blocks fuel w1 m bs'
  end.

Lemma write_blocks_chain fuel (w : World DB) m bs oh ob :
  raw_handle m -> index_rows (ns w m) oh ob -> blocks_ok (ns w m) oh ob bs ->
  exists w' oh' ob', write_blocks fuel w m bs = Some w' /\ chain (ns w m) oh ob bs (ns w' m) oh' ob'.
Proof.
  intros Hr. revert w oh ob. induction bs as [|b bs IH]; intros w oh ob Hi Hbs; cbn [write_blocks].
  { exists w, oh, ob. split; [done|constructor]. }
  destruct Hbs as [Hb Hbs]. destruct (set_block_batch_spec fuel w m b oh ob Hr Hi) as (w1 & -> & Hn1).
  cbn [mbind option_bind]. rewrite <- Hn1 in Hbs.
  destruct (IH w1 (Some (rb_height b)) (Some (rb_hash b))) as (w' & oh' & ob' & Hw & Hc);
    [rewrite Hn1; apply commit_rows; apply Hb|done|].
  exists w', oh', ob'. split; [done|]. apply chain_cons; [done|]. by rewrite <- Hn1.
Qed.

Lemma load_undo_spec fuel (w : World DB) m N b oh ob :
  raw_handle m -> block_ok N b -> index_rows N oh ob ->
  ns w m !! undo_key (rb_height b) = Some (encode_undo (undo_of N b oh ob)) ->
  load_undo fuel w m (rb_height b) (Some (rb_hash b)) = Some (inl (undo_of N b oh ob)).
Proof.
  intros Hr Hok Hi Hu. unfold load_undo. rewrite raw_get, Hu by done. cbn [mbind option_bind].
  rewrite undo_roundtrip by by apply undo_of_wf. cbn [ub_height ub_block_hash undo_of].
  rewrite Z.eqb_refl. cbn [negb]. unfold bytes_eqb. by rewrite bool_decide_true.
Qed.

(** The rollback loop unwinds a chain. *)
Lemma rollback_chain fuel (w : World DB) m N oh ob bs N' oh' ob' target :
  raw_handle m -> index_rows N oh ob -> chain N oh ob bs N' oh' ob' -> ns w m = N' ->
  Forall (fun b => reached target (rb_height b) = false) bs ->
  (forall h, oh = Some h -> reached target h = true) ->
  (length bs < fuel)%nat ->
  exists w', rollback_to_height fuel w m target = Some (w', None) /\ ns w' m = N.
Proof.
  intros Hr Hi Hc. revert fuel w. induction Hc as [|bs N1 oh1 ob1 b Hc IH Hok];
    intros fuel w Hn Hall Hbase Hf; (destruct fuel as [|fuel]; [lia|]); cbn [rollback_to_height].
  - rewrite (height_of_rows _ w m oh ob) by (done || by rewrite Hn). cbn [mbind option_bind].
    exists w. split; [|done]. destruct oh as [h|]; [|done]. by rewrite (Hbase h).
  - pose proof (chain_rows _ _ _ _ _ _ _ Hi Hc) as Hi1.
    destruct (commit_rows N1 b oh1 ob1 (bo_u32 _ _ Hok) (bo_len _ _ Hok)) as [Hrows Hund]. rewrite <- Hn in Hrows, Hund.
    rewrite (height_of_rows _ w m _ _ Hr Hrows). cbn [mbind option_bind].
    apply Forall_app in Hall as [Hall [Hb _]%Forall_cons]. rewrite Hb.
    rewrite (hash_of_rows _ w m _ _ Hr Hrows). cbn [mbind option_bind].
    rewrite (load_undo_spec _ w m N1 b oh1 ob1) by done. cbn [mbind option_bind].
    destruct (raw_bulk (S fuel) w m (undo_calls (undo_of N1 b oh1 ob1) (undo_key (rb_height b))) Hr)
      as (w1 & -> & Hn1). cbn [mbind option_bind].
    rewrite Hn, undo_restores in Hn1 by done.
    rewrite length_app in Hf. cbn in Hf. apply IH; [done|done|done|lia].
Qed.

(** The preflight walk follows the same records without writing. *)
Lemma preflight_chain fuel (w : World DB) m N oh ob bs N' oh' ob' target :
  raw_handle m -> index_rows N oh ob -> chain N oh ob bs N' oh' ob' ->
  (forall k, starts_with k UNDO_PREFIX = true -> is_Some (N' !! k) -> ns w m !! k = N' !! k) ->
  Forall (fun b => reached target (rb_height b) = false) bs ->
  (forall h, oh = Some h -> reached target h = true) ->
  (length bs < fuel)%nat ->
  preflight_loop fuel w m target oh' ob' = Some (inl tt).
Proof.
  intros Hr Hi Hc. revert fuel. induction Hc as [|bs N1 oh1 ob1 b Hc IH Hok];
    intros fuel Hn Hall Hbase Hf; (destruct fuel as [|fuel]; [lia|]); cbn [preflight_loop].
  - destruct oh as [h|]; [|done]. by rewrite (Hbase h).
  - pose proof (chain_rows _ _ _ _ _ _ _ Hi Hc) as Hi1.
    destruct (commit_rows N1 b oh1 ob1 (bo_u32 _ _ Hok) (bo_len _ _ Hok)) as [_ Hund].
    apply Forall_app in Hall as [Hall [Hb _]%Forall_cons]. rewrite Hb.
    rewrite (load_undo_spec _ w m N1 b oh1 ob1);
      [|done|done|done|by rewrite Hn; [|apply starts_with_app|rewrite Hund; eauto]].
    cbn [mbind option_bind prev_index_height prev_index_block_hash undo_of].
    rewrite length_app in Hf. cbn in Hf. apply IH; [|done|done|lia].
    intros k Hk Hs. rewrite Hn; [|done|].
    + apply commit_other.
      * intros Hkt. apply (bo_reserved _ _ Hok k Hkt). right; by right.
      * intros ->. done.
      * intros ->. done.
      * intros ->. rewrite (bo_new _ _ Hok) in Hs. by destruct Hs.
    + rewrite commit_other; [done| | | |].
      * intros Hkt. apply (bo_reserved _ _ Hok k Hkt). right; by right.
      * intros ->. done.
      * intros ->. done.
      * intros ->. rewrite (bo_new _ _ Hok) in Hs. by destruct Hs.
Qed.

(** The preflight of a written chain, from the index rows of the world itself. *)
Lemma preflight_written fuel (w : World DB) m N oh ob bs oh' ob' next :
  raw_handle m -> index_rows N oh ob -> chain N oh ob bs (ns w m) oh' ob' ->
  Forall (fun b => reached (checked_pred next) (rb_height b) = false) bs ->
  (forall h, oh = Some h -> reached (checked_pred next) h = true) ->
  (length bs < fuel)%nat ->
  preflight_rollback_before_height fuel w m next = Some (inl tt).
Proof.
  intros Hr Hi Hc Hall Hbase Hf. pose proof (chain_rows _ _ _ _ _ _ _ Hi Hc) as Hrows.
  unfold preflight_rollback_before_height.
  rewrite (height_of_rows fuel w m _ _ Hr Hrows), (hash_of_rows fuel w m _ _ Hr Hrows).
  by apply (preflight_chain fuel w m N oh ob bs (ns w m) oh' ob').
Qed.

End Worlds.
End Journal.
