(* ===== verification/RunesStore.v ===== *)
(** * The runes store: records and keys

    The Borsh records of [src/modules/runes/storage.rs] and the byte keys under
    which the runes namespace keeps them.  Strings (addresses, rune names) are
    their UTF-8 bytes.  Borsh itself is the parameter [RuneCodec]. *)
From stdpp Require Import strings.
From S2P Require Import Prelude Bytes RunesTransfer RunesUndo.
From stdpp Require Import options.

Open Scope Z_scope.

Abbreviation Txid := bytes (only parsing).
Abbreviation Address := bytes (only parsing).

(** ** Runes *)

Record SchemaRuneId := mkRuneId { rid_block : Z; rid_tx : Z }.

#[global] Instance SchemaRuneId_eq_dec : EqDecision SchemaRuneId.
Proof. solve_decision. Defined.
#[global] Instance SchemaRuneId_countable : Countable SchemaRuneId :=
  inj_countable' (fun r => (rid_block r, rid_tx r)) (fun p => mkRuneId p.1 p.2) ltac:(by intros []).

(** The derived [Ord]. *)
Definition rid_leb (a b : SchemaRuneId) : bool :=
  (rid_block a <? rid_block b) || ((rid_block a =? rid_block b) && (rid_tx a <=? rid_tx b)).

Record SchemaRuneTerms := mkTerms {
  t_amount : option Z;
  t_cap : option Z;
  height_start : option Z;
  height_end : option Z;
  offset_start : option Z;
  offset_end : option Z;
}.

Record RuneEntry := mkEntry {
  re_id : SchemaRuneId;
  re_rune : Z;
  re_name : bytes;
  re_spaced_name : bytes;
  re_spacers : Z;
  re_symbol : option bytes;
  re_divisibility : Z;
  premine : Z;
  burned : Z;
  mints : Z;
  terms : option SchemaRuneTerms;
  etching_txid : bytes;
  re_number : Z;
  re_timestamp : Z;
  turbo : bool;
}.

(** [relative.zip(absolute).map(f).or(relative).or(absolute)] *)
Definition zip_or (f : Z -> Z -> Z) (relative absolute : option Z) : option Z :=
  match relative, absolute with
  | Some a, Some b => Some (f a b)
  | Some a, None => Some a
  | None, b => b
  end.

Definition start_height (e : RuneEntry) : option Z :=
  t ← terms e;
  zip_or Z.max (u64_sat_add (rid_block (re_id e)) <$> offset_start t) (height_start t).

Definition end_height (e : RuneEntry) : option Z :=
  t ← terms e;
  zip_or Z.min (u64_sat_add (rid_block (re_id e)) <$> offset_end t) (height_end t).

Definition mintable (e : RuneEntry) (height tx_index : Z) : option Z :=
  t ← terms e;
  amount ← t_amount t;
  let creation_height :=
    if bool_decide (re_id e = mkRuneId 1 0) then 840000 else rid_block (re_id e) in
  if (height =? creation_height) && (tx_index =? rid_tx (re_id e)) then None
  else if match start_height e with Some s => height <? s | None => false end then None
  else if match end_height e with Some x => x <? height | None => false end then None
  else if default 0 (t_cap t) <=? mints e then None
  else Some amount.

Definition supply (e : RuneEntry) : Z :=
  (premine e + (mints e * default 0 (terms e ≫= t_amount)) mod u128_mod) mod u128_mod.

Definition with_mints (e : RuneEntry) (n : Z) : RuneEntry :=
  mkEntry (re_id e) (re_rune e) (re_name e) (re_spaced_name e) (re_spacers e) (re_symbol e)
    (re_divisibility e) (premine e) (burned e) n (terms e) (etching_txid e) (re_number e)
    (re_timestamp e) (turbo e).

Definition with_burned (e : RuneEntry) (n : Z) : RuneEntry :=
  mkEntry (re_id e) (re_rune e) (re_name e) (re_spaced_name e) (re_spacers e) (re_symbol e)
    (re_divisibility e) (premine e) n (mints e) (terms e) (etching_txid e) (re_number e)
    (re_timestamp e) (turbo e).

(** ** Balances, activity, indexes *)

Record RuneBalance := mkBalance { rb_id : SchemaRuneId; rb_amount : Z }.

Record OutpointRuneBalances := mkOutpointRow {
  or_address : option Address;
  or_script : bytes;
  or_balances : list RuneBalance;
}.

Inductive RuneActivityKind := Etch | Mint.

Definition RuneActivityKind_key (k : RuneActivityKind) : bytes :=
  match k with Etch => bstr "etch" | Mint => bstr "mint" end.

Record RuneMintActivity := mkMintActivity {
  ma_id : SchemaRuneId;
  ma_txid : Txid;
  ma_chain_txids : list Txid;
  ma_cpfp : bool;
  ma_height : Z;
  ma_tx_index : Z;
  ma_timestamp : Z;
  ma_amount : Z;
  ma_fee_paid_sats : Z;
  ma_price_sats : bytes;
  ma_price_usd : bytes;
  ma_destination : option Address;
  ma_success : bool;
}.

Record RuneActivity := mkActivity {
  ac_id : SchemaRuneId;
  ac_txid : Txid;
  ac_chain_txids : list Txid;
  ac_cpfp : bool;
  ac_height : Z;
  ac_tx_index : Z;
  ac_timestamp : Z;
  ac_kind : RuneActivityKind;
  ac_amount : Z;
  ac_fee_paid_sats : Z;
  ac_price_sats : bytes;
  ac_price_usd : bytes;
  ac_destination : option Address;
  ac_success : bool;
}.

Inductive RuneActivityScope := ScopeAll | ScopeMarket | ScopeMint | ScopeEtch.

Definition scope_segment (s : RuneActivityScope) : bytes :=
  match s with
  | ScopeAll => bstr "all" | ScopeMarket => bstr "market"
  | ScopeMint => bstr "mint" | ScopeEtch => bstr "etch"
  end.

Inductive RuneActivitySortField := SortTimestamp | SortAmount.

Definition sort_segment (s : RuneActivitySortField) : bytes :=
  match s with SortTimestamp => bstr "timestamp" | SortAmount => bstr "amount" end.

Inductive RuneVolumeKind := TransferVolume | TotalReceived.

#[global] Instance RuneVolumeKind_eq_dec : EqDecision RuneVolumeKind.
Proof. solve_decision. Defined.
#[global] Instance RuneVolumeKind_countable : Countable RuneVolumeKind :=
  inj_countable' (fun k => match k with TransferVolume => true | TotalReceived => false end)
    (fun b => if b : bool then TransferVolume else TotalReceived) ltac:(by intros []).

Definition volume_segment (k : RuneVolumeKind) : bytes :=
  match k with TransferVolume => bstr "transfer" | TotalReceived => bstr "received" end.

Record TxRuneIo := mkIo {
  io_inputs : gmap Z (list RuneBalance);
  io_outputs : gmap Z (list RuneBalance);
  io_burned : list RuneBalance;
  io_minted : list RuneBalance;
  io_etched : option SchemaRuneId;
}.

Definition TxRuneIo_default : TxRuneIo := mkIo ∅ ∅ [] [] None.

Record RuneTxPointerBlob := mkPointerBlob {
  pb_txid : Txid; pb_height : Z; pb_tx_index : Z; pb_io : TxRuneIo;
}.

Record ActionTxPointerBlob := mkActionBlob {
  ab_txid : Txid; ab_height : Z; ab_tx_index : Z; ab_has_alkane : bool; ab_has_rune : bool;
}.

Inductive RuneTxIndexList :=
| Inline (items : list Z)
| External (chunk_ids : list Z) (len : Z) (chunk_size : Z).

Inductive RuneTxIndexKind := KBlock | KAddress | KActionBlock | KActionAddress.

#[global] Instance RuneTxIndexKind_eq_dec : EqDecision RuneTxIndexKind.
Proof. solve_decision. Defined.

Definition kind_segment (k : RuneTxIndexKind) : bytes :=
  match k with
  | KBlock => bstr "block" | KAddress => bstr "address"
  | KActionBlock => bstr "action_block" | KActionAddress => bstr "action_address"
  end.

(** Borsh, for the records the namespace holds. *)
Class RuneCodec := {
  encode_entry : RuneEntry -> bytes;
  decode_entry : bytes -> option RuneEntry;
  encode_outpoint : OutpointRuneBalances -> bytes;
  decode_outpoint : bytes -> option OutpointRuneBalances;
  encode_id : SchemaRuneId -> bytes;
  encode_mint_activity : RuneMintActivity -> bytes;
  encode_activity : RuneActivity -> bytes;
  encode_io : TxRuneIo -> bytes;
  encode_pointer_blob : RuneTxPointerBlob -> bytes;
  encode_action_blob : ActionTxPointerBlob -> bytes;
  encode_index_list : RuneTxIndexList -> bytes;
  decode_index_list : bytes -> option RuneTxIndexList;
}.

(** ** Keys *)

Definition slash : bytes := bstr "/".

Definition id_key_bytes (id : SchemaRuneId) : bytes := be_bytes 8 (rid_block id) ++ be_bytes 4 (rid_tx id).

Definition decode_id_key_tail (b : bytes) : option SchemaRuneId :=
  if negb (length b =? 12)%nat then None
  else Some (mkRuneId (from_be (take 8 b)) (from_be (drop 8 b))).

Definition entry_key (id : SchemaRuneId) : bytes := bstr "/rune/by_id/" ++ id_key_bytes id.
Definition id_by_name_key (name : bytes) : bytes := bstr "/rune/id_by_name/" ++ name.
Definition id_by_rune_key (rune : Z) : bytes := bstr "/rune/id_by_rune/" ++ be_bytes 16 rune.
Definition seq_key (seq : Z) : bytes := bstr "/rune/seq/" ++ be_bytes 8 seq.
Definition seq_count_key : bytes := bstr "/rune/seq/count".

Definition outpoint_key (txid : Txid) (vout : Z) : bytes := bstr "/outpoint/" ++ txid ++ be_bytes 4 vout.

(** [strip_prefix] *)
Definition strip_prefix (key p : bytes) : option bytes :=
  if starts_with key p then Some (drop (length p) key) else None.

Definition decode_outpoint_tail (tail : bytes) : option (Txid * Z) :=
  if negb (length tail =? 36)%nat then None else Some (take 32 tail, from_be (drop 32 tail)).

Definition decode_outpoint_key (key : bytes) : option (Txid * Z) :=
  tail ← strip_prefix key (bstr "/outpoint/"); decode_outpoint_tail tail.

Definition address_outpoint_prefix (address : Address) : bytes :=
  bstr "/address_outpoint/" ++ address ++ slash.
Definition address_outpoint_key (address : Address) (txid : Txid) (vout : Z) : bytes :=
  address_outpoint_prefix address ++ txid ++ be_bytes 4 vout.
Definition decode_address_outpoint_key (address : Address) (key : bytes) : option (Txid * Z) :=
  tail ← strip_prefix key (address_outpoint_prefix address); decode_outpoint_tail tail.

Definition holder_prefix (id : SchemaRuneId) : bytes := bstr "/holder/" ++ id_key_bytes id ++ slash.
Definition holder_key (id : SchemaRuneId) (address : Address) : bytes := holder_prefix id ++ address.
Definition holders_count_prefix : bytes := bstr "/holder_count/".
Definition holders_count_key (id : SchemaRuneId) : bytes := holders_count_prefix ++ id_key_bytes id.
Definition decode_holders_count_key (key : bytes) : option SchemaRuneId :=
  tail ← strip_prefix key holders_count_prefix; decode_id_key_tail tail.

Definition address_balance_prefix (address : Address) : bytes :=
  bstr "/address/" ++ address ++ bstr "/balance/".
Definition address_balance_key (address : Address) (id : SchemaRuneId) : bytes :=
  address_balance_prefix address ++ id_key_bytes id.

Definition address_balance_history_prefix (address : Address) (id : SchemaRuneId) : bytes :=
  bstr "/address_balance_height/v1/" ++ address ++ slash ++ id_key_bytes id ++ slash.
Definition address_balance_history_key (address : Address) (id : SchemaRuneId) (height : Z) : bytes :=
  address_balance_history_prefix address id ++ be_bytes 4 height.
Definition address_balance_history_list_prefix (address : Address) (id : SchemaRuneId) : bytes :=
  bstr "/address_balance_height_idx/v1/" ++ address ++ slash ++ id_key_bytes id ++ slash.
Definition address_balance_history_list_len_key (address : Address) (id : SchemaRuneId) : bytes :=
  address_balance_history_list_prefix address id ++ bstr "len".
Definition address_balance_history_list_idx_key (address : Address) (id : SchemaRuneId) (idx : Z)
    : bytes := address_balance_history_list_prefix address id ++ be_bytes 4 idx.

Definition mint_activity_prefix (id : SchemaRuneId) : bytes :=
  bstr "/activity/mint/" ++ id_key_bytes id ++ slash.
Definition mint_activity_key (id : SchemaRuneId) (timestamp : Z) (txid : Txid) (ordinal : Z) : bytes :=
  mint_activity_prefix id ++ be_bytes 8 timestamp ++ txid ++ be_bytes 4 ordinal.

Definition rune_activity_index_key_from_prefix (key : bytes) (activity : RuneActivity)
    (sort_by : RuneActivitySortField) : bytes :=
  key
  ++ match sort_by with
     | SortTimestamp => be_bytes 8 (ac_timestamp activity)
     | SortAmount => be_bytes 16 (ac_amount activity)
     end
  ++ be_bytes 4 (ac_height activity) ++ be_bytes 4 (ac_tx_index activity)
  ++ RuneActivityKind_key (ac_kind activity) ++ slash ++ ac_txid activity.

Definition scope_sort (scope : RuneActivityScope) (sort_by : RuneActivitySortField) : bytes :=
  scope_segment scope ++ slash ++ sort_segment sort_by ++ slash.

Definition rune_activity_index_prefix (id : SchemaRuneId) (scope : RuneActivityScope)
    (sort_by : RuneActivitySortField) : bytes :=
  bstr "/activity/v2/" ++ id_key_bytes id ++ slash ++ scope_sort scope sort_by.
Definition rune_address_activity_index_prefix (address : Address) (scope : RuneActivityScope)
    (sort_by : RuneActivitySortField) : bytes :=
  bstr "/activity_address/v2/" ++ address ++ slash ++ scope_sort scope sort_by.
Definition rune_address_token_activity_index_prefix (address : Address) (id : SchemaRuneId)
    (scope : RuneActivityScope) (sort_by : RuneActivitySortField) : bytes :=
  bstr "/activity_address_token/v2/" ++ address ++ slash ++ id_key_bytes id ++ slash
  ++ scope_sort scope sort_by.

Definition rune_activity_index_key (activity : RuneActivity) (scope : RuneActivityScope)
    (sort_by : RuneActivitySortField) : bytes :=
  rune_activity_index_key_from_prefix (rune_activity_index_prefix (ac_id activity) scope sort_by)
    activity sort_by.
Definition rune_address_activity_index_key (activity : RuneActivity) (address : Address)
    (scope : RuneActivityScope) (sort_by : RuneActivitySortField) : bytes :=
  rune_activity_index_key_from_prefix (rune_address_activity_index_prefix address scope sort_by)
    activity sort_by.
Definition rune_address_token_activity_index_key (activity : RuneActivity) (address : Address)
    (scope : RuneActivityScope) (sort_by : RuneActivitySortField) : bytes :=
  rune_activity_index_key_from_prefix
    (rune_address_token_activity_index_prefix address (ac_id activity) scope sort_by) activity sort_by.

Definition rune_volume_entry_key (kind : RuneVolumeKind) (id : SchemaRuneId) (address : Address)
    : bytes :=
  bstr "/volume/" ++ volume_segment kind ++ slash ++ id_key_bytes id ++ slash ++ address.
Definition rune_volume_list_len_key (kind : RuneVolumeKind) (id : SchemaRuneId) : bytes :=
  bstr "/volume_idx/" ++ volume_segment kind ++ slash ++ id_key_bytes id ++ bstr "/len".
Definition rune_volume_list_idx_key (kind : RuneVolumeKind) (id : SchemaRuneId) (idx : Z) : bytes :=
  bstr "/volume_idx/" ++ volume_segment kind ++ slash ++ id_key_bytes id ++ slash ++ be_bytes 4 idx.

Definition tx_io_key (txid : Txid) : bytes := bstr "/tx/io/" ++ txid.
Definition rune_icon_key (id : SchemaRuneId) : bytes := bstr "/rune/icon/" ++ id_key_bytes id.
Definition uncommon_goods_avg_price_usd_by_height_key (height : Z) : bytes :=
  bstr "/block_price/v2/uncommon_goods_avg_usd_by_height/" ++ be_bytes 4 height.

Definition rune_tx_pointer_count_key : bytes := bstr "/tx_index/pointer/count".
Definition action_tx_pointer_count_key : bytes := bstr "/tx_index/actions/pointer/count".
Definition rune_tx_pointer_key (id : Z) : bytes := bstr "/tx_index/pointer/" ++ be_bytes 8 id.
Definition action_tx_pointer_key (id : Z) : bytes := bstr "/tx_index/actions/pointer/" ++ be_bytes 8 id.
Definition rune_tx_block_list_key (height : Z) : bytes := bstr "/tx_index/block/" ++ be_bytes 8 height.
Definition action_tx_block_list_key (height : Z) : bytes :=
  bstr "/tx_index/actions/block/" ++ be_bytes 8 height.
Definition rune_tx_address_list_key (address : Address) : bytes := bstr "/tx_index/address/" ++ address.
Definition action_tx_address_list_key (address : Address) : bytes :=
  bstr "/tx_index/actions/address/" ++ address.
Definition rune_tx_chunk_counter_key (kind : RuneTxIndexKind) : bytes :=
  bstr "/tx_index/chunk_count/" ++ kind_segment kind.
Definition rune_tx_chunk_key (kind : RuneTxIndexKind) (id : Z) : bytes :=
  bstr "/tx_index/chunk/" ++ kind_segment kind ++ slash ++ be_bytes 8 id.
