(* ===== verification/StateM.v ===== *)
(** * State and errors

    The monad of the code that mutates an object and returns early on errors:
    [M S A] changes a state [S] and gives a result or fails; the state reached
    when it fails is kept, as the mutated object is.  Loops are [for_each] and
    [fold_each].  [safe] is the program logic: a state predicate that is kept,
    also on errors, and a property of the result; [runs] says of a call that it
    succeeds. *)
From S2P Require Import Prelude.
From stdpp Require Import options.

Definition M (S A : Type) : Type := S -> option A * S.

#[global] Instance M_ret S : MRet (M S) := fun A a s => (Some a, s).
#[global] Instance M_bind S : MBind (M S) := fun A B f m s =>
  match m s with
  | (Some a, s') => f a s'
  | (None, s') => (None, s')
  end.

Section Ops.
Context {S : Type}.

Definition fail {A} : M S A := fun s => (None, s).
Definition gets {A} (f : S -> A) : M S A := fun s => (Some (f s), s).
Definition modify (f : S -> S) : M S unit := fun s => (Some tt, f s).

(** [?] on a value that does not depend on the state. *)
Definition lift {A} (o : option A) : M S A := fun s => (o, s).

Fixpoint for_each {A} (l : list A) (f : A -> M S unit) : M S unit :=
  match l with
  | [] => mret tt
  | x :: l' => f x;; for_each l' f
  end.

Fixpoint fold_each {A B} (f : B -> A -> M S B) (acc : B) (l : list A) : M S B :=
  match l with
  | [] => mret acc
  | x :: l' => acc' ← f acc x; fold_each f acc' l'
  end.

End Ops.

(** ** Invariants and results

    [safe I m R]: started in a state that satisfies [I], [m] leaves one that does, also when it
    fails, and a result it gives satisfies [R]. *)

Section Safe.
Context {S : Type} (I : S -> Prop).

Definition safe {A} (m : M S A) (R : A -> Prop) : Prop :=
  forall s, I s -> I (m s).2 /\ forall a, (m s).1 = Some a -> R a.

Lemma safe_ret {A} (a : A) (R : A -> Prop) : R a -> safe (mret a) R.
Proof. intros H s Hs. split; [done|]. by intros x [= <-]. Qed.

Lemma safe_fail {A} (R : A -> Prop) : safe fail R.
Proof. by intros s Hs. Qed.

Lemma safe_gets {A} (f : S -> A) (R : A -> Prop) : (forall s, I s -> R (f s)) -> safe (gets f) R.
Proof. intros H s Hs. split; [done|]. intros x [= <-]. by apply H. Qed.

Lemma safe_lift {A} (o : option A) (R : A -> Prop) : (forall a, o = Some a -> R a) -> safe (lift o) R.
Proof. intros H s Hs. by split. Qed.

Lemma safe_modify f : (forall s, I s -> I (f s)) -> safe (modify f) (fun _ => True).
Proof. intros H s Hs. split; [by apply H|done]. Qed.

Lemma safe_bind {A B} (m : M S A) (f : A -> M S B) (R : A -> Prop) (Q : B -> Prop) :
  safe m R -> (forall a, R a -> safe (f a) Q) -> safe (m ≫= f) Q.
Proof.
  intros Hm Hf s Hs. unfold mbind, M_bind. destruct (Hm s Hs) as [H1 H2].
  destruct (m s) as [[a|] s1]; cbn in *; [|done]. apply Hf; [by apply H2|done].
Qed.

Lemma safe_weaken {A} (m : M S A) (R Q : A -> Prop) : safe m R -> (forall a, R a -> Q a) -> safe m Q.
Proof. intros H HQ s Hs. destruct (H s Hs). split; eauto. Qed.

Lemma safe_true {A} (m : M S A) R : safe m R -> safe m (fun _ => True).
Proof. intros H. by eapply safe_weaken. Qed.

(** A fact about the result that holds from any state. *)
Lemma safe_and {A} (m : M S A) (R Q : A -> Prop) :
  safe m R -> (forall s a, (m s).1 = Some a -> Q a) -> safe m (fun a => R a /\ Q a).
Proof. intros H HQ s Hs. destruct (H s Hs). split; [done|]. intros a Ha. split; eauto. Qed.

Lemma safe_for_each {A} (l : list A) f :
  (forall x, x ∈ l -> safe (f x) (fun _ => True)) -> safe (for_each l f) (fun _ => True).
Proof.
  induction l as [|x l IH]; intros H; cbn; [by apply safe_ret|].
  eapply safe_bind; [apply H; set_solver|]. intros [] _. apply IH. intros y Hy. apply H. set_solver.
Qed.

(** An invariant over the rest of the list and the accumulator. *)
Lemma safe_fold_each {A B} (P : list A -> B -> Prop) (f : B -> A -> M S B) l acc :
  (forall x l acc, P (x :: l) acc -> safe (f acc x) (P l)) -> P l acc ->
  safe (fold_each f acc l) (P []).
Proof.
  intros H. revert acc. induction l as [|x l IH]; intros acc HP; cbn; [by apply safe_ret|].
  eapply safe_bind; [by apply H|]. intros b Hb. by apply IH.
Qed.

End Safe.

(** ** Runs that succeed

    [runs P m Q]: from a state in [P], [m] gives a result, and [Q] holds of it and the state it
    leaves. *)

Section Runs.
Context {S : Type}.

Definition runs {A} (P : S -> Prop) (m : M S A) (Q : A -> S -> Prop) : Prop :=
  forall s, P s -> exists a s', m s = (Some a, s') /\ Q a s'.

Lemma runs_ret {A} (P : S -> Prop) (a : A) (Q : A -> S -> Prop) :
  (forall s, P s -> Q a s) -> runs P (mret a) Q.
Proof. intros H s Hs. exists a, s. split; [done|by apply H]. Qed.

Lemma runs_gets {A} (P : S -> Prop) (f : S -> A) (Q : A -> S -> Prop) :
  (forall s, P s -> Q (f s) s) -> runs P (gets f) Q.
Proof. intros H s Hs. exists (f s), s. split; [done|by apply H]. Qed.

Lemma runs_modify (P : S -> Prop) f (Q : unit -> S -> Prop) :
  (forall s, P s -> Q tt (f s)) -> runs P (modify f) Q.
Proof. intros H s Hs. exists tt, (f s). split; [done|by apply H]. Qed.

Lemma runs_bind {A B} (P : S -> Prop) (m : M S A) (f : A -> M S B) (R : A -> S -> Prop)
    (Q : B -> S -> Prop) :
  runs P m R -> (forall a, runs (R a) (f a) Q) -> runs P (m ≫= f) Q.
Proof.
  intros Hm Hf s Hs. destruct (Hm s Hs) as (a & s1 & E & HR). destruct (Hf a s1 HR) as (b & s2 & E2 & HQ).
  exists b, s2. split; [|done]. unfold mbind, M_bind. by rewrite E.
Qed.

(** A first command whose result is known. *)
Lemma runs_bind_eq {A B} (P R : S -> Prop) (m : M S A) (f : A -> M S B) x (Q : B -> S -> Prop) :
  runs P m (fun v s => v = x /\ R s) -> runs R (f x) Q -> runs P (m ≫= f) Q.
Proof. intros Hm Hf. eapply runs_bind; [exact Hm|]. intros v s [-> Hs]. by apply Hf. Qed.

Lemma runs_weaken {A} (P : S -> Prop) (m : M S A) (Q Q' : A -> S -> Prop) :
  runs P m Q -> (forall a s, Q a s -> Q' a s) -> runs P m Q'.
Proof. intros H HQ s Hs. destruct (H s Hs) as (a & s' & E & H'). eauto. Qed.

(** From runs out of every state of an invariant back to the invariant. *)
Lemma runs_safe {A} (I : S -> Prop) (m : M S A) :
  (forall s0, I s0 -> runs (fun s => s = s0) m (fun _ s => I s)) -> safe I m (fun _ => True).
Proof.
  intros H s Hs. destruct (H s Hs s eq_refl) as (a & s' & E & HI). rewrite E. by split.
Qed.

End Runs.

(** ** Results and states together

    [triple P m Q]: from a state in [P], if [m] gives a result, [Q] holds of it and the state it
    leaves.  Nothing is said of a run that fails. *)

Section Triple.
Context {S : Type}.

Definition triple {A} (P : S -> Prop) (m : M S A) (Q : A -> S -> Prop) : Prop :=
  forall s a s', P s -> m s = (Some a, s') -> Q a s'.

Lemma triple_ret {A} (P : S -> Prop) (a : A) (Q : A -> S -> Prop) :
  (forall s, P s -> Q a s) -> triple P (mret a) Q.
Proof. intros H s b s' Hs [= <- <-]. by apply H. Qed.

Lemma triple_gets {A} (P : S -> Prop) (f : S -> A) (Q : A -> S -> Prop) :
  (forall s, P s -> Q (f s) s) -> triple P (gets f) Q.
Proof. intros H s b s' Hs [= <- <-]. by apply H. Qed.

Lemma triple_lift {A} (P : S -> Prop) (o : option A) (Q : A -> S -> Prop) :
  (forall a s, o = Some a -> P s -> Q a s) -> triple P (lift o) Q.
Proof. intros H s b s' Hs [= Ho <-]. by apply H. Qed.

Lemma triple_modify (P : S -> Prop) f (Q : unit -> S -> Prop) :
  (forall s, P s -> Q tt (f s)) -> triple P (modify f) Q.
Proof. intros H s b s' Hs [= <- <-]. by apply H. Qed.

Lemma triple_bind {A B} (P : S -> Prop) (m : M S A) (f : A -> M S B) (R : A -> S -> Prop) (Q : B -> S -> Prop) :
  triple P m R -> (forall a, triple (R a) (f a) Q) -> triple P (m ≫= f) Q.
Proof.
  intros Hm Hf s b s' Hs. unfold mbind, M_bind. destruct (m s) as [[a|] s1] eqn:E; [|done].
  intros Hb. eapply Hf; [by eapply Hm|exact Hb].
Qed.

Lemma triple_weaken {A} (P P' : S -> Prop) (m : M S A) (Q Q' : A -> S -> Prop) :
  (forall s, P' s -> P s) -> triple P m Q -> (forall a s, Q a s -> Q' a s) -> triple P' m Q'.
Proof. intros HP H HQ s a s' Hs E. eapply HQ, H; [by apply HP|exact E]. Qed.

(** An invariant, and a fact about the result. *)
Lemma triple_safe {A} (I : S -> Prop) (m : M S A) R : safe I m R -> triple I m (fun a s => R a /\ I s).
Proof. intros H s a s' Hs E. destruct (H s Hs) as [H1 H2]. rewrite E in H1, H2. auto. Qed.

Lemma triple_inv {A} (I : S -> Prop) (m : M S A) R : safe I m R -> triple I m (fun _ => I).
Proof. intros H s a s' Hs E. destruct (H s Hs) as [H1 _]. by rewrite E in H1. Qed.

(** A fact of the precondition that does not speak of the state. *)
Lemma triple_pure {A} (P : Prop) (I : S -> Prop) (m : M S A) Q :
  (P -> triple I m Q) -> triple (fun s => P /\ I s) m Q.
Proof. intros H s a s' [HP HI]. by apply H. Qed.

Lemma triple_for_each {A} (P : list A -> S -> Prop) (f : A -> M S unit) l :
  (forall x l, triple (P (x :: l)) (f x) (fun _ => P l)) -> triple (P l) (for_each l f) (fun _ => P []).
Proof.
  intros H. induction l as [|x l IH]; cbn; [by apply triple_ret|].
  eapply triple_bind; [apply H|]. intros []. exact IH.
Qed.

Lemma triple_fold_each {A B} (P : list A -> B -> S -> Prop) (f : B -> A -> M S B) acc l :
  (forall x l acc, triple (P (x :: l) acc) (f acc x) (P l)) ->
  triple (P l acc) (fold_each f acc l) (P []).
Proof.
  intros H. revert acc. induction l as [|x l IH]; intros acc; cbn; [by apply triple_ret|].
  eapply triple_bind; [apply H|]. intros b. apply IH.
Qed.

End Triple.
