(* ===== verification/RunesTxIndex.v ===== *)
(** * Transaction lists of a block or an address

    [append_rune_tx_index_values] and [get_tx_index_range] of
    [src/modules/runes/storage.rs]: a list of [u64] pointers is kept inline while
    it is short and in numbered chunks of a fixed size afterwards.  Reads go to
    the namespace as it was before the block, the argument [rd]; writes are
    queued. *)
From stdpp Require Import strings.
From S2P Require Import Prelude Bytes RunesTransfer RunesUndo RunesStore.

Open Scope Z_scope.

Definition TX_INDEX_INLINE_CAP : nat := 8.

Abbreviation Preimages := (gmap bytes (option bytes)).

(** [entry(key).or_insert(v)] *)
Definition or_insert (m : Preimages) (k : bytes) (v : option bytes) : Preimages :=
  match m !! k with Some _ => m | None => <[k := v]> m end.

(** [slice::chunks] *)
Fixpoint chunks_fuel (fuel n : nat) (l : list Z) : list (list Z) :=
  match fuel with
  | O => []
  | S fuel' => match l with [] => [] | _ :: _ => take n l :: chunks_fuel fuel' n (drop n l) end
  end.

Definition chunks (n : nat) (l : list Z) : list (list Z) := chunks_fuel (length l) n l.

Definition encode_u64_chunk (values : list Z) : bytes := values ≫= le_bytes 8.

(** [chunks_exact(8)] *)
Fixpoint decode_chunk_fuel (fuel : nat) (raw : bytes) : list Z :=
  match fuel with
  | O => []
  | S fuel' =>
      if (length raw <? 8)%nat then []
      else from_le (take 8 raw) :: decode_chunk_fuel fuel' (drop 8 raw)
  end.

Definition decode_u64_chunk (raw : bytes) : list Z := decode_chunk_fuel (length raw) raw.

Definition rune_tx_index_total (state : RuneTxIndexList) : Z :=
  match state with
  | Inline items => Z.of_nat (length items)
  | External _ len _ => len
  end.

(** The loop that gives every chunk the next id. *)
Fixpoint store_chunks (kind : RuneTxIndexKind) (next_chunk_id : Z) (cs : list (list Z))
    : list Z * Z * list (bytes * bytes) :=
  match cs with
  | [] => ([], next_chunk_id, [])
  | chunk :: cs' =>
      let '(ids, next', puts) := store_chunks kind (u64_sat_add next_chunk_id 1) cs' in
      (next_chunk_id :: ids, next',
       (rune_tx_chunk_key kind next_chunk_id, encode_u64_chunk chunk) :: puts)
  end.

Section Ops.
Context {rcodec : RuneCodec} (address_index_chunk_size : Z) (rd : bytes -> option bytes).

(** Filling the last chunk: what is left to store, the previous value and the new chunk. *)
Definition fill_last (kind : RuneTxIndexKind) (chunk_ids : list Z) (len : Z) (size : nat)
    (pending : list Z) : list Z * option (bytes * option bytes * bytes) :=
  match last chunk_ids with
  | None => (pending, None)
  | Some last_chunk_id =>
      if len mod Z.of_nat size =? 0 then (pending, None)
      else
        let last_key := rune_tx_chunk_key kind last_chunk_id in
        let last_raw := rd last_key in
        let last_items := take size (match last_raw with Some r => decode_u64_chunk r | None => [] end) in
        let free := (size - length last_items)%nat in
        let n := Nat.min free (length pending) in
        if (0 <? n)%nat
        then (drop n pending,
              Some (last_key, last_raw, encode_u64_chunk (last_items ++ take n pending)))
        else (pending, None)
  end.

(** The list with the values: its new row, the next chunk id, the preimages and the writes. *)
Definition append_to (kind : RuneTxIndexKind) (current : RuneTxIndexList) (values : list Z)
    (next_chunk_id : Z) (preimages : Preimages) (puts : list (bytes * bytes))
    : RuneTxIndexList * Z * Preimages * list (bytes * bytes) :=
  match current with
  | Inline items =>
      if (length items + length values <=? TX_INDEX_INLINE_CAP)%nat
      then (Inline (items ++ values), next_chunk_id, preimages, puts)
      else
        let chunk_size := Z.max address_index_chunk_size 1 in
        let merged := items ++ values in
        let '(ids, next', ps) :=
          store_chunks kind next_chunk_id (chunks (Z.to_nat chunk_size) merged) in
        (External ids (Z.of_nat (length merged)) (chunk_size mod 2 ^ 32), next', preimages, puts ++ ps)
  | External chunk_ids len chunk_size =>
      let size := Z.to_nat (Z.max chunk_size 1) in
      let '(pending, filled) := fill_last kind chunk_ids len size values in
      let '(ids, next', ps) := store_chunks kind next_chunk_id (chunks size pending) in
      (External (chunk_ids ++ ids) (u64_sat_add len (Z.of_nat (length values)))
         (Z.of_nat size mod 2 ^ 32), next',
       match filled with Some (k, v, _) => or_insert preimages k v | None => preimages end,
       puts ++ match filled with Some (k, _, b) => [(k, b)] | None => [] end ++ ps)
  end.

(** The length of the list, the next chunk id, the preimages and the queued writes. *)
Definition append_rune_tx_index_values (kind : RuneTxIndexKind) (list_key : bytes)
    (values : list Z) (next_chunk_id : Z) (preimages : Preimages) (puts : list (bytes * bytes))
    : option (Z * Z * Preimages * list (bytes * bytes)) :=
  match values with
  | [] => Some (0, next_chunk_id, preimages, puts)
  | _ :: _ =>
      let current_raw := rd list_key in
      let preimages1 := match current_raw with
                        | Some _ => or_insert preimages list_key current_raw
                        | None => preimages
                        end in
      current ← match current_raw with Some raw => decode_index_list raw | None => Some (Inline []) end;
      let '(next_state, next1, preimages2, puts1) :=
        append_to kind current values next_chunk_id preimages1 puts in
      Some (rune_tx_index_total next_state, next1, preimages2,
            puts1 ++ [(list_key, encode_index_list next_state)])
  end.

Definition get_tx_index_len (key : bytes) : option Z :=
  match rd key with
  | None => Some 0
  | Some raw => st ← decode_index_list raw; Some (rune_tx_index_total st)
  end.

(** [items[from..to]] *)
Definition slice (l : list Z) (from to : Z) : list Z :=
  take (Z.to_nat (to - from)) (drop (Z.to_nat from) l).

(** The items of a chunk between the bounds, which count from the start of the list. *)
Definition clip (items : list Z) (chunk_start start stop : Z) : list Z :=
  let n := Z.of_nat (length items) in
  let from := Z.min (Z.max 0 (start - chunk_start)) n in
  let to := Z.min (Z.max 0 (stop - chunk_start)) n in
  if from <? to then slice items from to else [].

Fixpoint range_chunks (kind : RuneTxIndexKind) (ids : list Z) (idx size start stop : Z) : list Z :=
  match ids with
  | [] => []
  | id :: ids' =>
      match rd (rune_tx_chunk_key kind id) with
      | None => []
      | Some raw => clip (decode_u64_chunk raw) (idx * size) start stop
      end ++ range_chunks kind ids' (idx + 1) size start stop
  end.

Definition get_tx_index_range (kind : RuneTxIndexKind) (list_key : bytes) (start stop : Z)
    : option (list Z) :=
  if stop <=? start then Some []
  else
    match rd list_key with
    | None => Some []
    | Some raw =>
        state ← decode_index_list raw;
        let total := rune_tx_index_total state in
        let start := Z.min start total in
        let stop := Z.min stop total in
        if stop <=? start then Some []
        else
          match state with
          | Inline items =>
              let n := Z.of_nat (length items) in
              Some (slice items (Z.min start n) (Z.min stop n))
          | External chunk_ids _ chunk_size =>
              let size := Z.max chunk_size 1 in
              let first_chunk := start / size in
              let last_chunk_excl := Z.min ((stop + size - 1) / size) (Z.of_nat (length chunk_ids)) in
              if Z.of_nat (length chunk_ids) <=? first_chunk then Some []
              else Some (range_chunks kind (slice chunk_ids first_chunk last_chunk_excl)
                           first_chunk size start stop)
          end
    end.

End Ops.
