(* ===== verification/RunesTxIndexProps.v ===== *)
(** * The chunked list is a list

    What a list key and its chunks hold is a sequence of pointers: appending
    appends to it, a range is a slice of it, and lists of other keys are not
    disturbed. *)
From stdpp Require Import strings.
From S2P Require Import Prelude Bytes RunesTransfer RunesUndo RunesStore RunesTxIndex.

Open Scope Z_scope.

Definition in_u64 (z : Z) : Prop := 0 <= z < 2 ^ 64.

(** ** Chunks *)

Lemma chunks_fuel_enough n f l :
  (0 < n)%nat -> (length l <= f)%nat -> chunks_fuel f n l = chunks n l.
Proof.
  intros Hn. unfold chunks. revert l.
  assert (H : forall f g l, (length l <= f)%nat -> (length l <= g)%nat ->
            chunks_fuel f n l = chunks_fuel g n l).
  { induction f0 as [|f0 IH]; intros g l Hf Hg.
    - destruct l; [by destruct g|cbn in Hf; lia].
    - destruct l as [|x l]; [by destruct g|]. destruct g as [|g]; [cbn in Hg; lia|].
      cbn [chunks_fuel]. f_equal. apply IH; rewrite length_drop; cbn [length] in *; lia. }
  intros l Hf. by apply H.
Qed.

Lemma chunks_cons n l : (0 < n)%nat -> l <> [] -> chunks n l = take n l :: chunks n (drop n l).
Proof.
  intros Hn Hl. destruct l as [|x l]; [done|]. unfold chunks at 1. cbn [length chunks_fuel].
  f_equal. apply chunks_fuel_enough; [done|]. rewrite length_drop. cbn [length]. lia.
Qed.

Lemma chunks_nil n : chunks n [] = [].
Proof. done. Qed.

(** Induction along the chunks. *)
Lemma chunks_ind n (Hn : (0 < n)%nat) (P : list Z -> Prop) :
  P [] -> (forall l, l <> [] -> P (drop n l) -> P l) -> forall l, P l.
Proof.
  intros H0 HS l. remember (length l) as k eqn:Ek. revert l Ek.
  induction k as [k IH] using lt_wf_ind. intros l ->.
  destruct (decide (l = [])) as [->|Hne]; [done|]. apply HS; [done|].
  apply (IH (length (drop n l))); [|done]. rewrite length_drop. destruct l; [done|]. cbn. lia.
Qed.

Lemma chunks_app_full n xs ys :
  (0 < n)%nat -> (length xs mod n = 0)%nat -> chunks n (xs ++ ys) = chunks n xs ++ chunks n ys.
Proof.
  intros Hn. induction xs as [|xs Hne IH] using (chunks_ind n Hn); [done|]. intros Hm.
  assert (Hlen : (n <= length xs)%nat).
  { destruct (decide (n <= length xs)%nat) as [|Hlt]; [done|]. rewrite Nat.mod_small in Hm by lia.
    destruct xs; [done|cbn in Hm; lia]. }
  rewrite (chunks_cons n (xs ++ ys)), (chunks_cons n xs) by (done || by destruct xs).
  rewrite take_app_le, drop_app_le by lia. cbn. f_equal. apply IH.
  rewrite length_drop. replace (length xs) with (length xs - n + 1 * n)%nat in Hm by lia.
  by rewrite Nat.Div0.mod_add in Hm.
Qed.

(** The last, partial chunk. *)
Lemma chunks_split n (xs : list Z) :
  (0 < n)%nat -> exists ys zs, xs = ys ++ zs /\ (length ys mod n = 0)%nat
    /\ length zs = (length xs mod n)%nat /\ (length zs < n)%nat.
Proof.
  intros Hn. pose proof (Nat.div_mod_eq (length xs) n) as Hd.
  pose proof (Nat.mod_upper_bound (length xs) n ltac:(lia)) as Hb.
  exists (take (n * (length xs / n)) xs), (drop (n * (length xs / n)) xs).
  rewrite take_drop, length_take, length_drop. split_all; [done| |lia|lia].
  rewrite Nat.min_l by lia. by rewrite Nat.mul_comm, Nat.Div0.mod_mul.
Qed.

Lemma chunks_short n l : l <> [] -> (0 < n)%nat -> (length l <= n)%nat -> chunks n l = [l].
Proof. intros Hl Hn Hle. by rewrite chunks_cons, take_ge, drop_ge by (done || lia). Qed.

(** ** Encoding *)

Lemma encode_chunk_cons x l : encode_u64_chunk (x :: l) = le_bytes 8 x ++ encode_u64_chunk l.
Proof. done. Qed.

Lemma length_encode_chunk l : length (encode_u64_chunk l) = (8 * length l)%nat.
Proof.
  induction l as [|x l IH]; [done|].
  rewrite encode_chunk_cons, length_app, length_le_bytes, IH. cbn [length]. lia.
Qed.

Lemma decode_encode_fuel l f :
  Forall in_u64 l -> (length l < f)%nat -> decode_chunk_fuel f (encode_u64_chunk l) = l.
Proof.
  intros Hl. revert f. induction Hl as [|x l Hx Hl IH]; intros f Hf;
    (destruct f as [|f]; [lia|]); [done|].
  cbn [decode_chunk_fuel]. rewrite encode_chunk_cons.
  assert ((length (le_bytes 8 x ++ encode_u64_chunk l) <? 8)%nat = false) as ->.
  { apply Nat.ltb_ge. rewrite length_app, length_le_bytes. lia. }
  assert (Ht : take 8 (le_bytes 8 x ++ encode_u64_chunk l) = le_bytes 8 x).
  { by apply take_app_length'. }
  assert (Hd : drop 8 (le_bytes 8 x ++ encode_u64_chunk l) = encode_u64_chunk l).
  { by apply drop_app_length'. }
  rewrite Ht, Hd, from_le_le_bytes, IH by (cbn in Hf; lia).
  f_equal. apply Z.mod_small. exact Hx.
Qed.

Lemma decode_encode_chunk l : Forall in_u64 l -> decode_u64_chunk (encode_u64_chunk l) = l.
Proof.
  intros Hl. unfold decode_u64_chunk. rewrite length_encode_chunk. destruct l as [|x l]; [done|].
  apply decode_encode_fuel; [done|]. cbn [length]. lia.
Qed.

Lemma chunk_key_inj kind a b :
  in_u64 a -> in_u64 b -> rune_tx_chunk_key kind a = rune_tx_chunk_key kind b -> a = b.
Proof.
  intros Ha Hb E. unfold rune_tx_chunk_key in E. do 3 apply app_inv_head in E.
  apply (f_equal from_be) in E. rewrite !from_be_be_bytes in E.
  change (256 ^ Z.of_nat 8) with (2 ^ 64) in E. rewrite !Z.mod_small in E; [done|exact Hb|exact Ha].
Qed.

(** ** The list a key holds *)

Section Lists.
Context {rcodec : RuneCodec}.

Definition chunk_rows (N : gmap bytes bytes) (kind : RuneTxIndexKind) (ids : list Z)
    (size : nat) (xs : list Z) : Prop :=
  (fun id => N !! rune_tx_chunk_key kind id) <$> ids
  = (fun c => Some (encode_u64_chunk c)) <$> chunks size xs.

(** [holds N kind key xs ids]: the list at [key] is [xs], its chunks are [ids]. *)
Definition holds (N : gmap bytes bytes) (kind : RuneTxIndexKind) (key : bytes) (xs ids : list Z)
    : Prop :=
  match N !! key with
  | None => xs = [] /\ ids = []
  | Some raw =>
      match decode_index_list raw with
      | None => False
      | Some (Inline items) => items = xs /\ ids = []
      | Some (External cids len size) =>
          cids = ids /\ len = Z.of_nat (length xs) /\ 1 <= size < 2 ^ 32
          /\ chunk_rows N kind ids (Z.to_nat size) xs
      end
  end.

Definition ids_below (next : Z) (ids : list Z) : Prop := Forall (fun i => 0 <= i < next) ids.

Definition apply_puts (N : gmap bytes bytes) (puts : list (bytes * bytes)) : gmap bytes bytes :=
  foldl (fun m e => <[e.1 := e.2]> m) N puts.

Lemma apply_puts_app N p q : apply_puts N (p ++ q) = apply_puts (apply_puts N p) q.
Proof. apply foldl_app. Qed.

Lemma apply_puts_ext M N puts k : M !! k = N !! k -> apply_puts M puts !! k = apply_puts N puts !! k.
Proof.
  intros H. induction puts as [|[x v] puts IH] using rev_ind; [done|].
  rewrite !apply_puts_app. cbn [apply_puts foldl fst snd].
  destruct (decide (k = x)) as [->|Hne]; [by rewrite !lookup_insert_eq|by rewrite !lookup_insert_ne].
Qed.

Lemma apply_puts_other N puts k : k ∉ puts.*1 -> apply_puts N puts !! k = N !! k.
Proof.
  revert N. induction puts as [|[a b] puts IH]; intros N; cbn; [done|].
  rewrite not_elem_of_cons. intros [Hk Hp]. rewrite IH by done. by rewrite lookup_insert_ne.
Qed.

(** ** Ranges *)

Lemma slice_app (l1 l2 : list Z) a b :
  0 <= a -> 0 <= b ->
  slice (l1 ++ l2) a b
  = slice l1 a b ++ slice l2 (Z.max 0 (a - Z.of_nat (length l1))) (Z.max 0 (b - Z.of_nat (length l1))).
Proof.
  intros Ha Hb. unfold slice. rewrite drop_app, take_app, length_drop. f_equal.
  replace (Z.to_nat a - length l1)%nat with (Z.to_nat (Z.max 0 (a - Z.of_nat (length l1)))) by lia.
  f_equal. lia.
Qed.

Lemma slice_empty l a b : b <= a -> slice l a b = [].
Proof. intros H. unfold slice. by replace (Z.to_nat (b - a)) with 0%nat by lia. Qed.

Lemma slice_beyond l a b : Z.of_nat (length l) <= a -> slice l a b = [].
Proof. intros H. unfold slice. rewrite drop_ge by lia. apply take_nil. Qed.

Lemma slice_clip l a b : 0 <= a ->
  slice l a b = slice l (Z.min a (Z.of_nat (length l))) (Z.min b (Z.of_nat (length l))).
Proof.
  intros Ha. destruct (decide (a < Z.of_nat (length l))).
  - rewrite (Z.min_l a) by lia. destruct (decide (b <= Z.of_nat (length l))); [by rewrite Z.min_l by lia|].
    rewrite Z.min_r by lia. unfold slice. rewrite !take_ge; [done| |]; rewrite length_drop; lia.
  - rewrite slice_beyond, slice_empty by lia. done.
Qed.

Lemma clip_slice items cstart a b :
  0 <= cstart -> clip items cstart a b = slice items (Z.max 0 (a - cstart)) (Z.max 0 (b - cstart)).
Proof.
  intros Hc. unfold clip. rewrite (slice_clip items (Z.max 0 (a - cstart))) by lia.
  case_match eqn:E; [done|].
  apply Z.ltb_ge in E. by rewrite slice_empty.
Qed.

Lemma chunks_Forall n l (P : Z -> Prop) : (0 < n)%nat -> Forall P l -> Forall (Forall P) (chunks n l).
Proof.
  intros Hn. induction l as [|l Hne IH] using (chunks_ind n Hn); [constructor|]. intros Hl.
  rewrite chunks_cons by done. constructor; [by apply Forall_take|]. by apply IH, Forall_drop.
Qed.

(** Reading a run of chunks reads the slice of what they hold. *)
Lemma range_chunks_spec N kind ids size xs idx a b :
  0 < size -> Forall in_u64 xs -> 0 <= idx ->
  chunk_rows N kind ids (Z.to_nat size) xs ->
  range_chunks (fun k => N !! k) kind ids idx size a b
  = slice xs (Z.max 0 (a - idx * size)) (Z.max 0 (b - idx * size)).
Proof.
  intros Hs Hxs Hi. assert (Hn : (0 < Z.to_nat size)%nat) by lia. revert ids idx Hxs Hi.
  induction xs as [|xs Hne IH] using (chunks_ind (Z.to_nat size) Hn); intros ids idx Hxs Hi Hr;
    unfold chunk_rows in Hr.
  { rewrite chunks_nil in Hr. destruct ids; [|done]. cbn. unfold slice. by rewrite drop_nil, take_nil. }
  rewrite chunks_cons in Hr by done. destruct ids as [|id ids]; [done|]. rewrite !fmap_cons in Hr.
  injection Hr as Hid Hr. cbn [range_chunks]. rewrite Hid.
  rewrite decode_encode_chunk by by apply Forall_take. rewrite clip_slice by nia.
  rewrite (IH ids (idx + 1)); [|by apply Forall_drop|lia|exact Hr].
  rewrite <- (take_drop (Z.to_nat size) xs) at 3. rewrite slice_app by lia. f_equal.
  destruct (decide (Z.to_nat size <= length xs)%nat).
  - rewrite length_take, Nat.min_l by lia. f_equal; lia.
  - rewrite !drop_ge by lia. unfold slice. by rewrite !drop_nil, !take_nil.
Qed.

Lemma length_chunks n l : (0 < n)%nat -> length (chunks n l) = ((length l + n - 1) / n)%nat.
Proof.
  intros Hn. induction l as [|l Hne IH] using (chunks_ind n Hn).
  { cbn. symmetry. apply Nat.div_small. lia. }
  rewrite chunks_cons by done. cbn [length]. rewrite IH, length_drop.
  assert (1 <= length l)%nat by (destruct l; [done|cbn; lia]).
  destruct (decide (n <= length l)%nat).
  - replace (length l + n - 1)%nat with (length l - n + n - 1 + 1 * n)%nat by lia.
    rewrite Nat.div_add by lia. lia.
  - replace (length l - n + n - 1)%nat with (n - 1)%nat by lia. rewrite Nat.div_small by lia.
    apply (Nat.div_unique _ _ 1 (length l - 1)); lia.
Qed.

Lemma chunks_drop n k l : (0 < n)%nat -> drop k (chunks n l) = chunks n (drop (k * n) l).
Proof.
  intros Hn. revert l. induction k as [|k IH]; intros l; [done|].
  destruct (decide (l = [])) as [->|Hl]; [by rewrite drop_nil|].
  rewrite chunks_cons by done. cbn [drop]. by rewrite IH, drop_drop.
Qed.

Lemma chunks_take n k l : (0 < n)%nat -> take k (chunks n l) = chunks n (take (k * n) l).
Proof.
  intros Hn. revert l. induction k as [|k IH]; intros l; [by rewrite !take_0|].
  destruct (decide (l = [])) as [->|Hl]; [by rewrite take_nil|].
  rewrite chunks_cons by done. cbn [take]. rewrite IH.
  rewrite (chunks_cons n (take (S k * n) l)) by (done || (destruct l; [done|cbn; destruct n; [lia|done]])).
  rewrite take_take, Nat.min_l by lia. f_equal.
  by rewrite take_drop_commute.
Qed.

Lemma chunk_rows_part N kind ids n xs j k :
  (0 < n)%nat -> chunk_rows N kind ids n xs ->
  chunk_rows N kind (take k (drop j ids)) n (take (k * n) (drop (j * n) xs)).
Proof.
  intros Hn Hr. unfold chunk_rows in *.
  rewrite <- chunks_take, <- chunks_drop by done.
  by rewrite !fmap_take, !fmap_drop, Hr.
Qed.

Lemma chunk_rows_length N kind ids n xs :
  (0 < n)%nat -> chunk_rows N kind ids n xs -> length ids = ((length xs + n - 1) / n)%nat.
Proof.
  intros Hn Hr. apply (f_equal length) in Hr. rewrite !length_fmap in Hr.
  by rewrite Hr, length_chunks.
Qed.

Lemma slice_part (xs : list Z) s r a b :
  0 <= s -> s <= a -> a <= b -> b <= s + r ->
  slice (take (Z.to_nat r) (drop (Z.to_nat s) xs)) (a - s) (b - s) = slice xs a b.
Proof.
  intros Hs Ha Hb Hr. unfold slice.
  rewrite take_drop_commute, take_take, Nat.min_l, <- take_drop_commute, drop_drop by lia.
  replace (b - s - (a - s)) with (b - a) by lia.
  by replace (Z.to_nat s + Z.to_nat (a - s))%nat with (Z.to_nat a) by lia.
Qed.

(** A range over chunks that cover it. *)
Lemma external_range N kind ids size xs a b :
  0 < size -> Forall in_u64 xs -> chunk_rows N kind ids (Z.to_nat size) xs ->
  0 <= a -> a < b -> b <= Z.of_nat (length xs) ->
  let first := a / size in
  let last := Z.min ((b + size - 1) / size) (Z.of_nat (length ids)) in
  (Z.of_nat (length ids) <=? first) = false
  /\ range_chunks (fun k => N !! k) kind (slice ids first last) first size a b = slice xs a b.
Proof.
  intros Hs Hxs Hr Ha Hab Hb first last.
  pose proof (chunk_rows_length N kind ids (Z.to_nat size) xs ltac:(lia) Hr) as Hlen.
  assert (Hli : Z.of_nat (length ids) = (Z.of_nat (length xs) + size - 1) / size).
  { rewrite Hlen, Nat2Z.inj_div, Z2Nat.id by lia. f_equal. lia. }
  assert (Hf1 : first * size <= a < first * size + size).
  { unfold first. pose proof (Z.div_mod a size ltac:(lia)). pose proof (Z.mod_pos_bound a size Hs). nia. }
  assert (Hf0 : 0 <= first) by (apply Z.div_pos; lia).
  assert (Hl : last = (b + size - 1) / size).
  { unfold last. apply Z.min_l. rewrite Hli. apply Z.div_le_mono; lia. }
  assert (Hl1 : b <= last * size).
  { rewrite Hl. pose proof (Z.div_mod (b + size - 1) size ltac:(lia)).
    pose proof (Z.mod_pos_bound (b + size - 1) size Hs). nia. }
  assert (Hfl : first < last) by nia.
  split; [apply Z.leb_gt; unfold last in Hfl; lia|].
  unfold slice at 1.
  pose proof (chunk_rows_part N kind ids (Z.to_nat size) xs (Z.to_nat first)
                (Z.to_nat (last - first)) ltac:(lia) Hr) as Hpart.
  erewrite range_chunks_spec; [|done| |done|exact Hpart]; [|by apply Forall_take, Forall_drop].
  rewrite <- !Z2Nat.inj_mul by lia. rewrite !Z.max_r by lia. apply slice_part; nia.
Qed.

Lemma range_spec N kind key xs ids start stop :
  holds N kind key xs ids -> Forall in_u64 xs -> 0 <= start ->
  get_tx_index_range (fun k => N !! k) kind key start stop = Some (slice xs start stop).
Proof.
  intros Hh Hxs Hs. unfold get_tx_index_range.
  destruct (Z.leb_spec stop start); [by rewrite slice_empty|].
  unfold holds in Hh. destruct (N !! key) as [raw|].
  2: { destruct Hh as [-> ->]. by rewrite slice_beyond by (cbn; lia). }
  destruct (decode_index_list raw) as [[items|cids len size]|]; [| |done]; cbn [mbind option_bind].
  - destruct Hh as [-> ->]. cbn [rune_tx_index_total].
    destruct (Z.leb_spec (Z.min stop (Z.of_nat (length xs))) (Z.min start (Z.of_nat (length xs)))).
    + by rewrite slice_beyond by lia.
    + rewrite (slice_clip xs start) by lia. f_equal. f_equal; lia.
  - destruct Hh as (-> & -> & Hsz & Hr). cbn [rune_tx_index_total].
    destruct (Z.leb_spec (Z.min stop (Z.of_nat (length xs))) (Z.min start (Z.of_nat (length xs)))).
    + by rewrite slice_beyond by lia.
    + rewrite (Z.max_l size) by lia. rewrite (Z.min_l start) by lia.
      destruct (external_range N kind ids size xs start (Z.min stop (Z.of_nat (length xs))))
        as [-> ->]; [lia|done|done|lia|lia|lia|].
      f_equal. rewrite (slice_clip xs start stop) by lia. by rewrite (Z.min_l start) by lia.
Qed.

(** ** Appending *)

(** The lists the source's types can hold. *)
Definition index_list_wf (l : RuneTxIndexList) : Prop :=
  match l with
  | Inline items => Forall in_u64 items
  | External ids len size => Forall in_u64 ids /\ in_u64 len /\ 0 <= size < 2 ^ 32
  end.

Hypothesis list_roundtrip :
  forall l, index_list_wf l -> decode_index_list (encode_index_list l) = Some l.

Definition chunk_puts (kind : RuneTxIndexKind) (ids : list Z) (cs : list (list Z))
    : list (bytes * bytes) :=
  zip_with (fun id c => (rune_tx_chunk_key kind id, encode_u64_chunk c)) ids cs.

Lemma store_chunks_spec kind next cs :
  0 <= next -> next + Z.of_nat (length cs) < 2 ^ 64 ->
  let ids := seqZ next (Z.of_nat (length cs)) in
  store_chunks kind next cs = (ids, next + Z.of_nat (length cs), chunk_puts kind ids cs).
Proof.
  revert next. induction cs as [|c cs IH]; intros next Hn Hb; cbn [store_chunks length] in *.
  { rewrite Z.add_0_r. done. }
  assert (Hs : u64_sat_add next 1 = next + 1) by (unfold u64_sat_add; lia).
  rewrite Hs, IH by lia. rewrite Nat2Z.inj_succ, (seqZ_cons next) by lia.
  unfold chunk_puts. cbn [zip_with]. rewrite Z.pred_succ. unfold Z.succ.
  by replace (next + (Z.of_nat (length cs) + 1)) with (next + 1 + Z.of_nat (length cs)) by lia.
Qed.

Lemma chunk_puts_keys kind ids cs k :
  k ∈ (chunk_puts kind ids cs).*1 -> exists id, id ∈ ids /\ k = rune_tx_chunk_key kind id.
Proof.
  intros ([a b] & -> & Hin)%list_elem_of_fmap. cbn [fst]. apply elem_of_zip_with in Hin as (i & c & E & Hi & _).
  apply (f_equal fst) in E. cbn [fst] in E. eauto.
Qed.

(** Fresh chunks can be read back. *)
Lemma chunk_puts_rows N kind ids cs :
  NoDup ids -> Forall in_u64 ids -> length ids = length cs ->
  (fun id => apply_puts N (chunk_puts kind ids cs) !! rune_tx_chunk_key kind id) <$> ids
  = (fun c => Some (encode_u64_chunk c)) <$> cs.
Proof.
  revert N cs. induction ids as [|id ids IH]; intros N [|c cs] Hnd Hu Hl; try done.
  apply NoDup_cons in Hnd as [Hid Hnd]. apply Forall_cons in Hu as [Hu Hus]. injection Hl as Hl.
  unfold chunk_puts in *. cbn [zip_with]. rewrite !fmap_cons. cbn [apply_puts foldl fst snd]. f_equal.
  - rewrite (apply_puts_other (<[_ := _]> N)); [by rewrite lookup_insert_eq|].
    intros (i & Hi & E)%chunk_puts_keys. rewrite Forall_forall in Hus. apply chunk_key_inj in E; [by subst i|done|by apply Hus].
  - by apply IH.
Qed.

Lemma chunk_puts_other N kind ids cs id :
  Forall in_u64 ids -> in_u64 id -> id ∉ ids ->
  apply_puts N (chunk_puts kind ids cs) !! rune_tx_chunk_key kind id = N !! rune_tx_chunk_key kind id.
Proof.
  intros Hu Hid Hni. apply apply_puts_other. intros (i & Hi & E)%chunk_puts_keys.
  rewrite Forall_forall in Hu. apply chunk_key_inj in E; [by subst i|done|by apply Hu].
Qed.

Lemma chunk_rows_ext N N' kind ids n xs :
  (forall id, id ∈ ids -> N' !! rune_tx_chunk_key kind id = N !! rune_tx_chunk_key kind id) ->
  chunk_rows N kind ids n xs -> chunk_rows N' kind ids n xs.
Proof.
  intros H Hr. unfold chunk_rows in *. rewrite <- Hr. apply list_fmap_ext.
  intros i id Hi. apply H. by eapply list_elem_of_lookup_2.
Qed.

Lemma ids_below_u64 next ids : next <= 2 ^ 64 -> ids_below next ids -> Forall in_u64 ids.
Proof. intros Hn H. eapply Forall_impl; [exact H|]. intros i Hi. unfold in_u64. cbn in Hi. lia. Qed.

Lemma seqZ_below next k : 0 <= next -> ids_below (next + k) (seqZ next k).
Proof. intros H. apply Forall_forall. intros i Hi%elem_of_seqZ. lia. Qed.

(** What an append leaves behind: the list with the values, new chunk ids at or above [next]. *)
Record appended (N N' : gmap bytes bytes) (kind : RuneTxIndexKind) (key : bytes)
    (ids ids' zs : list Z) (next next' : Z) : Prop := {
  ap_holds : holds N' kind key zs ids';
  ap_below : ids_below next' ids';
  ap_nodup : NoDup ids';
  ap_next : next <= next';
  ap_new i : i ∈ ids' -> i ∈ ids \/ next <= i;
  ap_chunks i : in_u64 i -> i ∉ ids -> i < next ->
    N' !! rune_tx_chunk_key kind i = N !! rune_tx_chunk_key kind i;
  ap_rows k : k <> key -> (forall i, k <> rune_tx_chunk_key kind i) -> N' !! k = N !! k;
}.

(** The chunks and the list row written last. *)
Lemma holds_external N kind key ids size zs :
  (forall i, key <> rune_tx_chunk_key kind i) -> 1 <= size < 2 ^ 32 ->
  Forall in_u64 ids -> Z.of_nat (length zs) < 2 ^ 64 ->
  chunk_rows N kind ids (Z.to_nat size) zs ->
  holds (<[key := encode_index_list (External ids (Z.of_nat (length zs)) size)]> N) kind key zs ids.
Proof.
  intros Hk Hs Hu Hl Hr. unfold holds. rewrite lookup_insert_eq, list_roundtrip.
  2: { split; [done|]. unfold in_u64. lia. }
  split_all; try done; try lia. eapply chunk_rows_ext; [|exact Hr].
  intros i _. by rewrite lookup_insert_ne.
Qed.

Lemma seqZ_split ids next k :
  ids_below next ids -> NoDup ids -> 0 <= next -> NoDup (ids ++ seqZ next k).
Proof.
  intros Hb Hnd Hn. apply NoDup_app. split_all; [done| |apply NoDup_seqZ].
  intros i Hi Hs%elem_of_seqZ. unfold ids_below in Hb. rewrite Forall_forall in Hb.
  specialize (Hb i Hi). lia.
Qed.

(** Chunks after those that are there: [M] is [N] but for the list's own chunks. *)
Lemma appended_external N M kind key ids size next cs0 cs zs :
  let new := seqZ next (Z.of_nat (length cs)) in
  (forall i, key <> rune_tx_chunk_key kind i) -> 1 <= size < 2 ^ 32 ->
  ids_below next ids -> NoDup ids -> 0 <= next ->
  next + Z.of_nat (length cs) < 2 ^ 64 -> Z.of_nat (length zs) < 2 ^ 64 ->
  (forall k, (forall i, i ∈ ids -> k <> rune_tx_chunk_key kind i) -> M !! k = N !! k) ->
  (fun i => M !! rune_tx_chunk_key kind i) <$> ids = (fun c => Some (encode_u64_chunk c)) <$> cs0 ->
  chunks (Z.to_nat size) zs = cs0 ++ cs ->
  appended N (<[key := encode_index_list (External (ids ++ new) (Z.of_nat (length zs)) size)]>
                (apply_puts M (chunk_puts kind new cs)))
    kind key ids (ids ++ new) zs next (next + Z.of_nat (length cs)).
Proof.
  intros new Hk Hs Hb Hnd Hn Hnx Hl HM Hold Hcs.
  assert (Hb' : ids_below (next + Z.of_nat (length cs)) (ids ++ new)).
  { apply Forall_app. split; [|by apply seqZ_below]. eapply Forall_impl; [exact Hb|]. cbn. lia. }
  assert (Hu : Forall in_u64 (ids ++ new)) by (eapply ids_below_u64; [|exact Hb']; lia).
  pose proof Hu as [Hu1 Hu2]%Forall_app.
  assert (Hnew : forall i, i ∈ new -> next <= i) by (intros i Hi%elem_of_seqZ; lia).
  assert (Hfresh : forall i, in_u64 i -> i < next ->
    apply_puts M (chunk_puts kind new cs) !! rune_tx_chunk_key kind i = M !! rune_tx_chunk_key kind i).
  { intros i Hi Hlt. apply chunk_puts_other; [done|done|]. intros Hin%Hnew. lia. }
  split.
  - apply holds_external; [done|done|done|done|]. unfold chunk_rows.
    rewrite Hcs, !fmap_app. f_equal.
    + rewrite <- Hold. apply list_fmap_ext. intros j i Hi%list_elem_of_lookup_2.
      unfold ids_below in Hb. rewrite Forall_forall in Hb, Hu1. apply Hfresh; [by apply Hu1|by apply Hb].
    + apply chunk_puts_rows; [apply NoDup_seqZ|done|]. unfold new. rewrite length_seqZ. lia.
  - done.
  - by apply seqZ_split.
  - lia.
  - intros i [Hi|Hi]%elem_of_app; [by left|right; auto].
  - intros i Hi Hni Hlt. rewrite lookup_insert_ne by done. rewrite Hfresh by done. apply HM.
    intros j Hj E. rewrite Forall_forall in Hu1. apply chunk_key_inj in E; [by subst j|done|by apply Hu1].
  - intros k Hne Hck. rewrite lookup_insert_ne by done. rewrite apply_puts_other; [by apply HM|].
    intros (i & _ & E)%chunk_puts_keys. by apply (Hck i).
Qed.

(** Other lists of the kind are as they were. *)
Lemma appended_others N N' kind key ids ids' zs next next' key2 ys ids2 :
  appended N N' kind key ids ids' zs next next' -> next <= 2 ^ 64 ->
  key2 <> key -> (forall i, key2 <> rune_tx_chunk_key kind i) ->
  holds N kind key2 ys ids2 -> ids_below next ids2 -> ids2 ## ids -> holds N' kind key2 ys ids2.
Proof.
  intros Ha Hn Hne Hck Hh Hb Hd. unfold holds in *. rewrite (ap_rows _ _ _ _ _ _ _ _ _ Ha) by done.
  destruct (N !! key2) as [raw|]; [|done]. destruct (decode_index_list raw) as [[items|c l z]|]; [done| |done].
  destruct Hh as (-> & -> & Hz & Hr). split_all; try done; try lia. eapply chunk_rows_ext; [|exact Hr].
  intros i Hi. apply (ap_chunks _ _ _ _ _ _ _ _ _ Ha).
  - pose proof (ids_below_u64 _ _ Hn Hb) as Hu. rewrite Forall_forall in Hu. by apply Hu.
  - set_solver.
  - unfold ids_below in Hb. rewrite Forall_forall in Hb. by apply Hb.
Qed.

(** ** The last chunk *)

Definition with_filled (N : gmap bytes bytes) (f : option (bytes * option bytes * bytes))
    : gmap bytes bytes :=
  match f with Some (k, _, b) => <[k := b]> N | None => N end.

Record filled_ok (N : gmap bytes bytes) (kind : RuneTxIndexKind) (ids : list Z) (n : nat)
    (xs values pending : list Z) (f : option (bytes * option bytes * bytes)) : Prop := {
  fl_rows : exists cs0,
    (fun i => with_filled N f !! rune_tx_chunk_key kind i) <$> ids
      = (fun c => Some (encode_u64_chunk c)) <$> cs0
    /\ chunks n (xs ++ values) = cs0 ++ chunks n pending;
  fl_other k : (forall i, i ∈ ids -> k <> rune_tx_chunk_key kind i) -> with_filled N f !! k = N !! k;
  fl_prev k v b : f = Some (k, v, b) -> v = N !! k;
  fl_len : (length pending <= length values)%nat;
}.

Lemma chunks_fill n (zs vs : list Z) :
  zs <> [] -> (length zs < n)%nat ->
  let k := Nat.min (n - length zs) (length vs) in
  chunks n (zs ++ vs) = (zs ++ take k vs) :: chunks n (drop k vs).
Proof.
  intros Hz Hn k. rewrite chunks_cons by (lia || by destruct zs).
  rewrite take_app, (take_ge zs), drop_app, (drop_ge zs) by lia. cbn [app]. unfold k.
  destruct (Nat.min_spec (n - length zs) (length vs)) as [[_ ->]|[Hle ->]]; [done|].
  by rewrite !take_ge, !drop_ge by lia.
Qed.

(** The partial chunk at the end of the list is the last row. *)
Lemma last_chunk N kind ids lid n xs :
  chunk_rows N kind (ids ++ [lid]) n xs -> (0 < n)%nat -> (length xs mod n <> 0)%nat ->
  exists ys zs, xs = ys ++ zs /\ zs <> [] /\ (length zs < n)%nat /\ (length ys mod n = 0)%nat
    /\ chunk_rows N kind ids n ys
    /\ N !! rune_tx_chunk_key kind lid = Some (encode_u64_chunk zs).
Proof.
  intros Hr Hn Hm. destruct (chunks_split n xs Hn) as (ys & zs & -> & Hy & Hz & Hlt).
  assert (Hne : zs <> []) by (intros ->; cbn in Hz; lia).
  exists ys, zs. unfold chunk_rows in Hr.
  rewrite chunks_app_full, (chunks_short n zs), !fmap_app in Hr by (done || lia).
  cbn [fmap list_fmap] in Hr. apply app_inj_tail in Hr as [Hr1 Hr2]. by split_all.
Qed.

Lemma fill_last_spec N kind ids size xs values :
  let n := Z.to_nat size in
  0 < size -> values <> [] -> Forall in_u64 xs -> Forall in_u64 ids -> NoDup ids ->
  chunk_rows N kind ids n xs ->
  let r := fill_last (fun k => N !! k) kind ids (Z.of_nat (length xs)) n values in
  filled_ok N kind ids n xs values r.1 r.2.
Proof.
  intros n Hs Hv Hu Hiu Hnd Hr. assert (Hn : (0 < n)%nat) by (unfold n; lia). unfold fill_last.
  destruct ids as [|lid ids _] using rev_ind.
  { cbn. unfold chunk_rows in Hr. cbn in Hr. destruct (decide (xs = [])) as [->|Hx].
    - split; [by exists []|done|done|lia].
    - by rewrite chunks_cons in Hr by done. }
  rewrite last_snoc. destruct (Z.eqb_spec (Z.of_nat (length xs) mod Z.of_nat n) 0) as [E|E]; cbn [fst snd].
  { rewrite <- Nat2Z.inj_mod in E. split; [|done|done|lia]. exists (chunks n xs). split; [exact Hr|].
    apply chunks_app_full; [done|lia]. }
  rewrite <- Nat2Z.inj_mod in E.
  destruct (last_chunk N kind ids lid n xs Hr Hn ltac:(lia)) as (ys & zs & -> & Hz & Hlt & Hy & Hry & Hl).
  apply Forall_app in Hu as [_ Huz].
  assert (Hdec : forall raw, N !! rune_tx_chunk_key kind lid = Some raw ->
            take n (decode_u64_chunk raw) = zs).
  { intros raw Hraw. rewrite Hl in Hraw. injection Hraw as <-. rewrite decode_encode_chunk by done.
    apply take_ge. lia. }
  destruct (N !! rune_tx_chunk_key kind lid) as [raw|] eqn:Eraw; [|done]. rewrite (Hdec raw eq_refl).
  assert (Hpos : (0 <? Nat.min (n - length zs) (length values))%nat = true).
  { apply Nat.ltb_lt. destruct values; [done|]. cbn [length]. lia. }
  rewrite Hpos. cbn [fst snd with_filled]. apply Forall_app in Hiu as [Hiu Hlu].
  apply NoDup_app in Hnd as (Hnd & Hdis & _).
  split; cbn [with_filled].
  - eexists (chunks n ys ++ [_]). rewrite !fmap_app. split.
    + f_equal; [|cbn [fmap list_fmap]; rewrite lookup_insert_eq; reflexivity].
      rewrite <- Hry. apply list_fmap_ext. intros j i Hi%list_elem_of_lookup_2.
      apply lookup_insert_ne. intros Ek. apply (Hdis i Hi), list_elem_of_singleton. symmetry.
      rewrite Forall_forall in Hiu. rewrite Forall_singleton in Hlu.
      by apply (chunk_key_inj kind _ _ Hlu (Hiu i Hi)).
    + rewrite <- (app_assoc ys), chunks_app_full, chunks_fill by (done || lia). by rewrite <- app_assoc.
  - intros k Hk. apply lookup_insert_ne. intros <-. apply (Hk lid); [set_solver|done].
  - intros k v b [= <- <- _]. done.
  - rewrite length_drop. lia.
Qed.

(** ** Appending as a whole *)

Definition truthful (N : gmap bytes bytes) (pre pre' : Preimages) : Prop :=
  forall k, pre' !! k = pre !! k \/ pre' !! k = Some (N !! k).

Lemma or_insert_truthful N pre k : truthful N pre (or_insert pre k (N !! k)).
Proof.
  intros x. unfold or_insert. destruct (pre !! k) eqn:E; [by left|].
  destruct (decide (x = k)) as [->|Hne]; [right; by rewrite lookup_insert_eq|].
  left. by rewrite lookup_insert_ne.
Qed.

Lemma truthful_refl N pre : truthful N pre pre.
Proof. by left. Qed.

Lemma truthful_trans N p1 p2 p3 : truthful N p1 p2 -> truthful N p2 p3 -> truthful N p1 p3.
Proof. intros H1 H2 k. destruct (H2 k) as [->|]; [apply H1|by right]. Qed.

Context (cfg : Z) (Hcfg : 1 <= cfg < 2 ^ 32).

Lemma append_inline N kind key (items values : list Z) next :
  (forall i, key <> rune_tx_chunk_key kind i) -> Forall in_u64 (items ++ values) ->
  appended N (<[key := encode_index_list (Inline (items ++ values))]> N) kind key [] []
    (items ++ values) next next.
Proof.
  intros Hk Hu. split.
  - unfold holds. by rewrite lookup_insert_eq, list_roundtrip.
  - constructor.
  - constructor.
  - done.
  - by intros i Hi%elem_of_nil.
  - intros i _ _ _. by rewrite lookup_insert_ne.
  - intros k Hne _. by rewrite lookup_insert_ne.
Qed.

Lemma chunks_length_le n l : (0 < n)%nat -> (length (chunks n l) <= length l)%nat.
Proof.
  intros Hn. induction l as [|l Hne IH] using (chunks_ind n Hn); [done|].
  rewrite chunks_cons by done. cbn [length]. rewrite length_drop in IH.
  assert (1 <= length l)%nat by (destruct l; [done|cbn; lia]). lia.
Qed.

(** The row a key holds, decoded. *)
Lemma holds_current N kind key xs ids :
  holds N kind key xs ids ->
  exists cur, match N !! key with Some raw => decode_index_list raw | None => Some (Inline []) end
      = Some cur
    /\ match cur with
       | Inline items => items = xs /\ ids = []
       | External c len size => c = ids /\ len = Z.of_nat (length xs) /\ 1 <= size < 2 ^ 32
           /\ chunk_rows N kind ids (Z.to_nat size) xs
       end.
Proof.
  unfold holds. destruct (N !! key); [|intros [-> ->]; by exists (Inline [])].
  destruct (decode_index_list _) as [cur|]; [|done]. exists cur. by destruct cur.
Qed.

(** [append_result N kind key ids zs next pre puts r]: [r] and the list row appended. *)
Definition append_result (N : gmap bytes bytes) (kind : RuneTxIndexKind) (key : bytes)
    (ids zs : list Z) (next : Z) (pre : Preimages) (puts : list (bytes * bytes))
    (r : RuneTxIndexList * Z * Preimages * list (bytes * bytes)) : Prop :=
  let '(st, next', pre', puts') := r in
  exists new ids', puts' ++ [(key, encode_index_list st)] = puts ++ new
    /\ rune_tx_index_total st = Z.of_nat (length zs) /\ truthful N pre pre'
    /\ appended N (apply_puts N new) kind key ids ids' zs next next'.

Lemma append_to_inline N kind key xs values next pre puts :
  (forall i, key <> rune_tx_chunk_key kind i) -> values <> [] -> Forall in_u64 (xs ++ values) ->
  0 <= next -> next + Z.of_nat (length (xs ++ values)) < 2 ^ 64 ->
  append_result N kind key [] (xs ++ values) next pre puts
    (append_to cfg (fun k => N !! k) kind (Inline xs) values next pre puts).
Proof.
  intros Hk Hv Hu Hn Hl. rewrite length_app in Hl. unfold append_to.
  destruct (Nat.leb_spec (length xs + length values) TX_INDEX_INLINE_CAP).
  - exists [(key, encode_index_list (Inline (xs ++ values)))], [].
    split_all; [done|done|apply truthful_refl|]. by apply append_inline.
  - rewrite (Z.max_l cfg) by lia. set (cs := chunks (Z.to_nat cfg) (xs ++ values)).
    assert (Hlc : (length cs <= length (xs ++ values))%nat) by (apply chunks_length_le; lia).
    rewrite length_app in Hlc. rewrite store_chunks_spec by lia. rewrite Z.mod_small by lia.
    eexists _, _. rewrite <- app_assoc. split_all; [reflexivity|done|apply truthful_refl|].
    rewrite apply_puts_app. cbn [apply_puts foldl fst snd].
    apply (appended_external N N kind key [] cfg next [] cs (xs ++ values)); try done; try lia.
    + constructor.
    + constructor.
    + rewrite length_app. lia.
Qed.

Lemma append_to_external N kind key xs ids size values next pre puts :
  chunk_rows N kind ids (Z.to_nat size) xs -> 1 <= size < 2 ^ 32 ->
  ids_below next ids -> NoDup ids ->
  (forall i, key <> rune_tx_chunk_key kind i) -> values <> [] -> Forall in_u64 (xs ++ values) ->
  0 <= next -> next + Z.of_nat (length (xs ++ values)) < 2 ^ 64 ->
  append_result N kind key ids (xs ++ values) next pre puts
    (append_to cfg (fun k => N !! k) kind (External ids (Z.of_nat (length xs)) size) values next pre puts).
Proof.
  intros Hr Hsz Hb Hnd Hk Hv Hu Hn Hl. rewrite length_app in Hl. unfold append_to.
  apply Forall_app in Hu as [Hux Huv]. rewrite (Z.max_l size) by lia.
  assert (Hiu : Forall in_u64 ids) by (eapply ids_below_u64; [|exact Hb]; lia).
  pose proof (fill_last_spec N kind ids size xs values ltac:(lia) Hv Hux Hiu Hnd Hr) as Hfl.
  cbn zeta in Hfl. destruct (fill_last _ _ _ _ _ _) as [pending f]. cbn [fst snd] in Hfl.
  destruct Hfl as [(cs0 & Hrows & Hcs) Hoth Hprev Hlen].
  set (cs := chunks (Z.to_nat size) pending) in *.
  assert (Hlc : (length cs <= length pending)%nat) by (apply chunks_length_le; lia).
  rewrite store_chunks_spec by lia. rewrite Z2Nat.id, Z.mod_small by lia.
  assert (Hsat : u64_sat_add (Z.of_nat (length xs)) (Z.of_nat (length values))
                 = Z.of_nat (length (xs ++ values))) by (unfold u64_sat_add; rewrite length_app; lia).
  rewrite Hsat. eexists _, _. rewrite <- !app_assoc. split_all; [reflexivity|done| |].
  { destruct f as [[[k v] b]|]; [|apply truthful_refl]. rewrite (Hprev k v b eq_refl).
    apply or_insert_truthful. }
  rewrite !apply_puts_app.
  assert (Hf : apply_puts N match f with Some (k, _, b) => [(k, b)] | None => [] end = with_filled N f)
    by by destruct f as [[[? ?] ?]|].
  rewrite Hf. cbn [apply_puts foldl fst snd].
  apply (appended_external N (with_filled N f) kind key ids size next cs0 cs (xs ++ values));
    try done; try lia. rewrite length_app. lia.
Qed.

Lemma append_spec N kind key xs ids values next pre puts :
  holds N kind key xs ids -> ids_below next ids -> NoDup ids ->
  (forall i, key <> rune_tx_chunk_key kind i) -> values <> [] -> Forall in_u64 (xs ++ values) ->
  0 <= next -> next + Z.of_nat (length (xs ++ values)) < 2 ^ 64 ->
  exists next' pre' new ids',
    append_rune_tx_index_values cfg (fun k => N !! k) kind key values next pre puts
      = Some (Z.of_nat (length (xs ++ values)), next', pre', puts ++ new)
    /\ truthful N pre pre'
    /\ appended N (apply_puts N new) kind key ids ids' (xs ++ values) next next'.
Proof.
  intros Hh Hb Hnd Hk Hv Hu Hn Hl. unfold append_rune_tx_index_values.
  rewrite match_nonempty by done.
  set (pre1 := match N !! key with Some _ => or_insert pre key (N !! key) | None => pre end).
  assert (Hp1 : truthful N pre pre1).
  { unfold pre1. destruct (N !! key) eqn:E; [|apply truthful_refl]. rewrite <- E. apply or_insert_truthful. }
  destruct (holds_current N kind key xs ids Hh) as (cur & -> & Hcur). cbn [mbind option_bind].
  assert (Hr : append_result N kind key ids (xs ++ values) next pre1 puts
                 (append_to cfg (fun k => N !! k) kind cur values next pre1 puts)).
  { destruct cur as [items|c len size].
    - destruct Hcur as [-> ->]. by apply append_to_inline.
    - destruct Hcur as (-> & -> & Hsz & Hr). by apply append_to_external. }
  destruct (append_to _ _ _ _ _ _ _ _) as [[[st next'] pre'] puts'].
  destruct Hr as (new & ids' & -> & -> & Hp & Ha). exists next', pre', new, ids'.
  split_all; [done|by eapply truthful_trans|done].
Qed.

End Lists.
