(* ===== verification/RunesChain.v ===== *)
(** * What the runes indexer sees of a block

    Transactions, the artifacts deciphered from them, and the functions of
    [src/modules/runes/main.rs] and [src/modules/runes/inscriptions.rs] that only
    look at transactions: carriers, fees, prices, addresses and icons.

    The [bitcoin] and [ordinals] crates are the classes [BitcoinCrate] and
    [OrdinalsCrate]; their data is restricted to the fields the sources read.
    [Node] is what is asked over the network. *)
From Stdlib Require Import Strings.Byte.
From stdpp Require Import strings.
From S2P Require Import Prelude Bytes RunesTransfer RunesUndo RunesStore.
From stdpp Require Import options.

Open Scope Z_scope.

(** ** Data of the crates *)

Record OutPoint := mkOutPoint { op_txid : Txid; op_vout : Z }.

Record TxIn := mkTxIn { previous_output : OutPoint; witness : list bytes }.

Record TxOut := mkTxOut { value : Z; script_pubkey : bytes }.

Record Transaction := mkTransaction { input : list TxIn; output : list TxOut }.

Inductive Instruction := PushBytes (push : bytes) | Op (opcode : Z).

Definition OP_IF : Z := 0x63.
Definition OP_ENDIF : Z := 0x68.
Definition OP_RETURN : Z := 0x6a.
Definition OP_PUSHNUM_NEG1 : Z := 0x4f.
Definition OP_PUSHNUM_1 : Z := 0x51.
Definition OP_PUSHNUM_13 : Z := 0x5d.
Definition OP_PUSHNUM_16 : Z := 0x60.

Class BitcoinCrate := {
  compute_txid : Transaction -> Txid;
  is_null : OutPoint -> bool;
  is_op_return : bytes -> bool;
  is_p2tr : bytes -> bool;
  (** [Script::instructions]: [None] is an error. *)
  instructions : bytes -> list (option Instruction);
  (** [Witness::tapscript] *)
  tapscript : list bytes -> option bytes;
  deserialize_tx : bytes -> option Transaction;
  (** [Address::from_script] on the configured network. *)
  address_from_script : bytes -> option Address;
}.

(** [Rune] is a [u128], [char] its UTF-8 bytes. *)
Record Terms := mkOrdTerms {
  te_amount : option Z;
  te_cap : option Z;
  te_height : option Z * option Z;
  te_offset : option Z * option Z;
}.

Record Etching := mkEtching {
  et_divisibility : option Z;
  et_premine : option Z;
  et_rune : option Z;
  et_spacers : option Z;
  et_symbol : option bytes;
  et_terms : option Terms;
  et_turbo : bool;
}.

Definition Etching_default : Etching := mkEtching None None None None None None false.

Record RuneId := mkOrdRuneId { block_ : Z; tx_ : Z }.

#[global] Instance RuneId_eq_dec : EqDecision RuneId.
Proof. solve_decision. Defined.

Definition RuneId_default : RuneId := mkOrdRuneId 0 0.

Record Edict := mkEdict { ed_id : RuneId; ed_amount : Z; ed_output : Z }.

Record Runestone := mkRunestone {
  rs_edicts : list Edict;
  rs_etching : option Etching;
  rs_mint : option RuneId;
  rs_pointer : option Z;
}.

Record Cenotaph := mkCenotaph { ce_etching : option Z; ce_mint : option RuneId }.

Inductive Artifact :=
| ARunestone (runestone : Runestone)
| ACenotaph (cenotaph : Cenotaph).

(** [Artifact::mint] *)
Definition artifact_mint (a : Artifact) : option RuneId :=
  match a with ARunestone r => rs_mint r | ACenotaph c => ce_mint c end.

Class OrdinalsCrate := {
  decipher : Transaction -> option Artifact;
  (** [Rune::minimum_at_height] on the configured network. *)
  minimum_at_height : Z -> Z;
  is_reserved : Z -> bool;
  rune_reserved : Z -> Z -> Z;
  commitment : Z -> bytes;
  rune_to_string : Z -> bytes;
  spaced_to_string : Z -> Z -> bytes;
  rune_from_str : bytes -> option Z;
  COMMIT_CONFIRMATIONS : Z;
}.

(** ** Conversions of [storage.rs] *)

Definition from_rune_id (id : RuneId) : SchemaRuneId := mkRuneId (block_ id) (tx_ id).

Definition from_terms (t : Terms) : SchemaRuneTerms :=
  mkTerms (te_amount t) (te_cap t) (te_height t).1 (te_height t).2 (te_offset t).1 (te_offset t).2.

Definition currency_sign : bytes := [Byte.xc2; Byte.xa4].

(** ** The network *)

(** [tx_outputs_and_block] of the node pool. *)
Record TxInfo := mkTxInfo { ti_scripts : list (option bytes); ti_blockhash : option bytes }.

Class Node := {
  tx_outputs_and_block : Txid -> option TxInfo;
  header_height : bytes -> option Z;
  raw_transaction : Txid -> option Transaction;
  (** [batch_transaction_get_raw(..).unwrap_or_default()] *)
  batch_transaction_get_raw : list Txid -> list bytes;
}.

(** ** Configuration *)

Definition MAINNET_RUNES_GENESIS : Z := 840000.
Definition SUBSIDY_HALVING_INTERVAL : Z := 210000.
Definition GENESIS_RUNE_ID : SchemaRuneId := mkRuneId 1 0.

(** [genesis_with_override]: [over] is the parsed environment variable. *)
Definition genesis_with_override (over : option Z) (default_ : Z) : Z := default default_ over.

Definition runes_genesis_block (mainnet : bool) (over : option Z) : Z :=
  genesis_with_override over (if mainnet then MAINNET_RUNES_GENESIS else 0).

Definition genesis_rune_mint_height_range (genesis_height : Z) : option Z * option Z :=
  (Some genesis_height, Some (genesis_height + SUBSIDY_HALVING_INTERVAL)).

(** ** [alloy]'s 256-bit integers *)

Definition u256_max : Z := 2 ^ 256 - 1.
Definition u256_sat_add (a b : Z) : Z := Z.min u256_max (a + b).
Definition u256_sat_mul (a b : Z) : Z := Z.min u256_max (a * b).
Definition u256_to_be (v : Z) : bytes := be_bytes 32 v.
Definition zero32 : bytes := replicate 32 Byte.x00.

(** [u128] *)
Definition u128_sat_add (a b : Z) : Z := Z.min (u128_mod - 1) (a + b).
Definition u128_sat_mul (a b : Z) : Z := Z.min (u128_mod - 1) (a * b).

Definition PRICE_SCALE : Z := 10 ^ 16.
Definition SATS_PER_BTC : Z := 10 ^ 8.

(** ** Blocks *)

Record EspoBlock := mkBlock {
  eb_height : Z;
  eb_time : Z;
  eb_hash : bytes;
  eb_txs : list Transaction;
}.

Section Ops.
Context {btc : BitcoinCrate} {ord : OrdinalsCrate} {node : Node}.

Definition script_to_address (script : bytes) : option Address := address_from_script script.

Definition make_entry (id : SchemaRuneId) (rune spacers : Z) (symbol : option bytes)
    (divisibility premine : Z) (terms : option Terms) (etching_txid : Txid)
    (number timestamp : Z) (turbo : bool) : RuneEntry :=
  mkEntry id rune (rune_to_string rune) (spaced_to_string rune spacers) spacers
    (Some (default currency_sign symbol)) divisibility premine 0 0 (from_terms <$> terms)
    etching_txid number timestamp turbo.

Definition tx_has_runestone_carrier (tx : Transaction) : bool :=
  existsb (fun o =>
    match instructions (script_pubkey o) with
    | Some (Op a) :: Some (Op b) :: _ => (a =? OP_RETURN) && (b =? OP_PUSHNUM_13)
    | _ => false
    end) (output tx).

(** [HashMap] of the block's transactions; a later one replaces an earlier one. *)
Definition block_tx_map (txs : list Transaction) : gmap Txid Transaction :=
  foldl (fun m tx => <[compute_txid tx := tx]> m) ∅ txs.

(** [seen.insert(txid)] and [needed.push(txid)] *)
Definition push_new (needed : list Txid) (t : Txid) : list Txid :=
  if bool_decide (t ∈ needed) then needed else needed ++ [t].

(** The previous transactions of [tx] that are not in the block. *)
Definition external_inputs (block_txids : gset Txid) (needed : list Txid) (tx : Transaction)
    : list Txid :=
  foldl (fun acc i =>
    let prev := previous_output i in
    if is_null prev || bool_decide (op_txid prev ∈ block_txids) then acc
    else push_new acc (op_txid prev)) needed (input tx).

(** The answers that are there and decode, by the txid asked for. *)
Definition fetch_txs (needed : list Txid) : gmap Txid Transaction :=
  match needed with
  | [] => ∅
  | _ :: _ =>
      foldl (fun m (e : Txid * bytes) =>
        match e.2 with
        | [] => m
        | _ :: _ =>
            match deserialize_tx e.2 with
            | Some tx => <[e.1 := tx]> m
            | None => m
            end
        end) ∅ (zip needed (batch_transaction_get_raw needed))
  end.

Definition load_external_prev_txs_for_rune_mints (txs : list Transaction) : gmap Txid Transaction :=
  let block_txids : gset Txid := list_to_set (compute_txid <$> txs) in
  fetch_txs
    (foldl (fun needed tx =>
       if negb (tx_has_runestone_carrier tx) then needed
       else
         match decipher tx ≫= artifact_mint with
         | None => needed
         | Some _ => external_inputs block_txids needed tx
         end) [] txs).

Definition load_external_prev_txs_for_action_addresses (txs : list Transaction)
    (txids : list Txid) : gmap Txid Transaction :=
  let m := block_tx_map txs in
  fetch_txs
    (foldl (fun needed txid =>
       match m !! txid with
       | None => needed
       | Some tx => external_inputs (dom m) needed tx
       end) [] txids).

(** The output an input spends, from the block or from outside. *)
Definition previous_tx (block external : gmap Txid Transaction) (txid : Txid) : option Transaction :=
  match block !! txid with Some tx => Some tx | None => external !! txid end.

(** The sum of the inputs; [None] when an output is not known. *)
Fixpoint input_total (block external : gmap Txid Transaction) (ins : list TxIn) (acc : Z)
    : option Z :=
  match ins with
  | [] => Some acc
  | i :: ins' =>
      let prev := previous_output i in
      if is_null prev then input_total block external ins' acc
      else
        prev_tx ← previous_tx block external (op_txid prev);
        prev_out ← output prev_tx !! Z.to_nat (op_vout prev);
        input_total block external ins' (u128_sat_add acc (value prev_out))
  end.

Definition compute_tx_fee_sats (tx : Transaction) (block external : gmap Txid Transaction) : Z :=
  match input_total block external (input tx) 0 with
  | None => 0
  | Some total => u128_sat_sub total (foldl (fun acc o => u128_sat_add acc (value o)) 0 (output tx))
  end.

Definition scale_rune_fee_price_sats (fee_paid_sats minted_amount divisibility : Z) : bytes :=
  if (fee_paid_sats =? 0) || (minted_amount =? 0) then zero32
  else
    let unit_scale := Nat.iter (Z.to_nat divisibility) (fun x => u256_sat_mul x 10) 1 in
    u256_to_be
      (u256_sat_mul (u256_sat_mul fee_paid_sats unit_scale) PRICE_SCALE / minted_amount).

Definition scale_rune_fee_price_usd (mint_price_paid_sats : bytes) (btc_price : option Z) : bytes :=
  match btc_price with
  | None => zero32
  | Some btc_price_usd_scaled =>
      let sats_scaled := from_be mint_price_paid_sats in
      if sats_scaled =? 0 then zero32
      else
        u256_to_be
          (u256_sat_mul sats_scaled btc_price_usd_scaled / u128_sat_mul PRICE_SCALE SATS_PER_BTC)
  end.

Definition bitcoin_addresses_for_tx (tx : Transaction) (block external : gmap Txid Transaction)
    : gset Address :=
  let from_outputs : gset Address :=
    list_to_set (omap (fun o => if is_op_return (script_pubkey o) then None
                                else script_to_address (script_pubkey o)) (output tx)) in
  let from_inputs : gset Address :=
    list_to_set (omap (fun i =>
      let prev := previous_output i in
      if is_null prev then None
      else
        prev_tx ← previous_tx block external (op_txid prev);
        prev_out ← output prev_tx !! Z.to_nat (op_vout prev);
        script_to_address (script_pubkey prev_out)) (input tx)) in
  from_outputs ∪ from_inputs.

(** Whether a push of the tapscript is the commitment; a script error ends the search. *)
Fixpoint pushes_commitment (c : bytes) (ins : list (option Instruction)) : bool :=
  match ins with
  | [] => false
  | None :: _ => false
  | Some (PushBytes push) :: ins' => bytes_eqb push c || pushes_commitment c ins'
  | Some (Op _) :: ins' => pushes_commitment c ins'
  end.

Definition u32_sat_add1 (a : Z) : Z := Z.min (2 ^ 32 - 1) (a + 1).

Definition commitment_input_is_mature (height : Z) (outpoint : OutPoint) : bool :=
  match tx_outputs_and_block (op_txid outpoint) with
  | None => false
  | Some info =>
      match ti_scripts info !! Z.to_nat (op_vout outpoint) with
      | Some (Some script) =>
          if negb (is_p2tr script) then false
          else
            match ti_blockhash info ≫= header_height with
            | None => false
            | Some commit_height =>
                if negb ((0 <=? commit_height) && (commit_height <? 2 ^ 32)) then false
                else COMMIT_CONFIRMATIONS <=? u32_sat_add1 (Z.max 0 (height - commit_height))
            end
      | _ => false
      end
  end.

Definition tx_commits_to_rune (height : Z) (tx : Transaction) (rune : Z) : bool :=
  existsb (fun i =>
    match tapscript (witness i) with
    | None => false
    | Some script =>
        pushes_commitment (commitment rune) (instructions script)
        && commitment_input_is_mature height (previous_output i)
    end) (input tx).

End Ops.
