(* ===== verification/RunesInscriptions.v ===== *)
(** * Icons from inscriptions

    [src/modules/runes/inscriptions.rs]: the [ord] envelopes of a transaction's
    tapscripts, their fields, and the image or the delegate they name.  Strings
    are their UTF-8 bytes; [from_utf8], [trim] and [to_ascii_lowercase] of the
    standard library are written out. *)
From Stdlib Require Import Strings.Byte.
From stdpp Require Import strings.
From S2P Require Import Prelude Bytes RunesTransfer RunesUndo RunesStore RunesChain.
From stdpp Require Import options.

Open Scope Z_scope.

Definition PROTOCOL_ID : bytes := bstr "ord".
Definition BODY_TAG : bytes := [].
Definition CONTENT_TYPE_TAG : bytes := [z2b 1].
Definition CONTENT_ENCODING_TAG : bytes := [z2b 9].
Definition DELEGATE_TAG : bytes := [z2b 11].

Record RuneIcon := mkIcon {
  ic_content_type : bytes;
  ic_content_encoding : option bytes;
  ic_body : bytes;
}.

(** Borsh, for icons. *)
Class IconCodec := { encode_icon : RuneIcon -> bytes }.

Record InscriptionRef := mkRef { ir_txid : Txid; ir_index : Z }.

Record ParsedInscription := mkParsed {
  pi_content_type : option bytes;
  pi_content_encoding : option bytes;
  pi_delegate : option InscriptionRef;
  pi_body : option bytes;
}.

(** ** Strings *)

Definition is_cont (b : byte) : bool := (0x80 <=? b2z b) && (b2z b <=? 0xbf).

(** The length of the character at the head, when it is well-formed. *)
Definition char_len (s : bytes) : option nat :=
  match s with
  | [] => None
  | a :: s' =>
      let x := b2z a in
      if x <=? 0x7f then Some 1%nat
      else
        match s' with
        | [] => None
        | b :: s'' =>
            if (0xc2 <=? x) && (x <=? 0xdf) then if is_cont b then Some 2%nat else None
            else
              match s'' with
              | [] => None
              | c :: s''' =>
                  let lo := if x =? 0xe0 then 0xa0 else if x =? 0xf0 then 0x90 else 0x80 in
                  let hi := if x =? 0xed then 0x9f else if x =? 0xf4 then 0x8f else 0xbf in
                  let second := (lo <=? b2z b) && (b2z b <=? hi) in
                  if (0xe0 <=? x) && (x <=? 0xef) then
                    if second && is_cont c then Some 3%nat else None
                  else if (0xf0 <=? x) && (x <=? 0xf4) then
                    match s''' with
                    | [] => None
                    | d :: _ => if second && is_cont c && is_cont d then Some 4%nat else None
                    end
                  else None
              end
        end
  end.

(** The characters of a UTF-8 string, each as its bytes. *)
Fixpoint chars_fuel (fuel : nat) (s : bytes) : option (list bytes) :=
  match fuel with
  | O => match s with [] => Some [] | _ :: _ => None end
  | S fuel' =>
      match s with
      | [] => Some []
      | _ :: _ =>
          n ← char_len s;
          cs ← chars_fuel fuel' (drop n s);
          Some (take n s :: cs)
      end
  end.

(** [from_utf8] and [chars] *)
Definition chars (s : bytes) : option (list bytes) := chars_fuel (length s) s.

(** [char::is_whitespace] *)
Definition white_spaces : list bytes :=
  (fun x => [z2b x]) <$> [0x09; 0x0a; 0x0b; 0x0c; 0x0d; 0x20].

Definition wide_white_spaces : list bytes :=
  map (map z2b)
    ([[0xc2; 0x85]; [0xc2; 0xa0]; [0xe1; 0x9a; 0x80]; [0xe2; 0x80; 0xa8]; [0xe2; 0x80; 0xa9];
      [0xe2; 0x80; 0xaf]; [0xe2; 0x81; 0x9f]; [0xe3; 0x80; 0x80]]
     ++ map (fun i => [0xe2; 0x80; 0x80 + i]) (seqZ 0 11)).

Definition is_whitespace (c : bytes) : bool :=
  bool_decide (c ∈ white_spaces ++ wide_white_spaces).

Fixpoint drop_while {A} (f : A -> bool) (l : list A) : list A :=
  match l with
  | [] => []
  | x :: l' => if f x then drop_while f l' else l
  end.

(** [str::trim], on the characters. *)
Definition trim_chars (cs : list bytes) : list bytes :=
  reverse (drop_while is_whitespace (reverse (drop_while is_whitespace cs))).

(** [from_utf8(bytes).ok().map(|s| s.trim().to_string())] *)
Definition utf8_trimmed (b : bytes) : option bytes := (fun cs => mjoin (trim_chars cs)) <$> chars b.

(** [trim] of a string already known to be UTF-8. *)
Definition trim (s : bytes) : bytes := default s (utf8_trimmed s).

Definition to_ascii_lowercase (s : bytes) : bytes :=
  (fun b => let x := b2z b in if (0x41 <=? x) && (x <=? 0x5a) then z2b (x + 0x20) else b) <$> s.

(** [split(';').next()] *)
Definition before_semicolon (s : bytes) : bytes := take_while (fun b => negb (b2z b =? 0x3b)) s.

(** ** Envelopes *)

Definition is_false_push (i : Instruction) : bool :=
  match i with PushBytes [] => true | _ => false end.

Definition pushnum_payload (opcode : Z) : option bytes :=
  if opcode =? OP_PUSHNUM_NEG1 then Some [z2b 0x81]
  else if (OP_PUSHNUM_1 <=? opcode) && (opcode <=? OP_PUSHNUM_16)
  then Some [z2b (opcode - OP_PUSHNUM_1 + 1)]
  else None.

(** Results of a scan: an error of the script, or a value and the instructions left. *)
Abbreviation Scan A := (option (A * list (option Instruction))) (only parsing).

(** The pushes up to [OP_ENDIF]; [None] inside when the envelope is malformed or unfinished. *)
Fixpoint envelope_payload (ins : list (option Instruction)) (payload : list bytes)
    : Scan (option (list bytes)) :=
  match ins with
  | [] => Some (None, [])
  | None :: _ => None
  | Some (PushBytes push) :: ins' => envelope_payload ins' (payload ++ [push])
  | Some (Op op) :: ins' =>
      if op =? OP_ENDIF then Some (Some payload, ins')
      else
        match pushnum_payload op with
        | None => Some (None, ins')
        | Some push => envelope_payload ins' (payload ++ [push])
        end
  end.

Definition envelope_after_false (ins : list (option Instruction)) : Scan (option (list bytes)) :=
  match ins with
  | Some (Op op) :: ins1 =>
      if op =? OP_IF then
        match ins1 with
        | [] => Some (None, [])
        | None :: _ => None
        | Some (PushBytes push) :: ins2 =>
            if bytes_eqb push PROTOCOL_ID then envelope_payload ins2 [] else Some (None, ins2)
        | Some (Op _) :: ins2 => Some (None, ins2)
        end
      else Some (None, ins)
  | _ => Some (None, ins)
  end.

(** Every round consumes an instruction: their number is fuel enough. *)
Fixpoint envelopes_loop (fuel : nat) (ins : list (option Instruction)) (acc : list (list bytes))
    : option (list (list bytes)) :=
  match fuel with
  | O => Some acc
  | S fuel' =>
      match ins with
      | [] => Some acc
      | None :: _ => None
      | Some i :: ins' =>
          if is_false_push i then
            r ← envelope_after_false ins';
            let '(envelope, ins'') := r : option (list bytes) * list (option Instruction) in
            envelopes_loop fuel' ins'' (match envelope with Some e => acc ++ [e] | None => acc end)
          else envelopes_loop fuel' ins' acc
      end
  end.

Definition raw_envelopes_from_instructions (ins : list (option Instruction))
    : option (list (list bytes)) := envelopes_loop (S (length ins)) ins [].

(** ** Fields *)

Definition from_value (v : bytes) : option InscriptionRef :=
  if (length v <? 32)%nat || (36 <? length v)%nat then None
  else
    let txid := take 32 v in
    let index := drop 32 v in
    if match last index with
       | Some l => negb (length index =? 4)%nat && (b2z l =? 0)
       | None => false
       end
    then None
    else Some (mkRef txid (from_le (take 4 (index ++ replicate 4 Byte.x00)))).

(** The position of the body tag among the pushes at even positions. *)
Fixpoint body_index (payload : list bytes) : option nat :=
  match payload with
  | [] => None
  | k :: rest =>
      if bytes_eqb k BODY_TAG then Some 0%nat
      else match rest with [] => None | _ :: rest' => (fun n => S (S n)) <$> body_index rest' end
  end.

(** The values of a tag, in order. *)
Fixpoint field_values (tag : bytes) (payload : list bytes) : list bytes :=
  match payload with
  | key :: value :: rest =>
      if bytes_eqb key tag then value :: field_values tag rest else field_values tag rest
  | _ => []
  end.

Definition take_first (payload : list bytes) (tag : bytes) : option bytes :=
  head (field_values tag payload).

Definition from_payload (payload : list bytes) : ParsedInscription :=
  let i := body_index payload in
  let fields := take (default (length payload) i) payload in
  mkParsed
    (take_first fields CONTENT_TYPE_TAG ≫= utf8_trimmed)
    (match take_first fields CONTENT_ENCODING_TAG ≫= utf8_trimmed with
     | Some (b :: s) => Some (b :: s)
     | _ => None
     end)
    (take_first fields DELEGATE_TAG ≫= from_value)
    ((fun n => mjoin (drop (S n) payload)) <$> i).

Definition into_icon (p : ParsedInscription) : option RuneIcon :=
  content_type ← pi_content_type p;
  let base := to_ascii_lowercase (trim (before_semicolon content_type)) in
  if negb (bytes_eqb base (bstr "image/png") || bytes_eqb base (bstr "image/jpeg")
           || bytes_eqb base (bstr "image/jpg") || bytes_eqb base (bstr "image/webp"))
  then None
  else
    body ← pi_body p;
    match body with
    | [] => None
    | _ :: _ =>
        Some (mkIcon (if bytes_eqb base (bstr "image/jpg") then bstr "image/jpeg" else content_type)
                (pi_content_encoding p) body)
    end.

Section Ops.
Context {btc : BitcoinCrate} {node : Node}.

Definition raw_envelopes_from_tapscript (script : bytes) : option (list (list bytes)) :=
  raw_envelopes_from_instructions (instructions script).

Definition raw_envelopes_from_tx (tx : Transaction) : list (list bytes) :=
  input tx ≫= fun i => default [] (tapscript (witness i) ≫= raw_envelopes_from_tapscript).

Definition parsed_inscriptions_from_tx (tx : Transaction) : list ParsedInscription :=
  from_payload <$> raw_envelopes_from_tx tx.

Definition image_inscription_from_tx (tx : Transaction) : option RuneIcon :=
  head (omap into_icon (parsed_inscriptions_from_tx tx)).

Definition image_inscription_from_tx_at (tx : Transaction) (index : Z) : option RuneIcon :=
  parsed_inscriptions_from_tx tx !! Z.to_nat index ≫= into_icon.

Definition delegate_inscription_from_tx (tx : Transaction) : option InscriptionRef :=
  head (omap pi_delegate (parsed_inscriptions_from_tx tx)).

(** [rune_icon_from_etching_tx] of the indexer. *)
Definition rune_icon_from_etching_tx (tx : Transaction) : option RuneIcon :=
  match image_inscription_from_tx tx with
  | Some icon => Some icon
  | None =>
      delegate ← delegate_inscription_from_tx tx;
      delegate_tx ← raw_transaction (ir_txid delegate);
      image_inscription_from_tx_at delegate_tx (ir_index delegate)
  end.

End Ops.
