(* ===== verification/RunesIndexer.v ===== *)
(** * Indexing the runes of a block

    [BlockRunesIndexer] of [src/modules/runes/main.rs].  Its fields are grouped
    by what they are for: the batch being built, the outpoints, the runes, the
    accounts, the transaction indexes and the price of the block.  Methods that
    mutate it and return early with [?] are in the monad [M BlockRunesIndexer].

    The namespace as it was before the block is the argument [rd]: every read of
    the provider goes to it.  Reads of other modules (the BTC price, the alkanes
    transactions of the block) are the class [OtherModules].  Sets and maps with
    hash order are finite sets and maps, iterated in the order of [elements] and
    [map_to_list]. *)
From Stdlib Require Import Strings.Byte.
From stdpp Require Import strings.
From S2P Require Import Prelude Bytes StateM RunesTransfer RunesUndo RunesStore RunesTxIndex.
From S2P Require Import RunesChain RunesInscriptions.
From stdpp Require Import options.

Open Scope Z_scope.

Abbreviation OutRef := (bytes * Z)%type (only parsing).
Abbreviation Sheet := (gmap SchemaRuneId Z) (only parsing).

#[global] Instance RuneTxIndexKind_countable : Countable RuneTxIndexKind :=
  inj_countable'
    (fun k => match k with KBlock => 0 | KAddress => 1 | KActionBlock => 2 | KActionAddress => 3 end)
    (fun n => match n with 0 => KBlock | 1 => KAddress | 2 => KActionBlock | _ => KActionAddress end)
    ltac:(by intros []).

(** ** State *)

Record Batch := mkBatch {
  puts : list (bytes * bytes);
  deletes : gset bytes;
  preimage_values : Preimages;
}.

Record Outpoints := mkOutpoints {
  live_outpoints : option (gset OutRef);
  live_outpoint_cache : gmap OutRef (option OutpointRuneBalances);
  ephem : gmap OutRef OutpointRuneBalances;
}.

Record Runes_ := mkRunes_ {
  entries : gmap SchemaRuneId RuneEntry;
  rune_to_id : gmap Z SchemaRuneId;
  next_seq : option Z;
}.

Record Accounts := mkAccounts {
  address_balance_cache : gmap (bytes * SchemaRuneId) Z;
  address_balance_history_touched : gset (bytes * SchemaRuneId);
  holder_balance_cache : gmap (SchemaRuneId * bytes) Z;
  holder_count_cache : gmap SchemaRuneId Z;
  volume_cache : gmap (RuneVolumeKind * SchemaRuneId * bytes) Z;
  volume_len_cache : gmap (RuneVolumeKind * SchemaRuneId) Z;
}.

Record ActionCandidate := mkCandidate {
  ca_tx_index : Z;
  has_alkane : bool;
  has_rune : bool;
  addresses : gset bytes;
}.

(** The four [next_*_chunk_id] slots are one map. *)
Record TxIndexes := mkTxIndexes {
  next_tx_pointer : option Z;
  next_action_pointer : option Z;
  next_chunk_ids : gmap RuneTxIndexKind Z;
  block_tx_pointer_ids : list Z;
  address_tx_pointer_ids : gmap bytes (list Z);
  action_block_pointer_ids : list Z;
  action_address_pointer_ids : gmap bytes (list Z);
  action_candidates : gmap bytes ActionCandidate;
}.

Record BlockPrice := mkBlockPrice {
  uncommon_goods_usd_weighted_sum : Z;
  uncommon_goods_amount_sum : Z;
}.

Record BlockRunesIndexer := mkIndexer {
  batch : Batch;
  outpoints : Outpoints;
  runes : Runes_;
  accounts : Accounts;
  txindexes : TxIndexes;
  block_price : BlockPrice;
}.

Definition indexer_new (live : option (gset OutRef)) : BlockRunesIndexer :=
  mkIndexer (mkBatch [] ∅ ∅) (mkOutpoints live ∅ ∅) (mkRunes_ ∅ ∅ None)
    (mkAccounts ∅ ∅ ∅ ∅ ∅ ∅) (mkTxIndexes None None ∅ [] ∅ [] ∅ ∅) (mkBlockPrice 0 0).

(** Updates of one group, of one field. *)
Definition on_batch (f : Batch -> Batch) (s : BlockRunesIndexer) : BlockRunesIndexer :=
  mkIndexer (f (batch s)) (outpoints s) (runes s) (accounts s) (txindexes s) (block_price s).
Definition on_outpoints (f : Outpoints -> Outpoints) (s : BlockRunesIndexer) : BlockRunesIndexer :=
  mkIndexer (batch s) (f (outpoints s)) (runes s) (accounts s) (txindexes s) (block_price s).
Definition on_runes (f : Runes_ -> Runes_) (s : BlockRunesIndexer) : BlockRunesIndexer :=
  mkIndexer (batch s) (outpoints s) (f (runes s)) (accounts s) (txindexes s) (block_price s).
Definition on_accounts (f : Accounts -> Accounts) (s : BlockRunesIndexer) : BlockRunesIndexer :=
  mkIndexer (batch s) (outpoints s) (runes s) (f (accounts s)) (txindexes s) (block_price s).
Definition on_txindexes (f : TxIndexes -> TxIndexes) (s : BlockRunesIndexer) : BlockRunesIndexer :=
  mkIndexer (batch s) (outpoints s) (runes s) (accounts s) (f (txindexes s)) (block_price s).
Definition on_price (f : BlockPrice -> BlockPrice) (s : BlockRunesIndexer) : BlockRunesIndexer :=
  mkIndexer (batch s) (outpoints s) (runes s) (accounts s) (txindexes s) (f (block_price s)).

Definition upd_puts f (b : Batch) := mkBatch (f (puts b)) (deletes b) (preimage_values b).
Definition upd_deletes f (b : Batch) := mkBatch (puts b) (f (deletes b)) (preimage_values b).
Definition upd_preimages f (b : Batch) := mkBatch (puts b) (deletes b) (f (preimage_values b)).

Definition upd_live f (o : Outpoints) := mkOutpoints (f <$> live_outpoints o) (live_outpoint_cache o) (ephem o).
Definition upd_cache f (o : Outpoints) := mkOutpoints (live_outpoints o) (f (live_outpoint_cache o)) (ephem o).
Definition upd_ephem f (o : Outpoints) := mkOutpoints (live_outpoints o) (live_outpoint_cache o) (f (ephem o)).

Definition upd_entries f (r : Runes_) := mkRunes_ (f (entries r)) (rune_to_id r) (next_seq r).
Definition upd_rune_to_id f (r : Runes_) := mkRunes_ (entries r) (f (rune_to_id r)) (next_seq r).
Definition set_next_seq n (r : Runes_) := mkRunes_ (entries r) (rune_to_id r) (Some n).

Definition upd_address_balance f (a : Accounts) :=
  mkAccounts (f (address_balance_cache a)) (address_balance_history_touched a)
    (holder_balance_cache a) (holder_count_cache a) (volume_cache a) (volume_len_cache a).
Definition upd_history_touched f (a : Accounts) :=
  mkAccounts (address_balance_cache a) (f (address_balance_history_touched a))
    (holder_balance_cache a) (holder_count_cache a) (volume_cache a) (volume_len_cache a).
Definition upd_holder_balance f (a : Accounts) :=
  mkAccounts (address_balance_cache a) (address_balance_history_touched a)
    (f (holder_balance_cache a)) (holder_count_cache a) (volume_cache a) (volume_len_cache a).
Definition upd_holder_count f (a : Accounts) :=
  mkAccounts (address_balance_cache a) (address_balance_history_touched a)
    (holder_balance_cache a) (f (holder_count_cache a)) (volume_cache a) (volume_len_cache a).
Definition upd_volume f (a : Accounts) :=
  mkAccounts (address_balance_cache a) (address_balance_history_touched a)
    (holder_balance_cache a) (holder_count_cache a) (f (volume_cache a)) (volume_len_cache a).
Definition upd_volume_len f (a : Accounts) :=
  mkAccounts (address_balance_cache a) (address_balance_history_touched a)
    (holder_balance_cache a) (holder_count_cache a) (volume_cache a) (f (volume_len_cache a)).

Definition set_next_tx_pointer n (t : TxIndexes) :=
  mkTxIndexes (Some n) (next_action_pointer t) (next_chunk_ids t) (block_tx_pointer_ids t)
    (address_tx_pointer_ids t) (action_block_pointer_ids t) (action_address_pointer_ids t)
    (action_candidates t).
Definition set_next_action_pointer n (t : TxIndexes) :=
  mkTxIndexes (next_tx_pointer t) (Some n) (next_chunk_ids t) (block_tx_pointer_ids t)
    (address_tx_pointer_ids t) (action_block_pointer_ids t) (action_address_pointer_ids t)
    (action_candidates t).
Definition upd_chunk_ids f (t : TxIndexes) :=
  mkTxIndexes (next_tx_pointer t) (next_action_pointer t) (f (next_chunk_ids t))
    (block_tx_pointer_ids t) (address_tx_pointer_ids t) (action_block_pointer_ids t)
    (action_address_pointer_ids t) (action_candidates t).
Definition upd_block_ids f (t : TxIndexes) :=
  mkTxIndexes (next_tx_pointer t) (next_action_pointer t) (next_chunk_ids t)
    (f (block_tx_pointer_ids t)) (address_tx_pointer_ids t) (action_block_pointer_ids t)
    (action_address_pointer_ids t) (action_candidates t).
Definition upd_address_ids f (t : TxIndexes) :=
  mkTxIndexes (next_tx_pointer t) (next_action_pointer t) (next_chunk_ids t)
    (block_tx_pointer_ids t) (f (address_tx_pointer_ids t)) (action_block_pointer_ids t)
    (action_address_pointer_ids t) (action_candidates t).
Definition upd_action_block_ids f (t : TxIndexes) :=
  mkTxIndexes (next_tx_pointer t) (next_action_pointer t) (next_chunk_ids t)
    (block_tx_pointer_ids t) (address_tx_pointer_ids t) (f (action_block_pointer_ids t))
    (action_address_pointer_ids t) (action_candidates t).
Definition upd_action_address_ids f (t : TxIndexes) :=
  mkTxIndexes (next_tx_pointer t) (next_action_pointer t) (next_chunk_ids t)
    (block_tx_pointer_ids t) (address_tx_pointer_ids t) (action_block_pointer_ids t)
    (f (action_address_pointer_ids t)) (action_candidates t).
Definition upd_candidates f (t : TxIndexes) :=
  mkTxIndexes (next_tx_pointer t) (next_action_pointer t) (next_chunk_ids t)
    (block_tx_pointer_ids t) (address_tx_pointer_ids t) (action_block_pointer_ids t)
    (action_address_pointer_ids t) (f (action_candidates t)).

(** ** Values *)

(** [as i128] and negation on [i128]. *)
Definition as_i128 (z : Z) : Z :=
  let r := z mod 2 ^ 128 in if r <? 2 ^ 127 then r else r - 2 ^ 128.
Definition i128_neg (z : Z) : Z := as_i128 (- z).

Definition apply_delta (prev delta : Z) : Z :=
  if delta <? 0 then u128_sat_sub prev (Z.abs delta) else u128_sat_add prev delta.

Definition u64_sat_sub1 (a : Z) : Z := Z.max 0 (a - 1).

(** [BTreeMap] iteration of sheets and outputs. *)
Definition sheet_entries (s : Sheet) : list (SchemaRuneId * Z) :=
  sort_by (fun a b => rid_leb a.1 b.1) (map_to_list s).
Definition output_entries (o : gmap Z Sheet) : list (Z * Sheet) :=
  sort_by (fun a b => a.1 <=? b.1) (map_to_list o).

Definition balances_from_sheet (s : Sheet) : list RuneBalance :=
  omap (fun e => if 0 <? e.2 then Some (mkBalance e.1 e.2) else None) (sheet_entries s).

(** What the indexer asks of other modules. *)
Class OtherModules := {
  (** [get_btc_usd_price_at_or_before_height], or the configured price. *)
  btc_usd_price_at_height : Z -> option Z;
  (** The index of alkanes transactions of a height: its length, its items, and the
      transaction (and its index) of a pointer. *)
  alkane_block_txs_len : Z -> Z;
  alkane_block_txs : Z -> Z -> list Z;
  load_tx_pointer_blob : Z -> option (Txid * Z);
}.

(** ** Operations *)

Section Ops.
Context {btc : BitcoinCrate} {ord : OrdinalsCrate} {node : Node} {others : OtherModules}.
Context {rcodec : RuneCodec} {icodec : IconCodec}.
(** The configuration: whether the network is mainnet, the genesis override, the chunk size. *)
Context (mainnet : bool) (genesis_override : option Z) (address_index_chunk_size : Z).
(** The namespace before the block, and the block's height and time. *)
Context (rd : bytes -> option bytes) (height timestamp : Z).

Abbreviation Ix := (M BlockRunesIndexer) (only parsing).

(** *** The batch *)

Definition push_put (key value : bytes) : Ix unit :=
  modify (on_batch (upd_puts (fun ps => ps ++ [(key, value)]))).

Definition queue_put (key value : bytes) : Ix unit :=
  modify (on_batch (upd_deletes (fun d => d ∖ {[key]})));; push_put key value.

Definition queue_delete (key : bytes) : Ix unit :=
  modify (on_batch (upd_deletes (fun d => {[key]} ∪ d))).

(** [preimage_values.entry(key).or_insert(v)] *)
Definition note_preimage (key : bytes) (v : option bytes) : Ix unit :=
  modify (on_batch (upd_preimages (fun p => or_insert p key v))).

(** A value kept in a cache, or read from its row and noted as its preimage. *)
Definition cached {A} (look : BlockRunesIndexer -> option A) (key : bytes)
    (decode : bytes -> option A) (zero : A) (store : A -> BlockRunesIndexer -> BlockRunesIndexer)
    : Ix A :=
  c ← gets look;
  match c with
  | Some v => mret v
  | None =>
      let raw := rd key in
      let v := default zero (raw ≫= decode) in
      note_preimage key raw;;
      modify (store v);;
      mret v
  end.

(** The next value of a counter, kept in [look] and stored with [set]. *)
Definition next_counter (look : BlockRunesIndexer -> option Z) (key : bytes)
    (set : Z -> BlockRunesIndexer -> BlockRunesIndexer) : Ix Z :=
  id ← cached look key decode_u64 0 set;
  modify (set (u64_sat_add id 1));;
  push_put key (encode_u64 (u64_sat_add id 1));;
  mret id.

(** *** Outpoints *)

Definition get_outpoint_balances (o : OutRef) : Ix (option OutpointRuneBalances) :=
  match rd (outpoint_key o.1 o.2) with
  | None => mret None
  | Some raw => row ← lift (decode_outpoint raw); mret (Some row)
  end.

Definition live_outpoints_contains (o : OutRef) (s : BlockRunesIndexer) : bool :=
  match live_outpoints (outpoints s) with Some set => bool_decide (o ∈ set) | None => false end.

Definition insert_live_outpoint (o : OutRef) : Ix unit :=
  modify (on_outpoints (upd_live (fun l => {[o]} ∪ l)));;
  modify (on_outpoints (upd_cache (delete o))).

Definition remove_live_outpoint (o : OutRef) : Ix unit :=
  modify (on_outpoints (upd_live (fun l => l ∖ {[o]})));;
  modify (on_outpoints (upd_cache (delete o))).

Definition get_point_lookup_outpoint (o : OutRef) : Ix (option OutpointRuneBalances) :=
  c ← gets (fun s => live_outpoint_cache (outpoints s) !! o);
  match c with
  | Some row => mret row
  | None =>
      row ← get_outpoint_balances o;
      modify (on_outpoints (upd_cache (insert o row)));;
      mret row
  end.

Definition take_point_lookup_outpoint (o : OutRef) : Ix (option OutpointRuneBalances) :=
  c ← gets (fun s => live_outpoint_cache (outpoints s) !! o);
  match c with
  | Some row => modify (on_outpoints (upd_cache (delete o)));; mret row
  | None => get_outpoint_balances o
  end.

Definition has_rune_outpoint (o : OutRef) : Ix bool :=
  here ← gets (fun s => bool_decide (is_Some (ephem (outpoints s) !! o)) || live_outpoints_contains o s);
  if here : bool then mret true
  else
    loaded ← gets (fun s => bool_decide (is_Some (live_outpoints (outpoints s))));
    if loaded : bool then mret false
    else row ← get_point_lookup_outpoint o; mret (bool_decide (is_Some row)).

(** *** Runes *)

Definition get_rune (id : SchemaRuneId) : Ix (option RuneEntry) :=
  match rd (entry_key id) with
  | None => mret None
  | Some raw => e ← lift (decode_entry raw); mret (Some e)
  end.

Definition load_entry (id : SchemaRuneId) : Ix (option RuneEntry) :=
  c ← gets (fun s => entries (runes s) !! id);
  match c with
  | Some entry => mret (Some entry)
  | None =>
      entry ← get_rune id;
      match entry with
      | None => mret None
      | Some e =>
          modify (on_runes (upd_entries (insert id e)));;
          modify (on_runes (upd_rune_to_id (insert (re_rune e) id)));;
          mret (Some e)
      end
  end.

Definition store_entry (entry : RuneEntry) : Ix unit :=
  modify (on_runes (upd_entries (insert (re_id entry) entry)));;
  push_put (entry_key (re_id entry)) (encode_entry entry).

Definition rune_exists (rune : Z) : Ix bool :=
  known ← gets (fun s => bool_decide (is_Some (rune_to_id (runes s) !! rune)));
  if known : bool then mret true
  else mret (bool_decide (is_Some (rd (id_by_rune_key rune)))).

Definition next_sequence : Ix Z :=
  next_counter (fun s => next_seq (runes s)) seq_count_key (fun v => on_runes (set_next_seq v)).

Definition mint (id : SchemaRuneId) (tx_index : Z) : Ix (option Z) :=
  entry ← load_entry id;
  match entry with
  | None => mret None
  | Some entry =>
      match mintable entry height tx_index with
      | None => mret None
      | Some amount =>
          store_entry (with_mints entry (u128_sat_add (mints entry) 1));;
          mret (Some amount)
      end
  end.

(** The rows that name an entry. *)
Definition index_names (entry : RuneEntry) (rune number : Z) (id : SchemaRuneId) : Ix unit :=
  push_put (id_by_rune_key rune) (encode_id id);;
  push_put (id_by_name_key (re_name entry)) (encode_id id);;
  push_put (id_by_name_key (re_spaced_name entry)) (encode_id id);;
  push_put (seq_key number) (encode_id id).

Definition UNCOMMON_GOODS : bytes := bstr "UNCOMMONGOODS".
Definition uncommon_goods_symbol : bytes := [z2b 0xe2; z2b 0xa7; z2b 0x89].

Definition ensure_genesis_rune (txid : Txid) (genesis_height : Z) : Ix unit :=
  e ← load_entry GENESIS_RUNE_ID;
  match e with
  | Some _ => mret tt
  | None =>
      let terms := mkOrdTerms (Some 1) (Some (u128_mod - 1))
                     (genesis_rune_mint_height_range genesis_height) (None, None) in
      rune ← lift (rune_from_str UNCOMMON_GOODS);
      seq ← next_sequence;
      let entry := make_entry GENESIS_RUNE_ID rune 128 (Some uncommon_goods_symbol) 0 0
                     (Some terms) txid seq timestamp true in
      store_entry entry;;
      modify (on_runes (upd_rune_to_id (insert (re_rune entry) (re_id entry))));;
      index_names entry rune (re_number entry) (re_id entry)
  end.

(** The rune a transaction etches, if it may. *)
Definition etched (tx_index : Z) (tx : Transaction) (artifact : Artifact)
    : Ix (option (SchemaRuneId * Z * option Etching)) :=
  let rune_opt : option (option Z) :=
    match artifact with
    | ARunestone r => et_rune <$> rs_etching r
    | ACenotaph c => Some <$> ce_etching c
    end in
  let etching := match artifact with ARunestone r => rs_etching r | ACenotaph _ => None end in
  match rune_opt with
  | None => mret None
  | Some (Some rune) =>
      if (rune <? minimum_at_height height) || is_reserved rune then mret None
      else
        exists_ ← rune_exists rune;
        if exists_ || negb (tx_commits_to_rune height tx rune) then mret None
        else mret (Some (mkRuneId height tx_index, rune, etching))
  | Some None => mret (Some (mkRuneId height tx_index, rune_reserved height tx_index, etching))
  end.

Definition create_rune_entry (id : SchemaRuneId) (rune : Z) (txid : Txid) (tx : Transaction)
    (etching : option Etching) (artifact : Artifact) : Ix unit :=
  number ← next_sequence;
  let entry :=
    match artifact with
    | ACenotaph _ => make_entry id rune 0 None 0 0 None txid number timestamp false
    | ARunestone _ =>
        let e := default Etching_default etching in
        make_entry id rune (default 0 (et_spacers e)) (et_symbol e) (default 0 (et_divisibility e))
          (default 0 (et_premine e)) (et_terms e) txid number timestamp (et_turbo e)
    end in
  store_entry entry;;
  modify (on_runes (upd_rune_to_id (insert rune id)));;
  index_names entry rune number id;;
  match rune_icon_from_etching_tx tx with
  | Some icon => push_put (rune_icon_key id) (encode_icon icon)
  | None => mret tt
  end.

(** *** Accounts *)

Definition apply_address_delta (address : Address) (id : SchemaRuneId) (delta : Z) : Ix unit :=
  let hkey := holder_key id address in
  let key := address_balance_key address id in
  prev ← cached (fun s => address_balance_cache (accounts s) !! (address, id)) key decode_u128 0
           (fun v => on_accounts (upd_address_balance (insert (address, id) v)));
  let next := apply_delta prev delta in
  modify (on_accounts (upd_address_balance (insert (address, id) next)));;
  modify (on_accounts (upd_history_touched (fun t => {[(address, id)]} ∪ t)));;
  (if next =? 0 then queue_delete key else queue_put key (encode_u128 next));;
  hprev ← cached (fun s => holder_balance_cache (accounts s) !! (id, address)) hkey decode_u128 0
            (fun v => on_accounts (upd_holder_balance (insert (id, address) v)));
  let hnext := apply_delta hprev delta in
  modify (on_accounts (upd_holder_balance (insert (id, address) hnext)));;
  (if hnext =? 0 then queue_delete hkey else queue_put hkey (encode_u128 hnext));;
  count ← cached (fun s => holder_count_cache (accounts s) !! id) (holders_count_key id) decode_u64 0
            (fun v => on_accounts (upd_holder_count (insert id v)));
  let next_count :=
    match hprev =? 0, hnext =? 0 with
    | true, false => u64_sat_add count 1
    | false, true => u64_sat_sub1 count
    | _, _ => count
    end in
  if negb (next_count =? count) then
    modify (on_accounts (upd_holder_count (insert id next_count)));;
    queue_put (holders_count_key id) (encode_u64 next_count)
  else mret tt.

Definition apply_volume_delta (kind : RuneVolumeKind) (id : SchemaRuneId) (address : Address)
    (delta : Z) : Ix unit :=
  if delta =? 0 then mret tt
  else
    let key := rune_volume_entry_key kind id address in
    c ← gets (fun s => volume_cache (accounts s) !! (kind, id, address));
    (match c with
     | Some v => mret (v, true)
     | None =>
         let raw := rd key in
         note_preimage key raw;;
         mret (default 0 (raw ≫= decode_u128), bool_decide (is_Some raw))
     end) ≫= fun '(prev, had_row) =>
    let next := u128_sat_add prev delta in
    modify (on_accounts (upd_volume (insert (kind, id, address) next)));;
    queue_put key (encode_u128 next);;
    if had_row : bool then mret tt
    else
      let len_key := rune_volume_list_len_key kind id in
      len ← cached (fun s => volume_len_cache (accounts s) !! (kind, id)) len_key decode_u32 0
              (fun v => on_accounts (upd_volume_len (insert (kind, id) v)));
      queue_put (rune_volume_list_idx_key kind id len) address;;
      let next_len := u32_sat_add1 len in
      modify (on_accounts (upd_volume_len (insert (kind, id) next_len)));;
      queue_put len_key (encode_u32 next_len).

Definition flush_address_balance_history : Ix unit :=
  touched ← gets (fun s => elements (address_balance_history_touched (accounts s)));
  modify (on_accounts (upd_history_touched (fun _ => ∅)));;
  for_each
    (sort_by (fun a b => bytes_ltb a.1 b.1 || (bytes_eqb a.1 b.1 && rid_leb a.2 b.2)) touched)
    (fun '(address, id) =>
      amount ← gets (fun s => default 0 (address_balance_cache (accounts s) !! (address, id)));
      queue_put (address_balance_history_key address id height) (encode_u128 amount);;
      let len_key := address_balance_history_list_len_key address id in
      let raw := rd len_key in
      let len := default 0 (raw ≫= decode_u32) in
      note_preimage len_key raw;;
      queue_put (address_balance_history_list_idx_key address id len) (be_bytes 4 height);;
      queue_put len_key (encode_u32 (u32_sat_add1 len))).

(** *** Activity and transaction indexes *)

Definition queue_rune_activity (activity : RuneActivity) : Ix unit :=
  let scopes := match ac_kind activity with
                | Etch => [ScopeAll; ScopeEtch]
                | Mint => [ScopeAll; ScopeMint]
                end in
  for_each scopes (fun scope =>
    for_each [SortTimestamp; SortAmount] (fun sort_by =>
      push_put (rune_activity_index_key activity scope sort_by) (encode_activity activity);;
      match ac_destination activity with
      | Some address =>
          push_put (rune_address_activity_index_key activity address scope sort_by)
            (encode_activity activity);;
          push_put (rune_address_token_activity_index_key activity address scope sort_by)
            (encode_activity activity)
      | None => mret tt
      end)).

Definition next_tx_pointer_id : Ix Z :=
  next_counter (fun s => next_tx_pointer (txindexes s)) rune_tx_pointer_count_key
    (fun v => on_txindexes (set_next_tx_pointer v)).

Definition next_action_pointer_id : Ix Z :=
  next_counter (fun s => next_action_pointer (txindexes s)) action_tx_pointer_count_key
    (fun v => on_txindexes (set_next_action_pointer v)).

(** [*self.next_chunk_id(kind)?] *)
Definition next_chunk_id (kind : RuneTxIndexKind) : Ix Z :=
  cached (fun s => next_chunk_ids (txindexes s) !! kind) (rune_tx_chunk_counter_key kind) decode_u64 0
    (fun v => on_txindexes (upd_chunk_ids (insert kind v))).

(** [entry(txid).or_insert_with(..)] and [tx_index.min(..)] *)
Definition candidate_at (tx_index : Z) (c : option ActionCandidate) : ActionCandidate :=
  match c with
  | Some c => mkCandidate (Z.min (ca_tx_index c) tx_index) (has_alkane c) (has_rune c) (addresses c)
  | None => mkCandidate tx_index false false ∅
  end.

Definition mark_rune (touched : gset bytes) (c : ActionCandidate) : ActionCandidate :=
  mkCandidate (ca_tx_index c) (has_alkane c) true (addresses c ∪ touched).
Definition mark_alkane (c : ActionCandidate) : ActionCandidate :=
  mkCandidate (ca_tx_index c) true (has_rune c) (addresses c).
Definition add_addresses (a : gset bytes) (c : ActionCandidate) : ActionCandidate :=
  mkCandidate (ca_tx_index c) (has_alkane c) (has_rune c) (addresses c ∪ a).

(** [map.entry(address).or_default().push(id)] *)
Definition push_id (pointer_id : Z) (m : gmap bytes (list Z)) (address : bytes) : gmap bytes (list Z) :=
  <[address := default [] (m !! address) ++ [pointer_id]]> m.

Definition queue_tx_index (txid : Txid) (tx_index : Z) (io : TxRuneIo) (touched : gset bytes)
    : Ix unit :=
  pointer_id ← next_tx_pointer_id;
  push_put (rune_tx_pointer_key pointer_id)
    (encode_pointer_blob (mkPointerBlob txid height tx_index io));;
  modify (on_txindexes (upd_block_ids (fun l => l ++ [pointer_id])));;
  modify (on_txindexes (upd_candidates (fun m =>
    <[txid := mark_rune touched (candidate_at tx_index (m !! txid))]> m)));;
  modify (on_txindexes (upd_address_ids (fun m => foldl (push_id pointer_id) m (elements touched)))).

(** *** One transaction *)

(** The locals of [index_tx] that its helpers fill in. *)
Record TxLocals := mkLocals {
  touched_addresses : gset bytes;
  transfer_participants : gmap SchemaRuneId (gset bytes);
  transfer_amounts : gmap SchemaRuneId Z;
  tx_io : TxRuneIo;
  unalloc : Sheet;
}.

Definition locals0 : TxLocals := mkLocals ∅ ∅ ∅ TxRuneIo_default ∅.

(** [entry(id).or_default().insert(address)] *)
Definition participate (m : gmap SchemaRuneId (gset bytes)) (id : SchemaRuneId) (address : bytes)
    : gmap SchemaRuneId (gset bytes) := <[id := default ∅ (m !! id) ∪ {[address]}]> m.

Definition with_inputs (f : gmap Z (list RuneBalance) -> gmap Z (list RuneBalance)) (io : TxRuneIo) :=
  mkIo (f (io_inputs io)) (io_outputs io) (io_burned io) (io_minted io) (io_etched io).
Definition with_outputs (f : gmap Z (list RuneBalance) -> gmap Z (list RuneBalance)) (io : TxRuneIo) :=
  mkIo (io_inputs io) (f (io_outputs io)) (io_burned io) (io_minted io) (io_etched io).
Definition with_burned_list (f : list RuneBalance -> list RuneBalance) (io : TxRuneIo) :=
  mkIo (io_inputs io) (io_outputs io) (f (io_burned io)) (io_minted io) (io_etched io).
Definition with_minted (m : list RuneBalance) (io : TxRuneIo) :=
  mkIo (io_inputs io) (io_outputs io) (io_burned io) m (io_etched io).
Definition with_etched (e : option SchemaRuneId) (io : TxRuneIo) :=
  mkIo (io_inputs io) (io_outputs io) (io_burned io) (io_minted io) e.

(** The row an input spends, and its bytes when it comes from the database. *)
Definition take_row (o : OutRef) : Ix (option OutpointRuneBalances * option bytes) :=
  e ← gets (fun s => ephem (outpoints s) !! o);
  match e with
  | Some row => modify (on_outpoints (upd_ephem (delete o)));; mret (Some row, None)
  | None =>
      loaded ← gets (fun s => bool_decide (is_Some (live_outpoints (outpoints s))));
      if loaded : bool then
        live ← gets (live_outpoints_contains o);
        if negb live then mret (None, None)
        else row ← get_outpoint_balances o; mret (row, encode_outpoint <$> row)
      else row ← take_point_lookup_outpoint o; mret (row, encode_outpoint <$> row)
  end.

(** Taking a row away; the second result is its previous bytes. *)
Definition spend_row (o : OutRef) : Ix (option (OutpointRuneBalances * option bytes)) :=
  r ← take_row o;
  match r with
  | (None, _) => mret None
  | (Some row, previous_outpoint) =>
      remove_live_outpoint o;;
      note_preimage (outpoint_key o.1 o.2) previous_outpoint;;
      queue_delete (outpoint_key o.1 o.2);;
      mret (Some (row, previous_outpoint))
  end.

Definition spend_input (L : TxLocals) (i : Z * TxIn) : Ix TxLocals :=
  let prev := previous_output i.2 in
  let o := (op_txid prev, op_vout prev) in
  r ← spend_row o;
  match r with
  | None => mret L
  | Some (row, previous_outpoint) =>
      let io := with_inputs (insert i.1 (or_balances row)) (tx_io L) in
      let un := foldl (fun u b => sheet_add u (rb_id b) (rb_amount b)) (unalloc L) (or_balances row) in
      match or_address row with
      | None => mret (mkLocals (touched_addresses L) (transfer_participants L) (transfer_amounts L) io un)
      | Some address =>
          let akey := address_outpoint_key address o.1 o.2 in
          note_preimage akey (match previous_outpoint with Some _ => Some [] | None => None end);;
          queue_delete akey;;
          for_each (or_balances row) (fun b =>
            apply_address_delta address (rb_id b) (i128_neg (as_i128 (rb_amount b))));;
          mret (mkLocals ({[address]} ∪ touched_addresses L)
                  (foldl (fun m b => participate m (rb_id b) address) (transfer_participants L)
                     (or_balances row))
                  (transfer_amounts L) io un)
      end
  end.

(** [iter().enumerate()] *)
Definition enumerate {A} (l : list A) : list (Z * A) := zip (seqZ 0 (Z.of_nat (length l))) l.

Definition unallocated (tx : Transaction) : Ix TxLocals :=
  fold_each spend_input locals0 (enumerate (input tx)).

(** Whether an input carries runes; the search stops at the first that does. *)
Fixpoint any_rune_input (ins : list TxIn) : Ix bool :=
  match ins with
  | [] => mret false
  | i :: ins' =>
      h ← has_rune_outpoint (op_txid (previous_output i), op_vout (previous_output i));
      if h : bool then mret true else any_rune_input ins'
  end.

(** The runes a runestone's edicts and pointer send to the outputs, and those burned. *)
Definition allocate_tx (tx : Transaction) (artifact : option Artifact)
    (etched_id : option SchemaRuneId) (un : Sheet) : Sheet * gmap Z Sheet :=
  let scripts := script_pubkey <$> output tx in
  let '(un1, allocated) :=
    match artifact with
    | Some (ARunestone r) =>
        foldl (fun '(u, o) e =>
          let resolved :=
            if bool_decide (ed_id e = RuneId_default) then etched_id else Some (from_rune_id (ed_id e)) in
          match resolved with
          | None => (u, o)
          | Some id => apply_edict is_op_return scripts u o id (ed_amount e) (ed_output e)
          end) (un, ∅) (rs_edicts r)
    | _ => (un, ∅)
    end in
  match artifact with
  | Some (ACenotaph _) => (un1, allocated)
  | _ =>
      let pointer := match artifact with Some (ARunestone r) => rs_pointer r | _ => None end in
      route_leftovers is_op_return TransferRules_default scripts un1 allocated pointer
  end.

(** Adding to the burned amount of an entry. *)
Definition burn (id : SchemaRuneId) (amount : Z) : Ix unit :=
  e ← load_entry id;
  match e with
  | Some entry => store_entry (with_burned entry (u128_sat_add (burned entry) amount))
  | None => mret tt
  end.

Definition record_burned (burned : Sheet) : Ix unit :=
  for_each (sheet_entries burned) (fun e => if e.2 =? 0 then mret tt else burn e.1 e.2).

(** A row for a new outpoint. *)
Definition add_row (o : OutRef) (row : OutpointRuneBalances) : Ix unit :=
  modify (on_outpoints (upd_ephem (insert o row)));;
  insert_live_outpoint o;;
  queue_put (outpoint_key o.1 o.2) (encode_outpoint row).

(** The runes of one output. *)
Definition record_output (tx : Transaction) (txid : Txid) (L : TxLocals) (e : Z * Sheet)
    : Ix TxLocals :=
  let '(vout, sheet) := e in
  if bool_decide (sheet = ∅) then mret L
  else
    let balances := balances_from_sheet sheet in
    out ← lift (output tx !! Z.to_nat vout);
    if is_op_return (script_pubkey out) then
      for_each balances (fun b => burn (rb_id b) (rb_amount b));;
      mret (mkLocals (touched_addresses L) (transfer_participants L) (transfer_amounts L)
              (with_burned_list (fun l => l ++ balances) (tx_io L)) (unalloc L))
    else
      let address := script_to_address (script_pubkey out) in
      let row := mkOutpointRow address (script_pubkey out) balances in
      add_row (txid, vout) row;;
      let io := with_outputs (insert vout balances) (tx_io L) in
      match address with
      | None => mret (mkLocals (touched_addresses L) (transfer_participants L) (transfer_amounts L) io (unalloc L))
      | Some address =>
          queue_put (address_outpoint_key address txid vout) [];;
          for_each balances (fun b =>
            apply_volume_delta TotalReceived (rb_id b) address (rb_amount b);;
            apply_address_delta address (rb_id b) (as_i128 (rb_amount b)));;
          mret (mkLocals ({[address]} ∪ touched_addresses L)
                  (foldl (fun m b => participate m (rb_id b) address) (transfer_participants L) balances)
                  (foldl (fun m b => <[rb_id b := u128_sat_add (default 0 (m !! rb_id b)) (rb_amount b)]> m)
                     (transfer_amounts L) balances)
                  io (unalloc L))
      end.

Definition record_volumes (L : TxLocals) : Ix unit :=
  for_each (map_to_list (transfer_amounts L)) (fun '(id, amount) =>
    match transfer_participants L !! id with
    | None => mret tt
    | Some participants =>
        for_each (elements participants) (fun address =>
          apply_volume_delta TransferVolume id address amount)
    end).

Definition first_output_address_for_rune (txid : Txid) (id : SchemaRuneId) (s : BlockRunesIndexer)
    : option Address :=
  let candidates :=
    omap (fun e : OutRef * OutpointRuneBalances =>
      if negb (bytes_eqb e.1.1 txid) then None
      else if existsb (fun b => bool_decide (rb_id b = id)) (or_balances e.2)
      then (fun a => (e.1.2, a)) <$> or_address e.2
      else None) (map_to_list (ephem (outpoints s))) in
  snd <$> head (sort_by (fun a b => a.1 <=? b.1) candidates).

Definition record_mint (txid : Txid) (tx_index fee : Z) (price : option Z) (b : RuneBalance) : Ix unit :=
  destination ← gets (first_output_address_for_rune txid (rb_id b));
  e ← load_entry (rb_id b);
  let divisibility := default 0 (re_divisibility <$> e) in
  let price_sats := scale_rune_fee_price_sats fee (rb_amount b) divisibility in
  let price_usd := scale_rune_fee_price_usd price_sats price in
  (if bool_decide (rb_id b = GENESIS_RUNE_ID) && bool_decide (is_Some price) && (0 <? rb_amount b) then
     modify (on_price (fun p => mkBlockPrice
       (u256_sat_add (uncommon_goods_usd_weighted_sum p) (u256_sat_mul (from_be price_usd) (rb_amount b)))
       (u256_sat_add (uncommon_goods_amount_sum p) (rb_amount b))))
   else mret tt);;
  push_put (mint_activity_key (rb_id b) timestamp txid tx_index)
    (encode_mint_activity
       (mkMintActivity (rb_id b) txid [txid] false height tx_index timestamp (rb_amount b) fee
          price_sats price_usd destination true));;
  queue_rune_activity
    (mkActivity (rb_id b) txid [txid] false height tx_index timestamp Mint (rb_amount b) fee
       price_sats price_usd destination true).

Definition record_etch (txid : Txid) (tx_index : Z) (id : SchemaRuneId) : Ix unit :=
  e ← load_entry id;
  match e with
  | None => mret tt
  | Some entry =>
      destination ← gets (first_output_address_for_rune txid id);
      queue_rune_activity
        (mkActivity id txid [txid] false height tx_index timestamp Etch (premine entry) 0
           zero32 zero32 destination true)
  end.

(** Whether there is anything to record. *)
Definition io_nonempty (io : TxRuneIo) : bool :=
  negb (bool_decide (io_inputs io = ∅)) || negb (bool_decide (io_outputs io = ∅))
  || negb (0 =? length (io_burned io))%nat || negb (0 =? length (io_minted io))%nat
  || bool_decide (is_Some (io_etched io)).

Definition record_io (txid : Txid) (tx_index : Z) (L : TxLocals) : Ix (option TxRuneIo) :=
  if io_nonempty (tx_io L) then
    push_put (tx_io_key txid) (encode_io (tx_io L));;
    queue_tx_index txid tx_index (tx_io L) (touched_addresses L);;
    mret (Some (tx_io L))
  else mret None.

(** The etching of a transaction: its id, with the premine in the sheet. *)
Definition etch_step (tx_index : Z) (tx : Transaction) (txid : Txid) (artifact : option Artifact)
    (un : Sheet) : Ix (option SchemaRuneId * Sheet) :=
  match artifact with
  | None => mret (None, un)
  | Some a =>
      r ← etched tx_index tx a;
      match r with
      | None => mret (None, un)
      | Some (id, rune, etching) =>
          let un' :=
            match a with
            | ARunestone rs => sheet_add un id (default 0 (rs_etching rs ≫= et_premine))
            | ACenotaph _ => un
            end in
          create_rune_entry id rune txid tx etching a;;
          mret (Some id, un')
      end
  end.

Definition mint_step (tx_index : Z) (artifact : option Artifact) (un : Sheet)
    : Ix (list RuneBalance * Sheet) :=
  match artifact ≫= artifact_mint with
  | None => mret ([], un)
  | Some id =>
      m ← mint (from_rune_id id) tx_index;
      match m with
      | None => mret ([], un)
      | Some amount =>
          mret ([mkBalance (from_rune_id id) amount], sheet_add un (from_rune_id id) amount)
      end
  end.

(** The whole transaction; the result is the record it wrote. *)
Definition index_tx (tx_index : Z) (tx : Transaction) (block external : gmap Txid Transaction)
    : Ix (option TxRuneIo) :=
  let txid := compute_txid tx in
  let genesis_height := runes_genesis_block mainnet genesis_override in
  (if (height =? genesis_height) && (tx_index =? 0) then ensure_genesis_rune txid genesis_height
   else mret tt);;
  let has_runestone := tx_has_runestone_carrier tx in
  has_rune_input ← any_rune_input (input tx);
  if negb has_runestone && negb has_rune_input then mret None
  else
    let artifact := if has_runestone then decipher tx else None in
    L ← unallocated tx;
    if negb (bool_decide (is_Some artifact)) && bool_decide (unalloc L = ∅) then mret None
    else
      etch_step tx_index tx txid artifact (unalloc L) ≫= fun '(etched_id, un1) =>
      mint_step tx_index artifact un1 ≫= fun '(minted, un2) =>
      let fee := match minted with [] => 0 | _ :: _ => compute_tx_fee_sats tx block external end in
      let price := match minted with [] => None | _ :: _ => btc_usd_price_at_height height end in
      let '(burned, allocated) := allocate_tx tx artifact etched_id un2 in
      let io := with_burned_list (fun _ => balances_from_sheet burned)
                  (with_minted minted (with_etched etched_id (tx_io L))) in
      record_burned burned;;
      L1 ← fold_each (record_output tx txid)
             (mkLocals (touched_addresses L) (transfer_participants L) (transfer_amounts L) io ∅)
             (output_entries allocated);
      record_volumes L1;;
      for_each minted (record_mint txid tx_index fee price);;
      (match etched_id with Some id => record_etch txid tx_index id | None => mret tt end);;
      record_io txid tx_index L1.

(** *** The block's indexes *)

(** One list of the transaction index, with the kind's chunk counter [next]. *)
Definition append_list (kind : RuneTxIndexKind) (key : bytes) (values : list Z) (next : Z) : Ix Z :=
  pre ← gets (fun s => preimage_values (batch s));
  ps ← gets (fun s => puts (batch s));
  lift (append_rune_tx_index_values address_index_chunk_size rd kind key values next pre ps)
    ≫= fun '(_, next', pre', ps') =>
  modify (on_batch (fun b => mkBatch ps' (deletes b) pre'));;
  mret next'.

(** The lists of one kind, in order, and the counter at the end. *)
Definition append_lists (kind : RuneTxIndexKind) (lists : list (bytes * list Z)) : Ix unit :=
  match lists with
  | [] => mret tt
  | _ :: _ =>
      first ← next_chunk_id kind;
      next ← fold_each (fun next l => append_list kind l.1 l.2 next) first lists;
      modify (on_txindexes (upd_chunk_ids (insert kind next)));;
      push_put (rune_tx_chunk_counter_key kind) (encode_u64 next)
  end.

(** The lists of the addresses, sorted by address, under their keys. *)
Definition address_lists (list_key : bytes -> bytes) (m : gmap bytes (list Z)) : list (bytes * list Z) :=
  (fun e => (list_key e.1, e.2)) <$> sort_by (fun a b => bytes_leb a.1 b.1) (map_to_list m).

(** The list of the block, if it has any item. *)
Definition block_list (list_key : bytes) (ids : list Z) : list (bytes * list Z) :=
  match ids with [] => [] | _ :: _ => [(list_key, ids)] end.

Definition collect_alkane_action_candidates (txs : list Transaction) : Ix unit :=
  let total := alkane_block_txs_len height in
  if total =? 0 then mret tt
  else
    let blobs := omap load_tx_pointer_blob (alkane_block_txs height total) in
    for_each blobs (fun '(txid, tx_idx) =>
      modify (on_txindexes (upd_candidates (fun m =>
        <[txid := mark_alkane (candidate_at tx_idx (m !! txid))]> m))));;
    match blobs with
    | [] => mret tt
    | _ :: _ =>
        let block := block_tx_map txs in
        let external := load_external_prev_txs_for_action_addresses txs (fst <$> blobs) in
        for_each (fst <$> blobs) (fun txid =>
          match block !! txid with
          | None => mret tt
          | Some tx =>
              modify (on_txindexes (upd_candidates
                (alter (add_addresses (bitcoin_addresses_for_tx tx block external)) txid)))
          end)
    end.

(** The candidates in the order of the block. *)
Definition sorted_candidates (m : gmap bytes ActionCandidate) : list (bytes * ActionCandidate) :=
  sort_by (fun a b => (ca_tx_index a.2 <? ca_tx_index b.2)
                      || ((ca_tx_index a.2 =? ca_tx_index b.2) && bytes_leb a.1 b.1)) (map_to_list m).

Definition index_candidate (acc : gmap bytes Z) (e : bytes * ActionCandidate) : Ix (gmap bytes Z) :=
  let '(txid, c) := e in
  if negb (has_alkane c) && negb (has_rune c) then mret acc
  else
    pointer_id ← next_action_pointer_id;
    push_put (action_tx_pointer_key pointer_id)
      (encode_action_blob (mkActionBlob txid height (ca_tx_index c) (has_alkane c) (has_rune c)));;
    modify (on_txindexes (upd_action_block_ids (fun l => l ++ [pointer_id])));;
    mret (<[txid := pointer_id]> acc).

Definition flush_action_tx_indexes : Ix unit :=
  candidates ← gets (fun s => sorted_candidates (action_candidates (txindexes s)));
  modify (on_txindexes (upd_candidates (fun _ => ∅)));;
  ids ← fold_each index_candidate ∅ candidates;
  modify (on_txindexes (upd_action_address_ids (fun m =>
    foldl (fun m e => match ids !! e.1 with
                      | None => m
                      | Some pointer_id => foldl (push_id pointer_id) m (elements (addresses e.2))
                      end) m candidates)));;
  values ← gets (fun s => action_block_pointer_ids (txindexes s));
  modify (on_txindexes (upd_action_block_ids (fun _ => [])));;
  append_lists KActionBlock (block_list (action_tx_block_list_key height) values);;
  by_address ← gets (fun s => action_address_pointer_ids (txindexes s));
  modify (on_txindexes (upd_action_address_ids (fun _ => ∅)));;
  append_lists KActionAddress (address_lists action_tx_address_list_key by_address).

Definition flush_tx_indexes : Ix unit :=
  values ← gets (fun s => block_tx_pointer_ids (txindexes s));
  modify (on_txindexes (upd_block_ids (fun _ => [])));;
  append_lists KBlock (block_list (rune_tx_block_list_key height) values);;
  by_address ← gets (fun s => address_tx_pointer_ids (txindexes s));
  modify (on_txindexes (upd_address_ids (fun _ => ∅)));;
  append_lists KAddress (address_lists rune_tx_address_list_key by_address).

Definition record_block_price : Ix unit :=
  p ← gets block_price;
  if uncommon_goods_amount_sum p =? 0 then mret tt
  else
    push_put (uncommon_goods_avg_price_usd_by_height_key height)
      (u256_to_be (uncommon_goods_usd_weighted_sum p / uncommon_goods_amount_sum p)).

(** *** The block *)

(** Everything before the write. *)
Definition scan_block (txs : list Transaction) : Ix unit :=
  let block := block_tx_map txs in
  let external := load_external_prev_txs_for_rune_mints txs in
  for_each (enumerate txs) (fun '(i, tx) => index_tx i tx block external;; mret tt);;
  collect_alkane_action_candidates txs;;
  flush_address_balance_history;;
  flush_action_tx_indexes;;
  flush_tx_indexes;;
  record_block_price.

(** The writes handed to [set_block_batch]: puts of keys that end up deleted are dropped. *)
Definition final_puts (b : Batch) : list (bytes * bytes) :=
  filter (fun e : bytes * bytes => e.1 ∉ deletes b) (puts b).
Definition final_deletes (b : Batch) : list bytes := elements (deletes b).

End Ops.
