(* ===== verification/RunesConserve.v ===== *)
(** * A transaction creates and destroys no runes

    What [index_tx] records of a transaction balances: for every rune, the
    inputs, the premine and the mint together are the outputs and the burned
    amount, in the [u128] arithmetic of the sheets. *)
From stdpp Require Import strings.
From S2P Require Import Prelude Bytes StateM RunesTransfer RunesUndo RunesStore RunesTxIndex.
From S2P Require Import RunesChain RunesInscriptions RunesIndexer.

Open Scope Z_scope.

(** ** Totals *)

Definition balances_total (id : SchemaRuneId) (l : list RuneBalance) : Z :=
  foldr (fun b acc => (if bool_decide (rb_id b = id) then rb_amount b else 0) + acc) 0 l.

Definition io_total (id : SchemaRuneId) (m : gmap Z (list RuneBalance)) : Z :=
  map_fold (fun _ l acc => balances_total id l + acc) 0 m.

Arguments balances_total : simpl never.
Arguments io_total : simpl never.

Lemma balances_total_cons id b l :
  balances_total id (b :: l) = (if bool_decide (rb_id b = id) then rb_amount b else 0) + balances_total id l.
Proof. done. Qed.

Lemma balances_total_app id l1 l2 :
  balances_total id (l1 ++ l2) = balances_total id l1 + balances_total id l2.
Proof.
  induction l1 as [|b l1 IH]; [done|]. cbn [app]. rewrite !balances_total_cons, IH. lia.
Qed.

Lemma io_total_insert id m i l :
  m !! i = None -> io_total id (<[i := l]> m) = balances_total id l + io_total id m.
Proof. intros H. unfold io_total. rewrite map_fold_insert_L; [done|intros; lia|done]. Qed.

Definition balance_ok (b : RuneBalance) : Prop := 0 <= rb_amount b.

(** Sums over the entries of a sheet. *)
Lemma balances_total_omap id (l : list (SchemaRuneId * Z)) :
  balances_total id (omap (fun e => if 0 <? e.2 then Some (mkBalance e.1 e.2) else None) l)
  = foldr (fun e acc => (if bool_decide (e.1 = id) then Z.max 0 e.2 else 0) + acc) 0 l.
Proof.
  induction l as [|[i x] l IH]; [done|]. cbn [omap list_omap foldr fst snd].
  destruct (Z.ltb_spec 0 x); [rewrite balances_total_cons; cbn [rb_id rb_amount]|];
    rewrite IH; case_bool_decide; lia.
Qed.

Lemma foldr_sum_perm {A} (f : A -> Z) l1 l2 :
  l1 ≡ₚ l2 -> foldr (fun x acc => f x + acc) 0 l1 = foldr (fun x acc => f x + acc) 0 l2.
Proof. induction 1; cbn; lia. Qed.

Lemma sheet_sum id (s : gmap SchemaRuneId Z) :
  foldr (fun e acc => (if bool_decide (e.1 = id) then Z.max 0 e.2 else 0) + acc) 0 (map_to_list s)
  = Z.max 0 (amount_of id s).
Proof.
  induction s as [|i x s Hi IH] using map_ind.
  { by rewrite map_to_list_empty. }
  rewrite (foldr_sum_perm (fun e => if bool_decide (e.1 = id) then Z.max 0 e.2 else 0) _ ((i, x) :: map_to_list s))
    by (by apply map_to_list_insert).
  cbn [foldr]. rewrite IH. unfold amount_of. cbn [fst snd]. case_bool_decide as E.
  - subst. rewrite lookup_insert_eq, Hi. cbn. lia.
  - rewrite lookup_insert_ne by done. lia.
Qed.

Lemma balances_from_sheet_total id s :
  sheet_ok s -> balances_total id (balances_from_sheet s) = amount_of id s.
Proof.
  intros Hs. unfold balances_from_sheet, sheet_entries. rewrite balances_total_omap.
  rewrite (foldr_sum_perm (fun e => if bool_decide (e.1 = id) then Z.max 0 e.2 else 0) _ (map_to_list s))
    by apply sort_by_perm.
  rewrite sheet_sum. pose proof (amount_nonneg id s Hs). lia.
Qed.

(** The sum over a list of outputs. *)
Definition outs_sum (id : SchemaRuneId) (l : list (Z * gmap SchemaRuneId Z)) : Z :=
  foldr (fun e acc => amount_of id e.2 + acc) 0 l.

Lemma outs_sum_cons id e l : outs_sum id (e :: l) = amount_of id e.2 + outs_sum id l.
Proof. done. Qed.

Lemma outs_sum_entries id o : outs_sum id (output_entries o) = outputs_total id o.
Proof.
  unfold outs_sum, output_entries.
  rewrite (foldr_sum_perm (fun e : Z * gmap SchemaRuneId Z => amount_of id e.2) _ (map_to_list o)) by apply sort_by_perm.
  unfold outputs_total. rewrite map_fold_foldr. by apply foldr_ext; [intros [] ?| |].
Qed.

(** Sheets of [u128] amounts. *)
Definition sheet_u128 (s : gmap SchemaRuneId Z) : Prop :=
  forall id x, s !! id = Some x -> 0 <= x < u128_mod.

Lemma sheet_u128_ok s : sheet_u128 s -> sheet_ok s.
Proof. intros H id x Hx. apply H in Hx. lia. Qed.

Lemma sheet_u128_amount s id : sheet_u128 s -> amount_of id s mod u128_mod = amount_of id s.
Proof.
  intros H. apply Z.mod_small. unfold amount_of. destruct (s !! id) eqn:E; cbn; [by eapply H|done].
Qed.

Lemma sheet_add_u128 s id x : sheet_u128 s -> sheet_u128 (sheet_add s id x).
Proof.
  intros H i y. unfold sheet_add. intros Hy. apply lookup_insert_Some in Hy as [[<- <-]|[_ Hi]]; [|by eapply H].
  by apply Z.mod_pos_bound.
Qed.

Lemma sheet_add_amount s id x i :
  sheet_u128 s ->
  amount_of i (sheet_add s id x) = (amount_of i s + if bool_decide (id = i) then x else 0) mod u128_mod.
Proof.
  intros H. unfold sheet_add, amount_of at 1. case_bool_decide as E.
  - subst. by rewrite lookup_insert_eq.
  - rewrite lookup_insert_ne by done. rewrite Z.add_0_r. symmetry. by apply sheet_u128_amount.
Qed.

Definition add_balances (u : gmap SchemaRuneId Z) (l : list RuneBalance) : gmap SchemaRuneId Z :=
  foldl (fun u b => sheet_add u (rb_id b) (rb_amount b)) u l.

Lemma add_balances_spec u l :
  sheet_u128 u -> sheet_u128 (add_balances u l)
  /\ forall i, amount_of i (add_balances u l) = (amount_of i u + balances_total i l) mod u128_mod.
Proof.
  revert u. induction l as [|b l IH]; intros u H.
  { split; [done|]. intros i. cbn. rewrite Z.add_0_r. symmetry. by apply sheet_u128_amount. }
  destruct (IH (sheet_add u (rb_id b) (rb_amount b))) as [H1 H2]; [by apply sheet_add_u128|].
  split; [exact H1|]. intros i. change (add_balances u (b :: l))
    with (add_balances (sheet_add u (rb_id b) (rb_amount b)) l).
  rewrite H2, sheet_add_amount, Zplus_mod_idemp_l, balances_total_cons by done. f_equal. lia.
Qed.

(** ** Typed data: what the widths of the Rust types rule out *)

Definition terms_typed (t : Terms) : Prop := forall a, te_amount t = Some a -> 0 <= a.

Definition artifact_typed (a : Artifact) : Prop :=
  match a with
  | ACenotaph _ => True
  | ARunestone r => Forall (fun e => 0 <= ed_amount e) (rs_edicts r)
  end.

(** The outputs it names are [u32]. *)
Definition targets_typed (a : Artifact) : Prop :=
  match a with
  | ACenotaph _ => True
  | ARunestone r =>
      Forall (fun e => 0 <= ed_output e) (rs_edicts r) /\ forall p, rs_pointer r = Some p -> 0 <= p
  end.

Section Conserve.
Context {btc : BitcoinCrate} {ord : OrdinalsCrate} {node : Node} {others : OtherModules}.
Context {rcodec : RuneCodec} {icodec : IconCodec}.
Context (mainnet : bool) (genesis_override : option Z) (address_index_chunk_size : Z).
Context (rd : bytes -> option bytes) (height timestamp : Z).
Hypothesis decipher_typed : forall tx a, decipher tx = Some a -> artifact_typed a.

Abbreviation any := (fun _ : BlockRunesIndexer => True).

Lemma safe_any {A} (m : M BlockRunesIndexer A) : safe any m (fun _ => True).
Proof. by intros s _. Qed.

(** The sheet holds what the inputs recorded so far carry. *)
Record spent (rest : list (Z * TxIn)) (L : TxLocals) : Prop := {
  sp_u128 : sheet_u128 (unalloc L);
  sp_total i : amount_of i (unalloc L) = io_total i (io_inputs (tx_io L)) mod u128_mod;
  sp_new : Forall (fun x => io_inputs (tx_io L) !! x.1 = None) rest;
  sp_nodup : NoDup rest.*1;
  sp_io : tx_io L = with_inputs (fun _ => io_inputs (tx_io L)) TxRuneIo_default;
}.

Lemma spent_row x rest L bs t p :
  spent (x :: rest) L ->
  spent rest (mkLocals t p (transfer_amounts L) (with_inputs (insert x.1 bs) (tx_io L))
                (add_balances (unalloc L) bs)).
Proof.
  intros [H1 H2 H3 H4 H5]. apply Forall_cons in H3 as [Hx H3]. cbn in H4. apply NoDup_cons in H4 as [Hnd H4].
  destruct (add_balances_spec (unalloc L) bs H1) as [A1 A2]. split; cbn; try done.
  - intros i. rewrite A2, io_total_insert, H2, Zplus_mod_idemp_l by done. f_equal. lia.
  - rewrite Forall_forall in *. intros y Hy. rewrite lookup_insert_ne; [by apply H3|].
    intros E. apply Hnd. rewrite E. by apply list_elem_of_fmap_2.
  - rewrite H5. done.
Qed.

Lemma spent_skip x rest L : spent (x :: rest) L -> spent rest L.
Proof.
  intros [H1 H2 H3 H4 H5]. apply Forall_cons in H3 as [Hx H3]. cbn in H4. apply NoDup_cons in H4 as [_ H4].
  by split.
Qed.

Lemma spend_input_spent x rest L :
  spent (x :: rest) L -> safe any (spend_input rd L x) (spent rest).
Proof.
  intros H. unfold spend_input. eapply safe_bind; [apply safe_any|]. intros [[row prev]|] _.
  2: { apply safe_ret. by eapply spent_skip. }
  destruct (or_address row) as [a|]; [|apply safe_ret; by apply (spent_row x)].
  do 3 (eapply safe_bind; [apply safe_any|]; intros _ _). apply safe_ret. by apply (spent_row x).
Qed.

Lemma enumerate_nodup {A} (l : list A) : NoDup (enumerate l).*1.
Proof.
  unfold enumerate. rewrite fst_zip; [apply NoDup_seqZ|]. rewrite length_seqZ. lia.
Qed.

Lemma unallocated_spent tx : safe any (unallocated rd tx) (spent []).
Proof.
  unfold unallocated. apply safe_fold_each; [intros; by apply spend_input_spent|].
  split; cbn; try done.
  - by apply Forall_true.
  - apply enumerate_nodup.
Qed.

(** ** Premine, mint, edicts *)

(** The premine a transaction's etching credits. *)
Definition credited_premine (artifact : option Artifact) : Z :=
  match artifact with
  | Some (ARunestone r) => default 0 (rs_etching r ≫= et_premine)
  | _ => 0
  end.

Definition premine_of (artifact : option Artifact) (etched_id : option SchemaRuneId) (i : SchemaRuneId) : Z :=
  if bool_decide (etched_id = Some i) then credited_premine artifact else 0.

Lemma etch_step_spec tx_index tx txid artifact un :
  sheet_u128 un ->
  safe any (etch_step rd height timestamp tx_index tx txid artifact un)
    (fun r => sheet_u128 r.2
       /\ forall i, amount_of i r.2 = (amount_of i un + premine_of artifact r.1 i) mod u128_mod).
Proof.
  intros Hu.
  assert (Hnone : sheet_u128 un /\ forall i, amount_of i un = (amount_of i un + 0) mod u128_mod).
  { split; [done|]. intros i. rewrite Z.add_0_r. symmetry. by apply sheet_u128_amount. }
  unfold etch_step. destruct artifact as [a|]; [|by apply safe_ret].
  eapply safe_bind; [apply safe_any|]. intros [[[id rune] et]|] _; [|by apply safe_ret].
  eapply safe_bind; [apply safe_any|]. intros [] _. apply safe_ret. cbn [fst snd].
  destruct a as [r|c]; cbn [credited_premine premine_of].
  - split; [by apply sheet_add_u128|]. intros i. rewrite sheet_add_amount by done. f_equal. f_equal.
    unfold premine_of. cbn. by case_bool_decide as E; case_bool_decide as E'; simplify_eq.
  - unfold premine_of. cbn. destruct Hnone as [H1 H2]. split; [done|]. intros i.
    case_bool_decide; apply H2.
Qed.

Lemma mint_step_spec tx_index artifact un :
  sheet_u128 un ->
  safe any (mint_step rd height tx_index artifact un)
    (fun r => sheet_u128 r.2
       /\ forall i, amount_of i r.2 = (amount_of i un + balances_total i r.1) mod u128_mod).
Proof.
  intros Hu.
  assert (Hnone : sheet_u128 un /\ forall i, amount_of i un = (amount_of i un + 0) mod u128_mod).
  { split; [done|]. intros i. rewrite Z.add_0_r. symmetry. by apply sheet_u128_amount. }
  unfold mint_step. destruct (artifact ≫= artifact_mint) as [id|]; [|by apply safe_ret].
  eapply safe_bind; [apply safe_any|]. intros [amount|] _; apply safe_ret; [|done]. cbn [fst snd].
  split; [by apply sheet_add_u128|]. intros i. rewrite sheet_add_amount by done.
  rewrite balances_total_cons. cbn [rb_id rb_amount].
  unfold balances_total; cbn [foldr]. f_equal. case_bool_decide; lia.
Qed.

Lemma edicts_spec scripts eid es (u : gmap SchemaRuneId Z) o :
  Forall (fun e => 0 <= ed_amount e) es ->
  sheet_ok u -> outputs_ok o -> (forall i, in_flight i u o < u128_mod) ->
  let r := foldl (fun '(u, o) e =>
    let resolved :=
      if bool_decide (ed_id e = RuneId_default) then eid else Some (from_rune_id (ed_id e)) in
    match resolved with
    | None => (u, o)
    | Some id => apply_edict is_op_return scripts u o id (ed_amount e) (ed_output e)
    end) (u, o) es in
  sheet_ok r.1 /\ outputs_ok r.2 /\ forall i, in_flight i r.1 r.2 = in_flight i u o.
Proof.
  revert u o. induction es as [|e es IH]; intros u o Hes Hu Ho Hf; [done|].
  apply Forall_cons in Hes as [He Hes]. cbn [foldl]. cbv zeta.
  destruct (if bool_decide (ed_id e = RuneId_default) then eid else _) as [id|]; [|by apply IH].
  destruct (apply_edict_spec is_op_return scripts u o id (ed_amount e) (ed_output e) Hu Ho He (Hf id))
    as (H1 & H2 & H3).
  destruct (apply_edict _ _ u o id _ _) as [u1 o1]. cbn [fst snd] in *.
  destruct (IH u1 o1 Hes H1 H2) as (A & B & C); [intros i; by rewrite H3|].
  split_all; [exact A|exact B|]. intros i. rewrite <- H3. apply C.
Qed.

Lemma allocate_tx_spec tx artifact eid un :
  (forall a, artifact = Some a -> artifact_typed a) -> sheet_u128 un ->
  let r := allocate_tx tx artifact eid un in
  sheet_ok r.1 /\ outputs_ok r.2 /\ forall i, in_flight i r.1 r.2 = amount_of i un.
Proof.
  intros Ha Hu.
  assert (H0 : outputs_ok (∅ : gmap Z (gmap SchemaRuneId Z))) by (intros v s Hs; by rewrite lookup_empty in Hs).
  assert (Hin : forall i, in_flight i un ∅ = amount_of i un).
  { intros i. unfold in_flight, outputs_total. rewrite map_fold_empty. lia. }
  assert (Hlt : forall i, in_flight i un ∅ < u128_mod).
  { intros i. rewrite Hin, <- (sheet_u128_amount un i Hu). by apply Z.mod_pos_bound. }
  pose proof (sheet_u128_ok un Hu) as Hs. unfold allocate_tx.
  destruct artifact as [[r|c]|].
  - specialize (Ha _ eq_refl). cbn in Ha.
    destruct (edicts_spec (script_pubkey <$> output tx) eid (rs_edicts r) un ∅ Ha Hs H0 Hlt) as (A & B & C).
    destruct (foldl _ (un, ∅) (rs_edicts r)) as [u1 o1]. cbn [fst snd] in *.
    destruct (route_spec is_op_return TransferRules_default (script_pubkey <$> output tx) u1 o1 (rs_pointer r) A B)
      as (D & E & F); [intros i; by rewrite C|].
    split_all; [exact D|exact E|]. intros i. rewrite F, C. apply Hin.
  - split_all; [exact Hs|exact H0|exact Hin].
  - destruct (route_spec is_op_return TransferRules_default (script_pubkey <$> output tx) un ∅ None Hs H0 Hlt)
      as (D & E & F).
    split_all; [exact D|exact E|]. intros i. rewrite F. apply Hin.
Qed.

Lemma edicts_below scripts eid es u o :
  Forall (fun e => 0 <= ed_output e) es -> vouts_below (Z.of_nat (length scripts)) o ->
  vouts_below (Z.of_nat (length scripts))
    (foldl (fun '(u, o) e =>
       let resolved :=
         if bool_decide (ed_id e = RuneId_default) then eid else Some (from_rune_id (ed_id e)) in
       match resolved with
       | None => (u, o)
       | Some id => apply_edict is_op_return scripts u o id (ed_amount e) (ed_output e)
       end) (u, o) es).2.
Proof.
  intros Hes. revert u o. induction Hes as [|e es He _ IH]; intros u o Ho; [done|]. cbn [foldl]. cbv zeta.
  destruct (if bool_decide (ed_id e = RuneId_default) then eid else _) as [id|]; [|by apply IH].
  pose proof (edict_below is_op_return scripts u o id (ed_amount e) (ed_output e) He Ho) as H.
  destruct (apply_edict _ _ u o id _ _) as [u1 o1]. by apply IH.
Qed.

(** Runes are allocated to outputs the transaction has. *)
Lemma allocate_tx_below tx artifact eid un :
  (forall a, artifact = Some a -> targets_typed a) ->
  vouts_below (Z.of_nat (length (output tx))) (allocate_tx tx artifact eid un).2.
Proof.
  intros Ha. assert (H0 : vouts_below (Z.of_nat (length (script_pubkey <$> output tx)))
    (∅ : gmap Z (gmap SchemaRuneId Z))) by (intros v [x Hx]; by rewrite lookup_empty in Hx).
  rewrite <- (length_fmap script_pubkey). unfold allocate_tx. destruct artifact as [[r|c]|].
  - destruct (Ha _ eq_refl) as [H1 H2].
    pose proof (edicts_below (script_pubkey <$> output tx) eid (rs_edicts r) un ∅ H1 H0) as H.
    destruct (foldl _ (un, ∅) (rs_edicts r)) as [u1 o1]. by apply route_below.
  - exact H0.
  - by apply route_below.
Qed.

(** ** Outputs *)

(** What is recorded so far and what the outputs still to come hold. *)
Record routed (total : SchemaRuneId -> Z) (inputs : gmap Z (list RuneBalance)) (mint : list RuneBalance)
    (eid : option SchemaRuneId) (rest : list (Z * gmap SchemaRuneId Z)) (L : TxLocals) : Prop := {
  rt_total i : io_total i (io_outputs (tx_io L)) + balances_total i (io_burned (tx_io L))
               + outs_sum i rest = total i;
  rt_ok : Forall (fun e => sheet_ok e.2) rest;
  rt_new : Forall (fun e => io_outputs (tx_io L) !! e.1 = None) rest;
  rt_nodup : NoDup rest.*1;
  rt_inputs : io_inputs (tx_io L) = inputs;
  rt_minted : io_minted (tx_io L) = mint;
  rt_etched : io_etched (tx_io L) = eid;
}.

Section Outputs.
Context (total : SchemaRuneId -> Z) (inputs : gmap Z (list RuneBalance)) (mnt : list RuneBalance).
Context (eid : option SchemaRuneId).

Lemma routed_output v sh rest L t p a :
  routed total inputs mnt eid ((v, sh) :: rest) L ->
  routed total inputs mnt eid rest
    (mkLocals t p a (with_outputs (insert v (balances_from_sheet sh)) (tx_io L)) (unalloc L)).
Proof.
  intros [H1 H2 H3 H4 H5 H6 H7]. apply Forall_cons in H2 as [Hs H2].
  apply Forall_cons in H3 as [Hx H3]. cbn in H4. apply NoDup_cons in H4 as [Hnd H4].
  cbn [fst snd] in *. split; cbn; try done.
  - intros i. rewrite io_total_insert, balances_from_sheet_total by done. rewrite <- (H1 i), outs_sum_cons. cbn [snd]. lia.
  - rewrite Forall_forall in *. intros y Hy. rewrite lookup_insert_ne; [by apply H3|].
    intros E. apply Hnd. rewrite E. by apply list_elem_of_fmap_2.
Qed.

Lemma routed_burned v sh rest L t p a :
  routed total inputs mnt eid ((v, sh) :: rest) L ->
  routed total inputs mnt eid rest
    (mkLocals t p a (with_burned_list (fun l => l ++ balances_from_sheet sh) (tx_io L)) (unalloc L)).
Proof.
  intros [H1 H2 H3 H4 H5 H6 H7]. apply Forall_cons in H2 as [Hs H2].
  apply Forall_cons in H3 as [_ H3]. cbn in H4. apply NoDup_cons in H4 as [_ H4].
  cbn [fst snd] in *. split; cbn; try done.
  intros i. rewrite balances_total_app, balances_from_sheet_total by done. rewrite <- (H1 i), outs_sum_cons. cbn [snd]. lia.
Qed.

Lemma routed_empty v rest L :
  routed total inputs mnt eid ((v, ∅) :: rest) L -> routed total inputs mnt eid rest L.
Proof.
  intros [H1 H2 H3 H4 H5 H6 H7]. apply Forall_cons in H2 as [_ H2].
  apply Forall_cons in H3 as [_ H3]. cbn in H4. apply NoDup_cons in H4 as [_ H4]. by split.
Qed.

Lemma record_output_routed tx txid e rest L :
  routed total inputs mnt eid (e :: rest) L ->
  safe any (record_output rd tx txid L e) (routed total inputs mnt eid rest).
Proof.
  destruct e as [v sh]. intros H. unfold record_output. case_bool_decide as E.
  { apply safe_ret. subst. by eapply routed_empty. }
  eapply safe_bind; [apply safe_any|]. intros out _. destruct (is_op_return _).
  { eapply safe_bind; [apply safe_any|]. intros _ _. apply safe_ret. by eapply routed_burned. }
  eapply safe_bind; [apply safe_any|]. intros _ _.
  destruct (script_to_address _) as [a|]; [|apply safe_ret; by eapply routed_output].
  do 2 (eapply safe_bind; [apply safe_any|]; intros _ _). apply safe_ret. by eapply routed_output.
Qed.

End Outputs.

Lemma output_entries_nodup o : NoDup (output_entries o).*1.
Proof.
  unfold output_entries. rewrite (sort_by_perm _ (map_to_list o)). apply NoDup_fst_map_to_list.
Qed.

Lemma output_entries_ok o : outputs_ok o -> Forall (fun e => sheet_ok e.2) (output_entries o).
Proof.
  intros H. unfold output_entries. rewrite (sort_by_perm _ (map_to_list o)). apply Forall_forall.
  intros [v s] Hs%elem_of_map_to_list. by eapply H.
Qed.

(** ** The transaction *)

(** The artifact the indexer looks at. *)
Definition tx_artifact (tx : Transaction) : option Artifact :=
  if tx_has_runestone_carrier tx then decipher tx else None.

(** The runes a recorded transaction takes in and gives out. *)
Definition inflow (tx : Transaction) (io : TxRuneIo) (i : SchemaRuneId) : Z :=
  io_total i (io_inputs io) + premine_of (tx_artifact tx) (io_etched io) i
  + balances_total i (io_minted io).

Definition outflow (io : TxRuneIo) (i : SchemaRuneId) : Z :=
  io_total i (io_outputs io) + balances_total i (io_burned io).

Definition balanced (tx : Transaction) (r : option TxRuneIo) : Prop :=
  forall io, r = Some io -> forall i, outflow io i = inflow tx io i mod u128_mod.

Lemma index_tx_balanced tx_index tx block external :
  safe any (index_tx mainnet genesis_override rd height timestamp tx_index tx block external)
    (balanced tx).
Proof.
  unfold index_tx. do 2 (eapply safe_bind; [apply safe_any|]; intros ? _).
  destruct (_ && _); [by apply safe_ret|].
  eapply safe_bind; [apply unallocated_spent|]. intros L [S1 S2 _ _ S5].
  destruct (_ && _); [by apply safe_ret|]. fold (tx_artifact tx).
  eapply safe_bind; [by apply etch_step_spec|]. intros [eid un1] [E1 E2]. cbn [fst snd] in *.
  eapply safe_bind; [by apply mint_step_spec|]. intros [mnt un2] [M1 M2]. cbn [fst snd] in *.
  destruct (allocate_tx_spec tx (tx_artifact tx) eid un2) as (A1 & A2 & A3); [|done|].
  { intros art. unfold tx_artifact. destruct (tx_has_runestone_carrier tx); [apply decipher_typed|done]. }
  destruct (allocate_tx tx (tx_artifact tx) eid un2) as [brn allocated]. cbn [fst snd] in *.
  eapply safe_bind; [apply safe_any|]. intros _ _.
  eapply safe_bind.
  { apply (safe_fold_each _ (routed (fun i => amount_of i un2) (io_inputs (tx_io L)) mnt eid));
      [intros; by apply record_output_routed|].
    split; cbn; try done.
    - intros i. rewrite S5. cbn. rewrite balances_from_sheet_total, outs_sum_entries by done.
      rewrite <- (A3 i). unfold in_flight, io_total. rewrite map_fold_empty. lia.
    - by apply output_entries_ok.
    - rewrite S5. by apply Forall_true.
    - apply output_entries_nodup. }
  intros L1 [R1 _ _ _ R5 R6 R7].
  do 3 (eapply safe_bind; [apply safe_any|]; intros ? _).
  unfold record_io. destruct (io_nonempty _); [|by apply safe_ret].
  do 2 (eapply safe_bind; [apply safe_any|]; intros ? _). apply safe_ret.
  intros io [= <-] i. unfold outflow, inflow. rewrite R5, R6, R7.
  specialize (R1 i). cbn in R1. rewrite Z.add_0_r in R1. rewrite R1, M2, E2, S2.
  rewrite Zplus_mod_idemp_l. rewrite <- Z.add_assoc, Zplus_mod_idemp_l. f_equal. lia.
Qed.

End Conserve.
