(* ===== verification/RunesJournal.v ===== *)
(** * The batch of a block can be rolled back

    [set_block_batch] journals a batch correctly when the previous values it is
    given are right and when the keys it takes for new are new ([block_ok] of
    [RunesUndoProps]).  This file shows that the batch [BlockRunesIndexer] builds
    is of that kind, on a namespace whose counters cover their rows ([ready]) and
    which has no rows of the block yet ([unindexed]). *)
From Stdlib Require Import Strings.Byte.
From stdpp Require Import strings.
From S2P Require Import Prelude Bytes StateM RunesTransfer RunesUndo RunesUndoProps RunesStore.
From S2P Require Import RunesTxIndex RunesChain RunesInscriptions RunesIndexer.

Open Scope Z_scope.

(** ** Kinds of keys *)

(** Reserved keys start with [/i] or [/u]. *)
Lemma not_reserved k b :
  k !! 1%nat = Some b -> b <> "i"%byte -> b <> "u"%byte -> ~ reserved k.
Proof.
  intros H Hi Hu [->|[->|[r ->]%starts_with_iff]]; cbn in H; congruence.
Qed.

(** A key with a given literal in front. *)
Definition literal (p k : bytes) : Prop := exists r, k = p ++ r.

Lemma literal_app p r : literal p (p ++ r).
Proof. by exists r. Qed.


Definition literal_free (p : bytes) : bool :=
  match p with
  | _ :: b :: _ => negb (Byte.eqb b "i"%byte) && negb (Byte.eqb b "u"%byte)
  | _ => false
  end.

Lemma literal_not_reserved p k : literal p k -> literal_free p = true -> ~ reserved k.
Proof.
  intros [r ->] Hp. destruct p as [|a [|b p]]; try done. cbn in Hp.
  apply andb_true_iff in Hp as [H1 H2].
  apply (not_reserved _ b); [done| |]; intros ->; done.
Qed.

(** Keys whose previous value [set_block_batch] reads by itself. *)
Definition preimage_literals : list bytes :=
  [bstr "/tx_index/chunk_count/"; bstr "/rune/by_id/"; bstr "/holder/"; bstr "/holder_count/";
   bstr "/address/"; bstr "/volume/"].

Lemma requires_literal p k :
  p ∈ preimage_literals -> literal p k -> runes_put_key_requires_preimage k = true.
Proof.
  intros Hp [r ->]. unfold preimage_literals in Hp. unfold runes_put_key_requires_preimage.
  repeat (apply elem_of_cons in Hp as [->|Hp];
          [rewrite starts_with_app; rewrite ?orb_true_r, ?orb_true_l; reflexivity|]).
  by apply elem_of_nil in Hp.
Qed.

Lemma ends_with_app a b : ends_with (a ++ b) b = true.
Proof.
  unfold ends_with. rewrite length_app. apply andb_true_iff. split; [apply Nat.leb_le; lia|].
  replace (length a + length b - length b)%nat with (length a) by lia.
  rewrite drop_app_length. by apply bool_decide_eq_true.
Qed.

Lemma requires_history_len address id :
  runes_put_key_requires_preimage (address_balance_history_list_len_key address id) = true.
Proof.
  unfold runes_put_key_requires_preimage, address_balance_history_list_key_requires_preimage.
  assert (starts_with (address_balance_history_list_len_key address id)
            (bstr "/address_balance_height_idx/") = true) as -> by (apply starts_with_iff; eexists; reflexivity).
  assert (ends_with (address_balance_history_list_len_key address id) (bstr "/len") = true) as ->.
  { unfold address_balance_history_list_len_key, address_balance_history_list_prefix.
    change (bstr "/len") with (slash ++ bstr "len").
    replace ((bstr "/address_balance_height_idx/v1/" ++ address ++ slash ++ id_key_bytes id ++ slash) ++ bstr "len")
      with ((bstr "/address_balance_height_idx/v1/" ++ address ++ slash ++ id_key_bytes id) ++ (slash ++ bstr "len"))
      by by rewrite <- !app_assoc.
    apply ends_with_app. }
  by rewrite !orb_true_r.
Qed.

Lemma requires_volume_len kind id :
  runes_put_key_requires_preimage (rune_volume_list_len_key kind id) = true.
Proof.
  unfold runes_put_key_requires_preimage, volume_index_key_requires_preimage.
  assert (starts_with (rune_volume_list_len_key kind id) (bstr "/volume_idx/") = true) as ->
    by (apply starts_with_iff; eexists; reflexivity).
  assert (ends_with (rune_volume_list_len_key kind id) (bstr "/len") = true) as ->.
  { unfold rune_volume_list_len_key. rewrite !app_assoc. apply ends_with_app. }
  by rewrite !orb_true_r.
Qed.

Lemma requires_counts :
  runes_put_key_requires_preimage seq_count_key = true
  /\ runes_put_key_requires_preimage rune_tx_pointer_count_key = true
  /\ runes_put_key_requires_preimage action_tx_pointer_count_key = true.
Proof. by vm_compute. Qed.

(** ** The namespace before the block *)

Section Journal.
Context {btc : BitcoinCrate} {ord : OrdinalsCrate} {node : Node} {others : OtherModules}.
Context {rcodec : RuneCodec} {icodec : IconCodec}.
Context (mainnet : bool) (genesis_override : option Z) (address_index_chunk_size : Z).
Context (N : gmap bytes bytes) (height timestamp : Z).

(** The reads of the indexer. *)
Context (rd : bytes -> option bytes) (Hrd : forall k, rd k = N !! k).

(** The value of a counter row. *)
Definition counter (decode : bytes -> option Z) (key : bytes) : Z := default 0 (N !! key ≫= decode).

(** The rows of a counter lie below it; [bound] is the counter's width. *)
Definition covers (decode : bytes -> option Z) (bound : Z) (count_key : bytes) (row : Z -> bytes) : Prop :=
  forall n, counter decode count_key <= n < bound -> N !! row n = None.

Record ready : Prop := {
  (** Outpoint rows are canonical and their addresses are indexed. *)
  re_rows t v raw row : N !! outpoint_key t v = Some raw -> decode_outpoint raw = Some row ->
    encode_outpoint row = raw
    /\ forall a, or_address row = Some a -> N !! address_outpoint_key a t v = Some [];
  re_seq : covers decode_u64 (2 ^ 64) seq_count_key seq_key;
  re_tx : covers decode_u64 (2 ^ 64) rune_tx_pointer_count_key rune_tx_pointer_key;
  re_action : covers decode_u64 (2 ^ 64) action_tx_pointer_count_key action_tx_pointer_key;
  re_chunks kind : covers decode_u64 (2 ^ 64) (rune_tx_chunk_counter_key kind) (rune_tx_chunk_key kind);
  re_volume kind id : covers decode_u32 (2 ^ 32) (rune_volume_list_len_key kind id) (rune_volume_list_idx_key kind id);
  re_history a id : covers decode_u32 (2 ^ 32) (address_balance_history_list_len_key a id)
                      (address_balance_history_list_idx_key a id);
  (** A rune without a row has no name rows. *)
  re_names r : N !! id_by_rune_key r = None ->
    N !! id_by_name_key (rune_to_string r) = None
    /\ forall spacers, N !! id_by_name_key (spaced_to_string r spacers) = None;
  (** The genesis rune is indexed by name when it is there. *)
  re_genesis r : N !! entry_key GENESIS_RUNE_ID = None -> rune_from_str UNCOMMON_GOODS = Some r ->
    N !! id_by_rune_key r = None;
}.

(** Nothing of a transaction is in the namespace. *)
Record new_tx (txid : Txid) : Prop := {
  nt_outpoint v : N !! outpoint_key txid v = None;
  nt_address a v : N !! address_outpoint_key a txid v = None;
  nt_io : N !! tx_io_key txid = None;
  nt_mint id ts i : N !! mint_activity_key id ts txid i = None;
  nt_activity a scope sort_by : ac_txid a = txid ->
    N !! rune_activity_index_key a scope sort_by = None
    /\ forall addr, N !! rune_address_activity_index_key a addr scope sort_by = None
                    /\ N !! rune_address_token_activity_index_key a addr scope sort_by = None;
}.

(** Nor anything of the block. *)
Record unindexed (txs : list Transaction) : Prop := {
  un_txs : Forall (fun tx => new_tx (compute_txid tx)) txs;
  un_icon i : N !! rune_icon_key (mkRuneId height i) = None;
  un_reserved i : N !! id_by_rune_key (rune_reserved height i) = None;
  un_history a id : N !! address_balance_history_key a id height = None;
  un_price : N !! uncommon_goods_avg_price_usd_by_height_key height = None;
}.

(** ** The invariant of the indexer *)

(** What a read of an outpoint gives, when its row decodes. *)
Definition row_at (o : bytes * Z) : option (option OutpointRuneBalances) :=
  match N !! outpoint_key o.1 o.2 with
  | None => Some None
  | Some raw => Some <$> decode_outpoint raw
  end.

Definition absent (o : bytes * Z) (row : OutpointRuneBalances) : Prop :=
  N !! outpoint_key o.1 o.2 = None
  /\ forall a, or_address row = Some a -> N !! address_outpoint_key a o.1 o.2 = None.

(** A counter kept in memory. *)
Definition above (decode : bytes -> option Z) (bound : Z) (key : bytes) (n : Z) : Prop :=
  counter decode key <= n < bound.

Record jinv (s : BlockRunesIndexer) : Prop := {
  ji_pre k p : preimage_values (batch s) !! k = Some p -> N !! k = p;
  ji_puts k : k ∈ (puts (batch s)).*1 ->
    ~ reserved k
    /\ (runes_put_key_requires_preimage k = true \/ is_Some (preimage_values (batch s) !! k)
        \/ N !! k = None);
  ji_dels k : k ∈ deletes (batch s) -> ~ reserved k;
  ji_cache o r : live_outpoint_cache (outpoints s) !! o = Some r -> row_at o = Some r;
  ji_ephem o r : ephem (outpoints s) !! o = Some r -> absent o r;
  ji_seq n : next_seq (runes s) = Some n -> above decode_u64 (2 ^ 64) seq_count_key n;
  ji_tx n : next_tx_pointer (txindexes s) = Some n -> above decode_u64 (2 ^ 64) rune_tx_pointer_count_key n;
  ji_action n : next_action_pointer (txindexes s) = Some n ->
    above decode_u64 (2 ^ 64) action_tx_pointer_count_key n;
  ji_chunks kind n : next_chunk_ids (txindexes s) !! kind = Some n ->
    above decode_u64 (2 ^ 64) (rune_tx_chunk_counter_key kind) n;
  ji_volume kind id n : volume_len_cache (accounts s) !! (kind, id) = Some n ->
    above decode_u32 (2 ^ 32) (rune_volume_list_len_key kind id) n;
}.

Abbreviation jsafe := (safe jinv).

Lemma indexer_new_jinv live : jinv (indexer_new live).
Proof. split; cbn; try set_solver. Qed.

(** ** Elementary steps *)

(** A key that may be put without a recorded previous value. *)
Definition putable (k : bytes) : Prop :=
  ~ reserved k /\ (runes_put_key_requires_preimage k = true \/ N !! k = None).

Lemma push_put_safe k v : putable k -> jsafe (push_put k v) (fun _ => True).
Proof.
  intros [Hr Hk]. apply safe_modify. intros s []. split; cbn; try done.
  intros x. rewrite fmap_app, elem_of_app. cbn. rewrite list_elem_of_singleton.
  intros [H| ->]; [by apply ji_puts0|]. destruct Hk; auto.
Qed.

Lemma queue_put_safe k v : putable k -> jsafe (queue_put k v) (fun _ => True).
Proof.
  intros Hk. eapply safe_bind; [|intros _ _; by apply push_put_safe].
  apply safe_modify. intros s []. split; cbn; try done. set_solver.
Qed.

Lemma queue_delete_safe k : ~ reserved k -> jsafe (queue_delete k) (fun _ => True).
Proof.
  intros Hk. apply safe_modify. intros s []. split; cbn; try done.
  intros x [->%elem_of_singleton|Hx]%elem_of_union; [done|by apply ji_dels0].
Qed.

Lemma note_preimage_safe k p : N !! k = p -> jsafe (note_preimage k p) (fun _ => True).
Proof.
  intros Hk. apply safe_modify. intros s []. split; cbn; try done.
  - intros x q. unfold or_insert. destruct (preimage_values (batch s) !! k) eqn:E; [apply ji_pre0|].
    intros [[<- <-]|[_ H]]%lookup_insert_Some; [done|by apply ji_pre0].
  - intros x Hx. destruct (ji_puts0 x Hx) as [H1 [H2|[H2|H2]]]; split; auto. right; left.
    unfold or_insert. destruct (preimage_values (batch s) !! k) eqn:E; [done|].
    destruct (decide (x = k)) as [->|Hne]; [by rewrite lookup_insert_eq|by rewrite lookup_insert_ne].
Qed.

Lemma cached_safe (look : BlockRunesIndexer -> option Z) key decode zero store (R : Z -> Prop) :
  (forall s v, jinv s -> look s = Some v -> R v) ->
  R (default zero (N !! key ≫= decode)) ->
  (forall s v, R v -> jinv s -> jinv (store v s)) ->
  jsafe (cached rd look key decode zero store) R.
Proof.
  intros H1 H2 H3. unfold cached. eapply safe_bind.
  { apply (safe_gets _ look (fun c => forall v, c = Some v -> R v)). intros s Hs v. by apply H1. }
  intros [v|] Hc; [by apply safe_ret, Hc|]. rewrite Hrd.
  eapply safe_bind; [by apply note_preimage_safe|]. intros _ _.
  eapply safe_bind; [apply safe_modify; intros s; by apply H3|]. intros _ _. by apply safe_ret.
Qed.

(** An update of the fields the invariant does not mention. *)
Ltac jmodify := apply safe_modify; intros ? []; split; cbn; try done.

(** *** Counters *)

Lemma decode_u64_range raw v : decode_u64 raw = Some v -> 0 <= v < 2 ^ 64.
Proof.
  unfold decode_u64. destruct (Nat.eqb_spec (length raw) 8) as [E|]; [|done]. intros [= <-].
  pose proof (from_le_range raw) as H. rewrite E in H. exact H.
Qed.

Lemma decode_u32_range raw v : decode_u32 raw = Some v -> 0 <= v < 2 ^ 32.
Proof.
  unfold decode_u32. destruct (Nat.eqb_spec (length raw) 4) as [E|]; [|done]. intros [= <-].
  pose proof (from_le_range raw) as H. rewrite E in H. exact H.
Qed.

Lemma above_counter64 key : above decode_u64 (2 ^ 64) key (counter decode_u64 key).
Proof.
  unfold above, counter. destruct (N !! key ≫= decode_u64) as [v|] eqn:E; cbn; [|lia].
  apply bind_Some in E as (raw & _ & E). apply decode_u64_range in E. lia.
Qed.

Lemma above_counter32 key : above decode_u32 (2 ^ 32) key (counter decode_u32 key).
Proof.
  unfold above, counter. destruct (N !! key ≫= decode_u32) as [v|] eqn:E; cbn; [|lia].
  apply bind_Some in E as (raw & _ & E). apply decode_u32_range in E. lia.
Qed.

Lemma above_next64 key n :
  above decode_u64 (2 ^ 64) key n -> above decode_u64 (2 ^ 64) key (u64_sat_add n 1).
Proof. unfold above, u64_sat_add. lia. Qed.

Lemma above_next32 key n :
  above decode_u32 (2 ^ 32) key n -> above decode_u32 (2 ^ 32) key (u32_sat_add1 n).
Proof. unfold above, u32_sat_add1. lia. Qed.

Lemma putable_required k p :
  literal p k -> literal_free p = true -> runes_put_key_requires_preimage k = true -> putable k.
Proof. intros H1 H2 H3. split; [by eapply literal_not_reserved|by left]. Qed.

Lemma putable_new k p : literal p k -> literal_free p = true -> N !! k = None -> putable k.
Proof. intros H1 H2 H3. split; [by eapply literal_not_reserved|by right]. Qed.

(** Keys whose previous value is always read may be put at any time. *)
Lemma putable_literal p k : p ∈ preimage_literals -> literal p k -> putable k.
Proof.
  intros Hp Hk. apply (putable_required _ p); [done| |by eapply requires_literal].
  unfold preimage_literals in Hp.
  repeat (apply elem_of_cons in Hp as [->|Hp]; [reflexivity|]). by apply elem_of_nil in Hp.
Qed.

(** A counter that is read and advanced. *)
Lemma next_counter_safe look key set :
  (forall s v, jinv s -> look s = Some v -> above decode_u64 (2 ^ 64) key v) ->
  (forall s v, above decode_u64 (2 ^ 64) key v -> jinv s -> jinv (set v s)) ->
  putable key -> jsafe (next_counter rd look key set) (above decode_u64 (2 ^ 64) key).
Proof.
  intros H1 H2 H3. unfold next_counter. eapply safe_bind.
  { apply (cached_safe _ _ _ _ _ (above decode_u64 (2 ^ 64) key)); [done|apply above_counter64|done]. }
  intros n Hn. eapply safe_bind; [apply safe_modify; intros s; by apply H2, above_next64|]. intros _ _.
  eapply safe_bind; [by apply push_put_safe|]. intros _ _. by apply safe_ret.
Qed.

Lemma next_sequence_safe : jsafe (next_sequence rd) (above decode_u64 (2 ^ 64) seq_count_key).
Proof.
  apply next_counter_safe; [intros s v Hs; by apply ji_seq| |].
  - intros s v Hv []. split; cbn; try done. by intros n [= <-].
  - apply (putable_required _ seq_count_key); [by exists []|done|apply requires_counts].
Qed.

Lemma next_tx_pointer_id_safe :
  jsafe (next_tx_pointer_id rd) (above decode_u64 (2 ^ 64) rune_tx_pointer_count_key).
Proof.
  apply next_counter_safe; [intros s v Hs; by apply ji_tx| |].
  - intros s v Hv []. split; cbn; try done. by intros n [= <-].
  - apply (putable_required _ rune_tx_pointer_count_key); [by exists []|done|apply requires_counts].
Qed.

Lemma next_action_pointer_id_safe :
  jsafe (next_action_pointer_id rd) (above decode_u64 (2 ^ 64) action_tx_pointer_count_key).
Proof.
  apply next_counter_safe; [intros s v Hs; by apply ji_action| |].
  - intros s v Hv []. split; cbn; try done. by intros n [= <-].
  - apply (putable_required _ action_tx_pointer_count_key); [by exists []|done|apply requires_counts].
Qed.

Lemma next_chunk_id_safe kind :
  jsafe (next_chunk_id rd kind) (above decode_u64 (2 ^ 64) (rune_tx_chunk_counter_key kind)).
Proof.
  apply cached_safe; [intros s v Hs; by apply ji_chunks|apply above_counter64|].
  intros s v Hv []. split; cbn; try done.
  intros k n [[<- <-]|[_ H]]%lookup_insert_Some; [done|by apply ji_chunks0].
Qed.

(** *** Runes *)

Lemma store_entry_safe e : jsafe (store_entry e) (fun _ => True).
Proof.
  unfold store_entry. eapply safe_bind; [jmodify|]. intros _ _.
  apply push_put_safe, (putable_literal (bstr "/rune/by_id/")); [set_solver|apply literal_app].
Qed.

Lemma load_entry_safe id :
  jsafe (load_entry rd id) (fun r => r = None -> N !! entry_key id = None).
Proof.
  unfold load_entry. eapply safe_bind.
  { by apply (safe_gets _ _ (fun _ => True)). }
  intros [e|] _; [by apply safe_ret|]. unfold get_rune. rewrite Hrd.
  destruct (N !! entry_key id) as [raw|] eqn:E.
  - eapply safe_bind; [eapply safe_bind; [by apply (safe_lift _ _ (fun _ => True))|]; intros e _;
      by apply (safe_ret _ _ (fun r => is_Some r))|].
    intros [e|] He; [|by destruct He].
    do 2 (eapply safe_bind; [jmodify|]; intros _ _). by apply safe_ret.
  - eapply safe_bind; [by apply (safe_ret _ _ (fun r => r = None))|]. intros r ->. by apply safe_ret.
Qed.

Lemma mint_safe id tx_index : jsafe (mint rd height id tx_index) (fun _ => True).
Proof.
  unfold mint. eapply safe_bind; [apply load_entry_safe|]. intros [e|] _; [|by apply safe_ret].
  destruct (mintable e height tx_index); [|by apply safe_ret].
  eapply safe_bind; [apply store_entry_safe|]. intros _ _. by apply safe_ret.
Qed.

Lemma burn_safe id amount : jsafe (burn rd id amount) (fun _ => True).
Proof.
  unfold burn. eapply safe_bind; [apply load_entry_safe|].
  intros [e|] _; [apply store_entry_safe|by apply safe_ret].
Qed.

Context (HR : ready).

Lemma index_names_safe e rune number id :
  N !! id_by_rune_key rune = None -> re_name e = rune_to_string rune ->
  (exists spacers, re_spaced_name e = spaced_to_string rune spacers) ->
  above decode_u64 (2 ^ 64) seq_count_key number ->
  jsafe (index_names e rune number id) (fun _ => True).
Proof.
  intros Hr Hn [sp Hs] Hq. destruct (re_names HR rune Hr) as [H1 H2]. unfold index_names.
  eapply safe_bind; [apply push_put_safe, (putable_new _ (bstr "/rune/")); [by eexists|done|done]|]. intros _ _.
  eapply safe_bind; [apply push_put_safe, (putable_new _ (bstr "/rune/")); [by eexists|done|by rewrite Hn]|]. intros _ _.
  eapply safe_bind; [apply push_put_safe, (putable_new _ (bstr "/rune/")); [by eexists|done|by rewrite Hs]|]. intros _ _.
  apply push_put_safe, (putable_new _ (bstr "/rune/")); [by eexists|done|by apply (re_seq HR)].
Qed.

Lemma ensure_genesis_safe txid gh :
  jsafe (ensure_genesis_rune rd timestamp txid gh) (fun _ => True).
Proof.
  unfold ensure_genesis_rune. eapply safe_bind; [apply load_entry_safe|].
  intros [e|] He; [by apply safe_ret|]. specialize (He eq_refl).
  eapply safe_bind; [by apply (safe_lift _ _ (fun r => rune_from_str UNCOMMON_GOODS = Some r))|]. intros r Hr.
  eapply safe_bind; [apply next_sequence_safe|]. intros seq Hs.
  eapply safe_bind; [apply store_entry_safe|]. intros _ _.
  eapply safe_bind; [jmodify|]. intros _ _.
  apply index_names_safe; [by eapply re_genesis|done|by eexists|done].
Qed.

Context (txs : list Transaction) (HU : unindexed txs).

Definition etching_new (tx_index : Z) (r : option (SchemaRuneId * Z * option Etching)) : Prop :=
  match r with
  | None => True
  | Some (id, rune, _) => id = mkRuneId height tx_index /\ N !! id_by_rune_key rune = None
  end.

Lemma etched_safe tx_index tx a :
  jsafe (etched rd height tx_index tx a) (etching_new tx_index).
Proof.
  unfold etched. destruct (match a with ARunestone r => _ | ACenotaph c => _ end) as [[rune|]|];
    [|apply safe_ret; split; [done|apply (un_reserved _ HU)]|by apply safe_ret].
  destruct (_ || _); [by apply safe_ret|]. eapply safe_bind.
  { unfold rune_exists. eapply safe_bind; [by apply (safe_gets _ _ (fun _ => True))|].
    intros [] _; apply (safe_ret _ _ (fun b => b = false -> N !! id_by_rune_key rune = None)); [done|].
    intros H%bool_decide_eq_false. apply eq_None_not_Some. by rewrite <- Hrd. }
  intros ex Hex. destruct ex; [by apply safe_ret|]. destruct (tx_commits_to_rune _ _ _); apply safe_ret; [|done].
  split; [done|by apply Hex].
Qed.

Lemma create_rune_entry_safe tx_index rune txid tx et a :
  N !! id_by_rune_key rune = None ->
  jsafe (create_rune_entry rd timestamp (mkRuneId height tx_index) rune txid tx et a) (fun _ => True).
Proof.
  intros Hr. unfold create_rune_entry. eapply safe_bind; [apply next_sequence_safe|]. intros n Hn.
  eapply safe_bind; [apply store_entry_safe|]. intros _ _.
  eapply safe_bind; [jmodify|]. intros _ _.
  eapply safe_bind; [apply index_names_safe; [done|by destruct a|destruct a; by eexists|done]|]. intros _ _.
  destruct (rune_icon_from_etching_tx tx); [|by apply safe_ret].
  apply push_put_safe, (putable_new _ (bstr "/rune/")); [by eexists|done|apply (un_icon _ HU)].
Qed.

Lemma etch_step_safe tx_index tx txid art un :
  jsafe (etch_step rd height timestamp tx_index tx txid art un) (fun _ => True).
Proof.
  unfold etch_step. destruct art as [a|]; [|by apply safe_ret].
  eapply safe_bind; [apply etched_safe|]. intros [[[id rune] et]|] Hr; [|by apply safe_ret].
  destruct Hr as [-> Hr]. eapply safe_bind; [by apply create_rune_entry_safe|].
  intros _ _. by apply safe_ret.
Qed.

Lemma mint_step_safe tx_index art un : jsafe (mint_step rd height tx_index art un) (fun _ => True).
Proof.
  unfold mint_step. destruct (art ≫= artifact_mint); [|by apply safe_ret].
  eapply safe_bind; [apply mint_safe|]. intros [] _; by apply safe_ret.
Qed.

(** *** Accounts *)

Lemma putable_balance a id : putable (address_balance_key a id).
Proof. apply (putable_literal (bstr "/address/")); [set_solver|eexists; symmetry; apply app_assoc]. Qed.

Lemma putable_holder id a : putable (holder_key id a).
Proof. apply (putable_literal (bstr "/holder/")); [set_solver|eexists; symmetry; apply app_assoc]. Qed.

Lemma putable_holder_count id : putable (holders_count_key id).
Proof. apply (putable_literal (bstr "/holder_count/")); [set_solver|apply literal_app]. Qed.

Lemma put_or_delete_safe (b : bool) k v :
  putable k -> jsafe (if b then queue_delete k else queue_put k v) (fun _ => True).
Proof.
  intros Hk. destruct b; [apply queue_delete_safe, Hk|by apply queue_put_safe].
Qed.

(** A cached account value; the invariant says nothing of it. *)
Lemma cached_any_safe (look : BlockRunesIndexer -> option Z) key decode zero store :
  (forall s v, jinv s -> jinv (store v s)) ->
  jsafe (cached rd look key decode zero store) (fun _ => True).
Proof. intros H. apply cached_safe; auto. Qed.

Lemma apply_address_delta_safe a id d : jsafe (apply_address_delta rd a id d) (fun _ => True).
Proof.
  unfold apply_address_delta.
  eapply safe_bind; [apply cached_any_safe; intros s v []; by split|]. intros prev _.
  do 2 (eapply safe_bind; [jmodify|]; intros _ _).
  eapply safe_bind; [apply put_or_delete_safe, putable_balance|]. intros _ _.
  eapply safe_bind; [apply cached_any_safe; intros s v []; by split|]. intros hprev _.
  eapply safe_bind; [jmodify|]. intros _ _.
  eapply safe_bind; [apply put_or_delete_safe, putable_holder|]. intros _ _.
  eapply safe_bind; [apply cached_any_safe; intros s v []; by split|]. intros count _.
  destruct (negb _); [|by apply safe_ret]. eapply safe_bind; [jmodify|]. intros _ _.
  apply queue_put_safe, putable_holder_count.
Qed.

Lemma apply_volume_delta_safe kind id a d : jsafe (apply_volume_delta rd kind id a d) (fun _ => True).
Proof.
  unfold apply_volume_delta. destruct (d =? 0); [by apply safe_ret|].
  eapply safe_bind; [by apply (safe_gets _ _ (fun _ => True))|]. intros c _.
  eapply safe_bind.
  { destruct c; [by apply (safe_ret _ _ (fun _ => True))|].
    rewrite Hrd. eapply safe_bind; [by apply note_preimage_safe|]. intros _ _.
    by apply (safe_ret _ _ (fun _ => True)). }
  intros [prev had] _. eapply safe_bind; [jmodify|]. intros _ _. eapply safe_bind.
  { apply queue_put_safe, (putable_literal (bstr "/volume/")); [set_solver|apply literal_app]. }
  intros _ _. destruct had; [by apply safe_ret|].
  eapply safe_bind.
  { apply (cached_safe _ _ _ _ _ (above decode_u32 (2 ^ 32) (rune_volume_list_len_key kind id)));
      [intros s v Hs; by apply ji_volume|apply above_counter32|].
    intros s v Hv []. split; cbn; try done.
    intros k i n [[E <-]|[_ H]]%lookup_insert_Some; [by simplify_eq|by apply ji_volume0]. }
  intros len Hlen. eapply safe_bind.
  { apply queue_put_safe, (putable_new _ (bstr "/volume_idx/")); [apply literal_app|done|].
    by apply (re_volume HR). }
  intros _ _. eapply safe_bind.
  { jmodify. intros k i n [[E <-]|[_ H]]%lookup_insert_Some; [|by apply ji_volume0].
    simplify_eq. by apply above_next32. }
  intros _ _.
  apply queue_put_safe, (putable_required _ (bstr "/volume_idx/")); [apply literal_app|done|apply requires_volume_len].
Qed.

Lemma flush_history_safe : jsafe (flush_address_balance_history rd height) (fun _ => True).
Proof.
  unfold flush_address_balance_history.
  eapply safe_bind; [by apply (safe_gets _ _ (fun _ => True))|]. intros touched _.
  eapply safe_bind; [jmodify|]. intros _ _. apply safe_for_each. intros [a id] _.
  eapply safe_bind; [by apply (safe_gets _ _ (fun _ => True))|]. intros amount _.
  eapply safe_bind.
  { apply queue_put_safe, (putable_new _ (bstr "/address_balance_height/"));
      [by eexists|done|apply (un_history _ HU)]. }
  intros _ _. rewrite Hrd. eapply safe_bind; [by apply note_preimage_safe|]. intros _ _. eapply safe_bind.
  { apply queue_put_safe, (putable_new _ (bstr "/address_balance_height_idx/")); [by eexists|done|].
    apply (re_history HR), above_counter32. }
  intros _ _. apply queue_put_safe, (putable_required _ (bstr "/address_balance_height_idx/"));
    [by eexists|done|apply requires_history_len].
Qed.

(** *** Activity and pointers *)

Lemma activity_safe a : new_tx (ac_txid a) -> jsafe (queue_rune_activity a) (fun _ => True).
Proof.
  intros Hn. unfold queue_rune_activity. apply safe_for_each. intros scope _.
  apply safe_for_each. intros sb _. destruct (nt_activity _ Hn a scope sb eq_refl) as [H1 H2].
  eapply safe_bind; [apply push_put_safe, (putable_new _ (bstr "/activity/")); [|done|done]|].
  { eexists. unfold rune_activity_index_key, rune_activity_index_key_from_prefix.
    symmetry. unfold rune_activity_index_prefix. change (bstr "/activity/v2/") with (bstr "/activity/" ++ bstr "v2/").
    rewrite <- !app_assoc. reflexivity. }
  intros _ _. destruct (ac_destination a) as [addr|]; [|by apply safe_ret].
  destruct (H2 addr) as [H3 H4].
  eapply safe_bind; [apply push_put_safe, (putable_new _ (bstr "/activity_address/")); [|done|done]|].
  { eexists. unfold rune_address_activity_index_key, rune_activity_index_key_from_prefix.
    unfold rune_address_activity_index_prefix.
    change (bstr "/activity_address/v2/") with (bstr "/activity_address/" ++ bstr "v2/").
    rewrite <- !app_assoc. reflexivity. }
  intros _ _. apply push_put_safe, (putable_new _ (bstr "/activity_address_token/")); [|done|done].
  eexists. unfold rune_address_token_activity_index_key, rune_activity_index_key_from_prefix.
  unfold rune_address_token_activity_index_prefix.
  change (bstr "/activity_address_token/v2/") with (bstr "/activity_address_token/" ++ bstr "v2/").
  rewrite <- !app_assoc. reflexivity.
Qed.

Lemma queue_tx_index_safe txid i io t : jsafe (queue_tx_index rd height txid i io t) (fun _ => True).
Proof.
  unfold queue_tx_index. eapply safe_bind; [apply next_tx_pointer_id_safe|]. intros n Hn.
  eapply safe_bind.
  { apply push_put_safe, (putable_new _ (bstr "/tx_index/pointer/")); [apply literal_app|done|by apply (re_tx HR)]. }
  intros _ _. do 2 (eapply safe_bind; [jmodify|]; intros _ _). jmodify.
Qed.

(** *** Outpoints *)

Lemma get_outpoint_safe o :
  jsafe (get_outpoint_balances rd o) (fun r => row_at o = Some r).
Proof.
  unfold get_outpoint_balances. rewrite Hrd. destruct (N !! outpoint_key o.1 o.2) as [raw|] eqn:E.
  - eapply safe_bind; [by apply (safe_lift _ _ (fun r => decode_outpoint raw = Some r))|].
    intros row Hrow. apply safe_ret. unfold row_at. by rewrite E, Hrow.
  - apply safe_ret. unfold row_at. by rewrite E.
Qed.

Lemma drop_cache_jinv o s : jinv s -> jinv (on_outpoints (upd_cache (delete o)) s).
Proof.
  intros []. split; cbn; try done. intros x r [_ Hx]%lookup_delete_Some. by apply ji_cache0.
Qed.

Lemma live_outpoint_safe f o :
  jsafe (modify (on_outpoints (upd_live f));; modify (on_outpoints (upd_cache (delete o)))) (fun _ => True).
Proof.
  eapply safe_bind; [jmodify|]. intros _ _. apply safe_modify. intros s. apply drop_cache_jinv.
Qed.

Lemma any_rune_input_safe ins : jsafe (any_rune_input rd ins) (fun _ => True).
Proof.
  induction ins as [|i ins IH]; cbn; [by apply safe_ret|].
  eapply safe_bind; [|intros [] _; [by apply safe_ret|done]]. set (o := (_, _)).
  unfold has_rune_outpoint. eapply safe_bind; [by apply (safe_gets _ _ (fun _ => True))|].
  intros [] _; [by apply (safe_ret _ _ (fun _ => True))|].
  eapply safe_bind; [by apply (safe_gets _ _ (fun _ => True))|].
  intros [] _; [by apply (safe_ret _ _ (fun _ => True))|].
  eapply safe_bind; [|intros ? _; by apply (safe_ret _ _ (fun _ => True))].
  unfold get_point_lookup_outpoint. eapply safe_bind; [by apply (safe_gets _ _ (fun _ => True))|].
  intros [row|] _; [by apply (safe_ret _ _ (fun _ => True))|].
  eapply safe_bind; [apply get_outpoint_safe|]. intros row Hrow. eapply safe_bind.
  { jmodify. intros x r [[<- <-]|[_ Hx]]%lookup_insert_Some; [done|by apply ji_cache0]. }
  intros _ _. by apply (safe_ret _ _ (fun _ => True)).
Qed.

(** The row of an input and the bytes of it are as the namespace has them. *)
Definition row_spec (o : bytes * Z) (r : option OutpointRuneBalances * option bytes) : Prop :=
  match r with
  | (None, _) => True
  | (Some row, None) => absent o row
  | (Some row, Some raw) =>
      N !! outpoint_key o.1 o.2 = Some raw
      /\ forall a, or_address row = Some a -> N !! address_outpoint_key a o.1 o.2 = Some []
  end.

Lemma row_at_spec o r : row_at o = Some r -> row_spec o (r, encode_outpoint <$> r).
Proof.
  unfold row_at. destruct (N !! outpoint_key o.1 o.2) as [raw|] eqn:E.
  - destruct (decode_outpoint raw) as [row|] eqn:D; [|done]. intros [= <-]. cbn.
    destruct (re_rows HR _ _ _ _ E D) as [-> H]. split; [exact E|exact H].
  - by intros [= <-].
Qed.

Lemma take_row_safe o : jsafe (take_row rd o) (row_spec o).
Proof.
  unfold take_row. eapply safe_bind.
  { apply (safe_gets _ _ (fun e => forall row, e = Some row -> absent o row)). intros s Hs row. by apply ji_ephem. }
  intros [row|] He.
  - eapply safe_bind; [|intros _ _; apply safe_ret; by apply He].
    jmodify. intros x r [_ Hx]%lookup_delete_Some. by apply ji_ephem0.
  - eapply safe_bind; [by apply (safe_gets _ _ (fun _ => True))|]. intros [] _.
    + eapply safe_bind; [by apply (safe_gets _ _ (fun _ => True))|]. intros [] _; [|by apply safe_ret].
      eapply safe_bind; [apply get_outpoint_safe|]. intros r Hr. apply safe_ret. by apply row_at_spec.
    + apply (safe_bind _ _ _ (fun r => row_at o = Some r)); [|intros r Hr; apply safe_ret; by apply row_at_spec].
      unfold take_point_lookup_outpoint. eapply safe_bind.
      { apply (safe_gets _ _ (fun c => forall r, c = Some r -> row_at o = Some r)). intros s Hs r. by apply ji_cache. }
      intros [r|] Hc; [|apply get_outpoint_safe].
      eapply safe_bind; [apply safe_modify; intros s; apply drop_cache_jinv|]. intros _ _. apply safe_ret. by apply Hc.
Qed.

Lemma outpoint_not_reserved t v : ~ reserved (outpoint_key t v).
Proof. apply (literal_not_reserved (bstr "/outpoint/")); [apply literal_app|done]. Qed.

Lemma address_outpoint_not_reserved a t v : ~ reserved (address_outpoint_key a t v).
Proof.
  apply (literal_not_reserved (bstr "/address_outpoint/")); [eexists; symmetry; apply app_assoc|done].
Qed.

(** The row taken away, and what the namespace has in its place. *)
Definition spent_spec (o : bytes * Z) (r : option (OutpointRuneBalances * option bytes)) : Prop :=
  forall row prev, r = Some (row, prev) ->
    N !! outpoint_key o.1 o.2 = prev
    /\ forall a, or_address row = Some a ->
         N !! address_outpoint_key a o.1 o.2 = match prev with Some _ => Some [] | None => None end.

Lemma spend_row_safe o : jsafe (spend_row rd o) (spent_spec o).
Proof.
  unfold spend_row. eapply safe_bind; [apply take_row_safe|].
  intros [[row|] prev] Hrow; [|by apply safe_ret].
  assert (Hp : spent_spec o (Some (row, prev))).
  { intros ? ? [= <- <-]. destruct prev; exact Hrow. }
  eapply safe_bind; [apply live_outpoint_safe|]. intros _ _.
  eapply safe_bind; [apply note_preimage_safe; by eapply Hp|]. intros _ _.
  eapply safe_bind; [apply queue_delete_safe, outpoint_not_reserved|]. intros _ _. by apply safe_ret.
Qed.

Lemma spend_input_safe L x : jsafe (spend_input rd L x) (fun _ => True).
Proof.
  unfold spend_input. set (o := (_, _)). eapply safe_bind; [apply spend_row_safe|].
  intros [[row prev]|] Hrow; [|by apply safe_ret]. destruct (Hrow _ _ eq_refl) as [H1 H2].
  destruct (or_address row) as [a|] eqn:Ea; [|by apply safe_ret].
  eapply safe_bind; [apply note_preimage_safe; by apply H2|]. intros _ _.
  eapply safe_bind; [apply queue_delete_safe, address_outpoint_not_reserved|]. intros _ _.
  eapply safe_bind; [|intros _ _; by apply safe_ret].
  apply safe_for_each. intros b _. apply apply_address_delta_safe.
Qed.

Lemma burned_safe b : jsafe (record_burned rd b) (fun _ => True).
Proof.
  apply safe_for_each. intros e _. destruct (e.2 =? 0); [by apply safe_ret|apply burn_safe].
Qed.

Lemma add_row_safe o row : new_tx o.1 -> jsafe (add_row o row) (fun _ => True).
Proof.
  intros Hn. unfold add_row. eapply safe_bind.
  { jmodify. intros x r [[<- <-]|[_ Hx]]%lookup_insert_Some; [|by apply ji_ephem0].
    split; [apply (nt_outpoint _ Hn)|]. intros a _. apply (nt_address _ Hn). }
  intros _ _. eapply safe_bind; [apply live_outpoint_safe|]. intros _ _.
  apply queue_put_safe. split; [apply outpoint_not_reserved|right; apply (nt_outpoint _ Hn)].
Qed.

Lemma record_output_safe tx txid L e :
  new_tx txid -> jsafe (record_output rd tx txid L e) (fun _ => True).
Proof.
  intros Hn. destruct e as [v sh]. unfold record_output. case_bool_decide; [by apply safe_ret|].
  eapply safe_bind; [by apply (safe_lift _ _ (fun _ => True))|]. intros out _.
  destruct (is_op_return _).
  { eapply safe_bind; [apply safe_for_each; intros b _; apply burn_safe|]. intros _ _. by apply safe_ret. }
  eapply safe_bind; [by apply add_row_safe|]. intros _ _. destruct (script_to_address _) as [a|]; [|by apply safe_ret].
  eapply safe_bind.
  { apply queue_put_safe. split; [apply address_outpoint_not_reserved|right; apply (nt_address _ Hn)]. }
  intros _ _. eapply safe_bind; [|intros _ _; by apply safe_ret].
  apply safe_for_each. intros b _. eapply safe_bind; [apply apply_volume_delta_safe|]. intros _ _.
  apply apply_address_delta_safe.
Qed.

Lemma record_volumes_safe L : jsafe (record_volumes rd L) (fun _ => True).
Proof.
  apply safe_for_each. intros [id amount] _. destruct (transfer_participants L !! id); [|by apply safe_ret].
  apply safe_for_each. intros a _. apply apply_volume_delta_safe.
Qed.

Lemma record_mint_safe txid i fee price b :
  new_tx txid -> jsafe (record_mint rd height timestamp txid i fee price b) (fun _ => True).
Proof.
  intros Hn. unfold record_mint. eapply safe_bind; [by apply (safe_gets _ _ (fun _ => True))|]. intros d _.
  eapply safe_bind; [apply load_entry_safe|]. intros e _.
  eapply safe_bind; [destruct (_ && _); [jmodify|by apply (safe_ret _ _ (fun _ => True))]|]. intros _ _.
  eapply safe_bind.
  { apply push_put_safe, (putable_new _ (bstr "/activity/mint/")); [eexists; symmetry; apply app_assoc|done|].
    apply (nt_mint _ Hn). }
  intros _ _. by apply activity_safe.
Qed.

Lemma record_etch_safe txid i id :
  new_tx txid -> jsafe (record_etch rd height timestamp txid i id) (fun _ => True).
Proof.
  intros Hn. unfold record_etch. eapply safe_bind; [apply load_entry_safe|].
  intros [e|] _; [|by apply safe_ret].
  eapply safe_bind; [by apply (safe_gets _ _ (fun _ => True))|]. intros d _. by apply activity_safe.
Qed.

Lemma record_io_safe txid i L :
  new_tx txid -> jsafe (record_io rd height txid i L) (fun _ => True).
Proof.
  intros Hn. unfold record_io. destruct (io_nonempty _); [|by apply safe_ret].
  eapply safe_bind; [apply push_put_safe, (putable_new _ (bstr "/tx/io/")); [apply literal_app|done|apply (nt_io _ Hn)]|].
  intros _ _. eapply safe_bind; [apply queue_tx_index_safe|]. intros _ _. by apply safe_ret.
Qed.

Lemma index_tx_safe i tx block external :
  new_tx (compute_txid tx) ->
  jsafe (index_tx mainnet genesis_override rd height timestamp i tx block external) (fun _ => True).
Proof.
  intros Hn. unfold index_tx.
  eapply safe_bind; [destruct (_ && _); [apply ensure_genesis_safe|by apply (safe_ret _ _ (fun _ => True))]|].
  intros _ _. eapply safe_bind; [apply any_rune_input_safe|]. intros hri _.
  destruct (_ && _); [by apply safe_ret|].
  eapply safe_bind.
  { apply (safe_fold_each _ (fun _ _ => True)); [|done]. intros x l acc _. apply spend_input_safe. }
  intros L _. destruct (_ && _); [by apply safe_ret|].
  eapply safe_bind; [apply etch_step_safe|]. intros [eid un1] _.
  eapply safe_bind; [apply mint_step_safe|]. intros [mnt un2] _.
  destruct (allocate_tx _ _ _ _) as [brn allocated].
  eapply safe_bind; [apply burned_safe|]. intros _ _.
  eapply safe_bind.
  { apply (safe_fold_each _ (fun _ _ => True)); [|done]. intros x l acc _. by apply record_output_safe. }
  intros L1 _. eapply safe_bind; [apply record_volumes_safe|]. intros _ _.
  eapply safe_bind; [apply safe_for_each; intros b _; by apply record_mint_safe|]. intros _ _.
  eapply safe_bind; [destruct eid; [by apply record_etch_safe|by apply (safe_ret _ _ (fun _ => True))]|].
  intros _ _. by apply record_io_safe.
Qed.

(** *** Lists of transactions *)

Lemma store_chunks_above kind next cs :
  next < 2 ^ 64 ->
  let r := store_chunks kind next cs in
  next <= r.1.2 < 2 ^ 64
  /\ Forall (fun e => exists i, e.1 = rune_tx_chunk_key kind i /\ next <= i < 2 ^ 64) r.2.
Proof.
  revert next. induction cs as [|c cs IH]; intros next H; cbn [store_chunks fst snd]; [split; [lia|constructor]|].
  destruct (IH (u64_sat_add next 1)) as [H1 H2]; [unfold u64_sat_add; lia|].
  destruct (store_chunks kind (u64_sat_add next 1) cs) as [[ids next'] ps]. cbn [fst snd] in *.
  assert (next <= u64_sat_add next 1) by (unfold u64_sat_add; lia). split; [lia|].
  constructor; [exists next; cbn; split; [done|lia]|].
  eapply Forall_impl; [exact H2|]. intros e (i & He & Hi). exists i. split; [done|lia].
Qed.

(** What an append adds to the batch: rows whose previous value is recorded, a new list row,
    and chunks that are not below the counter. *)
Record grown (kind : RuneTxIndexKind) (key : bytes) (next next' : Z) (pre pre' : Preimages)
    (ps ps' : list (bytes * bytes)) : Prop := {
  gr_next : next <= next' < 2 ^ 64;
  gr_pre k : pre' !! k = pre !! k \/ pre' !! k = Some (N !! k);
  gr_keep k : is_Some (pre !! k) -> is_Some (pre' !! k);
  gr_puts k : k ∈ ps'.*1 ->
    k ∈ ps.*1 \/ (k = key \/ exists i, k = rune_tx_chunk_key kind i) /\ is_Some (pre' !! k)
    \/ k = key /\ N !! k = None
    \/ exists i, k = rune_tx_chunk_key kind i /\ next <= i < 2 ^ 64;
}.

Lemma or_insert_is_Some pre k v x : is_Some (pre !! x) \/ x = k -> is_Some (or_insert pre k v !! x).
Proof.
  unfold or_insert. destruct (pre !! k) eqn:E; [intros [H| ->]; [done|by rewrite E]|].
  intros H. destruct (decide (x = k)) as [->|Hne]; [by rewrite lookup_insert_eq|].
  rewrite lookup_insert_ne by done. by destruct H.
Qed.

Lemma or_insert_value pre k x :
  or_insert pre k (N !! k) !! x = pre !! x \/ or_insert pre k (N !! k) !! x = Some (N !! x).
Proof.
  unfold or_insert. destruct (pre !! k) eqn:E; [by left|].
  destruct (decide (x = k)) as [->|Hne]; [right; by rewrite lookup_insert_eq|left; by rewrite lookup_insert_ne].
Qed.

Lemma fill_last_recorded kind ids len size pending :
  match (fill_last rd kind ids len size pending).2 with
  | Some (k, v, _) => v = N !! k /\ exists i, k = rune_tx_chunk_key kind i
  | None => True
  end.
Proof.
  unfold fill_last. destruct (last ids); [|done]. destruct (_ =? 0); [done|].
  destruct (_ <? _)%nat; [|done]. cbn. split; [apply Hrd|by eexists].
Qed.

Lemma append_to_grown kind key current values next pre ps :
  next < 2 ^ 64 ->
  let r := append_to address_index_chunk_size rd kind current values next pre ps in
  grown kind key next r.1.1.2 pre r.1.2 ps r.2.
Proof.
  intros Hn. unfold append_to. destruct current as [items|ids len size].
  - destruct (_ <=? _)%nat; [cbn; split; auto; lia|].
    pose proof (store_chunks_above kind next
      (chunks (Z.to_nat (Z.max address_index_chunk_size 1)) (items ++ values)) Hn) as H.
    destruct (store_chunks _ _ _) as [[ids next'] new]. cbn in *. destruct H as [H1 H2]. split; auto.
    intros k. rewrite fmap_app, elem_of_app. intros [Hk|Hk]; [by left|]. right; right; right.
    apply list_elem_of_fmap in Hk as (e & -> & He). rewrite Forall_forall in H2. by apply H2.
  - pose proof (fill_last_recorded kind ids len (Z.to_nat (Z.max size 1)) values) as HF.
    destruct (fill_last _ _ _ _ _ _) as [pending filled]. cbn [snd] in HF.
    pose proof (store_chunks_above kind next (chunks (Z.to_nat (Z.max size 1)) pending) Hn) as H.
    destruct (store_chunks _ _ _) as [[ids' next'] new]. cbn in *. destruct H as [H1 H2].
    rewrite Forall_forall in H2. destruct filled as [[[fk fv] fb]|].
    + destruct HF as [-> [j Hj]]. split; [done|apply or_insert_value|intros k Hk; apply or_insert_is_Some; auto|].
      intros k. rewrite !fmap_app, !elem_of_app. cbn. rewrite list_elem_of_singleton.
      intros [Hk|[->|Hk]]; [by left| |].
      * right; left. split; [right; by exists j|apply or_insert_is_Some; auto].
      * right; right; right. apply list_elem_of_fmap in Hk as (e & -> & He). by apply H2.
    + split; auto. intros k. rewrite !fmap_app, !elem_of_app. cbn.
      intros [Hk|[Hk|Hk]]; [by left|by apply elem_of_nil in Hk|]. right; right; right.
      apply list_elem_of_fmap in Hk as (e & -> & He). by apply H2.
Qed.

Lemma append_values_grown kind key values next pre ps n next' pre' ps' :
  next < 2 ^ 64 ->
  append_rune_tx_index_values address_index_chunk_size rd kind key values next pre ps
    = Some (n, next', pre', ps') ->
  grown kind key next next' pre pre' ps ps'.
Proof.
  intros Hn. unfold append_rune_tx_index_values. destruct values as [|v values].
  { intros [= <- <- <- <-]. split; auto. lia. }
  rewrite Hrd. set (pre1 := match N !! key with Some _ => _ | None => pre end).
  destruct (match N !! key with Some raw => decode_index_list raw | None => _ end) as [cur|]; [|done].
  cbn. pose proof (append_to_grown kind key cur (v :: values) next pre1 ps Hn) as H.
  destruct (append_to _ _ _ _ _ _ _ _) as [[[st next1] pre2] ps1]. intros [= <- <- <- <-].
  destruct H as [G1 G2 G3 G4]. cbn in *.
  assert (Hp : (forall k, pre1 !! k = pre !! k \/ pre1 !! k = Some (N !! k))
               /\ (forall k, is_Some (pre !! k) -> is_Some (pre1 !! k))
               /\ (is_Some (pre1 !! key) \/ N !! key = None)).
  { unfold pre1. destruct (N !! key) as [raw|] eqn:E; [|auto]. rewrite <- E.
    split_all; [apply or_insert_value|intros k Hk; apply or_insert_is_Some; auto|].
    left. apply or_insert_is_Some. auto. }
  destruct Hp as (P1 & P2 & P3). split; [done| |by auto|].
  - intros k. destruct (G2 k) as [->|]; [apply P1|by right].
  - intros k. rewrite fmap_app, elem_of_app. cbn. rewrite list_elem_of_singleton.
    intros [Hk| ->]; [by apply G4|]. destruct P3 as [P3|P3]; [right; left|right; right; left]; auto.
Qed.

Lemma chunk_not_reserved kind i : ~ reserved (rune_tx_chunk_key kind i).
Proof. apply (literal_not_reserved (bstr "/tx_index/chunk/")); [apply literal_app|done]. Qed.

Lemma grown_jinv kind key next next' pre' ps' s :
  ~ reserved key -> above decode_u64 (2 ^ 64) (rune_tx_chunk_counter_key kind) next ->
  grown kind key next next' (preimage_values (batch s)) pre' (puts (batch s)) ps' ->
  jinv s -> jinv (on_batch (fun b => mkBatch ps' (deletes b) pre') s).
Proof.
  intros Hr Hn [G1 G2 G3 G4] []. split; cbn; try done.
  - intros k p Hk. destruct (G2 k) as [E|E]; rewrite E in Hk; [by apply ji_pre0|by simplify_eq].
  - intros k Hk. destruct (G4 k Hk) as [H|[[H1 H2]|[[-> H]|(i & -> & Hi)]]].
    + destruct (ji_puts0 k H) as [H1 [H2|[H2|H2]]]; auto.
    + split; [destruct H1 as [->|[i ->]]; [done|apply chunk_not_reserved]|auto].
    + auto.
    + split; [apply chunk_not_reserved|]. right; right. apply (re_chunks HR). unfold above in Hn. lia.
Qed.

Lemma append_list_safe kind key values next :
  ~ reserved key -> above decode_u64 (2 ^ 64) (rune_tx_chunk_counter_key kind) next ->
  jsafe (append_list address_index_chunk_size rd kind key values next)
    (above decode_u64 (2 ^ 64) (rune_tx_chunk_counter_key kind)).
Proof.
  intros Hr Hn s Hs. unfold append_list, mbind, M_bind, gets, lift, modify, mret, M_ret.
  destruct (append_rune_tx_index_values _ _ _ _ _ _ _ _) as [[[[n next'] pre'] ps']|] eqn:E; [|done].
  apply append_values_grown in E; [|unfold above in Hn; lia]. cbn [fst snd].
  split; [by eapply grown_jinv|]. intros a [= <-]. destruct E. unfold above in *. lia.
Qed.

Lemma append_lists_safe kind lists :
  Forall (fun l => ~ reserved l.1) lists ->
  jsafe (append_lists address_index_chunk_size rd kind lists) (fun _ => True).
Proof.
  intros Hl. unfold append_lists. destruct lists as [|l0 ls]; [by apply safe_ret|].
  eapply safe_bind; [apply next_chunk_id_safe|]. intros n Hn. eapply safe_bind.
  { apply (safe_fold_each _ (fun rest next => Forall (fun l => ~ reserved l.1) rest
        /\ above decode_u64 (2 ^ 64) (rune_tx_chunk_counter_key kind) next)); [|done].
    intros x l acc [Hf Ha]. apply Forall_cons in Hf as [Hx Hf].
    eapply safe_weaken; [by apply append_list_safe|]. by intros a. }
  intros next [_ Hnext]. eapply safe_bind.
  { jmodify. intros k m [[<- <-]|[_ H]]%lookup_insert_Some; [done|by apply ji_chunks0]. }
  intros _ _. apply push_put_safe, (putable_literal (bstr "/tx_index/chunk_count/"));
    [set_solver|apply literal_app].
Qed.

Lemma address_lists_free (f : bytes -> bytes) m :
  (forall a, ~ reserved (f a)) -> Forall (fun l => ~ reserved l.1) (address_lists f m).
Proof. intros H. apply Forall_fmap, Forall_forall. intros e _. apply H. Qed.

Lemma block_list_free k ids : ~ reserved k -> Forall (fun l => ~ reserved l.1) (block_list k ids).
Proof. intros H. destruct ids; repeat constructor. done. Qed.

Lemma tx_index_free (x : bytes) : ~ reserved (bstr "/tx_index/" ++ x).
Proof. apply (literal_not_reserved (bstr "/tx_index/")); [apply literal_app|done]. Qed.

Lemma list_keys_free :
  (forall h, ~ reserved (rune_tx_block_list_key h)) /\ (forall h, ~ reserved (action_tx_block_list_key h))
  /\ (forall a, ~ reserved (rune_tx_address_list_key a)) /\ (forall a, ~ reserved (action_tx_address_list_key a)).
Proof.
  split_all; intros x; [apply (tx_index_free (bstr "block/" ++ _))|apply (tx_index_free (bstr "actions/block/" ++ _))
    |apply (tx_index_free (bstr "address/" ++ _))|apply (tx_index_free (bstr "actions/address/" ++ _))].
Qed.

Lemma collect_safe bs : jsafe (collect_alkane_action_candidates height bs) (fun _ => True).
Proof.
  unfold collect_alkane_action_candidates. destruct (_ =? 0); [by apply safe_ret|].
  eapply safe_bind; [apply safe_for_each; intros [txid i] _; jmodify|]. intros _ _.
  destruct (omap _ _) as [|b l]; [by apply safe_ret|]. apply safe_for_each. intros txid _.
  destruct (block_tx_map bs !! txid); [jmodify|by apply safe_ret].
Qed.

Lemma index_candidate_safe acc e : jsafe (index_candidate rd height acc e) (fun _ => True).
Proof.
  destruct e as [txid c]. unfold index_candidate. destruct (_ && _); [by apply safe_ret|].
  eapply safe_bind; [apply next_action_pointer_id_safe|]. intros n Hn. eapply safe_bind.
  { apply push_put_safe, (putable_new _ (bstr "/tx_index/actions/pointer/"));
      [apply literal_app|done|by apply (re_action HR)]. }
  intros _ _. eapply safe_bind; [jmodify|]. intros _ _. by apply safe_ret.
Qed.

Lemma flush_action_safe :
  jsafe (flush_action_tx_indexes address_index_chunk_size rd height) (fun _ => True).
Proof.
  destruct list_keys_free as (K1 & K2 & K3 & K4). unfold flush_action_tx_indexes.
  eapply safe_bind; [by apply (safe_gets _ _ (fun _ => True))|]. intros cs _.
  eapply safe_bind; [jmodify|]. intros _ _. eapply safe_bind.
  { apply (safe_fold_each _ (fun _ _ => True)); [|done]. intros x l acc _. apply index_candidate_safe. }
  intros ids _. eapply safe_bind; [jmodify|]. intros _ _.
  eapply safe_bind; [by apply (safe_gets _ _ (fun _ => True))|]. intros vs _.
  eapply safe_bind; [jmodify|]. intros _ _.
  eapply safe_bind; [by apply append_lists_safe, block_list_free|]. intros _ _.
  eapply safe_bind; [by apply (safe_gets _ _ (fun _ => True))|]. intros m _.
  eapply safe_bind; [jmodify|]. intros _ _. by apply append_lists_safe, address_lists_free.
Qed.

Lemma flush_tx_safe : jsafe (flush_tx_indexes address_index_chunk_size rd height) (fun _ => True).
Proof.
  destruct list_keys_free as (K1 & K2 & K3 & K4). unfold flush_tx_indexes.
  eapply safe_bind; [by apply (safe_gets _ _ (fun _ => True))|]. intros vs _.
  eapply safe_bind; [jmodify|]. intros _ _.
  eapply safe_bind; [by apply append_lists_safe, block_list_free|]. intros _ _.
  eapply safe_bind; [by apply (safe_gets _ _ (fun _ => True))|]. intros m _.
  eapply safe_bind; [jmodify|]. intros _ _. by apply append_lists_safe, address_lists_free.
Qed.

Lemma enumerate_elem {A} (l : list A) i x : (i, x) ∈ enumerate l -> x ∈ l.
Proof. intros H. apply elem_of_zip_r in H. exact H. Qed.

Lemma scan_block_safe :
  jsafe (scan_block mainnet genesis_override address_index_chunk_size rd height timestamp txs)
    (fun _ => True).
Proof.
  unfold scan_block. eapply safe_bind.
  { apply safe_for_each. intros [i tx] Hx%enumerate_elem.
    eapply safe_bind; [|intros ? _; by apply (safe_ret _ _ (fun _ => True))].
    apply index_tx_safe. destruct HU as [H _ _ _ _]. rewrite Forall_forall in H. by apply H. }
  intros _ _. eapply safe_bind; [apply collect_safe|]. intros _ _.
  eapply safe_bind; [apply flush_history_safe|]. intros _ _.
  eapply safe_bind; [apply flush_action_safe|]. intros _ _.
  eapply safe_bind; [apply flush_tx_safe|]. intros _ _.
  unfold record_block_price. eapply safe_bind; [by apply (safe_gets _ _ (fun _ => True))|]. intros p _.
  destruct (_ =? 0); [by apply safe_ret|].
  apply push_put_safe, (putable_new _ (bstr "/block_price/")); [by eexists|done|apply (un_price _ HU)].
Qed.

(** The block's batch is one the journal can undo. *)
Lemma scan_block_ok live s hash :
  scan_block mainnet genesis_override address_index_chunk_size rd height timestamp txs (indexer_new live)
    = (Some tt, s) ->
  in_u32 height -> length hash = 32%nat -> N !! undo_key height = None ->
  block_ok N (mkRBlock (final_puts (batch s)) (final_deletes (batch s)) (preimage_values (batch s)) height hash).
Proof.
  intros E Hh Hl Hu. destruct (scan_block_safe (indexer_new live) (indexer_new_jinv live)) as [HJ _].
  rewrite E in HJ. cbn in HJ. destruct HJ.
  assert (Hp : forall k, k ∈ (final_puts (batch s)).*1 -> k ∈ (puts (batch s)).*1).
  { intros k. unfold final_puts. rewrite !list_elem_of_fmap. intros (e & -> & He).
    apply list_elem_of_filter in He as [_ He]. eauto. }
  split; cbn; try done.
  - intros k p Hk _. by apply ji_pre0.
  - intros k Hk Hkn Hreq. destruct (ji_puts0 k (Hp k Hk)) as [_ [H|[H|H]]]; [congruence| |done].
    rewrite Hkn in H. by destruct H.
  - intros k. unfold touched, touched_by. cbn. rewrite elem_of_app. intros [Hk|Hk].
    + by destruct (ji_puts0 k (Hp k Hk)).
    + apply ji_dels0. unfold final_deletes in Hk. by apply elem_of_elements in Hk.
Qed.

End Journal.
