(* ===== verification/RunesFrame.v ===== *)
(** * What indexing leaves alone

    The rows of the namespace fall into families by their first segment: the
    rune entries, their names, the outpoints, the accounts, and the rest.  A predicate of the
    indexer that does not depend on the rest survives a block as soon as the
    operations on runes, outpoints and accounts keep it ([scan_frame]); and it
    survives the operations of a family it does not depend on ([runes_quiet],
    [outpoints_quiet], [accounts_quiet]).  Along the way the rune ids of all
    balances are shown to be in range.  The last part looks at the namespace with the
    batch of the block on top of it: what it will hold once the batch is written. *)
From Stdlib Require Import Strings.Byte.
From stdpp Require Import strings.
From S2P Require Import Prelude Bytes StateM RunesTransfer RunesUndo RunesUndoProps RunesStore.
From S2P Require Import RunesTxIndex RunesChain RunesInscriptions RunesIndexer RunesConserve.
From S2P Require Import RunesJournal.
From S2P Require Import Rocks RunesTxIndexProps.
Open Scope Z_scope.

(** ** Typed ids *)

Definition id_typed (id : SchemaRuneId) : Prop := 0 <= rid_block id < 2 ^ 64 /\ 0 <= rid_tx id < 2 ^ 32.

Definition row_typed (row : OutpointRuneBalances) : Prop := Forall (fun b => id_typed (rb_id b)) (or_balances row).

#[global] Instance id_typed_dec id : Decision (id_typed id).
Proof. unfold id_typed. apply _. Defined.
#[global] Instance row_typed_dec row : Decision (row_typed row).
Proof. unfold row_typed. apply _. Defined.

Definition sheet_typed (s : gmap SchemaRuneId Z) : Prop := forall id, is_Some (s !! id) -> id_typed id.

Definition typed_ref (o : bytes * Z) : Prop := length o.1 = 32%nat /\ 0 <= o.2 < 2 ^ 32.

(** ** Families of keys *)

Definition entry_literals : list bytes := [bstr "/rune/by_id/"].
Definition name_literals : list bytes :=
  [bstr "/rune/id_by_name/"; bstr "/rune/id_by_rune/"; bstr "/rune/seq/"; bstr "/rune/icon/"].
Definition outpoint_literals : list bytes := [bstr "/outpoint/"].
Definition account_literals : list bytes := [bstr "/address/"; bstr "/holder/"; bstr "/holder_count/"].
Definition quiet_literals : list bytes :=
  [bstr "/address_outpoint/"; bstr "/address_balance_height";
   bstr "/activity"; bstr "/volume"; bstr "/tx"; bstr "/block_price/"].

Definition family (L : list bytes) (k : bytes) : Prop := exists p, p ∈ L /\ literal p k.

Abbreviation quiet := (family quiet_literals).

Definition conflict (p q : bytes) : bool :=
  existsb (fun e : byte * byte => negb (Byte.eqb e.1 e.2)) (zip p q).

Lemma conflict_ne p q a b : conflict p q = true -> p ++ a <> q ++ b.
Proof.
  revert q. induction p as [|x p IH]; intros [|y q]; cbn; [done..|].
  intros H. injection 1 as -> Hpq. apply (IH q); [|done].
  destruct (Byte.eqb y y) eqn:E; [exact H|]. apply Byte.eqb_false in E. done.
Qed.

(** Families without a common prefix do not meet. *)
Definition apart_literals (L L' : list bytes) : bool := forallb (fun p => forallb (conflict p) L') L.

Lemma families_apart L L' k k' : apart_literals L L' = true -> family L k -> family L' k' -> k <> k'.
Proof.
  intros H (p & Hp & [a ->]) (q & Hq & [b ->]). apply conflict_ne.
  unfold apart_literals in H. rewrite forallb_forall in H. specialize (H p (proj1 (list_elem_of_In _ _) Hp)).
  rewrite forallb_forall in H. by apply H, list_elem_of_In.
Qed.

Lemma family_nth L n p k : L !! n = Some p -> literal p k -> family L k.
Proof. intros H Hk. exists p. split; [by eapply list_elem_of_lookup_2|done]. Qed.

Ltac family_at n :=
  eapply (family_nth _ n); [reflexivity|];
  first [by eexists | eexists; symmetry; apply app_assoc
        | eexists; symmetry; etrans; [apply app_assoc|f_equal; apply app_assoc]].

Create HintDb quiet.

Lemma quiet_entry id : family entry_literals (entry_key id).
Proof. family_at 0%nat. Qed.
Lemma quiet_name n : family name_literals (id_by_name_key n).
Proof. family_at 0%nat. Qed.
Lemma quiet_by_rune r : family name_literals (id_by_rune_key r).
Proof. family_at 1%nat. Qed.
Lemma quiet_seq n : family name_literals (seq_key n).
Proof. family_at 2%nat. Qed.
Lemma quiet_seq_count : family name_literals seq_count_key.
Proof. family_at 2%nat. Qed.
Lemma quiet_icon id : family name_literals (rune_icon_key id).
Proof. family_at 3%nat. Qed.
Lemma quiet_outpoint t v : family outpoint_literals (outpoint_key t v).
Proof. family_at 0%nat. Qed.
Lemma quiet_address_outpoint a t v : quiet (address_outpoint_key a t v).
Proof. family_at 0%nat. Qed.
Lemma quiet_history a id h : quiet (address_balance_history_key a id h).
Proof. family_at 1%nat. Qed.
Lemma quiet_history_len a id : quiet (address_balance_history_list_len_key a id).
Proof. family_at 1%nat. Qed.
Lemma quiet_history_idx a id n : quiet (address_balance_history_list_idx_key a id n).
Proof. family_at 1%nat. Qed.
Lemma quiet_mint_activity id ts t i : quiet (mint_activity_key id ts t i).
Proof. family_at 2%nat. Qed.
Lemma quiet_activity a sc sb : quiet (rune_activity_index_key a sc sb).
Proof. family_at 2%nat. Qed.
Lemma quiet_address_activity a ad sc sb : quiet (rune_address_activity_index_key a ad sc sb).
Proof. family_at 2%nat. Qed.
Lemma quiet_token_activity a ad sc sb : quiet (rune_address_token_activity_index_key a ad sc sb).
Proof. family_at 2%nat. Qed.
Lemma quiet_volume k id a : quiet (rune_volume_entry_key k id a).
Proof. family_at 3%nat. Qed.
Lemma quiet_volume_len k id : quiet (rune_volume_list_len_key k id).
Proof. family_at 3%nat. Qed.
Lemma quiet_volume_idx k id n : quiet (rune_volume_list_idx_key k id n).
Proof. family_at 3%nat. Qed.
Lemma quiet_io t : quiet (tx_io_key t).
Proof. family_at 4%nat. Qed.
Lemma quiet_pointer n : quiet (rune_tx_pointer_key n).
Proof. family_at 4%nat. Qed.
Lemma quiet_action_pointer n : quiet (action_tx_pointer_key n).
Proof. family_at 4%nat. Qed.
Lemma quiet_pointer_count : quiet rune_tx_pointer_count_key.
Proof. family_at 4%nat. Qed.
Lemma quiet_action_count : quiet action_tx_pointer_count_key.
Proof. family_at 4%nat. Qed.
Lemma quiet_chunk_counter k : quiet (rune_tx_chunk_counter_key k).
Proof. family_at 4%nat. Qed.
Lemma quiet_chunk k n : quiet (rune_tx_chunk_key k n).
Proof. family_at 4%nat. Qed.
Lemma quiet_block_list h : quiet (rune_tx_block_list_key h).
Proof. family_at 4%nat. Qed.
Lemma quiet_action_block_list h : quiet (action_tx_block_list_key h).
Proof. family_at 4%nat. Qed.
Lemma quiet_address_list a : quiet (rune_tx_address_list_key a).
Proof. family_at 4%nat. Qed.
Lemma quiet_action_address_list a : quiet (action_tx_address_list_key a).
Proof. family_at 4%nat. Qed.
Lemma quiet_price h : quiet (uncommon_goods_avg_price_usd_by_height_key h).
Proof. family_at 5%nat. Qed.

Lemma account_balance a id : family account_literals (address_balance_key a id).
Proof. family_at 0%nat. Qed.
Lemma account_holder id a : family account_literals (holder_key id a).
Proof. family_at 1%nat. Qed.
Lemma account_count id : family account_literals (holders_count_key id).
Proof. family_at 2%nat. Qed.

#[global] Hint Resolve quiet_entry quiet_name quiet_by_rune quiet_seq quiet_seq_count quiet_icon
  quiet_outpoint quiet_address_outpoint quiet_history quiet_history_len quiet_history_idx
  quiet_mint_activity quiet_activity quiet_address_activity quiet_token_activity quiet_volume
  quiet_volume_len quiet_volume_idx quiet_io quiet_pointer quiet_action_pointer quiet_pointer_count
  quiet_action_count quiet_chunk_counter quiet_chunk quiet_block_list quiet_action_block_list
  quiet_address_list quiet_action_address_list quiet_price
  account_balance account_holder account_count : quiet.

Section Frame.
Context {btc : BitcoinCrate} {ord : OrdinalsCrate} {node : Node} {others : OtherModules}.
Context {rcodec : RuneCodec} {icodec : IconCodec}.
Context (mainnet : bool) (genesis_override : option Z) (address_index_chunk_size : Z).
Context (rd : bytes -> option bytes) (height timestamp : Z).

(** What the decoders and the widths of the types guarantee. *)
Record typed_inputs (txs : list Transaction) : Prop := {
  ty_rows raw row : decode_outpoint raw = Some row -> row_typed row;
  ty_edicts tx a : decipher tx = Some a -> artifact_typed a /\ targets_typed a;
  ty_mint tx a id : decipher tx = Some a -> artifact_mint a = Some id -> id_typed (from_rune_id id);
  ty_txid tx : tx ∈ txs -> length (compute_txid tx) = 32%nat;
  ty_inputs tx i : tx ∈ txs -> i ∈ input tx ->
    typed_ref (op_txid (previous_output i), op_vout (previous_output i));
  ty_outputs tx : tx ∈ txs -> Z.of_nat (length (output tx)) <= 2 ^ 32;
  ty_height : 0 <= height < 2 ^ 64;
  ty_count : Z.of_nat (length txs) <= 2 ^ 32;
}.

(** A predicate that writes of a key do not matter to. *)
Record key_ok (I : BlockRunesIndexer -> Prop) (k : bytes) : Prop := {
  ko_put v s : I s -> I (on_batch (upd_puts (fun ps => ps ++ [(k, v)])) s);
  ko_undelete s : I s -> I (on_batch (upd_deletes (fun d => d ∖ {[k]})) s);
  ko_delete s : I s -> I (on_batch (upd_deletes (fun d => {[k]} ∪ d)) s);
}.

(** A predicate of runes, outpoints and accounts. *)
Record stable (I : BlockRunesIndexer -> Prop) : Prop := {
  st_txindexes f s : I s -> I (on_txindexes f s);
  st_price f s : I s -> I (on_price f s);
  st_volume f s : I s -> I (on_accounts (upd_volume f) s);
  st_volume_len f s : I s -> I (on_accounts (upd_volume_len f) s);
  st_history f s : I s -> I (on_accounts (upd_history_touched f) s);
  st_pre f s : I s -> I (on_batch (upd_preimages f) s);
  st_keys k : quiet k -> key_ok I k;
}.

Context (I : BlockRunesIndexer -> Prop) (HS : stable I).

(** The rows held in memory are typed. *)
Record rows_ok (s : BlockRunesIndexer) : Prop := {
  ro_cache o row : live_outpoint_cache (outpoints s) !! o = Some (Some row) -> row_typed row;
  ro_ephem o row : ephem (outpoints s) !! o = Some row -> row_typed row;
}.

Definition framed (s : BlockRunesIndexer) : Prop := I s /\ rows_ok s.

Abbreviation fsafe := (safe framed).

(** ** Elementary steps *)

Lemma f_modify f :
  (forall s, I s -> I (f s)) -> (forall s, outpoints (f s) = outpoints s) -> fsafe (modify f) (fun _ => True).
Proof.
  intros H1 H2. apply safe_modify. intros s [Hi [Hc He]]. split; [by apply H1|].
  split; rewrite H2; [exact Hc|exact He].
Qed.

Lemma f_gets {A} (f : BlockRunesIndexer -> A) : fsafe (gets f) (fun _ => True).
Proof. by apply safe_gets. Qed.

Lemma f_lift {A} (o : option A) : fsafe (lift o) (fun _ => True).
Proof. by apply safe_lift. Qed.

Lemma f_ret {A} (a : A) : fsafe (mret a) (fun _ => True).
Proof. by apply safe_ret. Qed.

Lemma f_push k v : key_ok I k -> fsafe (push_put k v) (fun _ => True).
Proof. intros Hk. apply f_modify; [|done]. intros s. by apply (ko_put I k Hk). Qed.

Lemma f_queue k v : key_ok I k -> fsafe (queue_put k v) (fun _ => True).
Proof.
  intros Hk. eapply safe_bind; [|intros _ _; by apply f_push].
  apply f_modify; [|done]. intros s. by apply (ko_undelete I k Hk).
Qed.

Lemma f_delete k : key_ok I k -> fsafe (queue_delete k) (fun _ => True).
Proof. intros Hk. apply f_modify; [|done]. intros s. by apply (ko_delete I k Hk). Qed.

Lemma f_note k v : fsafe (note_preimage k v) (fun _ => True).
Proof. apply f_modify; [|done]. intros s. by apply (st_pre I HS). Qed.

Lemma f_txindexes f : fsafe (modify (on_txindexes f)) (fun _ => True).
Proof. apply f_modify; [|done]. intros s. by apply (st_txindexes I HS). Qed.

Lemma f_price f : fsafe (modify (on_price f)) (fun _ => True).
Proof. apply f_modify; [|done]. intros s. by apply (st_price I HS). Qed.

Lemma f_volume f : fsafe (modify (on_accounts (upd_volume f))) (fun _ => True).
Proof. apply f_modify; [|done]. intros s. by apply (st_volume I HS). Qed.

Lemma f_volume_len f : fsafe (modify (on_accounts (upd_volume_len f))) (fun _ => True).
Proof. apply f_modify; [|done]. intros s. by apply (st_volume_len I HS). Qed.

Lemma f_history f : fsafe (modify (on_accounts (upd_history_touched f))) (fun _ => True).
Proof. apply f_modify; [|done]. intros s. by apply (st_history I HS). Qed.

Lemma f_cached (look : BlockRunesIndexer -> option Z) key decode zero store :
  (forall v, fsafe (modify (store v)) (fun _ => True)) ->
  fsafe (cached rd look key decode zero store) (fun _ => True).
Proof.
  intros H. unfold cached. eapply safe_bind; [apply f_gets|]. intros [v|] _; [apply f_ret|].
  eapply safe_bind; [apply f_note|]. intros _ _. eapply safe_bind; [apply H|]. intros _ _. apply f_ret.
Qed.

Lemma f_counter look key set :
  (forall v, fsafe (modify (set v)) (fun _ => True)) -> key_ok I key ->
  fsafe (next_counter rd look key set) (fun _ => True).
Proof.
  intros H Hk. unfold next_counter. eapply safe_bind; [by apply f_cached|]. intros n _.
  eapply safe_bind; [apply H|]. intros _ _. eapply safe_bind; [by apply f_push|]. intros _ _. apply f_ret.
Qed.

(** The parts of a definition, one by one.  Facts about whole operations and about families of keys
    come from the context. *)
Ltac key :=
  first [apply (st_keys I HS); solve [auto with quiet nocore]
        | match goal with H : forall k, family _ k -> key_ok _ k |- _ =>
            apply H; solve [auto with quiet nocore] end].

Ltac fstep :=
  match goal with
  | |- safe _ (mret _) _ => apply f_ret
  | |- safe _ fail _ => apply safe_fail
  | |- safe _ (push_put _ _) _ => apply f_push; key
  | |- safe _ (queue_put _ _) _ => apply f_queue; key
  | |- safe _ (queue_delete _) _ => apply f_delete; key
  | |- safe _ (note_preimage _ _) _ => apply f_note
  | |- safe _ (gets _) _ => apply f_gets
  | |- safe _ (lift _) _ => apply f_lift
  | |- safe _ (modify (on_txindexes _)) _ => apply f_txindexes
  | |- safe _ (modify (on_price _)) _ => apply f_price
  | |- safe _ (modify (on_accounts (upd_volume _))) _ => apply f_volume
  | |- safe _ (modify (on_accounts (upd_volume_len _))) _ => apply f_volume_len
  | |- safe _ (modify (on_accounts (upd_history_touched _))) _ => apply f_history
  | H : context [safe _ (modify _) _] |- safe _ (modify _) _ => apply H
  | |- safe _ (cached _ _ _ _ _ _) _ => apply f_cached; intros ?
  | |- safe _ (next_counter _ _ _ _) _ => apply f_counter; [intros ?|key]
  | |- safe _ (for_each _ _) _ => apply safe_for_each; intros ? ?
  | |- safe _ (fold_each _ _ _) _ => apply (safe_fold_each _ (fun _ _ => True)); [intros ? ? ? _|done]
  | |- safe _ (mbind _ _) _ => eapply safe_bind; [|intros ? _]
  | |- safe _ (match ?x with _ => _ end) _ => destruct x
  end.

Ltac frame := repeat first [solve [eauto with frame nocore] | fstep].

Create HintDb frame.

Lemma f_volume_delta kind id a d : fsafe (apply_volume_delta rd kind id a d) (fun _ => True).
Proof. unfold apply_volume_delta. frame. Qed.

Lemma f_flush_history : fsafe (flush_address_balance_history rd height) (fun _ => True).
Proof. unfold flush_address_balance_history. frame. Qed.

Lemma f_activity a : fsafe (queue_rune_activity a) (fun _ => True).
Proof. unfold queue_rune_activity. frame. Qed.

Lemma f_queue_tx txid i io t : fsafe (queue_tx_index rd height txid i io t) (fun _ => True).
Proof. unfold queue_tx_index, next_tx_pointer_id. frame. Qed.

#[local] Hint Resolve f_volume_delta f_flush_history f_activity f_queue_tx : frame.

Lemma f_record_volumes L : fsafe (record_volumes rd L) (fun _ => True).
Proof. unfold record_volumes. frame. Qed.

Lemma f_record_io txid i L : fsafe (record_io rd height txid i L) (fun _ => True).
Proof. unfold record_io. frame. Qed.

Lemma f_collect txs : fsafe (collect_alkane_action_candidates height txs) (fun _ => True).
Proof. unfold collect_alkane_action_candidates. frame. Qed.

Lemma f_candidate acc e : fsafe (index_candidate rd height acc e) (fun _ => True).
Proof. unfold index_candidate, next_action_pointer_id. frame. Qed.

Lemma f_block_price : fsafe (record_block_price height) (fun _ => True).
Proof. unfold record_block_price. frame. Qed.

#[local] Hint Resolve f_record_volumes f_record_io f_collect f_candidate f_block_price : frame.

(** ** Lists of transactions *)

Lemma store_chunks_quiet kind next cs : Forall (fun e => quiet e.1) (store_chunks kind next cs).2.
Proof.
  revert next. induction cs as [|c cs IH]; intros next; cbn [store_chunks]; [constructor|].
  specialize (IH (u64_sat_add next 1)). destruct (store_chunks kind _ cs) as [[ids n] ps].
  constructor; [apply quiet_chunk|done].
Qed.

Lemma append_to_quiet kind current values next pre ps :
  exists new, (append_to address_index_chunk_size rd kind current values next pre ps).2 = ps ++ new
    /\ Forall (fun e => quiet e.1) new.
Proof.
  unfold append_to. destruct current as [items|ids len size].
  - destruct (_ <=? _)%nat; [exists []; by rewrite app_nil_r|].
    pose proof (store_chunks_quiet kind next
      (chunks (Z.to_nat (Z.max address_index_chunk_size 1)) (items ++ values))) as H.
    destruct (store_chunks _ _ _) as [[ids n] new]. by exists new.
  - unfold fill_last. destruct (last ids) as [lid|]; [destruct (_ =? 0); [|destruct (_ <? _)%nat]|].
    all: match goal with |- context [store_chunks ?k ?n ?c] =>
           pose proof (store_chunks_quiet k n c) as H; destruct (store_chunks k n c) as [[ids' n'] new] end.
    all: cbn [snd] in *; eexists; split; [reflexivity|]; try exact H.
    constructor; [apply quiet_chunk|exact H].
Qed.

Lemma append_values_quiet kind key values next pre ps n next' pre' ps' :
  quiet key ->
  append_rune_tx_index_values address_index_chunk_size rd kind key values next pre ps
    = Some (n, next', pre', ps') ->
  exists new, ps' = ps ++ new /\ Forall (fun e => quiet e.1) new.
Proof.
  intros Hk. unfold append_rune_tx_index_values. destruct values as [|v values].
  { intros [= <- <- <- <-]. exists []. by rewrite app_nil_r. }
  set (pre1 := match rd key with Some _ => _ | None => pre end).
  destruct (match rd key with Some raw => decode_index_list raw | None => _ end) as [cur|]; [|done]. cbn [mbind option_bind].
  destruct (append_to_quiet kind cur (v :: values) next pre1 ps) as (new & E & Hnew).
  destruct (append_to _ _ _ _ _ _ _ _) as [[[st n1] pre2] ps1]. cbn in E. subst ps1.
  intros [= <- <- <- <-]. exists (new ++ [(key, encode_index_list st)]).
  rewrite <- app_assoc. split; [done|]. apply Forall_app. split; [done|]. by repeat constructor.
Qed.

Lemma puts_stable new s :
  Forall (fun e : bytes * bytes => quiet e.1) new -> I s -> I (on_batch (upd_puts (fun ps => ps ++ new)) s).
Proof.
  revert s. induction new as [|[k v] new IH]; intros s H Hs.
  { destruct s as [[ps ds pre] ? ? ? ? ?]. unfold on_batch, upd_puts. cbn. by rewrite app_nil_r. }
  apply Forall_cons in H as [Hk H].
  specialize (IH (on_batch (upd_puts (fun ps => ps ++ [(k, v)])) s) H).
  destruct s as [[ps ds pre] ? ? ? ? ?]. unfold on_batch, upd_puts in *. cbn in *.
  rewrite <- app_assoc in IH. apply IH.
  by apply (ko_put I k (st_keys I HS k Hk) v (mkIndexer (mkBatch ps ds pre) _ _ _ _ _)).
Qed.

Lemma f_append_list kind key values next :
  quiet key -> fsafe (append_list address_index_chunk_size rd kind key values next) (fun _ => True).
Proof.
  intros Hk s [Hi Hr]. unfold append_list, mbind, M_bind, gets, lift, modify, mret, M_ret.
  destruct (append_rune_tx_index_values _ _ _ _ _ _ _ _) as [[[[n next'] pre'] ps']|] eqn:E; [|done].
  apply append_values_quiet in E as (new & -> & Hnew); [|done]. cbn [fst snd]. split; [|done].
  split; [|destruct Hr; by split].
  apply (st_pre I HS (fun _ => pre')) in Hi. apply (puts_stable new) in Hi; [|done].
  destruct s as [[ps ds pre] ? ? ? ? ?]. exact Hi.
Qed.

Lemma f_append_lists kind lists :
  Forall (fun l => quiet l.1) lists ->
  fsafe (append_lists address_index_chunk_size rd kind lists) (fun _ => True).
Proof.
  intros Hl. unfold append_lists. destruct lists as [|l0 ls]; [apply f_ret|].
  eapply safe_bind; [unfold next_chunk_id; frame|]. intros n _. eapply safe_bind.
  { apply (safe_fold_each _ (fun rest _ => Forall (fun l => quiet l.1) rest)); [|exact Hl].
    intros x l acc [Hx Hf]%Forall_cons. eapply safe_weaken; [by apply f_append_list|]. done. }
  intros next _. frame.
Qed.

Lemma address_lists_quiet (f : bytes -> bytes) m :
  (forall a, quiet (f a)) -> Forall (fun l => quiet l.1) (address_lists f m).
Proof. intros H. apply Forall_fmap, Forall_forall. intros e _. apply H. Qed.

Lemma block_list_quiet k ids : quiet k -> Forall (fun l => quiet l.1) (block_list k ids).
Proof. intros H. destruct ids; repeat constructor. done. Qed.

#[local] Hint Resolve f_append_lists address_lists_quiet block_list_quiet quiet_block_list
  quiet_action_block_list quiet_address_list quiet_action_address_list : frame.

Lemma f_flush_action : fsafe (flush_action_tx_indexes address_index_chunk_size rd height) (fun _ => True).
Proof. unfold flush_action_tx_indexes. frame. Qed.

Lemma f_flush_tx : fsafe (flush_tx_indexes address_index_chunk_size rd height) (fun _ => True).
Proof. unfold flush_tx_indexes. frame. Qed.

#[local] Hint Resolve f_flush_action f_flush_tx : frame.

(** ** Runes *)

Section Runes.
Context (name_keys : forall k, family name_literals k -> key_ok I k).

Lemma f_index_names e r n id : fsafe (index_names e r n id) (fun _ => True).
Proof. unfold index_names. frame. Qed.

Context (entry_keys : forall k, family entry_literals k -> key_ok I k).
Context (st_runes : forall f s, I s -> I (on_runes f s)).

Lemma f_runes f : fsafe (modify (on_runes f)) (fun _ => True).
Proof. apply f_modify; [|done]. intros s. by apply st_runes. Qed.

Lemma f_load_entry id : fsafe (load_entry rd id) (fun _ => True).
Proof. pose proof f_runes. unfold load_entry, get_rune. frame. Qed.

Lemma f_store_entry e : fsafe (store_entry e) (fun _ => True).
Proof. pose proof f_runes. unfold store_entry. frame. Qed.

#[local] Hint Resolve f_load_entry f_store_entry f_index_names : frame.

Lemma f_genesis txid gh : fsafe (ensure_genesis_rune rd timestamp txid gh) (fun _ => True).
Proof. pose proof f_runes. unfold ensure_genesis_rune, next_sequence. frame. Qed.

Lemma f_create id r txid tx et a : fsafe (create_rune_entry rd timestamp id r txid tx et a) (fun _ => True).
Proof. pose proof f_runes. unfold create_rune_entry, next_sequence. frame. Qed.

Lemma f_mint id i : fsafe (mint rd height id i) (fun _ => True).
Proof. unfold mint. frame. Qed.

Lemma f_burn id amount : fsafe (burn rd id amount) (fun _ => True).
Proof. unfold burn. frame. Qed.

End Runes.
(** ** Outpoints *)

Context (txs : list Transaction) (HT : typed_inputs txs).

Definition row_opt_typed (r : option OutpointRuneBalances) : Prop :=
  forall row, r = Some row -> row_typed row.

Definition spent_typed (r : option (OutpointRuneBalances * option bytes)) : Prop :=
  forall row prev, r = Some (row, prev) -> row_typed row.

Lemma f_get_outpoint o : fsafe (get_outpoint_balances rd o) row_opt_typed.
Proof.
  unfold get_outpoint_balances. destruct (rd _) as [raw|]; [|by apply safe_ret].
  eapply safe_bind; [by apply (safe_lift _ _ (fun r => decode_outpoint raw = Some r))|].
  intros row Hrow. apply safe_ret. intros r [= <-]. by apply (ty_rows _ HT raw).
Qed.

(** What the rows in memory do under an update of the outpoints. *)
Lemma live_rows f s : rows_ok s -> rows_ok (on_outpoints (upd_live f) s).
Proof. intros []. by split. Qed.

Lemma drop_cache_rows o s : rows_ok s -> rows_ok (on_outpoints (upd_cache (delete o)) s).
Proof.
  intros [Hc He]. split; cbn; [|done]. intros x row [_ Hx]%lookup_delete_Some. by apply (Hc x).
Qed.

Lemma fill_cache_rows o r s :
  row_opt_typed r -> rows_ok s -> rows_ok (on_outpoints (upd_cache (insert o r)) s).
Proof.
  intros Hr [Hc He]. split; cbn; [|done].
  intros x row [[<- E]|[_ Hx]]%lookup_insert_Some; [by apply Hr|by apply (Hc x)].
Qed.

Lemma drop_ephem_rows o s : rows_ok s -> rows_ok (on_outpoints (upd_ephem (delete o)) s).
Proof.
  intros [Hc He]. split; cbn; [done|]. intros x row [_ Hx]%lookup_delete_Some. by apply (He x).
Qed.

Lemma add_ephem_rows o row s : row_typed row -> rows_ok s -> rows_ok (on_outpoints (upd_ephem (insert o row)) s).
Proof.
  intros Hr [Hc He]. split; cbn; [done|].
  intros x r [[<- <-]|[_ Hx]]%lookup_insert_Some; [done|by apply (He x)].
Qed.

Section Outpoints.
Context (outpoint_keys : forall k, family outpoint_literals k -> key_ok I k).
Context (st_outpoints : forall f s, I s -> I (on_outpoints f s)).

Lemma f_outpoints f :
  (forall s, rows_ok s -> rows_ok (on_outpoints f s)) -> fsafe (modify (on_outpoints f)) (fun _ => True).
Proof.
  intros H. apply safe_modify. intros s [Hi Hr]. split; [by apply st_outpoints|by apply H].
Qed.

Lemma f_upd_live f : fsafe (modify (on_outpoints (upd_live f))) (fun _ => True).
Proof. apply f_outpoints, live_rows. Qed.

Lemma f_drop_cache o : fsafe (modify (on_outpoints (upd_cache (delete o)))) (fun _ => True).
Proof. apply f_outpoints, drop_cache_rows. Qed.

#[local] Hint Resolve f_upd_live f_drop_cache : frame.

Lemma f_any_rune_input ins : fsafe (any_rune_input rd ins) (fun _ => True).
Proof.
  induction ins as [|i ins IH]; cbn [any_rune_input]; [apply f_ret|].
  eapply safe_bind; [|intros [] _; [apply f_ret|exact IH]]. unfold has_rune_outpoint, get_point_lookup_outpoint.
  eapply safe_bind; [apply f_gets|]. intros [] _; [apply f_ret|].
  eapply safe_bind; [apply f_gets|]. intros [] _; [apply f_ret|].
  eapply safe_bind; [|intros ? _; apply f_ret].
  eapply safe_bind; [frame|]. intros [row|] _; [frame|].
  eapply safe_bind; [apply f_get_outpoint|]. intros row Hrow. eapply safe_bind; [|intros ? _; frame].
  apply f_outpoints. intros s. by apply fill_cache_rows.
Qed.

Lemma f_take_row o : fsafe (take_row rd o) (fun r => row_opt_typed r.1).
Proof.
  unfold take_row. eapply safe_bind.
  { apply (safe_gets _ _ row_opt_typed). intros s [_ Hr] row. by apply (ro_ephem s Hr). }
  intros [row|] He.
  - eapply safe_bind; [|intros _ _; by apply safe_ret]. apply f_outpoints, drop_ephem_rows.
  - eapply safe_bind; [apply f_gets|]. intros [] _.
    + eapply safe_bind; [apply f_gets|]. intros [] _; [|by apply safe_ret].
      eapply safe_bind; [apply f_get_outpoint|]. intros r Hr. by apply safe_ret.
    + apply (safe_bind _ _ _ row_opt_typed); [|intros r Hr; by apply safe_ret].
      unfold take_point_lookup_outpoint. eapply safe_bind.
      { apply (safe_gets _ _ (fun c => forall r, c = Some r -> row_opt_typed r)).
        intros s [_ Hr] r Hx row ->. by apply (ro_cache s Hr o). }
      intros [r|] Hc; [|apply f_get_outpoint].
      eapply safe_bind; [apply f_drop_cache|]. intros _ _. apply safe_ret. by apply Hc.
Qed.

Lemma f_spend_row o : fsafe (spend_row rd o) spent_typed.
Proof.
  unfold spend_row. eapply safe_bind; [apply f_take_row|]. intros [[row|] prev] Hrow; [|by apply safe_ret].
  do 3 (eapply safe_bind; [unfold remove_live_outpoint; frame|]; intros _ _).
  apply safe_ret. intros ? ? [= <- _]. by apply Hrow.
Qed.

Lemma f_add_row o row : row_typed row -> fsafe (add_row o row) (fun _ => True).
Proof.
  intros Hr. unfold add_row. eapply safe_bind; [apply f_outpoints; intros s; by apply add_ephem_rows|].
  intros _ _. unfold insert_live_outpoint. frame.
Qed.

End Outpoints.

(** ** Accounts *)

Section Accounts.
Context (account_keys : forall k, family account_literals k -> key_ok I k).
Context (st_accounts : forall f s, I s -> I (on_accounts f s)).

Lemma f_delta a id d : fsafe (apply_address_delta rd a id d) (fun _ => True).
Proof.
  assert (f_accounts : forall f, fsafe (modify (on_accounts f)) (fun _ => True)).
  { intros f. apply f_modify; [|done]. intros s. by apply st_accounts. }
  unfold apply_address_delta. frame.
Qed.

End Accounts.

(** ** Inputs and outputs *)

Lemma sheet_add_typed u id x : sheet_typed u -> id_typed id -> sheet_typed (sheet_add u id x).
Proof.
  intros Hu Hid i. unfold sheet_add. destruct (decide (id = i)) as [->|Hne]; [done|].
  rewrite lookup_insert_ne by done. apply Hu.
Qed.

Lemma add_balances_typed u bs :
  sheet_typed u -> Forall (fun b => id_typed (rb_id b)) bs -> sheet_typed (add_balances u bs).
Proof.
  intros Hu H. revert u Hu. induction H as [|b bs Hb _ IH]; intros u Hu; [done|]. cbn. apply IH.
  by apply sheet_add_typed.
Qed.

(** An output that runes are allocated to. *)
Record output_typed (tx : Transaction) (e : Z * gmap SchemaRuneId Z) : Prop := {
  ot_vout : 0 <= e.1 < Z.of_nat (length (output tx));
  ot_ids : Forall (fun b => id_typed (rb_id b)) (balances_from_sheet e.2);
}.

Section InOut.
Hypothesis delta_safe : forall a id d, id_typed id -> fsafe (apply_address_delta rd a id d) (fun _ => True).
Hypothesis burn_safe : forall id amount, fsafe (burn rd id amount) (fun _ => True).

Lemma deltas_safe a bs (f : RuneBalance -> Z) :
  Forall (fun b => id_typed (rb_id b)) bs ->
  fsafe (for_each bs (fun b => apply_address_delta rd a (rb_id b) (f b))) (fun _ => True).
Proof.
  intros H. apply safe_for_each. intros b Hb. apply delta_safe. rewrite Forall_forall in H. by apply H.
Qed.

Lemma f_spend_input L x :
  fsafe (spend_row rd (op_txid (previous_output x.2), op_vout (previous_output x.2))) spent_typed ->
  sheet_typed (unalloc L) -> fsafe (spend_input rd L x) (fun L' => sheet_typed (unalloc L')).
Proof.
  intros Hsp HL. unfold spend_input. eapply safe_bind; [exact Hsp|].
  intros [[row prev]|] Hrow; [|by apply safe_ret]. specialize (Hrow _ _ eq_refl).
  pose proof (add_balances_typed (unalloc L) (or_balances row) HL Hrow) as Hs.
  destruct (or_address row) as [a|]; [|by apply safe_ret].
  do 2 (eapply safe_bind; [frame|]; intros _ _).
  eapply safe_bind; [by apply deltas_safe|]. intros _ _. by apply safe_ret.
Qed.

Lemma f_record_output tx txid L e :
  (forall row, row_typed row -> fsafe (add_row (txid, e.1) row) (fun _ => True)) ->
  output_typed tx e -> fsafe (record_output rd tx txid L e) (fun _ => True).
Proof.
  destruct e as [v sh]. intros Hadd [_ Hb]. cbn [fst snd] in *. unfold record_output.
  case_bool_decide; [apply f_ret|]. eapply safe_bind; [frame|]. intros out _.
  destruct (is_op_return _); [frame|]. eapply safe_bind; [apply Hadd; exact Hb|]. intros _ _.
  destruct (script_to_address _) as [a|]; [|apply f_ret].
  eapply safe_bind; [frame|]. intros _ _. eapply safe_bind; [|intros _ _; apply f_ret].
  apply safe_for_each. intros b Hbin. eapply safe_bind; [frame|]. intros _ _.
  apply delta_safe. rewrite Forall_forall in Hb. by apply Hb.
Qed.

End InOut.

(** ** The block *)

(** What the operations on runes, outpoints and accounts have to keep. *)
Record handlers : Prop := {
  h_genesis txid gh : fsafe (ensure_genesis_rune rd timestamp txid gh) (fun _ => True);
  h_load id : fsafe (load_entry rd id) (fun _ => True);
  h_mint id i : fsafe (mint rd height id i) (fun _ => True);
  h_burn id amount : fsafe (burn rd id amount) (fun _ => True);
  h_create i r txid tx et a : 0 <= i < 2 ^ 32 ->
    fsafe (create_rune_entry rd timestamp (mkRuneId height i) r txid tx et a) (fun _ => True);
  h_any tx : tx ∈ txs -> fsafe (any_rune_input rd (input tx)) (fun _ => True);
  h_spend tx x L : tx ∈ txs -> x.2 ∈ input tx -> sheet_typed (unalloc L) ->
    fsafe (spend_input rd L x) (fun L' => sheet_typed (unalloc L'));
  h_output tx L e : tx ∈ txs -> output_typed tx e ->
    fsafe (record_output rd tx (compute_txid tx) L e) (fun _ => True);
}.

(** The same, family by family. *)
Record runes_safe : Prop := {
  rs_genesis txid gh : fsafe (ensure_genesis_rune rd timestamp txid gh) (fun _ => True);
  rs_load id : fsafe (load_entry rd id) (fun _ => True);
  rs_mint id i : fsafe (mint rd height id i) (fun _ => True);
  rs_burn id amount : fsafe (burn rd id amount) (fun _ => True);
  rs_create i r txid tx et a : 0 <= i < 2 ^ 32 ->
    fsafe (create_rune_entry rd timestamp (mkRuneId height i) r txid tx et a) (fun _ => True);
}.

Record outpoints_safe : Prop := {
  os_any tx : tx ∈ txs -> fsafe (any_rune_input rd (input tx)) (fun _ => True);
  os_spend o : typed_ref o -> fsafe (spend_row rd o) spent_typed;
  os_add o row : typed_ref o -> row_typed row -> fsafe (add_row o row) (fun _ => True);
}.

Definition accounts_safe : Prop :=
  forall a id d, id_typed id -> fsafe (apply_address_delta rd a id d) (fun _ => True).

Lemma handlers_intro : runes_safe -> outpoints_safe -> accounts_safe -> handlers.
Proof.
  intros [] HO HA. split; try done.
  - apply (os_any HO).
  - intros tx x L Htx Hx HL. apply f_spend_input; [done| |done]. by apply (os_spend HO), (ty_inputs _ HT tx).
  - intros tx L e Htx He. apply f_record_output; [done|done| |done]. intros row. apply (os_add HO).
    split; [by apply (ty_txid _ HT)|]. pose proof (ot_vout _ _ He). pose proof (ty_outputs _ HT tx Htx). cbn. lia.
Qed.

(** Operations of a family the predicate does not depend on. *)
Lemma runes_quiet :
  (forall k, family name_literals k -> key_ok I k) -> (forall k, family entry_literals k -> key_ok I k) ->
  (forall f s, I s -> I (on_runes f s)) -> runes_safe.
Proof.
  intros H0 H1 H2. split; intros; [by apply f_genesis|by apply f_load_entry|by apply f_mint|by apply f_burn
    |by apply f_create].
Qed.

Lemma outpoints_quiet :
  (forall k, family outpoint_literals k -> key_ok I k) -> (forall f s, I s -> I (on_outpoints f s)) ->
  outpoints_safe.
Proof.
  intros H1 H2. split; intros; [by apply f_any_rune_input|by apply f_spend_row|by apply f_add_row].
Qed.

Lemma accounts_quiet :
  (forall k, family account_literals k -> key_ok I k) -> (forall f s, I s -> I (on_accounts f s)) ->
  accounts_safe.
Proof. intros H1 H2 a id d _. by apply f_delta. Qed.

Context (HH : handlers).

Lemma elem_of_enumerate {A} (l : list A) i x : (i, x) ∈ enumerate l -> 0 <= i < Z.of_nat (length l) /\ x ∈ l.
Proof.
  intros H. split; [|by apply elem_of_zip_r in H].
  apply elem_of_zip_l, elem_of_seqZ in H. lia.
Qed.

Lemma f_unallocated tx : tx ∈ txs -> fsafe (unallocated rd tx) (fun L => sheet_typed (unalloc L)).
Proof.
  intros Htx. unfold unallocated.
  apply (safe_weaken _ _ (fun L => Forall (fun x : Z * TxIn => x.2 ∈ input tx) [] /\ sheet_typed (unalloc L)));
    [|by intros L []].
  apply (safe_fold_each _ (fun rest L => Forall (fun x : Z * TxIn => x.2 ∈ input tx) rest /\ sheet_typed (unalloc L))).
  - intros x l acc [[Hx Hl]%Forall_cons Hs]. eapply safe_weaken; [by apply (h_spend HH tx)|done].
  - split; [|intros id [x Hx]; cbn in Hx; by rewrite lookup_empty in Hx].
    apply Forall_forall. intros [i x] Hx. by apply elem_of_enumerate in Hx as [_ Hx].
Qed.

Lemma f_etched i tx a :
  fsafe (etched rd height i tx a)
    (fun r => match r with Some (id, _, _) => id = mkRuneId height i | None => True end).
Proof.
  unfold etched. destruct (match a with ARunestone r => _ | ACenotaph c => _ end) as [[rune|]|];
    [|by apply safe_ret|by apply safe_ret].
  destruct (_ || _); [by apply safe_ret|]. eapply safe_bind.
  { unfold rune_exists. frame. }
  intros ex _. destruct (_ || _); by apply safe_ret.
Qed.

Lemma f_etch_step i tx txid art un :
  0 <= i < 2 ^ 32 -> sheet_typed un ->
  fsafe (etch_step rd height timestamp i tx txid art un) (fun r => sheet_typed r.2).
Proof.
  intros Hi Hu. unfold etch_step. destruct art as [a|]; [|by apply safe_ret].
  eapply safe_bind; [apply f_etched|]. intros [[[id rune] et]|] Hr; [|by apply safe_ret]. subst id.
  eapply safe_bind; [by apply (h_create HH)|]. intros _ _. apply safe_ret. destruct a; [|done].
  apply sheet_add_typed; [done|]. split; [apply (ty_height _ HT)|done].
Qed.

Lemma f_mint_step i tx art un :
  (forall a, art = Some a -> decipher tx = Some a) -> sheet_typed un ->
  fsafe (mint_step rd height i art un) (fun r => sheet_typed r.2).
Proof.
  intros Ha Hu. unfold mint_step. destruct (art ≫= artifact_mint) as [id|] eqn:E; [|by apply safe_ret].
  apply bind_Some in E as (a & -> & Hm). eapply safe_bind; [apply (h_mint HH)|].
  intros [amount|] _; apply safe_ret; [|done]. apply sheet_add_typed; [done|].
  by apply (ty_mint _ HT tx a); [apply Ha|].
Qed.

(** Only runes that were there to allocate end up in the outputs. *)
Lemma allocated_typed tx art eid un v sh :
  (forall a, art = Some a -> artifact_typed a /\ targets_typed a) -> sheet_u128 un -> sheet_typed un ->
  (allocate_tx tx art eid un).2 !! v = Some sh -> output_typed tx (v, sh).
Proof.
  intros Ha Hu Ht Hv.
  assert (Ha1 : forall a, art = Some a -> artifact_typed a) by (intros a E; by apply Ha).
  assert (Ha2 : forall a, art = Some a -> targets_typed a) by (intros a E; by apply Ha).
  split; [by apply (allocate_tx_below tx art eid un Ha2); eexists|].
  destruct (allocate_tx_spec tx art eid un Ha1 Hu) as (H1 & H2 & H3).
  apply Forall_forall. intros b Hb. apply list_elem_of_omap in Hb as ([i x] & Hix & Hb). cbn in Hb.
  destruct (Z.ltb_spec 0 x) as [Hx|]; [|done]. injection Hb as <-. cbn.
  unfold sheet_entries in Hix. rewrite (sort_by_perm _ _) in Hix. apply elem_of_map_to_list in Hix.
  cbn [snd] in Hix. apply Ht. specialize (H3 i). unfold in_flight in H3.
  pose proof (output_part_le i _ v H2) as Hle. rewrite Hv in Hle. cbn in Hle. unfold amount_of at 1 in Hle.
  rewrite Hix in Hle. cbn in Hle. pose proof (amount_nonneg i _ H1).
  destruct (un !! i) as [y|] eqn:E; [eauto|]. unfold amount_of at 2 in H3. rewrite E in H3. cbn in H3. lia.
Qed.

Lemma any_result {A} (m : M BlockRunesIndexer A) Q :
  safe (fun _ => True) m Q -> forall s a, (m s).1 = Some a -> Q a.
Proof. intros H s a. by apply H. Qed.

(** The records of the end of a transaction. *)
Lemma f_record_burned b : fsafe (record_burned rd b) (fun _ => True).
Proof. pose proof (h_burn HH). unfold record_burned. frame. Qed.

Lemma f_record_mint txid i fee price b : fsafe (record_mint rd height timestamp txid i fee price b) (fun _ => True).
Proof. pose proof (h_load HH). unfold record_mint. frame. Qed.

Lemma f_record_etch txid i id : fsafe (record_etch rd height timestamp txid i id) (fun _ => True).
Proof. pose proof (h_load HH). unfold record_etch. frame. Qed.

Lemma f_record_outputs tx L allocated :
  tx ∈ txs -> (forall v sh, allocated !! v = Some sh -> output_typed tx (v, sh)) ->
  fsafe (fold_each (record_output rd tx (compute_txid tx)) L (output_entries allocated)) (fun _ => True).
Proof.
  intros Htx Hal. apply (safe_true _ _ (fun L => Forall (output_typed tx) [])).
  apply (safe_fold_each _ (fun rest _ => Forall (output_typed tx) rest)).
  - intros e rest acc [He Hf]%Forall_cons. eapply safe_weaken; [by apply (h_output HH)|done].
  - unfold output_entries. rewrite (sort_by_perm _ _). apply Forall_forall.
    intros [v sh] Hv%elem_of_map_to_list. by apply Hal.
Qed.

#[local] Hint Resolve f_record_burned f_record_mint f_record_etch : frame.

Lemma f_index_tx i tx block external :
  0 <= i < 2 ^ 32 -> tx ∈ txs ->
  fsafe (index_tx mainnet genesis_override rd height timestamp i tx block external) (fun _ => True).
Proof.
  intros Hi Htx. unfold index_tx. eapply safe_bind.
  { destruct (_ && _); [apply (h_genesis HH)|apply f_ret]. }
  intros _ _. eapply safe_bind; [by apply (h_any HH)|]. intros hri _. destruct (_ && _); [apply f_ret|].
  fold (tx_artifact tx).
  eapply safe_bind; [apply safe_and; [by apply f_unallocated|apply any_result, unallocated_spent]|].
  intros L [HL HL']. destruct (_ && _); [apply f_ret|].
  eapply safe_bind; [apply safe_and; [by apply f_etch_step|apply any_result, etch_step_spec, HL']|].
  intros [eid un1] [E1 [E2 _]]. cbn [fst snd] in *. eapply safe_bind.
  { apply safe_and; [apply (f_mint_step i tx); [|exact E1]|apply any_result, mint_step_spec, E2].
    intros a. unfold tx_artifact. by destruct (tx_has_runestone_carrier tx). }
  intros [mnt un2] [M1 [M2 _]]. cbn [fst snd] in *.
  assert (Hart : forall art, tx_artifact tx = Some art -> artifact_typed art /\ targets_typed art).
  { intros art. unfold tx_artifact. destruct (tx_has_runestone_carrier tx); [apply (ty_edicts _ HT)|done]. }
  pose proof (fun v sh => allocated_typed tx (tx_artifact tx) eid un2 v sh Hart M2 M1) as Hal.
  destruct (allocate_tx tx (tx_artifact tx) eid un2) as [brn allocated]. cbn [snd] in Hal.
  eapply safe_bind; [frame|]. intros _ _. eapply safe_bind; [by apply f_record_outputs|].
  intros L1 _. frame.
Qed.

(** A block keeps the predicate. *)
Lemma scan_frame :
  fsafe (scan_block mainnet genesis_override address_index_chunk_size rd height timestamp txs)
    (fun _ => True).
Proof.
  unfold scan_block. eapply safe_bind.
  { apply safe_for_each. intros [i tx] [Hx Htx]%elem_of_enumerate.
    eapply safe_bind; [|intros ? _; apply f_ret]. apply f_index_tx; [|done].
    pose proof (ty_count _ HT). lia. }
  intros _ _. frame.
Qed.

End Frame.


Section Pending.
Context (N : gmap bytes bytes).

Definition pending (b : Batch) : gmap bytes bytes :=
  filter (fun e : bytes * bytes => e.1 ∉ deletes b) (apply_puts N (puts b)).

Lemma pending_lookup b k :
  pending b !! k = if decide (k ∈ deletes b) then None else apply_puts N (puts b) !! k.
Proof.
  unfold pending. case_decide as D.
  - apply map_lookup_filter_None. right. intros x _. naive_solver.
  - destruct (apply_puts N (puts b) !! k) as [x|] eqn:E.
    + by apply map_lookup_filter_Some.
    + apply map_lookup_filter_None. by left.
Qed.

Lemma apply_puts_snoc ps k v : apply_puts N (ps ++ [(k, v)]) = <[k := v]> (apply_puts N ps).
Proof. by rewrite apply_puts_app. Qed.

(** [queue_put] and [queue_delete] are a write and a removal. *)
Lemma pending_queue_put b k v :
  pending (upd_puts (fun ps => ps ++ [(k, v)]) (upd_deletes (fun d => d ∖ {[k]}) b)) = <[k := v]> (pending b).
Proof.
  apply map_eq. intros x. rewrite pending_lookup. cbn. rewrite apply_puts_snoc.
  destruct (decide (x = k)) as [->|Hne].
  - rewrite decide_False by set_solver. by rewrite !lookup_insert_eq.
  - rewrite !lookup_insert_ne by done. rewrite pending_lookup.
    destruct (decide (x ∈ deletes b)); [rewrite decide_True by set_solver|rewrite decide_False by set_solver]; done.
Qed.

Lemma pending_queue_delete b k : pending (upd_deletes (fun d => {[k]} ∪ d) b) = delete k (pending b).
Proof.
  apply map_eq. intros x. rewrite pending_lookup. cbn. destruct (decide (x = k)) as [->|Hne].
  - rewrite decide_True by set_solver. by rewrite lookup_delete_eq.
  - rewrite lookup_delete_ne by done. rewrite pending_lookup.
    destruct (decide (x ∈ deletes b)); [rewrite decide_True by set_solver|rewrite decide_False by set_solver]; done.
Qed.

(** So is a put of a key that is not deleted. *)
Lemma pending_push b k v :
  k ∉ deletes b -> pending (upd_puts (fun ps => ps ++ [(k, v)]) b) = <[k := v]> (pending b).
Proof.
  intros Hk. rewrite <- pending_queue_put. f_equal. destruct b as [ps ds pre]. unfold upd_puts, upd_deletes.
  cbn in *. f_equal. set_solver.
Qed.

(** A put alone, and a change of the deleted keys alone, only matter at their key. *)
Lemma pending_put_other b k v x :
  x <> k -> pending (upd_puts (fun ps => ps ++ [(k, v)]) b) !! x = pending b !! x.
Proof.
  intros Hne. rewrite !pending_lookup. cbn. by rewrite apply_puts_snoc, lookup_insert_ne.
Qed.

Lemma pending_undelete_other b k x :
  x <> k -> pending (upd_deletes (fun d => d ∖ {[k]}) b) !! x = pending b !! x.
Proof.
  intros Hne. rewrite !pending_lookup. cbn.
  destruct (decide (x ∈ deletes b)); [rewrite decide_True by set_solver|rewrite decide_False by set_solver]; done.
Qed.

Lemma size_apply_puts ps : (size (apply_puts N ps) <= size N + length ps)%nat.
Proof.
  induction ps as [|[k v] ps IH] using rev_ind; [cbn; lia|].
  rewrite apply_puts_snoc, length_app, map_size_insert. cbn [length].
  destruct (apply_puts N ps !! k); unfold id; lia.
Qed.

Lemma size_pending b : (size (pending b) <= size N + length (puts b))%nat.
Proof.
  etrans; [|apply size_apply_puts]. apply map_subseteq_size, map_filter_subseteq.
Qed.

Lemma pending_new live : pending (batch (indexer_new live)) = N.
Proof.
  apply map_eq. intros k. by rewrite pending_lookup, decide_False by set_solver.
Qed.

(** The writes handed to the store are the pending rows. *)
Lemma apply_ops_deletes M ds k :
  apply_ops M (BDelete <$> ds) !! k = if decide (k ∈ ds) then None else M !! k.
Proof.
  case_decide as D.
  - apply apply_ops_const.
    + intros op (x & -> & _)%list_elem_of_fmap _. done.
    + exists (BDelete k). split; [by apply list_elem_of_fmap_2|done].
  - apply apply_ops_other, Forall_fmap, Forall_forall. intros x Hx <-. done.
Qed.

Lemma apply_ops_puts M ps : apply_ops M ((fun e : kv => BPut e.1 e.2) <$> ps) = apply_puts M ps.
Proof. revert M. induction ps as [|[k v] ps IH]; intros M; [done|]. apply IH. Qed.

(** The last put of a key decides. *)
Lemma apply_puts_filter M (P : bytes -> Prop) `{!forall k, Decision (P k)} ps k :
  P k -> apply_puts M (filter (fun e : bytes * bytes => P e.1) ps) !! k = apply_puts M ps !! k.
Proof.
  intros Hk. induction ps as [|[x v] ps IH] using rev_ind; [done|].
  rewrite filter_app, !apply_puts_app. cbn [apply_puts foldl fst snd].
  rewrite filter_cons, filter_nil. cbn [fst]. case_decide as D.
  - cbn [apply_puts foldl fst snd]. destruct (decide (k = x)) as [->|Hne];
      [by rewrite !lookup_insert_eq|by rewrite !lookup_insert_ne by done].
  - cbn [foldl]. rewrite lookup_insert_ne; [done|]. by intros ->.
Qed.

Lemma written_rows b : apply_ops N (batch_calls (final_puts b) (final_deletes b)) = pending b.
Proof.
  apply map_eq. intros k. unfold batch_calls. rewrite apply_ops_app, apply_ops_puts, pending_lookup.
  unfold final_puts, final_deletes. case_decide as D.
  - rewrite apply_puts_other.
    + rewrite apply_ops_deletes, decide_True; [done|]. by apply elem_of_elements.
    + intros ([x v] & E & H)%list_elem_of_fmap. cbn in E. subst x.
      apply list_elem_of_filter in H as [H _]. done.
  - etrans; [exact (apply_puts_filter _ (fun k => k ∉ deletes b) (puts b) k D)|]. apply apply_puts_ext.
    rewrite apply_ops_deletes, decide_False; [done|]. by rewrite elem_of_elements.
Qed.

End Pending.
