(* ===== verification/RunesLive.v ===== *)
(** * The set of live outpoints

    The module keeps the outpoints that hold runes in memory.  Indexing a block
    keeps the set equal to the outpoints that have a row in the namespace. *)
From Stdlib Require Import Strings.Byte.
From stdpp Require Import strings.
From S2P Require Import Prelude Bytes StateM RunesTransfer RunesUndo RunesUndoProps RunesStore.
From S2P Require Import Rocks RunesTxIndex RunesTxIndexProps RunesChain RunesInscriptions RunesIndexer.
From S2P Require Import RunesConserve RunesJournal RunesFrame.

Open Scope Z_scope.

(** ** Keys *)

Lemma decode_outpoint_key_spec k o :
  decode_outpoint_key k = Some o <-> k = outpoint_key o.1 o.2 /\ typed_ref o.
Proof.
  unfold decode_outpoint_key, strip_prefix. split.
  - destruct (starts_with k (bstr "/outpoint/")) eqn:E; [|done]. apply starts_with_iff in E as [r ->].
    cbn [mbind option_bind]. rewrite drop_app_length. unfold decode_outpoint_tail.
    destruct (Nat.eqb_spec (length r) 36) as [Hl|]; [|done]. cbn [negb]. intros [= <-]. cbn [fst snd].
    assert (Hd : length (drop 32 r) = 4%nat) by (rewrite length_drop; lia).
    split; [|split; cbn [fst snd]].
    + unfold outpoint_key. f_equal. rewrite <- (take_drop 32 r) at 1. f_equal.
      rewrite <- (be_bytes_from_be (drop 32 r)) at 1. by rewrite Hd.
    + rewrite length_take. lia.
    + pose proof (from_be_range (drop 32 r)) as Hb. rewrite Hd in Hb. exact Hb.
  - intros [-> [H1 H2]]. destruct o as [t v]. cbn [fst snd] in *. unfold outpoint_key.
    rewrite starts_with_app. cbn [mbind option_bind]. rewrite drop_app_length. unfold decode_outpoint_tail.
    rewrite length_app, length_be_bytes, H1. cbn [Nat.add Nat.eqb negb].
    rewrite <- H1, take_app_length, drop_app_length, from_be_be_bytes, Z.mod_small; [done|exact H2].
Qed.

Lemma outpoint_key_inj o o' :
  typed_ref o -> typed_ref o' -> outpoint_key o.1 o.2 = outpoint_key o'.1 o'.2 -> o = o'.
Proof.
  intros H H' E. assert (A : decode_outpoint_key (outpoint_key o.1 o.2) = Some o) by by apply decode_outpoint_key_spec.
  assert (B : decode_outpoint_key (outpoint_key o'.1 o'.2) = Some o') by by apply decode_outpoint_key_spec.
  congruence.
Qed.

(** ** The set and the rows *)

(** The outpoints that have a row. *)
Definition live_spec (V : gmap bytes bytes) (l : gset (bytes * Z)) : Prop :=
  forall o, o ∈ l <-> typed_ref o /\ is_Some (V !! outpoint_key o.1 o.2).

(** What [get_live_outpoints] reads. *)
Definition live_of (N : gmap bytes bytes) : gset (bytes * Z) :=
  list_to_set (omap decode_outpoint_key
    (filter (fun e : kv => starts_with e.1 (bstr "/outpoint/") = true) (map_entries N)).*1).

Lemma live_of_spec N : live_spec N (live_of N).
Proof.
  intros o. unfold live_of. rewrite elem_of_list_to_set, list_elem_of_omap. split.
  - intros (k & Hk & Ho). apply decode_outpoint_key_spec in Ho as [-> Ho]. split; [done|].
    apply list_elem_of_fmap in Hk as ([k v] & -> & Hk). apply list_elem_of_filter in Hk as [_ Hk].
    apply map_entries_elem in Hk. cbn [fst]. by exists v.
  - intros [Ho [v Hv]]. exists (outpoint_key o.1 o.2). split; [|by apply decode_outpoint_key_spec].
    apply list_elem_of_fmap. exists (outpoint_key o.1 o.2, v). split; [done|].
    apply list_elem_of_filter. split; [apply starts_with_app|]. by apply map_entries_elem.
Qed.

Lemma live_spec_unique V l l' : live_spec V l -> live_spec V l' -> l = l'.
Proof. intros H H'. apply set_eq. intros o. by rewrite (H o), (H' o). Qed.

Lemma live_spec_ext V V' l :
  (forall k, family outpoint_literals k -> V' !! k = V !! k) -> live_spec V l -> live_spec V' l.
Proof. intros H Hl o. rewrite (Hl o), H; [done|apply quiet_outpoint]. Qed.

Lemma live_spec_insert V l o v :
  typed_ref o -> live_spec V l -> live_spec (<[outpoint_key o.1 o.2 := v]> V) ({[o]} ∪ l).
Proof.
  intros Ho Hl x. rewrite elem_of_union, elem_of_singleton, (Hl x), lookup_insert_is_Some. split.
  - intros [->|[Hx Hs]]; [by auto|]. split; [done|].
    destruct (decide (outpoint_key o.1 o.2 = outpoint_key x.1 x.2)); auto.
  - intros [Hx [Hk|[Hk Hs]]]; [left; symmetry; by apply outpoint_key_inj|by right].
Qed.

Lemma live_spec_delete V l o :
  typed_ref o -> live_spec V l -> live_spec (delete (outpoint_key o.1 o.2) V) (l ∖ {[o]}).
Proof.
  intros Ho Hl x. rewrite elem_of_difference, elem_of_singleton, (Hl x), lookup_delete_is_Some. split.
  - intros [[Hx Hs] Hne]. split_and!; try done. intros Hk. apply Hne. symmetry. by apply outpoint_key_inj.
  - intros [Hx [Hk Hs]]. split; [done|]. by intros ->.
Qed.

(** ** The invariant of the indexer *)

Section Live.
Context {btc : BitcoinCrate} {ord : OrdinalsCrate} {node : Node} {others : OtherModules}.
Context {rcodec : RuneCodec} {icodec : IconCodec}.
Context (mainnet : bool) (genesis_override : option Z) (address_index_chunk_size : Z).
Context (N : gmap bytes bytes) (rd : bytes -> option bytes) (height timestamp : Z).
Context (txs : list Transaction) (HT : typed_inputs height txs).

(** The set is there when it was loaded, and then lists the pending rows. *)
Context (loaded : bool).
Record linv (s : BlockRunesIndexer) : Prop := {
  li_loaded : bool_decide (is_Some (live_outpoints (outpoints s))) = loaded;
  li_rows l : live_outpoints (outpoints s) = Some l -> live_spec (pending N (batch s)) l;
}.

Lemma linv_same s s' :
  live_outpoints (outpoints s') = live_outpoints (outpoints s) ->
  (forall k, family outpoint_literals k -> pending N (batch s') !! k = pending N (batch s) !! k) ->
  linv s -> linv s'.
Proof.
  intros H1 H2 [Hm Hs]. split; [by rewrite H1|]. intros l Hl. rewrite H1 in Hl.
  eapply live_spec_ext; [exact H2|by apply Hs].
Qed.

Lemma key_ok_linv L k : apart_literals outpoint_literals L = true -> family L k -> key_ok linv k.
Proof.
  intros HL Hk. assert (Hne : forall x, family outpoint_literals x -> x <> k)
    by (intros x Hx; by eapply families_apart).
  split; intros; (eapply linv_same; [| |eassumption]); try done; cbn [batch on_batch]; intros x Hx.
  - apply pending_put_other. by apply Hne.
  - apply pending_undelete_other. by apply Hne.
  - rewrite pending_queue_delete, lookup_delete_ne; [done|]. symmetry. by apply Hne.
Qed.

Lemma stable_linv : stable linv.
Proof.
  split; intros; try (eapply linv_same; [| |eassumption]; done). by apply (key_ok_linv quiet_literals).
Qed.

Lemma stable_true : stable (fun _ => True).
Proof. by split. Qed.

(** A program keeps the invariant and the rows in memory when it keeps each. *)
Lemma framed_split {A} (m : M BlockRunesIndexer A) R :
  safe (framed (fun _ => True)) m R -> (forall s, linv s -> linv (m s).2) -> safe (framed linv) m R.
Proof.
  intros H1 H2 s [Hi Hr]. destruct (H1 s) as [[_ Hr'] HR]; [by split|]. split; [|done].
  split; [by apply H2|done].
Qed.

(** Programs that leave the set and the batch alone. *)
Definition same_as (s0 s : BlockRunesIndexer) : Prop :=
  live_outpoints (outpoints s) = live_outpoints (outpoints s0) /\ batch s = batch s0.

Lemma same_as_safe {A} (m : M BlockRunesIndexer A) s0 :
  safe (same_as s0) m (fun _ => True) -> same_as s0 (m s0).2.
Proof. intros H. by apply H. Qed.

Section Same.
Context (s0 : BlockRunesIndexer).
Abbreviation ssafe m := (safe (same_as s0) m (fun _ => True)).

Lemma same_gets {A} (f : BlockRunesIndexer -> A) : ssafe (gets f).
Proof. by apply safe_gets. Qed.

Lemma same_cache f : ssafe (modify (on_outpoints (upd_cache f))).
Proof. by apply safe_modify. Qed.

Lemma same_ephem f : ssafe (modify (on_outpoints (upd_ephem f))).
Proof. by apply safe_modify. Qed.

Lemma same_get_outpoint o : ssafe (get_outpoint_balances rd o).
Proof.
  unfold get_outpoint_balances. destruct (rd _); [|by apply safe_ret].
  eapply safe_bind; [by apply (safe_lift _ _ (fun _ => True))|]. intros. by apply safe_ret.
Qed.

Ltac same :=
  repeat first
    [ apply same_gets | apply same_cache | apply same_ephem | apply same_get_outpoint
    | by apply safe_ret | eapply safe_bind; [|intros ? _]
    | match goal with |- safe _ (match ?x with _ => _ end) _ => destruct x end ].

Lemma same_take_row o : ssafe (take_row rd o).
Proof. unfold take_row, take_point_lookup_outpoint. same. Qed.

Lemma same_any ins : ssafe (any_rune_input rd ins).
Proof.
  induction ins as [|i ins IH]; cbn [any_rune_input]; [by apply safe_ret|].
  eapply safe_bind; [|intros [] _; [by apply safe_ret|exact IH]].
  unfold has_rune_outpoint, get_point_lookup_outpoint. same.
Qed.

End Same.

Lemma any_linv ins s : linv s -> linv (any_rune_input rd ins s).2.
Proof.
  intros Hs. destruct (same_as_safe _ s (same_any s ins)) as [H1 H2].
  eapply linv_same; [exact H1|by rewrite H2|done].
Qed.

Lemma loaded_fmap {A B} (f : A -> B) x : bool_decide (is_Some (f <$> x)) = bool_decide (is_Some x).
Proof. by destruct x. Qed.

Lemma spend_row_linv o s : typed_ref o -> linv s -> linv (spend_row rd o s).2.
Proof.
  intros Ho Hs. destruct (same_as_safe _ s (same_take_row s o)) as [H1 H2].
  unfold spend_row, mbind, M_bind. destruct (take_row rd o s) as [[[[row|] prev]|] s1]; cbn [snd] in H1, H2.
  - split; [destruct Hs as [<- _]; rewrite <- H1; apply loaded_fmap|].
    intros l Hl. change (live_spec (pending N (upd_deletes (fun d => {[outpoint_key o.1 o.2]} ∪ d)
      (upd_preimages (fun p => or_insert p (outpoint_key o.1 o.2) prev) (batch s1)))) l).
    rewrite pending_queue_delete. change (pending N (upd_preimages _ (batch s1))) with (pending N (batch s1)).
    rewrite H2. change ((fun l => l ∖ {[o]}) <$> live_outpoints (outpoints s1) = Some l) in Hl.
    rewrite H1 in Hl. destruct (live_outpoints (outpoints s)) as [l0|] eqn:E; [|done].
    injection Hl as <-. apply live_spec_delete; [done|]. by apply Hs.
  - eapply linv_same; [exact H1|by rewrite <- H2|done].
  - eapply linv_same; [exact H1|by rewrite <- H2|done].
Qed.

Lemma add_row_linv o row s : typed_ref o -> linv s -> linv (add_row o row s).2.
Proof.
  intros Ho Hs. split; [destruct Hs as [<- _]; apply loaded_fmap|].
  intros l Hl. change (live_spec (pending N (upd_puts (fun ps => ps ++ [(outpoint_key o.1 o.2, encode_outpoint row)])
    (upd_deletes (fun d => d ∖ {[outpoint_key o.1 o.2]}) (batch s)))) l).
  rewrite pending_queue_put. change ((fun l => {[o]} ∪ l) <$> live_outpoints (outpoints s) = Some l) in Hl.
  destruct (live_outpoints (outpoints s)) as [l0|] eqn:E; [|done].
  injection Hl as <-. apply live_spec_insert; [done|]. by apply Hs.
Qed.

Lemma handlers_linv : handlers rd height timestamp linv txs.
Proof.
  apply handlers_intro; [exact stable_linv|done| | |].
  - apply runes_quiet; [exact stable_linv| | |].
    + intros k. by apply key_ok_linv.
    + intros k. by apply key_ok_linv.
    + intros f s. by apply linv_same.
  - assert (HO : outpoints_safe rd (fun _ => True) txs).
    { eapply outpoints_quiet; [exact stable_true|done|by split|done]. }
    destruct HO as [O1 O2 O3]. split.
    + intros tx Htx. apply framed_split; [by apply O1|apply any_linv].
    + intros o Ho. apply framed_split; [by apply O2|]. intros s. by apply spend_row_linv.
    + intros o row Ho Hr. apply framed_split; [by apply O3|]. intros s. by apply add_row_linv.
  - apply accounts_quiet; [exact stable_linv| |].
    + intros k. by apply key_ok_linv.
    + intros f s. by apply linv_same.
Qed.

(** Scanning a block keeps the set and the rows in step. *)
Lemma scan_linv live :
  bool_decide (is_Some live) = loaded -> (forall l, live = Some l -> live_spec N l) ->
  linv (scan_block mainnet genesis_override address_index_chunk_size rd height timestamp txs
          (indexer_new live)).2.
Proof.
  intros Hm Hl. apply (scan_frame mainnet genesis_override address_index_chunk_size rd height timestamp linv
    stable_linv txs HT handlers_linv (indexer_new live)).
  split; [split; [done|]; intros l El; rewrite pending_new; by apply Hl|].
  split; intros o row; cbn; by rewrite lookup_empty.
Qed.

End Live.

Section Scan.
Context {btc : BitcoinCrate} {ord : OrdinalsCrate} {node : Node} {others : OtherModules}.
Context {rcodec : RuneCodec} {icodec : IconCodec}.
Context (mainnet : bool) (genesis_override : option Z) (address_index_chunk_size : Z).
Context (N : gmap bytes bytes) (rd : bytes -> option bytes) (height timestamp : Z).
Context (txs : list Transaction) (HT : typed_inputs height txs).

Abbreviation scan live :=
  (scan_block mainnet genesis_override address_index_chunk_size rd height timestamp txs (indexer_new live)).2.

(** The set of the namespace becomes the set of the namespace with the block. *)
Lemma scan_live : live_outpoints (outpoints (scan (Some (live_of N)))) = Some (live_of (pending N (batch (scan (Some (live_of N)))))).
Proof.
  destruct (scan_linv mainnet genesis_override address_index_chunk_size N rd height timestamp txs HT true
    (Some (live_of N))) as [Hm Hl]; [done|intros l [= <-]; apply live_of_spec|].
  destruct (live_outpoints _) as [l|]; [|done]. f_equal.
  eapply live_spec_unique; [by apply Hl|apply live_of_spec].
Qed.

(** Without it the indexer works on point lookups to the end. *)
Lemma scan_unloaded : live_outpoints (outpoints (scan None)) = None.
Proof.
  destruct (scan_linv mainnet genesis_override address_index_chunk_size N rd height timestamp txs HT false None)
    as [Hm _]; [done|done|]. by destruct (live_outpoints _).
Qed.

End Scan.

(** The set depends on the outpoint rows only. *)
Lemma live_of_ext V V' : (forall k, family outpoint_literals k -> V' !! k = V !! k) -> live_of V' = live_of V.
Proof.
  intros H. eapply live_spec_unique; [apply live_of_spec|]. eapply live_spec_ext; [exact H|apply live_of_spec].
Qed.
