(* ===== verification/RunesHolders.v ===== *)
(** * Balances and holder counts

    The account rows of the runes namespace: the balance of an address in a rune
    is kept twice, under the address and under the rune, and the number of
    holders of a rune is kept beside.  Indexing a block keeps the two balances
    equal and the count right. *)
From Stdlib Require Import Strings.Byte.
From stdpp Require Import strings.
From S2P Require Import Prelude Bytes Rocks StateM RunesTransfer RunesUndo RunesUndoProps RunesStore.
From S2P Require Import RunesTxIndex RunesTxIndexProps RunesChain RunesInscriptions RunesIndexer.
From S2P Require Import RunesConserve RunesJournal RunesFrame.

Open Scope Z_scope.

(** ** Keys *)

Lemma length_id_key id : length (id_key_bytes id) = 12%nat.
Proof. unfold id_key_bytes. by rewrite length_app, !length_be_bytes. Qed.

Lemma id_key_inj a b : id_typed a -> id_typed b -> id_key_bytes a = id_key_bytes b -> a = b.
Proof.
  intros [A1 A2] [B1 B2] H. unfold id_key_bytes in H.
  apply app_inj_1 in H as [H1 H2]; [|by rewrite !length_be_bytes].
  apply (be_bytes_inj 8) in H1; [|done|done]. apply (be_bytes_inj 4) in H2; [|done|done].
  destruct a, b. cbn in *. by subst.
Qed.

Lemma balance_key_inj a id a' id' :
  id_typed id -> id_typed id' -> address_balance_key a id = address_balance_key a' id' -> a = a' /\ id = id'.
Proof.
  intros H1 H2 H. unfold address_balance_key in H.
  apply app_inj_2 in H as [Ha Hi]; [|by rewrite !length_id_key].
  split; [|by apply id_key_inj]. unfold address_balance_prefix in Ha.
  apply app_inj_1 in Ha as [_ Ha]; [|done]. by apply app_inv_tail in Ha.
Qed.

Lemma holder_prefix_inj id id' a b :
  id_typed id -> id_typed id' -> holder_prefix id ++ a = holder_prefix id' ++ b -> id = id' /\ a = b.
Proof.
  intros H1 H2 H. unfold holder_prefix in H. rewrite <- !app_assoc in H.
  apply app_inj_1 in H as [_ H]; [|done]. apply app_inj_1 in H as [Hi H]; [|by rewrite !length_id_key].
  split; [by apply id_key_inj|]. by apply app_inv_head in H.
Qed.

Lemma count_key_inj id id' :
  id_typed id -> id_typed id' -> holders_count_key id = holders_count_key id' -> id = id'.
Proof. intros H1 H2 H. apply app_inv_head in H. by apply id_key_inj. Qed.

(** The three families do not meet. *)
Lemma account_keys_apart a id id' a' id'' :
  address_balance_key a id <> holder_key id' a' /\ address_balance_key a id <> holders_count_key id''
  /\ holder_key id' a' <> holders_count_key id''.
Proof.
  assert (E1 : exists r, address_balance_key a id = bstr "/address/" ++ r) by (eexists; symmetry; apply app_assoc).
  assert (E2 : exists r, holder_key id' a' = bstr "/holder/" ++ r) by (eexists; symmetry; apply app_assoc).
  destruct E1 as [r1 ->], E2 as [r2 ->]. unfold holders_count_key, holders_count_prefix.
  split_all; by apply conflict_ne.
Qed.

Section Holders.
Context {btc : BitcoinCrate} {ord : OrdinalsCrate} {node : Node} {others : OtherModules}.
Context {rcodec : RuneCodec} {icodec : IconCodec}.
Context (mainnet : bool) (genesis_override : option Z) (address_index_chunk_size : Z).
Context (N : gmap bytes bytes) (rd : bytes -> option bytes) (Hrd : forall k, rd k = N !! k).

Abbreviation pending := (pending N).

(** ** Values and rows *)

(** The row of an amount: none for zero. *)
Definition amount_row (v : Z) : option bytes := if v =? 0 then None else Some (encode_u128 v).

Definition in_u128 (v : Z) : Prop := 0 <= v < u128_mod.

Definition count_value (raw : option bytes) : Z := default 0 (raw ≫= decode_u64).

(** What the caches say, the namespace behind them. *)
Definition balance (s : BlockRunesIndexer) (a : bytes) (id : SchemaRuneId) : Z :=
  default (default 0 (N !! address_balance_key a id ≫= decode_u128)) (address_balance_cache (accounts s) !! (a, id)).
Definition holding (s : BlockRunesIndexer) (id : SchemaRuneId) (a : bytes) : Z :=
  default (default 0 (N !! holder_key id a ≫= decode_u128)) (holder_balance_cache (accounts s) !! (id, a)).
Definition holder_count (s : BlockRunesIndexer) (id : SchemaRuneId) : Z :=
  default (count_value (N !! holders_count_key id)) (holder_count_cache (accounts s) !! id).

(** The holder rows of a rune. *)
Definition holders (V : gmap bytes bytes) (id : SchemaRuneId) : gset bytes :=
  filter (fun k => starts_with k (holder_prefix id) = true) (dom V).

(** The account rows of a namespace: balances mirrored, zero balances absent, counts exact. *)
Record accounts_ok (V : gmap bytes bytes) : Prop := {
  ao_mirror a id : id_typed id -> V !! address_balance_key a id = V !! holder_key id a;
  ao_amount id a : id_typed id -> exists v, in_u128 v /\ V !! holder_key id a = amount_row v;
  ao_count id : id_typed id -> count_value (V !! holders_count_key id) = Z.of_nat (size (holders V id));
}.

(** The caches agree with the pending rows, with each other and with the number of rows. *)
Record hinv (s : BlockRunesIndexer) : Prop := {
  hi_balance a id : id_typed id -> in_u128 (balance s a id)
    /\ pending (batch s) !! address_balance_key a id = amount_row (balance s a id);
  hi_holding id a : id_typed id ->
    pending (batch s) !! holder_key id a = amount_row (holding s id a);
  hi_equal a id : id_typed id -> holding s id a = balance s a id;
  hi_count id : id_typed id -> count_value (pending (batch s) !! holders_count_key id) = holder_count s id;
  hi_size id : id_typed id -> holder_count s id = Z.of_nat (size (holders (pending (batch s)) id));
}.

(** There is room for one more holder. *)
Definition room (s : BlockRunesIndexer) : Prop :=
  Z.of_nat (size N + length (puts (batch s))) < 2 ^ 64 - 1.

Definition hinv_room (s : BlockRunesIndexer) : Prop := room s -> hinv s.

(** ** Decoding *)

Lemma decode_encode_u128 v : in_u128 v -> decode_u128 (encode_u128 v) = Some v.
Proof.
  intros H. unfold decode_u128, encode_u128. rewrite length_le_bytes. cbn [Nat.eqb negb].
  rewrite from_le_le_bytes, Z.mod_small; [done|exact H].
Qed.

Lemma decode_encode_u64 v : 0 <= v < 2 ^ 64 -> decode_u64 (encode_u64 v) = Some v.
Proof.
  intros H. unfold decode_u64, encode_u64. rewrite length_le_bytes. cbn [Nat.eqb negb].
  rewrite from_le_le_bytes, Z.mod_small; [done|exact H].
Qed.

Lemma decode_amount_row v : in_u128 v -> default 0 (amount_row v ≫= decode_u128) = v.
Proof.
  intros H. unfold amount_row. destruct (Z.eqb_spec v 0) as [->|]; [done|]. cbn [mbind option_bind].
  by rewrite decode_encode_u128.
Qed.

Lemma amount_row_inj v v' : in_u128 v -> in_u128 v' -> amount_row v = amount_row v' -> v = v'.
Proof. intros H H' E. by rewrite <- (decode_amount_row v), E, decode_amount_row. Qed.

Lemma amount_row_Some v : is_Some (amount_row v) <-> v <> 0.
Proof.
  unfold amount_row. destruct (Z.eqb_spec v 0); split; [by intros []|done|done|eauto].
Qed.

(** ** Holder sets *)

Lemma holders_elem V id k : k ∈ holders V id <-> exists a, k = holder_key id a /\ is_Some (V !! k).
Proof.
  unfold holders. rewrite elem_of_filter, elem_of_dom, starts_with_iff. split.
  - intros [[a ->] H]. by exists a.
  - intros (a & -> & H). split; [by exists a|done].
Qed.

(** Sets depend on the holder rows only. *)
Lemma holders_ext V V' id :
  (forall a, is_Some (V' !! holder_key id a) <-> is_Some (V !! holder_key id a)) -> holders V' id = holders V id.
Proof.
  intros H. apply set_eq. intros k. rewrite !holders_elem.
  split; intros (a & -> & Ha); exists a; (split; [done|]); by apply H.
Qed.

Lemma holders_add V V' id a :
  V !! holder_key id a = None -> is_Some (V' !! holder_key id a) ->
  (forall b, b <> a -> V' !! holder_key id b = V !! holder_key id b) ->
  size (holders V' id) = S (size (holders V id)).
Proof.
  intros H1 H2 H3. assert (E : holders V' id = {[holder_key id a]} ∪ holders V id).
  { apply set_eq. intros k. rewrite elem_of_union, elem_of_singleton, !holders_elem. split.
    - intros (b & -> & Hb). destruct (decide (b = a)) as [->|Hne]; [by left|]. right. exists b.
      split; [done|]. by rewrite <- H3.
    - intros [->|(b & -> & Hb)]; [by exists a|]. exists b. split; [done|].
      rewrite H3; [done|]. intros ->. rewrite H1 in Hb. by destruct Hb. }
  rewrite E, size_union, size_singleton; [done|]. intros k Hk%elem_of_singleton (b & Hb & Hs)%holders_elem.
  subst k. rewrite H1 in Hs. by destruct Hs.
Qed.

(** Two namespaces with the same account rows. *)
Lemma accounts_ext V V' :
  (forall k, family account_literals k -> V' !! k = V !! k) -> accounts_ok V -> accounts_ok V'.
Proof.
  intros H [H1 H2 H3].
  assert (B : forall a id, V' !! address_balance_key a id = V !! address_balance_key a id)
    by (intros; apply H, account_balance).
  assert (K : forall id a, V' !! holder_key id a = V !! holder_key id a) by (intros; apply H, account_holder).
  assert (C : forall id, V' !! holders_count_key id = V !! holders_count_key id)
    by (intros; apply H, account_count).
  split; intros; rewrite ?B, ?K, ?C; eauto. rewrite H3 by done. f_equal. f_equal.
  symmetry. apply holders_ext. intros x. by rewrite K.
Qed.

Lemma hinv_rows s : hinv s -> accounts_ok (pending (batch s)).
Proof.
  intros [H1 H2 H3 H4 H5]. split.
  - intros a id Hid. rewrite (proj2 (H1 a id Hid)), H2, H3 by done. done.
  - intros id a Hid. exists (balance s a id). split; [apply (H1 a id Hid)|]. by rewrite H2, H3.
  - intros id Hid. by rewrite H4, H5.
Qed.

(** ** One delta

    [st fb fh fc V n o s]: the state [s] seen through the values of balances, holdings and
    counts, the pending rows [V], at least [n] puts and the outpoints [o]. *)

Record st (fb : bytes -> SchemaRuneId -> Z) (fh : SchemaRuneId -> bytes -> Z) (fc : SchemaRuneId -> Z)
    (V : gmap bytes bytes) (n : nat) (o : Outpoints) (s : BlockRunesIndexer) : Prop := {
  st_b a id : balance s a id = fb a id;
  st_h id a : holding s id a = fh id a;
  st_c id : holder_count s id = fc id;
  st_V : pending (batch s) = V;
  st_n : (n <= length (puts (batch s)))%nat;
  st_o : outpoints s = o;
}.

Definition put_row (k : bytes) (r : option bytes) (V : gmap bytes bytes) : gmap bytes bytes :=
  match r with Some v => <[k := v]> V | None => delete k V end.

Lemma lookup_put_row k r V x : put_row k r V !! x = if decide (x = k) then r else V !! x.
Proof.
  unfold put_row. case_decide as D; [subst|]; destruct r; by simplify_map_eq.
Qed.

Definition upd_b (fb : bytes -> SchemaRuneId -> Z) a id x : bytes -> SchemaRuneId -> Z :=
  fun a' id' => if decide ((a', id') = (a, id)) then x else fb a' id'.
Definition upd_h (fh : SchemaRuneId -> bytes -> Z) id a x : SchemaRuneId -> bytes -> Z :=
  fun id' a' => if decide ((id', a') = (id, a)) then x else fh id' a'.
Definition upd_c (fc : SchemaRuneId -> Z) id x : SchemaRuneId -> Z :=
  fun id' => if decide (id' = id) then x else fc id'.

(** A cached value is the value behind the cache. *)
Lemma cached_runs (P : BlockRunesIndexer -> Prop) (look : BlockRunesIndexer -> option Z) key
    (decode : bytes -> option Z) zero store val :
  (forall s, P s -> default (default zero (N !! key ≫= decode)) (look s) = val) ->
  (forall k v, runs P (note_preimage k v) (fun _ => P)) ->
  runs P (modify (store val)) (fun _ => P) ->
  runs P (cached rd look key decode zero store) (fun v s => v = val /\ P s).
Proof.
  intros H1 H2 H3 s Hs. specialize (H1 s Hs). unfold cached, mbind, M_bind, gets.
  destruct (look s) as [v|]; cbn [default] in H1; [by exists v, s|]. cbv beta zeta.
  rewrite Hrd. change (option_bind bytes Z decode (N !! key)) with (N !! key ≫= decode). rewrite H1.
  destruct (H2 key (N !! key) s Hs) as ([] & s1 & -> & Hs1).
  destruct (H3 s1 Hs1) as ([] & s2 & -> & Hs2). by exists val, s2.
Qed.

Section Steps.
Context (fb : bytes -> SchemaRuneId -> Z) (fh : SchemaRuneId -> bytes -> Z) (fc : SchemaRuneId -> Z).
Context (V : gmap bytes bytes) (n : nat) (o : Outpoints).

Lemma st_note k v : runs (st fb fh fc V n o) (note_preimage k v) (fun _ => st fb fh fc V n o).
Proof. apply runs_modify. intros s []. by split. Qed.

Lemma st_touch f :
  runs (st fb fh fc V n o) (modify (on_accounts (upd_history_touched f))) (fun _ => st fb fh fc V n o).
Proof. apply runs_modify. intros s []. by split. Qed.

Lemma st_set_balance a id x :
  runs (st fb fh fc V n o) (modify (on_accounts (upd_address_balance (insert (a, id) x))))
    (fun _ => st (upd_b fb a id x) fh fc V n o).
Proof.
  apply runs_modify. intros s []. split; try done. intros a' id'. unfold balance, upd_b. cbn.
  case_decide as D; [rewrite D; by rewrite lookup_insert_eq|]. rewrite lookup_insert_ne by done. apply st_b0.
Qed.

Lemma st_set_holding id a x :
  runs (st fb fh fc V n o) (modify (on_accounts (upd_holder_balance (insert (id, a) x))))
    (fun _ => st fb (upd_h fh id a x) fc V n o).
Proof.
  apply runs_modify. intros s []. split; try done. intros id' a'. unfold holding, upd_h. cbn.
  case_decide as D; [rewrite D; by rewrite lookup_insert_eq|]. rewrite lookup_insert_ne by done. apply st_h0.
Qed.

Lemma st_set_count id x :
  runs (st fb fh fc V n o) (modify (on_accounts (upd_holder_count (insert id x))))
    (fun _ => st fb fh (upd_c fc id x) V n o).
Proof.
  apply runs_modify. intros s []. split; try done. intros id'. unfold holder_count, upd_c. cbn.
  case_decide as D; [rewrite D; by rewrite lookup_insert_eq|]. rewrite lookup_insert_ne by done. apply st_c0.
Qed.

(** Setting a value to what it is changes nothing. *)
Lemma st_same_b a id s : st (upd_b fb a id (fb a id)) fh fc V n o s -> st fb fh fc V n o s.
Proof.
  intros []. split; try done. intros a' id'. rewrite st_b0. unfold upd_b. by case_decide as D; [injection D as -> ->|].
Qed.
Lemma st_same_h id a s : st fb (upd_h fh id a (fh id a)) fc V n o s -> st fb fh fc V n o s.
Proof.
  intros []. split; try done. intros id' a'. rewrite st_h0. unfold upd_h. by case_decide as D; [injection D as -> ->|].
Qed.
Lemma st_same_c id s : st fb fh (upd_c fc id (fc id)) V n o s -> st fb fh fc V n o s.
Proof.
  intros []. split; try done. intros id'. rewrite st_c0. unfold upd_c. by case_decide as D; [rewrite D|].
Qed.

Lemma st_queue_put k v :
  runs (st fb fh fc V n o) (queue_put k v) (fun _ => st fb fh fc (<[k := v]> V) n o).
Proof.
  unfold queue_put, push_put. eapply runs_bind; [apply (runs_modify _ _ (fun _ s => exists s0,
    st fb fh fc V n o s0 /\ s = on_batch (upd_deletes (fun d => d ∖ {[k]})) s0)); eauto|].
  intros []. apply runs_modify. intros s (s0 & Hs & ->). destruct Hs. split; try done.
  - cbn [batch on_batch]. by rewrite pending_queue_put, st_V0.
  - cbn. rewrite length_app. lia.
Qed.

Lemma st_queue_delete k :
  runs (st fb fh fc V n o) (queue_delete k) (fun _ => st fb fh fc (delete k V) n o).
Proof.
  apply runs_modify. intros s []. split; try done. cbn [batch on_batch]. by rewrite pending_queue_delete, st_V0.
Qed.

Lemma st_amount k v :
  runs (st fb fh fc V n o) (if v =? 0 then queue_delete k else queue_put k (encode_u128 v))
    (fun _ => st fb fh fc (put_row k (amount_row v) V) n o).
Proof.
  unfold amount_row. destruct (v =? 0); [apply st_queue_delete|apply st_queue_put].
Qed.

Lemma st_cached_balance a id :
  runs (st fb fh fc V n o)
    (cached rd (fun s => address_balance_cache (accounts s) !! (a, id)) (address_balance_key a id) decode_u128 0
       (fun v => on_accounts (upd_address_balance (insert (a, id) v))))
    (fun v s => v = fb a id /\ st fb fh fc V n o s).
Proof.
  apply cached_runs; [intros s []; apply st_b0|apply st_note|].
  eapply runs_weaken; [apply st_set_balance|]. intros [] s. apply st_same_b.
Qed.

Lemma st_cached_holding id a :
  runs (st fb fh fc V n o)
    (cached rd (fun s => holder_balance_cache (accounts s) !! (id, a)) (holder_key id a) decode_u128 0
       (fun v => on_accounts (upd_holder_balance (insert (id, a) v))))
    (fun v s => v = fh id a /\ st fb fh fc V n o s).
Proof.
  apply cached_runs; [intros s []; apply st_h0|apply st_note|].
  eapply runs_weaken; [apply st_set_holding|]. intros [] s. apply st_same_h.
Qed.

Lemma st_cached_count id :
  runs (st fb fh fc V n o)
    (cached rd (fun s => holder_count_cache (accounts s) !! id) (holders_count_key id) decode_u64 0
       (fun v => on_accounts (upd_holder_count (insert id v))))
    (fun v s => v = fc id /\ st fb fh fc V n o s).
Proof.
  apply cached_runs; [intros s []; apply st_c0|apply st_note|].
  eapply runs_weaken; [apply st_set_count|]. intros [] s. apply st_same_c.
Qed.

End Steps.

(** The count after a holding went from [h] to [h']. *)
Definition next_count (h h' count : Z) : Z :=
  match h =? 0, h' =? 0 with
  | true, false => u64_sat_add count 1
  | false, true => u64_sat_sub1 count
  | _, _ => count
  end.

(** The rows after a delta. *)
Definition delta_rows (a : bytes) (id : SchemaRuneId) (b h c c' : Z) (V : gmap bytes bytes) : gmap bytes bytes :=
  let V2 := put_row (holder_key id a) (amount_row h) (put_row (address_balance_key a id) (amount_row b) V) in
  if negb (c' =? c) then <[holders_count_key id := encode_u64 c']> V2 else V2.

Lemma apply_delta_runs fb fh fc V n o a id d :
  let b := apply_delta (fb a id) d in
  let h := apply_delta (fh id a) d in
  let c := next_count (fh id a) h (fc id) in
  runs (st fb fh fc V n o) (apply_address_delta rd a id d)
    (fun _ => st (upd_b fb a id b) (upd_h fh id a h) (upd_c fc id c) (delta_rows a id b h (fc id) c V) n o).
Proof.
  intros b h c. unfold apply_address_delta.
  eapply runs_bind_eq; [apply st_cached_balance|].
  eapply runs_bind; [apply st_set_balance|]. intros [].
  eapply runs_bind; [apply st_touch|]. intros []. eapply runs_bind; [apply st_amount|]. intros [].
  eapply runs_bind_eq; [apply st_cached_holding|].
  eapply runs_bind; [apply st_set_holding|]. intros []. eapply runs_bind; [apply st_amount|]. intros [].
  eapply runs_bind_eq; [apply st_cached_count|].
  fold (next_count (fh id a) (apply_delta (fh id a) d) (fc id)). fold h. fold c. unfold delta_rows. fold b.
  destruct (negb (c =? fc id)) eqn:E.
  - eapply runs_bind; [apply st_set_count|]. intros []. apply st_queue_put.
  - apply runs_ret. intros s Hs. apply negb_false_iff, Z.eqb_eq in E. rewrite E.
    destruct Hs. split; try done. intros id'. rewrite st_c0. unfold upd_c. by case_decide as D; [rewrite D|].
Qed.

(** ** The invariant is kept *)

Lemma apply_delta_range v d : in_u128 v -> in_u128 (apply_delta v d).
Proof.
  unfold in_u128, apply_delta, u128_sat_sub, u128_sat_add, u128_mod. intros H.
  destruct (Z.ltb_spec d 0); lia.
Qed.

(** The rows of a delta, key by key. *)
Lemma delta_rows_balance a id b h c c' V a' id' :
  id_typed id -> id_typed id' ->
  delta_rows a id b h c c' V !! address_balance_key a' id'
  = if decide ((a', id') = (a, id)) then amount_row b else V !! address_balance_key a' id'.
Proof.
  intros H1 H2. destruct (account_keys_apart a' id' id a id) as (A1 & A2 & _). unfold delta_rows.
  assert (E : put_row (holder_key id a) (amount_row h) (put_row (address_balance_key a id) (amount_row b) V)
      !! address_balance_key a' id'
    = if decide ((a', id') = (a, id)) then amount_row b else V !! address_balance_key a' id').
  { rewrite !lookup_put_row, decide_False by done. case_decide as D1; case_decide as D2; try done.
    - by apply balance_key_inj in D1 as [-> ->].
    - by simplify_eq. }
  destruct (negb _); [rewrite lookup_insert_ne by done|]; exact E.
Qed.

Lemma delta_rows_holding a id b h c c' V id' a' :
  id_typed id -> id_typed id' ->
  delta_rows a id b h c c' V !! holder_key id' a'
  = if decide ((id', a') = (id, a)) then amount_row h else V !! holder_key id' a'.
Proof.
  intros H1 H2. destruct (account_keys_apart a id id' a' id) as (A1 & A2 & A3). unfold delta_rows.
  assert (E : put_row (holder_key id a) (amount_row h) (put_row (address_balance_key a id) (amount_row b) V)
      !! holder_key id' a'
    = if decide ((id', a') = (id, a)) then amount_row h else V !! holder_key id' a').
  { rewrite !lookup_put_row. rewrite (decide_False (P := holder_key id' a' = address_balance_key a id)) by done.
    case_decide as D1; case_decide as D2; try done.
    - by apply holder_prefix_inj in D1 as [-> ->].
    - by simplify_eq. }
  destruct (negb _); [rewrite lookup_insert_ne by done|]; exact E.
Qed.

Lemma delta_rows_count a id b h c c' V id' :
  id_typed id -> id_typed id' -> count_value (V !! holders_count_key id) = c -> 0 <= c' < 2 ^ 64 ->
  count_value (delta_rows a id b h c c' V !! holders_count_key id')
  = if decide (id' = id) then c' else count_value (V !! holders_count_key id').
Proof.
  intros H1 H2 Hc Hr. destruct (account_keys_apart a id id a id') as (A1 & A2 & A3). unfold delta_rows.
  assert (E : put_row (holder_key id a) (amount_row h) (put_row (address_balance_key a id) (amount_row b) V)
      !! holders_count_key id' = V !! holders_count_key id').
  { by rewrite !lookup_put_row, !decide_False by done. }
  destruct (Z.eqb_spec c' c) as [->|Hne]; cbn [negb].
  - rewrite E. by case_decide as D; [subst id'|].
  - case_decide as D; [subst id'; rewrite lookup_insert_eq|].
    + unfold count_value. cbn [mbind option_bind]. by rewrite decode_encode_u64.
    + rewrite lookup_insert_ne, E; [done|]. intros Heq. apply D. symmetry. by apply count_key_inj.
Qed.

(** The number of holders follows the holding. *)
Lemma holders_delta V V' id a h h' :
  V !! holder_key id a = amount_row h -> V' !! holder_key id a = amount_row h' ->
  (forall b, b <> a -> V' !! holder_key id b = V !! holder_key id b) ->
  Z.of_nat (size (holders V id)) < 2 ^ 64 - 1 ->
  Z.of_nat (size (holders V' id)) = next_count h h' (Z.of_nat (size (holders V id))).
Proof.
  intros H1 H2 H3 Hr. unfold next_count. destruct (Z.eqb_spec h 0) as [Eh|Eh], (Z.eqb_spec h' 0) as [Eh'|Eh'].
  - f_equal. f_equal. apply holders_ext. intros b. destruct (decide (b = a)) as [->|Hne]; [|by rewrite H3].
    rewrite H1, H2, !amount_row_Some. lia.
  - rewrite (holders_add V V' id a).
    + unfold u64_sat_add. lia.
    + rewrite H1. unfold amount_row. by rewrite Eh.
    + by rewrite H2, amount_row_Some.
    + done.
  - rewrite (holders_add V' V id a).
    + unfold u64_sat_sub1. lia.
    + rewrite H2. unfold amount_row. by rewrite Eh'.
    + by rewrite H1, amount_row_Some.
    + intros b Hb. by rewrite H3.
  - f_equal. f_equal. apply holders_ext. intros b. destruct (decide (b = a)) as [->|Hne]; [|by rewrite H3].
    by rewrite H1, H2, !amount_row_Some.
Qed.

Lemma size_holders V id : (size (holders V id) <= size V)%nat.
Proof.
  rewrite <- size_dom. apply subseteq_size. unfold holders. set_solver.
Qed.

Lemma next_count_range h h' c : 0 <= c < 2 ^ 64 -> 0 <= next_count h h' c < 2 ^ 64.
Proof.
  unfold next_count, u64_sat_add, u64_sat_sub1. intros H. destruct (h =? 0), (h' =? 0); lia.
Qed.

Section Delta.
Context (s s' : BlockRunesIndexer) (a : bytes) (id : SchemaRuneId) (d : Z).
Context (Hid : id_typed id) (Hs : hinv s) (Hroom : room s).

Let b : Z := apply_delta (balance s a id) d.
Let h : Z := apply_delta (holding s id a) d.
Let c : Z := next_count (holding s id a) h (holder_count s id).
Let V : gmap bytes bytes := pending (batch s).

Context (n : nat) (o : Outpoints).
Context (Hst : st (upd_b (balance s) a id b) (upd_h (holding s) id a h) (upd_c (holder_count s) id c)
                 (delta_rows a id b h (holder_count s id) c V) n o s').

Lemma delta_same : h = b.
Proof. unfold h, b. by rewrite (hi_equal s Hs). Qed.

Lemma count_bound i : id_typed i -> 0 <= holder_count s i < 2 ^ 64 - 1.
Proof.
  intros Hi. rewrite (hi_size s Hs) by done. pose proof (size_holders (pending (batch s)) i).
  pose proof (size_pending N (batch s)). unfold room in Hroom. lia.
Qed.

Lemma delta_size i :
  id_typed i ->
  upd_c (holder_count s) id c i
  = Z.of_nat (size (holders (delta_rows a id b h (holder_count s id) c V) i)).
Proof.
  intros Hi. unfold upd_c. case_decide as D.
  - subst i. unfold c. rewrite (hi_size s Hs) by done. symmetry. apply holders_delta with (a := a).
    + by apply (hi_holding s Hs).
    + rewrite delta_rows_holding by done. by rewrite decide_True.
    + intros x Hx. rewrite delta_rows_holding by done. rewrite decide_False; [done|]. by intros [= ->].
    + rewrite <- (hi_size s Hs) by done. by apply count_bound.
  - rewrite (hi_size s Hs) by done. f_equal. f_equal. symmetry. apply holders_ext. intros x.
    rewrite delta_rows_holding by done. rewrite decide_False; [done|]. by intros [= ->].
Qed.

Lemma hinv_delta : hinv s'.
Proof.
  destruct Hst as [Hb Hh Hc HV _ _]. split.
  - intros a' i Hi. rewrite Hb, HV, delta_rows_balance by done. unfold upd_b. destruct (hi_balance s Hs a' i Hi).
    case_decide as D; [|done]. split; [|done]. by apply apply_delta_range, (hi_balance s Hs).
  - intros i a' Hi. rewrite Hh, HV, delta_rows_holding by done. unfold upd_h. case_decide; [done|].
    by apply (hi_holding s Hs).
  - intros a' i Hi. rewrite Hb, Hh. unfold upd_b, upd_h. pose proof delta_same.
    repeat case_decide; simplify_eq; try done. by apply (hi_equal s Hs).
  - intros i Hi. rewrite HV, Hc, delta_rows_count; try done.
    + unfold upd_c. case_decide; [done|]. by apply (hi_count s Hs).
    + by apply (hi_count s Hs).
    + pose proof (count_bound id Hid). unfold c. apply next_count_range. lia.
  - intros i Hi. rewrite HV, Hc. by apply delta_size.
Qed.

End Delta.

Lemma st_self s : st (balance s) (holding s) (holder_count s) (pending (batch s)) (length (puts (batch s))) (outpoints s) s.
Proof. by split. Qed.

(** A delta keeps the invariant, and the rest of what [scan_frame] asks of it. *)
Lemma delta_keeps a id d :
  id_typed id -> safe (framed hinv_room) (apply_address_delta rd a id d) (fun _ => True).
Proof.
  intros Hid. apply runs_safe. intros s [Hs Hr] ? ->.
  destruct (apply_delta_runs _ _ _ _ _ _ a id d s (st_self s)) as (x & s' & E & Hst).
  exists x, s'. split; [done|]. split.
  - intros Hroom. pose proof (st_n _ _ _ _ _ _ _ Hst) as Hn.
    assert (Hroom' : room s) by (unfold room in *; lia).
    by apply (hinv_delta s s' a id d Hid (Hs Hroom') Hroom' _ _ Hst).
  - destruct Hr as [R1 R2]. by split; rewrite (st_o _ _ _ _ _ _ _ Hst).
Qed.

(** ** Everything else leaves the account rows alone *)

(** The states that agree on what the invariant speaks of. *)
Record same_accounts (s s' : BlockRunesIndexer) : Prop := {
  sa_caches : address_balance_cache (accounts s') = address_balance_cache (accounts s)
    /\ holder_balance_cache (accounts s') = holder_balance_cache (accounts s)
    /\ holder_count_cache (accounts s') = holder_count_cache (accounts s);
  sa_rows k : family account_literals k -> pending (batch s') !! k = pending (batch s) !! k;
  sa_puts : (length (puts (batch s)) <= length (puts (batch s')))%nat;
}.

Lemma same_accounts_hinv s s' : same_accounts s s' -> hinv_room s -> hinv_room s'.
Proof.
  intros [(C1 & C2 & C3) Hk Hp] Hs Hroom.
  assert (R : room s) by (unfold room in *; lia). specialize (Hs R).
  assert (B : forall a id, balance s' a id = balance s a id) by (intros; unfold balance; by rewrite C1).
  assert (H : forall id a, holding s' id a = holding s id a) by (intros; unfold holding; by rewrite C2).
  assert (K : forall id, holder_count s' id = holder_count s id) by (intros; unfold holder_count; by rewrite C3).
  assert (KB : forall a id, pending (batch s') !! address_balance_key a id = pending (batch s) !! address_balance_key a id)
    by (intros; apply Hk, account_balance).
  assert (KH : forall id a, pending (batch s') !! holder_key id a = pending (batch s) !! holder_key id a)
    by (intros; apply Hk, account_holder).
  assert (KC : forall id, pending (batch s') !! holders_count_key id = pending (batch s) !! holders_count_key id)
    by (intros; apply Hk, account_count).
  split; intros; rewrite ?B, ?H, ?K, ?KB, ?KH, ?KC.
  - by apply (hi_balance s Hs).
  - by apply (hi_holding s Hs).
  - by apply (hi_equal s Hs).
  - by apply (hi_count s Hs).
  - rewrite (hi_size s Hs) by done. f_equal. f_equal. symmetry. apply holders_ext. intros x. by rewrite KH.
Qed.

(** Writes of other families. *)
Lemma key_ok_hinv L k : apart_literals account_literals L = true -> family L k -> key_ok hinv_room k.
Proof.
  intros HL Hk. assert (Hne : forall x, family account_literals x -> x <> k) by (intros x Hx; by eapply families_apart).
  split; intros; (eapply same_accounts_hinv; [|eassumption]); split; try done; cbn [batch on_batch].
  - intros x Hx. apply pending_put_other. by apply Hne.
  - cbn. rewrite length_app. lia.
  - intros x Hx. apply pending_undelete_other. by apply Hne.
  - intros x Hx. rewrite pending_queue_delete, lookup_delete_ne; [done|]. symmetry. by apply Hne.
Qed.

Lemma stable_hinv : stable hinv_room.
Proof.
  split; intros; try (eapply same_accounts_hinv; [|eassumption]; by split).
  by apply (key_ok_hinv quiet_literals).
Qed.

Lemma handlers_hinv height timestamp txs :
  typed_inputs height txs -> handlers rd height timestamp hinv_room txs.
Proof.
  intros HT. apply handlers_intro; [exact stable_hinv|done| | |].
  - apply runes_quiet; [exact stable_hinv| | |].
    + intros k. by apply key_ok_hinv.
    + intros k. by apply key_ok_hinv.
    + intros f s. apply same_accounts_hinv. by split.
  - eapply outpoints_quiet; [exact stable_hinv|done| |].
    + intros k. by apply key_ok_hinv.
    + intros f s. apply same_accounts_hinv. by split.
  - intros a id d. apply delta_keeps.
Qed.

(** ** From one namespace to the next *)

Lemma indexer_new_hinv live : accounts_ok N -> hinv (indexer_new live).
Proof.
  intros [H1 H2 H3].
  assert (B : forall a id, id_typed id -> in_u128 (balance (indexer_new live) a id)
    /\ N !! holder_key id a = amount_row (balance (indexer_new live) a id)).
  { intros a id Hid. destruct (H2 id a Hid) as (v & Hv & E). unfold balance.
    cbn [indexer_new accounts address_balance_cache]. rewrite lookup_empty. cbn [default]. rewrite H1, E, decode_amount_row by done. done. }
  assert (H : forall a id, id_typed id -> holding (indexer_new live) id a = balance (indexer_new live) a id).
  { intros a id Hid. unfold holding, balance.
    cbn [indexer_new accounts address_balance_cache holder_balance_cache]. rewrite !lookup_empty. cbn [default]. by rewrite H1. }
  assert (C : forall id, holder_count (indexer_new live) id = count_value (N !! holders_count_key id)).
  { intros id. unfold holder_count. cbn [indexer_new accounts holder_count_cache]. by rewrite lookup_empty. }
  split; rewrite ?pending_new.
  - intros a id Hid. destruct (B a id Hid). by rewrite H1.
  - intros id a Hid. rewrite H by done. by apply B.
  - done.
  - intros id Hid. by rewrite C.
  - intros id Hid. by rewrite C, H3.
Qed.

(** ** A block *)

(** Scanning a block keeps the accounts, also when it stops at an error. *)
Lemma scan_accounts height timestamp txs live :
  typed_inputs height txs -> accounts_ok N ->
  let s := (scan_block mainnet genesis_override address_index_chunk_size rd height timestamp txs
              (indexer_new live)).2 in
  room s -> accounts_ok (pending (batch s)).
Proof.
  intros HT HN s Hroom. apply hinv_rows.
  apply (scan_frame mainnet genesis_override address_index_chunk_size rd height timestamp hinv_room
           stable_hinv txs HT (handlers_hinv _ _ _ HT) (indexer_new live)); [|done].
  split; [intros _; by apply indexer_new_hinv|].
  split; intros o row; cbn; by rewrite lookup_empty.
Qed.

End Holders.
