(* ===== verification/RunesLedger.v ===== *)
(** * The ledger of runes

    An abstract ledger: the table of runes, the coins (the rows of outpoints) and
    the amounts in flight while a transaction is processed.  The books balance
    when, for every rune, what the coins hold, what is burned and what is in flight
    add up to what was issued: the premine and the amount of every mint. *)
From stdpp Require Import strings.
From S2P Require Import Prelude Bytes RunesTransfer RunesStore RunesChain RunesIndexer RunesConserve.

Open Scope Z_scope.

Abbreviation Table := (gmap SchemaRuneId RuneEntry) (only parsing).
Abbreviation Coins := (gmap (bytes * Z) OutpointRuneBalances) (only parsing).
Abbreviation Flight := (SchemaRuneId -> Z) (only parsing).

(** ** Totals *)

Definition coins_total (id : SchemaRuneId) (R : Coins) : Z :=
  map_fold (fun _ row acc => balances_total id (or_balances row) + acc) 0 R.

Lemma coins_total_insert id R o row :
  R !! o = None -> coins_total id (<[o := row]> R) = balances_total id (or_balances row) + coins_total id R.
Proof. intros H. unfold coins_total. rewrite map_fold_insert_L; [done|intros; lia|done]. Qed.

Lemma coins_total_delete id R o row :
  R !! o = Some row -> coins_total id R = balances_total id (or_balances row) + coins_total id (delete o R).
Proof.
  intros H. rewrite <- (coins_total_insert id _ o) by apply lookup_delete_eq. by rewrite insert_delete_id.
Qed.

Lemma balances_total_nonneg id l : Forall balance_ok l -> 0 <= balances_total id l.
Proof.
  induction 1 as [|b l Hb _ IH]; [done|]. rewrite balances_total_cons. unfold balance_ok in Hb.
  case_bool_decide; lia.
Qed.

Definition coin_ok (row : OutpointRuneBalances) : Prop := Forall balance_ok (or_balances row).

Lemma coins_total_nonneg id R : map_Forall (fun _ => coin_ok) R -> 0 <= coins_total id R.
Proof.
  induction R as [|o row R Ho IH] using map_ind; intros H; [done|].
  rewrite coins_total_insert by done. apply map_Forall_insert in H as [H1 H2]; [|done].
  pose proof (balances_total_nonneg id _ H1). specialize (IH H2). lia.
Qed.

(** ** Entries *)

Definition mint_amount (e : RuneEntry) : Z := default 0 (terms e ≫= t_amount).
Definition mint_cap (e : RuneEntry) : Z := default 0 (terms e ≫= t_cap).

(** An entry's counters are in range, and all it may ever issue is an amount. *)
Record entry_ok (id : SchemaRuneId) (e : RuneEntry) : Prop := {
  eo_id : re_id e = id;
  eo_premine : 0 <= premine e;
  eo_burned : 0 <= burned e;
  eo_amount : 0 <= mint_amount e;
  eo_mints : 0 <= mints e <= mint_cap e;
  eo_cap : mint_cap e < u128_mod;
  eo_supply : premine e + mint_cap e * mint_amount e < u128_mod;
}.

Definition entry_issued (e : RuneEntry) : Z := premine e + mints e * mint_amount e.

Lemma entry_issued_bound id e : entry_ok id e -> 0 <= entry_issued e < u128_mod.
Proof. intros []. unfold entry_issued. nia. Qed.

Definition issued (E : Table) (id : SchemaRuneId) : Z := from_option entry_issued 0 (E !! id).
Definition burnt (E : Table) (id : SchemaRuneId) : Z := from_option burned 0 (E !! id).

(** ** The books *)

Record books (E : Table) (R : Coins) (u : Flight) : Prop := {
  bk_flight id : 0 <= u id;
  bk_balance id : coins_total id R + burnt E id + u id = issued E id;
  bk_entries id e : E !! id = Some e -> entry_ok id e;
  bk_coins : map_Forall (fun _ => coin_ok) R;
}.

(** Nothing in flight. *)
Definition balanced_books (E : Table) (R : Coins) : Prop := books E R (fun _ => 0).

Lemma books_ext E R u v : (forall id, v id = u id) -> books E R u -> books E R v.
Proof. intros Hv [H1 H2 H3 H4]. split; [|intros id; rewrite Hv|..]; try done. intros id. by rewrite Hv. Qed.

Section Books.
Context (E : Table) (R : Coins) (u : Flight) (H : books E R u).

Lemma burnt_nonneg id : 0 <= burnt E id.
Proof. unfold burnt. destruct (E !! id) as [e|] eqn:Ee; [|done]. cbn. apply (bk_entries _ _ _ H id e Ee). Qed.

Lemma issued_bound id : 0 <= issued E id < u128_mod.
Proof.
  unfold issued. destruct (E !! id) as [e|] eqn:Ee; [|done]. cbn.
  eapply entry_issued_bound, (bk_entries _ _ _ H id e Ee).
Qed.

(** What is in flight is an amount. *)
Lemma flight_bound id : 0 <= u id < u128_mod.
Proof.
  pose proof (bk_balance _ _ _ H id). pose proof (issued_bound id). pose proof (burnt_nonneg id).
  pose proof (coins_total_nonneg id R (bk_coins _ _ _ H)). pose proof (bk_flight _ _ _ H id). lia.
Qed.

(** A rune without an entry is nowhere. *)
Lemma no_entry_no_flight id : E !! id = None -> u id = 0.
Proof.
  intros He. pose proof (bk_balance _ _ _ H id) as Hb. unfold burnt, issued in Hb. rewrite He in Hb. cbn in Hb.
  pose proof (coins_total_nonneg id R (bk_coins _ _ _ H)). pose proof (bk_flight _ _ _ H id). lia.
Qed.

(** Spending a coin puts it in flight. *)
Lemma books_spend o row :
  R !! o = Some row -> books E (delete o R) (fun id => u id + balances_total id (or_balances row)).
Proof.
  intros Ho. destruct H as [H1 H2 H3 H4]. pose proof (map_Forall_lookup_1 _ _ _ _ H4 Ho) as Hc. split.
  - intros id. pose proof (balances_total_nonneg id _ Hc). specialize (H1 id). lia.
  - intros id. rewrite <- H2, (coins_total_delete id R o row Ho). lia.
  - exact H3.
  - by apply map_Forall_delete.
Qed.

(** A new coin takes what it holds out of flight. *)
Lemma books_coin o row :
  R !! o = None -> coin_ok row -> (forall id, balances_total id (or_balances row) <= u id) ->
  books E (<[o := row]> R) (fun id => u id - balances_total id (or_balances row)).
Proof.
  intros Ho Hc Hle. destruct H as [H1 H2 H3 H4]. split.
  - intros id. specialize (Hle id). lia.
  - intros id. rewrite <- H2, coins_total_insert by done. lia.
  - exact H3.
  - by apply map_Forall_insert_2.
Qed.

(** Changing an entry: what it burns or issues more comes from or goes into flight. *)
Lemma books_entry id e e' d :
  from_option entry_issued 0 (E !! id) = e -> entry_ok id e' -> 0 <= u id + d ->
  burned e' + d - burnt E id = entry_issued e' - e ->
  books (<[id := e']> E) R (fun i => u i + if bool_decide (i = id) then d else 0).
Proof.
  intros He Hok Hd Heq. destruct H as [H1 H2 H3 H4]. split.
  - intros i. case_bool_decide as Di; [by subst|]. specialize (H1 i). lia.
  - intros i. specialize (H2 i). unfold burnt, issued in *. case_bool_decide as Di.
    + subst i. rewrite lookup_insert_eq. cbn. lia.
    + rewrite lookup_insert_ne by done. lia.
  - intros i x. intros [[<- <-]|[_ Hx]]%lookup_insert_Some; [done|by apply H3].
  - exact H4.
Qed.

Lemma books_burn id e a :
  E !! id = Some e -> 0 <= a <= u id ->
  books (<[id := with_burned e (u128_sat_add (burned e) a)]> E) R
    (fun i => u i - if bool_decide (i = id) then a else 0).
Proof.
  intros He Ha. destruct (bk_entries _ _ _ H id e He) as [O1 O2 O3 O4 O5 O6 O7].
  pose proof (bk_balance _ _ _ H id) as Hb. pose proof (issued_bound id).
  pose proof (coins_total_nonneg id R (bk_coins _ _ _ H)).
  assert (Hbe : burnt E id = burned e) by (unfold burnt; by rewrite He).
  replace (u128_sat_add (burned e) a) with (burned e + a) by (unfold u128_sat_add; lia).
  eapply books_ext; [|apply (books_entry id (entry_issued e) (with_burned e (burned e + a)) (- a))].
  - intros i. cbv beta. case_bool_decide; lia.
  - by rewrite He.
  - split; try done. cbn. lia.
  - lia.
  - rewrite Hbe. unfold entry_issued, mint_amount. cbn. lia.
Qed.

Lemma books_mint id e :
  E !! id = Some e -> mints e < mint_cap e ->
  books (<[id := with_mints e (u128_sat_add (mints e) 1)]> E) R
    (fun i => u i + if bool_decide (i = id) then mint_amount e else 0).
Proof.
  intros He Hm. destruct (bk_entries _ _ _ H id e He) as [O1 O2 O3 O4 O5 O6 O7].
  pose proof (bk_flight _ _ _ H id).
  assert (Hbe : burnt E id = burned e) by (unfold burnt; by rewrite He).
  replace (u128_sat_add (mints e) 1) with (mints e + 1) by (unfold u128_sat_add; lia).
  apply (books_entry id (entry_issued e)); [by rewrite He| |lia|].
  - split; try done. unfold mint_cap in *. cbn. lia.
  - rewrite Hbe. unfold entry_issued, mint_amount. cbn. lia.
Qed.

(** A new rune puts its premine in flight. *)
Lemma books_etch id e :
  E !! id = None -> entry_ok id e -> burned e = 0 -> mints e = 0 ->
  books (<[id := e]> E) R (fun i => u i + if bool_decide (i = id) then premine e else 0).
Proof.
  intros He Hok Hb Hm. apply (books_entry id 0); [by rewrite He|done| |].
  - pose proof (bk_flight _ _ _ H id). pose proof (eo_premine _ _ Hok). lia.
  - unfold burnt, entry_issued. rewrite He. cbn. rewrite Hb, Hm. lia.
Qed.

End Books.
