(* ===== verification/RunesSupply.v ===== *)
(** * Blocks keep the books

    The rows of the namespace represent a ledger ([represents]); indexing a block
    takes a namespace whose ledger balances to one whose ledger balances
    ([scan_books]).  The indexer's own view of the ledger is its caches on top of
    the rows: the entries it has loaded or stored, the outpoints it has created, and
    the live ones among those of the namespace. *)
From Stdlib Require Import Strings.Byte.
From stdpp Require Import strings.
From S2P Require Import Prelude Bytes StateM RunesTransfer RunesUndo RunesUndoProps RunesStore.
From S2P Require Import RunesTxIndex RunesTxIndexProps RunesChain RunesInscriptions RunesIndexer.
From S2P Require Import RunesConserve RunesJournal RunesFrame RunesLive RunesHolders.
From S2P Require Import RunesLedger.

Open Scope Z_scope.

(** ** Rows *)

Section Represents.
Context {rcodec : RuneCodec}.

Record represents (V : gmap bytes bytes) (E : Table) (R : Coins) : Prop := {
  rp_entries id : id_typed id -> V !! entry_key id = encode_entry <$> E !! id;
  rp_rows o : typed_ref o -> V !! outpoint_key o.1 o.2 = encode_outpoint <$> R !! o;
  rp_ids id : is_Some (E !! id) -> id_typed id;
  rp_refs o : is_Some (R !! o) -> typed_ref o;
}.

(** The rows can be read back. *)
Definition readable (E : Table) (R : Coins) : Prop :=
  (forall id e, E !! id = Some e -> decode_entry (encode_entry e) = Some e)
  /\ forall o row, R !! o = Some row -> decode_outpoint (encode_outpoint row) = Some row.

Lemma entry_key_inj id id' : id_typed id -> id_typed id' -> entry_key id = entry_key id' -> id = id'.
Proof. intros H H' E. apply app_inv_head in E. by apply id_key_inj. Qed.

Definition ledger_literals : list bytes := entry_literals ++ outpoint_literals.

Lemma represents_ext V V' E R :
  (forall k, family ledger_literals k -> V' !! k = V !! k) -> represents V E R -> represents V' E R.
Proof.
  intros H [H1 H2 H3 H4]. split; try done.
  - intros id Hid. rewrite H; [by apply H1|]. eapply (family_nth _ 0); [done|by eexists].
  - intros o Ho. rewrite H; [by apply H2|]. eapply (family_nth _ 1); [done|by eexists].
Qed.

Lemma entry_not_outpoint id o : entry_key id <> outpoint_key o.1 o.2.
Proof. by apply (conflict_ne (bstr "/rune/by_id/") (bstr "/outpoint/")). Qed.

Lemma represents_entry V E R id e :
  id_typed id -> represents V E R -> represents (<[entry_key id := encode_entry e]> V) (<[id := e]> E) R.
Proof.
  intros Hid [H1 H2 H3 H4]. split.
  - intros i Hi. destruct (decide (i = id)) as [->|Hne]; [by rewrite !lookup_insert_eq|].
    rewrite !lookup_insert_ne; [by apply H1|done|]. intros E'. apply Hne. symmetry. by apply entry_key_inj.
  - intros o Ho. rewrite lookup_insert_ne by apply entry_not_outpoint. by apply H2.
  - intros i. destruct (decide (i = id)) as [->|Hne]; [done|]. rewrite lookup_insert_ne by done. apply H3.
  - exact H4.
Qed.

Lemma represents_coin V E R o row :
  typed_ref o -> represents V E R ->
  represents (<[outpoint_key o.1 o.2 := encode_outpoint row]> V) E (<[o := row]> R).
Proof.
  intros Ho [H1 H2 H3 H4]. split.
  - intros i Hi. rewrite lookup_insert_ne; [by apply H1|]. apply not_eq_sym, entry_not_outpoint.
  - intros x Hx. destruct (decide (x = o)) as [->|Hne]; [by rewrite !lookup_insert_eq|].
    rewrite !lookup_insert_ne; [by apply H2|done|]. intros E'. apply Hne. symmetry. by apply outpoint_key_inj.
  - exact H3.
  - intros x. destruct (decide (x = o)) as [->|Hne]; [done|]. rewrite lookup_insert_ne by done. apply H4.
Qed.

Lemma represents_spend V E R o :
  typed_ref o -> represents V E R -> represents (delete (outpoint_key o.1 o.2) V) E (delete o R).
Proof.
  intros Ho [H1 H2 H3 H4]. split.
  - intros i Hi. rewrite lookup_delete_ne; [by apply H1|]. apply not_eq_sym, entry_not_outpoint.
  - intros x Hx. destruct (decide (x = o)) as [->|Hne]; [by rewrite !lookup_delete_eq|].
    rewrite !lookup_delete_ne; [by apply H2|done|]. intros E'. apply Hne. symmetry. by apply outpoint_key_inj.
  - exact H3.
  - intros x [row Hx]. apply lookup_delete_Some in Hx as [_ Hx]. by apply H4.
Qed.

End Represents.

(** ** The indexer's ledger *)

Section Supply.
Context {btc : BitcoinCrate} {ord : OrdinalsCrate} {node : Node} {others : OtherModules}.
Context {rcodec : RuneCodec} {icodec : IconCodec}.
Context (mainnet : bool) (genesis_override : option Z) (address_index_chunk_size : Z).
Context (N : gmap bytes bytes) (rd : bytes -> option bytes) (Hrd : forall k, rd k = N !! k).
Context (height timestamp : Z) (txs : list Transaction) (HT : typed_inputs height txs).
Context (E0 : Table) (R0 : Coins) (HN : represents N E0 R0) (Hread : readable E0 R0).

Definition table (s : BlockRunesIndexer) : Table := entries (runes s) ∪ E0.
Definition live (s : BlockRunesIndexer) : gset (bytes * Z) := default ∅ (live_outpoints (outpoints s)).
Definition coins (s : BlockRunesIndexer) : Coins :=
  ephem (outpoints s) ∪ filter (fun e => e.1 ∈ live s) R0.

(** [F]: outpoints not created yet; [G]: runes not etched yet; [u]: the amounts in flight. *)
Record ledger (F : bytes * Z -> Prop) (G : SchemaRuneId -> Prop) (u : Flight) (s : BlockRunesIndexer) : Prop := {
  lg_loaded : is_Some (live_outpoints (outpoints s));
  lg_rows : represents (pending N (batch s)) (table s) (coins s);
  lg_books : books (table s) (coins s) u;
  lg_fresh o : F o -> coins s !! o = None;
  lg_new id : G id -> table s !! id = None;
  lg_kept id : entry_key id ∉ deletes (batch s);
}.

Lemma coins_lookup s o :
  coins s !! o = match ephem (outpoints s) !! o with
                 | Some row => Some row
                 | None => if decide (o ∈ live s) then R0 !! o else None
                 end.
Proof.
  unfold coins. destruct (ephem (outpoints s) !! o) as [row|] eqn:E; [by apply lookup_union_Some_l|].
  rewrite lookup_union_r by done. destruct (decide (o ∈ live s)) as [D|D].
  - destruct (R0 !! o) as [row|] eqn:ER; [by apply map_lookup_filter_Some|].
    apply map_lookup_filter_None. by left.
  - apply map_lookup_filter_None. right. intros x _. exact D.
Qed.

Lemma table_lookup s id :
  table s !! id = match entries (runes s) !! id with Some e => Some e | None => E0 !! id end.
Proof.
  unfold table. destruct (entries (runes s) !! id) eqn:E; [by apply lookup_union_Some_l|by apply lookup_union_r].
Qed.

(** ** What leaves the ledger alone *)

Section Stable.
Context (F : bytes * Z -> Prop) (G : SchemaRuneId -> Prop) (u : Flight).

Lemma ledger_same s s' :
  ephem (outpoints s') = ephem (outpoints s) -> live_outpoints (outpoints s') = live_outpoints (outpoints s) ->
  table s' = table s ->
  (forall k, family ledger_literals k -> pending N (batch s') !! k = pending N (batch s) !! k) ->
  (forall k, family entry_literals k -> k ∈ deletes (batch s') -> k ∈ deletes (batch s)) ->
  ledger F G u s -> ledger F G u s'.
Proof.
  intros H1 H2 H3 H4 H5 [L1 L2 L3 L4 L5 L6].
  assert (HC : coins s' = coins s) by (unfold coins, live; by rewrite H1, H2).
  split; rewrite ?H2, ?H3, ?HC; try done; [by eapply represents_ext|].
  intros id Hk. apply (L6 id), H5; [apply quiet_entry|done].
Qed.

Lemma key_ok_ledger L k : apart_literals ledger_literals L = true -> family L k -> key_ok (ledger F G u) k.
Proof.
  intros HL Hk. assert (Hne : forall x, family ledger_literals x -> x <> k)
    by (intros x Hx; by eapply families_apart).
  split; intros; (eapply ledger_same; [| | | | |eassumption]); try done; cbn [batch on_batch]; intros x Hx.
  - apply pending_put_other. by apply Hne.
  - apply pending_undelete_other. by apply Hne.
  - cbn. set_solver.
  - rewrite pending_queue_delete, lookup_delete_ne; [done|]. symmetry. by apply Hne.
  - cbn. destruct Hx as (p & Hp & Hx). apply list_elem_of_singleton in Hp as ->.
    assert (x <> k) by (apply Hne; eapply (family_nth _ 0); [done|exact Hx]). set_solver.
Qed.

Lemma stable_ledger : stable (ledger F G u).
Proof.
  split; intros; try (eapply ledger_same; [| | | | |eassumption]; done). by apply (key_ok_ledger quiet_literals).
Qed.

Lemma name_keys_ledger k : family name_literals k -> key_ok (ledger F G u) k.
Proof. by apply key_ok_ledger. Qed.

Lemma accounts_ledger : accounts_safe rd (ledger F G u).
Proof.
  apply accounts_quiet; [exact stable_ledger| |].
  - intros k. by apply key_ok_ledger.
  - intros f s. by apply ledger_same.
Qed.

End Stable.

(** ** Runes *)

Abbreviation held F G u := (framed (ledger F G u)).

Lemma load_entry_held F G u id :
  id_typed id ->
  triple (held F G u) (load_entry rd id) (fun r s => held F G u s /\ table s !! id = r).
Proof.
  intros Hid s a s' Hs. unfold load_entry, get_rune, mbind, M_bind, gets, lift, modify, mret, M_ret.
  destruct (entries (runes s) !! id) as [e|] eqn:Ec.
  { intros [= <- <-]. split; [done|]. by rewrite table_lookup, Ec. }
  rewrite Hrd, (rp_entries _ _ _ HN) by done. destruct (E0 !! id) as [e|] eqn:E; cbn [fmap option_fmap option_map].
  2: { intros [= <- <-]. split; [done|]. by rewrite table_lookup, Ec. }
  rewrite (proj1 Hread id e E). intros [= <- <-].
  assert (HTb : table (on_runes (upd_rune_to_id (insert (re_rune e) id)) (on_runes (upd_entries (insert id e)) s)) = table s).
  { apply map_eq. intros i. rewrite !table_lookup. cbn. destruct (decide (i = id)) as [->|Hne].
    - by rewrite lookup_insert_eq, Ec, E.
    - by rewrite lookup_insert_ne. }
  destruct Hs as [Hl [R1 R2]]. split; [split; [|by split]|].
  - eapply ledger_same; [| | | | |exact Hl]; try done.
  - by rewrite HTb, table_lookup, Ec.
Qed.

(** Storing an entry whose books are known to balance. *)
Lemma store_entry_held F G G' u u' e :
  id_typed (re_id e) -> (forall i, G' i -> G i /\ i <> re_id e) ->
  triple (fun s => held F G u s /\ books (<[re_id e := e]> (table s)) (coins s) u') (store_entry e)
    (fun _ => held F G' u').
Proof.
  intros Hid HG s a s' [[Hl [R1 R2]] Hb]. unfold store_entry, push_put, mbind, M_bind, modify. intros [= <- <-].
  split; [|by split]. destruct Hl as [L1 L2 L3 L4 L5 L6]. set (s2 := on_batch _ _).
  assert (HTb : table s2 = <[re_id e := e]> (table s)) by (unfold table; cbn; by rewrite insert_union_l).
  split; rewrite ?HTb; try done.
  - cbn [batch on_batch s2 on_runes]. rewrite pending_push by apply L6. by apply represents_entry.
  - intros i Hi. destruct (HG i Hi) as [HGi Hne]. rewrite lookup_insert_ne by done. by apply L5.
Qed.

Lemma store_then {A} F G G' u u' e (k : M BlockRunesIndexer A) Q :
  id_typed (re_id e) -> (forall i, G' i -> G i /\ i <> re_id e) -> triple (held F G' u') k Q ->
  triple (fun s => held F G u s /\ books (<[re_id e := e]> (table s)) (coins s) u') (store_entry e;; k) Q.
Proof. intros Hid HG Hk. eapply triple_bind; [by apply store_entry_held|]. by intros []. Qed.

Lemma held_ext F G u v s : (forall id, v id = u id) -> held F G u s -> held F G v s.
Proof. intros H [[L1 L2 L3 L4 L5 L6] Hr]. split; [|done]. split; try done. by eapply books_ext. Qed.

Lemma held_new F G u s id e : held F G u s -> table s !! id = Some e -> forall i, G i -> G i /\ i <> id.
Proof. intros [Hl _] He i Hi. split; [done|]. intros ->. rewrite (lg_new _ _ _ _ Hl id Hi) in He. done. Qed.

Lemma held_books F G u s : held F G u s -> books (table s) (coins s) u.
Proof. intros [Hl _]. apply Hl. Qed.

Lemma burn_held F G u id a :
  id_typed id -> 0 <= a <= u id ->
  triple (held F G u) (burn rd id a) (fun _ => held F G (fun i => u i - if bool_decide (i = id) then a else 0)).
Proof.
  intros Hid Ha. unfold burn. eapply triple_bind; [by apply load_entry_held|].
  intros [e|] s r s' [Hs He] Hrun.
  - pose proof (books_burn _ _ _ (held_books _ _ _ _ Hs) id e a He Ha) as Hb.
    assert (Hre : re_id e = id) by apply (bk_entries _ _ _ (held_books _ _ _ _ Hs) id e He).
    eapply (store_entry_held F G G u); [| |split; [exact Hs|]|exact Hrun]; cbn [re_id with_burned]; rewrite Hre;
      [done|by eapply held_new|exact Hb].
  - injection Hrun as <- <-. eapply held_ext; [|exact Hs]. intros i. case_bool_decide as D; [|lia]. subst i.
    pose proof (no_entry_no_flight _ _ _ (held_books _ _ _ _ Hs) id He). lia.
Qed.

(** A mint puts its amount in flight. *)
Definition minted_flight (u : Flight) (id : SchemaRuneId) (r : option Z) : Flight :=
  fun i => u i + if bool_decide (i = id) then default 0 r else 0.

Lemma mintable_spec e h i a : mintable e h i = Some a -> a = mint_amount e /\ mints e < mint_cap e.
Proof.
  unfold mintable, mint_amount, mint_cap. destruct (terms e) as [t|]; [|done]. cbn [mbind option_bind].
  destruct (t_amount t) as [x|]; [|done]. cbn [mbind option_bind]. cbv zeta.
  do 3 (match goal with |- (if ?b then _ else _) = _ -> _ => destruct b end; [done|]). destruct (Z.leb_spec (default 0 (t_cap t)) (mints e)); [done|]. intros [= <-].
  done.
Qed.

Lemma mint_held F G u id i :
  id_typed id -> triple (held F G u) (mint rd height id i) (fun r => held F G (minted_flight u id r)).
Proof.
  intros Hid. unfold mint. eapply triple_bind; [by apply load_entry_held|].
  assert (H0 : forall s, held F G u s -> held F G (minted_flight u id None) s).
  { intros s. apply held_ext. intros j. unfold minted_flight. cbn. case_bool_decide; lia. }
  intros [e|] s r s' [Hs He] Hrun; [|injection Hrun as <- <-; by apply H0].
  destruct (mintable e height i) as [amount|] eqn:Em; [|injection Hrun as <- <-; by apply H0].
  apply mintable_spec in Em as [-> Hlt].
  pose proof (books_mint _ _ _ (held_books _ _ _ _ Hs) id e He Hlt) as Hb.
  assert (Hre : re_id e = id) by apply (bk_entries _ _ _ (held_books _ _ _ _ Hs) id e He).
  eapply (store_then F G G u (minted_flight u id (Some (mint_amount e))) (with_mints e (u128_sat_add (mints e) 1))
            (mret (Some (mint_amount e))) (fun r => held F G (minted_flight u id r)));
    [| | |split; [exact Hs|]|exact Hrun]; cbn [re_id with_mints]; rewrite ?Hre;
    [done|by eapply held_new|by apply triple_ret|exact Hb].
Qed.

(** What an etching may issue is an amount; the deciphering of a runestone sees to it. *)
Definition etching_ok (e : Etching) : Prop :=
  let amount := default 0 (et_terms e ≫= te_amount) in
  let cap := default 0 (et_terms e ≫= te_cap) in
  0 <= default 0 (et_premine e) /\ 0 <= amount /\ 0 <= cap < u128_mod
  /\ default 0 (et_premine e) + cap * amount < u128_mod.

Definition artifact_supply (a : Artifact) : Prop :=
  match a with ARunestone r => forall e, rs_etching r = Some e -> etching_ok e | ACenotaph _ => True end.

Section Entries.
Context (F : bytes * Z -> Prop) (G : SchemaRuneId -> Prop) (u : Flight).

Lemma runes_field_held f :
  (forall r, entries (f r) = entries r) -> safe (held F G u) (modify (on_runes f)) (fun _ => True).
Proof.
  intros Hf. apply f_modify; [|done]. intros s. apply ledger_same; try done. unfold table. cbn. by rewrite Hf.
Qed.

Lemma seq_held : triple (held F G u) (next_sequence rd) (fun _ => held F G u).
Proof.
  eapply triple_inv. apply f_counter; [apply stable_ledger| |].
  - intros v. by apply runes_field_held.
  - apply name_keys_ledger, quiet_seq_count.
Qed.

(** The names of an entry that is stored. *)
Lemma names_held e r n id : triple (held F G u) (index_names e r n id) (fun _ => held F G u).
Proof.
  eapply triple_inv.
  apply f_index_names. intros k. apply name_keys_ledger.
Qed.

Lemma known_held r id :
  triple (held F G u) (modify (on_runes (upd_rune_to_id (insert r id)))) (fun _ => held F G u).
Proof.
  eapply triple_inv. by apply runes_field_held.
Qed.

Lemma icon_held tx id :
  triple (held F G u) (match rune_icon_from_etching_tx tx with
                       | Some icon => push_put (rune_icon_key id) (encode_icon icon)
                       | None => mret tt
                       end) (fun _ => held F G u).
Proof.
  destruct (rune_icon_from_etching_tx tx); [|by apply triple_ret].
  eapply triple_inv. apply f_push.
  apply name_keys_ledger, quiet_icon.
Qed.

End Entries.

(** A new entry. *)
Lemma new_entry_held {A} F G G' u e (k : M BlockRunesIndexer A) Q :
  id_typed (re_id e) -> G (re_id e) -> (forall i, G' i -> G i /\ i <> re_id e) ->
  entry_ok (re_id e) e -> burned e = 0 -> mints e = 0 ->
  triple (held F G' (fun i => u i + if bool_decide (i = re_id e) then premine e else 0)) k Q ->
  triple (held F G u) (store_entry e;; k) Q.
Proof.
  intros Hid HG HG' Hok Hb Hm Hk.
  eapply triple_weaken; [|exact (store_then F G G' u _ e k Q Hid HG' Hk)|done].
  intros s Hs. split; [done|]. apply books_etch; [by eapply held_books|by apply (lg_new _ _ _ _ (proj1 Hs))|done..].
Qed.

Lemma make_entry_ok id rune spacers symbol div pre ts txid n t turbo :
  etching_ok (mkEtching (Some div) (Some pre) None (Some spacers) symbol ts turbo) ->
  entry_ok id (make_entry id rune spacers symbol div pre ts txid n t turbo).
Proof.
  intros (H1 & H2 & H3 & H4). unfold make_entry. cbn in *.
  split; unfold mint_amount, mint_cap; cbn; try done; destruct ts as [ts|]; cbn in *; try done; lia.
Qed.

Lemma held_absent F G u s id : held F G u s -> table s !! id = None -> held F (fun i => G i \/ i = id) u s.
Proof. intros [[L1 L2 L3 L4 L5 L6] Hr] Hn. split; [|done]. split; try done. intros i [Hi| ->]; [by apply L5|done]. Qed.

Lemma genesis_typed : id_typed GENESIS_RUNE_ID.
Proof. unfold id_typed. cbn. lia. Qed.

Lemma genesis_held F G u txid gh :
  (forall i, G i -> i <> GENESIS_RUNE_ID) ->
  triple (held F G u) (ensure_genesis_rune rd timestamp txid gh) (fun _ => held F G u).
Proof.
  intros HG. unfold ensure_genesis_rune. eapply triple_bind; [apply load_entry_held, genesis_typed|].
  intros [e|]; [apply triple_ret; by intros s []|].
  apply (triple_weaken (held F (fun i => G i \/ i = GENESIS_RUNE_ID) u) _ _ (fun _ => held F G u)); [|..|done].
  { intros s [Hs He]. by apply held_absent. }
  eapply triple_bind; [apply (triple_lift _ _ (fun _ => held F (fun i => G i \/ i = GENESIS_RUNE_ID) u)); done|].
  intros rune. eapply triple_bind; [apply seq_held|]. intros seq.
  apply (new_entry_held F _ G); cbn [re_id make_entry]; try done.
  - by right.
  - intros i Hi. split; [by left|by apply HG].
  - apply (triple_weaken (held F G u) _ _ (fun _ => held F G u)); [|..|done].
    { intros s. apply held_ext. intros i. cbn. case_bool_decide; lia. }
    eapply triple_bind; [apply known_held|]. intros []. apply names_held.
Qed.

(** The premine of an artifact. *)
Definition artifact_premine (a : Artifact) : Z :=
  match a with ARunestone r => default 0 (rs_etching r ≫= et_premine) | ACenotaph _ => 0 end.

Lemma create_held F G G' u i rune txid tx a et :
  id_typed (mkRuneId height i) -> G (mkRuneId height i) ->
  (forall j, G' j -> G j /\ j <> mkRuneId height i) ->
  artifact_supply a -> (forall r, a = ARunestone r -> et = rs_etching r /\ is_Some et) ->
  triple (held F G u) (create_rune_entry rd timestamp (mkRuneId height i) rune txid tx et a)
    (fun _ => held F G' (fun j => u j + if bool_decide (j = mkRuneId height i) then artifact_premine a else 0)).
Proof.
  intros Hid HG HG' Ha Het. unfold create_rune_entry. eapply triple_bind; [apply seq_held|]. intros n.
  set (e := match a with ARunestone _ => _ | ACenotaph _ => _ end).
  assert (He : re_id e = mkRuneId height i /\ entry_ok (re_id e) e /\ burned e = 0 /\ mints e = 0
               /\ premine e = artifact_premine a).
  { unfold e. destruct a as [r|c]; cbn [re_id make_entry].
    - destruct (Het r eq_refl) as [-> [x Hx]]. rewrite Hx. cbn [default]. split_all; try done.
      + apply make_entry_ok. exact (Ha x Hx).
      + cbn. by rewrite Hx.
    - by split_all. }
  destruct He as (H1 & H2 & H3 & H4 & H5).
  apply (new_entry_held F G G'); rewrite ?H1, ?H5; try done; [by rewrite H1 in H2|].
  eapply triple_bind; [apply known_held|]. intros []. eapply triple_bind; [apply names_held|]. intros [].
  apply icon_held.
Qed.

(** ** Outpoints *)

Lemma outpoints_typed : outpoints_safe rd (fun _ => True) txs.
Proof. eapply outpoints_quiet; [by split|done|by split|done]. Qed.

(** The state after a coin is spent. *)
Record spent_state (o : bytes * Z) (s s' : BlockRunesIndexer) : Prop := {
  ss_ephem : ephem (outpoints s') = delete o (ephem (outpoints s));
  ss_live : live_outpoints (outpoints s') = (fun l => l ∖ {[o]}) <$> live_outpoints (outpoints s);
  ss_entries : entries (runes s') = entries (runes s);
  ss_pending : pending N (batch s') = delete (outpoint_key o.1 o.2) (pending N (batch s));
  ss_deletes : deletes (batch s') = {[outpoint_key o.1 o.2]} ∪ deletes (batch s);
}.

Lemma spent_ledger F G u o row s s' :
  typed_ref o -> spent_state o s s' -> coins s !! o = Some row -> ledger F G u s ->
  ledger F G (fun i => u i + balances_total i (or_balances row)) s'.
Proof.
  intros Ho [S1 S2 S3 S4 S5] Hrow [L1 L2 L3 L4 L5 L6].
  assert (HC : coins s' = delete o (coins s)).
  { destruct L1 as [l Hl]. apply map_eq. intros x. rewrite coins_lookup, S1.
    assert (live s = l) as Hls by (unfold live; by rewrite Hl).
    assert (live s' = l ∖ {[o]}) as -> by (unfold live; by rewrite S2, Hl).
    destruct (decide (x = o)) as [->|Hne].
    - rewrite !lookup_delete_eq. rewrite decide_False; [done|set_solver].
    - rewrite !lookup_delete_ne by done. rewrite coins_lookup, Hls. case_match; [done|].
      destruct (decide (x ∈ l)); [rewrite decide_True by set_solver|rewrite decide_False by set_solver]; done. }
  assert (HTb : table s' = table s) by (unfold table; by rewrite S3).
  split; rewrite ?HC, ?HTb; try done.
  - rewrite S2. destruct L1 as [l ->]. by eexists.
  - rewrite S4. by apply represents_spend.
  - by apply books_spend.
  - intros x Hx. apply lookup_delete_None. right. by apply L4.
  - intros id. rewrite S5. pose proof (entry_not_outpoint id o). specialize (L6 id). set_solver.
Qed.

(** Taking the row of a loaded outpoint away. *)
Lemma spend_row_state o s r s' :
  typed_ref o -> is_Some (live_outpoints (outpoints s)) -> spend_row rd o s = (Some r, s') ->
  match r with
  | None => s' = s
  | Some (row, _) => spent_state o s s' /\ coins s !! o = Some row
  end.
Proof.
  intros Ho [l Hl]. rewrite coins_lookup. assert (live s = l) as -> by (unfold live; by rewrite Hl).
  assert (Hfin : forall s1 row prev, live_outpoints (outpoints s1) = live_outpoints (outpoints s) ->
    ephem (outpoints s1) = delete o (ephem (outpoints s)) -> runes s1 = runes s -> batch s1 = batch s ->
    spent_state o s (on_batch (upd_deletes (fun d => {[outpoint_key o.1 o.2]} ∪ d))
      (on_batch (upd_preimages (fun p => or_insert p (outpoint_key o.1 o.2) prev))
        (on_outpoints (upd_cache (delete o)) (on_outpoints (upd_live (fun l => l ∖ {[o]})) s1))))
    /\ Some row = Some (row : OutpointRuneBalances)).
  { intros s1 row prev A1 A2 A3 A4. split; [|done]. split; cbn [outpoints runes batch on_batch on_outpoints].
    - exact A2.
    - by rewrite <- A1.
    - by rewrite A3.
    - by rewrite pending_queue_delete, A4.
    - by rewrite <- A4. }
  unfold spend_row, take_row, get_outpoint_balances, live_outpoints_contains, mbind, M_bind, gets, lift, modify, mret, M_ret.
  destruct (ephem (outpoints s) !! o) as [row|] eqn:Ee.
  { intros [= <- <-]. by apply (Hfin _ row None). }
  rewrite Hl. rewrite bool_decide_true by by eexists. cbv beta iota zeta. rewrite Hl.
  destruct (decide (o ∈ l)) as [D|D]; [rewrite bool_decide_true by done|rewrite bool_decide_false by done]; cbn [negb].
  2: { by intros [= <- <-]. }
  rewrite Hrd, (rp_rows _ _ _ HN) by done. destruct (R0 !! o) as [row|] eqn:ER; cbn [fmap option_fmap option_map].
  2: { by intros [= <- <-]. }
  rewrite (proj2 Hread o row ER). intros [= <- <-].
  apply (Hfin s row (Some (encode_outpoint row))); try done. by rewrite delete_id.
Qed.

Lemma spend_row_held F G u o :
  typed_ref o ->
  triple (held F G u) (spend_row rd o) (fun r s =>
    match r with
    | None => held F G u s
    | Some (row, _) => row_typed row /\ held F G (fun i => u i + balances_total i (or_balances row)) s
    end).
Proof.
  intros Ho s r s' [Hl Hr] E. pose proof (spend_row_state o s r s' Ho (lg_loaded _ _ _ _ Hl) E) as Hst.
  destruct (os_spend _ _ _ outpoints_typed o Ho s) as [[_ Hr'] HR]; [by split|]. rewrite E in Hr', HR.
  specialize (HR r eq_refl). destruct r as [[row prev]|]; [|by subst].
  destruct Hst as [Hst Hc]. split; [by eapply HR|]. split; [by eapply spent_ledger|done].
Qed.

(** Adding a coin. *)
Lemma add_row_held F F' G u o row :
  typed_ref o -> row_typed row -> F o -> (forall x, F' x -> F x /\ x <> o) -> coin_ok row ->
  (forall i, balances_total i (or_balances row) <= u i) ->
  triple (held F G u) (add_row o row)
    (fun _ => held F' G (fun i => u i - balances_total i (or_balances row))).
Proof.
  intros Ho Hrow HF HF' Hc Hle s r s' [Hl Hr] E.
  destruct (os_add _ _ _ outpoints_typed o row Ho Hrow s) as [[_ Hr'] _]; [by split|]. rewrite E in Hr'.
  split; [|done]. injection E as <- <-. set (s2 := on_batch _ _). destruct Hl as [L1 L2 L3 L4 L5 L6].
  assert (HC : coins s2 = <[o := row]> (coins s)).
  { destruct L1 as [l Hl]. apply map_eq. intros x. rewrite coins_lookup.
    change (ephem (outpoints s2)) with (<[o := row]> (ephem (outpoints s))).
    assert (live s = l) as Hls by (unfold live; by rewrite Hl).
    assert (live s2 = {[o]} ∪ l) as -> by (unfold live; cbn; by rewrite Hl).
    destruct (decide (x = o)) as [->|Hne]; [by rewrite !lookup_insert_eq|].
    rewrite !lookup_insert_ne by done. rewrite coins_lookup, Hls. case_match; [done|].
    destruct (decide (x ∈ l)); [rewrite decide_True by set_solver|rewrite decide_False by set_solver]; done. }
  split; rewrite ?HC; try done.
  - destruct L1 as [l Hl]. cbn. rewrite Hl. by eexists.
  - change (batch s2) with (upd_puts (fun ps => ps ++ [(outpoint_key o.1 o.2, encode_outpoint row)])
      (upd_deletes (fun d => d ∖ {[outpoint_key o.1 o.2]}) (batch s))).
    rewrite pending_queue_put. by apply represents_coin.
  - by apply books_coin; [done|apply L4|..].
  - intros x Hx. destruct (HF' x Hx) as [HFx Hne]. rewrite lookup_insert_ne by done. by apply L4.
  - intros id. change (deletes (batch s2)) with (deletes (batch s) ∖ {[outpoint_key o.1 o.2]}).
    specialize (L6 id). set_solver.
Qed.

(** ** Inputs *)

Abbreviation flight sh := (fun i : SchemaRuneId => amount_of i sh) (only parsing).

(** A sheet of typed runes and amounts that is in flight. *)
Definition sheet_fits (sh : gmap SchemaRuneId Z) : Prop := sheet_u128 sh /\ sheet_typed sh.

Record carried F G (sh : gmap SchemaRuneId Z) (s : BlockRunesIndexer) : Prop := {
  ca_fits : sheet_fits sh;
  ca_held : held F G (flight sh) s;
}.

(** Adding to the sheet what was added in flight. *)
Lemma carry_balances F G sh bs s :
  sheet_fits sh -> Forall (fun b => id_typed (rb_id b)) bs ->
  held F G (fun i => amount_of i sh + balances_total i bs) s -> carried F G (add_balances sh bs) s.
Proof.
  intros [H1 H2] Hb Hs. destruct (add_balances_spec sh bs H1) as [A1 A2].
  split; [split; [done|by apply add_balances_typed]|]. eapply held_ext; [|exact Hs]. intros i. cbv beta.
  rewrite A2. apply Z.mod_small. apply (flight_bound _ _ _ (held_books _ _ _ _ Hs) i).
Qed.

Lemma carry_add F G sh id x s :
  sheet_fits sh -> id_typed id -> held F G (fun i => amount_of i sh + if bool_decide (i = id) then x else 0) s ->
  carried F G (sheet_add sh id x) s.
Proof.
  intros Hf Hid Hs. apply (carry_balances F G sh [mkBalance id x]); [done|by apply Forall_singleton|].
  eapply held_ext; [|exact Hs]. intros i. rewrite balances_total_cons. cbn [rb_id rb_amount].
  unfold balances_total. cbn [foldr]. case_bool_decide as D1; case_bool_decide as D2; subst; try done; lia.
Qed.

Lemma carried_safe {A} F G sh (m : M BlockRunesIndexer A) R :
  safe (held F G (flight sh)) m R -> triple (carried F G sh) m (fun _ => carried F G sh).
Proof. intros H s a s' [Hf Hs] E. split; [done|]. exact (triple_inv _ _ _ H s a s' Hs E). Qed.

Lemma spend_input_carried F G L x :
  typed_ref (op_txid (previous_output x.2), op_vout (previous_output x.2)) ->
  triple (carried F G (unalloc L)) (spend_input rd L x) (fun L' => carried F G (unalloc L')).
Proof.
  intros Ho. unfold spend_input. set (o := (_, _)) in *.
  eapply (triple_bind _ _ _ (fun r s => match r with
    | None => carried F G (unalloc L) s
    | Some (row, _) => row_typed row /\ carried F G (add_balances (unalloc L) (or_balances row)) s end)).
  { intros s r s' [Hf Hs] E. pose proof (spend_row_held F G _ o Ho s r s' Hs E) as H.
    destruct r as [[row prev]|]; [|done]. destruct H as [Hr H]. split; [done|]. by apply carry_balances. }
  intros [[row prev]|]; [|by apply triple_ret]. apply triple_pure. intros Hrow.
  destruct (or_address row) as [a|]; [|by apply triple_ret].
  eapply triple_bind; [eapply carried_safe, f_note, stable_ledger|]. intros [].
  eapply triple_bind.
  { eapply carried_safe, f_delete, (st_keys _ (stable_ledger _ _ _)), quiet_address_outpoint. }
  intros []. eapply triple_bind; [eapply carried_safe, deltas_safe; [apply accounts_ledger|exact Hrow]|].
  intros []. by apply triple_ret.
Qed.

Lemma unallocated_carried F G tx :
  tx ∈ txs -> triple (held F G (fun _ => 0)) (unallocated rd tx) (fun L => carried F G (unalloc L)).
Proof.
  intros Htx. unfold unallocated.
  eapply (triple_weaken (fun s => Forall (fun x : Z * TxIn => x.2 ∈ input tx) (enumerate (input tx))
    /\ carried F G (unalloc locals0) s)); [|apply (triple_fold_each (fun rest L s =>
    Forall (fun x : Z * TxIn => x.2 ∈ input tx) rest /\ carried F G (unalloc L) s))|by intros L s []].
  - intros s Hs. split.
    + apply Forall_forall. intros [i x] Hx. by apply elem_of_enumerate in Hx as [_ Hx].
    + split; [|eapply held_ext; [|exact Hs]; done]. split; [intros id x H|intros id [x H]]; cbn in H; by rewrite lookup_empty in H.
  - intros x l L. apply triple_pure. intros [Hx Hl]%Forall_cons.
    eapply triple_weaken; [done|apply spend_input_carried; by apply (ty_inputs _ _ HT tx)|]. done.
Qed.

(** ** Etching and minting *)

Lemma held_weaken F F' G G' u s :
  (forall x, F' x -> F x) -> (forall i, G' i -> G i) -> held F G u s -> held F' G' u s.
Proof. intros HF HG [[L1 L2 L3 L4 L5 L6] Hr]. split; [|done]. split; eauto. Qed.

Lemma etched_result i tx a s r s' :
  etched rd height i tx a s = (Some r, s') ->
  s' = s /\ match r with
            | None => True
            | Some (id, _, et) => id = mkRuneId height i
                /\ forall rs, a = ARunestone rs -> et = rs_etching rs /\ is_Some et
            end.
Proof.
  unfold etched, rune_exists, mbind, M_bind, gets, mret, M_ret. destruct a as [rs|c].
  - destruct (rs_etching rs) as [e|] eqn:Er; cbn [fmap option_fmap option_map]; [|by intros [= <- <-]].
    destruct (et_rune e) as [rune|]; [|intros [= <- <-]; split_all; try done; intros ? [= <-]; by rewrite Er].
    destruct (_ || _); [by intros [= <- <-]|]. destruct (bool_decide _).
    + by intros [= <- <-].
    + destruct (_ || _); [by intros [= <- <-]|]. intros [= <- <-]. split_all; try done. intros ? [= <-]. by rewrite Er.
  - destruct (ce_etching c) as [rune|]; cbn [fmap option_fmap option_map]; [|by intros [= <- <-]].
    destruct (_ || _); [by intros [= <- <-]|]. destruct (bool_decide _); [by intros [= <- <-]|].
    destruct (_ || _); by intros [= <- <-].
Qed.

Lemma etch_carried F G G' i tx txid art un :
  0 <= i < 2 ^ 32 -> G (mkRuneId height i) -> (forall j, G' j -> G j /\ j <> mkRuneId height i) ->
  (forall a, art = Some a -> artifact_supply a) ->
  triple (carried F G un) (etch_step rd height timestamp i tx txid art un)
    (fun r s => (forall id, r.1 = Some id -> id_typed id) /\ carried F G' r.2 s).
Proof.
  intros Hi HG HG' Ha.
  assert (H0 : forall s, carried F G un s ->
    (forall id, (None : option SchemaRuneId) = Some id -> id_typed id) /\ carried F G' un s).
  { intros s [Hf Hs]. split; [done|]. split; [done|]. eapply held_weaken; [| |exact Hs]; [done|]. intros j Hj. by apply HG'. }
  assert (Hid : id_typed (mkRuneId height i)) by (split; [apply (ty_height _ _ HT)|done]).
  unfold etch_step. destruct art as [a|]; [|apply triple_ret; exact H0].
  eapply (triple_bind _ _ _ (fun r s => match r with
    | None => carried F G un s
    | Some (id, _, et) => (id = mkRuneId height i
        /\ forall rs, a = ARunestone rs -> et = rs_etching rs /\ is_Some et) /\ carried F G un s end)).
  { intros s r s' Hs E. apply etched_result in E as [-> E]. by destruct r as [[[id rune] et]|]. }
  intros [[[id rune] et]|]; [|apply triple_ret; exact H0]. apply triple_pure. intros [-> Het].
  eapply (triple_bind _ _ _ (fun _ s => sheet_fits un /\ held F G' (fun j => amount_of j un
    + if bool_decide (j = mkRuneId height i) then artifact_premine a else 0) s)).
  { intros s r s' [Hf Hs] E. split; [done|].
    exact (create_held F G G' (flight un) i rune txid tx a et Hid HG HG' (Ha a eq_refl) Het s r s' Hs E). }
  intros []. apply triple_ret. intros s [Hf Hs]. cbn [fst snd]. split; [by intros id [= <-]|].
  destruct a as [rs|c]; cbn [artifact_premine] in Hs.
  - by apply carry_add.
  - split; [done|]. eapply held_ext; [|exact Hs]. intros j. cbv beta. case_bool_decide; lia.
Qed.

Lemma mint_carried F G i tx art un :
  (forall a, art = Some a -> decipher tx = Some a) ->
  triple (carried F G un) (mint_step rd height i art un)
    (fun r s => Forall (fun b => id_typed (rb_id b)) r.1 /\ carried F G r.2 s).
Proof.
  intros Ha. unfold mint_step. destruct (art ≫= artifact_mint) as [id|] eqn:Em; [|by apply triple_ret].
  apply bind_Some in Em as (a & -> & Hm).
  assert (Hid : id_typed (from_rune_id id)) by (apply (ty_mint _ _ HT tx a); [by apply Ha|done]).
  eapply (triple_bind _ _ _ (fun r s => sheet_fits un /\ held F G (minted_flight (flight un) (from_rune_id id) r) s)).
  { intros s r s' [Hf Hs] E. split; [done|]. by apply (mint_held F G (flight un) _ i Hid s r s'). }
  intros [amount|]; apply triple_ret; intros s [Hf Hs]; cbn [fst snd].
  - split; [by apply Forall_singleton|by apply carry_add].
  - split; [done|]. split; [done|]. eapply held_ext; [|exact Hs]. intros j. unfold minted_flight. cbn. case_bool_decide; lia.
Qed.

(** ** Burning and outputs *)

Lemma burn_step F G id a v :
  id_typed id -> 0 <= a -> (forall i, 0 <= v i) ->
  triple (held F G (fun i => (if bool_decide (id = i) then a else 0) + v i)) (burn rd id a) (fun _ => held F G v).
Proof.
  intros Hid Ha Hv. eapply triple_weaken; [done|apply burn_held; [done|]|].
  - cbv beta. rewrite bool_decide_true by done. specialize (Hv id). lia.
  - intros [] s. apply held_ext. intros i. case_bool_decide as D1; case_bool_decide as D2; subst; try done; lia.
Qed.

Lemma burn_list_held F G bs v :
  Forall (fun b => id_typed (rb_id b)) bs -> Forall balance_ok bs -> (forall i, 0 <= v i) ->
  triple (held F G (fun i => balances_total i bs + v i))
    (for_each bs (fun b => burn rd (rb_id b) (rb_amount b))) (fun _ => held F G v).
Proof.
  intros Ht Hb Hv.
  eapply (triple_weaken (fun s => (Forall (fun b => id_typed (rb_id b)) bs /\ Forall balance_ok bs)
    /\ held F G (fun i => balances_total i bs + v i) s)); [done| |].
  - apply (triple_for_each (fun rest s => (Forall (fun b => id_typed (rb_id b)) rest /\ Forall balance_ok rest)
      /\ held F G (fun i => balances_total i rest + v i) s)).
    intros b rest. apply triple_pure. intros [[H1 H2]%Forall_cons [H3 H4]%Forall_cons].
    eapply triple_weaken; [|apply (burn_step F G (rb_id b) (rb_amount b) (fun i => balances_total i rest + v i)); try done|].
    + intros s. apply held_ext. intros i. rewrite balances_total_cons. lia.
    + intros i. pose proof (balances_total_nonneg i rest H4). specialize (Hv i). lia.
    + by intros [] s Hs.
  - intros [] s [_ Hs]. eapply held_ext; [|exact Hs]. intros i. unfold balances_total. cbn. lia.
Qed.

(** The entries of a sheet, zeros included. *)
Definition pair_balance (e : SchemaRuneId * Z) : RuneBalance := mkBalance e.1 e.2.

Lemma sheet_entries_total i sh :
  sheet_ok sh -> balances_total i (pair_balance <$> sheet_entries sh) = amount_of i sh.
Proof.
  intros Hs. rewrite <- (balances_from_sheet_total i sh Hs). unfold balances_from_sheet.
  assert (Hl : Forall (fun e => 0 <= e.2) (sheet_entries sh)).
  { apply Forall_forall. intros [j x] Hx. unfold sheet_entries in Hx. rewrite (sort_by_perm _ _) in Hx.
    apply elem_of_map_to_list in Hx. by eapply Hs. }
  induction Hl as [|e l He _ IH]; [done|]. cbn [fmap list_fmap omap list_omap]. rewrite balances_total_cons.
  cbn [rb_id rb_amount pair_balance]. destruct (Z.ltb_spec 0 e.2).
  - rewrite balances_total_cons. cbn [rb_id rb_amount]. by rewrite IH.
  - rewrite <- IH. case_bool_decide; lia.
Qed.

Lemma record_burned_held F G sh v :
  sheet_ok sh -> (forall i, amount_of i sh <> 0 -> id_typed i) -> (forall i, 0 <= v i) ->
  triple (held F G (fun i => amount_of i sh + v i)) (record_burned rd sh) (fun _ => held F G v).
Proof.
  intros Hs Ht Hv.
  set (ok := fun e : SchemaRuneId * Z => (e.2 <> 0 -> id_typed e.1) /\ 0 <= e.2).
  assert (Hok : Forall ok (sheet_entries sh)).
  { apply Forall_forall. intros [j x] Hx. unfold sheet_entries in Hx. rewrite (sort_by_perm _ _) in Hx.
    apply elem_of_map_to_list in Hx. split; [|by eapply Hs].
    cbn [fst snd]. intros Hne. apply Ht. unfold amount_of. by rewrite Hx. }
  eapply (triple_weaken (fun s => Forall ok (sheet_entries sh)
    /\ held F G (fun i => balances_total i (pair_balance <$> sheet_entries sh) + v i) s)).
  { intros s Hh. split; [done|]. eapply held_ext; [|exact Hh]. intros i. cbv beta. by rewrite sheet_entries_total. }
  - apply (triple_for_each (fun rest s => Forall ok rest
      /\ held F G (fun i => balances_total i (pair_balance <$> rest) + v i) s)).
    intros e rest. apply triple_pure. intros [[H1 H2] H3]%Forall_cons.
    assert (Hn : forall i, 0 <= balances_total i (pair_balance <$> rest) + v i).
    { intros i. assert (0 <= balances_total i (pair_balance <$> rest)); [|specialize (Hv i); lia].
      apply balances_total_nonneg, Forall_fmap. eapply Forall_impl; [exact H3|]. by intros x []. }
    assert (Heq : forall i, balances_total i (pair_balance <$> e :: rest) + v i
      = (if bool_decide (e.1 = i) then e.2 else 0) + (balances_total i (pair_balance <$> rest) + v i)).
    { intros i. cbn [fmap list_fmap]. rewrite balances_total_cons. cbn [rb_id rb_amount pair_balance]. lia. }
    destruct (Z.eqb_spec e.2 0) as [E|E].
    + apply triple_ret. intros s Hh. split; [done|]. eapply held_ext; [|exact Hh]. intros i. cbv beta.
      rewrite Heq, E. case_bool_decide; lia.
    + eapply triple_weaken; [|by apply (burn_step F G e.1 e.2 _ (H1 E) H2 Hn)|by intros [] s Hh].
      intros s. apply held_ext. intros i. by rewrite Heq.
  - intros [] s [_ Hh]. eapply held_ext; [|exact Hh]. intros i. unfold balances_total. cbn. lia.
Qed.

(** The outpoints of a transaction that are still to be created. *)
Definition awaiting (F : bytes * Z -> Prop) (txid : Txid) (rest : list (Z * gmap SchemaRuneId Z)) (x : bytes * Z)
    : Prop := F x \/ (x.1 = txid /\ x.2 ∈ rest.*1).

Lemma outs_sum_nonneg i l : Forall (fun e => sheet_ok e.2) l -> 0 <= outs_sum i l.
Proof.
  induction 1 as [|e l He _ IH]; [done|]. rewrite outs_sum_cons. pose proof (amount_nonneg i e.2 He). lia.
Qed.

Lemma balances_ok sh : Forall balance_ok (balances_from_sheet sh).
Proof.
  apply Forall_forall. intros b Hb. apply list_elem_of_omap in Hb as ([j x] & _ & Hb). cbn in Hb.
  destruct (Z.ltb_spec 0 x); [|done]. injection Hb as <-. unfold balance_ok. cbn. lia.
Qed.

Lemma record_output_held F G tx L e rest :
  tx ∈ txs -> (forall x, F x -> x.1 <> compute_txid tx) -> NoDup (e :: rest).*1 ->
  output_typed tx e -> sheet_ok e.2 -> Forall (fun e => sheet_ok e.2) rest ->
  triple (held (awaiting F (compute_txid tx) (e :: rest)) G (fun i => outs_sum i (e :: rest)))
    (record_output rd tx (compute_txid tx) L e)
    (fun _ => held (awaiting F (compute_txid tx) rest) G (fun i => outs_sum i rest)).
Proof.
  intros Htx HF Hnd He Hs Hrest. destruct e as [v sh]. cbn [snd] in Hs. apply NoDup_cons in Hnd as [Hnd _].
  cbn [fst] in Hnd. destruct He as [Hv Hids]. cbn [fst snd] in Hv, Hids.
  assert (HF' : forall x, awaiting F (compute_txid tx) rest x ->
    awaiting F (compute_txid tx) ((v, sh) :: rest) x /\ x <> (compute_txid tx, v)).
  { intros x [Hx|[Hx1 Hx2]].
    - split; [by left|]. intros ->. by apply (HF _ Hx).
    - split; [right; split; [done|by right]|]. intros ->. by apply Hnd. }
  assert (Hskip : forall s, held (awaiting F (compute_txid tx) ((v, sh) :: rest)) G (fun i => outs_sum i rest) s ->
    held (awaiting F (compute_txid tx) rest) G (fun i => outs_sum i rest) s).
  { intros s. apply held_weaken; [|done]. intros x Hx. by apply HF'. }
  unfold record_output. case_bool_decide as Em.
  { apply triple_ret. intros s Hh. apply Hskip. eapply held_ext; [|exact Hh]. intros i. cbv beta. rewrite outs_sum_cons.
    cbn [snd]. rewrite Em. unfold amount_of. rewrite lookup_empty. cbn. lia. }
  eapply triple_bind.
  { apply (triple_lift _ _ (fun _ => held (awaiting F (compute_txid tx) ((v, sh) :: rest)) G
      (fun i => balances_total i (balances_from_sheet sh) + outs_sum i rest))).
    intros out s _. apply held_ext. intros i. cbv beta. rewrite outs_sum_cons. cbn [snd]. by rewrite balances_from_sheet_total. }
  intros out. destruct (is_op_return _).
  { eapply triple_bind; [apply burn_list_held; [done|apply balances_ok|]|intros []; by apply triple_ret].
    intros i. by apply outs_sum_nonneg. }
  set (row := mkOutpointRow _ _ _).
  eapply (triple_bind _ _ _ (fun _ => held (awaiting F (compute_txid tx) rest) G (fun i => outs_sum i rest))).
  { eapply triple_weaken; [done|apply (add_row_held _ (awaiting F (compute_txid tx) rest) G _ (compute_txid tx, v) row)|].
    - split; [by apply (ty_txid _ _ HT)|]. pose proof (ty_outputs _ _ HT tx Htx). cbn. lia.
    - exact Hids.
    - right. split; [done|by left].
    - exact HF'.
    - apply balances_ok.
    - intros i. cbv beta. pose proof (outs_sum_nonneg i rest Hrest). cbn [or_balances row]. lia.
    - intros [] s. apply held_ext. intros i. cbv beta. cbn [or_balances row]. lia. }
  intros []. destruct (script_to_address _) as [a|]; [|by apply triple_ret].
  eapply triple_bind.
  { eapply triple_inv, f_queue, (st_keys _ (stable_ledger _ _ _)), quiet_address_outpoint. }
  intros []. eapply (triple_bind _ _ _ (fun _ => held (awaiting F (compute_txid tx) rest) G (fun i => outs_sum i rest)));
    [|intros []; by apply triple_ret].
  eapply triple_inv, safe_for_each. intros b Hb. eapply safe_bind; [apply f_volume_delta, stable_ledger|].
  intros _ _. apply accounts_ledger. rewrite Forall_forall in Hids. by apply Hids.
Qed.

(** ** The transaction *)

Lemma any_loaded ins s : is_Some (live_outpoints (outpoints s)) -> (any_rune_input rd ins s).2 = s.
Proof.
  intros Hl. induction ins as [|i ins IH]; [done|]. cbn [any_rune_input].
  unfold has_rune_outpoint, mbind, M_bind, gets, mret, M_ret in *.
  destruct (_ || _); [done|]. rewrite bool_decide_true by done. cbv beta iota zeta. exact IH.
Qed.

Lemma any_held F G u ins : triple (held F G u) (any_rune_input rd ins) (fun _ => held F G u).
Proof.
  intros s a s' Hs E. pose proof (any_loaded ins s (lg_loaded _ _ _ _ (proj1 Hs))) as H. rewrite E in H.
  cbn in H. by subst.
Qed.

Section Records.
Context (F : bytes * Z -> Prop) (G : SchemaRuneId -> Prop) (u : Flight).
Abbreviation inv := (held F G u).

Lemma record_mint_held txid i fee price b :
  id_typed (rb_id b) -> triple inv (record_mint rd height timestamp txid i fee price b) (fun _ => inv).
Proof.
  intros Hb. unfold record_mint. eapply (triple_bind _ _ _ (fun _ => inv)); [by apply triple_gets|]. intros d.
  eapply (triple_bind _ _ _ (fun _ => inv)).
  { eapply triple_weaken; [done|by apply load_entry_held|by intros r s []]. }
  intros e. eapply (triple_bind _ _ _ (fun _ => inv)).
  { destruct (_ && _); [eapply triple_inv, f_price, stable_ledger|by apply triple_ret]. }
  intros []. eapply (triple_bind _ _ _ (fun _ => inv)).
  { eapply triple_inv, f_push, (st_keys _ (stable_ledger _ _ _)), quiet_mint_activity. }
  intros []. eapply triple_inv, f_activity, stable_ledger.
Qed.

Lemma record_etch_held txid i id :
  id_typed id -> triple inv (record_etch rd height timestamp txid i id) (fun _ => inv).
Proof.
  intros Hid. unfold record_etch. eapply (triple_bind _ _ _ (fun _ => inv)).
  { eapply triple_weaken; [done|by apply load_entry_held|by intros r s []]. }
  intros [e|]; [|by apply triple_ret].
  eapply (triple_bind _ _ _ (fun _ => inv)); [by apply triple_gets|]. intros d.
  eapply triple_inv, f_activity, stable_ledger.
Qed.

Lemma record_rest_held tx i fee price minted eid L :
  Forall (fun b => id_typed (rb_id b)) minted -> (forall id, eid = Some id -> id_typed id) ->
  triple inv
    (record_volumes rd L;; for_each minted (record_mint rd height timestamp (compute_txid tx) i fee price);;
     (match eid with Some id => record_etch rd height timestamp (compute_txid tx) i id | None => mret tt end);;
     record_io rd height (compute_txid tx) i L) (fun _ => inv).
Proof.
  intros Hm He. eapply (triple_bind _ _ _ (fun _ => inv)); [eapply triple_inv, f_record_volumes, stable_ledger|].
  intros []. eapply (triple_bind _ _ _ (fun _ => inv)).
  { eapply (triple_weaken (fun s => Forall (fun b => id_typed (rb_id b)) minted /\ inv s)); [done| |].
    - apply (triple_for_each (fun rest s => Forall (fun b => id_typed (rb_id b)) rest /\ inv s)).
      intros b rest. apply triple_pure. intros [Hb Hr]%Forall_cons.
      eapply triple_weaken; [done|by apply record_mint_held|done].
    - by intros a s []. }
  intros []. eapply (triple_bind _ _ _ (fun _ => inv)).
  { destruct eid as [id|]; [apply record_etch_held; by apply He|by apply triple_ret]. }
  intros []. eapply triple_inv, f_record_io, stable_ledger.
Qed.

End Records.

Lemma record_outputs_held F G tx L allocated :
  tx ∈ txs -> (forall x, F x -> x.1 <> compute_txid tx) -> outputs_ok allocated ->
  (forall v sh, allocated !! v = Some sh -> output_typed tx (v, sh)) ->
  triple (held (fun x => F x \/ x.1 = compute_txid tx) G (fun i => outputs_total i allocated))
    (fold_each (record_output rd tx (compute_txid tx)) L (output_entries allocated))
    (fun _ => held F G (fun _ => 0)).
Proof.
  intros Htx HF Hok Hty.
  set (ok := fun rest : list (Z * gmap SchemaRuneId Z) =>
    NoDup rest.*1 /\ Forall (output_typed tx) rest /\ Forall (fun e => sheet_ok e.2) rest).
  set (P := fun rest (_ : TxLocals) s =>
    ok rest /\ held (awaiting F (compute_txid tx) rest) G (fun i => outs_sum i rest) s).
  assert (Hok0 : ok (output_entries allocated)).
  { unfold ok. split_all; [apply output_entries_nodup| |by apply output_entries_ok].
    unfold output_entries. rewrite (sort_by_perm _ _). apply Forall_forall.
    intros [v sh] Hv%elem_of_map_to_list. by apply Hty. }
  eapply (triple_weaken (P (output_entries allocated) L) _ _ (P [])).
  - intros s Hs. split; [done|]. eapply held_weaken; [| |eapply held_ext; [|exact Hs]]; [|done|].
    + intros x [Hx|[Hx _]]; [by left|by right].
    + intros i. cbv beta. by rewrite outs_sum_entries.
  - apply triple_fold_each. intros e rest acc. apply triple_pure. intros (H1 & [H2 H3]%Forall_cons & [H4 H5]%Forall_cons).
    eapply triple_weaken; [done|by apply record_output_held|]. intros L' s Hs. split; [|done].
    unfold ok. split_all; [|done|done]. by apply NoDup_cons in H1 as [_ H1].
  - intros L' s [_ Hs]. eapply held_weaken; [| |exact Hs]; [|done]. intros x Hx. by left.
Qed.

Context (supply_typed : forall tx a, decipher tx = Some a -> artifact_supply a).

Lemma tx_artifact_deciphered tx a : tx_artifact tx = Some a -> decipher tx = Some a.
Proof. unfold tx_artifact. by destruct (tx_has_runestone_carrier tx). Qed.

(** What is left over and what the outputs get, in flight. *)
Lemma allocated_held F G tx eid un s :
  carried F G un s ->
  let r := allocate_tx tx (tx_artifact tx) eid un in
  sheet_ok r.1 /\ (forall i, amount_of i r.1 <> 0 -> id_typed i) /\ outputs_ok r.2
  /\ (forall v sh, r.2 !! v = Some sh -> output_typed tx (v, sh))
  /\ held F G (fun i => amount_of i r.1 + outputs_total i r.2) s.
Proof.
  intros [[Hu Ht] Hs] r.
  assert (Ha : forall a, tx_artifact tx = Some a -> artifact_typed a /\ targets_typed a).
  { intros a E. eapply (ty_edicts _ _ HT), tx_artifact_deciphered, E. }
  assert (Ha1 : forall a, tx_artifact tx = Some a -> artifact_typed a) by (intros a E; by apply Ha).
  destruct (allocate_tx_spec tx (tx_artifact tx) eid un Ha1 Hu) as (H1 & H2 & H3). fold r in H1, H2, H3.
  split_all; [done| |done| |].
  - intros i Hi. apply Ht. specialize (H3 i). unfold in_flight in H3. pose proof (outputs_total_nonneg i _ H2).
    pose proof (amount_nonneg i _ H1). destruct (un !! i) as [y|] eqn:E; [by eexists|].
    unfold amount_of at 2 in H3. rewrite E in H3. cbn in H3. lia.
  - intros v sh Hv. eapply allocated_typed; [exact Ha|exact Hu|exact Ht|exact Hv].
  - eapply held_ext; [|exact Hs]. intros i. exact (H3 i).
Qed.

Lemma index_tx_held F G G' i tx block external :
  0 <= i < 2 ^ 32 -> tx ∈ txs -> (forall x, F x -> x.1 <> compute_txid tx) ->
  (forall j, G j -> j <> GENESIS_RUNE_ID) -> G (mkRuneId height i) ->
  (forall j, G' j -> G j /\ j <> mkRuneId height i) ->
  triple (held (fun x => F x \/ x.1 = compute_txid tx) G (fun _ => 0))
    (index_tx mainnet genesis_override rd height timestamp i tx block external)
    (fun _ => held F G' (fun _ => 0)).
Proof.
  intros Hi Htx HF Hgen HG HG'. set (F0 := fun x => F x \/ x.1 = compute_txid tx).
  assert (Hdone : forall u s, (forall j, u j = 0) -> held F0 G u s -> held F G' (fun _ => 0) s).
  { intros u s Hu Hs. eapply held_weaken; [| |eapply held_ext; [|exact Hs]]; [by left| |by intros j; rewrite Hu].
    intros j Hj. by apply HG'. }
  unfold index_tx. eapply (triple_bind _ _ _ (fun _ => held F0 G (fun _ => 0))).
  { destruct (_ && _); [by apply genesis_held|by apply triple_ret]. }
  intros []. eapply (triple_bind _ _ _ (fun _ => held F0 G (fun _ => 0))); [apply any_held|]. intros hri.
  destruct (_ && _); [apply triple_ret; intros s; by apply Hdone|]. fold (tx_artifact tx).
  eapply (triple_bind _ _ _ (fun L => carried F0 G (unalloc L))); [by apply unallocated_carried|]. intros L.
  destruct (_ && bool_decide (unalloc L = ∅)) eqn:Eu.
  { apply andb_true_iff in Eu as [_ Eu%bool_decide_eq_true]. apply triple_ret. intros s [_ Hs].
    rewrite Eu in Hs. by eapply Hdone, Hs. }
  eapply triple_bind.
  { apply (etch_carried F0 G G' i tx (compute_txid tx) (tx_artifact tx)); [done..|].
    intros a E. eapply supply_typed, tx_artifact_deciphered, E. }
  intros [eid un1]. cbn [fst snd]. apply triple_pure. intros Heid.
  eapply triple_bind; [apply (mint_carried F0 G' i tx), tx_artifact_deciphered|].
  intros [mnt un2]. cbn [fst snd]. apply triple_pure. intros Hmnt.
  intros s r s' Hs. pose proof (allocated_held F0 G' tx eid un2 s Hs) as (A1 & A2 & A3 & A4 & A5). revert A5.
  destruct (allocate_tx tx (tx_artifact tx) eid un2) as [brn allocated]. cbn [fst snd] in *. clear Hs.
  revert s r s'. eapply triple_bind.
  { apply record_burned_held; [done|done|]. intros j. by apply outputs_total_nonneg. }
  intros []. eapply triple_bind; [by apply record_outputs_held|]. intros L1. by apply record_rest_held.
Qed.

(** ** The block *)

Definition to_create (rest : list (Z * Transaction)) (x : bytes * Z) : Prop :=
  exists e, e ∈ rest /\ x.1 = compute_txid e.2.
Definition to_etch (rest : list (Z * Transaction)) (j : SchemaRuneId) : Prop :=
  exists e, e ∈ rest /\ j = mkRuneId height e.1.

Record rest_ok (rest : list (Z * Transaction)) : Prop := {
  ro_index : Forall (fun e => 0 <= e.1 < 2 ^ 32 /\ e.2 ∈ txs) rest;
  ro_nodup : NoDup rest.*1;
  ro_txids : NoDup ((fun e => compute_txid e.2) <$> rest);
}.

Context (after_genesis : 1 < height) (txids_nodup : NoDup (compute_txid <$> txs)).

Lemma block_rest_ok : rest_ok (enumerate txs).
Proof.
  split.
  - apply Forall_forall. intros [i tx] H. apply elem_of_enumerate in H as [H1 H2]. pose proof (ty_count _ _ HT).
    cbn [fst snd]. split; [lia|done].
  - apply enumerate_nodup.
  - replace ((fun e : Z * Transaction => compute_txid e.2) <$> enumerate txs)
      with (compute_txid <$> (enumerate txs).*2) by (symmetry; apply (list_fmap_compose snd compute_txid)).
    unfold enumerate. rewrite snd_zip; [done|]. rewrite length_seqZ. lia.
Qed.

Lemma index_txs_held block external :
  triple (held (to_create (enumerate txs)) (to_etch (enumerate txs)) (fun _ => 0))
    (for_each (enumerate txs) (fun '(i, tx) =>
       index_tx mainnet genesis_override rd height timestamp i tx block external;; mret tt))
    (fun _ => held (to_create []) (to_etch []) (fun _ => 0)).
Proof.
  set (P := fun rest s => rest_ok rest /\ held (to_create rest) (to_etch rest) (fun _ => 0) s).
  eapply (triple_weaken (P (enumerate txs)) _ _ (fun _ => P [])).
  - intros s Hs. split; [apply block_rest_ok|done].
  - apply triple_for_each. intros [i tx] rest. apply triple_pure.
    intros [[[Hi Htx] H1]%Forall_cons [H2 H2']%NoDup_cons H3]. cbn [fmap list_fmap fst snd] in *.
    apply NoDup_cons in H3 as [H3 H3'].
    eapply (triple_bind _ _ _ (fun _ => held (to_create rest) (to_etch rest) (fun _ => 0)));
      [|intros r; apply triple_ret; intros s Hs; by split].
    eapply triple_weaken; [|apply (index_tx_held (to_create rest) (to_etch ((i, tx) :: rest)) (to_etch rest) i tx)|done];
      try done.
    + intros s. apply held_weaken; [|done]. intros x [(e & He & Hx)|Hx]; [exists e; split; [by right|done]|].
      exists (i, tx). split; [by left|done].
    + intros x (e & He & Hx) Heq. apply H3. rewrite <- Heq, Hx. apply list_elem_of_fmap. by exists e.
    + intros j (e & _ & ->) Hj. unfold GENESIS_RUNE_ID in Hj. injection Hj as Hh _. lia.
    + exists (i, tx). split; [by left|done].
    + intros j (e & He & ->). split; [exists e; split; [by right|done]|]. intros [= Heq]. apply H2.
      rewrite <- Heq. by apply list_elem_of_fmap_2.
  - by intros [] s [_ Hs].
Qed.

(** Nothing of the block is there yet. *)
Context (new_coins : forall tx v, tx ∈ txs -> R0 !! (compute_txid tx, v) = None).
Context (new_runes : forall i, E0 !! mkRuneId height i = None).

Lemma new_held : balanced_books E0 R0 ->
  held (to_create (enumerate txs)) (to_etch (enumerate txs)) (fun _ => 0) (indexer_new (Some (live_of N))).
Proof.
  intros Hb.
  assert (HC : coins (indexer_new (Some (live_of N))) = R0).
  { apply map_eq. intros o. rewrite coins_lookup. cbn [outpoints indexer_new ephem]. rewrite lookup_empty.
    destruct (R0 !! o) as [row|] eqn:E; [|by case_decide]. rewrite decide_True; [done|].
    apply live_of_spec. assert (Ho : typed_ref o) by (apply (rp_refs _ _ _ HN); by eexists).
    split; [done|]. rewrite (rp_rows _ _ _ HN) by done. rewrite E. by eexists. }
  assert (HTb : table (indexer_new (Some (live_of N))) = E0).
  { apply map_eq. intros i. rewrite table_lookup. cbn. by rewrite lookup_empty. }
  split; [|split; intros o row; cbn; by rewrite lookup_empty].
  split; rewrite ?HC, ?HTb; try done.
  - by rewrite pending_new.
  - intros [t v] ([i tx] & He & Hx). cbn [fst snd] in Hx. subst t. apply new_coins. by apply elem_of_enumerate in He as [_ He].
  - intros j (e & _ & ->). apply new_runes.
Qed.

(** Indexing a block keeps the books. *)
Lemma scan_books s :
  balanced_books E0 R0 ->
  scan_block mainnet genesis_override address_index_chunk_size rd height timestamp txs
    (indexer_new (Some (live_of N))) = (Some tt, s) ->
  represents (pending N (batch s)) (table s) (coins s) /\ balanced_books (table s) (coins s).
Proof.
  intros Hb E.
  assert (H : held (to_create []) (to_etch []) (fun _ => 0) s).
  { revert E. unfold scan_block. generalize (new_held Hb).
    set (Q := held (to_create []) (to_etch []) (fun _ => 0)).
    generalize (indexer_new (Some (live_of N))) as s0. intros s0 Hs0.
    assert (T : triple (held (to_create (enumerate txs)) (to_etch (enumerate txs)) (fun _ => 0))
      (scan_block mainnet genesis_override address_index_chunk_size rd height timestamp txs) (fun _ => Q)).
    { unfold scan_block. eapply triple_bind; [apply index_txs_held|]. intros [].
      do 4 (eapply (triple_bind _ _ _ (fun _ => Q));
        [eapply triple_inv; first [apply f_collect | apply f_flush_history | apply f_flush_action | apply f_flush_tx];
         apply stable_ledger|intros []]).
      eapply triple_inv, f_block_price, stable_ledger. }
    exact (T s0 tt s Hs0). }
  destruct H as [[] _]. by split.
Qed.

End Supply.
