(* ===== verification/RunesModule.v ===== *)
(** * The runes module

    [impl EspoModule for Runes] of [src/modules/runes/main.rs]: the provider's
    handle, the index height, the set of live outpoints kept in memory, and the
    configuration.  It implements the interface the registry and the
    reorganisation code work with.  A panic is a failed call. *)
From Stdlib Require Import Strings.Byte.
From stdpp Require Import strings.
From S2P Require Import Prelude Bytes Rocks TreeNode TreeDb Mdb Reorg StateM RunesTransfer RunesUndo.
From S2P Require Import RunesStore RunesTxIndex RunesChain RunesInscriptions RunesIndexer.
From stdpp Require Import options.

Open Scope Z_scope.

Record Runes := mkRunes {
  rn_provider : option Mdb;
  rn_index_height : option Z;
  rn_live_outpoints : gset (bytes * Z);
  rn_enable : bool;
  rn_load_live_outpoints : bool;
}.

Definition default_load_live_outpoints : bool := true.

Definition runes_new : Runes := mkRunes None None ∅ false default_load_live_outpoints.

Definition set_height (m : Runes) (h : option Z) : Runes :=
  mkRunes (rn_provider m) h (rn_live_outpoints m) (rn_enable m) (rn_load_live_outpoints m).
Definition set_live (m : Runes) (l : gset (bytes * Z)) : Runes :=
  mkRunes (rn_provider m) (rn_index_height m) l (rn_enable m) (rn_load_live_outpoints m).
Definition set_provider (m : Runes) (mdb : Mdb) : Runes :=
  mkRunes (Some mdb) (rn_index_height m) (rn_live_outpoints m) (rn_enable m) (rn_load_live_outpoints m).

Section Module.
Context {DB : Type} {rocks : RocksDB DB} {codec : NodeCodec} {ucodec : UndoCodec}.
Context {btc : BitcoinCrate} {ord : OrdinalsCrate} {node : Node} {others : OtherModules}.
Context {rcodec : RuneCodec} {icodec : IconCodec}.
Context (mainnet : bool) (genesis_override : option Z) (address_index_chunk_size : Z).
(** The module's section of the configuration: [enable] and [load_live_outpoints]. *)
Context (config : option (bool * bool)).
(** Fuel for the walks over the journal: more than the number of blocks it holds. *)
Context (fuel : nat).

(** Reads of the provider; an error of the store reads as an absent row. *)
Definition provider_get (w : World DB) (mdb : Mdb) (k : bytes) : option bytes :=
  default None (get fuel w mdb k).

Definition get_live_outpoints (w : World DB) (mdb : Mdb) : option (gset (bytes * Z)) :=
  ks ← scan_prefix_keys fuel w mdb (bstr "/outpoint/");
  Some (list_to_set (omap decode_outpoint_key ks)).

(** The module, or an error. *)
Definition reload_live_outpoints (w : World DB) (m : Runes) (height : option Z) : option Runes :=
  if negb (bool_decide (is_Some height)) || negb (rn_enable m) then Some (set_live m ∅)
  else if negb (rn_load_live_outpoints m) then Some (set_live m ∅)
  else
    mdb ← rn_provider m;
    live ← get_live_outpoints w mdb;
    Some (set_live m live).

(** [clear_namespace], whose errors are logged. *)
Definition try_clear (w : World DB) (mdb : Mdb) : World DB :=
  match clear_namespace fuel w mdb with Some (w', _) => w' | None => w end.

(** Whether the genesis rune can be read. *)
Definition has_genesis_rune (w : World DB) (mdb : Mdb) : bool :=
  bool_decide (is_Some (provider_get w mdb (entry_key GENESIS_RUNE_ID) ≫= decode_entry)).

Definition runes_set_mdb (w : World DB) (m : Runes) (mdb : Mdb) : World DB * Runes :=
  let '(w1, m1) :=
    match RunesUndo.get_index_height fuel w mdb with
    | None => (w, m)
    | Some height =>
        let '(w1, height1) :=
          if bool_decide (is_Some height) && negb (has_genesis_rune w mdb)
          then (try_clear w mdb, None) else (w, height) in
        let '(w2, height2) :=
          match height1 with
          | Some indexed_height =>
              if negb (default false (has_undo_for_height fuel w1 mdb indexed_height))
              then (try_clear w1 mdb, None) else (w1, height1)
          | None => (w1, height1)
          end in
        (w2, set_height m height2)
    end in
  let m2 := set_provider m1 mdb in
  (w1, default m2 (reload_live_outpoints w1 m2 (rn_index_height m2))).

(** [BlockRunesIndexer::index_block]: the live outpoints as the run leaves them, and the world
    when it succeeds. *)
Definition index_runes_block (w : World DB) (mdb : Mdb) (live : option (gset (bytes * Z)))
    (block : EspoBlock) : option (gset (bytes * Z)) * option (World DB) :=
  let '(r, s) :=
    scan_block mainnet genesis_override address_index_chunk_size (provider_get w mdb)
      (eb_height block) (eb_time block) (eb_txs block) (indexer_new live) in
  (live_outpoints (outpoints s),
   _ ← r;
   set_block_batch fuel w mdb (final_puts (batch s)) (final_deletes (batch s))
     (preimage_values (batch s)) (eb_height block) (eb_hash block)).

Definition runes_index_block (w : World DB) (m : Runes) (block : EspoBlock)
    : World DB * Runes * Res :=
  if negb (rn_enable m) then (w, m, true)
  else if match rn_index_height m with Some prev => eb_height block <=? prev | None => false end
  then (w, m, true)
  else
    match rn_provider m with
    | None => (w, m, false)
    | Some mdb =>
        let '(live, w1) :=
          index_runes_block w mdb
            (if rn_load_live_outpoints m then Some (rn_live_outpoints m) else None) block in
        let m1 := set_live m (default (rn_live_outpoints m) live) in
        match w1 with
        | None => (w, m1, false)
        | Some w' => (w', set_height m1 (Some (eb_height block)), true)
        end
    end.

Definition runes_preflight_reorg (w : World DB) (m : Runes) (next_height : Z) : Res :=
  if negb (rn_enable m) then true
  else
    match rn_provider m with
    | None => false
    | Some mdb =>
        match preflight_rollback_before_height fuel w mdb next_height with
        | Some (inl _) => true
        | _ => false
        end
    end.

Definition runes_handle_reorg (w : World DB) (m : Runes) (next_height : Z)
    : World DB * Runes * Res :=
  if negb (rn_enable m) then (w, m, true)
  else if negb (runes_preflight_reorg w m next_height) then (w, m, false)
  else
    match rn_provider m with
    | None => (w, m, false)
    | Some mdb =>
        match rollback_before_height fuel w mdb next_height with
        | None => (w, m, false)
        | Some (w1, Some _) => (w1, m, false)
        | Some (w1, None) =>
            match RunesUndo.get_index_height fuel w1 mdb with
            | None => (w1, m, false)
            | Some height =>
                match reload_live_outpoints w1 m height with
                | None => (w1, m, false)
                | Some m1 => (w1, set_height m1 height, true)
                end
            end
        end
    end.

Definition runes_set_config (m : Runes) (c : bool * bool) : Runes :=
  mkRunes (rn_provider m) (rn_index_height m) (rn_live_outpoints m) c.1 c.2.

#[global] Instance runes_module : EspoModule DB Runes EspoBlock := {|
  get_name _ := bstr "runes";
  get_genesis_block _ := runes_genesis_block mainnet genesis_override;
  load_config m := runes_set_config m <$> config;
  set_mdb := runes_set_mdb;
  index_block := runes_index_block;
  Reorg.get_index_height := rn_index_height;
  preflight_reorg := runes_preflight_reorg;
  handle_reorg := runes_handle_reorg;
|}.

End Module.
