(* ===== verification/RunesModuleProps.v ===== *)
(** * The runes module keeps its promises

    The module writes rows of its own namespace only, so it satisfies the
    interface the block and reorganisation theorems are stated against; and a
    block it has indexed can be taken back, to the namespace and to the module
    state before it. *)
From Stdlib Require Import Strings.Byte.
From stdpp Require Import strings.
From S2P Require Import Prelude Bytes Rocks TreeNode TreeDb BTree TreeRefine TreeBatch TreeScan.
From S2P Require Import TreeBlocks Mdb MdbProps Reorg ReorgProps CommitProps StateM RunesTransfer.
From S2P Require Import RunesUndo RunesUndoProps RunesStore RunesTxIndex RunesChain.
From S2P Require Import RunesInscriptions RunesIndexer RunesJournal RunesFrame.
From S2P Require Import RunesLive RunesHolders RunesLedger RunesSupply RunesModule.

Open Scope Z_scope.

(** The registry hands out the raw namespace of the module's name. *)
Definition runes_handle (mdb : Mdb) : Prop := versioned mdb = false /\ prefix mdb = bstr "runes:".

#[global] Instance runes_wired : Wired Runes :=
  fun m => forall mdb, rn_provider m = Some mdb -> runes_handle mdb.

Lemma runes_apart : apart (bstr "runes:") ROOT_PREFIX.
Proof. intros a b H. discriminate H. Qed.

Section Props.
Context {DB : Type} {rocks : RocksDB DB} {laws : RocksLaws DB} {codec : NodeCodec}.
Context {ucodec : UndoCodec}.

Lemma same_tree_refl (w : World DB) : same_tree w w.
Proof. done. Qed.

Lemma same_tree_trans (w1 w2 w3 : World DB) : same_tree w1 w2 -> same_tree w2 w3 -> same_tree w1 w3.
Proof.
  intros [H1 H2] [H3 H4]. split; [congruence|]. intros k Hk. by rewrite H4, H2.
Qed.

Lemma bulk_same_tree fuel (w : World DB) mdb build w' :
  runes_handle mdb -> bulk_write fuel w mdb build = Some w' -> same_tree w w'.
Proof.
  intros [Hv Hp]. unfold bulk_write. destruct (Mdb.is_null mdb); [by intros [= <-]|].
  unfold versioned_manager. rewrite Hv. cbn [negb orb]. rewrite batch_calls_wb.
  intros [= <-]. split; [done|]. intros k Hk. cbn [w_db mb_wb default app].
  rewrite db_write_spec. apply apply_ops_other, Forall_fmap, Forall_true. intros op Heq.
  apply starts_with_iff in Hk as [r ->].
  destruct op; cbn [op_prefixed op_key] in Heq; unfold prefixed in Heq; rewrite Hp in Heq;
    by eapply runes_apart.
Qed.

Lemma set_block_batch_same_tree fuel (w : World DB) mdb ps ds pre h hash w' :
  runes_handle mdb -> set_block_batch fuel w mdb ps ds pre h hash = Some w' -> same_tree w w'.
Proof.
  intros Hm. unfold set_block_batch.
  destruct (multi_get _ _ _ _); [|done]. cbn [mbind option_bind].
  destruct (RunesUndo.get_index_height _ _ _); [|done]. cbn [mbind option_bind].
  destruct (get_index_block_hash _ _ _); [|done]. cbn [mbind option_bind].
  by apply bulk_same_tree.
Qed.

Lemma rollback_same_tree fuel (w : World DB) mdb target w' e :
  runes_handle mdb -> rollback_to_height fuel w mdb target = Some (w', e) -> same_tree w w'.
Proof.
  intros Hm. revert w. induction fuel as [|fuel IH]; intros w; [done|]. cbn [rollback_to_height].
  destruct (RunesUndo.get_index_height _ _ _) as [[h|]|]; cbn [mbind option_bind]; [|by intros [= <- _]|done].
  destruct (reached target h); [by intros [= <- _]|].
  destruct (get_index_block_hash _ _ _); cbn [mbind option_bind]; [|done].
  destruct (load_undo _ _ _ _ _) as [[u|er]|]; cbn [mbind option_bind]; [|by intros [= <- _]|done].
  destruct (bulk_write _ w _ _) as [w1|] eqn:E; cbn [mbind option_bind]; [|done].
  intros H. eapply same_tree_trans; [by eapply bulk_same_tree|by apply IH].
Qed.

Context {btc : BitcoinCrate} {ord : OrdinalsCrate} {node : Node} {others : OtherModules}.
Context {rcodec : RuneCodec} {icodec : IconCodec}.
Context (mainnet : bool) (genesis_override : option Z) (address_index_chunk_size : Z).
Context (config : option (bool * bool)) (fuel : nat).

Abbreviation index_ := (runes_index_block mainnet genesis_override address_index_chunk_size fuel).

Lemma runes_index_same_tree (w : World DB) m blk w' m' ok :
  wired m -> index_ w m blk = (w', m', ok) -> same_tree w w' /\ wired m'.
Proof.
  intros Hm. unfold runes_index_block. destruct (negb _); [by intros [= <- <- _]|].
  destruct (match rn_index_height m with Some prev => _ | None => false end); [by intros [= <- <- _]|].
  destruct (rn_provider m) as [mdb|] eqn:Ep; [|by intros [= <- <- _]].
  destruct (index_runes_block _ _ _ _ _ _ _ _) as [live w1] eqn:Ei.
  destruct w1 as [w1|]; intros [= <- <- _]; (split; [|intros mdb' H'; apply Hm; exact H']); [|done].
  unfold index_runes_block in Ei.
  destruct (scan_block _ _ _ _ _ _ _ _) as [[[]|] s]; [|by injection Ei].
  injection Ei as _ Ei. eapply set_block_batch_same_tree; [by apply Hm|exact Ei].
Qed.

Lemma reload_wired (w : World DB) m h m' :
  reload_live_outpoints fuel w m h = Some m' -> wired m -> wired m'.
Proof.
  unfold reload_live_outpoints. intros H Hm mdb Hp. apply Hm. revert H.
  destruct (_ || _); [intros [= <-]; exact Hp|]. destruct (negb _); [intros [= <-]; exact Hp|].
  destruct (rn_provider m) as [mdb0|] eqn:E; cbn [mbind option_bind]; [|done].
  destruct (get_live_outpoints _ _ _); cbn [mbind option_bind]; [|done].
  intros [= <-]. unfold set_live in Hp. cbn in Hp. congruence.
Qed.

Lemma runes_handle_same_tree (w : World DB) m h w' m' ok :
  wired m -> runes_handle_reorg fuel w m h = (w', m', ok) -> same_tree w w' /\ wired m'.
Proof.
  intros Hm. unfold runes_handle_reorg. destruct (negb _); [by intros [= <- <- _]|].
  destruct (negb _); [by intros [= <- <- _]|].
  destruct (rn_provider m) as [mdb|] eqn:Ep; [|by intros [= <- <- _]].
  destruct (rollback_before_height _ _ _ _) as [[w1 e]|] eqn:Er; [|by intros [= <- <- _]].
  pose proof (rollback_same_tree _ _ _ _ _ _ (Hm _ Ep) Er) as Hs.
  destruct e; [by intros [= <- <- _]|].
  destruct (RunesUndo.get_index_height _ _ _) as [hh|]; [|by intros [= <- <- _]].
  destruct (reload_live_outpoints _ _ _ _) as [m1|] eqn:El; intros [= <- <- _]; [|done].
  split; [done|]. pose proof (reload_wired _ _ _ _ El Hm) as Hw. intros mdb' H'. apply Hw. exact H'.
Qed.

Abbreviation runes_module_ :=
  (runes_module mainnet genesis_override address_index_chunk_size config fuel) (only parsing).

(** The module satisfies the interface of the reorganisation and block theorems. *)
#[global] Instance runes_module_laws : ModuleLaws DB Runes EspoBlock (EspoModule0 := runes_module_).
Proof.
  split; cbn.
  - done.
  - intros w m h w' m' ok Hm H. by apply (runes_handle_same_tree _ _ _ _ _ _ Hm H).
  - intros w m h w' m' ok Hm H. by apply (runes_handle_same_tree _ _ _ _ _ _ Hm H).
Qed.

#[global] Instance runes_index_laws (U : BptreeNode -> Prop) :
  IndexLaws DB Runes EspoBlock U (EspoModule0 := runes_module_).
Proof.
  split; cbn.
  - intros w m b w' m' ok Hm H. by apply (runes_index_same_tree _ _ _ _ _ _ Hm H).
  - intros w m b w' m' ok Hm H. apply rtc_once, mw_raw. by apply (runes_index_same_tree _ _ _ _ _ _ Hm H).
  - intros w m b w' m' ok Hm _ H. by apply (runes_index_same_tree _ _ _ _ _ _ Hm H).
Qed.

(** ** Taking a block back *)

Lemma raw_scan_keys (w : World DB) mdb q :
  raw_handle mdb ->
  scan_prefix_keys fuel w mdb q
  = Some (filter (fun e : kv => starts_with e.1 q = true) (map_entries (ns w mdb))).*1.
Proof.
  intros Hr. pose proof (ns_scan_prefix fuel w mdb _ q (raw_mdb_ok _ Hr) (raw_backed fuel w mdb Hr)) as H.
  fold (ns w mdb) in H. unfold scan_prefix_entries, scan_prefix_keys in *.
  rewrite (proj1 Hr), raw_manager in * by done. by injection H as ->.
Qed.

Lemma get_live_spec (w : World DB) mdb :
  raw_handle mdb -> get_live_outpoints fuel w mdb = Some (live_of (ns w mdb)).
Proof. intros Hr. unfold get_live_outpoints. by rewrite raw_scan_keys. Qed.

(** What the module keeps in memory agrees with the namespace. *)
Record in_step (N : gmap bytes bytes) (m : Runes) (ob : option bytes) : Prop := {
  is_rows : index_rows N (rn_index_height m) ob;
  is_live : rn_live_outpoints m
    = if bool_decide (is_Some (rn_index_height m)) && rn_load_live_outpoints m then live_of N else ∅;
  (** Before the first block there are no outpoints. *)
  is_fresh : rn_index_height m = None -> live_of N = ∅;
}.

Lemma in_step_live N m ob :
  in_step N m ob -> rn_load_live_outpoints m = true -> rn_live_outpoints m = live_of N.
Proof.
  intros [_ Hl Hf] HL. rewrite Hl, HL. destruct (rn_index_height m); [done|]. by rewrite Hf.
Qed.

Lemma reload_in_step (w : World DB) m mdb live h ob :
  rn_enable m = true -> rn_provider m = Some mdb -> raw_handle mdb -> in_step (ns w mdb) m ob ->
  reload_live_outpoints fuel w (set_height (set_live m live) h) (rn_index_height m)
  = Some (set_height m h).
Proof.
  intros He Hp Hr [_ Hl _]. unfold reload_live_outpoints. cbn. rewrite He, Hp. cbn.
  destruct m as [p oh l e ll]. cbn in *. subst e p. rewrite get_live_spec by done.
  destruct (bool_decide (is_Some oh)), ll; cbn in *; by subst l.
Qed.

Lemma before_reached oh (height : Z) :
  (forall h, oh = Some h -> in_u32 h /\ h < height) ->
  forall h, oh = Some h -> reached (checked_pred height) h = true.
Proof.
  intros H h Hh. destruct (H h Hh) as [Hu Hlt]. unfold checked_pred, in_u32 in *.
  destruct (Z.ltb_spec height 1); [lia|]. cbn. apply Z.leb_le. lia.
Qed.

Lemma above_not_reached next h : next <= h -> reached (checked_pred next) h = false.
Proof. intros H. unfold checked_pred. destruct (next <? 1); cbn; [done|]. apply Z.leb_gt. lia. Qed.

(** The provider's reads. *)
Lemma provider_reads (w : World DB) mdb k : raw_handle mdb -> provider_get fuel w mdb k = ns w mdb !! k.
Proof. intros Hr. unfold provider_get. by rewrite raw_get. Qed.

(** What the scan of a block leaves for the journal. *)
Definition rblock_of (blk : EspoBlock) (s : BlockRunesIndexer) : RBlock :=
  mkRBlock (final_puts (batch s)) (final_deletes (batch s)) (preimage_values (batch s))
    (eb_height blk) (eb_hash blk).

Definition scan_of (w : World DB) (mdb : Mdb) (live : option (gset (bytes * Z))) (blk : EspoBlock)
    : option unit * BlockRunesIndexer :=
  scan_block mainnet genesis_override address_index_chunk_size (provider_get fuel w mdb)
    (eb_height blk) (eb_time blk) (eb_txs blk) (indexer_new live).

(** The writes of an indexed block. *)
Lemma index_runes_written (w : World DB) mdb live blk oh ob live' w1 :
  raw_handle mdb -> index_rows (ns w mdb) oh ob ->
  index_runes_block mainnet genesis_override address_index_chunk_size fuel w mdb live blk
    = (live', Some w1) ->
  exists s, scan_of w mdb live blk = (Some tt, s) /\ live' = live_outpoints (outpoints s)
    /\ ns w1 mdb = commit_ns (ns w mdb) (rblock_of blk s) oh ob.
Proof.
  intros Hr Hi. unfold index_runes_block. fold (scan_of w mdb live blk).
  destruct (scan_of w mdb live blk) as [[[]|] s]; [|done]. cbn [mbind option_bind]. intros [= <- Hw].
  exists s. split_all; [done|done|].
  destruct (set_block_batch_spec fuel w mdb (rblock_of blk s) oh ob Hr Hi) as (w1' & Hw' & Hn).
  cbn [rb_puts rb_deletes rb_known rb_height rb_hash rblock_of] in Hw'. congruence.
Qed.

Lemma index_runes_chain {ulaws : UndoLaws} (w : World DB) mdb live blk oh ob live' w1 :
  raw_handle mdb -> index_rows (ns w mdb) oh ob -> ready (ns w mdb) ->
  unindexed (ns w mdb) (eb_height blk) (eb_txs blk) ->
  ns w mdb !! undo_key (eb_height blk) = None -> in_u32 (eb_height blk) ->
  length (eb_hash blk) = 32%nat ->
  index_runes_block mainnet genesis_override address_index_chunk_size fuel w mdb live blk
    = (live', Some w1) ->
  exists b, rb_height b = eb_height blk
    /\ chain (ns w mdb) oh ob [b] (ns w1 mdb) (Some (eb_height blk)) (Some (eb_hash blk)).
Proof.
  intros Hr Hi HR HU Hun Hh Hl Hx.
  destruct (index_runes_written w mdb live blk oh ob live' w1 Hr Hi Hx) as (s & E & _ & Hn).
  exists (rblock_of blk s). split; [done|]. rewrite Hn.
  change (Some (eb_height blk)) with (Some (rb_height (rblock_of blk s))).
  change (Some (eb_hash blk)) with (Some (rb_hash (rblock_of blk s))).
  apply chain_cons; [|constructor].
  by apply (scan_block_ok mainnet genesis_override address_index_chunk_size (ns w mdb) (eb_height blk) (eb_time blk)
    (provider_get fuel w mdb) (fun k => provider_reads w mdb k Hr) HR (eb_txs blk) HU live).
Qed.

(** A block the module is ready for: it continues the index, and its rows are not there yet. *)
Record block_fits (w : World DB) (m : Runes) (blk : EspoBlock) : Prop := {
  bf_above h : rn_index_height m = Some h -> h < eb_height blk;
  bf_u32 : in_u32 (eb_height blk);
  bf_hash : length (eb_hash blk) = 32%nat;
  bf_ready mdb : rn_provider m = Some mdb -> ready (ns w mdb);
  bf_unindexed mdb : rn_provider m = Some mdb -> unindexed (ns w mdb) (eb_height blk) (eb_txs blk);
  bf_undo mdb : rn_provider m = Some mdb -> ns w mdb !! undo_key (eb_height blk) = None;
}.

(** Indexing a list of blocks without an error. *)
Inductive index_run (w : World DB) (m : Runes) : list EspoBlock -> World DB -> Runes -> Prop :=
| run_nil : index_run w m [] w m
| run_snoc bs w1 m1 blk w2 m2 :
    index_run w m bs w1 m1 -> block_fits w1 m1 blk -> index_ w1 m1 blk = (w2, m2, true) ->
    index_run w m (bs ++ [blk]) w2 m2.

(** One successful call on a block that fits. *)
Lemma index_fits (w : World DB) m mdb blk w1 m1 :
  rn_enable m = true -> rn_provider m = Some mdb -> block_fits w m blk ->
  index_ w m blk = (w1, m1, true) ->
  exists live live', index_runes_block mainnet genesis_override address_index_chunk_size fuel w mdb
      live blk = (live', Some w1)
    /\ m1 = set_height (set_live m (default (rn_live_outpoints m) live')) (Some (eb_height blk)).
Proof.
  intros He Hp Hf. unfold runes_index_block. rewrite He, Hp. cbn [negb].
  assert (Hskip : match rn_index_height m with Some prev => eb_height blk <=? prev | None => false end = false).
  { destruct (rn_index_height m) as [h|] eqn:E; [|done]. apply Z.leb_gt. by apply (bf_above _ _ _ Hf). }
  rewrite Hskip. destruct (index_runes_block _ _ _ _ _ _ _ _) as [live' [w'|]] eqn:Ei; [|done].
  intros [= <- <-]. eauto.
Qed.

Lemma run_chain {ulaws : UndoLaws} (w : World DB) m mdb bs w' m' ob :
  rn_enable m = true -> rn_provider m = Some mdb -> raw_handle mdb ->
  index_rows (ns w mdb) (rn_index_height m) ob -> index_run w m bs w' m' ->
  exists rbs oh' ob' live, chain (ns w mdb) (rn_index_height m) ob rbs (ns w' mdb) oh' ob'
    /\ map rb_height rbs = map eb_height bs /\ m' = set_height (set_live m live) oh'.
Proof.
  intros He Hp Hr Hi. induction 1 as [|bs w1 m1 blk w2 m2 Hrun IH Hf Hix].
  { exists [], (rn_index_height m), ob, (rn_live_outpoints m).
    split_all; [constructor|done|by destruct m]. }
  destruct IH as (rbs & oh1 & ob1 & live & Hc & Hh & ->).
  set (m1' := set_height (set_live m live) oh1) in *.
  assert (Hp1 : rn_provider m1' = Some mdb) by done.
  destruct (index_fits w1 m1' mdb blk w2 m2) as (l & l' & Hib & ->); [done|done|done|done|].
  destruct (index_runes_chain w1 mdb l blk oh1 ob1 l' w2 Hr (chain_rows _ _ _ _ _ _ _ Hi Hc)
    (bf_ready _ _ _ Hf _ Hp1) (bf_unindexed _ _ _ Hf _ Hp1) (bf_undo _ _ _ Hf _ Hp1)
    (bf_u32 _ _ _ Hf) (bf_hash _ _ _ Hf) Hib) as (b & Hb & Hcb).
  exists (rbs ++ [b]), (Some (eb_height blk)), (Some (eb_hash blk)), (default (rn_live_outpoints m1') l').
  split_all; [by eapply chain_app| |done]. by rewrite !map_app, Hh; cbn; rewrite Hb.
Qed.

(** A chain of blocks on top of a module in step is taken back. *)
Lemma chain_undone {ulaws : UndoLaws} (w w' : World DB) m mdb ob rbs oh' ob' live next :
  rn_enable m = true -> rn_provider m = Some mdb -> raw_handle mdb -> in_step (ns w mdb) m ob ->
  chain (ns w mdb) (rn_index_height m) ob rbs (ns w' mdb) oh' ob' ->
  Forall (fun b => next <= rb_height b) rbs ->
  (forall h, rn_index_height m = Some h -> h < next) -> (length rbs < fuel)%nat ->
  let m' := set_height (set_live m live) oh' in
  runes_preflight_reorg fuel w' m' next = true
  /\ exists w2, runes_handle_reorg fuel w' m' next = (w2, m, true) /\ ns w2 mdb = ns w mdb.
Proof.
  intros He Hp Hr Hs Hc Hall Hbelow Hf m'. pose proof (is_rows _ _ _ Hs) as Hi.
  assert (Hreach : forall h, rn_index_height m = Some h -> reached (checked_pred next) h = true).
  { apply before_reached. intros h Hx. split; [by apply (ir_u32 _ _ _ Hi)|by apply Hbelow]. }
  assert (Hnot : Forall (fun b => reached (checked_pred next) (rb_height b) = false) rbs).
  { eapply Forall_impl; [exact Hall|]. intros b Hle. apply above_not_reached, Hle. }
  assert (Hpre : runes_preflight_reorg fuel w' m' next = true).
  { unfold runes_preflight_reorg. cbn [rn_enable rn_provider m' set_height set_live]. rewrite He, Hp. cbn [negb].
    by rewrite (preflight_written fuel w' mdb _ _ _ _ _ _ next Hr Hi Hc Hnot Hreach Hf). }
  split; [done|].
  destruct (rollback_chain fuel w' mdb _ _ _ _ _ _ _ (checked_pred next) Hr Hi Hc eq_refl Hnot Hreach Hf)
    as (w2 & Hw2 & Hn).
  exists w2. split; [|done]. unfold runes_handle_reorg. rewrite Hpre.
  cbn [rn_enable rn_provider m' set_height set_live].
  rewrite He, Hp. cbn [negb]. unfold rollback_before_height. rewrite Hw2.
  assert (Hi2 : index_rows (ns w2 mdb) (rn_index_height m) ob) by by rewrite Hn.
  rewrite (height_of_rows fuel w2 mdb _ _ Hr Hi2). fold (set_live m live). unfold m'.
  rewrite (reload_in_step w2 m mdb live _ ob) by (done || by rewrite Hn).
  f_equal. f_equal. by destruct m.
Qed.

(** Indexed blocks are taken back to the state before them. *)
Lemma run_undone {ulaws : UndoLaws} (w : World DB) m mdb bs w' m' ob next :
  rn_enable m = true -> rn_provider m = Some mdb -> raw_handle mdb -> in_step (ns w mdb) m ob ->
  index_run w m bs w' m' -> Forall (fun blk => next <= eb_height blk) bs ->
  (forall h, rn_index_height m = Some h -> h < next) -> (length bs < fuel)%nat ->
  runes_preflight_reorg fuel w' m' next = true
  /\ exists w2, runes_handle_reorg fuel w' m' next = (w2, m, true) /\ ns w2 mdb = ns w mdb.
Proof.
  intros He Hp Hr Hs Hrun Hall Hbelow Hf.
  destruct (run_chain w m mdb bs w' m' ob He Hp Hr (is_rows _ _ _ Hs) Hrun)
    as (rbs & oh' & ob' & live & Hc & Hh & ->).
  apply (chain_undone w w' m mdb ob rbs oh' ob'); try done.
  - apply (proj1 (Forall_fmap rb_height (fun x => next <= x) rbs)).
    change (rb_height <$> rbs) with (map rb_height rbs). rewrite Hh. by apply Forall_fmap.
  - assert (length rbs = length bs) as -> by (rewrite <- (length_map rb_height), Hh; apply length_map). done.
Qed.

(** ** Accounts *)

(** The rows of the journal and the index are in none of the families. *)
Lemma commit_family N b oh ob L k :
  apart_literals L [INDEX_HEIGHT_KEY; INDEX_BLOCK_HASH_KEY; UNDO_PREFIX] = true -> family L k ->
  commit_ns N b oh ob !! k = apply_ops N (batch_calls (rb_puts b) (rb_deletes b)) !! k.
Proof.
  intros HL Hk. unfold commit_ns. rewrite apply_ops_app. apply apply_ops_other.
  assert (R : forall n p r, [INDEX_HEIGHT_KEY; INDEX_BLOCK_HASH_KEY; UNDO_PREFIX] !! n = Some p -> p ++ r <> k).
  { intros n p r Hp. apply not_eq_sym. eapply families_apart; [exact HL|done|]. eapply family_nth; [exact Hp|by exists r]. }
  repeat constructor; cbn [op_key].
  - rewrite <- (app_nil_r INDEX_HEIGHT_KEY). by apply (R 0%nat).
  - rewrite <- (app_nil_r INDEX_BLOCK_HASH_KEY). by apply (R 1%nat).
  - by apply (R 2%nat).
Qed.

Lemma commit_accounts N b oh ob :
  accounts_ok (apply_ops N (batch_calls (rb_puts b) (rb_deletes b))) -> accounts_ok (commit_ns N b oh ob).
Proof.
  apply accounts_ext. intros k Hk. by apply (commit_family N b oh ob account_literals).
Qed.

(** The set of live outpoints the module hands to the indexer. *)
Definition live_arg (m : Runes) : option (gset (bytes * Z)) :=
  if rn_load_live_outpoints m then Some (rn_live_outpoints m) else None.

(** How many puts the scan of a block queues. *)
Definition puts_queued (w : World DB) (m : Runes) (mdb : Mdb) (blk : EspoBlock) : nat :=
  length (puts (batch (scan_of w mdb (live_arg m) blk).2)).

(** A call either changes nothing but the set in memory, or writes a block. *)
Lemma index_cases (w : World DB) m mdb blk w' m' ok ob :
  rn_provider m = Some mdb -> raw_handle mdb -> index_rows (ns w mdb) (rn_index_height m) ob ->
  index_ w m blk = (w', m', ok) ->
  (w' = w /\ m' = m /\ ok = true) \/ (w' = w /\ ok = false /\ exists live, m' = set_live m live)
  \/ (ok = true /\ exists s, scan_of w mdb (live_arg m) blk = (Some tt, s)
      /\ m' = set_height (set_live m (default (rn_live_outpoints m) (live_outpoints (outpoints s))))
                 (Some (eb_height blk))
      /\ ns w' mdb = commit_ns (ns w mdb) (rblock_of blk s) (rn_index_height m) ob).
Proof.
  intros Hp Hr Hi. unfold runes_index_block. destruct (negb _); [intros [= <- <- <-]; by left|].
  destruct (match rn_index_height m with Some _ => _ | None => _ end); [intros [= <- <- <-]; by left|].
  rewrite Hp. fold (live_arg m).
  destruct (index_runes_block _ _ _ _ _ _ _ _) as [live [w1|]] eqn:E; intros [= <- <- <-]; right; [right|left].
  - split; [done|]. destruct (index_runes_written w mdb _ blk _ ob live w1 Hr Hi E) as (s & Hs & -> & Hn).
    by exists s.
  - split_all; [done|done|]. by eexists.
Qed.

Lemma index_accounts (w : World DB) m mdb blk w' m' ok ob :
  rn_provider m = Some mdb -> raw_handle mdb -> index_rows (ns w mdb) (rn_index_height m) ob ->
  accounts_ok (ns w mdb) -> typed_inputs (eb_height blk) (eb_txs blk) ->
  Z.of_nat (size (ns w mdb) + puts_queued w m mdb blk) < 2 ^ 64 - 1 ->
  index_ w m blk = (w', m', ok) -> accounts_ok (ns w' mdb).
Proof.
  intros Hp Hr Hi Ha HT Hroom Hx.
  destruct (index_cases w m mdb blk w' m' ok ob Hp Hr Hi Hx) as [(-> & _)|[(-> & _)|(_ & s & Hs & _ & Hn)]];
    [done|done|].
  pose proof (scan_accounts mainnet genesis_override address_index_chunk_size _ _
    (fun k => provider_reads w mdb k Hr) (eb_height blk) (eb_time blk) (eb_txs blk) (live_arg m) HT Ha) as H.
  fold (scan_of w mdb (live_arg m) blk) in H. unfold puts_queued in Hroom. rewrite Hs in H, Hroom. cbn [snd] in H, Hroom.
  rewrite Hn. apply commit_accounts. cbn [rb_puts rb_deletes rblock_of]. rewrite written_rows. by apply H.
Qed.

(** ** The set in memory *)

Lemma index_in_step (w : World DB) m mdb blk s ob :
  raw_handle mdb -> in_step (ns w mdb) m ob -> typed_inputs (eb_height blk) (eb_txs blk) ->
  in_u32 (eb_height blk) -> length (eb_hash blk) = 32%nat ->
  scan_of w mdb (live_arg m) blk = (Some tt, s) ->
  in_step (commit_ns (ns w mdb) (rblock_of blk s) (rn_index_height m) ob)
    (set_height (set_live m (default (rn_live_outpoints m) (live_outpoints (outpoints s)))) (Some (eb_height blk)))
    (Some (eb_hash blk)).
Proof.
  intros Hr Hst HT Hh Hl Hs. split; cbn [rn_index_height rn_live_outpoints rn_load_live_outpoints set_height set_live];
    [by apply commit_rows| |done].
  rewrite bool_decide_true by done. cbn [andb]. unfold live_arg in Hs.
  destruct (rn_load_live_outpoints m) eqn:HL.
  - rewrite (in_step_live _ _ _ Hst HL) in *.
    pose proof (scan_live mainnet genesis_override address_index_chunk_size (ns w mdb) (provider_get fuel w mdb)
      (eb_height blk) (eb_time blk) (eb_txs blk) HT) as H.
    fold (scan_of w mdb (Some (live_of (ns w mdb))) blk) in H. rewrite Hs in H. cbn [snd] in H. rewrite H.
    cbn [default]. symmetry. apply live_of_ext.
    intros k Hk. rewrite (commit_family _ _ _ _ outpoint_literals) by done. cbn [rb_puts rb_deletes rblock_of].
    by rewrite written_rows.
  - pose proof (scan_unloaded mainnet genesis_override address_index_chunk_size (ns w mdb) (provider_get fuel w mdb)
      (eb_height blk) (eb_time blk) (eb_txs blk) HT) as H.
    fold (scan_of w mdb None blk) in H. rewrite Hs in H. cbn [snd] in H. rewrite H. cbn [default].
    destruct Hst as [_ -> _]. by rewrite HL, andb_false_r.
Qed.

(** ** The supply *)

(** A block whose transactions and runes are not in the ledger yet. *)
Record new_block (E : Table) (R : Coins) (blk : EspoBlock) : Prop := {
  nb_height : 1 < eb_height blk;
  nb_txids : NoDup (compute_txid <$> eb_txs blk);
  nb_coins tx v : tx ∈ eb_txs blk -> R !! (compute_txid tx, v) = None;
  nb_runes i : E !! mkRuneId (eb_height blk) i = None;
}.

Lemma index_books (w : World DB) m mdb blk w' m' ok ob E R :
  rn_provider m = Some mdb -> raw_handle mdb -> in_step (ns w mdb) m ob -> rn_load_live_outpoints m = true ->
  typed_inputs (eb_height blk) (eb_txs blk) -> (forall tx a, decipher tx = Some a -> artifact_supply a) ->
  new_block E R blk -> represents (ns w mdb) E R -> readable E R -> balanced_books E R ->
  index_ w m blk = (w', m', ok) ->
  exists E' R', represents (ns w' mdb) E' R' /\ balanced_books E' R'.
Proof.
  intros Hp Hr Hst HL HT Hsup [Hg Hnd Hnc Hnr] HN Hread Hb Hx.
  destruct (index_cases w m mdb blk w' m' ok ob Hp Hr (is_rows _ _ _ Hst) Hx)
    as [(-> & _)|[(-> & _)|(_ & s & Hs & _ & Hn)]]; [by exists E, R|by exists E, R|].
  unfold live_arg in Hs. rewrite HL, (in_step_live _ _ _ Hst HL) in Hs.
  destruct (scan_books mainnet genesis_override address_index_chunk_size (ns w mdb) (provider_get fuel w mdb)
    (fun k => provider_reads w mdb k Hr) (eb_height blk) (eb_time blk) (eb_txs blk) HT E R HN Hread Hsup Hg Hnd
    Hnc Hnr s Hb Hs) as [H1 H2].
  exists (table E s), (coins R s). split; [|done]. rewrite Hn. revert H1. apply represents_ext.
  intros k Hk. rewrite (commit_family _ _ _ _ ledger_literals) by done. cbn [rb_puts rb_deletes rblock_of].
  by rewrite written_rows.
Qed.

(** After a failed block, [handle_reorg] at its height brings the set in memory back. *)
Lemma failed_undone {ulaws : UndoLaws} (w : World DB) m mdb ob live next :
  rn_enable m = true -> rn_provider m = Some mdb -> raw_handle mdb -> in_step (ns w mdb) m ob ->
  (forall h, rn_index_height m = Some h -> h < next) -> (0 < fuel)%nat ->
  exists w2, runes_handle_reorg fuel w (set_live m live) next = (w2, m, true) /\ ns w2 mdb = ns w mdb.
Proof.
  intros He Hp Hr Hst Hlt Hf.
  destruct (chain_undone w w m mdb ob [] (rn_index_height m) ob live next) as [_ H]; try done.
  constructor.
Qed.

(** Both outcomes of [index_block] on a module in step. *)
Lemma index_step_cases {ulaws : UndoLaws} (w : World DB) m mdb blk w' m' ok ob :
  rn_enable m = true -> rn_provider m = Some mdb -> raw_handle mdb -> in_step (ns w mdb) m ob ->
  typed_inputs (eb_height blk) (eb_txs blk) -> in_u32 (eb_height blk) -> length (eb_hash blk) = 32%nat ->
  (0 < fuel)%nat -> index_ w m blk = (w', m', ok) ->
  if ok then exists ob', in_step (ns w' mdb) m' ob'
  else w' = w /\ forall next, (forall h, rn_index_height m = Some h -> h < next) ->
         exists w2, runes_handle_reorg fuel w' m' next = (w2, m, true) /\ ns w2 mdb = ns w mdb.
Proof.
  intros He Hp Hr Hst HT Hh Hl Hf Hx.
  destruct (index_cases w m mdb blk w' m' ok ob Hp Hr (is_rows _ _ _ Hst) Hx)
    as [(-> & -> & ->)|[(-> & -> & live & ->)|(-> & s & Hs & -> & Hn)]].
  - by exists ob.
  - split; [done|]. intros next Hlt. by apply (failed_undone w m mdb ob).
  - rewrite Hn. exists (Some (eb_hash blk)). by apply index_in_step.
Qed.

End Props.
