(* ===== verification/RunesClaims.v ===== *)
(** * Runes: the properties *)
From stdpp Require Import strings.
From S2P Require Import Prelude Bytes Rocks TreeNode TreeDb TreeScan TreeBlocks Demo Mdb.
From S2P Require Import MdbProps RunesTransfer RunesUndo RunesUndoProps RunesStore.
From S2P Require Import RunesTxIndex RunesTxIndexProps RunesFrame.

Open Scope Z_scope.

Section Transfers.
Context {I : Type} `{!EqDecision I, !Countable I}.
Context {Script : Type} (is_op_return : Script -> bool).

(** An edict moves runes between the unallocated sheet and the outputs; for every rune the
    total in flight is the same before and after, and no [u128] addition wraps. *)
Theorem edict_conserves outs (u : gmap I Z) o id amount output :
  sheet_ok u -> outputs_ok o -> 0 <= amount -> in_flight id u o < u128_mod ->
  let r := apply_edict is_op_return outs u o id amount output in
  sheet_ok r.1 /\ outputs_ok r.2 /\ forall i, in_flight i r.1 r.2 = in_flight i u o.
Proof. exact (apply_edict_spec is_op_return outs u o id amount output). Qed.

(** an edict of amount zero that names the output past the last empties the balance: every
    output that is not an [OP_RETURN] receives its even share, and the first ones the
    remainder, one each. *)
Theorem even_split_shares outs (u : gmap I Z) o id b :
  sheet_ok u -> outputs_ok o -> u !! id = Some b -> in_flight id u o < u128_mod ->
  destinations is_op_return outs <> [] ->
  let n := Z.of_nat (length (destinations is_op_return outs)) in
  let r := apply_edict is_op_return outs u o id 0 (Z.of_nat (length outs)) in
  r.1 !! id = Some 0
  /\ forall i v, destinations is_op_return outs !! i = Some v ->
       held id r.2 v = held id o v + b / n + if Z.of_nat i <? b mod n then 1 else 0.
Proof. exact (even_split_spec is_op_return outs u o id b). Qed.

(** Routing the leftovers conserves every rune: what is returned to be burned and what the
    outputs hold add up to what came in. *)
Theorem leftovers_conserve rules outs (u : gmap I Z) o pointer :
  sheet_ok u -> outputs_ok o -> (forall i, in_flight i u o < u128_mod) ->
  let r := route_leftovers is_op_return rules outs u o pointer in
  sheet_ok r.1 /\ outputs_ok r.2 /\ forall i, in_flight i r.1 r.2 = in_flight i u o.
Proof. exact (route_spec is_op_return rules outs u o pointer). Qed.

End Transfers.

Section Undo.
Context {ucodec : UndoCodec} {ulaws : UndoLaws}.
Context {DB : Type} {rocks : RocksDB DB} {laws : RocksLaws DB} {codec : NodeCodec}.

(** Writing a list of blocks and rolling back to the height before it returns without an
    error and gives back the namespace exactly, index rows and journal included. *)
Theorem undo_restores_namespace fuel (w : World DB) m bs oh ob target :
  raw_handle m -> index_rows (ns w m) oh ob -> blocks_ok (ns w m) oh ob bs ->
  Forall (fun b => reached target (rb_height b) = false) bs ->
  (forall h, oh = Some h -> reached target h = true) -> (length bs < fuel)%nat ->
  exists w1 w2, write_blocks fuel w m bs = Some w1
    /\ rollback_to_height fuel w1 m target = Some (w2, None) /\ ns w2 m = ns w m.
Proof.
  intros Hr Hi Hb Hall Hbase Hf.
  destruct (write_blocks_chain fuel w m bs oh ob Hr Hi Hb) as (w1 & oh' & ob' & Hw & Hc).
  destruct (rollback_chain fuel w1 m _ oh ob bs _ oh' ob' target Hr Hi Hc eq_refl Hall Hbase Hf)
    as (w2 & He & Hn). by exists w1, w2.
Qed.

End Undo.

Section TxLists.
Context {rcodec : RuneCodec}.

(** Appending pointers to a transaction list returns its new length, remembers only true
    previous values, and makes every range of the list the slice of the old list followed by
    the values, whatever the inline and chunk boundaries; the other lists of the kind, whose
    chunks are different, still hold what they held. *)
Theorem tx_list_append cfg N kind key xs ids values next pre puts start stop :
  (forall l, index_list_wf l -> decode_index_list (encode_index_list l) = Some l) ->
  1 <= cfg < 2 ^ 32 ->
  holds N kind key xs ids -> ids_below next ids -> NoDup ids ->
  (forall i, key <> rune_tx_chunk_key kind i) -> values <> [] -> Forall in_u64 (xs ++ values) ->
  0 <= next -> next + Z.of_nat (length (xs ++ values)) < 2 ^ 64 -> 0 <= start ->
  exists next' pre' new,
    append_rune_tx_index_values cfg (fun k => N !! k) kind key values next pre puts
      = Some (Z.of_nat (length (xs ++ values)), next', pre', puts ++ new)
    /\ truthful N pre pre'
    /\ get_tx_index_range (fun k => apply_puts N new !! k) kind key start stop
       = Some (slice (xs ++ values) start stop)
    /\ forall key2 ys ids2, key2 <> key -> (forall i, key2 <> rune_tx_chunk_key kind i) ->
         holds N kind key2 ys ids2 -> ids_below next ids2 -> ids2 ## ids ->
         holds (apply_puts N new) kind key2 ys ids2.
Proof.
  intros Hrt Hcfg Hh Hb Hnd Hk Hv Hu Hn Hl Hs.
  destruct (append_spec Hrt cfg Hcfg N kind key xs ids values next pre puts Hh Hb Hnd Hk Hv Hu Hn Hl)
    as (next' & pre' & new & ids' & He & Ht & Ha).
  exists next', pre', new. split_all; [done|done| |].
  - apply (range_spec _ kind key _ ids'); [apply Ha|done|done].
  - intros key2 ys ids2 H1 H2 H3 H4 H5. eapply appended_others; try done. lia.
Qed.

End TxLists.

(** ** Applications *)

Lemma demo_sheet_ok : sheet_ok ({[7 := 10]} : gmap Z Z).
Proof. intros i x [<- <-]%lookup_singleton_Some. lia. Qed.

Lemma demo_no_outputs : outputs_ok (∅ : gmap Z (gmap Z Z)).
Proof. intros v s. by rewrite lookup_empty. Qed.

Definition demo_outs : list bool := [false; true; false; false].

Lemma demo_flight (i : Z) : in_flight i {[7 := 10]} ∅ < u128_mod.
Proof.
  unfold in_flight, amount_of, outputs_total. rewrite map_fold_empty.
  destruct (decide (i = 7)) as [->|Hne]; [by rewrite lookup_singleton_eq|].
  by rewrite lookup_singleton_ne.
Qed.

Lemma edict_conserves_witness :
  let r := apply_edict (fun b => b) demo_outs {[7 := 10]} ∅ 7 4 0 in
  sheet_ok r.1 /\ outputs_ok r.2 /\ forall i, in_flight i r.1 r.2 = in_flight i {[7 := 10]} ∅.
Proof.
  apply (edict_conserves (fun b : bool => b) demo_outs {[7 := 10]} ∅ 7 4 0).
  - exact demo_sheet_ok.
  - exact demo_no_outputs.
  - lia.
  - apply demo_flight.
Defined.

Lemma even_split_shares_witness :
  let r := apply_edict (fun b => b) demo_outs {[7 := 10]} ∅ 7 0 4 in
  r.1 !! 7 = Some 0
  /\ forall i v, destinations (fun b => b) demo_outs !! i = Some v ->
       held 7 r.2 v = held 7 ∅ v + 10 / 3 + if Z.of_nat i <? 10 mod 3 then 1 else 0.
Proof.
  apply (even_split_shares (fun b : bool => b) demo_outs {[7 := 10]} ∅ 7 10).
  - exact demo_sheet_ok.
  - exact demo_no_outputs.
  - by rewrite lookup_singleton_eq.
  - apply demo_flight.
  - discriminate.
Defined.

Lemma leftovers_conserve_witness :
  let r := route_leftovers (fun b => b) TransferRules_default demo_outs {[7 := 10]} ∅ None in
  sheet_ok r.1 /\ outputs_ok r.2 /\ forall i, in_flight i r.1 r.2 = in_flight i {[7 := 10]} ∅.
Proof.
  apply (leftovers_conserve (fun b : bool => b) TransferRules_default demo_outs {[7 := 10]} ∅ None).
  - exact demo_sheet_ok.
  - exact demo_no_outputs.
  - exact demo_flight.
Defined.

(** A codec for the records: the bits of their enumeration. *)
#[global] Instance change_eq_dec : EqDecision RuneUndoChange.
Proof. solve_decision. Defined.
#[global] Instance change_countable : Countable RuneUndoChange :=
  inj_countable' (fun c => (uc_key c, uc_previous c)) (fun p => mkChange p.1 p.2) ltac:(by intros []).
#[global] Instance undo_eq_dec : EqDecision RunesBlockUndo.
Proof. solve_decision. Defined.
#[global] Instance undo_countable : Countable RunesBlockUndo :=
  inj_countable'
    (fun u => (ub_height u, ub_block_hash u, prev_index_height u, prev_index_block_hash u, ub_changes u))
    (fun '(a, b, c, d, e) => mkUndo a b c d e) ltac:(by intros []).

Fixpoint pos_bytes (p : positive) : bytes :=
  match p with
  | xH => []
  | xO q => Byte.x00 :: pos_bytes q
  | xI q => Byte.x01 :: pos_bytes q
  end.

Fixpoint bytes_pos (b : bytes) : positive :=
  match b with
  | [] => xH
  | Byte.x00 :: b' => xO (bytes_pos b')
  | _ :: b' => xI (bytes_pos b')
  end.

Lemma bytes_pos_bytes p : bytes_pos (pos_bytes p) = p.
Proof. induction p; cbn; congruence. Qed.

#[global] Instance demo_undo_codec : UndoCodec := {|
  encode_undo u := pos_bytes (encode u);
  decode_undo b := decode (bytes_pos b);
|}.

#[global] Instance demo_undo_laws : UndoLaws.
Proof. split. intros u _. cbn. by rewrite bytes_pos_bytes, decode_encode. Qed.

Definition demo_raw : World DemoDB := mkWorld ∅ None.
Definition runes_m : Mdb := from_db (bstr "runes:").

Definition demo_rblock (h : Z) : RBlock :=
  mkRBlock [(bstr "/rune/icon/a", bstr "1")] [] ∅ h (be_bytes 32 h).

Lemma demo_raw_ns : ns demo_raw runes_m = ∅.
Proof. apply map_eq. intros k. unfold ns. rewrite ns_of_lookup. cbn [w_db demo_raw db_view gmap_rocks]. by rewrite !lookup_empty. Qed.

Lemma demo_raw_rows : index_rows (ns demo_raw runes_m) None None.
Proof. rewrite demo_raw_ns. split; [by rewrite lookup_empty|by rewrite lookup_empty|done|done]. Qed.

Lemma demo_raw_blocks : blocks_ok (ns demo_raw runes_m) None None [demo_rblock 5].
Proof.
  split; [|done]. rewrite demo_raw_ns. split.
  - intros k p. cbn. by rewrite lookup_empty.
  - intros. by rewrite lookup_empty.
  - intros k Hk. unfold touched, touched_by in Hk. cbn [rb_puts rb_deletes demo_rblock] in Hk.
    apply list_elem_of_singleton in Hk as ->. intros [H|[H|H]]; discriminate H.
  - by rewrite lookup_empty.
  - unfold in_u32; cbn [rb_height demo_rblock]; lia.
  - reflexivity.
Qed.

Lemma undo_restores_namespace_witness :
  exists w1 w2, write_blocks 2 demo_raw runes_m [demo_rblock 5] = Some w1
    /\ rollback_to_height 2 w1 runes_m (Some 4) = Some (w2, None)
    /\ ns w2 runes_m = ns demo_raw runes_m.
Proof.
  apply (undo_restores_namespace 2 demo_raw runes_m [demo_rblock 5] None None (Some 4)).
  - split; reflexivity.
  - exact demo_raw_rows.
  - exact demo_raw_blocks.
  - repeat constructor.
  - discriminate.
  - cbn. lia.
Defined.

#[global] Instance RuneTxIndexList_eq_dec : EqDecision RuneTxIndexList.
Proof. solve_decision. Defined.
#[global] Instance RuneTxIndexList_countable : Countable RuneTxIndexList :=
  inj_countable'
    (fun l => match l with Inline i => inl i | External c n s => inr (c, n, s) end)
    (fun l => match l with inl i => Inline i | inr (c, n, s) => External c n s end)
    ltac:(by intros []).

#[global] Instance SchemaRuneTerms_eq_dec : EqDecision SchemaRuneTerms.
Proof. solve_decision. Defined.
#[global] Instance SchemaRuneTerms_countable : Countable SchemaRuneTerms :=
  inj_countable'
    (fun t => (t_amount t, t_cap t, height_start t, height_end t, offset_start t, offset_end t))
    (fun '(a, c, hs, he, os, oe) => mkTerms a c hs he os oe) ltac:(by intros []).

#[global] Instance RuneEntry_eq_dec : EqDecision RuneEntry.
Proof. solve_decision. Defined.
#[global] Instance RuneEntry_countable : Countable RuneEntry :=
  inj_countable'
    (fun e => (re_id e, re_rune e, re_name e, re_spaced_name e, re_spacers e, re_symbol e, re_divisibility e,
               premine e, burned e, mints e, terms e, etching_txid e, re_number e, re_timestamp e, turbo e))
    (fun '(i, r, n, s, sp, sy, d, p, b, m, t, x, nr, ts, tb) => mkEntry i r n s sp sy d p b m t x nr ts tb)
    ltac:(by intros []).

#[global] Instance RuneBalance_eq_dec : EqDecision RuneBalance.
Proof. solve_decision. Defined.
#[global] Instance RuneBalance_countable : Countable RuneBalance :=
  inj_countable' (fun b => (rb_id b, rb_amount b)) (fun p => mkBalance p.1 p.2) ltac:(by intros []).
#[global] Instance OutpointRuneBalances_eq_dec : EqDecision OutpointRuneBalances.
Proof. solve_decision. Defined.
#[global] Instance OutpointRuneBalances_countable : Countable OutpointRuneBalances :=
  inj_countable' (fun r => (or_address r, or_script r, or_balances r))
    (fun '(a, s, b) => mkOutpointRow a s b) ltac:(by intros []).

Definition demo_rune_codec : RuneCodec := {|
  encode_entry e := pos_bytes (encode e);
  decode_entry b := decode (bytes_pos b);
  encode_outpoint r := pos_bytes (encode r);
  decode_outpoint b := row ← decode (bytes_pos b); if decide (row_typed row) then Some row else None;
  encode_id id := id_key_bytes id;
  encode_mint_activity _ := [];
  encode_activity _ := [];
  encode_io _ := [];
  encode_pointer_blob _ := [];
  encode_action_blob _ := [];
  encode_index_list l := pos_bytes (encode l);
  decode_index_list b := decode (bytes_pos b);
|}.

(** Nine pointers, one more than fits inline, in chunks of four. *)
Lemma tx_list_append_witness :
  exists next' pre' new,
    append_rune_tx_index_values (rcodec := demo_rune_codec) 4 (fun k => (∅ : gmap bytes bytes) !! k) KBlock
      (rune_tx_block_list_key 7) (seqZ 0 9) 0 ∅ []
      = Some (9, next', pre', [] ++ new)
    /\ truthful ∅ ∅ pre'
    /\ get_tx_index_range (rcodec := demo_rune_codec) (fun k => apply_puts ∅ new !! k) KBlock
         (rune_tx_block_list_key 7) 2 6 = Some (slice ([] ++ seqZ 0 9) 2 6)
    /\ forall key2 ys ids2, key2 <> rune_tx_block_list_key 7 ->
         (forall i, key2 <> rune_tx_chunk_key KBlock i) ->
         holds (rcodec := demo_rune_codec) ∅ KBlock key2 ys ids2 -> ids_below 0 ids2 -> ids2 ## [] ->
         holds (rcodec := demo_rune_codec) (apply_puts ∅ new) KBlock key2 ys ids2.
Proof.
  apply (tx_list_append (rcodec := demo_rune_codec) 4 ∅ KBlock (rune_tx_block_list_key 7) [] []
           (seqZ 0 9) 0 ∅ [] 2 6).
  - intros l _. cbn. by rewrite bytes_pos_bytes, decode_encode.
  - lia.
  - unfold holds. rewrite lookup_empty. done.
  - constructor.
  - constructor.
  - intros i. unfold rune_tx_block_list_key, rune_tx_chunk_key. cbv -[be_bytes]. discriminate.
  - discriminate.
  - apply Forall_forall. intros x Hx%elem_of_seqZ. unfold in_u64. lia.
  - lia.
  - vm_compute. reflexivity.
  - lia.
Defined.
