(* ===== verification/RunesIndexClaims.v ===== *)
(** * Indexing runes: the properties *)
From stdpp Require Import strings.
From S2P Require Import Prelude Bytes Rocks TreeNode TreeDb TreeBlocks Demo Mdb MdbProps Reorg StateM.
From S2P Require Import RunesTransfer RunesUndo RunesUndoProps RunesStore RunesTxIndex RunesChain.
From S2P Require Import RunesInscriptions RunesIndexer RunesConserve RunesJournal RunesFrame.
From S2P Require Import RunesLive RunesHolders RunesLedger RunesSupply RunesModule RunesModuleProps RunesClaims.

Open Scope Z_scope.

Section Indexing.
Context {btc : BitcoinCrate} {ord : OrdinalsCrate} {node : Node} {others : OtherModules}.
Context {rcodec : RuneCodec} {icodec : IconCodec}.
Context (mainnet : bool) (genesis_override : option Z) (address_index_chunk_size : Z).

(** C37: a transaction neither creates nor destroys runes.  From any state of the indexer, the
    record it writes balances for every rune: what the outputs receive and what is burned add up to
    what the inputs carried, the premine of the rune it etched and what it minted, modulo the
    width of an amount. *)
Theorem tx_conserves rd height timestamp tx_index tx block external s io i :
  (forall tx a, decipher tx = Some a -> artifact_typed a) ->
  (index_tx mainnet genesis_override rd height timestamp tx_index tx block external s).1 = Some (Some io) ->
  outflow io i = inflow tx io i mod u128_mod.
Proof.
  intros Ht E.
  destruct (index_tx_balanced mainnet genesis_override rd height timestamp Ht tx_index tx block external s I)
    as [_ H]. by apply (H _ E).
Qed.

Context {DB : Type} {rocks : RocksDB DB} {laws : RocksLaws DB} {codec : NodeCodec}.
Context {ucodec : UndoCodec} {ulaws : UndoLaws} (fuel : nat).

(** C35: a block keeps the supply of every rune accounted for.  Take a module that keeps the live
    outpoints in memory (the default).  If the namespace holds a table of runes and the rows of the
    unspent outpoints, neither yet with anything of the block's transactions, and for every rune what those outpoints hold and
    what is burned add up to the premine and the amounts minted, then after [index_block] the
    namespace again holds such a table and such rows; and no rune is minted past its cap. *)
Theorem index_keeps_supply (w : World DB) m mdb blk w' m' ok ob E R :
  rn_provider m = Some mdb -> raw_handle mdb -> in_step (ns w mdb) m ob -> rn_load_live_outpoints m = true ->
  typed_inputs (eb_height blk) (eb_txs blk) -> (forall tx a, decipher tx = Some a -> artifact_supply a) ->
  new_block E R blk -> represents (ns w mdb) E R -> readable E R -> balanced_books E R ->
  runes_index_block mainnet genesis_override address_index_chunk_size fuel w m blk = (w', m', ok) ->
  exists E' R', represents (ns w' mdb) E' R'
    /\ (forall id, coins_total id R' + burnt E' id = issued E' id)
    /\ (forall id e, E' !! id = Some e -> 0 <= mints e <= mint_cap e)
    /\ balanced_books E' R'.
Proof.
  intros Hp Hr Hst HL HT Hsup Hnew HN Hread Hb Hx.
  destruct (index_books _ _ _ fuel w m mdb blk w' m' ok ob E R Hp Hr Hst HL HT Hsup Hnew HN Hread Hb Hx)
    as (E' & R' & H1 & H2).
  exists E', R'. split_all; [done| | |done].
  - intros id. pose proof (bk_balance _ _ _ H2 id). cbn in *. lia.
  - intros id e He. by apply eo_mints with id, (bk_entries _ _ _ H2).
Qed.

(** C38: an indexed block can be taken back.  Take a module in step with its namespace, below the
    block; in the namespace, let every counter lie above the rows it numbers, every outpoint row be
    the encoding of what it decodes to with its row under the address, and every rune without a row
    have no name rows ([ready]); and let there be no row of the block's height or of its
    transactions yet ([unindexed]).  When [index_block] succeeds on the block, the preflight of a
    rollback to a height between accepts, and [handle_reorg] succeeds, gives back the namespace
    exactly as it was, every row of it, and leaves the module in the state it was in, live
    outpoints included. *)
Theorem index_then_reorg (w : World DB) m mdb blk w' m' ob next :
  rn_enable m = true -> rn_provider m = Some mdb -> raw_handle mdb -> in_step (ns w mdb) m ob ->
  ready (ns w mdb) -> unindexed (ns w mdb) (eb_height blk) (eb_txs blk) -> ns w mdb !! undo_key (eb_height blk) = None ->
  in_u32 (eb_height blk) -> length (eb_hash blk) = 32%nat ->
  (forall h, rn_index_height m = Some h -> h < next) -> next <= eb_height blk -> (1 < fuel)%nat ->
  runes_index_block mainnet genesis_override address_index_chunk_size fuel w m blk = (w', m', true) ->
  runes_preflight_reorg fuel w' m' next = true
  /\ exists w2, runes_handle_reorg fuel w' m' next = (w2, m, true) /\ ns w2 mdb = ns w mdb.
Proof.
  intros He Hp Hr Hst HR HU Hun Hh Hl Hlt Hle Hf Hx.
  eapply (run_undone mainnet genesis_override address_index_chunk_size fuel w m mdb [blk]); try done; [|by repeat constructor].
  eapply (run_snoc _ _ _ _ _ _ [] _ _ blk); [constructor| |exact Hx].
  split; [intros h E; specialize (Hlt h E); lia|done|done|..]; intros mdb' E; rewrite Hp in E; by injection E as <-.
Qed.

(** C39: the account rows stay consistent.  If every balance is the same under the address and under
    the rune, absent when zero and in range, and every holder count is the number of holder rows,
    then this is so after [index_block], whether the block is indexed, skipped or fails, as long as
    a count of holders cannot reach the top of its type. *)
Theorem index_keeps_accounts (w : World DB) m mdb blk w' m' ok ob :
  rn_provider m = Some mdb -> raw_handle mdb -> index_rows (ns w mdb) (rn_index_height m) ob ->
  accounts_ok (ns w mdb) -> typed_inputs (eb_height blk) (eb_txs blk) ->
  Z.of_nat (size (ns w mdb)
    + puts_queued mainnet genesis_override address_index_chunk_size fuel w m mdb blk) < 2 ^ 64 - 1 ->
  runes_index_block mainnet genesis_override address_index_chunk_size fuel w m blk = (w', m', ok) ->
  accounts_ok (ns w' mdb).
Proof. exact (index_accounts _ _ _ fuel w m mdb blk w' m' ok ob). Qed.

(** C40: the set of live outpoints in memory stays in step with the namespace.  After a block that is
    indexed it is the set of outpoints that have a row, and the height is the height row's; after a
    block that fails nothing was written, and [handle_reorg], which the indexer loop then calls,
    brings the module back to the state before the block. *)
Theorem index_keeps_step (w : World DB) m mdb blk w' m' ok ob :
  rn_enable m = true -> rn_provider m = Some mdb -> raw_handle mdb -> in_step (ns w mdb) m ob ->
  typed_inputs (eb_height blk) (eb_txs blk) -> in_u32 (eb_height blk) -> length (eb_hash blk) = 32%nat ->
  (0 < fuel)%nat ->
  runes_index_block mainnet genesis_override address_index_chunk_size fuel w m blk = (w', m', ok) ->
  if ok then exists ob', in_step (ns w' mdb) m' ob'
  else w' = w /\ forall next, (forall h, rn_index_height m = Some h -> h < next) ->
         exists w2, runes_handle_reorg fuel w' m' next = (w2, m, true) /\ ns w2 mdb = ns w mdb.
Proof. exact (index_step_cases _ _ _ fuel w m mdb blk w' m' ok ob). Qed.

End Indexing.

(** Amounts go through a signed type on their way to the balance: one of [2 ^ 127] or more lowers the
    balance of the address that receives it. *)
Lemma large_amount_lost prev amount :
  in_u128 prev -> 2 ^ 127 <= amount < 2 ^ 128 ->
  apply_delta prev (as_i128 amount) = Z.max 0 (prev - (2 ^ 128 - amount)).
Proof.
  intros Hp Ha. unfold as_i128. rewrite Z.mod_small by lia.
  rewrite (proj2 (Z.ltb_ge _ _)) by lia. unfold apply_delta. rewrite (proj2 (Z.ltb_lt _ _)) by lia.
  unfold u128_sat_sub. lia.
Qed.

(** ** Applications

    A block whose first transaction etches a rune with a premine of ten, and whose second sends four
    of them on, mints the genesis rune and points the rest at its last output. *)

Definition demo_script (s : bytes) : bool := match s with x :: _ => Byte.eqb x Byte.x6a | [] => false end.

#[global] Instance demo_btc : BitcoinCrate := {|
  compute_txid tx := be_bytes 32 (Z.of_nat (length (input tx)));
  is_null _ := false;
  is_op_return := demo_script;
  is_p2tr _ := false;
  instructions s := if demo_script s then [Some (Op OP_RETURN); Some (Op OP_PUSHNUM_13)] else [];
  tapscript _ := None;
  deserialize_tx _ := None;
  address_from_script s := Some s;
|}.

Definition demo_etch : Runestone :=
  mkRunestone [] (Some (mkEtching None (Some 10) None None None None false)) None None.
Definition demo_send : Runestone :=
  mkRunestone [mkEdict (mkOrdRuneId 3 0) 4 1] None (Some (mkOrdRuneId 1 0)) (Some 2).

#[global] Instance demo_ord : OrdinalsCrate := {|
  decipher tx := Some (ARunestone (match input tx with [] => demo_etch | _ :: _ => demo_send end));
  minimum_at_height _ := 0;
  is_reserved _ := false;
  rune_reserved h i := h * 2 ^ 32 + i;
  commitment _ := [];
  rune_to_string r := be_bytes 16 r;
  spaced_to_string r s := be_bytes 16 r ++ be_bytes 4 s;
  rune_from_str _ := Some 1;
  COMMIT_CONFIRMATIONS := 6;
|}.

#[global] Instance demo_node : Node := {|
  tx_outputs_and_block _ := None;
  header_height _ := None;
  raw_transaction _ := None;
  batch_transaction_get_raw _ := [];
|}.

#[global] Instance demo_others : OtherModules := {|
  btc_usd_price_at_height _ := None;
  alkane_block_txs_len _ := 0;
  alkane_block_txs _ _ := [];
  load_tx_pointer_blob _ := None;
|}.

#[global] Instance demo_icons : IconCodec := {| encode_icon _ := [] |}.

Definition etch_tx : Transaction :=
  mkTransaction [] [mkTxOut 0 [Byte.x6a]; mkTxOut 546 (bstr "alice")].
Definition send_tx : Transaction :=
  mkTransaction [mkTxIn (mkOutPoint (compute_txid etch_tx) 1) []]
    [mkTxOut 0 [Byte.x6a]; mkTxOut 546 (bstr "bob"); mkTxOut 546 (bstr "carol")].
Definition demo_block : EspoBlock := mkBlock 3 100 (be_bytes 32 7) [etch_tx; send_tx].

Lemma demo_typed_artifacts tx a : decipher tx = Some a -> artifact_typed a.
Proof. cbn. intros [= <-]. destruct (input tx); cbn; repeat constructor; cbn; lia. Qed.

(** The indexer after the first transaction. *)
Definition after_etch : BlockRunesIndexer :=
  (index_tx (rcodec := demo_rune_codec) true (Some 3) (fun _ => None) 3 100 0 etch_tx ∅ ∅ (indexer_new None)).2.

Lemma tx_conserves_witness :
  exists io, (index_tx (rcodec := demo_rune_codec) true (Some 3) (fun _ => None) 3 100 1 send_tx ∅ ∅
      after_etch).1 = Some (Some io)
    /\ outflow io (mkRuneId 3 0) = inflow send_tx io (mkRuneId 3 0) mod u128_mod
    /\ inflow send_tx io (mkRuneId 3 0) = 10
    /\ io_total (mkRuneId 3 0) (io_outputs io) = 10.
Proof.
  eexists. split; [vm_compute; reflexivity|]. split; [|split; vm_compute; reflexivity].
  eapply (tx_conserves (rcodec := demo_rune_codec) true (Some 3) (fun _ => None) 3 100 1 send_tx ∅ ∅ after_etch).
  - exact demo_typed_artifacts.
  - vm_compute. reflexivity.
Defined.

Definition demo_runes : Runes := mkRunes (Some runes_m) None ∅ true true.

Abbreviation demo_index :=
  (runes_index_block (rcodec := demo_rune_codec) true (Some 3) 4 3 demo_raw demo_runes demo_block).

Lemma demo_index_ok : demo_index.2 = true.
Proof. vm_compute. reflexivity. Qed.

Lemma triple_ok {A B} (x : A * B * bool) : x.2 = true -> x = (x.1.1, x.1.2, true).
Proof. destruct x as [[a b] c]. cbn. by intros ->. Qed.

Lemma demo_ready : ready (rcodec := demo_rune_codec) (ns demo_raw runes_m).
Proof. rewrite demo_raw_ns. split; unfold covers; intros; rewrite ?lookup_empty in *; try done. Qed.

Lemma demo_unindexed : unindexed (ns demo_raw runes_m) 3 [etch_tx; send_tx].
Proof.
  rewrite demo_raw_ns. split; intros; rewrite ?lookup_empty; try done.
  repeat constructor; intros; by rewrite !lookup_empty.
Qed.

Lemma demo_in_step : in_step (ns demo_raw runes_m) demo_runes None.
Proof. split; [exact demo_raw_rows|reflexivity|]. intros _. by rewrite demo_raw_ns. Qed.

Lemma index_then_reorg_witness :
  exists w' m', demo_index = (w', m', true)
    /\ runes_preflight_reorg 3 w' m' 3 = true
    /\ exists w2, runes_handle_reorg 3 w' m' 3 = (w2, demo_runes, true) /\ ns w2 runes_m = ns demo_raw runes_m.
Proof.
  exists demo_index.1.1, demo_index.1.2.
  pose proof (triple_ok _ demo_index_ok) as E.
  split; [exact E|].
  eapply (index_then_reorg (rcodec := demo_rune_codec) true (Some 3) 4 3 demo_raw demo_runes runes_m
            demo_block _ _ None 3).
  - reflexivity.
  - reflexivity.
  - split; reflexivity.
  - exact demo_in_step.
  - exact demo_ready.
  - exact demo_unindexed.
  - by rewrite demo_raw_ns, lookup_empty.
  - unfold in_u32. cbn [demo_block eb_height]. lia.
  - reflexivity.
  - discriminate.
  - cbn. lia.
  - lia.
  - exact E.
Defined.

Lemma demo_typed_block : typed_inputs (rcodec := demo_rune_codec) 3 [etch_tx; send_tx].
Proof.
  split.
  - intros raw row. cbn. destruct (decode _) as [r|]; cbn; [|done]. by destruct (decide _); intros [= <-].
  - intros tx a Ha. split; [by apply (demo_typed_artifacts tx)|].
    cbn in Ha. injection Ha as <-. destruct (input tx); cbn; repeat constructor; cbn; try lia; try done.
    by intros p [= <-].
  - intros tx a id. cbn. intros [= <-]. destruct (input tx); cbn; [discriminate|].
    intros [= <-]. unfold id_typed. cbn [from_rune_id rid_block rid_tx block_ tx_]. lia.
  - done.
  - intros tx i Htx Hi. apply list_elem_of_In in Htx as [<-|[<-|[]]]; apply list_elem_of_In in Hi; [done|].
    destruct Hi as [<-|[]]. split; [done|cbn; lia].
  - intros tx Htx. apply list_elem_of_In in Htx as [<-|[<-|[]]]; cbn; lia.
  - lia.
  - cbn. lia.
Qed.

Lemma accounts_ok_empty : accounts_ok ∅.
Proof.
  split; intros.
  - by rewrite !lookup_empty.
  - exists 0. split; [unfold in_u128, u128_mod; lia|by rewrite lookup_empty].
  - assert (E : holders ∅ id = ∅) by (unfold holders; set_solver).
    by rewrite lookup_empty, E, size_empty.
Qed.

Lemma index_keeps_accounts_witness :
  accounts_ok (ns demo_index.1.1 runes_m)
  /\ ns demo_index.1.1 runes_m !! holder_key (mkRuneId 3 0) (bstr "bob") = Some (encode_u128 4)
  /\ count_value (ns demo_index.1.1 runes_m !! holders_count_key (mkRuneId 3 0)) = 2.
Proof.
  split.
  - apply (index_keeps_accounts (rcodec := demo_rune_codec) true (Some 3) 4 3 demo_raw demo_runes runes_m
             demo_block _ demo_index.1.2 demo_index.2 None).
    + reflexivity.
    + split; reflexivity.
    + exact demo_raw_rows.
    + rewrite demo_raw_ns. exact accounts_ok_empty.
    + exact demo_typed_block.
    + rewrite demo_raw_ns, map_size_empty. vm_compute. reflexivity.
    + by destruct (runes_index_block _ _ _ _ _ _ _) as [[? ?] ?].
  - split; vm_compute; reflexivity.
Defined.

Lemma index_keeps_step_witness :
  exists ob', in_step (ns demo_index.1.1 runes_m) demo_index.1.2 ob'
    /\ size (rn_live_outpoints demo_index.1.2) = 2%nat.
Proof.
  assert (H : exists ob', in_step (ns demo_index.1.1 runes_m) demo_index.1.2 ob').
  { apply (index_keeps_step (rcodec := demo_rune_codec) true (Some 3) 4 3 demo_raw demo_runes runes_m
             demo_block demo_index.1.1 demo_index.1.2 true None).
    - reflexivity.
    - reflexivity.
    - split; reflexivity.
    - exact demo_in_step.
    - exact demo_typed_block.
    - unfold in_u32. cbn [demo_block eb_height]. lia.
    - reflexivity.
    - lia.
    - exact (triple_ok _ demo_index_ok). }
  destruct H as [ob' H]. exists ob'. split; [exact H|vm_compute; reflexivity].
Defined.

Lemma demo_supply tx a : decipher tx = Some a -> artifact_supply a.
Proof.
  cbn. intros [= <-]. destruct (input tx); cbn; [|done]. intros e [= <-].
  unfold etching_ok, u128_mod. cbn. lia.
Qed.

Lemma books_empty : balanced_books ∅ ∅.
Proof. split; try done; intros; by rewrite lookup_empty in *. Qed.

Lemma represents_empty {rcodec : RuneCodec} : represents ∅ ∅ ∅.
Proof. split; intros; rewrite ?lookup_empty in *; try done; by destruct H. Qed.

(** The table has the entry its row decodes to. *)
Lemma row_in_table {rcodec : RuneCodec} V E R id e :
  (forall e, decode_entry (encode_entry e) = Some e) -> represents V E R -> id_typed id ->
  V !! entry_key id ≫= decode_entry = Some e -> E !! id = Some e.
Proof.
  intros Hc H Hid. rewrite (rp_entries _ _ _ H id Hid). destruct (E !! id) as [x|]; [|done].
  cbn. by rewrite Hc.
Qed.

(** The entry of the rune the block etches. *)
Definition demo_entry : option RuneEntry := Eval vm_compute in
  ns demo_index.1.1 runes_m !! entry_key (mkRuneId 3 0) ≫= decode_entry (RuneCodec := demo_rune_codec).

Lemma demo_issued E R :
  represents (rcodec := demo_rune_codec) (ns demo_index.1.1 runes_m) E R -> issued E (mkRuneId 3 0) = 10.
Proof.
  assert (Hd : ns demo_index.1.1 runes_m !! entry_key (mkRuneId 3 0)
               ≫= decode_entry (RuneCodec := demo_rune_codec) = demo_entry) by (vm_compute; reflexivity).
  revert Hd. generalize (ns demo_index.1.1 runes_m) as V. intros V Hd H. unfold issued.
  rewrite (row_in_table (rcodec := demo_rune_codec) V E R (mkRuneId 3 0) _) by
    (first [exact H | exact Hd | split; cbn; lia | intros e; cbn; by rewrite bytes_pos_bytes, decode_encode]).
  reflexivity.
Qed.

Lemma index_keeps_supply_witness :
  exists E' R', (represents (rcodec := demo_rune_codec) (ns demo_index.1.1 runes_m) E' R'
    /\ (forall id, coins_total id R' + burnt E' id = issued E' id)
    /\ (forall id e, E' !! id = Some e -> 0 <= mints e <= mint_cap e)
    /\ balanced_books E' R')
    /\ coins_total (mkRuneId 3 0) R' + burnt E' (mkRuneId 3 0) = 10.
Proof.
  assert (H : exists E' R', represents (rcodec := demo_rune_codec) (ns demo_index.1.1 runes_m) E' R'
    /\ (forall id, coins_total id R' + burnt E' id = issued E' id)
    /\ (forall id e, E' !! id = Some e -> 0 <= mints e <= mint_cap e)
    /\ balanced_books E' R').
  { apply (index_keeps_supply (rcodec := demo_rune_codec) true (Some 3) 4 3 demo_raw demo_runes runes_m
             demo_block demo_index.1.1 demo_index.1.2 true None ∅ ∅).
    - reflexivity.
    - split; reflexivity.
    - exact demo_in_step.
    - reflexivity.
    - exact demo_typed_block.
    - exact demo_supply.
    - split.
      + cbn. lia.
      + apply (bool_decide_unpack _). vm_compute. exact I.
      + intros. by rewrite lookup_empty.
      + intros. by rewrite lookup_empty.
    - rewrite demo_raw_ns. exact represents_empty.
    - split; intros *; by rewrite lookup_empty.
    - exact books_empty.
    - exact (triple_ok _ demo_index_ok). }
  destruct H as (E' & R' & H1 & H2 & H3 & H4). exists E', R'. split; [by split_all|].
  rewrite H2. apply (demo_issued E' R' H1).
Defined.
