(* ===== verification/AlkTrace.v ===== *)
(** * Alkanes traces

    The data of [src/alkanes/trace.rs] and its conversions, the parsing of numbers
    in [src/modules/essentials/utils/balances/utils.rs], and the repair of traces in
    [src/alkanes/utils.rs]: a trace is a flat list of calls and returns, into which
    host functions put returns of their own; the repair removes as many of them as
    the trace has returns too many.

    Strings are their UTF-8 bytes.  The messages of the [alkanes] crate are
    restricted to the fields the sources read; decoding of hex strings and of Bitcoin
    structures are asked of their crates, the class [TraceCrates]. *)
From Stdlib Require Import Strings.Byte.
From stdpp Require Import strings.
From S2P Require Import Prelude Bytes RunesTransfer RunesStore RunesChain RunesInscriptions.
From stdpp Require Import options.

Open Scope Z_scope.

(** ** Identifiers *)

Record SchemaAlkaneId := mkAlkaneId { ak_block : Z; ak_tx : Z }.

#[global] Instance SchemaAlkaneId_eq_dec : EqDecision SchemaAlkaneId.
Proof. solve_decision. Defined.
#[global] Instance SchemaAlkaneId_countable : Countable SchemaAlkaneId :=
  inj_countable' (fun r => (ak_block r, ak_tx r)) (fun p => mkAlkaneId p.1 p.2) ltac:(by intros []).

(** The derived [Ord]. *)
Definition aid_leb (a b : SchemaAlkaneId) : bool :=
  (ak_block a <? ak_block b) || ((ak_block a =? ak_block b) && (ak_tx a <=? ak_tx b)).

(** The entries of a [BTreeMap] in the order of its keys. *)
Definition btree_entries {V} (m : gmap SchemaAlkaneId V) : list (SchemaAlkaneId * V) :=
  sort_by (fun a b => aid_leb a.1 b.1) (map_to_list m).

Lemma btree_entries_perm {V} (m : gmap SchemaAlkaneId V) : btree_entries m ≡ₚ map_to_list m.
Proof. apply sort_by_perm. Qed.

(** ** Events *)

Record EspoSandshrewLikeTraceShortId := mkShortId { sid_block : bytes; sid_tx : bytes }.
Record EspoSandshrewLikeTraceTransfer := mkTransfer { tf_id : EspoSandshrewLikeTraceShortId; tf_value : bytes }.
Record EspoSandshrewLikeTraceStorageKV := mkStorageKV { skv_key : bytes; skv_value : bytes }.

Record EspoSandshrewLikeTraceInvokeContext := mkContext {
  myself : EspoSandshrewLikeTraceShortId;
  caller : EspoSandshrewLikeTraceShortId;
  inputs : list bytes;
  incoming_alkanes : list EspoSandshrewLikeTraceTransfer;
  cx_vout : Z;
}.

Record EspoSandshrewLikeTraceInvokeData := mkInvoke {
  typ : bytes;
  context : EspoSandshrewLikeTraceInvokeContext;
  iv_fuel : Z;
}.

Inductive EspoSandshrewLikeTraceStatus := Success | Failure.

#[global] Instance Status_eq_dec : EqDecision EspoSandshrewLikeTraceStatus.
Proof. solve_decision. Defined.

Record EspoSandshrewLikeTraceReturnResponse := mkResponse {
  alkanes : list EspoSandshrewLikeTraceTransfer;
  rs_data : bytes;
  rs_storage : list EspoSandshrewLikeTraceStorageKV;
}.

Record EspoSandshrewLikeTraceReturnData := mkReturn {
  status : EspoSandshrewLikeTraceStatus;
  response : EspoSandshrewLikeTraceReturnResponse;
}.

Inductive EspoSandshrewLikeTraceEvent :=
| Invoke (inv : EspoSandshrewLikeTraceInvokeData)
| Return (ret : EspoSandshrewLikeTraceReturnData)
| Create (id : EspoSandshrewLikeTraceShortId).

Record EspoSandshrewLikeTrace := mkTrace {
  tr_outpoint : bytes;
  events : list EspoSandshrewLikeTraceEvent;
}.

(** ** Numbers in strings *)

(** [char::to_digit] *)
Definition to_digit (radix : Z) (b : byte) : option Z :=
  let c := b2z b in
  let d := if (48 <=? c) && (c <=? 57) then Some (c - 48)
           else if (97 <=? c) && (c <=? 122) then Some (c - 87)
           else if (65 <=? c) && (c <=? 90) then Some (c - 55)
           else None in
  d ≫= fun d => if d <? radix then Some d else None.

(** The digits of a number below [bound], most significant first. *)
Fixpoint digits_value (radix bound acc : Z) (s : bytes) : option Z :=
  match s with
  | [] => Some acc
  | c :: s' =>
      d ← to_digit radix c;
      let v := acc * radix + d in
      if v <? bound then digits_value radix bound v s' else None
  end.

(** [from_str_radix] of an unsigned type with the values below [bound]. *)
Definition from_str_radix (radix bound : Z) (s : bytes) : option Z :=
  match s with
  | [] => None
  | [c] => digits_value radix bound 0 s
  | c :: s' => if bool_decide (c = x2b) then digits_value radix bound 0 s' else digits_value radix bound 0 s
  end.

(** [s.strip_prefix(p).unwrap_or(s)] *)
Definition strip_prefix_or (p s : bytes) : bytes := if starts_with s p then drop (length p) s else s.

Definition hex_prefix : bytes := bstr "0x".

Definition parse_hex_u32 (s : bytes) : option Z := from_str_radix 16 (2 ^ 32) (strip_prefix_or hex_prefix s).
Definition parse_hex_u64 (s : bytes) : option Z := from_str_radix 16 (2 ^ 64) (strip_prefix_or hex_prefix s).
Definition parse_hex_u128 (s : bytes) : option Z := from_str_radix 16 u128_mod (strip_prefix_or hex_prefix s).

Definition parse_u128_from_str (input : bytes) : option Z :=
  if starts_with input hex_prefix then from_str_radix 16 u128_mod (drop 2 input)
  else from_str_radix 10 u128_mod input.

Definition parse_short_id (id : EspoSandshrewLikeTraceShortId) : option SchemaAlkaneId :=
  block ← parse_hex_u32 (sid_block id);
  tx ← parse_hex_u64 (sid_tx id);
  Some (mkAlkaneId block tx).

(** ** Repair *)

Class TraceCrates := {
  (** [hex::decode] *)
  hex_decode : bytes -> option bytes;
  (** [deserialize::<Header>(data).is_ok()] *)
  header_decodes : bytes -> bool;
  (** [deserialize::<Transaction>(data)] succeeds and the transaction is a coinbase. *)
  coinbase_decodes : bytes -> bool;
}.

Record EspoHostFunctionValues := mkHostValues { hv_header : bytes; hv_coinbase : bytes; hv_diesel : bytes; hv_fee : bytes }.

Definition EspoHostFunctionValues_default : EspoHostFunctionValues := mkHostValues [] [] [] [].

Inductive CleanEventView :=
| VInvoke
| VReturn (candidate_data : option bytes)
| VOther.

Section Clean.
Context {crates : TraceCrates}.

Definition decode_hex_data (data : bytes) : option bytes :=
  let trimmed := strip_prefix_or hex_prefix data in
  if bool_decide (trimmed = []) then Some [] else hex_decode trimmed.

Definition event_view (ev : EspoSandshrewLikeTraceEvent) : CleanEventView :=
  match ev with
  | Invoke _ => VInvoke
  | Return ret =>
      VReturn (if bool_decide (status ret = Success) && bool_decide (length (alkanes (response ret)) = 0%nat)
                  && bool_decide (length (rs_storage (response ret)) = 0%nat)
               then decode_hex_data (rs_data (response ret)) else None)
  | Create _ => VOther
  end.

Definition sandshrew_event_views (evs : list EspoSandshrewLikeTraceEvent) : list CleanEventView := event_view <$> evs.

Definition is_invoke (v : CleanEventView) : bool := match v with VInvoke => true | _ => false end.
Definition is_return (v : CleanEventView) : bool := match v with VReturn _ => true | _ => false end.

Definition count_views (f : CleanEventView -> bool) (views : list CleanEventView) : Z :=
  Z.of_nat (length (filter (fun v => f v = true) views)).

Definition host_match (host : EspoHostFunctionValues) (data : bytes) : bool :=
  existsb (fun hv => negb (bool_decide (hv = [])) && bool_decide (data = hv))
    [hv_header host; hv_coinbase host; hv_diesel host; hv_fee host].

Definition fuzzy_host_match (data : bytes) : bool :=
  (bool_decide (length data = 80%nat) && header_decodes data) || coinbase_decodes data.

Definition is_candidate (host : EspoHostFunctionValues) (allow_fuzzy : bool) (v : CleanEventView) : bool :=
  match v with
  | VReturn (Some data) => host_match host data || (allow_fuzzy && fuzzy_host_match data)
  | _ => false
  end.

(** The walk of [attempt]: the indices to remove, the stack of candidates, how many there were, the depth. *)
Record Attempt := mkAttempt {
  remove_indices : gset nat;
  candidate_stack : list nat;
  total_candidates : Z;
  depth : Z;
}.

Definition attempt_step (cand : CleanEventView -> bool) (idx : nat) (v : CleanEventView) (a : Attempt)
    : option Attempt :=
  match v with
  | VInvoke => Some (mkAttempt (remove_indices a) (candidate_stack a) (total_candidates a) (depth a + 1))
  | VReturn _ =>
      let stack := if cand v then idx :: candidate_stack a else candidate_stack a in
      let total := if cand v then total_candidates a + 1 else total_candidates a in
      let d := depth a - 1 in
      if d <? 0 then
        match stack with
        | [] => None
        | remove_idx :: stack' => Some (mkAttempt ({[remove_idx]} ∪ remove_indices a) stack' total (d + 1))
        end
      else Some (mkAttempt (remove_indices a) stack total d)
  | VOther => Some a
  end.

Fixpoint attempt_loop (cand : CleanEventView -> bool) (idx : nat) (views : list CleanEventView) (a : Attempt)
    : option Attempt :=
  match views with
  | [] => Some a
  | v :: views' => a' ← attempt_step cand idx v a; attempt_loop cand (S idx) views' a'
  end.

(** The check of the events that stay: calls, returns and depth. *)
Fixpoint validate_loop (removed : gset nat) (idx : nat) (views : list CleanEventView) (invokes returns d : Z) : bool :=
  match views with
  | [] => (invokes =? returns) && (d =? 0)
  | v :: views' =>
      if bool_decide (idx ∈ removed) then validate_loop removed (S idx) views' invokes returns d
      else
        match v with
        | VInvoke => validate_loop removed (S idx) views' (invokes + 1) returns (d + 1)
        | VReturn _ =>
            if d - 1 <? 0 then false else validate_loop removed (S idx) views' invokes (returns + 1) (d - 1)
        | VOther => validate_loop removed (S idx) views' invokes returns d
        end
  end.

Definition attempt (cand : CleanEventView -> bool) (mismatch : Z) (views : list CleanEventView) : option (gset nat) :=
  a ← attempt_loop cand 0 views (mkAttempt ∅ [] 0 0);
  if (total_candidates a <? mismatch) || negb (Z.of_nat (size (remove_indices a)) =? mismatch) then None
  else if validate_loop (remove_indices a) 0 views 0 0 0 then Some (remove_indices a) else None.

Definition orphan_return_removals (views : list CleanEventView) (host : EspoHostFunctionValues) : option (gset nat) :=
  let invokes := count_views is_invoke views in
  let returns := count_views is_return views in
  if invokes =? returns then Some ∅
  else if returns <? invokes then None
  else
    let mismatch := returns - invokes in
    match attempt (is_candidate host false) mismatch views with
    | Some r => Some r
    | None => attempt (is_candidate host true) mismatch views
    end.

(** The elements whose index, counted from [idx], is not in [removed]. *)
Fixpoint keep_from {A} (removed : gset nat) (idx : nat) (l : list A) : list A :=
  match l with
  | [] => []
  | x :: l' => if bool_decide (idx ∈ removed) then keep_from removed (S idx) l' else x :: keep_from removed (S idx) l'
  end.

Definition clean_espo_sandshrew_like_trace (trace : EspoSandshrewLikeTrace) (host : EspoHostFunctionValues)
    : option EspoSandshrewLikeTrace :=
  removed ← orphan_return_removals (sandshrew_event_views (events trace)) host;
  if bool_decide (removed = ∅) then Some trace
  else Some (mkTrace (tr_outpoint trace) (keep_from removed 0 (events trace))).

End Clean.
