(* ===== verification/AlkClean.v ===== *)
(** * Repaired traces

    The repair of [AlkTrace] removes candidates only, leaves a trace whose calls and
    returns match, and succeeds whenever some choice of candidates to remove would.
    A trace whose calls and returns match is a forest of calls. *)
From S2P Require Import Prelude Bytes AlkTrace.

Open Scope Z_scope.

(** ** Matching calls and returns *)

(** The depth after a list of events, from [d]; [None] when a return has no call. *)
Fixpoint walk (d : Z) (views : list CleanEventView) : option Z :=
  match views with
  | [] => Some d
  | VInvoke :: l => walk (d + 1) l
  | VReturn _ :: l => if d - 1 <? 0 then None else walk (d - 1) l
  | VOther :: l => walk d l
  end.

Definition matched (views : list CleanEventView) : Prop := walk 0 views = Some 0.

Lemma count_cons f v l : count_views f (v :: l) = (if f v then 1 else 0) + count_views f l.
Proof.
  unfold count_views. rewrite filter_cons. destruct (f v); [rewrite decide_True by done|rewrite decide_False by done].
  - cbn [length]. lia.
  - lia.
Qed.

Lemma walk_counts d l d' : walk d l = Some d' -> d' = d + count_views is_invoke l - count_views is_return l.
Proof.
  revert d. induction l as [|v l IH]; intros d; cbn [walk].
  - intros [= <-]. unfold count_views. cbn. lia.
  - rewrite !count_cons. destruct v; cbn [is_invoke is_return].
    + intros ->%IH. lia.
    + destruct (d - 1 <? 0); [done|]. intros ->%IH. lia.
    + intros ->%IH. lia.
Qed.

Lemma matched_counts l : matched l -> count_views is_invoke l = count_views is_return l.
Proof. intros H%walk_counts. lia. Qed.

Lemma keep_none {A} (l : list A) idx : keep_from ∅ idx l = l.
Proof.
  revert idx. induction l as [|x l IH]; intros idx; cbn; [done|]. by rewrite bool_decide_false, IH by set_solver.
Qed.

Lemma keep_fmap {A B} (f : A -> B) R idx (l : list A) : keep_from R idx (f <$> l) = f <$> keep_from R idx l.
Proof.
  revert idx. induction l as [|x l IH]; intros idx; cbn; [done|]. case_bool_decide; cbn; by rewrite IH.
Qed.

Lemma validate_walk R idx l i r d :
  i - r = d -> validate_loop R idx l i r d = bool_decide (walk d (keep_from R idx l) = Some 0).
Proof.
  revert idx i r d. induction l as [|v l IH]; intros idx i r d Hd; cbn [validate_loop keep_from walk].
  - destruct (Z.eqb_spec d 0), (Z.eqb_spec i r); try lia; cbn; symmetry;
      [apply bool_decide_eq_true|apply bool_decide_eq_false]; congruence.
  - case_bool_decide as Hi; [by apply IH|]. destruct v; cbn [walk].
    + apply IH. lia.
    + destruct (d - 1 <? 0); [done|]. apply IH. lia.
    + by apply IH.
Qed.

(** ** The walk of an attempt *)

Section Attempt.
Context (cand : CleanEventView -> bool) (cand_return : forall v, cand v = true -> is_return v = true).

(** What an attempt has removed or may still remove are candidates it has seen. *)
Record att_ok (all : list CleanEventView) (idx : nat) (a : Attempt) : Prop := {
  ao_removed i : i ∈ remove_indices a -> (i < idx)%nat /\ exists v, all !! i = Some v /\ cand v = true;
  ao_stack i : i ∈ candidate_stack a -> (i < idx)%nat /\ exists v, all !! i = Some v /\ cand v = true;
  ao_nodup : NoDup (candidate_stack a);
  ao_apart i : i ∈ candidate_stack a -> i ∉ remove_indices a;
  ao_depth : 0 <= depth a;
}.

Lemma att_weaken all idx a :
  att_ok all idx a -> att_ok all (S idx) a.
Proof. intros [H1 H2 H3 H4 H5]. split; try done; intros i [Hi Hv]%H1 || intros i [Hi Hv]%H2; split; done || lia. Qed.

(** The candidate at hand joins the stack. *)
Definition pushed (idx : nat) (v : CleanEventView) (a : Attempt) : list nat :=
  if cand v then idx :: candidate_stack a else candidate_stack a.

Lemma pushed_ok all idx v a d :
  all !! idx = Some v -> att_ok all idx a -> 0 <= d ->
  att_ok all (S idx) (mkAttempt (remove_indices a) (pushed idx v a)
                        (if cand v then total_candidates a + 1 else total_candidates a) d).
Proof.
  intros Hv Ha Hd. destruct (att_weaken _ _ _ Ha) as [H1 H2 H3 H4 _]. unfold pushed.
  destruct (cand v) eqn:E; split; cbn; try done.
  - intros i [->|Hi]%elem_of_cons; [split; [lia|eauto]|by apply H2].
  - apply NoDup_cons_2; [|done]. intros [Hlt _]%(ao_stack _ _ _ Ha). lia.
  - intros i [->|Hi]%elem_of_cons; [intros [Hlt _]%(ao_removed _ _ _ Ha); lia|by apply H4].
Qed.

Lemma step_ok all idx v a a' :
  all !! idx = Some v -> att_ok all idx a -> attempt_step cand idx v a = Some a' -> att_ok all (S idx) a'.
Proof.
  intros Hv Ha. pose proof (ao_depth _ _ _ Ha) as Hd. destruct v as [|data|]; cbn [attempt_step].
  - intros [= <-]. destruct (att_weaken _ _ _ Ha) as [H1 H2 H3 H4 _]. split; cbn; try done. lia.
  - fold (pushed idx (VReturn data) a). destruct (Z.ltb_spec (depth a - 1) 0) as [Hlt|Hge].
    + pose proof (pushed_ok all idx _ a (depth a - 1 + 1) Hv Ha ltac:(lia)) as [H1 H2 H3 H4 H5].
      cbn in H1, H2, H3, H4, H5. destruct (pushed idx (VReturn data) a) as [|x st]; [done|].
      intros [= <-]. apply NoDup_cons in H3 as [H3 H3']. split; cbn; try done.
      * intros i [->%elem_of_singleton|Hi]%elem_of_union; [apply H2; by left|by apply H1].
      * intros i Hi. apply H2. by right.
      * intros i Hi [->%elem_of_singleton|Hr]%elem_of_union; [done|]. by apply (H4 i); [right|].
    + intros [= <-]. by apply pushed_ok.
  - intros [= <-]. by apply att_weaken.
Qed.

Lemma loop_ok all idx l a a' :
  drop idx all = l -> att_ok all idx a -> attempt_loop cand idx l a = Some a' -> att_ok all (idx + length l) a'.
Proof.
  revert idx a. induction l as [|v l IH]; intros idx a Hl Ha; cbn [attempt_loop length].
  - intros [= <-]. by rewrite Nat.add_0_r.
  - destruct (attempt_step cand idx v a) as [a1|] eqn:E; cbn [mbind option_bind]; [|done].
    intros H. replace (idx + S (length l))%nat with (S idx + length l)%nat by lia.
    assert (Hv : all !! idx = Some v).
    { rewrite <- (Nat.add_0_r idx), <- lookup_drop, Hl. done. }
    apply (IH (S idx) a1); [|by eapply step_ok|done].
    replace (S idx) with (idx + 1)%nat by lia. by rewrite <- drop_drop, Hl.
Qed.

(** ** Counting *)

Lemma loop_mono idx l a a' : attempt_loop cand idx l a = Some a' -> remove_indices a ⊆ remove_indices a'.
Proof.
  revert idx a. induction l as [|v l IH]; intros idx a; cbn [attempt_loop]; [by intros [= <-]|].
  destruct (attempt_step cand idx v a) as [a1|] eqn:E; cbn [mbind option_bind]; [|done].
  intros H%IH. transitivity (remove_indices a1); [|done]. revert E. destruct v; cbn [attempt_step].
  - by intros [= <-].
  - destruct (depth a - 1 <? 0); [|by intros [= <-]]. case_match; [done|]. intros [= <-]. cbn. set_solver.
  - by intros [= <-].
Qed.

(** Removed, stacked and seen candidates; removals and depth. *)
Lemma step_counts all idx v a a' :
  all !! idx = Some v -> att_ok all idx a -> attempt_step cand idx v a = Some a' ->
  total_candidates a' - Z.of_nat (size (remove_indices a')) - Z.of_nat (length (candidate_stack a'))
  = total_candidates a - Z.of_nat (size (remove_indices a)) - Z.of_nat (length (candidate_stack a))
  /\ depth a' - Z.of_nat (size (remove_indices a'))
     = depth a - Z.of_nat (size (remove_indices a)) + (if is_invoke v then 1 else 0) - (if is_return v then 1 else 0).
Proof.
  intros Hv Ha. destruct v as [|data|]; cbn [attempt_step is_invoke is_return].
  - intros [= <-]. cbn. lia.
  - pose proof (pushed_ok all idx _ a (Z.max 0 (depth a)) Hv Ha ltac:(lia)) as [_ _ _ H4 _]. cbn in H4.
    fold (pushed idx (VReturn data) a). assert (Hlen : Z.of_nat (length (pushed idx (VReturn data) a))
      = Z.of_nat (length (candidate_stack a)) + if cand (VReturn data) then 1 else 0).
    { unfold pushed. destruct (cand _); cbn [length]; lia. }
    destruct (depth a - 1 <? 0).
    + destruct (pushed idx (VReturn data) a) as [|x st]; [done|]. intros [= <-]. cbn in Hlen |- *.
      rewrite size_union by (specialize (H4 x ltac:(by left)); set_solver). rewrite size_singleton.
      destruct (cand _); lia.
    + intros [= <-]. cbn. destruct (cand _); lia.
  - intros [= <-]. lia.
Qed.

Lemma loop_counts all idx l a a' :
  drop idx all = l -> att_ok all idx a -> attempt_loop cand idx l a = Some a' ->
  total_candidates a' - Z.of_nat (size (remove_indices a')) - Z.of_nat (length (candidate_stack a'))
  = total_candidates a - Z.of_nat (size (remove_indices a)) - Z.of_nat (length (candidate_stack a))
  /\ depth a' - Z.of_nat (size (remove_indices a'))
     = depth a - Z.of_nat (size (remove_indices a)) + count_views is_invoke l - count_views is_return l.
Proof.
  revert idx a. induction l as [|v l IH]; intros idx a Hl Ha; cbn [attempt_loop].
  - intros [= <-]. unfold count_views. cbn. lia.
  - destruct (attempt_step cand idx v a) as [a1|] eqn:E; cbn [mbind option_bind]; [|done].
    intros H. apply drop_S_inv in Hl as [Hv Hl].
    destruct (IH (S idx) a1 Hl (step_ok all idx v a a1 Hv Ha E) H) as [H1 H2].
    destruct (step_counts all idx v a a1 Hv Ha E) as [H3 H4]. rewrite !count_cons. lia.
Qed.

(** ** Completeness *)

(** If removing [R] makes the rest match from depth [ds], the attempt gets through, to depth zero. *)
Lemma loop_complete all idx l a R ds :
  drop idx all = l -> att_ok all idx a ->
  (forall i v, i ∈ R -> all !! i = Some v -> cand v = true) ->
  depth a <= ds <= depth a + Z.of_nat (length (candidate_stack a)) ->
  walk ds (keep_from R idx l) = Some 0 ->
  exists a', attempt_loop cand idx l a = Some a' /\ depth a' = 0.
Proof.
  revert idx a ds. induction l as [|v l IH]; intros idx a ds Hl Ha HR Hds Hw; cbn [attempt_loop keep_from] in *.
  { injection Hw as ->. exists a. split; [done|]. pose proof (ao_depth _ _ _ Ha). lia. }
  pose proof (drop_S_inv _ _ _ _ Hl) as [Hv Hl']. pose proof (ao_depth _ _ _ Ha) as H0.
  assert (Hgo : forall a1 ds1, attempt_step cand idx v a = Some a1 ->
    depth a1 <= ds1 <= depth a1 + Z.of_nat (length (candidate_stack a1)) ->
    walk ds1 (keep_from R (S idx) l) = Some 0 ->
    exists a', attempt_step cand idx v a ≫= attempt_loop cand (S idx) l = Some a' /\ depth a' = 0).
  { intros a1 ds1 E H1 H2. rewrite E. cbn [mbind option_bind]. apply (IH (S idx) a1 ds1); try done. by eapply step_ok. }
  case_bool_decide as Hin.
  - pose proof (HR _ _ Hin Hv) as Hc. pose proof (cand_return _ Hc) as Hret. destruct v as [|data|]; [done| |done].
    cbn [attempt_step] in Hgo |- *. rewrite Hc in Hgo |- *. cbn iota in Hgo |- *.
    destruct (Z.ltb_spec (depth a - 1) 0); eapply Hgo; try done; cbn [depth candidate_stack length]; lia.
  - destruct v as [|data|]; cbn [walk] in Hw.
    + eapply Hgo; [done| |exact Hw]. cbn. lia.
    + destruct (Z.ltb_spec (ds - 1) 0); [done|].
      cbn [attempt_step] in Hgo |- *. fold (pushed idx (VReturn data) a) in Hgo |- *.
      assert (Hlen : Z.of_nat (length (candidate_stack a)) <= Z.of_nat (length (pushed idx (VReturn data) a))).
      { unfold pushed. destruct (cand _); cbn [length]; lia. }
      destruct (Z.ltb_spec (depth a - 1) 0).
      * destruct (pushed idx (VReturn data) a) as [|x st]; cbn [length] in Hlen; [lia|].
        eapply Hgo; [done| |exact Hw]. cbn. lia.
      * eapply Hgo; [done| |exact Hw]. cbn. lia.
    + by eapply Hgo.
Qed.

(** The removals of [a'] the walk has passed and [a] has not made yet. *)
Definition owed (idx : nat) (a a' : Attempt) : gset nat :=
  filter (fun i => (i < idx)%nat) (remove_indices a' ∖ remove_indices a).

Lemma elem_owed i idx a a' : i ∈ owed idx a a' <-> (i < idx)%nat /\ i ∈ remove_indices a' /\ i ∉ remove_indices a.
Proof. unfold owed. by rewrite elem_of_filter, elem_of_difference. Qed.

Lemma owed_next idx a b a' :
  remove_indices b = remove_indices a -> idx ∉ remove_indices a ->
  Z.of_nat (size (owed (S idx) b a')) = Z.of_nat (size (owed idx a a'))
    + if bool_decide (idx ∈ remove_indices a') then 1 else 0.
Proof.
  intros Hb Hidx. case_bool_decide as D.
  - replace (owed (S idx) b a') with ({[idx]} ∪ owed idx a a').
    + rewrite size_union, size_singleton; [lia|]. intros x ->%elem_of_singleton [Hx _]%elem_owed. lia.
    + apply set_eq. intros x. rewrite elem_of_union, elem_of_singleton, !elem_owed, Hb.
      destruct (decide (x = idx)) as [->|]; intuition (congruence || lia).
  - rewrite Z.add_0_r. do 2 f_equal. apply set_eq. intros x. rewrite !elem_owed, Hb.
    destruct (decide (x = idx)) as [->|]; intuition (congruence || lia).
Qed.

Lemma owed_pop idx x a b a' :
  remove_indices b = {[x]} ∪ remove_indices a -> x ∈ owed idx a a' ->
  Z.of_nat (size (owed idx b a')) = Z.of_nat (size (owed idx a a')) - 1.
Proof.
  intros Hb Hx. replace (owed idx a a') with ({[x]} ∪ owed idx b a').
  - rewrite size_union, size_singleton; [lia|]. intros y ->%elem_of_singleton [_ [_ Hy]]%elem_owed. set_solver.
  - apply set_eq. intros y. rewrite elem_of_union, elem_of_singleton. rewrite elem_owed in Hx.
    rewrite !elem_owed, Hb, elem_of_union, elem_of_singleton. destruct (decide (y = x)) as [->|]; intuition congruence.
Qed.

(** One event, as the walk over what is kept in the end sees it. *)
Lemma step_owed all idx v a a1 a' :
  all !! idx = Some v -> att_ok all idx a -> attempt_step cand idx v a = Some a1 ->
  remove_indices a1 ⊆ remove_indices a' -> (idx ∈ remove_indices a' -> is_return v = true) ->
  depth a1 + Z.of_nat (size (owed (S idx) a1 a'))
  = depth a + Z.of_nat (size (owed idx a a'))
    + if bool_decide (idx ∈ remove_indices a') then 0
      else if is_invoke v then 1 else if is_return v then -1 else 0.
Proof.
  intros Hv Ha E Hm Hin. pose proof (ao_depth _ _ _ Ha) as H0.
  assert (Hidx : idx ∉ remove_indices a) by (intros [Hlt _]%(ao_removed _ _ _ Ha); lia).
  pose proof (owed_next idx a a a' eq_refl Hidx) as Hn. revert E Hn.
  destruct v as [|data|]; cbn [attempt_step is_return is_invoke] in *.
  - intros [= <-] Hn. rewrite (owed_next idx a _ a') by done. rewrite bool_decide_false by (by intros ?%Hin). cbn. lia.
  - fold (pushed idx (VReturn data) a). destruct (Z.ltb_spec (depth a - 1) 0) as [Hd|Hd].
    + destruct (pushed idx (VReturn data) a) as [|x st] eqn:Hp; [done|]. intros [= <-] Hn. cbn [depth].
      assert (Hx : x ∈ owed (S idx) a a').
      { pose proof (pushed_ok all idx _ a 0 Hv Ha ltac:(lia)) as [_ H2 _ H4 _]. cbn in H2, H4. rewrite Hp in H2, H4.
        specialize (H2 x ltac:(by left)) as [Hlt _]. specialize (H4 x ltac:(by left)). cbn in Hm.
        apply elem_owed. split_all; [done|set_solver|done]. }
      rewrite (owed_pop (S idx) x a _ a') by done. rewrite Hn. destruct (bool_decide (idx ∈ remove_indices a')); lia.
    + intros [= <-] Hn. rewrite (owed_next idx a _ a') by done. cbn. destruct (bool_decide (idx ∈ remove_indices a')); lia.
  - intros [= <-] Hn. rewrite bool_decide_false in Hn |- * by (by intros ?%Hin). lia.
Qed.

(** What the attempt keeps is deeper than it thinks, by what it still has to remove. *)
Lemma loop_keeps all idx l a a' :
  drop idx all = l -> att_ok all idx a -> attempt_loop cand idx l a = Some a' ->
  walk (depth a + Z.of_nat (size (owed idx a a'))) (keep_from (remove_indices a') idx l) = Some (depth a').
Proof.
  revert idx a. induction l as [|v l IH]; intros idx a Hl Ha H.
  { cbn in H |- *. injection H as ->. assert (Ho : owed idx a' a' = ∅) by (unfold owed; set_solver).
    rewrite Ho, size_empty. f_equal. lia. }
  pose proof (loop_ok all idx _ a a' Hl Ha H) as Hok.
  pose proof (drop_S_inv _ _ _ _ Hl) as [Hv Hl']. cbn [attempt_loop keep_from] in *.
  destruct (attempt_step cand idx v a) as [a1|] eqn:E; cbn [mbind option_bind] in H; [|done].
  pose proof (step_ok all idx v a a1 Hv Ha E) as Ha1. pose proof (ao_depth _ _ _ Ha1) as H0.
  specialize (IH (S idx) a1 Hl' Ha1 H).
  assert (Hin : idx ∈ remove_indices a' -> is_return v = true).
  { intros (_ & v' & Hv' & Hc)%(ao_removed _ _ _ Hok). rewrite Hv in Hv'. injection Hv' as <-. by apply cand_return. }
  pose proof (step_owed all idx v a a1 a' Hv Ha E (loop_mono _ _ _ _ H) Hin) as Hs. rewrite Hs in IH.
  case_bool_decide; [by rewrite Z.add_0_r in IH|]. destruct v; cbn [walk is_invoke is_return] in *; [done| |by rewrite Z.add_0_r in IH].
  destruct (Z.ltb_spec (depth a + Z.of_nat (size (owed idx a a')) - 1) 0); [lia|done].
Qed.

(** An attempt finds a set of candidates whose removal leaves matching calls and returns, if there is one. *)
Lemma attempt_correct mismatch views :
  mismatch = count_views is_return views - count_views is_invoke views ->
  (forall R, attempt cand mismatch views = Some R ->
     (forall i, i ∈ R -> exists v, views !! i = Some v /\ cand v = true) /\ matched (keep_from R 0 views))
  /\ ((exists R, (forall i v, i ∈ R -> views !! i = Some v -> cand v = true) /\ matched (keep_from R 0 views)) ->
      is_Some (attempt cand mismatch views)).
Proof.
  intros Hmm. assert (Ha : att_ok views 0 (mkAttempt ∅ [] 0 0)).
  { split; cbn; [set_solver|set_solver|constructor|set_solver|lia]. }
  unfold attempt. split.
  - intros R. destruct (attempt_loop _ _ _ _) as [a|] eqn:E; cbn [mbind option_bind]; [|done].
    destruct (_ || _); [done|]. destruct (validate_loop _ _ _ _ _ _) eqn:Ev; [|done]. intros [= <-].
    rewrite validate_walk in Ev by done. apply bool_decide_eq_true in Ev. split; [|done].
    intros i Hi. by apply (ao_removed _ _ _ (loop_ok views 0 views _ a (drop_0 _) Ha E) i Hi).
  - intros (R & HR & Hw).
    destruct (loop_complete views 0 views _ R 0 (drop_0 _) Ha HR) as (a & E & Hd); [cbn; lia|done|].
    rewrite E. cbn [mbind option_bind].
    destruct (loop_counts views 0 views _ a (drop_0 _) Ha E) as [H1 H2]. cbn in H1, H2. rewrite size_empty in H1, H2.
    assert (Hs : Z.of_nat (size (remove_indices a)) = mismatch) by lia.
    rewrite Hs, Z.eqb_refl, (proj2 (Z.ltb_ge _ _)) by lia. cbn [negb orb].
    rewrite validate_walk by done. rewrite bool_decide_true; [by eexists|]. rewrite <- Hd at 2.
    rewrite <- (loop_keeps views 0 views _ a (drop_0 _) Ha E). f_equal. cbn [depth].
    assert (Ho : owed 0 (mkAttempt ∅ [] 0 0) a = ∅).
    { apply elem_of_equiv_empty_L. intros x [Hx _]%elem_owed. lia. }
    by rewrite Ho, size_empty.
Qed.

End Attempt.

(** ** The repair *)

Section Repair.
Context {crates : TraceCrates}.

Abbreviation views := sandshrew_event_views.

Lemma candidate_return host fuzzy v : is_candidate host fuzzy v = true -> is_return v = true.
Proof. by destruct v as [|[]|]. Qed.

Lemma candidate_fuzzy host v : is_candidate host false v = true -> is_candidate host true v = true.
Proof. destruct v as [|[data|]|]; cbn; try done. rewrite orb_false_r. by intros ->. Qed.

(** The events at [R] may have been put there by host functions. *)
Definition orphans (host : EspoHostFunctionValues) (evs : list EspoSandshrewLikeTraceEvent) (R : gset nat) : Prop :=
  forall i, i ∈ R -> exists ev, evs !! i = Some ev /\ is_candidate host true (event_view ev) = true.

Lemma removals_sound vs host R :
  orphan_return_removals vs host = Some R ->
  (forall i, i ∈ R -> exists v, vs !! i = Some v /\ is_candidate host true v = true)
  /\ (R <> ∅ -> matched (keep_from R 0 vs))
  /\ (R = ∅ -> count_views is_invoke vs = count_views is_return vs).
Proof.
  unfold orphan_return_removals. destruct (Z.eqb_spec (count_views is_invoke vs) (count_views is_return vs)) as [He|He].
  { intros [= <-]. split_all; [set_solver|done|done]. }
  destruct (_ <? _); [done|].
  assert (Hno : forall R, matched (keep_from R 0 vs) -> R <> ∅).
  { intros R0 Hm ->. rewrite keep_none in Hm. by apply matched_counts in Hm. }
  destruct (attempt (is_candidate host false) _ vs) as [R1|] eqn:E1.
  - intros [= <-]. apply (attempt_correct _ (candidate_return host false) _ vs eq_refl) in E1 as [H1 H2].
    split_all; [|done|intros ->; by apply Hno in H2]. intros i Hi. destruct (H1 i Hi) as (v & Hv & Hc).
    exists v. split; [done|by apply candidate_fuzzy].
  - intros E2. apply (attempt_correct _ (candidate_return host true) _ vs eq_refl) in E2 as [H1 H2].
    split_all; [done|done|intros ->; by apply Hno in H2].
Qed.

Lemma removals_complete vs host R :
  (forall i v, i ∈ R -> vs !! i = Some v -> is_candidate host true v = true) -> matched (keep_from R 0 vs) ->
  (forall i, i ∈ R -> (i < length vs)%nat) -> is_Some (orphan_return_removals vs host).
Proof.
  intros HR Hm Hlt. unfold orphan_return_removals.
  destruct (Z.eqb_spec (count_views is_invoke vs) (count_views is_return vs)) as [He|He]; [done|].
  destruct (Z.ltb_spec (count_views is_return vs) (count_views is_invoke vs)) as [Hl|Hl].
  - exfalso. apply matched_counts in Hm.
    assert (Hc : forall idx l, (forall i v, (idx + i)%nat ∈ R -> l !! i = Some v -> is_return v = true) ->
      count_views is_invoke (keep_from R idx l) = count_views is_invoke l
      /\ count_views is_return (keep_from R idx l) <= count_views is_return l).
    { intros idx l. revert idx. induction l as [|v l IH]; intros idx Hret; cbn [keep_from]; [done|].
      destruct (IH (S idx)) as [I1 I2].
      { intros i w Hi Hw. apply (Hret (S i)); [|done]. by rewrite Nat.add_succ_r. }
      case_bool_decide as D; rewrite !count_cons.
      - pose proof (Hret 0%nat v ltac:(by rewrite Nat.add_0_r) eq_refl) as Hv. destruct v; cbn in *; lia || done.
      - destruct v; cbn; lia. }
    destruct (Hc 0%nat vs) as [C1 C2]; [|lia]. intros i v Hi Hv. eapply candidate_return, HR; done.
  - destruct (attempt (is_candidate host false) _ vs); [done|].
    apply (attempt_correct _ (candidate_return host true) _ vs eq_refl). by exists R.
Qed.

Lemma clean_sound trace host t :
  clean_espo_sandshrew_like_trace trace host = Some t ->
  exists R, events t = keep_from R 0 (events trace) /\ orphans host (events trace) R
    /\ count_views is_invoke (views (events t)) = count_views is_return (views (events t))
    /\ (R <> ∅ -> matched (views (events t))).
Proof.
  unfold clean_espo_sandshrew_like_trace.
  destruct (orphan_return_removals _ host) as [R|] eqn:E; cbn [mbind option_bind]; [|done].
  apply removals_sound in E as (H1 & H2 & H3). intros H. exists R.
  assert (He : events t = keep_from R 0 (events trace)).
  { case_bool_decide as D; injection H as <-; [|done]. by rewrite D, keep_none. }
  assert (Hk : views (events t) = keep_from R 0 (views (events trace))).
  { rewrite He. symmetry. apply keep_fmap. }
  split_all; [done| | |by rewrite Hk].
  - intros i Hi. destruct (H1 i Hi) as (v & Hv & Hc). apply list_lookup_fmap_Some in Hv as (ev & -> & Hev). eauto.
  - rewrite Hk. destruct (decide (R = ∅)) as [->|D]; [rewrite keep_none; by apply H3|by apply matched_counts, H2].
Qed.

Lemma clean_complete trace host R :
  orphans host (events trace) R -> matched (views (keep_from R 0 (events trace))) ->
  is_Some (clean_espo_sandshrew_like_trace trace host).
Proof.
  intros HR Hm. unfold clean_espo_sandshrew_like_trace.
  destruct (removals_complete (views (events trace)) host R) as [R' ->].
  - intros i v Hi Hv. apply list_lookup_fmap_Some in Hv as (ev & -> & Hev).
    destruct (HR i Hi) as (ev' & Hev' & Hc). congruence.
  - unfold views. by rewrite keep_fmap.
  - intros i Hi. destruct (HR i Hi) as (ev & Hev & _). unfold views. rewrite length_fmap. by eapply lookup_lt_Some.
  - cbn [mbind option_bind]. by case_bool_decide.
Qed.

End Repair.

(** ** Forests of calls *)

Inductive forest :=
| FNil
| FCreate (id : EspoSandshrewLikeTraceShortId) (rest : forest)
| FCall (inv : EspoSandshrewLikeTraceInvokeData) (body : forest) (ret : EspoSandshrewLikeTraceReturnData)
    (rest : forest).

Fixpoint flatten (f : forest) : list EspoSandshrewLikeTraceEvent :=
  match f with
  | FNil => []
  | FCreate id rest => Create id :: flatten rest
  | FCall inv body ret rest => Invoke inv :: flatten body ++ Return ret :: flatten rest
  end.

Section Forests.
Context {crates : TraceCrates}.

Lemma walk_app d l1 l2 : walk d (l1 ++ l2) = walk d l1 ≫= fun d' => walk d' l2.
Proof.
  revert d. induction l1 as [|v l IH]; intros d; cbn [walk app]; [done|].
  destruct v; [apply IH| |apply IH]. destruct (_ <? _); [done|apply IH].
Qed.

Lemma flatten_walk f d : 0 <= d -> walk d (sandshrew_event_views (flatten f)) = Some d.
Proof.
  revert d. induction f as [|id rest IH|inv body IHb ret rest IHr]; intros d Hd; [done|by apply IH|].
  unfold sandshrew_event_views in *. cbn [flatten fmap list_fmap event_view walk].
  rewrite fmap_app, walk_app, IHb by lia. cbn [mbind option_bind fmap list_fmap event_view walk].
  destruct (Z.ltb_spec (d + 1 - 1) 0); [lia|]. rewrite IHr; [f_equal|]; lia.
Qed.

(** Events that match are the events of a forest. *)
Lemma walk_forest evs d :
  0 <= d -> walk d (sandshrew_event_views evs) = Some 0 ->
  exists f rs, Z.of_nat (length rs) = d
    /\ evs = flatten f ++ mjoin ((fun x : EspoSandshrewLikeTraceReturnData * forest => Return x.1 :: flatten x.2) <$> rs).
Proof.
  revert d. induction evs as [|ev evs IH]; intros d Hd.
  { intros [= ->]. by exists FNil, []. }
  destruct ev as [inv|ret|id]; cbn [sandshrew_event_views fmap list_fmap event_view walk]; intros H.
  - destruct (IH (d + 1)) as (f & rs & Hl & ->); [lia|done|]. destruct rs as [|[r g] rs]; cbn [length] in Hl; [lia|].
    exists (FCall inv f r g), rs. split; [lia|]. cbn. by rewrite <- !app_assoc.
  - destruct (Z.ltb_spec (d - 1) 0); [done|]. destruct (IH (d - 1)) as (f & rs & Hl & ->); [lia|done|].
    exists FNil, ((ret, f) :: rs). split; [cbn [length]; lia|done].
  - destruct (IH d) as (f & rs & Hl & ->); [done|done|]. by exists (FCreate id f), rs.
Qed.

Lemma matched_forest evs : matched (sandshrew_event_views evs) <-> exists f, evs = flatten f.
Proof.
  split; [|intros [f ->]; by apply flatten_walk].
  intros H. destruct (walk_forest evs 0) as (f & rs & Hl & ->); [lia|done|].
  destruct rs; [|cbn [length] in Hl; lia]. exists f. cbn. by rewrite app_nil_r.
Qed.

End Forests.
