(* ===== verification/AlkSheets.v ===== *)
(** * Amounts, sheets and where they come from

    [src/modules/essentials/utils/balances/defs.rs] (signed amounts) and [utils.rs]
    (sheets of a trace, unallocated balances), and the queues of sources at the head
    of [lib.rs]: an amount of a token is a queue of parts, each with the address or
    contract it came from, spent in order. *)
From Stdlib Require Import Strings.Byte.
From stdpp Require Import strings.
From S2P Require Import Prelude Bytes RunesTransfer RunesStore RunesChain RunesInscriptions AlkTrace.
From stdpp Require Import options.

Open Scope Z_scope.

(** ** Signed amounts *)

Record SignedU128 := mkSigned { negative : bool; amount : Z }.

#[global] Instance SignedU128_eq_dec : EqDecision SignedU128.
Proof. solve_decision. Defined.

Definition su_zero : SignedU128 := mkSigned false 0.
Definition from_parts (neg : bool) (a : Z) : SignedU128 := if a =? 0 then su_zero else mkSigned neg a.
Definition su_positive (a : Z) : SignedU128 := from_parts false a.
Definition su_negative (a : Z) : SignedU128 := from_parts true a.
Definition is_zero (x : SignedU128) : bool := amount x =? 0.
Definition is_negative (x : SignedU128) : bool := (0 <? amount x) && negative x.

Definition su_add (x y : SignedU128) : SignedU128 :=
  match is_negative x, is_negative y with
  | false, false => from_parts false (u128_sat_add (amount x) (amount y))
  | true, true => from_parts true (u128_sat_add (amount x) (amount y))
  | false, true =>
      if amount y <=? amount x then from_parts false (amount x - amount y) else from_parts true (amount y - amount x)
  | true, false =>
      if amount y <=? amount x then from_parts true (amount x - amount y) else from_parts false (amount y - amount x)
  end.

Definition negated (x : SignedU128) : SignedU128 := from_parts (negb (is_negative x)) (amount x).
Definition su_sub (x y : SignedU128) : SignedU128 := su_add x (negated y).
Definition as_parts (x : SignedU128) : bool * Z := (is_negative x, amount x).

Definition su_cmp (x y : SignedU128) : comparison :=
  match is_negative x, is_negative y with
  | true, false => Lt
  | false, true => Gt
  | false, false => amount x ?= amount y
  | true, true => amount y ?= amount x
  end.

Definition checked_add (a b : Z) : option Z := if a + b <? u128_mod then Some (a + b) else None.
Definition checked_sub (a b : Z) : option Z := if a <? b then None else Some (a - b).

Definition try_add_signed (self : Z) (delta : SignedU128) : option Z :=
  let '(is_neg, a) := as_parts delta in if is_neg then checked_sub self a else checked_add self a.
Definition try_sub_signed (self : Z) (delta : SignedU128) : option Z := try_add_signed self (negated delta).

Abbreviation SignedSheet := (gmap SchemaAlkaneId SignedU128) (only parsing).

(** [SignedU128MapExt::add_signed] *)
Definition add_signed (m : SignedSheet) (key : SchemaAlkaneId) (delta : SignedU128) : SignedSheet :=
  if is_zero delta then m
  else
    let entry := su_add (default su_zero (m !! key)) delta in
    if is_zero entry then delete key m else <[key := entry]> m.

(** [None] is the panic. *)
Definition apply_signed_balance_delta_or_panic (current : Z) (delta : SignedU128) (check_negative_balances : bool)
    : option Z :=
  let '(is_neg, a) := as_parts delta in
  if is_neg then
    if check_negative_balances && (current <? a) then None else Some (u128_sat_sub current a)
  else Some (u128_sat_add current a).

(** ** Sheets *)

Abbreviation ProjectionSheet := (gmap SchemaAlkaneId Z) (only parsing).

(** [*m.entry(k).or_default() = m.get(&k).copied().unwrap_or(0).saturating_add(v)] *)
Definition sheet_credit (m : ProjectionSheet) (k : SchemaAlkaneId) (v : Z) : ProjectionSheet :=
  <[k := u128_sat_add (default 0 (m !! k)) v]> m.

(** The identifier and the amount of a transfer, if its strings are numbers. *)
Definition transfer_parts (t : EspoSandshrewLikeTraceTransfer) : option (SchemaAlkaneId * Z) :=
  match parse_hex_u32 (sid_block (tf_id t)), parse_hex_u64 (sid_tx (tf_id t)), parse_hex_u128 (tf_value t) with
  | Some blk, Some tx, Some val => Some (mkAlkaneId blk tx, val)
  | _, _, _ => None
  end.

Definition transfers_to_sheet (transfers : list EspoSandshrewLikeTraceTransfer) : ProjectionSheet :=
  foldl (fun m t =>
    match transfer_parts t with
    | Some (k, val) => if val =? 0 then m else sheet_credit m k val
    | None => m
    end) ∅ transfers.

(** The sheet of [compute_nets], which keeps zero amounts. *)
Definition nets_sheet (transfers : list EspoSandshrewLikeTraceTransfer) : ProjectionSheet :=
  foldl (fun m t =>
    match transfer_parts t with
    | Some (k, val) => sheet_credit m k val
    | None => m
    end) ∅ transfers.

Inductive EspoTraceType := NOTRACE | REVERT | SUCCESS.

#[global] Instance EspoTraceType_eq_dec : EqDecision EspoTraceType.
Proof. solve_decision. Defined.

Fixpoint first_invoke (evs : list EspoSandshrewLikeTraceEvent) : option EspoSandshrewLikeTraceInvokeData :=
  match evs with
  | [] => None
  | Invoke inv :: _ => Some inv
  | _ :: evs' => first_invoke evs'
  end.

Fixpoint last_return (last : option EspoSandshrewLikeTraceReturnData) (evs : list EspoSandshrewLikeTraceEvent)
    : option EspoSandshrewLikeTraceReturnData :=
  match evs with
  | [] => last
  | Return r :: evs' => last_return (Some r) evs'
  | _ :: evs' => last_return last evs'
  end.

Definition compute_nets (trace : EspoSandshrewLikeTrace)
    : option ProjectionSheet * option ProjectionSheet * EspoTraceType :=
  let netin := (fun inv => nets_sheet (incoming_alkanes (context inv))) <$> first_invoke (events trace) in
  match last_return None (events trace) with
  | None => (netin, None, NOTRACE)
  | Some r =>
      (netin, Some (nets_sheet (alkanes (response r))), match status r with Failure => REVERT | Success => SUCCESS end)
  end.

(** ** [Unallocated] *)

Record Unallocated := mkUnallocated { un_map : gmap SchemaAlkaneId Z }.

Definition Unallocated_default : Unallocated := mkUnallocated ∅.
Definition un_add (u : Unallocated) (id : SchemaAlkaneId) (amt : Z) : Unallocated :=
  mkUnallocated (sheet_credit (un_map u) id amt).
Definition un_get (u : Unallocated) (id : SchemaAlkaneId) : Z := default 0 (un_map u !! id).
Definition un_take (u : Unallocated) (id : SchemaAlkaneId) (amt : Z) : Z * Unallocated :=
  let cur := un_get u id in
  let take := Z.min cur amt in
  (take, mkUnallocated (if take =? cur then delete id (un_map u)
                        else match un_map u !! id with Some _ => <[id := cur - take]> (un_map u) | None => un_map u end)).
(** Each identifier occurs once, so merging is copying. *)
Definition drain_all (u : Unallocated) : ProjectionSheet * Unallocated :=
  (foldl (fun merged e => if e.2 =? 0 then merged else sheet_credit merged e.1 e.2) ∅ (map_to_list (un_map u)),
   mkUnallocated ∅).
Definition un_is_empty (u : Unallocated) : bool := forallb (fun e : SchemaAlkaneId * Z => e.2 =? 0) (map_to_list (un_map u)).

(** ** Sources *)

Inductive AttributionSource :=
| SAddress (address : bytes)
| SContract (id : SchemaAlkaneId).

#[global] Instance AttributionSource_eq_dec : EqDecision AttributionSource.
Proof. solve_decision. Defined.

Abbreviation SourceAmounts := (list (AttributionSource * Z)) (only parsing).
Abbreviation SourcedSheet := (gmap SchemaAlkaneId (list (AttributionSource * Z))) (only parsing).

Definition source_amounts_total (sources : SourceAmounts) : Z := foldl (fun acc e => u128_sat_add acc e.2) 0 sources.

Definition add_source_amount (sources : SourceAmounts) (source : AttributionSource) (a : Z) : SourceAmounts :=
  if a =? 0 then sources
  else
    match last sources with
    | Some (last_source, last_amount) =>
        if bool_decide (last_source = source)
        then take (length sources - 1) sources ++ [(last_source, u128_sat_add last_amount a)]
        else sources ++ [(source, a)]
    | None => sources ++ [(source, a)]
    end.

Definition source_amount (source : AttributionSource) (a : Z) : SourceAmounts := add_source_amount [] source a.

Definition add_source_amounts (entry sources : SourceAmounts) : SourceAmounts :=
  foldl (fun e s => add_source_amount e s.1 s.2) entry sources.

Definition add_sources_to_sheet (sheet : SourcedSheet) (token : SchemaAlkaneId) (sources : SourceAmounts)
    : SourcedSheet :=
  match sources with
  | [] => sheet
  | _ =>
      match add_source_amounts (default [] (sheet !! token)) sources with
      | [] => delete token sheet
      | entry => <[token := entry]> sheet
      end
  end.

Definition merge_sourced_sheet (target source : SourcedSheet) : SourcedSheet :=
  foldl (fun t e => add_sources_to_sheet t e.1 e.2) target (btree_entries source).

(** The loop of [take_sources_from_amounts]: what is taken and what stays. *)
Fixpoint take_loop (sources : SourceAmounts) (remaining : Z) (taken : SourceAmounts) : SourceAmounts * SourceAmounts :=
  if 0 <? remaining then
    match sources with
    | [] => (taken, [])
    | (source, available) :: rest =>
        let t := Z.min available remaining in
        let taken' := add_source_amount taken source t in
        let available' := u128_sat_sub available t in
        let remaining' := u128_sat_sub remaining t in
        if available' =? 0 then take_loop rest remaining' taken'
        else (taken', (source, available') :: rest)
    end
  else (taken, sources).

Definition take_sources_from_amounts (sources : SourceAmounts) (a : Z) : SourceAmounts * SourceAmounts :=
  take_loop sources a [].

Definition take_sources_from_sheet (sheet : SourcedSheet) (token : SchemaAlkaneId) (a : Z)
    : SourceAmounts * SourcedSheet :=
  if a =? 0 then ([], sheet)
  else
    match sheet !! token with
    | None => ([], sheet)
    | Some sources =>
        let '(taken, rest) := take_sources_from_amounts sources a in
        (taken, match rest with [] => delete token sheet | _ => <[token := rest]> sheet end)
    end.

Definition take_sources_for_delta (source_sheet : SourcedSheet) (delta : ProjectionSheet)
    : SourcedSheet * SourcedSheet :=
  foldl (fun '(out, sheet) e =>
    let '(sources, sheet') := take_sources_from_sheet sheet e.1 e.2 in
    (add_sources_to_sheet out e.1 sources, sheet')) (∅, source_sheet) (btree_entries delta).

(** ** Contracts that sent or received *)

Abbreviation ContractTokenAmounts := (gmap (SchemaAlkaneId * SchemaAlkaneId) Z) (only parsing).
Abbreviation AddressContractAmounts := (gmap bytes (gmap (SchemaAlkaneId * SchemaAlkaneId) Z)) (only parsing).

Definition add_contract_token_amount (m : ContractTokenAmounts) (contract token : SchemaAlkaneId) (a : Z)
    : ContractTokenAmounts :=
  if a =? 0 then m else <[(contract, token) := u128_sat_add (default 0 (m !! (contract, token))) a]> m.

Definition add_address_contract_amount (m : AddressContractAmounts) (address : bytes)
    (contract token : SchemaAlkaneId) (a : Z) : AddressContractAmounts :=
  if a =? 0 then m else <[address := add_contract_token_amount (default ∅ (m !! address)) contract token a]> m.

Definition merge_address_contract_amounts (target source : AddressContractAmounts) : AddressContractAmounts :=
  foldl (fun t e =>
    <[e.1 := foldl (fun m x => add_contract_token_amount m x.1.1 x.1.2 x.2) (default ∅ (t !! e.1)) (map_to_list e.2)]> t)
    target (map_to_list source).

Definition add_contract_receives_from_sources (receives : ContractTokenAmounts) (token : SchemaAlkaneId)
    (sources : SourceAmounts) : ContractTokenAmounts :=
  foldl (fun m e =>
    match e.1 with
    | SContract contract => add_contract_token_amount m contract token e.2
    | SAddress _ => m
    end) receives sources.
