(* ===== verification/AlkSheetsProps.v ===== *)
(** * Signed amounts and source queues

    Signed amounts are the integers of [u128] magnitude, with saturation; taking from a
    queue of sources splits it, in order and without loss. *)
From S2P Require Import Prelude Bytes RunesTransfer RunesStore RunesChain AlkTrace AlkSheets.

Open Scope Z_scope.

Definition in_amount (z : Z) : Prop := 0 <= z < u128_mod.

Lemma sat_add_range a b : 0 <= a -> 0 <= b -> in_amount (u128_sat_add a b).
Proof. unfold in_amount, u128_sat_add, u128_mod. lia. Qed.

Lemma sat_add_exact a b : a + b < u128_mod -> u128_sat_add a b = a + b.
Proof. unfold u128_sat_add. lia. Qed.

(** ** Numbers in strings *)

Lemma to_digit_range radix b d : to_digit radix b = Some d -> 0 <= d < radix.
Proof.
  unfold to_digit. pose proof (b2z_range b). intros E.
  repeat case_match; cbn in E; repeat case_match; simplify_eq; lia.
Qed.

Lemma digits_value_range radix bound s : forall acc v,
  0 <= radix -> 0 <= acc < bound -> digits_value radix bound acc s = Some v -> 0 <= v < bound.
Proof.
  induction s as [|c s IH]; intros acc v Hr Ha; cbn [digits_value]; [by intros [= <-]|].
  destruct (to_digit radix c) as [d|] eqn:E; cbn [mbind option_bind]; [|done].
  apply to_digit_range in E. destruct (Z.ltb_spec (acc * radix + d) bound); [|done].
  apply IH; [done|]. nia.
Qed.

Lemma from_str_radix_range radix bound s v :
  0 <= radix -> 0 < bound -> from_str_radix radix bound s = Some v -> 0 <= v < bound.
Proof.
  intros Hr Hb. unfold from_str_radix. destruct s as [|c [|c' s]]; [done| |case_bool_decide];
    apply digits_value_range; lia.
Qed.

Lemma parse_hex_u128_range s v : parse_hex_u128 s = Some v -> in_amount v.
Proof. by apply from_str_radix_range. Qed.

(** ** Signed amounts *)

Record signed_ok (x : SignedU128) : Prop := {
  so_range : in_amount (amount x);
  so_zero : amount x = 0 -> negative x = false;
}.

Definition signed_value (x : SignedU128) : Z := if is_negative x then - amount x else amount x.

(** The nearest integer of [u128] magnitude. *)
Definition clamp (z : Z) : Z := Z.max (- (u128_mod - 1)) (Z.min (u128_mod - 1) z).

Lemma from_parts_ok neg a : in_amount a -> signed_ok (from_parts neg a).
Proof.
  intros H. unfold from_parts. destruct (Z.eqb_spec a 0); split; cbn; try done.
Qed.

Lemma from_parts_value neg a : 0 <= a -> signed_value (from_parts neg a) = if neg then - a else a.
Proof.
  intros H. unfold from_parts, signed_value, is_negative. destruct (Z.eqb_spec a 0) as [->|]; cbn [amount negative su_zero].
  - by destruct neg.
  - rewrite (proj2 (Z.ltb_lt 0 a)) by lia. by destruct neg.
Qed.

Lemma signed_range x : signed_ok x -> Z.abs (signed_value x) < u128_mod.
Proof. intros [[H1 H2] _]. unfold signed_value. destruct (is_negative x); lia. Qed.

Lemma signed_ext x y : signed_ok x -> signed_ok y -> signed_value x = signed_value y -> x = y.
Proof.
  destruct x as [n a], y as [m b]. intros [[A1 A2] A3] [[B1 B2] B3]. unfold signed_value, is_negative. cbn in *.
  destruct (Z.ltb_spec 0 a), (Z.ltb_spec 0 b), n, m; cbn; intros E;
    try (f_equal; lia); try (exfalso; lia);
    try (specialize (A3 ltac:(lia)); discriminate); try (specialize (B3 ltac:(lia)); discriminate).
Qed.

Lemma su_add_spec x y :
  signed_ok x -> signed_ok y -> signed_ok (su_add x y) /\ signed_value (su_add x y) = clamp (signed_value x + signed_value y).
Proof.
  intros [[X1 X2] _] [[Y1 Y2] _]. unfold su_add.
  assert (Hv : forall z, signed_value z = if is_negative z then - amount z else amount z) by done.
  rewrite (Hv x), (Hv y). destruct (is_negative x), (is_negative y);
    try (destruct (Z.leb_spec (amount y) (amount x)));
    (split; [apply from_parts_ok|rewrite from_parts_value]; unfold in_amount, clamp, u128_sat_add in *; lia).
Qed.

Lemma negated_spec x : signed_ok x -> signed_ok (negated x) /\ signed_value (negated x) = - signed_value x.
Proof.
  intros [H _]. unfold negated. split; [by apply from_parts_ok|]. rewrite from_parts_value by apply H.
  unfold signed_value. destruct (is_negative x); cbn; lia.
Qed.

Lemma su_cmp_spec x y : signed_ok x -> signed_ok y -> su_cmp x y = (signed_value x ?= signed_value y).
Proof.
  intros [[X1 X2] X3] [[Y1 Y2] Y3]. unfold su_cmp, signed_value.
  assert (Hx : is_negative x = true -> 0 < amount x).
  { unfold is_negative. intros [H%Z.ltb_lt _]%andb_true_iff. done. }
  assert (Hy : is_negative y = true -> 0 < amount y).
  { unfold is_negative. intros [H%Z.ltb_lt _]%andb_true_iff. done. }
  destruct (is_negative x), (is_negative y); try (specialize (Hx eq_refl)); try (specialize (Hy eq_refl)).
  - by rewrite Z.compare_opp.
  - symmetry. apply Z.compare_lt_iff. lia.
  - symmetry. apply Z.compare_gt_iff. lia.
  - done.
Qed.

Lemma try_add_signed_spec self x :
  in_amount self -> signed_ok x ->
  try_add_signed self x
  = if bool_decide (0 <= self + signed_value x < u128_mod) then Some (self + signed_value x) else None.
Proof.
  intros [S1 S2] [[X1 X2] _]. unfold try_add_signed, as_parts, signed_value, checked_sub, checked_add.
  destruct (is_negative x); [destruct (Z.ltb_spec self (amount x))|destruct (Z.ltb_spec (self + amount x) u128_mod)];
    first [rewrite bool_decide_true by lia | rewrite bool_decide_false by lia]; try done; f_equal; lia.
Qed.

(** A map of signed amounts read as integers. *)
Definition signed_at (m : gmap SchemaAlkaneId SignedU128) (k : SchemaAlkaneId) : Z := from_option signed_value 0 (m !! k).

(** The entries are in range, and none is zero. *)
Definition signed_map_ok (m : gmap SchemaAlkaneId SignedU128) : Prop :=
  map_Forall (fun _ x => signed_ok x /\ signed_value x <> 0) m.

Lemma is_zero_value x : signed_ok x -> is_zero x = (signed_value x =? 0).
Proof.
  intros [[H1 H2] H3]. unfold is_zero, signed_value, is_negative. destruct (Z.eqb_spec (amount x) 0) as [->|Hne].
  - done.
  - rewrite (proj2 (Z.ltb_lt 0 (amount x))) by lia. destruct (negative x); cbn; symmetry; apply Z.eqb_neq; lia.
Qed.

Lemma add_signed_spec m k d :
  signed_map_ok m -> signed_ok d ->
  signed_map_ok (add_signed m k d)
  /\ forall j, signed_at (add_signed m k d) j
       = if decide (j = k) then clamp (signed_at m k + signed_value d) else signed_at m j.
Proof.
  intros Hm Hd. unfold add_signed. rewrite is_zero_value by done.
  assert (He : signed_ok (default su_zero (m !! k)) /\ signed_value (default su_zero (m !! k)) = signed_at m k).
  { unfold signed_at. destruct (m !! k) eqn:E; cbn; [split; [by apply (Hm _ _ E)|done]|done]. }
  destruct He as [He1 He2]. destruct (su_add_spec _ _ He1 Hd) as [Ha Hv].
  destruct (Z.eqb_spec (signed_value d) 0) as [Hz|Hz].
  { split; [done|]. intros j. case_decide as Dj; [subst j|done]. rewrite Hz, Z.add_0_r.
    pose proof (signed_range _ He1). rewrite He2 in *. unfold clamp, u128_mod in *. lia. }
  rewrite is_zero_value by done. rewrite <- He2, <- Hv.
  destruct (Z.eqb_spec (signed_value (su_add (default su_zero (m !! k)) d)) 0) as [Hz'|Hz'].
  - split; [by apply map_Forall_delete|]. intros j. unfold signed_at.
    case_decide as Dj; [subst j; by rewrite lookup_delete_eq, Hz'|by rewrite lookup_delete_ne].
  - split; [by apply map_Forall_insert_2|]. intros j. unfold signed_at.
    case_decide as Dj; [subst j; by rewrite lookup_insert_eq|by rewrite lookup_insert_ne].
Qed.

(** ** Source queues *)

(** The amounts of the sources in [P]. *)
Definition part (P : AttributionSource -> bool) (l : list (AttributionSource * Z)) : Z :=
  foldr (fun e acc => (if P e.1 then e.2 else 0) + acc) 0 l.
Definition whole (l : list (AttributionSource * Z)) : Z := part (fun _ => true) l.

Definition queue_ok (l : list (AttributionSource * Z)) : Prop := Forall (fun e => 0 <= e.2) l.

Lemma part_nil P : part P [] = 0.
Proof. done. Qed.

Lemma part_cons P s a l : part P ((s, a) :: l) = (if P s then a else 0) + part P l.
Proof. done. Qed.

Lemma part_app P l1 l2 : part P (l1 ++ l2) = part P l1 + part P l2.
Proof. induction l1 as [|[s a] l IH]; [done|]. cbn [app]. rewrite !part_cons, IH. lia. Qed.

Lemma part_range P l : queue_ok l -> 0 <= part P l <= whole l.
Proof.
  induction 1 as [|[s a] l Ha _ IH]; [done|]. unfold whole in *. rewrite !part_cons. cbn in Ha. destruct (P s); lia.
Qed.

Lemma last_split {A} (l : list A) x : last l = Some x -> l = take (length l - 1) l ++ [x].
Proof.
  intros (l' & ->)%last_Some. rewrite length_app. cbn [length].
  replace (length l' + 1 - 1)%nat with (length l') by lia. by rewrite take_app_length.
Qed.

Lemma add_source_amount_spec l s a :
  queue_ok l -> 0 <= a ->
  queue_ok (add_source_amount l s a)
  /\ (whole l + a < u128_mod -> forall P, part P (add_source_amount l s a) = part P l + if P s then a else 0).
Proof.
  intros Hl Ha. unfold add_source_amount. destruct (Z.eqb_spec a 0) as [->|Hne].
  { split; [done|]. intros _ P. destruct (P s); lia. }
  assert (Hpush : queue_ok (l ++ [(s, a)]) /\ forall P, part P (l ++ [(s, a)]) = part P l + if P s then a else 0).
  { split; [apply Forall_app; split; [done|by repeat constructor]|]. intros P. rewrite part_app, part_cons. cbn. lia. }
  destruct (last l) as [[s' b]|] eqn:E; [|split; [apply Hpush|intros _; apply Hpush]].
  case_bool_decide as Ds; [subst s'|split; [apply Hpush|intros _; apply Hpush]].
  apply last_split in E. revert E. generalize (take (length l - 1) l) as l'. intros l' ->.
  apply Forall_app in Hl as [Hl [Hb _]%Forall_cons]. cbn in Hb. split.
  - apply Forall_app. split; [done|]. repeat constructor. cbn. unfold u128_sat_add, u128_mod. lia.
  - intros Hw P. unfold whole in Hw. pose proof (part_range (fun _ => true) l' Hl).
    rewrite !part_app, !part_cons in *. cbn in Hw |- *. rewrite sat_add_exact by lia. destruct (P s); lia.
Qed.

Lemma add_source_amounts_spec l1 l2 :
  queue_ok l1 -> queue_ok l2 ->
  queue_ok (add_source_amounts l1 l2)
  /\ (whole l1 + whole l2 < u128_mod -> forall P, part P (add_source_amounts l1 l2) = part P l1 + part P l2).
Proof.
  unfold add_source_amounts. revert l1. induction l2 as [|[s a] l2 IH]; intros l1 H1 H2.
  { split; [done|]. intros _ P. rewrite part_nil. cbn [foldl]. lia. }
  apply Forall_cons in H2 as [Ha H2]. cbn in Ha. cbn [foldl fst snd].
  destruct (add_source_amount_spec l1 s a H1 Ha) as [Hq Hp]. destruct (IH _ Hq H2) as [Hq' Hp']. split; [done|].
  intros Hw P. pose proof (part_range (fun _ => true) l2 H2). unfold whole in *. rewrite part_cons in Hw.
  assert (Hw1 : part (fun _ => true) l1 + a < u128_mod) by lia. rewrite Hp', (Hp Hw1), part_cons; [lia|].
  rewrite (Hp Hw1). lia.
Qed.

Lemma take_loop_spec l a t :
  queue_ok l -> queue_ok t -> 0 <= a -> whole t + whole l < u128_mod ->
  let r := take_loop l a t in
  queue_ok r.1 /\ queue_ok r.2 /\ (forall P, part P r.1 + part P r.2 = part P t + part P l)
  /\ whole r.1 = whole t + Z.min a (whole l).
Proof.
  revert a t. induction l as [|[s v] l IH]; intros a t Hl Ht Ha Hw; cbn [take_loop].
  { unfold whole. rewrite part_nil. destruct (0 <? a); cbn [fst snd]; split_all; try done; lia. }
  apply Forall_cons in Hl as [Hv Hl]. cbn in Hv. pose proof (part_range (fun _ => true) l Hl) as Hl0.
  pose proof (part_range (fun _ => true) t Ht) as Ht0. unfold whole in *. rewrite part_cons in Hw.
  destruct (Z.ltb_spec 0 a) as [Hpos|Hz].
  2: { cbn [fst snd]. rewrite part_cons. split_all; [done|by constructor|done|lia]. }
  destruct (add_source_amount_spec t s (Z.min v a) Ht ltac:(lia)) as [Hq Hp].
  assert (Hwt : whole t + Z.min v a < u128_mod) by (unfold whole; lia). specialize (Hp Hwt). unfold whole in *.
  unfold u128_sat_sub. destruct (Z.eqb_spec (Z.max 0 (v - Z.min v a)) 0) as [He|He].
  - destruct (IH (Z.max 0 (a - Z.min v a)) _ Hl Hq ltac:(lia)) as (I1 & I2 & I3 & I4); [rewrite Hp; lia|].
    split_all; [done|done| |rewrite I4, Hp, part_cons; lia]. intros P. rewrite I3, Hp, part_cons. destruct (P s); lia.
  - cbn [fst snd]. split_all; [done|constructor; [cbn; lia|done]| |rewrite Hp, part_cons; lia].
    intros P. rewrite Hp, !part_cons. destruct (P s); lia.
Qed.

(** ** Sheets of sources *)

(** The amounts of a token that came from the sources in [P]. *)
Definition sourced (P : AttributionSource -> bool) (sheet : gmap SchemaAlkaneId (list (AttributionSource * Z)))
    (token : SchemaAlkaneId) : Z := part P (default [] (sheet !! token)).
Definition sourced_ok (sheet : gmap SchemaAlkaneId (list (AttributionSource * Z))) : Prop :=
  map_Forall (fun _ => queue_ok) sheet.

Lemma sourced_queue sheet token : sourced_ok sheet -> queue_ok (default [] (sheet !! token)).
Proof. intros H. destruct (sheet !! token) eqn:E; [by apply (H _ _ E)|constructor]. Qed.

Lemma add_sources_ok sheet token l : sourced_ok sheet -> queue_ok l -> sourced_ok (add_sources_to_sheet sheet token l).
Proof.
  intros Hs Hl. unfold add_sources_to_sheet. destruct l as [|e l]; [done|].
  destruct (add_source_amounts_spec _ _ (sourced_queue sheet token Hs) Hl) as [Hq _].
  destruct (add_source_amounts _ _); [by apply map_Forall_delete|by apply map_Forall_insert_2].
Qed.

Lemma add_sources_sourced P sheet token l j :
  sourced_ok sheet -> queue_ok l -> sourced (fun _ => true) sheet token + whole l < u128_mod ->
  sourced P (add_sources_to_sheet sheet token l) j = sourced P sheet j + if decide (j = token) then part P l else 0.
Proof.
  intros Hs Hl Hw. unfold add_sources_to_sheet. destruct l as [|e l].
  { case_decide; cbn; lia. }
  destruct (add_source_amounts_spec _ _ (sourced_queue sheet token Hs) Hl) as [_ Hp]. specialize (Hp Hw P).
  unfold sourced. destruct (add_source_amounts _ _) as [|e' l'].
  - case_decide as D; [subst j; rewrite lookup_delete_eq; exact Hp|rewrite lookup_delete_ne by done; lia].
  - case_decide as D; [subst j; rewrite lookup_insert_eq; exact Hp|rewrite lookup_insert_ne by done; lia].
Qed.

Lemma take_sources_spec sheet token a :
  sourced_ok sheet -> 0 <= a -> sourced (fun _ => true) sheet token < u128_mod ->
  let r := take_sources_from_sheet sheet token a in
  queue_ok r.1 /\ sourced_ok r.2 /\ whole r.1 = Z.min a (sourced (fun _ => true) sheet token)
  /\ forall P j, sourced P r.2 j = sourced P sheet j - if decide (j = token) then part P r.1 else 0.
Proof.
  intros Hs Ha Hw. unfold take_sources_from_sheet.
  assert (Hsame : forall P j, sourced P sheet j = sourced P sheet j - if decide (j = token) then part P [] else 0).
  { intros P j. case_decide; cbn; lia. }
  assert (H0 : 0 <= sourced (fun _ => true) sheet token).
  { apply part_range. by apply sourced_queue. }
  destruct (Z.eqb_spec a 0) as [->|Hne].
  { cbn [fst snd]. split_all; [constructor|done|cbn; lia|done]. }
  destruct (sheet !! token) as [l|] eqn:E.
  2: { cbn [fst snd]. split_all; [constructor|done| |done]. unfold sourced. rewrite E. cbn. lia. }
  unfold take_sources_from_amounts. assert (Hq : queue_ok l) by apply (Hs _ _ E).
  unfold sourced in Hw. rewrite E in Hw. cbn [from_option id] in Hw.
  pose proof (take_loop_spec l a [] Hq ltac:(constructor) Ha ltac:(unfold whole; rewrite part_nil; lia)) as (T1 & T2 & T3 & T4).
  destruct (take_loop l a []) as [t r]. cbn [fst snd] in *.
  split_all; [done| |rewrite T4; unfold sourced; by rewrite E|].
  - destruct r; [by apply map_Forall_delete|by apply map_Forall_insert_2].
  - intros P j. specialize (T3 P). unfold sourced. destruct r as [|e r]; case_decide as D; try subst j.
    + rewrite lookup_delete_eq, E. cbn [from_option id]. rewrite !part_nil in *. lia.
    + rewrite lookup_delete_ne by done. lia.
    + rewrite lookup_insert_eq, E. cbn [from_option id]. rewrite part_nil in T3. lia.
    + rewrite lookup_insert_ne by done. lia.
Qed.
