(* ===== verification/AlkDeltas.v ===== *)
(** * What a trace does to balances

    [mint_deltas_from_trace] and [accumulate_alkane_balance_deltas] of
    [src/modules/essentials/utils/balances/lib.rs]: both walk the repaired events of a
    trace with a stack of frames.  A stack is a list with its top first. *)
From Stdlib Require Import Strings.Byte.
From stdpp Require Import strings.
From S2P Require Import Prelude Bytes RunesTransfer RunesStore RunesChain RunesInscriptions AlkTrace AlkSheets.
From stdpp Require Import options.

Open Scope Z_scope.

Abbreviation AlkaneDeltaMap := (gmap SchemaAlkaneId (gmap SchemaAlkaneId SignedU128)) (only parsing).
Abbreviation RootDebitCandidateMap := (gmap SchemaAlkaneId (gmap SchemaAlkaneId Z)) (only parsing).

Inductive FrameKind := FNormal | FDelegate | FStatic.

#[global] Instance FrameKind_eq_dec : EqDecision FrameKind.
Proof. solve_decision. Defined.

Definition frame_kind (t : bytes) : FrameKind :=
  let t := to_ascii_lowercase t in
  if bytes_eqb t (bstr "delegatecall") then FDelegate
  else if bytes_eqb t (bstr "staticcall") then FStatic
  else FNormal.

(** ** Mints *)

Record MintFrame := mkMintFrame {
  mf_owner : option SchemaAlkaneId;
  mint_candidate : bool;
  mf_incoming : list (SchemaAlkaneId * Z);
  nested_mints : gmap SchemaAlkaneId Z;
}.

Definition is_mint_opcode (s : option bytes) : bool :=
  match s ≫= parse_u128_from_str with Some op => op =? 77 | None => false end.

(** The transfers of a list that parse and are not zero. *)
Definition mint_transfers (ts : list EspoSandshrewLikeTraceTransfer) : list (SchemaAlkaneId * Z) :=
  omap (fun t =>
    id ← parse_short_id (tf_id t);
    value ← parse_u128_from_str (tf_value t);
    if value =? 0 then None else Some (id, value)) ts.

(** [position] and [remove] of the first element equal to [x]. *)
Fixpoint remove_first (x : SchemaAlkaneId * Z) (l : list (SchemaAlkaneId * Z)) : list (SchemaAlkaneId * Z) :=
  match l with
  | [] => []
  | y :: l' => if bool_decide (y = x) then l' else y :: remove_first x l'
  end.

Definition find_amount (owner : SchemaAlkaneId) (l : list (SchemaAlkaneId * Z)) : option Z :=
  snd <$> head (filter (fun e => e.1 = owner) l).

Definition credit_all (m : gmap SchemaAlkaneId Z) (entries : list (SchemaAlkaneId * Z)) : gmap SchemaAlkaneId Z :=
  foldl (fun m e => sheet_credit m e.1 e.2) m entries.

(** What a frame that may mint and returned has minted of its own token: its mints and the deltas. *)
Definition frame_minted (frame : MintFrame) (ret : EspoSandshrewLikeTraceReturnData) (deltas : gmap SchemaAlkaneId Z)
    : gmap SchemaAlkaneId Z * gmap SchemaAlkaneId Z :=
  let frame_mints := nested_mints frame in
  if mint_candidate frame && bool_decide (status ret = Success) then
    match mf_owner frame with
    | None => (frame_mints, deltas)
    | Some owner =>
        let returned := foldl (fun l inc => remove_first inc l) (mint_transfers (alkanes (response ret))) (mf_incoming frame) in
        match find_amount owner returned with
        | None => (frame_mints, deltas)
        | Some value =>
            let delta := u128_sat_sub value (default 0 (frame_mints !! owner)) in
            if 0 <? delta then (sheet_credit frame_mints owner delta, sheet_credit deltas owner delta)
            else (frame_mints, deltas)
        end
    end
  else (frame_mints, deltas).

Definition add_nested (frame_mints : gmap SchemaAlkaneId Z) (parent : MintFrame) : MintFrame :=
  mkMintFrame (mf_owner parent) (mint_candidate parent) (mf_incoming parent)
    (credit_all (nested_mints parent) (btree_entries frame_mints)).

Fixpoint mint_loop (evs : list EspoSandshrewLikeTraceEvent) (stack : list MintFrame) (deltas : gmap SchemaAlkaneId Z)
    : option (gmap SchemaAlkaneId Z) :=
  match evs with
  | [] => match stack with [] => Some deltas | _ => None end
  | Invoke inv :: evs' =>
      let is_static := bytes_eqb (to_ascii_lowercase (typ inv)) (bstr "staticcall") in
      let candidate :=
        negb is_static && (is_mint_opcode (inputs (context inv) !! 2%nat) || is_mint_opcode (inputs (context inv) !! 0%nat)) in
      let incoming := if candidate then mint_transfers (incoming_alkanes (context inv)) else [] in
      mint_loop evs' (mkMintFrame (parse_short_id (myself (context inv))) candidate incoming ∅ :: stack) deltas
  | Return ret :: evs' =>
      match stack with
      | [] => None
      | frame :: stack' =>
          let '(frame_mints, deltas') := frame_minted frame ret deltas in
          mint_loop evs'
            (match stack' with [] => [] | parent :: below => add_nested frame_mints parent :: below end) deltas'
      end
  | Create _ :: evs' => mint_loop evs' stack deltas
  end.

(** ** Balance deltas *)

Record Frame := mkFrame {
  kind : FrameKind;
  owner : SchemaAlkaneId;
  incoming : gmap SchemaAlkaneId Z;
  parent_normal : option SchemaAlkaneId;
  deltas : gmap SchemaAlkaneId (gmap SchemaAlkaneId SignedU128);
}.

Fixpoint nearest_normal_owner (stack : list Frame) : option SchemaAlkaneId :=
  match stack with
  | [] => None
  | frame :: below => if bool_decide (kind frame = FNormal) then Some (owner frame) else nearest_normal_owner below
  end.

Definition add_delta (outflows : AlkaneDeltaMap) (owner token : SchemaAlkaneId) (delta : SignedU128) : AlkaneDeltaMap :=
  if is_zero delta then outflows
  else
    let entry := add_signed (default ∅ (outflows !! owner)) token delta in
    if bool_decide (entry = ∅) then delete owner outflows else <[owner := entry]> outflows.

Definition apply_transfer (outflows : AlkaneDeltaMap) (from to : option SchemaAlkaneId) (token : SchemaAlkaneId) (a : Z)
    : AlkaneDeltaMap :=
  if a =? 0 then outflows
  else
    let o1 := match from with Some owner => add_delta outflows owner token (su_negative a) | None => outflows end in
    match to with Some owner => add_delta o1 owner token (su_positive a) | None => o1 end.

Definition cancel_positive_delta (outflows : AlkaneDeltaMap) (owner token : SchemaAlkaneId) (a : Z)
    : Z * AlkaneDeltaMap :=
  let available :=
    match outflows !! owner ≫= (fun per_token => per_token !! token) with
    | Some delta => let '(neg, v) := as_parts delta in if neg then 0 else v
    | None => 0
    end in
  let a' := Z.min available a in
  (a', if 0 <? a' then add_delta outflows owner token (su_negative a') else outflows).

Definition add_root_debit_candidate (candidates : RootDebitCandidateMap) (owner token : SchemaAlkaneId) (a : Z)
    : RootDebitCandidateMap :=
  if a =? 0 then candidates
  else <[owner := sheet_credit (default ∅ (candidates !! owner)) token a]> candidates.

Definition merge_deltas (target child : AlkaneDeltaMap) : AlkaneDeltaMap :=
  foldl (fun t e =>
    let '(owner, per_token) := e in
    if bool_decide (per_token = ∅) then t
    else
      let entry := foldl (fun m x => add_signed m x.1 x.2) (default ∅ (t !! owner)) (btree_entries per_token) in
      if bool_decide (entry = ∅) then delete owner t else <[owner := entry]> t) target (map_to_list child).

(** Incoming: from the nearest normal parent to the owner of the frame. *)
Definition credit_incoming (parent : option SchemaAlkaneId) (owner : SchemaAlkaneId) (incoming : gmap SchemaAlkaneId Z)
    (d : AlkaneDeltaMap) : AlkaneDeltaMap :=
  foldl (fun d e => apply_transfer d parent (Some owner) e.1 e.2) d (btree_entries incoming).

(** Outgoing of a frame with a normal parent. *)
Definition pay_parent (parent : option SchemaAlkaneId) (owner : SchemaAlkaneId) (outgoing : gmap SchemaAlkaneId Z)
    (d : AlkaneDeltaMap) : AlkaneDeltaMap :=
  foldl (fun d e => apply_transfer d (Some owner) parent e.1 e.2) d (btree_entries outgoing).

(** Outgoing of a root: what came in is cancelled, the rest is a debit the root has to cover. *)
Definition pay_out_step (owner : SchemaAlkaneId) (dc : AlkaneDeltaMap * RootDebitCandidateMap) (e : SchemaAlkaneId * Z)
    : AlkaneDeltaMap * RootDebitCandidateMap :=
  let '(d, c) := dc in
  let '(canceled, d1) := cancel_positive_delta d owner e.1 e.2 in
  let remaining := u128_sat_sub e.2 canceled in
  if (0 <? remaining) && negb (bool_decide (e.1 = owner))
  then (add_delta d1 owner e.1 (su_negative remaining), add_root_debit_candidate c owner e.1 remaining)
  else (d1, c).

Definition pay_out (owner : SchemaAlkaneId) (outgoing : gmap SchemaAlkaneId Z) (d : AlkaneDeltaMap)
    (c : RootDebitCandidateMap) : AlkaneDeltaMap * RootDebitCandidateMap :=
  foldl (pay_out_step owner) (d, c) (btree_entries outgoing).

(** The effects of a frame that returned: what came in, then what went out. *)
Definition settle (parent : option SchemaAlkaneId) (owner : SchemaAlkaneId) (incoming : gmap SchemaAlkaneId Z)
    (ret : EspoSandshrewLikeTraceReturnData) (d : AlkaneDeltaMap) (c : RootDebitCandidateMap)
    : AlkaneDeltaMap * RootDebitCandidateMap :=
  let d1 := credit_incoming parent owner incoming d in
  let outgoing := transfers_to_sheet (alkanes (response ret)) in
  match parent with
  | Some _ => (pay_parent parent owner outgoing d1, c)
  | None => pay_out owner outgoing d1 c
  end.

Record Walk := mkWalk {
  outflows : gmap SchemaAlkaneId (gmap SchemaAlkaneId SignedU128);
  root_debit_candidates : gmap SchemaAlkaneId (gmap SchemaAlkaneId Z);
  frames : list Frame;
  root_reverted : bool;
}.

Definition push_frame (frame : Frame) (w : Walk) : Walk :=
  mkWalk (outflows w) (root_debit_candidates w) (frame :: frames w) (root_reverted w).

(** The frame below takes over the deltas of a frame that returned. *)
Definition merge_into (frame : Frame) (d : AlkaneDeltaMap) : Frame :=
  mkFrame (kind frame) (owner frame) (incoming frame) (parent_normal frame) (merge_deltas (deltas frame) d).

Definition invoke_event (inv : EspoSandshrewLikeTraceInvokeData) (w : Walk) : Walk :=
  let k := frame_kind (typ inv) in
  match parse_short_id (myself (context inv)) with
  | None => w
  | Some owner =>
      let inc := match k with FStatic => ∅ | _ => transfers_to_sheet (incoming_alkanes (context inv)) end in
      push_frame (mkFrame k owner inc (nearest_normal_owner (frames w)) ∅) w
  end.

Definition return_event (ret : EspoSandshrewLikeTraceReturnData) (w : Walk) : Walk :=
  match frames w with
  | [] => mkWalk (outflows w) (root_debit_candidates w) [] true
  | frame :: stack =>
      if bool_decide (status ret = Failure) then
        mkWalk (outflows w) (root_debit_candidates w) stack
          (match stack with
           | [] => bool_decide (kind frame = FNormal) || root_reverted w
           | _ => root_reverted w
           end)
      else if bool_decide (kind frame = FStatic) then
        mkWalk (outflows w) (root_debit_candidates w) stack (root_reverted w)
      else
        let '(d, c) := settle (parent_normal frame) (owner frame) (incoming frame) ret (deltas frame)
                         (root_debit_candidates w) in
        match stack with
        | parent :: below => mkWalk (outflows w) c (merge_into parent d :: below) (root_reverted w)
        | [] => mkWalk (merge_deltas (outflows w) d) c [] (root_reverted w)
        end
  end.

Definition walk_event (w : Walk) (ev : EspoSandshrewLikeTraceEvent) : Walk :=
  match ev with
  | Invoke inv => invoke_event inv w
  | Return ret => return_event ret w
  | Create _ => w
  end.

Section Trace.
Context {crates : TraceCrates}.

Definition mint_deltas_from_trace (trace : EspoSandshrewLikeTrace) (host : EspoHostFunctionValues)
    : option (gmap SchemaAlkaneId Z) :=
  trace ← clean_espo_sandshrew_like_trace trace host;
  mint_loop (events trace) [] ∅.

Definition accumulate_alkane_balance_deltas (trace : EspoSandshrewLikeTrace) (host : EspoHostFunctionValues)
    : bool * AlkaneDeltaMap * RootDebitCandidateMap :=
  match clean_espo_sandshrew_like_trace trace host with
  | None => (false, ∅, ∅)
  | Some trace =>
      let w := foldl walk_event (mkWalk ∅ ∅ [] false) (events trace) in
      if root_reverted w || negb (bool_decide (length (frames w) = 0%nat)) then (false, ∅, ∅)
      else (true, outflows w, root_debit_candidates w)
  end.

End Trace.
