(* ===== verification/AlkDeltasProps.v ===== *)
(** * The deltas of a trace, call by call

    The walk over the flat events with a stack of frames computes what a recursion over
    the forest of calls computes ([accumulate_eval]): failed and static calls, with all
    below them, contribute nothing to the deltas ([eval_prune]).  Nested calls only move amounts between owners, so
    that the deltas of a token add up to what entered and left at the roots. *)
From stdpp Require Import strings.
From S2P Require Import Prelude Bytes RunesTransfer RunesStore RunesChain RunesInscriptions.
From S2P Require Import AlkTrace AlkClean AlkSheets AlkSheetsProps AlkDeltas.

Open Scope Z_scope.

Abbreviation Deltas := (gmap SchemaAlkaneId (gmap SchemaAlkaneId SignedU128)) (only parsing).
Abbreviation Candidates := (gmap SchemaAlkaneId (gmap SchemaAlkaneId Z)) (only parsing).

(** ** The recursion over calls *)

Definition call_owner (inv : EspoSandshrewLikeTraceInvokeData) : option SchemaAlkaneId :=
  parse_short_id (myself (context inv)).
Definition call_in (inv : EspoSandshrewLikeTraceInvokeData) : gmap SchemaAlkaneId Z :=
  transfers_to_sheet (incoming_alkanes (context inv)).
Definition call_out (ret : EspoSandshrewLikeTraceReturnData) : gmap SchemaAlkaneId Z :=
  transfers_to_sheet (alkanes (response ret)).

(** A call whose effects, and those of the calls below it, are dropped. *)
Definition dropped (inv : EspoSandshrewLikeTraceInvokeData) (ret : EspoSandshrewLikeTraceReturnData) : bool :=
  bool_decide (status ret = Failure) || bool_decide (frame_kind (typ inv) = FStatic).

(** The nearest normal owner inside a call. *)
Definition inner_parent (inv : EspoSandshrewLikeTraceInvokeData) (owner : SchemaAlkaneId) (parent : option SchemaAlkaneId)
    : option SchemaAlkaneId := if bool_decide (frame_kind (typ inv) = FNormal) then Some owner else parent.

Fixpoint eval (parent : option SchemaAlkaneId) (f : forest) (acc : Deltas) (c : Candidates) : Deltas * Candidates :=
  match f with
  | FNil => (acc, c)
  | FCreate _ rest => eval parent rest acc c
  | FCall inv body ret rest =>
      match call_owner inv with
      | None => eval parent rest acc c
      | Some owner =>
          let '(d, c1) := eval (inner_parent inv owner parent) body ∅ c in
          if dropped inv ret then eval parent rest acc c1
          else
            let '(d', c2) := settle parent owner (call_in inv) ret d c1 in
            eval parent rest (merge_deltas acc d') c2
      end
  end.

(** Every call names its owner. *)
Fixpoint owned (f : forest) : Prop :=
  match f with
  | FNil => True
  | FCreate _ rest => owned rest
  | FCall inv body _ rest => is_Some (call_owner inv) /\ owned body /\ owned rest
  end.

(** A normal call at the root failed. *)
Fixpoint reverted (f : forest) : bool :=
  match f with
  | FNil => false
  | FCreate _ rest => reverted rest
  | FCall inv _ ret rest =>
      (bool_decide (status ret = Failure) && bool_decide (frame_kind (typ inv) = FNormal)) || reverted rest
  end.

(** ** The walk *)

Definition with_deltas (frame : Frame) (d : Deltas) : Frame :=
  mkFrame (kind frame) (owner frame) (incoming frame) (parent_normal frame) d.

(** Inside a frame. *)
Lemma walk_inner f : forall w frame below,
  owned f -> frames w = frame :: below ->
  let '(d, c) := eval (nearest_normal_owner (frames w)) f (deltas frame) (root_debit_candidates w) in
  foldl walk_event w (flatten f) = mkWalk (outflows w) c (with_deltas frame d :: below) (root_reverted w).
Proof.
  induction f as [|id rest IH|inv body IHb ret rest IHr]; intros w frame below Ho Hw.
  - cbn. destruct w, frame. cbn in *. by rewrite Hw.
  - cbn [flatten foldl walk_event eval]. by apply IH.
  - destruct Ho as ([o Eo] & Hb & Hr). cbn [eval flatten foldl]. rewrite Eo.
    rewrite foldl_app. cbn [foldl walk_event]. unfold invoke_event. fold (call_owner inv). rewrite Eo.
    set (inc := match frame_kind (typ inv) with FStatic => ∅ | _ => _ end).
    set (fr := mkFrame (frame_kind (typ inv)) o inc (nearest_normal_owner (frames w)) ∅).
    specialize (IHb (push_frame fr w) fr (frames w) Hb eq_refl).
    cbn [push_frame frames nearest_normal_owner fr kind owner deltas root_debit_candidates outflows root_reverted] in IHb.
    change (if bool_decide (frame_kind (typ inv) = FNormal) then Some o else nearest_normal_owner (frames w))
      with (inner_parent inv o (nearest_normal_owner (frames w))) in IHb.
    destruct (eval (inner_parent inv o (nearest_normal_owner (frames w))) body ∅ (root_debit_candidates w)) as [d c1].
    rewrite IHb. unfold return_event. cbn [frames with_deltas kind owner incoming parent_normal deltas outflows
      root_debit_candidates root_reverted fr]. rewrite Hw. unfold dropped.
    assert (Hgo : forall c2 fr' w', w' = mkWalk (outflows w) c2 (fr' :: below) (root_reverted w) ->
      kind fr' = kind frame -> owner fr' = owner frame -> incoming fr' = incoming frame ->
      parent_normal fr' = parent_normal frame ->
      let '(d, c) := eval (nearest_normal_owner (frame :: below)) rest (deltas fr') c2 in
      foldl walk_event w' (flatten rest) = mkWalk (outflows w) c (with_deltas frame d :: below) (root_reverted w)).
    { intros c2 fr' w' -> H1 H2 H3 H4. specialize (IHr (mkWalk (outflows w) c2 (fr' :: below) (root_reverted w)) fr' below Hr eq_refl).
      cbn [frames nearest_normal_owner root_debit_candidates outflows root_reverted] in IHr |- *. rewrite H1, H2 in IHr.
      destruct (eval _ rest (deltas fr') c2) as [d2 c3]. rewrite IHr. unfold with_deltas. by rewrite H1, H2, H3, H4. }
    case_bool_decide as Hst; cbn [orb]; [by apply Hgo|].
    case_bool_decide as Hk; [by apply Hgo|].
    assert (Hinc : inc = call_in inv) by (unfold inc, call_in; by destruct (frame_kind (typ inv))).
    rewrite Hinc. destruct (settle _ o (call_in inv) ret d c1) as [d' c2].
    by apply (Hgo c2 (merge_into frame d')).
Qed.

(** At the root. *)
Lemma walk_root f : forall w,
  owned f -> frames w = [] ->
  let '(d, c) := eval None f (outflows w) (root_debit_candidates w) in
  foldl walk_event w (flatten f) = mkWalk d c [] (reverted f || root_reverted w).
Proof.
  induction f as [|id rest IH|inv body IHb ret rest IHr]; intros w Ho Hw.
  - cbn. destruct w. cbn in *. by rewrite Hw.
  - cbn [flatten foldl walk_event eval reverted]. by apply IH.
  - clear IHb. destruct Ho as ([o Eo] & Hb & Hr). cbn [eval flatten foldl reverted]. rewrite Eo.
    rewrite foldl_app. cbn [foldl walk_event]. unfold invoke_event. fold (call_owner inv). rewrite Eo, Hw. change (nearest_normal_owner []) with (@None SchemaAlkaneId).
    set (inc := match frame_kind (typ inv) with FStatic => ∅ | _ => _ end).
    set (fr := mkFrame (frame_kind (typ inv)) o inc None ∅).
    pose proof (walk_inner body (push_frame fr w) fr [] Hb) as Hin.
    cbn [push_frame frames nearest_normal_owner fr kind owner deltas root_debit_candidates outflows root_reverted] in Hin.
    rewrite Hw in Hin. specialize (Hin eq_refl). cbn [nearest_normal_owner] in Hin.
    change (if bool_decide (frame_kind (typ inv) = FNormal) then Some o else None) with (inner_parent inv o None) in Hin.
    destruct (eval (inner_parent inv o None) body ∅ (root_debit_candidates w)) as [d c1].
    rewrite Hin. unfold return_event. cbn [frames with_deltas kind owner incoming parent_normal deltas outflows
      root_debit_candidates root_reverted fr]. unfold dropped.
    case_bool_decide as Hst; cbn [orb andb].
    { specialize (IHr (mkWalk (outflows w) c1 [] (bool_decide (frame_kind (typ inv) = FNormal) || root_reverted w)) Hr eq_refl).
      cbn [outflows root_debit_candidates root_reverted] in IHr. destruct (eval None rest (outflows w) c1).
      rewrite IHr. f_equal. by destruct (bool_decide _), (reverted rest). }
    case_bool_decide as Hk; [by apply (IHr (mkWalk (outflows w) c1 [] (root_reverted w)))|].
    assert (Hinc : inc = call_in inv) by (unfold inc, call_in; by destruct (frame_kind (typ inv))).
    rewrite Hinc. destruct (settle _ o (call_in inv) ret d c1) as [d' c2].
    by apply (IHr (mkWalk (merge_deltas (outflows w) d') c2 [] (root_reverted w))).
Qed.

(** The whole function, on a trace whose repair is a forest. *)
Lemma accumulate_eval {crates : TraceCrates} trace host t f :
  clean_espo_sandshrew_like_trace trace host = Some t -> events t = flatten f -> owned f ->
  accumulate_alkane_balance_deltas trace host
  = if reverted f then (false, ∅, ∅) else let '(d, c) := eval None f ∅ ∅ in (true, d, c).
Proof.
  intros Hc He Ho. unfold accumulate_alkane_balance_deltas. rewrite Hc, He.
  pose proof (walk_root f (mkWalk ∅ ∅ [] false) Ho eq_refl) as H. cbn [outflows root_debit_candidates root_reverted] in H.
  destruct (eval None f ∅ ∅) as [d c]. rewrite H. cbn [root_reverted frames outflows root_debit_candidates length].
  rewrite bool_decide_true, orb_false_r by done. cbn [negb]. rewrite orb_false_r. by destruct (reverted f).
Qed.

(** ** Failed and static calls *)

(** The forest without the calls that are dropped and all below them. *)
Fixpoint prune (f : forest) : forest :=
  match f with
  | FNil => FNil
  | FCreate id rest => FCreate id (prune rest)
  | FCall inv body ret rest => if dropped inv ret then prune rest else FCall inv (prune body) ret (prune rest)
  end.

Lemma settle_candidates parent o inc ret d c c' : (settle parent o inc ret d c).1 = (settle parent o inc ret d c').1.
Proof.
  unfold settle. destruct parent as [p|]; [done|]. unfold pay_out. generalize (btree_entries (transfers_to_sheet (alkanes (response ret)))) as l.
  generalize (credit_incoming None o inc d) as d0. intros d0 l. revert d0 c c'. induction l as [|e l IH]; intros d0 c c'; [done|].
  cbn [foldl]. unfold pay_out_step at 2 4. destruct (cancel_positive_delta _ _ _ _) as [x d1]. destruct (_ && _); apply IH.
Qed.

(** What a dropped call and the calls below it did leaves no delta. *)
Lemma eval_prune f : forall parent acc c c', owned f -> (eval parent f acc c).1 = (eval parent (prune f) acc c').1.
Proof.
  induction f as [|id rest IH|inv body IHb ret rest IHr]; intros parent acc c c' Ho; cbn [eval prune]; [done|by apply IH|].
  destruct Ho as ([o Eo] & Hb & Hr). rewrite Eo. pose proof (IHb (inner_parent inv o parent) ∅ c c' Hb) as Hd.
  destruct (eval (inner_parent inv o parent) body ∅ c) as [d c1]. destruct (dropped inv ret) eqn:Hdr; [by apply IHr|]. cbn [eval]. rewrite Eo.
  destruct (eval (inner_parent inv o parent) (prune body) ∅ c') as [d' c1']. cbn [fst] in Hd. subst d'.
  pose proof (settle_candidates parent o (call_in inv) ret d c1 c1') as Hs.
  destruct (settle parent o (call_in inv) ret d c1) as [e c2], (settle parent o (call_in inv) ret d c1') as [e' c2']. cbn [fst] in Hs. subst e'. rewrite Hdr. by apply IHr.
Qed.

(** ** Deltas as integers *)

Definition delta_at (d : Deltas) (o t : SchemaAlkaneId) : Z := signed_at (default ∅ (d !! o)) t.
Definition deltas_ok (d : Deltas) : Prop := map_Forall (fun _ => signed_map_ok) d.

(** All owners together. *)
Definition delta_total (d : Deltas) (t : SchemaAlkaneId) : Z := map_fold (fun _ m acc => signed_at m t + acc) 0 d.

(** An owner's entry replaced, and removed when it is empty. *)
Definition set_entry (d : Deltas) (o : SchemaAlkaneId) (entry : gmap SchemaAlkaneId SignedU128) : Deltas :=
  if bool_decide (entry = ∅) then delete o d else <[o := entry]> d.

Lemma entry_ok d o : deltas_ok d -> signed_map_ok (default ∅ (d !! o)).
Proof. intros H. destruct (d !! o) eqn:E; [by apply (H _ _ E)|by apply map_Forall_empty]. Qed.

Lemma total_insert d o m t :
  d !! o = None -> delta_total (<[o := m]> d) t = signed_at m t + delta_total d t.
Proof. intros H. unfold delta_total. rewrite map_fold_insert_L; [done|intros; lia|done]. Qed.

Lemma total_delete d o t : delta_total d t = delta_at d o t + delta_total (delete o d) t.
Proof.
  unfold delta_at. destruct (d !! o) as [m|] eqn:E; cbn [from_option id].
  - rewrite <- (total_insert (delete o d) o) by apply lookup_delete_eq. by rewrite insert_delete_id.
  - rewrite delete_id by done. unfold signed_at. rewrite lookup_empty. cbn. lia.
Qed.

Lemma set_entry_spec d o m :
  deltas_ok d -> signed_map_ok m ->
  deltas_ok (set_entry d o m)
  /\ (forall o' t, delta_at (set_entry d o m) o' t = if decide (o' = o) then signed_at m t else delta_at d o' t)
  /\ forall t, delta_total (set_entry d o m) t = delta_total d t - delta_at d o t + signed_at m t.
Proof.
  intros Hd Hm. unfold set_entry. case_bool_decide as E; [subst m|].
  - split_all; [by apply map_Forall_delete| |].
    + intros o' t. unfold delta_at. case_decide as D; [subst o'; by rewrite lookup_delete_eq|by rewrite lookup_delete_ne].
    + intros t. rewrite (total_delete d o t). unfold signed_at. rewrite lookup_empty. cbn. lia.
  - split_all; [by apply map_Forall_insert_2| |].
    + intros o' t. unfold delta_at. case_decide as D; [subst o'; by rewrite lookup_insert_eq|by rewrite lookup_insert_ne].
    + intros t. rewrite <- insert_delete_eq, total_insert by apply lookup_delete_eq. rewrite (total_delete d o t). lia.
Qed.

Lemma add_delta_spec d o t x :
  deltas_ok d -> signed_ok x ->
  deltas_ok (add_delta d o t x)
  /\ (forall o' t', delta_at (add_delta d o t x) o' t'
       = if decide (o' = o /\ t' = t) then clamp (delta_at d o t + signed_value x) else delta_at d o' t')
  /\ forall t', delta_total (add_delta d o t x) t' = delta_total d t'
       + if decide (t' = t) then clamp (delta_at d o t + signed_value x) - delta_at d o t else 0.
Proof.
  intros Hd Hx. unfold add_delta. rewrite is_zero_value by done.
  destruct (add_signed_spec (default ∅ (d !! o)) t x (entry_ok d o Hd) Hx) as [Hm Hv].
  destruct (Z.eqb_spec (signed_value x) 0) as [Hz|Hz].
  - assert (Hc : clamp (delta_at d o t + signed_value x) = delta_at d o t).
    { specialize (Hv t). rewrite decide_True in Hv by done. unfold add_signed in Hv.
      rewrite is_zero_value, Hz, Z.eqb_refl in Hv by done. rewrite Hz. by symmetry. }
    split_all; [done| |]; intros; rewrite ?Hc; case_decide; try done; try lia. destruct_and!. by subst.
  - fold (set_entry d o (add_signed (default ∅ (d !! o)) t x)).
    destruct (set_entry_spec d o _ Hd Hm) as (S1 & S2 & S3). split_all; [done| |].
    + intros o' t'. rewrite S2. destruct (decide (o' = o)) as [->|Ho]; [|by rewrite decide_False by tauto].
      rewrite Hv. destruct (decide (t' = t)) as [->|Ht]; [by rewrite decide_True|by rewrite decide_False by tauto].
    + intros t'. rewrite S3, Hv. unfold delta_at. case_decide; [subst; lia|lia].
Qed.

(** Adding a whole map of signed amounts. *)
Lemma add_all_spec l m :
  signed_map_ok m -> NoDup l.*1 -> Forall (fun e : SchemaAlkaneId * SignedU128 => signed_ok e.2) l ->
  let r := foldl (fun m x => add_signed m x.1 x.2) m l in
  signed_map_ok r /\ forall j, signed_at r j = clamp (signed_at m j + signed_at (list_to_map l) j).
Proof.
  assert (Hid : forall m j, signed_map_ok m -> clamp (signed_at m j) = signed_at m j).
  { intros m0 j H. unfold signed_at. destruct (m0 !! j) as [x|] eqn:E; [|done]. cbn [from_option].
    pose proof (signed_range x (proj1 (H _ _ E))). unfold clamp, u128_mod in *. lia. }
  revert m. induction l as [|[k x] l IH]; intros m Hm Hn Hl; cbn [foldl fst snd].
  { split; [done|]. intros j. unfold signed_at at 3. rewrite list_to_map_nil, lookup_empty. cbn [from_option].
    by rewrite Z.add_0_r, Hid. }
  apply NoDup_cons in Hn as [Hk Hn]. apply Forall_cons in Hl as [Hx Hl]. cbn in Hk, Hx.
  destruct (add_signed_spec m k x Hm Hx) as [Ha Hv]. destruct (IH _ Ha Hn Hl) as [I1 I2].
  split; [done|]. intros j. rewrite I2, Hv, list_to_map_cons. unfold signed_at at 3 5.
  case_decide as D; [subst j|by rewrite lookup_insert_ne].
  rewrite lookup_insert_eq, not_elem_of_list_to_map_1 by done. cbn [from_option]. unfold clamp, u128_mod. lia.
Qed.

Lemma btree_map_facts {V} (m : gmap SchemaAlkaneId V) :
  NoDup (btree_entries m).*1 /\ list_to_map (btree_entries m) = m /\ forall k v, (k, v) ∈ btree_entries m <-> m !! k = Some v.
Proof.
  pose proof (btree_entries_perm m) as Hp.
  assert (Hn : NoDup (btree_entries m).*1) by (rewrite Hp; apply NoDup_fst_map_to_list).
  split_all; [done| |].
  - rewrite (list_to_map_proper _ _ Hn Hp). apply list_to_map_to_list.
  - intros k v. rewrite Hp. apply elem_of_map_to_list.
Qed.

Lemma add_entries_spec m p :
  signed_map_ok m -> signed_map_ok p ->
  let r := foldl (fun m x => add_signed m x.1 x.2) m (btree_entries p) in
  signed_map_ok r /\ forall j, signed_at r j = clamp (signed_at m j + signed_at p j).
Proof.
  intros Hm Hp. destruct (btree_map_facts p) as (H1 & H2 & H3).
  pose proof (add_all_spec (btree_entries p) m Hm H1) as H. rewrite H2 in H. apply H.
  apply Forall_forall. intros [k x] Hx%H3. apply (Hp _ _ Hx).
Qed.

Definition merge_step (t : Deltas) (e : SchemaAlkaneId * gmap SchemaAlkaneId SignedU128) : Deltas :=
  let '(owner, per_token) := e in
  if bool_decide (per_token = ∅) then t
  else set_entry t owner (foldl (fun m x => add_signed m x.1 x.2) (default ∅ (t !! owner)) (btree_entries per_token)).

Lemma clamp_small z : Z.abs z < u128_mod -> clamp z = z.
Proof. unfold clamp, u128_mod. lia. Qed.

Lemma merge_step_spec acc o m :
  deltas_ok acc -> signed_map_ok m -> (forall t, Z.abs (delta_at acc o t) < u128_mod) ->
  deltas_ok (merge_step acc (o, m))
  /\ (forall o' t, delta_at (merge_step acc (o, m)) o' t
       = if decide (o' = o) then clamp (delta_at acc o t + signed_at m t) else delta_at acc o' t)
  /\ forall t, delta_total (merge_step acc (o, m)) t
       = delta_total acc t - delta_at acc o t + clamp (delta_at acc o t + signed_at m t).
Proof.
  intros Ha Hm Hr. unfold merge_step. case_bool_decide as E; [subst m|].
  - assert (Hz : forall t, clamp (delta_at acc o t + signed_at ∅ t) = delta_at acc o t).
    { intros t. unfold signed_at. rewrite lookup_empty. cbn [from_option]. rewrite Z.add_0_r. by apply clamp_small. }
    split_all; [done| |]; intros; rewrite Hz; [|lia]. case_decide; [by subst|done].
  - destruct (add_entries_spec (default ∅ (acc !! o)) m (entry_ok acc o Ha) Hm) as [E1 E2].
    destruct (set_entry_spec acc o _ Ha E1) as (S1 & S2 & S3). split_all; [done| |].
    + intros o' t. rewrite S2. case_decide; [apply E2|done].
    + intros t. rewrite S3, E2. done.
Qed.

Lemma delta_range d o t : deltas_ok d -> Z.abs (delta_at d o t) < u128_mod.
Proof.
  intros H. unfold delta_at, signed_at. destruct (default ∅ (d !! o) !! t) as [x|] eqn:E; [|done]. cbn [from_option].
  by apply signed_range, (entry_ok d o H t).
Qed.

Lemma merge_list_spec t l acc :
  deltas_ok acc -> NoDup l.*1 -> Forall (fun e : SchemaAlkaneId * gmap SchemaAlkaneId SignedU128 => signed_map_ok e.2) l ->
  (forall o m, (o, m) ∈ l -> Z.abs (delta_at acc o t + signed_at m t) < u128_mod) ->
  let r := foldl merge_step acc l in
  deltas_ok r /\ (forall o, delta_at r o t = delta_at acc o t + delta_at (list_to_map l) o t)
  /\ delta_total r t = delta_total acc t + foldr (fun e s => signed_at e.2 t + s) 0 l.
Proof.
  revert acc. induction l as [|[k m] l IH]; intros acc Ha Hn Hl Hb; cbn [foldl foldr snd].
  { split_all; [done| |lia]. intros o. unfold delta_at at 3. rewrite list_to_map_nil, lookup_empty. cbn.
    unfold signed_at. rewrite lookup_empty. cbn. lia. }
  apply NoDup_cons in Hn as [Hk Hn]. apply Forall_cons in Hl as [Hm Hl]. cbn in Hk, Hm.
  destruct (merge_step_spec acc k m Ha Hm ltac:(intros; by apply delta_range)) as (S1 & S2 & S3).
  pose proof (Hb k m ltac:(by left)) as Hkm.
  destruct (IH _ S1 Hn Hl) as (I1 & I2 & I3).
  { intros o p Hp. rewrite S2, decide_False; [apply Hb; by right|]. intros ->. apply Hk.
    apply list_elem_of_fmap. by exists (k, p). }
  split_all; [done| |rewrite I3, S3, clamp_small by done; lia].
  intros o. rewrite I2, S2, list_to_map_cons. unfold delta_at at 3 5. case_decide as D; [subst o|by rewrite lookup_insert_ne].
  rewrite lookup_insert_eq, not_elem_of_list_to_map_1 by done. cbn [from_option id]. rewrite clamp_small by done.
  unfold signed_at at 2. rewrite lookup_empty. cbn. lia.
Qed.

Lemma merge_spec t acc d V W :
  deltas_ok acc -> deltas_ok d -> (forall o, Z.abs (delta_at acc o t) <= V) -> (forall o, Z.abs (delta_at d o t) <= W) ->
  V + W < u128_mod ->
  deltas_ok (merge_deltas acc d) /\ (forall o, Z.abs (delta_at (merge_deltas acc d) o t) <= V + W)
  /\ delta_total (merge_deltas acc d) t = delta_total acc t + delta_total d t.
Proof.
  intros Ha Hd HV HW Hlt. unfold merge_deltas. change (foldl _ acc (map_to_list d)) with (foldl merge_step acc (map_to_list d)).
  destruct (merge_list_spec t (map_to_list d) acc Ha (NoDup_fst_map_to_list d)) as (H1 & H2 & H3).
  - apply Forall_forall. intros [o m] Hm%elem_of_map_to_list. apply (Hd _ _ Hm).
  - intros o m Hm%elem_of_map_to_list. specialize (HV o). specialize (HW o). unfold delta_at at 1 in HW.
    rewrite Hm in HW. cbn [from_option id] in HW. lia.
  - split_all; [done| |].
    + intros o. rewrite H2, list_to_map_to_list. specialize (HV o). specialize (HW o). lia.
    + rewrite H3. f_equal. unfold delta_total. rewrite map_fold_foldr. symmetry.
      assert (E : forall l : list (SchemaAlkaneId * gmap SchemaAlkaneId SignedU128),
        foldr (uncurry (fun _ m s => signed_at m t + s)) 0 l = foldr (fun e s => signed_at e.2 t + s) 0 l); [|apply E].
      induction l as [|[o m] l IH]; [done|]. cbn in *. by rewrite IH.
Qed.

(** ** Conservation *)

Section Token.
Context (t : SchemaAlkaneId).

(** The cells of the token are within [V], far from saturation. *)
Definition within (d : Deltas) (V : Z) : Prop := deltas_ok d /\ forall o, Z.abs (delta_at d o t) <= V.

(** The amounts of the token in a list. *)
Definition listed (l : list (SchemaAlkaneId * Z)) : Z :=
  foldr (fun e s => (if decide (e.1 = t) then e.2 else 0) + s) 0 l.
Definition sheet_at (m : gmap SchemaAlkaneId Z) : Z := default 0 (m !! t).
Definition sheet_pos (m : gmap SchemaAlkaneId Z) : Prop := map_Forall (fun _ a => 0 <= a) m.

Lemma listed_cons k a l : listed ((k, a) :: l) = (if decide (k = t) then a else 0) + listed l.
Proof. done. Qed.

Lemma listed_range l : Forall (fun e => 0 <= e.2) l -> 0 <= listed l.
Proof. induction 1 as [|[k a] l He _ IH]; [done|]. rewrite listed_cons. cbn in He. case_decide; lia. Qed.

Lemma listed_absent l : t ∉ l.*1 -> listed l = 0.
Proof.
  induction l as [|[k v] l IH]; [done|]. cbn [fmap list_fmap fst]. intros [H1 H2]%not_elem_of_cons.
  rewrite listed_cons, decide_False by congruence. by rewrite IH.
Qed.

Lemma listed_entries m : listed (btree_entries m) = sheet_at m.
Proof.
  destruct (btree_map_facts m) as (Hn & Hm & _). unfold sheet_at. rewrite <- Hm at 2. revert Hn.
  generalize (btree_entries m) as l. induction l as [|[k v] l IH]; [done|]. cbn [fmap list_fmap fst].
  intros [Hk Hn]%NoDup_cons. rewrite listed_cons, list_to_map_cons.
  case_decide as D; [subst k|rewrite lookup_insert_ne by done; by apply IH].
  rewrite lookup_insert_eq, listed_absent by done. cbn. lia.
Qed.

Lemma entries_pos m : sheet_pos m -> Forall (fun e => 0 <= e.2) (btree_entries m).
Proof.
  intros H. apply Forall_forall. intros [k v] Hk. apply (proj2 (proj2 (btree_map_facts m))) in Hk. apply (H _ _ Hk).
Qed.

Lemma amount_signed neg a : in_amount a -> signed_ok (from_parts neg a) /\ signed_value (from_parts neg a) = if neg then - a else a.
Proof. intros H. split; [by apply from_parts_ok|by apply from_parts_value, H]. Qed.

(** One addition to one cell. *)
Lemma within_add d V o k x a :
  within d V -> signed_ok x -> Z.abs (signed_value x) <= a -> V + (if decide (k = t) then a else 0) < u128_mod ->
  within (add_delta d o k x) (V + if decide (k = t) then a else 0)
  /\ delta_total (add_delta d o k x) t = delta_total d t + (if decide (k = t) then signed_value x else 0)
  /\ (k = t -> forall o', delta_at (add_delta d o k x) o' t = delta_at d o' t + if decide (o' = o) then signed_value x else 0).
Proof.
  intros [Hd HV] Hx Ha Hlt. destruct (add_delta_spec d o k x Hd Hx) as (A1 & A2 & A3).
  destruct (decide (k = t)) as [->|Hk].
  - assert (Hc : clamp (delta_at d o t + signed_value x) = delta_at d o t + signed_value x).
    { apply clamp_small. specialize (HV o). lia. }
    assert (Hcell : forall o', delta_at (add_delta d o t x) o' t = delta_at d o' t + if decide (o' = o) then signed_value x else 0).
    { intros o'. rewrite A2, Hc. destruct (decide (o' = o)) as [->|Ho]; [by rewrite decide_True|].
      rewrite decide_False by (intros []; congruence). lia. }
    split_all; [split; [done|]| |done].
    + intros o'. rewrite Hcell. specialize (HV o'). case_decide; lia.
    + rewrite A3, decide_True, Hc by done. lia.
  - split_all; [split; [done|]| |done].
    + intros o'. rewrite A2, decide_False by (intros []; congruence). specialize (HV o'). lia.
    + rewrite A3, decide_False by congruence. lia.
Qed.

Definition here {A} (x : option A) : Z := match x with Some _ => 1 | None => 0 end.

(** The intermediate states of a transfer stay within the amount moved. *)
Lemma transfer_within d V from to k a :
  within d V -> in_amount a -> V + (if decide (k = t) then a else 0) < u128_mod ->
  within (apply_transfer d from to k a) (V + if decide (k = t) then a else 0)
  /\ delta_total (apply_transfer d from to k a) t
     = delta_total d t + (if decide (k = t) then a * (here to - here from) else 0).
Proof.
  intros Hd Ha Hlt. destruct (amount_signed true a Ha) as [N1 N2]. destruct (amount_signed false a Ha) as [P1 P2].
  unfold apply_transfer, su_negative, su_positive, in_amount in *. destruct (Z.eqb_spec a 0) as [->|Hne].
  { destruct (decide (k = t)); rewrite ?Z.add_0_r; split; try done; lia. }
  destruct from as [o1|], to as [o2|]; cbn [here].
  - destruct (within_add d V o1 k _ a Hd N1 ltac:(lia) Hlt) as (A1 & A2 & A3).
    destruct (add_delta_spec _ o2 k _ (proj1 A1) P1) as (B1 & B2 & B3).
    destruct (decide (k = t)) as [->|Hk].
    + specialize (A3 eq_refl). destruct Hd as [Hd HV].
      assert (Hc : clamp (delta_at (add_delta d o1 t (from_parts true a)) o2 t + signed_value (from_parts false a))
        = delta_at (add_delta d o1 t (from_parts true a)) o2 t + signed_value (from_parts false a)).
      { apply clamp_small. rewrite A3, N2, P2. specialize (HV o2). case_decide; lia. }
      split; [split; [done|]|].
      * intros o'. rewrite B2, Hc. specialize (HV o'). destruct (decide (o' = o2)) as [->|Ho];
          [rewrite decide_True by done|rewrite decide_False by (intros []; congruence)]; rewrite A3, N2, ?P2; case_decide; lia.
      * rewrite B3, decide_True, Hc, A2, N2, P2 by done. lia.
    + split; [split; [done|]|].
      * intros o'. rewrite B2, decide_False by (intros []; congruence). apply A1.
      * rewrite B3, decide_False, A2 by congruence. lia.
  - destruct (within_add d V o1 k _ a Hd N1 ltac:(lia) Hlt) as (A1 & A2 & _). split; [done|].
    rewrite A2, N2. destruct (decide (k = t)); lia.
  - destruct (within_add d V o2 k _ a Hd P1 ltac:(lia) Hlt) as (A1 & A2 & _). split; [done|].
    rewrite A2, P2. destruct (decide (k = t)); lia.
  - destruct Hd as [Hd HV]. split; [split; [done|]|]; [intros o; specialize (HV o)|]; destruct (decide (k = t)); lia.
Qed.

Lemma transfers_within l from to : forall d V,
  within d V -> Forall (fun e => in_amount e.2) l -> V + listed l < u128_mod ->
  let r := foldl (fun d e => apply_transfer d from to e.1 e.2) d l in
  within r (V + listed l) /\ delta_total r t = delta_total d t + listed l * (here to - here from).
Proof.
  induction l as [|[k a] l IH]; intros d V Hd Hl Hlt; cbn [foldl fst snd].
  { change (listed []) with 0. rewrite Z.add_0_r. split; [done|lia]. }
  apply Forall_cons in Hl as [Ha Hl]. cbn in Ha.
  assert (H0 : 0 <= listed l). { apply listed_range. eapply Forall_impl; [exact Hl|]. intros e He. apply He. }
  rewrite listed_cons in Hlt |- *.
  destruct (transfer_within d V from to k a Hd Ha ltac:(lia)) as [T1 T2].
  destruct (IH _ _ T1 Hl ltac:(lia)) as [I1 I2]. split; [by rewrite Z.add_assoc|].
  rewrite I2, T2. destruct (decide (k = t)); lia.
Qed.

(** A root that is not the token pays all of it. *)
Lemma cancel_within d V o k a :
  within d V -> in_amount a -> V + (if decide (k = t) then a else 0) < u128_mod ->
  let r := cancel_positive_delta d o k a in
  0 <= r.1 <= a /\ within r.2 (V + if decide (k = t) then r.1 else 0)
  /\ delta_total r.2 t = delta_total d t - if decide (k = t) then r.1 else 0.
Proof.
  intros Hd Ha Hlt. unfold cancel_positive_delta. cbn [fst snd].
  set (available := match _ with Some delta => _ | None => 0 end).
  assert (Hav : 0 <= available).
  { unfold available. destruct (d !! o) as [m|] eqn:E; cbn [mbind option_bind]; [|done].
    destruct (m !! k) as [x|] eqn:Ex; [|done]. unfold as_parts. destruct (is_negative x); [done|].
    apply (proj1 Hd _ _ E _ _ Ex). }
  unfold in_amount in Ha. split; [lia|]. destruct (Z.ltb_spec 0 (Z.min available a)) as [Hp|Hp].
  - destruct (amount_signed true (Z.min available a)) as [N1 N2]; [unfold in_amount; lia|].
    destruct (within_add d V o k _ (Z.min available a) Hd N1 ltac:(lia)) as (A1 & A2 & _); [destruct (decide (k = t)); lia|].
    split; [done|]. unfold su_negative. rewrite A2, N2. destruct (decide (k = t)); lia.
  - assert (Z.min available a = 0) as -> by lia. destruct (decide (k = t)); rewrite Z.add_0_r; split; try done; lia.
Qed.

Lemma pay_out_step_within d c V o k a :
  o <> t -> within d V -> in_amount a -> V + (if decide (k = t) then a else 0) < u128_mod ->
  let r := pay_out_step o (d, c) (k, a) in
  within r.1 (V + if decide (k = t) then a else 0)
  /\ delta_total r.1 t = delta_total d t - if decide (k = t) then a else 0.
Proof.
  intros Ho Hd Ha Hlt. unfold pay_out_step. cbn [fst snd].
  pose proof (cancel_within d V o k a Hd Ha Hlt) as (C1 & C2 & C3).
  destruct (cancel_positive_delta d o k a) as [x d1]. cbn [fst snd] in *. unfold u128_sat_sub.
  rewrite (Z.max_r 0 (a - x)) by lia. unfold in_amount in Ha.
  destruct (Z.ltb_spec 0 (a - x)) as [Hp|Hp]; cbn [andb].
  - case_bool_decide as D; cbn [negb fst snd].
    + subst k. destruct C2 as [C2 C2']. rewrite !decide_False in * by done.
      rewrite Z.add_0_r in *. split; [by split|lia].
    + destruct (amount_signed true (a - x)) as [N1 N2]; [unfold in_amount; lia|].
      destruct (within_add d1 _ o k _ (a - x) C2 N1 ltac:(lia)) as (A1 & A2 & _); [destruct (decide (k = t)); lia|].
      unfold su_negative. rewrite A2, N2. destruct (decide (k = t)).
      * split; [|lia]. destruct A1 as [A1 A1']. split; [done|]. intros o'. specialize (A1' o'). lia.
      * split; [|lia]. by rewrite !Z.add_0_r in *.
  - assert (x = a) as -> by lia. done.
Qed.

Lemma pay_out_within l o : forall d c V,
  o <> t -> within d V -> Forall (fun e => in_amount e.2) l -> V + listed l < u128_mod ->
  let r := foldl (pay_out_step o) (d, c) l in
  within r.1 (V + listed l) /\ delta_total r.1 t = delta_total d t - listed l.
Proof.
  induction l as [|[k a] l IH]; intros d c V Ho Hd Hl Hlt; cbn [foldl].
  { change (listed []) with 0. rewrite Z.add_0_r. split; [done|cbn [fst]; lia]. }
  apply Forall_cons in Hl as [Ha Hl]. cbn in Ha.
  assert (H0 : 0 <= listed l). { apply listed_range. eapply Forall_impl; [exact Hl|]. intros e He. apply He. }
  rewrite listed_cons in Hlt |- *. pose proof (pay_out_step_within d c V o k a Ho Hd Ha ltac:(lia)) as [S1 S2].
  destruct (pay_out_step o (d, c) (k, a)) as [d1 c1]. cbn [fst] in S1, S2.
  destruct (IH d1 c1 _ Ho S1 Hl ltac:(lia)) as [I1 I2]. split; [by rewrite Z.add_assoc|]. rewrite I2, S2. lia.
Qed.

(** The sheets of a trace hold amounts. *)
Lemma sheet_amounts ts : map_Forall (fun _ => in_amount) (transfers_to_sheet ts).
Proof.
  unfold transfers_to_sheet.
  assert (H : forall m, map_Forall (fun _ => in_amount) m -> map_Forall (fun _ => in_amount) (foldl (fun m t =>
    match transfer_parts t with Some (k, val) => if val =? 0 then m else sheet_credit m k val | None => m end) m ts)).
  { induction ts as [|x ts IH]; intros m Hm; [done|]. cbn [foldl]. apply IH.
    destruct (transfer_parts x) as [[k v]|] eqn:E; [|done]. destruct (Z.eqb_spec v 0) as [|Hv]; [done|].
    apply map_Forall_insert_2; [|done]. apply sat_add_range.
    - destruct (m !! k) as [u|] eqn:Eu; [apply (Hm _ _ Eu)|done].
    - revert E. unfold transfer_parts. repeat case_match; try done. intros [= <- <-].
      by eapply parse_hex_u128_range. }
  apply H, map_Forall_empty.
Qed.

Lemma entries_amounts ts : Forall (fun e => in_amount e.2) (btree_entries (transfers_to_sheet ts)).
Proof.
  apply Forall_forall. intros [k v] Hk. apply (proj2 (proj2 (btree_map_facts _))) in Hk. apply (sheet_amounts _ _ _ Hk).
Qed.

Lemma sheet_at_pos ts : 0 <= sheet_at (transfers_to_sheet ts).
Proof.
  rewrite <- listed_entries. apply listed_range. eapply Forall_impl; [apply entries_amounts|]. intros e He. apply He.
Qed.

(** A frame that returned. *)
Lemma settle_within parent o ins ret d c V :
  (parent = None -> o <> t) -> within d V ->
  V + sheet_at (transfers_to_sheet ins) + sheet_at (call_out ret) < u128_mod ->
  let r := settle parent o (transfers_to_sheet ins) ret d c in
  within r.1 (V + sheet_at (transfers_to_sheet ins) + sheet_at (call_out ret))
  /\ delta_total r.1 t = delta_total d t
     + match parent with Some _ => 0 | None => sheet_at (transfers_to_sheet ins) - sheet_at (call_out ret) end.
Proof.
  intros Ho Hd Hlt. unfold settle. fold (call_out ret). pose proof (sheet_at_pos ins) as H1.
  pose proof (sheet_at_pos (alkanes (response ret))) as H2. fold (call_out ret) in H2.
  destruct (transfers_within (btree_entries (transfers_to_sheet ins)) parent (Some o) d V Hd (entries_amounts ins))
    as [C1 C2]; [rewrite listed_entries; lia|]. fold (credit_incoming parent o (transfers_to_sheet ins) d) in C1, C2.
  rewrite listed_entries in C1, C2. destruct parent as [p|]; cbn [here] in C2.
  - destruct (transfers_within (btree_entries (call_out ret)) (Some o) (Some p) _ _ C1 (entries_amounts _)) as [P1 P2];
      [rewrite listed_entries; lia|]. cbn [fst]. unfold pay_parent. rewrite listed_entries in P1, P2. split; [done|].
    rewrite P2, C2. cbn [here]. lia.
  - unfold pay_out.
    destruct (pay_out_within (btree_entries (call_out ret)) o _ c _ (Ho eq_refl) C1 (entries_amounts _)) as [P1 P2];
      [rewrite listed_entries; lia|]. rewrite listed_entries in P1, P2. split; [done|]. rewrite P2, C2. lia.
Qed.

(** All that moves in a forest. *)
Fixpoint volume (f : forest) : Z :=
  match f with
  | FNil => 0
  | FCreate _ rest => volume rest
  | FCall inv body ret rest => volume body + sheet_at (call_in inv) + sheet_at (call_out ret) + volume rest
  end.

(** What the calls without a normal caller receive and give. *)
Fixpoint net (f : forest) : Z :=
  match f with
  | FNil => 0
  | FCreate _ rest => net rest
  | FCall inv body ret rest =>
      (if dropped inv ret then 0
       else (if bool_decide (frame_kind (typ inv) = FNormal) then 0 else net body)
            + sheet_at (call_in inv) - sheet_at (call_out ret))
      + net rest
  end.

(** None of them is the contract of the token. *)
Fixpoint foreign (f : forest) : Prop :=
  match f with
  | FNil => True
  | FCreate _ rest => foreign rest
  | FCall inv body ret rest =>
      call_owner inv <> Some t /\ (frame_kind (typ inv) = FNormal \/ foreign body) /\ foreign rest
  end.

Lemma volume_pos f : 0 <= volume f.
Proof.
  induction f as [|id rest IH|inv body IHb ret rest IHr]; cbn [volume]; [done|done|].
  pose proof (sheet_at_pos (incoming_alkanes (context inv))). pose proof (sheet_at_pos (alkanes (response ret))).
  unfold call_in, call_out. lia.
Qed.

Lemma within_empty : within ∅ 0.
Proof. split; [apply map_Forall_empty|]. intros o. unfold delta_at, signed_at. by rewrite lookup_empty. Qed.

Lemma within_weaken d V W : within d V -> V <= W -> within d W.
Proof. intros [H1 H2] H. split; [done|]. intros o. specialize (H2 o). lia. Qed.

Lemma eval_within f : forall parent acc c V,
  owned f -> (parent = None -> foreign f) -> within acc V -> V + volume f < u128_mod ->
  let r := eval parent f acc c in
  within r.1 (V + volume f)
  /\ delta_total r.1 t = delta_total acc t + match parent with Some _ => 0 | None => net f end.
Proof.
  induction f as [|id rest IH|inv body IHb ret rest IHr]; intros parent acc c V Hown Hfor Ha Hlt.
  - cbn. rewrite Z.add_0_r. split; [done|]. destruct parent; lia.
  - cbn [eval volume net] in *. by apply IH.
  - destruct Hown as ([o Eo] & Hb & Hr). cbn [eval volume net] in *. rewrite Eo.
    pose proof (volume_pos body). pose proof (volume_pos rest). pose proof (proj2 Ha t) as HV.
    pose proof (sheet_at_pos (incoming_alkanes (context inv))) as Hi. fold (call_in inv) in Hi.
    pose proof (sheet_at_pos (alkanes (response ret))) as Hu. fold (call_out ret) in Hu.
    assert (Hrest : forall acc' c' W, within acc' W -> W + volume rest < u128_mod ->
      let r := eval parent rest acc' c' in within r.1 (W + volume rest)
      /\ delta_total r.1 t = delta_total acc' t + match parent with Some _ => 0 | None => net rest end).
    { intros acc' c' W H1 H2. apply IHr; try done. intros Hp. by destruct (Hfor Hp) as (_ & _ & ?). }
    destruct (IHb (inner_parent inv o parent) ∅ c 0 Hb) as [B1 B2]; [|apply within_empty|lia|].
    { intros Hp. unfold inner_parent in Hp. case_bool_decide; [done|]. destruct (Hfor Hp) as (_ & [?|?] & _); [done|done]. }
    destruct (eval (inner_parent inv o parent) body ∅ c) as [d c1]. cbn [fst] in B1, B2.
    destruct (dropped inv ret) eqn:Hdr.
    { destruct (Hrest acc c1 V Ha ltac:(lia)) as [R1 R2]. split; [eapply within_weaken; [exact R1|lia]|].
      rewrite R2. by destruct parent. }
    destruct (settle_within parent o (incoming_alkanes (context inv)) ret d c1 (0 + volume body)) as [S1 S2];
      [|done|fold (call_in inv); lia|].
    { intros Hp. destruct (Hfor Hp) as (Hne & _). congruence. }
    fold (call_in inv) in S1, S2. destruct (settle parent o (call_in inv) ret d c1) as [d' c2]. cbn [fst] in S1, S2.
    destruct (merge_spec t acc d' V _ (proj1 Ha) (proj1 S1) (proj2 Ha) (proj2 S1) ltac:(lia)) as (M1 & M2 & M3).
    destruct (Hrest (merge_deltas acc d') c2 _ (conj M1 M2) ltac:(lia)) as [R1 R2].
    split; [eapply within_weaken; [exact R1|lia]|]. rewrite R2, M3, S2, B2. unfold inner_parent.
    change (delta_total ∅ t) with 0. destruct parent; case_bool_decide; lia.
Qed.

End Token.
