(* ===== verification/AlkFlow.v ===== *)
(** * Sources through a trace

    [trace_source_flow], [trace_root_owner] and [final_trace_return_sources] of
    [src/modules/essentials/utils/balances/lib.rs]: which address or contract the
    amounts that a trace returns came from, and which addresses sent to which
    contracts.  The stack is the [Vec] of the code, its top last, because frames
    reach into their nearest normal parent by index. *)
From Stdlib Require Import Strings.Byte.
From stdpp Require Import strings.
From S2P Require Import Prelude Bytes RunesTransfer RunesStore RunesChain RunesInscriptions.
From S2P Require Import AlkTrace AlkSheets AlkDeltas.
From stdpp Require Import options.

Open Scope Z_scope.

Record FlowFrame := mkFlowFrame {
  ff_kind : FrameKind;
  ff_owner : SchemaAlkaneId;
  parent_normal_index : option nat;
  ff_incoming : gmap SchemaAlkaneId (list (AttributionSource * Z));
  held_sources : gmap SchemaAlkaneId (list (AttributionSource * Z));
}.

Definition set_held (h : SourcedSheet) (f : FlowFrame) : FlowFrame :=
  mkFlowFrame (ff_kind f) (ff_owner f) (parent_normal_index f) (ff_incoming f) h.

Record TraceSourceFlow := mkFlow {
  returned : gmap SchemaAlkaneId (list (AttributionSource * Z));
  flow_send_contracts : gmap bytes (gmap (SchemaAlkaneId * SchemaAlkaneId) Z);
}.

Record FlowState := mkFlowState {
  fs_stack : list FlowFrame;
  top_sources : gmap SchemaAlkaneId (list (AttributionSource * Z));
  fs_out : TraceSourceFlow;
}.

(** [rposition] *)
Fixpoint nearest_normal_index_from (i : nat) (acc : option nat) (stack : list FlowFrame) : option nat :=
  match stack with
  | [] => acc
  | f :: stack' => nearest_normal_index_from (S i) (if bool_decide (ff_kind f = FNormal) then Some i else acc) stack'
  end.
Definition nearest_normal_index (stack : list FlowFrame) : option nat := nearest_normal_index_from 0 None stack.

(** The queue of an amount; what is missing comes from [owner]. *)
Definition top_up (sources : SourceAmounts) (owner : SchemaAlkaneId) (a : Z) : SourceAmounts :=
  let total := source_amounts_total sources in
  if total <? a then add_source_amount sources (SContract owner) (a - total) else sources.

(** One token that enters a call: from the nearest normal parent, or from outside. *)
Definition take_incoming (parent_idx : option nat) (acc : SourcedSheet * FlowState) (e : SchemaAlkaneId * Z)
    : SourcedSheet * FlowState :=
  let '(inc, st) := acc in
  match parent_idx ≫= fun i => (i,.) <$> fs_stack st !! i with
  | Some (i, parent) =>
      let '(sources, h) := take_sources_from_sheet (held_sources parent) e.1 e.2 in
      (add_sources_to_sheet inc e.1 (top_up sources (ff_owner parent) e.2),
       mkFlowState (<[i := set_held h parent]> (fs_stack st)) (top_sources st) (fs_out st))
  | None =>
      let '(sources, top) := take_sources_from_sheet (top_sources st) e.1 e.2 in
      (add_sources_to_sheet inc e.1 sources, mkFlowState (fs_stack st) top (fs_out st))
  end.

Definition flow_invoke (inv : EspoSandshrewLikeTraceInvokeData) (st : FlowState) : option FlowState :=
  owner ← parse_short_id (myself (context inv));
  let in_static_subtree := existsb (fun f => bool_decide (ff_kind f = FStatic)) (fs_stack st) in
  let k := if in_static_subtree then FStatic else frame_kind (typ inv) in
  let parent_idx := nearest_normal_index (fs_stack st) in
  let '(inc, st1) :=
    match k with
    | FStatic => (∅, st)
    | _ => foldl (take_incoming parent_idx) (∅, st) (btree_entries (transfers_to_sheet (incoming_alkanes (context inv))))
    end in
  Some (mkFlowState (fs_stack st1 ++ [mkFlowFrame k owner parent_idx inc inc]) (top_sources st1) (fs_out st1)).

(** One token that leaves a call. *)
Definition take_outgoing (owner : SchemaAlkaneId) (acc : SourcedSheet * SourcedSheet) (e : SchemaAlkaneId * Z)
    : SourcedSheet * SourcedSheet :=
  let '(ret, h) := acc in
  let '(sources, h') := take_sources_from_sheet h e.1 e.2 in
  (add_sources_to_sheet ret e.1 (top_up sources owner e.2), h').

(** What a call keeps was sent to it by the addresses it came from. *)
Definition keep_sends (owner : SchemaAlkaneId) (h : SourcedSheet) (send : AddressContractAmounts) : AddressContractAmounts :=
  foldl (fun m e =>
    foldl (fun m s =>
      match s.1 with
      | SAddress address => add_address_contract_amount m address owner e.1 s.2
      | SContract _ => m
      end) m e.2) send (btree_entries h).

Definition merge_held (i : nat) (sheet : SourcedSheet) (stack : list FlowFrame) : list FlowFrame :=
  alter (fun f => set_held (merge_sourced_sheet (held_sources f) sheet) f) i stack.

Definition flow_return (ret : EspoSandshrewLikeTraceReturnData) (st : FlowState) : option FlowState :=
  frame ← last (fs_stack st);
  let stack := take (length (fs_stack st) - 1) (fs_stack st) in
  if bool_decide (ff_kind frame = FStatic) then Some (mkFlowState stack (top_sources st) (fs_out st))
  else if bool_decide (status ret = Failure) then
    Some (mkFlowState
      (match parent_normal_index frame with Some i => merge_held i (ff_incoming frame) stack | None => stack end)
      (top_sources st) (fs_out st))
  else
    let '(r, h) := foldl (take_outgoing (ff_owner frame)) (∅, held_sources frame)
                     (btree_entries (transfers_to_sheet (alkanes (response ret)))) in
    let send := keep_sends (ff_owner frame) h (flow_send_contracts (fs_out st)) in
    match parent_normal_index frame with
    | Some i => Some (mkFlowState (merge_held i r stack) (top_sources st) (mkFlow (returned (fs_out st)) send))
    | None => Some (mkFlowState stack (top_sources st) (mkFlow (merge_sourced_sheet (returned (fs_out st)) r) send))
    end.

Fixpoint flow_loop (evs : list EspoSandshrewLikeTraceEvent) (st : FlowState) : option FlowState :=
  match evs with
  | [] => Some st
  | Invoke inv :: evs' => st' ← flow_invoke inv st; flow_loop evs' st'
  | Return ret :: evs' => st' ← flow_return ret st; flow_loop evs' st'
  | Create _ :: evs' => flow_loop evs' st
  end.

Section Flow.
Context {crates : TraceCrates}.

Definition trace_source_flow (trace : EspoSandshrewLikeTrace) (incoming_sources : SourcedSheet)
    (host : EspoHostFunctionValues) : option TraceSourceFlow :=
  trace ← clean_espo_sandshrew_like_trace trace host;
  st ← flow_loop (events trace) (mkFlowState [] incoming_sources (mkFlow ∅ ∅));
  match fs_stack st with [] => Some (fs_out st) | _ => None end.

Fixpoint first_owner (evs : list EspoSandshrewLikeTraceEvent) : option SchemaAlkaneId :=
  match evs with
  | [] => None
  | Invoke inv :: evs' =>
      match parse_short_id (myself (context inv)) with Some o => Some o | None => first_owner evs' end
  | _ :: evs' => first_owner evs'
  end.

Definition trace_root_owner (trace : EspoSandshrewLikeTrace) (host : EspoHostFunctionValues) : option SchemaAlkaneId :=
  first_owner (match clean_espo_sandshrew_like_trace trace host with Some t => events t | None => events trace end).

End Flow.

Definition final_trace_return_sources (root_owner : SchemaAlkaneId) (incoming_sources : SourcedSheet)
    (net_out : ProjectionSheet) : SourcedSheet :=
  (foldl (fun '(out, inc) e =>
    if e.2 =? 0 then (out, inc)
    else
      let '(sources, inc') := take_sources_from_sheet inc e.1 e.2 in
      (add_sources_to_sheet out e.1 (top_up sources root_owner e.2), inc')) (∅, incoming_sources) (btree_entries net_out)).1.
