(* ===== verification/AlkTransfer.v ===== *)
(** * Routing alkanes through the protostones of a transaction

    [apply_transfers_multi_attributed] of [src/modules/essentials/utils/balances/lib.rs]
    and its helpers: every protostone has a sheet, filled by what was routed to it, by
    the inputs of the transaction or by its trace; edicts and the pointer route it to
    outputs, to all of them, or to a later protostone.

    [Protostone] is data of the [protorune_support] crate, restricted to the fields the
    source reads.  The projector of the mempool is the trait
    [MempoolContractProjector]: a state with two calls. *)
From Stdlib Require Import Strings.Byte.
From stdpp Require Import strings.
From S2P Require Import Prelude Bytes RunesTransfer RunesStore RunesChain RunesInscriptions.
From S2P Require Import AlkTrace AlkSheets AlkDeltas AlkFlow.
From stdpp Require Import options.

Open Scope Z_scope.

Definition ALKANES_V217_EDICT_FIX_HEIGHT : Z := 943500.

(** ** Data *)

Record ProtoruneRuneId := mkProtoId { pr_block : Z; pr_tx : Z }.
Record ProtostoneEdict := mkProtoEdict { pe_id : ProtoruneRuneId; pe_amount : Z; pe_output : Z }.
Record Protostone := mkProtostone { ps_edicts : list ProtostoneEdict; ps_pointer : option Z; ps_refund : option Z }.

Record BalanceEntry := mkBalanceEntry { be_alkane : SchemaAlkaneId; be_amount : Z }.

Record EspoTrace := mkEspoTrace { sandshrew_trace : EspoSandshrewLikeTrace; et_vout : Z }.

Record TransferApplication := mkApplication {
  allocations : gmap Z (list BalanceEntry);
  send_contracts : gmap bytes (gmap (SchemaAlkaneId * SchemaAlkaneId) Z);
  receive_contracts_by_vout : gmap Z (gmap (SchemaAlkaneId * SchemaAlkaneId) Z);
}.

(** [is_op_return] of [utils.rs]: the first byte of the script. *)
Definition spk_is_op_return (spk : bytes) : bool :=
  match spk with b :: _ => b2z b =? OP_RETURN | [] => false end.
Definition tx_has_op_return (tx : Transaction) : bool := existsb (fun o => spk_is_op_return (script_pubkey o)) (output tx).

Definition u128_to_u32 (v : Z) : option Z := if v <? 2 ^ 32 then Some v else None.
Definition u128_to_u64 (v : Z) : option Z := if v <? 2 ^ 64 then Some v else None.
Definition schema_id_from_parts (block tx : Z) : option SchemaAlkaneId :=
  b ← u128_to_u32 block; t ← u128_to_u64 tx; Some (mkAlkaneId b t).

(** The indices of a transaction: outputs, then one for all of them, then the protostones. *)
Record Layout := mkLayout {
  ly_tx : Transaction;
  spendable_vouts : list Z;
  n_outputs : Z;
  multicast_index : Z;
  shadow_base : Z;
  shadow_end : Z;
}.

Fixpoint spendable_from (i : Z) (outs : list TxOut) : list Z :=
  match outs with
  | [] => []
  | o :: outs' =>
      if spk_is_op_return (script_pubkey o) then spendable_from (i + 1) outs' else i :: spendable_from (i + 1) outs'
  end.

(** [as u32] truncates; the sums wrap. *)
Definition layout_of (tx : Transaction) (n_protostones : nat) : Layout :=
  let n := Z.of_nat (length (output tx)) mod 2 ^ 32 in
  let base := Z.min (2 ^ 32 - 1) (n + 1) in
  mkLayout tx (spendable_from 0 (output tx)) n n base ((base + Z.of_nat n_protostones mod 2 ^ 32 - 1) mod 2 ^ 32).

(** The virtual output of protostone [i]. *)
Definition shadow_index (ly : Layout) (i : nat) : Z := (shadow_base ly + Z.of_nat i mod 2 ^ 32) mod 2 ^ 32.

Definition is_valid_spend_vout (tx : Transaction) (vout : Z) : bool :=
  match output tx !! Z.to_nat vout with Some o => negb (spk_is_op_return (script_pubkey o)) | None => false end.

(** Where amounts have gone so far. *)
Record Routing := mkRouting {
  out_map : gmap Z (list BalanceEntry);
  receives : gmap Z (gmap (SchemaAlkaneId * SchemaAlkaneId) Z);
  incoming_shadow : list (gmap SchemaAlkaneId Z);
  incoming_shadow_sources : list (gmap SchemaAlkaneId (list (AttributionSource * Z)));
}.

(** ** Routing *)

Definition push_entry (vout : Z) (rid : SchemaAlkaneId) (a : Z) (m : gmap Z (list BalanceEntry)) : gmap Z (list BalanceEntry) :=
  <[vout := default [] (m !! vout) ++ [mkBalanceEntry rid a]]> m.

Definition push_to_vout (m : gmap Z (list BalanceEntry)) (vout : Z) (delta : ProjectionSheet) : gmap Z (list BalanceEntry) :=
  if bool_decide (delta = ∅) then m
  else <[vout := foldl (fun e x => if 0 <? x.2 then e ++ [mkBalanceEntry x.1 x.2] else e)
                   (default [] (m !! vout)) (btree_entries delta)]> m.

Definition push_sources_to_vout (m : gmap Z (gmap (SchemaAlkaneId * SchemaAlkaneId) Z)) (vout : Z) (source_delta : SourcedSheet)
    : gmap Z (gmap (SchemaAlkaneId * SchemaAlkaneId) Z) :=
  foldl (fun m e => <[vout := add_contract_receives_from_sources (default ∅ (m !! vout)) e.1 e.2]> m)
    m (btree_entries source_delta).

(** An amount of one token and its sources, to an output. *)
Definition deliver (vout : Z) (rid : SchemaAlkaneId) (a : Z) (sources : SourceAmounts) (r : Routing) : Routing :=
  mkRouting (push_entry vout rid a (out_map r))
    (push_sources_to_vout (receives r) vout (add_sources_to_sheet ∅ rid sources))
    (incoming_shadow r) (incoming_shadow_sources r).

(** The share of every spendable output in one token. *)
Fixpoint split_shares (rid : SchemaAlkaneId) (per rem i : Z) (vouts : list Z) (source_delta : SourcedSheet) (r : Routing)
    : SourcedSheet * Routing :=
  match vouts with
  | [] => (source_delta, r)
  | v :: vouts' =>
      let amt := if i <? rem then u128_sat_add per 1 else per in
      if amt =? 0 then split_shares rid per rem (i + 1) vouts' source_delta r
      else
        let '(sources, sd) := take_sources_from_sheet source_delta rid amt in
        split_shares rid per rem (i + 1) vouts' sd (deliver v rid amt sources r)
  end.

Definition multicast_token (vouts : list Z) (acc : SourcedSheet * Routing) (e : SchemaAlkaneId * Z) : SourcedSheet * Routing :=
  let '(sd, r) := acc in
  if e.2 =? 0 then (sd, r)
  else
    let m := Z.of_nat (length vouts) in
    split_shares e.1 (e.2 / m) (e.2 mod m) 0 vouts sd r.

Definition route_delta (ly : Layout) (target : Z) (delta : ProjectionSheet) (source_delta : SourcedSheet) (r : Routing)
    : Routing :=
  if bool_decide (delta = ∅) then r
  else if target =? multicast_index ly then
    if bool_decide (spendable_vouts ly = []) then r
    else (foldl (multicast_token (spendable_vouts ly)) (source_delta, r) (btree_entries delta)).2
  else if target <? n_outputs ly then
    if negb (is_valid_spend_vout (ly_tx ly) target) then r
    else mkRouting (push_to_vout (out_map r) target delta) (push_sources_to_vout (receives r) target source_delta)
           (incoming_shadow r) (incoming_shadow_sources r)
  else if (shadow_base ly <=? target) && (target <=? shadow_end ly) then
    let idx := Z.to_nat (target - shadow_base ly) in
    mkRouting (out_map r) (receives r)
      (alter (fun sheet => foldl (fun s x => if x.2 =? 0 then s else sheet_credit s x.1 x.2) sheet (btree_entries delta))
         idx (incoming_shadow r))
      (alter (fun s => merge_sourced_sheet s source_delta) idx (incoming_shadow_sources r))
  else r.

(** ** Edicts *)

(** The sheet of a protostone, its sources and the routing. *)
Record EdictState := mkEdictState {
  es_sheet : gmap SchemaAlkaneId Z;
  es_sources : gmap SchemaAlkaneId (list (AttributionSource * Z));
  es_routing : Routing;
}.

(** [*entry = entry.saturating_sub(used); if *entry == 0 { sheet.remove(&rid); }] *)
Definition sheet_debit (sheet : ProjectionSheet) (rid : SchemaAlkaneId) (used : Z) : ProjectionSheet :=
  let e := u128_sat_sub (default 0 (sheet !! rid)) used in
  if e =? 0 then delete rid sheet else <[rid := e]> sheet.

(** Up to [cap] for every output while the balance lasts: what was used. *)
Fixpoint capped_walk (rid : SchemaAlkaneId) (cap remaining used : Z) (vouts : list Z) (source_sheet : SourcedSheet)
    (r : Routing) : Z * SourcedSheet * Routing :=
  match vouts with
  | [] => (used, source_sheet, r)
  | v :: vouts' =>
      if remaining =? 0 then (used, source_sheet, r)
      else
        let give := Z.min remaining cap in
        if give =? 0 then (used, source_sheet, r)
        else
          let '(sources, ss) := take_sources_from_sheet source_sheet rid give in
          capped_walk rid cap (u128_sat_sub remaining give) (u128_sat_add used give) vouts' ss (deliver v rid give sources r)
  end.

(** Before version 2.1.7 an [OP_RETURN] uses up a slot, which is handed out after the walk. *)
Record LegacyWalk := mkLegacy {
  lw_remaining : Z;
  lw_used : Z;
  lw_deferred : list (Z * gmap SchemaAlkaneId (list (AttributionSource * Z)));
  last_consumed_idx : option Z;
  lw_sources : gmap SchemaAlkaneId (list (AttributionSource * Z));
  lw_routing : Routing;
}.

Fixpoint legacy_walk (rid : SchemaAlkaneId) (cap idx : Z) (outs : list TxOut) (w : LegacyWalk) : LegacyWalk :=
  match outs with
  | [] => w
  | o :: outs' =>
      if lw_remaining w =? 0 then w
      else
        let give := Z.min (lw_remaining w) cap in
        if give =? 0 then w
        else
          let '(sources, ss) := take_sources_from_sheet (lw_sources w) rid give in
          let remaining := u128_sat_sub (lw_remaining w) give in
          let used := u128_sat_add (lw_used w) give in
          let w' :=
            if spk_is_op_return (script_pubkey o)
            then mkLegacy remaining used (lw_deferred w ++ [(give, add_sources_to_sheet ∅ rid sources)]) (Some idx) ss
                   (lw_routing w)
            else mkLegacy remaining used (lw_deferred w) (Some idx) ss (deliver idx rid give sources (lw_routing w)) in
          legacy_walk rid cap (idx + 1) outs' w'
  end.

(** The first spendable output from [from] on. *)
Definition next_spendable (vouts : list Z) (from : Z) : option Z := head (filter (fun v => from <= v) vouts).

Fixpoint hand_out (rid : SchemaAlkaneId) (vouts : list Z) (search_from : Z)
    (deferred : list (Z * gmap SchemaAlkaneId (list (AttributionSource * Z)))) (r : Routing) : Routing :=
  match deferred with
  | [] => r
  | (a, routed) :: deferred' =>
      match next_spendable vouts search_from with
      | None => hand_out rid vouts search_from deferred' r
      | Some next_idx =>
          hand_out rid vouts (next_idx + 1) deferred'
            (mkRouting (push_entry next_idx rid a (out_map r)) (push_sources_to_vout (receives r) next_idx routed)
               (incoming_shadow r) (incoming_shadow_sources r))
      end
  end.

Definition multicast_edict (ly : Layout) (block_height : Z) (rid : SchemaAlkaneId) (cap : Z) (s : EdictState) : EdictState :=
  let have := default 0 (es_sheet s !! rid) in
  let sheet := <[rid := have]> (es_sheet s) in
  if have =? 0 then mkEdictState sheet (es_sources s) (es_routing s)
  else if cap =? 0 then
    let '(sources, ss) := take_sources_from_sheet (es_sources s) rid have in
    mkEdictState (delete rid sheet) ss
      (route_delta ly (multicast_index ly) {[rid := have]} (add_sources_to_sheet ∅ rid sources) (es_routing s))
  else if (block_height <? ALKANES_V217_EDICT_FIX_HEIGHT)
          && (have <=? Z.min (u128_mod - 1) (Z.of_nat (length (spendable_vouts ly)) * cap)) then
    let w := legacy_walk rid cap 0 (output (ly_tx ly)) (mkLegacy have 0 [] None (es_sources s) (es_routing s)) in
    let search_from := match last_consumed_idx w with Some idx => idx + 1 | None => 0 end in
    mkEdictState (sheet_debit sheet rid (lw_used w)) (lw_sources w)
      (hand_out rid (spendable_vouts ly) search_from (lw_deferred w) (lw_routing w))
  else
    let '(used, ss, r) := capped_walk rid cap have 0 (spendable_vouts ly) (es_sources s) (es_routing s) in
    mkEdictState (sheet_debit sheet rid used) ss r.

Definition direct_edict (ly : Layout) (out_idx : Z) (rid : SchemaAlkaneId) (cap : Z) (s : EdictState) : EdictState :=
  let have := default 0 (es_sheet s !! rid) in
  let need := if cap =? 0 then have else Z.min cap have in
  if need =? 0 then s
  else
    let take := Z.min have need in
    let '(sources, ss) := take_sources_from_sheet (es_sources s) rid take in
    let sheet := sheet_debit (es_sheet s) rid take in
    mkEdictState sheet ss
      (if take =? 0 then es_routing s
       else route_delta ly out_idx {[rid := take]} (add_sources_to_sheet ∅ rid sources) (es_routing s)).

(** [None] is an error; nothing has changed when there is one. *)
Definition apply_single_edict (ly : Layout) (block_height : Z) (ed : ProtostoneEdict) (s : EdictState) : option EdictState :=
  if (pr_block (pe_id ed) =? 0) && (0 <? pr_tx (pe_id ed)) then Some s
  else
    out_idx ← u128_to_u32 (pe_output ed);
    rid ← schema_id_from_parts (pr_block (pe_id ed)) (pr_tx (pe_id ed));
    Some (if out_idx =? multicast_index ly then
            if bool_decide (spendable_vouts ly = []) then s else multicast_edict ly block_height rid (pe_amount ed) s
          else direct_edict ly out_idx rid (pe_amount ed) s).

(** ** Protostones *)

(** [ContractProjectionContext] *)
Record ContractProjectionContext := mkProjectionContext {
  pc_tx : Transaction;
  pc_protostone : Protostone;
  protostone_index : nat;
  shadow_vout : Z;
  pc_incoming : gmap SchemaAlkaneId Z;
}.

Class MempoolContractProjector (P : Type) := {
  project : P -> ContractProjectionContext -> option (gmap SchemaAlkaneId Z) * P;
  project_from_inputs : P -> ContractProjectionContext -> option (gmap SchemaAlkaneId Z) * P;
}.

(** Which trace belongs to which protostone. *)
Definition trace_vout (t : EspoTrace) : Z :=
  match first_invoke (events (sandshrew_trace t)) with
  | Some inv => cx_vout (context inv)
  | None => et_vout t
  end.

Definition trace_by_shadow (ly : Layout) (traces : list EspoTrace) : gmap Z EspoSandshrewLikeTrace :=
  foldl (fun m t =>
    let vout := trace_vout t in
    if (shadow_base ly <=? vout) && (vout <=? shadow_end ly) then <[vout := sandshrew_trace t]> m else m) ∅ traces.

(** [for (rid, amt) in delta { if amt == 0 { continue; } credit }] *)
Definition credit_nonzero (sheet delta : ProjectionSheet) : ProjectionSheet :=
  foldl (fun s x => if x.2 =? 0 then s else sheet_credit s x.1 x.2) sheet (btree_entries delta).

Section Protostones.
Context {crates : TraceCrates} {P : Type} {projector : MempoolContractProjector P}.
Context (ly : Layout) (traces : gmap Z EspoSandshrewLikeTrace) (block_height : Z) (host : EspoHostFunctionValues).

Record Transfers := mkTransfers {
  tr_routing : Routing;
  tr_send : gmap bytes (gmap (SchemaAlkaneId * SchemaAlkaneId) Z);
  seed_unalloc : Unallocated;
  seed_sources : gmap SchemaAlkaneId (list (AttributionSource * Z));
  tr_projector : option P;
}.

(** The sheet of a protostone while it is filled. *)
Record Sheet := mkSheet {
  sh_amounts : gmap SchemaAlkaneId Z;
  sh_sources : gmap SchemaAlkaneId (list (AttributionSource * Z));
}.

(** What was routed to protostone [i]. *)
Definition open_sheet (i : nat) (s : Transfers) : Sheet * Transfers :=
  let r := tr_routing s in
  (mkSheet (credit_nonzero ∅ (default ∅ (incoming_shadow r !! i)))
     (merge_sourced_sheet ∅ (default ∅ (incoming_shadow_sources r !! i))),
   mkTransfers (mkRouting (out_map r) (receives r) (<[i := ∅]> (incoming_shadow r)) (<[i := ∅]> (incoming_shadow_sources r)))
     (tr_send s) (seed_unalloc s) (seed_sources s) (tr_projector s)).

(** The sources of the inputs go to protostone 0. *)
Definition take_seed_sources (i : nat) (sh : Sheet) (s : Transfers) : Sheet * Transfers :=
  if (i =? 0)%nat then
    (mkSheet (sh_amounts sh) (merge_sourced_sheet (sh_sources sh) (seed_sources s)),
     mkTransfers (tr_routing s) (tr_send s) (seed_unalloc s) ∅ (tr_projector s))
  else (sh, s).

Definition with_projector (s : Transfers) (p : option P) : Transfers :=
  mkTransfers (tr_routing s) (tr_send s) (seed_unalloc s) (seed_sources s) p.

Definition input_projection (i : nat) (ps : Protostone) (status : EspoTraceType) (sh : Sheet) (s : Transfers)
    : option ProjectionSheet * Transfers :=
  if bool_decide (status = REVERT) then (None, s)
  else
    match tr_projector s with
    | None => (None, s)
    | Some p =>
        let incoming := if (i =? 0)%nat then credit_nonzero (sh_amounts sh) (drain_all (seed_unalloc s)).1 else sh_amounts sh in
        let '(o, p') := project_from_inputs p (mkProjectionContext (ly_tx ly) ps i (shadow_index ly i) incoming) in
        (o, with_projector s (Some p'))
    end.

(** The inputs of a projection are consumed whole. *)
Definition use_projection (i : nat) (output : ProjectionSheet) (sh : Sheet) (s : Transfers) : Sheet * Transfers :=
  let '(sh1, s1) := take_seed_sources i sh s in
  (mkSheet output (sh_sources sh1),
   if (i =? 0)%nat
   then mkTransfers (tr_routing s1) (tr_send s1) (drain_all (seed_unalloc s1)).2 (seed_sources s1) (tr_projector s1) else s1).

(** What a trace takes from the sheet, and the sources of it. *)
Definition consume_net_in (net_in : option ProjectionSheet) (sh : Sheet) : Sheet * SourcedSheet :=
  match net_in with
  | None => (sh, ∅)
  | Some m =>
      foldl (fun '(sh, taken) e =>
        if e.2 =? 0 then (sh, taken)
        else
          let '(sources, ss) := take_sources_from_sheet (sh_sources sh) e.1 e.2 in
          (mkSheet (sheet_debit (sh_amounts sh) e.1 e.2) ss, add_sources_to_sheet taken e.1 sources)) (sh, ∅) (btree_entries m)
  end.

(** A trace that succeeded: its inputs leave the sheet, its outputs enter it. *)
Definition succeed (i : nat) (trace : option EspoSandshrewLikeTrace) (net_in net_out : option ProjectionSheet)
    (sh : Sheet) (s : Transfers) : Sheet * Transfers :=
  let '(sh0, s0) := take_seed_sources i sh s in
  let '(sh1, taken) := consume_net_in net_in sh0 in
  let send :=
    match trace with
    | Some t =>
        match trace_source_flow t taken host with
        | Some flow => merge_address_contract_amounts (tr_send s0) (flow_send_contracts flow)
        | None => tr_send s0
        end
    | None => tr_send s0
    end in
  let ss :=
    match trace, net_out with
    | Some t, Some out =>
        match trace_root_owner t host with
        | Some root => merge_sourced_sheet (sh_sources sh1) (final_trace_return_sources root taken out)
        | None => sh_sources sh1
        end
    | _, _ => sh_sources sh1
    end in
  (mkSheet (match net_out with Some out => credit_nonzero (sh_amounts sh1) out | None => sh_amounts sh1 end) ss,
   mkTransfers (tr_routing s0) send (seed_unalloc s0) (seed_sources s0) (tr_projector s0)).

(** No trace: the inputs go to protostone 0, and the projector may replace the sheet. *)
Definition no_trace (i : nat) (ps : Protostone) (sh : Sheet) (s : Transfers) : Sheet * Transfers :=
  let '(sh1, s1) :=
    if (i =? 0)%nat then
      let '(drained, rest) := drain_all (seed_unalloc s) in
      take_seed_sources i (mkSheet (credit_nonzero (sh_amounts sh) drained) (sh_sources sh))
        (mkTransfers (tr_routing s) (tr_send s) rest (seed_sources s) (tr_projector s))
    else (sh, s) in
  match tr_projector s1 with
  | None => (sh1, s1)
  | Some p =>
      let '(o, p') := project p (mkProjectionContext (ly_tx ly) ps i (shadow_index ly i) (sh_amounts sh1)) in
      (match o with Some out => mkSheet out (sh_sources sh1) | None => sh1 end, with_projector s1 (Some p'))
  end.

Definition with_routing (s : Transfers) (r : Routing) : Transfers :=
  mkTransfers r (tr_send s) (seed_unalloc s) (seed_sources s) (tr_projector s).

(** A trace that failed: its inputs are refunded. *)
Definition refund (i : nat) (ps : Protostone) (net_in : option ProjectionSheet) (sh : Sheet) (s : Transfers) : Transfers :=
  let '(sh1, s1) := take_seed_sources i sh s in
  match net_in, ps_refund ps with
  | Some m, Some ptr =>
      let '(source_delta, _) := take_sources_for_delta (sh_sources sh1) m in
      with_routing s1 (route_delta ly ptr m source_delta (tr_routing s1))
  | _, _ => s1
  end.

(** An edict that fails is skipped. *)
Definition apply_edicts (eds : list ProtostoneEdict) (s : EdictState) : EdictState :=
  foldl (fun s ed => default s (apply_single_edict ly block_height ed s)) s eds.

(** What the edicts leave goes to the pointer, or to the first spendable output. *)
Definition route_rest (ps : Protostone) (s : EdictState) : Routing :=
  if bool_decide (es_sheet s = ∅) then es_routing s
  else
    let '(source_delta, _) := take_sources_for_delta (es_sources s) (es_sheet s) in
    match ps_pointer ps with
    | Some ptr => route_delta ly ptr (es_sheet s) source_delta (es_routing s)
    | None =>
        match head (spendable_vouts ly) with
        | Some v =>
            let r := es_routing s in
            mkRouting (push_to_vout (out_map r) v (es_sheet s)) (push_sources_to_vout (receives r) v source_delta)
              (incoming_shadow r) (incoming_shadow_sources r)
        | None => es_routing s
        end
    end.

Definition apply_protostone (i : nat) (ps : Protostone) (s : Transfers) : Transfers :=
  let '(sh, s) := open_sheet i s in
  let trace := traces !! shadow_index ly i in
  let '(net_in, net_out, status0) := match trace with Some t => compute_nets t | None => (None, None, NOTRACE) end in
  let revert_missing_incoming :=
    bool_decide (status0 = REVERT) && match net_in with Some m => bool_decide (m = ∅) | None => true end in
  let status := if revert_missing_incoming then NOTRACE else status0 in
  let '(projection, s) := input_projection i ps status sh s in
  match status with
  | REVERT => refund i ps net_in sh s
  | _ =>
      let '(sh, s) :=
        match projection with
        | Some out => use_projection i out sh s
        | None =>
            match status with
            | SUCCESS => succeed i trace net_in net_out sh s
            | _ => no_trace i ps sh s
            end
        end in
      let st := apply_edicts (ps_edicts ps) (mkEdictState (sh_amounts sh) (sh_sources sh) (tr_routing s)) in
      with_routing s (route_rest ps st)
  end.

Fixpoint apply_protostones (i : nat) (pss : list Protostone) (s : Transfers) : Transfers :=
  match pss with
  | [] => s
  | ps :: pss' => apply_protostones (S i) pss' (apply_protostone i ps s)
  end.

End Protostones.

Arguments mkTransfers {P}.
Arguments tr_routing {P}.
Arguments tr_send {P}.
Arguments seed_unalloc {P}.
Arguments seed_sources {P}.
Arguments tr_projector {P}.

(** ** The whole transaction *)

Section Apply.
Context {crates : TraceCrates} {P : Type} {projector : MempoolContractProjector P}.

Definition apply_transfers_multi_attributed (tx : Transaction) (protostones : list Protostone) (traces_for_tx : list EspoTrace)
    (block_height : Z) (host : EspoHostFunctionValues) (seed : Unallocated) (sources : SourcedSheet) (p : option P)
    : TransferApplication :=
  let ly := layout_of tx (length protostones) in
  let n := length protostones in
  let s := apply_protostones ly (trace_by_shadow ly traces_for_tx) block_height host 0 protostones
             (mkTransfers (mkRouting ∅ ∅ (replicate n ∅) (replicate n ∅)) ∅ seed sources p) in
  mkApplication (out_map (tr_routing s)) (tr_send s) (receives (tr_routing s)).

Definition apply_transfers_multi (tx : Transaction) (protostones : list Protostone) (traces_for_tx : list EspoTrace)
    (block_height : Z) (seed : Unallocated) (p : option P) : gmap Z (list BalanceEntry) :=
  allocations (apply_transfers_multi_attributed tx protostones traces_for_tx block_height EspoHostFunctionValues_default seed ∅ p).

(** [parse_protostones] is asked of the crates: [None] is an error. *)
Definition project_tx_output_balances_from_traces_with_projector (parse_protostones : Transaction -> option (list Protostone))
    (tx : Transaction) (traces_for_tx : list EspoTrace) (input_balances : list BalanceEntry) (p : option P)
    : gmap Z (list BalanceEntry) :=
  if negb (tx_has_op_return tx) then ∅
  else
    match parse_protostones tx with
    | None | Some [] => ∅
    | Some protostones =>
        let seed := foldl (fun u e => if 0 <? be_amount e then un_add u (be_alkane e) (be_amount e) else u)
                      Unallocated_default input_balances in
        apply_transfers_multi tx protostones traces_for_tx ALKANES_V217_EDICT_FIX_HEIGHT seed p
    end.

End Apply.
