(* ===== verification/AlkTransferProps.v ===== *)
(** * What routing conserves

    Amounts only move: what reaches the outputs of a transaction is bounded by what its
    inputs and traces put into the sheets of the protostones, and is equal to it
    when every target can be delivered to.  Outputs that receive are spendable, and
    the contracts an output is said to have received from never add up to more than
    the output received. *)
From stdpp Require Import strings.
From S2P Require Import Prelude Bytes RunesTransfer RunesStore RunesChain RunesInscriptions.
From S2P Require Import AlkTrace AlkClean AlkSheets AlkSheetsProps AlkDeltas AlkDeltasProps AlkFlow AlkTransfer.

Open Scope Z_scope.

(** ** Totals *)

Section Token.
Context (t : SchemaAlkaneId).

Definition entries_total (l : list BalanceEntry) : Z :=
  foldr (fun e acc => (if decide (be_alkane e = t) then be_amount e else 0) + acc) 0 l.

Lemma entries_total_app l1 l2 : entries_total (l1 ++ l2) = entries_total l1 + entries_total l2.
Proof. induction l1 as [|e l IH]; [done|]. cbn [app entries_total foldr] in *. unfold entries_total in *. lia. Qed.

Lemma entries_total_one k a : entries_total [mkBalanceEntry k a] = if decide (k = t) then a else 0.
Proof. unfold entries_total. cbn. lia. Qed.

(** All outputs. *)
Definition outs_total (m : gmap Z (list BalanceEntry)) : Z := map_fold (fun _ l acc => entries_total l + acc) 0 m.

Lemma outs_total_insert m v l :
  outs_total (<[v := l]> m) = outs_total m - entries_total (default [] (m !! v)) + entries_total l.
Proof.
  unfold outs_total. destruct (m !! v) as [l0|] eqn:E; cbn [from_option id].
  - rewrite <- insert_delete_eq. rewrite map_fold_insert_L; [|intros; lia|apply lookup_delete_eq].
    rewrite <- (insert_delete_id m v l0 E) at 2. rewrite map_fold_insert_L; [|intros; lia|apply lookup_delete_eq]. lia.
  - rewrite map_fold_insert_L; [|intros; lia|done]. change (entries_total []) with 0. lia.
Qed.

Lemma push_entry_total m v k a : outs_total (push_entry v k a m) = outs_total m + if decide (k = t) then a else 0.
Proof. unfold push_entry. rewrite outs_total_insert, entries_total_app, entries_total_one. lia. Qed.

(** The sheets waiting for their protostones. *)
Definition shadows_total (l : list (gmap SchemaAlkaneId Z)) : Z := foldr (fun m acc => sheet_at t m + acc) 0 l.

Lemma shadows_total_alter l i f m :
  l !! i = Some m -> shadows_total (alter f i l) = shadows_total l - sheet_at t m + sheet_at t (f m).
Proof.
  revert i. induction l as [|x l IH]; intros [|i]; cbn; try done.
  - intros [= ->]. lia.
  - intros H%IH. unfold shadows_total in *. rewrite H. lia.
Qed.

Definition routed (r : Routing) : Z := outs_total (out_map r) + shadows_total (incoming_shadow r).

Lemma sheet_at_credit m k v :
  sheet_at t (sheet_credit m k v) = if decide (k = t) then u128_sat_add (sheet_at t m) v else sheet_at t m.
Proof.
  unfold sheet_at, sheet_credit. case_decide as D; [subst k; by rewrite lookup_insert_eq|by rewrite lookup_insert_ne].
Qed.

Lemma sheet_at_nonneg m : sheet_pos m -> 0 <= sheet_at t m.
Proof. intros H. unfold sheet_at. destruct (m !! t) eqn:E; [apply (H _ _ E)|done]. Qed.

End Token.

Lemma sheet_credit_pos m k v : sheet_pos m -> 0 <= v -> sheet_pos (sheet_credit m k v).
Proof.
  intros Hm Hv. apply map_Forall_insert_2; [|done]. apply sat_add_range; [|done].
  destruct (m !! k) eqn:E; [apply (Hm _ _ E)|done].
Qed.

(** Crediting the entries of a list: never more than their sum, and the sum when it is an amount. *)
Lemma credit_list_spec l : forall m,
  sheet_pos m -> Forall (fun e => 0 <= e.2) l ->
  let r := foldl (fun s x => if x.2 =? 0 then s else sheet_credit s x.1 x.2) m l in
  sheet_pos r /\ forall t, sheet_at t r <= sheet_at t m + listed t l
    /\ (sheet_at t m + listed t l < u128_mod -> sheet_at t r = sheet_at t m + listed t l).
Proof.
  induction l as [|[k v] l IH]; intros m Hm Hl; cbn [foldl fst snd].
  { split; [done|]. intros t. change (listed t []) with 0. lia. }
  apply Forall_cons in Hl as [Hv Hl]. cbn in Hv.
  set (m1 := if v =? 0 then m else sheet_credit m k v).
  assert (H1 : sheet_pos m1) by (unfold m1; destruct (v =? 0); [done|by apply sheet_credit_pos]).
  destruct (IH m1 H1 Hl) as [I1 I2]. split; [done|]. intros t. specialize (I2 t). rewrite listed_cons.
  pose proof (listed_range t l Hl). pose proof (sheet_at_nonneg t m Hm).
  assert (Hm1 : sheet_at t m1 <= sheet_at t m + (if decide (k = t) then v else 0)
    /\ (sheet_at t m + (if decide (k = t) then v else 0) < u128_mod ->
        sheet_at t m1 = sheet_at t m + if decide (k = t) then v else 0)).
  { unfold m1. destruct (Z.eqb_spec v 0) as [->|Hne]; [case_decide; lia|]. rewrite sheet_at_credit.
    case_decide; unfold u128_sat_add; lia. }
  lia.
Qed.

Lemma credit_nonzero_spec m d :
  sheet_pos m -> sheet_pos d ->
  sheet_pos (credit_nonzero m d) /\ forall t, sheet_at t (credit_nonzero m d) <= sheet_at t m + sheet_at t d
    /\ (sheet_at t m + sheet_at t d < u128_mod -> sheet_at t (credit_nonzero m d) = sheet_at t m + sheet_at t d).
Proof.
  intros Hm Hd. destruct (credit_list_spec (btree_entries d) m Hm (entries_pos d Hd)) as [H1 H2].
  split; [done|]. intros t. specialize (H2 t). by rewrite listed_entries in H2.
Qed.

(** ** Sources never exceed the amount they are for *)

Definition contracts : AttributionSource -> bool := fun s => match s with SContract _ => true | SAddress _ => false end.

Lemma add_source_le l s a : queue_ok l -> 0 <= a ->
  queue_ok (add_source_amount l s a) /\ whole (add_source_amount l s a) <= whole l + a.
Proof.
  intros Hl Ha. split; [by apply add_source_amount_spec|]. unfold add_source_amount.
  destruct (Z.eqb_spec a 0) as [->|Hne]; [lia|]. unfold whole.
  assert (Hp : part (fun _ => true) (l ++ [(s, a)]) <= part (fun _ => true) l + a).
  { rewrite part_app, part_cons, part_nil. lia. }
  destruct (last l) as [[s' b]|] eqn:E; [|done]. case_bool_decide; [|done]. apply last_split in E.
  rewrite E at 3. rewrite !part_app, !part_cons, part_nil. unfold u128_sat_add. lia.
Qed.

Lemma take_loop_le l : forall a tk,
  queue_ok l -> queue_ok tk -> 0 <= a ->
  let r := take_loop l a tk in queue_ok r.1 /\ queue_ok r.2 /\ whole r.1 <= whole tk + a.
Proof.
  induction l as [|[s v] l IH]; intros a tk Hl Ht Ha; cbn [take_loop].
  { destruct (0 <? a); cbn [fst snd]; split_all; done || lia. }
  apply Forall_cons in Hl as [Hv Hl]. cbn in Hv. destruct (Z.ltb_spec 0 a) as [Hp|Hz].
  2: { cbn [fst snd]. split_all; [done|by constructor|lia]. }
  destruct (add_source_le tk s (Z.min v a) Ht ltac:(lia)) as [Hq Hw]. unfold u128_sat_sub.
  destruct (Z.eqb_spec (Z.max 0 (v - Z.min v a)) 0) as [He|He].
  - destruct (IH (Z.max 0 (a - Z.min v a)) _ Hl Hq ltac:(lia)) as (I1 & I2 & I3). split_all; [done|done|lia].
  - cbn [fst snd]. split_all; [done|constructor; [cbn; lia|done]|lia].
Qed.

Lemma take_sources_le sheet token a :
  sourced_ok sheet -> 0 <= a ->
  let r := take_sources_from_sheet sheet token a in queue_ok r.1 /\ sourced_ok r.2 /\ whole r.1 <= a.
Proof.
  intros Hs Ha. unfold take_sources_from_sheet.
  destruct (Z.eqb_spec a 0) as [->|Hne]; [split_all; [constructor|done|done]|].
  destruct (sheet !! token) as [l|] eqn:E; [|split_all; [constructor|done|done]].
  unfold take_sources_from_amounts. pose proof (take_loop_le l a [] (Hs _ _ E) ltac:(constructor) Ha) as (T1 & T2 & T3).
  destruct (take_loop l a []) as [tk rest]. cbn [fst snd] in *. split_all; [done| |done].
  destruct rest; [by apply map_Forall_delete|by apply map_Forall_insert_2].
Qed.

(** What an output is said to have received of a token, from all contracts. *)
Definition received (t : SchemaAlkaneId) (m : gmap (SchemaAlkaneId * SchemaAlkaneId) Z) : Z :=
  map_fold (fun ck a acc => (if decide (ck.2 = t) then a else 0) + acc) 0 m.

Lemma received_insert t m ck a :
  received t (<[ck := a]> m) = received t m + if decide (ck.2 = t) then a - default 0 (m !! ck) else 0.
Proof.
  unfold received. destruct (m !! ck) as [b|] eqn:E; cbn [from_option id].
  - rewrite <- insert_delete_eq. rewrite map_fold_insert_L; [|intros; lia|apply lookup_delete_eq].
    rewrite <- (insert_delete_id m ck b E) at 2. rewrite map_fold_insert_L; [|intros; lia|apply lookup_delete_eq].
    case_decide; lia.
  - rewrite map_fold_insert_L; [|intros; lia|done]. case_decide; lia.
Qed.

Lemma receives_le t k l : forall m,
  queue_ok l -> received t (add_contract_receives_from_sources m k l) <= received t m + if decide (k = t) then whole l else 0.
Proof.
  unfold add_contract_receives_from_sources. induction l as [|[s a] l IH]; intros m Hl; cbn [foldl fst snd].
  { change (whole []) with 0. case_decide; lia. }
  apply Forall_cons in Hl as [Ha Hl]. cbn in Ha. unfold whole in *. rewrite part_cons.
  etransitivity; [by apply IH|]. destruct s as [ad|c]; [case_decide; lia|].
  unfold add_contract_token_amount. destruct (Z.eqb_spec a 0); [case_decide; lia|].
  rewrite received_insert. cbn [snd]. unfold u128_sat_add. case_decide; lia.
Qed.

Definition sources_whole (sd : gmap SchemaAlkaneId (list (AttributionSource * Z))) (t : SchemaAlkaneId) : Z :=
  sourced (fun _ => true) sd t.

Lemma sources_whole_nonneg sd t : sourced_ok sd -> 0 <= sources_whole sd t.
Proof. intros H. apply part_range. by apply sourced_queue. Qed.

Lemma push_sources_other m v sd v' : v' <> v -> push_sources_to_vout m v sd !! v' = m !! v'.
Proof.
  intros Hne. unfold push_sources_to_vout. generalize (btree_entries sd) as l. intros l. revert m.
  induction l as [|e l IH]; intros m; [done|]. cbn [foldl]. rewrite IH. by rewrite lookup_insert_ne.
Qed.

Lemma push_sources_le t m v sd :
  sourced_ok sd ->
  received t (default ∅ (push_sources_to_vout m v sd !! v)) <= received t (default ∅ (m !! v)) + sources_whole sd t.
Proof.
  intros Hs. unfold push_sources_to_vout, sources_whole, sourced.
  destruct (btree_map_facts sd) as (Hn & Hm & Hel). rewrite <- Hm at 2.
  assert (Hq : Forall (fun e : SchemaAlkaneId * list (AttributionSource * Z) => queue_ok e.2) (btree_entries sd)).
  { apply Forall_forall. intros [k l] Hk%Hel. apply (Hs _ _ Hk). }
  clear Hs Hel Hm. revert m Hn Hq. generalize (btree_entries sd) as l. induction l as [|[k q] l IH]; intros m Hn Hq.
  { cbn [foldl]. rewrite list_to_map_nil, lookup_empty. cbn [from_option id]. rewrite part_nil. lia. }
  apply NoDup_cons in Hn as [Hk Hn]. apply Forall_cons in Hq as [Hq0 Hq]. cbn [snd] in Hq0. cbn [foldl fst snd].
  etransitivity; [by apply IH|]. rewrite lookup_insert_eq. cbn [from_option id].
  pose proof (receives_le t k q (default ∅ (m !! v)) Hq0) as Hr. rewrite list_to_map_cons.
  destruct (decide (k = t)) as [->|Hne].
  - rewrite lookup_insert_eq, not_elem_of_list_to_map_1 by done. cbn [from_option id]. rewrite part_nil. unfold whole in Hr. lia.
  - rewrite lookup_insert_ne by done. lia.
Qed.

(** ** The invariant of the routing *)

Record routing_ok (ly : Layout) (r : Routing) : Prop := {
  rk_outs : map_Forall (fun v l => v ∈ spendable_vouts ly /\ Forall (fun e => 0 < be_amount e) l) (out_map r);
  rk_shadows : Forall sheet_pos (incoming_shadow r);
  rk_sources : Forall sourced_ok (incoming_shadow_sources r);
  rk_attributed v t : received t (default ∅ (receives r !! v)) <= entries_total t (default [] (out_map r !! v));
}.

Lemma outs_lookup_pos ly r v : routing_ok ly r -> Forall (fun e => 0 < be_amount e) (default [] (out_map r !! v)).
Proof. intros H. destruct (out_map r !! v) eqn:E; [apply (rk_outs _ _ H _ _ E)|constructor]. Qed.

(** A step that routes [d]; all of it when [full]. *)
Record routes (ly : Layout) (r r' : Routing) (d : SchemaAlkaneId -> Z) (full : Prop) : Prop := {
  ro_ok : routing_ok ly r';
  ro_len : length (incoming_shadow r') = length (incoming_shadow r);
  ro_le t : routed t r' <= routed t r + d t;
  ro_eq t : full -> routed t r + d t < u128_mod -> routed t r' = routed t r + d t;
}.

Lemma routes_refl ly r : routing_ok ly r -> routes ly r r (fun _ => 0) True.
Proof. intros H. split; done || lia. Qed.

Lemma routes_burn ly r d : routing_ok ly r -> (forall t, 0 <= d t) -> routes ly r r d False.
Proof. intros H Hd. split; try done. intros t. specialize (Hd t). lia. Qed.

Lemma routes_trans ly r1 r2 r3 d1 d2 f1 f2 :
  (forall t, 0 <= d2 t) -> routes ly r1 r2 d1 f1 -> routes ly r2 r3 d2 f2 -> routes ly r1 r3 (fun t => d1 t + d2 t) (f1 /\ f2).
Proof.
  intros Hd [A1 A2 A3 A4] [B1 B2 B3 B4]. split; [done|congruence| |].
  - intros t. specialize (A3 t). specialize (B3 t). lia.
  - intros t [F1 F2] Hlt. specialize (Hd t). specialize (A4 t F1 ltac:(lia)). rewrite (B4 t F2) by lia. lia.
Qed.

Lemma routes_weaken ly r r' d d' (f f' : Prop) :
  routes ly r r' d f -> (forall t, d' t = d t) -> (f' -> f) -> routes ly r r' d' f'.
Proof.
  intros [A1 A2 A3 A4] Hd Hf. split; try done; intros t; rewrite Hd; [apply A3|]. intros F. by apply A4, Hf.
Qed.

Definition one (k : SchemaAlkaneId) (a : Z) (t : SchemaAlkaneId) : Z := if decide (k = t) then a else 0.

Lemma one_nonneg k a t : 0 <= a -> 0 <= one k a t.
Proof. unfold one. case_decide; lia. Qed.

(** One entry for an output, with sources that do not exceed it. *)
Lemma deliver_entry ly r v k a sd :
  routing_ok ly r -> v ∈ spendable_vouts ly -> 0 < a -> sourced_ok sd -> (forall t, sources_whole sd t <= one k a t) ->
  routes ly r (mkRouting (push_entry v k a (out_map r)) (push_sources_to_vout (receives r) v sd)
                 (incoming_shadow r) (incoming_shadow_sources r)) (one k a) True.
Proof.
  intros Hr Hv Ha Hs Hle. split; try done; cbn [incoming_shadow out_map receives].
  - split; cbn [out_map receives incoming_shadow incoming_shadow_sources]; try apply Hr.
    + apply map_Forall_insert_2; [|apply Hr]. split; [done|]. apply Forall_app. split; [by eapply outs_lookup_pos|].
      by repeat constructor.
    + intros v' t. unfold push_entry. destruct (decide (v' = v)) as [->|Hne].
      * rewrite lookup_insert_eq. cbn [from_option id]. rewrite entries_total_app, entries_total_one.
        pose proof (push_sources_le t (receives r) v sd Hs). pose proof (rk_attributed _ _ Hr v t).
        specialize (Hle t). unfold one in Hle. lia.
      * rewrite push_sources_other, lookup_insert_ne by done. apply Hr.
  - intros t. unfold routed. cbn [out_map incoming_shadow]. rewrite push_entry_total. unfold one. lia.
  - intros t _ _. unfold routed. cbn [out_map incoming_shadow]. rewrite push_entry_total. unfold one. lia.
Qed.

Lemma one_sheet_sources k l : queue_ok l -> sourced_ok (add_sources_to_sheet ∅ k l).
Proof. apply add_sources_ok. apply map_Forall_empty. Qed.

Lemma add_source_amounts_le l1 l2 : queue_ok l1 -> queue_ok l2 -> whole (add_source_amounts l1 l2) <= whole l1 + whole l2.
Proof.
  unfold add_source_amounts. revert l1. induction l2 as [|[s a] l2 IH]; intros l1 H1 H2; cbn [foldl fst snd].
  { change (whole []) with 0. lia. }
  apply Forall_cons in H2 as [Ha H2]. cbn in Ha. destruct (add_source_le l1 s a H1 Ha) as [Hq Hw].
  specialize (IH _ Hq H2). unfold whole in *. rewrite part_cons. lia.
Qed.

Lemma add_sources_le sheet k l t :
  sourced_ok sheet -> queue_ok l -> sources_whole (add_sources_to_sheet sheet k l) t <= sources_whole sheet t + one k (whole l) t.
Proof.
  intros Hs Hl. pose proof (part_range (fun _ => true) l Hl) as Hp. fold (whole l) in Hp.
  unfold add_sources_to_sheet, sources_whole, sourced, one. destruct l as [|e l]; [case_decide; lia|].
  pose proof (add_source_amounts_le _ _ (sourced_queue sheet k Hs) Hl) as Hle.
  pose proof (part_range (fun _ => true) _ (sourced_queue sheet t Hs)) as Ht.
  destruct (add_source_amounts _ _) as [|e' l'].
  - destruct (decide (k = t)) as [->|D]; [rewrite lookup_delete_eq; cbn [from_option id]; rewrite part_nil; lia|].
    rewrite lookup_delete_ne by done. lia.
  - destruct (decide (k = t)) as [->|D]; [rewrite lookup_insert_eq; exact Hle|]. rewrite lookup_insert_ne by done. lia.
Qed.

Lemma deliver_routes ly r v k a l :
  routing_ok ly r -> v ∈ spendable_vouts ly -> 0 < a -> queue_ok l -> whole l <= a ->
  routes ly r (deliver v k a l r) (one k a) True.
Proof.
  intros Hr Hv Ha Hl Hw. apply deliver_entry; try done; [by apply one_sheet_sources|].
  intros t. etransitivity; [apply add_sources_le; [apply map_Forall_empty|done]|].
  unfold sources_whole, sourced, one. rewrite lookup_empty. cbn [from_option id]. rewrite part_nil. case_decide; lia.
Qed.

(** ** Multicast *)

Definition share (per rem i : Z) : Z := if i <? rem then u128_sat_add per 1 else per.

Fixpoint shares (per rem i : Z) (vouts : list Z) : Z :=
  match vouts with [] => 0 | _ :: vouts' => share per rem i + shares per rem (i + 1) vouts' end.

Lemma shares_sum per rem vouts : forall i,
  0 <= per -> 0 <= i -> per < u128_mod ->
  0 <= shares per rem i vouts
  /\ shares per rem i vouts <= per * Z.of_nat (length vouts) + Z.max 0 (Z.min (rem - i) (Z.of_nat (length vouts)))
  /\ (per + 1 < u128_mod \/ rem <= 0 ->
      shares per rem i vouts = per * Z.of_nat (length vouts) + Z.max 0 (Z.min (rem - i) (Z.of_nat (length vouts)))).
Proof.
  induction vouts as [|v vouts IH]; intros i Hp Hi Hlt; cbn [shares length]; [lia|].
  destruct (IH (i + 1) Hp ltac:(lia) Hlt) as (I1 & I2 & I3).
  unfold share, u128_sat_add, u128_mod in *. destruct (Z.ltb_spec i rem); lia.
Qed.

Lemma split_shares_routes ly k per rem vouts : forall i sd r,
  routing_ok ly r -> (forall v, v ∈ vouts -> v ∈ spendable_vouts ly) -> 0 <= per -> sourced_ok sd ->
  let x := split_shares k per rem i vouts sd r in
  sourced_ok x.1 /\ routes ly r x.2 (one k (shares per rem i vouts)) True.
Proof.
  induction vouts as [|v vouts IH]; intros i sd r Hr Hv Hp Hs; cbn [split_shares shares].
  { split; [done|]. eapply routes_weaken; [by apply routes_refl| |done]. intros t. unfold one. by case_decide. }
  fold (share per rem i). assert (H0 : 0 <= share per rem i).
  { unfold share, u128_sat_add, u128_mod. destruct (i <? rem); lia. }
  assert (Hnn : 0 <= shares per rem (i + 1) vouts).
  { clear -Hp. revert i. induction vouts as [|v vouts IH]; intros i; cbn [shares]; [lia|].
    specialize (IH (i + 1)). unfold share, u128_sat_add, u128_mod in *. destruct (i + 1 <? rem); lia. }
  destruct (Z.eqb_spec (share per rem i) 0) as [He|He].
  - destruct (IH (i + 1) sd r Hr) as [I1 I2]; [intros; apply Hv; by right|done|done|]. split; [done|].
    eapply routes_weaken; [exact I2| |done]. intros t. by rewrite He.
  - pose proof (take_sources_le sd k (share per rem i) Hs H0) as (T1 & T2 & T3).
    destruct (take_sources_from_sheet sd k (share per rem i)) as [l sd']. cbn [fst snd] in *.
    pose proof (deliver_routes ly r v k (share per rem i) l Hr (Hv v ltac:(by left)) ltac:(lia) T1 T3) as D.
    destruct (IH (i + 1) sd' _ (ro_ok _ _ _ _ _ D)) as [I1 I2]; [intros; apply Hv; by right|done|done|]. split; [done|].
    eapply routes_weaken; [eapply routes_trans; [|exact D|exact I2]; intros; by apply one_nonneg| |done].
    intros t. unfold one. case_decide; lia.
Qed.

Lemma multicast_token_routes ly k a sd r :
  routing_ok ly r -> spendable_vouts ly <> [] -> in_amount a -> sourced_ok sd ->
  let x := multicast_token (spendable_vouts ly) (sd, r) (k, a) in
  sourced_ok x.1 /\ routes ly r x.2 (one k a) True.
Proof.
  intros Hr Hne [Ha Hlt] Hs. unfold multicast_token. cbn [fst snd]. destruct (Z.eqb_spec a 0) as [->|Hz].
  { split; [done|]. eapply routes_weaken; [by apply routes_refl| |done]. intros t. unfold one. by case_decide. }
  set (m := Z.of_nat (length (spendable_vouts ly))).
  assert (Hm : 0 < m). { unfold m. destruct (spendable_vouts ly); [done|]. cbn [length]. lia. }
  pose proof (Z.div_mod a m ltac:(lia)) as Hdm. pose proof (Z.mod_pos_bound a m Hm) as Hmod.
  pose proof (Z.div_pos a m ltac:(lia) Hm) as Hdiv.
  destruct (split_shares_routes ly k (a / m) (a mod m) (spendable_vouts ly) 0 sd r Hr) as [S1 S2]; [done|done|done|].
  split; [done|]. eapply routes_weaken; [exact S2| |done]. intros t. unfold one. case_decide; [|done].
  assert (Hd : a / m < u128_mod). { apply Z.div_lt_upper_bound; [lia|]. nia. }
  destruct (shares_sum (a / m) (a mod m) (spendable_vouts ly) 0 Hdiv ltac:(lia) Hd) as (_ & _ & Heq). fold m in Heq.
  rewrite Heq; [lia|]. destruct (decide (a mod m <= 0)); [by right|left]. nia.
Qed.

Lemma multicast_routes ly l : forall sd r,
  routing_ok ly r -> spendable_vouts ly <> [] -> Forall (fun e => in_amount e.2) l -> sourced_ok sd ->
  let x := foldl (multicast_token (spendable_vouts ly)) (sd, r) l in
  routes ly r x.2 (fun t => listed t l) True.
Proof.
  induction l as [|[k a] l IH]; intros sd r Hr Hne Hl Hs; cbn [foldl].
  { by apply routes_refl. }
  apply Forall_cons in Hl as [Ha Hl]. cbn [snd] in Ha.
  pose proof (multicast_token_routes ly k a sd r Hr Hne Ha Hs) as [M1 M2].
  destruct (multicast_token (spendable_vouts ly) (sd, r) (k, a)) as [sd1 r1]. cbn [fst snd] in M1, M2.
  eapply routes_weaken; [eapply routes_trans; [|exact M2|apply (IH sd1 r1 (ro_ok _ _ _ _ _ M2) Hne Hl M1)]| |done].
  - intros t. apply listed_range. eapply Forall_impl; [exact Hl|]. intros e He. apply He.
  - intros t. by rewrite listed_cons.
Qed.

(** ** Targets *)

Lemma spendable_from_spec outs : forall i v,
  v ∈ spendable_from i outs <->
  i <= v /\ exists o, outs !! Z.to_nat (v - i) = Some o /\ spk_is_op_return (script_pubkey o) = false.
Proof.
  induction outs as [|o outs IH]; intros i v; cbn [spendable_from].
  { split; [by intros ?%elem_of_nil|]. by intros (_ & o & Ho & _). }
  assert (Hcons : v ∈ spendable_from (i + 1) outs <->
    i < v /\ exists o', (o :: outs) !! Z.to_nat (v - i) = Some o' /\ spk_is_op_return (script_pubkey o') = false).
  { rewrite IH. split.
    - intros [Hi Ho]. split; [lia|]. replace (Z.to_nat (v - i)) with (S (Z.to_nat (v - (i + 1)))) by lia. done.
    - intros [Hi Ho]. split; [lia|]. by replace (Z.to_nat (v - i)) with (S (Z.to_nat (v - (i + 1)))) in Ho by lia. }
  destruct (spk_is_op_return (script_pubkey o)) eqn:E.
  - rewrite Hcons. split; [intros [H1 H2]; split; [lia|done]|]. intros [H1 (o' & H2 & H3)].
    destruct (decide (v = i)) as [->|]; [|split; [lia|by exists o']].
    rewrite Z.sub_diag in H2. injection H2 as <-. congruence.
  - rewrite elem_of_cons, Hcons. split.
    + intros [->|[H1 H2]]; [|split; [lia|done]]. split; [lia|]. exists o. by rewrite Z.sub_diag.
    + intros [H1 (o' & H2 & H3)]. destruct (decide (v = i)) as [->|]; [by left|right]. split; [lia|by exists o'].
Qed.

(** The layout of the outputs of a transaction. *)
Definition layout_ok (ly : Layout) (n : nat) : Prop :=
  spendable_vouts ly = spendable_from 0 (output (ly_tx ly))
  /\ n_outputs ly = multicast_index ly /\ multicast_index ly < shadow_base ly
  /\ shadow_end ly = shadow_base ly + Z.of_nat n - 1.

Lemma valid_spendable ly n v :
  layout_ok ly n -> 0 <= v -> is_valid_spend_vout (ly_tx ly) v = true <-> v ∈ spendable_vouts ly /\ 0 <= v.
Proof.
  intros [-> _] Hv. rewrite spendable_from_spec, Z.sub_0_r. unfold is_valid_spend_vout.
  destruct (output (ly_tx ly) !! Z.to_nat v) as [o|] eqn:E.
  - rewrite negb_true_iff. split; [intros H; split; [split; [done|by exists o]|done]|]. intros [(_ & o' & [= <-] & H) _]. done.
  - split; [done|]. by intros [(_ & o' & [=] & _) _].
Qed.

Lemma push_list_total t (l : list (SchemaAlkaneId * Z)) : forall e,
  Forall (fun x => 0 <= x.2) l ->
  entries_total t (foldl (fun e x => if 0 <? x.2 then e ++ [mkBalanceEntry x.1 x.2] else e) e l) = entries_total t e + listed t l.
Proof.
  induction l as [|[k a] l IH]; intros e Hl; cbn [foldl fst snd].
  { change (listed t []) with 0. lia. }
  apply Forall_cons in Hl as [Ha Hl]. cbn in Ha. rewrite IH, listed_cons by done. destruct (Z.ltb_spec 0 a).
  - rewrite entries_total_app, entries_total_one. lia.
  - assert (a = 0) as -> by lia. case_decide; lia.
Qed.

Lemma push_list_pos (l : list (SchemaAlkaneId * Z)) : forall e : list BalanceEntry,
  Forall (fun x => 0 < be_amount x) e ->
  Forall (fun x => 0 < be_amount x) (foldl (fun e x => if 0 <? x.2 then e ++ [mkBalanceEntry x.1 x.2] else e) e l).
Proof.
  induction l as [|[k a] l IH]; intros e He; cbn [foldl fst snd]; [done|]. apply IH. destruct (Z.ltb_spec 0 a); [|done].
  apply Forall_app. split; [done|by repeat constructor].
Qed.

Definition amounts_ok (m : gmap SchemaAlkaneId Z) : Prop := map_Forall (fun _ => in_amount) m.

Lemma amounts_pos m : amounts_ok m -> sheet_pos m.
Proof. intros H k v Hk. apply (H _ _ Hk). Qed.

Lemma amounts_entries m : amounts_ok m -> Forall (fun e => in_amount e.2) (btree_entries m).
Proof. intros H. apply Forall_forall. intros [k v] Hk. apply (proj2 (proj2 (btree_map_facts m))) in Hk. apply (H _ _ Hk). Qed.

(** A whole sheet to an output, with sources that do not exceed it. *)
Lemma push_sheet_routes ly r v delta sd :
  routing_ok ly r -> v ∈ spendable_vouts ly -> amounts_ok delta -> sourced_ok sd ->
  (forall t, sources_whole sd t <= sheet_at t delta) ->
  routes ly r (mkRouting (push_to_vout (out_map r) v delta) (push_sources_to_vout (receives r) v sd)
                 (incoming_shadow r) (incoming_shadow_sources r)) (fun t => sheet_at t delta) True.
Proof.
  intros Hr Hv Hd Hs Hle. unfold push_to_vout. case_bool_decide as He.
  { subst delta. split; try done.
    - split; try apply Hr. intros v' t. cbn [out_map receives]. destruct (decide (v' = v)) as [->|Hne].
      + pose proof (push_sources_le t (receives r) v sd Hs). pose proof (rk_attributed _ _ Hr v t).
        specialize (Hle t). unfold sheet_at in Hle. rewrite lookup_empty in Hle. cbn in Hle. lia.
      + rewrite push_sources_other by done. apply Hr.
    - intros t. unfold sheet_at. rewrite lookup_empty. unfold routed. cbn [out_map incoming_shadow from_option id]. lia.
    - intros t _ _. unfold sheet_at. rewrite lookup_empty. unfold routed. cbn [out_map incoming_shadow from_option id]. lia. }
  set (l := foldl _ (default [] (out_map r !! v)) (btree_entries delta)).
  assert (Hl : forall t, entries_total t l = entries_total t (default [] (out_map r !! v)) + sheet_at t delta).
  { intros t. unfold l. rewrite push_list_total by (by apply entries_pos, amounts_pos). by rewrite listed_entries. }
  split; try done.
  - split; cbn [out_map receives incoming_shadow incoming_shadow_sources]; try apply Hr.
    + apply map_Forall_insert_2; [|apply Hr]. split; [done|]. apply push_list_pos. by eapply outs_lookup_pos.
    + intros v' t. destruct (decide (v' = v)) as [->|Hne].
      * rewrite lookup_insert_eq. cbn [from_option id]. rewrite Hl.
        pose proof (push_sources_le t (receives r) v sd Hs). pose proof (rk_attributed _ _ Hr v t). specialize (Hle t). lia.
      * rewrite push_sources_other, lookup_insert_ne by done. apply Hr.
  - intros t. unfold routed. cbn [out_map incoming_shadow]. rewrite outs_total_insert, Hl. lia.
  - intros t _ _. unfold routed. cbn [out_map incoming_shadow]. rewrite outs_total_insert, Hl. lia.
Qed.

Lemma merge_sourced_ok a b : sourced_ok a -> sourced_ok b -> sourced_ok (merge_sourced_sheet a b).
Proof.
  intros Ha Hb. unfold merge_sourced_sheet. destruct (btree_map_facts b) as (_ & _ & Hel).
  assert (Hq : Forall (fun e : SchemaAlkaneId * list (AttributionSource * Z) => queue_ok e.2) (btree_entries b)).
  { apply Forall_forall. intros [k l] Hk%Hel. apply (Hb _ _ Hk). }
  revert a Ha Hq. generalize (btree_entries b) as l. induction l as [|[k q] l IH]; intros a Ha Hq; [done|]. cbn [foldl].
  apply Forall_cons in Hq as [Hq0 Hq]. apply IH; [by apply add_sources_ok|done].
Qed.

(** Where something can be delivered to. *)
Definition deliverable (ly : Layout) (target : Z) : Prop :=
  (target = multicast_index ly /\ spendable_vouts ly <> [])
  \/ (target < n_outputs ly /\ target ∈ spendable_vouts ly)
  \/ shadow_base ly <= target <= shadow_end ly.

Lemma outs_total_nonneg t m :
  map_Forall (fun (_ : Z) l => Forall (fun e => 0 < be_amount e) l) m -> 0 <= outs_total t m.
Proof.
  induction m as [|v l m Hv IH] using map_ind; intros H; [done|].
  apply map_Forall_insert in H as [H1 H2]; [|done]. rewrite outs_total_insert, Hv. cbn [from_option id].
  change (entries_total t []) with 0. specialize (IH H2).
  assert (0 <= entries_total t l); [|lia].
  clear -H1. induction H1 as [|e l He _ IH]; [done|]. unfold entries_total in *. cbn [foldr]. case_decide; lia.
Qed.

Lemma shadows_total_ge t l i m : Forall sheet_pos l -> l !! i = Some m -> 0 <= sheet_at t m <= shadows_total t l.
Proof.
  intros Hl Hi. split; [apply sheet_at_nonneg; by eapply Forall_lookup_1|]. revert i Hi.
  induction Hl as [|x l Hx Hl IH]; intros i; [done|].
  assert (Hrest : 0 <= shadows_total t l).
  { clear -Hl. induction Hl as [|y l Hy _ IH]; [done|]. cbn [shadows_total foldr]. unfold shadows_total in *.
    pose proof (sheet_at_nonneg t y Hy). lia. }
  pose proof (sheet_at_nonneg t x Hx). change (shadows_total t (x :: l)) with (sheet_at t x + shadows_total t l).
  destruct i as [|i]; cbn [lookup list_lookup]; [intros [= ->]; lia|]. intros Hi%IH. lia.
Qed.

Lemma routed_outs ly r t : routing_ok ly r -> 0 <= outs_total t (out_map r).
Proof. intros H. apply outs_total_nonneg. intros v l Hv. apply (rk_outs _ _ H _ _ Hv). Qed.

Lemma shadows_nonneg t l : Forall sheet_pos l -> 0 <= shadows_total t l.
Proof. induction 1 as [|m l Hm _ IH]; [done|]. pose proof (sheet_at_nonneg t m Hm). cbn. unfold shadows_total in IH. lia. Qed.

Lemma routed_nonneg ly r t : routing_ok ly r -> 0 <= routed t r.
Proof. intros Hr. pose proof (routed_outs ly r t Hr). pose proof (shadows_nonneg t _ (rk_shadows _ _ Hr)). unfold routed. lia. Qed.

Lemma shadow_routes ly r idx delta sd :
  routing_ok ly r -> (idx < length (incoming_shadow r))%nat -> amounts_ok delta -> sourced_ok sd ->
  routes ly r (mkRouting (out_map r) (receives r)
    (alter (fun sheet => credit_nonzero sheet delta) idx (incoming_shadow r))
    (alter (fun s => merge_sourced_sheet s sd) idx (incoming_shadow_sources r))) (fun t => sheet_at t delta) True.
Proof.
  intros Hr Hidx Hd Hs. apply lookup_lt_is_Some_2 in Hidx as [m Hm].
  assert (Hmp : sheet_pos m) by (eapply Forall_lookup_1; [apply Hr|exact Hm]).
  destruct (credit_nonzero_spec m delta Hmp (amounts_pos _ Hd)) as [C1 C2].
  split; cbn [incoming_shadow incoming_shadow_sources]; rewrite ?length_alter; try done.
  - split; cbn [out_map receives incoming_shadow incoming_shadow_sources]; try apply Hr.
    + apply Forall_alter; [apply Hr|]. intros x Hx Hp. apply credit_nonzero_spec; [done|by apply amounts_pos].
    + apply Forall_alter; [apply Hr|]. intros x Hx Hp. by apply merge_sourced_ok.
  - intros t. unfold routed. cbn [out_map incoming_shadow]. rewrite (shadows_total_alter t _ _ _ m) by done.
    cbn beta. specialize (C2 t). lia.
  - intros t _ Hlt. unfold routed in *. cbn [out_map incoming_shadow]. rewrite (shadows_total_alter t _ _ _ m) by done.
    cbn beta. pose proof (routed_outs ly r t Hr). pose proof (shadows_total_ge t _ _ _ (rk_shadows _ _ Hr) Hm).
    rewrite (proj2 (C2 t)); lia.
Qed.

Lemma route_delta_routes ly n r target delta sd :
  layout_ok ly n -> length (incoming_shadow r) = n -> routing_ok ly r -> 0 <= target -> amounts_ok delta -> sourced_ok sd ->
  (forall t, sources_whole sd t <= sheet_at t delta) ->
  routes ly r (route_delta ly target delta sd r) (fun t => sheet_at t delta) (deliverable ly target).
Proof.
  intros Hly Hn Hr Ht Hd Hs Hle. destruct Hly as (Hsp & Hmc & Hsb & Hse) eqn:Ely. clear Ely.
  assert (Hburn : forall f : Prop, ~ f -> routes ly r r (fun t => sheet_at t delta) f).
  { intros f Hf. eapply routes_weaken; [apply (routes_burn ly r (fun t => sheet_at t delta)); [done|]|done|done].
    intros t. by apply sheet_at_nonneg, amounts_pos. }
  unfold route_delta. case_bool_decide as He.
  { subst delta. eapply routes_weaken; [by apply routes_refl| |done]. intros t. unfold sheet_at. by rewrite lookup_empty. }
  destruct (Z.eqb_spec target (multicast_index ly)) as [->|Hm].
  { case_bool_decide as Hsv.
    - apply Hburn. intros [[_ H]|[[H _]|H]]; [done|lia|lia].
    - eapply routes_weaken; [apply (multicast_routes ly (btree_entries delta) sd r Hr Hsv); [by apply amounts_entries|done]| |done].
      intros t. symmetry. apply listed_entries. }
  destruct (Z.ltb_spec target (n_outputs ly)) as [Hlt|Hge].
  { destruct (is_valid_spend_vout (ly_tx ly) target) eqn:Ev; cbn [negb].
    - apply (valid_spendable ly n target Hly Ht) in Ev as [Ev _].
      eapply routes_weaken; [by apply push_sheet_routes|done|done].
    - apply Hburn. intros [[H _]|[[_ H]|H]]; [done| |lia].
      pose proof (proj2 (valid_spendable ly n target Hly Ht) (conj H Ht)). congruence. }
  destruct (Z.leb_spec (shadow_base ly) target), (Z.leb_spec target (shadow_end ly)); cbn [andb].
  - eapply routes_weaken; [apply (shadow_routes ly r (Z.to_nat (target - shadow_base ly)) delta sd); [done|lia|done|done]|done|done].
  - apply Hburn. intros [[H' _]|[[H' _]|H']]; [done|lia|lia].
  - apply Hburn. intros [[H' _]|[[H' _]|H']]; [done|lia|lia].
  - apply Hburn. intros [[H' _]|[[H' _]|H']]; [done|lia|lia].
Qed.

(** ** Edicts *)

Record edict_ok (ly : Layout) (n : nat) (s : EdictState) : Prop := {
  ek_sheet : amounts_ok (es_sheet s);
  ek_sources : sourced_ok (es_sources s);
  ek_routing : routing_ok ly (es_routing s);
  ek_len : length (incoming_shadow (es_routing s)) = n;
}.

Definition edict_total (t : SchemaAlkaneId) (s : EdictState) : Z := sheet_at t (es_sheet s) + routed t (es_routing s).

(** A step of the edicts loses nothing when [full], and never creates anything. *)
Record edict_step (ly : Layout) (n : nat) (s s' : EdictState) (full : Prop) : Prop := {
  st_ok : edict_ok ly n s';
  st_le t : edict_total t s' <= edict_total t s;
  st_eq t : full -> edict_total t s < u128_mod -> edict_total t s' = edict_total t s;
}.

Lemma sheet_debit_at t m k u :
  0 <= u -> sheet_pos m -> sheet_at t (sheet_debit m k u) = if decide (k = t) then Z.max 0 (sheet_at t m - u) else sheet_at t m.
Proof.
  intros Hu Hm. pose proof (sheet_at_nonneg k m Hm). unfold sheet_debit, u128_sat_sub. fold (sheet_at k m).
  destruct (Z.eqb_spec (Z.max 0 (sheet_at k m - u)) 0) as [He|He]; case_decide as D; try subst k; unfold sheet_at at 1.
  - rewrite lookup_delete_eq. cbn. lia.
  - by rewrite lookup_delete_ne.
  - by rewrite lookup_insert_eq.
  - by rewrite lookup_insert_ne.
Qed.

Lemma sheet_debit_amounts m k u : 0 <= u -> amounts_ok m -> amounts_ok (sheet_debit m k u).
Proof.
  intros Hu Hm. unfold sheet_debit, u128_sat_sub. destruct (_ =? 0); [by apply map_Forall_delete|].
  apply map_Forall_insert_2; [|done]. destruct (m !! k) as [a|] eqn:E; cbn [from_option id];
    [pose proof (Hm _ _ E)|]; unfold in_amount, u128_mod in *; lia.
Qed.

Lemma sheet_at_amount t m : amounts_ok m -> in_amount (sheet_at t m).
Proof. intros H. unfold sheet_at. destruct (m !! t) eqn:E; [apply (H _ _ E)|done]. Qed.

(** A debit that is routed. *)
Lemma debit_step ly n s k u sheet ss r full :
  edict_ok ly n s -> 0 <= u <= sheet_at k (es_sheet s) -> (forall t, sheet_at t sheet = sheet_at t (es_sheet s)) ->
  amounts_ok sheet -> sourced_ok ss -> routes ly (es_routing s) r (one k u) full ->
  edict_step ly n s (mkEdictState (sheet_debit sheet k u) ss r) full.
Proof.
  intros [E1 E2 E3 E4] Hu Hs Ha Hss [R1 R2 R3 R4].
  assert (Hat : forall t, sheet_at t (sheet_debit sheet k u) = sheet_at t (es_sheet s) - one k u t).
  { intros t. rewrite sheet_debit_at by (lia || by apply amounts_pos). unfold one. rewrite Hs. case_decide; [subst; lia|lia]. }
  split.
  - split; cbn; [apply sheet_debit_amounts; done || lia|done|done|congruence].
  - intros t. unfold edict_total. cbn [es_sheet es_routing]. rewrite Hat. specialize (R3 t). lia.
  - intros t Hf Hlt. unfold edict_total in *. cbn [es_sheet es_routing]. rewrite Hat.
    pose proof (sheet_at_nonneg t _ (amounts_pos _ (sheet_debit_amounts sheet k u ltac:(lia) Ha))) as Hnn. rewrite Hat in Hnn.
    rewrite (R4 t Hf) by lia. lia.
Qed.

Lemma single_sheet_at t k a : sheet_at t {[k := a]} = one k a t.
Proof.
  unfold sheet_at, one. case_decide as D; [subst; by rewrite lookup_singleton_eq|by rewrite lookup_singleton_ne].
Qed.

Lemma single_amounts k a : in_amount a -> amounts_ok {[k := a]}.
Proof. intros H. by apply map_Forall_singleton. Qed.

(** One token and its sources, taken from the sheets and routed. *)
Lemma take_and_route ly n s target k a :
  layout_ok ly n -> edict_ok ly n s -> 0 <= target -> in_amount a ->
  let x := take_sources_from_sheet (es_sources s) k a in
  sourced_ok x.2
  /\ routes ly (es_routing s) (route_delta ly target {[k := a]} (add_sources_to_sheet ∅ k x.1) (es_routing s)) (one k a)
       (deliverable ly target).
Proof.
  intros Hly [E1 E2 E3 E4] Ht Ha. pose proof (take_sources_le (es_sources s) k a E2 (proj1 Ha)) as (T1 & T2 & T3).
  destruct (take_sources_from_sheet (es_sources s) k a) as [l ss]. cbn [fst snd] in *. split; [done|].
  eapply routes_weaken; [apply (route_delta_routes ly n (es_routing s) target {[k := a]}); try done|intros t; symmetry; apply single_sheet_at|done].
  - by apply single_amounts.
  - by apply one_sheet_sources.
  - intros t. rewrite single_sheet_at. etransitivity; [apply add_sources_le; [apply map_Forall_empty|done]|].
    unfold sources_whole, sourced, one. rewrite lookup_empty. cbn [from_option id]. rewrite part_nil. case_decide; lia.
Qed.

Lemma direct_edict_step ly n out_idx k cap s :
  layout_ok ly n -> edict_ok ly n s -> 0 <= out_idx -> 0 <= cap ->
  edict_step ly n s (direct_edict ly out_idx k cap s) (deliverable ly out_idx).
Proof.
  intros Hly Hs Ho Hc. unfold direct_edict. fold (sheet_at k (es_sheet s)).
  pose proof (sheet_at_amount k _ (ek_sheet _ _ _ Hs)) as [H0 H1].
  set (need := if cap =? 0 then sheet_at k (es_sheet s) else Z.min cap (sheet_at k (es_sheet s))).
  assert (Hneed : 0 <= need <= sheet_at k (es_sheet s)) by (unfold need; destruct (Z.eqb_spec cap 0); lia).
  destruct (Z.eqb_spec need 0) as [Hz|Hz]; [split; done || lia|].
  rewrite Z.min_r by lia. pose proof (take_and_route ly n s out_idx k need Hly Hs Ho ltac:(unfold in_amount; lia)) as [T1 T2].
  destruct (take_sources_from_sheet (es_sources s) k need) as [l ss]. cbn [fst snd] in *.
  rewrite (proj2 (Z.eqb_neq need 0)) by done. apply debit_step; try done. apply Hs.
Qed.

(** ** Capped multicast *)

Lemma capped_walk_routes ly k cap vouts : forall remaining used ss r,
  (forall v, v ∈ vouts -> v ∈ spendable_vouts ly) -> routing_ok ly r -> sourced_ok ss -> 0 <= cap -> 0 <= remaining -> 0 <= used ->
  used + remaining < u128_mod ->
  let x := capped_walk k cap remaining used vouts ss r in
  used <= x.1.1 <= used + remaining /\ sourced_ok x.1.2 /\ routes ly r x.2 (one k (x.1.1 - used)) True.
Proof.
  induction vouts as [|v vouts IH]; intros remaining used ss r Hv Hr Hs Hc Hrem Hu Hlt; cbn [capped_walk].
  all: assert (Hstop : used <= used <= used + remaining /\ sourced_ok ss /\ routes ly r r (one k (used - used)) True).
  1, 3: split_all; [lia|lia|done|]; eapply routes_weaken; [by apply routes_refl| |done]; intros t; unfold one; case_decide; lia.
  { exact Hstop. }
  destruct (Z.eqb_spec remaining 0); [exact Hstop|]. destruct (Z.eqb_spec (Z.min remaining cap) 0); [exact Hstop|].
  clear Hstop. set (give := Z.min remaining cap) in *.
  pose proof (take_sources_le ss k give Hs ltac:(lia)) as (T1 & T2 & T3).
  destruct (take_sources_from_sheet ss k give) as [l ss']. cbn [fst snd] in *.
  pose proof (deliver_routes ly r v k give l Hr (Hv v ltac:(by left)) ltac:(lia) T1 T3) as D.
  unfold u128_sat_sub. rewrite (Z.max_r 0 (remaining - give)), (sat_add_exact used give) by lia.
  destruct (IH (remaining - give) (used + give) ss' _ ltac:(intros; apply Hv; by right) (ro_ok _ _ _ _ _ D) T2 Hc
    ltac:(lia) ltac:(lia) ltac:(lia)) as (I1 & I2 & I3).
  destruct (capped_walk _ _ _ _ _ _ _) as [[used' ss2] r2]. cbn [fst snd] in *. split_all; [lia|lia|done|].
  eapply routes_weaken; [eapply routes_trans; [|exact D|exact I3]; intros; apply one_nonneg; lia| |done].
  intros t. unfold one. case_decide; lia.
Qed.

(** ** Multicast before version 2.1.7 *)

Abbreviation Deferred := (list (Z * gmap SchemaAlkaneId (list (AttributionSource * Z)))) (only parsing).

Definition deferred_total (l : Deferred) : Z := foldr (fun e acc => e.1 + acc) 0 l.
Definition deferred_ok (k : SchemaAlkaneId) (l : Deferred) : Prop :=
  Forall (fun e => 0 < e.1 /\ sourced_ok e.2 /\ forall t, sources_whole e.2 t <= one k e.1 t) l.

Lemma deferred_app l1 l2 : deferred_total (l1 ++ l2) = deferred_total l1 + deferred_total l2.
Proof. induction l1 as [|e l IH]; [done|]. unfold deferred_total in *. cbn [app foldr]. lia. Qed.

Lemma deferred_nonneg k l : deferred_ok k l -> 0 <= deferred_total l.
Proof. induction 1 as [|e l He _ IH]; [done|]. unfold deferred_total in *. cbn [foldr]. lia. Qed.

Record legacy_ok (ly : Layout) (k : SchemaAlkaneId) (have : Z) (w : LegacyWalk) : Prop := {
  lo_routing : routing_ok ly (lw_routing w);
  lo_sources : sourced_ok (lw_sources w);
  lo_deferred : deferred_ok k (lw_deferred w);
  lo_sum : lw_used w + lw_remaining w = have;
  lo_remaining : 0 <= lw_remaining w;
  lo_used : deferred_total (lw_deferred w) <= lw_used w;
}.

Lemma legacy_walk_routes ly k cap have outs : forall idx w,
  (forall j o, outs !! j = Some o -> spk_is_op_return (script_pubkey o) = false -> idx + Z.of_nat j ∈ spendable_vouts ly) ->
  0 <= cap -> have < u128_mod -> legacy_ok ly k have w ->
  let w' := legacy_walk k cap idx outs w in
  legacy_ok ly k have w'
  /\ routes ly (lw_routing w) (lw_routing w')
       (one k ((lw_used w' - deferred_total (lw_deferred w')) - (lw_used w - deferred_total (lw_deferred w)))) True
  /\ lw_used w - deferred_total (lw_deferred w) <= lw_used w' - deferred_total (lw_deferred w').
Proof.
  induction outs as [|o outs IH]; intros idx w Hv Hc Hlt Hw; cbn [legacy_walk].
  all: assert (Hstop : legacy_ok ly k have w /\ routes ly (lw_routing w) (lw_routing w)
    (one k ((lw_used w - deferred_total (lw_deferred w)) - (lw_used w - deferred_total (lw_deferred w)))) True
    /\ lw_used w - deferred_total (lw_deferred w) <= lw_used w - deferred_total (lw_deferred w)).
  1, 3: split_all; [done| |lia]; eapply routes_weaken; [apply routes_refl, Hw| |done]; intros t; unfold one; case_decide; lia.
  { exact Hstop. }
  pose proof (lo_remaining _ _ _ _ Hw) as H0. pose proof (lo_sum _ _ _ _ Hw) as Hsum. pose proof (lo_used _ _ _ _ Hw) as Hud.
  pose proof (deferred_nonneg _ _ (lo_deferred _ _ _ _ Hw)) as Hd0.
  destruct (Z.eqb_spec (lw_remaining w) 0); [exact Hstop|].
  destruct (Z.eqb_spec (Z.min (lw_remaining w) cap) 0); [exact Hstop|]. clear Hstop.
  set (give := Z.min (lw_remaining w) cap) in *.
  pose proof (take_sources_le (lw_sources w) k give (lo_sources _ _ _ _ Hw) ltac:(lia)) as (T1 & T2 & T3).
  destruct (take_sources_from_sheet (lw_sources w) k give) as [l ss]. cbn [fst snd] in *.
  unfold u128_sat_sub. rewrite (Z.max_r 0 (lw_remaining w - give)), (sat_add_exact (lw_used w) give) by lia.
  assert (Hv' : forall j o', outs !! j = Some o' -> spk_is_op_return (script_pubkey o') = false ->
    idx + 1 + Z.of_nat j ∈ spendable_vouts ly).
  { intros j o' Hj Ho. replace (idx + 1 + Z.of_nat j) with (idx + Z.of_nat (S j)) by lia. by apply (Hv (S j) o'). }
  destruct (spk_is_op_return (script_pubkey o)) eqn:Eo.
  - set (w1 := mkLegacy _ _ _ _ _ _).
    assert (Hw1 : legacy_ok ly k have w1).
    { split; unfold w1; cbn [lw_routing lw_sources lw_deferred lw_used lw_remaining]; [apply Hw|done| |lia|lia|].
      - apply Forall_app. split; [apply Hw|]. repeat constructor; cbn [fst snd]; [lia|by apply one_sheet_sources|].
        intros t. etransitivity; [apply add_sources_le; [apply map_Forall_empty|done]|].
        unfold sources_whole, sourced, one. rewrite lookup_empty. cbn [from_option id]. rewrite part_nil. case_decide; lia.
      - rewrite deferred_app. unfold deferred_total at 2. cbn. lia. }
    destruct (IH (idx + 1) w1 Hv' Hc Hlt Hw1) as (I1 & I2 & I3).
    assert (He : lw_used w1 - deferred_total (lw_deferred w1) = lw_used w - deferred_total (lw_deferred w)).
    { unfold w1. cbn [lw_used lw_deferred]. rewrite deferred_app. unfold deferred_total at 2. cbn. lia. }
    rewrite He in I2, I3. by split_all.
  - set (w1 := mkLegacy _ _ _ _ _ _).
    assert (Hin : idx ∈ spendable_vouts ly) by (rewrite <- (Z.add_0_r idx); by apply (Hv 0%nat o)).
    pose proof (deliver_routes ly _ idx k give l (lo_routing _ _ _ _ Hw) Hin ltac:(lia) T1 T3) as D.
    assert (Hw1 : legacy_ok ly k have w1).
    { split; unfold w1; cbn [lw_routing lw_sources lw_deferred lw_used lw_remaining]; [apply D|done|apply Hw|lia|lia|lia]. }
    destruct (IH (idx + 1) w1 Hv' Hc Hlt Hw1) as (I1 & I2 & I3).
    assert (He : lw_used w1 - deferred_total (lw_deferred w1) = lw_used w - deferred_total (lw_deferred w) + give).
    { unfold w1. cbn [lw_used lw_deferred]. lia. }
    rewrite He in I2, I3. change (lw_routing w1) with (deliver idx k give l (lw_routing w)) in I2.
    split_all; [done| |lia].
    eapply routes_weaken; [eapply routes_trans; [|exact D|exact I2]; intros; apply one_nonneg; lia| |done].
    intros t. unfold one. case_decide; lia.
Qed.

(** The spendable outputs come in order, so a walk that starts at one of them has all the
    later ones before it. *)
Lemma spendable_sorted outs : forall i, StronglySorted Z.lt (spendable_from i outs).
Proof.
  induction outs as [|o outs IH]; intros i; cbn [spendable_from]; [constructor|]. destruct (spk_is_op_return _); [apply IH|].
  constructor; [apply IH|]. apply Forall_forall. intros v Hv%spendable_from_spec. lia.
Qed.

Lemma filter_everything (l : list Z) from : Forall (fun v => from <= v) l -> filter (fun v => from <= v) l = l.
Proof. induction 1 as [|v l Hv _ IH]; [done|]. by rewrite filter_cons, decide_True, IH. Qed.

Lemma filter_after (l : list Z) from v vs :
  StronglySorted Z.lt l -> filter (fun u => from <= u) l = v :: vs -> filter (fun u => v + 1 <= u) l = vs.
Proof.
  induction 1 as [|x l Hs IH Hx]; [done|]. rewrite !filter_cons. destruct (decide (from <= x)) as [Hf|Hf].
  - intros [= <- <-]. rewrite decide_False by lia. rewrite !filter_everything; [done|..]; eapply Forall_impl; [exact Hx|cbn; lia|exact Hx|cbn; lia].
  - intros E. rewrite decide_False; [by apply IH|]. assert (Hv : v ∈ filter (fun u => from <= u) l) by (rewrite E; by left).
    apply list_elem_of_filter in Hv as [Hv _]. lia.
Qed.

(** Before 2.1.7 nothing is lost either: the walk is taken only when the spendable outputs
    have room, and what falls to an [OP_RETURN] leaves a spendable output behind it free. *)
Definition walked_to (w : LegacyWalk) : Z := match last_consumed_idx w with Some idx => idx + 1 | None => 0 end.

Lemma room_step rem cap d : 0 < cap -> 0 < rem -> rem <= d * cap -> rem - Z.min rem cap <= (d - 1) * cap.
Proof. intros Hc Hr Hd. assert (1 <= d) by nia. destruct (Z.min_spec rem cap) as [[? ->]|[? ->]]; nia. Qed.

Lemma legacy_walk_whole k cap outs : forall idx w,
  0 < cap -> 0 <= lw_remaining w -> walked_to w = idx ->
  lw_remaining w <= (Z.of_nat (length (spendable_from idx outs)) - Z.of_nat (length (lw_deferred w))) * cap ->
  let w' := legacy_walk k cap idx outs w in
  lw_remaining w' = 0 /\ idx <= walked_to w'
  /\ (length (lw_deferred w') <= length (filter (fun v => (walked_to w' <= v)%Z) (spendable_from idx outs)))%nat.
Proof.
  induction outs as [|o outs IH]; intros idx w Hc H0 Hw Hroom; cbn [legacy_walk].
  { cbn in *. rewrite Hw. split_and!; [nia|lia|nia]. }
  destruct (Z.eqb_spec (lw_remaining w) 0) as [Hz|Hz].
  { rewrite Hw. split_and!; [done|lia|]. rewrite filter_everything; [nia|].
    apply Forall_forall. intros v Hv%spendable_from_spec. lia. }
  destruct (Z.eqb_spec (Z.min (lw_remaining w) cap) 0); [lia|]. destruct (take_sources_from_sheet _ _ _) as [l ss].
  unfold u128_sat_sub. rewrite (Z.max_r 0 (_ - _)) by lia. cbn [spendable_from] in *. set (w1 := if spk_is_op_return _ then _ else _).
  assert (Hrem : lw_remaining w1 = lw_remaining w - Z.min (lw_remaining w) cap) by (unfold w1; by destruct (spk_is_op_return _)).
  assert (Hto : walked_to w1 = idx + 1) by (unfold w1; by destruct (spk_is_op_return _)).
  destruct (spk_is_op_return (script_pubkey o)) eqn:Eo.
  - destruct (IH (idx + 1) w1 Hc ltac:(lia) Hto) as (I1 & I2 & I3); [|by split_and!; [|lia|]].
    rewrite Hrem. unfold w1. cbn [lw_deferred]. rewrite length_app. cbn [length]. etransitivity; [apply room_step; [done|lia|exact Hroom]|]. apply Z.eq_le_incl. lia.
  - destruct (IH (idx + 1) w1 Hc ltac:(lia) Hto) as (I1 & I2 & I3); [|split_and!; [done|lia|]; rewrite filter_cons, decide_False by lia; exact I3].
    rewrite Hrem. unfold w1. cbn [lw_deferred length] in *. etransitivity; [apply room_step; [done|lia|exact Hroom]|]. apply Z.eq_le_incl. lia.
Qed.

Lemma hand_out_routes ly n k l : forall from r,
  layout_ok ly n -> routing_ok ly r -> deferred_ok k l ->
  exists a, 0 <= a <= deferred_total l /\ routes ly r (hand_out k (spendable_vouts ly) from l r) (one k a) True
    /\ ((length l <= length (filter (fun v => (from <= v)%Z) (spendable_vouts ly)))%nat -> a = deferred_total l).
Proof.
  induction l as [|[a sd] l IH]; intros from r Hly Hr Hl; cbn [hand_out].
  { exists 0. split; [done|]. split; [|done]. eapply routes_weaken; [by apply routes_refl| |done]. intros t. unfold one. by case_decide. }
  apply Forall_cons in Hl as [(Ha & Hs & Hle) Hl]. cbn [fst snd] in *.
  change (deferred_total ((a, sd) :: l)) with (a + deferred_total l).
  unfold next_spendable. destruct (filter (fun v => from <= v) (spendable_vouts ly)) as [|v vs] eqn:Ef; cbn [head].
  - destruct (IH from r Hly Hr Hl) as (b & Hb & R & _). exists b. split; [lia|]. split; [done|]. cbn. lia.
  - assert (Hv : v ∈ spendable_vouts ly).
    { assert (H : v ∈ filter (fun v => from <= v) (spendable_vouts ly)) by (rewrite Ef; by left). by apply list_elem_of_filter in H as [_ H]. }
    pose proof (deliver_entry ly r v k a sd Hr Hv Ha Hs Hle) as D.
    destruct (IH (v + 1) _ Hly (ro_ok _ _ _ _ _ D) Hl) as (b & Hb & R & Hall). exists (a + b). split; [lia|]. split.
    + eapply routes_weaken; [eapply routes_trans; [|exact D|exact R]; intros; apply one_nonneg; lia| |done].
      intros t. unfold one. case_decide; lia.
    + intros Hlen. rewrite (filter_after _ from v vs) in Hall; [|rewrite (proj1 Hly); apply spendable_sorted|done]. cbn in Hlen. rewrite Hall; lia.
Qed.

Lemma edict_step_refl ly n s full : edict_ok ly n s -> edict_step ly n s s full.
Proof. intros H. split; done || lia. Qed.

Lemma edict_step_weaken ly n s s' (f f' : Prop) : edict_step ly n s s' f -> (f' -> f) -> edict_step ly n s s' f'.
Proof. intros [A1 A2 A3] H. split; try done. intros t F. by apply A3, H. Qed.

Lemma insert_same_at t m k : sheet_at t (<[k := sheet_at k m]> m) = sheet_at t m.
Proof.
  unfold sheet_at at 1. destruct (decide (k = t)) as [->|D]; [by rewrite lookup_insert_eq|by rewrite lookup_insert_ne].
Qed.

Lemma multicast_edict_step ly n height k cap s :
  layout_ok ly n -> edict_ok ly n s -> 0 <= cap -> spendable_vouts ly <> [] -> 0 <= multicast_index ly ->
  edict_step ly n s (multicast_edict ly height k cap s) True.
Proof.
  intros Hly Hs Hc Hsv Hmi. unfold multicast_edict. fold (sheet_at k (es_sheet s)).
  pose proof (sheet_at_amount k _ (ek_sheet _ _ _ Hs)) as Ha. pose proof Ha as [H0 H1].
  set (sheet := <[k := sheet_at k (es_sheet s)]> (es_sheet s)).
  assert (Hat : forall t, sheet_at t sheet = sheet_at t (es_sheet s)) by (intros t; apply insert_same_at).
  assert (Hamt : amounts_ok sheet) by (apply map_Forall_insert_2; [done|apply Hs]).
  destruct (Z.eqb_spec (sheet_at k (es_sheet s)) 0) as [Hz|Hz].
  { split.
    - split; cbn; [done|apply Hs|apply Hs|apply Hs].
    - intros t. unfold edict_total. cbn [es_sheet es_routing]. rewrite Hat. lia.
    - intros t _ _. unfold edict_total. cbn [es_sheet es_routing]. by rewrite Hat. }
  destruct (Z.eqb_spec cap 0) as [Hcz|Hcz].
  { pose proof (take_and_route ly n s (multicast_index ly) k _ Hly Hs Hmi Ha) as [T1 T2].
    destruct (take_sources_from_sheet (es_sources s) k (sheet_at k (es_sheet s))) as [l ss]. cbn [fst snd] in *.
    assert (Hdel : delete k sheet = sheet_debit sheet k (sheet_at k (es_sheet s))).
    { unfold sheet_debit, u128_sat_sub. fold (sheet_at k sheet). rewrite Hat, Z.sub_diag. done. }
    rewrite Hdel. eapply edict_step_weaken; [by apply debit_step|]. intros _. by left. }
  destruct ((height <? ALKANES_V217_EDICT_FIX_HEIGHT) && _) eqn:Elg.
  - apply andb_prop in Elg as [_ Hroom%Z.leb_le].
    set (w0 := mkLegacy _ 0 [] None _ _).
    assert (Hw0 : legacy_ok ly k (sheet_at k (es_sheet s)) w0).
    { split; unfold w0; cbn; [apply Hs|apply Hs|constructor|lia|lia|lia]. }
    destruct (legacy_walk_routes ly k cap (sheet_at k (es_sheet s)) (output (ly_tx ly)) 0 w0) as (L1 & L2 & L3); [|done|done|done|].
    { intros j o Hj Ho. rewrite (proj1 Hly), spendable_from_spec. split; [lia|]. exists o.
      by replace (Z.to_nat (0 + Z.of_nat j - 0)) with j by lia. }
    set (w := legacy_walk _ _ _ _ _) in *.
    destruct (hand_out_routes ly n k (lw_deferred w) (walked_to w) _ Hly (lo_routing _ _ _ _ L1) (lo_deferred _ _ _ _ L1)) as (b & Hb & R & Hall).
    destruct (legacy_walk_whole k cap (output (ly_tx ly)) 0 w0) as (W1 & _ & W3); [lia|done|done| |].
    { cbn. rewrite <- (proj1 Hly). lia. }
    fold w in W1, W3. rewrite <- (proj1 Hly) in W3. rewrite (Hall W3) in R.
    pose proof (lo_used _ _ _ _ L1). pose proof (lo_sum _ _ _ _ L1). pose proof (lo_remaining _ _ _ _ L1).
    pose proof (deferred_nonneg _ _ (lo_deferred _ _ _ _ L1)).
    apply debit_step; try done; [lia|apply L1|].
    eapply routes_weaken; [eapply routes_trans; [|exact L2|exact R]; intros; apply one_nonneg; lia| |done].
    intros t. unfold one, w0. cbn [lw_used lw_deferred]. change (deferred_total []) with 0. case_decide; lia.
  - destruct (capped_walk_routes ly k cap (spendable_vouts ly) (sheet_at k (es_sheet s)) 0 (es_sources s) (es_routing s))
      as (C1 & C2 & C3); try done; try lia; try apply Hs.
    destruct (capped_walk _ _ _ _ _ _ _) as [[used ss] r]. cbn [fst snd] in *. rewrite Z.sub_0_r in C3.
    eapply edict_step_weaken; [apply debit_step; try done; lia|done].
Qed.

(** An edict that is applied or skipped. *)
Definition edict_typed (ed : ProtostoneEdict) : Prop := 0 <= pe_amount ed /\ 0 <= pe_output ed.

Lemma single_edict_step ly n height ed s :
  layout_ok ly n -> edict_ok ly n s -> edict_typed ed -> 0 <= multicast_index ly ->
  edict_step ly n s (default s (apply_single_edict ly height ed s))
    (deliverable ly (pe_output ed)).
Proof.
  intros Hly Hs [Ha Ho] Hmi. unfold apply_single_edict.
  destruct (_ && _); [by apply edict_step_refl|]. unfold u128_to_u32.
  destruct (pe_output ed <? 2 ^ 32); cbn [mbind option_bind]; [|by apply edict_step_refl].
  destruct (schema_id_from_parts _ _) as [rid|]; cbn [mbind option_bind from_option id]; [|by apply edict_step_refl].
  destruct (Z.eqb_spec (pe_output ed) (multicast_index ly)) as [He|He].
  - case_bool_decide as Hsv; [by apply edict_step_refl|].
    eapply edict_step_weaken; [by apply multicast_edict_step|done].
  - by apply (direct_edict_step ly n).
Qed.

Lemma edict_step_trans ly n s1 s2 s3 f1 f2 :
  edict_step ly n s1 s2 f1 -> edict_step ly n s2 s3 f2 -> edict_step ly n s1 s3 (f1 /\ f2).
Proof.
  intros [A1 A2 A3] [B1 B2 B3]. split; [done| |].
  - intros t. specialize (A2 t). specialize (B2 t). lia.
  - intros t [F1 F2] Hlt. rewrite (B3 t F2); [by apply A3|]. specialize (A2 t). lia.
Qed.

Lemma apply_edicts_step ly n height eds : forall s,
  layout_ok ly n -> edict_ok ly n s -> Forall edict_typed eds -> 0 <= multicast_index ly ->
  edict_step ly n s (apply_edicts ly height eds s)
    (Forall (fun ed => deliverable ly (pe_output ed)) eds).
Proof.
  unfold apply_edicts. induction eds as [|ed eds IH]; intros s Hly Hs Ht Hmi; cbn [foldl]; [by apply edict_step_refl|].
  apply Forall_cons in Ht as [Hed Ht]. pose proof (single_edict_step ly n height ed s Hly Hs Hed Hmi) as S1.
  eapply edict_step_weaken; [eapply edict_step_trans; [exact S1|apply IH; try done; apply S1]|].
  by intros [H1 H2]%Forall_cons.
Qed.

(** ** What is left *)

Lemma take_for_delta_ok sheet delta :
  sourced_ok sheet -> amounts_ok delta ->
  let x := take_sources_for_delta sheet delta in
  sourced_ok x.1 /\ forall t, sources_whole x.1 t <= sheet_at t delta.
Proof.
  intros Hs Hd. unfold take_sources_for_delta.
  assert (H : forall l out sh, sourced_ok out -> sourced_ok sh -> Forall (fun e => in_amount e.2) l ->
    let x := foldl (fun '(out, sheet) (e : SchemaAlkaneId * Z) =>
      let '(sources, sheet') := take_sources_from_sheet sheet e.1 e.2 in
      (add_sources_to_sheet out e.1 sources, sheet')) (out, sh) l in
    sourced_ok x.1 /\ forall t, sources_whole x.1 t <= sources_whole out t + listed t l).
  { induction l as [|[k a] l IH]; intros out sh Ho Hsh Hl; cbn [foldl fst snd].
    { split; [done|]. intros t. change (listed t []) with 0. lia. }
    apply Forall_cons in Hl as [Ha Hl]. cbn [snd] in Ha.
    pose proof (take_sources_le sh k a Hsh (proj1 Ha)) as (T1 & T2 & T3).
    destruct (take_sources_from_sheet sh k a) as [q sh']. cbn [fst snd] in *.
    destruct (IH (add_sources_to_sheet out k q) sh') as [I1 I2]; [by apply add_sources_ok|done|done|].
    split; [done|]. intros t. etransitivity; [apply I2|]. rewrite listed_cons.
    pose proof (add_sources_le out k q t Ho T1). unfold one in *. case_decide; lia. }
  destruct (H (btree_entries delta) ∅ sheet) as [H1 H2]; [apply map_Forall_empty|done|by apply amounts_entries|].
  split; [done|]. intros t. etransitivity; [apply H2|]. rewrite listed_entries.
  unfold sources_whole, sourced. rewrite lookup_empty. cbn [from_option id]. rewrite part_nil. lia.
Qed.

Definition pointer_ok (ly : Layout) (p : option Z) : Prop :=
  match p with Some target => deliverable ly target | None => spendable_vouts ly <> [] end.

Lemma route_rest_routes ly n ps s :
  layout_ok ly n -> edict_ok ly n s -> (forall p, ps_pointer ps = Some p -> 0 <= p) ->
  routes ly (es_routing s) (route_rest ly ps s) (fun t => sheet_at t (es_sheet s)) (pointer_ok ly (ps_pointer ps)).
Proof.
  intros Hly [E1 E2 E3 E4] Hp. unfold route_rest. case_bool_decide as He.
  { eapply routes_weaken; [by apply routes_refl| |done]. intros t. rewrite He. unfold sheet_at. by rewrite lookup_empty. }
  pose proof (take_for_delta_ok (es_sources s) (es_sheet s) E2 E1) as [T1 T2].
  destruct (take_sources_for_delta (es_sources s) (es_sheet s)) as [sd rest]. cbn [fst] in *. unfold pointer_ok.
  destruct (ps_pointer ps) as [p|]; [apply (route_delta_routes ly n); try done; by apply Hp|].
  destruct (spendable_vouts ly) as [|v vs] eqn:Ev; cbn [head].
  - eapply routes_weaken; [apply routes_burn; [done|]|done|done]. intros t. by apply sheet_at_nonneg, amounts_pos.
  - eapply routes_weaken; [apply push_sheet_routes; try done|done|done]. rewrite Ev. by left.
Qed.

(** ** Filling a sheet *)

Lemma credit_amounts m d : amounts_ok m -> sheet_pos d -> amounts_ok (credit_nonzero m d).
Proof.
  intros Hm Hd. unfold credit_nonzero. pose proof (entries_pos d Hd) as Hl. revert m Hm.
  induction Hl as [|[k v] l Hv _ IH]; intros m Hm; [done|]. cbn [foldl fst snd]. apply IH. cbn in Hv.
  destruct (v =? 0); [done|]. apply map_Forall_insert_2; [|done]. apply sat_add_range; [|done].
  apply (sheet_at_nonneg k m). by apply amounts_pos.
Qed.

Lemma listed_perm t l1 l2 : l1 ≡ₚ l2 -> listed t l1 = listed t l2.
Proof. induction 1 as [|[k a] l l' _ IH|[k a] [j b] l|l1 l2 l3 _ IH1 _ IH2]; rewrite ?listed_cons; lia || done. Qed.

Lemma drain_all_spec u :
  amounts_ok (un_map u) ->
  amounts_ok (drain_all u).1 /\ forall t, sheet_at t (drain_all u).1 = sheet_at t (un_map u).
Proof.
  intros Hu. unfold drain_all. cbn [fst].
  assert (Hl : Forall (fun e => 0 <= e.2) (map_to_list (un_map u))).
  { apply Forall_forall. intros [k v] Hk%elem_of_map_to_list. apply (Hu _ _ Hk). }
  destruct (credit_list_spec (map_to_list (un_map u)) ∅ (map_Forall_empty _) Hl) as [C1 C2].
  assert (Heq : forall t, sheet_at t (foldl (fun merged e => if e.2 =? 0 then merged else sheet_credit merged e.1 e.2) ∅
      (map_to_list (un_map u))) = sheet_at t (un_map u)).
  { intros t. specialize (C2 t).
    rewrite (listed_perm t _ (btree_entries (un_map u))), listed_entries in C2 by (symmetry; apply btree_entries_perm).
    pose proof (sheet_at_amount t _ Hu) as [H1 H2]. assert (He : sheet_at t ∅ = 0) by done. rewrite He in C2.
    rewrite (proj2 C2); lia. }
  split; [|exact Heq]. intros k v Hk. specialize (Heq k). unfold sheet_at at 1 in Heq. rewrite Hk in Heq. cbn in Heq.
  rewrite Heq. by apply sheet_at_amount.
Qed.

Lemma nets_sheet_amounts ts : amounts_ok (nets_sheet ts).
Proof.
  unfold nets_sheet. assert (H : forall m, amounts_ok m -> amounts_ok (foldl (fun m t =>
    match transfer_parts t with Some (k, val) => sheet_credit m k val | None => m end) m ts)); [|by apply H, map_Forall_empty].
  induction ts as [|x ts IH]; intros m Hm; [done|]. cbn [foldl]. apply IH.
  destruct (transfer_parts x) as [[k v]|] eqn:E; [|done]. apply map_Forall_insert_2; [|done].
  apply sat_add_range; [apply (sheet_at_nonneg k m); by apply amounts_pos|].
  revert E. unfold transfer_parts. repeat case_match; try done. intros [= <- <-]. by eapply parse_hex_u128_range.
Qed.

Lemma total_nonneg l : queue_ok l -> 0 <= source_amounts_total l.
Proof.
  unfold source_amounts_total. assert (H : forall a, 0 <= a -> queue_ok l -> 0 <= foldl (fun acc e => u128_sat_add acc e.2) a l);
    [|by apply H]. induction l as [|[s v] l IH]; intros a Ha Hl; [done|]. apply Forall_cons in Hl as [Hv Hl]. cbn in Hv.
  cbn [foldl snd]. apply IH; [|done]. unfold u128_sat_add, u128_mod. lia.
Qed.

Lemma top_up_ok l o a : queue_ok l -> queue_ok (top_up l o a).
Proof.
  intros Hl. unfold top_up. destruct (Z.ltb_spec (source_amounts_total l) a); [|done]. apply add_source_amount_spec; [done|lia].
Qed.

Lemma final_sources_ok root inc out : sourced_ok inc -> amounts_ok out -> sourced_ok (final_trace_return_sources root inc out).
Proof.
  intros Hi Ho. unfold final_trace_return_sources. pose proof (amounts_entries out Ho) as Hl. revert Hl.
  assert (H0 : sourced_ok (∅ : gmap SchemaAlkaneId (list (AttributionSource * Z)))) by apply map_Forall_empty.
  revert H0 Hi. generalize (∅ : gmap SchemaAlkaneId (list (AttributionSource * Z))) as o. generalize (btree_entries out) as l.
  intros l. revert inc. induction l as [|[k a] l IH]; intros inc o H0 Hi Hl; [done|]. apply Forall_cons in Hl as [Ha Hl].
  cbn [foldl fst snd] in *. destruct (a =? 0); [by apply IH|].
  pose proof (take_sources_le inc k a Hi (proj1 Ha)) as (T1 & T2 & _).
  destruct (take_sources_from_sheet inc k a) as [q inc']. cbn [fst snd] in *.
  apply IH; [apply add_sources_ok; [done|by apply top_up_ok]|done|done].
Qed.

Section Protostones.
Context {crates : TraceCrates} {P : Type} {projector : MempoolContractProjector P}.
Context (ly : Layout) (n : nat) (traces : gmap Z EspoSandshrewLikeTrace) (height : Z) (host : EspoHostFunctionValues).
Context (Hly : layout_ok ly n) (Hmi : 0 <= multicast_index ly).

Record sheet_okay (sh : Sheet) : Prop := {
  sy_amounts : amounts_ok (sh_amounts sh);
  sy_sources : sourced_ok (sh_sources sh);
}.

(** The state between protostones, without a projector. *)
Record transfers_ok (s : @Transfers P) : Prop := {
  to_routing : routing_ok ly (tr_routing s);
  to_len : length (incoming_shadow (tr_routing s)) = n;
  to_seed : amounts_ok (un_map (seed_unalloc s));
  to_sources : sourced_ok (seed_sources s);
  to_projector : tr_projector s = None;
}.

Lemma open_sheet_ok i s :
  transfers_ok s -> (i < n)%nat ->
  let x := open_sheet i s in
  sheet_okay x.1 /\ transfers_ok x.2 /\ seed_unalloc x.2 = seed_unalloc s
  /\ forall t, sheet_at t (sh_amounts x.1) + routed t (tr_routing x.2) <= routed t (tr_routing s)
       /\ (routed t (tr_routing s) < u128_mod ->
           sheet_at t (sh_amounts x.1) + routed t (tr_routing x.2) = routed t (tr_routing s)).
Proof.
  intros [H1 H2 H3 H4 H5] Hi. unfold open_sheet. cbn [fst snd].
  destruct (lookup_lt_is_Some_2 (incoming_shadow (tr_routing s)) i ltac:(lia)) as [m Em].
  assert (Hm : sheet_pos m) by (eapply Forall_lookup_1; [apply H1|exact Em]).
  assert (Hsrc : sourced_ok (default ∅ (incoming_shadow_sources (tr_routing s) !! i))).
  { destruct (incoming_shadow_sources (tr_routing s) !! i) eqn:E; [|apply map_Forall_empty].
    eapply Forall_lookup_1; [apply H1|exact E]. }
  split_all; [split; cbn| | |].
  - rewrite Em. apply credit_amounts; [apply map_Forall_empty|done].
  - apply merge_sourced_ok; [apply map_Forall_empty|done].
  - split; cbn [tr_routing seed_unalloc seed_sources tr_projector incoming_shadow]; rewrite ?length_insert; try done.
    split; cbn [out_map receives incoming_shadow incoming_shadow_sources]; try apply H1.
    + apply Forall_insert; [apply H1|apply map_Forall_empty].
    + apply Forall_insert; [apply H1|apply map_Forall_empty].
  - done.
  - intros t. cbn [sh_amounts tr_routing]. rewrite Em. cbn [from_option id].
    destruct (credit_nonzero_spec ∅ m (map_Forall_empty _) Hm) as [_ C]. specialize (C t).
    assert (He : sheet_at t ∅ = 0) by done. rewrite He in C. unfold routed. cbn [out_map incoming_shadow].
    assert (Ha : shadows_total t (<[i := ∅]> (incoming_shadow (tr_routing s))) = shadows_total t (incoming_shadow (tr_routing s)) - sheet_at t m).
    { rewrite list_insert_alter, (shadows_total_alter t _ _ _ m) by done. rewrite He. lia. }
    rewrite Ha. pose proof (routed_outs ly _ t H1). pose proof (shadows_total_ge t _ _ _ (rk_shadows _ _ H1) Em). lia.
Qed.

Lemma take_seed_ok i sh s :
  sheet_okay sh -> transfers_ok s ->
  let x := take_seed_sources i sh s in
  sheet_okay x.1 /\ transfers_ok x.2 /\ sh_amounts x.1 = sh_amounts sh /\ tr_routing x.2 = tr_routing s
  /\ seed_unalloc x.2 = seed_unalloc s.
Proof.
  intros [S1 S2] [H1 H2 H3 H4 H5]. unfold take_seed_sources. destruct (i =? 0)%nat; cbn [fst snd]; split_all; try done;
    split; cbn; try done; apply merge_sourced_ok; done.
Qed.

Lemma consume_ok net_in sh :
  sheet_okay sh -> (forall m, net_in = Some m -> amounts_ok m) ->
  let x := consume_net_in net_in sh in
  sheet_okay x.1 /\ sourced_ok x.2 /\ forall t, sheet_at t (sh_amounts x.1) <= sheet_at t (sh_amounts sh).
Proof.
  intros Hsh Hm. unfold consume_net_in. destruct net_in as [m|]; [|by split_all; [|apply map_Forall_empty|]].
  pose proof (amounts_entries m (Hm m eq_refl)) as Hl. revert Hl.
  assert (H0 : sourced_ok (∅ : gmap SchemaAlkaneId (list (AttributionSource * Z)))) by apply map_Forall_empty.
  revert sh Hsh H0. generalize (∅ : gmap SchemaAlkaneId (list (AttributionSource * Z))) as tk. generalize (btree_entries m) as l.
  induction l as [|[k a] l IH]; intros tk sh [S1 S2] H0 Hl; [done|]. apply Forall_cons in Hl as [Ha Hl].
  cbn [foldl fst snd] in *. destruct (a =? 0); [by apply IH|].
  pose proof (take_sources_le (sh_sources sh) k a S2 (proj1 Ha)) as (T1 & T2 & _).
  destruct (take_sources_from_sheet (sh_sources sh) k a) as [q ss]. cbn [fst snd] in *.
  destruct (IH (add_sources_to_sheet tk k q) (mkSheet (sheet_debit (sh_amounts sh) k a) ss)) as (I1 & I2 & I3);
    [split; cbn; [apply sheet_debit_amounts; done || apply Ha|done]|by apply add_sources_ok|done|].
  split_all; [done|done|]. intros t. etransitivity; [apply I3|]. cbn [sh_amounts].
  rewrite sheet_debit_at by (apply Ha || by apply amounts_pos). pose proof (sheet_at_nonneg t _ (amounts_pos _ S1)).
  destruct Ha as [Ha _]. case_decide; lia.
Qed.

Lemma succeed_ok i trace net_in net_out sh s :
  sheet_okay sh -> transfers_ok s -> (forall m, net_in = Some m -> amounts_ok m) -> (forall m, net_out = Some m -> amounts_ok m) ->
  let x := succeed host i trace net_in net_out sh s in
  sheet_okay x.1 /\ transfers_ok x.2 /\ tr_routing x.2 = tr_routing s
  /\ forall t, sheet_at t (sh_amounts x.1) <= sheet_at t (sh_amounts sh) + sheet_at t (default ∅ net_out).
Proof.
  intros Hsh Hs Hin Hout. unfold succeed. pose proof (take_seed_ok i sh s Hsh Hs) as (T1 & T2 & T3 & T4 & T5).
  destruct (take_seed_sources i sh s) as [sh0 s0]. cbn [fst snd] in *.
  pose proof (consume_ok net_in sh0 T1 Hin) as (C1 & C2 & C3). destruct (consume_net_in net_in sh0) as [sh1 taken].
  cbn [fst snd] in *. destruct T2 as [H1 H2 H3 H4 H5].
  assert (Hamt : amounts_ok (match net_out with Some out => credit_nonzero (sh_amounts sh1) out | None => sh_amounts sh1 end)
    /\ forall t, sheet_at t (match net_out with Some out => credit_nonzero (sh_amounts sh1) out | None => sh_amounts sh1 end)
         <= sheet_at t (sh_amounts sh1) + sheet_at t (default ∅ net_out)).
  { destruct net_out as [out|]; cbn [from_option id].
    - pose proof (Hout out eq_refl) as Ho. split; [apply credit_amounts; [apply C1|by apply amounts_pos]|].
      intros t. apply (credit_nonzero_spec (sh_amounts sh1) out); [apply amounts_pos, C1|by apply amounts_pos].
    - split; [apply C1|]. intros t. change (sheet_at t ∅) with 0. lia. }
  destruct Hamt as [Ha1 Ha2]. split_all; [split; cbn; [done|]|by split|done|].
  - destruct trace as [tr|]; [|apply C1]. destruct net_out as [out|]; [|apply C1].
    destruct (trace_root_owner tr host); [|apply C1]. apply merge_sourced_ok; [apply C1|]. by apply final_sources_ok; [|apply Hout].
  - intros t. cbn [sh_amounts]. specialize (Ha2 t). specialize (C3 t). rewrite T3 in C3. lia.
Qed.

Lemma no_trace_ok i ps sh s :
  sheet_okay sh -> transfers_ok s ->
  let x := no_trace ly i ps sh s in
  sheet_okay x.1 /\ transfers_ok x.2 /\ tr_routing x.2 = tr_routing s
  /\ forall t, let g := if (i =? 0)%nat then sheet_at t (un_map (seed_unalloc s)) else 0 in
       sheet_at t (sh_amounts x.1) <= sheet_at t (sh_amounts sh) + g
       /\ (sheet_at t (sh_amounts sh) + g < u128_mod -> sheet_at t (sh_amounts x.1) = sheet_at t (sh_amounts sh) + g).
Proof.
  intros Hsh Hs. unfold no_trace. destruct (i =? 0)%nat.
  - pose proof (drain_all_spec (seed_unalloc s) (to_seed _ Hs)) as [D1 D2].
    destruct (drain_all (seed_unalloc s)) as [dr rest] eqn:Ed. cbn [fst] in D1, D2.
    assert (Hrest : rest = mkUnallocated ∅) by (unfold drain_all in Ed; congruence). subst rest.
    set (sh' := mkSheet _ _). set (s' := mkTransfers _ _ _ _ _).
    destruct (credit_nonzero_spec (sh_amounts sh) dr (amounts_pos _ (sy_amounts _ Hsh)) (amounts_pos _ D1)) as [_ Cr].
    assert (Hsh' : sheet_okay sh').
    { split; cbn; [apply credit_amounts; [apply Hsh|by apply amounts_pos]|apply Hsh]. }
    assert (Hs' : transfers_ok s'). { destruct Hs. split; cbn; try done. }
    pose proof (take_seed_ok i sh' s' Hsh' Hs') as (T1 & T2 & T3 & T4 & T5).
    destruct (take_seed_sources i sh' s') as [sh1 s1]. cbn [fst snd] in *. rewrite (to_projector _ T2). cbn [fst snd].
    split_all; [done|done|done|]. intros t. rewrite T3. cbn [sh_amounts sh']. rewrite <- (D2 t). apply Cr.
  - rewrite (to_projector _ Hs). cbn [fst snd]. split_all; try done. intros t. lia.
Qed.

(** The outcome of the trace of a protostone. *)
Definition outcome (i : nat) : option (gmap SchemaAlkaneId Z) * option (gmap SchemaAlkaneId Z) * EspoTraceType :=
  let '(net_in, net_out, status0) :=
    match traces !! shadow_index ly i with Some tr => compute_nets tr | None => (None, None, NOTRACE) end in
  (net_in, net_out,
   if bool_decide (status0 = REVERT) && match net_in with Some m => bool_decide (m = ∅) | None => true end then NOTRACE else status0).

(** What a protostone may route beyond what was routed to it. *)
Definition granted (seed : gmap SchemaAlkaneId Z) (i : nat) (t : SchemaAlkaneId) : Z :=
  match outcome i with
  | (_, net_out, SUCCESS) => sheet_at t (default ∅ net_out)
  | (net_in, _, REVERT) => sheet_at t (default ∅ net_in)
  | (_, _, NOTRACE) => if (i =? 0)%nat then sheet_at t seed else 0
  end.

Lemma outcome_amounts i net_in net_out st :
  outcome i = (net_in, net_out, st) ->
  (forall m, net_in = Some m -> amounts_ok m) /\ (forall m, net_out = Some m -> amounts_ok m).
Proof.
  unfold outcome. destruct (traces !! _) as [tr|]; [|by intros [= <- <- _]].
  unfold compute_nets. destruct (last_return None (events tr)) as [r|]; intros [= <- <- _]; split; try done;
    try (intros m [= <-]; apply nets_sheet_amounts);
    intros m Hm; apply fmap_Some in Hm as (inv & _ & ->); apply nets_sheet_amounts.
Qed.

Record proto_typed (ps : Protostone) : Prop := {
  pt_edicts : Forall edict_typed (ps_edicts ps);
  pt_pointer p : ps_pointer ps = Some p -> 0 <= p;
  pt_refund p : ps_refund ps = Some p -> 0 <= p;
}.

(** Every target of a protostone can be delivered to. *)
Definition targets_deliver (ps : Protostone) : Prop :=
  Forall (fun ed => deliverable ly (pe_output ed)) (ps_edicts ps) /\ pointer_ok ly (ps_pointer ps).

(** Edicts and the rest of a sheet. *)
Lemma spend_sheet_ok ps sh s :
  proto_typed ps -> sheet_okay sh -> transfers_ok s ->
  let r := route_rest ly ps (apply_edicts ly height (ps_edicts ps) (mkEdictState (sh_amounts sh) (sh_sources sh) (tr_routing s))) in
  routes ly (tr_routing s) r (fun t => sheet_at t (sh_amounts sh)) (targets_deliver ps).
Proof.
  intros [P1 P2 _] [S1 S2] [H1 H2 _ _ _]. set (s0 := mkEdictState _ _ _).
  assert (Hs0 : edict_ok ly n s0) by (split; done).
  pose proof (apply_edicts_step ly n height (ps_edicts ps) s0 Hly Hs0 P1 Hmi) as [E1 E2 E3].
  pose proof (route_rest_routes ly n ps _ Hly E1 P2) as [R1 R2 R3 R4].
  set (s1 := apply_edicts _ _ _ _) in *. split; [done| | |].
  - rewrite R2, (ek_len _ _ _ E1). by rewrite H2.
  - intros t. specialize (R3 t). specialize (E2 t). unfold edict_total in E2. cbn [es_sheet es_routing s0] in E2. cbn beta in *. lia.
  - intros t (F1 & F2) Hlt. specialize (E3 t F1). unfold edict_total in E3. cbn [es_sheet es_routing s0] in E3.
    rewrite (R4 t F2); lia.
Qed.

Lemma refund_ok i ps net_in sh s :
  proto_typed ps -> sheet_okay sh -> transfers_ok s -> (forall m, net_in = Some m -> amounts_ok m) ->
  transfers_ok (refund ly i ps net_in sh s)
  /\ forall t, routed t (tr_routing (refund ly i ps net_in sh s)) <= routed t (tr_routing s) + sheet_at t (default ∅ net_in).
Proof.
  intros [_ _ P3] Hsh Hs Hm. unfold refund. pose proof (take_seed_ok i sh s Hsh Hs) as (T1 & T2 & T3 & T4 & T5).
  destruct (take_seed_sources i sh s) as [sh1 s1]. cbn [fst snd] in *.
  assert (Hnn : forall t, 0 <= sheet_at t (default ∅ net_in)).
  { intros t. destruct net_in as [m|]; cbn; [|done]. apply sheet_at_nonneg, amounts_pos. by apply Hm. }
  assert (Hstay : transfers_ok s1 /\ forall t, routed t (tr_routing s1) <= routed t (tr_routing s) + sheet_at t (default ∅ net_in)).
  { split; [done|]. intros t. rewrite T4. specialize (Hnn t). lia. }
  destruct net_in as [m|]; [|done]. destruct (ps_refund ps) as [ptr|] eqn:Ep; [|done]. clear Hstay.
  pose proof (take_for_delta_ok (sh_sources sh1) m (sy_sources _ T1) (Hm m eq_refl)) as [D1 D2].
  destruct (take_sources_for_delta (sh_sources sh1) m) as [sd rest]. cbn [fst] in *.
  pose proof (route_delta_routes ly n (tr_routing s1) ptr m sd Hly (to_len _ T2) (to_routing _ T2) (P3 _ eq_refl) (Hm m eq_refl) D1 D2)
    as [R1 R2 R3 R4].
  destruct T2 as [H1 H2 H3 H4 H5]. rewrite T4 in *. split; [split; cbn; try done; congruence|exact R3].
Qed.

Lemma spend_ok ps sh s r0 d :
  proto_typed ps -> sheet_okay sh -> transfers_ok s -> tr_routing s = r0 ->
  let s' := with_routing s (route_rest ly ps (apply_edicts ly height (ps_edicts ps)
              (mkEdictState (sh_amounts sh) (sh_sources sh) (tr_routing s)))) in
  (forall t, sheet_at t (sh_amounts sh) <= d t) ->
  transfers_ok s' /\ (forall t, routed t (tr_routing s') <= routed t r0 + d t)
  /\ forall t, targets_deliver ps -> sheet_at t (sh_amounts sh) = d t -> routed t r0 + d t < u128_mod ->
       routed t (tr_routing s') = routed t r0 + d t.
Proof.
  intros Hp Hsh Hs Hr s' Hle. pose proof (spend_sheet_ok ps sh s Hp Hsh Hs) as [R1 R2 R3 R4].
  destruct Hs as [H1 H2 H3 H4 H5]. subst r0. split_all.
  - split; cbn; try done. by rewrite R2.
  - intros t. etransitivity; [apply R3|]. specialize (Hle t). lia.
  - intros t F He Hlt. cbn [s' with_routing tr_routing]. rewrite R4; [by rewrite He|done|lia].
Qed.

Lemma no_projection i ps st sh s : transfers_ok s -> input_projection ly i ps st sh s = (None, s).
Proof. intros Hs. unfold input_projection. case_bool_decide; [done|]. by rewrite (to_projector _ Hs). Qed.

(** One protostone: what is waiting for the protostones and at the outputs grows by at most what the protostone is
    granted, and by exactly that when it has no trace and its targets can be delivered to. *)
Lemma apply_protostone_step i ps s :
  transfers_ok s -> (i < n)%nat -> proto_typed ps ->
  let s' := apply_protostone ly traces height host i ps s in
  let g := granted (un_map (seed_unalloc s)) i in
  transfers_ok s' /\ (forall t, routed t (tr_routing s') <= routed t (tr_routing s) + g t)
  /\ forall t, (outcome i).2 = NOTRACE -> targets_deliver ps -> routed t (tr_routing s) + g t < u128_mod ->
       routed t (tr_routing s') = routed t (tr_routing s) + g t.
Proof.
  intros Hs Hi Hp. unfold apply_protostone, granted. pose proof (open_sheet_ok i s Hs Hi) as (O1 & O2 & O3 & O4).
  destruct (open_sheet i s) as [sh s1]. cbn [fst snd] in *.
  pose proof (outcome_amounts i) as Ho. unfold outcome in *.
  destruct (match traces !! shadow_index ly i with Some tr => compute_nets tr | None => (None, None, NOTRACE) end)
    as [[net_in net_out] st0].
  destruct (Ho _ _ _ eq_refl) as [Hin Hout]. clear Ho. cbv zeta.
  set (st := if bool_decide (st0 = REVERT) && _ then NOTRACE else st0).
  rewrite (no_projection _ _ _ _ _ O2). cbn [snd]. destruct st.
  - pose proof (no_trace_ok i ps sh s1 O1 O2) as (N1 & N2 & N3 & N4). destruct (no_trace ly i ps sh s1) as [sh2 s2].
    cbn [fst snd] in *. rewrite O3 in N4. set (g := fun t => if (i =? 0)%nat then sheet_at t (un_map (seed_unalloc s)) else 0).
    assert (Hg : forall t, 0 <= g t).
    { intros t. unfold g. destruct (i =? 0)%nat; [|done]. apply sheet_at_nonneg, amounts_pos, Hs. }
    pose proof (spend_ok ps sh2 s2 (tr_routing s1) (fun t => sheet_at t (sh_amounts sh) + g t) Hp N1 N2 N3
      ltac:(intros t; apply N4)) as (P1 & P2 & P3).
    split_all; [done| |]; intros t; specialize (O4 t); specialize (N4 t); cbv zeta in N4; fold (g t) in *.
    + specialize (P2 t). cbv beta in *. lia.
    + intros _ F Hlt. pose proof (routed_nonneg ly _ t (to_routing _ O2)). pose proof (Hg t).
      assert (Hd : sheet_at t (sh_amounts sh2) = sheet_at t (sh_amounts sh) + g t) by (apply N4; lia).
      specialize (P3 t F Hd). cbv beta in *. lia.
  - pose proof (refund_ok i ps net_in sh s1 Hp O1 O2 Hin) as [R1 R2]. split_all; [done| |done].
    intros t. specialize (R2 t). specialize (O4 t). pose proof (sheet_at_nonneg t _ (amounts_pos _ (sy_amounts _ O1))). lia.
  - pose proof (succeed_ok i (traces !! shadow_index ly i) net_in net_out sh s1 O1 O2 Hin Hout) as (N1 & N2 & N3 & N4).
    destruct (succeed host i _ net_in net_out sh s1) as [sh2 s2]. cbn [fst snd] in *.
    pose proof (spend_ok ps sh2 s2 (tr_routing s1) _ Hp N1 N2 N3 N4) as (P1 & P2 & _).
    split_all; [done| |done]. intros t. specialize (P2 t). specialize (O4 t). cbv beta in *. lia.
Qed.

End Protostones.
