(* ===== verification/AlkTransferTx.v ===== *)
(** * A whole transaction

    The protostones of a transaction one after the other: the total over the
    outputs is bounded by what the protostones are granted, and is the total of the
    inputs for a transaction without traces whose targets can be delivered to and
    whose protostones only route forward. *)
From stdpp Require Import strings.
From S2P Require Import Prelude Bytes RunesTransfer RunesStore RunesChain RunesInscriptions.
From S2P Require Import AlkTrace AlkClean AlkSheets AlkSheetsProps AlkDeltas AlkDeltasProps AlkFlow AlkTransfer AlkTransferProps.

Open Scope Z_scope.

(** ** The indices of a transaction *)

Lemma layout_of_ok tx n :
  Z.of_nat (length (output tx)) + Z.of_nat n < 2 ^ 32 - 1 ->
  layout_ok (layout_of tx n) n /\ multicast_index (layout_of tx n) = Z.of_nat (length (output tx))
  /\ shadow_base (layout_of tx n) = Z.of_nat (length (output tx)) + 1.
Proof.
  intros H. unfold layout_ok, layout_of. cbn [ly_tx spendable_vouts n_outputs multicast_index shadow_base shadow_end].
  rewrite (Z.mod_small (Z.of_nat (length (output tx)))), (Z.mod_small (Z.of_nat n)) by lia.
  rewrite Z.min_r by lia. rewrite Z.mod_small by lia. split_all; done || lia.
Qed.

Lemma spendable_of tx n v :
  v ∈ spendable_vouts (layout_of tx n) <->
  0 <= v /\ exists o, output tx !! Z.to_nat v = Some o /\ spk_is_op_return (script_pubkey o) = false.
Proof. cbn [layout_of spendable_vouts]. rewrite spendable_from_spec. by rewrite Z.sub_0_r. Qed.

(** ** Sheets that nothing is routed to stay as they are *)

Lemma split_shares_shadow k per rem vouts : forall i sd r,
  incoming_shadow (split_shares k per rem i vouts sd r).2 = incoming_shadow r.
Proof.
  induction vouts as [|v vouts IH]; intros i sd r; cbn [split_shares]; [done|].
  destruct (_ =? 0); [apply IH|]. destruct (take_sources_from_sheet _ _ _) as [q sd']. by rewrite IH.
Qed.

Lemma multicast_shadow vouts l : forall acc,
  incoming_shadow (foldl (multicast_token vouts) acc l).2 = incoming_shadow acc.2.
Proof.
  induction l as [|e l IH]; intros [sd r]; cbn [foldl]; [done|]. rewrite IH. unfold multicast_token.
  destruct (e.2 =? 0); [done|]. by rewrite split_shares_shadow.
Qed.

Lemma capped_shadow k cap vouts : forall rm u ss r, incoming_shadow (capped_walk k cap rm u vouts ss r).2 = incoming_shadow r.
Proof.
  induction vouts as [|v vouts IH]; intros rm u ss r; cbn [capped_walk]; [done|].
  destruct (rm =? 0); [done|]. destruct (_ =? 0); [done|]. destruct (take_sources_from_sheet _ _ _) as [q ss']. by rewrite IH.
Qed.

Lemma legacy_shadow k cap outs : forall idx w,
  incoming_shadow (lw_routing (legacy_walk k cap idx outs w)) = incoming_shadow (lw_routing w).
Proof.
  induction outs as [|o outs IH]; intros idx w; cbn [legacy_walk]; [done|].
  destruct (_ =? 0); [done|]. destruct (_ =? 0); [done|]. destruct (take_sources_from_sheet _ _ _) as [q ss'].
  rewrite IH. by destruct (spk_is_op_return _).
Qed.

Lemma hand_out_shadow k vouts l : forall from r, incoming_shadow (hand_out k vouts from l r) = incoming_shadow r.
Proof.
  induction l as [|[a sd] l IH]; intros from r; cbn [hand_out]; [done|]. destruct (next_spendable vouts from); [|done]. by rewrite IH.
Qed.

#[local] Create Rewrite HintDb shadows.
#[local] Hint Rewrite split_shares_shadow multicast_shadow capped_shadow legacy_shadow hand_out_shadow : shadows.

Section Frame.
Context (ly : Layout) (j : nat).

(** Targets other than protostone [j]. *)
Definition avoids (target : Z) : Prop := target <> shadow_base ly + Z.of_nat j.

Lemma route_delta_frame target delta sd r :
  avoids target -> incoming_shadow (route_delta ly target delta sd r) !! j = incoming_shadow r !! j.
Proof.
  intros Ht. unfold route_delta. case_bool_decide; [done|]. destruct (target =? multicast_index ly).
  { case_bool_decide; [done|]. by autorewrite with shadows. }
  destruct (target <? n_outputs ly); [by destruct (negb _)|].
  destruct (_ && _) eqn:E; [|done]. apply andb_true_iff in E as [E1%Z.leb_le E2%Z.leb_le]. cbn [incoming_shadow].
  apply list_lookup_alter_ne. intros He. apply Ht. lia.
Qed.

Lemma multicast_edict_frame height k cap s :
  avoids (multicast_index ly) ->
  incoming_shadow (es_routing (multicast_edict ly height k cap s)) !! j = incoming_shadow (es_routing s) !! j.
Proof.
  intros Hm. unfold multicast_edict. destruct (_ =? 0); [done|]. destruct (cap =? 0).
  { destruct (take_sources_from_sheet _ _ _). cbn [es_routing]. by apply route_delta_frame. }
  destruct (_ && _); [cbn [es_routing]; by autorewrite with shadows|].
  destruct (capped_walk _ _ _ _ _ _ _) as [[u ss] r] eqn:E. cbn [es_routing].
  change r with (u, ss, r).2. rewrite <- E. by autorewrite with shadows.
Qed.

Lemma single_edict_frame height ed s :
  avoids (multicast_index ly) -> avoids (pe_output ed) ->
  incoming_shadow (es_routing (default s (apply_single_edict ly height ed s))) !! j = incoming_shadow (es_routing s) !! j.
Proof.
  intros Hm Ho. unfold apply_single_edict. destruct (_ && _); [done|]. unfold u128_to_u32 at 1.
  destruct (pe_output ed <? 2 ^ 32); [|done]. cbn [mbind option_bind].
  destruct (schema_id_from_parts _ _) as [k|]; [|done]. cbn [mbind option_bind from_option id].
  destruct (pe_output ed =? multicast_index ly).
  { case_bool_decide; [done|]. by apply multicast_edict_frame. }
  unfold direct_edict. destruct (_ =? 0); [done|]. destruct (take_sources_from_sheet _ _ _). cbn [es_routing].
  destruct (_ =? 0); [done|]. by apply route_delta_frame.
Qed.

Lemma edicts_frame height eds : forall s,
  avoids (multicast_index ly) -> Forall (fun ed => avoids (pe_output ed)) eds ->
  incoming_shadow (es_routing (apply_edicts ly height eds s)) !! j = incoming_shadow (es_routing s) !! j.
Proof.
  unfold apply_edicts. induction eds as [|ed eds IH]; intros s Hm He; cbn [foldl]; [done|].
  apply Forall_cons in He as [H1 He]. rewrite IH by done. by apply single_edict_frame.
Qed.

Lemma route_rest_frame ps s :
  (forall p, ps_pointer ps = Some p -> avoids p) ->
  incoming_shadow (route_rest ly ps s) !! j = incoming_shadow (es_routing s) !! j.
Proof.
  intros Hp. unfold route_rest. case_bool_decide; [done|]. destruct (take_sources_for_delta _ _).
  destruct (ps_pointer ps); [apply route_delta_frame; by apply Hp|]. by destruct (head (spendable_vouts ly)).
Qed.

End Frame.

(** ** Every protostone *)

Section Transaction.
Context {crates : TraceCrates} {P : Type} {projector : MempoolContractProjector P}.
Context (ly : Layout) (n : nat) (traces : gmap Z EspoSandshrewLikeTrace) (height : Z) (host : EspoHostFunctionValues).
Context (Hly : layout_ok ly n) (Hmi : 0 <= multicast_index ly).

Definition grants (seed : gmap SchemaAlkaneId Z) (i k : nat) (t : SchemaAlkaneId) : Z :=
  foldr (fun j acc => granted ly traces seed j t + acc) 0 (seq i k).

Lemma granted_later m1 m2 i t : i <> 0%nat -> granted ly traces m1 i t = granted ly traces m2 i t.
Proof. intros H. unfold granted. destruct (outcome ly traces i) as [[a b] []]; try done. by destruct i. Qed.

Lemma granted_nonneg seed i t : amounts_ok seed -> 0 <= granted ly traces seed i t.
Proof.
  intros Hs. unfold granted. pose proof (outcome_amounts ly traces i) as Ho. destruct (outcome ly traces i) as [[a b] st].
  destruct (Ho _ _ _ eq_refl) as [Ha Hb]. destruct st.
  - destruct (i =? 0)%nat; [|done]. by apply sheet_at_nonneg, amounts_pos.
  - destruct a as [m|]; cbn; [|done]. apply sheet_at_nonneg, amounts_pos. by apply Ha.
  - destruct b as [m|]; cbn; [|done]. apply sheet_at_nonneg, amounts_pos. by apply Hb.
Qed.

Lemma grants_nonneg seed k t : amounts_ok seed -> forall i, 0 <= grants seed i k t.
Proof.
  intros Hs. unfold grants. induction k as [|k IH]; intros i; cbn; [done|].
  pose proof (granted_nonneg seed i t Hs). specialize (IH (S i)). lia.
Qed.

Lemma grants_later m1 m2 k t : forall i, i <> 0%nat -> grants m1 i k t = grants m2 i k t.
Proof.
  unfold grants. induction k as [|k IH]; intros i Hi; cbn; [done|]. rewrite (granted_later m1 m2) by done. by rewrite (IH (S i)).
Qed.

Lemma apply_protostones_step pss : forall i (s : @Transfers P),
  transfers_ok ly n s -> (i + length pss <= n)%nat -> Forall proto_typed pss ->
  let s' := apply_protostones ly traces height host i pss s in
  let g := grants (un_map (seed_unalloc s)) i (length pss) in
  transfers_ok ly n s' /\ (forall t, routed t (tr_routing s') <= routed t (tr_routing s) + g t)
  /\ forall t, (forall j, (outcome ly traces j).2 = NOTRACE) -> Forall (targets_deliver ly) pss ->
       routed t (tr_routing s) + g t < u128_mod -> routed t (tr_routing s') = routed t (tr_routing s) + g t.
Proof.
  induction pss as [|ps pss IH]; intros i s Hs Hi Ht; cbn [apply_protostones length] in *.
  { unfold grants. cbn. split_all; [done| |]; intros; lia. }
  apply Forall_cons in Ht as [Hp Ht].
  pose proof (apply_protostone_step ly n traces height host Hly Hmi i ps s Hs ltac:(lia) Hp) as (S1 & S2 & S3).
  destruct (IH (S i) _ S1 ltac:(lia) Ht) as (I1 & I2 & I3). cbv zeta. split_all; [done| |].
  all: intros t; specialize (S2 t); specialize (S3 t); specialize (I2 t); specialize (I3 t);
    rewrite (grants_later _ (un_map (seed_unalloc s))) in I2, I3 by done;
    unfold grants in *; cbn [seq foldr] in *; pose proof (grants_nonneg _ (length pss) t (to_seed _ _ _ Hs) (S i)) as Hnn; unfold grants in Hnn.
  - lia.
  - intros Hno Hd Hlt. apply Forall_cons in Hd as [Hd1 Hd]. specialize (S3 (Hno i) Hd1 ltac:(lia)).
    specialize (I3 Hno Hd ltac:(lia)). lia.
Qed.

(** Protostone [i] only routes to outputs and to later protostones. *)
Definition forward (i : nat) (ps : Protostone) : Prop :=
  forall j, (j <= i)%nat -> Forall (fun ed => avoids ly j (pe_output ed)) (ps_edicts ps)
    /\ (forall p, ps_pointer ps = Some p -> avoids ly j p) /\ (forall p, ps_refund ps = Some p -> avoids ly j p).

(** The sheets of the protostones before [i] are empty. *)
Definition settled (i : nat) (r : Routing) : Prop := forall j, (j < i)%nat -> incoming_shadow r !! j = Some ∅.

Lemma take_seed_routing i sh (s : @Transfers P) : tr_routing (take_seed_sources i sh s).2 = tr_routing s.
Proof. unfold take_seed_sources. by destruct (i =? 0)%nat. Qed.

Lemma succeed_routing i tr ni no sh (s : @Transfers P) : tr_routing (succeed host i tr ni no sh s).2 = tr_routing s.
Proof.
  unfold succeed. rewrite <- (take_seed_routing i sh s). destruct (take_seed_sources i sh s) as [sh0 s0].
  by destruct (consume_net_in ni sh0).
Qed.

Lemma no_trace_routing i ps sh (s : @Transfers P) : tr_routing (no_trace ly i ps sh s).2 = tr_routing s.
Proof.
  unfold no_trace. destruct (i =? 0)%nat; [|destruct (tr_projector s) as [p|]; [by destruct (project p _)|done]].
  destruct (drain_all (seed_unalloc s)) as [dr rest].
  match goal with |- context [take_seed_sources i ?a ?b] => pose proof (take_seed_routing i a b) as Hr; destruct (take_seed_sources i a b) as [sh1 s1] end.
  cbn [snd tr_routing] in Hr. destruct (tr_projector s1) as [p|]; [by destruct (project p _)|done].
Qed.

Lemma use_projection_routing i o sh (s : @Transfers P) : tr_routing (use_projection i o sh s).2 = tr_routing s.
Proof.
  unfold use_projection. rewrite <- (take_seed_routing i sh s). destruct (take_seed_sources i sh s) as [sh0 s0].
  by destruct (i =? 0)%nat.
Qed.

Lemma projection_routing i ps st sh (s : @Transfers P) : tr_routing (input_projection ly i ps st sh s).2 = tr_routing s.
Proof.
  unfold input_projection. case_bool_decide; [done|]. destruct (tr_projector s) as [p|]; [|done].
  by destruct (project_from_inputs p _).
Qed.

Lemma refund_frame j i ps ni sh (s : @Transfers P) :
  (forall p, ps_refund ps = Some p -> avoids ly j p) ->
  incoming_shadow (tr_routing (refund ly i ps ni sh s)) !! j = incoming_shadow (tr_routing s) !! j.
Proof.
  intros Hr. unfold refund. rewrite <- (take_seed_routing i sh s). destruct (take_seed_sources i sh s) as [sh0 s0].
  destruct ni as [m|]; [|done]. destruct (ps_refund ps) as [p|]; [|done].
  destruct (take_sources_for_delta _ _). by apply route_delta_frame, Hr.
Qed.

Lemma apply_protostone_frame j i ps (s : @Transfers P) :
  avoids ly j (multicast_index ly) -> Forall (fun ed => avoids ly j (pe_output ed)) (ps_edicts ps) ->
  (forall p, ps_pointer ps = Some p -> avoids ly j p) -> (forall p, ps_refund ps = Some p -> avoids ly j p) ->
  incoming_shadow (tr_routing (apply_protostone ly traces height host i ps s)) !! j
  = incoming_shadow (tr_routing (open_sheet i s).2) !! j.
Proof.
  intros Hm He Hp Hr. unfold apply_protostone. destruct (open_sheet i s) as [sh s1]. cbn [snd].
  destruct (match traces !! shadow_index ly i with Some tr => compute_nets tr | None => (None, None, NOTRACE) end)
    as [[ni no] st0]. cbv zeta.
  set (st := if bool_decide (st0 = REVERT) && _ then NOTRACE else st0).
  rewrite <- (projection_routing i ps st sh s1). destruct (input_projection ly i ps st sh s1) as [pj s2]. cbn [snd].
  destruct st; [| by apply refund_frame |]; destruct pj as [o|];
    match goal with |- context [let '(_, _) := ?x in _] => destruct x as [sh3 s3] eqn:E end; cbn [with_routing tr_routing];
    rewrite route_rest_frame, edicts_frame by done; cbn [es_routing];
    change s3 with (sh3, s3).2; rewrite <- E; do 2 f_equal;
    first [apply use_projection_routing | apply no_trace_routing | apply succeed_routing].
Qed.

Lemma apply_protostone_settled i ps (s : @Transfers P) :
  settled i (tr_routing s) -> (i < length (incoming_shadow (tr_routing s)))%nat -> forward i ps ->
  settled (S i) (tr_routing (apply_protostone ly traces height host i ps s)).
Proof.
  intros Hs Hi Hf j Hj. destruct (Hf j ltac:(lia)) as (F1 & F2 & F3).
  rewrite apply_protostone_frame; try done.
  2: { unfold avoids. destruct Hly as (_ & _ & H & _). lia. }
  cbn [open_sheet snd tr_routing incoming_shadow].
  destruct (decide (j = i)) as [->|Hne]; [by apply list_lookup_insert_eq|]. rewrite list_lookup_insert_ne by done. apply Hs. lia.
Qed.

Lemma apply_protostones_settled pss : forall i (s : @Transfers P),
  transfers_ok ly n s -> (i + length pss <= n)%nat -> Forall proto_typed pss -> settled i (tr_routing s) ->
  (forall k ps, pss !! k = Some ps -> forward (i + k) ps) ->
  settled (i + length pss) (tr_routing (apply_protostones ly traces height host i pss s)).
Proof.
  induction pss as [|ps pss IH]; intros i s Hs Hi Ht Hst Hf; cbn [apply_protostones length] in *.
  { by rewrite Nat.add_0_r. }
  apply Forall_cons in Ht as [Hp Ht].
  pose proof (apply_protostone_step ly n traces height host Hly Hmi i ps s Hs ltac:(lia) Hp) as (S1 & _).
  replace (i + S (length pss))%nat with (S i + length pss)%nat by lia. apply IH; try done; try lia.
  - apply apply_protostone_settled; [done|rewrite (to_len _ _ _ Hs); lia|]. specialize (Hf 0%nat ps eq_refl). by rewrite Nat.add_0_r in Hf.
  - intros k ps' Hk. specialize (Hf (S k) ps' Hk). by rewrite Nat.add_succ_r in Hf.
Qed.

Lemma settled_total t (r : Routing) : settled (length (incoming_shadow r)) r -> shadows_total t (incoming_shadow r) = 0.
Proof.
  unfold settled. generalize (incoming_shadow r) as l. induction l as [|m l IH]; intros H; [done|].
  cbn. pose proof (H 0%nat ltac:(cbn; lia)) as H0. cbn in H0. injection H0 as ->. unfold shadows_total in IH. rewrite IH; [done|].
  intros j Hj. apply (H (S j)). cbn. lia.
Qed.

End Transaction.

(** ** The application of a transaction *)

Section Application.
Context {crates : TraceCrates} {P : Type} {projector : MempoolContractProjector P}.
Context (tx : Transaction) (pss : list Protostone) (trs : list EspoTrace) (height : Z) (host : EspoHostFunctionValues).
Context (seed : Unallocated) (sources : gmap SchemaAlkaneId (list (AttributionSource * Z))).

(** The indices fit their width, and every number of the inputs is in its type. *)
Record tx_typed : Prop := {
  tt_small : Z.of_nat (length (output tx)) + Z.of_nat (length pss) < 2 ^ 32 - 1;
  tt_protostones : Forall proto_typed pss;
  tt_seed : amounts_ok (un_map seed);
  tt_sources : sourced_ok sources;
}.

Context (Htx : tx_typed).

Local Abbreviation ly := (layout_of tx (length pss)).
Local Abbreviation n := (length pss).
Local Abbreviation traces := (trace_by_shadow ly trs).

Definition start : @Transfers P := mkTransfers (mkRouting ∅ ∅ (replicate n ∅) (replicate n ∅)) ∅ seed sources None.

Lemma start_ok : transfers_ok ly n start.
Proof.
  destruct Htx as [H1 H2 H3 H4]. split; cbn; try done; [|by rewrite length_replicate].
  split; cbn; [apply map_Forall_empty| | |done]; apply Forall_replicate, map_Forall_empty.
Qed.

Lemma start_routed t : routed t (tr_routing start) = 0.
Proof.
  unfold routed. cbn [start tr_routing out_map incoming_shadow]. change (outs_total t ∅) with 0.
  generalize n as k. induction k as [|k IH]; [done|]. cbn [replicate]. unfold shadows_total in *. cbn [foldr].
  change (sheet_at t ∅) with 0. lia.
Qed.

Lemma start_index : 0 <= multicast_index ly.
Proof. rewrite (proj1 (proj2 (layout_of_ok tx n (tt_small Htx)))). lia. Qed.

Definition finish : @Transfers P := apply_protostones ly traces height host 0 pss start.

Lemma finish_ok :
  transfers_ok ly n finish
  /\ (forall t, routed t (tr_routing finish) <= grants ly traces (un_map seed) 0 n t)
  /\ forall t, trs = [] -> Forall (targets_deliver ly) pss -> sheet_at t (un_map seed) < u128_mod ->
       routed t (tr_routing finish) = if (n =? 0)%nat then 0 else sheet_at t (un_map seed).
Proof.
  pose proof (layout_of_ok tx n (tt_small Htx)) as (L1 & _ & _).
  pose proof (apply_protostones_step ly n traces height host L1 start_index pss 0 start start_ok ltac:(lia) (tt_protostones Htx))
    as (S1 & S2 & S3).
  cbn [start seed_unalloc] in *. split_all; [done| |].
  - intros t. specialize (S2 t). fold start in S2. rewrite start_routed in S2. fold finish in S2. lia.
  - intros t Ht Hd Hlt. specialize (S3 t). fold start in S3. rewrite start_routed in S3. fold finish in S3.
    assert (Hno : forall j, outcome ly traces j = (None, None, NOTRACE)) by (intros j; unfold outcome; by rewrite Ht).
    assert (Hl : forall k i, grants ly traces (un_map seed) (S i) k t = 0).
    { unfold grants. induction k as [|k IH]; intros i; cbn [seq foldr]; [done|]. rewrite IH. unfold granted. by rewrite Hno. }
    assert (Hg : forall k, grants ly traces (un_map seed) 0 k t = if (k =? 0)%nat then 0 else sheet_at t (un_map seed)).
    { intros [|k]; [done|]. pose proof (Hl k 0%nat) as Hk. unfold grants in *. cbn [seq foldr]. rewrite Hk. unfold granted.
      rewrite Hno. cbn. lia. }
    rewrite Hg in S3. apply S3; [intros j; by rewrite Hno|done|]. by destruct (n =? 0)%nat.
Qed.

Lemma finish_settled t :
  (forall k ps, pss !! k = Some ps -> forward ly k ps) -> shadows_total t (incoming_shadow (tr_routing finish)) = 0.
Proof.
  intros Hf. pose proof (layout_of_ok tx n (tt_small Htx)) as (L1 & _ & _). apply settled_total.
  rewrite (to_len _ _ _ (proj1 finish_ok)).
  apply (apply_protostones_settled ly n traces height host L1 start_index pss 0 start start_ok ltac:(lia) (tt_protostones Htx));
    [intros j Hj; lia|done].
Qed.

Lemma application_is_finish :
  apply_transfers_multi_attributed tx pss trs height host seed sources None
  = mkApplication (out_map (tr_routing finish)) (tr_send finish) (receives (tr_routing finish)).
Proof using Type. done. Qed.

End Application.
