(* ===== verification/AlkClaims.v ===== *)
(** * Alkanes balances: the properties *)
From Stdlib Require Import Strings.Byte.
From stdpp Require Import strings.
From S2P Require Import Prelude Bytes RunesTransfer RunesStore RunesChain RunesInscriptions.
From S2P Require Import AlkTrace AlkClean AlkSheets AlkSheetsProps AlkDeltas AlkDeltasProps AlkFlow AlkTransfer.
From S2P Require Import AlkTransferProps AlkTransferTx.

Open Scope Z_scope.

(** ** Transfers *)

Section Transfers.
Context {crates : TraceCrates} {P : Type} {projector : MempoolContractProjector P}.

(** C7: routing creates nothing.  For every token, the allocations of a transaction add up to at most what its protostones
    are granted: the outputs of a trace that succeeded, the refunded inputs of one that failed, and, for the first
    protostone without a trace, what the inputs of the transaction hold.  (This is the indexing of confirmed blocks,
    without the projector of the mempool.) *)
Theorem transfers_no_inflation tx pss trs height host seed sources t :
  tx_typed tx pss seed sources ->
  let ly := layout_of tx (length pss) in
  outs_total t (allocations (apply_transfers_multi_attributed tx pss trs height host seed sources None))
  <= grants ly (trace_by_shadow ly trs) (un_map seed) 0 (length pss) t.
Proof.
  intros Htx ly. destruct (finish_ok tx pss trs height host seed sources Htx) as (F1 & F2 & _).
  rewrite application_is_finish. cbn [allocations]. specialize (F2 t). unfold routed in F2. fold ly in F2.
  pose proof (shadows_nonneg t _ (rk_shadows _ _ (to_routing _ _ _ F1))). lia.
Qed.

(** C14: a transaction without traces loses nothing.  When every target of its protostones can be delivered to, and
    protostones route only to outputs and to protostones after them, the allocations of every token add up to what the
    inputs hold of it; so at every height, before and after the change of the rules for edicts over all outputs. *)
Theorem transfers_lossless tx pss height host seed sources t :
  tx_typed tx pss seed sources -> pss <> [] ->
  let ly := layout_of tx (length pss) in
  Forall (targets_deliver ly) pss -> (forall k ps, pss !! k = Some ps -> forward ly k ps) ->
  outs_total t (allocations (apply_transfers_multi_attributed tx pss [] height host seed sources None)) = sheet_at t (un_map seed).
Proof.
  intros Htx Hne ly Hd Hf. destruct (finish_ok tx pss [] height host seed sources Htx) as (_ & _ & F3).
  rewrite application_is_finish. cbn [allocations].
  pose proof (finish_settled tx pss [] height host seed sources Htx t Hf) as H0.
  specialize (F3 t eq_refl Hd (proj2 (sheet_at_amount t _ (tt_seed _ _ _ _ Htx)))). unfold routed in F3.
  destruct pss as [|ps pss']; [done|]. cbn [length Nat.eqb] in F3, H0. cbn [length] in *. lia.
Qed.

(** C31: allocations go to outputs of the transaction that are not [OP_RETURN], every entry is positive, and the
    contracts an output is said to have received a token from never add up to more than the output received of it.
    (Without the projector of the mempool.) *)
Theorem transfers_attributed tx pss trs height host seed sources :
  tx_typed tx pss seed sources ->
  let a := apply_transfers_multi_attributed tx pss trs height host seed sources None in
  (forall v l, allocations a !! v = Some l ->
     (exists o, output tx !! Z.to_nat v = Some o /\ spk_is_op_return (script_pubkey o) = false)
     /\ Forall (fun e => 0 < be_amount e) l)
  /\ forall v t, received t (default ∅ (receive_contracts_by_vout a !! v)) <= entries_total t (default [] (allocations a !! v)).
Proof.
  intros Htx a. destruct (finish_ok tx pss trs height host seed sources Htx) as ([[R1 _ _ R4] _ _ _ _] & _ & _).
  split; [|exact R4]. intros v l Hl. destruct (R1 v l Hl) as [Hv Hp]. split; [|done]. by apply spendable_of in Hv as [_ Ho].
Qed.

End Transfers.

(** ** Traces *)

Section Traces.
Context {crates : TraceCrates}.

(** C30: the repair of a trace removes only returns that host functions may have made, and leaves as many returns as calls,
    matched with the calls when it removed any; and it succeeds whenever some set of such returns can be removed so that
    the rest is matched. *)
Theorem clean_trace_exact trace host :
  (forall t, clean_espo_sandshrew_like_trace trace host = Some t ->
     exists R, events t = keep_from R 0 (events trace) /\ orphans host (events trace) R
       /\ count_views is_invoke (sandshrew_event_views (events t)) = count_views is_return (sandshrew_event_views (events t))
       /\ (R <> ∅ -> exists f, events t = flatten f))
  /\ ((exists R, orphans host (events trace) R /\ exists f, keep_from R 0 (events trace) = flatten f) ->
      is_Some (clean_espo_sandshrew_like_trace trace host)).
Proof.
  split.
  - intros t (R & H1 & H2 & H3 & H4)%clean_sound. exists R. split_all; try done. intros Hne. by apply matched_forest, H4.
  - intros (R & HR & Hf). apply (clean_complete trace host R HR). by apply matched_forest.
Qed.


(** C29: the deltas of a trace only move a token between contracts.  When the contract of every call has an id that parses,
    no call without a normal caller belongs to the token, which can mint it, and all the amounts of the token that calls
    receive and return add up to less than 2^128, the deltas of all contracts add up to what the calls at the root
    received less what they gave out, and no delta is larger than all that moved.  (Beyond that total the sums of the
    code are cut off at their width.) *)
Theorem deltas_conserve trace host t f d c k :
  clean_espo_sandshrew_like_trace trace host = Some t -> events t = flatten f -> owned f ->
  accumulate_alkane_balance_deltas trace host = (true, d, c) -> foreign k f -> volume k f < u128_mod ->
  delta_total d k = net k f /\ forall o, Z.abs (delta_at d o k) <= volume k f.
Proof.
  intros Hc He Ho Ha Hf Hv. rewrite (accumulate_eval trace host t f Hc He Ho) in Ha.
  pose proof (eval_within k f None ∅ ∅ 0 Ho (fun _ => Hf) (within_empty k) Hv) as [W1 W2].
  destruct (reverted f); [done|]. destruct (eval None f ∅ ∅) as [d' c']. injection Ha as -> ->. cbn [fst] in *.
  split; [by rewrite W2|]. intros o. apply W1.
Qed.

End Traces.

(** ** Amounts *)

(** a signed amount is an integer with a magnitude of 128 bits: its operations give values of the type, addition and
    subtraction are those of the integers cut off at the width, the order is that of the integers, and adding one to
    a balance succeeds exactly when the sum is an amount. *)
Theorem signed_arithmetic x y a :
  signed_ok x -> signed_ok y -> in_amount a ->
  (signed_ok (su_add x y) /\ signed_value (su_add x y) = clamp (signed_value x + signed_value y))
  /\ (signed_ok (su_sub x y) /\ signed_value (su_sub x y) = clamp (signed_value x - signed_value y))
  /\ su_cmp x y = (signed_value x ?= signed_value y)
  /\ try_add_signed a x = (if bool_decide (0 <= a + signed_value x < u128_mod) then Some (a + signed_value x) else None).
Proof.
  intros Hx Hy Ha. destruct (negated_spec y Hy) as [N1 N2]. pose proof (su_add_spec x (negated y) Hx N1) as Hsub. rewrite N2 in Hsub.
  exact (conj (su_add_spec x y Hx Hy) (conj Hsub (conj (su_cmp_spec x y Hx Hy) (try_add_signed_spec a x Ha Hx)))).
Qed.

(** taking an amount of a token from a sheet of sources takes as much as there is, up to the amount, and splits every
    source: what was taken and what stays add up, source by source, to what was there, and other tokens are untouched. *)
Theorem sources_split sheet token a :
  sourced_ok sheet -> 0 <= a -> sourced (fun _ => true) sheet token < u128_mod ->
  let r := take_sources_from_sheet sheet token a in
  whole r.1 = Z.min a (sourced (fun _ => true) sheet token)
  /\ forall P k, sourced P r.2 k + (if decide (k = token) then part P r.1 else 0) = sourced P sheet k.
Proof.
  intros Hs Ha Hw. destruct (take_sources_spec sheet token a Hs Ha Hw) as (_ & _ & H1 & H2).
  split; [done|]. intros Q k. specialize (H2 Q k). lia.
Qed.

(** ** Witnesses *)

#[local] Instance demo_crates : TraceCrates :=
  {| hex_decode b := Some b; header_decodes _ := false; coinbase_decodes _ := false |}.

#[local] Instance no_projector : MempoolContractProjector unit :=
  {| project p _ := (None, p); project_from_inputs p _ := (None, p) |}.

Definition demo_alk_tx : Transaction :=
  mkTransaction [] [mkTxOut 546 [x51]; mkTxOut 0 [x6a; x5d]; mkTxOut 546 [x52]].

Definition demo_token : SchemaAlkaneId := mkAlkaneId 2 1.

(** The first protostone pays 30 to output 0 and passes the rest on; the second splits what it gets over all outputs. *)
Definition demo_protostones : list Protostone :=
  [mkProtostone [mkProtoEdict (mkProtoId 2 1) 30 0] (Some 5) (Some 0); mkProtostone [] (Some 3) None].

Definition demo_seed : Unallocated := mkUnallocated {[demo_token := 101]}.

Definition demo_sources : gmap SchemaAlkaneId (list (AttributionSource * Z)) :=
  {[demo_token := [(SContract (mkAlkaneId 2 9), 40); (SAddress [x61], 61)]]}.

Lemma demo_tx_typed : tx_typed demo_alk_tx demo_protostones demo_seed demo_sources.
Proof.
  split; [cbn; lia| | |].
  - repeat constructor; cbn; try done; intros p [= <-]; lia.
  - apply map_Forall_singleton. done.
  - apply map_Forall_singleton. repeat constructor; cbn; lia.
Qed.

Definition demo_height : Z := 943500.

Lemma demo_allocations :
  allocations (apply_transfers_multi_attributed demo_alk_tx demo_protostones [] demo_height EspoHostFunctionValues_default
    demo_seed demo_sources None)
  = {[0 := [mkBalanceEntry demo_token 30; mkBalanceEntry demo_token 36]; 2 := [mkBalanceEntry demo_token 35]]}.
Proof. vm_compute. reflexivity. Qed.

Lemma demo_targets :
  Forall (targets_deliver (layout_of demo_alk_tx 2)) demo_protostones
  /\ forall k ps, demo_protostones !! k = Some ps -> forward (layout_of demo_alk_tx 2) k ps.
Proof.
  split.
  - apply Forall_cons. split; [|apply Forall_singleton]; (unfold targets_deliver; split_all; [|cbn; unfold deliverable; cbn]).
    + apply Forall_singleton. right; left. split; [done|]. vm_compute. by left.
    + right; right. vm_compute. done.
    + constructor.
    + left. vm_compute. done.
  - assert (Hb : shadow_base (layout_of demo_alk_tx 2) = 4) by (vm_compute; reflexivity).
    intros [|[|k]] ps Hps; cbn in Hps; try done; injection Hps as <-; intros j Hj; cbn; split_all;
      first [by intros p [=] | intros p [= <-] | by apply Forall_nil_2 | apply Forall_singleton]; unfold avoids; rewrite Hb; cbn [pe_output]; lia.
Qed.

Lemma transfers_no_inflation_witness :
  outs_total demo_token (allocations (apply_transfers_multi_attributed demo_alk_tx demo_protostones [] demo_height
    EspoHostFunctionValues_default demo_seed demo_sources None))
  <= grants (layout_of demo_alk_tx 2) (trace_by_shadow (layout_of demo_alk_tx 2) []) (un_map demo_seed) 0 2 demo_token.
Proof.
  exact (transfers_no_inflation demo_alk_tx demo_protostones [] demo_height EspoHostFunctionValues_default demo_seed
    demo_sources demo_token demo_tx_typed).
Defined.

Lemma transfers_lossless_witness :
  outs_total demo_token (allocations (apply_transfers_multi_attributed demo_alk_tx demo_protostones [] demo_height
    EspoHostFunctionValues_default demo_seed demo_sources None)) = 101.
Proof.
  apply (transfers_lossless demo_alk_tx demo_protostones demo_height EspoHostFunctionValues_default demo_seed
    demo_sources demo_token demo_tx_typed); [done|apply demo_targets|apply demo_targets].
Defined.

Lemma transfers_attributed_witness :
  received demo_token (default ∅ (receive_contracts_by_vout (apply_transfers_multi_attributed demo_alk_tx demo_protostones []
    demo_height EspoHostFunctionValues_default demo_seed demo_sources None) !! 0)) <= 66.
Proof.
  etransitivity.
  - apply (transfers_attributed demo_alk_tx demo_protostones [] demo_height EspoHostFunctionValues_default demo_seed
      demo_sources demo_tx_typed).
  - rewrite demo_allocations. vm_compute. discriminate.
Defined.

(** A contract 2:5 calls 2:6 with 7 of token 2:1; a host function returned in between. *)
Definition demo_id (tx : string) : EspoSandshrewLikeTraceShortId := mkShortId (bstr "0x2") (bstr tx).
Definition demo_sends (a : string) : list EspoSandshrewLikeTraceTransfer := [mkTransfer (demo_id "0x1") (bstr a)].
Definition demo_call (who : string) (inc : list EspoSandshrewLikeTraceTransfer) : EspoSandshrewLikeTraceInvokeData :=
  mkInvoke (bstr "call") (mkContext (demo_id who) (demo_id "0x0") [] inc 0) 100.
Definition demo_return (out : list EspoSandshrewLikeTraceTransfer) (data : bytes) : EspoSandshrewLikeTraceReturnData :=
  mkReturn Success (mkResponse out data []).

Definition demo_forest : forest :=
  FCall (demo_call "0x5" (demo_sends "0x9"))
    (FCall (demo_call "0x6" (demo_sends "0x7")) FNil (demo_return [] []) FNil) (demo_return (demo_sends "0x2") []) FNil.

Definition demo_host : EspoHostFunctionValues := mkHostValues (bstr "hh") [] [] [].

Definition demo_alk_trace : EspoSandshrewLikeTrace :=
  mkTrace [] (Invoke (demo_call "0x5" (demo_sends "0x9")) :: Return (demo_return [] (bstr "hh"))
    :: Invoke (demo_call "0x6" (demo_sends "0x7")) :: Return (demo_return [] [])
    :: [Return (demo_return (demo_sends "0x2") [])]).

Lemma demo_clean : clean_espo_sandshrew_like_trace demo_alk_trace demo_host = Some (mkTrace [] (flatten demo_forest)).
Proof. vm_compute. reflexivity. Qed.

Lemma demo_owned : owned demo_forest.
Proof. cbn. split_all; try done; vm_compute; by eexists. Qed.


(** A static call at the root whose callee 2:6 returns 5 of token 2:1: no balance changes, but the debit stays noted. *)
Definition static_trace : EspoSandshrewLikeTrace :=
  mkTrace [] [Invoke (mkInvoke (bstr "staticcall") (mkContext (demo_id "0x5") (demo_id "0x0") [] [] 0) 100); Invoke (demo_call "0x6" []);
    Return (demo_return (demo_sends "0x5") []); Return (demo_return [] [])].

Example static_call_keeps_debits :
  accumulate_alkane_balance_deltas static_trace EspoHostFunctionValues_default = (true, ∅, {[ mkAlkaneId 2 6 := {[ demo_token := 5 ]} ]}).
Proof. vm_compute. reflexivity. Qed.

Lemma deltas_conserve_witness :
  delta_total (accumulate_alkane_balance_deltas demo_alk_trace demo_host).1.2 demo_token = 7.
Proof.
  destruct (accumulate_alkane_balance_deltas demo_alk_trace demo_host) as [[b d] c] eqn:E. cbn [fst snd].
  assert (Hb : b = true). { change b with (b, d, c).1.1. rewrite <- E. vm_compute. reflexivity. } subst b.
  assert (Hf : foreign demo_token demo_forest) by (vm_compute; split_all; [discriminate|by left|done]).
  assert (Hv : volume demo_token demo_forest < u128_mod) by (vm_compute; reflexivity).
  rewrite (proj1 (deltas_conserve demo_alk_trace demo_host _ demo_forest d c demo_token demo_clean eq_refl demo_owned E Hf Hv)).
  vm_compute. reflexivity.
Defined.

Lemma signed_arithmetic_witness :
  su_cmp (su_negative 5) (su_positive 3) = Lt /\ try_add_signed 3 (su_negative 5) = None
  /\ signed_value (su_add (su_negative 5) (su_positive 3)) = -2.
Proof.
  destruct (signed_arithmetic (su_negative 5) (su_positive 3) 3) as ((_ & H1) & _ & H2 & H3); [by split|by split|done|].
  rewrite H1, H2, H3. vm_compute. done.
Defined.

Lemma sources_split_witness :
  whole (take_sources_from_sheet demo_sources demo_token 50).1 = 50.
Proof.
  refine (proj1 (sources_split demo_sources demo_token 50 _ _ _)); [|done|done].
  apply map_Forall_singleton. repeat constructor; cbn; lia.
Defined.
