(* ===== verification/AmmPath.v ===== *)
(** * Swap planning

    [src/modules/ammdata/utils/pathfinder.rs]: a snapshot of the pools is a graph of
    tokens; planners search it for the path that gives the most for an input, asks the
    least for an output, or makes a profit on the way back to where it started.

    [BinaryHeap] is the class of the same name: a bag from which a greatest element can
    be taken, any of them when several are.  The order in which a [HashMap] of pools is
    walked is that of the finite map.  Amounts are [u128] with the saturation of the
    source; differences of amounts are [i128] and wrap. *)
From stdpp Require Import strings.
From S2P Require Import Prelude Bytes RunesTransfer RunesStore RunesChain RunesInscriptions AlkTrace.
From stdpp Require Import options.

Open Scope Z_scope.

(** ** Numbers *)

Definition u128_sat_mul (a b : Z) : Z := Z.min (u128_mod - 1) (a * b).

(** [a as i128 - b as i128] *)
Definition to_i128 (z : Z) : Z := let m := z mod u128_mod in if m <? 2 ^ 127 then m else m - u128_mod.
Definition i128_sub (a b : Z) : Z := to_i128 (to_i128 a - to_i128 b).
Definition i128_min : Z := - 2 ^ 127.

Definition DEFAULT_FEE_BPS : Z := 50.

(** ** Constant product *)

Definition apply_fee (amount_in fee_bps : Z) : Z := u128_sat_mul amount_in (u128_sat_sub 10000 fee_bps) / 10000.

Definition xyk_out_exact_in (r_in r_out amount_in fee_bps : Z) : option Z :=
  if (r_in =? 0) || (r_out =? 0) then None
  else
    let x := apply_fee amount_in fee_bps in
    if x =? 0 then Some 0
    else
      let denom := u128_sat_add r_in x in
      if denom =? 0 then None else Some (u128_sat_mul x r_out / denom).

Definition div_ceil (a b : Z) : Z :=
  if b =? 0 then u128_mod - 1 else if a =? 0 then 0 else u128_sat_add 1 ((a - 1) / b).

Definition xyk_in_for_exact_out (r_in r_out amount_out fee_bps : Z) : option Z :=
  if (r_in =? 0) || (r_out =? 0) || (amount_out =? 0) || (r_out <=? amount_out) then None
  else
    let rem_out := u128_sat_sub r_out amount_out in
    if rem_out =? 0 then None
    else
      let num := u128_sat_mul amount_out r_in in
      let x_prime := div_ceil num rem_out in
      let denom_bps := u128_sat_sub 10000 fee_bps in
      if denom_bps =? 0 then None else Some (div_ceil (u128_sat_mul x_prime 10000) denom_bps).

(** ** The graph *)

Record SchemaPoolSnapshot := mkPoolSnapshot {
  base_reserve : Z;
  quote_reserve : Z;
  base_id : SchemaAlkaneId;
  quote_id : SchemaAlkaneId;
}.

(** [Edge] and [EdgeKey]: the same fields. *)
Record Edge := mkEdge { eg_pool : SchemaAlkaneId; token_in : SchemaAlkaneId; token_out : SchemaAlkaneId }.

#[global] Instance Edge_eq_dec : EqDecision Edge.
Proof. solve_decision. Defined.

Record Graph := mkGraph {
  neighbors : gmap SchemaAlkaneId (list (SchemaAlkaneId * Edge));
  in_neighbors : gmap SchemaAlkaneId (list (SchemaAlkaneId * Edge));
  pools : gmap SchemaAlkaneId SchemaPoolSnapshot;
}.

(** [entry(k).or_default().push(v)] *)
Definition push_at (k : SchemaAlkaneId) (v : SchemaAlkaneId * Edge) (m : gmap SchemaAlkaneId (list (SchemaAlkaneId * Edge)))
    : gmap SchemaAlkaneId (list (SchemaAlkaneId * Edge)) := <[k := default [] (m !! k) ++ [v]]> m.

Definition add_pool (g : Graph) (e : SchemaAlkaneId * SchemaPoolSnapshot) : Graph :=
  let '(pool_id, snap) := e in
  if (base_reserve snap =? 0) || (quote_reserve snap =? 0) then g
  else
    let a := base_id snap in
    let b := quote_id snap in
    let e_ab := mkEdge pool_id a b in
    let e_ba := mkEdge pool_id b a in
    mkGraph (push_at b (a, e_ba) (push_at a (b, e_ab) (neighbors g)))
      (push_at a (b, e_ba) (push_at b (a, e_ab) (in_neighbors g))) (pools g).

Definition from_snapshot (snapshot : gmap SchemaAlkaneId SchemaPoolSnapshot) : Graph :=
  foldl add_pool (mkGraph ∅ ∅ snapshot) (map_to_list snapshot).

Definition reserves_for (g : Graph) (e : Edge) : option (Z * Z) :=
  snap ← pools g !! eg_pool e;
  if bool_decide (token_in e = base_id snap) && bool_decide (token_out e = quote_id snap)
  then Some (base_reserve snap, quote_reserve snap)
  else if bool_decide (token_in e = quote_id snap) && bool_decide (token_out e = base_id snap)
  then Some (quote_reserve snap, base_reserve snap)
  else None.

(** ** Quotes *)

Record Hop := mkHop {
  hp_pool : SchemaAlkaneId;
  hp_token_in : SchemaAlkaneId;
  hp_token_out : SchemaAlkaneId;
  hp_amount_in : Z;
  hp_amount_out : Z;
}.

Record PathQuote := mkQuote { pq_hops : list Hop; pq_amount_in : Z; pq_amount_out : Z }.

Definition hop_of (e : Edge) (amount_in amount_out : Z) : Hop :=
  mkHop (eg_pool e) (token_in e) (token_out e) amount_in amount_out.

Fixpoint hops_exact_in (g : Graph) (fee_bps : Z) (edges : list Edge) (amount_in : Z) : option (list Hop) :=
  match edges with
  | [] => Some []
  | e :: edges' =>
      '(rin, rout) ← reserves_for g e;
      out ← xyk_out_exact_in rin rout amount_in fee_bps;
      hops ← hops_exact_in g fee_bps edges' out;
      Some (hop_of e amount_in out :: hops)
  end.

(** The edges from the last to the first, and the hops in that order. *)
Fixpoint hops_exact_out (g : Graph) (fee_bps : Z) (edges_rev : list Edge) (required_out : Z) : option (list Hop) :=
  match edges_rev with
  | [] => Some []
  | e :: edges' =>
      '(rin, rout) ← reserves_for g e;
      need_in ← xyk_in_for_exact_out rin rout required_out fee_bps;
      hops ← hops_exact_out g fee_bps edges' need_in;
      Some (hop_of e need_in required_out :: hops)
  end.

Definition quote_of (hops : list Hop) : PathQuote :=
  mkQuote hops (from_option hp_amount_in 0 (head hops)) (from_option hp_amount_out 0 (last hops)).

Definition pathquote_from_edges_exact_in (g : Graph) (edges : list Edge) (amount_in fee_bps : Z) : option PathQuote :=
  match edges with
  | [] => None
  | _ => quote_of <$> hops_exact_in g fee_bps edges amount_in
  end.

Definition pathquote_from_edges_exact_out (g : Graph) (edges : list Edge) (required_out fee_bps : Z) : option PathQuote :=
  match edges with
  | [] => None
  | _ => (fun hops_rev => quote_of (reverse hops_rev)) <$> hops_exact_out g fee_bps (reverse edges) required_out
  end.

(** ** Best-first search *)

(** The amount at a token, and the edges that led to it: from the source, or back from the destination. *)
Record Node := mkNode { nd_amount : Z; nd_at : SchemaAlkaneId; nd_hops : list Edge }.

(** [pop]: an element that none of the others exceeds, and the others. *)
Class BinaryHeap := { heap_pop : (Node -> Z) -> list Node -> option (Node * list Node) }.

Class BinaryHeapLaws `{BinaryHeap} := {
  heap_pop_none key h : heap_pop key h = None -> h = [];
  heap_pop_some key h x h' : heap_pop key h = Some (x, h') -> h ≡ₚ x :: h' /\ Forall (fun y => key y <= key x) h';
}.

Record Search := mkSearch {
  heap : list Node;
  best_seen : gmap (SchemaAlkaneId * nat) Z;
  best_quote : option PathQuote;
}.

Section Planners.
Context {bh : BinaryHeap} (g : Graph) (fee_bps : Z) (max_hops : nat).

(** The rules of a step from [at_] along [e]: no token twice, except [free], and not straight back through a pool. *)
Definition immediate_backtrack (prev : option Edge) (e : Edge) (at_ : SchemaAlkaneId) (to : SchemaAlkaneId) : bool :=
  match prev with
  | Some p => bool_decide (eg_pool p = eg_pool e) && bool_decide (token_in p = to) && bool_decide (token_out p = at_)
  | None => false
  end.

Definition expand_in (dst : SchemaAlkaneId) (nd : Node) (x : SchemaAlkaneId * Edge) : option Node :=
  let '(to, e) := x in
  if existsb (fun h => bool_decide (token_out h = to)) (nd_hops nd) && negb (bool_decide (to = dst)) then None
  else if immediate_backtrack (last (nd_hops nd)) e (nd_at nd) to then None
  else
    '(rin, rout) ← reserves_for g e;
    if (rin =? 0) || (rout =? 0) then None
    else
      next_amt ← xyk_out_exact_in rin rout (nd_amount nd) fee_bps;
      if next_amt =? 0 then None else Some (mkNode next_amt to (nd_hops nd ++ [e])).

Definition visit_in (dst : SchemaAlkaneId) (amount_in : Z) (nd : Node) (rest : list Node) (s : Search) : Search :=
  let depth := length (nd_hops nd) in
  if (max_hops <? depth)%nat then mkSearch rest (best_seen s) (best_quote s)
  else
    let best :=
      if bool_decide (nd_at nd = dst) && (0 <? depth)%nat then
        match pathquote_from_edges_exact_in g (nd_hops nd) amount_in fee_bps with
        | Some q => if from_option pq_amount_out 0 (best_quote s) <? pq_amount_out q then Some q else best_quote s
        | None => best_quote s
        end
      else best_quote s in
    let seen := best_seen s !! (nd_at nd, depth) in
    if from_option (fun b => nd_amount nd <=? b) false seen then mkSearch rest (best_seen s) best
    else
      mkSearch (rev_append (omap (expand_in dst nd) (default [] (neighbors g !! nd_at nd))) rest)
        (<[(nd_at nd, depth) := nd_amount nd]> (best_seen s)) best.

(** Backwards: [immediate_backtrack] with the ends of the edges exchanged. *)
Definition expand_out (src : SchemaAlkaneId) (nd : Node) (x : SchemaAlkaneId * Edge) : option Node :=
  let '(from, e) := x in
  if existsb (fun h => bool_decide (token_in h = from)) (nd_hops nd) && negb (bool_decide (from = src)) then None
  else if match last (nd_hops nd) with
          | Some p => bool_decide (eg_pool p = eg_pool e) && bool_decide (token_out p = from) && bool_decide (token_in p = nd_at nd)
          | None => false
          end then None
  else
    '(rin, rout) ← reserves_for g e;
    if (rin =? 0) || (rout =? 0) then None
    else
      need_up ← xyk_in_for_exact_out rin rout (nd_amount nd) fee_bps;
      Some (mkNode need_up from (nd_hops nd ++ [e])).

Definition visit_out (src : SchemaAlkaneId) (amount_out : Z) (nd : Node) (rest : list Node) (s : Search) : Search :=
  let depth := length (nd_hops nd) in
  if (max_hops <? depth)%nat then mkSearch rest (best_seen s) (best_quote s)
  else
    let best :=
      if bool_decide (nd_at nd = src) && (0 <? depth)%nat then
        match pathquote_from_edges_exact_out g (reverse (nd_hops nd)) amount_out fee_bps with
        | Some q => if from_option (fun b => pq_amount_in q <? pq_amount_in b) true (best_quote s) then Some q else best_quote s
        | None => best_quote s
        end
      else best_quote s in
    let seen := best_seen s !! (nd_at nd, depth) in
    if from_option (fun b => b <=? nd_amount nd) false seen then mkSearch rest (best_seen s) best
    else
      mkSearch (rev_append (omap (expand_out src nd) (default [] (in_neighbors g !! nd_at nd))) rest)
        (<[(nd_at nd, depth) := nd_amount nd]> (best_seen s)) best.

(** [while let Some(node) = heap.pop()]; [None]: the fuel ran out. *)
Fixpoint search_loop (fuel : nat) (key : Node -> Z) (visit : Node -> list Node -> Search -> Search) (s : Search) : option Search :=
  match fuel with
  | O => None
  | S fuel' =>
      match heap_pop key (heap s) with
      | None => Some s
      | Some (nd, rest) => search_loop fuel' key visit (visit nd rest s)
      end
  end.

(** The nodes below one with [k] hops to go, when none has more than [d] successors. *)
Fixpoint tree_size (d k : nat) : nat := match k with O => 1%nat | S k' => S (d * tree_size d k')%nat end.

(** More steps than the search can take. *)
Definition search_fuel : nat := S (tree_size (2 * size (pools g)) (S max_hops)).

Definition best_first_exact_in (src dst : SchemaAlkaneId) (amount_in : Z) : option (option PathQuote) :=
  best_quote <$> search_loop search_fuel nd_amount (visit_in dst amount_in) (mkSearch [mkNode amount_in src []] ∅ None).

Definition best_first_exact_out (src dst : SchemaAlkaneId) (amount_out : Z) : option (option PathQuote) :=
  best_quote <$> search_loop search_fuel (fun nd => - nd_amount nd) (visit_out src amount_out)
    (mkSearch [mkNode amount_out dst []] ∅ None).

End Planners.

(** ** Cycles *)

Definition is_immediate_backtrack_same_pool (path : list Edge) : bool :=
  match rev path with
  | b :: a :: _ =>
      bool_decide (eg_pool a = eg_pool b) && bool_decide (token_in a = token_out b) && bool_decide (token_out a = token_in b)
  | _ => false
  end.

(** The paths that close at [start], in the order they are found. *)
Fixpoint dfs_cycles (g : Graph) (start : SchemaAlkaneId) (remaining : nat) (cur : SchemaAlkaneId) (visited : gset SchemaAlkaneId)
    (acc : list Edge) : list (list Edge) :=
  match remaining with
  | O => []
  | S remaining' =>
      mjoin ((fun x : SchemaAlkaneId * Edge =>
        let '(to, e) := x in
        if bool_decide (to = start) then
          match acc with
          | [] => []
          | _ => let path := acc ++ [e] in if is_immediate_backtrack_same_pool path then [] else [path]
          end
        else if bool_decide (to ∈ visited) then []
        else if immediate_backtrack (last acc) e cur to then []
        else dfs_cycles g start remaining' to ({[to]} ∪ visited) (acc ++ [e])) <$> default [] (neighbors g !! cur))
  end.

Definition enumerate_cycles (g : Graph) (start : SchemaAlkaneId) (max_hops : nat) : list (list Edge) :=
  dfs_cycles g start max_hops start {[start]} [].

(** ** The input of a cycle *)

Fixpoint cap_loop (g : Graph) (edges : list Edge) (cap : Z) : Z :=
  match edges with
  | [] => cap
  | e :: edges' =>
      match reserves_for g e with
      | None => 0
      | Some (rin, _) =>
          if rin =? 0 then 0
          else
            let hop_cap := rin / 3 in
            cap_loop g edges' (if hop_cap <? cap then hop_cap else cap)
      end
  end.

Definition cap_for_path (g : Graph) (edges : list Edge) : Z := cap_loop g edges (u128_mod - 1).

Definition profit (q : PathQuote) : Z := i128_sub (pq_amount_out q) (pq_amount_in q).

Section Optimise.
Context (g : Graph) (edges : list Edge) (fee_bps : Z).

(** The best quote so far and its profit. *)
Definition keep_best (b : option PathQuote * Z) (q : PathQuote) : option PathQuote * Z :=
  if b.2 <? profit q then (Some q, profit q) else b.

(** [for x in lo..=hi] *)
Definition scan_range (lo hi : Z) (b : option PathQuote * Z) : option PathQuote * Z :=
  foldl (fun b x =>
    match pathquote_from_edges_exact_in g edges x fee_bps with Some q => keep_best b q | None => b end) b (seqZ lo (hi - lo + 1)).

(** At most [n] rounds of the ternary search: the range that is left and the best seen; [None] when a quote fails. *)
Fixpoint ternary (n : nat) (lo hi : Z) (b : option PathQuote * Z) : option (Z * Z * (option PathQuote * Z)) :=
  match n with
  | O => Some (lo, hi, b)
  | S n' =>
      let m1 := lo + (hi - lo) / 3 in
      let m2 := hi - (hi - lo) / 3 in
      q1 ← pathquote_from_edges_exact_in g edges m1 fee_bps;
      q2 ← pathquote_from_edges_exact_in g edges m2 fee_bps;
      let b' := keep_best (keep_best b q1) q2 in
      let '(lo', hi') := if profit q1 <? profit q2 then (m1 + 1, hi) else (lo, u128_sat_sub m2 1) in
      if hi' <=? lo' then Some (lo', hi', b') else ternary n' lo' hi' b'
  end.

Definition optimize_exact_in_on_path (cap : Z) : option PathQuote :=
  if cap =? 0 then None
  else if cap <=? 64 then (scan_range 1 cap (None, i128_min)).1
  else
    '(lo, hi, b) ← ternary 40 1 cap (None, i128_min);
    let start := Z.max (u128_sat_sub lo 16) 1 in
    let end_ := Z.min (hi + 16) cap in
    (scan_range start end_ b).1.

End Optimise.

(** ** The planners *)

Section Plans.
Context {bh : BinaryHeap} (snapshot : gmap SchemaAlkaneId SchemaPoolSnapshot).

(** The outer [option] is the fuel of the search. *)
Definition plan_swap_exact_tokens_for_tokens (tin tout : SchemaAlkaneId) (amount_in amount_out_min fee_bps : Z) (max_hops : nat)
    : option (option PathQuote) :=
  if (amount_in =? 0) || bool_decide (tin = tout) then Some None
  else
    r ← best_first_exact_in (from_snapshot snapshot) fee_bps max_hops tin tout amount_in;
    Some (q ← r; if amount_out_min <=? pq_amount_out q then Some q else None).

Definition plan_swap_tokens_for_exact_tokens (tin tout : SchemaAlkaneId) (amount_out amount_in_max fee_bps : Z) (max_hops : nat)
    : option (option PathQuote) :=
  if (amount_out =? 0) || bool_decide (tin = tout) then Some None
  else
    r ← best_first_exact_out (from_snapshot snapshot) fee_bps max_hops tin tout amount_out;
    Some (q ← r; if pq_amount_in q <=? amount_in_max then Some q else None).

Definition plan_swap_exact_tokens_for_tokens_implicit (tin tout : SchemaAlkaneId) (available_in amount_out_min fee_bps : Z)
    (max_hops : nat) : option (option PathQuote) :=
  plan_swap_exact_tokens_for_tokens tin tout available_in amount_out_min fee_bps max_hops.

Definition plan_exact_in_default_fee (tin tout : SchemaAlkaneId) (amount_in amount_out_min : Z) (max_hops : nat)
    : option (option PathQuote) := plan_swap_exact_tokens_for_tokens tin tout amount_in amount_out_min DEFAULT_FEE_BPS max_hops.

Definition plan_exact_out_default_fee (tin tout : SchemaAlkaneId) (amount_out amount_in_max : Z) (max_hops : nat)
    : option (option PathQuote) := plan_swap_tokens_for_exact_tokens tin tout amount_out amount_in_max DEFAULT_FEE_BPS max_hops.

Definition plan_implicit_default_fee (tin tout : SchemaAlkaneId) (available_in amount_out_min : Z) (max_hops : nat)
    : option (option PathQuote) :=
  plan_swap_exact_tokens_for_tokens_implicit tin tout available_in amount_out_min DEFAULT_FEE_BPS max_hops.

(** One cycle: its best input, kept when it earns more than the best so far. *)
Definition try_cycle (g : Graph) (fee_bps : Z) (b : option PathQuote * Z) (path : list Edge) : option PathQuote * Z :=
  let cap := cap_for_path g path in
  if cap =? 0 then b
  else match optimize_exact_in_on_path g path fee_bps cap with Some q => keep_best b q | None => b end.

Definition plan_best_mev_swap (token : SchemaAlkaneId) (fee_bps : Z) (max_hops : nat) : option PathQuote :=
  let g := from_snapshot snapshot in
  let b := foldl (try_cycle g fee_bps) (None, 0) (enumerate_cycles g token max_hops) in
  if 0 <? b.2 then b.1 else None.

End Plans.
