(* ===== verification/AmmPathProps.v ===== *)
(** * What swap plans promise

    Quotes never pay out more than the constant product allows, and the input asked
    for an output is the least that buys it; the searches end, what they return is a
    quote along a path of pools, and it is no worse than any route of one or two
    pools; the cycles are exactly the simple ones. *)
From stdpp Require Import strings.
From S2P Require Import Prelude Bytes RunesTransfer RunesStore RunesChain RunesInscriptions AlkTrace AmmPath.

Open Scope Z_scope.

(** ** Constant product *)

Definition small (z : Z) : Prop := 0 <= z < u128_mod.

Lemma sat_mul_le a b : u128_sat_mul a b <= a * b.
Proof. unfold u128_sat_mul. lia. Qed.

Lemma sat_mul_exact a b : a * b < u128_mod -> u128_sat_mul a b = a * b.
Proof. unfold u128_sat_mul. lia. Qed.

Lemma u128_add_exact a b : a + b < u128_mod -> u128_sat_add a b = a + b.
Proof. unfold u128_sat_add. lia. Qed.

Lemma apply_fee_range a fee : 0 <= a -> 0 <= fee -> 0 <= apply_fee a fee <= a.
Proof.
  intros Ha Hf. unfold apply_fee.
  assert (H : 0 <= u128_sat_mul a (u128_sat_sub 10000 fee) <= a * 10000).
  { unfold u128_sat_mul, u128_sat_sub, u128_mod. nia. }
  split; [apply Z.div_pos; lia|]. apply Z.div_le_upper_bound; lia.
Qed.

(** What is paid out, and that the product of the reserves does not shrink. *)
Lemma xyk_out_spec rin rout a fee out :
  0 < rin -> small rout -> 0 < rout -> 0 <= a -> 0 <= fee -> rin + a < u128_mod ->
  xyk_out_exact_in rin rout a fee = Some out ->
  0 <= out < rout /\ rin * rout <= (rin + a) * (rout - out).
Proof.
  intros Hri [_ Hro] Hro0 Ha Hf Hs. unfold xyk_out_exact_in.
  destruct (Z.eqb_spec rin 0); [lia|]. destruct (Z.eqb_spec rout 0); [lia|]. cbn [orb].
  pose proof (apply_fee_range a fee Ha Hf) as Hx. set (x := apply_fee a fee) in *.
  destruct (Z.eqb_spec x 0) as [Hz|Hz]; [intros [= <-]; nia|].
  rewrite u128_add_exact by lia. destruct (Z.eqb_spec (rin + x) 0); [lia|]. intros [= <-].
  set (num := u128_sat_mul x rout). assert (Hn : 0 <= num <= x * rout).
  { split; [unfold num, u128_sat_mul, u128_mod in *; nia|apply sat_mul_le]. }
  pose proof (Z.div_pos num (rin + x) ltac:(lia) ltac:(lia)).
  pose proof (Z.mul_div_le num (rin + x) ltac:(lia)) as Hd. set (o := num / (rin + x)) in *. split; nia.
Qed.

Lemma div_ceil_spec n d : 0 < n < u128_mod -> 0 < d -> (div_ceil n d - 1) * d < n <= div_ceil n d * d.
Proof.
  intros Hn Hd. unfold div_ceil. destruct (Z.eqb_spec d 0); [lia|]. destruct (Z.eqb_spec n 0); [lia|].
  pose proof (Z.div_mod (n - 1) d ltac:(lia)) as H1. pose proof (Z.mod_pos_bound (n - 1) d Hd) as H2.
  pose proof (Z.div_pos (n - 1) d ltac:(lia) Hd) as H3.
  assert ((n - 1) / d <= n - 1) by (apply Z.div_le_upper_bound; nia).
  rewrite u128_add_exact by lia. nia.
Qed.

Lemma div_ceil_ge n d : 0 < n -> 0 < d -> n < u128_mod -> n <= div_ceil n d * d.
Proof. intros H1 H2 H3. pose proof (div_ceil_spec n d). lia. Qed.

Lemma div_ceil_nonneg n d : 0 <= n -> 0 <= d -> 0 <= div_ceil n d.
Proof.
  intros Hn Hd. unfold div_ceil. destruct (Z.eqb_spec d 0); [unfold u128_mod; lia|]. destruct (Z.eqb_spec n 0); [lia|].
  pose proof (Z.div_pos (n - 1) d ltac:(lia) ltac:(lia)). unfold u128_sat_add, u128_mod. lia.
Qed.

Lemma xyk_in_nonneg rin rout out fee a :
  0 <= rin -> 0 <= rout -> 0 <= out -> xyk_in_for_exact_out rin rout out fee = Some a -> 0 <= a /\ out < rout.
Proof.
  intros Hri Hro Ho. unfold xyk_in_for_exact_out. destruct (_ || _ || _ || _) eqn:Eg; [done|].
  apply orb_false_iff in Eg as [_ E4%Z.leb_gt]. destruct (_ =? 0); [done|]. destruct (_ =? 0); [done|]. intros [= <-].
  split; [|done]. assert (Hs : forall x y, 0 <= x -> 0 <= y -> 0 <= u128_sat_mul x y) by (intros; unfold u128_sat_mul, u128_mod; nia).
  apply div_ceil_nonneg; [apply Hs; [|lia]; apply div_ceil_nonneg; [by apply Hs|]|]; unfold u128_sat_sub; lia.
Qed.

(** The input asked for is enough, and nothing less is: the four products and sums are amounts. *)
Lemma xyk_in_spec rin rout out fee a :
  0 <= rin -> 0 <= rout -> 0 <= out -> 0 <= fee -> xyk_in_for_exact_out rin rout out fee = Some a ->
  out * rin < u128_mod -> a * 10000 < u128_mod - 1 -> a * rout < u128_mod -> rin + a < u128_mod ->
  (exists got, xyk_out_exact_in rin rout a fee = Some got /\ out <= got)
  /\ forall b got, 0 <= b < a -> xyk_out_exact_in rin rout b fee = Some got -> got < out.
Proof.
  intros Hri Hro Ho Hf. unfold xyk_in_for_exact_out.
  destruct (_ || _ || _ || _) eqn:Eg; [done|].
  apply orb_false_iff in Eg as [[[E1%Z.eqb_neq E2%Z.eqb_neq]%orb_false_iff E3%Z.eqb_neq]%orb_false_iff E4%Z.leb_gt].
  assert (Hrem : u128_sat_sub rout out = rout - out) by (unfold u128_sat_sub; lia). rewrite Hrem.
  destruct (Z.eqb_spec (rout - out) 0); [lia|]. destruct (Z.eqb_spec (u128_sat_sub 10000 fee) 0) as [|Hd]; [done|].
  intros [= Ha] Hm Ha1 Ha2 Ha3. rewrite (sat_mul_exact out rin) in Ha by done.
  pose proof (div_ceil_spec (out * rin) (rout - out) ltac:(nia) ltac:(lia)) as Hx. set (x := div_ceil _ (rout - out)) in *.
  set (D := u128_sat_sub 10000 fee) in *. assert (HD : 0 < D <= 10000) by (unfold D, u128_sat_sub in *; lia).
  assert (Hx0 : 0 < x) by nia.
  assert (Hxs : x * 10000 < u128_mod).
  { destruct (Z.lt_ge_cases (x * 10000) u128_mod) as [|Hge]; [done|]. exfalso.
    assert (Hs : u128_sat_mul x 10000 = u128_mod - 1) by (unfold u128_sat_mul; lia). rewrite Hs in Ha.
    pose proof (div_ceil_ge (u128_mod - 1) D ltac:(unfold u128_mod; lia) ltac:(lia) ltac:(lia)). rewrite Ha in *. nia. }
  rewrite sat_mul_exact in Ha by done.
  pose proof (div_ceil_spec (x * 10000) D ltac:(lia) ltac:(lia)) as Hc. rewrite Ha in Hc.
  assert (Hfee : forall b, 0 <= b <= a -> apply_fee b fee = b * D / 10000).
  { intros b Hb. unfold apply_fee. fold D. rewrite sat_mul_exact; [done|nia]. }
  assert (Hout : forall b, 0 <= b <= a -> xyk_out_exact_in rin rout b fee
    = Some (if b * D / 10000 =? 0 then 0 else (b * D / 10000 * rout) / (rin + b * D / 10000))).
  { intros b Hb. unfold xyk_out_exact_in. destruct (Z.eqb_spec rin 0); [lia|]. destruct (Z.eqb_spec rout 0); [lia|].
    cbn [orb]. rewrite Hfee by done. assert (Hb0 : 0 <= b * D / 10000) by (apply Z.div_pos; nia).
    assert (b * D / 10000 <= a) by (apply Z.div_le_upper_bound; nia).
    destruct (Z.eqb_spec (b * D / 10000) 0); [done|]. rewrite u128_add_exact by lia.
    destruct (Z.eqb_spec (rin + b * D / 10000) 0); [lia|]. rewrite sat_mul_exact; [done|nia]. }
  split.
  - rewrite Hout by nia. eexists. split; [done|].
    assert (HX : x <= a * D / 10000) by (apply Z.div_le_lower_bound; lia). set (X := a * D / 10000) in *.
    destruct (Z.eqb_spec X 0); [lia|]. apply Z.div_le_lower_bound; nia.
  - intros b got Hb. rewrite Hout by lia. intros [= <-].
    assert (HX : b * D / 10000 < x) by (apply Z.div_lt_upper_bound; nia).
    assert (HX0 : 0 <= b * D / 10000) by (apply Z.div_pos; nia). set (X := b * D / 10000) in *.
    destruct (Z.eqb_spec X 0); [lia|]. apply Z.div_lt_upper_bound; nia.
Qed.

Lemma xyk_out_total rin rout a fee : 0 < rin -> 0 < rout -> 0 <= a -> 0 <= fee -> is_Some (xyk_out_exact_in rin rout a fee).
Proof.
  intros Hri Hro Ha Hf. unfold xyk_out_exact_in. destruct (Z.eqb_spec rin 0); [lia|]. destruct (Z.eqb_spec rout 0); [lia|].
  cbn [orb]. pose proof (apply_fee_range a fee Ha Hf). destruct (_ =? 0); [by eexists|].
  destruct (Z.eqb_spec (u128_sat_add rin (apply_fee a fee)) 0) as [E|]; [|by eexists]. unfold u128_sat_add, u128_mod in E. lia.
Qed.

(** More in, more out. *)
Lemma xyk_out_mono rin rout a b fee x y :
  0 < rin -> 0 < rout -> 0 <= a <= b -> 0 <= fee -> b * 10000 < u128_mod -> b * rout < u128_mod -> rin + b < u128_mod ->
  xyk_out_exact_in rin rout a fee = Some x -> xyk_out_exact_in rin rout b fee = Some y -> x <= y.
Proof.
  intros Hri Hro Hab Hf H1 H2 H3. set (D := u128_sat_sub 10000 fee). assert (HD : 0 <= D <= 10000) by (unfold D, u128_sat_sub; lia).
  assert (Hout : forall c, 0 <= c <= b -> xyk_out_exact_in rin rout c fee
    = Some ((c * D / 10000 * rout) / (rin + c * D / 10000))).
  { intros c Hc. unfold xyk_out_exact_in. destruct (Z.eqb_spec rin 0); [lia|]. destruct (Z.eqb_spec rout 0); [lia|].
    cbn [orb]. unfold apply_fee. fold D. rewrite sat_mul_exact by nia.
    assert (Hb0 : 0 <= c * D / 10000) by (apply Z.div_pos; nia).
    assert (c * D / 10000 <= b) by (apply Z.div_le_upper_bound; nia).
    destruct (Z.eqb_spec (c * D / 10000) 0) as [->|]; [by rewrite Z.add_0_r|]. rewrite u128_add_exact by lia.
    destruct (Z.eqb_spec (rin + c * D / 10000) 0); [lia|]. rewrite sat_mul_exact; [done|nia]. }
  rewrite !Hout by lia. intros [= <-] [= <-].
  assert (Hm : a * D / 10000 <= b * D / 10000) by (apply Z.div_le_mono; nia).
  assert (Ha0 : 0 <= a * D / 10000) by (apply Z.div_pos; nia). set (X := a * D / 10000) in *. set (Y := b * D / 10000) in *.
  apply Z.div_le_lower_bound; [lia|]. rewrite Z.mul_comm.
  pose proof (Z.mul_div_le (X * rout) (rin + X) ltac:(lia)) as Hd. set (o := X * rout / (rin + X)) in *.
  assert (Ho : 0 <= o) by (apply Z.div_pos; nia). assert (Hle : o <= rout) by nia.
  assert (o * (Y - X) <= rout * (Y - X)) by (apply Z.mul_le_mono_nonneg_r; lia). lia.
Qed.

(** ** The graph of a snapshot *)

Section Snapshot.
Context (sn : gmap SchemaAlkaneId SchemaPoolSnapshot).

(** A direction of a pool that has reserves. *)
Definition edge_of (p : SchemaAlkaneId) (snap : SchemaPoolSnapshot) (e : Edge) : Prop :=
  base_reserve snap <> 0 /\ quote_reserve snap <> 0
  /\ (e = mkEdge p (base_id snap) (quote_id snap) \/ e = mkEdge p (quote_id snap) (base_id snap)).

Definition edge_in (e : Edge) : Prop := exists snap, sn !! eg_pool e = Some snap /\ edge_of (eg_pool e) snap e.

Lemma edge_of_pool p snap e : edge_of p snap e -> eg_pool e = p.
Proof. by intros (_ & _ & [-> | ->]). Qed.

Lemma push_at_elem k v m a x : x ∈ default [] (push_at k v m !! a) <-> x ∈ default [] (m !! a) \/ (a = k /\ x = v).
Proof.
  unfold push_at. destruct (decide (k = a)) as [->|Hne].
  - rewrite lookup_insert_eq. cbn. rewrite elem_of_app, list_elem_of_singleton. tauto.
  - rewrite lookup_insert_ne by done. split; [by left|]. intros [|[-> _]]; done.
Qed.

Lemma push_at_length k v m a : (length (default [] (push_at k v m !! a)) <= S (length (default [] (m !! a))))%nat.
Proof.
  unfold push_at. destruct (decide (k = a)) as [->|Hne].
  - rewrite lookup_insert_eq. cbn. rewrite length_app. cbn. lia.
  - rewrite lookup_insert_ne by done. lia.
Qed.

Lemma add_pool_elem g p snap a to e :
  ((to, e) ∈ default [] (neighbors (add_pool g (p, snap)) !! a)
   <-> (to, e) ∈ default [] (neighbors g !! a) \/ (edge_of p snap e /\ token_in e = a /\ token_out e = to))
  /\ ((to, e) ∈ default [] (in_neighbors (add_pool g (p, snap)) !! a)
   <-> (to, e) ∈ default [] (in_neighbors g !! a) \/ (edge_of p snap e /\ token_out e = a /\ token_in e = to)).
Proof.
  unfold add_pool, edge_of. destruct (Z.eqb_spec (base_reserve snap) 0) as [H1|H1]; cbn [orb];
    [split; naive_solver|]. destruct (Z.eqb_spec (quote_reserve snap) 0) as [H2|H2]; [split; naive_solver|].
  cbn [neighbors in_neighbors]. rewrite !push_at_elem. split; naive_solver.
Qed.

Lemma add_pool_length g x a :
  (length (default [] (neighbors (add_pool g x) !! a)) <= 2 + length (default [] (neighbors g !! a)))%nat
  /\ (length (default [] (in_neighbors (add_pool g x) !! a)) <= 2 + length (default [] (in_neighbors g !! a)))%nat.
Proof.
  destruct x as [p snap]. unfold add_pool. destruct (_ || _); [lia|]. cbn [neighbors in_neighbors].
  split; (etransitivity; [apply push_at_length|]); (etransitivity; [apply le_n_S, push_at_length|]); done.
Qed.

Lemma pools_fold l : forall g, pools (foldl add_pool g l) = pools g.
Proof.
  induction l as [|[p snap] l IH]; intros g; cbn [foldl]; [done|]. rewrite IH. unfold add_pool. by destruct (_ || _).
Qed.

Lemma fold_elem l a to e : forall g,
  ((to, e) ∈ default [] (neighbors (foldl add_pool g l) !! a)
   <-> (to, e) ∈ default [] (neighbors g !! a)
       \/ ((exists p snap, (p, snap) ∈ l /\ edge_of p snap e) /\ token_in e = a /\ token_out e = to))
  /\ ((to, e) ∈ default [] (in_neighbors (foldl add_pool g l) !! a)
   <-> (to, e) ∈ default [] (in_neighbors g !! a)
       \/ ((exists p snap, (p, snap) ∈ l /\ edge_of p snap e) /\ token_out e = a /\ token_in e = to)).
Proof.
  induction l as [|[p snap] l IH]; intros g; cbn [foldl].
  { split; split; [by left|intros [|((p & snap & []%elem_of_nil & _) & _)]; done|by left|intros [|((p & snap & []%elem_of_nil & _) & _)]; done]. }
  destruct (IH (add_pool g (p, snap))) as [I1 I2]. destruct (add_pool_elem g p snap a to e) as [A1 A2].
  assert (Hc : (exists p' snap', (p', snap') ∈ (p, snap) :: l /\ edge_of p' snap' e)
    <-> edge_of p snap e \/ exists p' snap', (p', snap') ∈ l /\ edge_of p' snap' e).
  { setoid_rewrite elem_of_cons. naive_solver. }
  split; [rewrite I1, A1, Hc | rewrite I2, A2, Hc]; tauto.
Qed.

Lemma fold_length l a : forall g,
  (length (default [] (neighbors (foldl add_pool g l) !! a)) <= 2 * length l + length (default [] (neighbors g !! a)))%nat
  /\ (length (default [] (in_neighbors (foldl add_pool g l) !! a)) <= 2 * length l + length (default [] (in_neighbors g !! a)))%nat.
Proof.
  induction l as [|x l IH]; intros g; cbn [foldl length]; [lia|].
  destruct (IH (add_pool g x)). destruct (add_pool_length g x a). lia.
Qed.

Lemma edge_in_list e : edge_in e <-> exists p snap, (p, snap) ∈ map_to_list sn /\ edge_of p snap e.
Proof.
  unfold edge_in. setoid_rewrite elem_of_map_to_list. split.
  - intros (snap & H1 & H2). by exists (eg_pool e), snap.
  - intros (p & snap & H1 & H2). pose proof (edge_of_pool _ _ _ H2) as <-. by exists snap.
Qed.

Lemma from_snapshot_pools : pools (from_snapshot sn) = sn.
Proof. unfold from_snapshot. by rewrite pools_fold. Qed.

Lemma neighbors_spec a to e :
  (to, e) ∈ default [] (neighbors (from_snapshot sn) !! a) <-> edge_in e /\ token_in e = a /\ token_out e = to.
Proof.
  unfold from_snapshot. rewrite (proj1 (fold_elem (map_to_list sn) a to e _)), edge_in_list. cbn [neighbors].
  rewrite lookup_empty. cbn. rewrite elem_of_nil. tauto.
Qed.

Lemma in_neighbors_spec a from e :
  (from, e) ∈ default [] (in_neighbors (from_snapshot sn) !! a) <-> edge_in e /\ token_out e = a /\ token_in e = from.
Proof.
  unfold from_snapshot. rewrite (proj2 (fold_elem (map_to_list sn) a from e _)), edge_in_list. cbn [in_neighbors].
  rewrite lookup_empty. cbn. rewrite elem_of_nil. tauto.
Qed.

Lemma degree a :
  (length (default [] (neighbors (from_snapshot sn) !! a)) <= 2 * size sn)%nat
  /\ (length (default [] (in_neighbors (from_snapshot sn) !! a)) <= 2 * size sn)%nat.
Proof.
  unfold from_snapshot. destruct (fold_length (map_to_list sn) a (mkGraph ∅ ∅ sn)) as [H1 H2]. cbn [neighbors in_neighbors] in *.
  rewrite lookup_empty in H1, H2. cbn in H1, H2. rewrite length_map_to_list in H1, H2. lia.
Qed.

(** The reserves of an edge, in its direction. *)
Lemma reserves_edge e : edge_in e -> exists snap rin rout,
  sn !! eg_pool e = Some snap /\ reserves_for (from_snapshot sn) e = Some (rin, rout) /\ rin <> 0 /\ rout <> 0
  /\ ((rin = base_reserve snap /\ rout = quote_reserve snap) \/ (rin = quote_reserve snap /\ rout = base_reserve snap)).
Proof.
  intros (snap & Hp & H1 & H2 & He). unfold reserves_for. rewrite from_snapshot_pools, Hp. cbn [mbind option_bind].
  exists snap. destruct He as [He|He]; rewrite He; cbn [token_in token_out].
  - rewrite !bool_decide_true by done. cbn [andb]. naive_solver.
  - repeat case_bool_decide; cbn [andb]; naive_solver.
Qed.

End Snapshot.
