(* ===== verification/AmmSearch.v ===== *)
(** * The searches of the planners

    Running a search to an empty heap, what holds of the paths it meets, that it ends, and
    that it does not miss short routes; then the cycles of the profit search, their inputs
    and their profits. *)
From stdpp Require Import strings.
From S2P Require Import Prelude Bytes RunesTransfer RunesStore RunesChain RunesInscriptions AlkTrace AmmPath AmmPathProps.
Open Scope Z_scope.

(** ** Running a search *)

Section Loop.
Context {bh : BinaryHeap} {laws : BinaryHeapLaws}.
Context (key : Node -> Z) (visit : Node -> list Node -> Search -> Search).

Lemma search_loop_inv (I : Search -> Prop) :
  (forall nd rest s, I s -> heap s ≡ₚ nd :: rest -> I (visit nd rest s)) ->
  forall fuel s s', I s -> search_loop fuel key visit s = Some s' -> I s' /\ heap s' = [].
Proof.
  intros Hv. induction fuel as [|fuel IH]; intros s s' Hs; cbn [search_loop]; [done|].
  destruct (heap_pop key (heap s)) as [[nd rest]|] eqn:E.
  - apply IH, Hv; [done|]. by apply (heap_pop_some key).
  - intros [= <-]. split; [done|]. by apply (heap_pop_none key).
Qed.

Definition weight (w : Node -> nat) (l : list Node) : nat := sum_list_with w l.

Lemma weight_perm w l1 l2 : l1 ≡ₚ l2 -> weight w l1 = weight w l2.
Proof. unfold weight. induction 1; cbn; lia. Qed.

Lemma search_loop_total (w : Node -> nat) :
  (forall nd rest s, (weight w (heap (visit nd rest s)) < w nd + weight w rest)%nat) ->
  forall fuel s, (weight w (heap s) < fuel)%nat -> is_Some (search_loop fuel key visit s).
Proof.
  intros Hv. induction fuel as [|fuel IH]; intros s Hs; [lia|]. cbn [search_loop].
  destruct (heap_pop key (heap s)) as [[nd rest]|] eqn:E; [|by eexists].
  apply (heap_pop_some key) in E as [E _]. apply (weight_perm w) in E. cbn in E. fold (weight w) in E.
  apply IH. specialize (Hv nd rest s). unfold weight in *. lia.
Qed.

End Loop.

(** ** Paths *)

Fixpoint chain (src : SchemaAlkaneId) (edges : list Edge) (dst : SchemaAlkaneId) : Prop :=
  match edges with
  | [] => src = dst
  | e :: edges' => token_in e = src /\ chain (token_out e) edges' dst
  end.

Lemma edges_app a l1 l2 b : chain a (l1 ++ l2) b <-> exists m, chain a l1 m /\ chain m l2 b.
Proof.
  revert a. induction l1 as [|e l1 IH]; intros a; cbn; [naive_solver|]. rewrite IH. naive_solver.
Qed.

Lemma chain_snoc a l e b : chain a (l ++ [e]) b <-> chain a l (token_in e) /\ token_out e = b.
Proof. rewrite edges_app. cbn. naive_solver. Qed.

(** The hops of a quote: they follow each other from [src] with [ain] to [dst] with [aout], along pools, and the amounts of
    each are related by [R], given the reserves. *)
Fixpoint hops_chain (sn : gmap SchemaAlkaneId SchemaPoolSnapshot) (R : Z -> Z -> Z -> Z -> Prop) (src : SchemaAlkaneId) (ain : Z)
    (hops : list Hop) (dst : SchemaAlkaneId) (aout : Z) : Prop :=
  match hops with
  | [] => src = dst /\ ain = aout
  | h :: hops' =>
      let e := mkEdge (hp_pool h) (hp_token_in h) (hp_token_out h) in
      edge_in sn e /\ hp_token_in h = src /\ hp_amount_in h = ain
      /\ (exists rin rout, reserves_for (from_snapshot sn) e = Some (rin, rout) /\ R rin rout ain (hp_amount_out h))
      /\ hops_chain sn R (hp_token_out h) (hp_amount_out h) hops' dst aout
  end.

Definition sells (fee rin rout ain aout : Z) : Prop := xyk_out_exact_in rin rout ain fee = Some aout.
Definition buys (fee rin rout ain aout : Z) : Prop := xyk_in_for_exact_out rin rout aout fee = Some ain.

Lemma hops_chain_snoc sn R src ain hops h dst aout :
  hops_chain sn R src ain (hops ++ [h]) dst aout <->
  exists m b, hops_chain sn R src ain hops m b /\ hops_chain sn R m b [h] dst aout.
Proof.
  revert src ain. induction hops as [|h0 hops IH]; intros src ain.
  - cbn [app]. split; [intros H; by exists src, ain|]. by intros (m & b & [-> ->] & H).
  - cbn [app hops_chain]. rewrite IH. naive_solver.
Qed.

(** A quote for [ain] from [src] to [dst] over at most [n] pools. *)
Definition quote_ok (sn : gmap SchemaAlkaneId SchemaPoolSnapshot) (R : Z -> Z -> Z -> Z -> Prop) (n : nat) (src dst : SchemaAlkaneId)
    (q : PathQuote) : Prop :=
  (0 < length (pq_hops q) <= n)%nat /\ hops_chain sn R src (pq_amount_in q) (pq_hops q) dst (pq_amount_out q).

Section Quotes.
Context (sn : gmap SchemaAlkaneId SchemaPoolSnapshot) (fee : Z).

Local Notation g := (from_snapshot sn).

(** The amount at the end of a path. *)
Fixpoint amount_after (edges : list Edge) (a : Z) : option Z :=
  match edges with
  | [] => Some a
  | e :: edges' => '(rin, rout) ← reserves_for g e; out ← xyk_out_exact_in rin rout a fee; amount_after edges' out
  end.

Lemma amount_after_app l1 l2 a : amount_after (l1 ++ l2) a = amount_after l1 a ≫= amount_after l2.
Proof.
  revert a. induction l1 as [|e l1 IH]; intros a; cbn; [done|]. destruct (reserves_for g e) as [[rin rout]|]; cbn; [|done].
  destruct (xyk_out_exact_in _ _ _ _); cbn; [apply IH|done].
Qed.

Lemma hop_edge (e : Edge) : mkEdge (eg_pool e) (token_in e) (token_out e) = e.
Proof. by destruct e. Qed.

Lemma hops_in_spec edges : forall src dst a hops,
  chain src edges dst -> Forall (edge_in sn) edges -> hops_exact_in g fee edges a = Some hops ->
  length hops = length edges
  /\ exists b, amount_after edges a = Some b /\ hops_chain sn (sells fee) src a hops dst b
     /\ (edges <> [] -> hp_amount_in <$> head hops = Some a /\ hp_amount_out <$> last hops = Some b).
Proof.
  induction edges as [|e edges IH]; intros src dst a hops Hc He H; cbn in H, Hc |- *.
  { injection H as <-. split; [done|]. by exists a. }
  destruct Hc as [H1 Hc]. apply Forall_cons in He as [He0 He].
  destruct (reserves_for g e) as [[rin rout]|] eqn:Er; cbn in *; [|done].
  destruct (xyk_out_exact_in rin rout a fee) as [o|] eqn:Ex; cbn in *; [|done].
  destruct (hops_exact_in g fee edges o) as [hs|] eqn:Eh; cbn in *; [|done]. injection H as <-.
  destruct (IH (token_out e) dst o hs Hc He Eh) as (I1 & b & I2 & I3 & I4). split; [cbn; congruence|].
  exists b. split; [done|]. split.
  - cbn. rewrite hop_edge. split; [done|]. split; [done|]. split; [done|]. split; [by exists rin, rout|done].
  - intros _. split; [done|]. destruct edges as [|e' edges].
    + cbn in *. injection Eh as <-. injection I2 as ->. done.
    + destruct hs as [|h hs]; [done|]. rewrite last_cons_cons. by apply I4.
Qed.

Lemma quote_in_spec edges src dst a q :
  chain src edges dst -> Forall (edge_in sn) edges -> pathquote_from_edges_exact_in g edges a fee = Some q ->
  quote_ok sn (sells fee) (length edges) src dst q /\ pq_amount_in q = a /\ amount_after edges a = Some (pq_amount_out q).
Proof.
  intros Hc He H. destruct edges as [|e edges]; [done|]. cbn [pathquote_from_edges_exact_in] in H.
  destruct (hops_exact_in g fee (e :: edges) a) as [hops|] eqn:E; [|done]. injection H as <-.
  destruct (hops_in_spec _ _ _ _ _ Hc He E) as (H1 & b & H2 & H3 & H4). destruct (H4 ltac:(done)) as [H5 H6].
  unfold quote_of, quote_ok. cbn [pq_hops pq_amount_in pq_amount_out].
  assert (Ha : from_option hp_amount_in 0 (head hops) = a) by (destruct (head hops); naive_solver).
  assert (Hb : from_option hp_amount_out 0 (last hops) = b) by (destruct (last hops); naive_solver).
  rewrite Ha, Hb. split; [|done]. split; [rewrite H1; cbn; lia|done].
Qed.

Lemma quote_in_exists edges a b :
  edges <> [] -> amount_after edges a = Some b -> is_Some (pathquote_from_edges_exact_in g edges a fee).
Proof.
  intros Hne H. destruct edges as [|e edges]; [done|]. cbn [pathquote_from_edges_exact_in]. apply fmap_is_Some.
  clear Hne. revert a H. generalize (e :: edges) as l. induction l as [|x l IH]; intros a H; cbn in *; [by eexists|].
  destruct (reserves_for g x) as [[rin rout]|]; cbn in *; [|done].
  destruct (xyk_out_exact_in rin rout a fee) as [o|]; cbn in *; [|done].
  destruct (IH o H) as [hs ->]. cbn. by eexists.
Qed.

(** Backwards: the edges from [dst] to [src]. *)
Lemma hops_out_spec edges : forall src dst a hops,
  chain src (reverse edges) dst -> Forall (edge_in sn) edges -> hops_exact_out g fee edges a = Some hops ->
  length hops = length edges /\ exists b, hops_chain sn (buys fee) src b (reverse hops) dst a
     /\ (edges <> [] -> hp_amount_in <$> last hops = Some b /\ hp_amount_out <$> head hops = Some a).
Proof.
  induction edges as [|e edges IH]; intros src dst a hops Hc He H; cbn in H.
  { injection H as <-. split; [done|]. by exists a. }
  rewrite reverse_cons, chain_snoc in Hc. destruct Hc as [Hc H1]. apply Forall_cons in He as [He0 He].
  destruct (reserves_for g e) as [[rin rout]|] eqn:Er; cbn in *; [|done].
  destruct (xyk_in_for_exact_out rin rout a fee) as [o|] eqn:Ex; cbn in *; [|done].
  destruct (hops_exact_out g fee edges o) as [hs|] eqn:Eh; cbn in *; [|done]. injection H as <-.
  destruct (IH src (token_in e) o hs Hc He Eh) as (I1 & b & I3 & I4). split; [cbn; congruence|].
  exists b. split.
  - rewrite reverse_cons, hops_chain_snoc. exists (token_in e), o. split; [done|]. cbn. rewrite hop_edge.
    split; [done|]. split; [done|]. split; [done|]. split; [by exists rin, rout|done].
  - intros _. split; [|done]. destruct edges as [|e' edges].
    + cbn in *. injection Eh as <-. cbn in I3. destruct I3 as [_ ->]. done.
    + destruct hs as [|h hs]; [done|]. rewrite last_cons_cons. by apply I4.
Qed.

Lemma quote_out_spec edges src dst a q :
  chain src edges dst -> Forall (edge_in sn) edges -> pathquote_from_edges_exact_out g edges a fee = Some q ->
  quote_ok sn (buys fee) (length edges) src dst q /\ pq_amount_out q = a.
Proof.
  intros Hc He H. assert (Hne : edges <> []) by (by destruct edges).
  assert (H' : (fun hops_rev => quote_of (reverse hops_rev)) <$> hops_exact_out g fee (reverse edges) a = Some q)
    by (by destruct edges). clear H.
  destruct (hops_exact_out g fee (reverse edges) a) as [hops|] eqn:E; [|done]. injection H' as <-.
  rewrite <- (reverse_involutive edges) in Hc.
  destruct (hops_out_spec (reverse edges) src dst a hops Hc) as (H1 & b & H3 & H4); [by apply Forall_reverse|done|].
  destruct H4 as [H5 H6]; [intros H0; apply Hne; by rewrite <- (reverse_involutive edges), H0|].
  rewrite length_reverse in H1. unfold quote_of, quote_ok. cbn [pq_hops pq_amount_in pq_amount_out].
  assert (Ha : from_option hp_amount_in 0 (head (reverse hops)) = b).
  { rewrite head_reverse. destruct (last hops); naive_solver. }
  assert (Hb : from_option hp_amount_out 0 (last (reverse hops)) = a).
  { rewrite last_reverse. destruct (head hops); naive_solver. }
  rewrite Ha, Hb, length_reverse, H1. split; [|done]. split; [|done]. destruct edges; [done|]. cbn. lia.
Qed.

End Quotes.

(** ** Termination *)

Section Searches.
Context (sn : gmap SchemaAlkaneId SchemaPoolSnapshot) (fee : Z) (max_hops : nat).

Local Notation g := (from_snapshot sn).

Definition node_weight (nd : Node) : nat := tree_size (2 * size sn) (S max_hops - length (nd_hops nd)).

Lemma tree_size_pos d k : (0 < tree_size d k)%nat.
Proof. destruct k; cbn; lia. Qed.

Lemma weight_rev_append l1 l2 : weight node_weight (rev_append l1 l2) = (weight node_weight l1 + weight node_weight l2)%nat.
Proof.
  revert l2. induction l1 as [|x l1 IH]; intros l2; cbn [rev_append]; [done|]. rewrite IH. unfold weight. cbn. lia.
Qed.

(** The successors of a node weigh less than it. *)
Lemma successors_weight (ex : Node -> SchemaAlkaneId * Edge -> option Node) nd l :
  (forall x nd', ex nd x = Some nd' -> length (nd_hops nd') = S (length (nd_hops nd))) ->
  (length l <= 2 * size sn)%nat -> (length (nd_hops nd) <= max_hops)%nat ->
  (weight node_weight (omap (ex nd) l) < node_weight nd)%nat.
Proof.
  intros Hex Hl Hd. unfold node_weight at 2.
  replace (S max_hops - length (nd_hops nd))%nat with (S (max_hops - length (nd_hops nd))) by lia. cbn [tree_size].
  assert (H : (weight node_weight (omap (ex nd) l) <= length l * tree_size (2 * size sn) (max_hops - length (nd_hops nd)))%nat).
  { clear Hl. induction l as [|x l IH]; cbn [omap list_omap]; [done|].
    destruct (ex nd x) as [nd'|] eqn:E; [|etransitivity; [exact IH|cbn [length]; lia]]. apply Hex in E.
    change (node_weight nd' + weight node_weight (omap (ex nd) l)
      <= length (x :: l) * tree_size (2 * size sn) (max_hops - length (nd_hops nd)))%nat. cbn [length].
    unfold node_weight at 1. rewrite E. replace (S max_hops - S (length (nd_hops nd)))%nat with (max_hops - length (nd_hops nd))%nat by lia. lia. }
  nia.
Qed.

Lemma expand_in_hops dst nd x nd' : expand_in g fee dst nd x = Some nd' -> exists e o rin rout,
  x = (nd_at nd', e) /\ nd' = mkNode o (nd_at nd') (nd_hops nd ++ [e]) /\ reserves_for g e = Some (rin, rout)
  /\ xyk_out_exact_in rin rout (nd_amount nd) fee = Some o.
Proof.
  unfold expand_in. destruct x as [to e]. destruct (_ && _); [done|]. destruct (immediate_backtrack _ _ _ _); [done|].
  destruct (reserves_for g e) as [[rin rout]|] eqn:Er; cbn [mbind option_bind]; [|done]. destruct (_ || _); [done|].
  destruct (xyk_out_exact_in _ _ _ _) as [o|] eqn:Ex; cbn [mbind option_bind]; [|done]. destruct (o =? 0); [done|].
  intros [= <-]. cbn. by exists e, o, rin, rout.
Qed.

Lemma expand_out_hops src nd x nd' : expand_out g fee src nd x = Some nd' -> exists e o rin rout,
  x = (nd_at nd', e) /\ nd' = mkNode o (nd_at nd') (nd_hops nd ++ [e]) /\ reserves_for g e = Some (rin, rout)
  /\ xyk_in_for_exact_out rin rout (nd_amount nd) fee = Some o.
Proof.
  unfold expand_out. destruct x as [from e]. destruct (_ && _); [done|].
  destruct (match last _ with Some _ => _ | None => _ end); [done|].
  destruct (reserves_for g e) as [[rin rout]|] eqn:Er; cbn [mbind option_bind]; [|done]. destruct (_ || _); [done|].
  destruct (xyk_in_for_exact_out _ _ _ _) as [o|] eqn:Ex; cbn [mbind option_bind]; [|done].
  intros [= <-]. cbn. by exists e, o, rin, rout.
Qed.

Lemma visit_in_weight dst a nd rest s :
  (weight node_weight (heap (visit_in g fee max_hops dst a nd rest s)) < node_weight nd + weight node_weight rest)%nat.
Proof.
  pose proof (tree_size_pos (2 * size sn) (S max_hops - length (nd_hops nd))) as Hp. fold (node_weight nd) in Hp.
  unfold visit_in. destruct (Nat.ltb_spec max_hops (length (nd_hops nd))); cbn [heap]; [lia|].
  destruct (from_option _ _ _); cbn [heap]; [lia|]. rewrite weight_rev_append.
  pose proof (successors_weight (expand_in g fee dst) nd (default [] (neighbors g !! nd_at nd))) as Hs.
  cut (weight node_weight (omap (expand_in g fee dst nd) (default [] (neighbors g !! nd_at nd))) < node_weight nd)%nat; [lia|].
  apply Hs; [|apply degree|done]. intros x nd' (e & o & rin & rout & _ & -> & _)%expand_in_hops. cbn. rewrite length_app. cbn. lia.
Qed.

Lemma visit_out_weight src a nd rest s :
  (weight node_weight (heap (visit_out g fee max_hops src a nd rest s)) < node_weight nd + weight node_weight rest)%nat.
Proof.
  pose proof (tree_size_pos (2 * size sn) (S max_hops - length (nd_hops nd))) as Hp. fold (node_weight nd) in Hp.
  unfold visit_out. destruct (Nat.ltb_spec max_hops (length (nd_hops nd))); cbn [heap]; [lia|].
  destruct (from_option _ _ _); cbn [heap]; [lia|]. rewrite weight_rev_append.
  pose proof (successors_weight (expand_out g fee src) nd (default [] (in_neighbors g !! nd_at nd))) as Hs.
  cut (weight node_weight (omap (expand_out g fee src nd) (default [] (in_neighbors g !! nd_at nd))) < node_weight nd)%nat; [lia|].
  apply Hs; [|apply degree|done]. intros x nd' (e & o & rin & rout & _ & -> & _)%expand_out_hops. cbn. rewrite length_app. cbn. lia.
Qed.

Context {bh : BinaryHeap} {laws : BinaryHeapLaws}.

Lemma root_fuel a t : (weight node_weight [mkNode a t []] < search_fuel g max_hops)%nat.
Proof.
  unfold search_fuel. rewrite from_snapshot_pools. unfold weight. cbn [sum_list_with]. unfold node_weight. cbn [nd_hops length].
  rewrite Nat.sub_0_r. lia.
Qed.

Lemma best_in_total src dst a : is_Some (best_first_exact_in g fee max_hops src dst a).
Proof.
  unfold best_first_exact_in. apply fmap_is_Some.
  apply (search_loop_total _ _ node_weight); [intros; apply visit_in_weight|apply root_fuel].
Qed.

Lemma best_out_total src dst a : is_Some (best_first_exact_out g fee max_hops src dst a).
Proof.
  unfold best_first_exact_out. apply fmap_is_Some.
  apply (search_loop_total _ _ node_weight); [intros; apply visit_out_weight|apply root_fuel].
Qed.

(** ** What the forward search finds *)

Section Forward.
Context (src dst : SchemaAlkaneId) (amount_in : Z).

(** A node stands for a path from the source, and its amount is what the path gives. *)
Definition node_in (nd : Node) : Prop :=
  chain src (nd_hops nd) (nd_at nd) /\ Forall (edge_in sn) (nd_hops nd) /\ amount_after sn fee (nd_hops nd) amount_in = Some (nd_amount nd).

Definition found_in (q : PathQuote) : Prop := quote_ok sn (sells fee) max_hops src dst q /\ pq_amount_in q = amount_in.

Record forward_ok (s : Search) : Prop := {
  fw_nodes : Forall node_in (heap s);
  fw_best q : best_quote s = Some q -> found_in q;
}.

Lemma quote_ok_weaken R n m a b q : (n <= m)%nat -> quote_ok sn R n a b q -> quote_ok sn R m a b q.
Proof. intros Hle [H1 H2]. split; [lia|done]. Qed.

Lemma node_quote nd : node_in nd -> nd_hops nd <> [] -> nd_at nd = dst -> (length (nd_hops nd) <= max_hops)%nat ->
  exists q, pathquote_from_edges_exact_in g (nd_hops nd) amount_in fee = Some q /\ found_in q /\ pq_amount_out q = nd_amount nd.
Proof.
  intros (H1 & H2 & H3) Hne Hd Hl. destruct (quote_in_exists sn fee _ _ _ Hne H3) as [q Hq]. exists q. split; [done|].
  rewrite Hd in H1. destruct (quote_in_spec sn fee _ _ _ _ _ H1 H2 Hq) as (Q1 & Q2 & Q3).
  split; [split; [by eapply quote_ok_weaken|done]|congruence].
Qed.

Lemma expand_node nd x nd' :
  node_in nd -> x ∈ default [] (neighbors g !! nd_at nd) -> expand_in g fee dst nd x = Some nd' -> node_in nd'.
Proof.
  intros (H1 & H2 & H3) Hx (e & o & rin & rout & -> & -> & Hr & Ho)%expand_in_hops.
  apply neighbors_spec in Hx as (X1 & X2 & X3). cbn [nd_at nd_hops nd_amount] in *. split; cbn [nd_hops nd_at nd_amount].
  - apply chain_snoc. by rewrite X2.
  - split; [by apply Forall_app_2; [|apply Forall_singleton]|]. rewrite amount_after_app, H3. cbn. by rewrite Hr; cbn; rewrite Ho.
Qed.

Lemma length_pos_ne {A} (l : list A) : (0 < length l)%nat -> l <> [].
Proof. intros H ->. cbn in H. lia. Qed.

Lemma elem_of_rev_append {A} (x : A) l1 l2 : x ∈ rev_append l1 l2 <-> x ∈ l1 \/ x ∈ l2.
Proof.
  revert l2. induction l1 as [|y l1 IH]; intros l2; cbn [rev_append]; [set_solver|]. rewrite IH. set_solver.
Qed.

Lemma visit_in_ok nd rest s :
  forward_ok s -> heap s ≡ₚ nd :: rest -> forward_ok (visit_in g fee max_hops dst amount_in nd rest s).
Proof.
  intros [N B] Hh. assert (Hn : Forall node_in (nd :: rest)) by (by rewrite <- Hh). apply Forall_cons in Hn as [Hnd Hr].
  unfold visit_in. destruct (Nat.ltb_spec max_hops (length (nd_hops nd))) as [|Hd]; [by split|].
  set (best := if bool_decide _ && _ then _ else _).
  assert (Hb : forall q, best = Some q -> found_in q).
  { intros q. unfold best. case_bool_decide as Hat; cbn [andb]; [|apply B]. destruct (Nat.ltb_spec 0 (length (nd_hops nd))) as [Hl|]; [|apply B].
    destruct (node_quote nd Hnd (length_pos_ne _ Hl) Hat Hd) as (q' & -> & Hq & _).
    destruct (_ <? _); [|apply B]. by intros [= <-]. }
  clearbody best. destruct (from_option _ _ _); [split; [exact Hr|exact Hb]|]. split; [|exact Hb]. cbn [heap]. apply Forall_forall. intros nd' Hin.
  apply elem_of_rev_append in Hin as [(x & Hx & Ex)%list_elem_of_omap|Hin]; [by eapply expand_node|].
  by eapply Forall_forall in Hr.
Qed.

Lemma best_in_sound q : best_first_exact_in g fee max_hops src dst amount_in = Some (Some q) -> found_in q.
Proof.
  unfold best_first_exact_in. intros (s & E & Hq)%fmap_Some. symmetry in Hq.
  destruct (search_loop_inv nd_amount (visit_in g fee max_hops dst amount_in) forward_ok) with (fuel := search_fuel g max_hops)
    (s := mkSearch [mkNode amount_in src []] ∅ None) (s' := s) as [[_ B] _]; [intros; by apply visit_in_ok| |done|by apply B].
  split; [|done]. apply Forall_singleton. by split.
Qed.

(** *** No worse than one or two pools *)

Definition best_out (s : Search) : Z := from_option pq_amount_out 0 (best_quote s).

(** A node at [t] after [d] hops with amount [x] is waiting, or was beaten. *)
Definition reached (s : Search) (t : SchemaAlkaneId) (d : nat) (x : Z) : Prop :=
  (exists nd, nd ∈ heap s /\ nd_at nd = t /\ length (nd_hops nd) = d /\ nd_amount nd = x)
  \/ exists b, best_seen s !! (t, d) = Some b /\ x <= b.

(** The same at the destination, where quotes are compared. *)
Definition offered (s : Search) (x : Z) : Prop :=
  (exists nd, nd ∈ heap s /\ nd_at nd = dst /\ (0 < length (nd_hops nd) <= max_hops)%nat /\ nd_amount nd = x) \/ x <= best_out s.

Definition successor_in (nd : Node) (nd' : Node) : Prop :=
  exists x, x ∈ default [] (neighbors g !! nd_at nd) /\ expand_in g fee dst nd x = Some nd'.

Record visited (nd : Node) (rest : list Node) (s s' : Search) : Prop := {
  vs_rest n : n ∈ rest -> n ∈ heap s';
  vs_seen k b : best_seen s !! k = Some b -> exists b', best_seen s' !! k = Some b' /\ b <= b';
  vs_here : (length (nd_hops nd) <= max_hops)%nat -> exists b, best_seen s' !! (nd_at nd, length (nd_hops nd)) = Some b /\ nd_amount nd <= b;
  vs_best : best_out s <= best_out s';
  vs_offer : nd_at nd = dst -> (0 < length (nd_hops nd) <= max_hops)%nat -> nd_amount nd <= best_out s';
  vs_new k b : best_seen s' !! k = Some b -> best_seen s !! k = Some b
    \/ (k = (nd_at nd, length (nd_hops nd)) /\ b = nd_amount nd /\ forall n, successor_in nd n -> n ∈ heap s');
}.

Lemma visit_in_visited nd rest s : node_in nd -> visited nd rest s (visit_in g fee max_hops dst amount_in nd rest s).
Proof.
  intros Hnd. unfold visit_in. destruct (Nat.ltb_spec max_hops (length (nd_hops nd))) as [Hd|Hd].
  { split; cbn [heap best_seen best_quote]; try done; try lia; [intros k b Hk; exists b; split; [done|lia]|by left]. }
  set (best := if bool_decide _ && _ then _ else _).
  assert (Hb : best_out s <= from_option pq_amount_out 0 best
    /\ (nd_at nd = dst -> (0 < length (nd_hops nd))%nat -> nd_amount nd <= from_option pq_amount_out 0 best)).
  { unfold best, best_out. case_bool_decide as Hat; cbn [andb]; [|split; [lia|done]].
    destruct (Nat.ltb_spec 0 (length (nd_hops nd))) as [Hl|]; [|split; lia].
    destruct (node_quote nd Hnd (length_pos_ne _ Hl) Hat Hd) as (q & -> & _ & <-).
    destruct (Z.ltb_spec (from_option pq_amount_out 0 (best_quote s)) (pq_amount_out q)); cbn; lia. }
  clearbody best. destruct Hb as [Hb1 Hb2].
  destruct (best_seen s !! (nd_at nd, length (nd_hops nd))) as [b|] eqn:Eb; cbn [from_option].
  - destruct (Z.leb_spec (nd_amount nd) b) as [Hle|Hle].
    + split; cbn [heap best_seen best_quote]; unfold best_out; cbn [best_quote]; try done.
      * intros k b' Hk. exists b'. split; [done|lia].
      * intros _. by exists b.
      * intros; apply Hb2; [done|lia].
      * by left.
    + split; cbn [heap best_seen best_quote]; unfold best_out; cbn [best_quote]; try done.
      * intros n Hn. apply elem_of_rev_append. by right.
      * intros k b' Hk. destruct (decide (k = (nd_at nd, length (nd_hops nd)))) as [->|Hne].
        -- rewrite lookup_insert_eq. exists (nd_amount nd). split; [done|]. rewrite Eb in Hk. injection Hk as <-. lia.
        -- rewrite lookup_insert_ne by done. exists b'. split; [done|lia].
      * intros _. rewrite lookup_insert_eq. by exists (nd_amount nd).
      * intros; apply Hb2; [done|lia].
      * intros k b' Hk. apply lookup_insert_Some in Hk as [[<- <-]|[Hne Hk]]; [right|by left]. split; [done|]. split; [done|].
        intros n (x & Hx & Ex). apply elem_of_rev_append. left. apply list_elem_of_omap. by exists x.
  - split; cbn [heap best_seen best_quote]; unfold best_out; cbn [best_quote]; try done.
    + intros n Hn. apply elem_of_rev_append. by right.
    + intros k b' Hk. rewrite lookup_insert_ne by congruence. exists b'. split; [done|lia].
    + intros _. rewrite lookup_insert_eq. by exists (nd_amount nd).
    + intros; apply Hb2; [done|lia].
    + intros k b' Hk. apply lookup_insert_Some in Hk as [[<- <-]|[Hne Hk]]; [right|by left]. split; [done|]. split; [done|].
      intros n (x & Hx & Ex). apply elem_of_rev_append. left. apply list_elem_of_omap. by exists x.
Qed.

Lemma reached_visit nd rest s s' t d x :
  heap s ≡ₚ nd :: rest -> visited nd rest s s' -> (d <= max_hops)%nat -> reached s t d x -> reached s' t d x.
Proof.
  intros Hh V Hd [(n & Hn & H1 & H2 & H3)|(b & Hb & Hx)].
  - rewrite Hh in Hn. apply elem_of_cons in Hn as [->|Hn]; [|left; exists n; split; [by apply (vs_rest _ _ _ _ V)|done]].
    right. subst t d x. by apply (vs_here _ _ _ _ V).
  - right. destruct (vs_seen _ _ _ _ V _ _ Hb) as (b' & Hb' & Hle). exists b'. split; [done|lia].
Qed.

Lemma offered_visit nd rest s s' x :
  heap s ≡ₚ nd :: rest -> visited nd rest s s' -> offered s x -> offered s' x.
Proof.
  intros Hh V [(n & Hn & H1 & H2 & H3)|Hx].
  - rewrite Hh in Hn. apply elem_of_cons in Hn as [->|Hn]; [|left; exists n; split; [by apply (vs_rest _ _ _ _ V)|done]].
    right. subst x. by apply (vs_offer _ _ _ _ V).
  - right. pose proof (vs_best _ _ _ _ V). lia.
Qed.

(** Reserves below 2^64 and an input below 2^127: nothing saturates after the first hop. *)
Definition modest : Prop :=
  map_Forall (fun _ snap => 0 <= base_reserve snap < 2 ^ 64 /\ 0 <= quote_reserve snap < 2 ^ 64) sn.

Context (Hne : src <> dst) (Hmod : modest) (Ha : 0 <= amount_in < 2 ^ 127) (Hfee : 0 <= fee).

Lemma modest_reserves e : edge_in sn e -> exists rin rout,
  reserves_for g e = Some (rin, rout) /\ 0 < rin < 2 ^ 64 /\ 0 < rout < 2 ^ 64.
Proof.
  intros He. destruct (reserves_edge sn e He) as (snap & rin & rout & Hs & Hr & H1 & H2 & H3).
  destruct (Hmod _ _ Hs) as [M1 M2]. exists rin, rout. split; [done|]. lia.
Qed.

(** One hop from a node that may take it. *)
Lemma step_in nd e rin rout x :
  node_in nd -> edge_in sn e -> token_in e = nd_at nd -> reserves_for g e = Some (rin, rout) ->
  xyk_out_exact_in rin rout (nd_amount nd) fee = Some x -> x <> 0 ->
  nd_hops nd = [] \/ (length (nd_hops nd) = 1%nat /\ token_out e = dst) ->
  successor_in nd (mkNode x (token_out e) (nd_hops nd ++ [e])).
Proof.
  intros (N1 & _ & _) He Hin Hr Hx Hx0 Hsh. exists (token_out e, e). split; [by apply neighbors_spec|].
  destruct (modest_reserves e He) as (rin' & rout' & Hr' & B1 & B2). rewrite Hr in Hr'. injection Hr' as <- <-.
  unfold expand_in. assert (Hg : forall hops, nd_hops nd = hops -> hops = [] \/ (length hops = 1%nat /\ token_out e = dst) ->
    existsb (fun h => bool_decide (token_out h = token_out e)) hops && negb (bool_decide (token_out e = dst)) = false
    /\ immediate_backtrack (last hops) e (nd_at nd) (token_out e) = false).
  { intros hops Eh [->|[Hl Hd]]; [done|]. destruct hops as [|e1 [|? ?]]; try done. rewrite Eh in N1. cbn in N1.
    rewrite (bool_decide_true (token_out e = dst)) by done. rewrite andb_false_r. split; [done|]. cbn.
    rewrite (bool_decide_false (token_in e1 = token_out e)); [by rewrite andb_false_r|]. rewrite (proj1 N1), Hd. done. }
  destruct (Hg _ eq_refl Hsh) as [-> ->]. rewrite Hr. cbn [mbind option_bind].
  rewrite (proj2 (Z.eqb_neq rin 0)), (proj2 (Z.eqb_neq rout 0)) by lia. cbn [orb]. rewrite Hx. cbn [mbind option_bind].
  by rewrite (proj2 (Z.eqb_neq x 0)).
Qed.

(** Amounts after a first hop are below its reserve. *)
Lemma first_hop_small nd : node_in nd -> length (nd_hops nd) = 1%nat -> 0 <= nd_amount nd < 2 ^ 64.
Proof.
  intros (_ & N2 & N3) Hl. destruct (nd_hops nd) as [|e [|? ?]]; try done. apply Forall_cons in N2 as [N2 _].
  destruct (modest_reserves e N2) as (rin & rout & Hr & B1 & B2). cbn in N3. rewrite Hr in N3. cbn in N3.
  destruct (xyk_out_exact_in rin rout amount_in fee) as [x|] eqn:E; cbn in N3; [|done]. injection N3 as <-.
  apply xyk_out_spec in E; [lia|lia|unfold small, u128_mod; lia|lia|lia|done|unfold u128_mod; lia].
Qed.

Record two_hops (s : Search) : Prop := {
  th_ok : forward_ok s;
  th_root : reached s src 0 amount_in;
  th_first b e rin rout x : best_seen s !! (src, 0%nat) = Some b -> edge_in sn e -> token_in e = src ->
    reserves_for g e = Some (rin, rout) -> xyk_out_exact_in rin rout amount_in fee = Some x -> x <> 0 -> (1 <= max_hops)%nat ->
    reached s (token_out e) 1 x /\ (token_out e = dst -> offered s x);
  th_small t b : best_seen s !! (t, 1%nat) = Some b -> 0 <= b < 2 ^ 64;
  th_second t b e rin rout y : best_seen s !! (t, 1%nat) = Some b -> edge_in sn e -> token_in e = t -> token_out e = dst ->
    reserves_for g e = Some (rin, rout) -> xyk_out_exact_in rin rout b fee = Some y -> y <> 0 -> (2 <= max_hops)%nat ->
    offered s y;
}.

Lemma node_root nd : node_in nd -> length (nd_hops nd) = 0%nat -> nd_hops nd = [] /\ nd_at nd = src /\ nd_amount nd = amount_in.
Proof. intros (N1 & _ & N3) Hl. destruct (nd_hops nd); [|done]. cbn in *. split; [done|]. split; [done|congruence]. Qed.

Lemma visit_two_hops nd rest s :
  two_hops s -> heap s ≡ₚ nd :: rest -> two_hops (visit_in g fee max_hops dst amount_in nd rest s).
Proof.
  intros [T1 T2 T3 T4 T5] Hh.
  assert (Hnd : node_in nd).
  { pose proof (fw_nodes _ T1) as N. rewrite Hh in N. by apply Forall_cons in N as [N _]. }
  pose proof (visit_in_visited nd rest s Hnd) as V. pose proof (visit_in_ok nd rest s T1 Hh) as Hok.
  set (s' := visit_in g fee max_hops dst amount_in nd rest s) in *. split.
  - done.
  - apply (reached_visit nd rest s); [done|done|lia|done].
  - intros b e rin rout x Hb He Hin Hr Hx Hx0 Hm.
    destruct (vs_new _ _ _ _ V _ _ Hb) as [Hold|(Hk & -> & Hs)].
    + destruct (T3 b e rin rout x Hold He Hin Hr Hx Hx0 Hm) as [R O].
      split; [by apply (reached_visit nd rest s)|]. intros Hd. by apply (offered_visit nd rest s), O.
    + injection Hk as Hk1 Hk2. destruct (node_root nd Hnd (eq_sym Hk2)) as (E1 & E2 & E3).
      assert (Hsucc : mkNode x (token_out e) (nd_hops nd ++ [e]) ∈ heap s').
      { apply Hs. apply (step_in nd e rin rout); try done; [congruence|congruence|by left]. }
      rewrite E1 in Hsucc. cbn [app] in Hsucc. split; [left; by eexists|]. intros Hd. left. eexists. split; [exact Hsucc|].
      cbn. split; [done|]. split; [lia|done].
  - intros t b Hb. destruct (vs_new _ _ _ _ V _ _ Hb) as [Hold|(Hk & -> & Hs)]; [by eapply T4|].
    injection Hk as Hk1 Hk2. by apply first_hop_small.
  - intros t b e rin rout y Hb He Hin Hout Hr Hy Hy0 Hm.
    destruct (vs_new _ _ _ _ V _ _ Hb) as [Hold|(Hk & -> & Hs)].
    + apply (offered_visit nd rest s); [done|done|]. by eapply T5.
    + injection Hk as Hk1 Hk2. left. exists (mkNode y (token_out e) (nd_hops nd ++ [e])). split.
      { apply Hs. apply (step_in nd e rin rout); try done; [congruence|right; by split]. }
      cbn [nd_at nd_hops nd_amount]. rewrite length_app. cbn. split; [done|]. split; [lia|done].
Qed.

Lemma best_in_two_hops r edges y :
  best_first_exact_in g fee max_hops src dst amount_in = Some r ->
  chain src edges dst -> Forall (edge_in sn) edges -> (length edges <= 2)%nat -> (length edges <= max_hops)%nat ->
  amount_after sn fee edges amount_in = Some y -> 0 < y -> exists q, r = Some q /\ y <= pq_amount_out q.
Proof.
  unfold best_first_exact_in. intros (s & E & Hr)%fmap_Some Hc He Hl Hm Hy Hy0. subst r.
  destruct (search_loop_inv nd_amount (visit_in g fee max_hops dst amount_in) two_hops) with (fuel := search_fuel g max_hops)
    (s := mkSearch [mkNode amount_in src []] ∅ None) (s' := s) as [[T1 T2 T3 T4 T5] Hnil]; [intros; by apply visit_two_hops| |done|].
  { split; cbn [heap best_seen best_quote]; try done.
    - split; [|done]. apply Forall_singleton. by split.
    - left. eexists. split; [by left|done]. }
  assert (Hno : forall x, offered s x -> x <= best_out s).
  { intros x [(nd & Hn & _)|Hx]; [|done]. rewrite Hnil in Hn. by apply elem_of_nil in Hn. }
  assert (Hre : forall t d x, reached s t d x -> exists b, best_seen s !! (t, d) = Some b /\ x <= b).
  { intros t d x [(nd & Hn & _)|Hx]; [|done]. rewrite Hnil in Hn. by apply elem_of_nil in Hn. }
  assert (Hgoal : y <= best_out s); [|unfold best_out in Hgoal; destruct (best_quote s) as [q|]; [by exists q|cbn in Hgoal; lia]].
  destruct (Hre _ _ _ T2) as (b0 & Hb0 & _).
  destruct edges as [|e1 edges]; [cbn in Hc; done|]. cbn in Hc. destruct Hc as [C1 Hc]. apply Forall_cons in He as [He1 He].
  destruct (modest_reserves e1 He1) as (r1 & q1 & Hr1 & B1 & B1'). cbn in Hy. rewrite Hr1 in Hy. cbn in Hy.
  destruct (xyk_out_exact_in r1 q1 amount_in fee) as [x|] eqn:Ex; cbn in Hy; [|done].
  assert (Hx : 0 <= x < 2 ^ 64).
  { apply xyk_out_spec in Ex; [lia|lia|unfold small, u128_mod; lia|lia|lia|done|unfold u128_mod; lia]. }
  destruct edges as [|e2 [|? ?]]; [| |cbn in Hl; lia].
  - injection Hy as <-. apply Hno. by apply (T3 b0 e1 r1 q1 x); try done; lia.
  - cbn in Hc, Hy. destruct Hc as [C2 C3]. apply Forall_cons in He as [He _].
    destruct (modest_reserves e2 He) as (r2 & q2 & Hr2 & B2 & B2'). rewrite Hr2 in Hy. cbn in Hy.
    destruct (xyk_out_exact_in r2 q2 x fee) as [y'|] eqn:Ey; cbn in Hy; [|done]. injection Hy as ->.
    assert (Hx0 : x <> 0).
    { intros ->. unfold xyk_out_exact_in in Ey. rewrite (proj2 (Z.eqb_neq r2 0)), (proj2 (Z.eqb_neq q2 0)) in Ey by lia. cbn in Ey.
      injection Ey as <-. lia. }
    cbn in Hm. destruct (T3 b0 e1 r1 q1 x Hb0 He1 C1 Hr1 Ex Hx0 ltac:(lia)) as [R _].
    destruct (Hre _ _ _ R) as (b & Hb & Hle). pose proof (T4 _ _ Hb) as Hbs.
    destruct (xyk_out_total r2 q2 b fee) as [z Hz]; [lia|lia|lia|done|].
    assert (Hyz : y <= z).
    { apply (xyk_out_mono r2 q2 x b fee); try done; try lia; unfold u128_mod; nia. }
    etransitivity; [exact Hyz|]. apply Hno. apply (T5 (token_out e1) b e2 r2 q2 z); try done; lia.
Qed.

End Forward.

(** ** What the backward search finds *)

Section Backward.
Context (src dst : SchemaAlkaneId) (amount_out : Z).

Definition node_out (nd : Node) : Prop := chain (nd_at nd) (reverse (nd_hops nd)) dst /\ Forall (edge_in sn) (nd_hops nd).

Definition found_out (q : PathQuote) : Prop := quote_ok sn (buys fee) max_hops src dst q /\ pq_amount_out q = amount_out.

Record backward_ok (s : Search) : Prop := {
  bw_nodes : Forall node_out (heap s);
  bw_best q : best_quote s = Some q -> found_out q;
}.

Lemma expand_node_out nd x nd' :
  node_out nd -> x ∈ default [] (in_neighbors g !! nd_at nd) -> expand_out g fee src nd x = Some nd' -> node_out nd'.
Proof.
  intros (H1 & H2) Hx (e & o & rin & rout & -> & -> & Hr & Ho)%expand_out_hops.
  apply in_neighbors_spec in Hx as (X1 & X2 & X3). cbn [nd_at nd_hops nd_amount] in *. split; cbn [nd_hops nd_at nd_amount].
  - rewrite reverse_app. cbn. split; [done|]. by rewrite X2.
  - by apply Forall_app_2; [|apply Forall_singleton].
Qed.

Lemma visit_out_ok nd rest s :
  backward_ok s -> heap s ≡ₚ nd :: rest -> backward_ok (visit_out g fee max_hops src amount_out nd rest s).
Proof.
  intros [N B] Hh. assert (Hn : Forall node_out (nd :: rest)) by (by rewrite <- Hh). apply Forall_cons in Hn as [Hnd Hr].
  unfold visit_out. destruct (Nat.ltb_spec max_hops (length (nd_hops nd))) as [|Hd]; [by split|].
  set (best := if bool_decide _ && _ then _ else _).
  assert (Hb : forall q, best = Some q -> found_out q).
  { intros q. unfold best. case_bool_decide as Hat; cbn [andb]; [|apply B]. destruct (Nat.ltb_spec 0 (length (nd_hops nd))) as [Hl|]; [|apply B].
    destruct (pathquote_from_edges_exact_out g (reverse (nd_hops nd)) amount_out fee) as [q'|] eqn:Eq; [|apply B].
    destruct (from_option _ _ _); [|apply B]. intros [= <-]. destruct Hnd as [N1 N2]. rewrite Hat in N1.
    destruct (quote_out_spec sn fee _ _ _ _ _ N1 (proj2 (Forall_reverse _ _) N2) Eq) as [Q1 Q2].
    split; [|done]. rewrite length_reverse in Q1. by eapply quote_ok_weaken. }
  clearbody best. destruct (from_option _ _ _); [split; [exact Hr|exact Hb]|]. split; [|exact Hb]. cbn [heap].
  apply Forall_forall. intros nd' Hin.
  apply elem_of_rev_append in Hin as [(x & Hx & Ex)%list_elem_of_omap|Hin]; [by eapply expand_node_out|].
  by eapply Forall_forall in Hr.
Qed.

Lemma best_out_sound q : best_first_exact_out g fee max_hops src dst amount_out = Some (Some q) -> found_out q.
Proof.
  unfold best_first_exact_out. intros (s & E & Hq)%fmap_Some. symmetry in Hq.
  destruct (search_loop_inv (fun nd => - nd_amount nd) (visit_out g fee max_hops src amount_out) backward_ok)
    with (fuel := search_fuel g max_hops) (s := mkSearch [mkNode amount_out dst []] ∅ None) (s' := s) as [[_ B] _];
    [intros; by apply visit_out_ok| |done|by apply B].
  split; [|done]. apply Forall_singleton. by split.
Qed.

(** The pools of a quote. *)
Definition edges_of (hops : list Hop) : list Edge := (fun h => mkEdge (hp_pool h) (hp_token_in h) (hp_token_out h)) <$> hops.

Lemma buys_nonneg hops : forall s0 a b, modest -> 0 <= b -> hops_chain sn (buys fee) s0 a hops dst b -> 0 <= a.
Proof.
  induction hops as [|h hops IH]; intros s0 a b Hmod Hb Hc; cbn in Hc; [by destruct Hc as [_ ->]|].
  destruct Hc as (He & _ & _ & (rin & rout & Hr & Hbuy) & Hc). set (e := mkEdge _ _ _) in *.
  destruct (modest_reserves Hmod e He) as (rin' & rout' & Hr' & B1 & B2). rewrite Hr in Hr'. injection Hr' as <- <-.
  apply xyk_in_nonneg in Hbuy; [lia|lia|lia|]. by eapply IH.
Qed.

(** Selling the input a quote asks for, or more, buys at least the output it promises. *)
Lemma buys_enough hops : forall s0 a b c,
  modest -> 0 <= fee -> 0 <= b -> hops_chain sn (buys fee) s0 a hops dst b -> a <= c < 2 ^ 64 ->
  exists got, amount_after sn fee (edges_of hops) c = Some got /\ b <= got.
Proof.
  induction hops as [|h hops IH]; intros s0 a b c Hmod Hfee Hb Hc Hac; pose proof (buys_nonneg _ _ _ _ Hmod Hb Hc) as Ha; cbn in Hc.
  { destruct Hc as [_ ->]. exists c. split; [done|lia]. }
  destruct Hc as (He & _ & Hai & (rin & rout & Hr & Hbuy) & Hc). set (e := mkEdge _ _ _) in *.
  destruct (modest_reserves Hmod e He) as (rin' & rout' & Hr' & B1 & B2). rewrite Hr in Hr'. injection Hr' as <- <-.
  pose proof (buys_nonneg _ _ _ _ Hmod Hb Hc) as Ho. pose proof (xyk_in_nonneg rin rout _ fee a ltac:(lia) ltac:(lia) Ho Hbuy) as [_ Ho'].
  destruct (xyk_in_spec rin rout (hp_amount_out h) fee a) as [(got & Hg & Hle) _]; try done; try lia;
    [unfold u128_mod; nia|unfold u128_mod; lia|unfold u128_mod; nia|unfold u128_mod; lia|].
  destruct (xyk_out_total rin rout c fee) as [gc Hgc]; [lia|lia|lia|done|].
  assert (Hm : got <= gc) by (apply (xyk_out_mono rin rout a c fee); try done; try lia; unfold u128_mod; nia).
  assert (Hgs : gc < rout) by (apply xyk_out_spec in Hgc; [lia|lia|unfold small, u128_mod; lia|lia|lia|done|unfold u128_mod; lia]).
  destruct (IH _ (hp_amount_out h) b gc Hmod Hfee Hb Hc ltac:(lia)) as (fin & Hf & Hfb).
  exists fin. split; [|done]. cbn. fold e. rewrite Hr. cbn. rewrite Hgc. done.
Qed.

End Backward.

End Searches.


(** ** The cycles are the simple ones *)

Section Cycles.
Context (sn : gmap SchemaAlkaneId SchemaPoolSnapshot) (start : SchemaAlkaneId).

Local Notation g := (from_snapshot sn).

(** The tokens before the last are new. *)
Fixpoint fresh_path (visited : gset SchemaAlkaneId) (l : list Edge) : Prop :=
  match l with
  | [] | [_] => True
  | e :: l' => (token_out e ∉ visited) /\ fresh_path ({[token_out e]} ∪ visited) l'
  end.

(** What is known of the edges so far. *)
Definition so_far (cur : SchemaAlkaneId) (visited : gset SchemaAlkaneId) (acc : list Edge) : Prop :=
  start ∈ visited /\ chain start acc cur /\ Forall (fun e => token_in e ∈ visited) acc /\ cur ∈ visited.

Definition closes (cur : SchemaAlkaneId) (visited : gset SchemaAlkaneId) (acc suf : list Edge) : Prop :=
  suf <> [] /\ chain cur suf start /\ Forall (edge_in sn) suf /\ fresh_path visited suf /\ (2 <= length (acc ++ suf))%nat
  /\ is_immediate_backtrack_same_pool (acc ++ suf) = false.

Lemma no_backtrack acc e cur to visited :
  so_far cur visited acc -> to ∉ visited -> immediate_backtrack (last acc) e cur to = false.
Proof.
  intros (_ & _ & Hin & _) Hto. unfold immediate_backtrack. destruct (last acc) as [p|] eqn:E; [|done].
  rewrite (bool_decide_false (token_in p = to)); [by rewrite andb_false_r|]. intros Hp. apply Hto. rewrite <- Hp.
  eapply Forall_forall in Hin; [exact Hin|]. by apply last_Some_elem_of.
Qed.

Lemma so_far_step cur visited acc e :
  so_far cur visited acc -> token_in e = cur -> so_far (token_out e) ({[token_out e]} ∪ visited) (acc ++ [e]).
Proof.
  intros (H1 & H2 & H3 & H4) He. split; [set_solver|]. split; [apply chain_snoc; by rewrite He|]. split; [|set_solver].
  apply Forall_app_2; [eapply Forall_impl; [exact H3|set_solver]|]. apply Forall_singleton. rewrite He. set_solver.
Qed.

Lemma dfs_spec n : forall cur visited acc path,
  so_far cur visited acc ->
  path ∈ dfs_cycles g start n cur visited acc <->
  exists suf, path = acc ++ suf /\ (length suf <= n)%nat /\ closes cur visited acc suf.
Proof.
  induction n as [|n IH]; intros cur visited acc path Hs; cbn [dfs_cycles].
  { rewrite elem_of_nil. split; [done|]. intros (suf & _ & Hl & Hne & _). by destruct suf; [|cbn in Hl; lia]. }
  rewrite list_elem_of_join. setoid_rewrite list_elem_of_fmap. pose proof (proj1 Hs) as Hst. split.
  - intros (l & Hp & [to e] & -> & Hx). apply neighbors_spec in Hx as (X1 & X2 & X3). case_bool_decide as Hto.
    + destruct acc as [|a0 acc]; [by apply elem_of_nil in Hp|].
      destruct (is_immediate_backtrack_same_pool _) eqn:Eb; [by apply elem_of_nil in Hp|].
      apply list_elem_of_singleton in Hp as ->. exists [e]. split; [done|]. split; [cbn; lia|]. split; [done|].
      split; [cbn; by rewrite X3|]. split; [by apply Forall_singleton|]. split; [done|]. split; [|done].
      rewrite length_app. cbn. lia.
    + case_bool_decide as Hv; [by apply elem_of_nil in Hp|].
      rewrite (no_backtrack acc e cur to visited Hs Hv) in Hp. subst to.
      apply IH in Hp as (suf & -> & Hl & C1 & C2 & C3 & C4 & C5 & C6); [|by eapply so_far_step].
      rewrite <- app_assoc in C5, C6 |- *. cbn [app] in *. exists (e :: suf). split; [done|]. split; [cbn; lia|]. split; [done|].
      split; [done|]. split; [by constructor|]. split; [|done]. destruct suf; [done|]. by split.
  - intros (suf & -> & Hl & C1 & C2 & C3 & C4 & C5 & C6). destruct suf as [|e suf]; [done|]. apply Forall_cons in C3 as [He C3].
    cbn in C2. destruct C2 as [C2 C2'].
    assert (Hx : (token_out e, e) ∈ default [] (neighbors g !! cur)) by (by apply neighbors_spec).
    eexists. split; [|exists (token_out e, e); split; [reflexivity|exact Hx]]. destruct suf as [|e' suf].
    + cbn in C2'. rewrite bool_decide_true by done. destruct acc as [|a0 acc]; [cbn in C5; lia|]. rewrite C6. by left.
    + destruct C4 as [C4 C4']. rewrite bool_decide_false by (intros Hst'; apply C4; by rewrite Hst'). rewrite bool_decide_false by done.
      rewrite (no_backtrack acc e cur (token_out e) visited Hs C4). apply IH; [by eapply so_far_step|].
      exists (e' :: suf). rewrite <- app_assoc. split; [done|]. split; [cbn in Hl |- *; lia|]. split; [done|].
      rewrite <- app_assoc. done.
Qed.

(** The tokens of a fresh path that ends in a visited token are distinct. *)
Lemma fresh_nodup l : forall cur visited,
  chain cur l start -> start ∈ visited ->
  fresh_path visited l <-> NoDup (token_out <$> l) /\ forall t, t ∈ token_out <$> l -> t ∈ visited -> t = start.
Proof.
  induction l as [|e [|e' l] IH]; intros cur visited Hc Hs.
  - split; [|done]. intros _. split; [constructor|]. intros t Ht. by apply elem_of_nil in Ht.
  - cbn in Hc. destruct Hc as [_ Hc]. split; [|done]. intros _. split; [apply NoDup_singleton|].
    intros t Ht _. cbn in Ht. apply list_elem_of_singleton in Ht as ->. done.
  - destruct Hc as [_ Hc]. specialize (IH (token_out e) ({[token_out e]} ∪ visited) Hc ltac:(set_solver)).
    change (fresh_path visited (e :: e' :: l)) with ((token_out e ∉ visited) /\ fresh_path ({[token_out e]} ∪ visited) (e' :: l)).
    rewrite IH. change (token_out <$> e :: e' :: l) with (token_out e :: (token_out <$> e' :: l)). rewrite NoDup_cons.
    assert (Hin : start ∈ token_out <$> e' :: l).
    { clear -Hc. revert Hc. generalize (token_out e) as c, e' as x. induction l as [|y l IHl]; intros c x Hc; cbn in Hc |- *.
      - destruct Hc as [_ <-]. by left.
      - right. apply (IHl (token_out x) y). apply Hc. }
    split.
    + intros (H1 & H2 & H3). split; [split; [|done]|].
      * intros Hi. specialize (H3 _ Hi ltac:(set_solver)). by rewrite H3 in H1.
      * intros t [->|Ht]%elem_of_cons Hv; [done|]. apply H3; [done|set_solver].
    + intros ([H1 H2] & H3). split; [|split; [done|]].
      * intros Hv. specialize (H3 (token_out e) ltac:(by left) Hv). by rewrite H3 in H1.
      * intros t Ht Hv. apply elem_of_union in Hv as [->%elem_of_singleton|Hv]; [done|]. apply H3; [by right|done].
Qed.

(** A cycle through [start]: it does not pass a token twice, nor end by going straight back through a pool. *)
Definition simple_cycle (n : nat) (path : list Edge) : Prop :=
  (2 <= length path <= n)%nat /\ chain start path start /\ Forall (edge_in sn) path /\ NoDup (token_out <$> path)
  /\ is_immediate_backtrack_same_pool path = false.

Lemma enumerate_spec n path : path ∈ enumerate_cycles g start n <-> simple_cycle n path.
Proof.
  unfold enumerate_cycles. rewrite dfs_spec by (split; [set_solver|]; split; [done|]; split; [constructor|set_solver]).
  unfold simple_cycle. split.
  - intros (suf & -> & Hl & C1 & C2 & C3 & C4 & C5 & C6). cbn [app] in *. split; [lia|]. split; [done|]. split; [done|].
    split; [|done]. by apply (fresh_nodup suf start {[start]} C2 ltac:(set_solver)) in C4 as [C4 _].
  - intros (Hl & C2 & C3 & C4 & C5). exists path. split; [done|]. split; [lia|]. split; [intros ->; cbn in Hl; lia|].
    split; [done|]. split; [done|]. split; [|cbn [app]; split; [lia|done]].
    apply (fresh_nodup path start {[start]} C2 ltac:(set_solver)). split; [done|]. set_solver.
Qed.

End Cycles.

(** ** The input of a cycle *)

Lemma to_i128_small z : - 2 ^ 127 <= z < 2 ^ 127 -> to_i128 z = z.
Proof.
  intros H. unfold to_i128, u128_mod. destruct (Z.lt_ge_cases z 0).
  - replace (z mod 2 ^ 128) with (z + 2 ^ 128); [|symmetry; rewrite <- (Z_mod_plus_full z 1), Z.mul_1_l; apply Z.mod_small; lia].
    destruct (Z.ltb_spec (z + 2 ^ 128) (2 ^ 127)); lia.
  - rewrite Z.mod_small by lia. destruct (Z.ltb_spec z (2 ^ 127)); lia.
Qed.

Lemma i128_sub_small a b : 0 <= a < 2 ^ 127 -> 0 <= b < 2 ^ 127 -> i128_sub a b = a - b.
Proof. intros Ha Hb. unfold i128_sub. rewrite (to_i128_small a), (to_i128_small b), to_i128_small; lia. Qed.

Section Inputs.
Context (g : Graph) (edges : list Edge) (fee cap : Z).

(** The best so far is the quote of some input up to the cap. *)
Definition from_input (q : PathQuote) : Prop := exists x, 1 <= x <= cap /\ pathquote_from_edges_exact_in g edges x fee = Some q.
Definition best_known (b : option PathQuote * Z) : Prop :=
  match b.1 with Some q => from_input q /\ b.2 = profit q | None => b.2 = i128_min end.

Lemma keep_best_known b q : best_known b -> from_input q -> best_known (keep_best b q).
Proof. intros Hb Hq. unfold keep_best. by destruct (_ <? _). Qed.

Lemma keep_best_ge b q : b.2 <= (keep_best b q).2 /\ profit q <= (keep_best b q).2.
Proof. unfold keep_best. destruct (Z.ltb_spec b.2 (profit q)); cbn; lia. Qed.

Lemma scan_spec lo hi b :
  best_known b -> 1 <= lo -> hi <= cap ->
  best_known (scan_range g edges fee lo hi b) /\ b.2 <= (scan_range g edges fee lo hi b).2
  /\ forall x q, lo <= x <= hi -> pathquote_from_edges_exact_in g edges x fee = Some q -> profit q <= (scan_range g edges fee lo hi b).2.
Proof.
  intros Hb Hlo Hhi. unfold scan_range.
  assert (Hr : Forall (fun x => 1 <= x <= cap) (seqZ lo (hi - lo + 1))).
  { apply Forall_forall. intros x Hx%elem_of_seqZ. lia. }
  assert (H : forall l b, best_known b -> Forall (fun x => 1 <= x <= cap) l ->
    let r := foldl (fun b x => match pathquote_from_edges_exact_in g edges x fee with Some q => keep_best b q | None => b end) b l in
    best_known r /\ b.2 <= r.2 /\ forall x q, x ∈ l -> pathquote_from_edges_exact_in g edges x fee = Some q -> profit q <= r.2).
  { clear. induction l as [|y l IH]; intros b Hb Hl; cbn [foldl].
    { split; [done|]. split; [done|]. intros x q Hx. by apply elem_of_nil in Hx. }
    apply Forall_cons in Hl as [Hy Hl].
    set (b1 := match pathquote_from_edges_exact_in g edges y fee with Some q => keep_best b q | None => b end).
    assert (Hb1 : best_known b1 /\ b.2 <= b1.2 /\ forall q, pathquote_from_edges_exact_in g edges y fee = Some q -> profit q <= b1.2).
    { unfold b1. destruct (pathquote_from_edges_exact_in g edges y fee) as [q|] eqn:E; [|done].
      pose proof (keep_best_ge b q). split; [apply keep_best_known; [done|by exists y]|]. split; [lia|]. intros q' [= <-]. lia. }
    clearbody b1. destruct Hb1 as (K1 & K2 & K3). destruct (IH b1 K1 Hl) as (I1 & I2 & I3). split; [done|]. split; [lia|].
    intros x q [->|Hx]%elem_of_cons Hq; [specialize (K3 q Hq); lia|by apply (I3 x)]. }
  destruct (H _ b Hb Hr) as (H1 & H2 & H3). split; [done|]. split; [done|]. intros x q Hx. apply H3. apply elem_of_seqZ. lia.
Qed.

Lemma ternary_spec n : forall lo hi b lo' hi' b',
  best_known b -> 1 <= lo <= hi -> hi <= cap -> ternary g edges fee n lo hi b = Some (lo', hi', b') ->
  best_known b' /\ 1 <= lo' /\ hi' <= cap.
Proof.
  induction n as [|n IH]; intros lo hi b lo' hi' b' Hb Hlo Hhi; cbn [ternary]; [intros [= <- <- <-]; split; [done|lia]|].
  pose proof (Z.div_pos (hi - lo) 3 ltac:(lia) ltac:(lia)) as Hd. pose proof (Z.mul_div_le (hi - lo) 3 ltac:(lia)) as Hd'.
  set (m1 := lo + (hi - lo) / 3). set (m2 := hi - (hi - lo) / 3).
  destruct (pathquote_from_edges_exact_in g edges m1 fee) as [q1|] eqn:E1; cbn [mbind option_bind]; [|done].
  destruct (pathquote_from_edges_exact_in g edges m2 fee) as [q2|] eqn:E2; cbn [mbind option_bind]; [|done].
  assert (Hb2 : best_known (keep_best (keep_best b q1) q2)).
  { apply keep_best_known; [apply keep_best_known; [done|]|]; [exists m1|exists m2]; (split; [unfold m1, m2; lia|done]). }
  unfold u128_sat_sub.
  destruct (profit q1 <? profit q2); (destruct (_ <=? _) eqn:El; [intros [= <- <- <-]; split; [done|]; unfold m1, m2; lia|]);
    apply Z.leb_gt in El; (apply IH; [done|unfold m1, m2 in *; lia|unfold m1, m2; lia]).
Qed.

Lemma optimize_sound q : optimize_exact_in_on_path g edges fee cap = Some q -> from_input q.
Proof.
  assert (H0 : best_known (None, i128_min)) by done.
  unfold optimize_exact_in_on_path. destruct (Z.eqb_spec cap 0); [done|]. destruct (Z.leb_spec cap 64) as [Hc|Hc].
  - destruct (Z.lt_ge_cases cap 0) as [Hn|Hn].
    { unfold scan_range. replace (seqZ 1 (cap - 1 + 1)) with (@nil Z); [done|]. by rewrite seqZ_nil by lia. }
    destruct (scan_spec 1 cap (None, i128_min) H0 ltac:(lia) ltac:(lia)) as [Hb _]. unfold best_known in Hb.
    intros E. rewrite E in Hb. apply Hb.
  - destruct (ternary g edges fee 40 1 cap (None, i128_min)) as [[[lo hi] b]|] eqn:Et; cbn [mbind option_bind]; [|done].
    apply ternary_spec in Et as (Hb & Hlo & Hhi); [|done|lia|lia].
    destruct (scan_spec (Z.max (u128_sat_sub lo 16) 1) (Z.min (hi + 16) cap) b Hb ltac:(lia) ltac:(lia)) as [Hb' _].
    unfold best_known in Hb'. intros E. rewrite E in Hb'. apply Hb'.
Qed.

(** A small range is searched whole. *)
Lemma optimize_exhaustive x q :
  1 <= x <= cap -> cap <= 64 -> pathquote_from_edges_exact_in g edges x fee = Some q -> i128_min < profit q ->
  exists q', optimize_exact_in_on_path g edges fee cap = Some q' /\ profit q <= profit q'.
Proof.
  intros Hx Hc Hq Hp. unfold optimize_exact_in_on_path. destruct (Z.eqb_spec cap 0); [lia|]. destruct (Z.leb_spec cap 64); [|lia].
  destruct (scan_spec 1 cap (None, i128_min) eq_refl ltac:(lia) ltac:(lia)) as (Hb & _ & Hm). specialize (Hm x q Hx Hq).
  unfold best_known in Hb. destruct (scan_range g edges fee 1 cap (None, i128_min)) as [[q'|] p]; cbn in *; [|lia].
  exists q'. split; [done|]. destruct Hb as [_ <-]. done.
Qed.

End Inputs.

Lemma cap_loop_le g edges : forall c, cap_loop g edges c <= Z.max 0 c
  /\ forall e rin rout, e ∈ edges -> reserves_for g e = Some (rin, rout) -> 0 <= rin -> 3 * cap_loop g edges c <= rin.
Proof.
  induction edges as [|e edges IH]; intros c; cbn [cap_loop].
  { split; [lia|]. intros e rin rout He. by apply elem_of_nil in He. }
  destruct (reserves_for g e) as [[rin rout]|] eqn:Er.
  2: { split; [lia|]. intros e' r1 r2 _ _ H. lia. }
  destruct (Z.eqb_spec rin 0) as [->|Hr]; [split; [lia|]; intros e' r1 r2 _ _ H; lia|].
  set (c' := if rin / 3 <? c then rin / 3 else c). assert (Hc : c' <= c /\ c' <= rin / 3) by (unfold c'; destruct (Z.ltb_spec (rin / 3) c); lia).
  destruct (IH c') as [I1 I2]. split; [lia|]. intros e' r1 r2 [->|He]%elem_of_cons Hr' Hnn; [|by apply (I2 e' r1 r2)].
  rewrite Er in Hr'. injection Hr' as <- <-. pose proof (Z.mul_div_le rin 3 ltac:(lia)). lia.
Qed.

(** ** Profit *)

Section Profit.
Context (sn : gmap SchemaAlkaneId SchemaPoolSnapshot) (fee : Z).

Local Notation g := (from_snapshot sn).

Lemma try_cycles_spec paths : forall b,
  (match b.1 with Some q => b.2 = profit q | None => b.2 = 0 end) ->
  let r := foldl (try_cycle g fee) b paths in
  b.2 <= r.2
  /\ (match r.1 with Some q => r.2 = profit q | None => r.2 = 0 end)
  /\ (forall q, r.1 = Some q -> b.1 = Some q \/ exists path, path ∈ paths /\ from_input g path fee (cap_for_path g path) q)
  /\ forall path q, path ∈ paths -> cap_for_path g path <> 0 ->
       optimize_exact_in_on_path g path fee (cap_for_path g path) = Some q -> profit q <= r.2.
Proof.
  induction paths as [|path paths IH]; intros b Hb; cbn [foldl].
  { split; [lia|]. split; [done|]. split; [by left|]. intros path q Hp. by apply elem_of_nil in Hp. }
  set (b1 := try_cycle g fee b path).
  assert (H1 : b.2 <= b1.2 /\ (match b1.1 with Some q => b1.2 = profit q | None => b1.2 = 0 end)
    /\ (forall q, b1.1 = Some q -> b.1 = Some q \/ from_input g path fee (cap_for_path g path) q)
    /\ forall q, cap_for_path g path <> 0 -> optimize_exact_in_on_path g path fee (cap_for_path g path) = Some q -> profit q <= b1.2).
  { unfold b1, try_cycle. destruct (Z.eqb_spec (cap_for_path g path) 0) as [Hz|Hz]; [split; [lia|]; split; [done|]; by split; [left|]|].
    destruct (optimize_exact_in_on_path g path fee (cap_for_path g path)) as [q|] eqn:Eo.
    2: { split; [lia|]. split; [done|]. by split; [left|]. }
    pose proof (keep_best_ge b q) as [G1 G2]. split; [done|]. split; [unfold keep_best; by destruct (_ <? _)|].
    split; [|intros q' _ [= <-]; done]. intros q'. unfold keep_best. destruct (_ <? _); [|by left].
    intros [= <-]. right. by apply optimize_sound. }
  clearbody b1. destruct H1 as (A1 & A2 & A3 & A4). destruct (IH b1 A2) as (I1 & I2 & I3 & I4).
  split; [lia|]. split; [done|]. split.
  - intros q Hq. destruct (I3 q Hq) as [Hq'|(p & Hp & Hf)]; [|right; exists p; split; [by right|done]].
    destruct (A3 q Hq') as [|Hf]; [by left|]. right. exists path. split; [by left|done].
  - intros p q [->|Hp]%elem_of_cons Hc Ho; [specialize (A4 q Hc Ho); lia|by apply (I4 p)].
Qed.

Lemma hops_edges edges : forall a hops, hops_exact_in g fee edges a = Some hops -> edges_of hops = edges.
Proof.
  induction edges as [|e edges IH]; intros a hops; cbn; [by intros [= <-]|].
  destruct (reserves_for g e) as [[rin rout]|]; cbn; [|done]. destruct (xyk_out_exact_in _ _ _ _) as [o|]; cbn; [|done].
  destruct (hops_exact_in g fee edges o) as [hs|] eqn:Eh; cbn; [|done]. intros [= <-]. cbn. rewrite hop_edge. f_equal. by eapply IH.
Qed.

Lemma quote_edges edges a q : pathquote_from_edges_exact_in g edges a fee = Some q -> edges_of (pq_hops q) = edges.
Proof.
  destruct edges as [|e edges]; [done|]. cbn [pathquote_from_edges_exact_in]. intros (hops & Eh & ->)%fmap_Some. cbn [pq_hops quote_of].
  by eapply hops_edges.
Qed.

Lemma amount_after_small edges : forall a b,
  modest sn -> 0 <= fee -> Forall (edge_in sn) edges -> edges <> [] -> 0 <= a < 2 ^ 127 -> amount_after sn fee edges a = Some b ->
  0 <= b < 2 ^ 64.
Proof.
  induction edges as [|e edges IH]; intros a b Hmod Hfee He Hne Ha; [done|]. apply Forall_cons in He as [He0 He]. cbn.
  destruct (modest_reserves sn Hmod e He0) as (rin & rout & Hr & B1 & B2). rewrite Hr. cbn.
  destruct (xyk_out_exact_in rin rout a fee) as [o|] eqn:Ex; cbn; [|done].
  apply xyk_out_spec in Ex; [|lia|unfold small, u128_mod; lia|lia|lia|done|unfold u128_mod; lia].
  destruct edges as [|e' edges]; [intros [= <-]; lia|]. apply (IH o b Hmod Hfee He); [done|lia].
Qed.

(** What an input of a cycle gives, with modest reserves. *)
Lemma input_quote n token path q :
  modest sn -> 0 <= fee -> simple_cycle sn token n path -> from_input g path fee (cap_for_path g path) q ->
  quote_ok sn (sells fee) n token token q /\ 1 <= pq_amount_in q /\ edges_of (pq_hops q) = path
  /\ (forall e rin rout, e ∈ path -> reserves_for g e = Some (rin, rout) -> 3 * pq_amount_in q <= rin)
  /\ profit q = pq_amount_out q - pq_amount_in q /\ 0 <= pq_amount_in q < 2 ^ 64 /\ 0 <= pq_amount_out q < 2 ^ 64.
Proof.
  intros Hmod Hfee (Hl & Hc & He & Hnd & Hbt) (x & Hx & Hq).
  destruct (quote_in_spec sn fee path token token x q Hc He Hq) as (Q1 & Q2 & Q3).
  assert (Hcap : forall e rin rout, e ∈ path -> reserves_for g e = Some (rin, rout) -> 3 * x <= rin).
  { intros e rin rout Hin Hr. assert (Hee : edge_in sn e) by (by eapply Forall_forall in He).
    destruct (modest_reserves sn Hmod e Hee) as (rin' & rout' & Hr' & B1 & B2). rewrite Hr in Hr'. injection Hr' as <- <-.
    pose proof (proj2 (cap_loop_le g path (u128_mod - 1)) e rin rout Hin Hr ltac:(lia)). unfold cap_for_path in Hx. lia. }
  assert (Hxs : x < 2 ^ 64).
  { destruct path as [|e path]; [cbn in Hl; lia|]. apply Forall_cons in He as [He _].
    destruct (modest_reserves sn Hmod e He) as (rin & rout & Hr & B1 & B2). specialize (Hcap e rin rout ltac:(by left) Hr). lia. }
  assert (Hout : 0 <= pq_amount_out q < 2 ^ 64).
  { eapply (amount_after_small path x); try done; [intros ->; cbn in Hl; lia|lia]. }
  rewrite Q2. split; [eapply quote_ok_weaken; [|exact Q1]; lia|]. split; [lia|]. split; [by eapply quote_edges|]. split; [done|].
  split; [|lia]. unfold profit. rewrite Q2. apply i128_sub_small; lia.
Qed.

(** A profit that is found is one. *)
Lemma mev_sound n token q :
  modest sn -> 0 <= fee -> plan_best_mev_swap sn token fee n = Some q ->
  simple_cycle sn token n (edges_of (pq_hops q)) /\ quote_ok sn (sells fee) n token token q
  /\ 1 <= pq_amount_in q < pq_amount_out q
  /\ forall e rin rout, e ∈ edges_of (pq_hops q) -> reserves_for g e = Some (rin, rout) -> 3 * pq_amount_in q <= rin.
Proof.
  intros Hmod Hfee. unfold plan_best_mev_swap.
  destruct (try_cycles_spec (enumerate_cycles g token n) (None, 0) eq_refl) as (_ & R2 & R3 & _).
  destruct (foldl (try_cycle g fee) (None, 0) (enumerate_cycles g token n)) as [o p]. cbn [fst snd] in *.
  destruct (Z.ltb_spec 0 p); [|done]. intros ->. destruct (R3 q eq_refl) as [|(path & Hp & Hf)]; [done|].
  apply enumerate_spec in Hp. destruct (input_quote n token path q Hmod Hfee Hp Hf) as (I1 & I2 & I3 & I4 & I5 & _).
  rewrite I3. split; [done|]. split; [done|]. split; [lia|done].
Qed.

(** A profit on a cycle whose inputs are few is not missed. *)
Lemma mev_exhaustive n token path x q :
  modest sn -> 0 <= fee -> simple_cycle sn token n path -> 1 <= x <= cap_for_path g path -> cap_for_path g path <= 64 ->
  pathquote_from_edges_exact_in g path x fee = Some q -> pq_amount_in q < pq_amount_out q ->
  exists q', plan_best_mev_swap sn token fee n = Some q'
    /\ pq_amount_out q - pq_amount_in q <= pq_amount_out q' - pq_amount_in q'.
Proof.
  intros Hmod Hfee Hp Hx Hc Hq Hgain.
  assert (Hf : from_input g path fee (cap_for_path g path) q) by (by exists x).
  destruct (input_quote n token path q Hmod Hfee Hp Hf) as (_ & _ & _ & _ & P1 & P2 & P3).
  destruct (optimize_exhaustive g path fee (cap_for_path g path) x q Hx Hc Hq) as (q1 & Ho & Hle); [unfold i128_min; lia|].
  unfold plan_best_mev_swap.
  destruct (try_cycles_spec (enumerate_cycles g token n) (None, 0) eq_refl) as (_ & R2 & R3 & R4).
  specialize (R4 path q1 (proj2 (enumerate_spec _ _ _ _) Hp) ltac:(lia) Ho).
  destruct (foldl (try_cycle g fee) (None, 0) (enumerate_cycles g token n)) as [o p]. cbn [fst snd] in *.
  destruct (Z.ltb_spec 0 p); [|lia]. destruct o as [q'|]; [|lia]. exists q'. split; [done|].
  destruct (R3 q' eq_refl) as [|(path' & Hp' & Hf')]; [done|]. apply enumerate_spec in Hp'.
  destruct (input_quote n token path' q' Hmod Hfee Hp' Hf') as (_ & _ & _ & _ & P1' & _). lia.
Qed.

End Profit.
