(* ===== verification/AmmRoute.v ===== *)
(** * Routes of swaps

    [src/modules/ammdata/utils/route.rs]: the legs that a swap left in the pools it went through, put back in
    order.  The loops have fuel; running out is [None].  The JSON of a route is not modelled. *)
From stdpp Require Import strings.
From S2P Require Import Prelude Bytes RunesTransfer RunesStore RunesChain RunesInscriptions AlkTrace AmmPath.

Open Scope Z_scope.

Record RouteLeg := mkLeg {
  lg_pool : SchemaAlkaneId;
  lg_base : SchemaAlkaneId;
  lg_quote : SchemaAlkaneId;
  lg_base_delta : Z;
  lg_quote_delta : Z;
  lg_seq : Z;
}.

#[global] Instance RouteLeg_eq_dec : EqDecision RouteLeg.
Proof. solve_decision. Defined.

(** What the trader pays in and gets out. *)
Definition flow (leg : RouteLeg) : option (SchemaAlkaneId * Z * SchemaAlkaneId * Z) :=
  match Z.sgn (lg_base_delta leg), Z.sgn (lg_quote_delta leg) with
  | 1, -1 => Some (lg_base leg, Z.abs (lg_base_delta leg), lg_quote leg, Z.abs (lg_quote_delta leg))
  | -1, 1 => Some (lg_quote leg, Z.abs (lg_quote_delta leg), lg_base leg, Z.abs (lg_base_delta leg))
  | _, _ => None
  end.

Record Route := mkRoute {
  rt_legs : list RouteLeg;
  rt_net : gmap SchemaAlkaneId Z;
  rt_via : list SchemaAlkaneId;
}.

(** The order of [(pool.block, pool.tx, seq)]. *)
Definition leg_leb (a b : RouteLeg) : bool :=
  (ak_block (lg_pool a) <? ak_block (lg_pool b))
  || ((ak_block (lg_pool a) =? ak_block (lg_pool b))
      && ((ak_tx (lg_pool a) <? ak_tx (lg_pool b))
          || ((ak_tx (lg_pool a) =? ak_tx (lg_pool b)) && (lg_seq a <=? lg_seq b)))).

(** The trader's side is the mirror of the pool's; [i128] wraps. *)
Definition add_total (m : gmap SchemaAlkaneId Z) (leg : RouteLeg) : gmap SchemaAlkaneId Z :=
  let m1 := <[lg_base leg := to_i128 (default 0 (m !! lg_base leg) - lg_base_delta leg)]> m in
  <[lg_quote leg := to_i128 (default 0 (m1 !! lg_quote leg) - lg_quote_delta leg)]> m1.

Definition route_totals (legs : list RouteLeg) : gmap SchemaAlkaneId Z := foldl add_total ∅ legs.

(** Token in and token out of a leg. *)
Definition leg_ends (leg : RouteLeg) : option (SchemaAlkaneId * SchemaAlkaneId) := (fun '(i, _, o, _) => (i, o)) <$> flow leg.

Section Ordering.
Context (flows : list (SchemaAlkaneId * SchemaAlkaneId)) (net : gmap SchemaAlkaneId Z).

Definition free_legs (used : gset nat) : list nat := List.filter (fun i => negb (bool_decide (i ∈ used))) (seq 0 (length flows)).

Definition input_of (i : nat) : option SchemaAlkaneId := fst <$> flows !! i.
Definition output_of (i : nat) : option SchemaAlkaneId := snd <$> flows !! i.

Definition net_at (i : nat) : Z := match input_of i with Some t => default 0 (net !! t) | None => 0 end.

Definition or_else {A} (x y : option A) : option A := match x with Some _ => x | None => y end.

Definition pick_start (used : gset nat) : option nat :=
  let free := free_legs used in
  or_else (List.find (fun i => negb (existsb (fun j => negb (j =? i)%nat && bool_decide (output_of j = input_of i)) free)) free)
    (or_else (List.find (fun i => net_at i <? 0) free) (or_else (List.find (fun i => 0 <? net_at i) free) (head free))).

(** The legs that follow, each taking in what the one before paid out. *)
Fixpoint follow (fuel : nat) (used : gset nat) (order : list nat) (holding : option SchemaAlkaneId) : option (gset nat * list nat) :=
  match fuel with
  | O => None
  | S fuel' =>
      match List.find (fun i => negb (bool_decide (i ∈ used)) && bool_decide (input_of i = holding)) (seq 0 (length flows)) with
      | None => Some (used, order)
      | Some next => follow fuel' ({[next]} ∪ used) (order ++ [next]) (output_of next)
      end
  end.

Fixpoint place_legs (fuel : nat) (used : gset nat) (order : list nat) : option (list nat) :=
  match fuel with
  | O => None
  | S fuel' =>
      match pick_start used with
      | None => Some order
      | Some start =>
          '(used', order') ← follow (S (length flows)) ({[start]} ∪ used) (order ++ [start]) (output_of start);
          place_legs fuel' used' order'
      end
  end.

End Ordering.

Definition build_route (legs0 : list RouteLeg) : option Route :=
  let legs := sort_by leg_leb (filter (fun leg => is_Some (flow leg)) legs0) in
  let totals := route_totals legs in
  let via := fst <$> filter (fun e => e.2 = 0) (btree_entries totals) in
  let net := filter (fun e => e.2 <> 0) totals in
  let flows := omap leg_ends legs in
  order ← place_legs flows net (S (length flows)) ∅ [];
  Some (mkRoute (omap (fun i => legs !! i) order) net via).

(** ** Every leg once *)

Section Placing.
Context (flows : list (SchemaAlkaneId * SchemaAlkaneId)) (net : gmap SchemaAlkaneId Z).

Local Notation n := (length flows).

(** The legs placed so far. *)
Definition placed (used : gset nat) (order : list nat) : Prop :=
  NoDup order /\ Forall (fun i => (i < n)%nat) order /\ used = list_to_set order.

Lemma placed_length used order : placed used order -> (length order <= n)%nat.
Proof.
  intros (H1 & H2 & _). transitivity (length (seq 0 n)); [apply submseteq_length|by rewrite length_seq]. apply NoDup_submseteq; [done|].
  intros i Hi. apply elem_of_seq. eapply Forall_forall in H2; [|exact Hi]. lia.
Qed.

Lemma placed_add used order i : placed used order -> (i < n)%nat -> i ∉ used -> placed ({[i]} ∪ used) (order ++ [i]).
Proof.
  intros (H1 & H2 & ->) Hi Hu. rewrite elem_of_list_to_set in Hu. split; [|split].
  - apply NoDup_app. split; [done|]. split; [|apply NoDup_singleton]. intros x Hx ->%list_elem_of_singleton. done.
  - apply Forall_app_2; [done|]. by apply Forall_singleton.
  - rewrite list_to_set_app_L. set_solver.
Qed.

Lemma find_free (used : gset nat) (f : nat -> bool) i :
  List.find (fun i => negb (bool_decide (i ∈ used)) && f i) (seq 0 n) = Some i -> (i < n)%nat /\ (i ∉ used) /\ f i = true.
Proof.
  intros [Hin Hf]%find_some. apply andb_true_iff in Hf as [Hu Hf]. apply negb_true_iff, bool_decide_eq_false in Hu.
  apply in_seq in Hin. split; [lia|]. by split.
Qed.

Lemma free_spec used i : In i (free_legs flows used) <-> (i < n)%nat /\ i ∉ used.
Proof.
  unfold free_legs. rewrite filter_In, in_seq, negb_true_iff, bool_decide_eq_false. split; intros [H1 H2]; split; done || lia.
Qed.

Lemma pick_some used i : pick_start flows net used = Some i -> (i < n)%nat /\ i ∉ used.
Proof.
  intros H. apply free_spec. revert H. unfold pick_start, or_else.
  destruct (List.find _ _) as [j|] eqn:E1; [intros [= <-]; by apply find_some in E1 as [E1 _]|].
  destruct (List.find (fun i => net_at flows net i <? 0) _) as [j|] eqn:E2; [intros [= <-]; by apply find_some in E2 as [E2 _]|].
  destruct (List.find (fun i => 0 <? net_at flows net i) _) as [j|] eqn:E3; [intros [= <-]; by apply find_some in E3 as [E3 _]|].
  destruct (free_legs flows used) as [|j l]; cbn; [done|]. intros [= <-]. by left.
Qed.

Lemma pick_none used : pick_start flows net used = None -> forall i, (i < n)%nat -> i ∈ used.
Proof.
  intros H i Hi. destruct (decide (i ∈ used)) as [|Hu]; [done|]. exfalso.
  assert (Hf : In i (free_legs flows used)) by (by apply free_spec). revert H. unfold pick_start, or_else.
  destruct (List.find _ _); [done|]. destruct (List.find _ _); [done|]. destruct (List.find _ _); [done|].
  destruct (free_legs flows used); [done|]. by cbn.
Qed.

Lemma follow_spec fuel : forall used order holding,
  placed used order -> (n < fuel + length order)%nat ->
  exists used' order', follow flows fuel used order holding = Some (used', order') /\ placed used' order'
    /\ (length order <= length order')%nat.
Proof.
  induction fuel as [|fuel IH]; intros used order holding Hp Hf.
  { pose proof (placed_length _ _ Hp). lia. }
  cbn [follow]. destruct (List.find _ _) as [i|] eqn:E; [|by exists used, order].
  apply find_free in E as (Hi & Hu & _).
  destruct (IH ({[i]} ∪ used) (order ++ [i]) (output_of flows i)) as (u & o & H1 & H2 & H3);
    [by apply placed_add|rewrite length_app; cbn; lia|]. exists u, o. rewrite length_app in H3. split; [done|]. split; [done|]. lia.
Qed.

Lemma place_spec fuel : forall used order,
  placed used order -> (n < fuel + length order)%nat -> exists order', place_legs flows net fuel used order = Some order' /\ order' ≡ₚ seq 0 n.
Proof.
  induction fuel as [|fuel IH]; intros used order Hp Hf.
  { pose proof (placed_length _ _ Hp). lia. }
  cbn [place_legs]. destruct (pick_start flows net used) as [i|] eqn:E.
  - apply pick_some in E as [Hi Hu].
    destruct (follow_spec (S n) ({[i]} ∪ used) (order ++ [i]) (output_of flows i)) as (u & o & -> & H2 & H3);
      [by apply placed_add|lia|]. cbn [mbind option_bind]. apply (IH u o H2). rewrite length_app in H3. cbn in H3. lia.
  - exists order. split; [done|]. destruct Hp as (H1 & H2 & ->). apply NoDup_Permutation; [done|apply NoDup_seq|].
    intros i. rewrite elem_of_seq. split; [intros Hi; eapply Forall_forall in H2; [|exact Hi]; lia|].
    intros [_ Hi]. specialize (pick_none _ E i ltac:(lia)). by rewrite elem_of_list_to_set.
Qed.

End Placing.

(** ** What the trader paid and got *)

Definition leg_delta (t : SchemaAlkaneId) (leg : RouteLeg) : Z :=
  (if decide (lg_base leg = t) then lg_base_delta leg else 0) + (if decide (lg_quote leg = t) then lg_quote_delta leg else 0).

Definition pools_delta (t : SchemaAlkaneId) (legs : list RouteLeg) : Z := foldr (fun leg acc => leg_delta t leg + acc) 0 legs.

Definition touches (t : SchemaAlkaneId) (leg : RouteLeg) : Prop := lg_base leg = t \/ lg_quote leg = t.

Lemma to_i128_mod a b : a mod u128_mod = b mod u128_mod -> to_i128 a = to_i128 b.
Proof. unfold to_i128. by intros ->. Qed.

Lemma to_i128_idem a : to_i128 a mod u128_mod = a mod u128_mod.
Proof.
  unfold to_i128. pose proof (Z.mod_pos_bound a u128_mod ltac:(unfold u128_mod; lia)). destruct (_ <? _).
  - by rewrite Z.mod_mod by (unfold u128_mod; lia).
  - rewrite <- (Z_mod_plus_full _ 1). replace (a mod u128_mod - u128_mod + 1 * u128_mod) with (a mod u128_mod) by lia.
    by rewrite Z.mod_mod by (unfold u128_mod; lia).
Qed.

Lemma to_i128_sub a b : to_i128 (to_i128 a - b) = to_i128 (a - b).
Proof. apply to_i128_mod. rewrite Zminus_mod, to_i128_idem, <- Zminus_mod. done. Qed.

Lemma add_total_at m leg t a :
  default 0 (m !! t) = to_i128 a ->
  default 0 (add_total m leg !! t) = to_i128 (a - leg_delta t leg)
  /\ (is_Some (add_total m leg !! t) <-> is_Some (m !! t) \/ touches t leg).
Proof.
  intros Hm. unfold add_total, leg_delta, touches.
  destruct (decide (lg_quote leg = t)) as [Hq|Hq].
  - rewrite Hq, lookup_insert_eq. cbn [from_option id default]. destruct (decide (lg_base leg = t)) as [Hb|Hb].
    + rewrite Hb, lookup_insert_eq. cbn. rewrite Hm, (to_i128_sub a), to_i128_sub. split; [f_equal; lia|]. split; [by right; left|done].
    + rewrite lookup_insert_ne by done. rewrite Hm, to_i128_sub. split; [f_equal; lia|]. split; [by right; right|done].
  - rewrite lookup_insert_ne by done. destruct (decide (lg_base leg = t)) as [Hb|Hb].
    + rewrite Hb, lookup_insert_eq. cbn. rewrite Hm, to_i128_sub. split; [f_equal; lia|]. split; [by right; left|done].
    + rewrite lookup_insert_ne by done. rewrite Hm, Z.add_0_l, Z.sub_0_r. split; [done|]. split; [by left|]. by intros [|[|]].
Qed.

Lemma route_totals_spec legs t :
  default 0 (route_totals legs !! t) = to_i128 (- pools_delta t legs)
  /\ (is_Some (route_totals legs !! t) <-> exists leg, leg ∈ legs /\ touches t leg).
Proof.
  unfold route_totals.
  assert (H : forall l m a, default 0 (m !! t) = to_i128 a ->
    default 0 (foldl add_total m l !! t) = to_i128 (a - pools_delta t l)
    /\ (is_Some (foldl add_total m l !! t) <-> is_Some (m !! t) \/ exists leg, leg ∈ l /\ touches t leg)).
  { clear legs. induction l as [|leg l IH]; intros m a Hm; cbn [foldl].
    { cbn. rewrite Hm, Z.sub_0_r. split; [done|]. split; [by left|]. intros [|(leg & Hl & _)]; [done|]. by apply elem_of_nil in Hl. }
    destruct (add_total_at m leg t a Hm) as [A1 A2]. destruct (IH _ _ A1) as [I1 I2].
    split; [rewrite I1; cbn; unfold pools_delta; f_equal; lia|]. rewrite I2, A2. setoid_rewrite elem_of_cons. naive_solver. }
  destruct (H legs ∅ 0 ltac:(by rewrite lookup_empty)) as [H1 H2]. split; [rewrite H1; f_equal; lia|]. rewrite H2, lookup_empty.
  split; [by intros [[]|]|by right].
Qed.

Lemma pools_delta_perm t l1 l2 : l1 ≡ₚ l2 -> pools_delta t l1 = pools_delta t l2.
Proof. unfold pools_delta. induction 1; cbn; lia. Qed.

(** ** The route *)

Definition swap_legs (legs : list RouteLeg) : list RouteLeg := filter (fun leg => is_Some (flow leg)) legs.

Lemma flows_lookup legs i :
  Forall (fun leg => is_Some (flow leg)) legs -> length (omap leg_ends legs) = length legs /\ omap leg_ends legs !! i = legs !! i ≫= leg_ends.
Proof.
  intros H. revert i. induction H as [|leg legs [[[[a b] c] d] Hl] _ IH]; intros i; [done|].
  assert (Hend : leg_ends leg = Some (a, c)) by (unfold leg_ends; by rewrite Hl).
  cbn [omap list_omap]. rewrite Hend. cbn [length]. split; [f_equal; apply (IH 0%nat)|].
  destruct i as [|i]; cbn; [by rewrite Hend|apply IH].
Qed.

Lemma sorted_swaps legs : sort_by leg_leb (swap_legs legs) ≡ₚ swap_legs legs /\ Forall (fun leg => is_Some (flow leg)) (sort_by leg_leb (swap_legs legs)).
Proof.
  split; [apply sort_by_perm|]. rewrite sort_by_perm. apply Forall_forall. by intros leg [H _]%list_elem_of_filter.
Qed.

Lemma omap_seq {A} (l : list A) : omap (fun i => l !! i) (seq 0 (length l)) = l.
Proof.
  assert (H : forall l1 l2 : list A, omap (fun i => (l1 ++ l2) !! i) (seq (length l1) (length l2)) = l2).
  { intros l1 l2. revert l1. induction l2 as [|x l2 IH]; intros l1; cbn [length seq]; [done|].
    cbn [omap list_omap]. rewrite list_lookup_middle by done. f_equal.
    specialize (IH (l1 ++ [x])). rewrite length_app, <- app_assoc in IH. cbn in IH. rewrite Nat.add_1_r in IH. exact IH. }
  exact (H [] l).
Qed.

Lemma build_route_spec legs0 : exists route, build_route legs0 = Some route
  /\ rt_legs route ≡ₚ swap_legs legs0
  /\ (forall t v, rt_net route !! t = Some v <-> v = to_i128 (- pools_delta t (swap_legs legs0)) /\ v <> 0)
  /\ forall t, t ∈ rt_via route <-> (exists leg, leg ∈ swap_legs legs0 /\ touches t leg) /\ to_i128 (- pools_delta t (swap_legs legs0)) = 0.
Proof.
  unfold build_route. fold (swap_legs legs0). destruct (sorted_swaps legs0) as [Hp Hs]. set (legs := sort_by leg_leb (swap_legs legs0)) in *.
  assert (Hlen : length (omap leg_ends legs) = length legs) by (apply (flows_lookup legs 0%nat Hs)).
  destruct (place_spec (omap leg_ends legs) (filter (fun e => e.2 <> 0) (route_totals legs)) (S (length (omap leg_ends legs))) ∅ [])
    as (order & -> & Ho); [split; [constructor|]; by split; [constructor|]|cbn; lia|]. cbn [mbind option_bind].
  assert (Hdef : forall t v, route_totals legs !! t = Some v -> v = to_i128 (- pools_delta t (swap_legs legs0))).
  { intros t v Hv. destruct (route_totals_spec legs t) as [T _]. rewrite Hv in T. cbn in T. by rewrite T, (pools_delta_perm t _ _ Hp). }
  assert (Htouch : forall t, is_Some (route_totals legs !! t) <-> exists leg, leg ∈ swap_legs legs0 /\ touches t leg).
  { intros t. rewrite (proj2 (route_totals_spec legs t)). by setoid_rewrite Hp. }
  assert (H0 : to_i128 0 = 0) by done.
  eexists. split; [done|]. cbn [rt_legs rt_net rt_via]. split; [|split].
  - rewrite <- Hp. rewrite Hlen in Ho. rewrite Ho. by rewrite omap_seq.
  - intros t v. rewrite map_lookup_filter_Some. cbn [snd]. split; [intros [Hv Hv0]; split; [by apply Hdef|done]|].
    intros [-> Hv0]. split; [|done]. destruct (route_totals_spec legs t) as [T1 T2].
    rewrite (pools_delta_perm t _ _ Hp) in T1. destruct (route_totals legs !! t) as [w|]; cbn in T1; congruence.
  - intros t. rewrite list_elem_of_fmap. rewrite <- Htouch. split.
    + intros ([t' v] & -> & [Hv Hin]%list_elem_of_filter). cbn in *. rewrite btree_entries_perm in Hin. apply elem_of_map_to_list in Hin.
      split; [by eexists|]. by rewrite <- (Hdef _ _ Hin).
    + intros [[v Hv] Hz]. exists (t, v). split; [done|]. apply list_elem_of_filter. cbn. split; [by rewrite (Hdef _ _ Hv)|].
      rewrite btree_entries_perm. by apply elem_of_map_to_list.
Qed.

(** ** A swap through several pools *)

(** Legs that hand what they pay out to the next, from [t] to [fin]. *)
Fixpoint leg_path (t : SchemaAlkaneId) (l : list RouteLeg) (fin : SchemaAlkaneId) : Prop :=
  match l with
  | [] => t = fin
  | leg :: l' => exists o, leg_ends leg = Some (t, o) /\ leg_path o l' fin
  end.

Definition leg_input (leg : RouteLeg) : option SchemaAlkaneId := fst <$> leg_ends leg.
Definition leg_output (leg : RouteLeg) : option SchemaAlkaneId := snd <$> leg_ends leg.

(** The tokens a path goes through: every input, then the last output. *)
Definition path_tokens (l : list RouteLeg) (fin : SchemaAlkaneId) : list SchemaAlkaneId := omap leg_input l ++ [fin].

Lemma path_outputs l : forall t fin, leg_path t l fin -> path_tokens l fin = t :: omap leg_output l.
Proof.
  unfold path_tokens. induction l as [|leg l IH]; intros t fin; cbn; [by intros ->|]. intros (o & He & Hp).
  unfold leg_input at 1, leg_output at 1. rewrite He. cbn. f_equal. apply (IH _ _ Hp).
Qed.

Lemma no_self_loop l : forall t fin x a,
  leg_path t l fin -> NoDup (path_tokens l fin) -> x ∈ l -> leg_input x = Some a -> leg_output x = Some a -> False.
Proof.
  induction l as [|leg l IH]; intros t fin x a Hp Hn Hx Hi Ho; [by apply elem_of_nil in Hx|].
  destruct Hp as (o & He & Hp). assert (Ht : path_tokens (leg :: l) fin = t :: path_tokens l fin).
  { unfold path_tokens. cbn. unfold leg_input at 1. by rewrite He. }
  rewrite Ht in Hn. apply NoDup_cons in Hn as [Hn1 Hn]. apply elem_of_cons in Hx as [->|Hx]; [|by eapply (IH o fin x a)].
  apply Hn1. rewrite (path_outputs _ _ _ Hp). unfold leg_input, leg_output in *. rewrite He in *. cbn in *.
  injection Hi as ->. injection Ho as ->. by left.
Qed.

Section Path.
Context (legs l : list RouteLeg) (t0 fin : SchemaAlkaneId) (net : gmap SchemaAlkaneId Z).
Context (Hsw : Forall (fun leg => is_Some (flow leg)) legs) (Hperm : legs ≡ₚ l).
Context (Hpath : leg_path t0 l fin) (Hnd : NoDup (path_tokens l fin)).

Local Notation flows := (omap leg_ends legs).

Lemma input_lookup i : input_of flows i = legs !! i ≫= leg_input.
Proof. unfold input_of, leg_input. rewrite (proj2 (flows_lookup legs i Hsw)). by destruct (legs !! i). Qed.

Lemma output_lookup i : output_of flows i = legs !! i ≫= leg_output.
Proof. unfold output_of, leg_output. rewrite (proj2 (flows_lookup legs i Hsw)). by destruct (legs !! i). Qed.

Lemma flows_length : length flows = length l.
Proof. rewrite (proj1 (flows_lookup legs 0%nat Hsw)). by rewrite Hperm. Qed.

Lemma inputs_nodup : NoDup (fst <$> flows) /\ forall t, t ∈ fst <$> flows <-> t ∈ omap leg_input l.
Proof.
  assert (He : fst <$> flows ≡ₚ omap leg_input l).
  { rewrite <- Hperm. clear. induction legs as [|leg ls IH]; cbn [omap list_omap]; [done|]. unfold leg_input at 1.
    destruct (leg_ends leg); cbn; [by rewrite IH|done]. }
  split; [rewrite He; by apply NoDup_app in Hnd as [Hnd' _]|]. intros t. by rewrite He.
Qed.

Lemma input_unique i j t : input_of flows i = Some t -> input_of flows j = Some t -> i = j.
Proof.
  unfold input_of. rewrite <- !list_lookup_fmap. intros Hi Hj. destruct inputs_nodup as [H _]. by eapply NoDup_lookup.
Qed.

Lemma leg_index leg : leg ∈ l -> exists i, legs !! i = Some leg /\ (i < length flows)%nat.
Proof.
  rewrite <- Hperm. intros [i Hi]%list_elem_of_lookup_1. exists i. split; [done|]. rewrite flows_length, <- Hperm. by eapply lookup_lt_Some.
Qed.

Lemma last_not_input i : input_of flows i <> Some fin.
Proof.
  intros Hi. unfold input_of in Hi. rewrite <- list_lookup_fmap in Hi. apply list_elem_of_lookup_2 in Hi.
  apply inputs_nodup in Hi. apply NoDup_app in Hnd as (_ & H & _). by apply (H fin Hi), list_elem_of_singleton.
Qed.

Lemma follow_path : forall l' prefix used order h fuel,
  l = prefix ++ l' -> omap (fun i => legs !! i) order = prefix -> placed flows used order -> leg_path h l' fin -> (length l' < fuel)%nat ->
  exists used' order', follow flows fuel used order (Some h) = Some (used', order') /\ placed flows used' order'
    /\ omap (fun i => legs !! i) order' = l.
Proof.
  induction l' as [|leg l' IH]; intros prefix used order h fuel Hl Ho Hp Hlp Hf; (destruct fuel as [|fuel]; [cbn in Hf; lia|]);
    cbn [follow].
  - cbn in Hlp. subst h. destruct (List.find _ _) as [i|] eqn:E.
    { apply find_free in E as (_ & _ & E). apply bool_decide_eq_true in E. by apply last_not_input in E. }
    exists used, order. split; [done|]. split; [done|]. by rewrite Ho, Hl, app_nil_r.
  - destruct Hlp as (o & He & Hlp).
    destruct (leg_index leg) as (i0 & Hi0 & Hi0n); [rewrite Hl; set_solver|].
    assert (Hin0 : input_of flows i0 = Some h) by (rewrite input_lookup, Hi0; cbn; unfold leg_input; by rewrite He).
    assert (Hu : i0 ∉ used).
    { destruct Hp as (_ & _ & ->). rewrite elem_of_list_to_set. intros Hin.
      assert (Hpre : leg ∈ prefix) by (rewrite <- Ho; apply list_elem_of_omap; by exists i0).
      apply NoDup_app in Hnd as (Hnd' & _). rewrite Hl, omap_app in Hnd'. apply NoDup_app in Hnd' as (_ & Hd & _).
      apply (Hd h); [apply list_elem_of_omap; exists leg; split; [done|unfold leg_input; by rewrite He]|].
      apply list_elem_of_omap. exists leg. split; [by left|unfold leg_input; by rewrite He]. }
    destruct (List.find _ _) as [i|] eqn:E.
    + apply find_free in E as (_ & _ & E). apply bool_decide_eq_true in E. pose proof (input_unique _ _ _ E Hin0) as ->.
      assert (Hout : output_of flows i0 = Some o) by (rewrite output_lookup, Hi0; cbn; unfold leg_output; by rewrite He).
      rewrite Hout. apply (IH (prefix ++ [leg])); [by rewrite <- app_assoc|rewrite omap_app, Ho; cbn; by rewrite Hi0|by apply placed_add|done|cbn in Hf; lia].
    + pose proof (find_none _ _ E i0 ltac:(apply in_seq; lia)) as Hn. cbv beta in Hn.
      by rewrite bool_decide_false, bool_decide_true in Hn by done.
Qed.

(** The first leg is where the path starts. *)
Lemma pick_first leg l' : l = leg :: l' -> exists i, pick_start flows net ∅ = Some i /\ legs !! i = Some leg.
Proof.
  intros Hl. destruct (leg_index leg) as (i0 & Hi0 & Hi0n); [rewrite Hl; by left|]. pose proof (path_outputs _ _ _ Hpath) as Hout.
  assert (He : exists o, leg_ends leg = Some (t0, o)) by (clear -Hpath Hl; rewrite Hl in Hpath; destruct Hpath as (o & H & _); by exists o).
  destruct He as (o & He). assert (Hin0 : input_of flows i0 = Some t0) by (rewrite input_lookup, Hi0; cbn; unfold leg_input; by rewrite He).
  pose proof Hnd as Hnd2. rewrite Hout in Hnd2. apply NoDup_cons in Hnd2 as [Ht0 Hnd2].
  set (P := fun i => negb (existsb (fun j => negb (j =? i)%nat && bool_decide (output_of flows j = input_of flows i)) (free_legs flows ∅))).
  assert (HP0 : P i0 = true).
  { unfold P. apply negb_true_iff, not_true_iff_false. intros (j & _ & Hj)%existsb_exists. apply andb_true_iff in Hj as [_ Hj].
    apply bool_decide_eq_true in Hj. rewrite Hin0, output_lookup in Hj. apply bind_Some in Hj as (x & Hx & Hx').
    apply Ht0. apply list_elem_of_omap. exists x. split; [|done]. rewrite <- Hperm. by eapply list_elem_of_lookup_2. }
  unfold pick_start. fold P. destruct (List.find P (free_legs flows ∅)) as [i|] eqn:E.
  2: { exfalso. assert (P i0 = false); [|congruence]. apply (find_none _ _ E). apply free_spec. split; [done|set_solver]. }
  exists i. split; [done|]. cbn [or_else]. apply find_some in E as [Hi HP]. apply free_spec in Hi as [Hin _].
  destruct (lookup_lt_is_Some_2 legs i) as [x Hx]; [rewrite Hperm, <- flows_length; done|].
  assert (Hxl : x ∈ l) by (rewrite <- Hperm; by eapply list_elem_of_lookup_2).
  destruct (decide (leg_input x = Some t0)) as [Ht|Ht].
  { assert (i = i0) as -> by (apply (input_unique i i0 t0); [by rewrite input_lookup, Hx|done]). done. }
  exfalso. assert (Hxe : exists t, leg_input x = Some t).
  { rewrite Forall_forall in Hsw. destruct (Hsw x ltac:(by eapply list_elem_of_lookup_2)) as [[[[a b] c] d] Hfl].
    exists a. unfold leg_input, leg_ends. by rewrite Hfl. }
  destruct Hxe as [t Hxt]. assert (Hto : t ∈ omap leg_output l).
  { assert (Htok : t ∈ path_tokens l fin) by (apply elem_of_app; left; apply list_elem_of_omap; by exists x).
    rewrite Hout in Htok. apply elem_of_cons in Htok as [->|]; done. }
  apply list_elem_of_omap in Hto as (y & Hy & Hyt). destruct (leg_index y Hy) as (j & Hj & Hjn).
  assert (Hji : j <> i).
  { intros ->. rewrite Hx in Hj. injection Hj as <-. by eapply (no_self_loop l t0 fin). }
  unfold P in HP. apply negb_true_iff in HP. apply not_true_iff_false in HP. apply HP. apply existsb_exists. exists j.
  split; [apply free_spec; split; [done|set_solver]|]. apply andb_true_iff. split; [apply negb_true_iff, Nat.eqb_neq; done|].
  apply bool_decide_eq_true. rewrite output_lookup, Hj, input_lookup, Hx. cbn. congruence.
Qed.

Lemma place_path : exists order, place_legs flows net (S (length flows)) ∅ [] = Some order /\ omap (fun i => legs !! i) order = l.
Proof.
  assert (Hp0 : placed flows ∅ []) by (split; [constructor|]; by split; [constructor|]).
  assert (Hcase : l = [] \/ exists leg l', l = leg :: l') by (destruct l as [|leg l']; [by left|right; by exists leg, l']).
  destruct Hcase as [El|(leg & l' & El)].
  { exists []. split; [|done]. assert (legs = []) as Hl0 by (apply Permutation_nil_r; by rewrite <- El). by rewrite Hl0. }
  destruct (pick_first leg l' El) as (i & Hi & Hli). cbn [place_legs]. rewrite Hi.
  pose proof (pick_some flows net _ _ Hi) as [Hin Hu].
  assert (He : exists o, leg_ends leg = Some (t0, o) /\ leg_path o l' fin) by (clear -Hpath El; by rewrite El in Hpath).
  destruct He as (o & He & Hlp).
  assert (Hout : output_of flows i = Some o) by (rewrite output_lookup, Hli; cbn; unfold leg_output; by rewrite He).
  rewrite Hout. destruct (follow_path l' [leg] ({[i]} ∪ ∅) ([] ++ [i]) o (S (length flows))) as (u & ord & -> & H2 & H3);
    [done|cbn; by rewrite Hli|by apply placed_add|done|rewrite flows_length, El; cbn; lia|].
  cbn [mbind option_bind]. assert (Hlen : (length l <= length ord)%nat).
  { rewrite <- H3. clear. induction ord as [|j ord IH]; cbn; [done|]. destruct (legs !! j); cbn; lia. }
  exists ord. split; [|done]. rewrite flows_length in *. destruct (length l) as [|k] eqn:Ek; [by rewrite El in Ek|]. cbn [place_legs].
  destruct (pick_start flows net u) as [j|] eqn:Ej; [|done]. exfalso. apply pick_some in Ej as [Hj Hju].
  pose proof (placed_length _ _ _ (placed_add _ _ _ _ H2 Hj Hju)) as Hle. rewrite length_app, flows_length, Ek in Hle. cbn in Hle. lia.
Qed.

End Path.

(** A route through distinct tokens is recovered, in whatever order its legs come. *)
Lemma build_route_path legs0 l t0 fin :
  legs0 ≡ₚ l -> leg_path t0 l fin -> NoDup (path_tokens l fin) -> exists route, build_route legs0 = Some route /\ rt_legs route = l.
Proof.
  intros Hperm Hpath Hnd.
  assert (Hall : Forall (fun leg => is_Some (flow leg)) l).
  { clear -Hpath. revert t0 Hpath. induction l as [|leg l IH]; intros t; cbn; [constructor|]. intros (o & He & Hp).
    constructor; [|by eapply IH]. unfold leg_ends in He. apply fmap_Some in He as (x & Hx & _). by exists x. }
  unfold build_route. fold (swap_legs legs0). destruct (sorted_swaps legs0) as [Hp Hs].
  assert (Hsw : swap_legs legs0 ≡ₚ l).
  { unfold swap_legs. rewrite Hperm. clear -Hall. induction Hall as [|leg l' H _ IH]; [done|]. rewrite filter_cons_True by done. by rewrite IH. }
  set (legs := sort_by leg_leb (swap_legs legs0)) in *.
  destruct (place_path legs l t0 fin (filter (fun e => e.2 <> 0) (route_totals legs)) Hs ltac:(by rewrite Hp) Hpath Hnd) as (order & -> & Ho).
  cbn [mbind option_bind]. eexists. split; [done|]. done.
Qed.
