(* ===== verification/AmmCandles.v ===== *)
(** * Candles

    [src/modules/ammdata/utils/candles.rs], with the schemas of
    [src/modules/ammdata/schemas.rs] and the keys of [src/modules/ammdata/storage.rs]: the
    trades of a block are gathered per pool, timeframe and bucket in a [CandleCache], the
    cache is merged with the rows of the namespace, and a chart is read back with the
    buckets without a trade filled in.

    The namespace is a finite map from keys to values (what [Mdb] implements); the borsh
    encoding of a candle is the class [CandleCodec]. *)
From stdpp Require Import strings.
From S2P Require Import Prelude Bytes RunesTransfer RunesStore RunesChain RunesInscriptions AlkTrace AmmPath.
From stdpp Require Import options.

Open Scope Z_scope.

Definition PRICE_SCALE : Z := 10000000000000000.
Definition AMOUNT_SCALE : Z := 100000000.

(** ** Schemas *)

Record SchemaCandleV1 := mkCandle { open : Z; high : Z; low : Z; close : Z; volume : Z }.
Record SchemaFullCandleV1 := mkFullCandle { base_candle : SchemaCandleV1; quote_candle : SchemaCandleV1 }.

Inductive Timeframe := M10 | H1 | H4 | D1 | W1 | M1.

#[global] Instance Timeframe_eq_dec : EqDecision Timeframe.
Proof. solve_decision. Defined.

Definition duration_secs (tf : Timeframe) : Z :=
  match tf with
  | M10 => 10 * 60
  | H1 => 60 * 60
  | H4 => 4 * 60 * 60
  | D1 => 24 * 60 * 60
  | W1 => 7 * 24 * 60 * 60
  | M1 => 30 * 24 * 60 * 60
  end.

Definition code (tf : Timeframe) : bytes :=
  match tf with
  | M10 => bstr "10m" | H1 => bstr "1h" | H4 => bstr "4h" | D1 => bstr "1d" | W1 => bstr "1w" | M1 => bstr "1M"
  end.

Definition active_timeframes : list Timeframe := [M10; H1; H4; D1; W1; M1].

(** The derived [Ord]: the order of the constructors. *)
Definition tf_rank (tf : Timeframe) : Z :=
  match tf with M10 => 0 | H1 => 1 | H4 => 2 | D1 => 3 | W1 => 4 | M1 => 5 end.

#[global] Instance Timeframe_countable : Countable Timeframe.
Proof.
  apply (inj_countable' tf_rank (fun z => nth (Z.to_nat z) active_timeframes M10)). by intros [].
Defined.

(** ** Prices and buckets *)

Definition div_scaled (n d scale : Z) : Z := if d =? 0 then 0 else u128_sat_mul n scale / d.
Definition price_quote_per_base (base_res quote_res : Z) : Z := div_scaled quote_res base_res PRICE_SCALE.
Definition price_base_per_quote (base_res quote_res : Z) : Z := div_scaled base_res quote_res PRICE_SCALE.

Definition bucket_start (ts : Z) (frame : Timeframe) : Z := let d := duration_secs frame in ts / d * d.
Definition bucket_start_for (ts : Z) (frame : Timeframe) : Z := bucket_start ts frame.

(** ** The cache of a block *)

Record CandleKey := mkCandleKey { ck_pool : SchemaAlkaneId; ck_tf : Timeframe; bucket_ts : Z }.

#[global] Instance CandleKey_eq_dec : EqDecision CandleKey.
Proof. solve_decision. Defined.
#[global] Instance CandleKey_countable : Countable CandleKey :=
  inj_countable' (fun k => (ck_pool k, ck_tf k, bucket_ts k)) (fun p => mkCandleKey p.1.1 p.1.2 p.2) ltac:(by intros []).

Definition ckey_leb (a b : CandleKey) : bool :=
  if decide (ck_pool a = ck_pool b) then
    (tf_rank (ck_tf a) <? tf_rank (ck_tf b))
    || ((tf_rank (ck_tf a) =? tf_rank (ck_tf b)) && (bucket_ts a <=? bucket_ts b))
  else aid_leb (ck_pool a) (ck_pool b).

Record DualCandle := mkDual { dc_base : SchemaCandleV1; dc_quote : SchemaCandleV1 }.

Definition dual_new (p_base p_quote : Z) : DualCandle :=
  mkDual (mkCandle p_base p_base p_base p_base 0) (mkCandle p_quote p_quote p_quote p_quote 0).

Definition scale_amount (amount : Z) : Z := u128_sat_mul amount PRICE_SCALE / AMOUNT_SCALE.

Definition candle_update (c : SchemaCandleV1) (p amount : Z) : SchemaCandleV1 :=
  mkCandle (open c) (Z.max (high c) p) (Z.min (low c) p) p (u128_sat_add (volume c) (scale_amount amount)).

Definition dual_update (dc : DualCandle) (p_base p_quote base_in quote_out : Z) : DualCandle :=
  mkDual (candle_update (dc_base dc) p_base base_in) (candle_update (dc_quote dc) p_quote quote_out).

Abbreviation CandleCache := (gmap CandleKey DualCandle).

(** The arguments of one call of [apply_trade_for_frames]. *)
Record Trade := mkTrade {
  tr_ts : Z; tr_pool : SchemaAlkaneId;
  p_b_per_q : Z; p_q_per_b : Z;
  base_volume : Z; quote_volume : Z;
}.

Definition apply_frame (t : Trade) (m : CandleCache) (tf : Timeframe) : CandleCache :=
  let key := mkCandleKey (tr_pool t) tf (bucket_start (tr_ts t) tf) in
  let dc := match m !! key with Some dc => dc | None => dual_new (p_q_per_b t) (p_b_per_q t) end in
  <[key := dual_update dc (p_q_per_b t) (p_b_per_q t) (base_volume t) (quote_volume t)]> m.

Definition apply_trade_for_frames (frames : list Timeframe) (m : CandleCache) (t : Trade) : CandleCache :=
  foldl (apply_frame t) m frames.

(** ** Keys *)

Definition digit (d : Z) : byte := if d <? 10 then z2b (48 + d) else z2b (87 + d).

(** [format!] of an unsigned integer; a [u64] has at most 64 digits in any base. *)
Fixpoint digits (fuel : nat) (base n : Z) (acc : bytes) : bytes :=
  match fuel with
  | O => acc
  | S fuel =>
      let acc := digit (n mod base) :: acc in
      if n / base =? 0 then acc else digits fuel base (n / base) acc
  end.

Definition to_string (n : Z) : bytes := digits 64 10 n [].
Definition to_hex (n : Z) : bytes := digits 64 16 n [].

Definition colon : byte := Byte.x3a.

(** [s.parse::<u64>()]: an optional plus sign, then digits whose value fits. *)
Fixpoint parse_digits (l : bytes) (acc : Z) : option Z :=
  match l with
  | [] => Some acc
  | b :: l =>
      if (48 <=? b2z b) && (b2z b <=? 57) then
        let acc := acc * 10 + (b2z b - 48) in
        if acc <? 2 ^ 64 then parse_digits l acc else None
      else None
  end.

Definition parse_u64 (l : bytes) : option Z :=
  let l := match l with b :: l' => if b2z b =? 43 then l' else l | [] => l end in
  match l with [] => None | _ => parse_digits l 0 end.

(** [k.rsplit(|&b| b == b':').next()] *)
Definition last_segment (k : bytes) : bytes :=
  foldl (fun seg b => if bool_decide (b = colon) then [] else seg ++ [b]) [] k.

Definition candle_ns_prefix (pool : SchemaAlkaneId) (tf : Timeframe) : bytes :=
  bstr "fc1:" ++ to_hex (ak_block pool) ++ [colon] ++ to_hex (ak_tx pool) ++ [colon] ++ code tf ++ [colon].

Definition candle_key (pool : SchemaAlkaneId) (tf : Timeframe) (ts : Z) : bytes :=
  candle_ns_prefix pool tf ++ to_string ts.

#[global] Arguments to_string : simpl never.
#[global] Arguments to_hex : simpl never.
#[global] Arguments candle_ns_prefix : simpl never.
#[global] Arguments candle_key : simpl never.

(** ** Rows *)

Class CandleCodec := {
  encode_full_candle_v1 : SchemaFullCandleV1 -> bytes;
  decode_full_candle_v1 : bytes -> option SchemaFullCandleV1;
}.

Definition in_u128 (z : Z) : Prop := 0 <= z < u128_mod.
Definition candle_u128 (c : SchemaCandleV1) : Prop :=
  in_u128 (open c) /\ in_u128 (high c) /\ in_u128 (low c) /\ in_u128 (close c) /\ in_u128 (volume c).
Definition full_u128 (c : SchemaFullCandleV1) : Prop := candle_u128 (base_candle c) /\ candle_u128 (quote_candle c).

(** What borsh promises of a candle: its ten [u128] are read back as written, and what is
    read is ten [u128]. *)
Class CandleCodecLaws `{CandleCodec} := {
  candle_codec_u128 raw c : decode_full_candle_v1 raw = Some c -> full_u128 c;
  candle_codec_roundtrip c : full_u128 c -> decode_full_candle_v1 (encode_full_candle_v1 c) = Some c;
}.

Abbreviation Namespace := (gmap bytes bytes).

Section Rows.
Context `{CandleCodec}.

(** The existing candle with the cached one: the same lines for the base and the quote. *)
Definition merge_candle (existing new : SchemaCandleV1) : SchemaCandleV1 :=
  mkCandle (open existing) (Z.max (high existing) (high new)) (Z.min (low existing) (low new)) (close new)
    (u128_sat_add (volume existing) (volume new)).

Definition merge_row (kv : Namespace) (k : bytes) (dc_new : DualCandle) : option SchemaFullCandleV1 :=
  match kv !! k with
  | Some raw =>
      existing ← decode_full_candle_v1 raw;
      Some (mkFullCandle (merge_candle (base_candle existing) (dc_base dc_new))
                         (merge_candle (quote_candle existing) (dc_quote dc_new)))
  | None => Some (mkFullCandle (dc_base dc_new) (dc_quote dc_new))
  end.

Definition cache_entries (m : CandleCache) : list (CandleKey * DualCandle) :=
  sort_by (fun a b => ckey_leb a.1 b.1) (map_to_list m).

Definition into_writes_with_entries (kv : Namespace) (m : CandleCache)
    : option (list (bytes * bytes) * list (CandleKey * SchemaFullCandleV1)) :=
  rows ← mapM (fun e : CandleKey * DualCandle =>
                 let k := candle_key (ck_pool e.1) (ck_tf e.1) (bucket_ts e.1) in
                 merged ← merge_row kv k e.2; Some ((k, encode_full_candle_v1 merged), (e.1, merged)))
           (cache_entries m);
  Some (rows.*1, rows.*2).

Definition into_writes (kv : Namespace) (m : CandleCache) : option (list (bytes * bytes)) :=
  '(writes, _) ← into_writes_with_entries kv m; Some writes.

Definition apply_puts (kv : Namespace) (puts : list (bytes * bytes)) : Namespace :=
  foldl (fun kv p => <[p.1 := p.2]> kv) kv puts.

(** ** The reader *)

Inductive PriceSide := Base | Quote.

Record CandleSlice := mkSlice { candles_newest_first : list SchemaCandleV1; newest_ts : Z }.

Definition get_list_entries_desc (kv : Namespace) (prefix : bytes) : list (bytes * bytes) :=
  reverse (sort_by (fun a b => bytes_leb a.1 b.1) (filter (fun e => starts_with e.1 prefix = true) (map_to_list kv))).

(** The rows under the prefix by the timestamp at the end of their key; the first of two
    with the same timestamp stays. *)
Fixpoint collect_buckets (entries : list (bytes * bytes)) (acc : gmap Z SchemaFullCandleV1)
    : option (gmap Z SchemaFullCandleV1) :=
  match entries with
  | [] => Some acc
  | (k, v) :: entries =>
      match parse_u64 (last_segment k) with
      | Some ts =>
          fc ← decode_full_candle_v1 v;
          collect_buckets entries (match acc !! ts with Some _ => acc | None => <[ts := fc]> acc end)
      | None => collect_buckets entries acc
      end
  end.

Definition side_candle (side : PriceSide) (fc : SchemaFullCandleV1) : SchemaCandleV1 :=
  match side with Base => base_candle fc | Quote => quote_candle fc end.

Definition chain_open (c : SchemaCandleV1) (last_close : Z) : SchemaCandleV1 :=
  mkCandle last_close
    (if high c <? last_close then last_close else high c)
    (if last_close <? low c then last_close else low c)
    (close c) (volume c).

Definition flat (last_close : Z) : SchemaCandleV1 := mkCandle last_close last_close last_close last_close 0.

Definition u64_checked_add (a b : Z) : option Z := if a + b <? 2 ^ 64 then Some (a + b) else None.

(** The loop over the buckets with data.  The candles are inserted in a [BTreeMap] at
    increasing timestamps: the list of them, oldest first. *)
Fixpoint fill (fuel : nat) (per_bucket : gmap Z SchemaFullCandleV1) (side : PriceSide) (dur newest bts : Z)
    (have_prev : bool) (last_close : Z) : option (list SchemaCandleV1 * Z) :=
  match fuel with
  | O => None
  | S fuel =>
      if bts <=? newest then
        let '(c, last_close) :=
          match per_bucket !! bts with
          | Some fc =>
              let c := side_candle side fc in
              let c := if have_prev then chain_open c last_close else c in (c, close c)
          | None => (flat last_close, last_close)
          end in
        match u64_checked_add bts dur with
        | Some n => '(cs, last) ← fill fuel per_bucket side dur newest n true last_close; Some (c :: cs, last)
        | None => Some ([c], last_close)
        end
      else Some ([], last_close)
  end.

Fixpoint fill_now (fuel : nat) (dur now t last_close : Z) : option (list SchemaCandleV1) :=
  match fuel with
  | O => None
  | S fuel =>
      if t <=? now then
        match u64_checked_add t dur with
        | Some n => cs ← fill_now fuel dur now n last_close; Some (flat last_close :: cs)
        | None => Some [flat last_close]
        end
      else Some []
  end.

Definition min_key (m : gmap Z SchemaFullCandleV1) : option Z :=
  match (map_to_list m).*1 with [] => None | k :: ks => Some (foldr Z.min k ks) end.
Definition max_key (m : gmap Z SchemaFullCandleV1) : option Z :=
  match (map_to_list m).*1 with [] => None | k :: ks => Some (foldr Z.max k ks) end.

(** Rounds of a loop from [a] to [b] by [dur]. *)
Definition rounds (a b dur : Z) : nat := S (S (Z.to_nat ((b - a) / dur))).

Definition read_candles_v1 (kv : Namespace) (pool : SchemaAlkaneId) (tf : Timeframe) (now_ts : Z) (side : PriceSide)
    : option CandleSlice :=
  let dur := duration_secs tf in
  per_bucket ← collect_buckets (get_list_entries_desc kv (candle_ns_prefix pool tf)) ∅;
  match min_key per_bucket, max_key per_bucket with
  | Some start_bucket, Some newest_bucket_with_data =>
      let newest_bucket_now := now_ts / dur * dur in
      '(forward, last_close) ←
        fill (rounds start_bucket newest_bucket_with_data dur) per_bucket side dur newest_bucket_with_data start_bucket false 0;
      later ← (if newest_bucket_with_data <? newest_bucket_now then
                 fill_now (rounds newest_bucket_with_data newest_bucket_now dur) dur newest_bucket_now
                   (u64_sat_add newest_bucket_with_data dur) last_close
               else Some []);
      Some (mkSlice (reverse (forward ++ later)) newest_bucket_now)
  | _, _ => Some (mkSlice [] 0)
  end.

End Rows.
