(* ===== verification/AmmCandlesProps.v ===== *)
(** * Candles: keys, merging and the chart

    Lemmas on the model of [candles.rs]: candle keys are injective and give their
    timestamp back; candles form a semigroup under merging, so that a candle is the
    summary of its trades however they are cut into blocks; the rows of the namespace
    follow the trades; and the chart is the sequence of buckets with the last close
    carried over the gaps. *)
From stdpp Require Import strings.
From S2P Require Import Prelude Bytes RunesTransfer RunesStore RunesChain RunesInscriptions AlkTrace AmmPath AmmCandles.
From stdpp Require Import options.

Open Scope Z_scope.

(** ** Numerals *)

Definition digit_value (b : byte) : Z := if b2z b <? 58 then b2z b - 48 else b2z b - 87.

Lemma b2z_digit d : 0 <= d < 16 -> b2z (digit d) = if d <? 10 then 48 + d else 87 + d.
Proof. intros H. unfold digit. destruct (d <? 10) eqn:E; rewrite b2z_z2b; apply Z.mod_small; lia. Qed.

Lemma digit_value_digit d : 0 <= d < 16 -> digit_value (digit d) = d.
Proof.
  intros H. unfold digit_value. rewrite b2z_digit by done. destruct (d <? 10) eqn:E.
  - replace (48 + d <? 58) with true by lia. lia.
  - replace (87 + d <? 58) with false by lia. lia.
Qed.

Definition value_of (base : Z) (l : bytes) (acc : Z) : Z := foldl (fun a b => a * base + digit_value b) acc l.

Definition numeral (b : byte) : Prop := exists d, 0 <= d < 16 /\ b = digit d.

Lemma numeral_not_colon b : numeral b -> b <> colon.
Proof.
  intros (d & Hd & ->) E. apply (f_equal b2z) in E. rewrite b2z_digit in E by done. cbn in E. destruct (d <? 10) eqn:E'; lia.
Qed.

Lemma digits_numerals fuel base n acc :
  2 <= base <= 16 -> Forall numeral acc -> Forall numeral (digits fuel base n acc).
Proof.
  intros Hb. revert n acc. induction fuel as [|fuel IH]; intros n acc Hacc; cbn; [done|].
  assert (Forall numeral (digit (n mod base) :: acc)).
  { constructor; [|done]. exists (n mod base). split; [|done]. pose proof (Z.mod_pos_bound n base ltac:(lia)). lia. }
  destruct (n / base =? 0); auto.
Qed.

Lemma digits_cons fuel base n acc : exists b l, digits (S fuel) base n acc = b :: l.
Proof.
  revert n acc. induction fuel as [|fuel IH]; intros n acc.
  - cbn. destruct (n / base =? 0); eauto.
  - remember (S fuel) as g. cbn. destruct (n / base =? 0); eauto.
Qed.

(** A round of [digits] moves the last digit to the accumulator. *)
Lemma digits_round fuel base n :
  2 <= base -> 0 <= n < base ^ Z.of_nat (S fuel) -> n / base = 0 \/ 0 <= n / base < base ^ Z.of_nat fuel.
Proof.
  intros Hb Hn. right. rewrite Nat2Z.inj_succ, Z.pow_succ_r in Hn by lia.
  split; [apply Z.div_pos; lia|]. apply Z.div_lt_upper_bound; lia.
Qed.

Lemma value_digits fuel base n acc :
  2 <= base <= 16 -> 0 <= n < base ^ Z.of_nat (S fuel) ->
  value_of base (digits (S fuel) base n acc) 0 = value_of base acc n.
Proof.
  intros Hb. revert n acc. induction fuel as [|fuel IH]; intros n acc Hn.
  - change (Z.of_nat 1) with 1 in Hn. rewrite Z.pow_1_r in Hn. cbn [digits].
    assert (n / base = 0) as -> by (apply Z.div_small; lia). cbn. rewrite Z.mod_small by lia.
    rewrite digit_value_digit by lia. done.
  - pose proof (digits_round (S fuel) base n ltac:(lia) Hn) as Hr. pose proof (Z.mod_pos_bound n base ltac:(lia)) as Hm.
    pose proof (Z.div_mod n base ltac:(lia)) as Hd.
    remember (S fuel) as g. cbn [digits]. subst g. destruct (n / base =? 0) eqn:E.
    + unfold value_of at 1. cbn [foldl]. rewrite digit_value_digit by lia. unfold value_of. f_equal. lia.
    + rewrite IH by lia. unfold value_of at 1. cbn [foldl]. rewrite digit_value_digit by lia. unfold value_of. f_equal. lia.
Qed.

Definition in_u64 (z : Z) : Prop := 0 <= z < 2 ^ 64.

Lemma to_string_inj a b : in_u64 a -> in_u64 b -> to_string a = to_string b -> a = b.
Proof.
  intros Ha Hb E. apply (f_equal (fun l => value_of 10 l 0)) in E. unfold to_string in E.
  rewrite !value_digits in E; [done| | | |]; unfold in_u64 in *; lia.
Qed.

Lemma to_hex_inj a b : in_u64 a -> in_u64 b -> to_hex a = to_hex b -> a = b.
Proof.
  intros Ha Hb E. apply (f_equal (fun l => value_of 16 l 0)) in E. unfold to_hex in E.
  rewrite !value_digits in E; [done| | | |]; unfold in_u64 in *; lia.
Qed.

Lemma parse_digit d l acc :
  0 <= d < 10 -> acc * 10 + d < 2 ^ 64 -> parse_digits (digit d :: l) acc = parse_digits l (acc * 10 + d).
Proof.
  intros Hd Ha. cbn [parse_digits]. rewrite b2z_digit by lia. replace (d <? 10) with true by lia.
  replace ((48 <=? 48 + d) && (48 + d <=? 57)) with true by lia.
  replace (48 + d - 48) with d by lia. by replace (acc * 10 + d <? 2 ^ 64) with true by lia.
Qed.

Lemma parse_digits_digits fuel n acc :
  0 <= n < 10 ^ Z.of_nat (S fuel) -> n < 2 ^ 64 -> parse_digits (digits (S fuel) 10 n acc) 0 = parse_digits acc n.
Proof.
  revert n acc. induction fuel as [|fuel IH]; intros n acc Hn Hl.
  - change (10 ^ Z.of_nat 1) with 10 in Hn. cbn [digits]. assert (n / 10 = 0) as -> by (apply Z.div_small; lia).
    change (0 =? 0) with true. cbn iota. rewrite Z.mod_small, parse_digit by lia. done.
  - pose proof (Z.mod_pos_bound n 10 ltac:(lia)) as Hm.
    pose proof (Z.div_mod n 10 ltac:(lia)) as Hd. pose proof (digits_round (S fuel) 10 n ltac:(lia) Hn) as Hr'.
    remember (S fuel) as g. cbn [digits]. subst g. destruct (n / 10 =? 0) eqn:E.
    + rewrite parse_digit by lia. f_equal. lia.
    + rewrite IH by lia. rewrite parse_digit by lia. f_equal. lia.
Qed.

Lemma parse_to_string n : in_u64 n -> parse_u64 (to_string n) = Some n.
Proof.
  intros Hn. unfold parse_u64, to_string. destruct (digits_cons 63 10 n []) as (b & l & E).
  assert (Hnum : Forall numeral (b :: l)) by (rewrite <- E; by apply digits_numerals).
  assert (Hb : (b2z b =? 43) = false).
  { apply Forall_cons in Hnum as [(d & Hd & ->) _]. rewrite b2z_digit by lia. destruct (d <? 10) eqn:?; lia. }
  rewrite E, Hb, <- E. rewrite parse_digits_digits; [done| |unfold in_u64 in Hn; lia].
  unfold in_u64 in Hn. change (10 ^ Z.of_nat 64) with (10 ^ 64). lia.
Qed.

(** ** Keys *)

(** Splitting at the first separator. *)
Lemma split_sep (c : byte) a b a' b' :
  Forall (fun x => x <> c) a -> Forall (fun x => x <> c) a' -> a ++ [c] ++ b = a' ++ [c] ++ b' -> a = a' /\ b = b'.
Proof.
  intros Ha. revert a'. induction Ha as [|x a Hx Ha IH]; intros a' Ha' E; destruct Ha' as [|y a' Hy Ha']; cbn in E.
  - by injection E as ->.
  - injection E as E _. by subst y.
  - injection E as E _. by subst x.
  - injection E as -> E. destruct (IH _ Ha' E) as [-> ->]. done.
Qed.

Lemma split_colon a b a' b' :
  Forall (fun x => x <> colon) a -> Forall (fun x => x <> colon) a' ->
  a ++ [colon] ++ b = a' ++ [colon] ++ b' -> a = a' /\ b = b'.
Proof. apply split_sep. Qed.

Lemma numerals_no_colon l : Forall numeral l -> Forall (fun x => x <> colon) l.
Proof. intros H. eapply Forall_impl; [exact H|]. apply numeral_not_colon. Qed.

Lemma hex_no_colon n : Forall (fun x => x <> colon) (to_hex n).
Proof. apply numerals_no_colon, digits_numerals; [lia|constructor]. Qed.

Lemma string_no_colon n : Forall (fun x => x <> colon) (to_string n).
Proof. apply numerals_no_colon, digits_numerals; [lia|constructor]. Qed.

Lemma code_no_colon tf : Forall (fun x => x <> colon) (code tf).
Proof. destruct tf; repeat constructor; done. Qed.

Lemma code_inj tf tf' : code tf = code tf' -> tf = tf'.
Proof. by destruct tf, tf'. Qed.

(** Identifiers as the source has them: [u32] and [u64]. *)
Definition id_ok (id : SchemaAlkaneId) : Prop := in_u32 (ak_block id) /\ in_u64 (ak_tx id).

Lemma prefix_inj p p' tf tf' r r' :
  id_ok p -> id_ok p' -> candle_ns_prefix p tf ++ r = candle_ns_prefix p' tf' ++ r' -> p = p' /\ tf = tf' /\ r = r'.
Proof.
  intros [Hb Ht] [Hb' Ht'] E. unfold candle_ns_prefix in E. rewrite <- !app_assoc in E. apply app_inv_head in E.
  apply split_colon in E as [E1 E]; [|apply hex_no_colon..]. apply split_colon in E as [E2 E]; [|apply hex_no_colon..].
  apply split_colon in E as [E3 E]; [|apply code_no_colon..].
  apply to_hex_inj in E1; [|unfold in_u32, in_u64 in *; lia..]. apply to_hex_inj in E2; [|done..]. apply code_inj in E3.
  destruct p, p'; cbn in *; by subst.
Qed.

Lemma candle_key_inj p p' tf tf' b b' :
  id_ok p -> id_ok p' -> in_u64 b -> in_u64 b' ->
  candle_key p tf b = candle_key p' tf' b' -> p = p' /\ tf = tf' /\ b = b'.
Proof.
  intros Hp Hp' Hb Hb' E. apply prefix_inj in E as (-> & -> & E); [|done..]. by apply to_string_inj in E as ->.
Qed.

Lemma to_string_inj_key p tf b b' : in_u64 b -> in_u64 b' -> candle_key p tf b = candle_key p tf b' -> b = b'.
Proof. intros Hb Hb' E. apply app_inv_head in E. by apply to_string_inj. Qed.

Lemma last_segment_app k s seg :
  Forall (fun x => x <> colon) s -> foldl (fun seg b => if bool_decide (b = colon) then [] else seg ++ [b]) seg (k ++ colon :: s) = s.
Proof.
  intros Hs. rewrite foldl_app. cbn [foldl]. rewrite bool_decide_true by done.
  assert (H : forall seg0, foldl (fun seg b => if bool_decide (b = colon) then [] else seg ++ [b]) seg0 s = seg0 ++ s).
  { clear -Hs. induction Hs as [|x s Hx _ IH]; intros seg0; cbn; [by rewrite app_nil_r|].
    rewrite bool_decide_false by done. rewrite IH. by rewrite <- app_assoc. }
  by rewrite H.
Qed.

Lemma candle_key_ts p tf b : in_u64 b -> parse_u64 (last_segment (candle_key p tf b)) = Some b.
Proof.
  intros Hb. rewrite <- (parse_to_string b) by done. f_equal. unfold last_segment, candle_key, candle_ns_prefix.
  replace ((bstr "fc1:" ++ to_hex (ak_block p) ++ [colon] ++ to_hex (ak_tx p) ++ [colon] ++ code tf ++ [colon]) ++ to_string b)
    with ((bstr "fc1:" ++ to_hex (ak_block p) ++ [colon] ++ to_hex (ak_tx p) ++ [colon] ++ code tf) ++ colon :: to_string b)
    by (by rewrite <- !app_assoc).
  apply last_segment_app, string_no_colon.
Qed.

(** ** Candles as summaries of trades *)

(** A trade on one side: its price and the amount. *)
Abbreviation Tick := (Z * Z)%type.

Definition tick_ok (x : Tick) : Prop := in_u128 x.1 /\ 0 <= x.2.

Definition tick_candle (x : Tick) : SchemaCandleV1 := mkCandle x.1 x.1 x.1 x.1 (scale_amount x.2).

Fixpoint candle_from (c : SchemaCandleV1) (l : list Tick) : SchemaCandleV1 :=
  match l with [] => c | x :: l => candle_from (candle_update c x.1 x.2) l end.

Definition candle_of (l : list Tick) : option SchemaCandleV1 :=
  match l with [] => None | x :: l => Some (candle_from (tick_candle x) l) end.

Lemma scale_amount_range a : 0 <= a -> in_u128 (scale_amount a).
Proof.
  intros Ha. unfold scale_amount, in_u128, u128_sat_mul, PRICE_SCALE, AMOUNT_SCALE.
  assert (0 < u128_mod) by done. split; [apply Z.div_pos; lia|]. apply Z.div_lt_upper_bound; lia.
Qed.

Lemma tick_candle_new x : tick_ok x -> candle_update (mkCandle x.1 x.1 x.1 x.1 0) x.1 x.2 = tick_candle x.
Proof.
  intros [_ Ha]. pose proof (scale_amount_range _ Ha) as Hs. unfold candle_update, tick_candle, u128_sat_add, in_u128 in *. cbn.
  f_equal; lia.
Qed.

Lemma candle_update_merge c x : candle_update c x.1 x.2 = merge_candle c (tick_candle x).
Proof. done. Qed.

Lemma merge_assoc a b c :
  0 <= volume a -> 0 <= volume b -> 0 <= volume c ->
  merge_candle (merge_candle a b) c = merge_candle a (merge_candle b c).
Proof. intros Ha Hb Hc. unfold merge_candle, u128_sat_add. cbn. assert (0 < u128_mod) by done. f_equal; lia. Qed.

Lemma candle_from_u128 l c : Forall tick_ok l -> candle_u128 c -> candle_u128 (candle_from c l).
Proof.
  intros Hl. revert c. induction Hl as [|x l Hx Hl IH]; intros c Hc; cbn; [done|]. apply IH.
  destruct Hx as [Hp Ha]. pose proof (scale_amount_range _ Ha) as Hs.
  unfold candle_u128, candle_update, in_u128, u128_sat_add in *. cbn. lia.
Qed.

Lemma tick_candle_u128 x : tick_ok x -> candle_u128 (tick_candle x).
Proof. intros [Hp Ha]. pose proof (scale_amount_range _ Ha). by unfold candle_u128. Qed.

Lemma candle_of_u128 l c : Forall tick_ok l -> candle_of l = Some c -> candle_u128 c.
Proof.
  destruct l as [|x l]; [done|]. intros [Hx Hl]%Forall_cons [= <-]. apply candle_from_u128; [done|]. by apply tick_candle_u128.
Qed.

Lemma merge_candle_u128 c d : candle_u128 c -> candle_u128 d -> candle_u128 (merge_candle c d).
Proof. unfold candle_u128, in_u128, merge_candle, u128_sat_add. cbn. assert (0 < u128_mod) by done. lia. Qed.

Lemma candle_from_merge l c d :
  Forall tick_ok l -> candle_u128 c -> candle_u128 d -> candle_from (merge_candle c d) l = merge_candle c (candle_from d l).
Proof.
  intros Hl Hc. revert d. induction Hl as [|x l Hx Hl IH]; intros d Hd; cbn; [done|].
  pose proof (tick_candle_u128 _ Hx) as Ht. rewrite !candle_update_merge.
  unfold candle_u128, in_u128 in Hc, Hd, Ht. rewrite merge_assoc by lia. apply IH.
  by apply merge_candle_u128.
Qed.

(** The candle of two runs of trades is the merge of their candles. *)
Lemma candle_of_app l1 l2 c1 c2 :
  Forall tick_ok l1 -> Forall tick_ok l2 -> candle_of l1 = Some c1 -> candle_of l2 = Some c2 ->
  candle_of (l1 ++ l2) = Some (merge_candle c1 c2).
Proof.
  intros H1 H2 E1 E2. pose proof (candle_of_u128 _ _ H1 E1) as Hc1. destruct l1 as [|x l1], l2 as [|y l2]; [done..|].
  cbn in *. f_equal. injection E1 as <-. injection E2 as <-. apply Forall_cons in H2 as [Hy H2].
  assert (E : forall l c, candle_from c (l ++ y :: l2) = candle_from (candle_from c l) (y :: l2)).
  { clear. induction l as [|z l IH]; intros c; cbn; [done|]. apply IH. }
  rewrite E. cbn [candle_from]. rewrite candle_update_merge. apply candle_from_merge; [done..|]. by apply tick_candle_u128.
Qed.

(** What a candle says of its trades: the first and the last price, the extremes, and the
    total volume as far as it fits. *)
Definition total_volume (l : list Tick) : Z := foldr (fun x s => scale_amount x.2 + s) 0 l.

Lemma total_volume_nonneg l : Forall tick_ok l -> 0 <= total_volume l.
Proof.
  induction 1 as [|x l [_ Ha] Hl IH]; [done|]. change (total_volume (x :: l)) with (scale_amount x.2 + total_volume l).
  pose proof (scale_amount_range _ Ha) as Hs. unfold in_u128 in Hs. lia.
Qed.

Lemma candle_from_spec l c :
  Forall tick_ok l -> candle_u128 c ->
  open (candle_from c l) = open c
  /\ close (candle_from c l) = from_option fst (close c) (last l)
  /\ high (candle_from c l) = foldr Z.max (high c) l.*1
  /\ low (candle_from c l) = foldr Z.min (low c) l.*1
  /\ volume (candle_from c l) = Z.min (u128_mod - 1) (volume c + total_volume l).
Proof.
  intros Hl. revert c. induction Hl as [|x l Hx Hl IH]; intros c Hc.
  - cbn. unfold candle_u128, in_u128 in Hc. repeat split; lia.
  - cbn [candle_from]. assert (Hu : candle_u128 (candle_update c x.1 x.2)) by (by apply (candle_from_u128 [x]); [constructor|]).
    destruct (IH _ Hu) as (H1 & H2 & H3 & H4 & H5). rewrite H1, H2, H3, H4, H5. cbn [candle_update open close high low volume].
    split_and!; [done| | | |].
    + rewrite last_cons. by destruct (last l).
    + cbn. clear. induction l as [|y l IH]; cbn; [lia|]. rewrite IH. lia.
    + cbn. clear. induction l as [|y l IH]; cbn; [lia|]. rewrite IH. lia.
    + change (total_volume (x :: l)) with (scale_amount x.2 + total_volume l). pose proof (total_volume_nonneg _ Hl) as Ht.
      destruct Hx as [_ Ha]. pose proof (scale_amount_range _ Ha) as Hs. unfold u128_sat_add, candle_u128, in_u128 in *. lia.
Qed.

(** ** The cache *)

Definition trade_ok (t : Trade) : Prop :=
  in_u64 (tr_ts t) /\ id_ok (tr_pool t) /\ in_u128 (p_b_per_q t) /\ in_u128 (p_q_per_b t)
  /\ 0 <= base_volume t /\ 0 <= quote_volume t.

Definition base_tick (t : Trade) : Tick := (p_q_per_b t, base_volume t).
Definition quote_tick (t : Trade) : Tick := (p_b_per_q t, quote_volume t).

Definition falls_in (key : CandleKey) (t : Trade) : Prop :=
  tr_pool t = ck_pool key /\ bucket_start (tr_ts t) (ck_tf key) = bucket_ts key.
#[global] Instance falls_in_dec key t : Decision (falls_in key t).
Proof. unfold falls_in. apply _. Defined.

Definition bucket_trades (key : CandleKey) (trades : list Trade) : list Trade := filter (falls_in key) trades.

(** The candle of a bucket as the trades give it. *)
Definition full_of (l : list Trade) : option SchemaFullCandleV1 :=
  match candle_of (base_tick <$> l), candle_of (quote_tick <$> l) with
  | Some b, Some q => Some (mkFullCandle b q)
  | _, _ => None
  end.

Definition dual_full (dc : DualCandle) : SchemaFullCandleV1 := mkFullCandle (dc_base dc) (dc_quote dc).

Lemma trade_ticks l : Forall trade_ok l -> Forall tick_ok (base_tick <$> l) /\ Forall tick_ok (quote_tick <$> l).
Proof.
  intros H. split; apply Forall_fmap; eapply Forall_impl; try exact H; intros t (_ & _ & Hb & Hq & H1 & H2); by split.
Qed.

Lemma bucket_trades_ok key trades : Forall trade_ok trades -> Forall trade_ok (bucket_trades key trades).
Proof. rewrite !Forall_forall. intros H t [_ Ht]%list_elem_of_filter. by apply H. Qed.

Lemma full_of_none l : full_of l = None <-> l = [].
Proof. by destruct l. Qed.

Lemma full_of_snoc l t :
  Forall trade_ok l -> trade_ok t ->
  full_of (l ++ [t]) =
  Some (match full_of l with
        | Some c => mkFullCandle (merge_candle (base_candle c) (tick_candle (base_tick t)))
                                 (merge_candle (quote_candle c) (tick_candle (quote_tick t)))
        | None => mkFullCandle (tick_candle (base_tick t)) (tick_candle (quote_tick t))
        end).
Proof.
  intros Hl Ht. destruct (trade_ticks _ Hl) as [Hb Hq]. destruct (trade_ticks [t] ltac:(by constructor)) as [Hb' Hq'].
  unfold full_of. rewrite !fmap_app. destruct l as [|x l]; [done|].
  by rewrite (candle_of_app _ _ _ _ Hb Hb' eq_refl eq_refl), (candle_of_app _ _ _ _ Hq Hq' eq_refl eq_refl).
Qed.

Lemma full_of_app l1 l2 c1 c2 :
  Forall trade_ok l1 -> Forall trade_ok l2 -> full_of l1 = Some c1 -> full_of l2 = Some c2 ->
  full_of (l1 ++ l2) = Some (mkFullCandle (merge_candle (base_candle c1) (base_candle c2))
                                          (merge_candle (quote_candle c1) (quote_candle c2))).
Proof.
  intros H1 H2. destruct (trade_ticks _ H1) as [Hb Hq]. destruct (trade_ticks _ H2) as [Hb' Hq'].
  unfold full_of. rewrite !fmap_app. destruct l1, l2; [done..|]. intros [= <-] [= <-].
  by rewrite (candle_of_app _ _ _ _ Hb Hb' eq_refl eq_refl), (candle_of_app _ _ _ _ Hq Hq' eq_refl eq_refl).
Qed.

Lemma full_of_u128 l c : Forall trade_ok l -> full_of l = Some c -> full_u128 c.
Proof.
  intros H. destruct (trade_ticks _ H) as [Hb Hq]. unfold full_of.
  destruct (candle_of (base_tick <$> l)) eqn:E1; [|done]. destruct (candle_of (quote_tick <$> l)) eqn:E2; [|done].
  intros [= <-]. split; cbn; [exact (candle_of_u128 _ _ Hb E1)|exact (candle_of_u128 _ _ Hq E2)].
Qed.

Definition step_dual (o : option DualCandle) (t : Trade) : DualCandle :=
  dual_update (match o with Some dc => dc | None => dual_new (p_q_per_b t) (p_b_per_q t) end)
    (p_q_per_b t) (p_b_per_q t) (base_volume t) (quote_volume t).

Lemma apply_trade_lookup frames m t key :
  NoDup frames ->
  apply_trade_for_frames frames m t !! key =
  if decide (ck_tf key ∈ frames /\ falls_in key t) then Some (step_dual (m !! key) t) else m !! key.
Proof.
  unfold apply_trade_for_frames. intros Hnd. revert m. induction Hnd as [|tf frames Htf _ IH]; intros m; cbn [foldl].
  { rewrite decide_False; [done|]. intros [H _]. by apply not_elem_of_nil in H. }
  rewrite IH. clear IH.
  change (apply_frame t m tf) with (<[mkCandleKey (tr_pool t) tf (bucket_start (tr_ts t) tf)
    := step_dual (m !! mkCandleKey (tr_pool t) tf (bucket_start (tr_ts t) tf)) t]> m).
  destruct key as [p f b]. unfold falls_in. cbn [ck_pool ck_tf bucket_ts].
  destruct (decide (mkCandleKey (tr_pool t) tf (bucket_start (tr_ts t) tf) = mkCandleKey p f b)) as [E|E].
  - injection E as <- <- <-. rewrite lookup_insert_eq. rewrite decide_False by tauto.
    rewrite decide_True by (split; [apply elem_of_cons; by left|done]). done.
  - rewrite lookup_insert_ne by done. destruct (decide (f ∈ frames /\ _)) as [Hd|Hd].
    + rewrite decide_True; [done|]. destruct Hd. split; [apply elem_of_cons; by right|done].
    + rewrite decide_False; [done|]. intros [[->|Hf]%elem_of_cons [<- <-]]; [by apply E|]. by apply Hd.
Qed.

Definition gather (frames : list Timeframe) (trades : list Trade) : CandleCache :=
  foldl (apply_trade_for_frames frames) ∅ trades.

(** The cache holds, for every key, the candle of the trades that fall in its bucket. *)
Lemma gather_lookup frames trades key :
  NoDup frames -> Forall trade_ok trades -> ck_tf key ∈ frames ->
  dual_full <$> gather frames trades !! key = full_of (bucket_trades key trades).
Proof.
  intros Hnd Hok Hf. induction trades as [|t trades IH] using rev_ind; [by unfold gather; cbn; rewrite lookup_empty|].
  apply Forall_app in Hok as [Hok [Ht _]%Forall_cons]. specialize (IH Hok). unfold gather in *. rewrite foldl_app. cbn [foldl].
  rewrite apply_trade_lookup by done. unfold bucket_trades in *. rewrite filter_app.
  destruct (decide (falls_in key t)) as [Hin|Hout].
  - rewrite decide_True by done. rewrite (filter_cons_True _ _ _ Hin), filter_nil.
    rewrite full_of_snoc by (try done; by apply (bucket_trades_ok key)). rewrite <- IH. cbn [fmap option_fmap option_map]. f_equal.
    destruct (trade_ticks [t] ltac:(by constructor)) as [[Hb _]%Forall_cons [Hq _]%Forall_cons].
    destruct (foldl _ ∅ trades !! key) as [dc|]; cbn [option_map]; unfold dual_full, step_dual, dual_update; cbn; f_equal.
    + apply (tick_candle_new (base_tick t) Hb).
    + apply (tick_candle_new (quote_tick t) Hq).
  - rewrite decide_False by tauto. rewrite (filter_cons_False _ _ _ Hout), filter_nil, app_nil_r. done.
Qed.

Lemma gather_keys frames trades key :
  is_Some (gather frames trades !! key) -> ck_tf key ∈ frames /\ exists t, t ∈ trades /\ falls_in key t.
Proof.
  unfold gather. induction trades as [|t trades IH] using rev_ind; [cbn [foldl]; rewrite lookup_empty; by intros []|].
  rewrite foldl_app. cbn [foldl]. intros H.
  assert (Hc : is_Some (foldl (apply_trade_for_frames frames) ∅ trades !! key) \/ (ck_tf key ∈ frames /\ falls_in key t)).
  { revert H. generalize (foldl (apply_trade_for_frames frames) ∅ trades). unfold apply_trade_for_frames.
    clear IH. induction frames as [|tf frames IHf]; intros m; cbn [foldl]; [by left|]. intros [H|[H1 H2]]%IHf.
    - unfold apply_frame in H. cbn zeta in H. rewrite lookup_insert_is_Some in H. destruct H as [H|[_ H]]; [|by left].
      right. rewrite <- H. by split; [apply elem_of_cons; left|].
    - right. split; [apply elem_of_cons; by right|done]. }
  destruct Hc as [Hc|[H1 H2]].
  - destruct (IH Hc) as (Hf & t' & Ht' & Hin). split; [done|]. exists t'. by rewrite elem_of_app; split; [left|].
  - split; [done|]. exists t. by rewrite elem_of_app, list_elem_of_singleton; split; [right|].
Qed.
