(* ===== verification/AmmChart.v ===== *)
(** * Candle rows and charts

    The rows of the namespace follow the trades block after block, and the chart read from
    them is the sequence of all buckets from the first trade to now. *)
From stdpp Require Import strings.
From S2P Require Import Prelude Bytes RunesTransfer RunesStore RunesChain RunesInscriptions AlkTrace AmmPath AmmCandles AmmCandlesProps.
From stdpp Require Import options.

Open Scope Z_scope.

(** ** Puts *)

Lemma candle_puts_app kv p1 p2 : apply_puts kv (p1 ++ p2) = apply_puts (apply_puts kv p1) p2.
Proof. apply foldl_app. Qed.

Lemma apply_puts_out puts kv k : k ∉ puts.*1 -> apply_puts kv puts !! k = kv !! k.
Proof.
  revert kv. induction puts as [|[k' v] puts IH]; intros kv; [done|]. cbn. intros [Hne Hin]%not_elem_of_cons.
  rewrite IH by done. by rewrite lookup_insert_ne.
Qed.

Lemma apply_puts_in puts kv k v : NoDup puts.*1 -> (k, v) ∈ puts -> apply_puts kv puts !! k = Some v.
Proof.
  revert kv. induction puts as [|[k' v'] puts IH]; intros kv Hnd Hin; [by apply not_elem_of_nil in Hin|].
  cbn in Hnd. apply NoDup_cons in Hnd as [Hk' Hnd]. cbn. apply elem_of_cons in Hin as [[= -> ->]|Hin]; [|by apply IH].
  rewrite apply_puts_out by done. by rewrite lookup_insert_eq.
Qed.

Lemma apply_puts_inv puts kv k v : apply_puts kv puts !! k = Some v -> (k, v) ∈ puts \/ kv !! k = Some v.
Proof.
  revert kv. induction puts as [|[k' v'] puts IH]; intros kv; [by right|]. cbn. intros [H|H]%IH.
  - left. apply elem_of_cons. by right.
  - apply lookup_insert_Some in H as [[<- <-]|[_ H]]; [left; apply elem_of_cons; by left|by right].
Qed.

(** ** Keys of a trade *)

Definition key_ok (key : CandleKey) : Prop := id_ok (ck_pool key) /\ in_u64 (bucket_ts key).
Definition row_key (key : CandleKey) : bytes := candle_key (ck_pool key) (ck_tf key) (bucket_ts key).

Lemma row_key_inj k1 k2 : key_ok k1 -> key_ok k2 -> row_key k1 = row_key k2 -> k1 = k2.
Proof.
  intros [H1 H2] [H3 H4] E. apply candle_key_inj in E as (E1 & E2 & E3); [|done..]. destruct k1, k2; cbn in *; by subst.
Qed.

Lemma duration_pos tf : 0 < duration_secs tf.
Proof. by destruct tf. Qed.

Lemma bucket_start_range ts tf : in_u64 ts -> in_u64 (bucket_start ts tf).
Proof.
  unfold in_u64, bucket_start. intros H. pose proof (duration_pos tf) as Hd.
  pose proof (Z.div_pos ts (duration_secs tf) ltac:(lia) Hd). pose proof (Z.mul_div_le ts (duration_secs tf) Hd). nia.
Qed.

Lemma trade_key_ok key t : trade_ok t -> falls_in key t -> key_ok key.
Proof. intros (Hts & Hid & _) [E1 E2]. split; [by rewrite <- E1|]. rewrite <- E2. by apply bucket_start_range. Qed.

Lemma starts_row_key key pool tf :
  key_ok key -> id_ok pool -> starts_with (row_key key) (candle_ns_prefix pool tf) = true -> ck_pool key = pool /\ ck_tf key = tf.
Proof.
  intros [Hid Hb] Hp Hs. apply starts_with_iff in Hs as [r E]. unfold row_key, candle_key in E.
  by apply prefix_inj in E as (-> & -> & _).
Qed.

(** ** Blocks *)

Section Blocks.
Set Default Proof Using "Type*".
Context `{CandleCodecLaws}.

(** The row of every bucket of the timeframe is the candle of its trades, and the prefix
    holds no other row. *)
Definition rows_follow (kv : Namespace) (tf : Timeframe) (trades : list Trade) : Prop :=
  (forall pool b, id_ok pool -> in_u64 b ->
     kv !! candle_key pool tf b = encode_full_candle_v1 <$> full_of (bucket_trades (mkCandleKey pool tf b) trades))
  /\ (forall k pool, id_ok pool -> starts_with k (candle_ns_prefix pool tf) = true -> is_Some (kv !! k) ->
        exists b, in_u64 b /\ k = candle_key pool tf b).

Definition rows_decode (kv : Namespace) : Prop :=
  forall key raw, key_ok key -> kv !! row_key key = Some raw -> is_Some (decode_full_candle_v1 raw).

(** The other puts of a block's batch: rows of other tables, and the candles of the higher
    timeframes that are recomputed from the ten-minute ones. *)
Definition other_put (p : bytes * bytes) : Prop :=
  (forall pool tf, id_ok pool -> starts_with p.1 (candle_ns_prefix pool tf) = false)
  \/ (exists key c, key_ok key /\ ck_tf key <> M10 /\ full_u128 c /\ p = (row_key key, encode_full_candle_v1 c)).

(** The candles of a block: the trades are gathered, merged with the rows and put. *)
Definition candle_block (frames : list Timeframe) (kv : Namespace) (block : list Trade * list (bytes * bytes)) : option Namespace :=
  writes ← into_writes kv (gather frames block.1); Some (apply_puts kv (writes ++ block.2)).

Lemma other_put_m10 p pool b : other_put p -> id_ok pool -> in_u64 b -> p.1 <> candle_key pool M10 b.
Proof.
  intros [Hf|(key & c & Hk & Htf & _ & ->)] Hp Hb E.
  - specialize (Hf pool M10 Hp). rewrite E in Hf. unfold candle_key in Hf. by rewrite starts_with_app in Hf.
  - cbn in E. change (row_key key = row_key (mkCandleKey pool M10 b)) in E. apply row_key_inj in E; [by subst|done|done].
Qed.

Lemma other_put_prefix p pool : other_put p -> id_ok pool -> starts_with p.1 (candle_ns_prefix pool M10) = false.
Proof.
  intros [Hf|(key & c & Hk & Htf & _ & ->)] Hp; [by apply Hf|]. apply not_true_iff_false. intros Hs. cbn in Hs.
  apply starts_row_key in Hs as [_ E]; done.
Qed.

Definition merged_row (kv : Namespace) (e : CandleKey * DualCandle) : option ((bytes * bytes) * (CandleKey * SchemaFullCandleV1)) :=
  merged ← merge_row kv (row_key e.1) e.2; Some ((row_key e.1, encode_full_candle_v1 merged), (e.1, merged)).

Lemma into_writes_rows kv m :
  rows_decode kv -> (forall key, is_Some (m !! key) -> key_ok key) ->
  exists writes, into_writes kv m = Some writes /\ NoDup writes.*1
    /\ (forall key, row_key key ∈ writes.*1 -> key_ok key -> is_Some (m !! key))
    /\ (forall k v, (k, v) ∈ writes -> exists key dc c, m !! key = Some dc /\ k = row_key key
          /\ merge_row kv k dc = Some c /\ v = encode_full_candle_v1 c)
    /\ (forall key dc, m !! key = Some dc -> exists c, merge_row kv (row_key key) dc = Some c
          /\ (row_key key, encode_full_candle_v1 c) ∈ writes).
Proof.
  intros Hdec Hok.
  assert (Hin : forall e, e ∈ cache_entries m <-> m !! e.1 = Some e.2).
  { intros [key dc]. unfold cache_entries. rewrite sort_by_perm. apply elem_of_map_to_list. }
  assert (Hall : Forall (fun e => is_Some (merged_row kv e)) (cache_entries m)).
  { apply Forall_forall. intros e He%Hin. unfold merged_row, merge_row. destruct (kv !! row_key e.1) as [raw|] eqn:E; [|by eexists].
    destruct (Hdec e.1 raw) as [c Hc]; [apply Hok; by eexists|done|]. rewrite Hc. by eexists. }
  apply mapM_is_Some_2 in Hall as [rows Hrows].
  exists rows.*1. unfold into_writes, into_writes_with_entries.
  change (mapM _ (cache_entries m)) with (mapM (merged_row kv) (cache_entries m)). rewrite Hrows. split; [done|].
  apply mapM_Some_1 in Hrows.
  assert (Hkeys : rows.*1.*1 = row_key <$> (cache_entries m).*1).
  { clear -Hrows. induction Hrows as [|e r es rs Her _ IH]; [done|]. cbn. f_equal; [|done].
    unfold merged_row in Her. by simplify_option_eq. }
  assert (Hck : forall key, key ∈ (cache_entries m).*1 <-> is_Some (m !! key)).
  { intros key. rewrite list_elem_of_fmap. split.
    - intros (e & -> & He%Hin). by eexists.
    - intros [dc Hdc]. exists (key, dc). split; [done|]. by apply Hin. }
  assert (Hto : forall r, r ∈ rows -> exists e, e ∈ cache_entries m /\ merged_row kv e = Some r).
  { intros r (i & Hi)%list_elem_of_lookup. destruct (Forall2_lookup_r _ _ _ _ _ Hrows Hi) as (e & He & Her).
    exists e. split; [|done]. by eapply list_elem_of_lookup_2. }
  assert (Hfrom : forall e, e ∈ cache_entries m -> exists r, r ∈ rows /\ merged_row kv e = Some r).
  { intros e (i & Hi)%list_elem_of_lookup. destruct (Forall2_lookup_l _ _ _ _ _ Hrows Hi) as (r & Hr & Her).
    exists r. split; [|done]. by eapply list_elem_of_lookup_2. }
  split_and!.
  - rewrite Hkeys. apply NoDup_fmap_2_strong.
    + intros k1 k2 H1%Hck H2%Hck. apply row_key_inj; by apply Hok.
    + unfold cache_entries. rewrite sort_by_perm. apply NoDup_fst_map_to_list.
  - intros key Hkey Hko. rewrite Hkeys in Hkey. apply list_elem_of_fmap in Hkey as (key' & E & Hk'%Hck).
    apply row_key_inj in E; [by subst|done|by apply Hok].
  - intros k v (r & Er & Hr)%list_elem_of_fmap. destruct (Hto r Hr) as (e & He%Hin & Her).
    unfold merged_row in Her. apply bind_Some in Her as (c & Hc & [= <-]). injection Er as -> ->.
    exists e.1, e.2, c. done.
  - intros key dc Hdc. destruct (Hfrom (key, dc)) as (r & Hr & Her); [by apply Hin|].
    unfold merged_row in Her. apply bind_Some in Her as (c & Hc & [= <-]). exists c. split; [done|].
    apply list_elem_of_fmap. exists (row_key key, encode_full_candle_v1 c, (key, c)). done.
Qed.

(** The merge of a stored candle with the cached one is the candle of both runs of trades. *)
Lemma merge_row_follows kv frames ts news pool b :
  rows_follow kv M10 ts -> Forall trade_ok ts -> Forall trade_ok news -> NoDup frames -> M10 ∈ frames ->
  id_ok pool -> in_u64 b ->
  let key := mkCandleKey pool M10 b in
  forall dc c, gather frames news !! key = Some dc -> merge_row kv (row_key key) dc = Some c ->
  full_of (bucket_trades key (ts ++ news)) = Some c.
Proof.
  intros [Hrow _] Hts Hnews Hnd Hf Hp Hb key dc c Hdc Hm. unfold merge_row in Hm. unfold row_key in Hm. cbn in Hm.
  rewrite Hrow in Hm by done. fold key in Hm.
  pose proof (gather_lookup frames news key Hnd Hnews Hf) as Hg. rewrite Hdc in Hg. cbn in Hg.
  unfold bucket_trades at 1. rewrite filter_app. fold (bucket_trades key ts) (bucket_trades key news).
  destruct (full_of (bucket_trades key ts)) as [c1|] eqn:E; cbn in Hm.
  - rewrite candle_codec_roundtrip in Hm by (eapply full_of_u128; [|exact E]; by apply bucket_trades_ok).
    cbn in Hm. rewrite (full_of_app _ _ c1 (dual_full dc)); [|by apply bucket_trades_ok..|done|done].
    injection Hm as <-. done.
  - apply full_of_none in E. rewrite E. cbn. rewrite <- Hg. injection Hm as <-. done.
Qed.

Lemma merge_row_u128 kv k dc c : full_u128 (dual_full dc) -> merge_row kv k dc = Some c -> full_u128 c.
Proof.
  intros [Hb Hq] Hm. unfold merge_row in Hm. destruct (kv !! k) as [raw|]; [|by injection Hm as <-].
  apply bind_Some in Hm as (c0 & Hc0 & [= <-]). apply candle_codec_u128 in Hc0 as [Hb0 Hq0].
  split; cbn; by apply merge_candle_u128.
Qed.

Lemma gather_u128 frames news key dc :
  NoDup frames -> Forall trade_ok news -> gather frames news !! key = Some dc -> full_u128 (dual_full dc).
Proof.
  intros Hnd Hnews Hdc. destruct (gather_keys frames news key) as [Hf _]; [by eexists|].
  pose proof (gather_lookup frames news key Hnd Hnews Hf) as Hg. rewrite Hdc in Hg.
  eapply full_of_u128; [|symmetry; exact Hg]. by apply bucket_trades_ok.
Qed.

(** One block keeps the rows. *)
Lemma candle_block_follows kv frames ts news others :
  rows_follow kv M10 ts -> rows_decode kv -> Forall trade_ok ts -> Forall trade_ok news ->
  NoDup frames -> M10 ∈ frames -> Forall other_put others ->
  exists kv', candle_block frames kv (news, others) = Some kv' /\ rows_follow kv' M10 (ts ++ news) /\ rows_decode kv'.
Proof.
  intros Hrf Hdec Hts Hnews Hnd Hf Hoth.
  assert (Hok : forall key, is_Some (gather frames news !! key) -> key_ok key).
  { intros key Hk. apply gather_keys in Hk as (_ & t & Ht & Hin). eapply trade_key_ok; [|exact Hin]. by eapply Forall_forall in Hnews. }
  destruct (into_writes_rows kv (gather frames news) Hdec Hok) as (w & Hw & Hnodup & Hwk & Hwv & Hwc).
  exists (apply_puts kv (w ++ others)). unfold candle_block. cbn [fst snd]. rewrite Hw. split; [done|]. rewrite candle_puts_app.
  split; [split|].
  - intros pool b Hp Hb. rewrite apply_puts_out.
    2:{ intros (p & E & Hin)%list_elem_of_fmap. eapply Forall_forall in Hoth; [|exact Hin]. by eapply other_put_m10 in Hoth. }
    destruct (gather frames news !! mkCandleKey pool M10 b) as [dc|] eqn:Hdc.
    + destruct (Hwc _ _ Hdc) as (c & Hc & Hin). rewrite (apply_puts_in _ _ _ _ Hnodup Hin).
      by rewrite (merge_row_follows kv frames ts news pool b Hrf Hts Hnews Hnd Hf Hp Hb dc c Hdc Hc).
    + rewrite apply_puts_out.
      2:{ intros Hin. change (candle_key pool M10 b) with (row_key (mkCandleKey pool M10 b)) in Hin.
          destruct (Hwk _ Hin ltac:(done)) as [? E]. by rewrite Hdc in E. }
      destruct Hrf as [Hrow _]. rewrite Hrow by done. f_equal. f_equal. unfold bucket_trades. rewrite filter_app.
      pose proof (gather_lookup frames news (mkCandleKey pool M10 b) Hnd Hnews Hf) as Hg. rewrite Hdc in Hg. cbn in Hg.
      symmetry in Hg. apply full_of_none in Hg. unfold bucket_trades in Hg. by rewrite Hg, app_nil_r.
  - intros k pool Hp Hs [v Hv]. apply apply_puts_inv in Hv as [Hin|Hv].
    { eapply Forall_forall in Hoth; [|exact Hin]. apply (other_put_prefix _ pool) in Hoth; [|done]. cbn in Hoth. congruence. }
    apply apply_puts_inv in Hv as [Hin|Hv]; [|destruct Hrf as [_ Hrf]; eapply Hrf; [done|done|by eexists]].
    destruct (Hwv _ _ Hin) as (key & dc & c & Hdc & -> & _). assert (Hk : key_ok key) by (apply Hok; by eexists).
    destruct (starts_row_key _ _ _ Hk Hp Hs) as [<- E2]. exists (bucket_ts key). split; [apply Hk|]. by rewrite <- E2.
  - intros key raw Hk Hv. apply apply_puts_inv in Hv as [Hin|Hv].
    { eapply Forall_forall in Hoth; [|exact Hin]. destruct Hoth as [Hforeign|(key' & c & _ & _ & Hc & [= E ->])].
      - specialize (Hforeign (ck_pool key) (ck_tf key) (proj1 Hk)). cbn in Hforeign. unfold row_key, candle_key in Hforeign.
        by rewrite starts_with_app in Hforeign.
      - rewrite candle_codec_roundtrip by done. by eexists. }
    apply apply_puts_inv in Hv as [Hin|Hv]; [|by eapply Hdec].
    destruct (Hwv _ _ Hin) as (key' & dc & c & Hdc & E & Hc & ->). exists c. apply candle_codec_roundtrip.
    eapply merge_row_u128; [|exact Hc]. eapply gather_u128; [exact Hnd|exact Hnews|exact Hdc].
Qed.

Fixpoint candle_blocks (frames : list Timeframe) (kv : Namespace) (blocks : list (list Trade * list (bytes * bytes)))
    : option Namespace :=
  match blocks with
  | [] => Some kv
  | block :: blocks => kv' ← candle_block frames kv block; candle_blocks frames kv' blocks
  end.

(** However the trades are cut into blocks, the rows are those of all the trades. *)
Lemma candle_blocks_follow frames blocks kv ts :
  rows_follow kv M10 ts -> rows_decode kv -> Forall trade_ok ts -> Forall (fun b => Forall trade_ok b.1 /\ Forall other_put b.2) blocks ->
  NoDup frames -> M10 ∈ frames ->
  exists kv', candle_blocks frames kv blocks = Some kv' /\ rows_follow kv' M10 (ts ++ (blocks ≫= fst)) /\ rows_decode kv'.
Proof.
  intros Hrf Hdec Hts Hbs Hnd Hf. revert kv ts Hrf Hdec Hts. induction Hbs as [|[news others] blocks [Hn Ho] _ IH]; intros kv ts Hrf Hdec Hts.
  - exists kv. cbn. by rewrite app_nil_r.
  - cbn [fst snd] in *. destruct (candle_block_follows kv frames ts news others) as (kv1 & E1 & Hrf1 & Hdec1); [done..|].
    cbn [candle_blocks]. rewrite E1. cbn [mbind option_bind].
    destruct (IH kv1 (ts ++ news) Hrf1 Hdec1) as (kv' & E & Hrf' & Hdec'); [by apply Forall_app|].
    exists kv'. split; [done|]. split; [|done]. rewrite bind_cons. by rewrite app_assoc.
Qed.

(** ** The rows of a chart *)

Lemma collect_buckets_spec entries pool tf (R : Z -> option SchemaFullCandleV1) acc :
  (forall k v, (k, v) ∈ entries -> exists b c, in_u64 b /\ k = candle_key pool tf b /\ decode_full_candle_v1 v = Some c /\ R b = Some c) ->
  (forall b c, acc !! b = Some c -> R b = Some c) ->
  exists m, collect_buckets entries acc = Some m /\ (forall b c, m !! b = Some c -> R b = Some c)
    /\ (forall b, is_Some (acc !! b) -> is_Some (m !! b))
    /\ (forall b v, in_u64 b -> (candle_key pool tf b, v) ∈ entries -> is_Some (m !! b)).
Proof.
  revert acc. induction entries as [|[k v] entries IH]; intros acc Hent Hacc; cbn [collect_buckets].
  { exists acc. split_and!; [done..|]. intros b v _ Hin. by apply not_elem_of_nil in Hin. }
  destruct (Hent k v) as (b & c & Hb & -> & Hc & HR); [apply elem_of_cons; by left|]. rewrite candle_key_ts, Hc by done. cbn [mbind option_bind].
  set (acc' := match acc !! b with Some _ => acc | None => <[b := c]> acc end).
  assert (Hmono : forall b', is_Some (acc !! b') \/ b' = b -> is_Some (acc' !! b')).
  { intros b' Hb'. unfold acc'. destruct (acc !! b) eqn:E; [destruct Hb' as [?| ->]; [done|by eexists]|].
    rewrite lookup_insert_is_Some'. destruct Hb' as [?| ->]; auto. }
  destruct (IH acc') as (m & Hm & H1 & H2 & H3).
  - intros k' v' Hin. apply Hent. apply elem_of_cons. by right.
  - intros b' c' Hl. unfold acc' in Hl. destruct (acc !! b) eqn:E; [by apply Hacc|].
    apply lookup_insert_Some in Hl as [[<- <-]|[_ Hl]]; [done|by apply Hacc].
  - exists m. split_and!; [done|done|auto|]. intros b' v' Hb' [E|Hin]%elem_of_cons; [|by eapply H3].
    apply (f_equal fst) in E. cbn [fst] in E. apply to_string_inj_key in E; [|done..]. auto.
Qed.

Definition chart_rows (pool : SchemaAlkaneId) (tf : Timeframe) (trades : list Trade) (b : Z) : option SchemaFullCandleV1 :=
  full_of (bucket_trades (mkCandleKey pool tf b) trades).

Lemma chart_rows_bucket pool tf trades b c :
  Forall trade_ok trades -> chart_rows pool tf trades b = Some c -> in_u64 b /\ (duration_secs tf | b).
Proof.
  intros Hok Hc. unfold chart_rows in Hc. destruct (bucket_trades (mkCandleKey pool tf b) trades) as [|t l] eqn:E; [done|].
  assert (Ht : t ∈ bucket_trades (mkCandleKey pool tf b) trades) by (rewrite E; apply elem_of_cons; by left).
  apply list_elem_of_filter in Ht as [[_ Hb] Ht]. cbn in Hb. eapply Forall_forall in Hok as (Hts & _); [|exact Ht].
  split; [rewrite <- Hb; by apply bucket_start_range|]. exists (tr_ts t / duration_secs tf). done.
Qed.

Lemma read_buckets kv pool tf trades :
  rows_follow kv tf trades -> Forall trade_ok trades -> id_ok pool ->
  exists m, collect_buckets (get_list_entries_desc kv (candle_ns_prefix pool tf)) ∅ = Some m
    /\ forall b, m !! b = chart_rows pool tf trades b.
Proof.
  intros [Hrow Honly] Hok Hp.
  assert (Hent : forall k v, (k, v) ∈ get_list_entries_desc kv (candle_ns_prefix pool tf)
                   <-> starts_with k (candle_ns_prefix pool tf) = true /\ kv !! k = Some v).
  { intros k v. unfold get_list_entries_desc. rewrite elem_of_reverse, sort_by_perm, list_elem_of_filter, elem_of_map_to_list. done. }
  destruct (collect_buckets_spec (get_list_entries_desc kv (candle_ns_prefix pool tf)) pool tf (chart_rows pool tf trades) ∅)
    as (m & Hm & H1 & _ & H3).
  - intros k v [Hs Hv]%Hent. destruct (Honly k pool Hp Hs) as (b & Hb & ->); [by eexists|]. rewrite Hrow in Hv by done.
    apply fmap_Some in Hv as (c & Hc & ->). exists b, c. split_and!; [done|done| |done].
    apply candle_codec_roundtrip. eapply full_of_u128; [|exact Hc]. by apply bucket_trades_ok.
  - intros b c Hl. by rewrite lookup_empty in Hl.
  - exists m. split; [done|]. intros b. destruct (chart_rows pool tf trades b) as [c|] eqn:E.
    + destruct (chart_rows_bucket _ _ _ _ _ Hok E) as [Hb _].
      destruct (H3 b (encode_full_candle_v1 c) Hb) as [c' Hc'].
      { apply Hent. split; [unfold candle_key; apply starts_with_app|]. rewrite Hrow by done. unfold chart_rows in E. by rewrite E. }
      rewrite Hc'. rewrite (H1 _ _ Hc') in E. done.
    + destruct (m !! b) as [c|] eqn:Hc; [|done]. apply H1 in Hc. congruence.
Qed.

End Blocks.
