(* ===== verification/AmmChartFill.v ===== *)
(** * Charts: the buckets filled in

    The loops of [read_candles_v1] return the buckets from the first trade to now: a
    bucket with trades has its candle, opened at the close before it; a bucket without is
    flat at that close. *)
From stdpp Require Import strings.
From S2P Require Import Prelude Bytes RunesTransfer RunesStore RunesChain RunesInscriptions AlkTrace AmmPath AmmCandles AmmCandlesProps AmmChart.
From stdpp Require Import options.

Open Scope Z_scope.

(** ** The chart of a map of buckets *)

Section Fill.
Context (m : gmap Z SchemaFullCandleV1) (side : PriceSide) (start dur : Z).

Definition at_bucket (i : nat) : Z := start + Z.of_nat i * dur.

(** The close of the last bucket with trades among the first [i + 1]. *)
Fixpoint carry (i : nat) : Z :=
  match m !! at_bucket i, i with
  | Some fc, _ => close (side_candle side fc)
  | None, O => 0
  | None, S j => carry j
  end.

Definition before (i : nat) : Z := match i with O => 0 | S j => carry j end.

Definition chart_candle (i : nat) : SchemaCandleV1 :=
  match m !! at_bucket i with
  | Some fc => match i with O => side_candle side fc | S j => chain_open (side_candle side fc) (carry j) end
  | None => flat (before i)
  end.

Lemma chart_close i : close (chart_candle i) = carry i.
Proof. unfold chart_candle. destruct i as [|j]; cbn; by destruct (m !! at_bucket _). Qed.

Lemma carry_none i : m !! at_bucket i = None -> carry i = before i.
Proof. destruct i as [|j]; cbn; by intros ->. Qed.

Hypothesis Hdur : 0 < dur.

Lemma at_bucket_le i j : at_bucket i <= at_bucket j <-> (i <= j)%nat.
Proof using Hdur. unfold at_bucket. nia. Qed.

Lemma at_bucket_succ i : at_bucket i + dur = at_bucket (S i).
Proof. unfold at_bucket. lia. Qed.

Lemma fill_spec n fuel i :
  at_bucket n < 2 ^ 64 -> (i <= S n)%nat -> (S n - i < fuel)%nat ->
  fill fuel m side dur (at_bucket n) (at_bucket i) (negb (i =? 0)%nat) (before i)
  = Some (chart_candle <$> seq i (S n - i), if (i =? S n)%nat then before i else carry n).
Proof using Hdur.
  intros Hn. revert i. induction fuel as [|fuel IH]; intros i Hi Hf; [lia|]. cbn [fill].
  destruct (decide (i = S n)) as [->|Hne].
  { replace (at_bucket (S n) <=? at_bucket n) with false by (symmetry; apply Z.leb_gt; rewrite <- at_bucket_succ; lia).
    rewrite Nat.sub_diag, Nat.eqb_refl. done. }
  replace (at_bucket i <=? at_bucket n) with true by (symmetry; apply Z.leb_le, at_bucket_le; lia).
  replace (i =? S n)%nat with false by (symmetry; by apply Nat.eqb_neq).
  assert (Hc : (match m !! at_bucket i with
                | Some fc => let c := if negb (i =? 0)%nat then chain_open (side_candle side fc) (before i) else side_candle side fc in (c, close c)
                | None => (flat (before i), before i)
                end) = (chart_candle i, carry i)).
  { rewrite <- (chart_close i). unfold chart_candle. destruct (m !! at_bucket i); [|done]. by destruct i. }
  cbn zeta in Hc. cbn zeta. rewrite Hc. clear Hc. unfold u64_checked_add. rewrite at_bucket_succ.
  replace (S n - i)%nat with (S (S n - S i)) by lia. cbn [seq fmap list_fmap].
  destruct (at_bucket (S i) <? 2 ^ 64) eqn:E.
  - change (carry i) with (before (S i)) . change true with (negb (S i =? 0)%nat).
    rewrite IH by lia. cbn [mbind option_bind]. f_equal. f_equal. destruct (S i =? S n)%nat eqn:E'; [|done].
    apply Nat.eqb_eq in E'. injection E' as ->. done.
  - assert (i = n) as ->. { destruct (decide (S i <= n)%nat) as [Hle|]; [|lia]. apply at_bucket_le in Hle. lia. }
    rewrite Nat.sub_diag. done.
Qed.

Lemma fill_now_spec n fuel i :
  at_bucket n < 2 ^ 64 -> (0 < i)%nat -> (i <= S n)%nat -> (S n - i < fuel)%nat -> (forall j, (i <= j)%nat -> m !! at_bucket j = None) ->
  fill_now fuel dur (at_bucket n) (at_bucket i) (before i) = Some (chart_candle <$> seq i (S n - i)).
Proof using Hdur.
  intros Hn. revert i. induction fuel as [|fuel IH]; intros i Hi0 Hi Hf Hnone; [lia|]. cbn [fill_now].
  destruct (decide (i = S n)) as [->|Hne].
  { replace (at_bucket (S n) <=? at_bucket n) with false by (symmetry; apply Z.leb_gt; rewrite <- at_bucket_succ; lia).
    by rewrite Nat.sub_diag. }
  replace (at_bucket i <=? at_bucket n) with true by (symmetry; apply Z.leb_le, at_bucket_le; lia).
  assert (Hc : chart_candle i = flat (before i)) by (unfold chart_candle; by rewrite Hnone).
  assert (Hb : before i = before (S i)) by (cbn; by rewrite carry_none by auto).
  unfold u64_checked_add. rewrite at_bucket_succ.
  replace (S n - i)%nat with (S (S n - S i)) by lia. cbn [seq fmap list_fmap]. rewrite Hc.
  destruct (at_bucket (S i) <? 2 ^ 64) eqn:E.
  - rewrite Hb at 1. rewrite IH; [done|lia|lia|lia|]. intros j Hj. apply Hnone. lia.
  - assert (i = n) as ->. { destruct (decide (S i <= n)%nat) as [Hle|]; [|lia]. apply at_bucket_le in Hle. lia. }
    rewrite Nat.sub_diag. done.
Qed.

End Fill.

(** ** Extremes of the keys *)

Lemma foldr_min_spec l k : (foldr Z.min k l ∈ k :: l) /\ forall x, x ∈ k :: l -> foldr Z.min k l <= x.
Proof.
  induction l as [|y l [IH1 IH2]]; cbn.
  - split; [apply elem_of_cons; by left|]. intros x [->|H]%elem_of_cons; [lia|]. by apply not_elem_of_nil in H.
  - split.
    + destruct (Z.min_spec y (foldr Z.min k l)) as [[_ ->]|[_ ->]]; [set_solver|]. set_solver.
    + intros x Hx. assert (x = y \/ x ∈ k :: l) as [->|H] by set_solver; [lia|]. specialize (IH2 x H). lia.
Qed.

Lemma foldr_max_spec l k : (foldr Z.max k l ∈ k :: l) /\ forall x, x ∈ k :: l -> x <= foldr Z.max k l.
Proof.
  induction l as [|y l [IH1 IH2]]; cbn.
  - split; [apply elem_of_cons; by left|]. intros x [->|H]%elem_of_cons; [lia|]. by apply not_elem_of_nil in H.
  - split.
    + destruct (Z.max_spec y (foldr Z.max k l)) as [[_ ->]|[_ ->]]; [set_solver|]. set_solver.
    + intros x Hx. assert (x = y \/ x ∈ k :: l) as [->|H] by set_solver; [lia|]. specialize (IH2 x H). lia.
Qed.

Lemma key_elem (m : gmap Z SchemaFullCandleV1) b : b ∈ (map_to_list m).*1 <-> is_Some (m !! b).
Proof.
  rewrite list_elem_of_fmap. split.
  - intros ([b' c] & -> & H%elem_of_map_to_list). by eexists.
  - intros [c Hc]. exists (b, c). split; [done|]. by apply elem_of_map_to_list.
Qed.

Lemma keys_spec (m : gmap Z SchemaFullCandleV1) :
  (m = ∅ /\ min_key m = None) \/
  exists s n, min_key m = Some s /\ max_key m = Some n /\ is_Some (m !! s) /\ is_Some (m !! n)
    /\ forall b, is_Some (m !! b) -> s <= b <= n.
Proof.
  unfold min_key, max_key. pose proof (key_elem m) as Hk. destruct ((map_to_list m).*1) as [|k ks] eqn:E.
  - left. split; [|done]. apply map_empty. intros b. destruct (m !! b) eqn:Hb; [|done].
    destruct (Hk b) as [_ H]. rewrite Hb in H. specialize (H ltac:(by eexists)). by apply not_elem_of_nil in H.
  - right. destruct (foldr_min_spec ks k) as [H1 H2]. destruct (foldr_max_spec ks k) as [H3 H4].
    exists (foldr Z.min k ks), (foldr Z.max k ks). split_and!; [done|done|by apply Hk|by apply Hk|].
    intros b Hb%Hk. auto.
Qed.

(** ** The chart *)

Section Chart.
Set Default Proof Using "Type*".
Context `{CandleCodecLaws}.

Lemma div_exact_bucket a b dur : 0 < dur -> (dur | a) -> (dur | b) -> a <= b -> b = at_bucket a dur (Z.to_nat ((b - a) / dur)).
Proof using.
  intros Hd [x ->] [y ->] Hle. unfold at_bucket. replace (y * dur - x * dur) with ((y - x) * dur) by lia.
  rewrite Z.div_mul by lia. rewrite Z2Nat.id by nia. lia.
Qed.

Lemma read_chart kv pool tf trades now side :
  rows_follow kv tf trades -> Forall trade_ok trades -> id_ok pool -> in_u64 now ->
  exists m, (forall b, m !! b = chart_rows pool tf trades b)
  /\ ((m = ∅ /\ read_candles_v1 kv pool tf now side = Some (mkSlice [] 0))
      \/ exists start n k, is_Some (m !! start) /\ (forall b, is_Some (m !! b) -> start <= b <= at_bucket start (duration_secs tf) n)
           /\ is_Some (m !! at_bucket start (duration_secs tf) n)
           /\ at_bucket start (duration_secs tf) (n + k) = Z.max (at_bucket start (duration_secs tf) n) (bucket_start now tf)
           /\ read_candles_v1 kv pool tf now side
              = Some (mkSlice (reverse (chart_candle m side start (duration_secs tf) <$> seq 0 (S (n + k)))) (bucket_start now tf))).
Proof.
  intros Hrf Hok Hp Hnow. destruct (read_buckets kv pool tf trades Hrf Hok Hp) as (m & Hm & HR). exists m. split; [done|].
  pose proof (duration_pos tf) as Hd. set (dur := duration_secs tf) in *.
  assert (Hal : forall b, is_Some (m !! b) -> in_u64 b /\ (dur | b)).
  { intros b [c Hc]. rewrite HR in Hc. by eapply chart_rows_bucket. }
  destruct (keys_spec m) as [[-> Hmin]|(s & newest & Hmin & Hmax & Hs & Hn & Hall)].
  { left. split; [done|]. unfold read_candles_v1. rewrite Hm. cbn [mbind option_bind]. by rewrite Hmin. }
  right. destruct (Hal s Hs) as [Hsr Hsd]. destruct (Hal newest Hn) as [Hnr Hnd].
  pose proof (Hall _ Hn) as [Hsn _]. pose proof (div_exact_bucket s newest dur Hd Hsd Hnd Hsn) as En.
  set (n := Z.to_nat ((newest - s) / dur)) in *. pose proof (bucket_start_range now tf Hnow) as Hnowr.
  assert (Hnowd : (dur | bucket_start now tf)) by (by exists (now / dur)).
  assert (Hfill : fill (rounds s newest dur) m side dur newest s false 0 = Some (chart_candle m side s dur <$> seq 0 (S n), carry m side s dur n)).
  { pose proof (fill_spec m side s dur Hd n (rounds s newest dur) 0) as Hf. rewrite <- En in Hf.
    replace (at_bucket s dur 0) with s in Hf by (unfold at_bucket; lia). cbn [Nat.eqb negb before] in Hf.
    rewrite Nat.sub_0_r in Hf. apply Hf; [unfold in_u64 in *; lia|lia|]. unfold rounds. fold n. lia. }
  set (now_b := bucket_start now tf) in *.
  assert (Hread : read_candles_v1 kv pool tf now side =
    (later ← (if newest <? now_b then fill_now (rounds newest now_b dur) dur now_b (u64_sat_add newest dur) (carry m side s dur n) else Some []);
     Some (mkSlice (reverse ((chart_candle m side s dur <$> seq 0 (S n)) ++ later)) now_b))).
  { unfold read_candles_v1. rewrite Hm. cbn [mbind option_bind]. rewrite Hmin, Hmax. fold dur. rewrite Hfill. done. }
  destruct (newest <? now_b) eqn:E.
  - pose proof (div_exact_bucket newest now_b dur Hd Hnd Hnowd ltac:(lia)) as Ek. set (k := Z.to_nat ((now_b - newest) / dur)) in *.
    assert (Hnow_at : now_b = at_bucket s dur (n + k)) by (rewrite Ek, En at 1; unfold at_bucket; lia).
    exists s, n, k. rewrite <- En. split_and!; [done|done|done|lia|].
    assert (Hk : (1 <= k)%nat) by (destruct k; [unfold at_bucket in Ek; lia|lia]).
    rewrite Hread. assert (Hsat : u64_sat_add newest dur = at_bucket s dur (S n)).
    { unfold u64_sat_add. rewrite <- at_bucket_succ, <- En. rewrite Z.min_r; [done|].
      unfold in_u64 in Hnowr. unfold at_bucket in Ek. nia. }
    rewrite Hsat. change (carry m side s dur n) with (before m side s dur (S n)). rewrite Hnow_at at 2.
    rewrite fill_now_spec; [|done|rewrite <- Hnow_at; unfold in_u64 in Hnowr; lia|lia|lia|unfold rounds; fold k; lia|].
    + cbn [mbind option_bind]. f_equal. f_equal. f_equal. rewrite <- fmap_app. f_equal.
      replace (S (n + k)) with (S n + k)%nat by lia. rewrite seq_app. f_equal. f_equal; lia.
    + intros j Hj. destruct (m !! at_bucket s dur j) as [c|] eqn:Hc; [|done]. exfalso.
      destruct (Hall (at_bucket s dur j)) as [_ Hle]; [by eexists|]. rewrite En in Hle. apply at_bucket_le in Hle; [lia|done].
  - exists s, n, 0%nat. rewrite Nat.add_0_r, <- En. split_and!; [done|done|done|lia|]. rewrite Hread. cbn [mbind option_bind].
    by rewrite app_nil_r.
Qed.

End Chart.
