(* ===== verification/AmmDepth.v ===== *)
(** * Depth of the canonical pools

    [src/modules/ammdata/utils/canonical_depth.rs]: how the pools in which a token trades
    against a canonical quote are combined into one candle for a bucket. *)
From stdpp Require Import strings.
From S2P Require Import Prelude Bytes RunesTransfer RunesStore RunesChain RunesInscriptions AlkTrace AmmPath AmmCandles AmmCandlesProps.
From stdpp Require Import options.

Open Scope Z_scope.

Definition MIN_RELATIVE_DEPTH_BPS : Z := 1000.
Definition MIN_ABS_DEPTH_BTC : Z := 1000000.

Inductive CanonicalQuoteUnit := Btc | Usd.

Definition min_abs_depth (unit : CanonicalQuoteUnit) : Z :=
  match unit with Btc => MIN_ABS_DEPTH_BTC | Usd => 0 end.

Definition canonical_side_depth (snapshot : option SchemaPoolSnapshot) (quote : SchemaAlkaneId) : Z :=
  match snapshot with
  | Some s =>
      if decide (base_id s = quote) then base_reserve s
      else if decide (quote_id s = quote) then quote_reserve s
      else 0
  | None => 0
  end.

Record CanonicalPoolCandidate := mkCandidate { cp_pool : SchemaAlkaneId; depth : Z; cp_candle : option SchemaCandleV1 }.

(** Deepest first; ties by pool id. *)
Definition cand_leb (a b : CanonicalPoolCandidate) : bool :=
  (depth b <? depth a) || ((depth b =? depth a) && aid_leb (cp_pool a) (cp_pool b)).

Definition sum_sat (f : Z * SchemaCandleV1 -> Z) (survivors : list (Z * SchemaCandleV1)) : Z :=
  foldl (fun acc s => u128_sat_add acc (f s)) 0 survivors.

(** [mean]: the sum over the number of survivors. *)
Definition mean (survivors : list (Z * SchemaCandleV1)) (f : SchemaCandleV1 -> Z) : Z :=
  sum_sat (fun s => f s.2) survivors / Z.of_nat (length survivors).

Definition u128_checked (z : Z) : option Z := if z <? u128_mod then Some z else None.

(** [weighted]: the products are summed with overflow checks; on overflow each price is
    divided first. *)
Definition weighted_sum (survivors : list (Z * SchemaCandleV1)) (f : SchemaCandleV1 -> Z) : option Z :=
  foldl (fun acc s => a ← acc; x ← u128_checked (f s.2 * s.1); u128_checked (a + x)) (Some 0) survivors.

Definition weighted (total : Z) (survivors : list (Z * SchemaCandleV1)) (f : SchemaCandleV1 -> Z) : Z :=
  match weighted_sum survivors f with
  | Some sum => sum / total
  | None => sum_sat (fun s => u128_sat_mul (f s.2 / total) s.1) survivors
  end.

Definition depth_weighted (survivors : list (Z * SchemaCandleV1)) : SchemaCandleV1 :=
  let total := sum_sat fst survivors in
  let vol := sum_sat (fun s => volume s.2) survivors in
  if total =? 0 then
    mkCandle (mean survivors open) (mean survivors high) (mean survivors low) (mean survivors close) vol
  else
    let o := weighted total survivors open in
    let c := weighted total survivors close in
    mkCandle o (Z.max (Z.max (weighted total survivors high) o) c)
      (Z.min (Z.min (weighted total survivors low) o) c) c vol.

Definition floor_for (reference : CanonicalPoolCandidate) (min_abs : Z) : Z :=
  Z.max (u128_sat_mul (depth reference) MIN_RELATIVE_DEPTH_BPS / 10000) min_abs.

Definition with_candle (c : CanonicalPoolCandidate) : option (Z * SchemaCandleV1) :=
  candle ← cp_candle c; Some (depth c, candle).

Definition combine_canonical_unit_candles (candidates : list CanonicalPoolCandidate) (min_abs : Z) : option SchemaCandleV1 :=
  match sort_by cand_leb candidates with
  | [] => None
  | reference :: rest =>
      let floor := floor_for reference min_abs in
      let survivors := omap with_candle (reference :: filter (fun c => floor <= depth c) rest) in
      match survivors with
      | [] => None
      | [s] => Some s.2
      | _ => Some (depth_weighted survivors)
      end
  end.

(** ** The order of the candidates *)

Lemma aid_leb_total a b : aid_leb a b = true \/ aid_leb b a = true.
Proof. unfold aid_leb. rewrite !orb_true_iff, !andb_true_iff, !Z.ltb_lt, !Z.eqb_eq, !Z.leb_le. lia. Qed.

Lemma aid_leb_trans a b c : aid_leb a b = true -> aid_leb b c = true -> aid_leb a c = true.
Proof. unfold aid_leb. rewrite !orb_true_iff, !andb_true_iff, !Z.ltb_lt, !Z.eqb_eq, !Z.leb_le. lia. Qed.

Lemma aid_leb_antisym a b : aid_leb a b = true -> aid_leb b a = true -> a = b.
Proof.
  unfold aid_leb. rewrite !orb_true_iff, !andb_true_iff, !Z.ltb_lt, !Z.eqb_eq, !Z.leb_le.
  destruct a, b; cbn. intros. f_equal; lia.
Qed.

Definition cand_le (a b : CanonicalPoolCandidate) : Prop := cand_leb a b = true.

Lemma cand_le_iff a b :
  cand_le a b <-> depth b < depth a \/ depth b = depth a /\ aid_leb (cp_pool a) (cp_pool b) = true.
Proof. unfold cand_le, cand_leb. rewrite orb_true_iff, andb_true_iff, Z.ltb_lt, Z.eqb_eq. done. Qed.

#[global] Instance cand_le_trans : Transitive cand_le.
Proof.
  intros a b c. rewrite !cand_le_iff. intros [H1|[H1 H1']] [H2|[H2 H2']]; try (left; lia).
  right. split; [lia|]. by eapply aid_leb_trans.
Qed.

Lemma cand_le_total a b : cand_leb a b = false -> cand_le b a.
Proof.
  intros Hf. destruct (cand_le_iff b a) as [_ Hb]. apply Hb. clear Hb.
  assert (Ha : ~ cand_le a b) by (unfold cand_le; by rewrite Hf). rewrite cand_le_iff in Ha.
  destruct (Z.lt_trichotomy (depth a) (depth b)) as [?|[E|?]]; [by left| |tauto].
  right. split; [done|]. destruct (aid_leb_total (cp_pool a) (cp_pool b)); [|done]. exfalso. apply Ha. by right.
Qed.

Lemma sort_cands_sorted l : StronglySorted cand_le (sort_by cand_leb l).
Proof. apply sort_by_ordered; [apply _|done|apply cand_le_total]. Qed.

(** The order in which the pools come does not matter. *)
Lemma combine_perm c1 c2 min_abs :
  c1 ≡ₚ c2 -> NoDup (cp_pool <$> c1) -> combine_canonical_unit_candles c1 min_abs = combine_canonical_unit_candles c2 min_abs.
Proof.
  intros Hp Hnd. unfold combine_canonical_unit_candles.
  assert (sort_by cand_leb c1 = sort_by cand_leb c2) as ->; [|done].
  apply (StronglySorted_unique_strong cand_le); [|apply sort_cands_sorted..|by rewrite !sort_by_perm].
  intros x y Hx Hy. rewrite sort_by_perm in Hx. rewrite sort_by_perm, <- Hp in Hy. rewrite !cand_le_iff. intros [?|[E1 E2]] [?|[E3 E4]]; [lia..|].
  pose proof (aid_leb_antisym _ _ E2 E4) as Eid. clear -Hx Hy Eid Hnd.
  apply list_elem_of_lookup in Hx as [i Hi]. apply list_elem_of_lookup in Hy as [j Hj].
  assert (i = j) as ->; [|congruence]. eapply NoDup_lookup; [exact Hnd| |]; rewrite list_lookup_fmap; [by rewrite Hi|]. by rewrite Hj, Eid.
Qed.

(** ** Dust *)

Lemma filter_insert_by {A} (le : A -> A -> bool) (P : A -> Prop) `{forall x, Decision (P x)} x l :
  ~ P x -> filter P (insert_by le x l) = filter P l.
Proof.
  intros Hx. induction l as [|y l IH]; cbn [insert_by]; [by rewrite filter_cons_False|].
  destruct (le x y); [by rewrite filter_cons_False|]. rewrite !filter_cons. destruct (decide (P y)); by rewrite IH.
Qed.

Lemma sat_mul_mono a b c : 0 <= c -> a <= b -> u128_sat_mul a c <= u128_sat_mul b c.
Proof. intros Hc Hab. unfold u128_sat_mul. assert (a * c <= b * c) by nia. lia. Qed.

(** A pool too shallow beside another one contributes nothing: the result is that of the
    other pools alone. *)
Lemma combine_dust c r cands min_abs :
  r ∈ cands -> depth c < depth r -> depth c < floor_for r min_abs ->
  combine_canonical_unit_candles (c :: cands) min_abs = combine_canonical_unit_candles cands min_abs.
Proof.
  intros Hr Hlt Hfl. unfold combine_canonical_unit_candles. cbn [sort_by].
  pose proof (sort_cands_sorted cands) as Hs. rewrite <- (sort_by_perm cand_leb) in Hr.
  destruct (sort_by cand_leb cands) as [|ref rest]; [by apply not_elem_of_nil in Hr|].
  assert (Hd : depth r <= depth ref).
  { apply elem_of_cons in Hr as [->|Hr]; [lia|]. apply StronglySorted_inv in Hs as [_ Hs].
    eapply Forall_forall in Hs; [|exact Hr]. apply cand_le_iff in Hs. lia. }
  cbn [insert_by]. replace (cand_leb c ref) with false.
  2:{ symmetry. apply not_true_iff_false. intros H. apply cand_le_iff in H. lia. }
  assert (Hfl' : floor_for r min_abs <= floor_for ref min_abs).
  { unfold floor_for. pose proof (sat_mul_mono (depth r) (depth ref) MIN_RELATIVE_DEPTH_BPS ltac:(done) Hd) as Hm.
    pose proof (Z.div_le_mono _ _ 10000 ltac:(lia) Hm). lia. }
  rewrite filter_insert_by by lia. done.
Qed.

(** ** Bounds *)

Definition ohlc (c : SchemaCandleV1) : Prop := low c <= open c <= high c /\ low c <= close c <= high c.

Definition zsum {A} (f : A -> Z) (l : list A) : Z := foldr (fun x s => f x + s) 0 l.

Lemma zsum_cons {A} (f : A -> Z) x l : zsum f (x :: l) = f x + zsum f l.
Proof. done. Qed.

Lemma zsum_nonneg {A} (f : A -> Z) l : Forall (fun x => 0 <= f x) l -> 0 <= zsum f l.
Proof. induction 1; [done|]. rewrite zsum_cons. lia. Qed.

#[global] Instance zsum_perm {A} (f : A -> Z) : Proper ((≡ₚ) ==> eq) (zsum f).
Proof. induction 1; rewrite ?zsum_cons; lia. Qed.

Lemma zsum_le {A} (f g : A -> Z) l : Forall (fun x => f x <= g x) l -> zsum f l <= zsum g l.
Proof. induction 1; [done|]. rewrite !zsum_cons. lia. Qed.

Lemma zsum_scale {A} (f : A -> Z) k l : zsum (fun x => k * f x) l = k * zsum f l.
Proof. induction l as [|x l IH]; [cbn; lia|]. rewrite !zsum_cons, IH. lia. Qed.

Lemma zsum_const {A} k (l : list A) : zsum (fun _ => k) l = k * Z.of_nat (length l).
Proof. induction l as [|x l IH]; [cbn; lia|]. rewrite zsum_cons, IH. cbn [length]. lia. Qed.

Lemma zsum_filter {A} (f : A -> Z) (P : A -> Prop) `{forall x, Decision (P x)} l :
  Forall (fun x => 0 <= f x) l -> zsum f (filter P l) <= zsum f l.
Proof. induction 1 as [|x l Hx _ IH]; [done|]. rewrite filter_cons, zsum_cons. destruct (decide (P x)); rewrite ?zsum_cons; lia. Qed.

Lemma sum_sat_spec (f : Z * SchemaCandleV1 -> Z) l a :
  Forall (fun s => 0 <= f s) l -> 0 <= a ->
  foldl (fun acc s => u128_sat_add acc (f s)) a l = if decide (l = []) then a else Z.min (u128_mod - 1) (a + zsum f l).
Proof.
  intros Hl. revert a. induction Hl as [|s l Hs Hl IH]; intros a Ha; [done|]. cbn [foldl].
  assert (0 < u128_mod) by done. rewrite IH by (unfold u128_sat_add; lia). rewrite zsum_cons. pose proof (zsum_nonneg _ _ Hl).
  rewrite (decide_False (P := s :: l = [])) by done. destruct (decide (l = [])) as [->|]; unfold u128_sat_add; [cbn; f_equal; lia|]. lia.
Qed.

Lemma sum_sat_min (f : Z * SchemaCandleV1 -> Z) l : Forall (fun s => 0 <= f s) l -> sum_sat f l = Z.min (u128_mod - 1) (zsum f l).
Proof. intros Hl. unfold sum_sat. rewrite sum_sat_spec by done. destruct (decide (l = [])) as [->|]; [done|f_equal; lia]. Qed.

Lemma u128_checked_ok z : z < u128_mod -> u128_checked z = Some z.
Proof. intros H. unfold u128_checked. by replace (z <? u128_mod) with true by lia. Qed.

Lemma weighted_sum_exact (l : list (Z * SchemaCandleV1)) f :
  Forall (fun s => 0 <= f s.2 * s.1) l -> zsum (fun s => f s.2 * s.1) l < u128_mod ->
  weighted_sum l f = Some (zsum (fun s => f s.2 * s.1) l).
Proof.
  intros Hl Hfit. unfold weighted_sum.
  assert (Hgen : forall a, 0 <= a -> a + zsum (fun s => f s.2 * s.1) l < u128_mod ->
            foldl (fun acc s => a ← acc; x ← u128_checked (f s.2 * s.1); u128_checked (a + x)) (Some a) l
            = Some (a + zsum (fun s => f s.2 * s.1) l)).
  { clear Hfit. induction Hl as [|s l Hs Hl IH]; intros a Ha Hfit; [cbn; f_equal; lia|]. cbn [foldl]. rewrite zsum_cons in *.
    pose proof (zsum_nonneg _ _ Hl) as Hn. cbn [mbind option_bind].
    rewrite (u128_checked_ok (f s.2 * s.1)) by lia. cbn [mbind option_bind].
    rewrite (u128_checked_ok (a + f s.2 * s.1)) by lia. rewrite IH by lia. f_equal. lia. }
  apply Hgen; [done|]. done.
Qed.

(** A depth-weighted price lies between the prices it combines. *)
Lemma weighted_bounds (l : list (Z * SchemaCandleV1)) f lo hi :
  let total := zsum fst l in
  Forall (fun s => 0 <= s.1 /\ 0 <= lo <= f s.2 /\ f s.2 <= hi) l -> 0 < total -> hi * total < u128_mod ->
  lo <= weighted total l f <= hi.
Proof.
  intros total Hl Ht Hfit. unfold weighted.
  assert (Hlo : zsum (fun s => lo * s.1) l <= zsum (fun s => f s.2 * s.1) l)
    by (apply zsum_le; eapply Forall_impl; [exact Hl|]; intros s (H1 & H2 & H3); nia).
  assert (Hhi : zsum (fun s => f s.2 * s.1) l <= zsum (fun s => hi * s.1) l)
    by (apply zsum_le; eapply Forall_impl; [exact Hl|]; intros s (H1 & H2 & H3); nia).
  rewrite zsum_scale in Hlo, Hhi. fold total in Hlo, Hhi.
  rewrite weighted_sum_exact; [|eapply Forall_impl; [exact Hl|]; intros s (H1 & H2 & H3); nia|lia].
  split; [apply Z.div_le_lower_bound; lia|]. apply Z.div_le_upper_bound; lia.
Qed.

Lemma mean_bounds l f lo hi :
  l <> [] -> Forall (fun s => 0 <= lo <= f s.2 /\ f s.2 <= hi) l -> hi * Z.of_nat (length l) < u128_mod -> lo <= mean l f <= hi.
Proof.
  intros Hne Hl Hfit. unfold mean. assert (0 < Z.of_nat (length l)) by (destruct l; [done|cbn; lia]).
  rewrite sum_sat_min by (eapply Forall_impl; [exact Hl|]; intros s Hs; cbn beta in *; lia).
  assert (Hlo : zsum (fun _ => lo) l <= zsum (fun s => f s.2) l) by (apply zsum_le; eapply Forall_impl; [exact Hl|]; intros s Hs; cbn beta in *; lia).
  assert (Hhi : zsum (fun s => f s.2) l <= zsum (fun _ => hi) l) by (apply zsum_le; eapply Forall_impl; [exact Hl|]; intros s Hs; cbn beta in *; lia).
  rewrite zsum_const in Hlo, Hhi. rewrite Z.min_r by lia.
  split; [apply Z.div_le_lower_bound; lia|]. apply Z.div_le_upper_bound; lia.
Qed.

Definition candle_in (lo hi : Z) (c : SchemaCandleV1) : Prop := ohlc c /\ lo <= low c /\ high c <= hi.

Lemma depth_weighted_bounds l lo hi :
  l <> [] -> 0 <= lo -> Forall (fun s => 0 <= s.1 /\ candle_in lo hi s.2) l ->
  zsum fst l < u128_mod -> hi * (zsum fst l + Z.of_nat (length l)) < u128_mod -> candle_in lo hi (depth_weighted l).
Proof.
  intros Hne Hlo Hl Hsum Hfit.
  assert (Hhi : 0 <= hi).
  { destruct Hl as [|s l [_ [[Ho Hc] [H1 H2]]] _]; [done|]. lia. }
  assert (Hd : Forall (fun s : Z * SchemaCandleV1 => 0 <= s.1) l) by (eapply Forall_impl; [exact Hl|]; by intros s [H _]).
  pose proof (zsum_nonneg _ _ Hd) as Hnn.
  assert (Hf : forall f, f ∈ [open; high; low; close] -> Forall (fun s => 0 <= s.1 /\ 0 <= lo <= f s.2 /\ f s.2 <= hi) l).
  { intros f Hin. eapply Forall_impl; [exact Hl|]. intros s [Hs [[Ho Hc] [H1 H2]]]. split; [done|].
    repeat (apply elem_of_cons in Hin as [->|Hin]; [lia|]). by apply not_elem_of_nil in Hin. }
  unfold depth_weighted. rewrite sum_sat_min by done. rewrite Z.min_r by lia. destruct (zsum fst l =? 0) eqn:E.
  - assert (Hm : forall f, f ∈ [open; high; low; close] -> lo <= mean l f <= hi).
    { intros f Hin. apply mean_bounds; [done| |lia]. eapply Forall_impl; [exact (Hf f Hin)|]. by intros s [_ ?]. }
    assert (Hmono : forall f g, Forall (fun s => 0 <= f s.2 <= g s.2) l -> mean l f <= mean l g).
    { intros f g Hfg. unfold mean. apply Z.div_le_mono; [destruct l; [done|cbn; lia]|].
      rewrite !sum_sat_min by (eapply Forall_impl; [exact Hfg|]; intros s Hs; cbn beta in *; lia).
      assert (zsum (fun s => f s.2) l <= zsum (fun s => g s.2) l) by (apply zsum_le; eapply Forall_impl; [exact Hfg|]; intros s Hs; cbn beta in *; lia).
      lia. }
    assert (forall f g, (forall c, candle_in lo hi c -> 0 <= f c <= g c) -> mean l f <= mean l g) as Hmono'.
    { intros f g Hfg. apply Hmono. eapply Forall_impl; [exact Hl|]. intros s [_ Hs]. by apply Hfg. }
    split; [split; cbn; split; apply Hmono'; intros c [[H1 H2] [H3 H4]]; lia|].
    cbn. split; [apply Hm; set_solver|apply Hm; set_solver].
  - assert (Hw : forall f, f ∈ [open; high; low; close] -> lo <= weighted (zsum fst l) l f <= hi).
    { intros f Hin. apply weighted_bounds; [by apply Hf|lia|lia]. }
    pose proof (Hw open ltac:(set_solver)). pose proof (Hw high ltac:(set_solver)).
    pose proof (Hw low ltac:(set_solver)). pose proof (Hw close ltac:(set_solver)).
    split; [split; cbn; lia|]. cbn. lia.
Qed.

Lemma survivors_spec l :
  Forall (fun c => 0 <= depth c) l ->
  zsum fst (omap with_candle l) <= zsum depth l /\ (length (omap with_candle l) <= length l)%nat.
Proof.
  induction 1 as [|c l Hc Hl [IH1 IH2]]; [done|].
  assert (E : omap with_candle (c :: l) = match with_candle c with Some s => s :: omap with_candle l | None => omap with_candle l end) by done.
  rewrite E, (zsum_cons depth). destruct (with_candle c) as [s|] eqn:Ew; [|cbn [length]; lia].
  unfold with_candle in Ew. apply bind_Some in Ew as (candle & _ & [= <-]). rewrite zsum_cons. cbn [fst length]. lia.
Qed.

(** The combined candle is well formed and inside the range of the pools' candles. *)
Lemma combine_bounds cands min_abs lo hi out :
  0 <= lo -> Forall (fun c => 0 <= depth c /\ forall candle, cp_candle c = Some candle -> candle_in lo hi candle) cands ->
  zsum depth cands < u128_mod -> hi * (zsum depth cands + Z.of_nat (length cands)) < u128_mod ->
  combine_canonical_unit_candles cands min_abs = Some out -> candle_in lo hi out.
Proof.
  intros Hlo Hall Hsum Hfit. unfold combine_canonical_unit_candles. pose proof (sort_by_perm cand_leb cands) as Hp.
  destruct (sort_by cand_leb cands) as [|ref rest]; [done|]. set (kept := ref :: filter _ rest).
  assert (Hsub : forall c, c ∈ kept -> c ∈ cands).
  { intros c Hc. rewrite <- Hp. unfold kept in Hc. apply elem_of_cons in Hc as [->|Hc]; [apply elem_of_cons; by left|].
    apply list_elem_of_filter in Hc as [_ Hc]. apply elem_of_cons. by right. }
  assert (Hd : Forall (fun c => 0 <= depth c) (ref :: rest)).
  { rewrite Hp. eapply Forall_impl; [exact Hall|]. by intros c [H _]. }
  assert (Hk : zsum depth kept <= zsum depth cands /\ (length kept <= length cands)%nat).
  { rewrite <- Hp. unfold kept. apply Forall_cons in Hd as [_ Hd]. rewrite !zsum_cons. cbn [length].
    pose proof (zsum_filter depth (fun c => floor_for ref min_abs <= depth c) rest Hd).
    pose proof (length_filter (fun c => floor_for ref min_abs <= depth c) rest). lia. }
  assert (Hdk : Forall (fun c => 0 <= depth c) kept).
  { apply Forall_forall. intros c Hc%Hsub. eapply Forall_forall in Hall as [H _]; [exact H|exact Hc]. }
  destruct (survivors_spec kept Hdk) as [Hs1 Hs2].
  assert (Hsv : Forall (fun s => 0 <= s.1 /\ candle_in lo hi s.2) (omap with_candle kept)).
  { apply Forall_forall. intros s (c & Hc & Es)%list_elem_of_omap. unfold with_candle in Es.
    apply bind_Some in Es as (candle & Ec & [= <-]). apply Hsub in Hc. eapply Forall_forall in Hall as [H1 H2]; [|exact Hc].
    split; [exact H1|]. by apply H2. }
  assert (Hnn : 0 <= zsum fst (omap with_candle kept)).
  { apply zsum_nonneg. eapply Forall_impl; [exact Hsv|]. by intros s [H _]. }
  destruct (omap with_candle kept) as [|s [|s' svs]] eqn:E; [done| |].
  - intros [= <-]. apply Forall_cons in Hsv as [[_ H] _]. exact H.
  - intros [= <-]. apply depth_weighted_bounds; [done|done|done|lia|].
    assert (0 <= hi). { apply Forall_cons in Hsv as [[_ [[H1 H2] [H3 H4]]] _]. lia. }
    nia.
Qed.
