(* ===== verification/AmmClaims.v ===== *)
(** * Claims about the AMM data: planning, routes, candles

    The planners are proved over any heap that keeps the laws of [BinaryHeap]; the
    witnesses run them on a heap that is a list. *)
From stdpp Require Import strings.
From S2P Require Import Prelude Bytes RunesTransfer RunesStore RunesChain RunesInscriptions AlkTrace.
From S2P Require Import AmmPath AmmPathProps AmmSearch AmmRoute AmmCandles AmmCandlesProps AmmChart AmmChartFill AmmDepth.
From stdpp Require Import options.

Open Scope Z_scope.

(** ** Planning *)

Section Planning.
Context {bh : BinaryHeap} {laws : BinaryHeapLaws}.

(** C21: An exact-input plan is what it says and is not beaten by a short route. With
    reserves below 2^64 and an input below 2^127 the planner returns; a plan it returns is a chain of pools of the
    snapshot from the one token to the other, over at most [max_hops] pools, each paying
    what the constant product pays, for the given input and at least the asked minimum;
    and when some one or two pools of the snapshot pay at least the minimum, there is a
    plan and it pays no less. *)
Theorem plan_exact_in_best sn tin tout amount_in amount_out_min fee max_hops :
  modest sn -> 0 < amount_in < 2 ^ 127 -> 0 <= fee -> tin <> tout ->
  exists r, plan_swap_exact_tokens_for_tokens sn tin tout amount_in amount_out_min fee max_hops = Some r
  /\ (forall q, r = Some q ->
        quote_ok sn (sells fee) max_hops tin tout q /\ pq_amount_in q = amount_in /\ amount_out_min <= pq_amount_out q)
  /\ (forall edges y, chain tin edges tout -> Forall (edge_in sn) edges -> (length edges <= 2)%nat -> (length edges <= max_hops)%nat ->
        amount_after sn fee edges amount_in = Some y -> 0 < y -> amount_out_min <= y ->
        exists q, r = Some q /\ y <= pq_amount_out q).
Proof using laws.
  intros Hmod Ha Hfee Hne. unfold plan_swap_exact_tokens_for_tokens.
  rewrite (bool_decide_false (tin = tout)) by done. replace (amount_in =? 0) with false by lia. cbn [orb].
  destruct (best_in_total sn fee max_hops tin tout amount_in) as [r Hr]. rewrite Hr. cbn [mbind option_bind].
  eexists. split; [done|]. split.
  - intros q Hq. destruct r as [q'|]; [|done]. cbn in Hq. destruct (Z.leb_spec amount_out_min (pq_amount_out q')); [|done].
    injection Hq as ->. destruct (best_in_sound _ _ _ _ _ _ _ Hr) as [H1 H2]. done.
  - intros edges y Hc He Hl Hm Hy H0 Hmin.
    destruct (best_in_two_hops sn fee max_hops tin tout amount_in Hne Hmod ltac:(lia) Hfee r edges y) as (q & -> & Hq); [done..|].
    exists q. split; [|done]. cbn. by replace (amount_out_min <=? pq_amount_out q) with true by lia.
Qed.

(** C22: An exact-output plan asks for enough, at 64 bits. When the reserves of all pools are
    below 2^64 and the planner returns a plan whose quoted input is below 2^64, the plan
    is a chain of pools over which the quoted input is what the pools ask for the output,
    at most the given maximum; selling that input, or more up to 2^64, along the plan
    buys at least the output; and when the plan is a single pool, selling anything less
    buys less. (With larger amounts the products of the code are cut off at 128 bits, and
    the quote may fall short.) *)
Theorem plan_exact_out_enough sn tin tout amount_out amount_in_max fee max_hops q :
  modest sn -> 0 <= amount_out -> 0 <= fee ->
  plan_swap_tokens_for_exact_tokens sn tin tout amount_out amount_in_max fee max_hops = Some (Some q) ->
  pq_amount_in q < 2 ^ 64 ->
  quote_ok sn (buys fee) max_hops tin tout q /\ pq_amount_out q = amount_out /\ pq_amount_in q <= amount_in_max
  /\ (forall c, pq_amount_in q <= c < 2 ^ 64 ->
        exists got, amount_after sn fee (edges_of (pq_hops q)) c = Some got /\ amount_out <= got)
  /\ (length (pq_hops q) = 1%nat -> forall c got, 0 <= c < pq_amount_in q ->
        amount_after sn fee (edges_of (pq_hops q)) c = Some got -> got < amount_out).
Proof using laws.
  intros Hmod Ho Hfee Hp Hin. unfold plan_swap_tokens_for_exact_tokens in Hp. destruct (_ || _); [done|].
  apply bind_Some in Hp as (r & Hr & Hp). injection Hp as Hp. destruct r as [q'|]; [|done]. cbn in Hp.
  destruct (Z.leb_spec (pq_amount_in q') amount_in_max); [|done]. injection Hp as ->.
  destruct (best_out_sound _ _ _ _ _ _ _ Hr) as [Hq Hout]. split; [done|]. split; [done|]. split; [done|].
  destruct Hq as [_ Hch]. rewrite Hout in Hch. split.
  - intros c Hc. by apply (buys_enough sn fee tout (pq_hops q) tin (pq_amount_in q) amount_out c).
  - intros Hl c got Hc. destruct (pq_hops q) as [|h [|]]; [done| |done]. cbn in Hch.
    destruct Hch as (He & _ & _ & (rin & rout & Hres & Hbuy) & _ & Hho). rewrite Hho in Hbuy.
    destruct (modest_reserves sn Hmod _ He) as (rin' & rout' & Hr' & B1 & B2). rewrite Hres in Hr'. injection Hr' as <- <-.
    cbn. rewrite Hres. cbn. intros Hg.
    pose proof (xyk_in_nonneg rin rout amount_out fee (pq_amount_in q) ltac:(lia) ltac:(lia) Ho Hbuy) as [Hai Hor].
    destruct (xyk_in_spec rin rout amount_out fee (pq_amount_in q)) as [_ Hleast]; try done; try lia;
      [unfold u128_mod; nia|unfold u128_mod; lia|unfold u128_mod; nia|unfold u128_mod; lia|].
    destruct (xyk_out_exact_in rin rout c fee) as [g|] eqn:E; [|done]. cbn in Hg. injection Hg as <-. by eapply Hleast.
Qed.

(** The planners terminate: on every snapshot, for every pair of tokens and whatever
    the amounts, the search runs out of paths within its bound. *)
Theorem planners_terminate sn tin tout amount limit fee max_hops :
  is_Some (plan_swap_exact_tokens_for_tokens sn tin tout amount limit fee max_hops)
  /\ is_Some (plan_swap_tokens_for_exact_tokens sn tin tout amount limit fee max_hops).
Proof using laws.
  unfold plan_swap_exact_tokens_for_tokens, plan_swap_tokens_for_exact_tokens. split; destruct (_ || _); try by eexists.
  - destruct (best_in_total sn fee max_hops tin tout amount) as [r ->]. by eexists.
  - destruct (best_out_total sn fee max_hops tin tout amount) as [r ->]. by eexists.
Qed.

End Planning.

(** The cycle search finds every cycle and nothing else: the paths it lists are those
    from the token back to it over pools of the snapshot, of two to [n] pools, that pass
    no token twice and do not go straight back through the same pool. *)
Theorem cycles_exact sn token n path :
  path ∈ enumerate_cycles (from_snapshot sn) token n <->
  (2 <= length path <= n)%nat /\ chain token path token /\ Forall (edge_in sn) path /\ NoDup (token_out <$> path)
  /\ is_immediate_backtrack_same_pool path = false.
Proof. apply enumerate_spec. Qed.

(** A profit the planner reports is a profit, and on small pools none is missed. The
    swap it returns follows such a cycle, sells at most a third of each reserve, and pays
    back more than it takes. When a cycle has at most 64 inputs to try and one of them
    earns, the planner returns a swap that earns at least as much. *)
Theorem mev_profit sn token fee n :
  modest sn -> 0 <= fee ->
  (forall q, plan_best_mev_swap sn token fee n = Some q ->
     simple_cycle sn token n (edges_of (pq_hops q)) /\ quote_ok sn (sells fee) n token token q
     /\ 1 <= pq_amount_in q < pq_amount_out q
     /\ forall e rin rout, e ∈ edges_of (pq_hops q) -> reserves_for (from_snapshot sn) e = Some (rin, rout) -> 3 * pq_amount_in q <= rin)
  /\ (forall path x q, simple_cycle sn token n path -> 1 <= x <= cap_for_path (from_snapshot sn) path ->
        cap_for_path (from_snapshot sn) path <= 64 -> pathquote_from_edges_exact_in (from_snapshot sn) path x fee = Some q ->
        pq_amount_in q < pq_amount_out q ->
        exists q', plan_best_mev_swap sn token fee n = Some q'
          /\ pq_amount_out q - pq_amount_in q <= pq_amount_out q' - pq_amount_in q').
Proof.
  intros Hmod Hfee. split; [intros q Hq; by apply mev_sound|]. intros path x q. by apply mev_exhaustive.
Qed.

(** ** Routes *)

(** C34: The legs of a transaction are put in the order of the route. A route is always
    built; its legs are the swaps among the given legs, each once; what the trader paid
    and got is, per token, the opposite of what the pools gained; the tokens passed
    through are those that cancel. When the swaps form a path through distinct tokens, in
    whatever order they were recorded, the route is that path. *)
Theorem route_recovered legs0 :
  exists route, build_route legs0 = Some route
  /\ rt_legs route ≡ₚ swap_legs legs0
  /\ (forall t v, rt_net route !! t = Some v <-> v = to_i128 (- pools_delta t (swap_legs legs0)) /\ v <> 0)
  /\ (forall t, t ∈ rt_via route <-> (exists leg, leg ∈ swap_legs legs0 /\ touches t leg) /\ to_i128 (- pools_delta t (swap_legs legs0)) = 0)
  /\ (forall l t0 fin, legs0 ≡ₚ l -> leg_path t0 l fin -> NoDup (path_tokens l fin) -> rt_legs route = l).
Proof.
  destruct (build_route_spec legs0) as (route & E & H1 & H2 & H3). exists route. split_and!; [done..|].
  intros l t0 fin Hp Hl Hnd. destruct (build_route_path legs0 l t0 fin Hp Hl Hnd) as (route' & E' & <-). congruence.
Qed.

(** ** Candles *)

(** What a candle says of the trades of its bucket. *)
Definition summarises (c : SchemaCandleV1) (ticks : list Tick) : Prop :=
  match ticks with
  | [] => False
  | first :: _ =>
      open c = first.1 /\ close c = (from_option fst first.1 (last ticks))
      /\ high c = foldr Z.max first.1 ticks.*1 /\ low c = foldr Z.min first.1 ticks.*1
      /\ volume c = Z.min (u128_mod - 1) (total_volume ticks)
  end.

Lemma candle_of_summarises l c : Forall tick_ok l -> candle_of l = Some c -> summarises c l.
Proof.
  destruct l as [|x l]; [done|]. intros [Hx Hl]%Forall_cons [= <-]. cbn [summarises].
  destruct (candle_from_spec l (tick_candle x) Hl (tick_candle_u128 x Hx)) as (-> & -> & -> & -> & ->).
  rewrite last_cons. split_and!; [done|by destruct (last l)| | |done].
  - cbn. clear. induction l as [|y l IH]; cbn; [lia|]. lia.
  - cbn. clear. induction l as [|y l IH]; cbn; [lia|]. lia.
Qed.

Section Candles.
Context {codec : CandleCodec} {claws : CandleCodecLaws}.

(** The stored ten-minute candles are the summary of all trades. However the trades are
    cut into blocks, and whatever else the blocks write, indexing them succeeds, and for
    every pool and bucket there is a row exactly when the bucket has trades: its base and
    its quote candle give the first and the last price, the extremes and the total volume
    (cut off at 128 bits) of those trades. *)
Theorem candles_follow_trades frames blocks kv :
  rows_follow kv M10 [] -> rows_decode kv -> Forall (fun b => Forall trade_ok b.1 /\ Forall other_put b.2) blocks ->
  NoDup frames -> M10 ∈ frames ->
  exists kv', candle_blocks frames kv blocks = Some kv'
  /\ forall pool b, id_ok pool -> in_u64 b ->
       let trades := bucket_trades (mkCandleKey pool M10 b) (blocks ≫= fst) in
       match kv' !! candle_key pool M10 b with
       | None => trades = []
       | Some raw => exists c, decode_full_candle_v1 raw = Some c
           /\ summarises (base_candle c) (base_tick <$> trades) /\ summarises (quote_candle c) (quote_tick <$> trades)
       end.
Proof using claws.
  intros Hrf Hdec Hbs Hnd Hf.
  destruct (candle_blocks_follow frames blocks kv [] Hrf Hdec ltac:(constructor) Hbs Hnd Hf) as (kv' & E & [Hrow _] & _).
  exists kv'. split; [done|]. intros pool b Hp Hb trades. rewrite Hrow by done. cbn [app]. fold trades.
  assert (Hok : Forall trade_ok trades).
  { apply bucket_trades_ok. clear -Hbs. induction Hbs as [|blk bs [H _] _ IH]; [constructor|]. rewrite bind_cons. by apply Forall_app. }
  destruct (full_of trades) as [c|] eqn:Ec; cbn [fmap option_fmap option_map]; [|by apply full_of_none].
  exists c. split; [apply candle_codec_roundtrip; by eapply full_of_u128|].
  destruct (trade_ticks trades Hok) as [Hbt Hqt]. unfold full_of in Ec.
  destruct (candle_of (base_tick <$> trades)) as [cb|] eqn:Eb; [|done]. destruct (candle_of (quote_tick <$> trades)) as [cq|] eqn:Eq; [|done].
  injection Ec as <-. cbn. split; by apply candle_of_summarises.
Qed.

Lemma chain_open_ohlc c x : ohlc c -> ohlc (chain_open c x).
Proof using. unfold ohlc, chain_open. cbn. intros [H1 H2]. destruct (Z.ltb_spec (high c) x), (Z.ltb_spec x (low c)); lia. Qed.

Lemma flat_ohlc x : ohlc (flat x).
Proof using. unfold ohlc. cbn. lia. Qed.

Lemma candle_of_ohlc l c : candle_of l = Some c -> ohlc c.
Proof using.
  destruct l as [|x l]; [done|]. intros [= <-].
  assert (H : ohlc (tick_candle x)) by (unfold ohlc; cbn; lia). revert H. generalize (tick_candle x).
  induction l as [|y l IH]; intros c0 H; cbn; [done|]. apply IH. unfold ohlc, candle_update in *. cbn. lia.
Qed.

Lemma full_of_ohlc l c side : full_of l = Some c -> ohlc (side_candle side c).
Proof using.
  unfold full_of. destruct (candle_of (base_tick <$> l)) eqn:E1; [|done]. destruct (candle_of (quote_tick <$> l)) eqn:E2; [|done].
  intros [= <-]. destruct side; cbn; by eapply candle_of_ohlc.
Qed.

(** C13: A chart has every bucket. From rows that follow the trades, reading a chart returns;
    without a trade of the pool it is empty. Otherwise its candles, oldest first, are those
    of the consecutive buckets from the first with a trade to the last with one or to now,
    whichever is later: each is well formed, opens where the one before closed, and has
    the close, the volume and at least the range of its bucket's trades, or, in a bucket
    without trades, is flat at the close before. *)
Theorem chart_correct kv pool tf trades now side :
  rows_follow kv tf trades -> Forall trade_ok trades -> id_ok pool -> in_u64 now ->
  exists slice, read_candles_v1 kv pool tf now side = Some slice
  /\ ((forall b, bucket_trades (mkCandleKey pool tf b) trades = []) -> candles_newest_first slice = [])
  /\ (forall b, bucket_trades (mkCandleKey pool tf b) trades <> [] ->
      let cs := reverse (candles_newest_first slice) in
      exists first newest, bucket_trades (mkCandleKey pool tf first) trades <> [] /\ bucket_trades (mkCandleKey pool tf newest) trades <> []
      /\ first <= b <= newest
      /\ first + (Z.of_nat (length cs) - 1) * duration_secs tf = Z.max newest (bucket_start now tf)
      /\ forall i c, cs !! i = Some c ->
           ohlc c
           /\ (forall c0, (0 < i)%nat -> cs !! (i - 1)%nat = Some c0 -> open c = close c0)
           /\ match full_of (bucket_trades (mkCandleKey pool tf (first + Z.of_nat i * duration_secs tf)) trades) with
              | Some fc => let s := side_candle side fc in
                  close c = close s /\ volume c = volume s /\ low c <= low s /\ high s <= high c
              | None => forall c0, cs !! (i - 1)%nat = Some c0 -> c = flat (close c0)
              end).
Proof using claws.
  intros Hrf Hok Hp Hnow. destruct (read_chart kv pool tf trades now side Hrf Hok Hp Hnow) as (m & Hm & Hcase).
  assert (Hsome : forall b, is_Some (m !! b) <-> bucket_trades (mkCandleKey pool tf b) trades <> []).
  { intros b. rewrite Hm. unfold chart_rows. rewrite <- not_eq_None_Some. by rewrite full_of_none. }
  destruct Hcase as [[-> Hread]|(start & n & k & Hs & Hall & Hn & Hend & Hread)]; rewrite Hread; eexists; (split; [done|]).
  { split; [done|]. intros b Hb%Hsome. rewrite lookup_empty in Hb. by destruct Hb. }
  split; [intros H; apply Hsome in Hs; by rewrite H in Hs|]. intros b Hb cs. exists start, (at_bucket start (duration_secs tf) n).
  cbn [candles_newest_first] in *. unfold cs. rewrite reverse_involutive, length_fmap, length_seq.
  split_and!; [by apply Hsome|by apply Hsome|apply Hall; by apply Hsome|apply Hall; by apply Hsome| |].
  { rewrite <- Hend. unfold at_bucket. lia. }
  intros i c Hi. apply list_lookup_fmap_Some in Hi as (i' & -> & Hi'). apply lookup_seq in Hi' as [-> Hi'].
  assert (Hprev : forall c0, (0 < i)%nat -> (chart_candle m side start (duration_secs tf) <$> seq 0 (S (n + k))) !! (i - 1)%nat = Some c0 ->
                   close c0 = before m side start (duration_secs tf) i).
  { intros c0 H0 Hc0. apply list_lookup_fmap_Some in Hc0 as (j & -> & Hj). apply lookup_seq in Hj as [-> _].
    rewrite chart_close. destruct i as [|i]; [lia|]. cbn [before]. f_equal. lia. }
  cbn [Nat.add] in *. change (start + Z.of_nat i * duration_secs tf) with (at_bucket start (duration_secs tf) i).
  pose proof (Hm (at_bucket start (duration_secs tf) i)) as Hmi. unfold chart_rows in Hmi. rewrite <- Hmi.
  unfold chart_candle. destruct (m !! at_bucket start (duration_secs tf) i) as [fc|] eqn:Efc.
  - pose proof (full_of_ohlc _ _ side (eq_sym Hmi)) as Ho. destruct i as [|i].
    + split; [done|]. split; [intros; lia|]. cbn. split_and!; done || lia.
    + split; [by apply chain_open_ohlc|]. split; [intros c0 H0 Hc0; by rewrite (Hprev c0 H0 Hc0)|].
      cbn. split_and!; [done|done| |].
      * destruct (Z.ltb_spec (carry m side start (duration_secs tf) i) (low (side_candle side fc))); lia.
      * destruct (Z.ltb_spec (high (side_candle side fc)) (carry m side start (duration_secs tf) i)); lia.
  - assert (H0 : (0 < i)%nat).
    { destruct i as [|i]; [|lia]. exfalso. destruct Hs as [x Hx]. unfold at_bucket in Efc. rewrite Z.add_0_r in Efc. congruence. }
    split; [apply flat_ohlc|]. split; intros c0 **; [by rewrite (Hprev c0)|]. by rewrite (Hprev c0).
Qed.

(** The time a chart is labelled with is the bucket of now, whether or not there is a candle
    in it. *)
Theorem chart_labelled_now kv pool tf trades now side b :
  rows_follow kv tf trades -> Forall trade_ok trades -> id_ok pool -> in_u64 now -> bucket_trades (mkCandleKey pool tf b) trades <> [] ->
  exists slice, read_candles_v1 kv pool tf now side = Some slice /\ newest_ts slice = bucket_start now tf.
Proof using claws.
  intros Hrf Hok Hp Hnow Hb. destruct (read_chart kv pool tf trades now side Hrf Hok Hp Hnow) as (m & Hm & [[-> _]|(start & n & k & _ & _ & _ & _ & Hread)]).
  - exfalso. specialize (Hm b). unfold chart_rows in Hm. rewrite lookup_empty in Hm. symmetry in Hm. by apply Hb, full_of_none.
  - rewrite Hread. by eexists.
Qed.

End Candles.

(** ** Depth *)

(** C15: The candle that combines a token's pools is inside them. When no sum overflows, it
    is well formed and every price of it lies between the lowest and the highest price of
    the pools' candles. *)
Theorem depth_bounds cands min_abs lo hi out :
  0 <= lo -> Forall (fun c => 0 <= depth c /\ forall candle, cp_candle c = Some candle -> candle_in lo hi candle) cands ->
  zsum depth cands < u128_mod -> hi * (zsum depth cands + Z.of_nat (length cands)) < u128_mod ->
  combine_canonical_unit_candles cands min_abs = Some out ->
  lo <= low out /\ low out <= open out <= high out /\ low out <= close out <= high out /\ high out <= hi.
Proof.
  intros H1 H2 H3 H4 H5. destruct (combine_bounds cands min_abs lo hi out H1 H2 H3 H4 H5) as [[H6 H7] [H8 H9]]. tauto.
Qed.

(** A dust pool cannot move the price. A pool less deep than another and below the
    floor that one sets has no effect: whatever its candle says and wherever it comes in
    the list of pools, the result is that of the other pools without it. *)
Theorem depth_dust cands others c r min_abs :
  cands ≡ₚ c :: others -> NoDup (cp_pool <$> cands) -> r ∈ others -> depth c < depth r ->
  depth c < Z.max (u128_sat_mul (depth r) MIN_RELATIVE_DEPTH_BPS / 10000) min_abs ->
  combine_canonical_unit_candles cands min_abs = combine_canonical_unit_candles others min_abs.
Proof. intros Hp Hnd Hr H1 H2. rewrite (combine_perm _ _ min_abs Hp Hnd). by apply (combine_dust c r). Qed.

(** ** Witnesses *)

(** A heap that is a list. *)
Fixpoint pop_max (key : Node -> Z) (h : list Node) : option (Node * list Node) :=
  match h with
  | [] => None
  | x :: h' =>
      match pop_max key h' with
      | None => Some (x, [])
      | Some (y, r) => if key y <=? key x then Some (x, h') else Some (y, x :: r)
      end
  end.

#[local] Instance list_heap : BinaryHeap := { heap_pop := pop_max }.

#[local] Instance list_heap_laws : BinaryHeapLaws.
Proof.
  split; intros key h.
  - destruct h as [|x h]; [done|]. cbn. destruct (pop_max key h) as [[y r]|]; [|done]. by destruct (key y <=? key x).
  - cbn. induction h as [|x h IH]; [done|]. cbn. intros z h'. destruct (pop_max key h) as [[y r]|] eqn:E.
    + destruct (IH y r eq_refl) as [Hp Hall]. destruct (Z.leb_spec (key y) (key x)); intros [= <- <-].
      * split; [done|]. rewrite Hp. constructor; [done|]. eapply Forall_impl; [exact Hall|]. cbn. lia.
      * split; [rewrite Hp; constructor|]. constructor; [lia|done].
    + intros [= <- <-]. assert (h = []) as ->; [|by split; constructor].
      destruct h as [|y h]; [done|]. cbn in E. destruct (pop_max key h) as [[w r]|]; [by destruct (key w <=? key y)|done].
Defined.

Definition tok (n : Z) : SchemaAlkaneId := mkAlkaneId 2 n.
Definition pool_no (n : Z) : SchemaAlkaneId := mkAlkaneId 4 n.

Definition demo_snapshot : gmap SchemaAlkaneId SchemaPoolSnapshot :=
  list_to_map [(pool_no 1, mkPoolSnapshot 1000000 2000000 (tok 1) (tok 2));
               (pool_no 2, mkPoolSnapshot 1000000 1000000 (tok 2) (tok 3));
               (pool_no 3, mkPoolSnapshot 1000 1000 (tok 1) (tok 3))].

Definition demo_edges : list Edge := [mkEdge (pool_no 1) (tok 1) (tok 2); mkEdge (pool_no 2) (tok 2) (tok 3)].

Lemma demo_modest : modest demo_snapshot.
Proof. unfold modest. apply (bool_decide_unpack _). vm_compute. exact I. Qed.

Lemma demo_edges_in : Forall (edge_in demo_snapshot) demo_edges.
Proof.
  apply Forall_cons; split; [|apply Forall_cons; split; [|constructor]]; eexists;
    (split; [vm_compute; reflexivity|]); (split; [done|split; [done|by left]]).
Qed.

Lemma plan_exact_in_best_witness :
  exists q, plan_swap_exact_tokens_for_tokens demo_snapshot (tok 1) (tok 3) 10000 15000 50 3 = Some (Some q)
    /\ 19000 <= pq_amount_out q.
Proof.
  destruct (plan_exact_in_best demo_snapshot (tok 1) (tok 3) 10000 15000 50 3 demo_modest ltac:(done) ltac:(done) ltac:(done))
    as (r & Hr & _ & Hbest).
  destruct (Hbest demo_edges 19227) as (q & Hq1 & Hq);
    [exact (conj eq_refl (conj eq_refl eq_refl))|exact demo_edges_in|cbn; lia|cbn; lia|vm_compute; reflexivity|lia|lia|].
  exists q. split; [by rewrite Hr, Hq1|lia].
Defined.

Lemma plan_exact_out_enough_witness :
  exists q, plan_swap_tokens_for_exact_tokens demo_snapshot (tok 1) (tok 2) 5000 3000 50 3 = Some (Some q)
    /\ exists got, amount_after demo_snapshot 50 (edges_of (pq_hops q)) 3000 = Some got /\ 5000 <= got.
Proof.
  destruct (plan_swap_tokens_for_exact_tokens demo_snapshot (tok 1) (tok 2) 5000 3000 50 3) as [[q|]|] eqn:E;
    [|vm_compute in E; discriminate..].
  exists q. split; [done|].
  assert (Hq : pq_amount_in q <= 3000) by (vm_compute in E; injection E as <-; cbn; lia).
  destruct (plan_exact_out_enough demo_snapshot (tok 1) (tok 2) 5000 3000 50 3 q demo_modest ltac:(done) ltac:(done) E ltac:(lia))
    as (_ & _ & _ & Henough & _).
  apply Henough. lia.
Defined.

Lemma planners_terminate_witness :
  is_Some (plan_swap_exact_tokens_for_tokens demo_snapshot (tok 1) (tok 3) 10000 15000 50 3).
Proof. exact (proj1 (planners_terminate demo_snapshot (tok 1) (tok 3) 10000 15000 50 3)). Defined.

(** Three small pools around which a unit gains. *)
Definition demo_small : gmap SchemaAlkaneId SchemaPoolSnapshot :=
  list_to_map [(pool_no 1, mkPoolSnapshot 90 180 (tok 1) (tok 2));
               (pool_no 2, mkPoolSnapshot 120 150 (tok 2) (tok 3));
               (pool_no 3, mkPoolSnapshot 150 120 (tok 3) (tok 1))].

Definition demo_cycle : list Edge :=
  [mkEdge (pool_no 1) (tok 1) (tok 2); mkEdge (pool_no 2) (tok 2) (tok 3); mkEdge (pool_no 3) (tok 3) (tok 1)].

Lemma demo_cycle_found : demo_cycle ∈ enumerate_cycles (from_snapshot demo_small) (tok 1) 3.
Proof. apply (bool_decide_unpack _). vm_compute. exact I. Qed.

Lemma mev_profit_witness :
  exists q, plan_best_mev_swap demo_small (tok 1) 50 3 = Some q /\ 1 <= pq_amount_in q < pq_amount_out q.
Proof.
  assert (Hmod : modest demo_small) by (unfold modest; apply (bool_decide_unpack _); vm_compute; exact I).
  destruct (mev_profit demo_small (tok 1) 50 3 Hmod ltac:(done)) as [Hsound Hall].
  destruct (pathquote_from_edges_exact_in (from_snapshot demo_small) demo_cycle 11 50) as [q0|] eqn:E; [|vm_compute in E; discriminate].
  destruct (Hall demo_cycle 11 q0) as (q & Hq & _); [apply enumerate_spec, demo_cycle_found|vm_compute; split; discriminate|
    vm_compute; discriminate|exact E|vm_compute in E; injection E as <-; cbn; lia|].
  exists q. split; [done|]. by destruct (Hsound q Hq) as (_ & _ & H & _).
Defined.

(** Borsh of a candle: the fields in order, little endian. *)
Definition candle_fields (c : SchemaCandleV1) : list Z := [open c; high c; low c; close c; volume c].
Definition full_fields (c : SchemaFullCandleV1) : list Z := candle_fields (base_candle c) ++ candle_fields (quote_candle c).

Fixpoint read_u128s (n : nat) (b : bytes) : list Z :=
  match n with O => [] | S n' => from_le (take 16 b) :: read_u128s n' (drop 16 b) end.

Definition full_of_fields (l : list Z) : option SchemaFullCandleV1 :=
  match l with
  | [a; b; c; d; e; a'; b'; c'; d'; e'] => Some (mkFullCandle (mkCandle a b c d e) (mkCandle a' b' c' d' e'))
  | _ => None
  end.

#[local] Instance borsh_candles : CandleCodec := {
  encode_full_candle_v1 c := full_fields c ≫= le_bytes 16;
  decode_full_candle_v1 raw := if (length raw =? 160)%nat then full_of_fields (read_u128s 10 raw) else None;
}.

Lemma read_u128s_bytes l : Forall in_u128 l -> read_u128s (length l) (l ≫= le_bytes 16) = l.
Proof.
  induction 1 as [|z l Hz _ IH]; [done|]. rewrite bind_cons. cbn [length read_u128s].
  rewrite take_app_length', drop_app_length' by (by rewrite length_le_bytes). rewrite IH, from_le_le_bytes.
  change (256 ^ Z.of_nat 16) with u128_mod. rewrite Z.mod_small by done. done.
Qed.

Lemma length_fields_bytes l : length (l ≫= le_bytes 16) = (16 * length l)%nat.
Proof. induction l as [|z l IH]; [done|]. rewrite bind_cons, length_app, IH, length_le_bytes. cbn [length]. lia. Qed.

Lemma from_le_u128 b : in_u128 (from_le (take 16 b)).
Proof.
  pose proof (from_le_range (take 16 b)) as H. rewrite length_take in H. unfold in_u128.
  assert (256 ^ Z.of_nat (16 `min` length b) <= 256 ^ 16) by (apply Z.pow_le_mono_r; lia).
  change (256 ^ 16) with u128_mod in *. lia.
Qed.

#[local] Instance borsh_candles_laws : CandleCodecLaws.
Proof.
  split.
  - intros raw c. cbn. destruct (length raw =? 160)%nat; [|done]. intros [= <-]. repeat split; cbn; apply from_le_u128.
  - intros c [Hb Hq].
    change (decode_full_candle_v1 (encode_full_candle_v1 c)) with
      (if (length (full_fields c ≫= le_bytes 16) =? 160)%nat then full_of_fields (read_u128s 10 (full_fields c ≫= le_bytes 16)) else None).
    rewrite length_fields_bytes. change (16 * length (full_fields c) =? 160)%nat with true. cbn iota.
    assert (Hf : Forall in_u128 (full_fields c)).
    { unfold candle_u128 in *. unfold full_fields, candle_fields. cbn [app]. rewrite !Forall_cons, Forall_nil. tauto. }
    pose proof (read_u128s_bytes _ Hf) as Hr. change (length (full_fields c)) with 10%nat in Hr.
    rewrite Hr. by destruct c as [[] []].
Defined.

Definition demo_trade (ts p v : Z) : Trade := mkTrade ts (pool_no 1) (2 * p) p v (2 * v).

(** Two blocks; the second also writes a row of another table. *)
Definition demo_candle_blocks : list (list Trade * list (bytes * bytes)) :=
  [([demo_trade 700 5 10; demo_trade 800 9 20], []); ([demo_trade 1100 7 5; demo_trade 2500 8 1], [(bstr "/index_height", [])])].

Lemma demo_blocks_ok : Forall (fun b => Forall trade_ok b.1 /\ Forall other_put b.2) demo_candle_blocks.
Proof.
  assert (Ht : forall ts p v, in_u64 ts -> in_u128 (2 * p) -> in_u128 p -> 0 <= v -> trade_ok (demo_trade ts p v)).
  { intros ts p v H1 H2 H3 H4. unfold trade_ok, id_ok, in_u32, in_u64. cbn. unfold in_u64 in H1. split_and!; try done; lia. }
  apply Forall_cons. split; [|apply Forall_cons; split; [|constructor]]; cbn [fst snd]; split.
  - rewrite !Forall_cons, Forall_nil. split_and!; try apply Ht; done.
  - constructor.
  - rewrite !Forall_cons, Forall_nil. split_and!; try apply Ht; done.
  - rewrite Forall_cons, Forall_nil. split; [|done]. left. intros pool tf _. apply not_true_iff_false. intros [r E]%starts_with_iff. discriminate E.
Qed.

Lemma demo_rows_empty : rows_follow ∅ M10 [] /\ rows_decode ∅.
Proof.
  split; [split|].
  - intros pool b _ _. by rewrite lookup_empty.
  - intros k pool _ _ H. rewrite lookup_empty in H. by destruct H.
  - intros key raw _ H. by rewrite lookup_empty in H.
Qed.

Lemma demo_frames : NoDup active_timeframes /\ M10 ∈ active_timeframes.
Proof. split; [apply (bool_decide_unpack _); vm_compute; exact I|apply elem_of_cons; by left]. Qed.

Lemma demo_pool_ok : id_ok (pool_no 1).
Proof. by repeat split. Qed.

Lemma demo_ts_ok ts : (0 <=? ts) && (ts <? 2 ^ 64) = true -> in_u64 ts.
Proof. unfold in_u64. lia. Qed.

Lemma candles_follow_trades_witness :
  exists kv raw c, candle_blocks active_timeframes ∅ demo_candle_blocks = Some kv
  /\ kv !! candle_key (pool_no 1) M10 600 = Some raw /\ decode_full_candle_v1 raw = Some c
  /\ open (base_candle c) = 5 /\ high (base_candle c) = 9 /\ close (base_candle c) = 7.
Proof.
  destruct (candles_follow_trades active_timeframes demo_candle_blocks ∅ (proj1 demo_rows_empty) (proj2 demo_rows_empty)
    demo_blocks_ok (proj1 demo_frames) (proj2 demo_frames)) as (kv & E & Hrow).
  specialize (Hrow (pool_no 1) 600 demo_pool_ok (demo_ts_ok 600 eq_refl)). cbn zeta in Hrow.
  assert (Ht : bucket_trades (mkCandleKey (pool_no 1) M10 600) (demo_candle_blocks ≫= fst)
               = [demo_trade 700 5 10; demo_trade 800 9 20; demo_trade 1100 7 5]) by (vm_compute; reflexivity).
  rewrite Ht in Hrow. destruct (kv !! candle_key (pool_no 1) M10 600) as [raw|] eqn:Hr; [|discriminate].
  destruct Hrow as (c & Hc & (H1 & H2 & H3 & _) & _). exists kv, raw, c. split_and!; [exact E|exact Hr|exact Hc|exact H1|exact H3|exact H2].
Defined.

Lemma demo_chart_rows : exists kv, candle_blocks active_timeframes ∅ demo_candle_blocks = Some kv
  /\ rows_follow kv M10 (demo_candle_blocks ≫= fst).
Proof.
  destruct (candle_blocks_follow active_timeframes demo_candle_blocks ∅ [] (proj1 demo_rows_empty) (proj2 demo_rows_empty)
    ltac:(constructor) demo_blocks_ok (proj1 demo_frames) (proj2 demo_frames)) as (kv & E & Hrow & _). exists kv. cbn [app] in Hrow. split; [exact E|exact Hrow].
Qed.

Lemma demo_trades_ok : Forall trade_ok (demo_candle_blocks ≫= fst).
Proof. pose proof demo_blocks_ok as H. induction H as [|b bs [Hb _] _ IH]; [constructor|]. rewrite bind_cons. by apply Forall_app. Qed.

(** The trades fall in the buckets 600 and 2400: at 3700 the chart has the buckets up to 3600. *)
Lemma chart_correct_witness :
  exists kv slice, rows_follow kv M10 (demo_candle_blocks ≫= fst)
  /\ read_candles_v1 kv (pool_no 1) M10 3700 Base = Some slice /\ (6 <= length (candles_newest_first slice))%nat.
Proof.
  destruct demo_chart_rows as (kv & _ & Hrow). exists kv.
  destruct (chart_correct kv (pool_no 1) M10 (demo_candle_blocks ≫= fst) 3700 Base Hrow) as (slice & Hr & _ & Hall);
    [exact demo_trades_ok|exact demo_pool_ok|exact (demo_ts_ok 3700 eq_refl)|].
  destruct (Hall 600) as (first & newest & _ & _ & Hfirst & Hlen & _); [vm_compute; discriminate|].
  exists slice. split; [exact Hrow|]. split; [exact Hr|]. rewrite length_reverse in Hlen. change (duration_secs M10) with 600 in Hlen. change (bucket_start 3700 M10) with 3600 in Hlen. lia.
Defined.

Definition demo_cands : list CanonicalPoolCandidate :=
  [mkCandidate (pool_no 1) 30000000 (Some (mkCandle 100 120 90 110 1));
   mkCandidate (pool_no 2) 10000000 (Some (mkCandle 200 220 190 210 2))].

Definition demo_dust : CanonicalPoolCandidate := mkCandidate (pool_no 3) 500000 (Some (mkCandle 9000 9000 9000 9000 7)).

Lemma depth_bounds_witness :
  combine_canonical_unit_candles demo_cands MIN_ABS_DEPTH_BTC = Some (mkCandle 125 145 115 135 3) /\ 90 <= 115 /\ 145 <= 220.
Proof.
  assert (E : combine_canonical_unit_candles demo_cands MIN_ABS_DEPTH_BTC = Some (mkCandle 125 145 115 135 3)) by (vm_compute; reflexivity).
  split; [exact E|].
  assert (Hin : Forall (fun c => 0 <= depth c /\ forall candle, cp_candle c = Some candle -> candle_in 90 220 candle) demo_cands).
  { clear E. unfold demo_cands. rewrite !Forall_cons, Forall_nil. split_and!; try exact I; try (cbn; lia);
      intros candle [= <-]; unfold candle_in, ohlc; cbn; lia. }
  destruct (depth_bounds demo_cands MIN_ABS_DEPTH_BTC 90 220 _ ltac:(lia) Hin ltac:(reflexivity) ltac:(reflexivity) E) as (H1 & _ & _ & H2).
  split; [exact H1|exact H2].
Defined.

Lemma depth_dust_witness :
  combine_canonical_unit_candles (demo_dust :: demo_cands) MIN_ABS_DEPTH_BTC = combine_canonical_unit_candles demo_cands MIN_ABS_DEPTH_BTC.
Proof.
  refine (depth_dust (demo_dust :: demo_cands) demo_cands demo_dust (mkCandidate (pool_no 1) 30000000 (Some (mkCandle 100 120 90 110 1)))
    MIN_ABS_DEPTH_BTC _ _ _ _ _); [done|apply (bool_decide_unpack _); vm_compute; exact I|apply elem_of_cons; by left|done|vm_compute; done].
Defined.

(** On overflow each price is divided by the total depth before it is weighted: two pools
    that agree on a price below that depth are combined to zero. *)
Example overflow_loses_price :
  let c := mkCandle 10000000000000000000 10000000000000000000 10000000000000000000 10000000000000000000 1 in
  combine_canonical_unit_candles [mkCandidate (pool_no 1) 40000000000000000000 (Some c);
    mkCandidate (pool_no 2) 40000000000000000000 (Some c)] 0 = Some (mkCandle 0 0 0 0 2).
Proof. vm_compute. reflexivity. Qed.

(** Forty rounds of the ternary search leave about 9e-8 of the range: with deep pools the
    local search at the end still has hundreds of billions of inputs to try. *)
Definition demo_deep : gmap SchemaAlkaneId SchemaPoolSnapshot :=
  list_to_map [(pool_no 1, mkPoolSnapshot 9000000000000000000 9500000000000000000 (tok 1) (tok 2));
               (pool_no 2, mkPoolSnapshot 9000000000000000000 9500000000000000000 (tok 2) (tok 1))].

Example local_scan_is_large :
  let g := from_snapshot demo_deep in
  let path := [mkEdge (pool_no 1) (tok 1) (tok 2); mkEdge (pool_no 2) (tok 2) (tok 1)] in
  (match ternary g path 50 40 1 (cap_for_path g path) (None, i128_min) with
   | Some (lo, hi, _) => 200000000000 <=? hi - lo
   | None => false
   end) = true.
Proof. vm_compute. reflexivity. Qed.
