(* ===== verification/AmmActivity.v ===== *)
(** * Pool activity

    [src/modules/ammdata/utils/activity.rs] with the schema of
    [src/modules/ammdata/schemas.rs]: every trade and liquidity event of a pool is a row
    under its timestamp and a sequence number, and seven secondary indexes, for all the
    events and for its group, order the rows by time, by amount and by side.  A page is read
    by walking an index and fetching the rows it names.

    The namespace is a finite map, as in [AmmCandles]; the borsh encoding is the class
    [ActivityCodec].  A row shown to the client keeps its numbers as numbers: the decimal,
    hexadecimal and floating-point renderings of its fields are not modelled. *)
From stdpp Require Import strings.
From S2P Require Import Prelude Bytes RunesTransfer RunesStore RunesChain RunesInscriptions AlkTrace AmmPath AmmCandles.
From stdpp Require Import options.

Open Scope Z_scope.

(** ** Schemas *)

Inductive ActivityKind := TradeBuy | TradeSell | LiquidityAdd | LiquidityRemove | PoolCreate.
Inductive ActivityDirection := BaseIn | QuoteIn.
Inductive ActivityGroup := GTrades | GEvents.
Inductive ActivityFilter := FAll | FTrades | FEvents.

#[global] Instance ActivityKind_eq_dec : EqDecision ActivityKind.
Proof. solve_decision. Defined.
#[global] Instance ActivityDirection_eq_dec : EqDecision ActivityDirection.
Proof. solve_decision. Defined.
#[global] Instance ActivityGroup_eq_dec : EqDecision ActivityGroup.
Proof. solve_decision. Defined.
#[global] Instance ActivityGroup_countable : Countable ActivityGroup.
Proof. by apply (inj_countable' (fun g => bool_decide (g = GTrades)) (fun b : bool => if b then GTrades else GEvents)); intros []. Defined.

Record SchemaActivityV1 := mkAct {
  ac_timestamp : Z;
  ac_txid : bytes;
  ac_kind : ActivityKind;
  ac_direction : option ActivityDirection;
  base_delta : Z;
  quote_delta : Z;
  address_spk : bytes;
  success : bool;
}.

#[global] Instance SchemaActivityV1_eq_dec : EqDecision SchemaActivityV1.
Proof. solve_decision. Defined.

Record SchemaActivityV1Legacy := mkActLegacy {
  al_timestamp : Z;
  al_txid : bytes;
  al_kind : ActivityKind;
  al_direction : option ActivityDirection;
  al_base_delta : Z;
  al_quote_delta : Z;
}.

(** Borsh: [to_vec] and the two [try_from_slice]. *)
Class ActivityCodec := {
  activity_to_vec : SchemaActivityV1 -> option bytes;
  activity_from_slice : bytes -> option SchemaActivityV1;
  legacy_from_slice : bytes -> option SchemaActivityV1Legacy;
}.

(** ** Keys *)

(** [v.to_string()], [format!("{}", v)] of the two numbers of an identifier. *)
Definition id_decimal (pool : SchemaAlkaneId) : bytes := to_string (ak_block pool) ++ [colon] ++ to_string (ak_tx pool) ++ [colon].

Definition activity_ns_prefix (pool : SchemaAlkaneId) : bytes := bstr "activity:v1:" ++ id_decimal pool.

Definition activity_key (pool : SchemaAlkaneId) (ts seq : Z) : bytes :=
  activity_ns_prefix pool ++ to_string ts ++ [colon] ++ to_string seq.

Definition be_u32 (x : Z) : bytes := be_bytes 4 x.
Definition be_u64 (x : Z) : bytes := be_bytes 8 x.
Definition be_u128 (x : Z) : bytes := be_bytes 16 x.

(** [(-x) as u128]: the negation of [i128::MIN] wraps to itself. *)
Definition abs_i128 (x : Z) : Z := if x <? 0 then to_i128 (- x) mod u128_mod else x mod u128_mod.

Definition side_code (v : Z) : Z := if v <? 0 then 0 else if 0 <? v then 2 else 1.

Definition group_for_kind (kind : ActivityKind) : ActivityGroup :=
  match kind with TradeBuy | TradeSell => GTrades | LiquidityAdd | LiquidityRemove | PoolCreate => GEvents end.

Definition group_tag (g : ActivityGroup) : bytes := match g with GTrades => bstr "trades" | GEvents => bstr "events" end.

Definition group_from_filter (filter : ActivityFilter) : option ActivityGroup :=
  match filter with FAll => None | FTrades => Some GTrades | FEvents => Some GEvents end.

Definition idx_ns_prefix (pool : SchemaAlkaneId) (group : option ActivityGroup) : bytes :=
  bstr "activity:idx:v1:" ++ id_decimal pool ++ match group with Some g => group_tag g ++ [colon] | None => [] end.

Definition idx_prefix_ts pool group := idx_ns_prefix pool group ++ bstr "ts:".
Definition idx_prefix_absb pool group := idx_ns_prefix pool group ++ bstr "absb:".
Definition idx_prefix_absq pool group := idx_ns_prefix pool group ++ bstr "absq:".
Definition idx_prefix_sb_absb pool group := idx_ns_prefix pool group ++ bstr "sb_absb:".
Definition idx_prefix_sq_absq pool group := idx_ns_prefix pool group ++ bstr "sq_absq:".
Definition idx_prefix_sb_ts pool group := idx_ns_prefix pool group ++ bstr "sb_ts:".
Definition idx_prefix_sq_ts pool group := idx_ns_prefix pool group ++ bstr "sq_ts:".

Definition idx_count_key (pool : SchemaAlkaneId) : bytes := idx_ns_prefix pool None ++ bstr "__count".
Definition idx_count_key_group (pool : SchemaAlkaneId) (g : ActivityGroup) : bytes := idx_ns_prefix pool (Some g) ++ bstr "__count".

Definition encode_u64_be (x : Z) : bytes := be_bytes 8 x.
Definition decode_u64_be (v : bytes) : option Z := if (length v =? 8)%nat then Some (from_be v) else None.

#[global] Arguments be_u32 : simpl never.
#[global] Arguments be_u64 : simpl never.
#[global] Arguments be_u128 : simpl never.
#[global] Arguments encode_u64_be : simpl never.
#[global] Arguments id_decimal : simpl never.
#[global] Arguments idx_ns_prefix : simpl never.
#[global] Arguments activity_ns_prefix : simpl never.
#[global] Arguments activity_key : simpl never.

(** The rows added to [writes]. *)
Definition append_index_entries (writes : list (bytes * bytes)) (pool : SchemaAlkaneId) (ts seq : Z) (a : SchemaActivityV1)
    (group : option ActivityGroup) : list (bytes * bytes) :=
  let val := be_u64 ts ++ be_u32 seq in
  let absb := abs_i128 (base_delta a) in
  let absq := abs_i128 (quote_delta a) in
  let sb := z2b (side_code (base_delta a)) in
  let sq := z2b (side_code (quote_delta a)) in
  writes ++
  [ (idx_prefix_ts pool group ++ be_u64 ts ++ be_u32 seq, val);
    (idx_prefix_absb pool group ++ be_u128 absb ++ be_u64 ts ++ be_u32 seq, val);
    (idx_prefix_absq pool group ++ be_u128 absq ++ be_u64 ts ++ be_u32 seq, val);
    (idx_prefix_sb_absb pool group ++ [sb] ++ be_u128 absb ++ be_u64 ts ++ be_u32 seq, val);
    (idx_prefix_sq_absq pool group ++ [sq] ++ be_u128 absq ++ be_u64 ts ++ be_u32 seq, val);
    (idx_prefix_sb_ts pool group ++ [sb] ++ be_u64 ts ++ be_u32 seq, val);
    (idx_prefix_sq_ts pool group ++ [sq] ++ be_u64 ts ++ be_u32 seq, val) ].

(** ** The accumulators of a block *)

Record ActivityWriteAcc := mkWriteAcc { seqs : gmap (SchemaAlkaneId * Z) Z; aw_writes : list (bytes * bytes) }.

Definition write_acc_new : ActivityWriteAcc := mkWriteAcc ∅ [].

Record ActivityIndexAcc := mkIndexAcc {
  ai_writes : list (bytes * bytes);
  per_pool_delta : gmap (Z * Z) Z;
  per_pool_group_delta : gmap (Z * Z * ActivityGroup) Z;
}.

Definition index_acc_new : ActivityIndexAcc := mkIndexAcc [] ∅ ∅.

(** [*m.entry(k).or_insert(0) += 1] *)
Definition bump {K} `{Countable K} (m : gmap K Z) (k : K) : gmap K Z := <[k := (default 0 (m !! k) + 1) mod 2 ^ 64]> m.

Definition index_add (acc : ActivityIndexAcc) (pool : SchemaAlkaneId) (ts seq : Z) (a : SchemaActivityV1) : ActivityIndexAcc :=
  let group := group_for_kind (ac_kind a) in
  let writes := append_index_entries (ai_writes acc) pool ts seq a None in
  mkIndexAcc (append_index_entries writes pool ts seq a (Some group))
    (bump (per_pool_delta acc) (ak_block pool, ak_tx pool))
    (bump (per_pool_group_delta acc) (ak_block pool, ak_tx pool, group)).

Section Codec.
Context `{ActivityCodec}.

Definition encode_activity_v1 (a : SchemaActivityV1) : option bytes := activity_to_vec a.

Definition decode_activity_v1 (v : bytes) : option SchemaActivityV1 :=
  match activity_from_slice v with
  | Some parsed => Some parsed
  | None =>
      legacy ← legacy_from_slice v;
      Some (mkAct (al_timestamp legacy) (al_txid legacy) (al_kind legacy) (al_direction legacy)
              (al_base_delta legacy) (al_quote_delta legacy) [] true)
  end.

(** The accumulator with the result: a row that cannot be encoded has used its number. *)
Definition activity_push (acc : ActivityWriteAcc) (pool : SchemaAlkaneId) (ts : Z) (a : SchemaActivityV1)
    : ActivityWriteAcc * option Z :=
  let seq := default 0 (seqs acc !! (pool, ts)) in
  let seqs' := <[(pool, ts) := (seq + 1) mod 2 ^ 32]> (seqs acc) in
  match encode_activity_v1 a with
  | None => (mkWriteAcc seqs' (aw_writes acc), None)
  | Some v =>
      let writes := aw_writes acc ++ [(activity_key pool ts seq, v)] in
      let writes := append_index_entries writes pool ts seq a None in
      let writes := append_index_entries writes pool ts seq a (Some (group_for_kind (ac_kind a))) in
      (mkWriteAcc seqs' writes, Some seq)
  end.

(** ** Rows for the client *)

Inductive ActivityUiSide := UBuy | USell | UNeutral.

Record ActivityRow := mkRow {
  row_timestamp : Z;
  row_txid : bytes;
  row_kind : bytes;
  row_direction : option bytes;
  row_base_delta : Z;
  row_quote_delta : Z;
  row_side : ActivityUiSide;
  row_amount : Z;
}.

Definition is_trade (kind : ActivityKind) : bool := match kind with TradeBuy | TradeSell => true | _ => false end.

Definition kind_str (kind : ActivityKind) (side : ActivityUiSide) : bytes :=
  match kind with
  | TradeBuy | TradeSell =>
      match side with UBuy => bstr "trade_buy" | USell => bstr "trade_sell" | UNeutral => bstr "trade" end
  | LiquidityAdd => bstr "liquidity_add"
  | LiquidityRemove => bstr "liquidity_remove"
  | PoolCreate => bstr "pool_create"
  end.

Definition direction_str (dir : ActivityDirection) : bytes :=
  match dir with BaseIn => bstr "base_in" | QuoteIn => bstr "quote_in" end.

Definition side_delta (chosen : PriceSide) (a : SchemaActivityV1) : Z :=
  match chosen with Base => base_delta a | Quote => quote_delta a end.

Definition ui_side (v : Z) : ActivityUiSide := if v <? 0 then UBuy else if 0 <? v then USell else UNeutral.

(** The amount is the one scaled for display; the txid the one rendered in hexadecimal. *)
Definition from_storage (a : SchemaActivityV1) (chosen : PriceSide) : ActivityRow :=
  let amt := side_delta chosen a in
  let side := ui_side amt in
  let side := if negb (is_trade (ac_kind a)) then UNeutral else side in
  mkRow (ac_timestamp a) (reverse (ac_txid a)) (kind_str (ac_kind a) side) (direction_str <$> ac_direction a)
    (base_delta a) (quote_delta a) side (abs_i128 amt).

Record ActivityPage := mkActPage { ap_activity : list ActivityRow; ap_total : Z }.

(** ** The primary rows, newest first *)

(** [k.rsplit(|&b| b == b':')], the second piece. *)
Definition parse_ts_from_key_tail (k : bytes) : option Z :=
  let seg := last_segment k in
  let cut := (length k - length seg)%nat in
  match cut with
  | O => None
  | S n => parse_u64 (last_segment (take n k))
  end.

Fixpoint collect_rows (group : option ActivityGroup) (entries : list (bytes * bytes)) : option (list (Z * SchemaActivityV1)) :=
  match entries with
  | [] => Some []
  | (k, v) :: entries =>
      let ts := default 0 (parse_ts_from_key_tail k) in
      a ← decode_activity_v1 v;
      rest ← collect_rows group entries;
      match group with
      | Some g => if negb (bool_decide (group_for_kind (ac_kind a) = g)) then Some rest else Some ((ts, a) :: rest)
      | None => Some ((ts, a) :: rest)
      end
  end.

Definition usize_sat_mul (a b : Z) : Z := Z.min (2 ^ 64 - 1) (a * b).

Definition read_activity_for_pool (kv : Namespace) (pool : SchemaAlkaneId) (page limit : Z) (side : PriceSide)
    (activity_type : ActivityFilter) : option ActivityPage :=
  all ← collect_rows (group_from_filter activity_type) (get_list_entries_desc kv (activity_ns_prefix pool));
  let total := Z.of_nat (length all) in
  if limit =? 0 then Some (mkActPage [] total)
  else
    let start := usize_sat_mul (Z.max 0 (page - 1)) limit in
    let end_ := Z.min (start + limit) total in
    let slice := if end_ <=? start then [] else take (Z.to_nat (end_ - start)) (drop (Z.to_nat start) all) in
    Some (mkActPage (map (fun e => from_storage e.2 side) slice) total).

(** ** Pages of a secondary index *)

Inductive ActivitySortKey :=
  Timestamp | AmountBaseAbs | AmountQuoteAbs | SideBaseTs | SideQuoteTs | SideBaseAmount | SideQuoteAmount.
Inductive SortDir := Asc | Desc.
Inductive ActivitySideFilter := SAll | SBuy | SSell.

Definition idx_prefix_for (pool : SchemaAlkaneId) (k : ActivitySortKey) (group : option ActivityGroup) : bytes :=
  match k with
  | Timestamp => idx_prefix_ts pool group
  | AmountBaseAbs => idx_prefix_absb pool group
  | AmountQuoteAbs => idx_prefix_absq pool group
  | SideBaseAmount => idx_prefix_sb_absb pool group
  | SideQuoteAmount => idx_prefix_sq_absq pool group
  | SideBaseTs => idx_prefix_sb_ts pool group
  | SideQuoteTs => idx_prefix_sq_ts pool group
  end.

Definition adjust_for_side_filter (requested_sort : ActivitySortKey) (chosen_side : PriceSide) (filter : ActivitySideFilter)
    : ActivitySortKey * option Z :=
  let fixed := match filter with SAll => None | SBuy => Some 0 | SSell => Some 2 end in
  match fixed with
  | None => (requested_sort, None)
  | Some _ =>
      let eff :=
        match requested_sort with
        | Timestamp => match chosen_side with Base => SideBaseTs | Quote => SideQuoteTs end
        | AmountBaseAbs => SideBaseAmount
        | AmountQuoteAbs => SideQuoteAmount
        | _ => requested_sort
        end in
      (eff, fixed)
  end.

Definition total_for_pool_index (kv : Namespace) (prefix : bytes) (count_key : option bytes) : Z :=
  match (count_k ← count_key; v ← kv !! count_k; decode_u64_be v) with
  | Some n => n
  | None => Z.of_nat (length (get_list_entries_desc kv prefix))
  end.

Definition decode_ts_seq_from_entry (key val : bytes) : option (Z * Z) :=
  if (length val =? 12)%nat then Some (from_be (take 8 val), from_be (drop 8 val))
  else if (12 <=? length key)%nat then
    let tail := drop (length key - 12) key in Some (from_be (take 8 tail), from_be (drop 8 tail))
  else None.

(** The loop of [read_pairs_from_prefix]. *)
Fixpoint read_pairs (skip limit : Z) (entries : list (bytes * bytes)) (i : Z) (out : list (Z * Z)) : list (Z * Z) :=
  match entries with
  | [] => out
  | (k, v) :: entries =>
      if i <? skip then read_pairs skip limit entries (i + 1) out
      else if limit <=? Z.of_nat (length out) then out
      else
        match decode_ts_seq_from_entry k v with
        | Some p => read_pairs skip limit entries (i + 1) (out ++ [p])
        | None => read_pairs skip limit entries (i + 1) out
        end
  end.

(** Whether a fetched row stays on the page. *)
Definition row_stays (group : option ActivityGroup) (fixed_side : option Z) (chosen_side : PriceSide) (a : SchemaActivityV1) : bool :=
  match group with Some g => bool_decide (group_for_kind (ac_kind a) = g) | None => true end
  && match fixed_side with
     | Some sb => is_trade (ac_kind a) && (side_code (side_delta chosen_side a) =? sb)
     | None => true
     end.

Fixpoint materialize (group : option ActivityGroup) (fixed_side : option Z) (chosen_side : PriceSide) (values : list (option bytes))
    : option (list ActivityRow) :=
  match values with
  | [] => Some []
  | None :: values => materialize group fixed_side chosen_side values
  | Some v :: values =>
      a ← decode_activity_v1 v;
      rows ← materialize group fixed_side chosen_side values;
      Some (if row_stays group fixed_side chosen_side a then from_storage a chosen_side :: rows else rows)
  end.

Definition read_activity_for_pool_sorted (kv : Namespace) (pool : SchemaAlkaneId) (page limit : Z) (chosen_side : PriceSide)
    (sort : ActivitySortKey) (dir : SortDir) (filter : ActivitySideFilter) (activity_type : ActivityFilter) : option ActivityPage :=
  let group := group_from_filter activity_type in
  match group, filter with
  | Some GEvents, (SBuy | SSell) => Some (mkActPage [] 0)
  | _, _ =>
      let '(eff_sort, fixed_side) := adjust_for_side_filter sort chosen_side filter in
      let iprefix := idx_prefix_for pool eff_sort group ++ match fixed_side with Some sb => [z2b sb] | None => [] end in
      let allow_count_key :=
        match fixed_side, eff_sort with
        | None, (Timestamp | AmountBaseAbs | AmountQuoteAbs) => true
        | _, _ => false
        end in
      let count_key :=
        if allow_count_key then
          Some (match group with Some g => idx_count_key_group pool g | None => idx_count_key pool end)
        else None in
      let total := total_for_pool_index kv iprefix count_key in
      if limit =? 0 then Some (mkActPage [] total)
      else
        let skip := usize_sat_mul limit (Z.max 0 (page - 1)) in
        let entries := get_list_entries_desc kv iprefix in
        let entries := match dir with Asc => reverse entries | Desc => entries end in
        let pairs := read_pairs skip limit entries 0 [] in
        let values := map (fun p => kv !! activity_key pool p.1 p.2) pairs in
        rows ← materialize group fixed_side chosen_side values;
        Some (mkActPage rows total)
  end.

End Codec.
