(* ===== verification/AmmActivityProps.v ===== *)
(** * Pool activity: lemmas

    The keys of [AmmActivity] are apart and ordered as the numbers in them; an index holds
    one row per event, so that walking it visits the events in the order of the sort key. *)
From stdpp Require Import strings.
From S2P Require Import Prelude Bytes Rocks RunesTransfer RunesStore RunesChain RunesInscriptions.
From S2P Require Import AlkTrace AmmPath AmmCandles AmmCandlesProps AmmChart AmmActivity.
From stdpp Require Import options.

Open Scope Z_scope.

(** ** Scans *)

Lemma strict_of_le {A} (f : A -> bytes) l :
  StronglySorted (fun a b => f a <=b f b) l -> NoDup (f <$> l) -> StronglySorted (fun a b => f a <b f b) l.
Proof.
  induction 1 as [|e es Hs IH Hall]; [constructor|]. cbn. intros [Hni Hnd]%NoDup_cons.
  constructor; [by apply IH|]. apply Forall_forall. intros e' He'. rewrite Forall_forall in Hall. specialize (Hall _ He').
  apply ble_lteq in Hall as [?|E]; [done|]. exfalso. apply Hni. rewrite E. by apply list_elem_of_fmap_2.
Qed.

(** Sorting by distinct byte strings. *)
Lemma sort_bytes_strict {A} (f : A -> bytes) l :
  NoDup (f <$> l) -> StronglySorted (fun a b => f a <b f b) (sort_by (fun a b => bytes_leb (f a) (f b)) l).
Proof.
  intros Hnd. apply strict_of_le; [|by rewrite sort_by_perm]. apply sort_by_ordered.
  - intros a b c. apply ble_trans.
  - intros a b. unfold bytes_leb, ble. by intros ?%negb_true_iff.
  - intros a b. unfold bytes_leb. intros ?%negb_false_iff. by apply blt_ble.
Qed.

(** A scan of a prefix is the list of its rows from the greatest key down. *)
Lemma entries_desc_unique ns p l :
  sorted_entries l -> (forall k v, (k, v) ∈ l <-> ns !! k = Some v /\ starts_with k p = true) ->
  get_list_entries_desc ns p = reverse l.
Proof.
  intros Hs Hin. unfold get_list_entries_desc. f_equal. apply sorted_entries_ext; [|done|].
  - apply (sort_bytes_strict fst), NoDup_fmap_fst; [|apply NoDup_filter, NoDup_map_to_list].
    intros k v1 v2 [_ H1]%list_elem_of_filter [_ H2]%list_elem_of_filter. apply elem_of_map_to_list in H1, H2. congruence.
  - intros [k v]. rewrite sort_by_perm, list_elem_of_filter, elem_of_map_to_list, Hin. cbn. tauto.
Qed.

(** ** The keys of an event *)

Record Event := mkEvent { ev_pool : SchemaAlkaneId; ev_ts : Z; ev_seq : Z; ev_act : SchemaActivityV1 }.

Definition idx_val (e : Event) : bytes := be_u64 (ev_ts e) ++ be_u32 (ev_seq e).

Definition side_part (k : ActivitySortKey) (a : SchemaActivityV1) : bytes :=
  match k with
  | SideBaseTs | SideBaseAmount => [z2b (side_code (base_delta a))]
  | SideQuoteTs | SideQuoteAmount => [z2b (side_code (quote_delta a))]
  | _ => []
  end.

Definition amount_part (k : ActivitySortKey) (a : SchemaActivityV1) : bytes :=
  match k with
  | AmountBaseAbs | SideBaseAmount => be_u128 (abs_i128 (base_delta a))
  | AmountQuoteAbs | SideQuoteAmount => be_u128 (abs_i128 (quote_delta a))
  | _ => []
  end.

Definition idx_suffix (k : ActivitySortKey) (e : Event) : bytes :=
  side_part k (ev_act e) ++ amount_part k (ev_act e) ++ idx_val e.

Definition idx_key (g : option ActivityGroup) (k : ActivitySortKey) (e : Event) : bytes :=
  idx_prefix_for (ev_pool e) k g ++ idx_suffix k e.

Definition sort_keys : list ActivitySortKey :=
  [Timestamp; AmountBaseAbs; AmountQuoteAbs; SideBaseAmount; SideQuoteAmount; SideBaseTs; SideQuoteTs].

Definition idx_rows (g : option ActivityGroup) (e : Event) : list (bytes * bytes) :=
  map (fun k => (idx_key g k e, idx_val e)) sort_keys.

Definition ev_group (e : Event) : ActivityGroup := group_for_kind (ac_kind (ev_act e)).

Lemma append_index_rows writes pool ts seq a g :
  append_index_entries writes pool ts seq a g = writes ++ idx_rows g (mkEvent pool ts seq a).
Proof. reflexivity. Qed.

(** What follows the pool in a key of the index space: the group and the name of the index,
    or the count. *)
Definition idx_tag (g : option ActivityGroup) (k : option ActivitySortKey) : bytes :=
  match g with Some g => group_tag g ++ [colon] | None => [] end
  ++ bstr match k with
          | Some Timestamp => "ts:" | Some AmountBaseAbs => "absb:" | Some AmountQuoteAbs => "absq:"
          | Some SideBaseAmount => "sb_absb:" | Some SideQuoteAmount => "sq_absq:"
          | Some SideBaseTs => "sb_ts:" | Some SideQuoteTs => "sq_ts:" | None => "__count"
          end.

Definition idx_space (pool : SchemaAlkaneId) : bytes := bstr "activity:idx:v1:" ++ id_decimal pool.

Lemma idx_prefix_tag pool g k : idx_prefix_for pool k g = idx_space pool ++ idx_tag g (Some k).
Proof. unfold idx_space, idx_tag. destruct k; cbn [idx_prefix_for]; unfold idx_prefix_ts, idx_prefix_absb, idx_prefix_absq,
  idx_prefix_sb_absb, idx_prefix_sq_absq, idx_prefix_sb_ts, idx_prefix_sq_ts, idx_ns_prefix; by rewrite <- !app_assoc. Qed.

Definition count_key (pool : SchemaAlkaneId) (g : option ActivityGroup) : bytes :=
  match g with Some g => idx_count_key_group pool g | None => idx_count_key pool end.

Lemma count_key_tag pool g : count_key pool g = idx_space pool ++ idx_tag g None.
Proof. unfold idx_space, idx_tag, count_key, idx_count_key, idx_count_key_group, idx_ns_prefix. by destruct g; rewrite <- !app_assoc. Qed.

(** No tag begins another. *)
Lemma idx_tag_free g k g' k' r r' : idx_tag g k ++ r = idx_tag g' k' ++ r' -> g = g' /\ k = k' /\ r = r'.
Proof. destruct g as [[]|], k as [[]|], g' as [[]|], k' as [[]|]; cbn; intros E; first [discriminate E|by injection E as ->]. Qed.

Lemma id_decimal_inj p p' r r' : id_ok p -> id_ok p' -> id_decimal p ++ r = id_decimal p' ++ r' -> p = p' /\ r = r'.
Proof.
  intros [Hb Ht] [Hb' Ht'] E. unfold id_decimal in E. rewrite <- !app_assoc in E.
  apply split_colon in E as [E1 E]; [|apply string_no_colon..]. apply split_colon in E as [E2 E]; [|apply string_no_colon..].
  apply to_string_inj in E1; [|unfold in_u32, in_u64 in *; lia..]. apply to_string_inj in E2; [|done..].
  destruct p, p'; cbn in *; by subst.
Qed.

Lemma idx_space_inj p p' r r' : id_ok p -> id_ok p' -> idx_space p ++ r = idx_space p' ++ r' -> p = p' /\ r = r'.
Proof. unfold idx_space. rewrite <- !app_assoc. intros Hp Hp' E%app_inv_head. by apply id_decimal_inj in E. Qed.

Lemma activity_key_inj p p' ts ts' seq seq' :
  id_ok p -> id_ok p' -> in_u64 ts -> in_u64 ts' -> in_u32 seq -> in_u32 seq' ->
  activity_key p ts seq = activity_key p' ts' seq' -> p = p' /\ ts = ts' /\ seq = seq'.
Proof.
  intros Hp Hp' Ht Ht' Hs Hs' E. unfold activity_key, activity_ns_prefix in E. rewrite <- !app_assoc in E. apply app_inv_head in E.
  apply id_decimal_inj in E as [-> E]; [|done..]. apply split_colon in E as [E1 E2]; [|apply string_no_colon..].
  apply to_string_inj in E1; [|done..]. apply to_string_inj in E2; [|unfold in_u32, in_u64 in *; lia..]. done.
Qed.

Lemma activity_key_not_idx p ts seq p' r : activity_key p ts seq <> idx_space p' ++ r.
Proof. unfold activity_key, activity_ns_prefix, idx_space. rewrite <- !app_assoc. cbn. intros E. discriminate E. Qed.

(** ** The order of an index *)

(** What an index orders the events by: side, amount, time, sequence number. *)
Definition rank_side (k : ActivitySortKey) (e : Event) : Z :=
  match k with
  | SideBaseTs | SideBaseAmount => side_code (base_delta (ev_act e))
  | SideQuoteTs | SideQuoteAmount => side_code (quote_delta (ev_act e))
  | _ => 0
  end.

Definition rank_amount (k : ActivitySortKey) (e : Event) : Z :=
  match k with
  | AmountBaseAbs | SideBaseAmount => abs_i128 (base_delta (ev_act e))
  | AmountQuoteAbs | SideQuoteAmount => abs_i128 (quote_delta (ev_act e))
  | _ => 0
  end.

Definition rank_lt (k : ActivitySortKey) (e e' : Event) : Prop :=
  rank_side k e < rank_side k e' \/ rank_side k e = rank_side k e' /\
  (rank_amount k e < rank_amount k e' \/ rank_amount k e = rank_amount k e' /\
   (ev_ts e < ev_ts e' \/ ev_ts e = ev_ts e' /\ ev_seq e < ev_seq e')).

Definition event_num (e : Event) : Prop := id_ok (ev_pool e) /\ in_u64 (ev_ts e) /\ in_u32 (ev_seq e).

Lemma blt_app_lex a a' b b' : length a = length a' -> a ++ b <b a' ++ b' <-> a <b a' \/ a = a' /\ b <b b'.
Proof.
  revert a'. induction a as [|x a IH]; intros [|y a'] Hl; cbn in Hl; try done.
  - cbn. split; [by right|]. intros [H|[_ H]]; [by apply blt_irrefl in H|done].
  - injection Hl as Hl. cbn [app]. rewrite !blt_cons, IH by done. split; [|intuition congruence].
    intros [?|[-> [?|[-> ?]]]]; auto.
Qed.

Lemma be_bytes_lt n a b :
  0 <= a < 256 ^ Z.of_nat n -> 0 <= b < 256 ^ Z.of_nat n -> be_bytes n a <b be_bytes n b <-> a < b.
Proof.
  intros Ha Hb. rewrite blt_from_be by (by rewrite !length_be_bytes). by rewrite !from_be_be_bytes, !Z.mod_small.
Qed.

Lemma abs_i128_range x : 0 <= abs_i128 x < u128_mod.
Proof. unfold abs_i128. destruct (x <? 0); apply Z.mod_pos_bound; reflexivity. Qed.

Lemma side_byte v : [z2b (side_code v)] = be_bytes 1 (side_code v).
Proof. cbn. by rewrite Z.div_1_r. Qed.

Lemma side_code_range v : 0 <= side_code v < 256.
Proof. unfold side_code. destruct (v <? 0); [lia|]. destruct (0 <? v); lia. Qed.

(** A field of a key compares as its number, and equal fields are equal numbers. *)
Lemma field_lex n a a' r r' :
  0 <= a < 256 ^ Z.of_nat n -> 0 <= a' < 256 ^ Z.of_nat n ->
  be_bytes n a ++ r <b be_bytes n a' ++ r' <-> a < a' \/ a = a' /\ r <b r'.
Proof.
  intros Ha Ha'. rewrite blt_app_lex by (by rewrite !length_be_bytes). rewrite be_bytes_lt by done.
  split; intros [?|[E ?]]; auto; right; (split; [|done]).
  - by apply be_bytes_inj in E.
  - by subst.
Qed.

Lemma idx_val_lt e e' :
  event_num e -> event_num e' -> idx_val e <b idx_val e' <-> ev_ts e < ev_ts e' \/ ev_ts e = ev_ts e' /\ ev_seq e < ev_seq e'.
Proof.
  intros (_ & Ht & Hs) (_ & Ht' & Hs'). unfold idx_val, be_u64, be_u32. rewrite field_lex by done. by rewrite (be_bytes_lt 4).
Qed.

Lemma idx_suffix_lt k e e' : event_num e -> event_num e' -> idx_suffix k e <b idx_suffix k e' <-> rank_lt k e e'.
Proof.
  intros He He'. unfold idx_suffix, rank_lt. destruct k; cbn [side_part amount_part rank_side rank_amount app]; unfold be_u128;
    rewrite ?side_byte, <- ?app_assoc; change ([z2b ?x] ++ ?r) with (z2b x :: r).
  all: repeat match goal with |- context [z2b (side_code ?v) :: ?r] =>
         change (z2b (side_code v) :: r) with ([z2b (side_code v)] ++ r); rewrite (side_byte v) end.
  all: rewrite ?(field_lex 1) by apply side_code_range; rewrite ?(field_lex 16) by apply abs_i128_range; rewrite idx_val_lt by done; intuition lia.
Qed.

Lemma idx_val_inj e e' : event_num e -> event_num e' -> idx_val e = idx_val e' -> ev_ts e = ev_ts e' /\ ev_seq e = ev_seq e'.
Proof.
  intros (_ & Ht & Hs) (_ & Ht' & Hs') E. unfold idx_val in E. unfold be_u64, be_u32 in E. apply app_inj_1 in E as [E1 E2]; [|by rewrite !length_be_bytes].
  by apply (be_bytes_inj 8) in E1; apply (be_bytes_inj 4) in E2.
Qed.

Definition event_id (e : Event) : SchemaAlkaneId * Z * Z := (ev_pool e, ev_ts e, ev_seq e).

Lemma idx_key_inj g k e g' k' e' :
  event_num e -> event_num e' -> idx_key g k e = idx_key g' k' e' -> event_id e = event_id e' /\ g = g' /\ k = k'.
Proof.
  intros He He' E. unfold idx_key in E. rewrite !idx_prefix_tag, <- !app_assoc in E.
  apply idx_space_inj in E as [Ep E]; [|apply He|apply He']. apply idx_tag_free in E as (-> & [= ->] & E).
  unfold idx_suffix in E. unfold event_id. assert (idx_val e = idx_val e') as Ev.
  { rewrite !app_assoc in E. apply app_inj_2 in E as [_ E]; [done|]. unfold idx_val, be_u64, be_u32; by rewrite !length_app, !length_be_bytes. }
  apply idx_val_inj in Ev as [-> ->]; [|done..]. by rewrite Ep.
Qed.

(** ** The log of a namespace *)

(** The values of the source's type. *)
Definition activity_typed (a : SchemaActivityV1) : Prop :=
  in_u64 (ac_timestamp a) /\ length (ac_txid a) = 32%nat
  /\ - 2 ^ 127 <= base_delta a < 2 ^ 127 /\ - 2 ^ 127 <= quote_delta a < 2 ^ 127
  /\ Z.of_nat (length (address_spk a)) < 2 ^ 32.

(** What borsh promises: an activity of the type is encoded, and what was encoded is read back. *)
Class ActivityCodecLaws `{ActivityCodec} := {
  activity_codec_total a : activity_typed a -> is_Some (activity_to_vec a);
  activity_codec_roundtrip a raw : activity_to_vec a = Some raw -> activity_from_slice raw = Some a;
}.

Section Log.
Set Default Proof Using "Type*".
Context `{ActivityCodecLaws}.

Definition event_ok (e : Event) : Prop := event_num e /\ is_Some (encode_activity_v1 (ev_act e)).

Definition primary_row (e : Event) : bytes * bytes :=
  (activity_key (ev_pool e) (ev_ts e) (ev_seq e), default [] (encode_activity_v1 (ev_act e))).

Definition event_rows (e : Event) : list (bytes * bytes) := primary_row e :: idx_rows None e ++ idx_rows (Some (ev_group e)) e.

(** The events of a pool, of one group or of all. *)
Definition of_group (pool : SchemaAlkaneId) (g : option ActivityGroup) (e : Event) : Prop :=
  ev_pool e = pool /\ match g with Some g => ev_group e = g | None => True end.

#[global] Instance of_group_dec pool g e : Decision (of_group pool g e).
Proof. unfold of_group. destruct g; apply _. Defined.

Definition count_row (n : nat) : option bytes := match n with O => None | _ => Some (encode_u64_be (Z.of_nat n)) end.

(** The activity rows of the namespace are the rows of the events of the log. *)
Record activity_follows (ns : Namespace) (log : list Event) : Prop := {
  af_rows e p : e ∈ log -> p ∈ event_rows e -> ns !! p.1 = Some p.2;
  af_only k v : ns !! k = Some v -> starts_with k (bstr "activity:") = true ->
    (exists e, e ∈ log /\ (k, v) ∈ event_rows e) \/ (exists pool g, id_ok pool /\ k = count_key pool g);
  af_counts pool g : id_ok pool -> ns !! count_key pool g = count_row (length (filter (of_group pool g) log));
  af_ok : Forall event_ok log;
  af_nodup : NoDup (event_id <$> log);
}.

Lemma event_rows_elem e p :
  p ∈ event_rows e <-> p = primary_row e \/ exists g k, (g = None \/ g = Some (ev_group e)) /\ p = (idx_key g k e, idx_val e).
Proof.
  unfold event_rows, idx_rows. rewrite elem_of_cons, elem_of_app. split.
  - intros [?|[E|E]]; [by left|..]; right; apply list_elem_of_In, in_map_iff in E as (k & <- & _); eauto 6.
  - assert (Hk : forall k, In k sort_keys) by (intros []; cbn; tauto).
    intros [?|(g & k & Hg & ->)]; [by left|]. right.
    destruct Hg as [->| ->]; [left|right]; apply list_elem_of_In, in_map_iff; eauto.
Qed.

Lemma log_inj (log : list Event) e e' : NoDup (event_id <$> log) -> e ∈ log -> e' ∈ log -> event_id e = event_id e' -> e = e'.
Proof.
  intros Hnd (i & Hi)%list_elem_of_lookup (j & Hj)%list_elem_of_lookup E.
  assert (i = j) as ->; [|congruence]. eapply NoDup_lookup; [exact Hnd|rewrite list_lookup_fmap, Hi; done|].
  rewrite list_lookup_fmap, Hj. cbn. by rewrite E.
Qed.

(** The events a page is cut from. *)
Definition selected (pool : SchemaAlkaneId) (g : option ActivityGroup) (k : ActivitySortKey) (fixed : option Z) (e : Event) : Prop :=
  of_group pool g e /\ match fixed with Some sb => rank_side k e = sb | None => True end.

#[global] Instance selected_dec pool g k fixed e : Decision (selected pool g k fixed e).
Proof. unfold selected. destruct fixed; apply _. Defined.

Definition side_aware (k : ActivitySortKey) : bool :=
  match k with Timestamp | AmountBaseAbs | AmountQuoteAbs => false | _ => true end.

Definition fixed_ok (k : ActivitySortKey) (fixed : option Z) : Prop :=
  match fixed with Some sb => side_aware k = true /\ 0 <= sb < 256 | None => True end.

Definition fixed_bytes (fixed : option Z) : bytes := match fixed with Some sb => [z2b sb] | None => [] end.

Lemma z2b_inj a b : 0 <= a < 256 -> 0 <= b < 256 -> z2b a = z2b b -> a = b.
Proof. intros Ha Hb E. apply (f_equal b2z) in E. by rewrite !b2z_z2b, !Z.mod_small in E. Qed.

Lemma suffix_side k e fixed :
  fixed_ok k fixed ->
  (match fixed with Some sb => rank_side k e = sb | None => True end) <-> exists r, idx_suffix k e = fixed_bytes fixed ++ r.
Proof.
  intros Hf. destruct fixed as [sb|]; [|split; [by eexists|done]]. destruct Hf as [Hk Hsb]. unfold idx_suffix.
  destruct k; try done; cbn [side_part rank_side fixed_bytes app]; (split; [intros ->; by eexists|intros [r [= E _]]]);
    (apply z2b_inj; [apply side_code_range|done|done]).
Qed.

Lemma event_num_in ns log e : activity_follows ns log -> e ∈ log -> event_num e.
Proof. intros Hf He. pose proof (af_ok _ _ Hf) as Ho. rewrite Forall_forall in Ho. by apply Ho. Qed.

(** The rows of an index under its prefix, with the side fixed or not. *)
Lemma index_row_iff ns log pool g k fixed key v :
  activity_follows ns log -> id_ok pool -> fixed_ok k fixed ->
  (ns !! key = Some v /\ starts_with key (idx_prefix_for pool k g ++ fixed_bytes fixed) = true)
  <-> exists e, (e ∈ log /\ selected pool g k fixed e) /\ key = idx_key g k e /\ v = idx_val e.
Proof.
  intros Hf Hp Hk. unfold selected. split.
  - intros [Hv [r E]%starts_with_iff]. rewrite idx_prefix_tag, <- !app_assoc in E.
    destruct (af_only _ _ Hf key v Hv) as [(e & He & Hrow)|(pool' & g' & Hp' & Ek)].
    + rewrite E. unfold idx_space. apply starts_with_iff. rewrite <- !app_assoc. by eexists.
    + pose proof (event_num_in _ _ _ Hf He) as Hn. apply event_rows_elem in Hrow as [Eq|(g' & k' & Hg & [= Ek ->])].
      { injection Eq as -> _. by apply activity_key_not_idx in E. }
      rewrite Ek in E. unfold idx_key in E. rewrite idx_prefix_tag, <- !app_assoc in E.
      apply idx_space_inj in E as [Ep E]; [|apply Hn|done]. apply idx_tag_free in E as (-> & [= ->] & E).
      exists e. split; [|done]. split; [done|]. split; [|by apply (suffix_side k); eauto].
      split; [done|]. destruct Hg as [->| ->]; done.
    + rewrite Ek, count_key_tag in E. apply idx_space_inj in E as [_ E]; [|done..].
      rewrite <- (app_nil_r (idx_tag g' None)) in E. by apply idx_tag_free in E as (_ & ? & _).
  - intros (e & (He & (<- & Hg) & Hs) & -> & ->). split.
    + apply (af_rows _ _ Hf e (_, _) He), event_rows_elem. right. exists g, k. split; [|done]. destruct g; [right; by rewrite Hg|by left].
    + apply (suffix_side k) in Hs as [r E]; [|done]. apply starts_with_iff. exists r. unfold idx_key. by rewrite E, app_assoc.
Qed.

(** Walking an index backwards visits the selected events by descending rank. *)
Lemma index_scan ns log pool g k fixed :
  activity_follows ns log -> id_ok pool -> fixed_ok k fixed ->
  exists l, l ≡ₚ filter (selected pool g k fixed) log /\ StronglySorted (rank_lt k) l
    /\ get_list_entries_desc ns (idx_prefix_for pool k g ++ fixed_bytes fixed) = reverse (map (fun e => (idx_key g k e, idx_val e)) l).
Proof.
  intros Hf Hp Hk. set (M := filter (selected pool g k fixed) log).
  assert (HM : forall e, e ∈ M -> event_num e /\ ev_pool e = pool /\ e ∈ log).
  { intros e [[[? _] _] He]%list_elem_of_filter. split; [by eapply event_num_in|done]. }
  exists (sort_by (fun a b => bytes_leb (idx_key g k a) (idx_key g k b)) M). split; [apply sort_by_perm|].
  assert (Hs : StronglySorted (fun a b => idx_key g k a <b idx_key g k b) (sort_by (fun a b => bytes_leb (idx_key g k a) (idx_key g k b)) M)).
  { apply sort_bytes_strict, NoDup_fmap_2_strong.
    - intros e e' (Hn & _ & He)%HM (Hn' & _ & He')%HM E. apply idx_key_inj in E as [E _]; [|done..]. eapply log_inj; [apply Hf|done..].
    - apply NoDup_filter. eapply NoDup_fmap_1, Hf. }
  assert (Hin : forall e, e ∈ sort_by (fun a b => bytes_leb (idx_key g k a) (idx_key g k b)) M <-> e ∈ M) by (intros e; by rewrite sort_by_perm).
  set (l := sort_by _ M) in *. clearbody l. split.
  - assert (Hl : Forall (fun e => e ∈ M) l) by (apply Forall_forall; intros; by apply Hin). clear Hin. induction Hs as [|e l Hs IH Hall]; [constructor|].
    apply Forall_cons in Hl as [Hel Hl]. constructor; [by apply IH|]. apply Forall_forall. intros e' He'.
    rewrite Forall_forall in Hall. specialize (Hall _ He'). rewrite Forall_forall in Hl. specialize (Hl _ He').
    apply HM in Hel as (Hn & <- & _), Hl as (Hn' & Ep & _). apply idx_suffix_lt; [done..|]. unfold idx_key in Hall. rewrite Ep in Hall. by apply blt_app in Hall.
  - apply entries_desc_unique.
    + clear Hin. induction Hs as [|e l Hs IH Hall]; cbn; [constructor|]. constructor; [done|]. apply Forall_map. done.
    + intros key v. rewrite (index_row_iff ns log) by done. rewrite list_elem_of_In, in_map_iff. split.
      * intros (e & [= <- <-] & He). apply list_elem_of_In, Hin, list_elem_of_filter in He as [Hsel He]. eauto.
      * intros (e & [He Hsel] & -> & ->). exists e. split; [done|]. apply list_elem_of_In, Hin, list_elem_of_filter. done.
Qed.

(** ** Pages *)

Definition pair_of (e : Event) : Z * Z := (ev_ts e, ev_seq e).

Lemma decode_idx_val e key : event_num e -> decode_ts_seq_from_entry key (idx_val e) = Some (pair_of e).
Proof.
  intros (_ & Ht & Hs). unfold decode_ts_seq_from_entry, idx_val, be_u64, be_u32. rewrite length_app, !length_be_bytes. cbn [Nat.add Nat.eqb].
  rewrite take_app_length', drop_app_length' by (by rewrite length_be_bytes). rewrite !from_be_be_bytes, !Z.mod_small by done. done.
Qed.

Lemma read_pairs_spec skip limit g k l i out :
  Forall event_num l -> 0 <= limit -> Z.of_nat (length out) <= limit ->
  read_pairs skip limit (map (fun e => (idx_key g k e, idx_val e)) l) i out
  = out ++ map pair_of (take (Z.to_nat limit - length out) (drop (Z.to_nat (skip - i)) l)).
Proof.
  intros Hl Hlim. revert i out. induction Hl as [|e l He _ IH]; intros i out Hout; cbn [map read_pairs].
  - by rewrite drop_nil, take_nil, app_nil_r.
  - destruct (Z.ltb_spec i skip) as [Hlt|Hge].
    + rewrite IH by done. replace (Z.to_nat (skip - i)) with (S (Z.to_nat (skip - (i + 1)))) by lia. done.
    + replace (Z.to_nat (skip - i)) with O by lia. cbn [drop]. destruct (Z.leb_spec limit (Z.of_nat (length out))).
      * replace (Z.to_nat limit - length out)%nat with O by lia. by rewrite app_nil_r.
      * rewrite decode_idx_val by done. rewrite IH by (rewrite length_app; cbn; lia).
        replace (Z.to_nat (skip - (i + 1))) with O by lia. cbn [drop].
        replace (Z.to_nat limit - length out)%nat with (S (Z.to_nat limit - length (out ++ [pair_of e])))%nat by (rewrite length_app; cbn; lia).
        cbn [take map]. by rewrite <- app_assoc.
Qed.

Lemma decode_primary e : event_ok e -> exists raw, encode_activity_v1 (ev_act e) = Some raw /\ decode_activity_v1 raw = Some (ev_act e).
Proof.
  intros [_ [raw E]]. exists raw. split; [done|]. unfold decode_activity_v1. by rewrite (activity_codec_roundtrip (ev_act e)).
Qed.

Definition stays (g : option ActivityGroup) (fixed : option Z) (side : PriceSide) (e : Event) : Prop := row_stays g fixed side (ev_act e) = true.

#[global] Instance stays_dec g fixed side e : Decision (stays g fixed side e).
Proof. unfold stays. apply _. Defined.

Definition show (side : PriceSide) (e : Event) : ActivityRow := from_storage (ev_act e) side.

Lemma materialize_spec ns log pool g fixed side l :
  activity_follows ns log -> Forall (fun e => e ∈ log /\ ev_pool e = pool) l ->
  materialize g fixed side (map (fun p => ns !! activity_key pool p.1 p.2) (map pair_of l))
  = Some (map (show side) (filter (stays g fixed side) l)).
Proof.
  intros Hf. induction 1 as [|e l [He <-] _ IH]; [done|]. cbn [map].
  pose proof (af_rows _ _ Hf e (primary_row e) He) as Hrow. cbn in Hrow.
  assert (Hok : event_ok e) by (pose proof (af_ok _ _ Hf) as Ho; rewrite Forall_forall in Ho; auto).
  destruct (decode_primary e Hok) as (raw & Eraw & Edec). rewrite Eraw in Hrow. cbn [pair_of fst snd].
  rewrite Hrow by (apply event_rows_elem; left; unfold primary_row; by rewrite Eraw). cbn [materialize default from_option id].
  rewrite Edec. cbn [mbind option_bind]. rewrite IH. cbn [mbind option_bind]. rewrite filter_cons.
  destruct (row_stays g fixed side (ev_act e)) eqn:Es; [rewrite decide_True by exact Es|rewrite decide_False by (unfold stays; by rewrite Es)]; done.
Qed.

Lemma adjust_fixed_ok sort side flt : let '(k, fixed) := adjust_for_side_filter sort side flt in fixed_ok k fixed.
Proof. by destruct sort, side, flt. Qed.

Definition directed {A} (dir : SortDir) (l : list A) : list A := match dir with Asc => l | Desc => reverse l end.

Lemma directed_rows dir g k l :
  match dir with Asc => reverse (reverse (map (fun e => (idx_key g k e, idx_val e)) l)) | Desc => reverse (map (fun e => (idx_key g k e, idx_val e)) l) end
  = map (fun e => (idx_key g k e, idx_val e)) (directed dir l).
Proof. destruct dir; cbn; [apply reverse_involutive|]. symmetry. apply (fmap_reverse (fun e => (idx_key g k e, idx_val e)) l). Qed.

Lemma directed_perm {A} dir (l : list A) : directed dir l ≡ₚ l.
Proof. destruct dir; [done|]. apply reverse_Permutation. Qed.

Lemma drop_sat {A} (l : list A) n : 0 <= n -> Z.of_nat (length l) < 2 ^ 64 -> drop (Z.to_nat (Z.min (2 ^ 64 - 1) n)) l = drop (Z.to_nat n) l.
Proof. intros Hn Hl. destruct (Z.min_spec (2 ^ 64 - 1) n) as [[? ->]|[? ->]]; [|done]. rewrite !drop_ge by lia. done. Qed.

Lemma count_row_decode n : 0 < Z.of_nat n < 2 ^ 64 -> exists v, count_row n = Some v /\ decode_u64_be v = Some (Z.of_nat n).
Proof.
  intros Hn. exists (encode_u64_be (Z.of_nat n)). split; [destruct n; [lia|done]|]. unfold decode_u64_be, encode_u64_be.
  rewrite length_be_bytes, Nat.eqb_refl, from_be_be_bytes. by rewrite Z.mod_small by lia.
Qed.

(** The total of a page: the stored count, or the rows of the index. *)
Lemma total_spec ns log pool g k fixed (l : list Event) :
  activity_follows ns log -> id_ok pool -> Z.of_nat (length log) < 2 ^ 64 ->
  l ≡ₚ filter (selected pool g k fixed) log ->
  get_list_entries_desc ns (idx_prefix_for pool k g ++ fixed_bytes fixed) = reverse (map (fun e => (idx_key g k e, idx_val e)) l) ->
  total_for_pool_index ns (idx_prefix_for pool k g ++ fixed_bytes fixed)
    (if match fixed, k with None, (Timestamp | AmountBaseAbs | AmountQuoteAbs) => true | _, _ => false end
     then Some (count_key pool g) else None) = Z.of_nat (length l).
Proof.
  intros Hf Hp Hlen Hl Hscan. unfold total_for_pool_index. rewrite Hscan, length_reverse, length_map.
  destruct fixed as [sb|]; [done|].
  assert (Hc : (v ← ns !! count_key pool g; decode_u64_be v) = Some (Z.of_nat (length l)) \/ (v ← ns !! count_key pool g; decode_u64_be v) = None).
  { rewrite (af_counts _ _ Hf) by done. rewrite Hl. rewrite (list_filter_iff (selected pool g k None) (of_group pool g) log) by (intros; unfold selected; tauto).
    pose proof (length_filter (of_group pool g) log) as Hle. destruct (decide (length (filter (of_group pool g) log) = O)) as [->|Hne]; [by right|].
    left. destruct (count_row_decode (length (filter (of_group pool g) log))) as (v & -> & Ev); [lia|]. done. }
  destruct k; cbn [mbind option_bind] in *; try done; destruct Hc as [-> | ->]; done.
Qed.

(** A page of an index: the selected events in the order of the index, cut, and filtered. *)
Lemma sorted_page_spec ns log pool page limit side sort dir flt type :
  activity_follows ns log -> id_ok pool -> Z.of_nat (length log) < 2 ^ 64 -> 0 <= page -> 0 <= limit ->
  (type = FEvents -> flt = SAll) ->
  let g := group_from_filter type in
  let '(k, fixed) := adjust_for_side_filter sort side flt in
  exists l, l ≡ₚ filter (selected pool g k fixed) log /\ StronglySorted (rank_lt k) l
    /\ read_activity_for_pool_sorted ns pool page limit side sort dir flt type
       = Some (mkActPage
           (map (show side) (filter (stays g fixed side) (take (Z.to_nat limit) (drop (Z.to_nat (limit * Z.max 0 (page - 1))) (directed dir l)))))
           (Z.of_nat (length l))).
Proof.
  intros Hf Hp Hlen Hpage Hlim Htype g. pose proof (adjust_fixed_ok sort side flt) as Hfix.
  unfold read_activity_for_pool_sorted. fold g. destruct (adjust_for_side_filter sort side flt) as [k fixed] eqn:Eadj.
  destruct (index_scan ns log pool g k fixed Hf Hp Hfix) as (l & Hl & Hs & Hscan). exists l. split; [done|]. split; [done|].
  fold (fixed_bytes fixed). change (match g with Some g0 => idx_count_key_group pool g0 | None => idx_count_key pool end) with (count_key pool g).
  rewrite (total_spec ns log pool g k fixed l) by done. rewrite Hscan.
  assert (Hm : forall A (x y : option A), match g, flt with Some GEvents, (SBuy | SSell) => x | _, _ => y end = y).
  { intros A x y. unfold g. destruct type; cbn; try by destruct flt. by rewrite Htype. }
  rewrite Hm. destruct (Z.eqb_spec limit 0) as [->|Hne]; [done|].
  assert (Hll : Z.of_nat (length (directed dir l)) < 2 ^ 64).
  { rewrite directed_perm, Hl. pose proof (length_filter (selected pool g k fixed) log). lia. }
  assert (Hmem : Forall (fun e => e ∈ log /\ ev_pool e = pool) (directed dir l)).
  { rewrite directed_perm, Hl. apply Forall_forall. intros e [[[? _] _] ?]%list_elem_of_filter. done. }
  rewrite directed_rows, read_pairs_spec; [|eapply Forall_impl; [exact Hmem|]; intros e [He _]; by eapply event_num_in|done|cbn; lia].
  cbn [app length]. rewrite Nat.sub_0_r, Z.sub_0_r. unfold usize_sat_mul. rewrite drop_sat by (done || nia).
  rewrite (materialize_spec ns log) by (done || by apply Forall_take, Forall_drop). done.
Qed.

End Log.
