(* ===== verification/AmmVolume.v ===== *)
(** * Token volume

    [src/modules/ammdata/utils/token_volume.rs], with the keys of
    [src/modules/ammdata/storage.rs]: the traded amounts of a block are summed per token,
    timeframe and bucket and added to the stored buckets; a running total per token is
    written at every height with a trade; a volume chart is read back with the empty
    buckets as zero. *)
From stdpp Require Import strings.
From S2P Require Import Prelude Bytes RunesTransfer RunesStore RunesChain RunesInscriptions AlkTrace AmmPath AmmCandles.
From stdpp Require Import options.

Open Scope Z_scope.

(** ** The cache of a block *)

Abbreviation TokenVolumeKey := (SchemaAlkaneId * Timeframe * Z)%type.

Record TokenVolumeCache := mkVolumeCache { vc_buckets : gmap TokenVolumeKey Z; block_totals : gmap SchemaAlkaneId Z }.

Definition volume_cache_new : TokenVolumeCache := mkVolumeCache ∅ ∅.

(** [*m.entry(k).or_default() = m.get(&k).unwrap_or(0).saturating_add(amount)] *)
Definition add_amount {K} `{Countable K} (m : gmap K Z) (k : K) (amount : Z) : gmap K Z :=
  <[k := u128_sat_add (default 0 (m !! k)) amount]> m.

Definition volume_trade_for_frames (c : TokenVolumeCache) (ts : Z) (token : SchemaAlkaneId) (frames : list Timeframe) (amount : Z)
    : TokenVolumeCache :=
  if amount =? 0 then c
  else
    mkVolumeCache (foldl (fun m tf => add_amount m (token, tf, bucket_start_for ts tf) amount) (vc_buckets c) frames)
      (add_amount (block_totals c) token amount).

(** ** Keys and values *)

Definition id_hex (token : SchemaAlkaneId) : bytes := to_hex (ak_block token) ++ [colon] ++ to_hex (ak_tx token).

Definition token_volume_ns_prefix (token : SchemaAlkaneId) (tf : Timeframe) : bytes :=
  bstr "tv1:" ++ id_hex token ++ [colon] ++ code tf ++ [colon].

Definition token_volume_key (token : SchemaAlkaneId) (tf : Timeframe) (bucket_ts : Z) : bytes :=
  token_volume_ns_prefix token tf ++ to_string bucket_ts.

Definition parse_token_volume_key (token : SchemaAlkaneId) (tf : Timeframe) (key : bytes) : option Z :=
  let prefix := token_volume_ns_prefix token tf in
  if starts_with key prefix then parse_u64 (drop (length prefix) key) else None.

Definition token_total_volume_prefix (token : SchemaAlkaneId) : bytes :=
  bstr "/token_volume_total/v1/" ++ id_hex token ++ bstr "/".

Definition token_total_volume_key (token : SchemaAlkaneId) (height : Z) : bytes :=
  token_total_volume_prefix token ++ be_bytes 8 height.

Definition parse_token_total_volume_key (token : SchemaAlkaneId) (key : bytes) : option Z :=
  let prefix := token_total_volume_prefix token in
  if starts_with key prefix then
    let rest := drop (length prefix) key in
    if (length rest =? 8)%nat then Some (from_be rest) else None
  else None.

Definition decode_u128_value (b : bytes) : option Z := if (length b =? 16)%nat then Some (from_le b) else None.
Definition encode_u128_value (value : Z) : bytes := le_bytes 16 value.

#[global] Arguments token_volume_ns_prefix : simpl never.
#[global] Arguments token_volume_key : simpl never.
#[global] Arguments token_total_volume_prefix : simpl never.
#[global] Arguments token_total_volume_key : simpl never.
#[global] Arguments encode_u128_value : simpl never.

(** [raw_scan_range_entries_page_at] from the greatest key down. *)
Definition scan_range_desc (ns : Namespace) (start end_ : bytes) (limit : nat) : list (bytes * bytes) :=
  take limit (reverse (sort_by (fun a b => bytes_leb a.1 b.1)
    (filter (fun e => bytes_leb start e.1 && bytes_ltb e.1 end_ = true) (map_to_list ns)))).

(** ** Writes *)

Definition volume_into_writes (ns : Namespace) (c : TokenVolumeCache) : list (bytes * bytes) :=
  omap (fun e : TokenVolumeKey * Z =>
          let '(token, timeframe, bucket_ts, amount) := e in
          if amount =? 0 then None
          else
            let db_key := token_volume_key token timeframe bucket_ts in
            let previous := default 0 (ns !! db_key ≫= decode_u128_value) in
            Some (db_key, encode_u128_value (u128_sat_add previous amount)))
    (map_to_list (vc_buckets c)).

Definition get_token_total_volume_at_or_before_height (ns : Namespace) (token : SchemaAlkaneId) (height : Z) : option (Z * Z) :=
  let entries :=
    scan_range_desc ns (token_total_volume_prefix token) (token_total_volume_key token (u64_sat_add height 1)) 16 in
  head (omap (fun e : bytes * bytes =>
                point_height ← parse_token_total_volume_key token e.1;
                value ← decode_u128_value e.2;
                Some (point_height, value)) entries).

(** The candle writes and the total writes. *)
Definition prepare_token_volume (height : Z) (ns : Namespace) (c : TokenVolumeCache) : list (bytes * bytes) * list (bytes * bytes) :=
  (volume_into_writes ns c,
   omap (fun e : SchemaAlkaneId * Z =>
           let '(token, amount) := e in
           if amount =? 0 then None
           else
             let previous := from_option snd 0 (get_token_total_volume_at_or_before_height ns token (Z.max 0 (height - 1))) in
             Some (token_total_volume_key token height, encode_u128_value (u128_sat_add previous amount)))
     (map_to_list (block_totals c))).

(** ** The reader *)

Record TokenVolumeSlice := mkVolumeSlice { points_newest_first : list (Z * Z); vs_newest_ts : Z }.

(** One row of the scan; the first of two rows of a bucket stays. *)
Definition collect_volume (token : SchemaAlkaneId) (tf : Timeframe) (per_bucket : gmap Z Z) (e : bytes * bytes) : gmap Z Z :=
  match parse_token_volume_key token tf e.1, decode_u128_value e.2 with
  | Some ts, Some amount => match per_bucket !! ts with Some _ => per_bucket | None => <[ts := amount]> per_bucket end
  | _, _ => per_bucket
  end.

Definition volume_buckets (token : SchemaAlkaneId) (tf : Timeframe) (entries : list (bytes * bytes)) : gmap Z Z :=
  foldl (collect_volume token tf) ∅ entries.

(** The loop from one bucket to the last, both ways of ending it. *)
Fixpoint volume_points (fuel : nat) (value : Z -> Z) (dur last ts : Z) : option (list (Z * Z)) :=
  match fuel with
  | O => None
  | S fuel =>
      if ts <=? last then
        match u64_checked_add ts dur with
        | Some next => rest ← volume_points fuel value dur last next; Some ((ts, value ts) :: rest)
        | None => Some [(ts, value ts)]
        end
      else Some []
  end.

Definition first_bucket (m : gmap Z Z) : option Z :=
  match (map_to_list m).*1 with [] => None | k :: ks => Some (foldr Z.min k ks) end.
Definition last_bucket (m : gmap Z Z) : option Z :=
  match (map_to_list m).*1 with [] => None | k :: ks => Some (foldr Z.max k ks) end.

Definition read_token_volume_v1 (ns : Namespace) (token : SchemaAlkaneId) (tf : Timeframe) (now_ts : Z) : option TokenVolumeSlice :=
  let dur := duration_secs tf in
  let per_bucket := volume_buckets token tf (get_list_entries_desc ns (token_volume_ns_prefix token tf)) in
  match first_bucket per_bucket, last_bucket per_bucket with
  | Some start_bucket, Some newest_with_data =>
      let newest_now := bucket_start_for now_ts tf in
      forward ← volume_points (rounds start_bucket newest_with_data dur) (fun ts => default 0 (per_bucket !! ts)) dur newest_with_data start_bucket;
      later ← (if newest_with_data <? newest_now then
                 volume_points (rounds newest_with_data newest_now dur) (fun _ => 0) dur newest_now (u64_sat_add newest_with_data dur)
               else Some []);
      Some (mkVolumeSlice (reverse (forward ++ later)) newest_now)
  | _, _ => Some (mkVolumeSlice [] 0)
  end.
