(* ===== verification/AmmBlock.v ===== *)
(** * The balance deltas of a block

    [src/modules/ammdata/utils/index_activity.rs], with the keys of
    [src/modules/ammdata/storage.rs], the helpers of [src/modules/ammdata/main.rs], the
    activity part of [src/modules/ammdata/utils/index_finalize.rs] and the batch write of the
    provider: for every transaction that moved a pool's tokens, the pool's reserves follow,
    the move is classified by its signs, and the activity, the table rows, the candles and
    the volumes of the block are gathered.

    [IndexState] has the fields these functions use.  The map of balance transactions is what
    [load_balance_txs_by_height] returns: empty when it fails. *)
From stdpp Require Import strings.
From S2P Require Import Prelude Bytes RunesTransfer RunesStore RunesChain RunesInscriptions AlkTrace AlkSheets.
From S2P Require Import AmmPath AmmCandles AmmActivity AmmVolume.
From stdpp Require Import options.

Open Scope Z_scope.

Record SchemaMarketDefs := mkDefs {
  base_alkane_id : SchemaAlkaneId;
  quote_alkane_id : SchemaAlkaneId;
  pool_alkane_id : SchemaAlkaneId;
}.

Record AlkaneBalanceTxEntry := mkBalanceTx { bt_txid : bytes; bt_height : Z; outflow : gmap SchemaAlkaneId SignedU128 }.

(** ** Deltas *)

(** [amt as i128] wraps, and so does the negation of the least [i128]. *)
Definition signed_from_delta (delta : option SignedU128) : Z :=
  match delta with
  | None => 0
  | Some d => let '(neg, amt) := as_parts d in if neg : bool then to_i128 (- to_i128 amt) else to_i128 amt
  end.

Definition apply_delta_u128 (current delta : Z) : Z :=
  if 0 <=? delta then u128_sat_add current (delta mod u128_mod)
  else u128_sat_sub current (to_i128 (- delta) mod u128_mod).

Definition kind_of_deltas (base_delta quote_delta : Z) : option (ActivityKind * option ActivityDirection) :=
  match Z.sgn base_delta, Z.sgn quote_delta with
  | 1, -1 => Some (TradeSell, Some BaseIn)
  | -1, 1 => Some (TradeBuy, Some QuoteIn)
  | 1, 1 => Some (LiquidityAdd, None)
  | -1, -1 => Some (LiquidityRemove, None)
  | _, _ => None
  end.

(** ** Table keys *)

Definition id_be (id : SchemaAlkaneId) : bytes := be_bytes 4 (ak_block id) ++ be_bytes 8 (ak_tx id).

Definition activity_kind_code (kind : ActivityKind) : Z :=
  match kind with TradeBuy => 0 | TradeSell => 1 | LiquidityAdd => 2 | LiquidityRemove => 3 | PoolCreate => 4 end.

(** A script longer than a [u16] can say is cut. *)
Definition push_spk (spk : bytes) : bytes :=
  let len := Z.min (Z.of_nat (length spk)) 65535 in be_bytes 2 len ++ take (Z.to_nat len) spk.

Definition token_activity_key (token : SchemaAlkaneId) (ts seq : Z) (kind : ActivityKind) (pool : SchemaAlkaneId) : bytes :=
  bstr "/token_activity/v1/" ++ id_be token ++ be_u64 ts ++ be_u32 seq ++ [z2b (activity_kind_code kind)] ++ id_be pool.

Definition token_activity_amount_key (token : SchemaAlkaneId) (amount ts seq : Z) (kind : ActivityKind) (pool : SchemaAlkaneId) : bytes :=
  bstr "/token_activity_amount/v1/" ++ id_be token ++ be_u128 amount ++ be_u64 ts ++ be_u32 seq
  ++ [z2b (activity_kind_code kind)] ++ id_be pool.

Definition token_swaps_key (token : SchemaAlkaneId) (ts seq : Z) (pool : SchemaAlkaneId) : bytes :=
  bstr "/token_swaps/v1/" ++ id_be token ++ bstr "/" ++ to_string ts ++ [colon] ++ to_string seq ++ bstr "/" ++ id_be pool.

Definition address_pool_swaps_key (address_spk : bytes) (pool : SchemaAlkaneId) (ts seq : Z) : bytes :=
  bstr "/address_pool_swaps/v1/" ++ push_spk address_spk ++ id_be pool ++ be_u64 ts ++ be_u32 seq.

Definition address_token_swaps_key (address_spk : bytes) (token : SchemaAlkaneId) (ts seq : Z) (pool : SchemaAlkaneId) : bytes :=
  bstr "/address_token_swaps/v1/" ++ push_spk address_spk ++ id_be token ++ be_u64 ts ++ be_u32 seq ++ id_be pool.

Definition address_pool_mints_key (address_spk : bytes) (ts seq : Z) (pool : SchemaAlkaneId) : bytes :=
  bstr "/address_pool_mints/v1/" ++ push_spk address_spk ++ be_u64 ts ++ be_u32 seq ++ id_be pool.

Definition address_pool_burns_key (address_spk : bytes) (ts seq : Z) (pool : SchemaAlkaneId) : bytes :=
  bstr "/address_pool_burns/v1/" ++ push_spk address_spk ++ be_u64 ts ++ be_u32 seq ++ id_be pool.

Definition address_amm_history_key (address_spk : bytes) (ts seq : Z) (kind : ActivityKind) (pool : SchemaAlkaneId) : bytes :=
  bstr "/address_amm_history/v1/" ++ push_spk address_spk ++ be_u64 ts ++ be_u32 seq ++ [z2b (activity_kind_code kind)] ++ id_be pool.

Definition amm_history_all_key (ts seq : Z) (kind : ActivityKind) (pool : SchemaAlkaneId) : bytes :=
  bstr "/amm_history_all/v1/" ++ be_u64 ts ++ be_u32 seq ++ [z2b (activity_kind_code kind)] ++ id_be pool.

(** ** The state of a block *)

(** The row vectors the function fills. *)
Record TableWrites := mkTables {
  token_activity_writes : list (bytes * bytes);
  token_activity_amount_writes : list (bytes * bytes);
  token_swaps_writes : list (bytes * bytes);
  address_pool_swaps_writes : list (bytes * bytes);
  address_token_swaps_writes : list (bytes * bytes);
  address_pool_mints_writes : list (bytes * bytes);
  address_pool_burns_writes : list (bytes * bytes);
  amm_history_all_writes : list (bytes * bytes);
  address_amm_history_writes : list (bytes * bytes);
}.

Definition tables_new : TableWrites := mkTables [] [] [] [] [] [] [] [] [].

Record IndexState := mkIndexState {
  reserves_snapshot : gmap SchemaAlkaneId SchemaPoolSnapshot;
  pools_map : gmap SchemaAlkaneId SchemaMarketDefs;
  candle_cache : CandleCache;
  activity_acc : ActivityWriteAcc;
  index_acc : ActivityIndexAcc;
  pool_price_overrides : gmap SchemaAlkaneId (Z * Z);
  canonical_trade_buckets : gmap SchemaAlkaneId (gset (Timeframe * Z));
  in_block_trade_volumes : gmap SchemaAlkaneId (Z * Z);
  pools_touched : gset SchemaAlkaneId;
  pricing_excluded_pools : gset SchemaAlkaneId;
  has_trades : bool;
  token_volume_cache : TokenVolumeCache;
  table_writes : TableWrites;
}.

Definition index_state_new (reserves_snapshot : gmap SchemaAlkaneId SchemaPoolSnapshot) (pools_map : gmap SchemaAlkaneId SchemaMarketDefs) : IndexState :=
  mkIndexState reserves_snapshot pools_map ∅ write_acc_new index_acc_new ∅ ∅ ∅ ∅ ∅ false volume_cache_new tables_new.

Definition pools_map_from_snapshot (reserves_snapshot : gmap SchemaAlkaneId SchemaPoolSnapshot) : gmap SchemaAlkaneId SchemaMarketDefs :=
  map_imap (fun pool snap => Some (mkDefs (base_id snap) (quote_id snap) pool)) reserves_snapshot.

Section Block.
Context `{ActivityCodec}.
Context (block_ts : Z) (canonical_quote_units : gset SchemaAlkaneId) (frames token_volume_frames : list Timeframe).
Context (tx_meta : gmap bytes (bytes * bool)).

(** The rows of one activity. *)
Definition push_table_rows (w : TableWrites) (owner : SchemaAlkaneId) (defs : SchemaMarketDefs) (seq : Z) (a : SchemaActivityV1) : TableWrites :=
  let kind := ac_kind a in
  let spk := address_spk a in
  let base := base_alkane_id defs in
  let quote := quote_alkane_id defs in
  let row (k : bytes) := (k, [] : bytes) in
  let two := negb (bool_decide (quote = base)) in
  let with_spk := match spk with [] => false | _ => true end in
  mkTables
    (token_activity_writes w ++ [row (token_activity_key base block_ts seq kind owner)]
       ++ (if two then [row (token_activity_key quote block_ts seq kind owner)] else []))
    (token_activity_amount_writes w ++ [row (token_activity_amount_key base (Z.abs (base_delta a)) block_ts seq kind owner)]
       ++ (if two then [row (token_activity_amount_key quote (Z.abs (quote_delta a)) block_ts seq kind owner)] else []))
    (token_swaps_writes w
       ++ (if is_trade kind then [row (token_swaps_key base block_ts seq owner); row (token_swaps_key quote block_ts seq owner)] else []))
    (address_pool_swaps_writes w
       ++ (if is_trade kind && with_spk then [row (address_pool_swaps_key spk owner block_ts seq)] else []))
    (address_token_swaps_writes w
       ++ (if is_trade kind && with_spk then
             [row (address_token_swaps_key spk base block_ts seq owner); row (address_token_swaps_key spk quote block_ts seq owner)]
           else []))
    (address_pool_mints_writes w
       ++ (if with_spk then match kind with LiquidityAdd => [row (address_pool_mints_key spk block_ts seq owner)] | _ => [] end else []))
    (address_pool_burns_writes w
       ++ (if with_spk then match kind with LiquidityRemove => [row (address_pool_burns_key spk block_ts seq owner)] | _ => [] end else []))
    (amm_history_all_writes w ++ [row (amm_history_all_key block_ts seq kind owner)])
    (address_amm_history_writes w ++ (if with_spk then [row (address_amm_history_key spk block_ts seq kind owner)] else [])).

(** [state.canonical_trade_buckets.entry(token).or_default()], the bucket of every frame. *)
Definition mark_buckets (m : gmap SchemaAlkaneId (gset (Timeframe * Z))) (token : SchemaAlkaneId) : gmap SchemaAlkaneId (gset (Timeframe * Z)) :=
  <[token := foldl (fun s tf => {[(tf, bucket_start_for block_ts tf)]} ∪ s) (default ∅ (m !! token)) frames]> m.

(** The prices of a trade: the contract's own price for a pool that has one, the ratio of
    the reserves after the trade for any other. *)
Definition trade_prices (st : IndexState) (owner : SchemaAlkaneId) (new_base new_quote : Z) : Z * Z :=
  match pool_price_overrides st !! owner with
  | Some (quote_per_base, base_per_quote) => (quote_per_base, base_per_quote)
  | None => (price_quote_per_base new_base new_quote, price_base_per_quote new_base new_quote)
  end.

Definition record_trade (st : IndexState) (owner : SchemaAlkaneId) (defs : SchemaMarketDefs) (base_delta quote_delta new_base new_quote : Z)
    : IndexState :=
  let base_abs := abs_i128 base_delta in
  let quote_abs := abs_i128 quote_delta in
  let vols := default (0, 0) (in_block_trade_volumes st !! owner) in
  let '(p_q_per_b, p_b_per_q) := trade_prices st owner new_base new_quote in
  let volumes := volume_trade_for_frames (token_volume_cache st) block_ts (base_alkane_id defs) token_volume_frames base_abs in
  let volumes :=
    if negb (bool_decide (quote_alkane_id defs = base_alkane_id defs)) then
      volume_trade_for_frames volumes block_ts (quote_alkane_id defs) token_volume_frames quote_abs
    else volumes in
  let prices_tokens := negb (bool_decide (owner ∈ pricing_excluded_pools st)) in
  let buckets := canonical_trade_buckets st in
  let buckets :=
    if prices_tokens && bool_decide (quote_alkane_id defs ∈ canonical_quote_units) then mark_buckets buckets (base_alkane_id defs) else buckets in
  let buckets :=
    if prices_tokens && bool_decide (base_alkane_id defs ∈ canonical_quote_units) then mark_buckets buckets (quote_alkane_id defs) else buckets in
  mkIndexState (reserves_snapshot st) (pools_map st)
    (apply_trade_for_frames frames (candle_cache st) (mkTrade block_ts owner p_b_per_q p_q_per_b base_abs quote_abs))
    (activity_acc st) (index_acc st) (pool_price_overrides st) buckets
    (<[owner := (u128_sat_add vols.1 base_abs, u128_sat_add vols.2 quote_abs)]> (in_block_trade_volumes st))
    (pools_touched st) (pricing_excluded_pools st) true volumes (table_writes st).

Definition record_activity (st : IndexState) (owner : SchemaAlkaneId) (defs : SchemaMarketDefs) (a : SchemaActivityV1) : IndexState :=
  let '(acc, res) := activity_push (activity_acc st) owner block_ts a in
  let '(idx, tables) :=
    match res with
    | Some seq => (index_add (index_acc st) owner block_ts seq a, push_table_rows (table_writes st) owner defs seq a)
    | None => (index_acc st, table_writes st)
    end in
  mkIndexState (reserves_snapshot st) (pools_map st) (candle_cache st) acc idx (pool_price_overrides st)
    (canonical_trade_buckets st) (in_block_trade_volumes st) ({[owner]} ∪ pools_touched st) (pricing_excluded_pools st)
    (has_trades st) (token_volume_cache st) tables.

Definition set_reserves (st : IndexState) (owner : SchemaAlkaneId) (snapshot : SchemaPoolSnapshot) : IndexState :=
  mkIndexState (<[owner := snapshot]> (reserves_snapshot st)) (pools_map st) (candle_cache st) (activity_acc st) (index_acc st)
    (pool_price_overrides st) (canonical_trade_buckets st) (in_block_trade_volumes st) (pools_touched st) (pricing_excluded_pools st)
    (has_trades st) (token_volume_cache st) (table_writes st).

Definition activity_of (entry : AlkaneBalanceTxEntry) (kind : ActivityKind) (direction : option ActivityDirection) (base_delta quote_delta : Z)
    : SchemaActivityV1 :=
  let '(spk, success) := default ([], true) (tx_meta !! bt_txid entry) in
  mkAct block_ts (bt_txid entry) kind direction base_delta quote_delta spk success.

(** The body of the inner loop; [snapshot] is the owner's entry of [reserves_snapshot]. *)
Definition process_entry (owner : SchemaAlkaneId) (defs : SchemaMarketDefs) (st : IndexState) (entry : AlkaneBalanceTxEntry) : IndexState :=
  match reserves_snapshot st !! owner with
  | None => st
  | Some snapshot =>
      let base_delta := signed_from_delta (outflow entry !! base_alkane_id defs) in
      let quote_delta := signed_from_delta (outflow entry !! quote_alkane_id defs) in
      if (base_delta =? 0) && (quote_delta =? 0) then st
      else
        let new_base := apply_delta_u128 (base_reserve snapshot) base_delta in
        let new_quote := apply_delta_u128 (quote_reserve snapshot) quote_delta in
        let st := set_reserves st owner (mkPoolSnapshot new_base new_quote (base_id snapshot) (quote_id snapshot)) in
        match kind_of_deltas base_delta quote_delta with
        | None => st
        | Some (kind, direction) =>
            let st := record_activity st owner defs (activity_of entry kind direction base_delta quote_delta) in
            if is_trade kind then record_trade st owner defs base_delta quote_delta new_base new_quote else st
        end
  end.

Definition process_owner (st : IndexState) (e : SchemaAlkaneId * list AlkaneBalanceTxEntry) : IndexState :=
  match pools_map st !! e.1 with
  | None => st
  | Some defs => foldl (process_entry e.1 defs) st e.2
  end.

Definition process_balance_deltas (balance_txs : gmap SchemaAlkaneId (list AlkaneBalanceTxEntry)) (st : IndexState) : IndexState :=
  foldl process_owner st (btree_entries balance_txs).

End Block.

(** ** The batch of a block *)

(** The counts of the pools with activity: what is stored, with the block's events added. *)
Definition bumped_count (ns : Namespace) (key : bytes) (delta : Z) : bytes * bytes :=
  (key, encode_u64_be (u64_sat_add (default 0 (ns !! key ≫= decode_u64_be)) delta)).

Definition count_writes (ns : Namespace) (acc : ActivityIndexAcc) : list (bytes * bytes) :=
  map (fun e : Z * Z * Z => bumped_count ns (idx_count_key (mkAlkaneId e.1.1 e.1.2)) e.2) (map_to_list (per_pool_delta acc))
  ++ map (fun e : Z * Z * ActivityGroup * Z => bumped_count ns (idx_count_key_group (mkAlkaneId e.1.1.1 e.1.1.2) e.1.2) e.2)
       (map_to_list (per_pool_group_delta acc)).

(** The activity rows of the batch, in its order. *)
Definition activity_puts (ns : Namespace) (st : IndexState) : list (bytes * bytes) :=
  aw_writes (activity_acc st) ++ (ai_writes (index_acc st) ++ count_writes ns (index_acc st)).

(** The last put of a key stays where it stands; a delete of a key that is put is dropped. *)
Definition dedupe_step (acc : list (bytes * bytes) * gset bytes) (p : bytes * bytes) : list (bytes * bytes) * gset bytes :=
  if bool_decide (p.1 ∈ acc.2) then acc else (acc.1 ++ [p], {[p.1]} ∪ acc.2).

Definition dedupe_puts (puts : list (bytes * bytes)) : list (bytes * bytes) :=
  reverse (foldl dedupe_step ([], ∅) (reverse puts)).1.

Definition dedupe_deletes (put_keys : gset bytes) (deletes : list bytes) : list bytes :=
  (foldl (fun (acc : list bytes * gset bytes) key =>
            if bool_decide (key ∈ put_keys) then acc
            else if bool_decide (key ∈ acc.2) then acc
            else (acc.1 ++ [key], {[key]} ∪ acc.2)) ([], ∅) deletes).1.

Definition dedupe_batch_ops (puts : list (bytes * bytes)) (deletes : list bytes) : list (bytes * bytes) * list bytes :=
  let dedup_puts := dedupe_puts puts in (dedup_puts, dedupe_deletes (list_to_set dedup_puts.*1) deletes).

Definition apply_deletes (ns : Namespace) (deletes : list bytes) : Namespace := foldl (fun ns key => delete key ns) ns deletes.

(** [None] when the provider looks at a past block. *)
Definition set_batch (view_blockhash : option bytes) (ns : Namespace) (puts : list (bytes * bytes)) (deletes : list bytes) : option Namespace :=
  match view_blockhash with
  | Some _ => None
  | None => let '(all_puts, all_deletes) := dedupe_batch_ops puts deletes in Some (apply_puts (apply_deletes ns all_deletes) all_puts)
  end.

(** The table rows in the order of the batch; [creations] are the rows of new pools. *)
Definition table_puts (w : TableWrites) (creations : list (bytes * bytes)) : list (bytes * bytes) :=
  token_activity_writes w ++ token_activity_amount_writes w ++ token_swaps_writes w ++ address_pool_swaps_writes w
  ++ address_token_swaps_writes w ++ creations ++ address_pool_mints_writes w ++ address_pool_burns_writes w
  ++ address_amm_history_writes w ++ amm_history_all_writes w.

(** What the rest of the module adds to a block's batch, by its place in it. *)
Record OtherWrites := mkOthers {
  derived_rows : list (bytes * bytes);
  pool_rows : list (bytes * bytes);
  creation_rows : list (bytes * bytes);
  snapshot_rows : list (bytes * bytes);
  other_deletes : list bytes;
}.

(** The inputs of a block: what the chain gives, and what pool discovery has prepared, with
    the creations it has recorded already and their table rows. *)
Record AmmBlockIn := mkAmmBlock {
  ab_height : Z;
  ab_ts : Z;
  ab_txs : gmap SchemaAlkaneId (list AlkaneBalanceTxEntry);
  ab_meta : gmap bytes (bytes * bool);
  ab_reserves : gmap SchemaAlkaneId SchemaPoolSnapshot;
  ab_pools : gmap SchemaAlkaneId SchemaMarketDefs;
  ab_overrides : gmap SchemaAlkaneId (Z * Z);
  ab_excluded : gset SchemaAlkaneId;
  ab_created : list (SchemaAlkaneId * SchemaActivityV1);
  ab_tables : TableWrites;
  ab_others : OtherWrites;
}.

Section Index.
Context `{ActivityCodec}.

(** An activity into both accumulators, when it encodes. *)
Definition push_both (block_ts : Z) (accs : ActivityWriteAcc * ActivityIndexAcc) (x : SchemaAlkaneId * SchemaActivityV1)
    : ActivityWriteAcc * ActivityIndexAcc :=
  let '(acc, res) := activity_push accs.1 x.1 block_ts x.2 in
  (acc, match res with Some sq => index_add accs.2 x.1 block_ts sq x.2 | None => accs.2 end).

Definition block_state (b : AmmBlockIn) : IndexState :=
  let accs := foldl (push_both (ab_ts b)) (write_acc_new, index_acc_new) (ab_created b) in
  mkIndexState (ab_reserves b) (ab_pools b) ∅ accs.1 accs.2 (ab_overrides b) ∅ ∅ ∅ (ab_excluded b) false volume_cache_new (ab_tables b).

Context `{CandleCodec}.
Context (canonical_quote_units : gset SchemaAlkaneId) (frames token_volume_frames : list Timeframe).

Definition processed (b : AmmBlockIn) : IndexState :=
  process_balance_deltas (ab_ts b) canonical_quote_units frames token_volume_frames (ab_meta b) (ab_txs b) (block_state b).

(** The puts of the block, in the order of [prepare_batch]. *)
Definition batch_puts (ns : Namespace) (b : AmmBlockIn) (candle_writes : list (bytes * bytes)) : list (bytes * bytes) :=
  let st := processed b in
  let o := ab_others b in
  let '(token_volume_candle_writes, token_volume_total_writes) := prepare_token_volume (ab_height b) ns (token_volume_cache st) in
  candle_writes ++ derived_rows o ++ token_volume_candle_writes ++ token_volume_total_writes ++ pool_rows o
  ++ table_puts (table_writes st) (creation_rows o) ++ activity_puts ns st ++ snapshot_rows o.

(** One block: the deltas, the candles and volumes against the rows, the batch. *)
Definition index_amm_block (ns : Namespace) (b : AmmBlockIn) : option Namespace :=
  candle_writes ← into_writes ns (candle_cache (processed b));
  set_batch None ns (batch_puts ns b candle_writes) (other_deletes (ab_others b)).

Fixpoint index_amm_blocks (ns : Namespace) (blocks : list AmmBlockIn) : option Namespace :=
  match blocks with
  | [] => Some ns
  | b :: blocks => ns' ← index_amm_block ns b; index_amm_blocks ns' blocks
  end.

End Index.
