(* ===== verification/AmmBlockProps.v ===== *)
(** * The balance deltas of a block: lemmas

    What [process_balance_deltas] leaves in every field of the state, move by move; that the
    deduplicated batch writes what the full one would; and that a block's activity rows extend
    the log of the namespace by the block's events. *)
From stdpp Require Import strings.
From S2P Require Import Prelude Bytes Rocks RunesTransfer RunesStore RunesChain RunesInscriptions AlkTrace AlkSheets.
From S2P Require Import AmmPath AmmCandles AmmCandlesProps AmmChart AmmActivity AmmActivityProps AmmVolume AmmBlock.
From stdpp Require Import options.

Open Scope Z_scope.

(** ** Batches *)

Fixpoint first_put (puts : list (bytes * bytes)) (k : bytes) : option bytes :=
  match puts with
  | [] => None
  | (k', v) :: puts => if bool_decide (k' = k) then Some v else first_put puts k
  end.

(** The value a list of puts leaves under a key. *)
Definition last_put (puts : list (bytes * bytes)) (k : bytes) : option bytes := first_put (reverse puts) k.

Definition orelse {A} (a b : option A) : option A := match a with Some _ => a | None => b end.

Lemma first_put_app l1 l2 k : first_put (l1 ++ l2) k = orelse (first_put l1 k) (first_put l2 k).
Proof. induction l1 as [|[k' v] l1 IH]; cbn; [done|]. by case_bool_decide. Qed.

Lemma first_put_none l k : first_put l k = None <-> k ∉ l.*1.
Proof.
  induction l as [|[k' v] l IH]; cbn; [set_solver|]. case_bool_decide; set_solver.
Qed.

Lemma apply_puts_last ns puts k : apply_puts ns puts !! k = orelse (last_put puts k) (ns !! k).
Proof.
  unfold last_put. induction puts as [|[k' v] puts IH] using rev_ind; [done|]. rewrite candle_puts_app, reverse_app. cbn.
  case_bool_decide as E; [subst; by rewrite lookup_insert_eq|by rewrite lookup_insert_ne].
Qed.

Lemma apply_deletes_lookup ns deletes k : apply_deletes ns deletes !! k = if bool_decide (k ∈ deletes) then None else ns !! k.
Proof.
  unfold apply_deletes. revert ns. induction deletes as [|d deletes IH]; intros ns; cbn; [done|]. rewrite IH.
  destruct (decide (k = d)) as [->|Hne].
  - rewrite lookup_delete_eq, (bool_decide_true (d ∈ d :: deletes)) by set_solver. by case_bool_decide.
  - rewrite lookup_delete_ne by done. apply (f_equal (fun b : bool => if b then None else ns !! k)).
    apply bool_decide_ext. set_solver.
Qed.

Lemma dedupe_fold l acc k :
  (forall x, x ∈ acc.2 <-> x ∈ acc.1.*1) ->
  first_put (foldl dedupe_step acc l).1 k = orelse (first_put acc.1 k) (first_put l k).
Proof.
  revert acc. induction l as [|[k' v] l IH]; intros acc Hacc; cbn [foldl].
  { cbn. by destruct (first_put acc.1 k). }
  unfold dedupe_step at 2. cbn [fst]. destruct (bool_decide_reflect (k' ∈ acc.2)) as [Hin|Hni].
  - rewrite IH by done. cbn. destruct (bool_decide_reflect (k' = k)) as [->|]; [|done].
    destruct (first_put acc.1 k) eqn:E; [done|]. apply first_put_none in E. by apply Hacc in Hin.
  - rewrite IH by (intros x; cbn; rewrite fmap_app; cbn; rewrite elem_of_union, elem_of_singleton, elem_of_app, Hacc; set_solver).
    cbn. rewrite first_put_app. cbn. destruct (first_put acc.1 k); [done|]. cbn. by case_bool_decide.
Qed.

Lemma dedupe_puts_last puts k : last_put (dedupe_puts puts) k = last_put puts k.
Proof.
  unfold last_put, dedupe_puts. rewrite reverse_involutive. rewrite dedupe_fold; [done|]. set_solver.
Qed.

Lemma dedupe_deletes_elem put_keys deletes k : k ∈ dedupe_deletes put_keys deletes <-> k ∈ deletes /\ k ∉ put_keys.
Proof.
  unfold dedupe_deletes.
  assert (Hg : forall acc : list bytes * gset bytes, (forall x, x ∈ acc.2 <-> x ∈ acc.1) ->
    k ∈ (foldl (fun (acc : list bytes * gset bytes) key =>
            if bool_decide (key ∈ put_keys) then acc
            else if bool_decide (key ∈ acc.2) then acc
            else (acc.1 ++ [key], {[key]} ∪ acc.2)) acc deletes).1 <-> k ∈ acc.1 \/ (k ∈ deletes /\ k ∉ put_keys)).
  { induction deletes as [|d deletes IH]; intros acc Hacc; cbn [foldl]; [set_solver|].
    destruct (bool_decide_reflect (d ∈ put_keys)); [rewrite IH by done; set_solver|].
    destruct (bool_decide_reflect (d ∈ acc.2)) as [Hd|].
    - rewrite IH by done. apply Hacc in Hd. set_solver.
    - rewrite IH by (intros x; cbn; set_solver). cbn. set_solver. }
  rewrite Hg by (cbn; set_solver). cbn. set_solver.
Qed.

Lemma last_put_some puts k : is_Some (last_put puts k) <-> k ∈ puts.*1.
Proof.
  unfold last_put. destruct (first_put (reverse puts) k) eqn:E.
  - split; [intros _|by eexists]. destruct (decide (k ∈ puts.*1)) as [|Hni]; [done|]. exfalso.
    assert (first_put (reverse puts) k = None); [|congruence]. apply first_put_none. rewrite fmap_reverse. by rewrite elem_of_reverse.
  - apply first_put_none in E. rewrite fmap_reverse, elem_of_reverse in E. split; [by intros [??]|done].
Qed.

(** Deduplication changes nothing: the deletes, then every put in order. *)
Lemma set_batch_spec ns puts deletes : set_batch None ns puts deletes = Some (apply_puts (apply_deletes ns deletes) puts).
Proof.
  unfold set_batch, dedupe_batch_ops. f_equal. apply map_eq. intros k. rewrite !apply_puts_last, dedupe_puts_last, !apply_deletes_lookup.
  destruct (last_put puts k) as [v|] eqn:E; [done|]. cbn [orelse].
  rewrite (bool_decide_ext (k ∈ dedupe_deletes _ deletes) (k ∈ deletes)); [done|].
  rewrite dedupe_deletes_elem, elem_of_list_to_set, <- last_put_some, dedupe_puts_last, E. split; [tauto|]. intros Hd. split; [done|]. by intros [? ?].
Qed.

(** ** Moves *)

(** A balance transaction of a known pool. *)
Record Move := mkMove { mv_owner : SchemaAlkaneId; mv_defs : SchemaMarketDefs; mv_entry : AlkaneBalanceTxEntry }.

(** What a transaction changed of a pool's balance in a token, as an integer. *)
Definition balance_change (e : AlkaneBalanceTxEntry) (token : SchemaAlkaneId) : Z :=
  match outflow e !! token with
  | None => 0
  | Some d => if is_negative d then - amount d else amount d
  end.

(** The signed 128-bit number that it is read as. *)
Definition mv_base (m : Move) : Z := to_i128 (balance_change (mv_entry m) (base_alkane_id (mv_defs m))).
Definition mv_quote (m : Move) : Z := to_i128 (balance_change (mv_entry m) (quote_alkane_id (mv_defs m))).
Definition mv_kind (m : Move) : option (ActivityKind * option ActivityDirection) := kind_of_deltas (mv_base m) (mv_quote m).

(** The moves of a block in the order of the loops: pools by identifier, then transactions. *)
Definition block_moves (pools : gmap SchemaAlkaneId SchemaMarketDefs) (balance_txs : gmap SchemaAlkaneId (list AlkaneBalanceTxEntry)) : list Move :=
  btree_entries balance_txs ≫= fun e =>
    match pools !! e.1 with Some defs => map (mkMove e.1 defs) e.2 | None => [] end.

Definition of_pool (pool : SchemaAlkaneId) (m : Move) : Prop := mv_owner m = pool.
#[global] Instance of_pool_dec pool m : Decision (of_pool pool m) := decide (mv_owner m = pool).

(** The moves of one pool. *)
Lemma pool_moves pools balance_txs pool :
  filter (of_pool pool) (block_moves pools balance_txs)
  = match pools !! pool with Some defs => map (mkMove pool defs) (default [] (balance_txs !! pool)) | None => [] end.
Proof.
  assert (Hother : forall (o : SchemaAlkaneId) defs es, o <> pool -> filter (of_pool pool) (map (mkMove o defs) es) = []).
  { intros o defs es Hne. induction es as [|e es IH]; [done|]. cbn [map]. rewrite filter_cons, decide_False; done. }
  assert (Hown : forall defs es, filter (of_pool pool) (map (mkMove pool defs) es) = map (mkMove pool defs) es).
  { intros defs es. induction es as [|e es IH]; [done|]. cbn [map]. rewrite filter_cons, decide_True; [by rewrite IH|done]. }
  assert (Hl : forall l : list (SchemaAlkaneId * list AlkaneBalanceTxEntry), NoDup l.*1 ->
    filter (of_pool pool) (l ≫= fun e => match pools !! e.1 with Some defs => map (mkMove e.1 defs) e.2 | None => [] end)
    = match pools !! pool with Some defs => map (mkMove pool defs) (default [] (list_to_map (M := gmap SchemaAlkaneId _) l !! pool)) | None => [] end).
  { intros l. induction l as [|[o es] l IH]; intros Hnd; [by destruct (pools !! pool)|]. rewrite fmap_cons in Hnd. apply NoDup_cons in Hnd as [Hni Hnd]. cbn [fst] in Hni.
    rewrite bind_cons, filter_app, IH by done. cbn [fst snd list_to_map foldr uncurry]. destruct (decide (o = pool)) as [->|Hne].
    - rewrite lookup_insert_eq, (not_elem_of_list_to_map_1 (M := gmap SchemaAlkaneId) l pool) by done.
      destruct (pools !! pool) as [defs|]; [|done]. cbn. by rewrite Hown, app_nil_r.
    - rewrite lookup_insert_ne by done. destruct (pools !! o) as [defs|]; [by rewrite Hother|done]. }
  unfold block_moves. assert (Hp : btree_entries balance_txs ≡ₚ map_to_list balance_txs) by (unfold btree_entries; apply sort_by_perm).
  assert (Hnd : NoDup (btree_entries balance_txs).*1) by (rewrite Hp; apply NoDup_fst_map_to_list).
  rewrite Hl by done. rewrite (list_to_map_proper (M := gmap SchemaAlkaneId) _ (map_to_list balance_txs)) by done. by rewrite list_to_map_to_list.
Qed.

(** The reserves after a move. *)
Definition moved_snapshot (s : SchemaPoolSnapshot) (m : Move) : SchemaPoolSnapshot :=
  mkPoolSnapshot (apply_delta_u128 (base_reserve s) (mv_base m)) (apply_delta_u128 (quote_reserve s) (mv_quote m)) (base_id s) (quote_id s).

Definition snapshot_ok (s : SchemaPoolSnapshot) : Prop := in_u128 (base_reserve s) /\ in_u128 (quote_reserve s).

(** An [i128]. *)
Definition in_i128 (z : Z) : Prop := - 2 ^ 127 <= z < 2 ^ 127.

Lemma to_i128_range z : in_i128 (to_i128 z).
Proof.
  unfold to_i128, in_i128. pose proof (Z.mod_pos_bound z u128_mod ltac:(reflexivity)) as Hm. unfold u128_mod in *.
  destruct (Z.ltb_spec (z mod 2 ^ 128) (2 ^ 127)); lia.
Qed.

Lemma to_i128_id z : in_i128 z -> to_i128 z = z.
Proof.
  intros [Hl Hu]. unfold to_i128, u128_mod. destruct (Z_lt_le_dec z 0) as [Hn|Hp].
  - replace (z mod 2 ^ 128) with (z + 2 ^ 128) by (rewrite <- (Z.mod_small (z + 2 ^ 128) (2 ^ 128)) by lia; rewrite <- Z.add_mod_idemp_r, Z_mod_same_full, Z.add_0_r by lia; done).
    destruct (Z.ltb_spec (z + 2 ^ 128) (2 ^ 127)); lia.
  - rewrite Z.mod_small by lia. destruct (Z.ltb_spec z (2 ^ 127)); lia.
Qed.

Lemma to_i128_opp z : to_i128 (- to_i128 z) = to_i128 (- z).
Proof.
  assert (E : to_i128 z mod u128_mod = z mod u128_mod).
  { unfold to_i128. destruct (_ <? _); [by rewrite Zmod_mod|]. by rewrite Zminus_mod, Zmod_mod, Z_mod_same_full, Z.sub_0_r, Zmod_mod. }
  unfold to_i128 at 1 3. rewrite <- (Z.sub_0_l (to_i128 z)), <- (Z.sub_0_l z), Zminus_mod, E, <- Zminus_mod. done.
Qed.

(** The casts of the code are that reading. *)
Lemma signed_from_delta_change e token : signed_from_delta (outflow e !! token) = to_i128 (balance_change e token).
Proof.
  unfold balance_change. destruct (outflow e !! token) as [d|]; [|done]. cbn. destruct (is_negative d); [apply to_i128_opp|done].
Qed.

Lemma mv_base_range m : in_i128 (mv_base m).
Proof. apply to_i128_range. Qed.
Lemma mv_quote_range m : in_i128 (mv_quote m).
Proof. apply to_i128_range. Qed.

Lemma abs_i128_abs x : in_i128 x -> abs_i128 x = Z.abs x.
Proof.
  intros [Hl Hu]. unfold abs_i128. destruct (Z.ltb_spec x 0) as [Hn|Hp].
  - destruct (decide (x = - 2 ^ 127)) as [->|Hne]; [reflexivity|]. rewrite to_i128_id by (unfold in_i128; lia).
    rewrite Z.mod_small by (unfold u128_mod; lia). lia.
  - rewrite Z.mod_small by (unfold u128_mod; lia). lia.
Qed.

(** The reserves follow the delta and stop at the ends of the [u128] range. *)
Lemma apply_delta_clamp r d : in_u128 r -> in_i128 d -> apply_delta_u128 r d = Z.max 0 (Z.min (u128_mod - 1) (r + d)).
Proof.
  intros Hr Hd. pose proof (abs_i128_abs d Hd) as Ha. unfold apply_delta_u128. unfold abs_i128 in Ha.
  unfold in_u128, in_i128, u128_mod in *. destruct (Z.leb_spec 0 d) as [Hp|Hn].
  - unfold u128_sat_add, u128_mod. rewrite Z.mod_small by lia. lia.
  - rewrite (proj2 (Z.ltb_lt d 0) Hn) in Ha. rewrite Ha. unfold u128_sat_sub. lia.
Qed.

Lemma moved_snapshot_ok s m : snapshot_ok s -> snapshot_ok (moved_snapshot s m).
Proof.
  intros [Hb Hq]. split; cbn; (rewrite apply_delta_clamp; [unfold in_u128, u128_mod in *; lia|done|apply to_i128_range]).
Qed.

Lemma moved_zero s m : snapshot_ok s -> mv_base m = 0 -> mv_quote m = 0 -> moved_snapshot s m = s.
Proof.
  intros [Hb Hq] Eb Eq. unfold moved_snapshot. rewrite !apply_delta_clamp by (done || apply to_i128_range).
  rewrite Eb, Eq. destruct s; cbn in *. unfold in_u128, u128_mod in *. f_equal; lia.
Qed.

Section Moves.
Context `{ActivityCodec}.
Context (block_ts : Z) (units : gset SchemaAlkaneId) (frames vframes : list Timeframe) (tx_meta : gmap bytes (bytes * bool)).

Definition process_move (st : IndexState) (m : Move) : IndexState :=
  process_entry block_ts units frames vframes tx_meta (mv_owner m) (mv_defs m) st (mv_entry m).

Lemma process_move_pools st m : pools_map (process_move st m) = pools_map st.
Proof.
  unfold process_move, process_entry. destruct (reserves_snapshot st !! mv_owner m); [|done].
  destruct (_ && _); [done|]. destruct (kind_of_deltas _ _) as [[kind dir]|]; [|done].
  unfold record_trade, record_activity. cbn zeta. destruct (activity_push _ _ _ _) as [acc [sq|]], (is_trade kind); cbn;
    repeat destruct (trade_prices _ _ _ _); done.
Qed.

Lemma process_moves_pools st ms : pools_map (foldl process_move st ms) = pools_map st.
Proof. revert st. induction ms as [|m ms IH]; intros st; cbn; [done|]. by rewrite IH, process_move_pools. Qed.

(** The two loops are one walk over the moves. *)
Lemma process_balance_moves balance_txs st :
  process_balance_deltas block_ts units frames vframes tx_meta balance_txs st = foldl process_move st (block_moves (pools_map st) balance_txs).
Proof.
  unfold process_balance_deltas, block_moves. generalize (btree_entries balance_txs) as l. intros l. revert st.
  induction l as [|[owner es] l IH]; intros st; [done|]. rewrite bind_cons, foldl_app. cbn [foldl fst snd].
  assert (E : process_owner block_ts units frames vframes tx_meta st (owner, es)
              = foldl process_move st (match pools_map st !! owner with Some defs => map (mkMove owner defs) es | None => [] end)).
  { unfold process_owner. cbn [fst snd]. destruct (pools_map st !! owner) as [defs|]; [|done].
    clear IH. revert st. induction es as [|x es IH]; intros st; [done|]. cbn. apply IH. }
  rewrite E, IH, process_moves_pools. done.
Qed.

(** What a move adds to the activity, to the candles and to the volumes. *)
Definition mv_act (m : Move) : option SchemaActivityV1 :=
  '(kind, dir) ← mv_kind m; Some (activity_of block_ts tx_meta (mv_entry m) kind dir (mv_base m) (mv_quote m)).

Definition mv_trades (m : Move) : bool := match mv_kind m with Some (kind, _) => is_trade kind | None => false end.

(** The price a trade is charted at: the contract's own where there is one, or the ratio of
    the reserves that it left. *)
Definition spot (overrides : gmap SchemaAlkaneId (Z * Z)) (pool : SchemaAlkaneId) (after : SchemaPoolSnapshot) : Z * Z :=
  match overrides !! pool with
  | Some p => p
  | None => (price_quote_per_base (base_reserve after) (quote_reserve after), price_base_per_quote (base_reserve after) (quote_reserve after))
  end.

Definition mv_trade (overrides : gmap SchemaAlkaneId (Z * Z)) (after : SchemaPoolSnapshot) (m : Move) : Trade :=
  let '(p_q_per_b, p_b_per_q) := spot overrides (mv_owner m) after in
  mkTrade block_ts (mv_owner m) p_b_per_q p_q_per_b (Z.abs (mv_base m)) (Z.abs (mv_quote m)).

(** The amounts a trade counts for its tokens. *)
Definition mv_volumes (m : Move) : list (SchemaAlkaneId * Z) :=
  let base := base_alkane_id (mv_defs m) in
  let quote := quote_alkane_id (mv_defs m) in
  if mv_trades m then (base, Z.abs (mv_base m)) :: (if decide (quote = base) then [] else [(quote, Z.abs (mv_quote m))]) else [].

Definition count_volume (c : TokenVolumeCache) (x : SchemaAlkaneId * Z) : TokenVolumeCache :=
  volume_trade_for_frames c block_ts x.1 vframes x.2.

Lemma mv_base_abs m : abs_i128 (mv_base m) = Z.abs (mv_base m).
Proof. apply abs_i128_abs, to_i128_range. Qed.
Lemma mv_quote_abs m : abs_i128 (mv_quote m) = Z.abs (mv_quote m).
Proof. apply abs_i128_abs, to_i128_range. Qed.

Lemma mv_zero m : (mv_base m =? 0) && (mv_quote m =? 0) = true -> mv_kind m = None /\ mv_base m = 0 /\ mv_quote m = 0.
Proof. intros [Eb%Z.eqb_eq Eq%Z.eqb_eq]%andb_true_iff. unfold mv_kind. by rewrite Eb, Eq. Qed.

(** One move, field by field. *)
Lemma process_move_fields st m s :
  reserves_snapshot st !! mv_owner m = Some s -> snapshot_ok s ->
  let st' := process_move st m in
  let after := moved_snapshot s m in
  reserves_snapshot st' = <[mv_owner m := after]> (reserves_snapshot st)
  /\ pool_price_overrides st' = pool_price_overrides st
  /\ (activity_acc st', index_acc st') = match mv_act m with Some a => push_both block_ts (activity_acc st, index_acc st) (mv_owner m, a) | None => (activity_acc st, index_acc st) end
  /\ candle_cache st' = (if mv_trades m then apply_trade_for_frames frames (candle_cache st) (mv_trade (pool_price_overrides st) after m) else candle_cache st)
  /\ token_volume_cache st' = foldl count_volume (token_volume_cache st) (mv_volumes m).
Proof.
  intros Hs Hok st' after. unfold st', process_move, process_entry, mv_trades, mv_volumes. rewrite Hs, !signed_from_delta_change. fold (mv_base m). fold (mv_quote m).
  fold (mv_kind m). unfold mv_act. destruct ((mv_base m =? 0) && (mv_quote m =? 0)) eqn:E0.
  { apply mv_zero in E0 as (Ek & Eb & Eq). unfold mv_trades. rewrite Ek. unfold after. rewrite moved_zero by done. by rewrite insert_id. }
  unfold mv_trades. destruct (mv_kind m) as [[kind dir]|] eqn:Ek; [|done]. cbn [mbind option_bind].
  unfold record_activity, record_trade, push_both, trade_prices, mv_trade, spot. cbn zeta.
  cbn [set_reserves reserves_snapshot pools_map candle_cache activity_acc index_acc pool_price_overrides canonical_trade_buckets
       in_block_trade_volumes pools_touched pricing_excluded_pools has_trades token_volume_cache table_writes fst snd].
  destruct (activity_push (activity_acc st) (mv_owner m) block_ts _) as [acc [sq|]]; destruct (is_trade kind).
  all: cbn [set_reserves reserves_snapshot pools_map candle_cache activity_acc index_acc pool_price_overrides canonical_trade_buckets
       in_block_trade_volumes pools_touched pricing_excluded_pools has_trades token_volume_cache table_writes fst snd].
  all: rewrite ?mv_base_abs, ?mv_quote_abs.
  all: destruct (pool_price_overrides st !! mv_owner m) as [[pq pb]|]; cbn; try done.
  all: unfold count_volume; destruct (decide (quote_alkane_id (mv_defs m) = base_alkane_id (mv_defs m))) as [Eqb|Hqb];
       [rewrite bool_decide_true by done|rewrite bool_decide_false by done]; done.
Qed.

(** ** A block *)

Abbreviation Reserves := (gmap SchemaAlkaneId SchemaPoolSnapshot).

(** The pools that have reserves are the ones that are followed. *)
Definition followed (pools : gset SchemaAlkaneId) (ms : list Move) : list Move := filter (fun m => mv_owner m ∈ pools) ms.

Definition block_acts (pools : gset SchemaAlkaneId) (ms : list Move) : list (SchemaAlkaneId * SchemaActivityV1) :=
  omap (fun m => pair (mv_owner m) <$> mv_act m) (followed pools ms).

Definition block_volumes (pools : gset SchemaAlkaneId) (ms : list Move) : list (SchemaAlkaneId * Z) := followed pools ms ≫= mv_volumes.

(** The trades, each with the reserves it left. *)
Fixpoint block_trades (overrides : gmap SchemaAlkaneId (Z * Z)) (res : Reserves) (ms : list Move) : list Trade :=
  match ms with
  | [] => []
  | m :: ms =>
      match res !! mv_owner m with
      | None => block_trades overrides res ms
      | Some s =>
          let after := moved_snapshot s m in
          let rest := block_trades overrides (<[mv_owner m := after]> res) ms in
          if mv_trades m then mv_trade overrides after m :: rest else rest
      end
  end.

Definition reserves_after (res : Reserves) (ms : list Move) (pool : SchemaAlkaneId) : option SchemaPoolSnapshot :=
  (fun s => foldl moved_snapshot s (filter (of_pool pool) ms)) <$> res !! pool.

Definition reserves_ok (res : Reserves) : Prop := forall pool s, res !! pool = Some s -> snapshot_ok s.

Lemma reserves_ok_step res m s : reserves_ok res -> res !! mv_owner m = Some s -> reserves_ok (<[mv_owner m := moved_snapshot s m]> res).
Proof.
  intros Hok Hs pool s'. destruct (decide (mv_owner m = pool)) as [<-|].
  - rewrite lookup_insert_eq. intros [= <-]. apply moved_snapshot_ok. by eapply Hok.
  - rewrite lookup_insert_ne by done. apply Hok.
Qed.

Lemma process_moves_fields st ms :
  reserves_ok (reserves_snapshot st) ->
  let st' := foldl process_move st ms in
  let pools := dom (reserves_snapshot st) in
  (forall pool, reserves_snapshot st' !! pool = reserves_after (reserves_snapshot st) ms pool)
  /\ (activity_acc st', index_acc st') = foldl (push_both block_ts) (activity_acc st, index_acc st) (block_acts pools ms)
  /\ candle_cache st' = foldl (apply_trade_for_frames frames) (candle_cache st) (block_trades (pool_price_overrides st) (reserves_snapshot st) ms)
  /\ token_volume_cache st' = foldl count_volume (token_volume_cache st) (block_volumes pools ms).
Proof.
  revert st. induction ms as [|m ms IH]; intros st Hok; cbn zeta.
  { split; [|done]. intros pool. unfold reserves_after. cbn. by destruct (reserves_snapshot st !! pool). }
  cbn [foldl block_trades]. unfold block_acts, block_volumes, followed. rewrite filter_cons.
  destruct (reserves_snapshot st !! mv_owner m) as [s|] eqn:Es.
  - rewrite decide_True by (by apply elem_of_dom).
    destruct (process_move_fields st m s Es ltac:(by eapply Hok)) as (Er & Eo & Ea & Ec & Ev).
    destruct (IH (process_move st m)) as (Hr & Ha & Hc & Hv); [rewrite Er; by apply reserves_ok_step|].
    unfold block_acts, block_volumes, followed in Ha, Hv. rewrite Er, Eo, ?dom_insert_lookup_L in * by (by eexists). split.
    + intros pool. rewrite Hr. unfold reserves_after. rewrite filter_cons. destruct (decide (mv_owner m = pool)) as [<-|Hne].
      * rewrite lookup_insert_eq, decide_True by done. by rewrite Es.
      * rewrite lookup_insert_ne by done. by rewrite decide_False.
    + rewrite Ha, Hc, Hv, Ea, Ec, Ev, bind_cons, foldl_app. cbn [omap list_omap]. split_and!; [|by destruct (mv_trades m)|done].
      destruct (mv_act m); done.
  - rewrite decide_False by (by apply not_elem_of_dom). assert (process_move st m = st) as ->; [|destruct (IH st Hok) as (Hr & Ha & Hc & Hv)].
    { unfold process_move, process_entry. by rewrite Es. }
    split_and!; [|done..]. intros pool. rewrite Hr. unfold reserves_after. rewrite filter_cons.
    destruct (decide (mv_owner m = pool)) as [<-|Hne]; [by rewrite Es|by rewrite decide_False].
Qed.

End Moves.
