(* ===== verification/AmmLog.v ===== *)
(** * The activity log, block by block

    The accumulators number the events of a block, and the block's batch extends the log of
    the namespace by exactly those events. *)
From stdpp Require Import strings.
From S2P Require Import Prelude Bytes Rocks RunesTransfer RunesStore RunesChain RunesInscriptions AlkTrace AlkSheets.
From S2P Require Import AmmPath AmmCandles AmmCandlesProps AmmChart AmmActivity AmmActivityProps AmmVolume AmmBlock AmmBlockProps.
From stdpp Require Import options.

Open Scope Z_scope.

Abbreviation Act := (SchemaAlkaneId * SchemaActivityV1)%type.

Definition acts_of (pool : SchemaAlkaneId) (g : option ActivityGroup) (x : Act) : Prop :=
  x.1 = pool /\ match g with Some g => group_for_kind (ac_kind x.2) = g | None => True end.

#[global] Instance acts_of_dec pool g x : Decision (acts_of pool g x).
Proof. unfold acts_of. destruct g; apply _. Defined.

Definition tally (pool : SchemaAlkaneId) (g : option ActivityGroup) (acts : list Act) : nat := length (filter (acts_of pool g) acts).

(** The events of a block: each has the number of the pool's events before it. *)
Definition block_events (ts : Z) (acts : list Act) : list Event :=
  imap (fun i x => mkEvent x.1 ts (Z.of_nat (tally x.1 None (take i acts))) x.2) acts.

Lemma imap_take_app {A B} (f : list A -> A -> B) (l1 l2 : list A) :
  imap (fun i x => f (take i (l1 ++ l2)) x) l1 = imap (fun i x => f (take i l1) x) l1.
Proof.
  apply list_eq. intros i. rewrite !list_lookup_imap. destruct (l1 !! i) as [x|] eqn:E; [|done]. cbn.
  apply lookup_lt_Some in E. by rewrite take_app_le by lia.
Qed.

Lemma block_events_snoc ts acts x :
  block_events ts (acts ++ [x]) = block_events ts acts ++ [mkEvent x.1 ts (Z.of_nat (tally x.1 None acts)) x.2].
Proof.
  unfold block_events. rewrite imap_app. f_equal.
  - apply (imap_take_app (fun l x => mkEvent x.1 ts (Z.of_nat (tally x.1 None l)) x.2) acts [x]).
  - cbn. by rewrite Nat.add_0_r, take_app_length.
Qed.

Lemma tally_snoc pool g acts x : tally pool g (acts ++ [x]) = (tally pool g acts + if decide (acts_of pool g x) then 1 else 0)%nat.
Proof. unfold tally. rewrite filter_app, length_app, filter_cons, filter_nil. by destruct (decide (acts_of pool g x)). Qed.

Lemma tally_le pool g acts : (tally pool g acts <= length acts)%nat.
Proof. apply length_filter. Qed.

Lemma tally_events ts pool g acts : length (filter (of_group pool g) (block_events ts acts)) = tally pool g acts.
Proof.
  induction acts as [|x acts IH] using rev_ind; [done|]. rewrite block_events_snoc, filter_app, length_app, IH, tally_snoc. f_equal.
  rewrite filter_cons, filter_nil. destruct (decide (of_group pool g _)) as [E|E], (decide (acts_of pool g x)) as [E'|E']; try done.
Qed.

Lemma block_events_elem ts acts e :
  e ∈ block_events ts acts -> (ev_pool e, ev_act e) ∈ acts /\ ev_ts e = ts /\ 0 <= ev_seq e < Z.of_nat (tally (ev_pool e) None acts).
Proof.
  induction acts as [|x acts IH] using rev_ind; [by intros ?%elem_of_nil|]. rewrite block_events_snoc, elem_of_app, list_elem_of_singleton.
  rewrite tally_snoc, elem_of_app, list_elem_of_singleton. intros [He| ->].
  - destruct (IH He) as (? & ? & ?). split; [by left|]. split; [done|]. lia.
  - cbn. split; [right; by destruct x|]. split; [done|]. rewrite decide_True by done. lia.
Qed.

Lemma block_events_nodup ts acts : NoDup (event_id <$> block_events ts acts).
Proof.
  induction acts as [|x acts IH] using rev_ind; [constructor|]. rewrite block_events_snoc, fmap_app. apply NoDup_app. split; [done|]. split.
  - intros i (e & -> & He)%list_elem_of_fmap. cbn. rewrite list_elem_of_singleton. intros [= Ep _ Es].
    apply block_events_elem in He as (_ & _ & Hs). rewrite Ep in Hs. lia.
  - apply NoDup_singleton.
Qed.

(** ** The accumulators *)

Section Accumulators.
Context `{ActivityCodec}.
Context (ts : Z).

Definition act_ok (x : Act) : Prop := id_ok x.1 /\ is_Some (encode_activity_v1 x.2).

Definition delta_row (n : nat) : option Z := match n with O => None | _ => Some (Z.of_nat n) end.

Definition all_idx_rows (e : Event) : list (bytes * bytes) := idx_rows None e ++ idx_rows (Some (ev_group e)) e.

Lemma delta_row_S n : delta_row (n + 1) = Some (default 0 (delta_row n) + 1).
Proof. destruct n; [done|]. cbn. f_equal. lia. Qed.

Lemma bump_lookup {K} `{Countable K} (m : gmap K Z) (k k' : K) (n : nat) :
  m !! k' = delta_row n -> Z.of_nat n + 1 < 2 ^ 64 ->
  bump m k !! k' = delta_row (n + if decide (k = k') then 1 else 0).
Proof.
  intros Hm Hn. unfold bump. destruct (decide (k = k')) as [->|].
  - rewrite lookup_insert_eq, Hm, delta_row_S. rewrite Z.mod_small; [done|]. destruct n; cbn [delta_row default from_option id]; lia.
  - by rewrite lookup_insert_ne, Nat.add_0_r.
Qed.

Lemma push_all acts acc idx :
  Forall act_ok acts -> Z.of_nat (length acts) < 2 ^ 32 ->
  foldl (push_both ts) (write_acc_new, index_acc_new) acts = (acc, idx) ->
  (forall pool, seqs acc !! (pool, ts) = delta_row (tally pool None acts))
  /\ aw_writes acc = block_events ts acts ≫= event_rows
  /\ ai_writes idx = block_events ts acts ≫= all_idx_rows
  /\ (forall pool, per_pool_delta idx !! (ak_block pool, ak_tx pool) = delta_row (tally pool None acts))
  /\ (forall pool g, per_pool_group_delta idx !! (ak_block pool, ak_tx pool, g) = delta_row (tally pool (Some g) acts)).
Proof.
  revert acc idx. induction acts as [|x acts IH] using rev_ind; intros acc idx Hok Hlen E.
  { cbn in E. injection E as <- <-. done. }
  apply Forall_app in Hok as [Hok [[Hid [raw Hraw]] _]%Forall_cons]. rewrite length_app in Hlen. cbn [length] in Hlen.
  rewrite foldl_app in E. cbn [foldl] in E. destruct (foldl (push_both ts) (write_acc_new, index_acc_new) acts) as [acc0 idx0].
  destruct (IH acc0 idx0 Hok ltac:(lia) eq_refl) as (Hs & Hw & Hi & Hd & Hg). clear IH.
  pose proof (fun p g => tally_le p g acts) as Hle.
  unfold push_both, activity_push in E. cbn [fst snd] in E. rewrite Hraw in E. injection E as <- <-.
  assert (Hsq : default 0 (seqs acc0 !! (x.1, ts)) = Z.of_nat (tally x.1 None acts)).
  { rewrite Hs. by destruct (tally x.1 None acts). }
  rewrite Hsq, block_events_snoc, !bind_app, !append_index_rows. cbn [seqs aw_writes ai_writes per_pool_delta per_pool_group_delta index_add mbind list_bind].
  split_and!.
  - intros pool. rewrite tally_snoc. destruct (decide (x.1 = pool)) as [<-|Hne].
    + rewrite lookup_insert_eq, decide_True by done. rewrite Z.mod_small by (specialize (Hle x.1 None); lia). rewrite delta_row_S. f_equal.
      by destruct (tally x.1 None acts).
    + rewrite lookup_insert_ne by congruence. rewrite decide_False by (by intros [? _]). by rewrite Nat.add_0_r.
  - rewrite Hw, app_nil_r, <- !app_assoc. unfold event_rows, primary_row, ev_group. cbn [ev_pool ev_ts ev_seq ev_act]. by rewrite Hraw.
  - rewrite Hi, app_nil_r, !append_index_rows, <- !app_assoc. done.
  - intros pool. rewrite tally_snoc. rewrite (bump_lookup _ _ _ (tally pool None acts)); [|done|specialize (Hle pool None); lia]. f_equal. f_equal.
    destruct (decide (acts_of pool None x)) as [[<- _]|Hne]; [by rewrite decide_True|]. rewrite decide_False; [done|].
    intros [= E1 E2]. apply Hne. split; [|done]. destruct x as [[] ?], pool; cbn in *; congruence.
  - intros pool g. rewrite tally_snoc. rewrite (bump_lookup _ _ _ (tally pool (Some g) acts)); [|done|specialize (Hle pool (Some g)); lia]. f_equal. f_equal.
    destruct (decide (acts_of pool (Some g) x)) as [[<- <-]|Hne]; [by rewrite decide_True|]. rewrite decide_False; [done|].
    intros [= E1 E2 E3]. apply Hne. split; [|done]. destruct x as [[] ?], pool; cbn in *; congruence.
Qed.

End Accumulators.

(** ** The batch extends the log *)

Lemma last_put_unique l k v : (k, v) ∈ l -> (forall v', (k, v') ∈ l -> v' = v) -> last_put l k = Some v.
Proof.
  intros Hin Huniq. destruct (last_put l k) as [v'|] eqn:E.
  - f_equal. apply Huniq. clear -E. unfold last_put in E. apply elem_of_reverse. induction (reverse l) as [|[k' w] r IH]; [done|].
    cbn in E. case_bool_decide; [injection E as ->; subst; apply elem_of_cons; by left|apply elem_of_cons; right; auto].
  - assert (is_Some (last_put l k)) as [? ?]; [|congruence]. apply last_put_some, list_elem_of_fmap. by exists (k, v).
Qed.

Lemma last_put_elem l k v : last_put l k = Some v -> (k, v) ∈ l.
Proof.
  intros E. unfold last_put in E. apply elem_of_reverse. induction (reverse l) as [|[k' w] r IH]; [done|].
  cbn in E. case_bool_decide; [injection E as ->; subst; apply elem_of_cons; by left|apply elem_of_cons; right; auto].
Qed.

Lemma last_put_none l k : (forall v, (k, v) ∉ l) -> last_put l k = None.
Proof. intros Hn. destruct (last_put l k) eqn:E; [|done]. by apply last_put_elem, Hn in E. Qed.

Lemma last_put_app l1 l2 k : last_put (l1 ++ l2) k = orelse (last_put l2 k) (last_put l1 k).
Proof. unfold last_put. by rewrite reverse_app, first_put_app. Qed.

(** A row of another table. *)
Definition not_activity (p : bytes * bytes) : Prop := starts_with p.1 (bstr "activity:") = false.

Section Extend.
Set Default Proof Using "Type*".
Context `{ActivityCodecLaws}.
Context (ts : Z).

Lemma event_key_activity e p : p ∈ event_rows e -> starts_with p.1 (bstr "activity:") = true.
Proof.
  intros [->|(g & k & _ & ->)]%event_rows_elem; apply starts_with_iff; cbn [fst primary_row].
  - unfold activity_key, activity_ns_prefix. rewrite <- !app_assoc. by eexists.
  - unfold idx_key. rewrite idx_prefix_tag. unfold idx_space. rewrite <- !app_assoc. by eexists.
Qed.

Lemma count_key_activity pool g : starts_with (count_key pool g) (bstr "activity:") = true.
Proof. rewrite count_key_tag. unfold idx_space. apply starts_with_iff. rewrite <- !app_assoc. by eexists. Qed.

Lemma activity_count_key_inj pool g pool' g' : id_ok pool -> id_ok pool' -> count_key pool g = count_key pool' g' -> pool = pool' /\ g = g'.
Proof.
  intros Hp Hp' E. rewrite !count_key_tag in E. apply idx_space_inj in E as [-> E]; [|done..].
  rewrite <- (app_nil_r (idx_tag g None)), <- (app_nil_r (idx_tag g' None)) in E. by apply idx_tag_free in E as (-> & _ & _).
Qed.

Lemma count_key_not_row e p pool g : event_num e -> id_ok pool -> p ∈ event_rows e -> p.1 <> count_key pool g.
Proof.
  intros He Hp [->|(g' & k & _ & ->)]%event_rows_elem E; cbn [fst primary_row] in E; rewrite count_key_tag in E.
  - by apply activity_key_not_idx in E.
  - unfold idx_key in E. rewrite idx_prefix_tag, <- !app_assoc in E. apply idx_space_inj in E as [_ E]; [|apply He|done].
    rewrite <- (app_nil_r (idx_tag g None)) in E. by apply idx_tag_free in E as (_ & ? & _).
Qed.

(** A key belongs to one event, and within it has one value. *)
Lemma event_rows_fun e e' p p' :
  event_num e -> event_num e' -> p ∈ event_rows e -> p' ∈ event_rows e' -> p.1 = p'.1 -> event_id e = event_id e' /\ (e = e' -> p = p').
Proof.
  intros He He' [->|(g & k & _ & ->)]%event_rows_elem [->|(g' & k' & _ & ->)]%event_rows_elem E; cbn [fst primary_row] in E.
  - destruct He as (Hp & Ht & Hs), He' as (Hp' & Ht' & Hs'). apply activity_key_inj in E as (Ep & Et & Es); [|done..].
    split; [unfold event_id; by rewrite Ep, Et, Es|by intros ->].
  - unfold idx_key in E. rewrite idx_prefix_tag, <- !app_assoc in E. by apply activity_key_not_idx in E.
  - unfold idx_key in E. rewrite idx_prefix_tag, <- !app_assoc in E. symmetry in E. by apply activity_key_not_idx in E.
  - apply idx_key_inj in E as (Eid & -> & ->); [|done..]. split; [done|by intros ->].
Qed.

(** What the batch must hold to extend the log by [news]. *)
Record extends (ns : Namespace) (log news : list Event) (puts : list (bytes * bytes)) : Prop := {
  ex_rows e p : e ∈ news -> p ∈ event_rows e -> p ∈ puts;
  ex_only p : p ∈ puts ->
    (exists e, e ∈ news /\ p ∈ event_rows e)
    \/ (exists pool g, id_ok pool /\ p.1 = count_key pool g
          /\ let n := length (filter (of_group pool g) news) in n <> O
             /\ p.2 = encode_u64_be (Z.of_nat (length (filter (of_group pool g) log) + n)));
  ex_counts pool g : id_ok pool -> filter (of_group pool g) news <> [] -> count_key pool g ∈ puts.*1;
}.

Lemma log_extends ns log news pre puts post :
  activity_follows ns log -> extends ns log news puts -> Forall not_activity pre -> Forall not_activity post ->
  Forall event_ok news -> NoDup (event_id <$> log ++ news) ->
  activity_follows (apply_puts ns (pre ++ puts ++ post)) (log ++ news).
Proof.
  intros Hf Hx Hpre Hpost Hok Hnd.
  assert (Hforeign : forall l k, Forall not_activity l -> starts_with k (bstr "activity:") = true -> last_put l k = None).
  { intros l k Hl Hk. apply last_put_none. intros v Hin. rewrite Forall_forall in Hl. specialize (Hl _ Hin). unfold not_activity in Hl. cbn [fst] in Hl. congruence. }
  assert (Hlook : forall k, starts_with k (bstr "activity:") = true -> apply_puts ns (pre ++ puts ++ post) !! k = orelse (last_put puts k) (ns !! k)).
  { intros k Hk. rewrite apply_puts_last, !last_put_app, (Hforeign post), (Hforeign pre) by done. by destruct (last_put puts k). }
  assert (Hall : Forall event_ok (log ++ news)) by (apply Forall_app; split; [apply Hf|done]).
  assert (Hnum : forall e, e ∈ log ++ news -> event_num e) by (intros e He; rewrite Forall_forall in Hall; by apply Hall).
  assert (Hval : forall e p p', e ∈ log ++ news -> p ∈ event_rows e -> p' ∈ puts -> p'.1 = p.1 -> p' = p /\ e ∈ news).
  { intros e p p' He Hp Hp' E. apply (ex_only _ _ _ _ Hx) in Hp' as [(e' & He' & Hr)|(pool & g & Hid & Ek & _)].
    - destruct (event_rows_fun e' e p' p) as [Eid Hv]; [apply Hnum, elem_of_app; by right|by apply Hnum|done..|].
      assert (e' = e) as ->; [|by rewrite Hv]. eapply log_inj; [exact Hnd|apply elem_of_app; by right|done|done].
    - exfalso. eapply (count_key_not_row e p pool g); [by apply Hnum|done|done|]. by rewrite <- E. }
  split.
  - intros e p He Hp. rewrite Hlook by (by eapply event_key_activity). destruct (last_put puts p.1) as [v|] eqn:E.
    + apply last_put_elem in E. destruct (Hval e p (p.1, v) He Hp E eq_refl) as [<- _]. done.
    + cbn [orelse]. apply elem_of_app in He as [He|He]; [by eapply (af_rows _ _ Hf)|].
      assert (is_Some (last_put puts p.1)) as [? ?]; [|congruence]. apply last_put_some, list_elem_of_fmap_2. by eapply (ex_rows _ _ _ _ Hx).
  - intros k v Hv Hk. rewrite Hlook in Hv by done. destruct (last_put puts k) as [w|] eqn:E; cbn [orelse] in Hv.
    + injection Hv as ->. apply last_put_elem, (ex_only _ _ _ _ Hx) in E as [(e & He & Hr)|(pool & g & Hid & Ek & _)].
      * left. exists e. by rewrite elem_of_app; split; [right|].
      * right. by exists pool, g.
    + destruct (af_only _ _ Hf k v Hv Hk) as [(e & He & Hr)|Hc]; [|by right]. left. exists e. by rewrite elem_of_app; split; [left|].
  - intros pool g Hp. rewrite Hlook by apply count_key_activity. rewrite filter_app, length_app.
    destruct (last_put puts (count_key pool g)) as [v|] eqn:E; cbn [orelse].
    + apply last_put_elem, (ex_only _ _ _ _ Hx) in E as [(e & He & Hr)|(pool' & g' & Hp' & Ek & Hn & Ev)].
      * exfalso. eapply (count_key_not_row e _ pool g); [apply Hnum, elem_of_app; by right|done|exact Hr|done].
      * apply activity_count_key_inj in Ek as [<- <-]; [|done..]. cbn [snd] in Ev. rewrite Ev.
        destruct (length (filter (of_group pool g) log) + length (filter (of_group pool g) news))%nat eqn:El; [lia|done].
    + rewrite (af_counts _ _ Hf) by done. destruct (filter (of_group pool g) news) eqn:En; [by rewrite Nat.add_0_r|]. exfalso.
      assert (is_Some (last_put puts (count_key pool g))) as [? ?]; [|congruence].
      apply last_put_some, (ex_counts _ _ _ _ Hx); [done|]. by rewrite En.
  - done.
  - done.
Qed.

Lemma bumped_count_value ns log pool g n :
  activity_follows ns log -> id_ok pool -> Z.of_nat (length log) + Z.of_nat n < 2 ^ 64 ->
  bumped_count ns (count_key pool g) (Z.of_nat n) = (count_key pool g, encode_u64_be (Z.of_nat (length (filter (of_group pool g) log) + n))).
Proof.
  intros Hf Hp Hlen. unfold bumped_count. f_equal. f_equal. rewrite (af_counts _ _ Hf) by done.
  pose proof (length_filter (of_group pool g) log) as Hle. set (c := length (filter (of_group pool g) log)) in *. clearbody c.
  assert (Ec : default 0 (count_row c ≫= decode_u64_be) = Z.of_nat c).
  { destruct (decide (c = O)) as [->|Hc]; [done|]. destruct (count_row_decode c) as (v & -> & Ev); [lia|]. cbn [mbind option_bind]. by rewrite Ev. }
  rewrite Ec. unfold u64_sat_add. lia.
Qed.

Lemma tally_in pool g acts : tally pool g acts <> O -> exists x, x ∈ acts /\ x.1 = pool.
Proof.
  unfold tally. destruct (filter (acts_of pool g) acts) as [|x l] eqn:E; [done|]. intros _. exists x.
  assert (Hx : x ∈ filter (acts_of pool g) acts) by (rewrite E; apply elem_of_cons; by left). apply list_elem_of_filter in Hx as [[? _] ?]. done.
Qed.

Lemma delta_row_some n d : delta_row n = Some d -> n <> O /\ d = Z.of_nat n.
Proof. destruct n; [done|]. by intros [= <-]. Qed.

(** The counts written are those of the pools with new events. *)
Lemma count_writes_spec ns log acts idx p :
  activity_follows ns log -> Forall act_ok acts -> Z.of_nat (length log) + Z.of_nat (length acts) < 2 ^ 64 ->
  (forall pool, per_pool_delta idx !! (ak_block pool, ak_tx pool) = delta_row (tally pool None acts)) ->
  (forall pool g, per_pool_group_delta idx !! (ak_block pool, ak_tx pool, g) = delta_row (tally pool (Some g) acts)) ->
  p ∈ count_writes ns idx <->
  exists pool g, tally pool g acts <> O /\ id_ok pool
    /\ p = (count_key pool g, encode_u64_be (Z.of_nat (length (filter (of_group pool g) log) + tally pool g acts))).
Proof.
  intros Hf Hok Hlen Hd Hg.
  assert (Hid : forall pool g, tally pool g acts <> O -> id_ok pool).
  { intros pool g (x & Hx & <-)%tally_in. rewrite Forall_forall in Hok. by apply Hok. }
  assert (Hb : forall pool g, tally pool g acts <> O -> bumped_count ns (count_key pool g) (Z.of_nat (tally pool g acts))
     = (count_key pool g, encode_u64_be (Z.of_nat (length (filter (of_group pool g) log) + tally pool g acts)))).
  { intros pool g Hn. apply bumped_count_value; [done|by eapply Hid|]. pose proof (tally_le pool g acts). lia. }
  unfold count_writes. rewrite elem_of_app, !list_elem_of_In, !in_map_iff. split.
  - intros [([[b t] d] & <- & Hin)|([[[b t] g] d] & <- & Hin)]; cbn [fst snd]; apply list_elem_of_In, elem_of_map_to_list in Hin.
    + change (b, t) with (ak_block (mkAlkaneId b t), ak_tx (mkAlkaneId b t)) in Hin. rewrite Hd in Hin. apply delta_row_some in Hin as [Hn ->].
      exists (mkAlkaneId b t), None. split_and!; [done|by eapply Hid|]. by apply (Hb _ None).
    + change (b, t, g) with (ak_block (mkAlkaneId b t), ak_tx (mkAlkaneId b t), g) in Hin. rewrite Hg in Hin. apply delta_row_some in Hin as [Hn ->].
      exists (mkAlkaneId b t), (Some g). split_and!; [done|by eapply Hid|]. by apply (Hb _ (Some g)).
  - intros (pool & g & Hn & Hp & ->). rewrite <- Hb by done. assert (Hr : delta_row (tally pool g acts) = Some (Z.of_nat (tally pool g acts))) by (by destruct (tally pool g acts)).
    destruct g as [g|]; [right|left].
    + exists (ak_block pool, ak_tx pool, g, Z.of_nat (tally pool (Some g) acts)). split; [by destruct pool|]. apply list_elem_of_In, elem_of_map_to_list. by rewrite Hg.
    + exists (ak_block pool, ak_tx pool, Z.of_nat (tally pool None acts)). split; [by destruct pool|]. apply list_elem_of_In, elem_of_map_to_list. by rewrite Hd.
Qed.

Lemma activity_puts_extends ns log acts st :
  activity_follows ns log -> Forall act_ok acts -> Z.of_nat (length acts) < 2 ^ 32 -> Z.of_nat (length log) + Z.of_nat (length acts) < 2 ^ 64 ->
  (activity_acc st, index_acc st) = foldl (push_both ts) (write_acc_new, index_acc_new) acts ->
  extends ns log (block_events ts acts) (activity_puts ns st).
Proof.
  intros Hf Hok Hlen Hlog E. symmetry in E. destruct (push_all ts acts _ _ Hok Hlen E) as (_ & Hw & Hi & Hd & Hg).
  pose proof (fun p => count_writes_spec ns log acts (index_acc st) p Hf Hok Hlog Hd Hg) as Hcw.
  unfold activity_puts. rewrite Hw, Hi. split.
  - intros e p He Hp. rewrite elem_of_app. left. apply list_elem_of_bind. eauto.
  - intros p. rewrite !elem_of_app, Hcw. intros [(e & Hp & He)%list_elem_of_bind|[(e & Hp & He)%list_elem_of_bind|(pool & g & Hn & Hp & ->)]].
    + left. eauto.
    + left. exists e. split; [done|]. unfold event_rows. apply elem_of_cons. by right.
    + right. exists pool, g. cbn zeta. by rewrite tally_events.
  - intros pool g Hp Hne. apply list_elem_of_fmap. eexists (_, _). split; [reflexivity|]. rewrite !elem_of_app, Hcw. right. right.
    exists pool, g. split_and!; [|done|done]. rewrite <- (tally_events ts). by destruct (filter _ _).
Qed.

(** A block keeps the namespace following its log. *)
Lemma block_extends_log ns log acts st pre post :
  activity_follows ns log -> in_u64 ts -> Forall act_ok acts ->
  Z.of_nat (length acts) < 2 ^ 32 -> Z.of_nat (length log) + Z.of_nat (length acts) < 2 ^ 64 ->
  (forall e, e ∈ log -> ev_ts e = ts -> ev_pool e ∉ acts.*1) ->
  (activity_acc st, index_acc st) = foldl (push_both ts) (write_acc_new, index_acc_new) acts ->
  Forall not_activity pre -> Forall not_activity post ->
  activity_follows (apply_puts ns (pre ++ activity_puts ns st ++ post)) (log ++ block_events ts acts).
Proof.
  intros Hf Hts Hok Hlen Hlog Hfresh E Hpre Hpost. apply log_extends; [done|by apply activity_puts_extends|done|done| |].
  - apply Forall_forall. intros e He. apply block_events_elem in He as (Hin & Et & Hs). rewrite Forall_forall in Hok.
    destruct (Hok _ Hin) as [Hp Henc]. cbn in Hp, Henc. split; [|done]. split_and!; [done|by rewrite Et|].
    pose proof (tally_le (ev_pool e) None acts). unfold in_u32. lia.
  - rewrite fmap_app. apply NoDup_app. split; [apply Hf|]. split; [|apply block_events_nodup].
    intros i (e & -> & He)%list_elem_of_fmap (e' & Eid & He')%list_elem_of_fmap. apply block_events_elem in He' as (Hin & Et & _).
    injection Eid as Ep Et' _. apply (Hfresh e He); [congruence|]. rewrite Ep. apply list_elem_of_fmap. by exists (ev_pool e', ev_act e').
Qed.

End Extend.
