(* ===== verification/AmmVolumeProps.v ===== *)
(** * Token volume: lemmas

    The stored buckets and running totals are the sums of the traded amounts, however they
    are cut into blocks. *)
From stdpp Require Import strings.
From S2P Require Import Prelude Bytes Rocks RunesTransfer RunesStore RunesChain RunesInscriptions AlkTrace.
From S2P Require Import AmmPath AmmCandles AmmCandlesProps AmmChart AmmChartFill AmmActivityProps AmmVolume AmmBlockProps AmmLog.
From stdpp Require Import options.

Open Scope Z_scope.

(** ** Sums that stop at the end of the [u128] range *)

Definition sat (z : Z) : Z := Z.min (u128_mod - 1) z.

Lemma sat_add a b : 0 <= a -> 0 <= b -> u128_sat_add (sat a) b = sat (a + b).
Proof. unfold u128_sat_add, sat, u128_mod. lia. Qed.

Definition total (l : list Z) : Z := foldr Z.add 0 l.

Lemma total_app l1 l2 : total (l1 ++ l2) = total l1 + total l2.
Proof. unfold total. induction l1; cbn; lia. Qed.

Lemma total_perm l l' : l ≡ₚ l' -> total l = total l'.
Proof. unfold total. induction 1; cbn; lia. Qed.

Lemma total_nonneg_map {A} (f : A -> Z) (l : list A) : (forall x, 0 <= f x) -> 0 <= total (f <$> l).
Proof. intros Hn. induction l as [|x l IH]; cbn; [done|]. specialize (Hn x). unfold total in IH. lia. Qed.

(** A stored sum: absent until there is an amount. *)
Definition sum_row (l : list Z) : option Z := match l with [] => None | _ => Some (sat (total l)) end.

Definition positive (l : list Z) : Prop := Forall (fun a => 0 < a) l.

Lemma total_positive l : positive l -> l <> [] -> 0 < total l.
Proof.
  intros Hl Hne. destruct Hl as [|a l Ha Hl]; [done|]. cbn. assert (0 <= foldr Z.add 0 l); [|lia]. clear -Hl. induction Hl; cbn; lia.
Qed.

Lemma amounts_total_nonneg l : positive l -> 0 <= total l.
Proof. intros Hl. destruct (decide (l = [])) as [->|]; [done|]. by apply Z.lt_le_incl, total_positive. Qed.

Lemma sum_row_default l : positive l -> default 0 (sum_row l) = sat (total l).
Proof. by destruct l. Qed.

Lemma sum_row_app l a : positive l -> 0 < a -> u128_sat_add (default 0 (sum_row l)) a = sat (total (l ++ [a])).
Proof. intros Hl Ha. rewrite sum_row_default by done. rewrite sat_add by (try lia; by apply amounts_total_nonneg). rewrite total_app. cbn. by rewrite Z.add_0_r. Qed.

Lemma sum_row_snoc l a : sum_row (l ++ [a]) = Some (sat (total (l ++ [a]))).
Proof. by destruct l. Qed.

Lemma sat_range z : 0 <= z -> in_u128 (sat z).
Proof. unfold sat, in_u128, u128_mod. lia. Qed.

Lemma u128_value_roundtrip z : in_u128 z -> decode_u128_value (encode_u128_value z) = Some z.
Proof.
  intros Hz. unfold decode_u128_value, encode_u128_value. rewrite length_le_bytes, Nat.eqb_refl, from_le_le_bytes. by rewrite Z.mod_small.
Qed.

(** ** The cache of a block *)

Abbreviation Vol := (SchemaAlkaneId * Z)%type.

(** The amounts of a token that count. *)
Definition amounts (token : SchemaAlkaneId) (vols : list Vol) : list Z :=
  (filter (fun x : Vol => x.1 = token /\ x.2 <> 0) vols).*2.

Definition vols_ok (vols : list Vol) : Prop := Forall (fun x : Vol => id_ok x.1 /\ 0 <= x.2) vols.

Lemma amounts_app token v1 v2 : amounts token (v1 ++ v2) = amounts token v1 ++ amounts token v2.
Proof. unfold amounts. by rewrite filter_app, fmap_app. Qed.

Lemma amounts_positive token vols : vols_ok vols -> positive (amounts token vols).
Proof.
  intros Hok. unfold positive, amounts. apply Forall_fmap, Forall_forall. intros x [[_ Hx] Hin]%list_elem_of_filter.
  unfold vols_ok in Hok. rewrite Forall_forall in Hok. destruct (Hok _ Hin). cbn. lia.
Qed.

Lemma add_frames_lookup (ts : Z) (token : SchemaAlkaneId) (frames : list Timeframe) (amount : Z) (m : gmap TokenVolumeKey Z) (tok : SchemaAlkaneId) (tf : Timeframe) (b : Z) :
  NoDup frames ->
  foldl (fun (m : gmap TokenVolumeKey Z) tf => add_amount m (token, tf, bucket_start_for ts tf) amount) m frames !! (tok, tf, b)
  = if decide (tok = token /\ tf ∈ frames /\ b = bucket_start ts tf) then Some (u128_sat_add (default 0 (m !! (tok, tf, b))) amount)
    else m !! (tok, tf, b).
Proof.
  intros Hnd. revert m. induction Hnd as [|f frames Hni Hnd IH]; intros m; cbn [foldl]; [by rewrite decide_False by set_solver|].
  rewrite IH. unfold add_amount. destruct (decide ((token, f, bucket_start_for ts f) = (tok, tf, b))) as [E|Hne].
  - injection E as <- <- <-. rewrite lookup_insert_eq. rewrite decide_False by set_solver. rewrite decide_True by set_solver. done.
  - rewrite lookup_insert_ne by done. destruct (decide (tok = token /\ tf ∈ frames /\ b = bucket_start ts tf)) as [Hd|Hd].
    + rewrite decide_True by set_solver. done.
    + rewrite decide_False; [done|]. intros (-> & [->|Hf]%elem_of_cons & ->); [by apply Hne|]. by apply Hd.
Qed.

Definition vol_cache (ts : Z) (frames : list Timeframe) (vols : list Vol) : TokenVolumeCache :=
  foldl (count_volume ts frames) volume_cache_new vols.

Lemma vol_cache_lookup ts frames vols tok tf b :
  NoDup frames -> vols_ok vols ->
  vc_buckets (vol_cache ts frames vols) !! (tok, tf, b)
    = (if decide (tf ∈ frames /\ b = bucket_start ts tf) then sum_row (amounts tok vols) else None)
  /\ block_totals (vol_cache ts frames vols) !! tok = sum_row (amounts tok vols).
Proof.
  intros Hnd. induction vols as [|[t a] vols IH] using rev_ind; intros Hok; [cbn; by destruct (decide _)|].
  apply Forall_app in Hok as [Hok [[_ Ha] _]%Forall_cons]. cbn in Ha. destruct (IH Hok) as [IHb IHt]. clear IH.
  unfold vol_cache in *. rewrite foldl_app. cbn [foldl]. rewrite amounts_app.
  set (c := foldl (count_volume ts frames) volume_cache_new vols) in *. unfold count_volume, volume_trade_for_frames. cbn [fst snd].
  pose proof (amounts_positive tok vols Hok) as Hpos. unfold amounts at 2 4. rewrite filter_cons, filter_nil. cbn [fst snd].
  destruct (Z.eqb_spec a 0) as [->|Hne].
  { rewrite (decide_False (P := t = tok /\ 0 <> 0)) by (intros [_ ?]; congruence). by rewrite app_nil_r. }
  cbn [vc_buckets block_totals]. rewrite add_frames_lookup by done. unfold add_amount. destruct (decide (tok = t)) as [->|Ht].
  - rewrite (decide_True (P := t = t /\ a <> 0)) by done. cbn [fmap list_fmap snd].
    rewrite sum_row_snoc, lookup_insert_eq, IHt, sum_row_app by (done || lia). split; [|done].
    destruct (decide (tf ∈ frames /\ b = bucket_start ts tf)) as [Hd|Hd].
    + rewrite decide_True by tauto. by rewrite IHb, sum_row_app by (done || lia).
    + rewrite decide_False by tauto. done.
  - rewrite (decide_False (P := t = tok /\ a <> 0)) by (intros [? _]; congruence). rewrite lookup_insert_ne by congruence.
    rewrite (decide_False (P := tok = t /\ _)) by (intros [? _]; congruence). cbn. by rewrite app_nil_r.
Qed.

(** ** Keys *)

Lemma hex_no_slash n : Forall (fun x => x <> Byte.x2f) (to_hex n).
Proof.
  assert (Hn : Forall numeral (to_hex n)) by (apply digits_numerals; [lia|constructor]). eapply Forall_impl; [exact Hn|].
  intros b (d & Hd & ->) E. apply (f_equal b2z) in E. rewrite b2z_digit in E by lia. destruct (d <? 10); cbn in E; lia.
Qed.

Lemma id_hex_inj sep p p' r r' :
  Forall (fun x => x <> sep) (to_hex (ak_tx p)) -> Forall (fun x => x <> sep) (to_hex (ak_tx p')) ->
  id_ok p -> id_ok p' -> id_hex p ++ [sep] ++ r = id_hex p' ++ [sep] ++ r' -> p = p' /\ r = r'.
Proof.
  intros Hs Hs' [Hb Ht] [Hb' Ht'] E. unfold id_hex in E. rewrite <- !app_assoc in E.
  apply split_colon in E as [E1 E]; [|apply hex_no_colon..]. apply split_sep in E as [E2 E]; [|done..].
  apply to_hex_inj in E1; [|unfold in_u32, in_u64 in *; lia..]. apply to_hex_inj in E2; [|done..].
  destruct p, p'; cbn in *; by subst.
Qed.

Lemma volume_prefix_inj p p' tf tf' r r' :
  id_ok p -> id_ok p' -> token_volume_ns_prefix p tf ++ r = token_volume_ns_prefix p' tf' ++ r' -> p = p' /\ tf = tf' /\ r = r'.
Proof.
  intros Hp Hp' E. unfold token_volume_ns_prefix in E. rewrite <- !app_assoc in E. apply app_inv_head in E.
  apply id_hex_inj in E as [-> E]; [|apply hex_no_colon..|done|done]. apply split_colon in E as [E3 E]; [|apply code_no_colon..].
  by apply code_inj in E3.
Qed.

Lemma volume_key_inj p p' tf tf' b b' :
  id_ok p -> id_ok p' -> in_u64 b -> in_u64 b' ->
  token_volume_key p tf b = token_volume_key p' tf' b' -> p = p' /\ tf = tf' /\ b = b'.
Proof. intros Hp Hp' Hb Hb' E. apply volume_prefix_inj in E as (-> & -> & E); [|done..]. by apply to_string_inj in E as ->. Qed.

Lemma parse_volume_key p tf b : in_u64 b -> parse_token_volume_key p tf (token_volume_key p tf b) = Some b.
Proof.
  intros Hb. unfold parse_token_volume_key, token_volume_key. rewrite starts_with_app, drop_app_length. by apply parse_to_string.
Qed.

Lemma total_prefix_inj p p' r r' :
  id_ok p -> id_ok p' -> token_total_volume_prefix p ++ r = token_total_volume_prefix p' ++ r' -> p = p' /\ r = r'.
Proof.
  intros Hp Hp' E. unfold token_total_volume_prefix in E. rewrite <- !app_assoc in E. apply app_inv_head in E.
  by apply (id_hex_inj Byte.x2f) in E; [|apply hex_no_slash..|done|done].
Qed.

Lemma total_key_inj p p' h h' :
  id_ok p -> id_ok p' -> in_u64 h -> in_u64 h' -> token_total_volume_key p h = token_total_volume_key p' h' -> p = p' /\ h = h'.
Proof. intros Hp Hp' Hh Hh' E. apply total_prefix_inj in E as [-> E]; [|done..]. by apply (be_bytes_inj 8) in E as ->. Qed.

Lemma parse_total_key p h : in_u64 h -> parse_token_total_volume_key p (token_total_volume_key p h) = Some h.
Proof.
  intros Hh. unfold parse_token_total_volume_key, token_total_volume_key. rewrite starts_with_app, drop_app_length, length_be_bytes, Nat.eqb_refl.
  by rewrite from_be_be_bytes, Z.mod_small.
Qed.

(** A key between a prefix and a key under it is under it. *)
Lemma between_prefix p s k : p <=b k -> k <b p ++ s -> exists r, k = p ++ r /\ r <b s.
Proof.
  revert k. induction p as [|x p IH]; intros k Hlo Hhi; [by exists k|]. destruct k as [|y k]; [by unfold ble in Hlo|].
  cbn [app] in Hhi. apply blt_cons in Hhi. assert (Hn : ~ (y :: k) <b x :: p) by (unfold blt, ble in *; congruence). rewrite blt_cons in Hn.
  destruct Hhi as [Hlt|[-> Hhi]]; [tauto|]. destruct (IH k) as (r & -> & Hr); [|done|by exists r].
  unfold ble. apply not_true_iff_false. intros Hlt. apply Hn. right. done.
Qed.

(** The first row of a descending scan is the greatest of the range. *)
Lemma scan_range_desc_head ns s e n :
  match scan_range_desc ns s e (S n) with
  | [] => forall k v, ns !! k = Some v -> s <=b k -> k <b e -> False
  | (k, v) :: _ => ns !! k = Some v /\ s <=b k /\ k <b e /\ forall k' v', ns !! k' = Some v' -> s <=b k' -> k' <b e -> k' <=b k
  end.
Proof.
  unfold scan_range_desc.
  set (R := filter (fun x : bytes * bytes => bytes_leb s x.1 && bytes_ltb x.1 e = true) (map_to_list ns)).
  assert (HR : forall k v, (k, v) ∈ R <-> ns !! k = Some v /\ s <=b k /\ k <b e).
  { intros k v. unfold R. rewrite list_elem_of_filter, elem_of_map_to_list. cbn [fst]. unfold bytes_leb. rewrite andb_true_iff, negb_true_iff. unfold ble, blt. tauto. }
  assert (Hs : StronglySorted (fun a b : bytes * bytes => a.1 <b b.1) (sort_by (fun a b => bytes_leb a.1 b.1) R)).
  { apply (sort_bytes_strict fst), NoDup_fmap_fst; [|apply NoDup_filter, NoDup_map_to_list].
    intros k v1 v2 [H1 _]%HR [H2 _]%HR. congruence. }
  assert (Hin : forall x, x ∈ sort_by (fun a b : bytes * bytes => bytes_leb a.1 b.1) R <-> x ∈ R) by (intros x; by rewrite sort_by_perm).
  destruct (sort_by _ R) as [|[k v] L _] using rev_ind; cbn.
  - intros k v Hv Hl Hu. assert ((k, v) ∈ R) as Hx by (by apply HR). by apply Hin, elem_of_nil in Hx.
  - rewrite reverse_app. cbn. destruct (HR k v) as [Hx _]. destruct Hx as (Hv & Hl & Hu); [apply Hin, elem_of_app; right; by apply list_elem_of_singleton|].
    split_and!; [done..|]. intros k' v' Hv' Hl' Hu'. assert ((k', v') ∈ R) as Hx by (by apply HR). apply Hin, elem_of_app in Hx as [Hx|Hx%list_elem_of_singleton].
    + apply blt_ble. apply StronglySorted_app in Hs as (Hs & _ & _). apply (Hs (k', v') (k, v)); [done|by apply list_elem_of_singleton].
    + injection Hx as -> _. apply ble_refl.
Qed.

(** ** The history of the volumes *)

Record VolBlock := mkVolBlock { vb_height : Z; vb_ts : Z; vb_vols : list Vol }.

(** The amounts that fall in a bucket, up to a height, at a height. *)
Definition bucket_amounts (token : SchemaAlkaneId) (tf : Timeframe) (b : Z) (hist : list VolBlock) : list Z :=
  hist ≫= fun blk => if decide (bucket_start (vb_ts blk) tf = b) then amounts token (vb_vols blk) else [].
Definition upto_amounts (token : SchemaAlkaneId) (h : Z) (hist : list VolBlock) : list Z :=
  hist ≫= fun blk => if decide (vb_height blk <= h) then amounts token (vb_vols blk) else [].
Definition at_amounts (token : SchemaAlkaneId) (h : Z) (hist : list VolBlock) : list Z :=
  hist ≫= fun blk => if decide (vb_height blk = h) then amounts token (vb_vols blk) else [].

Definition total_row (token : SchemaAlkaneId) (h : Z) (hist : list VolBlock) : option Z :=
  match at_amounts token h hist with [] => None | _ => Some (sat (total (upto_amounts token h hist))) end.

Definition vb_ok (blk : VolBlock) : Prop := in_u32 (vb_height blk) /\ in_u64 (vb_ts blk) /\ vols_ok (vb_vols blk).

Record volume_follows (frames : list Timeframe) (ns : Namespace) (hist : list VolBlock) : Prop := {
  vf_bucket token tf b : id_ok token -> tf ∈ frames -> in_u64 b ->
    ns !! token_volume_key token tf b = encode_u128_value <$> sum_row (bucket_amounts token tf b hist);
  vf_bucket_only k token tf : id_ok token -> starts_with k (token_volume_ns_prefix token tf) = true -> is_Some (ns !! k) ->
    exists b, in_u64 b /\ k = token_volume_key token tf b;
  vf_total token h : id_ok token -> in_u64 h -> ns !! token_total_volume_key token h = encode_u128_value <$> total_row token h hist;
  vf_total_only k token : id_ok token -> starts_with k (token_total_volume_prefix token) = true -> is_Some (ns !! k) ->
    exists h, in_u64 h /\ k = token_total_volume_key token h;
  vf_ok : Forall vb_ok hist;
}.

Definition volume_space (k : bytes) : bool := starts_with k (bstr "tv1:") || starts_with k (bstr "/token_volume_total/v1/").

Definition not_volume (p : bytes * bytes) : Prop := volume_space p.1 = false.

Definition volume_puts (ns : Namespace) (height : Z) (c : TokenVolumeCache) : list (bytes * bytes) :=
  let '(candles, totals) := prepare_token_volume height ns c in candles ++ totals.

Lemma binds_positive (f : VolBlock -> list Z) hist :
  Forall vb_ok hist -> (forall blk, vb_ok blk -> positive (f blk)) -> positive (hist ≫= f).
Proof. intros Hok Hf. induction Hok as [|blk hist Hb _ IH]; [constructor|]. rewrite bind_cons. apply Forall_app. split; [by apply Hf|done]. Qed.

Lemma bucket_positive token tf b hist : Forall vb_ok hist -> positive (bucket_amounts token tf b hist).
Proof. intros Hok. apply binds_positive; [done|]. intros blk (_ & _ & Hv). destruct (decide _); [by apply amounts_positive|constructor]. Qed.

Lemma upto_positive token h hist : Forall vb_ok hist -> positive (upto_amounts token h hist).
Proof. intros Hok. apply binds_positive; [done|]. intros blk (_ & _ & Hv). destruct (decide _); [by apply amounts_positive|constructor]. Qed.

Lemma sat_sat x y : 0 <= x -> 0 <= y -> u128_sat_add (sat x) (sat y) = sat (x + y).
Proof. unfold u128_sat_add, sat, u128_mod. lia. Qed.

Lemma stored_sum l : positive l -> default 0 ((encode_u128_value <$> sum_row l) ≫= decode_u128_value) = sat (total l).
Proof.
  intros Hl. destruct l as [|a l]; [done|]. cbn [sum_row fmap option_fmap option_map mbind option_bind].
  rewrite u128_value_roundtrip by (apply sat_range; by apply amounts_total_nonneg). done.
Qed.

Lemma sum_row_app_ne l1 l2 : l2 <> [] -> sum_row (l1 ++ l2) = Some (sat (total l1 + total l2)).
Proof. intros Hne. destruct (l1 ++ l2) eqn:E; [by apply app_eq_nil in E as [_ ?]|]. unfold sum_row. by rewrite <- E, total_app. Qed.

Lemma amounts_id token vols : vols_ok vols -> amounts token vols <> [] -> id_ok token.
Proof.
  intros Hok. unfold amounts. destruct (filter _ vols) as [|x l] eqn:E; [done|]. intros _.
  assert (Hx : x ∈ filter (fun x : Vol => x.1 = token /\ x.2 <> 0) vols) by (rewrite E; apply elem_of_cons; by left).
  apply list_elem_of_filter in Hx as [[<- _] Hin]. unfold vols_ok in Hok. rewrite Forall_forall in Hok. by apply Hok.
Qed.

Lemma sat_pos z : 0 < z -> (sat z =? 0) = false.
Proof. unfold sat, u128_mod. intros. apply Z.eqb_neq. lia. Qed.

Lemma at_amounts_nil token h hist :
  at_amounts token h hist = [] <-> forall blk, blk ∈ hist -> vb_height blk = h -> amounts token (vb_vols blk) = [].
Proof.
  unfold at_amounts. induction hist as [|b hist IH]; [split; [by intros _ ? ?%elem_of_nil|done]|]. rewrite bind_cons, app_nil, IH. split.
  - intros [H1 H2] blk [->|Hin]%elem_of_cons E; [by rewrite decide_True in H1|by apply H2].
  - intros Hall. split; [|intros blk Hin; apply Hall, elem_of_cons; by right].
    destruct (decide (vb_height b = h)); [|done]. apply Hall; [apply elem_of_cons; by left|done].
Qed.

Lemma upto_ext token h h' hist :
  (forall blk, blk ∈ hist -> amounts token (vb_vols blk) <> [] -> vb_height blk <= h <-> vb_height blk <= h') ->
  upto_amounts token h hist = upto_amounts token h' hist.
Proof.
  unfold upto_amounts. induction hist as [|b hist IH]; intros Hall; [done|]. rewrite !bind_cons. f_equal.
  - destruct (amounts token (vb_vols b)) eqn:E; [by repeat destruct (decide _)|].
    specialize (Hall b ltac:(apply elem_of_cons; by left) ltac:(by rewrite E)). repeat destruct (decide _); tauto || done.
  - apply IH. intros blk Hin. apply Hall, elem_of_cons. by right.
Qed.

(** The latest total is the sum up to the height. *)
Lemma latest_total frames ns hist token h :
  volume_follows frames ns hist -> id_ok token -> in_u32 h ->
  from_option snd 0 (get_token_total_volume_at_or_before_height ns token h) = sat (total (upto_amounts token h hist)).
Proof.
  intros Hf Htok Hh. unfold get_token_total_volume_at_or_before_height.
  assert (Hh' : in_u64 (h + 1)) by (unfold in_u32, in_u64 in *; lia).
  replace (u64_sat_add h 1) with (h + 1) by (unfold u64_sat_add, in_u32 in *; lia).
  pose proof (scan_range_desc_head ns (token_total_volume_prefix token) (token_total_volume_key token (h + 1)) 15) as Hs.
  assert (Hrow : forall blk, blk ∈ hist -> vb_height blk <= h -> amounts token (vb_vols blk) <> [] ->
    in_u64 (vb_height blk) /\ is_Some (ns !! token_total_volume_key token (vb_height blk))
    /\ token_total_volume_prefix token <=b token_total_volume_key token (vb_height blk)
    /\ token_total_volume_key token (vb_height blk) <b token_total_volume_key token (h + 1)).
  { intros blk Hin Hle Hne. pose proof (vf_ok _ _ _ Hf) as Hok. rewrite Forall_forall in Hok. destruct (Hok _ Hin) as (Hb & _ & _).
    assert (Hb' : in_u64 (vb_height blk)) by (unfold in_u32, in_u64 in *; lia). split_and!; [done| |apply ble_prefix|].
    - rewrite (vf_total _ _ _ Hf) by done. unfold total_row. destruct (at_amounts token (vb_height blk) hist) eqn:E; [|by eexists].
      exfalso. apply Hne. by apply (proj1 (at_amounts_nil token (vb_height blk) hist) E).
    - apply blt_app, be_bytes_lt; [done|done|lia]. }
  destruct (scan_range_desc ns _ _ 16) as [|[k v] rest].
  - cbn. assert (upto_amounts token h hist = []) as ->; [|done]. unfold upto_amounts.
    assert (Hn : forall blk, blk ∈ hist -> (if decide (vb_height blk <= h) then amounts token (vb_vols blk) else []) = []).
    { intros blk Hin. destruct (decide _) as [Hle|]; [|done]. destruct (amounts token (vb_vols blk)) eqn:E; [done|]. exfalso.
      destruct (Hrow blk Hin Hle ltac:(by rewrite E)) as (_ & [v Hv] & Hl & Hu). by eapply Hs. }
    clear -Hn. induction hist as [|b hist IH]; [done|]. rewrite bind_cons, Hn by (apply elem_of_cons; by left). apply IH.
    intros blk Hin. apply Hn, elem_of_cons. by right.
  - destruct Hs as (Hv & Hl & Hu & Hmax). destruct (between_prefix _ _ _ Hl Hu) as (r & Ek & Hr).
    destruct (vf_total_only _ _ _ Hf k token Htok) as (h' & Hh1 & ->); [rewrite Ek; apply starts_with_app|by eexists|].
    apply blt_app, be_bytes_lt in Hu; [|done|done]. rewrite (vf_total _ _ _ Hf) in Hv by done. unfold total_row in Hv.
    destruct (at_amounts token h' hist) as [|a0 l0] eqn:Ea; [done|]. injection Hv as <-. cbn [omap list_omap fst snd].
    rewrite parse_total_key by done. cbn [mbind option_bind]. rewrite u128_value_roundtrip by (apply sat_range, amounts_total_nonneg, upto_positive, (vf_ok _ _ _ Hf)).
    cbn. f_equal. f_equal. apply upto_ext. intros blk Hin Hne. split; [lia|]. intros Hle.
    destruct (Hrow blk Hin Hle Hne) as (Hb & [w Hw] & Hl' & Hu'). specialize (Hmax _ _ Hw Hl' Hu').
    apply ble_app in Hmax. destruct (Z_lt_le_dec h' (vb_height blk)) as [Hlt|]; [|done]. exfalso.
    eapply blt_not_ble; [|exact Hmax]. by apply (be_bytes_lt 8).
Qed.

Section Step.
Context (frames : list Timeframe) (Hframes : NoDup frames).
Context (ns : Namespace) (hist : list VolBlock) (Hf : volume_follows frames ns hist).
Context (blk : VolBlock) (Hblk : vb_ok blk) (Hnew : Forall (fun b => vb_height b < vb_height blk) hist).

Definition step_cache : TokenVolumeCache := vol_cache (vb_ts blk) frames (vb_vols blk).

Lemma bucket_writes_elem k v :
  (k, v) ∈ volume_into_writes ns step_cache <->
  exists token tf, amounts token (vb_vols blk) <> [] /\ tf ∈ frames /\ k = token_volume_key token tf (bucket_start (vb_ts blk) tf)
    /\ v = encode_u128_value (sat (total (bucket_amounts token tf (bucket_start (vb_ts blk) tf) (hist ++ [blk])))).
Proof using Hframes Hf Hblk.
  destruct Hblk as (_ & Hts & Hv). unfold volume_into_writes. rewrite list_elem_of_omap.
  assert (Hval : forall token tf, amounts token (vb_vols blk) <> [] -> tf ∈ frames ->
    u128_sat_add (default 0 (ns !! token_volume_key token tf (bucket_start (vb_ts blk) tf) ≫= decode_u128_value)) (sat (total (amounts token (vb_vols blk))))
    = sat (total (bucket_amounts token tf (bucket_start (vb_ts blk) tf) (hist ++ [blk])))).
  { intros token tf Hne Htf. rewrite (vf_bucket _ _ _ Hf token tf _ ltac:(by eapply amounts_id) Htf ltac:(by apply bucket_start_range)).
    pose proof (bucket_positive token tf (bucket_start (vb_ts blk) tf) hist (vf_ok _ _ _ Hf)) as Hp.
    rewrite stored_sum by done. rewrite sat_sat by (apply amounts_total_nonneg; first [done|by apply amounts_positive]).
    f_equal. unfold bucket_amounts. rewrite bind_app, total_app. f_equal. cbn [mbind list_bind]. by rewrite decide_True, app_nil_r by done. }
  split.
  - intros ([[[token tf] b] a] & Hin & E). apply elem_of_map_to_list in Hin.
    destruct (vol_cache_lookup (vb_ts blk) frames (vb_vols blk) token tf b Hframes Hv) as [Hl _]. unfold step_cache in Hin. rewrite Hl in Hin.
    destruct (decide (tf ∈ frames /\ b = bucket_start (vb_ts blk) tf)) as [[Htf ->]|]; [|done].
    destruct (amounts token (vb_vols blk)) as [|a0 l0] eqn:Ea; [done|]. cbn [sum_row] in Hin. rewrite <- Ea in Hin. injection Hin as <-.
    rewrite sat_pos in E by (apply total_positive; [by apply amounts_positive|by rewrite Ea]). injection E as <- <-.
    exists token, tf. rewrite <- Hval by (done || by rewrite Ea). by rewrite Ea.
  - intros (token & tf & Hne & Htf & -> & ->). exists (token, tf, bucket_start (vb_ts blk) tf, sat (total (amounts token (vb_vols blk)))). split.
    + apply elem_of_map_to_list. destruct (vol_cache_lookup (vb_ts blk) frames (vb_vols blk) token tf (bucket_start (vb_ts blk) tf) Hframes Hv) as [Hl _].
      unfold step_cache. rewrite Hl, decide_True by done. by destruct (amounts token (vb_vols blk)).
    + rewrite sat_pos by (apply total_positive; [by apply amounts_positive|done]). cbv zeta. by rewrite Hval.
Qed.

Lemma upto_snoc token : 0 < vb_height blk \/ hist = [] ->
  sat (total (upto_amounts token (vb_height blk) (hist ++ [blk])))
  = u128_sat_add (sat (total (upto_amounts token (Z.max 0 (vb_height blk - 1)) hist))) (sat (total (amounts token (vb_vols blk)))).
Proof using Hf Hblk Hnew.
  intros Hpos. rewrite sat_sat by (apply amounts_total_nonneg; first [apply upto_positive, (vf_ok _ _ _ Hf)|apply amounts_positive, Hblk]).
  f_equal. unfold upto_amounts at 1. rewrite bind_app, total_app. cbn [mbind list_bind]. rewrite decide_True, app_nil_r by lia. f_equal. f_equal.
  apply (upto_ext token). intros b Hb _. rewrite Forall_forall in Hnew. specialize (Hnew _ Hb). destruct Hpos as [Hp| ->]; [lia|by apply elem_of_nil in Hb].
Qed.

Lemma height_pos : 0 < vb_height blk \/ hist = [].
Proof using Hf Hnew.
  destruct hist as [|b l]; [by right|left]. apply Forall_cons in Hnew as [Hb _]. pose proof (vf_ok _ _ _ Hf) as Hok.
  apply Forall_cons in Hok as [[[? _] _] _]. lia.
Qed.

Lemma total_writes_elem k v :
  (k, v) ∈ (prepare_token_volume (vb_height blk) ns step_cache).2 <->
  exists token, amounts token (vb_vols blk) <> [] /\ k = token_total_volume_key token (vb_height blk)
    /\ v = encode_u128_value (sat (total (upto_amounts token (vb_height blk) (hist ++ [blk])))).
Proof using Hframes Hf Hblk Hnew.
  destruct Hblk as (Hh & Hts & Hv). unfold prepare_token_volume. cbn [snd]. rewrite list_elem_of_omap.
  assert (Hval : forall token, amounts token (vb_vols blk) <> [] ->
    u128_sat_add (from_option snd 0 (get_token_total_volume_at_or_before_height ns token (Z.max 0 (vb_height blk - 1)))) (sat (total (amounts token (vb_vols blk))))
    = sat (total (upto_amounts token (vb_height blk) (hist ++ [blk])))).
  { intros token Hne. rewrite (latest_total frames ns hist) by (try done; first [by eapply amounts_id|unfold in_u32 in *; lia]).
    symmetry. apply upto_snoc, height_pos. }
  assert (Hlook : forall token, block_totals step_cache !! token = sum_row (amounts token (vb_vols blk))).
  { intros token. by destruct (vol_cache_lookup (vb_ts blk) frames (vb_vols blk) token M10 0 Hframes Hv) as [_ Hl]. }
  split.
  - intros ([token a] & Hin & E). apply elem_of_map_to_list in Hin. rewrite Hlook in Hin.
    destruct (amounts token (vb_vols blk)) as [|a0 l0] eqn:Ea; [done|]. cbn [sum_row] in Hin. rewrite <- Ea in Hin. injection Hin as <-.
    rewrite sat_pos in E by (apply total_positive; [by apply amounts_positive|by rewrite Ea]). injection E as <- <-.
    exists token. rewrite <- Hval by (by rewrite Ea). by rewrite Ea.
  - intros (token & Hne & -> & ->). exists (token, sat (total (amounts token (vb_vols blk)))). split.
    + apply elem_of_map_to_list. rewrite Hlook. by destruct (amounts token (vb_vols blk)).
    + rewrite sat_pos by (apply total_positive; [by apply amounts_positive|done]). cbv zeta. by rewrite Hval.
Qed.

Lemma bucket_space token tf b : volume_space (token_volume_key token tf b) = true.
Proof. unfold volume_space. apply orb_true_iff. left. apply starts_with_iff. unfold token_volume_key, token_volume_ns_prefix. rewrite <- app_assoc. by eexists. Qed.

Lemma total_space token h : volume_space (token_total_volume_key token h) = true.
Proof. unfold volume_space. apply orb_true_iff. right. apply starts_with_iff. unfold token_total_volume_key, token_total_volume_prefix. rewrite <- app_assoc. by eexists. Qed.

Lemma bucket_not_total token tf r token' r' : token_volume_ns_prefix token tf ++ r <> token_total_volume_prefix token' ++ r'.
Proof. unfold token_volume_ns_prefix, token_total_volume_prefix. rewrite <- !app_assoc. cbn. intros E. discriminate E. Qed.

Definition step_puts : list (bytes * bytes) := volume_puts ns (vb_height blk) step_cache.

(** The rows of the batch, by key. *)
Lemma step_puts_elem k v :
  (k, v) ∈ step_puts ->
  (exists token tf, id_ok token /\ amounts token (vb_vols blk) <> [] /\ k = token_volume_key token tf (bucket_start (vb_ts blk) tf)
     /\ v = encode_u128_value (sat (total (bucket_amounts token tf (bucket_start (vb_ts blk) tf) (hist ++ [blk])))))
  \/ (exists token, id_ok token /\ amounts token (vb_vols blk) <> [] /\ k = token_total_volume_key token (vb_height blk)
     /\ v = encode_u128_value (sat (total (upto_amounts token (vb_height blk) (hist ++ [blk]))))).
Proof using Hframes Hf Hblk Hnew.
  unfold step_puts, volume_puts. destruct (prepare_token_volume (vb_height blk) ns step_cache) as [c t] eqn:E. rewrite elem_of_app.
  assert (Hid : forall token, amounts token (vb_vols blk) <> [] -> id_ok token) by (intros token; apply amounts_id, Hblk). intros [Hin|Hin].
  - left. replace c with (volume_into_writes ns step_cache) in Hin by (by injection E). apply bucket_writes_elem in Hin as (tok & tf & Hn & _ & ? & ?). eauto 8.
  - right. replace t with (prepare_token_volume (vb_height blk) ns step_cache).2 in Hin by (by rewrite E). apply total_writes_elem in Hin as (tok & Hn & ? & ?). eauto 8.
Qed.

Lemma height_u64 : in_u64 (vb_height blk).
Proof using Hblk. destruct Hblk as (Hh & _ & _). unfold in_u32, in_u64 in *. lia. Qed.

Lemma bucket_u64 tf : in_u64 (bucket_start (vb_ts blk) tf).
Proof using Hblk. apply bucket_start_range, Hblk. Qed.

Lemma bucket_last token tf b :
  id_ok token -> tf ∈ frames -> in_u64 b ->
  last_put step_puts (token_volume_key token tf b)
  = if decide (bucket_start (vb_ts blk) tf = b /\ amounts token (vb_vols blk) <> [])
    then Some (encode_u128_value (sat (total (bucket_amounts token tf b (hist ++ [blk]))))) else None.
Proof using Hframes Hf Hblk Hnew.
  intros Htok Htf Hb. destruct (decide _) as [[<- Hne]|Hno].
  - apply last_put_unique.
    + unfold step_puts, volume_puts, prepare_token_volume. apply elem_of_app. left. apply bucket_writes_elem. eauto 6.
    + intros v [(tok & f & Hid & Hn & Ek & ->)|(tok & Hid & Hn & Ek & _)]%step_puts_elem; [|by apply bucket_not_total in Ek].
      apply volume_key_inj in Ek as (<- & <- & _); try done. apply bucket_u64.
  - apply last_put_none. intros v [(tok & f & Hid & Hn & Ek & ->)|(tok & Hid & Hn & Ek & _)]%step_puts_elem; [|by apply bucket_not_total in Ek].
    apply volume_key_inj in Ek as (<- & <- & Eb); try done; [by apply Hno|apply bucket_u64].
Qed.

Lemma total_last token h :
  id_ok token -> in_u64 h ->
  last_put step_puts (token_total_volume_key token h)
  = if decide (vb_height blk = h /\ amounts token (vb_vols blk) <> [])
    then Some (encode_u128_value (sat (total (upto_amounts token h (hist ++ [blk]))))) else None.
Proof using Hframes Hf Hblk Hnew.
  intros Htok Hh. destruct (decide _) as [[<- Hne]|Hno].
  - apply last_put_unique.
    + unfold step_puts, volume_puts. rewrite (surjective_pairing (prepare_token_volume (vb_height blk) ns step_cache)).
      apply elem_of_app. right. apply total_writes_elem. eauto.
    + intros v [(tok & f & Hid & Hn & Ek & _)|(tok & Hid & Hn & Ek & ->)]%step_puts_elem; [symmetry in Ek; by apply bucket_not_total in Ek|].
      by apply total_key_inj in Ek as [<- _].
  - apply last_put_none. intros v [(tok & f & Hid & Hn & Ek & _)|(tok & Hid & Hn & Ek & ->)]%step_puts_elem; [symmetry in Ek; by apply bucket_not_total in Ek|].
    apply total_key_inj in Ek as [<- Eh]; try done; [by apply Hno|apply height_u64].
Qed.

Lemma bucket_amounts_step token tf b :
  bucket_amounts token tf b (hist ++ [blk])
  = bucket_amounts token tf b hist ++ (if decide (bucket_start (vb_ts blk) tf = b) then amounts token (vb_vols blk) else []).
Proof. unfold bucket_amounts. rewrite bind_app. cbn [mbind list_bind]. by rewrite app_nil_r. Qed.

Lemma at_amounts_step token h :
  at_amounts token h (hist ++ [blk]) = at_amounts token h hist ++ (if decide (vb_height blk = h) then amounts token (vb_vols blk) else []).
Proof. unfold at_amounts. rewrite bind_app. cbn [mbind list_bind]. by rewrite app_nil_r. Qed.

Lemma at_amounts_new token : at_amounts token (vb_height blk) hist = [].
Proof using Hnew. apply at_amounts_nil. intros b Hb E. rewrite Forall_forall in Hnew. specialize (Hnew _ Hb). lia. Qed.

(** The totals of earlier heights stay. *)
Lemma total_row_old token h : at_amounts token h hist <> [] -> total_row token h (hist ++ [blk]) = total_row token h hist.
Proof using Hnew.
  intros Hne. assert (Hlt : h < vb_height blk).
  { destruct (decide (Exists (fun b => vb_height b = h) hist)) as [Hx|Hx].
    - apply Exists_exists in Hx as (b & Hb & <-). rewrite Forall_forall in Hnew. by apply Hnew.
    - exfalso. apply Hne, at_amounts_nil. intros b Hb E. exfalso. apply Hx, Exists_exists. eauto. }
  unfold total_row. rewrite at_amounts_step, (decide_False (P := vb_height blk = h)), app_nil_r by lia.
  destruct (at_amounts token h hist); [done|]. do 2 f_equal. unfold upto_amounts. rewrite bind_app. cbn [mbind list_bind].
  rewrite (decide_False (P := vb_height blk <= h)) by lia. by rewrite !app_nil_r.
Qed.

Lemma total_row_step token h :
  orelse (if decide (vb_height blk = h /\ amounts token (vb_vols blk) <> []) then Some (sat (total (upto_amounts token h (hist ++ [blk])))) else None)
    (total_row token h hist) = total_row token h (hist ++ [blk]).
Proof using Hnew.
  destruct (decide _) as [[<- Hne]|Hno].
  - unfold total_row at 2. rewrite at_amounts_step, at_amounts_new, decide_True by done. by destruct (amounts token (vb_vols blk)).
  - cbn [orelse]. destruct (at_amounts token h hist) eqn:Ea; [|symmetry; apply total_row_old; by rewrite Ea].
    unfold total_row. rewrite at_amounts_step, Ea. destruct (decide (vb_height blk = h)) as [E|]; [|done].
    destruct (amounts token (vb_vols blk)) eqn:En; [done|]. by destruct Hno.
Qed.

Context (pre post : list (bytes * bytes)) (Hpre : Forall not_volume pre) (Hpost : Forall not_volume post).

Definition step_ns : Namespace := apply_puts ns (pre ++ step_puts ++ post).

Lemma step_lookup k : volume_space k = true -> step_ns !! k = orelse (last_put step_puts k) (ns !! k).
Proof using Hpre Hpost.
  assert (Hforeign : forall l, Forall not_volume l -> volume_space k = true -> last_put l k = None).
  { intros l Hl Hk. apply last_put_none. intros v Hin. rewrite Forall_forall in Hl. specialize (Hl _ Hin). unfold not_volume in Hl. cbn [fst] in Hl. congruence. }
  intros Hk. unfold step_ns. rewrite apply_puts_last, !last_put_app, (Hforeign post), (Hforeign pre) by done. by destruct (last_put step_puts k).
Qed.

(** A block extends the history. *)
Lemma volume_block : volume_follows frames step_ns (hist ++ [blk]).
Proof using Hframes Hf Hblk Hnew Hpre Hpost.
  split.
  - intros token tf b Htok Htf Hb. rewrite step_lookup, bucket_last, (vf_bucket _ _ _ Hf) by (done || apply bucket_space). rewrite bucket_amounts_step.
    destruct (decide (bucket_start (vb_ts blk) tf = b /\ _)) as [[E Hne]|Hno].
    + rewrite decide_True, sum_row_app_ne, total_app by done. done.
    + destruct (decide (bucket_start (vb_ts blk) tf = b)) as [E|]; [|by rewrite app_nil_r].
      destruct (amounts token (vb_vols blk)) eqn:Ea; [by rewrite app_nil_r|by destruct Hno].
  - intros k token tf Htok Hk [v Hval]. destruct (proj1 (starts_with_iff _ _) Hk) as [r Er]. rewrite step_lookup in Hval.
    2:{ rewrite Er. unfold volume_space, token_volume_ns_prefix. apply orb_true_iff. left. apply starts_with_iff. rewrite <- app_assoc. by eexists. }
    destruct (last_put step_puts k) as [w|] eqn:E; cbn [orelse] in Hval; [|eapply (vf_bucket_only _ _ _ Hf); eauto].
    rewrite Er in *. apply last_put_elem, step_puts_elem in E as [(tok & f & Hid & Hn & Ek & _)|(tok & Hid & Hn & Ek & _)]; [|by apply bucket_not_total in Ek].
    rewrite Ek. apply volume_prefix_inj in Ek as (<- & <- & _); [|done..]. exists (bucket_start (vb_ts blk) tf). split; [apply bucket_u64|done].
  - intros token h Htok Hh. rewrite step_lookup, total_last, (vf_total _ _ _ Hf) by (done || apply total_space). rewrite <- total_row_step.
    by destruct (decide _).
  - intros k token Htok Hk [v Hval]. destruct (proj1 (starts_with_iff _ _) Hk) as [r Er]. rewrite step_lookup in Hval.
    2:{ rewrite Er. unfold volume_space, token_total_volume_prefix. apply orb_true_iff. right. apply starts_with_iff. rewrite <- app_assoc. by eexists. }
    destruct (last_put step_puts k) as [w|] eqn:E; cbn [orelse] in Hval; [|eapply (vf_total_only _ _ _ Hf); eauto].
    rewrite Er in *. apply last_put_elem, step_puts_elem in E as [(tok & f & Hid & Hn & Ek & _)|(tok & Hid & Hn & Ek & _)]; [symmetry in Ek; by apply bucket_not_total in Ek|].
    rewrite Ek. apply total_prefix_inj in Ek as [<- _]; [|done..]. exists (vb_height blk). split; [apply height_u64|done].
  - apply Forall_app. split; [apply Hf|by constructor].
Qed.

End Step.

(** ** The chart *)

Lemma volume_points_spec value dur start n fuel i :
  0 < dur -> start + Z.of_nat n * dur < 2 ^ 64 -> (i <= S n)%nat -> (S n - i < fuel)%nat ->
  volume_points fuel value dur (start + Z.of_nat n * dur) (start + Z.of_nat i * dur)
  = Some (map (fun j => (start + Z.of_nat j * dur, value (start + Z.of_nat j * dur))) (seq i (S n - i))).
Proof.
  intros Hd Hn. revert i. induction fuel as [|fuel IH]; intros i Hi Hfuel; [lia|]. cbn [volume_points].
  destruct (decide (i = S n)) as [->|Hne].
  { rewrite (proj2 (Z.leb_gt _ _)) by nia. by rewrite Nat.sub_diag. }
  rewrite (proj2 (Z.leb_le _ _)) by nia. unfold u64_checked_add. replace (S n - i)%nat with (S (S n - S i)) by lia. cbn [seq map].
  replace (start + Z.of_nat i * dur + dur) with (start + Z.of_nat (S i) * dur) by lia.
  destruct (Z.ltb_spec (start + Z.of_nat (S i) * dur) (2 ^ 64)); [by rewrite IH by lia|].
  assert (i = n) as -> by nia. by rewrite Nat.sub_diag.
Qed.

Lemma buckets_ends (m : gmap Z Z) :
  match first_bucket m, last_bucket m with
  | Some a, Some b => is_Some (m !! a) /\ is_Some (m !! b) /\ forall x, is_Some (m !! x) -> a <= x <= b
  | None, None => m = ∅
  | _, _ => False
  end.
Proof.
  unfold first_bucket, last_bucket. assert (Hin : forall x, x ∈ (map_to_list m).*1 <-> is_Some (m !! x)).
  { intros x. rewrite list_elem_of_fmap. split; [intros ([k v] & -> & Hk%elem_of_map_to_list); by eexists|].
    intros [v Hv]. exists (x, v). split; [done|]. by apply elem_of_map_to_list. }
  destruct (map_to_list m).*1 as [|k ks] eqn:E.
  - apply map_empty. intros x. destruct (m !! x) eqn:Ex; [|done]. exfalso. eapply (not_elem_of_nil x), Hin. by rewrite Ex.
  - destruct (foldr_min_spec ks k) as [H1 H2], (foldr_max_spec ks k) as [H3 H4]. split_and!; [by apply Hin..|].
    intros x Hx%Hin. split; auto.
Qed.

Definition volume_at (token : SchemaAlkaneId) (tf : Timeframe) (hist : list VolBlock) (b : Z) : Z := sat (total (bucket_amounts token tf b hist)).

Lemma volume_buckets_fold token tf (R : Z -> option Z) entries acc :
  (forall k v, (k, v) ∈ entries -> exists b a, in_u64 b /\ k = token_volume_key token tf b /\ decode_u128_value v = Some a /\ R b = Some a) ->
  (forall b a, acc !! b = Some a -> R b = Some a) ->
  let m := foldl (collect_volume token tf) acc entries in
  (forall b a, m !! b = Some a -> R b = Some a)
  /\ (forall b, is_Some (acc !! b) \/ (exists v, in_u64 b /\ (token_volume_key token tf b, v) ∈ entries) -> is_Some (m !! b)).
Proof.
  revert acc. induction entries as [|[k v] entries IH]; intros acc Hent Hacc; cbn [foldl].
  { split; [done|]. intros b [?|(v & _ & ?%elem_of_nil)]; done. }
  destruct (Hent k v) as (b0 & a0 & Hb0 & -> & Ha0 & HR); [apply elem_of_cons; by left|]. unfold collect_volume at 2 4. cbn [fst snd]. rewrite parse_volume_key, Ha0 by done.
  destruct (IH (match acc !! b0 with Some _ => acc | None => <[b0 := a0]> acc end)) as [H1 H2].
  - intros k' v' Hin. apply Hent, elem_of_cons. by right.
  - intros b a. destruct (acc !! b0) eqn:E; [apply Hacc|]. destruct (decide (b0 = b)) as [->|]; [rewrite lookup_insert_eq; congruence|].
    rewrite lookup_insert_ne by done. apply Hacc.
  - split; [exact H1|]. intros b Hb. apply H2. destruct (decide (b0 = b)) as [->|Hne].
    + left. destruct (acc !! b) eqn:E; [by rewrite E; eexists|]. rewrite lookup_insert_eq. by eexists.
    + destruct Hb as [Hb|(v' & Hb & [E|Hin]%elem_of_cons)]; [|injection E as E _; by apply app_inv_head, to_string_inj in E|right; eauto].
      left. destruct (acc !! b0); [done|]. by rewrite lookup_insert_ne.
Qed.

(** Buckets with volume are multiples of the frame. *)
Lemma bucket_aligned token tf b hist : bucket_amounts token tf b hist <> [] -> Forall vb_ok hist -> exists q, 0 <= q /\ b = q * duration_secs tf /\ in_u64 b.
Proof.
  intros Hne Hok. destruct (decide (Exists (fun blk => bucket_start (vb_ts blk) tf = b) hist)) as [Hx|Hx].
  - apply Exists_exists in Hx as (blk & Hin & <-). rewrite Forall_forall in Hok. destruct (Hok _ Hin) as (_ & Hts & _).
    exists (vb_ts blk / duration_secs tf). split_and!; [|done|by apply bucket_start_range]. apply Z.div_pos; [apply Hts|apply duration_pos].
  - exfalso. apply Hne. unfold bucket_amounts. clear Hne Hok. induction hist as [|blk hist IH]; [done|]. rewrite bind_cons.
    rewrite decide_False by (intros E; apply Hx, Exists_cons; by left). apply IH. intros H. apply Hx, Exists_cons. by right.
Qed.

Lemma volume_buckets_spec frames ns hist token tf b :
  volume_follows frames ns hist -> id_ok token -> tf ∈ frames ->
  volume_buckets token tf (get_list_entries_desc ns (token_volume_ns_prefix token tf)) !! b = sum_row (bucket_amounts token tf b hist).
Proof.
  intros Hf Htok Htf. set (R := fun b => sum_row (bucket_amounts token tf b hist)).
  assert (Hrow : forall b a, sum_row (bucket_amounts token tf b hist) = Some a -> decode_u128_value (encode_u128_value a) = Some a).
  { intros b' a E. apply u128_value_roundtrip. pose proof (bucket_positive token tf b' hist (vf_ok _ _ _ Hf)) as Hp.
    destruct (bucket_amounts token tf b' hist) as [|x l] eqn:El; [done|]. injection E as <-. apply sat_range. by apply (amounts_total_nonneg (x :: l)). }
  assert (Hent : forall k v, (k, v) ∈ get_list_entries_desc ns (token_volume_ns_prefix token tf) <-> ns !! k = Some v /\ starts_with k (token_volume_ns_prefix token tf) = true).
  { intros k v. unfold get_list_entries_desc. rewrite elem_of_reverse, sort_by_perm, list_elem_of_filter, elem_of_map_to_list. cbn [fst]. tauto. }
  destruct (volume_buckets_fold token tf R (get_list_entries_desc ns (token_volume_ns_prefix token tf)) ∅) as [H1 H2].
  - intros k v [Hv Hk]%Hent. destruct (vf_bucket_only _ _ _ Hf k token tf Htok Hk ltac:(by eexists)) as (b' & Hb' & ->).
    rewrite (vf_bucket _ _ _ Hf) in Hv by done. destruct (sum_row (bucket_amounts token tf b' hist)) as [a|] eqn:E; [|done]. injection Hv as <-.
    exists b', a. split_and!; [done|done|by eapply Hrow|done].
  - intros b' a. by rewrite lookup_empty.
  - unfold volume_buckets. destruct (foldl _ ∅ _ !! b) as [a|] eqn:E; [symmetry; by apply H1|].
    destruct (sum_row (bucket_amounts token tf b hist)) as [a|] eqn:Es; [|done]. exfalso.
    assert (Hb : in_u64 b).
    { destruct (bucket_aligned token tf b hist) as (q & _ & _ & ?); [intros E0; by rewrite E0 in Es|apply Hf|done]. }
    destruct (H2 b) as [? ?]; [|congruence]. right. exists (encode_u128_value a). split; [done|]. apply Hent. rewrite (vf_bucket _ _ _ Hf), Es by done.
    split; [done|]. apply starts_with_app.
Qed.

Lemma points_app (value value' : Z -> Z) (dur start : Z) (a b : nat) :
  (forall j, (a < j <= a + b)%nat -> value (start + Z.of_nat j * dur) = value' (start + Z.of_nat j * dur)) ->
  map (fun j => (start + Z.of_nat j * dur, value' (start + Z.of_nat j * dur))) (seq 0 (S a))
    ++ map (fun j => (start + Z.of_nat j * dur, value (start + Z.of_nat j * dur))) (seq (S a) b)
  = map (fun j => (start + Z.of_nat j * dur, value' (start + Z.of_nat j * dur))) (seq 0 (S (a + b))).
Proof.
  intros Hv. replace (S (a + b)) with (S a + b)%nat by lia. rewrite seq_app, map_app. f_equal. apply map_ext_in.
  intros j [Hj1 Hj2]%in_seq. by rewrite Hv by lia.
Qed.

(** A volume chart runs from the first bucket with a trade to the present bucket, or to the
    last with a trade when that is later; every point is the sum of its bucket. *)
Lemma read_volume_spec frames ns hist token tf now :
  volume_follows frames ns hist -> id_ok token -> tf ∈ frames -> in_u64 now ->
  (forall b, bucket_amounts token tf b hist = []) /\ read_token_volume_v1 ns token tf now = Some (mkVolumeSlice [] 0)
  \/ exists first n, bucket_amounts token tf first hist <> []
      /\ (forall b, bucket_amounts token tf b hist <> [] -> first <= b <= first + Z.of_nat n * duration_secs tf)
      /\ (let last := first + Z.of_nat n * duration_secs tf in
          bucket_start now tf <= last /\ (last = bucket_start now tf \/ bucket_amounts token tf last hist <> []))
      /\ read_token_volume_v1 ns token tf now
         = Some (mkVolumeSlice
             (reverse (map (fun i => let b := first + Z.of_nat i * duration_secs tf in (b, volume_at token tf hist b)) (seq 0 (S n))))
             (bucket_start now tf)).
Proof.
  intros Hf Htok Htf Hnow. pose proof (duration_pos tf) as Hd. pose proof (vf_ok _ _ _ Hf) as Hok.
  unfold read_token_volume_v1. set (m := volume_buckets token tf _).
  assert (Hm : forall b, m !! b = sum_row (bucket_amounts token tf b hist)) by (intros; by apply (volume_buckets_spec frames ns)).
  assert (Hsome : forall b, is_Some (m !! b) <-> bucket_amounts token tf b hist <> []).
  { intros b. rewrite Hm. destruct (bucket_amounts token tf b hist); cbn; split; first [done|by intros []|by eexists]. }
  assert (Hat : forall b, default 0 (m !! b) = volume_at token tf hist b).
  { intros b. rewrite Hm. apply sum_row_default. by apply bucket_positive. }
  pose proof (buckets_ends m) as Hends. destruct (first_bucket m) as [first|], (last_bucket m) as [last|]; try done.
  2:{ left. split; [|done]. intros b. specialize (Hsome b). rewrite Hends, lookup_empty in Hsome. destruct (bucket_amounts token tf b hist); [done|].
      destruct Hsome as [_ H]. by destruct H. }
  right. destruct Hends as (H1%Hsome & H2%Hsome & Hall).
  destruct (bucket_aligned token tf first hist H1 Hok) as (q1 & Hq1 & E1 & Hu1), (bucket_aligned token tf last hist H2 Hok) as (q2 & Hq2 & E2 & Hu2).
  assert (Hle : first <= last) by (apply Hall; by apply Hsome). assert (Hq : q1 <= q2) by nia.
  set (n1 := Z.to_nat (q2 - q1)). assert (Elast : last = first + Z.of_nat n1 * duration_secs tf) by (subst n1; nia).
  assert (Efuel : (Z.to_nat ((last - first) / duration_secs tf) = n1)%nat).
  { rewrite Elast. replace (first + Z.of_nat n1 * duration_secs tf - first) with (Z.of_nat n1 * duration_secs tf) by lia. rewrite Z.div_mul by lia. lia. }
  assert (Hfwd : volume_points (rounds first last (duration_secs tf)) (fun ts => default 0 (m !! ts)) (duration_secs tf) last first
    = Some (map (fun j => (first + Z.of_nat j * duration_secs tf, volume_at token tf hist (first + Z.of_nat j * duration_secs tf))) (seq 0 (S n1)))).
  { unfold rounds. rewrite Efuel, Elast. replace first with (first + Z.of_nat 0 * duration_secs tf) at 2 by lia.
    rewrite volume_points_spec by (unfold in_u64 in *; lia). rewrite Nat.sub_0_r. f_equal. apply map_ext. intros j. by rewrite Hat. }
  change (bucket_start_for now tf) with (bucket_start now tf). set (now_b := bucket_start now tf).
  assert (Hnb : exists q3, 0 <= q3 /\ now_b = q3 * duration_secs tf) by (exists (now / duration_secs tf); split; [apply Z.div_pos; [apply Hnow|done]|done]).
  destruct Hnb as (q3 & Hq3 & E3). pose proof (bucket_start_range now tf Hnow) as Hu3. fold now_b in Hu3. rewrite Hfwd. cbn [mbind option_bind].
  destruct (Z.ltb_spec last now_b) as [Hlt|Hge].
  - assert (Hq23 : q2 < q3) by nia. set (n2 := Z.to_nat (q3 - q2)). assert (Enow : now_b = first + Z.of_nat (n1 + n2) * duration_secs tf) by (subst n1 n2; nia).
    assert (Hlat : volume_points (rounds last now_b (duration_secs tf)) (fun _ => 0) (duration_secs tf) now_b (u64_sat_add last (duration_secs tf))
      = Some (map (fun j => (first + Z.of_nat j * duration_secs tf, 0)) (seq (S n1) n2))).
    { unfold rounds. assert (Ef2 : (Z.to_nat ((now_b - last) / duration_secs tf) = n2)%nat).
      { rewrite Enow, Elast. replace (first + Z.of_nat (n1 + n2) * duration_secs tf - (first + Z.of_nat n1 * duration_secs tf)) with (Z.of_nat n2 * duration_secs tf) by lia.
        rewrite Z.div_mul by lia. lia. }
      rewrite Ef2. assert (Es : u64_sat_add last (duration_secs tf) = first + Z.of_nat (S n1) * duration_secs tf).
      { unfold u64_sat_add. assert (last + duration_secs tf <= now_b) by (rewrite E2, E3; nia). unfold in_u64 in *. lia. }
      rewrite Es, Enow. rewrite (volume_points_spec (fun _ => 0)) by (unfold in_u64 in *; lia).
      by replace (S (n1 + n2) - S n1)%nat with n2 by lia. }
    rewrite Hlat. cbn [mbind option_bind]. exists first, (n1 + n2)%nat. rewrite <- Enow. split_and!; [done| |lia|by left|].
    + intros b Hb%Hsome%Hall. lia.
    + rewrite (points_app (fun _ => 0) (volume_at token tf hist)); [done|]. intros j Hj. unfold volume_at.
      assert (bucket_amounts token tf (first + Z.of_nat j * duration_secs tf) hist = []) as ->; [|done].
      destruct (bucket_amounts token tf (first + Z.of_nat j * duration_secs tf) hist) eqn:E; [done|]. exfalso.
      destruct (Hall (first + Z.of_nat j * duration_secs tf)) as [_ Hu]; [apply Hsome; by rewrite E|]. nia.
  - exists first, n1. rewrite <- Elast. cbn [mbind option_bind]. rewrite app_nil_r. split_and!; [done| |lia|by right|done]. intros b Hb%Hsome%Hall. lia.
Qed.
