(* ===== verification/AmmIndex.v ===== *)
(** * The AMM rows of a chain of blocks

    [index_amm_blocks] composes the balance deltas, the candles, the volumes and the
    activity of every block; the namespace it leaves follows the trades, the volumes and the
    events of the whole chain. *)
From stdpp Require Import strings.
From S2P Require Import Prelude Bytes Rocks RunesTransfer RunesStore RunesChain RunesInscriptions AlkTrace AlkSheets.
From S2P Require Import AmmPath AmmCandles AmmCandlesProps AmmChart AmmActivity AmmActivityProps AmmVolume AmmBlock AmmBlockProps AmmLog AmmVolumeProps.
From stdpp Require Import options.

Open Scope Z_scope.

(** ** Tables that do not meet *)

(** A key of no candle, no activity and no volume row. *)
Definition foreign_key (k : bytes) : Prop :=
  starts_with k (bstr "fc1:") = false /\ starts_with k (bstr "activity:") = false /\ volume_space k = false.

Lemma candle_prefix_fc1 k pool tf : starts_with k (candle_ns_prefix pool tf) = true -> starts_with k (bstr "fc1:") = true.
Proof. intros [r ->]%starts_with_iff. unfold candle_ns_prefix. apply starts_with_iff. rewrite <- !app_assoc. by eexists. Qed.

Lemma activity_not_fc1 k : starts_with k (bstr "activity:") = true -> starts_with k (bstr "fc1:") = false.
Proof. by intros [r ->]%starts_with_iff. Qed.
Lemma activity_not_volume k : starts_with k (bstr "activity:") = true -> volume_space k = false.
Proof. by intros [r ->]%starts_with_iff. Qed.
Lemma fc1_not_activity k : starts_with k (bstr "fc1:") = true -> starts_with k (bstr "activity:") = false.
Proof. by intros [r ->]%starts_with_iff. Qed.
Lemma fc1_not_volume k : starts_with k (bstr "fc1:") = true -> volume_space k = false.
Proof. by intros [r ->]%starts_with_iff. Qed.
Lemma volume_not_fc1 k : volume_space k = true -> starts_with k (bstr "fc1:") = false.
Proof. by intros [[r ->]%starts_with_iff|[r ->]%starts_with_iff]%orb_true_iff. Qed.
Lemma volume_not_activity k : volume_space k = true -> starts_with k (bstr "activity:") = false.
Proof. by intros [[r ->]%starts_with_iff|[r ->]%starts_with_iff]%orb_true_iff. Qed.

Definition foreign (p : bytes * bytes) : Prop := foreign_key p.1.

Definition own_tables (w : TableWrites) : list (bytes * bytes) := table_puts w [].

Lemma table_puts_elem w creations p : p ∈ table_puts w creations <-> p ∈ own_tables w \/ p ∈ creations.
Proof. unfold own_tables, table_puts. rewrite !elem_of_app, elem_of_nil. tauto. Qed.

Lemma push_table_foreign ts w owner defs sq a :
  Forall foreign (own_tables w) -> Forall foreign (own_tables (push_table_rows ts w owner defs sq a)).
Proof.
  unfold own_tables, table_puts, push_table_rows. cbn [token_activity_writes token_activity_amount_writes token_swaps_writes
    address_pool_swaps_writes address_token_swaps_writes address_pool_mints_writes address_pool_burns_writes amm_history_all_writes address_amm_history_writes].
  rewrite !Forall_app. intros (? & ? & ? & ? & ? & ? & ? & ? & ? & ?).
  destruct (bool_decide _), (ac_kind a), (address_spk a); cbn [negb is_trade andb]; split_and!; try done; repeat constructor.
Qed.

Section Foreign.
Context `{ActivityCodec}.
Context (ts : Z) (units : gset SchemaAlkaneId) (frames vframes : list Timeframe) (meta : gmap bytes (bytes * bool)).

Lemma process_move_foreign st m :
  Forall foreign (own_tables (table_writes st)) -> Forall foreign (own_tables (table_writes (process_move ts units frames vframes meta st m))).
Proof.
  intros Hw. unfold process_move, process_entry. destruct (reserves_snapshot st !! mv_owner m); [|done].
  destruct (_ && _); [done|]. destruct (kind_of_deltas _ _) as [[kind dir]|]; [|done].
  unfold record_trade, record_activity. cbn zeta. destruct (activity_push _ _ _ _) as [acc [sq|]], (is_trade kind); cbn;
    repeat destruct (trade_prices _ _ _ _); cbn; try done; by apply push_table_foreign.
Qed.

Lemma process_moves_foreign st ms :
  Forall foreign (own_tables (table_writes st)) -> Forall foreign (own_tables (table_writes (foldl (process_move ts units frames vframes meta) st ms))).
Proof. revert st. induction ms as [|m ms IH]; intros st Hw; cbn; [done|]. by apply IH, process_move_foreign. Qed.

End Foreign.

(** ** Agreement on a table *)

Section Agree.
Set Default Proof Using "Type*".
Context `{ActivityCodecLaws} `{CandleCodecLaws}.

Lemma activity_follows_agree ns1 ns2 log :
  (forall k, starts_with k (bstr "activity:") = true -> ns2 !! k = ns1 !! k) -> activity_follows ns1 log -> activity_follows ns2 log.
Proof.
  intros Heq Hf. split; [| | |apply Hf|apply Hf].
  - intros e p He Hp. rewrite Heq by (by eapply event_key_activity). by eapply (af_rows _ _ Hf).
  - intros k v Hv Hk. rewrite Heq in Hv by done. by eapply (af_only _ _ Hf).
  - intros pool g Hp. rewrite Heq by apply count_key_activity. by apply (af_counts _ _ Hf).
Qed.

Lemma volume_prefix_space k token tf : starts_with k (token_volume_ns_prefix token tf) = true -> volume_space k = true.
Proof. intros [r ->]%starts_with_iff. apply orb_true_iff. left. unfold token_volume_ns_prefix. apply starts_with_iff. rewrite <- !app_assoc. by eexists. Qed.

Lemma total_prefix_space k token : starts_with k (token_total_volume_prefix token) = true -> volume_space k = true.
Proof. intros [r ->]%starts_with_iff. apply orb_true_iff. right. unfold token_total_volume_prefix. apply starts_with_iff. rewrite <- !app_assoc. by eexists. Qed.

Lemma volume_follows_agree frames ns1 ns2 hist :
  (forall k, volume_space k = true -> ns2 !! k = ns1 !! k) -> volume_follows frames ns1 hist -> volume_follows frames ns2 hist.
Proof.
  intros Heq Hf. split; [| | | |apply Hf].
  - intros token tf b Ht Htf Hb. rewrite Heq by apply bucket_space. by apply (vf_bucket _ _ _ Hf).
  - intros k token tf Ht Hk Hv. rewrite Heq in Hv by (by eapply volume_prefix_space). by eapply (vf_bucket_only _ _ _ Hf).
  - intros token h Ht Hh. rewrite Heq by apply total_space. by apply (vf_total _ _ _ Hf).
  - intros k token Ht Hk Hv. rewrite Heq in Hv by (by eapply total_prefix_space). by eapply (vf_total_only _ _ _ Hf).
Qed.

Lemma candle_key_fc1 pool tf b : starts_with (candle_key pool tf b) (bstr "fc1:") = true.
Proof. eapply candle_prefix_fc1. unfold candle_key. apply starts_with_app. Qed.

Lemma rows_follow_agree ns1 ns2 tf trades :
  (forall k, starts_with k (bstr "fc1:") = true -> ns2 !! k = ns1 !! k) -> rows_follow ns1 tf trades -> rows_follow ns2 tf trades.
Proof.
  intros Heq [Hrow Honly]. split.
  - intros pool b Hp Hb. rewrite Heq by apply candle_key_fc1. by apply Hrow.
  - intros k pool Hp Hk Hv. rewrite Heq in Hv by (by eapply candle_prefix_fc1). by eapply Honly.
Qed.

Lemma rows_decode_agree ns1 ns2 :
  (forall k, starts_with k (bstr "fc1:") = true -> ns2 !! k = ns1 !! k) -> rows_decode ns1 -> rows_decode ns2.
Proof. intros Heq Hd key raw Hk Hv. rewrite Heq in Hv by apply candle_key_fc1. by eapply Hd. Qed.

(** Deleting rows of other tables leaves these as they are. *)
Lemma deleted_agree ns deletes puts k :
  Forall foreign_key deletes -> ~ foreign_key k -> apply_puts (apply_deletes ns deletes) puts !! k = apply_puts ns puts !! k.
Proof.
  intros Hd Hk. rewrite !apply_puts_last, apply_deletes_lookup. rewrite bool_decide_false; [done|]. intros Hin.
  rewrite Forall_forall in Hd. by apply Hk, Hd.
Qed.

End Agree.

(** ** Blocks *)

Definition move_ok (m : Move) : Prop :=
  id_ok (mv_owner m) /\ id_ok (base_alkane_id (mv_defs m)) /\ id_ok (quote_alkane_id (mv_defs m)) /\ length (bt_txid (mv_entry m)) = 32%nat.

Definition override_ok (overrides : gmap SchemaAlkaneId (Z * Z)) : Prop :=
  forall pool p, overrides !! pool = Some p -> in_u128 p.1 /\ in_u128 p.2.

Definition meta_ok (meta : gmap bytes (bytes * bool)) : Prop :=
  forall txid p, meta !! txid = Some p -> Z.of_nat (length p.1) < 2 ^ 32.

Definition moves_of (b : AmmBlockIn) : list Move := block_moves (ab_pools b) (ab_txs b).

(** A put of the rest of the module: a row of another table, or a candle of a higher
    timeframe. *)
Definition rest_put `{CandleCodec} (p : bytes * bytes) : Prop :=
  other_put p /\ starts_with p.1 (bstr "activity:") = false /\ volume_space p.1 = false.

Definition others_ok `{CandleCodec} (o : OtherWrites) : Prop :=
  Forall rest_put (derived_rows o) /\ Forall rest_put (pool_rows o) /\ Forall rest_put (creation_rows o) /\ Forall rest_put (snapshot_rows o)
  /\ Forall foreign_key (other_deletes o).

Record block_ok `{ActivityCodec} `{CandleCodec} (b : AmmBlockIn) : Prop := {
  bo_height : in_u32 (ab_height b);
  bo_ts : in_u64 (ab_ts b);
  bo_moves : Forall move_ok (moves_of b);
  bo_created : Forall (fun x => act_ok x /\ ac_kind x.2 = PoolCreate) (ab_created b);
  bo_tables : Forall foreign (own_tables (ab_tables b));
  bo_few : Z.of_nat (length (ab_created b) + length (moves_of b)) < 2 ^ 32;
  bo_reserves : reserves_ok (ab_reserves b);
  bo_overrides : override_ok (ab_overrides b);
  bo_meta : meta_ok (ab_meta b);
  bo_others : others_ok (ab_others b);
}.

(** What a block adds. *)
Definition trades_of (b : AmmBlockIn) : list Trade := block_trades (ab_ts b) (ab_overrides b) (ab_reserves b) (moves_of b).
Definition acts_in (b : AmmBlockIn) : list Act := ab_created b ++ block_acts (ab_ts b) (ab_meta b) (dom (ab_reserves b)) (moves_of b).
Definition events_of (b : AmmBlockIn) : list Event := block_events (ab_ts b) (acts_in b).
Definition volumes_of (b : AmmBlockIn) : VolBlock := mkVolBlock (ab_height b) (ab_ts b) (block_volumes (dom (ab_reserves b)) (moves_of b)).

Lemma price_range n d : in_u128 n -> 0 <= d -> in_u128 (div_scaled n d PRICE_SCALE).
Proof.
  intros Hn Hd. unfold div_scaled. destruct (Z.eqb_spec d 0) as [->|Hne]; [by unfold in_u128, u128_mod; lia|].
  unfold u128_sat_mul, PRICE_SCALE, in_u128, u128_mod in *. split; [apply Z.div_pos; lia|].
  apply Z.le_lt_trans with (2 ^ 128 - 1); [|lia]. etransitivity; [apply Z.div_le_upper_bound with (q := Z.min (2 ^ 128 - 1) (n * 10000000000000000)); [lia|]|lia]. nia.
Qed.

Lemma mv_trade_ok ts ov s m : in_u64 ts -> move_ok m -> snapshot_ok s -> override_ok ov -> trade_ok (mv_trade ts ov s m).
Proof.
  intros Hts (Ho & _) [Hb Hq] Hov. unfold mv_trade, spot. destruct (ov !! mv_owner m) as [p|] eqn:E; cbn.
  - destruct (Hov _ _ E), p. unfold trade_ok. cbn in *. split_and!; try done; lia.
  - unfold trade_ok, price_base_per_quote, price_quote_per_base. cbn. split_and!; try done; try lia; apply price_range; try done; unfold in_u128 in *; lia.
Qed.

Lemma block_trades_ok ts ov res ms :
  in_u64 ts -> Forall move_ok ms -> reserves_ok res -> override_ok ov -> Forall trade_ok (block_trades ts ov res ms).
Proof.
  intros Hts Hms. revert res. induction Hms as [|m ms Hm _ IH]; intros res Hres Hov; cbn [block_trades]; [constructor|].
  destruct (res !! mv_owner m) as [s|] eqn:Es; [|by apply IH]. pose proof (reserves_ok_step res m s Hres Es) as Hres'.
  destruct (mv_trades m); [constructor|]; try by apply IH. apply mv_trade_ok; try done. apply moved_snapshot_ok. by eapply Hres.
Qed.

Lemma block_volumes_ok pools ms : Forall move_ok ms -> vols_ok (block_volumes pools ms).
Proof.
  intros Hms. unfold vols_ok, block_volumes. apply Forall_forall. intros x (m & Hx & [_ Hin]%list_elem_of_filter)%list_elem_of_bind.
  rewrite Forall_forall in Hms. destruct (Hms _ Hin) as (_ & Hb & Hq & _). unfold mv_volumes in Hx. destruct (mv_trades m); [|by apply elem_of_nil in Hx].
  apply elem_of_cons in Hx as [->|Hx]; [cbn; split; [done|lia]|]. destruct (decide _); [by apply elem_of_nil in Hx|].
  apply list_elem_of_singleton in Hx as ->. cbn. split; [done|lia].
Qed.

Section Index.
Set Default Proof Using "Type*".
Context `{ActivityCodecLaws} `{CandleCodecLaws}.

Lemma block_acts_ok ts meta pools ms : in_u64 ts -> Forall move_ok ms -> meta_ok meta -> Forall act_ok (block_acts ts meta pools ms).
Proof.
  intros Hts Hms Hmeta. apply Forall_forall. intros x (m & [_ Hin]%list_elem_of_filter & E)%list_elem_of_omap.
  rewrite Forall_forall in Hms. destruct (Hms _ Hin) as (Ho & _ & _ & Htx). destruct (mv_act ts meta m) as [a|] eqn:Ea; [|done]. injection E as <-.
  split; [done|]. apply activity_codec_total. unfold mv_act in Ea. destruct (mv_kind m) as [[kind dir]|]; [|done]. injection Ea as <-.
  unfold activity_of. destruct (meta !! bt_txid (mv_entry m)) as [[spk su]|] eqn:Em; cbn.
  - split_and!; cbn; try done; try apply to_i128_range. by apply (Hmeta _ _ Em).
  - split_and!; cbn; try done; try apply to_i128_range.
Qed.

Lemma block_acts_length ts meta pools ms : (length (block_acts ts meta pools ms) <= length ms)%nat.
Proof.
  unfold block_acts, followed. etransitivity; [|apply (length_filter (fun m => mv_owner m ∈ pools) ms)].
  generalize (filter (fun m => mv_owner m ∈ pools) ms). intros l. induction l as [|m l IH]; cbn; [done|]. destruct (mv_act ts meta m); cbn; lia.
Qed.

(** What the namespace says of the chain so far. *)
Record amm_follows (vframes : list Timeframe) (ns : Namespace) (trades : list Trade) (log : list Event) (hist : list VolBlock) : Prop := {
  am_candles : rows_follow ns M10 trades;
  am_decode : rows_decode ns;
  am_activity : activity_follows ns log;
  am_volume : volume_follows vframes ns hist;
}.

Lemma volume_puts_space ns height c p :
  p ∈ (prepare_token_volume height ns c).1 ++ (prepare_token_volume height ns c).2 -> volume_space p.1 = true.
Proof.
  unfold prepare_token_volume, volume_into_writes. cbn [fst snd]. rewrite elem_of_app, !list_elem_of_omap.
  intros [([[[tok tf] b] a] & _ & E)|([tok a] & _ & E)]; (destruct (a =? 0); [done|]); injection E as <-; [apply bucket_space|apply total_space].
Qed.

Lemma extends_activity ns log news puts p : extends ns log news puts -> p ∈ puts -> starts_with p.1 (bstr "activity:") = true.
Proof.
  intros Hx [(e & _ & Hr)|(pool & g & _ & -> & _)]%(ex_only _ _ _ _ Hx); [by eapply event_key_activity|apply count_key_activity].
Qed.

Lemma not_fc1_other p : starts_with p.1 (bstr "fc1:") = false -> other_put p.
Proof. intros Hp. left. intros pool tf _. apply not_true_iff_false. intros Hk%candle_prefix_fc1. congruence. Qed.

Section Step.
Context (units : gset SchemaAlkaneId) (frames vframes : list Timeframe) (Hframes : NoDup frames) (Hm10 : M10 ∈ frames) (Hvframes : NoDup vframes).
Context (ns : Namespace) (b : AmmBlockIn) (Hb : block_ok b).

Abbreviation st := (processed units frames vframes b).

Lemma processed_fields :
  (activity_acc st, index_acc st) = foldl (push_both (ab_ts b)) (write_acc_new, index_acc_new) (acts_in b)
  /\ candle_cache st = gather frames (trades_of b)
  /\ token_volume_cache st = vol_cache (ab_ts b) vframes (vb_vols (volumes_of b))
  /\ Forall foreign (own_tables (table_writes st)).
Proof.
  unfold processed. rewrite process_balance_moves. cbn [pools_map block_state]. fold (moves_of b).
  destruct (process_moves_fields (ab_ts b) units frames vframes (ab_meta b) (block_state b) (moves_of b) (bo_reserves _ Hb)) as (_ & Ha & Hc & Hv).
  split_and!; [|exact Hc|exact Hv|apply process_moves_foreign, Hb].
  unfold acts_in. rewrite foldl_app. etransitivity; [exact Ha|]. f_equal. cbn. by rewrite <- surjective_pairing.
Qed.

(** The batch after the candles. *)
Definition tail_puts : list (bytes * bytes) :=
  table_puts (table_writes st) (creation_rows (ab_others b)) ++ activity_puts ns st ++ snapshot_rows (ab_others b).

Definition rest_puts : list (bytes * bytes) :=
  derived_rows (ab_others b) ++ volume_puts ns (ab_height b) (token_volume_cache st) ++ pool_rows (ab_others b) ++ tail_puts.

Lemma batch_split w : batch_puts units frames vframes ns b w = w ++ rest_puts.
Proof.
  unfold batch_puts, rest_puts, tail_puts, volume_puts. destruct (prepare_token_volume _ _ _) as [c t]. by rewrite <- !app_assoc.
Qed.

Lemma volume_puts_elem_space p : p ∈ volume_puts ns (ab_height b) (token_volume_cache st) -> volume_space p.1 = true.
Proof.
  intros Hp. apply (volume_puts_space ns (ab_height b) (token_volume_cache st)). unfold volume_puts in Hp.
  by destruct (prepare_token_volume (ab_height b) ns (token_volume_cache st)).
Qed.

Lemma table_row_rest p : p ∈ table_puts (table_writes st) (creation_rows (ab_others b)) -> rest_put p.
Proof.
  destruct (bo_others _ Hb) as (_ & _ & Hcr & _). rewrite Forall_forall in Hcr. intros [Hp|Hp]%table_puts_elem; [|by apply Hcr].
  destruct processed_fields as (_ & _ & _ & Ht). rewrite Forall_forall in Ht. destruct (Ht _ Hp) as (K1 & K2 & K3). split; [|done]. by apply not_fc1_other.
Qed.

Context (trades : list Trade) (log : list Event) (hist : list VolBlock) (Hns : amm_follows vframes ns trades log hist).
Context (Htrades : Forall trade_ok trades).
Context (Hcount : Z.of_nat (length log) + Z.of_nat (length (acts_in b)) < 2 ^ 64).
Context (Hfresh : forall e, e ∈ log -> ev_ts e = ab_ts b -> ev_pool e ∉ (acts_in b).*1).
Context (Hnew : Forall (fun v => vb_height v < ab_height b) hist).

Lemma acts_in_ok : Forall act_ok (acts_in b).
Proof.
  apply Forall_app. split; [eapply Forall_impl; [apply (bo_created _ Hb)|by intros x [? _]]|apply block_acts_ok; apply Hb].
Qed.

Lemma acts_in_few : Z.of_nat (length (acts_in b)) < 2 ^ 32.
Proof. pose proof (block_acts_length (ab_ts b) (ab_meta b) (dom (ab_reserves b)) (moves_of b)). pose proof (bo_few _ Hb). unfold acts_in. rewrite length_app. lia. Qed.

Lemma step_extends : extends ns log (events_of b) (activity_puts ns st).
Proof. apply activity_puts_extends; [apply Hns|apply acts_in_ok|apply acts_in_few|done|apply processed_fields]. Qed.

Lemma rest_other : Forall other_put rest_puts.
Proof.
  destruct (bo_others _ Hb) as (Hd & Hp & _ & Hs & _). rewrite Forall_forall in Hd, Hp, Hs. apply Forall_forall. intros p.
  unfold rest_puts, tail_puts. rewrite !elem_of_app. intros [K|[K|[K|[K|[K|K]]]]].
  - by apply Hd.
  - by apply not_fc1_other, volume_not_fc1, volume_puts_elem_space.
  - by apply Hp.
  - by apply table_row_rest.
  - by eapply not_fc1_other, activity_not_fc1, extends_activity, K; apply step_extends.
  - by apply Hs.
Qed.

Lemma candle_writes_fc1 w p : into_writes ns (gather frames (trades_of b)) = Some w -> p ∈ w -> starts_with p.1 (bstr "fc1:") = true.
Proof.
  intros Hw Hp. destruct (into_writes_rows ns (gather frames (trades_of b)) (am_decode _ _ _ _ _ Hns)) as (w' & Hw' & _ & _ & Hwv & _).
  - intros key Hk. apply gather_keys in Hk as (_ & t & Ht & Hin). eapply trade_key_ok; [|exact Hin].
    pose proof (block_trades_ok (ab_ts b) (ab_overrides b) (ab_reserves b) (moves_of b) (bo_ts _ Hb) (bo_moves _ Hb) (bo_reserves _ Hb) (bo_overrides _ Hb)) as Hok.
    rewrite Forall_forall in Hok. by apply Hok.
  - rewrite Hw in Hw'. injection Hw' as <-. destruct p as [k v]. destruct (Hwv k v Hp) as (key & _ & _ & _ & -> & _). apply candle_key_fc1.
Qed.

Lemma rest_not_activity w :
  into_writes ns (gather frames (trades_of b)) = Some w ->
  Forall not_activity (w ++ derived_rows (ab_others b) ++ volume_puts ns (ab_height b) (token_volume_cache st) ++ pool_rows (ab_others b)
    ++ table_puts (table_writes st) (creation_rows (ab_others b))) /\ Forall not_activity (snapshot_rows (ab_others b)).
Proof.
  intros Hw. destruct (bo_others _ Hb) as (Hd & Hp & _ & Hs & _). split; [|by eapply Forall_impl; [exact Hs|]; intros p (_ & K & _)].
  rewrite Forall_forall in Hd, Hp. apply Forall_forall. intros p. rewrite !elem_of_app. intros [K|[K|[K|[K|K]]]].
  - by eapply fc1_not_activity, candle_writes_fc1.
  - by apply Hd.
  - by apply volume_not_activity, volume_puts_elem_space.
  - by apply Hp.
  - by apply table_row_rest.
Qed.

Lemma rest_not_volume w :
  into_writes ns (gather frames (trades_of b)) = Some w ->
  Forall not_volume (w ++ derived_rows (ab_others b)) /\ Forall not_volume (pool_rows (ab_others b) ++ tail_puts).
Proof.
  intros Hw. destruct (bo_others _ Hb) as (Hd & Hp & _ & Hs & _). rewrite Forall_forall in Hd, Hp, Hs.
  split; apply Forall_forall; intros p; unfold tail_puts; rewrite !elem_of_app.
  - intros [K|K]; [by eapply fc1_not_volume, candle_writes_fc1|by apply Hd].
  - intros [K|[K|[K|K]]]; [by apply Hp|by apply table_row_rest| |by apply Hs].
    by eapply activity_not_volume, extends_activity, K; apply step_extends.
Qed.

(** One block: it is indexed, and the namespace follows it too. *)
Lemma amm_block_step :
  exists ns', index_amm_block units frames vframes ns b = Some ns'
    /\ amm_follows vframes ns' (trades ++ trades_of b) (log ++ events_of b) (hist ++ [volumes_of b]).
Proof.
  destruct processed_fields as (Ea & Ec & Ev & _).
  assert (Hok : Forall trade_ok (trades_of b)) by (apply block_trades_ok; apply Hb).
  destruct (candle_block_follows ns frames trades (trades_of b) rest_puts) as (kv & Hkv & Hrf & Hdec); try done; [apply Hns|apply Hns|apply rest_other|].
  unfold candle_block in Hkv. cbn [fst snd] in Hkv. destruct (into_writes ns (gather frames (trades_of b))) as [w|] eqn:Hw; [|done]. injection Hkv as Ekv.
  destruct (rest_not_activity w Hw) as [Ha1 Ha2], (rest_not_volume w Hw) as [Hv1 Hv2].
  exists (apply_puts (apply_deletes ns (other_deletes (ab_others b))) (w ++ rest_puts)). split.
  { unfold index_amm_block. rewrite Ec, Hw. cbn [mbind option_bind]. by rewrite set_batch_spec, batch_split. }
  assert (Hagree : forall k, ~ foreign_key k -> apply_puts (apply_deletes ns (other_deletes (ab_others b))) (w ++ rest_puts) !! k = kv !! k).
  { intros k Hk. rewrite deleted_agree; [by rewrite Ekv|apply (bo_others _ Hb)|done]. }
  assert (Hfc : forall k, starts_with k (bstr "fc1:") = true -> ~ foreign_key k) by (intros k Hk (K & _); congruence).
  split.
  - eapply rows_follow_agree; [|exact Hrf]. auto.
  - eapply rows_decode_agree; [|exact Hdec]. auto.
  - eapply activity_follows_agree; [intros k Hk; apply Hagree; intros (_ & K & _); congruence|]. rewrite <- Ekv.
    pose proof (fun pre post => block_extends_log (ab_ts b) ns log (acts_in b) st pre post (am_activity _ _ _ _ _ Hns) (bo_ts _ Hb) acts_in_ok acts_in_few Hcount) as Hx.
    specialize (Hx _ _ Hfresh Ea Ha1 Ha2). unfold rest_puts, tail_puts. by rewrite <- !app_assoc in Hx.
  - eapply volume_follows_agree; [intros k Hk; apply Hagree; intros (_ & _ & K); congruence|]. rewrite <- Ekv.
    assert (Hvb : vb_ok (volumes_of b)) by (split_and!; [apply Hb|apply Hb|apply block_volumes_ok, Hb]).
    pose proof (volume_block vframes Hvframes ns hist (am_volume _ _ _ _ _ Hns) (volumes_of b) Hvb Hnew _ _ Hv1 Hv2) as Hx.
    unfold step_ns, step_puts, step_cache in Hx. cbn [vb_ts vb_height volumes_of] in Hx. change (vb_vols _) with (vb_vols (volumes_of b)) in Hx.
    rewrite <- Ev in Hx. unfold rest_puts. by rewrite <- !app_assoc in Hx.
Qed.

End Step.

(** No pool is active in both of two blocks with one timestamp. *)
Definition times_apart (a b : AmmBlockIn) : Prop := ab_ts a = ab_ts b -> forall pool, pool ∈ (acts_in a).*1 -> pool ∉ (acts_in b).*1.

(** A chain of blocks: the heights go up, and a pool is active once per timestamp. *)
Record chain_ok (blocks : list AmmBlockIn) : Prop := {
  co_blocks : Forall block_ok blocks;
  co_ts : StronglySorted times_apart blocks;
  co_heights : StronglySorted (fun a b => ab_height a < ab_height b) blocks;
  co_few : Z.of_nat (length (blocks ≫= events_of)) < 2 ^ 64;
}.

Lemma length_events ts acts : length (block_events ts acts) = length acts.
Proof. unfold block_events. apply length_imap. Qed.

Lemma amm_blocks_step units frames vframes blocks ns trades log hist :
  NoDup frames -> M10 ∈ frames -> NoDup vframes ->
  amm_follows vframes ns trades log hist -> Forall trade_ok trades ->
  Forall block_ok blocks -> StronglySorted times_apart blocks -> StronglySorted (fun a b => ab_height a < ab_height b) blocks ->
  Z.of_nat (length (log ++ (blocks ≫= events_of))) < 2 ^ 64 ->
  (forall e b, e ∈ log -> b ∈ blocks -> ev_ts e = ab_ts b -> ev_pool e ∉ (acts_in b).*1) ->
  (forall v b, v ∈ hist -> b ∈ blocks -> vb_height v < ab_height b) ->
  exists ns', index_amm_blocks units frames vframes ns blocks = Some ns'
    /\ amm_follows vframes ns' (trades ++ (blocks ≫= trades_of)) (log ++ (blocks ≫= events_of)) (hist ++ map volumes_of blocks).
Proof.
  intros Hfr Hm10 Hvf Hns Htr Hbs. revert ns trades log hist Hns Htr.
  induction Hbs as [|b blocks Hb Hbs IH]; intros ns trades log hist Hns Htr Hnd Hs Hfew Hts Hhs.
  { exists ns. cbn. by rewrite !app_nil_r. }
  apply StronglySorted_inv in Hnd as [Hnd Hni]. apply StronglySorted_inv in Hs as [Hs Hall]. rewrite bind_cons in Hfew.
  rewrite !length_app in Hfew. unfold events_of in Hfew at 1. rewrite length_events in Hfew.
  destruct (amm_block_step units frames vframes Hfr Hm10 Hvf ns b Hb trades log hist Hns Htr ltac:(lia)) as (ns1 & E1 & Hns1).
  { intros e He. apply Hts; [done|apply elem_of_cons; by left]. }
  { apply Forall_forall. intros v Hv. apply Hhs; [done|apply elem_of_cons; by left]. }
  destruct (IH ns1 (trades ++ trades_of b) (log ++ events_of b) (hist ++ [volumes_of b]) Hns1) as (ns' & E & Hns'); try done.
  - apply Forall_app. split; [done|]. apply block_trades_ok; apply Hb.
  - rewrite !length_app. unfold events_of at 1. rewrite length_events. lia.
  - intros e b' [He|He]%elem_of_app Hb'; [apply Hts; [done|apply elem_of_cons; by right]|].
    apply block_events_elem in He as (Hin & -> & _). rewrite Forall_forall in Hni. intros Et. apply (Hni _ Hb' Et).
    apply list_elem_of_fmap. by exists (ev_pool e, ev_act e).
  - intros v b' [Hv|Hv%list_elem_of_singleton]%elem_of_app Hb'; [apply Hhs; [done|apply elem_of_cons; by right]|].
    subst v. rewrite Forall_forall in Hall. by apply Hall.
  - exists ns'. cbn [index_amm_blocks]. rewrite E1. cbn [mbind option_bind]. split; [done|]. rewrite !bind_cons. cbn [map].
    by rewrite <- !app_assoc in Hns'.
Qed.

Lemma empty_follows vframes : amm_follows vframes ∅ [] [] [].
Proof.
  split.
  - split; [intros pool b _ _; by rewrite lookup_empty|intros k pool _ _ [? E]; by rewrite lookup_empty in E].
  - intros key raw _ E. by rewrite lookup_empty in E.
  - split; [intros e p ?%elem_of_nil; done|intros k v E; by rewrite lookup_empty in E|intros pool g _; by rewrite lookup_empty|constructor|constructor].
  - split; [intros; by rewrite lookup_empty|intros k token tf _ _ [? E]; by rewrite lookup_empty in E|intros; by rewrite lookup_empty|
      intros k token _ _ [? E]; by rewrite lookup_empty in E|constructor].
Qed.

End Index.
