(* ===== verification/AmmIndexClaims.v ===== *)
(** * The AMM index: the properties *)
From stdpp Require Import strings.
From S2P Require Import Prelude Bytes Rocks RunesTransfer RunesStore RunesChain RunesInscriptions AlkTrace AlkSheets.
From S2P Require Import AmmPath AmmCandles AmmCandlesProps AmmChart AmmActivity AmmActivityProps AmmVolume AmmBlock AmmBlockProps.
From S2P Require Import AmmClaims AmmLog AmmVolumeProps AmmIndex.
From stdpp Require Import options.

Open Scope Z_scope.

(** The sum of what the transactions changed of a pool's balance in a token. *)
Definition total_change (es : list AlkaneBalanceTxEntry) (token : SchemaAlkaneId) : Z := foldr (fun e s => balance_change e token + s) 0 es.

Definition clamp (z : Z) : Z := Z.max 0 (Z.min (u128_mod - 1) z).

(** The reserves after a transaction: a change is read as a signed 128-bit number, and the
    reserves stop at the ends of the unsigned range. *)
Definition followed_by (defs : SchemaMarketDefs) (s : SchemaPoolSnapshot) (e : AlkaneBalanceTxEntry) : SchemaPoolSnapshot :=
  mkPoolSnapshot (clamp (base_reserve s + to_i128 (balance_change e (base_alkane_id defs))))
    (clamp (quote_reserve s + to_i128 (balance_change e (quote_alkane_id defs)))) (base_id s) (quote_id s).

Lemma followed_ok defs s e : snapshot_ok (followed_by defs s e).
Proof. split; cbn; unfold clamp, in_u128, u128_mod; lia. Qed.

Lemma followed_moves pool defs es s :
  snapshot_ok s -> foldl moved_snapshot s (map (mkMove pool defs) es) = foldl (followed_by defs) s es.
Proof.
  revert s. induction es as [|e es IH]; intros s [Hb Hq]; [done|]. cbn [map foldl].
  assert (moved_snapshot s (mkMove pool defs e) = followed_by defs s e) as ->; [|by apply IH, followed_ok].
  unfold moved_snapshot, followed_by, clamp. by rewrite !apply_delta_clamp by (done || apply to_i128_range).
Qed.

(** A side moves by the sum, as long as no step leaves the range. *)
Lemma followed_side (side : SchemaPoolSnapshot -> Z) token defs es s :
  (forall s e, side (followed_by defs s e) = clamp (side s + to_i128 (balance_change e token))) ->
  Forall (fun e => in_i128 (balance_change e token)) es ->
  (forall n, (n <= length es)%nat -> in_u128 (side s + total_change (take n es) token)) ->
  side (foldl (followed_by defs) s es) = side s + total_change es token.
Proof.
  intros Hside Hf. revert s. induction Hf as [|e es He _ IH]; intros s Hall; [cbn; lia|].
  assert (H1 : in_u128 (side s + balance_change e token)).
  { specialize (Hall 1%nat ltac:(cbn; lia)). cbn in Hall. by rewrite Z.add_0_r in Hall. }
  assert (E : side (followed_by defs s e) = side s + balance_change e token).
  { rewrite Hside, to_i128_id by done. unfold clamp, in_u128, u128_mod in *. lia. }
  cbn [foldl]. rewrite IH, E; [unfold total_change; cbn [foldr]; lia|]. intros n Hn. rewrite E. specialize (Hall (S n) ltac:(cbn; lia)). cbn in Hall. by rewrite <- Z.add_assoc.
Qed.

Section Claims.
Set Default Proof Using "Type*".
Context `{ActivityCodecLaws} `{CandleCodecLaws}.
Context (units : gset SchemaAlkaneId) (frames vframes : list Timeframe).

(** C3: The AMM rows follow the chain. Take an empty index and a chain of blocks with rising
    heights, in which no pool is active in two blocks of one timestamp (the rows of the first
    would be overwritten), with fewer than 2^32 events in a block; pool discovery has recorded
    the creations of a block before its balance transactions are processed (as the passes of a
    block do, [AmmPoolsProps.block_rows_amm_block]), and the rest of the module writes rows of
    other tables, or candles of other timeframes. Then indexing the chain
    succeeds; and at its end the ten-minute candles are those of all its trades, each priced
    at the reserves it left or at the pool's own price, the activity rows, indexes and counts
    are those of all its events, creations included, numbered within their block, and the volume
    buckets and running totals are the sums of all the amounts traded. *)
Theorem chain_indexed blocks ns :
  NoDup frames -> M10 ∈ frames -> NoDup vframes -> amm_follows vframes ns [] [] [] -> chain_ok blocks ->
  exists ns', index_amm_blocks units frames vframes ns blocks = Some ns'
    /\ amm_follows vframes ns' (blocks ≫= trades_of) (blocks ≫= events_of) (map volumes_of blocks).
Proof.
  intros Hfr Hm10 Hvf Hns [Hb Ht Hh Hc].
  destruct (amm_blocks_step units frames vframes blocks ns [] [] [] Hfr Hm10 Hvf Hns) as (ns' & E & Hns'); try done.
  - by intros e b ?%elem_of_nil.
  - by intros v b ?%elem_of_nil.
  - by exists ns'.
Qed.


(** C16: A token's volume is read back as it was traded. From rows that follow a history of
    blocks, the running total at a height is the sum of all the token's amounts up to it; and
    the chart, when the token has traded at all, is an unbroken run of buckets, newest first,
    from the first with a trade to the present one, or to the last with a trade if that is
    later, each with the sum of its bucket (sums stop at the end of the 128-bit range). *)
Theorem volume_read ns hist token tf now h :
  volume_follows vframes ns hist -> id_ok token -> tf ∈ vframes -> in_u64 now -> in_u32 h ->
  from_option snd 0 (get_token_total_volume_at_or_before_height ns token h) = sat (total (upto_amounts token h hist))
  /\ ((forall b, bucket_amounts token tf b hist = []) /\ read_token_volume_v1 ns token tf now = Some (mkVolumeSlice [] 0)
      \/ exists first n, bucket_amounts token tf first hist <> []
         /\ (forall b, bucket_amounts token tf b hist <> [] -> first <= b <= first + Z.of_nat n * duration_secs tf)
         /\ (let last := first + Z.of_nat n * duration_secs tf in
             bucket_start now tf <= last /\ (last = bucket_start now tf \/ bucket_amounts token tf last hist <> []))
         /\ read_token_volume_v1 ns token tf now
            = Some (mkVolumeSlice
                (reverse (map (fun i => let b := first + Z.of_nat i * duration_secs tf in (b, sat (total (bucket_amounts token tf b hist)))) (seq 0 (S n))))
                (bucket_start now tf))).
Proof. intros Hf Ht Htf Hnow Hh. split; [by eapply latest_total|by eapply read_volume_spec]. Qed.

(** C33: The reserves follow the balances. After the transactions of a block, the reserves of a
    pool in the map are those it had, moved by what each of its transactions changed of its
    balances, in order; a change is read as a signed 128-bit number and the reserves stop at the
    ends of the unsigned range. When every change fits that number and no step leaves the range,
    the reserves are exactly what they were plus the sum of the changes. Pools without a
    transaction, and pools that are not in the map, keep theirs. *)
Theorem reserves_follow ts meta balance_txs st pool s :
  reserves_ok (reserves_snapshot st) -> reserves_snapshot st !! pool = Some s ->
  let es := default [] (balance_txs !! pool) in
  exists s', reserves_snapshot (process_balance_deltas ts units frames vframes meta balance_txs st) !! pool = Some s'
    /\ snapshot_ok s'
    /\ match pools_map st !! pool with
       | None => s' = s
       | Some defs =>
           let base := base_alkane_id defs in
           let quote := quote_alkane_id defs in
           s' = foldl (followed_by defs) s es
           /\ (Forall (fun e => in_i128 (balance_change e base) /\ in_i128 (balance_change e quote)) es ->
               (forall n, (n <= length es)%nat ->
                  in_u128 (base_reserve s + total_change (take n es) base) /\ in_u128 (quote_reserve s + total_change (take n es) quote)) ->
               s' = mkPoolSnapshot (base_reserve s + total_change es base) (quote_reserve s + total_change es quote) (base_id s) (quote_id s))
       end.
Proof.
  intros Hok Hs es. rewrite process_balance_moves.
  destruct (process_moves_fields ts units frames vframes meta st (block_moves (pools_map st) balance_txs) Hok) as (Hr & _).
  pose proof (Hok _ _ Hs) as Hsok. rewrite Hr. unfold reserves_after. rewrite Hs, pool_moves. fold es. cbn [fmap option_fmap option_map].
  destruct (pools_map st !! pool) as [defs|]; [|by exists s]. rewrite followed_moves by done. eexists. split; [done|]. split; [|split; [done|]].
  - clear -Hsok. revert s Hsok. induction es as [|e es IH]; intros s Hsok; [done|]. apply IH, followed_ok.
  - intros Hf Hall. pose proof (followed_side base_reserve (base_alkane_id defs) defs es s) as Eb.
    pose proof (followed_side quote_reserve (quote_alkane_id defs) defs es s) as Eq.
    rewrite Forall_and in Hf. destruct Hf as [Hfb Hfq]. rewrite <- Eb, <- Eq; try done; try (intros n Hn; by apply Hall).
    clear. revert s. assert (K : forall s, base_id (foldl (followed_by defs) s es) = base_id s /\ quote_id (foldl (followed_by defs) s es) = quote_id s).
    { induction es as [|e es IH]; intros s; [done|]. cbn [foldl]. destruct (IH (followed_by defs s e)) as [-> ->]. done. }
    intros s. destruct (K s) as [<- <-]. by destruct (foldl (followed_by defs) s es).
Qed.

(** Nothing is dropped from a page when no side is filtered for, or when trades are asked for
    and the sort key, if it is of one side, is of the side that is shown. *)
Lemma page_full pool g side sort flt type e :
  g = group_from_filter type ->
  flt = SAll \/ type = FTrades /\ match sort, side with
                                  | Timestamp, _ | (AmountBaseAbs | SideBaseTs | SideBaseAmount), Base
                                  | (AmountQuoteAbs | SideQuoteTs | SideQuoteAmount), Quote => True
                                  | _, _ => False
                                  end ->
  let '(k, fixed) := adjust_for_side_filter sort side flt in selected pool g k fixed e -> stays g fixed side e.
Proof.
  intros -> Hcase. destruct (adjust_for_side_filter sort side flt) as [k fixed] eqn:E. intros [[_ Hg] Hs]. unfold stays, row_stays.
  destruct Hcase as [->|[-> Hside]].
  - assert (fixed = None) as -> by (by destruct sort, side; injection E as <- <-). rewrite andb_true_r.
    destruct (group_from_filter type); [|done]. by apply bool_decide_true.
  - cbn [group_from_filter] in *. unfold ev_group in Hg. rewrite Hg, bool_decide_true by done. cbn [andb]. destruct fixed as [sb|]; [|done].
    assert (is_trade (ac_kind (ev_act e)) = true) as -> by (by destruct (ac_kind (ev_act e))). cbn [andb]. apply Z.eqb_eq. rewrite <- Hs.
    destruct flt, sort, side; try done; injection E as <- <-; done.
Qed.

End Claims.

(** ** A codec and a chain *)

(** The next [n] bytes, and the rest. *)
Definition next (n : nat) (l : bytes) : option (bytes * bytes) :=
  if (n <=? length l)%nat then Some (take n l, drop n l) else None.

Lemma next_app n a r : length a = n -> next n (a ++ r) = Some (a, r).
Proof.
  intros <-. unfold next. rewrite length_app, (proj2 (Nat.leb_le _ _)) by lia. by rewrite take_app_length, drop_app_length.
Qed.

Definition kind_from_code (b : bytes) : option ActivityKind :=
  match b2z <$> head b with
  | Some 0 => Some TradeBuy | Some 1 => Some TradeSell | Some 2 => Some LiquidityAdd
  | Some 3 => Some LiquidityRemove | Some 4 => Some PoolCreate | _ => None
  end.

Definition direction_bytes (d : option ActivityDirection) : bytes :=
  match d with None => [Byte.x00] | Some BaseIn => [Byte.x01; Byte.x00] | Some QuoteIn => [Byte.x01; Byte.x01] end.

Definition next_direction (l : bytes) : option (option ActivityDirection * bytes) :=
  match l with
  | Byte.x00 :: l => Some (None, l)
  | Byte.x01 :: Byte.x00 :: l => Some (Some BaseIn, l)
  | Byte.x01 :: Byte.x01 :: l => Some (Some QuoteIn, l)
  | _ => None
  end.

#[local] Instance activity_typed_dec a : Decision (activity_typed a).
Proof. unfold activity_typed, in_u64. apply _. Defined.

Definition activity_head_bytes (a : SchemaActivityV1) : bytes :=
  le_bytes 8 (ac_timestamp a) ++ ac_txid a ++ [z2b (activity_kind_code (ac_kind a))] ++ direction_bytes (ac_direction a)
  ++ le_bytes 16 (base_delta a) ++ le_bytes 16 (quote_delta a).

Definition activity_bytes (a : SchemaActivityV1) : bytes :=
  activity_head_bytes a ++ le_bytes 4 (Z.of_nat (length (address_spk a))) ++ address_spk a ++ [if success a then Byte.x01 else Byte.x00].

Definition parse_head (l : bytes) : option (SchemaActivityV1Legacy * bytes) :=
  '(ts, l) ← next 8 l; '(txid, l) ← next 32 l; '(k, l) ← next 1 l; kind ← kind_from_code k; '(dir, l) ← next_direction l;
  '(b, l) ← next 16 l; '(q, l) ← next 16 l;
  Some (mkActLegacy (from_le ts) txid kind dir (to_i128 (from_le b)) (to_i128 (from_le q)), l).

Definition parse_activity (l : bytes) : option SchemaActivityV1 :=
  '(hd, l) ← parse_head l; '(n, l) ← next 4 l; '(spk, l) ← next (Z.to_nat (from_le n)) l;
  match l with
  | [Byte.x00] => Some (mkAct (al_timestamp hd) (al_txid hd) (al_kind hd) (al_direction hd) (al_base_delta hd) (al_quote_delta hd) spk false)
  | [Byte.x01] => Some (mkAct (al_timestamp hd) (al_txid hd) (al_kind hd) (al_direction hd) (al_base_delta hd) (al_quote_delta hd) spk true)
  | _ => None
  end.

#[local] Instance borsh_activity : ActivityCodec := {
  activity_to_vec a := if decide (activity_typed a) then Some (activity_bytes a) else None;
  activity_from_slice := parse_activity;
  legacy_from_slice l := match parse_head l with Some (hd, []) => Some hd | _ => None end;
}.

Lemma parse_head_bytes a r :
  activity_typed a ->
  parse_head (activity_head_bytes a ++ r)
  = Some (mkActLegacy (ac_timestamp a) (ac_txid a) (ac_kind a) (ac_direction a) (base_delta a) (quote_delta a), r).
Proof.
  intros (Hts & Htx & Hb & Hq & _). unfold parse_head, activity_head_bytes. rewrite <- !app_assoc.
  rewrite next_app by apply length_le_bytes. cbn [mbind option_bind]. rewrite next_app by done. cbn [mbind option_bind]. rewrite next_app by done. cbn [mbind option_bind].
  assert (kind_from_code [z2b (activity_kind_code (ac_kind a))] = Some (ac_kind a)) as -> by (by destruct (ac_kind a)). cbn [mbind option_bind].
  assert (forall l, next_direction (direction_bytes (ac_direction a) ++ l) = Some (ac_direction a, l)) as -> by (intros l; by destruct (ac_direction a) as [[]|]).
  cbn [mbind option_bind]. rewrite !next_app by apply length_le_bytes. cbn [mbind option_bind]. rewrite next_app by apply length_le_bytes. cbn [mbind option_bind].
  assert (Hi : forall z, in_i128 z -> to_i128 (from_le (le_bytes 16 z)) = z).
  { intros z Hz. rewrite from_le_le_bytes. change (256 ^ Z.of_nat 16) with u128_mod. rewrite <- (to_i128_id z) at 2 by done. unfold to_i128. by rewrite Zmod_mod. }
  rewrite !Hi by done. rewrite from_le_le_bytes, Z.mod_small by done. done.
Qed.

#[local] Instance borsh_activity_laws : ActivityCodecLaws.
Proof.
  split.
  - intros a Ha. cbn. rewrite decide_True by done. by eexists.
  - intros a raw E. change (parse_activity raw = Some a).
    change ((if decide (activity_typed a) then Some (activity_bytes a) else None) = Some raw) in E.
    destruct (decide (activity_typed a)) as [Ha|]; [|done]. injection E as <-. unfold parse_activity, activity_bytes.
    rewrite parse_head_bytes by done. cbn [mbind option_bind]. rewrite next_app by apply length_le_bytes. cbn [mbind option_bind].
    destruct Ha as (_ & _ & _ & _ & Hl). rewrite from_le_le_bytes, Z.mod_small by (change (256 ^ Z.of_nat 4) with (2 ^ 32); lia).
    rewrite Nat2Z.id, next_app by done. cbn [mbind option_bind]. destruct a as [? ? ? ? ? ? ? []]; done.
Defined.

#[local] Existing Instance borsh_candles.
#[local] Existing Instance borsh_candles_laws.

Definition demo_pool : SchemaAlkaneId := mkAlkaneId 2 5.
Definition demo_base : SchemaAlkaneId := mkAlkaneId 2 0.
Definition demo_quote : SchemaAlkaneId := mkAlkaneId 32 0.

Definition demo_reserves : gmap SchemaAlkaneId SchemaPoolSnapshot := {[ demo_pool := mkPoolSnapshot 1000 500 demo_base demo_quote ]}.

Definition demo_move (tag : byte) (base quote : SignedU128) : AlkaneBalanceTxEntry :=
  mkBalanceTx (replicate 32 tag) 100 {[ demo_base := base; demo_quote := quote ]}.

Definition no_others : OtherWrites := mkOthers [] [] [] [] [].

Definition demo_new_pool : SchemaAlkaneId := mkAlkaneId 2 6.

Definition demo_creation : SchemaActivityV1 := mkAct 1700000000 (replicate 32 Byte.x09) PoolCreate None 20 30 [Byte.x51] true.

(** A new pool and a sale of ten for five, then a deposit and a purchase. *)
Definition demo_block1 : AmmBlockIn :=
  mkAmmBlock 100 1700000000 {[ demo_pool := [demo_move Byte.x01 (su_positive 10) (su_negative 5)] ]} ∅
    demo_reserves (pools_map_from_snapshot demo_reserves) ∅ ∅ [(demo_new_pool, demo_creation)] tables_new no_others.

Definition demo_block2 : AmmBlockIn :=
  mkAmmBlock 101 1700000600
    {[ demo_pool := [demo_move Byte.x02 (su_positive 2) (su_positive 1); demo_move Byte.x03 (su_negative 4) (su_positive 3)] ]} ∅
    demo_reserves (pools_map_from_snapshot demo_reserves) ∅ ∅ [] tables_new no_others.

Definition demo_blocks : list AmmBlockIn := [demo_block1; demo_block2].

Lemma demo_reserves_ok : reserves_ok demo_reserves.
Proof.
  intros pool s Hs. unfold demo_reserves in Hs. apply lookup_singleton_Some in Hs as [<- <-]. split; split; vm_compute; done.
Qed.

Lemma demo_block_ok b : b ∈ demo_blocks -> block_ok b.
Proof.
  unfold demo_blocks. rewrite elem_of_cons, list_elem_of_singleton. intros Hb.
  assert (E : moves_of b = map (mkMove demo_pool (mkDefs demo_base demo_quote demo_pool)) (default [] (ab_txs b !! demo_pool)))
    by (destruct Hb as [-> | ->]; vm_compute; reflexivity).
  split.
  - destruct Hb as [-> | ->]; split; vm_compute; done.
  - destruct Hb as [-> | ->]; split; vm_compute; done.
  - rewrite E. apply Forall_forall. intros m Hm. apply list_elem_of_In, in_map_iff in Hm as (e & <- & He).
    assert (length (bt_txid e) = 32%nat).
    { destruct Hb as [-> | ->]; cbn in He; [destruct He as [<-|[]]|destruct He as [<-|[<-|[]]]]; reflexivity. }
    repeat split; try done.
  - destruct Hb as [-> | ->]; [|constructor]. apply Forall_singleton. split; [|done]. split; [split; split; vm_compute; done|].
    apply activity_codec_total. split_and!; try done; split; vm_compute; done.
  - destruct Hb as [-> | ->]; repeat constructor.
  - rewrite E. destruct Hb as [-> | ->]; reflexivity.
  - destruct Hb as [-> | ->]; apply demo_reserves_ok.
  - destruct Hb as [-> | ->]; intros pool p Hp; unfold demo_block1, demo_block2 in Hp; cbn [ab_overrides] in Hp; by rewrite lookup_empty in Hp.
  - destruct Hb as [-> | ->]; intros tx p Hp; unfold demo_block1, demo_block2 in Hp; cbn [ab_meta] in Hp; by rewrite lookup_empty in Hp.
  - destruct Hb as [-> | ->]; repeat constructor.
Qed.

Lemma demo_chain_ok : chain_ok demo_blocks.
Proof.
  split.
  - apply Forall_forall, demo_block_ok.
  - repeat constructor. intros Ht. vm_compute in Ht. done.
  - repeat constructor.
  - vm_compute. reflexivity.
Qed.

Lemma demo_index_frames : NoDup [M10] /\ M10 ∈ [M10] /\ NoDup active_timeframes.
Proof. split; [apply NoDup_singleton|]. split; [by apply list_elem_of_singleton|]. apply (bool_decide_unpack _). vm_compute. exact I. Qed.

Definition demo_ns : Namespace := default ∅ (index_amm_blocks ∅ [M10] active_timeframes ∅ demo_blocks).
Definition demo_log : list Event := demo_blocks ≫= events_of.

Lemma demo_ns_follows : amm_follows active_timeframes demo_ns (demo_blocks ≫= trades_of) demo_log (map volumes_of demo_blocks).
Proof.
  destruct demo_index_frames as (F1 & F2 & F3). destruct demo_chain_ok as [Hb Ht Hh Hc].
  destruct (amm_blocks_step ∅ [M10] active_timeframes demo_blocks ∅ [] [] [] F1 F2 F3 (empty_follows active_timeframes)) as (ns' & E & Hns').
  - constructor.
  - exact Hb.
  - exact Ht.
  - exact Hh.
  - exact Hc.
  - by intros e b ?%elem_of_nil.
  - by intros v b ?%elem_of_nil.
  - unfold demo_ns. rewrite E. exact Hns'.
Qed.

Lemma chain_indexed_witness :
  exists ns', index_amm_blocks ∅ [M10] active_timeframes ∅ demo_blocks = Some ns'
    /\ amm_follows active_timeframes ns' (demo_blocks ≫= trades_of) (demo_blocks ≫= events_of) (map volumes_of demo_blocks).
Proof.
  apply (chain_indexed ∅ [M10] active_timeframes demo_blocks ∅ (proj1 demo_index_frames) (proj1 (proj2 demo_index_frames)) (proj2 (proj2 demo_index_frames))
    (empty_follows active_timeframes) demo_chain_ok).
Defined.


Lemma volume_read_witness :
  from_option snd 0 (get_token_total_volume_at_or_before_height demo_ns demo_base 101)
    = sat (total (upto_amounts demo_base 101 (map volumes_of demo_blocks))).
Proof.
  apply (volume_read active_timeframes demo_ns (map volumes_of demo_blocks) demo_base M10 1700009999 101 (am_volume _ _ _ _ _ demo_ns_follows)).
  - split; split; vm_compute; done.
  - apply elem_of_cons. by left.
  - split; vm_compute; done.
  - split; vm_compute; done.
Defined.

Lemma reserves_follow_witness :
  reserves_snapshot (process_balance_deltas 1700000000 ∅ [M10] active_timeframes ∅ (ab_txs demo_block1) (block_state demo_block1)) !! demo_pool
  = Some (mkPoolSnapshot 1010 495 demo_base demo_quote).
Proof.
  destruct (reserves_follow ∅ [M10] active_timeframes 1700000000 ∅ (ab_txs demo_block1) (block_state demo_block1) demo_pool
    (mkPoolSnapshot 1000 500 demo_base demo_quote) demo_reserves_ok) as (s' & E & _ & K); [vm_compute; reflexivity|]. rewrite E. f_equal.
  assert (Ed : pools_map (block_state demo_block1) !! demo_pool = Some (mkDefs demo_base demo_quote demo_pool)) by (vm_compute; reflexivity).
  rewrite Ed in K. destruct K as [_ K]. apply K.
  - apply Forall_singleton. split; split; vm_compute; done.
  - intros [|[|n]] Hn; [split; split; vm_compute; done..|]. vm_compute in Hn. lia.
Defined.

(** ** Where the code falls short of its comments *)

(** The numbers start again in every block: a second block with the timestamp of the first
    overwrites its rows, while the count goes on. *)
Definition demo_block1_again : AmmBlockIn :=
  mkAmmBlock 101 1700000000 {[ demo_pool := [demo_move Byte.x04 (su_negative 7) (su_positive 4)] ]} ∅
    demo_reserves (pools_map_from_snapshot demo_reserves) ∅ ∅ [] tables_new no_others.

Example same_timestamp_overwrites :
  (fun ns => (ns !! idx_count_key demo_pool ≫= decode_u64_be, length (get_list_entries_desc ns (activity_ns_prefix demo_pool))))
    <$> index_amm_blocks ∅ [M10] active_timeframes ∅ [demo_block1; demo_block1_again] = Some (Some 2, 1%nat).
Proof. vm_compute. reflexivity. Qed.

(** A sort key of one side with the other side shown: the index is cut by the sort key's side
    and the rows are then checked against the other, so the page is empty. *)
Example mixed_sides_empty :
  (fun p => (length (ap_activity p), ap_total p)) <$> read_activity_for_pool_sorted demo_ns demo_pool 1 10 Quote AmountBaseAbs Desc SBuy FTrades
  = Some (0%nat, 1).
Proof. vm_compute. reflexivity. Qed.

(** A side is filtered for among all the activity: liquidity events are in the total and take
    places of the page, and are not shown. *)
Example filtered_total_counts_events :
  (fun p => (length (ap_activity p), ap_total p)) <$> read_activity_for_pool_sorted demo_ns demo_pool 1 10 Base Timestamp Desc SSell FAll
  = Some (1%nat, 2).
Proof. vm_compute. reflexivity. Qed.

(** The primary rows are ordered by decimal text: the tenth event of a block comes before
    the second. *)
Example decimal_order : bytes_ltb (activity_key demo_pool 1700000000 10) (activity_key demo_pool 1700000000 2) = true.
Proof. vm_compute. reflexivity. Qed.

(** A change of 2^127 or more loses its sign: receiving it empties the reserves. *)
Example large_change_loses_sign :
  signed_from_delta (Some (su_positive (2 ^ 127))) = - 2 ^ 127
  /\ apply_delta_u128 1000 (signed_from_delta (Some (su_positive (2 ^ 127)))) = 0.
Proof. vm_compute. done. Qed.
