(* ===== verification/AmmWindows.v ===== *)
(** * Trade windows

    [src/modules/ammdata/main.rs], the amounts a pool and a token have traded in the last
    day, week and month and since the beginning: the trade index of a pool is read by pages
    from the newest row down, the activity rows it names are fetched in chunks, and the
    amounts are summed; the trades of the block in progress, which are not stored yet, are
    added from the state of the block.  With the rows of
    [src/modules/ammdata/storage.rs] that say which pools a token has. *)
From stdpp Require Import strings.
From S2P Require Import Prelude Bytes RunesTransfer RunesStore RunesChain RunesInscriptions AlkTrace AmmPath AmmCandles AmmActivity AmmBlock.
From stdpp Require Import options.

Open Scope Z_scope.

Record PoolTradeWindows := mkWindows {
  token0_1d : Z;
  token1_1d : Z;
  token0_7d : Z;
  token1_7d : Z;
  token0_30d : Z;
  token1_30d : Z;
  token0_all : Z;
  token1_all : Z;
  has_all_time : bool;
}.

Definition windows_default : PoolTradeWindows := mkWindows 0 0 0 0 0 0 0 0 false.

Record TokenTradeWindows := mkTokenWindows {
  amount_1d : Z;
  amount_7d : Z;
  amount_30d : Z;
  amount_all : Z;
  block_amount : Z;
  tw_has_all_time : bool;
}.

Definition token_windows_default : TokenTradeWindows := mkTokenWindows 0 0 0 0 0 false.

Definition TRADE_WINDOW_RANGE_PAGE_LIMIT : nat := Z.to_nat 4096.

(** ** The trade index *)

Definition decode_ts_seq_from_index (prefix_len : nat) (key val : bytes) : option (Z * Z) :=
  if (length val =? 12)%nat then Some (from_be (take 8 val), from_be (drop 8 val))
  else if (prefix_len + 12 <=? length key)%nat then
    Some (from_be (take 8 (drop prefix_len key)), from_be (take 4 (drop (prefix_len + 8) key)))
  else None.

Definition activity_key_for (pool : SchemaAlkaneId) (ts seq : Z) : bytes :=
  bstr "activity:v1:" ++ to_string (ak_block pool) ++ [colon] ++ to_string (ak_tx pool) ++ [colon] ++ to_string ts ++ [colon] ++ to_string seq.

Definition trade_index_prefix (pool : SchemaAlkaneId) : bytes :=
  bstr "activity:idx:v1:" ++ to_string (ak_block pool) ++ [colon] ++ to_string (ak_tx pool) ++ bstr ":trades:ts:".

Definition trade_index_key_at_or_after (prefix : bytes) (ts : Z) : bytes := prefix ++ be_bytes 8 ts ++ be_bytes 4 0.

Definition trade_index_key_after_ts (prefix : bytes) (ts : Z) : option bytes :=
  next ← u64_checked_add ts 1; Some (prefix ++ be_bytes 8 next).

(** The rows of a range from the greatest key down, and a page of them. *)
Definition in_range (start : bytes) (end_ : option bytes) (e : bytes * bytes) : Prop :=
  bytes_leb start e.1 = true /\ match end_ with Some x => bytes_ltb e.1 x = true | None => True end.

#[global] Instance in_range_dec start end_ e : Decision (in_range start end_ e).
Proof. unfold in_range. destruct end_; apply _. Defined.

Definition range_desc (ns : Namespace) (start : bytes) (end_ : option bytes) : list (bytes * bytes) :=
  reverse (sort_by (fun a b => bytes_leb a.1 b.1) (filter (in_range start end_) (map_to_list ns))).

Definition get_list_entries_desc_range (ns : Namespace) (start_inclusive : bytes) (end_exclusive : option bytes) (limit : nat)
    : list (bytes * bytes) :=
  take limit (range_desc ns start_inclusive end_exclusive).

(** The loop over the pages, at most [fuel] of them. *)
Fixpoint recent_pages (fuel : nat) (ns : Namespace) (start_inclusive : bytes) (end_exclusive : option bytes) (limit : nat)
    (out : list (bytes * bytes)) : option (list (bytes * bytes)) :=
  match fuel with
  | O => None
  | S fuel =>
      let page := get_list_entries_desc_range ns start_inclusive end_exclusive limit in
      match page with
      | [] => Some out
      | _ =>
          let page_len := length page in
          let end_exclusive := fst <$> last page in
          let out := out ++ page in
          if (page_len <? limit)%nat then Some out
          else recent_pages fuel ns start_inclusive end_exclusive limit out
      end
  end.

(** One round more than there are rows is enough. *)
Definition recent_trade_index_entries (ns : Namespace) (prefix : bytes) (start_ts end_ts : Z) : option (list (bytes * bytes)) :=
  recent_pages (S (size ns)) ns (trade_index_key_at_or_after prefix start_ts) (trade_index_key_after_ts prefix end_ts)
    TRADE_WINDOW_RANGE_PAGE_LIMIT [].

(** ** The windows of a pool *)

Definition u64_sat_sub (a b : Z) : Z := Z.max 0 (a - b).

Fixpoint collect_refs (prefix : bytes) (full_history : bool) (start_30d : Z) (entries : list (bytes * bytes)) : list (Z * Z) :=
  match entries with
  | [] => []
  | (k, v) :: entries =>
      if negb (starts_with k prefix) then collect_refs prefix full_history start_30d entries
      else
        match decode_ts_seq_from_index (length prefix) k v with
        | None => collect_refs prefix full_history start_30d entries
        | Some (ts, seq) =>
            if negb full_history && (ts <? start_30d) then []
            else (ts, seq) :: collect_refs prefix full_history start_30d entries
        end
  end.

(** [l.chunks(n)] *)
Fixpoint chunks_upto {A} (rounds : nat) (n : nat) (l : list A) : list (list A) :=
  match rounds, l with
  | S rounds, _ :: _ => take n l :: chunks_upto rounds n (drop n l)
  | _, _ => []
  end.

Definition chunks {A} (n : nat) (l : list A) : list (list A) := chunks_upto (length l) n l.

(** The amounts of a trade at [ts] in the windows it falls into. *)
Definition count_amounts (full_history : bool) (start_1d start_7d start_30d ts base_abs quote_abs : Z) (out : PoolTradeWindows) : PoolTradeWindows :=
  let add b x y := if b : bool then u128_sat_add x y else x in
  mkWindows
    (add (start_1d <=? ts) (token0_1d out) base_abs) (add (start_1d <=? ts) (token1_1d out) quote_abs)
    (add (start_7d <=? ts) (token0_7d out) base_abs) (add (start_7d <=? ts) (token1_7d out) quote_abs)
    (add (start_30d <=? ts) (token0_30d out) base_abs) (add (start_30d <=? ts) (token1_30d out) quote_abs)
    (add full_history (token0_all out) base_abs) (add full_history (token1_all out) quote_abs)
    (has_all_time out).

(** Borsh: [SchemaMarketDefs::try_from_slice]. *)
Class MarketDefsCodec := { market_defs_from_slice : bytes -> option SchemaMarketDefs }.

Section Codec.
Context `{ActivityCodec}.

(** A row that was fetched: absent and unreadable ones are skipped. *)
Definition count_row_value (full_history : bool) (start_1d start_7d start_30d : Z) (out : PoolTradeWindows) (e : (Z * Z) * option bytes)
    : PoolTradeWindows :=
  match e.2 ≫= decode_activity_v1 with
  | None => out
  | Some activity =>
      if negb (is_trade (ac_kind activity)) then out
      else count_amounts full_history start_1d start_7d start_30d e.1.1 (abs_i128 (base_delta activity)) (abs_i128 (quote_delta activity)) out
  end.

Definition count_chunk (ns : Namespace) (pool : SchemaAlkaneId) (full_history : bool) (start_1d start_7d start_30d : Z)
    (out : PoolTradeWindows) (chunk : list (Z * Z)) : PoolTradeWindows :=
  let keys := map (fun p => activity_key_for pool p.1 p.2) chunk in
  let values := map (fun k => ns !! k) keys in
  foldl (count_row_value full_history start_1d start_7d start_30d) out (zip chunk values).

Definition set_all_time (out : PoolTradeWindows) (full_history : bool) : PoolTradeWindows :=
  mkWindows (token0_1d out) (token1_1d out) (token0_7d out) (token1_7d out) (token0_30d out) (token1_30d out) (token0_all out) (token1_all out)
    full_history.

(** The windows with the cache they are remembered in. *)
Definition pool_trade_windows (ns : Namespace) (pool : SchemaAlkaneId) (now_ts : Z) (in_block : gmap SchemaAlkaneId (Z * Z))
    (cache : gmap SchemaAlkaneId PoolTradeWindows) (full_history : bool)
    : option (PoolTradeWindows * gmap SchemaAlkaneId PoolTradeWindows) :=
  let fresh :=
    let start_1d := u64_sat_sub now_ts (24 * 60 * 60) in
    let start_7d := u64_sat_sub now_ts (7 * 24 * 60 * 60) in
    let start_30d := u64_sat_sub now_ts (30 * 24 * 60 * 60) in
    let prefix := trade_index_prefix pool in
    entries ← (if full_history then Some (get_list_entries_desc ns prefix) else recent_trade_index_entries ns prefix start_30d now_ts);
    let activity_refs := collect_refs prefix full_history start_30d entries in
    let out :=
      foldl (count_chunk ns pool full_history start_1d start_7d start_30d) windows_default (chunks TRADE_WINDOW_RANGE_PAGE_LIMIT activity_refs) in
    let out :=
      match in_block !! pool with
      | Some (base_abs, quote_abs) => count_amounts full_history start_1d start_7d start_30d now_ts base_abs quote_abs out
      | None => out
      end in
    let out := set_all_time out full_history in
    Some (out, <[pool := out]> cache) in
  match cache !! pool with
  | Some cached => if negb full_history || has_all_time cached then Some (cached, cache) else fresh
  | None => fresh
  end.

(** ** The windows of a token *)

Context `{MarketDefsCodec}.

Definition token_pools_prefix (token : SchemaAlkaneId) : bytes := bstr "/token_pools/v1/" ++ id_be token.
Definition token_pools_key (token pool : SchemaAlkaneId) : bytes := token_pools_prefix token ++ id_be pool.
Definition pools_key (pool : SchemaAlkaneId) : bytes := bstr "/pools/" ++ id_be pool.

Definition decode_alkane_id_be (b : bytes) : option SchemaAlkaneId :=
  if negb (length b =? 12)%nat then None else Some (mkAlkaneId (from_be (take 4 b)) (from_be (drop 4 b))).

Definition get_list_keys_by_prefix (ns : Namespace) (prefix : bytes) : list bytes :=
  sort_by bytes_leb (filter (fun k => starts_with k prefix = true) (map_to_list ns).*1).

Definition get_token_pools (ns : Namespace) (token : SchemaAlkaneId) : list SchemaAlkaneId :=
  let prefix := token_pools_prefix token in
  omap (fun key => if negb (starts_with key prefix) then None else decode_alkane_id_be (drop (length prefix) key))
    (get_list_keys_by_prefix ns prefix).

Definition get_pool_defs (ns : Namespace) (pool : SchemaAlkaneId) : option SchemaMarketDefs := ns !! pools_key pool ≫= market_defs_from_slice.

(** One pool of the token: its windows of the token's side. *)
Definition count_pool (ns : Namespace) (pools_map : gmap SchemaAlkaneId SchemaMarketDefs) (token : SchemaAlkaneId) (now_ts : Z)
    (in_block : gmap SchemaAlkaneId (Z * Z)) (full_history : bool)
    (acc : option (TokenTradeWindows * gmap SchemaAlkaneId PoolTradeWindows)) (pool : SchemaAlkaneId)
    : option (TokenTradeWindows * gmap SchemaAlkaneId PoolTradeWindows) :=
  '(out, pool_cache) ← acc;
  match (match pools_map !! pool with Some defs => Some defs | None => get_pool_defs ns pool end) with
  | None => Some (out, pool_cache)
  | Some defs =>
      let token_is_base := bool_decide (base_alkane_id defs = token) in
      let token_is_quote := bool_decide (quote_alkane_id defs = token) in
      if negb token_is_base && negb token_is_quote then Some (out, pool_cache)
      else
        '(w, pool_cache) ← pool_trade_windows ns pool now_ts in_block pool_cache full_history;
        let block_amt :=
          match in_block !! pool with
          | Some (base_abs, quote_abs) => u128_sat_add (block_amount out) (if token_is_base then base_abs else quote_abs)
          | None => block_amount out
          end in
        let side (x y : Z) := if token_is_base then x else y in
        Some (mkTokenWindows
                (u128_sat_add (amount_1d out) (side (token0_1d w) (token1_1d w)))
                (u128_sat_add (amount_7d out) (side (token0_7d w) (token1_7d w)))
                (u128_sat_add (amount_30d out) (side (token0_30d w) (token1_30d w)))
                (if full_history then u128_sat_add (amount_all out) (side (token0_all w) (token1_all w)) else amount_all out)
                block_amt (tw_has_all_time out), pool_cache)
  end.

Definition token_trade_windows (ns : Namespace) (pools_map : gmap SchemaAlkaneId SchemaMarketDefs) (token : SchemaAlkaneId) (now_ts : Z)
    (in_block : gmap SchemaAlkaneId (Z * Z)) (pool_cache : gmap SchemaAlkaneId PoolTradeWindows) (full_history : bool)
    : option (TokenTradeWindows * gmap SchemaAlkaneId PoolTradeWindows) :=
  '(out, pool_cache) ← foldl (count_pool ns pools_map token now_ts in_block full_history) (Some (token_windows_default, pool_cache)) (get_token_pools ns token);
  Some (mkTokenWindows (amount_1d out) (amount_7d out) (amount_30d out) (amount_all out) (block_amount out) full_history, pool_cache).

End Codec.
