(* ===== verification/AmmWindowsProps.v ===== *)
(** * Trade windows: lemmas

    The pages of a range put together are the range; the rows of the trade index within a
    time range are the trades of the log within it; and the windows of a pool and of a
    token are their sums. *)
From stdpp Require Import strings.
From S2P Require Import Prelude Bytes Rocks RunesTransfer RunesStore RunesChain RunesInscriptions AlkTrace.
From S2P Require Import AmmPath AmmCandles AmmCandlesProps AmmChart AmmActivity AmmActivityProps AmmVolume AmmBlock AmmBlockProps AmmLog AmmVolumeProps AmmWindows.
From S2P Require Import AlkSheets AmmClaims AmmIndex AmmIndexClaims.
From stdpp Require Import options.
Open Scope Z_scope.

(** ** Pages of a range *)

Lemma in_range_iff s e p : in_range s e p <-> s <=b p.1 /\ match e with Some x => p.1 <b x | None => True end.
Proof. unfold in_range, bytes_leb. rewrite negb_true_iff. unfold ble, blt. by destruct e. Qed.

Lemma range_desc_elem ns s e k v : (k, v) ∈ range_desc ns s e <-> ns !! k = Some v /\ in_range s e (k, v).
Proof. unfold range_desc. rewrite elem_of_reverse, sort_by_perm, list_elem_of_filter, elem_of_map_to_list. tauto. Qed.

Lemma range_desc_sorted ns s e : sorted_entries (reverse (range_desc ns s e)).
Proof.
  unfold range_desc. rewrite reverse_involutive. apply (sort_bytes_strict fst), NoDup_fmap_fst; [|apply NoDup_filter, NoDup_map_to_list].
  intros k v1 v2 [_ H1]%list_elem_of_filter [_ H2]%list_elem_of_filter. apply elem_of_map_to_list in H1, H2. congruence.
Qed.

(** A sorted list of the rows of the range is the range. *)
Lemma range_desc_unique ns s e l :
  sorted_entries l -> (forall k v, (k, v) ∈ l <-> ns !! k = Some v /\ in_range s e (k, v)) -> range_desc ns s e = reverse l.
Proof.
  intros Hs Hin. rewrite <- (reverse_involutive (range_desc ns s e)). f_equal. apply sorted_entries_ext; [apply range_desc_sorted|done|].
  intros [k v]. by rewrite elem_of_reverse, range_desc_elem, Hin.
Qed.

(** The range below a row of it is what follows the row. *)
Lemma range_desc_below ns s e l1 p l2 : range_desc ns s e = l1 ++ p :: l2 -> range_desc ns s (Some p.1) = l2.
Proof.
  intros E. rewrite <- (reverse_involutive l2). pose proof (range_desc_sorted ns s e) as Hs. rewrite E, reverse_app, reverse_cons in Hs.
  apply StronglySorted_app in Hs as (Hlt1 & Hs & _). apply StronglySorted_app in Hs as (Hlt2 & Hs & _).
  assert (Hp : p.1 <b p.1 -> False) by (intros K; by apply blt_irrefl in K).
  apply range_desc_unique; [done|]. intros k v. rewrite elem_of_reverse.
  assert (Hall : forall k v, (k, v) ∈ l1 ++ p :: l2 <-> ns !! k = Some v /\ in_range s e (k, v)) by (intros; by rewrite <- E, range_desc_elem).
  rewrite in_range_iff. cbn [fst]. split.
  - intros Hin. destruct (Hall k v) as [K _]. destruct K as [Hv [Hl _]%in_range_iff]; [set_solver|]. split_and!; [done|done|].
    apply (Hlt2 (k, v) p); [by apply elem_of_reverse|by apply list_elem_of_singleton].
  - intros (Hv & Hl & Hu). assert (Hin : (k, v) ∈ l1 ++ p :: l2).
    { apply Hall. split; [done|]. apply in_range_iff. split; [done|]. destruct e as [x|]; [|done]. cbn [fst]. eapply blt_trans; [exact Hu|].
      destruct p as [kp vp]. destruct (Hall kp vp) as [K _]. destruct K as [_ [_ K]%in_range_iff]; [set_solver|done]. }
    apply elem_of_app in Hin as [Hin|[Ep|Hin]%elem_of_cons]; [|exfalso; subst p; by apply Hp|done]. exfalso. apply Hp. eapply blt_trans; [|exact Hu].
    apply (Hlt1 p (k, v)); [|by apply elem_of_reverse]. apply elem_of_app. right. by apply list_elem_of_singleton.
Qed.

(** The pages of a range, put together, are the range. *)
Lemma recent_pages_spec fuel ns s e limit out :
  (0 < limit)%nat -> (length (range_desc ns s e) < fuel)%nat -> recent_pages fuel ns s e limit out = Some (out ++ range_desc ns s e).
Proof.
  intros Hlim. revert e out. induction fuel as [|fuel IH]; intros e out Hf; [lia|]. cbn [recent_pages]. unfold get_list_entries_desc_range.
  destruct (take limit (range_desc ns s e)) as [|p0 page0] eqn:Ep.
  { assert (range_desc ns s e = []) as -> by (destruct limit; [lia|]; by destruct (range_desc ns s e)). by rewrite app_nil_r. }
  rewrite <- Ep. destruct (Nat.ltb_spec (length (take limit (range_desc ns s e))) limit) as [Hlt|Hge].
  - rewrite length_take in Hlt. by rewrite take_ge by lia.
  - destruct (exists_last (l := take limit (range_desc ns s e))) as (l1 & p & El); [by rewrite Ep|].
    assert (E : range_desc ns s e = l1 ++ p :: drop limit (range_desc ns s e)) by (by rewrite <- (take_drop limit (range_desc ns s e)) at 1; rewrite El, <- app_assoc).
    apply range_desc_below in E. rewrite El, last_snoc. cbn [fmap option_fmap option_map].
    rewrite IH by (rewrite E, length_drop; rewrite length_take in Hge; lia). by rewrite E, <- El, <- app_assoc, take_drop.
Qed.

Lemma range_desc_size ns s e : (length (range_desc ns s e) < S (size ns))%nat.
Proof.
  unfold range_desc. rewrite length_reverse, sort_by_perm. pose proof (length_filter (in_range s e) (map_to_list ns)) as Hl.
  rewrite length_map_to_list in Hl. lia.
Qed.

(** ** The trades of a time range *)

(** The trades of a pool between two times, both included. *)
Definition trades_within (pool : SchemaAlkaneId) (from to : Z) (e : Event) : Prop :=
  of_group pool (Some GTrades) e /\ from <= ev_ts e <= to.

#[global] Instance trades_within_dec pool from to e : Decision (trades_within pool from to e).
Proof. unfold trades_within. apply _. Defined.

Definition trade_row (e : Event) : bytes * bytes := (idx_key (Some GTrades) Timestamp e, idx_val e).

Lemma trade_prefix_idx pool : trade_index_prefix pool = idx_prefix_for pool Timestamp (Some GTrades).
Proof. cbn [idx_prefix_for]. unfold trade_index_prefix, idx_prefix_ts, idx_ns_prefix, id_decimal. by rewrite <- !app_assoc. Qed.

Lemma activity_key_for_eq pool ts sq : activity_key_for pool ts sq = activity_key pool ts sq.
Proof. unfold activity_key_for, activity_key, activity_ns_prefix, id_decimal. by rewrite <- !app_assoc. Qed.

Lemma trade_key e : idx_key (Some GTrades) Timestamp e = trade_index_prefix (ev_pool e) ++ idx_val e.
Proof. rewrite trade_prefix_idx. done. Qed.

Lemma decode_trade_row n e key : event_num e -> decode_ts_seq_from_index n key (idx_val e) = Some (pair_of e).
Proof.
  intros He. pose proof (decode_idx_val e key He) as E. unfold decode_ts_seq_from_entry in E. unfold decode_ts_seq_from_index.
  assert (length (idx_val e) = 12%nat) as Hl by (unfold idx_val, be_u64, be_u32; by rewrite length_app, !length_be_bytes). by rewrite Hl in *.
Qed.

(** The keys of a range of times. *)
Lemma trade_key_range pool from to e :
  event_num e -> ev_pool e = pool -> in_u64 from -> in_u64 to -> to + 1 < 2 ^ 64 ->
  in_range (trade_index_key_at_or_after (trade_index_prefix pool) from) (trade_index_key_after_ts (trade_index_prefix pool) to) (trade_row e)
  <-> from <= ev_ts e <= to.
Proof.
  intros (_ & Ht & Hs) <- Hf Hto Hlast. rewrite in_range_iff. unfold trade_row, trade_index_key_at_or_after, trade_index_key_after_ts, u64_checked_add.
  rewrite trade_key. cbn [fst]. destruct (Z.ltb_spec (to + 1) (2 ^ 64)); [|lia]. cbn [mbind option_bind]. unfold idx_val, be_u64, be_u32.
  assert (Hnext : in_u64 (to + 1)) by (unfold in_u64 in *; lia).
  rewrite blt_app, <- (app_nil_r (be_bytes 8 (to + 1))), field_lex by done. rewrite ble_app. split.
  - intros [Hlo [Hhi|[_ K]]]; [|by destruct (be_bytes 4 (ev_seq e))]. split; [|lia]. destruct (Z_lt_le_dec (ev_ts e) from) as [Hlt|]; [|done].
    exfalso. eapply blt_not_ble; [|exact Hlo]. apply field_lex; [done..|]. by left.
  - intros [Hlo Hhi]. split; [|left; lia]. destruct (decide (from = ev_ts e)) as [->|Hne].
    + apply ble_app. apply ble_lteq. destruct (decide (ev_seq e = 0)) as [->|]; [by right|]. left. apply be_bytes_lt; [unfold in_u32 in *; lia|done|unfold in_u32 in *; lia].
    + apply blt_ble, field_lex; [done..|]. left. lia.
Qed.

Lemma map_reverse {A B} (f : A -> B) l : map f (reverse l) = reverse (map f l).
Proof. apply fmap_reverse. Qed.

Lemma sorted_map_rows l : StronglySorted (fun a b => (trade_row a).1 <b (trade_row b).1) l -> sorted_entries (map trade_row l).
Proof. induction 1 as [|e l Hs IH Hall]; cbn; [constructor|]. constructor; [done|]. by apply Forall_map. Qed.

Section Trades.
Set Default Proof Using "Type*".
Context `{ActivityCodecLaws}.
Context (ns : Namespace) (log : list Event) (Hf : activity_follows ns log) (pool : SchemaAlkaneId) (Hp : id_ok pool).

Lemma within_in from to e : e ∈ filter (trades_within pool from to) log -> event_num e /\ ev_pool e = pool /\ e ∈ log.
Proof. intros [[[? _] _] He]%list_elem_of_filter. split; [by eapply event_num_in|done]. Qed.

(** The rows of the index between two times are those of the trades between them. *)
Lemma trade_row_iff from to key v :
  in_u64 from -> in_u64 to -> to + 1 < 2 ^ 64 ->
  (ns !! key = Some v
   /\ in_range (trade_index_key_at_or_after (trade_index_prefix pool) from) (trade_index_key_after_ts (trade_index_prefix pool) to) (key, v))
  <-> exists e, e ∈ filter (trades_within pool from to) log /\ (key, v) = trade_row e.
Proof.
  intros Hfr Hto Hl. pose proof (index_row_iff ns log pool (Some GTrades) Timestamp None key v Hf Hp I) as Hrow.
  cbn [fixed_bytes] in Hrow. rewrite app_nil_r, <- trade_prefix_idx in Hrow. split.
  - intros [Hv Hr]. pose proof Hr as [Hlo Hhi]%in_range_iff. unfold trade_index_key_after_ts, u64_checked_add in Hhi.
    destruct (Z.ltb_spec (to + 1) (2 ^ 64)); [|lia]. cbn [mbind option_bind fst] in Hhi. unfold trade_index_key_at_or_after in Hlo. cbn [fst] in Hlo.
    destruct (between_prefix (trade_index_prefix pool) (be_bytes 8 (to + 1)) key) as (r & -> & _); [|done|].
    { eapply ble_trans; [|exact Hlo]. rewrite <- (app_nil_r (trade_index_prefix pool)) at 1. rewrite ble_app. done. }
    destruct Hrow as [Hrow _]. destruct Hrow as (e & [He [Hg _]] & Ek & ->); [split; [done|apply starts_with_app]|].
    exists e. rewrite Ek in Hr |- *. split; [|done]. apply list_elem_of_filter. split; [|done]. split; [done|].
    apply (trade_key_range pool from to e) in Hr; [done|by eapply event_num_in|apply Hg|done..].
  - intros (e & He & [= -> ->]). pose proof (within_in _ _ _ He) as (Hn & Hpe & Hin). apply list_elem_of_filter in He as [[Hg Hts] _]. split.
    + apply Hrow. by exists e.
    + by apply (trade_key_range pool from to e).
Qed.

Lemma trade_range from to :
  in_u64 from -> in_u64 to -> to + 1 < 2 ^ 64 ->
  exists l, l ≡ₚ filter (trades_within pool from to) log
    /\ range_desc ns (trade_index_key_at_or_after (trade_index_prefix pool) from) (trade_index_key_after_ts (trade_index_prefix pool) to)
       = map trade_row l.
Proof.
  intros Hfr Hto Hl. set (M := filter (trades_within pool from to) log).
  set (l := sort_by (fun a b => bytes_leb (trade_row a).1 (trade_row b).1) M). exists (reverse l).
  split; [rewrite reverse_Permutation; apply sort_by_perm|]. rewrite map_reverse. apply range_desc_unique.
  - apply sorted_map_rows. apply (sort_bytes_strict (fun e => (trade_row e).1)), NoDup_fmap_2_strong.
    + intros e e' (Hn & _ & He)%within_in (Hn' & _ & He')%within_in E. apply idx_key_inj in E as [E _]; [|done..]. eapply log_inj; [apply Hf|done..].
    + apply NoDup_filter. eapply NoDup_fmap_1, Hf.
  - intros k v. rewrite trade_row_iff by done. rewrite list_elem_of_fmap. unfold l. setoid_rewrite sort_by_perm. naive_solver.
Qed.

End Trades.

(** ** Counting *)

Lemma concat_chunks_upto {A} n rounds (l : list A) : (0 < n)%nat -> (length l <= rounds)%nat -> concat (chunks_upto rounds n l) = l.
Proof.
  intros Hn. revert l. induction rounds as [|rounds IH]; intros l Hl; [by destruct l; cbn in *; [|lia]|].
  destruct l as [|x l]; [done|]. cbn [chunks_upto concat]. rewrite IH by (rewrite length_drop; cbn in *; lia). apply take_drop.
Qed.

Lemma concat_chunks {A} n (l : list A) : (0 < n)%nat -> concat (chunks n l) = l.
Proof. intros Hn. by apply concat_chunks_upto. Qed.

Lemma foldl_concat {A B} (f : B -> A -> B) b ls : foldl f b (concat ls) = foldl (fun b l => foldl f b l) b ls.
Proof. revert b. induction ls as [|l ls IH]; intros b; [done|]. cbn. by rewrite foldl_app, IH. Qed.

Lemma zip_map {A B} (f : A -> B) l : zip l (map f l) = map (fun x => (x, f x)) l.
Proof. induction l as [|x l IH]; cbn; [done|]. by rewrite IH. Qed.

Lemma foldl_map {A B C} (f : C -> B -> C) (g : A -> B) l c : foldl f c (map g l) = foldl (fun c x => f c (g x)) c l.
Proof. revert c. induction l as [|x l IH]; intros c; cbn; [done|]. apply IH. Qed.

Lemma foldl_ext_in {A B} (f g : B -> A -> B) l b : (forall b x, x ∈ l -> f b x = g b x) -> foldl f b l = foldl g b l.
Proof.
  revert b. induction l as [|x l IH]; intros b Heq; cbn; [done|]. rewrite Heq by (apply elem_of_cons; by left). apply IH.
  intros b' y Hy. apply Heq. apply elem_of_cons. by right.
Qed.

Lemma filter_iff_in {A} (P Q : A -> Prop) `{!forall x, Decision (P x)} `{!forall x, Decision (Q x)} (l : list A) :
  (forall x, x ∈ l -> P x <-> Q x) -> filter P l = filter Q l.
Proof.
  induction l as [|x l IH]; intros Heq; [done|]. rewrite !filter_cons, IH by (intros y Hy; apply Heq, elem_of_cons; by right).
  destruct (Heq x) as [H1 H2]; [apply elem_of_cons; by left|]. destruct (decide (P x)), (decide (Q x)); tauto.
Qed.

Lemma filter_keeps_all {A} (P : A -> Prop) `{!forall x, Decision (P x)} (l : list A) : Forall P l -> filter P l = l.
Proof. induction 1 as [|x l Hx _ IH]; [done|]. rewrite filter_cons_True by done. by rewrite IH. Qed.

(** What a trade moved on a side. *)
Definition traded (side : PriceSide) (e : Event) : Z := abs_i128 (side_delta side (ev_act e)).

Definition since (from : Z) (side : PriceSide) (l : list Event) : Z := total (traded side <$> filter (fun e => from <= ev_ts e) l).

Definition count_event (full : bool) (s1 s7 s30 : Z) (out : PoolTradeWindows) (e : Event) : PoolTradeWindows :=
  count_amounts full s1 s7 s30 (ev_ts e) (traded Base e) (traded Quote e) out.

Definition counted (full : bool) (s1 s7 s30 : Z) (l : list Event) : PoolTradeWindows :=
  mkWindows (sat (since s1 Base l)) (sat (since s1 Quote l)) (sat (since s7 Base l)) (sat (since s7 Quote l))
    (sat (since s30 Base l)) (sat (since s30 Quote l))
    (if full then sat (total (traded Base <$> l)) else 0) (if full then sat (total (traded Quote <$> l)) else 0) false.

Lemma traded_nonneg side e : 0 <= traded side e.
Proof. apply abs_i128_range. Qed.

Lemma total_traded_nonneg side l : 0 <= total (traded side <$> l).
Proof. induction l as [|e l IH]; cbn; [done|]. pose proof (traded_nonneg side e). unfold total in IH. lia. Qed.

Lemma since_snoc from side l e : since from side (l ++ [e]) = since from side l + if from <=? ev_ts e then traded side e else 0.
Proof.
  unfold since. rewrite filter_app, fmap_app, total_app, filter_cons, filter_nil.
  destruct (Z.leb_spec from (ev_ts e)); [rewrite decide_True by lia|rewrite decide_False by lia]; cbn; lia.
Qed.

Lemma sat_since from side l e :
  (if from <=? ev_ts e then u128_sat_add (sat (since from side l)) (traded side e) else sat (since from side l)) = sat (since from side (l ++ [e])).
Proof.
  rewrite since_snoc. pose proof (traded_nonneg side e). pose proof (total_traded_nonneg side (filter (fun e => from <= ev_ts e) l)).
  destruct (from <=? ev_ts e); [by apply sat_add|by rewrite Z.add_0_r].
Qed.

Lemma sat_total_snoc side l e : u128_sat_add (sat (total (traded side <$> l))) (traded side e) = sat (total (traded side <$> l ++ [e])).
Proof.
  rewrite sat_add by (apply traded_nonneg || apply total_traded_nonneg). rewrite fmap_app, total_app. cbn. by rewrite Z.add_0_r.
Qed.

Lemma count_events full s1 s7 s30 l : foldl (count_event full s1 s7 s30) windows_default l = counted full s1 s7 s30 l.
Proof.
  induction l as [|e l IH] using rev_ind; [by destruct full|]. rewrite foldl_app, IH. cbn [foldl]. unfold count_event, count_amounts, counted.
  cbn [token0_1d token1_1d token0_7d token1_7d token0_30d token1_30d token0_all token1_all has_all_time].
  rewrite !sat_since. destruct full; [by rewrite !sat_total_snoc|done].
Qed.

(** ** The windows of a pool *)

(** What a pool's trades moved on a side between two times. *)
Definition moved_within (pool : SchemaAlkaneId) (side : PriceSide) (from to : Z) (log : list Event) : Z :=
  total (traded side <$> filter (trades_within pool from to) log).

Definition of_side (side : PriceSide) (amounts : Z * Z) : Z := match side with Base => amounts.1 | Quote => amounts.2 end.

Definition day : Z := 24 * 60 * 60.

(** The windows as sums: without the full history trades after [now] do not count. *)
Definition pool_windows (full : bool) (now : Z) (in_block : gmap SchemaAlkaneId (Z * Z)) (log : list Event) (pool : SchemaAlkaneId) : PoolTradeWindows :=
  let to := if full then 2 ^ 64 - 1 else now in
  let amount side from := sat (moved_within pool side from to log + of_side side (default (0, 0) (in_block !! pool))) in
  mkWindows (amount Base (u64_sat_sub now day)) (amount Quote (u64_sat_sub now day))
    (amount Base (u64_sat_sub now (7 * day))) (amount Quote (u64_sat_sub now (7 * day)))
    (amount Base (u64_sat_sub now (30 * day))) (amount Quote (u64_sat_sub now (30 * day)))
    (if full then amount Base 0 else 0) (if full then amount Quote 0 else 0) full.

Definition in_block_ok (in_block : gmap SchemaAlkaneId (Z * Z)) : Prop :=
  forall pool p, in_block !! pool = Some p -> in_u128 p.1 /\ in_u128 p.2.

Lemma collect_refs_rows full s30 pool l :
  Forall (fun e => event_num e /\ ev_pool e = pool) l -> (full = false -> Forall (fun e => s30 <= ev_ts e) l) ->
  collect_refs (trade_index_prefix pool) full s30 (map trade_row l) = map pair_of l.
Proof.
  induction 1 as [|e l [He <-] Hl IH]; intros Hts; [done|]. cbn [map]. unfold trade_row at 1. cbn [collect_refs].
  rewrite trade_key, starts_with_app. cbn [negb]. rewrite decode_trade_row by done. unfold pair_of at 1.
  assert (negb full && (ev_ts e <? s30) = false) as ->.
  { destruct full; [done|]. destruct (Z.ltb_spec (ev_ts e) s30); [|done]. specialize (Hts eq_refl). apply Forall_cons in Hts as [? _]. lia. }
  f_equal. apply IH. intros Ef. by apply Hts, Forall_cons in Ef as [_ ?].
Qed.

Section Windows.
Set Default Proof Using "Type*".
Context `{ActivityCodecLaws}.
Context (ns : Namespace) (log : list Event) (Hf : activity_follows ns log) (pool : SchemaAlkaneId) (Hp : id_ok pool).

Definition traded_here (l : list Event) : Prop := Forall (fun e => e ∈ log /\ of_group pool (Some GTrades) e) l.

Lemma count_ref full s1 s7 s30 out e :
  e ∈ log -> of_group pool (Some GTrades) e ->
  count_row_value full s1 s7 s30 out (pair_of e, ns !! activity_key_for pool (pair_of e).1 (pair_of e).2) = count_event full s1 s7 s30 out e.
Proof.
  intros He [<- Hg]. unfold pair_of. cbn [fst snd]. rewrite activity_key_for_eq. unfold count_row_value. cbn [snd fst].
  rewrite (af_rows _ _ Hf e (primary_row e) He ltac:(apply event_rows_elem; by left) : ns !! activity_key (ev_pool e) (ev_ts e) (ev_seq e) = _).
  pose proof (af_ok _ _ Hf) as Hok. rewrite Forall_forall in Hok. destruct (decode_primary e (Hok _ He)) as (raw & E & D).
  cbn [primary_row snd]. rewrite E. cbn [default from_option mbind option_bind id]. rewrite D. unfold ev_group in Hg. by destruct (ac_kind (ev_act e)).
Qed.

Lemma count_refs full s1 s7 s30 l :
  traded_here l ->
  foldl (count_chunk ns pool full s1 s7 s30) windows_default (chunks TRADE_WINDOW_RANGE_PAGE_LIMIT (map pair_of l)) = counted full s1 s7 s30 l.
Proof.
  intros Hl. unfold count_chunk. rewrite (foldl_ext_in _ (fun out chunk => foldl (fun out p => count_row_value full s1 s7 s30 out (p, ns !! activity_key_for pool p.1 p.2)) out chunk)).
  2: { intros b chunk _. by rewrite map_map, zip_map, foldl_map. }
  rewrite <- foldl_concat, concat_chunks by (unfold TRADE_WINDOW_RANGE_PAGE_LIMIT; lia). rewrite foldl_map, <- count_events.
  apply foldl_ext_in. intros out e He. unfold traded_here in Hl. rewrite Forall_forall in Hl. destruct (Hl _ He) as [Hin Hg]. by apply count_ref.
Qed.

(** The rows that are counted, with and without the full history. *)
Definition counted_rows (full : bool) (now : Z) : option (list (bytes * bytes)) :=
  let prefix := trade_index_prefix pool in
  if full then Some (get_list_entries_desc ns prefix) else recent_trade_index_entries ns prefix (u64_sat_sub now (30 * day)) now.

Lemma counted_rows_spec full now :
  in_u64 now -> now + 1 < 2 ^ 64 ->
  exists l, counted_rows full now = Some (map trade_row l) /\ traded_here l /\ (full = false -> Forall (fun e => u64_sat_sub now (30 * day) <= ev_ts e) l)
    /\ forall from, 0 <= from -> (full = false -> u64_sat_sub now (30 * day) <= from) ->
         filter (fun e => from <= ev_ts e) l ≡ₚ filter (trades_within pool from (if full then 2 ^ 64 - 1 else now)) log.
Proof.
  intros Hnow Hlast. unfold counted_rows. destruct full.
  - destruct (index_scan ns log pool (Some GTrades) Timestamp None Hf Hp I) as (l & Hperm & _ & E). cbn [fixed_bytes] in E. rewrite app_nil_r, <- trade_prefix_idx in E.
    exists (reverse l). rewrite map_reverse. split; [by rewrite E|]. assert (Hl : forall e, e ∈ reverse l <-> e ∈ filter (selected pool (Some GTrades) Timestamp None) log).
    { intros e. by rewrite elem_of_reverse, Hperm. }
    split; [apply Forall_forall; intros e [[Hg _] He]%Hl%list_elem_of_filter; done|]. split; [done|].
    intros from Hfrom _. rewrite reverse_Permutation, Hperm, list_filter_filter. apply reflexive_eq, filter_iff_in.
    intros e He. unfold selected, trades_within. pose proof (event_num_in _ _ _ Hf He) as (_ & Ht & _). unfold in_u64 in Ht. intuition lia.
  - unfold recent_trade_index_entries. rewrite recent_pages_spec; [|unfold TRADE_WINDOW_RANGE_PAGE_LIMIT; lia|apply range_desc_size]. cbn [app].
    destruct (trade_range ns log Hf pool Hp (u64_sat_sub now (30 * day)) now) as (l & Hperm & E); [unfold u64_sat_sub, in_u64, day in *; lia|done|done|].
    exists l. rewrite E. split; [done|]. split; [|split].
    + apply Forall_forall. intros e He. rewrite Hperm in He. by apply list_elem_of_filter in He as [[Hg _] ?].
    + intros _. apply Forall_forall. intros e He. rewrite Hperm in He. by apply list_elem_of_filter in He as [[_ [? _]] _].
    + intros from _ Hfrom. specialize (Hfrom eq_refl). rewrite Hperm, list_filter_filter. apply reflexive_eq, filter_iff_in.
      intros e He. unfold trades_within. intuition lia.
Qed.

(** The amounts of the block in progress on top. *)
Lemma counted_in_block full now in_block l :
  in_u64 now -> in_block_ok in_block -> traded_here l ->
  (forall from, 0 <= from -> (full = false -> u64_sat_sub now (30 * day) <= from) ->
     filter (fun e => from <= ev_ts e) l ≡ₚ filter (trades_within pool from (if full then 2 ^ 64 - 1 else now)) log) ->
  let s1 := u64_sat_sub now day in let s7 := u64_sat_sub now (7 * day) in let s30 := u64_sat_sub now (30 * day) in
  set_all_time
    match in_block !! pool with
    | Some (base_abs, quote_abs) => count_amounts full s1 s7 s30 now base_abs quote_abs (counted full s1 s7 s30 l)
    | None => counted full s1 s7 s30 l
    end full
  = pool_windows full now in_block log pool.
Proof.
  intros Hnow Hib Hl Hfil s1 s7 s30.
  assert (Hw : forall side from, 0 <= from -> (full = false -> s30 <= from) ->
    since from side l = moved_within pool side from (if full then 2 ^ 64 - 1 else now) log).
  { intros side from H1 H2. unfold since, moved_within. apply total_perm. by rewrite Hfil. }
  assert (Hall : forall side, full = true -> total (traded side <$> l) = moved_within pool side 0 (2 ^ 64 - 1) log).
  { intros side ->. rewrite <- (Hw side 0) by (lia || done). unfold since. rewrite filter_keeps_all; [done|]. apply Forall_forall.
    intros e He. unfold traded_here in Hl. rewrite Forall_forall in Hl. destruct (Hl _ He) as [Hin _]. pose proof (event_num_in _ _ _ Hf Hin) as (_ & Ht & _). apply Ht. }
  assert (Hbs : 0 <= s30 <= s7 /\ s7 <= s1 <= now) by (unfold s1, s7, s30, u64_sat_sub, in_u64, day in *; lia).
  unfold pool_windows, counted. fold s1 s7 s30. rewrite !Hw by (intros; lia).
  assert (Hnn : forall side from to, 0 <= moved_within pool side from to log) by (intros; apply total_traded_nonneg).
  destruct (in_block !! pool) as [[bb bq]|] eqn:Eb; cbn [default from_option id of_side fst snd].
  - destruct (Hib _ _ Eb) as [[? _] [? _]]. cbn [fst snd] in *. unfold count_amounts, set_all_time.
    cbn [token0_1d token1_1d token0_7d token1_7d token0_30d token1_30d token0_all token1_all has_all_time].
    destruct (Z.leb_spec s1 now), (Z.leb_spec s7 now), (Z.leb_spec s30 now); try lia.
    destruct full; rewrite ?(Hall _ eq_refl), ?sat_add by done; done.
  - unfold set_all_time. cbn. rewrite !Z.add_0_r. destruct full; [by rewrite !(Hall _ eq_refl)|done].
Qed.

(** A cache that remembers true windows. *)
Definition cache_ok (now : Z) (in_block : gmap SchemaAlkaneId (Z * Z)) (cache : gmap SchemaAlkaneId PoolTradeWindows) : Prop :=
  forall p w, cache !! p = Some w -> w = pool_windows (has_all_time w) now in_block log p.

Lemma pool_windows_exact now in_block cache full :
  in_u64 now -> now + 1 < 2 ^ 64 -> in_block_ok in_block -> cache_ok now in_block cache ->
  exists full' cache', pool_trade_windows ns pool now in_block cache full = Some (pool_windows full' now in_block log pool, cache')
    /\ cache_ok now in_block cache' /\ (full = true -> full' = true)
    /\ (full = false -> full' = true -> exists w, cache !! pool = Some w /\ has_all_time w = true).
Proof.
  intros Hnow Hlast Hib Hc. unfold pool_trade_windows. cbn zeta.
  change (24 * 60 * 60) with day. change (7 * 24 * 60 * 60) with (7 * day). change (30 * 24 * 60 * 60) with (30 * day).
  set (fresh := mbind (M := option) _ _).
  assert (Hfresh : exists cache', fresh = Some (pool_windows full now in_block log pool, cache') /\ cache_ok now in_block cache').
  { destruct (counted_rows_spec full now Hnow Hlast) as (l & E & Hl & Hrec & Hfil). unfold fresh. unfold counted_rows in E. rewrite E. cbn [mbind option_bind].
    rewrite collect_refs_rows.
    - rewrite (count_refs full _ _ _ l Hl). rewrite (counted_in_block full now in_block l) by done. eexists. split; [done|].
      intros p w. destruct (decide (p = pool)) as [->|Hne]; [rewrite lookup_insert_eq; by intros [= <-]|rewrite lookup_insert_ne by done; apply Hc].
    - eapply Forall_impl; [exact Hl|]. intros e [He [? _]]. split; [by eapply event_num_in|done].
    - done. }
  destruct Hfresh as (cache' & Ef & Hc'). destruct (cache !! pool) as [cached|] eqn:Ec.
  - destruct (negb full || has_all_time cached) eqn:Eu.
    + exists (has_all_time cached), cache. rewrite <- (Hc _ _ Ec). split_and!; try done; [by intros ->|]. intros _ Ht. by exists cached.
    + exists full, cache'. split_and!; try done. by intros ->.
  - exists full, cache'. split_and!; try done. by intros ->.
Qed.

End Windows.


(** ** The trades of the block in progress *)

Definition act_amount (side : PriceSide) (x : Act) : Z := abs_i128 (side_delta side x.2).

Definition moved_acts (pool : SchemaAlkaneId) (side : PriceSide) (acts : list Act) : Z :=
  total (act_amount side <$> filter (acts_of pool (Some GTrades)) acts).

Lemma moved_acts_nonneg pool side acts : 0 <= moved_acts pool side acts.
Proof.
  unfold moved_acts. induction (filter _ acts) as [|x l IH]; cbn; [done|]. unfold act_amount at 1. pose proof (abs_i128_range (side_delta side x.2)).
  unfold total in IH. lia.
Qed.

Lemma moved_acts_cons pool side x acts :
  moved_acts pool side (x :: acts) = (if decide (acts_of pool (Some GTrades) x) then act_amount side x else 0) + moved_acts pool side acts.
Proof. unfold moved_acts. rewrite filter_cons. by destruct (decide (acts_of pool (Some GTrades) x)). Qed.

Lemma moved_acts_app pool side a b : moved_acts pool side (a ++ b) = moved_acts pool side a + moved_acts pool side b.
Proof. induction a as [|x a IH]; [done|]. cbn [app]. rewrite !moved_acts_cons, IH. lia. Qed.

(** Creations trade nothing. *)
Lemma moved_acts_created (P : Act -> Prop) pool side acts : Forall (fun x => P x /\ ac_kind x.2 = PoolCreate) acts -> moved_acts pool side acts = 0.
Proof.
  induction 1 as [|x acts [_ Hx] _ IH]; [done|]. rewrite moved_acts_cons, IH, decide_False; [done|]. intros [_ K]. by rewrite Hx in K.
Qed.

Lemma moved_within_app pool side from to l1 l2 :
  moved_within pool side from to (l1 ++ l2) = moved_within pool side from to l1 + moved_within pool side from to l2.
Proof. unfold moved_within. by rewrite filter_app, fmap_app, total_app. Qed.

Lemma moved_block_events pool side from to ts acts :
  from <= ts <= to -> moved_within pool side from to (block_events ts acts) = moved_acts pool side acts.
Proof.
  intros Hts. induction acts as [|x acts IH] using rev_ind; [done|].
  rewrite block_events_snoc, moved_within_app, IH. unfold moved_acts at 2. rewrite filter_app, fmap_app, total_app. f_equal.
  unfold moved_within. rewrite !filter_cons, !filter_nil.
  destruct (decide (acts_of pool (Some GTrades) x)) as [E|E]; [rewrite decide_True by done; done|]. rewrite decide_False; [done|].
  intros [K _]. by apply E.
Qed.

Section InBlock.
Context `{ActivityCodec}.
Context (ts : Z) (units : gset SchemaAlkaneId) (frames vframes : list Timeframe) (meta : gmap bytes (bytes * bool)).

Abbreviation step := (process_move ts units frames vframes meta).
Abbreviation block_amounts st pool := (default (0, 0) (in_block_trade_volumes st !! pool)).

Lemma process_move_amounts st m s :
  reserves_snapshot st !! mv_owner m = Some s ->
  in_block_trade_volumes (step st m)
  = if mv_trades m then
      <[mv_owner m := (u128_sat_add (block_amounts st (mv_owner m)).1 (abs_i128 (mv_base m)),
                       u128_sat_add (block_amounts st (mv_owner m)).2 (abs_i128 (mv_quote m)))]> (in_block_trade_volumes st)
    else in_block_trade_volumes st.
Proof.
  intros Hs. unfold process_move, process_entry, mv_trades. rewrite Hs, !signed_from_delta_change. fold (mv_base m). fold (mv_quote m). fold (mv_kind m).
  destruct ((mv_base m =? 0) && (mv_quote m =? 0)) eqn:E0; [by apply mv_zero in E0 as (-> & _)|].
  destruct (mv_kind m) as [[kind dir]|]; [|done]. unfold record_activity, record_trade. cbn zeta.
  destruct (activity_push _ _ _ _) as [acc [sq|]]; destruct (is_trade kind); cbn; try done; by repeat destruct (trade_prices _ _ _ _).
Qed.

Definition mv_amount (side : PriceSide) (m : Move) : Z := match side with Base => abs_i128 (mv_base m) | Quote => abs_i128 (mv_quote m) end.

(** A move that trades is a trade of the log with the same amounts. *)
Lemma mv_act_amount m side : mv_trades m = true -> exists a, mv_act ts meta m = Some a /\ group_for_kind (ac_kind a) = GTrades /\ act_amount side (mv_owner m, a) = mv_amount side m.
Proof.
  unfold mv_trades, mv_act. destruct (mv_kind m) as [[kind dir]|]; [|done]. intros Ht. eexists. split; [done|].
  unfold activity_of, act_amount. destruct (default _ _) as [spk su]. cbn. split; [by destruct kind|by destruct side].
Qed.

Lemma mv_act_other m a : mv_trades m = false -> mv_act ts meta m = Some a -> group_for_kind (ac_kind a) = GEvents.
Proof.
  unfold mv_trades, mv_act. destruct (mv_kind m) as [[kind dir]|]; [|done]. intros Ht [= <-]. unfold activity_of. destruct (default _ _) as [spk su]. by destruct kind.
Qed.

Lemma moved_acts_move pool side m :
  moved_acts pool side (from_option (fun a => [(mv_owner m, a)]) [] (mv_act ts meta m))
  = if mv_trades m then if decide (mv_owner m = pool) then mv_amount side m else 0 else 0.
Proof.
  destruct (mv_trades m) eqn:Et.
  - destruct (mv_act_amount m side Et) as (a & -> & Hg & Ha). cbn [fmap option_fmap option_map from_option]. rewrite moved_acts_cons, Ha.
    destruct (decide (mv_owner m = pool)) as [E|E]; [rewrite decide_True by done|rewrite decide_False by (by intros [K _])]; cbn; lia.
  - destruct (mv_act ts meta m) as [a|] eqn:Ea; [|done]. pose proof (mv_act_other m a Et Ea) as Hg. cbn [fmap option_fmap option_map from_option].
    rewrite moved_acts_cons, decide_False; [done|]. intros [_ K]. cbn in K. congruence.
Qed.

(** After the moves of a block its amounts are the sums of its trades. *)
Lemma block_amounts_spec ms st pool x y :
  reserves_ok (reserves_snapshot st) -> 0 <= x -> 0 <= y -> block_amounts st pool = (sat x, sat y) ->
  let acts := block_acts ts meta (dom (reserves_snapshot st)) ms in
  block_amounts (foldl step st ms) pool = (sat (x + moved_acts pool Base acts), sat (y + moved_acts pool Quote acts)).
Proof.
  revert st x y. induction ms as [|m ms IH]; intros st x y Hres Hx Hy E acts; [by unfold acts; cbn; rewrite !Z.add_0_r|].
  cbn [foldl]. unfold acts, block_acts, followed. rewrite filter_cons. destruct (reserves_snapshot st !! mv_owner m) as [s|] eqn:Es.
  - rewrite decide_True by (by apply elem_of_dom). cbn [omap list_omap].
    assert (Hsplit : forall side, moved_acts pool side (match pair (mv_owner m) <$> mv_act ts meta m with
        | Some y => y :: omap (fun m => pair (mv_owner m) <$> mv_act ts meta m) (filter (fun m => mv_owner m ∈ dom (reserves_snapshot st)) ms)
        | None => omap (fun m => pair (mv_owner m) <$> mv_act ts meta m) (filter (fun m => mv_owner m ∈ dom (reserves_snapshot st)) ms) end)
      = moved_acts pool side (from_option (fun a => [(mv_owner m, a)]) [] (mv_act ts meta m)) + moved_acts pool side (block_acts ts meta (dom (reserves_snapshot st)) ms)).
    { intros side. destruct (mv_act ts meta m); [|done]. cbn [fmap option_fmap option_map from_option]. rewrite !moved_acts_cons. unfold block_acts, followed. cbn. lia. }
    rewrite !Hsplit, !moved_acts_move, !Z.add_assoc.
    destruct (process_move_fields ts units frames vframes meta st m s Es ltac:(by eapply Hres)) as (Er & _).
    assert (Hdom : dom (reserves_snapshot (step st m)) = dom (reserves_snapshot st)) by (rewrite Er; apply dom_insert_lookup_L; by eexists).
    rewrite <- Hdom. apply IH; [rewrite Er; by apply reserves_ok_step| | |].
    + destruct (mv_trades m); [|lia]. destruct (decide _); [|lia]. cbn. pose proof (abs_i128_range (mv_base m)). lia.
    + destruct (mv_trades m); [|lia]. destruct (decide _); [|lia]. cbn. pose proof (abs_i128_range (mv_quote m)). lia.
    + rewrite (process_move_amounts st m s Es). destruct (mv_trades m); [|by rewrite !Z.add_0_r].
      destruct (decide (mv_owner m = pool)) as [->|Hne].
      * rewrite lookup_insert_eq, E. cbn. by rewrite !sat_add by (done || apply abs_i128_range).
      * rewrite lookup_insert_ne by done. by rewrite !Z.add_0_r.
  - rewrite decide_False by (by apply not_elem_of_dom). assert (step st m = st) as ->; [|by apply IH].
    unfold process_move, process_entry. by rewrite Es.
Qed.

End InBlock.

(** ** The windows of a token *)

Section Tokens.
Set Default Proof Using "Type*".
Context `{ActivityCodecLaws} `{MarketDefsCodec}.
Context (ns : Namespace) (pools_map : gmap SchemaAlkaneId SchemaMarketDefs) (token : SchemaAlkaneId).

(** The side of a pool that the token is on. *)
Definition token_side (pool : SchemaAlkaneId) : option PriceSide :=
  defs ← match pools_map !! pool with Some defs => Some defs | None => get_pool_defs ns pool end;
  if decide (base_alkane_id defs = token) then Some Base else if decide (quote_alkane_id defs = token) then Some Quote else None.

Definition legs (pools : list SchemaAlkaneId) : list (SchemaAlkaneId * PriceSide) := omap (fun pool => pair pool <$> token_side pool) pools.

Context (log : list Event) (Hf : activity_follows ns log) (now : Z) (Hnow : in_u64 now) (Hlast : now + 1 < 2 ^ 64).
Context (Hpast : Forall (fun e => ev_ts e <= now) log).
Context (in_block : gmap SchemaAlkaneId (Z * Z)) (Hib : in_block_ok in_block).

Definition block_part (leg : SchemaAlkaneId * PriceSide) : Z := of_side leg.2 (default (0, 0) (in_block !! leg.1)).

(** What a side of a pool has moved since a time, the block included. *)
Definition leg_amount (from : Z) (leg : SchemaAlkaneId * PriceSide) : Z := moved_within leg.1 leg.2 from now log + block_part leg.

Definition legs_amount (from : Z) (pools : list SchemaAlkaneId) : Z := total (leg_amount from <$> legs pools).

Definition token_windows (full : bool) (pools : list SchemaAlkaneId) (flag : bool) : TokenTradeWindows :=
  mkTokenWindows (sat (legs_amount (u64_sat_sub now day) pools)) (sat (legs_amount (u64_sat_sub now (7 * day)) pools))
    (sat (legs_amount (u64_sat_sub now (30 * day)) pools)) (if full then sat (legs_amount 0 pools) else 0)
    (sat (total (block_part <$> legs pools))) flag.

Lemma moved_within_past pool side from : moved_within pool side from (2 ^ 64 - 1) log = moved_within pool side from now log.
Proof.
  unfold moved_within. f_equal. f_equal. apply filter_iff_in. intros e He. unfold trades_within. rewrite Forall_forall in Hpast.
  specialize (Hpast _ He). unfold in_u64 in Hnow. intuition lia.
Qed.

Lemma block_part_nonneg leg : 0 <= block_part leg.
Proof.
  unfold block_part. destruct (in_block !! leg.1) as [p|] eqn:E; [|by destruct leg.2]. destruct (Hib _ _ E) as [[? _] [? _]]. by destruct leg.2.
Qed.

Lemma leg_amount_nonneg from leg : 0 <= leg_amount from leg.
Proof. unfold leg_amount. pose proof (block_part_nonneg leg). pose proof (total_traded_nonneg leg.2 (filter (trades_within leg.1 from now) log)). unfold moved_within. lia. Qed.

(** Every window of a pool's side, whatever the history it was computed from. *)
Lemma pool_windows_side full pool side :
  let w := pool_windows full now in_block log pool in
  let at_side (x y : Z) := match side with Base => x | Quote => y end in
  at_side (token0_1d w) (token1_1d w) = sat (leg_amount (u64_sat_sub now day) (pool, side))
  /\ at_side (token0_7d w) (token1_7d w) = sat (leg_amount (u64_sat_sub now (7 * day)) (pool, side))
  /\ at_side (token0_30d w) (token1_30d w) = sat (leg_amount (u64_sat_sub now (30 * day)) (pool, side))
  /\ (full = true -> at_side (token0_all w) (token1_all w) = sat (leg_amount 0 (pool, side))).
Proof. unfold leg_amount, block_part. destruct side, full; cbn [fst snd pool_windows token0_1d token1_1d token0_7d token1_7d token0_30d token1_30d token0_all token1_all of_side];
  rewrite ?moved_within_past; done. Qed.

Lemma legs_snoc pools pool : legs (pools ++ [pool]) = legs pools ++ from_option (fun s => [(pool, s)]) [] (token_side pool).
Proof. unfold legs. rewrite omap_app. cbn. by destruct (token_side pool). Qed.

Lemma sat_legs from pools pool side :
  token_side pool = Some side -> u128_sat_add (sat (legs_amount from pools)) (sat (leg_amount from (pool, side))) = sat (legs_amount from (pools ++ [pool])).
Proof.
  intros E. unfold legs_amount. rewrite sat_sat by (apply leg_amount_nonneg || apply total_nonneg_map, leg_amount_nonneg).
  rewrite legs_snoc, E. cbn [from_option]. rewrite fmap_app, total_app. cbn. by rewrite Z.add_0_r.
Qed.

Lemma legs_skip pools pool : token_side pool = None -> legs (pools ++ [pool]) = legs pools.
Proof. intros E. by rewrite legs_snoc, E, app_nil_r. Qed.

Lemma count_pool_step full out cache pools pool :
  id_ok pool -> cache_ok log now in_block cache -> out = token_windows full pools false ->
  exists cache', count_pool ns pools_map token now in_block full (Some (out, cache)) pool = Some (token_windows full (pools ++ [pool]) false, cache')
    /\ cache_ok log now in_block cache'.
Proof.
  intros Hp Hc ->. unfold count_pool. cbn [mbind option_bind]. pose proof (legs_skip pools pool) as Hskip. pose proof (fun from side => sat_legs from pools pool side) as Hadd.
  pose proof (legs_snoc pools pool) as Hsnoc. unfold token_side in Hskip, Hadd, Hsnoc.
  destruct (match pools_map !! pool with Some defs => Some defs | None => get_pool_defs ns pool end) as [defs|]; cbn [mbind option_bind] in *.
  2: { exists cache. split; [|done]. unfold token_windows, legs_amount. by rewrite Hskip. }
  destruct (pool_windows_exact ns log Hf pool Hp now in_block cache full Hnow Hlast Hib Hc) as (full' & cache' & E & Hc' & Hfull & _).
  assert (Hrest : forall side, (if decide (base_alkane_id defs = token) then Some Base else if decide (quote_alkane_id defs = token) then Some Quote else None) = Some side ->
    negb (bool_decide (base_alkane_id defs = token)) && negb (bool_decide (quote_alkane_id defs = token)) = false
    /\ bool_decide (base_alkane_id defs = token) = match side with Base => true | Quote => false end).
  { intros side. destruct (decide (base_alkane_id defs = token)) as [K|K]; [rewrite (bool_decide_true _ K); by intros [= <-]|rewrite (bool_decide_false _ K)].
    destruct (decide (quote_alkane_id defs = token)) as [K'|K']; [rewrite (bool_decide_true _ K'); by intros [= <-]|done]. }
  destruct (if decide (base_alkane_id defs = token) then Some Base else if decide (quote_alkane_id defs = token) then Some Quote else None) as [side|] eqn:Es.
  - destruct (Hrest side eq_refl) as [-> ->]. rewrite E. cbn [mbind option_bind]. exists cache'. split; [|done]. f_equal. f_equal.
    destruct (pool_windows_side full' pool side) as (W1 & W7 & W30 & Wall). unfold token_windows.
    cbn [amount_1d amount_7d amount_30d amount_all block_amount tw_has_all_time].
    rewrite <- !(Hadd _ side eq_refl), <- W1, <- W7, <- W30.
    assert (Eb : match in_block !! pool with
       | Some (base_abs, quote_abs) => u128_sat_add (sat (total (block_part <$> legs pools))) (if match side with Base => true | Quote => false end then base_abs else quote_abs)
       | None => sat (total (block_part <$> legs pools)) end = sat (total (block_part <$> legs (pools ++ [pool])))).
    { rewrite Hsnoc. cbn [from_option]. rewrite fmap_app, total_app. change (total (block_part <$> [(pool, side)])) with (block_part (pool, side) + 0).
      rewrite Z.add_0_r. pose proof (block_part_nonneg (pool, side)) as Hn.
      assert (Epart : block_part (pool, side) = of_side side (default (0, 0) (in_block !! pool))) by done. rewrite Epart in *.
      destruct (in_block !! pool) as [[x y]|]; cbn [default from_option id] in *.
      - rewrite sat_add by (first [apply total_nonneg_map, block_part_nonneg|by destruct side]). by destruct side.
      - destruct side; by rewrite Z.add_0_r. }
    rewrite Eb. f_equal; try by destruct side. destruct full; [|done]. rewrite <- Wall by auto. by destruct side.
  - assert (negb (bool_decide (base_alkane_id defs = token)) && negb (bool_decide (quote_alkane_id defs = token)) = true) as ->.
    { destruct (decide (base_alkane_id defs = token)) as [|K]; [done|]. destruct (decide (quote_alkane_id defs = token)) as [|K']; [done|]. by rewrite !bool_decide_false. }
    exists cache. split; [|done]. unfold token_windows, legs_amount. by rewrite Hskip.
Qed.

Lemma token_pool_ok pool : pool ∈ get_token_pools ns token -> id_ok pool.
Proof.
  unfold get_token_pools. intros (key & _ & E)%list_elem_of_omap. destruct (starts_with key _); [|done]. cbn [negb] in E.
  unfold decode_alkane_id_be in E. set (r := drop _ key) in *. destruct (Nat.eqb_spec (length r) 12) as [Hl|]; [|done]. injection E as <-.
  pose proof (from_be_range (take 4 r)) as H4. pose proof (from_be_range (drop 4 r)) as H8. rewrite length_take, Hl in H4. rewrite length_drop, Hl in H8. done.
Qed.

(** The windows of a token are the sums over its side of all its pools. *)
Theorem token_windows_exact cache full :
  cache_ok log now in_block cache ->
  exists cache', token_trade_windows ns pools_map token now in_block cache full = Some (token_windows full (get_token_pools ns token) full, cache')
    /\ cache_ok log now in_block cache'.
Proof.
  intros Hc. unfold token_trade_windows.
  assert (Hfold : forall pools, Forall id_ok pools -> exists cache',
    foldl (count_pool ns pools_map token now in_block full) (Some (token_windows_default, cache)) pools = Some (token_windows full pools false, cache')
    /\ cache_ok log now in_block cache').
  { intros pools. induction pools as [|pool pools IH] using rev_ind; intros Hok; [exists cache; split; [by destruct full|done]|].
    apply Forall_app in Hok as [Hok [Hp _]%Forall_cons]. destruct (IH Hok) as (cache' & E & Hc'). rewrite foldl_app, E. cbn [foldl].
    by apply count_pool_step. }
  destruct (Hfold (get_token_pools ns token)) as (cache' & E & Hc'); [apply Forall_forall; intros p; apply token_pool_ok|].
  exists cache'. rewrite E. by split.
Qed.

End Tokens.

(** ** The properties *)

Section Claims.
Set Default Proof Using "Type*".
Context `{ActivityCodecLaws} `{CandleCodecLaws}.
Context (units : gset SchemaAlkaneId) (frames vframes : list Timeframe).

(** The amounts of the block in progress stand for its trades. *)
Lemma windows_with_block b full log pool :
  block_ok b ->
  let in_block := in_block_trade_volumes (processed units frames vframes b) in
  pool_windows full (ab_ts b) in_block log pool = pool_windows full (ab_ts b) ∅ (log ++ events_of b) pool /\ in_block_ok in_block.
Proof.
  intros Hb in_block.
  assert (Hamt : forall p, default (0, 0) (in_block !! p) = (sat (moved_acts p Base (acts_in b)), sat (moved_acts p Quote (acts_in b)))).
  { intros p. unfold acts_in. rewrite !moved_acts_app, (moved_acts_created act_ok _ Base), (moved_acts_created act_ok _ Quote) by apply (bo_created _ Hb).
    unfold in_block, processed. rewrite process_balance_moves. cbn [pools_map block_state]. fold (moves_of b).
    apply (block_amounts_spec (ab_ts b) units frames vframes (ab_meta b) (moves_of b) (block_state b) p 0 0); [apply (bo_reserves _ Hb)|done..]. }
  pose proof (bo_ts _ Hb) as [Hlo Hhi]. split.
  - unfold pool_windows. rewrite Hamt, lookup_empty. cbn [default from_option id].
    assert (Hmv : forall side from, from <= ab_ts b ->
      sat (moved_within pool side from (if full then 2 ^ 64 - 1 else ab_ts b) log + of_side side (sat (moved_acts pool Base (acts_in b)), sat (moved_acts pool Quote (acts_in b))))
      = sat (moved_within pool side from (if full then 2 ^ 64 - 1 else ab_ts b) (log ++ events_of b) + of_side side (0, 0))).
    { intros side from Hfrom. rewrite moved_within_app. unfold events_of. rewrite moved_block_events by (destruct full; lia).
      assert (K : forall x s, 0 <= x -> sat (x + sat (moved_acts pool s (acts_in b))) = sat (x + moved_acts pool s (acts_in b) + 0)).
      { intros x s Hx. pose proof (moved_acts_nonneg pool s (acts_in b)). unfold sat, u128_mod. lia. }
      destruct side; apply K, total_traded_nonneg. }
    rewrite !Hmv by (unfold u64_sat_sub, day; lia). by destruct full.
  - intros p x E. specialize (Hamt p). rewrite E in Hamt. cbn in Hamt. subst x. cbn. split; apply sat_range, moved_acts_nonneg.
Qed.

Lemma empty_cache_ok log now in_block : cache_ok log now in_block ∅.
Proof. intros p w E. by rewrite lookup_empty in E. Qed.

Lemma fresh_windows ns log now in_block pool full :
  activity_follows ns log -> id_ok pool -> in_u64 now -> now + 1 < 2 ^ 64 -> in_block_ok in_block ->
  exists cache, pool_trade_windows ns pool now in_block ∅ full = Some (pool_windows full now in_block log pool, cache).
Proof.
  intros Hf Hp Hnow Hl Hib.
  destruct (pool_windows_exact ns log Hf pool Hp now in_block ∅ full Hnow Hl Hib (empty_cache_ok log now in_block)) as (full' & cache & E & _ & Hall & Hcached).
  assert (full' = full) as ->; [|by exists cache]. destruct full; [by apply Hall|]. destruct full'; [|done]. destruct (Hcached eq_refl eq_refl) as (w & K & _).
  by rewrite lookup_empty in K.
Qed.

(** C8: The trade windows are the sums of the trades. Take a chain of blocks as in the indexing
    of a chain, that is with rising heights and no pool active in two blocks of one timestamp
    (its earlier trades would be overwritten), while the rest of the module writes no activity
    rows. While a block is being indexed on top of it, the amounts a pool has traded in the last
    day, week and month, and since the beginning when the full history is asked for, are
    computed from the rows of the earlier blocks, page by page, and from the trades of the block
    that are not stored yet; they are the sums over all the pool's trades of the chain with the
    block, each side stopping at the end of the 128-bit range. Read again from the rows after
    the block is written they are the same. (Without the full history trades of earlier blocks
    with a later timestamp do not count.) *)
Theorem windows_exact blocks b pool full :
  NoDup frames -> M10 ∈ frames -> NoDup vframes -> chain_ok (blocks ++ [b]) -> id_ok pool -> ab_ts b + 1 < 2 ^ 64 ->
  let w := pool_windows full (ab_ts b) ∅ ((blocks ++ [b]) ≫= events_of) pool in
  exists ns ns' cache cache', index_amm_blocks units frames vframes ∅ blocks = Some ns /\ index_amm_block units frames vframes ns b = Some ns'
    /\ pool_trade_windows ns pool (ab_ts b) (in_block_trade_volumes (processed units frames vframes b)) ∅ full = Some (w, cache)
    /\ pool_trade_windows ns' pool (ab_ts b) ∅ ∅ full = Some (w, cache').
Proof.
  intros Hfr Hm10 Hvf [Hbs Hts Hhs Hfew] Hp Hlast w. apply Forall_app in Hbs as [Hbs [Hb _]%Forall_cons].
  apply StronglySorted_app in Hts as (Hts2 & Hts1 & _). apply StronglySorted_app in Hhs as (Hlt & Hhs1 & _).
  assert (Eev : (blocks ++ [b]) ≫= events_of = (blocks ≫= events_of) ++ events_of b) by (rewrite bind_app; cbn; by rewrite app_nil_r).
  rewrite Eev in Hfew. pose proof Hfew as Hfew'. rewrite length_app in Hfew'.
  destruct (amm_blocks_step units frames vframes blocks ∅ [] [] [] Hfr Hm10 Hvf (empty_follows vframes)) as (ns & E & Hns); try done.
  { cbn. lia. } { by intros e x ?%elem_of_nil. } { by intros v x ?%elem_of_nil. }
  cbn [app] in Hns. assert (Htr : Forall trade_ok (blocks ≫= trades_of)).
  { apply Forall_forall. intros t (x & Ht & Hx)%list_elem_of_bind. rewrite Forall_forall in Hbs. pose proof (Hbs _ Hx) as Hxok.
    pose proof (block_trades_ok (ab_ts x) (ab_overrides x) (ab_reserves x) (moves_of x) (bo_ts _ Hxok) (bo_moves _ Hxok) (bo_reserves _ Hxok) (bo_overrides _ Hxok)) as K.
    rewrite Forall_forall in K. by apply K. }
  destruct (amm_block_step units frames vframes Hfr Hm10 Hvf ns b Hb _ _ _ Hns Htr) as (ns' & E' & Hns').
  { unfold events_of in Hfew' at 2. rewrite length_events in Hfew'. lia. }
  { intros e (x & He & Hx)%list_elem_of_bind Et. apply block_events_elem in He as (Hin & Ex & _).
    apply (Hts2 x b Hx); [by apply list_elem_of_singleton|congruence|]. apply list_elem_of_fmap. by exists (ev_pool e, ev_act e). }
  { apply Forall_forall. intros v Hv. apply list_elem_of_In, in_map_iff in Hv as (x & <- & Hx%list_elem_of_In). cbn.
    apply (Hlt x b Hx). by apply list_elem_of_singleton. }
  destruct (windows_with_block b full (blocks ≫= events_of) pool Hb) as [Ew Hib].
  destruct (fresh_windows ns (blocks ≫= events_of) (ab_ts b) _ pool full (am_activity _ _ _ _ _ Hns) Hp (bo_ts _ Hb) Hlast Hib) as (c & Ec).
  destruct (fresh_windows ns' ((blocks ≫= events_of) ++ events_of b) (ab_ts b) ∅ pool full (am_activity _ _ _ _ _ Hns') Hp (bo_ts _ Hb) Hlast) as (c' & Ec').
  { intros p x K. by rewrite lookup_empty in K. }
  exists ns, ns', c, c'. unfold w. rewrite Ew in Ec. rewrite Eev. by split_and!.
Qed.

End Claims.

#[local] Existing Instance borsh_activity.
#[local] Existing Instance borsh_activity_laws.
#[local] Existing Instance borsh_candles.
#[local] Existing Instance borsh_candles_laws.

Lemma windows_exact_witness :
  exists ns ns' cache cache', index_amm_blocks ∅ [M10] active_timeframes ∅ [demo_block1] = Some ns
    /\ index_amm_block ∅ [M10] active_timeframes ns demo_block2 = Some ns'
    /\ pool_trade_windows ns demo_pool 1700000600 (in_block_trade_volumes (processed ∅ [M10] active_timeframes demo_block2)) ∅ true
       = Some (mkWindows 14 8 14 8 14 8 14 8 true, cache)
    /\ pool_trade_windows ns' demo_pool 1700000600 ∅ ∅ true = Some (mkWindows 14 8 14 8 14 8 14 8 true, cache').
Proof.
  destruct demo_index_frames as (F1 & F2 & F3).
  apply (windows_exact ∅ [M10] active_timeframes [demo_block1] demo_block2 demo_pool true F1 F2 F3 demo_chain_ok).
  - split; split; vm_compute; done.
  - vm_compute. reflexivity.
Defined.

(** A block with an earlier timestamp than the block before it: the windows of the full
    history count the trades after it, the recent ones do not. *)
Example later_trades_differ :
  map (fun full => (fun r => token0_1d r.1) <$> pool_trade_windows demo_ns demo_pool 1700000000 ∅ ∅ full) [true; false] = [Some 14; Some 10].
Proof. vm_compute. reflexivity. Qed.
