(* ===== verification/AmmTvl.v ===== *)
(** * Aggregated liquidity and volume

    [src/modules/ammdata/utils/index_tvl.rs] and
    [src/modules/ammdata/utils/index_total_volume_amm.rs], with the keys and readers of
    [src/modules/ammdata/storage.rs]: the value locked in a pool is taken from the side that
    can be priced, doubled; the totals of all pools and of every token are moved by what the
    pools of a block have changed, and stamped on the buckets of the lines; the traded value
    of a block is added to two running totals.

    The encoding of a point is the class [TvlCodec]; of the metrics row of a token only the
    price is read, by the class [MetricsCodec]. *)
From stdpp Require Import strings.
From S2P Require Import Prelude Bytes RunesTransfer RunesStore RunesChain RunesInscriptions AlkTrace AmmPath AmmCandles AmmDepth AmmVolume AmmBlock.
From stdpp Require Import options.

Open Scope Z_scope.

Definition AMOUNT_SCALE : Z := 100000000.

(** ** Values in the canonical quotes *)

Definition canonical_quote_amount_tvl_usd (amount : Z) (unit : CanonicalQuoteUnit) (btc_price_usd : option Z) : option Z :=
  match unit with
  | Usd => Some (u128_sat_mul amount PRICE_SCALE / AMOUNT_SCALE)
  | Btc => btc_price ← btc_price_usd; Some (u128_sat_mul amount btc_price / AMOUNT_SCALE)
  end.

Definition canonical_quote_amount_tvl_sats (amount : Z) (unit : CanonicalQuoteUnit) (btc_price_usd : option Z) : option Z :=
  match unit with
  | Btc => Some amount
  | Usd => btc_price ← btc_price_usd; if btc_price =? 0 then Some 0 else Some (u128_sat_mul amount PRICE_SCALE / btc_price)
  end.

Section Units.
Context (canonical_quote_units : gmap SchemaAlkaneId CanonicalQuoteUnit) (btc_usd_price : option Z).

Definition side_tvl_sats (token : SchemaAlkaneId) (amount price_sats : Z) : Z :=
  match canonical_quote_units !! token with
  | Some unit => default 0 (canonical_quote_amount_tvl_sats amount unit btc_usd_price)
  | None => u128_sat_mul amount price_sats / PRICE_SCALE
  end.

(** ** Anchors *)

Record SchemaTvlPointV1 := mkPoint { canonical_sats : Z; derived_sats : Z; unanchored_sats : Z }.

Definition point_default : SchemaTvlPointV1 := mkPoint 0 0 0.

Record PoolAnchorInput := mkAnchorInput {
  base_tvl_sats : Z;
  quote_tvl_sats : Z;
  base_price_sats : Z;
  quote_price_sats : Z;
  base_tvl_usd : Z;
  quote_tvl_usd : Z;
}.

Definition pool_anchor_point (defs : SchemaMarketDefs) (input : PoolAnchorInput) : SchemaTvlPointV1 :=
  let quote_is_canonical := bool_decide (is_Some (canonical_quote_units !! quote_alkane_id defs)) in
  let base_is_canonical := bool_decide (is_Some (canonical_quote_units !! base_alkane_id defs)) in
  if quote_is_canonical then mkPoint (u128_sat_mul (quote_tvl_sats input) 2) 0 0
  else if base_is_canonical then mkPoint (u128_sat_mul (base_tvl_sats input) 2) 0 0
  else if 0 <? quote_price_sats input then mkPoint 0 (u128_sat_mul (quote_tvl_sats input) 2) 0
  else if 0 <? base_price_sats input then mkPoint 0 (u128_sat_mul (base_tvl_sats input) 2) 0
  else
    let usd := u128_sat_add (base_tvl_usd input) (quote_tvl_usd input) in
    let sats :=
      match btc_usd_price with
      | Some price => if 0 <? price then u128_sat_mul usd AMOUNT_SCALE / price else 0
      | None => 0
      end in
    mkPoint 0 0 sats.

End Units.

#[global] Instance SchemaTvlPointV1_eq_dec : EqDecision SchemaTvlPointV1.
Proof. solve_decision. Defined.

(** ** Deltas *)

Record TvlDelta := mkDelta { dl_canonical : Z; dl_derived : Z; dl_unanchored : Z }.

Definition delta_default : TvlDelta := mkDelta 0 0 0.

Definition i128_sat (z : Z) : Z := Z.max (- 2 ^ 127) (Z.min (2 ^ 127 - 1) z).

Definition clamp_i128 (value : Z) : Z := Z.min value (2 ^ 127 - 1).

Definition diff (next prev : Z) : Z := i128_sat (clamp_i128 next - clamp_i128 prev).

Definition delta_add (d : TvlDelta) (prev next : SchemaTvlPointV1) : TvlDelta :=
  mkDelta (i128_sat (dl_canonical d + diff (canonical_sats next) (canonical_sats prev)))
    (i128_sat (dl_derived d + diff (derived_sats next) (derived_sats prev)))
    (i128_sat (dl_unanchored d + diff (unanchored_sats next) (unanchored_sats prev))).

Definition delta_is_zero (d : TvlDelta) : bool := (dl_canonical d =? 0) && (dl_derived d =? 0) && (dl_unanchored d =? 0).

Definition apply_tvl (base delta : Z) : Z := if 0 <=? delta then u128_sat_add base delta else u128_sat_sub base (Z.abs delta).

Definition apply_point (base : SchemaTvlPointV1) (d : TvlDelta) : SchemaTvlPointV1 :=
  mkPoint (apply_tvl (canonical_sats base) (dl_canonical d)) (apply_tvl (derived_sats base) (dl_derived d))
    (apply_tvl (unanchored_sats base) (dl_unanchored d)).

(** ** Keys *)

Definition amm_tvl_line_ns_prefix (tf : Timeframe) : bytes := bstr "atl2:" ++ code tf ++ [colon].
Definition amm_tvl_line_key (tf : Timeframe) (bucket_ts : Z) : bytes := amm_tvl_line_ns_prefix tf ++ to_string bucket_ts.

Definition token_tvl_line_ns_prefix (token : SchemaAlkaneId) (tf : Timeframe) : bytes :=
  bstr "ttl2:" ++ id_hex token ++ [colon] ++ code tf ++ [colon].
Definition token_tvl_line_key (token : SchemaAlkaneId) (tf : Timeframe) (bucket_ts : Z) : bytes :=
  token_tvl_line_ns_prefix token tf ++ to_string bucket_ts.

Definition amm_tvl_total_prefix : bytes := bstr "/amm_tvl_total/v2/".
Definition token_tvl_total_prefix (token : SchemaAlkaneId) : bytes := bstr "/token_tvl_total/v2/" ++ id_be token ++ bstr "/".
Definition pool_tvl_anchor_key (pool : SchemaAlkaneId) : bytes := bstr "/pool_tvl_anchor/v2/" ++ id_be pool.

Inductive TotalVolumeAmmUnit := VSats | VUsd.

Definition unit_str (unit : TotalVolumeAmmUnit) : bytes := match unit with VSats => bstr "sats" | VUsd => bstr "usd" end.
Definition total_volume_amm_prefix (unit : TotalVolumeAmmUnit) : bytes := bstr "/total_volume_amm/v1/" ++ unit_str unit ++ bstr "/".

(** A total at a height: the prefix of its series and the height, big endian. *)
Definition at_height (prefix : bytes) (height : Z) : bytes := prefix ++ be_bytes 8 height.

Definition amm_tvl_total_key (height : Z) : bytes := at_height amm_tvl_total_prefix height.
Definition token_tvl_total_key (token : SchemaAlkaneId) (height : Z) : bytes := at_height (token_tvl_total_prefix token) height.
Definition total_volume_amm_key (unit : TotalVolumeAmmUnit) (height : Z) : bytes := at_height (total_volume_amm_prefix unit) height.

Definition parse_height (prefix key : bytes) : option Z :=
  if negb (starts_with key prefix) then None
  else
    let rest := drop (length prefix) key in
    if negb (length rest =? 8)%nat then None else Some (from_be rest).

Definition parse_amm_tvl_total_key (key : bytes) : option Z := parse_height amm_tvl_total_prefix key.
Definition parse_token_tvl_total_key (token : SchemaAlkaneId) (key : bytes) : option Z := parse_height (token_tvl_total_prefix token) key.
Definition parse_total_volume_amm_key (unit : TotalVolumeAmmUnit) (key : bytes) : option Z := parse_height (total_volume_amm_prefix unit) key.

#[global] Arguments at_height : simpl never.
#[global] Arguments pool_tvl_anchor_key : simpl never.
#[global] Arguments token_tvl_total_prefix : simpl never.
#[global] Arguments amm_tvl_total_prefix : simpl never.

(** The newest of a series at or below a height: of the sixteen rows from the top, the first
    that can be read. *)
Definition newest_at_or_before {V} (decode : bytes -> option V) (parse : bytes -> option Z) (prefix : bytes) (ns : Namespace) (height : Z)
    : option (Z * V) :=
  head (omap (fun e : bytes * bytes => point_height ← parse e.1; value ← decode e.2; Some (point_height, value))
    (scan_range_desc ns prefix (at_height prefix (u64_sat_add height 1)) 16)).

(** Borsh: [to_vec] and [try_from_slice] of a point. *)
Class TvlCodec := { encode_tvl_point_v1 : SchemaTvlPointV1 -> option bytes; decode_tvl_point_v1 : bytes -> option SchemaTvlPointV1 }.

Section Lines.
Context `{TvlCodec}.

Definition get_pool_tvl_anchor (ns : Namespace) (pool : SchemaAlkaneId) : option SchemaTvlPointV1 :=
  ns !! pool_tvl_anchor_key pool ≫= decode_tvl_point_v1.

Definition get_amm_tvl_total_at_or_before_height (ns : Namespace) (height : Z) : option (Z * SchemaTvlPointV1) :=
  newest_at_or_before decode_tvl_point_v1 parse_amm_tvl_total_key amm_tvl_total_prefix ns height.

Definition get_token_tvl_total_at_or_before_height (ns : Namespace) (token : SchemaAlkaneId) (height : Z) : option (Z * SchemaTvlPointV1) :=
  newest_at_or_before decode_tvl_point_v1 (parse_token_tvl_total_key token) (token_tvl_total_prefix token) ns height.

(** ** The block *)

Record TvlWrites := mkTvlWrites {
  tvl_line_writes : list (bytes * bytes);
  tvl_total_writes : list (bytes * bytes);
  pool_tvl_anchor_writes : list (bytes * bytes);
}.

Definition tvl_writes_new : TvlWrites := mkTvlWrites [] [] [].

Record TvlScan := mkScan {
  global_delta : TvlDelta;
  token_deltas : gmap SchemaAlkaneId TvlDelta;
  sc_writes : list (bytes * bytes);
}.

(** [token_deltas.entry(token).or_default().add(&prev, next)] *)
Definition add_token_delta (m : gmap SchemaAlkaneId TvlDelta) (token : SchemaAlkaneId) (prev next : SchemaTvlPointV1) : gmap SchemaAlkaneId TvlDelta :=
  <[token := delta_add (default delta_default (m !! token)) prev next]> m.

(** One pool of the block. *)
Definition scan_anchor (ns : Namespace) (pools_map : gmap SchemaAlkaneId SchemaMarketDefs) (acc : option TvlScan) (e : SchemaAlkaneId * SchemaTvlPointV1)
    : option TvlScan :=
  s ← acc;
  let '(pool, next) := e in
  let prev := default point_default (get_pool_tvl_anchor ns pool) in
  if bool_decide (prev = next) then Some s
  else
    let tokens :=
      match pools_map !! pool with
      | Some defs =>
          let m := add_token_delta (token_deltas s) (base_alkane_id defs) prev next in
          if negb (bool_decide (quote_alkane_id defs = base_alkane_id defs)) then add_token_delta m (quote_alkane_id defs) prev next else m
      | None => token_deltas s
      end in
    raw ← encode_tvl_point_v1 next;
    Some (mkScan (delta_add (global_delta s) prev next) tokens (sc_writes s ++ [(pool_tvl_anchor_key pool, raw)])).

Definition add_total (w : TvlWrites) (total_key : bytes) (line_keys : list bytes) (encoded : bytes) : TvlWrites :=
  mkTvlWrites (tvl_line_writes w ++ map (fun k => (k, encoded)) line_keys) (tvl_total_writes w ++ [(total_key, encoded)]) (pool_tvl_anchor_writes w).

Context (frames : list Timeframe).

Definition token_total (ns : Namespace) (block_ts height : Z) (acc : option TvlWrites) (e : SchemaAlkaneId * TvlDelta) : option TvlWrites :=
  w ← acc;
  let '(token, delta) := e in
  if delta_is_zero delta then Some w
  else
    let prev_total := default point_default (snd <$> get_token_tvl_total_at_or_before_height ns token (Z.max 0 (height - 1))) in
    let next_total := apply_point prev_total delta in
    encoded ← encode_tvl_point_v1 next_total;
    Some (add_total w (token_tvl_total_key token height) (map (fun tf => token_tvl_line_key token tf (bucket_start_for block_ts tf)) frames) encoded).

(** The vectors a block fills, from the anchors of the pools it has touched. *)
Definition prepare_tvl_lines (ns : Namespace) (block_ts height : Z) (pools_map : gmap SchemaAlkaneId SchemaMarketDefs)
    (pool_tvl_anchor_current : gmap SchemaAlkaneId SchemaTvlPointV1) : option TvlWrites :=
  if bool_decide (pool_tvl_anchor_current = ∅) then Some tvl_writes_new
  else
    s ← foldl (scan_anchor ns pools_map) (Some (mkScan delta_default ∅ [])) (map_to_list pool_tvl_anchor_current);
    let w := mkTvlWrites [] [] (sc_writes s) in
    if delta_is_zero (global_delta s) && bool_decide (token_deltas s = ∅) then Some w
    else
      w ← (if negb (delta_is_zero (global_delta s)) then
             let prev_total := default point_default (snd <$> get_amm_tvl_total_at_or_before_height ns (Z.max 0 (height - 1))) in
             let next_total := apply_point prev_total (global_delta s) in
             encoded ← encode_tvl_point_v1 next_total;
             Some (add_total w (amm_tvl_total_key height) (map (fun tf => amm_tvl_line_key tf (bucket_start_for block_ts tf)) frames) encoded)
           else Some w);
      foldl (token_total ns block_ts height) (Some w) (map_to_list (token_deltas s)).

(** The rows in the order of the batch. *)
Definition tvl_puts (w : TvlWrites) : list (bytes * bytes) := tvl_line_writes w ++ tvl_total_writes w ++ pool_tvl_anchor_writes w.

(** A block: the anchors of the pools it has touched, and the rest of its batch. *)
Record TvlBlock := mkTvlBlock {
  tb_height : Z;
  tb_ts : Z;
  tb_pools : gmap SchemaAlkaneId SchemaMarketDefs;
  tb_anchors : gmap SchemaAlkaneId SchemaTvlPointV1;
  tb_before : list (bytes * bytes);
  tb_after : list (bytes * bytes);
  tb_deletes : list bytes;
}.

Definition index_tvl_block (ns : Namespace) (b : TvlBlock) : option Namespace :=
  w ← prepare_tvl_lines ns (tb_ts b) (tb_height b) (tb_pools b) (tb_anchors b);
  set_batch None ns (tb_before b ++ tvl_puts w ++ tb_after b) (tb_deletes b).

Fixpoint index_tvl_blocks (ns : Namespace) (blocks : list TvlBlock) : option Namespace :=
  match blocks with
  | [] => Some ns
  | b :: blocks => ns' ← index_tvl_block ns b; index_tvl_blocks ns' blocks
  end.

End Lines.

(** ** The traded value *)

(** The price in the metrics row of a token. *)
Class MetricsCodec := { metrics_price_usd : bytes -> option Z }.

Section Volume.
Context `{MetricsCodec}.

Definition token_metrics_key (token : SchemaAlkaneId) : bytes := bstr "/token_metrics/v1/" ++ id_be token.

Definition get_token_metrics (ns : Namespace) (token : SchemaAlkaneId) : Z := default 0 (ns !! token_metrics_key token ≫= metrics_price_usd).

(** The price, with the cache of the block. *)
Definition token_price_usd (ns : Namespace) (token_metrics_cache : gmap SchemaAlkaneId Z) (token : SchemaAlkaneId) : Z * gmap SchemaAlkaneId Z :=
  match token_metrics_cache !! token with
  | Some price_usd => (price_usd, token_metrics_cache)
  | None => let price := get_token_metrics ns token in (price, <[token := price]> token_metrics_cache)
  end.

(** The value of an amount in dollars and in sats, with the cache. *)
Definition token_amount_values (ns : Namespace) (units : gmap SchemaAlkaneId CanonicalQuoteUnit) (btc_usd_price : option Z)
    (cache : gmap SchemaAlkaneId Z) (token : SchemaAlkaneId) (amount : Z) : (Z * Z) * gmap SchemaAlkaneId Z :=
  if amount =? 0 then ((0, 0), cache)
  else
    match units !! token with
    | Some unit =>
        ((default 0 (canonical_quote_amount_tvl_usd amount unit btc_usd_price), default 0 (canonical_quote_amount_tvl_sats amount unit btc_usd_price)), cache)
    | None =>
        let '(price_usd, cache) := token_price_usd ns cache token in
        if price_usd =? 0 then ((0, 0), cache)
        else
          let usd := u128_sat_mul amount price_usd / AMOUNT_SCALE in
          let sats :=
            match btc_usd_price with
            | Some btc_price => if 0 <? btc_price then u128_sat_mul usd AMOUNT_SCALE / btc_price else 0
            | None => 0
            end in
          ((usd, sats), cache)
    end.

Definition get_total_volume_amm_at_or_before_height (ns : Namespace) (unit : TotalVolumeAmmUnit) (height : Z) : option (Z * Z) :=
  newest_at_or_before decode_u128_value (parse_total_volume_amm_key unit) (total_volume_amm_prefix unit) ns height.

(** One pool: the sums in dollars and in sats, and the cache. *)
Definition add_pool_value (ns : Namespace) (pools_map : gmap SchemaAlkaneId SchemaMarketDefs) (units : gmap SchemaAlkaneId CanonicalQuoteUnit)
    (btc_usd_price : option Z) (acc : Z * Z * gmap SchemaAlkaneId Z) (e : SchemaAlkaneId * (Z * Z)) : Z * Z * gmap SchemaAlkaneId Z :=
  let '(block_usd, block_sats, cache) := acc in
  let '(pool, (base_abs, quote_abs)) := e in
  match pools_map !! pool with
  | None => acc
  | Some defs =>
      let '(token, amount) :=
        if bool_decide (is_Some (units !! quote_alkane_id defs)) then (quote_alkane_id defs, quote_abs) else (base_alkane_id defs, base_abs) in
      let '((usd, sats), cache) := token_amount_values ns units btc_usd_price cache token amount in
      (u128_sat_add block_usd usd, u128_sat_add block_sats sats, cache)
  end.

Definition volume_total_write (ns : Namespace) (height : Z) (unit : TotalVolumeAmmUnit) (amount : Z) : list (bytes * bytes) :=
  if 0 <? amount then
    let previous := from_option snd 0 (get_total_volume_amm_at_or_before_height ns unit (Z.max 0 (height - 1))) in
    [(total_volume_amm_key unit height, encode_u128_value (u128_sat_add previous amount))]
  else [].

(** The rows, and the cache of prices. *)
Definition prepare_total_volume_amm (ns : Namespace) (height : Z) (units : gmap SchemaAlkaneId CanonicalQuoteUnit) (btc_usd_price : option Z)
    (pools_map : gmap SchemaAlkaneId SchemaMarketDefs) (in_block_trade_volumes : gmap SchemaAlkaneId (Z * Z)) (cache : gmap SchemaAlkaneId Z)
    : list (bytes * bytes) * gmap SchemaAlkaneId Z :=
  let '(block_usd, block_sats, cache) :=
    foldl (add_pool_value ns pools_map units btc_usd_price) (0, 0, cache) (map_to_list in_block_trade_volumes) in
  if (block_sats =? 0) && (block_usd =? 0) then ([], cache)
  else (volume_total_write ns height VSats block_sats ++ volume_total_write ns height VUsd block_usd, cache).

End Volume.
