(* ===== verification/AmmTvlProps.v ===== *)
(** * Aggregated liquidity: lemmas

    A series of totals under a prefix, one row per height; sums over the pools; the
    deltas of a block, which are the difference of the sums; and the batch of a block,
    which moves the stored totals from the sums before it to the sums after it. *)
From stdpp Require Import strings.
From S2P Require Import Prelude Bytes Rocks RunesTransfer RunesStore RunesChain RunesInscriptions AlkTrace.
From S2P Require Import AmmPath AmmCandles AmmCandlesProps AmmChart AmmDepth AmmActivityProps AmmVolume AmmBlock AmmBlockProps AmmLog AmmVolumeProps AmmTvl.
From stdpp Require Import options.
Open Scope Z_scope.

(** ** A series of totals *)

Section Series.
Context {V : Type} (decode : bytes -> option V) (prefix : bytes).

(** The rows of the series are readable and below [h], and [v] is the newest. *)
Record series_ok (ns : Namespace) (h : Z) (v : option V) : Prop := {
  se_rows k : starts_with k prefix = true -> is_Some (ns !! k) ->
    exists h', 0 <= h' < h /\ k = at_height prefix h' /\ is_Some (ns !! k ≫= decode);
  se_newest : match v with
    | None => forall k, starts_with k prefix = true -> ns !! k = None
    | Some v => exists h', 0 <= h' < h /\ ns !! at_height prefix h' ≫= decode = Some v
        /\ forall h'', in_u64 h'' -> is_Some (ns !! at_height prefix h'') -> h'' <= h'
    end;
}.

Lemma at_height_prefix h : starts_with (at_height prefix h) prefix = true.
Proof. apply starts_with_app. Qed.

Lemma parse_at_height h : in_u64 h -> parse_height prefix (at_height prefix h) = Some h.
Proof.
  intros Hh. unfold parse_height. rewrite at_height_prefix. unfold at_height. cbn [negb]. rewrite drop_app_length, length_be_bytes, Nat.eqb_refl. cbn [negb].
  by rewrite from_be_be_bytes, Z.mod_small.
Qed.

Lemma at_height_inj h h' : in_u64 h -> in_u64 h' -> at_height prefix h = at_height prefix h' -> h = h'.
Proof. intros Hh Hh' E%app_inv_head. by apply (be_bytes_inj 8) in E. Qed.

Lemma at_height_lt h h' : in_u64 h -> in_u64 h' -> at_height prefix h <b at_height prefix h' <-> h < h'.
Proof. intros Hh Hh'. unfold at_height. rewrite blt_app. by apply (be_bytes_lt 8). Qed.

(** Reading at or above the newest height gives the newest. *)
Lemma newest_spec ns h v x :
  series_ok ns h v -> in_u64 h -> h - 1 <= x -> 0 <= x -> x + 1 < 2 ^ 64 ->
  snd <$> newest_at_or_before decode (parse_height prefix) prefix ns x = v.
Proof.
  intros [Hrows Hnew] Hh Hx0 Hx1 Hx2. unfold newest_at_or_before, u64_sat_add. rewrite Z.min_r by lia.
  assert (Hkey : forall h', 0 <= h' < h -> prefix <=b at_height prefix h' /\ at_height prefix h' <b at_height prefix (x + 1)).
  { intros h' Hh'. unfold in_u64 in *. split; [unfold at_height; rewrite <- (app_nil_r prefix) at 1; by rewrite ble_app|]. apply at_height_lt; unfold in_u64; lia. }
  pose proof (scan_range_desc_head ns prefix (at_height prefix (x + 1)) 15) as Hhead.
  destruct (scan_range_desc ns prefix (at_height prefix (x + 1)) 16) as [|[k w] l].
  - cbn. destruct v as [v|]; [|done]. destruct Hnew as (h' & Hh' & E & _). destruct (ns !! at_height prefix h') as [raw|] eqn:Er; [|done].
    destruct (Hkey h' Hh') as [Hl Hu]. exfalso. by eapply Hhead.
  - destruct Hhead as (Hw & Hl & Hu & Hmax). destruct (between_prefix prefix (be_bytes 8 (x + 1)) k Hl Hu) as (r & -> & _).
    destruct (Hrows (prefix ++ r) ltac:(apply starts_with_app) ltac:(by eexists)) as (h' & Hh' & Ek & [y Hy]). rewrite Ek in *. rewrite Hw in Hy. cbn in Hy.
    cbn [omap list_omap fst snd]. rewrite parse_at_height by (unfold in_u64 in *; lia). cbn [mbind option_bind]. rewrite Hy. cbn.
    destruct v as [v|]; [|by rewrite Hnew in Hw by apply at_height_prefix]. f_equal. destruct Hnew as (h'' & Hh'' & E & Hmx).
    assert (h' = h'') as ->; [|by rewrite Hw in E; cbn in E; congruence]. specialize (Hmx h' ltac:(unfold in_u64 in *; lia) ltac:(by eexists)).
    destruct (Z_lt_le_dec h' h'') as [Hlt|]; [|lia]. exfalso. destruct (ns !! at_height prefix h'') as [raw|] eqn:Er; [|done].
    destruct (Hkey h'' Hh'') as [Hl2 Hu2]. specialize (Hmax _ _ Er Hl2 Hu2). eapply blt_not_ble; [|exact Hmax]. apply at_height_lt; unfold in_u64 in *; lia.
Qed.

(** A row at the next height is the newest; without one the series stays as it is. *)
Lemma series_step ns ns' h h' v raw v' :
  series_ok ns h v -> 0 <= h -> h <= h' -> in_u64 h' -> (forall k, starts_with k prefix = true -> k <> at_height prefix h' -> ns' !! k = ns !! k) ->
  ns' !! at_height prefix h' = Some raw -> decode raw = Some v' -> series_ok ns' (h' + 1) (Some v').
Proof.
  intros [Hrows Hnew] Hh0 Hle Hh Hsame Hrow Hdec. split.
  - intros k Hk Hv. destruct (decide (k = at_height prefix h')) as [->|Hne].
    + exists h'. split; [unfold in_u64 in *; lia|]. split; [done|]. rewrite Hrow. cbn. by eexists.
    + rewrite Hsame in * by done. destruct (Hrows k Hk Hv) as (x & Hx & Hrest). exists x. split; [lia|done].
  - exists h'. split; [unfold in_u64 in *; lia|]. split; [by rewrite Hrow|]. intros y Hy Hv.
    destruct (decide (at_height prefix y = at_height prefix h')) as [E|Hne]; [apply at_height_inj in E; [lia|done..]|].
    rewrite Hsame in Hv by (apply at_height_prefix || done). destruct (Hrows _ (at_height_prefix y) Hv) as (z & Hz & E & _).
    apply at_height_inj in E; [lia|done|unfold in_u64 in *; lia].
Qed.

Lemma series_keep ns ns' h h' v :
  series_ok ns h v -> h <= h' -> (forall k, starts_with k prefix = true -> ns' !! k = ns !! k) -> series_ok ns' h' v.
Proof.
  intros [Hrows Hnew] Hle Hsame. split.
  - intros k Hk Hv. rewrite Hsame in * by done. destruct (Hrows k Hk Hv) as (x & Hx & Hrest). exists x. split; [lia|done].
  - destruct v as [v|]; [|intros k Hk; rewrite Hsame by done; by apply Hnew]. destruct Hnew as (x & Hx & E & Hmax).
    exists x. split; [lia|]. rewrite Hsame by apply at_height_prefix. split; [done|]. intros y Hy Hv. rewrite Hsame in Hv by apply at_height_prefix. by apply Hmax.
Qed.

End Series.

(** ** Sums over the pools *)

Inductive Comp := CCanonical | CDerived | CUnanchored.

Definition pt (c : Comp) (p : SchemaTvlPointV1) : Z := match c with CCanonical => canonical_sats p | CDerived => derived_sats p | CUnanchored => unanchored_sats p end.
Definition dl (c : Comp) (d : TvlDelta) : Z := match c with CCanonical => dl_canonical d | CDerived => dl_derived d | CUnanchored => dl_unanchored d end.

Abbreviation Anchor := (SchemaAlkaneId * SchemaTvlPointV1)%type.
Abbreviation Anchors := (gmap SchemaAlkaneId SchemaTvlPointV1).

Definition point_ok (p : SchemaTvlPointV1) : Prop := forall c, 0 <= pt c p.

Lemma point_eq p q : (forall c, pt c p = pt c q) -> p = q.
Proof. intros E. pose proof (E CCanonical). pose proof (E CDerived). pose proof (E CUnanchored). destruct p, q. cbn in *. congruence. Qed.

Lemma total_forall_nonneg l : Forall (fun x => 0 <= x) l -> 0 <= total l.
Proof. induction 1; cbn; [done|]. unfold total in *. lia. Qed.

Lemma total_submseteq l1 l2 : l1 ⊆+ l2 -> Forall (fun x => 0 <= x) l2 -> total l1 <= total l2.
Proof.
  intros (l & E)%submseteq_Permutation Hn. rewrite (total_perm _ _ E), total_app. rewrite E in Hn. apply Forall_app in Hn as [_ Hn].
  pose proof (total_forall_nonneg l Hn). lia.
Qed.

Section Sums.
Context (P : SchemaAlkaneId -> Prop) `{!forall p, Decision (P p)} (c : Comp).

(** What an entry adds to the sum over the pools with [P]. *)
Definition part (e : Anchor) : Z := if decide (P e.1) then pt c e.2 else 0.

Definition list_sum (l : list Anchor) : Z := total (part <$> l).
Definition map_sum (A : Anchors) : Z := list_sum (map_to_list A).

Lemma list_sum_app l1 l2 : list_sum (l1 ++ l2) = list_sum l1 + list_sum l2.
Proof. unfold list_sum. by rewrite fmap_app, total_app. Qed.

Lemma list_sum_single e : list_sum [e] = part e.
Proof. unfold list_sum. cbn. lia. Qed.

Lemma part_nonneg e : point_ok e.2 -> 0 <= part e.
Proof. intros He. unfold part. case_decide; [apply He|done]. Qed.

Lemma list_sum_nonneg l : Forall (fun e => point_ok e.2) l -> 0 <= list_sum l.
Proof. intros Hl. induction Hl as [|e l He _ IH]; [done|]. change (list_sum (e :: l)) with (part e + list_sum l). pose proof (part_nonneg e He). lia. Qed.

Lemma list_sum_mono l1 l2 : l1 ⊆+ l2 -> Forall (fun e => point_ok e.2) l2 -> list_sum l1 <= list_sum l2.
Proof.
  intros Hs Hl. apply total_submseteq; [by apply fmap_submseteq|]. apply Forall_fmap. eapply Forall_impl; [exact Hl|]. intros e. apply part_nonneg.
Qed.

Lemma map_sum_insert A k v : A !! k = None -> map_sum (<[k := v]> A) = part (k, v) + map_sum A.
Proof. intros Hk. unfold map_sum, list_sum. rewrite (total_perm _ (part <$> (k, v) :: map_to_list A)) by (by rewrite map_to_list_insert). done. Qed.

Lemma part_default k : part (k, point_default) = 0.
Proof. unfold part. case_decide; [by destruct c|done]. Qed.

Lemma map_sum_update A k v : map_sum (<[k := v]> A) = map_sum A - part (k, default point_default (A !! k)) + part (k, v).
Proof.
  destruct (A !! k) as [w|] eqn:E; cbn [default from_option id].
  - rewrite <- (insert_id A k w E) at 2. rewrite <- !(insert_delete_eq A k), !map_sum_insert by apply lookup_delete_eq. lia.
  - rewrite map_sum_insert, part_default by done. lia.
Qed.

(** The entries of the pools of a list before it. *)
Definition before (A : Anchors) (l : list Anchor) : list Anchor := map (fun e => (e.1, default point_default (A !! e.1))) l.

Lemma map_sum_union A l : NoDup l.*1 -> map_sum (list_to_map l ∪ A) = map_sum A - list_sum (before A l) + list_sum l.
Proof.
  induction l as [|[k v] l IH].
  - intros _. rewrite list_to_map_nil, map_empty_union. cbn. lia.
  - cbn [fmap list_fmap fst]. intros [Hk Hnd]%NoDup_cons. rewrite list_to_map_cons, <- insert_union_l, map_sum_update, IH by done.
    rewrite lookup_union_r by (by apply not_elem_of_list_to_map).
    change (list_sum (before A ((k, v) :: l))) with (part (k, default point_default (A !! k)) + list_sum (before A l)).
    change (list_sum ((k, v) :: l)) with (part (k, v) + list_sum l). lia.
Qed.

End Sums.

Section Bounds.
Context (A : Anchors) (HA : map_Forall (fun _ => point_ok) A).

Lemma anchors_forall (B : Anchors) : map_Forall (fun _ => point_ok) B -> Forall (fun e : Anchor => point_ok e.2) (map_to_list B).
Proof. intros HB. apply Forall_forall. intros [k p] Hin%elem_of_map_to_list. by apply (HB k p). Qed.

(** The pools of a list count for no more than all of them, before and after. *)
Lemma before_le P `{!forall p, Decision (P p)} c l : NoDup l.*1 -> list_sum P c (before A l) <= map_sum P c A.
Proof using HA.
  intros Hnd. set (l' := omap (fun e : Anchor => pair e.1 <$> A !! e.1) l).
  assert (E : list_sum P c (before A l) = list_sum P c l').
  { unfold l'. clear Hnd. induction l as [|[k v] l IH]; [done|]. cbn [omap list_omap fst].
    change (list_sum P c (before A ((k, v) :: l))) with (part P c (k, default point_default (A !! k)) + list_sum P c (before A l)).
    rewrite IH. destruct (A !! k) as [w|]; cbn [default from_option id fmap option_fmap option_map]; [done|]. by rewrite part_default. }
  rewrite E. unfold map_sum. apply list_sum_mono; [|by apply anchors_forall]. apply NoDup_submseteq.
  - apply (NoDup_fmap_1 fst). assert (Hsub : l'.*1 `sublist_of` l.*1).
    { unfold l'. clear. induction l as [|[k v] l IH]; cbn; [constructor|]. destruct (A !! k); cbn; by constructor. }
    by eapply sublist_NoDup.
  - intros [k p] Hin. unfold l' in Hin. apply list_elem_of_omap in Hin as ([k' v] & _ & E'). cbn in E'. destruct (A !! k') as [w|] eqn:Ek; [|done].
    injection E' as <- <-. by apply elem_of_map_to_list.
Qed.

Lemma after_le P `{!forall p, Decision (P p)} c l :
  NoDup l.*1 -> Forall (fun e => point_ok e.2) l -> list_sum P c l <= map_sum P c (list_to_map l ∪ A).
Proof using HA.
  intros Hnd Hl. unfold map_sum. apply list_sum_mono.
  - apply NoDup_submseteq; [by apply (NoDup_fmap_1 fst)|]. intros [k v] Hin. apply elem_of_map_to_list, lookup_union_Some_l. by apply elem_of_list_to_map_1.
  - apply anchors_forall. intros k p Hk. apply lookup_union_Some_raw in Hk as [Hk|[_ Hk]]; [|by apply (HA k)].
    apply elem_of_list_to_map_2 in Hk. rewrite Forall_forall in Hl. by apply (Hl (k, p)).
Qed.

End Bounds.

(** ** The deltas of a block *)

Definition small (z : Z) : Prop := 0 <= z < 2 ^ 127.

Lemma dl_add c d prev next : dl c (delta_add d prev next) = i128_sat (dl c d + diff (pt c next) (pt c prev)).
Proof. by destruct c. Qed.

Lemma dl_default c : dl c delta_default = 0.
Proof. by destruct c. Qed.

Lemma diff_exact a b : small a -> small b -> diff a b = a - b.
Proof. unfold small, diff, clamp_i128, i128_sat. lia. Qed.

Lemma delta_zero_iff d : delta_is_zero d = true <-> forall c, dl c d = 0.
Proof.
  unfold delta_is_zero. rewrite !andb_true_iff, !Z.eqb_eq. split.
  - intros [[? ?] ?] c. by destruct c.
  - intros E. split; [split|]; [apply (E CCanonical)|apply (E CDerived)|apply (E CUnanchored)].
Qed.

Definition always (p : SchemaAlkaneId) : Prop := True.
#[global] Instance always_dec p : Decision (always p).
Proof. unfold always. apply _. Defined.

(** The pools a token is in. *)
Definition touches (D : SchemaAlkaneId -> SchemaMarketDefs) (token p : SchemaAlkaneId) : Prop :=
  base_alkane_id (D p) = token \/ quote_alkane_id (D p) = token.
#[global] Instance touches_dec D token p : Decision (touches D token p).
Proof. unfold touches. apply _. Defined.

(** What borsh promises of a point of the type. *)
Class TvlCodecLaws `{TvlCodec} := {
  tvl_codec_roundtrip p : (forall c, in_u128 (pt c p)) -> exists raw, encode_tvl_point_v1 p = Some raw /\ decode_tvl_point_v1 raw = Some p;
}.

Section Scan.
Set Default Proof Using "Type*".
Context `{TvlCodecLaws}.
Context (ns : Namespace) (pools_map : gmap SchemaAlkaneId SchemaMarketDefs) (D : SchemaAlkaneId -> SchemaMarketDefs).
Context (A : Anchors) (HA : map_Forall (fun _ => point_ok) A).

(** The change of a sum over the pools of a list. *)
Definition change (P : SchemaAlkaneId -> Prop) `{!forall p, Decision (P p)} (c : Comp) (l : list Anchor) : Z := list_sum P c l - list_sum P c (before A l).

Record anchor_ok (e : Anchor) : Prop := {
  an_prev : default point_default (get_pool_tvl_anchor ns e.1) = default point_default (A !! e.1);
  an_defs : pools_map !! e.1 = Some (D e.1);
  an_point : point_ok e.2;
}.

(** No sum of the block leaves the range, over all the pools before and after. *)
Definition sums_small (l : list Anchor) : Prop := forall c, list_sum always c l < 2 ^ 127 /\ list_sum always c (before A l) < 2 ^ 127.

Lemma before_ok l : Forall (fun e => point_ok e.2) (before A l).
Proof.
  apply Forall_forall. intros e Hin. apply list_elem_of_In, in_map_iff in Hin as (x & <- & _). cbn.
  destruct (A !! x.1) as [p|] eqn:E; [by apply (HA x.1)|]. by intros [].
Qed.

Lemma before_app l1 l2 : before A (l1 ++ l2) = before A l1 ++ before A l2.
Proof. unfold before. apply map_app. Qed.

Lemma part_always c e : part always c e = pt c e.2.
Proof. unfold part. by rewrite decide_True. Qed.

Lemma list_sum_le P `{!forall p, Decision (P p)} c l : Forall (fun e => point_ok e.2) l -> list_sum P c l <= list_sum always c l.
Proof.
  intros Hl. induction Hl as [|e l He _ IH]; [done|]. change (list_sum ?Q c (e :: l)) with (part Q c e + list_sum Q c l).
  rewrite part_always. unfold part. pose proof (He c). case_decide; lia.
Qed.

(** The change of a longer list: the sums stay within the signed range on the way. *)
Lemma change_snoc P `{!forall p, Decision (P p)} c l e :
  sums_small (l ++ [e]) -> Forall (fun e => point_ok e.2) (l ++ [e]) ->
  let prev := default point_default (A !! e.1) in
  change P c (l ++ [e]) = change P c l + (if decide (P e.1) then pt c e.2 - pt c prev else 0)
  /\ - 2 ^ 127 < change P c (l ++ [e]) < 2 ^ 127 /\ small (pt c e.2) /\ small (pt c prev).
Proof.
  intros Hs Hok prev. destruct (Hs c) as [Hlim1 Hlim2]. pose proof (before_ok (l ++ [e])) as Hb.
  pose proof (list_sum_le P c _ Hok). pose proof (list_sum_le P c _ Hb). pose proof (list_sum_nonneg P c _ Hok). pose proof (list_sum_nonneg P c _ Hb).
  split_and!.
  - unfold change. rewrite before_app, !list_sum_app. change (before A [e]) with [(e.1, prev)]. rewrite !list_sum_single. unfold part. cbn [fst snd]. case_decide; lia.
  - unfold change. lia.
  - unfold change. lia.
  - apply Forall_app in Hok as [Hok [He _]%Forall_cons]. rewrite list_sum_app, list_sum_single, part_always in Hlim1. pose proof (list_sum_nonneg always c l Hok). split; [apply He|lia].
  - rewrite before_app in Hlim2, Hb. apply Forall_app in Hb as [Hb [He _]%Forall_cons]. change (before A [e]) with [(e.1, prev)] in Hlim2.
    rewrite list_sum_app, list_sum_single, part_always in Hlim2. pose proof (list_sum_nonneg always c (before A l) Hb). split; [apply He|cbn in Hlim2; lia].
Qed.

Lemma sums_small_app l1 l2 : Forall (fun e => point_ok e.2) (l1 ++ l2) -> sums_small (l1 ++ l2) -> sums_small l1.
Proof.
  intros Hok Hs c. destruct (Hs c) as [Hlim1 Hlim2]. rewrite before_app, list_sum_app in Hlim2. rewrite list_sum_app in Hlim1. apply Forall_app in Hok as [_ Hok].
  pose proof (list_sum_nonneg always c l2 Hok). pose proof (list_sum_nonneg always c _ (before_ok l2)). lia.
Qed.

(** The scan so far: deltas are the changes of the sums, and the anchors that changed are
    written. *)
Record scanned (l : list Anchor) (s : TvlScan) : Prop := {
  sc_global c : dl c (global_delta s) = change always c l;
  sc_token t c : dl c (default delta_default (token_deltas s !! t)) = change (touches D t) c l;
  sc_tokens t : is_Some (token_deltas s !! t) -> exists e, e ∈ l /\ touches D t e.1;
  sc_rows p : p ∈ sc_writes s <-> exists e raw, e ∈ l /\ default point_default (A !! e.1) <> e.2 /\ encode_tvl_point_v1 e.2 = Some raw
    /\ p = (pool_tvl_anchor_key e.1, raw);
}.

Lemma dl_step c d P `{!forall p, Decision (P p)} l e :
  sums_small (l ++ [e]) -> Forall (fun e => point_ok e.2) (l ++ [e]) -> P e.1 -> dl c d = change P c l ->
  dl c (delta_add d (default point_default (A !! e.1)) e.2) = change P c (l ++ [e]).
Proof.
  intros Hs Hok Hp Hd. destruct (change_snoc P c l e Hs Hok) as (E & Hr & Hn & Hv). rewrite dl_add, diff_exact, Hd by done.
  rewrite decide_True in E by done. rewrite E. unfold i128_sat. lia.
Qed.

Lemma token_step m t l e :
  sums_small (l ++ [e]) -> Forall (fun e => point_ok e.2) (l ++ [e]) ->
  (forall c, dl c (default delta_default (m !! t)) = change (touches D t) c l) ->
  let prev := default point_default (A !! e.1) in
  let b := base_alkane_id (D e.1) in let q := quote_alkane_id (D e.1) in
  let m1 := add_token_delta m b prev e.2 in
  let m2 := if negb (bool_decide (q = b)) then add_token_delta m1 q prev e.2 else m1 in
  (forall c, dl c (default delta_default (m2 !! t)) = change (touches D t) c (l ++ [e])) /\ (is_Some (m2 !! t) -> is_Some (m !! t) \/ touches D t e.1).
Proof.
  intros Hs Hok Hm prev b q m1 m2.
  assert (Hm1 : m1 !! t = if decide (b = t) then Some (delta_add (default delta_default (m !! t)) prev e.2) else m !! t).
  { unfold m1, add_token_delta. destruct (decide (b = t)) as [<-|]; [by rewrite lookup_insert_eq|by rewrite lookup_insert_ne]. }
  assert (Hm2 : m2 !! t = if decide (touches D t e.1) then Some (delta_add (default delta_default (m !! t)) prev e.2) else m !! t).
  { assert (Ht : touches D t e.1 <-> b = t \/ q = t) by done. unfold m2. destruct (bool_decide (q = b)) eqn:Eqb; cbn [negb].
    - apply bool_decide_eq_true in Eqb. rewrite Eqb in Ht. rewrite Hm1. destruct (decide (b = t)), (decide (touches D t e.1)); tauto.
    - apply bool_decide_eq_false in Eqb. unfold add_token_delta at 1. destruct (decide (q = t)) as [Eq|Hne].
      + rewrite <- Eq in *. rewrite lookup_insert_eq, Hm1, decide_False by congruence. rewrite decide_True by tauto. done.
      + rewrite lookup_insert_ne, Hm1 by done. destruct (decide (b = t)), (decide (touches D t e.1)); tauto. }
  split.
  - intros c. rewrite Hm2. destruct (decide (touches D t e.1)) as [Ht|Ht]; [by apply dl_step|]. rewrite Hm.
    destruct (change_snoc (touches D t) c l e Hs Hok) as (E & _). rewrite decide_False in E by done. lia.
  - rewrite Hm2. destruct (decide (touches D t e.1)); [by right|by left].
Qed.

Lemma totals_scan_spec l :
  Forall anchor_ok l -> sums_small l ->
  exists s, foldl (scan_anchor ns pools_map) (Some (mkScan delta_default ∅ [])) l = Some s /\ scanned l s.
Proof.
  induction l as [|e l IH] using rev_ind; intros Hok Hs.
  { eexists. split; [done|]. split; cbn [global_delta token_deltas sc_writes].
    - intros c. by rewrite dl_default.
    - intros t c. rewrite lookup_empty. cbn. by rewrite dl_default.
    - intros t [? K]. by rewrite lookup_empty in K.
    - intros p. split; [by intros ?%elem_of_nil|by intros (e & _ & ?%elem_of_nil & _)]. }
  assert (Hpts : Forall (fun e => point_ok e.2) (l ++ [e])) by (eapply Forall_impl; [exact Hok|]; intros x Hx; apply Hx).
  pose proof (sums_small_app _ _ Hpts Hs) as Hs1. apply Forall_app in Hok as [Hok [He _]%Forall_cons].
  destruct (IH Hok Hs1) as (s & E & Hsc). rewrite foldl_app, E. cbn [foldl]. destruct e as [pool next].
  unfold scan_anchor. cbn [mbind option_bind]. destruct He as [Hprev Hdefs Hpt]. cbn [fst snd] in Hprev, Hdefs, Hpt. rewrite Hprev, Hdefs.
  destruct (decide (default point_default (A !! pool) = next)) as [Eq|Hne].
  - rewrite bool_decide_true by done. exists s. split; [done|].
    assert (Hzero : forall P `{!forall p, Decision (P p)} c, change P c (l ++ [(pool, next)]) = change P c l).
    { intros P ? c. destruct (change_snoc P c l (pool, next) Hs Hpts) as (E' & _). cbn [fst snd] in E'. rewrite Eq in E'. case_decide; lia. }
    split; [intros c; rewrite Hzero; apply Hsc|intros t c; rewrite Hzero; apply Hsc| |].
    + intros t Ht. destruct (sc_tokens _ _ Hsc t Ht) as (x & Hx & Ht'). exists x. split; [set_solver|done].
    + intros p. rewrite (sc_rows _ _ Hsc). split; intros (x & raw & Hx & Hn & Hrest); exists x, raw; (split; [|done]); [set_solver|].
      apply elem_of_app in Hx as [|Hx%list_elem_of_singleton]; [done|]. by subst x.
  - rewrite bool_decide_false by done.
    destruct (tvl_codec_roundtrip next) as (raw & Eraw & _).
    { intros c. destruct (change_snoc always c l (pool, next) Hs Hpts) as (_ & _ & [? ?] & _). unfold in_u128, u128_mod. cbn in *. lia. }
    rewrite Eraw. cbn [mbind option_bind]. eexists. split; [done|]. split; cbn [global_delta token_deltas sc_writes].
    + intros c. by apply (dl_step c _ always l (pool, next)), Hsc.
    + intros t. apply (token_step _ t l (pool, next) Hs Hpts), Hsc.
    + intros t Ht. apply (token_step _ t l (pool, next) Hs Hpts) in Ht as [Ht|Ht]; [| |apply Hsc].
      * destruct (sc_tokens _ _ Hsc t Ht) as (x & Hx & Ht'). exists x. split; [set_solver|done].
      * exists (pool, next). split; [set_solver|done].
    + intros p. rewrite elem_of_app, list_elem_of_singleton, (sc_rows _ _ Hsc). split.
      * intros [(x & r & Hx & Hrest)| ->]; [exists x, r; split; [set_solver|done]|]. exists (pool, next), raw. split; [set_solver|done].
      * intros (x & r & [Hx|Hx%list_elem_of_singleton]%elem_of_app & Hn & Er & ->); [left; by exists x, r|]. subst x. right. cbn in *. congruence.
Qed.

End Scan.


(** The sum over the pools with [P], as a point. *)
Definition sum_point (P : SchemaAlkaneId -> Prop) `{!forall p, Decision (P p)} (A : Anchors) : SchemaTvlPointV1 :=
  mkPoint (map_sum P CCanonical A) (map_sum P CDerived A) (map_sum P CUnanchored A).

Lemma pt_sum P `{!forall p, Decision (P p)} c A : pt c (sum_point P A) = map_sum P c A.
Proof. by destruct c. Qed.

Lemma pt_apply c base d : pt c (apply_point base d) = apply_tvl (pt c base) (dl c d).
Proof. by destruct c. Qed.

Lemma apply_exact base d x : small base -> small x -> base + d = x -> apply_tvl base d = x.
Proof. unfold small, apply_tvl, u128_sat_add, u128_sat_sub, u128_mod. intros Hb Hx E. destruct (Z.leb_spec 0 d); lia. Qed.

(** ** Keys *)

Definition tvl_space (k : bytes) : bool :=
  starts_with k (bstr "atl2:") || starts_with k (bstr "/amm_tvl_total/v2/") || starts_with k (bstr "/token_tvl_total/v2/")
  || starts_with k (bstr "/pool_tvl_anchor/v2/").

Definition not_tvl (p : bytes * bytes) : Prop := tvl_space p.1 = false.

Lemma id_be_length t : length (id_be t) = 12%nat.
Proof. unfold id_be. by rewrite length_app, !length_be_bytes. Qed.

Lemma id_be_inj t t' : id_ok t -> id_ok t' -> id_be t = id_be t' -> t = t'.
Proof.
  intros [Hb Ht] [Hb' Ht'] E. unfold id_be in E. apply app_inj_1 in E as [E1 E2]; [|by rewrite !length_be_bytes].
  apply (be_bytes_inj 4) in E1; [|done..]. apply (be_bytes_inj 8) in E2; [|done..]. destruct t, t'. cbn in *. congruence.
Qed.

Lemma token_prefix_inj t t' r r' : id_ok t -> id_ok t' -> token_tvl_total_prefix t ++ r = token_tvl_total_prefix t' ++ r' -> t = t'.
Proof.
  intros Ht Ht' E. unfold token_tvl_total_prefix in E. rewrite <- !app_assoc in E. apply app_inv_head in E.
  apply app_inj_1 in E as [E _]; [|by rewrite !id_be_length]. by apply id_be_inj.
Qed.

Lemma anchor_key_inj p p' : id_ok p -> id_ok p' -> pool_tvl_anchor_key p = pool_tvl_anchor_key p' -> p = p'.
Proof. intros Hp Hp' E%app_inv_head. by apply id_be_inj. Qed.

(** The table a key of the totals belongs to. *)
Inductive Table := TLine | TTokenLine | TTotal | TTokenTotal | TAnchor.

Definition table_prefix (t : Table) : bytes :=
  bstr match t with
       | TLine => "atl2:" | TTokenLine => "ttl2:" | TTotal => "/amm_tvl_total/v2/" | TTokenTotal => "/token_tvl_total/v2/" | TAnchor => "/pool_tvl_anchor/v2/"
       end.

Definition in_table (t : Table) (k : bytes) : Prop := exists r, k = table_prefix t ++ r.

Lemma tables_apart t t' k : in_table t k -> in_table t' k -> t = t'.
Proof. intros [r ->] [r' E]. destruct t, t'; try done; discriminate E. Qed.

Lemma line_table tf b : in_table TLine (amm_tvl_line_key tf b).
Proof. unfold amm_tvl_line_key, amm_tvl_line_ns_prefix. rewrite <- !app_assoc. by eexists. Qed.
Lemma token_line_table t tf b : in_table TTokenLine (token_tvl_line_key t tf b).
Proof. unfold token_tvl_line_key, token_tvl_line_ns_prefix. rewrite <- !app_assoc. by eexists. Qed.
Lemma total_table r : in_table TTotal (amm_tvl_total_prefix ++ r).
Proof. by eexists. Qed.
Lemma token_total_table t r : in_table TTokenTotal (token_tvl_total_prefix t ++ r).
Proof. unfold token_tvl_total_prefix. rewrite <- !app_assoc. by eexists. Qed.
Lemma anchor_table p : in_table TAnchor (pool_tvl_anchor_key p).
Proof. by eexists. Qed.

Lemma table_space t k : in_table t k -> t <> TTokenLine -> tvl_space k = true.
Proof. intros [r ->] Ht. by destruct t. Qed.

Section Index.
Set Default Proof Using "Type*".
Context `{TvlCodecLaws}.
Context (D : SchemaAlkaneId -> SchemaMarketDefs) (frames : list Timeframe).

(** The stored anchors and totals are those of [A], the rows of the totals below height [h]. *)
Record tvl_follows (ns : Namespace) (h : Z) (A : Anchors) : Prop := {
  tl_anchor pool : id_ok pool -> default point_default (get_pool_tvl_anchor ns pool) = default point_default (A !! pool);
  tl_total : exists v, series_ok decode_tvl_point_v1 amm_tvl_total_prefix ns h v /\ default point_default v = sum_point always A;
  tl_token t : id_ok t -> exists v, series_ok decode_tvl_point_v1 (token_tvl_total_prefix t) ns h v /\ default point_default v = sum_point (touches D t) A;
  tl_ok : map_Forall (fun _ => point_ok) A;
  tl_small c : map_sum always c A < 2 ^ 127;
}.

Record tvl_block_ok (A : Anchors) (b : TvlBlock) : Prop := {
  tk_height : in_u32 (tb_height b);
  tk_pool pool next : tb_anchors b !! pool = Some next ->
    id_ok pool /\ id_ok (base_alkane_id (D pool)) /\ id_ok (quote_alkane_id (D pool)) /\ tb_pools b !! pool = Some (D pool) /\ point_ok next;
  tk_small c : map_sum always c (tb_anchors b ∪ A) < 2 ^ 127;
  tk_before : Forall not_tvl (tb_before b);
  tk_after : Forall not_tvl (tb_after b);
  tk_deletes : Forall (fun k => tvl_space k = false) (tb_deletes b);
}.

Section Step.
Context (ns : Namespace) (h : Z) (A : Anchors) (Hns : tvl_follows ns h A) (b : TvlBlock) (Hb : tvl_block_ok A b) (Hh : 0 <= h <= tb_height b).

Abbreviation A' := (tb_anchors b ∪ A).
Abbreviation l := (map_to_list (tb_anchors b)).

Lemma union_list : A' = list_to_map l ∪ A.
Proof. by rewrite list_to_map_to_list. Qed.

Lemma block_anchors : Forall (anchor_ok ns (tb_pools b) D A) l.
Proof.
  apply Forall_forall. intros [pool next] Hin%elem_of_map_to_list. destruct (tk_pool _ _ Hb pool next Hin) as (Hp & _ & _ & Hd & Hn).
  split; [by apply (tl_anchor _ _ _ Hns)|done|done].
Qed.

Lemma block_points : Forall (fun e : Anchor => point_ok e.2) l.
Proof. eapply Forall_impl; [exact block_anchors|]. intros e He. apply He. Qed.

Lemma after_ok : map_Forall (fun _ => point_ok) A'.
Proof. intros k p [Hk|[_ Hk]]%lookup_union_Some_raw; [by apply (tk_pool _ _ Hb k)|by apply (tl_ok _ _ _ Hns k)]. Qed.

Lemma block_small : sums_small A l.
Proof.
  intros c. pose proof (NoDup_fst_map_to_list (tb_anchors b)) as Hnd. split.
  - pose proof (after_le A (tl_ok _ _ _ Hns) always c l Hnd block_points) as K. rewrite <- union_list in K. pose proof (tk_small _ _ Hb c). lia.
  - pose proof (before_le A (tl_ok _ _ _ Hns) always c l Hnd) as K. pose proof (tl_small _ _ _ Hns c). lia.
Qed.

Lemma change_map P `{!forall p, Decision (P p)} c : change A P c l = map_sum P c A' - map_sum P c A.
Proof. unfold change. rewrite union_list, map_sum_union by apply NoDup_fst_map_to_list. lia. Qed.

Lemma sums_range P `{!forall p, Decision (P p)} c (B : Anchors) :
  map_Forall (fun _ => point_ok) B -> map_sum always c B < 2 ^ 127 -> small (map_sum P c B).
Proof.
  intros HB Hs. pose proof (anchors_forall B HB) as Hl. unfold map_sum in *. pose proof (list_sum_le P c _ Hl). pose proof (list_sum_nonneg P c _ Hl). split; lia.
Qed.

(** A total moves from the old sum to the new one. *)
Lemma total_moves P `{!forall p, Decision (P p)} d :
  (forall c, dl c d = change A P c l) ->
  apply_point (sum_point P A) d = sum_point P A'
  /\ exists raw, encode_tvl_point_v1 (sum_point P A') = Some raw /\ decode_tvl_point_v1 raw = Some (sum_point P A').
Proof.
  intros Hd. assert (Hs : forall c, small (map_sum P c A')) by (intros c; apply sums_range; [apply after_ok|apply (tk_small _ _ Hb)]). split.
  - apply point_eq. intros c. rewrite pt_apply, !pt_sum. apply apply_exact; [apply sums_range; [apply (tl_ok _ _ _ Hns)|apply (tl_small _ _ _ Hns)]|done|].
    rewrite Hd, change_map. lia.
  - apply tvl_codec_roundtrip. intros c. rewrite pt_sum. destruct (Hs c). unfold in_u128, u128_mod. lia.
Qed.

Definition moves (P : SchemaAlkaneId -> Prop) `{!forall p, Decision (P p)} : Prop := exists c, map_sum P c A' <> map_sum P c A.

Lemma moves_or_not P `{!forall p, Decision (P p)} : (forall c, map_sum P c A' = map_sum P c A) \/ moves P.
Proof.
  unfold moves. destruct (decide (map_sum P CCanonical A' = map_sum P CCanonical A)); [|by right; exists CCanonical].
  destruct (decide (map_sum P CDerived A' = map_sum P CDerived A)); [|by right; exists CDerived].
  destruct (decide (map_sum P CUnanchored A' = map_sum P CUnanchored A)); [|by right; exists CUnanchored]. left. by intros [].
Qed.

Lemma zero_iff P `{!forall p, Decision (P p)} d : (forall c, dl c d = change A P c l) -> delta_is_zero d = false <-> moves P.
Proof.
  intros Hd. rewrite <- not_true_iff_false, delta_zero_iff. unfold moves. split.
  - intros Hn. destruct (moves_or_not P) as [Hsame|Hm]; [|done]. exfalso. apply Hn. intros c. rewrite Hd, change_map, Hsame. lia.
  - intros [c Hc] Hz. specialize (Hz c). rewrite Hd, change_map in Hz. lia.
Qed.

Lemma prev_height : h - 1 <= Z.max 0 (tb_height b - 1) /\ 0 <= Z.max 0 (tb_height b - 1) /\ Z.max 0 (tb_height b - 1) + 1 < 2 ^ 64 /\ in_u64 h.
Proof. pose proof (tk_height _ _ Hb). unfold in_u32, in_u64 in *. lia. Qed.

Lemma read_token t : id_ok t -> default point_default (snd <$> get_token_tvl_total_at_or_before_height ns t (Z.max 0 (tb_height b - 1))) = sum_point (touches D t) A.
Proof.
  intros Ht. destruct (tl_token _ _ _ Hns t Ht) as (v & Hv & <-). destruct prev_height as (P1 & P2 & P3 & P4). f_equal. by eapply newest_spec.
Qed.

Lemma read_total : default point_default (snd <$> get_amm_tvl_total_at_or_before_height ns (Z.max 0 (tb_height b - 1))) = sum_point always A.
Proof. destruct (tl_total _ _ _ Hns) as (v & Hv & <-). destruct prev_height as (P1 & P2 & P3 & P4). f_equal. by eapply newest_spec. Qed.

(** A row with the new sum, written when the sum has moved. *)
Definition sum_put (P : SchemaAlkaneId -> Prop) `{!forall p, Decision (P p)} (key : bytes) (p : bytes * bytes) : Prop :=
  moves P /\ exists raw, encode_tvl_point_v1 (sum_point P A') = Some raw /\ p = (key, raw).

Lemma sum_put_raw P `{!forall p, Decision (P p)} key raw :
  moves P -> encode_tvl_point_v1 (sum_point P A') = Some raw -> forall p, sum_put P key p <-> p = (key, raw).
Proof. intros Hm E p. unfold sum_put. split; [intros (_ & raw' & E' & ->); congruence|intros ->; eauto]. Qed.

Lemma token_total_some w t d :
  token_total frames ns (tb_ts b) (tb_height b) (Some w) (t, d)
  = if delta_is_zero d then Some w
    else encoded ← encode_tvl_point_v1 (apply_point (default point_default (snd <$> get_token_tvl_total_at_or_before_height ns t (Z.max 0 (tb_height b - 1)))) d);
         Some (add_total w (token_tvl_total_key t (tb_height b)) (map (fun tf => token_tvl_line_key t tf (bucket_start_for (tb_ts b) tf)) frames) encoded).
Proof. reflexivity. Qed.

Lemma tokens_fold TL w :
  (forall t d, (t, d) ∈ TL -> id_ok t /\ forall c, dl c d = change A (touches D t) c l) ->
  exists w', foldl (token_total frames ns (tb_ts b) (tb_height b)) (Some w) TL = Some w' /\ pool_tvl_anchor_writes w' = pool_tvl_anchor_writes w
    /\ (forall p, p ∈ tvl_total_writes w' <-> p ∈ tvl_total_writes w \/ exists t, t ∈ TL.*1 /\ sum_put (touches D t) (token_tvl_total_key t (tb_height b)) p)
    /\ (forall p, p ∈ tvl_line_writes w' -> p ∈ tvl_line_writes w \/ in_table TTokenLine p.1) /\ (forall p, p ∈ tvl_line_writes w -> p ∈ tvl_line_writes w').
Proof.
  revert w. induction TL as [|[t d] TL IH]; intros w HTL.
  { exists w. split; [done|]. split; [done|]. split; [|by split; [left|]]. intros p. split; [by left|intros [?|(t & ?%elem_of_nil & _)]; done]. }
  destruct (HTL t d) as [Ht Hd]; [apply elem_of_cons; by left|]. cbn [foldl]. rewrite token_total_some.
  assert (HTL' : forall t d, (t, d) ∈ TL -> id_ok t /\ forall c, dl c d = change A (touches D t) c l) by (intros t' d' Hin; apply HTL, elem_of_cons; by right).
  destruct (delta_is_zero d) eqn:Ez.
  - destruct (IH w HTL') as (w' & E & Ea & Ht' & Hl1 & Hl2). exists w'. split_and!; try done. intros p. rewrite Ht'. cbn [fmap list_fmap fst]. split.
    + intros [?|(t' & Hin & Hs)]; [by left|]. right. exists t'. split; [apply elem_of_cons; by right|done].
    + intros [?|(t' & [->|Hin]%elem_of_cons & Hs)]; [by left| |right; by exists t']. destruct Hs as [Hm _]. apply (zero_iff _ d Hd) in Hm. congruence.
  - rewrite read_token by done. destruct (total_moves (touches D t) d Hd) as [-> (raw & Eraw & _)]. rewrite Eraw. cbn [mbind option_bind].
    assert (Hm : moves (touches D t)) by (by apply (zero_iff _ d Hd)).
    destruct (IH (add_total w (token_tvl_total_key t (tb_height b)) (map (fun tf => token_tvl_line_key t tf (bucket_start_for (tb_ts b) tf)) frames) raw) HTL')
      as (w' & E & Ea & Ht' & Hl1 & Hl2).
    exists w'. split; [done|]. split; [done|]. cbn [add_total tvl_line_writes tvl_total_writes] in *. split; [|split].
    + intros p. rewrite Ht', elem_of_app, list_elem_of_singleton, <- (sum_put_raw (touches D t) (token_tvl_total_key t (tb_height b)) raw Hm Eraw). cbn [fmap list_fmap fst]. split.
      * intros [[?|Hs]|(t' & Hin & Hs)]; [by left|right|right]; [exists t|exists t']; (split; [apply elem_of_cons|done]); [by left|by right].
      * intros [?|(t' & [->|Hin]%elem_of_cons & Hs)]; [by left; left|by left; right|right; by exists t'].
    + intros p [[Hp|Hp]%elem_of_app|Hp]%Hl1; [by left| |by right]. right. apply list_elem_of_In, in_map_iff in Hp as (k & <- & Hk).
      apply in_map_iff in Hk as (tf & <- & _). apply token_line_table.
    + intros p Hp. apply Hl2, elem_of_app. by left.
Qed.

(** The rows of a block. *)
Record block_rows (w : TvlWrites) : Prop := {
  br_total p : p ∈ tvl_total_writes w <->
    sum_put always (amm_tvl_total_key (tb_height b)) p \/ exists t, id_ok t /\ sum_put (touches D t) (token_tvl_total_key t (tb_height b)) p;
  br_line p : p ∈ tvl_line_writes w -> in_table TTokenLine p.1
    \/ exists tf, tf ∈ frames /\ sum_put always (amm_tvl_line_key tf (bucket_start_for (tb_ts b) tf)) p;
  br_lines tf p : tf ∈ frames -> sum_put always (amm_tvl_line_key tf (bucket_start_for (tb_ts b) tf)) p -> p ∈ tvl_line_writes w;
  br_anchor p : p ∈ pool_tvl_anchor_writes w <-> exists e raw, e ∈ l /\ default point_default (A !! e.1) <> e.2
    /\ encode_tvl_point_v1 e.2 = Some raw /\ p = (pool_tvl_anchor_key e.1, raw);
}.

Lemma still_rows w :
  ~ moves always -> (forall t, ~ moves (touches D t)) ->
  tvl_total_writes w = [] -> tvl_line_writes w = [] ->
  (forall p, p ∈ pool_tvl_anchor_writes w <-> exists e raw, e ∈ l /\ default point_default (A !! e.1) <> e.2
    /\ encode_tvl_point_v1 e.2 = Some raw /\ p = (pool_tvl_anchor_key e.1, raw)) -> block_rows w.
Proof.
  intros Hstill Htok Et El Ha. split; [| | |done].
  - intros p. rewrite Et. split; [by intros ?%elem_of_nil|]. intros [[Hm _]|(t & _ & Hm & _)]; [done|]. by apply Htok in Hm.
  - intros p. rewrite El. by intros ?%elem_of_nil.
  - by intros tf p _ [Hm _].
Qed.

Lemma prepare_rows :
  exists w, prepare_tvl_lines frames ns (tb_ts b) (tb_height b) (tb_pools b) (tb_anchors b) = Some w /\ block_rows w.
Proof.
  unfold prepare_tvl_lines. destruct (decide (tb_anchors b = ∅)) as [E0|Hne].
  { rewrite bool_decide_true by done. exists tvl_writes_new. split; [done|]. apply still_rows; try done.
    - intros [c Hc]. apply Hc. by rewrite E0, map_empty_union.
    - intros t [c Hc]. apply Hc. by rewrite E0, map_empty_union.
    - intros p. split; [by intros ?%elem_of_nil|]. intros (e & raw & Hin & _). rewrite E0, map_to_list_empty in Hin. by apply elem_of_nil in Hin. }
  rewrite bool_decide_false by done.
  destruct (totals_scan_spec ns (tb_pools b) D A (tl_ok _ _ _ Hns) l block_anchors block_small) as (s & Es & Hs). rewrite Es. cbn [mbind option_bind].
  pose proof (sc_global _ _ _ _ Hs) as Hg. pose proof (sc_token _ _ _ _ Hs) as Htok.
  assert (Hmv : forall t, moves (touches D t) -> is_Some (token_deltas s !! t)).
  { intros t [c Hc]. specialize (Htok t c). destruct (token_deltas s !! t); [by eexists|]. cbn in Htok. rewrite dl_default, change_map in Htok. lia. }
  assert (HTL : forall t d, (t, d) ∈ map_to_list (token_deltas s) -> id_ok t /\ forall c, dl c d = change A (touches D t) c l).
  { intros t d Hin%elem_of_map_to_list. split.
    - destruct (sc_tokens _ _ _ _ Hs t ltac:(by eexists)) as ([pool next] & He%elem_of_map_to_list & Ht). destruct (tk_pool _ _ Hb pool next He) as (_ & Hb1 & Hb2 & _).
      cbn in Ht. destruct Ht as [<- | <-]; done.
    - intros c. rewrite <- Htok, Hin. done. }
  destruct (delta_is_zero (global_delta s)) eqn:Ez; cbn [andb negb].
  - assert (Hstill : ~ moves always) by (intros Hm; apply (zero_iff always (global_delta s) Hg) in Hm; congruence).
    destruct (decide (token_deltas s = ∅)) as [E0|Hne0].
    + rewrite bool_decide_true by done. eexists. split; [done|]. apply still_rows; [done| |done|done|apply (sc_rows _ _ _ _ Hs)].
      intros t Hm. destruct (Hmv t Hm) as [? K]. by rewrite E0, lookup_empty in K.
    + rewrite bool_decide_false by done. cbn [mbind option_bind].
      destruct (tokens_fold _ (mkTvlWrites [] [] (sc_writes s)) HTL) as (w & E & Ea & Ht & Hl1 & Hl2). exists w. split; [done|]. split.
      * intros p. rewrite Ht. cbn [tvl_total_writes]. rewrite elem_of_nil. split.
        -- intros [[]|(t & Hin & Hp)]. right. exists t. split; [|done]. apply list_elem_of_fmap in Hin as ([t' d] & -> & Hin). by apply (HTL t' d).
        -- intros [[Hm _]|(t & Htk & Hp)]; [done|]. right. exists t. split; [|done]. destruct (Hmv t) as [d Hd]; [apply Hp|].
           apply list_elem_of_fmap. exists (t, d). split; [done|]. by apply elem_of_map_to_list.
      * intros p [Hp|Hp]%Hl1; [by apply elem_of_nil in Hp|by left].
      * intros tf p _ [Hm _]. done.
      * intros p. rewrite Ea. apply (sc_rows _ _ _ _ Hs).
  - assert (Hm : moves always) by (by apply (zero_iff always (global_delta s) Hg)). rewrite read_total.
    destruct (total_moves always (global_delta s) Hg) as [-> (raw & Eraw & _)]. rewrite Eraw. cbn [mbind option_bind].
    pose proof (fun key => sum_put_raw always key raw Hm Eraw) as Hput.
    destruct (tokens_fold _ (add_total (mkTvlWrites [] [] (sc_writes s)) (amm_tvl_total_key (tb_height b)) (map (fun tf => amm_tvl_line_key tf (bucket_start_for (tb_ts b) tf)) frames) raw) HTL)
      as (w & E & Ea & Ht & Hl1 & Hl2). exists w. split; [done|]. cbn [add_total tvl_line_writes tvl_total_writes pool_tvl_anchor_writes app] in *. split.
    + intros p. rewrite Ht, list_elem_of_singleton, <- Hput. split; (intros [Hp|(t & Hin & Hp)]; [by left|right]; exists t; (split; [|done])).
      * apply list_elem_of_fmap in Hin as ([t' d] & -> & Hin). by apply (HTL t' d).
      * destruct (Hmv t) as [d Hd]; [apply Hp|]. apply list_elem_of_fmap. exists (t, d). split; [done|]. by apply elem_of_map_to_list.
    + intros p [Hp|Hp]%Hl1; [|by left]. right. apply list_elem_of_In, in_map_iff in Hp as (k & <- & Hk). apply in_map_iff in Hk as (tf & <- & Htf).
      exists tf. split; [by apply list_elem_of_In|]. by apply Hput.
    + intros tf p Htf Hp%Hput. apply Hl2. subst p. apply list_elem_of_In, in_map_iff. eexists. split; [done|]. apply in_map_iff. exists tf. split; [done|]. by apply list_elem_of_In.
    + intros p. rewrite Ea. apply (sc_rows _ _ _ _ Hs).
Qed.

(** ** The rows after the block *)

Context (w : TvlWrites) (Hw : block_rows w).

Definition next_ns : Namespace := apply_puts (apply_deletes ns (tb_deletes b)) (tb_before b ++ tvl_puts w ++ tb_after b).

Lemma next_lookup k : tvl_space k = true -> next_ns !! k = orelse (last_put (tvl_puts w) k) (ns !! k).
Proof.
  intros Hk. assert (Hforeign : forall r, Forall not_tvl r -> last_put r k = None).
  { intros r Hr. apply last_put_none. intros v Hin. rewrite Forall_forall in Hr. specialize (Hr _ Hin). unfold not_tvl in Hr. cbn in Hr. congruence. }
  unfold next_ns. rewrite apply_puts_last, !last_put_app, (Hforeign (tb_before b)), (Hforeign (tb_after b)), apply_deletes_lookup by apply Hb.
  rewrite bool_decide_false; [by destruct (last_put (tvl_puts w) k)|]. intros Hin. pose proof (tk_deletes _ _ Hb) as Hd. rewrite Forall_forall in Hd.
  specialize (Hd _ Hin). cbn in Hd. congruence.
Qed.

(** The table of a row of the block decides which of its rows it is. *)
Lemma put_cases p : p ∈ tvl_puts w ->
  in_table TTokenLine p.1
  \/ (in_table TLine p.1 /\ exists tf, tf ∈ frames /\ sum_put always (amm_tvl_line_key tf (bucket_start_for (tb_ts b) tf)) p)
  \/ (in_table TTotal p.1 /\ sum_put always (amm_tvl_total_key (tb_height b)) p)
  \/ (in_table TTokenTotal p.1 /\ exists t, id_ok t /\ sum_put (touches D t) (token_tvl_total_key t (tb_height b)) p)
  \/ (in_table TAnchor p.1 /\ exists e raw, e ∈ l /\ default point_default (A !! e.1) <> e.2 /\ encode_tvl_point_v1 e.2 = Some raw /\ p = (pool_tvl_anchor_key e.1, raw)).
Proof.
  unfold tvl_puts. rewrite !elem_of_app. intros [Hp|[Hp|Hp]].
  - apply (br_line _ Hw) in Hp as [Hp|(tf & Htf & Hp)]; [by left|]. right. left. destruct Hp as [Hm (raw & E & ->)]. split; [apply line_table|]. exists tf. split; [done|]. by split; [|exists raw].
  - apply (br_total _ Hw) in Hp as [Hp|(t & Ht & Hp)]; destruct Hp as [Hm (raw & E & ->)]; right; right.
    + left. split; [apply total_table|]. by split; [|exists raw].
    + right. left. split; [apply token_total_table|]. exists t. split; [done|]. by split; [|exists raw].
  - apply (br_anchor _ Hw) in Hp as (e & raw & He & Hne & E & ->). do 4 right. split; [apply anchor_table|]. by exists e, raw.
Qed.

Ltac pick_table K :=
  destruct (put_cases _ K) as [T|[[T C]|[[T C]|[[T C]|[T C]]]]].

(** A series whose row is the new sum, or that stays. *)
Lemma series_next P `{!forall p, Decision (P p)} prefix v :
  series_ok decode_tvl_point_v1 prefix ns h v -> default point_default v = sum_point P A ->
  (forall k, starts_with k prefix = true -> tvl_space k = true) ->
  (forall p, p ∈ tvl_puts w -> starts_with p.1 prefix = true -> sum_put P (at_height prefix (tb_height b)) p) ->
  (forall p, sum_put P (at_height prefix (tb_height b)) p -> p ∈ tvl_puts w) ->
  exists v', series_ok decode_tvl_point_v1 prefix next_ns (tb_height b + 1) v' /\ default point_default v' = sum_point P A'.
Proof.
  intros Hv Ev Hspace Honly Hall. destruct (moves_or_not P) as [Hsame|Hm].
  - exists v. split; [|rewrite Ev; apply point_eq; intros c; by rewrite !pt_sum, Hsame].
    apply (series_keep _ _ ns _ h); [done|lia|]. intros k Hk. rewrite next_lookup by auto. rewrite last_put_none; [done|].
    intros x Hin. destruct (Honly _ Hin Hk) as [[c Hc] _]. by rewrite Hsame in Hc.
  - destruct (tvl_codec_roundtrip (sum_point P A')) as (raw & Eraw & Draw).
    { intros c. rewrite pt_sum. destruct (sums_range P c A' after_ok (tk_small _ _ Hb c)). unfold in_u128, u128_mod. lia. }
    pose proof (sum_put_raw P (at_height prefix (tb_height b)) raw Hm Eraw) as Hput.
    exists (Some (sum_point P A')). split; [|done]. pose proof (tk_height _ _ Hb) as Hht.
    eapply (series_step decode_tvl_point_v1 prefix ns next_ns h (tb_height b) v raw); [done|lia|lia|unfold in_u32, in_u64 in *; lia| | |done].
    + intros k Hk Hne. rewrite next_lookup by auto. rewrite last_put_none; [done|]. intros x Hin. pose proof (Honly _ Hin Hk) as Hx%Hput. congruence.
    + rewrite next_lookup by (apply Hspace, at_height_prefix).
      rewrite (last_put_unique _ _ raw); [done|by apply Hall, Hput|]. intros x Hin. pose proof (Honly _ Hin (at_height_prefix _ _)) as Hx%Hput. congruence.
Qed.

Lemma next_typed pool next :
  tb_anchors b !! pool = Some next -> exists raw, encode_tvl_point_v1 next = Some raw /\ decode_tvl_point_v1 raw = Some next.
Proof.
  intros Hn. pose proof (lookup_union_Some_l _ A _ _ Hn) as Hin. apply tvl_codec_roundtrip. intros c. split; [by apply (after_ok pool)|].
  assert (K : list_sum always c [(pool, next)] <= map_sum always c A').
  { apply list_sum_mono; [|apply anchors_forall, after_ok]. by apply singleton_submseteq_l, elem_of_map_to_list. }
  rewrite list_sum_single, part_always in K. pose proof (tk_small _ _ Hb c). unfold u128_mod. cbn in K. lia.
Qed.

Lemma next_follows : tvl_follows next_ns (tb_height b + 1) A'.
Proof.
  split.
  - intros pool Hp. unfold get_pool_tvl_anchor. rewrite next_lookup by (eapply table_space; [apply anchor_table|done]).
    assert (Honly : forall x, (pool_tvl_anchor_key pool, x) ∈ tvl_puts w -> exists next, tb_anchors b !! pool = Some next
      /\ default point_default (A !! pool) <> next /\ encode_tvl_point_v1 next = Some x).
    { intros x Hin. pick_table Hin; try (exfalso; pose proof (tables_apart _ _ _ T (anchor_table pool)); done).
      destruct C as ([p next] & raw & He%elem_of_map_to_list & Hne & E & Heq). pose proof (f_equal fst Heq) as Ek. pose proof (f_equal snd Heq) as Ex. cbn [fst snd] in *.
      apply anchor_key_inj in Ek as ->; [|done|by apply (tk_pool _ _ Hb _ _ He)]. exists next. by rewrite Ex. }
    destruct (last_put (tvl_puts w) (pool_tvl_anchor_key pool)) as [x|] eqn:El; cbn [orelse].
    + apply last_put_elem, Honly in El as (next & Hn & Hne & E). destruct (next_typed pool next Hn) as (raw & Eraw & Draw).
      cbn [mbind option_bind]. assert (x = raw) as -> by congruence. rewrite Draw. rewrite (lookup_union_Some_l _ _ _ _ Hn). done.
    + fold (get_pool_tvl_anchor ns pool). rewrite (tl_anchor _ _ _ Hns pool Hp). destruct (tb_anchors b !! pool) as [next|] eqn:En; [|by rewrite lookup_union_r].
      rewrite (lookup_union_Some_l _ _ _ _ En). cbn [default from_option id]. destruct (decide (default point_default (A !! pool) = next)) as [|Hne]; [done|]. exfalso.
      destruct (next_typed pool next En) as (raw & Eraw & _).
      assert (Hin : (pool_tvl_anchor_key pool, raw) ∈ tvl_puts w).
      { unfold tvl_puts. rewrite !elem_of_app. right. right. apply (br_anchor _ Hw). exists (pool, next), raw. split_and!; [by apply elem_of_map_to_list|done..]. }
      assert (is_Some (last_put (tvl_puts w) (pool_tvl_anchor_key pool))) as [? K]; [|congruence]. apply last_put_some, list_elem_of_fmap. by exists (pool_tvl_anchor_key pool, raw).
  - destruct (tl_total _ _ _ Hns) as (v & Hv & Ev). apply (series_next always amm_tvl_total_prefix v Hv Ev).
    + intros k [r ->]%starts_with_iff. eapply table_space; [apply total_table|done].
    + intros p Hin [r Er]%starts_with_iff. pose proof (total_table r) as Tr. rewrite <- Er in Tr. pick_table Hin; try (exfalso; pose proof (tables_apart _ _ _ T Tr); done). done.
    + intros p Hp. unfold tvl_puts. rewrite !elem_of_app. right. left. apply (br_total _ Hw). by left.
  - intros t Ht. destruct (tl_token _ _ _ Hns t Ht) as (v & Hv & Ev). apply (series_next (touches D t) (token_tvl_total_prefix t) v Hv Ev).
    + intros k [r ->]%starts_with_iff. eapply table_space; [apply token_total_table|done].
    + intros p Hin [r Er]%starts_with_iff. pose proof (token_total_table t r) as Tr. rewrite <- Er in Tr. pick_table Hin; try (exfalso; pose proof (tables_apart _ _ _ T Tr); done).
      destruct C as (t' & Ht' & Hp). assert (t' = t) as ->; [|done]. destruct Hp as [_ (raw & _ & ->)]. cbn in Er. by eapply token_prefix_inj.
    + intros p Hp. unfold tvl_puts. rewrite !elem_of_app. right. left. apply (br_total _ Hw). right. by exists t.
  - apply after_ok.
  - apply (tk_small _ _ Hb).
Qed.

(** When the total moves, the line of every timeframe has it in the block's bucket. *)
Lemma next_line tf :
  tf ∈ frames -> moves always ->
  next_ns !! amm_tvl_line_key tf (bucket_start_for (tb_ts b) tf) ≫= decode_tvl_point_v1 = Some (sum_point always A').
Proof.
  intros Htf Hm. destruct (tvl_codec_roundtrip (sum_point always A')) as (raw & Eraw & Draw).
  { intros c. rewrite pt_sum. destruct (sums_range always c A' after_ok (tk_small _ _ Hb c)). unfold in_u128, u128_mod. lia. }
  rewrite next_lookup by (eapply table_space; [apply line_table|done]). rewrite (last_put_unique _ _ raw); [done| |].
  - unfold tvl_puts. rewrite !elem_of_app. left. apply (br_lines _ Hw tf); [done|]. by split; [|exists raw].
  - intros x Hin. pick_table Hin; try (exfalso; pose proof (tables_apart _ _ _ T (line_table tf (bucket_start_for (tb_ts b) tf))); done).
    destruct C as (tf' & _ & _ & raw' & E' & Heq). apply (f_equal snd) in Heq. cbn in Heq. congruence.
Qed.

End Step.
End Index.
