(* ===== verification/AmmTvlClaims.v ===== *)
(** * Aggregated liquidity and volume: the properties *)
From stdpp Require Import strings.
From S2P Require Import Prelude Bytes Rocks RunesTransfer RunesStore RunesChain RunesInscriptions AlkTrace.
From S2P Require Import AmmPath AmmCandles AmmCandlesProps AmmChart AmmDepth AmmActivityProps AmmVolume AmmBlock AmmBlockProps AmmLog AmmVolumeProps.
From S2P Require Import AmmTvl AmmTvlProps.
From stdpp Require Import options.

Open Scope Z_scope.

(** The anchor of a pool is a point of the type, with one class of value only. *)
Lemma anchor_point_ok units btc defs input :
  0 <= base_tvl_sats input -> 0 <= quote_tvl_sats input -> 0 <= base_tvl_usd input -> 0 <= quote_tvl_usd input ->
  let p := pool_anchor_point units btc defs input in
  point_ok p /\ forall c c', pt c p <> 0 -> pt c' p <> 0 -> c = c'.
Proof.
  intros Hb Hq Hbu Hqu p. assert (Hm : forall x, 0 <= x -> 0 <= u128_sat_mul x 2) by (intros x Hx; unfold u128_sat_mul, u128_mod; lia).
  unfold p, pool_anchor_point, point_ok. destruct (bool_decide _); [|destruct (bool_decide _); [|destruct (_ <? _); [|destruct (_ <? _)]]].
  5: { set (v := match btc with Some _ => _ | None => _ end). assert (0 <= v).
       { unfold v. destruct btc as [price|]; [|done]. destruct (Z.ltb_spec 0 price); [|done]. apply Z.div_pos; [|done].
         unfold u128_sat_mul, u128_sat_add, AMOUNT_SCALE, u128_mod. lia. }
       split; [by intros []|by intros [] []]. }
  all: split; [intros []; cbn [pt canonical_sats derived_sats unanchored_sats]; first [by apply Hm|done]|by intros [] []].
Qed.

(** ** The totals of a chain *)

Section Claims.
Set Default Proof Using "Type*".
Context `{TvlCodecLaws}.
Context (D : SchemaAlkaneId -> SchemaMarketDefs) (frames : list Timeframe).

(** The last anchor of every pool. *)
Definition last_anchors (A : Anchors) (blocks : list TvlBlock) : Anchors := foldl (fun A b => tb_anchors b ∪ A) A blocks.

(** Blocks at growing heights, each in order, and no sum beyond the signed range. *)
Fixpoint tvl_chain (h : Z) (A : Anchors) (blocks : list TvlBlock) : Prop :=
  match blocks with
  | [] => True
  | b :: blocks => h <= tb_height b /\ tvl_block_ok D A b /\ tvl_chain (tb_height b + 1) (tb_anchors b ∪ A) blocks
  end.

Definition top (h : Z) (blocks : list TvlBlock) : Z := from_option (fun b => tb_height b + 1) h (last blocks).

Lemma index_tvl_step ns h A b :
  tvl_follows D ns h A -> tvl_block_ok D A b -> 0 <= h <= tb_height b ->
  exists ns', index_tvl_block frames ns b = Some ns' /\ tvl_follows D ns' (tb_height b + 1) (tb_anchors b ∪ A)
    /\ forall tf, tf ∈ frames -> (exists c, map_sum always c (tb_anchors b ∪ A) <> map_sum always c A) ->
         ns' !! amm_tvl_line_key tf (bucket_start_for (tb_ts b) tf) ≫= decode_tvl_point_v1 = Some (sum_point always (tb_anchors b ∪ A)).
Proof.
  intros Hns Hb Hh. destruct (prepare_rows D frames ns h A Hns b Hb Hh) as (w & E & Hw). unfold index_tvl_block. rewrite E. cbn [mbind option_bind].
  rewrite set_batch_spec. exists (next_ns ns b w). split; [done|]. split; [by eapply next_follows|].
  intros tf Htf Hm. by eapply next_line.
Qed.

Lemma tvl_chain_app h A pre post : tvl_chain h A (pre ++ post) <-> tvl_chain h A pre /\ tvl_chain (top h pre) (last_anchors A pre) post.
Proof.
  revert h A. induction pre as [|b pre IH]; intros h A; cbn [app tvl_chain]; [unfold top; cbn; tauto|]. rewrite IH. unfold last_anchors, top. cbn [foldl].
  assert (E : from_option (fun b => tb_height b + 1) (tb_height b + 1) (last pre) = from_option (fun b => tb_height b + 1) h (last (b :: pre))).
  { destruct (last pre) as [x|] eqn:El; rewrite last_cons, El; done. }
  rewrite E. tauto.
Qed.

Lemma index_tvl_run blocks ns h A :
  tvl_follows D ns h A -> 0 <= h -> tvl_chain h A blocks ->
  exists ns', index_tvl_blocks frames ns blocks = Some ns' /\ tvl_follows D ns' (top h blocks) (last_anchors A blocks)
    /\ (forall pre b, blocks = pre ++ [b] -> forall tf, tf ∈ frames ->
          (exists c, map_sum always c (last_anchors A blocks) <> map_sum always c (last_anchors A pre)) ->
          ns' !! amm_tvl_line_key tf (bucket_start_for (tb_ts b) tf) ≫= decode_tvl_point_v1 = Some (sum_point always (last_anchors A blocks))).
Proof.
  revert ns h A. induction blocks as [|b blocks IH]; intros ns h A Hns Hh Hc.
  { exists ns. split_and!; [done|done|]. intros pre b E. by destruct pre. }
  cbn [tvl_chain] in Hc. destruct Hc as (Hle & Hb & Hc). destruct (index_tvl_step ns h A b Hns Hb ltac:(lia)) as (ns1 & E1 & Hns1 & Hl1).
  destruct (IH ns1 (tb_height b + 1) (tb_anchors b ∪ A) Hns1 ltac:(pose proof (tk_height _ _ _ Hb) as K; unfold in_u32 in K; lia) Hc) as (ns' & E & Hns' & Hl).
  exists ns'. cbn [index_tvl_blocks]. rewrite E1. cbn [mbind option_bind]. split; [done|]. split.
  - assert (Et : top h (b :: blocks) = top (tb_height b + 1) blocks) by (unfold top; rewrite last_cons; by destruct (last blocks)). rewrite Et. done.
  - intros pre b' Eb tf Htf Hm. destruct pre as [|x pre]; cbn in Eb; injection Eb as -> Eb.
    + subst blocks. injection E as <-. by apply Hl1.
    + eapply (Hl pre b'); [done|done|exact Hm].
Qed.

Lemma empty_tvl : tvl_follows D ∅ 0 ∅.
Proof.
  assert (Hs : forall prefix, series_ok decode_tvl_point_v1 prefix ∅ 0 None).
  { intros prefix. split; [intros k _ [? K]; by rewrite lookup_empty in K|intros k _; apply lookup_empty]. }
  split.
  - intros pool _. unfold get_pool_tvl_anchor. by rewrite !lookup_empty.
  - by exists None.
  - intros t _. by exists None.
  - intros k p K. by rewrite lookup_empty in K.
  - intros c. by destruct c.
Qed.

(** C24: The totals of the locked value are what summing all the pools again would give.
    Whatever pools a block touches and whatever the rest of its batch is, indexing a chain
    returns; afterwards the stored anchor of a pool is its last one, the global total read
    at any later height is the sum of the last anchors of all pools, and the total of a
    token is the sum over the pools it is in, though every block only applies deltas; and
    when the last block has moved the global total, the line of every timeframe has the new
    total in that block's bucket. (The sums must stay in the signed 128-bit range.) *)
Theorem tvl_totals_exact blocks :
  tvl_chain 0 ∅ blocks ->
  let A := last_anchors ∅ blocks in
  exists ns, index_tvl_blocks frames ∅ blocks = Some ns
    /\ (forall pool, id_ok pool -> default point_default (get_pool_tvl_anchor ns pool) = default point_default (A !! pool))
    /\ (forall x, in_u32 x -> top 0 blocks <= x + 1 ->
          default point_default (snd <$> get_amm_tvl_total_at_or_before_height ns x) = sum_point always A
          /\ forall t, id_ok t -> default point_default (snd <$> get_token_tvl_total_at_or_before_height ns t x) = sum_point (touches D t) A)
    /\ (forall pre b, blocks = pre ++ [b] -> sum_point always A <> sum_point always (last_anchors ∅ pre) -> forall tf, tf ∈ frames ->
          ns !! amm_tvl_line_key tf (bucket_start_for (tb_ts b) tf) ≫= decode_tvl_point_v1 = Some (sum_point always A)).
Proof.
  intros Hc. cbn zeta. destruct (index_tvl_run blocks ∅ 0 ∅ empty_tvl ltac:(lia) Hc) as (ns & E & Hns & Hl). exists ns. split; [done|]. split_and!.
  - apply (tl_anchor _ _ _ _ Hns).
  - assert (Htop : 0 <= top 0 blocks).
    { unfold top. destruct (last blocks) as [b|] eqn:El; [|done]. apply last_Some in El as [pre ->]. apply tvl_chain_app in Hc as [_ (_ & Hb & _)].
      pose proof (tk_height _ _ _ Hb) as K. unfold in_u32 in K. cbn. lia. }
    intros x Hx Hle. unfold in_u32 in Hx. split.
    + destruct (tl_total _ _ _ _ Hns) as (v & Hv & <-). f_equal. eapply newest_spec; [done|unfold in_u64; lia|lia..].
    + intros t Ht. destruct (tl_token _ _ _ _ Hns t Ht) as (v & Hv & <-). f_equal. eapply newest_spec; [done|unfold in_u64; lia|lia..].
  - intros pre b Eb Hne tf Htf. eapply (Hl pre b Eb tf Htf).
    destruct (decide (map_sum always CCanonical (last_anchors ∅ blocks) = map_sum always CCanonical (last_anchors ∅ pre))) as [E1|]; [|by exists CCanonical].
    destruct (decide (map_sum always CDerived (last_anchors ∅ blocks) = map_sum always CDerived (last_anchors ∅ pre))) as [E2|]; [|by exists CDerived].
    destruct (decide (map_sum always CUnanchored (last_anchors ∅ blocks) = map_sum always CUnanchored (last_anchors ∅ pre))) as [E3|]; [|by exists CUnanchored].
    exfalso. apply Hne. unfold sum_point. by rewrite E1, E2, E3.
Qed.

End Claims.

(** ** The traded value *)

Section Volume.
Set Default Proof Using "Type*".
Context `{MetricsCodec}.
Context (ns : Namespace) (units : gmap SchemaAlkaneId CanonicalQuoteUnit) (btc : option Z) (pools_map : gmap SchemaAlkaneId SchemaMarketDefs).
Context (cache : gmap SchemaAlkaneId Z).

(** The price of a token in the block. *)
Definition price_of (token : SchemaAlkaneId) : Z := default (get_token_metrics ns token) (cache !! token).

(** The value of an amount, in dollars and in sats. *)
Definition value_of (token : SchemaAlkaneId) (amount : Z) : Z * Z :=
  (token_amount_values ns units btc {[ token := price_of token ]} token amount).1.

Definition pool_value (e : SchemaAlkaneId * (Z * Z)) : Z * Z :=
  match pools_map !! e.1 with
  | None => (0, 0)
  | Some defs => if decide (is_Some (units !! quote_alkane_id defs)) then value_of (quote_alkane_id defs) e.2.2 else value_of (base_alkane_id defs) e.2.1
  end.

Context (Hprice : forall token, 0 <= price_of token) (Hbtc : forall p, btc = Some p -> 0 <= p).

(** A cache that has grown by prices that were read. *)
Definition grown (c : gmap SchemaAlkaneId Z) : Prop := forall token, default (get_token_metrics ns token) (c !! token) = price_of token.

Lemma amount_values_grown c token amount :
  grown c -> exists c', token_amount_values ns units btc c token amount = (value_of token amount, c') /\ grown c'.
Proof.
  intros Hc. unfold value_of, token_amount_values. destruct (amount =? 0); [by exists c|]. destruct (units !! token) as [unit|]; [by exists c|].
  unfold token_price_usd. rewrite lookup_singleton_eq. pose proof (Hc token) as Et. destruct (c !! token) as [p|] eqn:E; cbn in Et.
  - subst p. exists c. by destruct (price_of token =? 0).
  - rewrite Et. exists (<[token := price_of token]> c). split; [by destruct (price_of token =? 0)|].
    intros t. destruct (decide (t = token)) as [->|Hne]; [by rewrite lookup_insert_eq|rewrite lookup_insert_ne by done; apply Hc].
Qed.

Lemma scaled_nonneg a b d : 0 <= a -> 0 <= b -> 0 <= d -> 0 <= u128_sat_mul a b / d.
Proof.
  intros Ha Hb Hd. assert (0 <= u128_sat_mul a b) by (unfold u128_sat_mul, u128_mod; pose proof (Z.mul_nonneg_nonneg a b Ha Hb); lia).
  destruct (Z.eqb_spec d 0) as [->|]; [by rewrite Z.div_0_r|]. apply Z.div_pos; lia.
Qed.

Lemma value_nonneg token amount : 0 <= amount -> 0 <= (value_of token amount).1 /\ 0 <= (value_of token amount).2.
Proof.
  intros Ha. unfold value_of, token_amount_values. destruct (amount =? 0); [done|]. destruct (units !! token) as [[]|].
  - cbn. destruct btc as [p|] eqn:Eb; cbn; [|done]. specialize (Hbtc p eq_refl). split; [by apply scaled_nonneg|done].
  - cbn. destruct btc as [p|] eqn:Eb; cbn; [|split; [by apply scaled_nonneg|done]]. specialize (Hbtc p eq_refl).
    split; [by apply scaled_nonneg|]. destruct (p =? 0); cbn; [done|by apply scaled_nonneg].
  - unfold token_price_usd. rewrite lookup_singleton_eq. pose proof (Hprice token) as Hp. destruct (price_of token =? 0); [done|]. cbn [fst snd].
    pose proof (scaled_nonneg amount (price_of token) AMOUNT_SCALE Ha Hp ltac:(done)) as Hu. split; [done|]. destruct btc as [p|] eqn:Eb; [|done].
    destruct (Z.ltb_spec 0 p); [|done]. apply scaled_nonneg; [done|done|lia].
Qed.

Definition volumes_nonneg (l : list (SchemaAlkaneId * (Z * Z))) : Prop := Forall (fun e => 0 <= e.2.1 /\ 0 <= e.2.2) l.

Lemma pool_value_nonneg e : 0 <= e.2.1 -> 0 <= e.2.2 -> 0 <= (pool_value e).1 /\ 0 <= (pool_value e).2.
Proof. intros Hx Hy. unfold pool_value. destruct (pools_map !! e.1); [|done]. case_decide; by apply value_nonneg. Qed.

Lemma values_fold l c x y :
  grown c -> volumes_nonneg l -> 0 <= x -> 0 <= y ->
  exists c', foldl (add_pool_value ns pools_map units btc) (sat x, sat y, c) l
    = (sat (x + total ((fun e => (pool_value e).1) <$> l)), sat (y + total ((fun e => (pool_value e).2) <$> l)), c') /\ grown c'.
Proof.
  revert c x y. induction l as [|[pool [ba qa]] l IH]; intros c x y Hc Hl Hx Hy; [exists c; cbn; by rewrite !Z.add_0_r|].
  apply Forall_cons in Hl as [[Hba Hqa] Hl]. cbn [fst snd] in Hba, Hqa. destruct (pool_value_nonneg (pool, (ba, qa)) Hba Hqa) as [Hv1 Hv2].
  assert (Hstep : exists c', add_pool_value ns pools_map units btc (sat x, sat y, c) (pool, (ba, qa))
    = (sat (x + (pool_value (pool, (ba, qa))).1), sat (y + (pool_value (pool, (ba, qa))).2), c') /\ grown c').
  { unfold add_pool_value, pool_value in *. cbn [fst snd] in *. destruct (pools_map !! pool) as [defs|]; [|exists c; by rewrite !Z.add_0_r].
    destruct (decide (is_Some (units !! quote_alkane_id defs))) as [Hq|Hq]; [rewrite bool_decide_true by done|rewrite bool_decide_false by done].
    - destruct (amount_values_grown c (quote_alkane_id defs) qa Hc) as (c' & E & Hc'). rewrite E. exists c'. split; [|done].
      destruct (value_of (quote_alkane_id defs) qa) as [u s]. cbn [fst snd] in *. by rewrite !sat_add.
    - destruct (amount_values_grown c (base_alkane_id defs) ba Hc) as (c' & E & Hc'). rewrite E. exists c'. split; [|done].
      destruct (value_of (base_alkane_id defs) ba) as [u s]. cbn [fst snd] in *. by rewrite !sat_add. }
  destruct Hstep as (c' & E & Hc'). cbn [foldl]. rewrite E.
  destruct (IH c' (x + (pool_value (pool, (ba, qa))).1) (y + (pool_value (pool, (ba, qa))).2) Hc' Hl ltac:(lia) ltac:(lia)) as (c'' & E' & Hc'').
  exists c''. rewrite E'. split; [|done]. cbn [fmap list_fmap]. unfold total at 3 4. cbn [foldr]. unfold total. by rewrite !Z.add_assoc.
Qed.

(** What the pools of a block have traded, in dollars or in sats. *)
Definition block_value (unit : TotalVolumeAmmUnit) (volumes : gmap SchemaAlkaneId (Z * Z)) : Z :=
  total ((fun e => match unit with VSats => (pool_value e).2 | VUsd => (pool_value e).1 end) <$> map_to_list volumes).

Lemma read_volume_total h v unit height :
  series_ok decode_u128_value (total_volume_amm_prefix unit) ns h v -> in_u64 h -> h <= height -> in_u32 height ->
  from_option snd 0 (get_total_volume_amm_at_or_before_height ns unit (Z.max 0 (height - 1))) = default 0 v.
Proof.
  intros Hv Hh Hle Hht. unfold in_u32, in_u64 in *.
  assert (E : snd <$> get_total_volume_amm_at_or_before_height ns unit (Z.max 0 (height - 1)) = v) by (eapply newest_spec; [done|unfold in_u64; lia|lia..]).
  rewrite <- E. by destruct (get_total_volume_amm_at_or_before_height _ _ _).
Qed.

(** The running totals of the traded value: the rows of a block, put on top, move each total
    by the value of the block's trades. *)
Theorem volume_totals_exact height volumes pre post h (T : TotalVolumeAmmUnit -> Z) :
  volumes_nonneg (map_to_list volumes) -> in_u64 h -> h <= height -> in_u32 height ->
  (forall unit, 0 <= T unit /\ exists v, series_ok decode_u128_value (total_volume_amm_prefix unit) ns h v /\ default 0 v = sat (T unit)) ->
  Forall (fun p : bytes * bytes => starts_with p.1 (bstr "/total_volume_amm/v1/") = false) (pre ++ post) ->
  let puts := (prepare_total_volume_amm ns height units btc pools_map volumes cache).1 in
  forall unit, exists v, series_ok decode_u128_value (total_volume_amm_prefix unit) (apply_puts ns (pre ++ puts ++ post)) (height + 1) v
    /\ default 0 v = sat (T unit + block_value unit volumes).
Proof.
  intros Hvol Hh Hle Hht HT Hpp puts unit.
  destruct (values_fold (map_to_list volumes) cache 0 0 ltac:(intros t; done) Hvol ltac:(lia) ltac:(lia)) as (c' & E & _).
  assert (Hn : forall u, 0 <= block_value u volumes).
  { intros u. apply total_forall_nonneg. apply Forall_fmap. eapply Forall_impl; [exact Hvol|]. intros e [Hx Hy]. cbn. destruct (pool_value_nonneg e Hx Hy). by destruct u. }
  assert (Hputs : puts = volume_total_write ns height VSats (sat (block_value VSats volumes)) ++ volume_total_write ns height VUsd (sat (block_value VUsd volumes))).
  { unfold puts, prepare_total_volume_amm. change (sat 0) with 0 in E.
    change (total ((fun e => (pool_value e).1) <$> map_to_list volumes)) with (block_value VUsd volumes) in E.
    change (total ((fun e => (pool_value e).2) <$> map_to_list volumes)) with (block_value VSats volumes) in E. rewrite !Z.add_0_l in E. rewrite E.
    destruct (Z.eqb_spec (sat (block_value VSats volumes)) 0) as [E1|]; [|done]. destruct (Z.eqb_spec (sat (block_value VUsd volumes)) 0) as [E2|]; [|done]. cbn. by rewrite E1, E2. }
  destruct (HT unit) as (HT0 & v & Hv & Ev). set (prefix := total_volume_amm_prefix unit) in *. set (a := block_value unit volumes) in *.
  assert (Hlook : forall k, starts_with k prefix = true ->
    apply_puts ns (pre ++ puts ++ post) !! k = orelse (last_put (volume_total_write ns height unit (sat a)) k) (ns !! k)).
  { intros k Hk. apply Forall_app in Hpp as [Hpre Hpost]. rewrite apply_puts_last, Hputs, !last_put_app.
    assert (Hf : forall r, Forall (fun p : bytes * bytes => starts_with p.1 (bstr "/total_volume_amm/v1/") = false) r -> last_put r k = None).
    { intros r Hr. apply last_put_none. intros x Hin. rewrite Forall_forall in Hr. specialize (Hr _ Hin). cbn [fst] in Hr. unfold prefix, total_volume_amm_prefix in Hk.
      apply starts_with_iff in Hk as [z ->]. rewrite <- !app_assoc, starts_with_app in Hr. done. }
    rewrite (Hf pre Hpre), (Hf post Hpost).
    assert (Ho : forall u x, u <> unit -> last_put (volume_total_write ns height u x) k = None).
    { intros u x Hu. apply last_put_none. intros y Hin. unfold volume_total_write in Hin. destruct (0 <? x); [|by apply elem_of_nil in Hin].
      apply list_elem_of_singleton in Hin. apply (f_equal fst) in Hin. cbn [fst] in Hin. apply starts_with_iff in Hk as [z Ez]. rewrite Ez in Hin.
      unfold prefix in Hin. by destruct u, unit. }
    destruct unit; rewrite ?(Ho VSats), ?(Ho VUsd) by done; cbn [orelse]; by destruct (last_put _ k). }
  assert (Hsat : 0 <= a) by apply Hn. unfold volume_total_write in Hlook. rewrite (read_volume_total h v unit height Hv Hh Hle Hht), Ev in Hlook.
  destruct (Z.ltb_spec 0 (sat a)) as [Hpos|Hzero].
  - rewrite sat_sat in Hlook by done. exists (Some (sat (T unit + a))). split; [|done].
    eapply (series_step decode_u128_value prefix ns _ h height v (encode_u128_value (sat (T unit + a)))); [done|apply Hh|done|unfold in_u32, in_u64 in *; lia| | |].
    + intros k Hk Hne. rewrite Hlook by done. rewrite last_put_none; [done|]. intros x Hin%list_elem_of_singleton. apply (f_equal fst) in Hin. done.
    + rewrite Hlook by apply at_height_prefix. unfold last_put, total_volume_amm_key. cbn. by rewrite bool_decide_true by done.
    + apply u128_value_roundtrip, sat_range. lia.
  - exists v. split.
    + eapply series_keep; [exact Hv|lia|]. intros k Hk. by rewrite Hlook by done.
    + rewrite Ev. f_equal. unfold sat, u128_mod in Hzero. lia.
Qed.

End Volume.

(** ** A codec and a chain *)

#[local] Instance point_typed_dec p : Decision (in_u128 (canonical_sats p) /\ in_u128 (derived_sats p) /\ in_u128 (unanchored_sats p)).
Proof. unfold in_u128. apply _. Defined.

Definition point_bytes (p : SchemaTvlPointV1) : bytes := le_bytes 16 (canonical_sats p) ++ le_bytes 16 (derived_sats p) ++ le_bytes 16 (unanchored_sats p).

#[local] Instance borsh_tvl : TvlCodec := {
  encode_tvl_point_v1 p :=
    if decide (in_u128 (canonical_sats p) /\ in_u128 (derived_sats p) /\ in_u128 (unanchored_sats p)) then Some (point_bytes p) else None;
  decode_tvl_point_v1 v :=
    if (length v =? 48)%nat then Some (mkPoint (from_le (take 16 v)) (from_le (take 16 (drop 16 v))) (from_le (drop 32 v))) else None;
}.

#[local] Instance borsh_tvl_laws : TvlCodecLaws.
Proof.
  split. intros p Hp. pose proof (conj (Hp CCanonical) (conj (Hp CDerived) (Hp CUnanchored))) as K. cbn [pt] in K.
  exists (point_bytes p). split.
  { change ((if decide (in_u128 (canonical_sats p) /\ in_u128 (derived_sats p) /\ in_u128 (unanchored_sats p)) then Some (point_bytes p) else None) = Some (point_bytes p)).
    by rewrite (decide_True _ _ K). }
  destruct K as (K1 & K2 & K3).
  change ((if (length (point_bytes p) =? 48)%nat
           then Some (mkPoint (from_le (take 16 (point_bytes p))) (from_le (take 16 (drop 16 (point_bytes p)))) (from_le (drop 32 (point_bytes p)))) else None) = Some p).
  unfold point_bytes. rewrite !length_app, !length_le_bytes. cbn [Nat.add Nat.eqb].
  rewrite take_app_length', (drop_app_length' (le_bytes 16 (canonical_sats p))), take_app_length' by (by rewrite length_le_bytes).
  rewrite app_assoc, drop_app_length' by (by rewrite length_app, !length_le_bytes). rewrite !from_le_le_bytes. change (256 ^ Z.of_nat 16) with u128_mod.
  rewrite (Z.mod_small _ _ K1), (Z.mod_small _ _ K2), (Z.mod_small _ _ K3). by destruct p.
Defined.

Definition tok_a : SchemaAlkaneId := mkAlkaneId 2 0.
Definition tok_b : SchemaAlkaneId := mkAlkaneId 32 0.
Definition pool_1 : SchemaAlkaneId := mkAlkaneId 2 5.
Definition pool_2 : SchemaAlkaneId := mkAlkaneId 2 6.

Definition demo_defs (p : SchemaAlkaneId) : SchemaMarketDefs :=
  if decide (p = pool_1) then mkDefs tok_a tok_b pool_1 else mkDefs (mkAlkaneId 2 9) tok_b p.

Definition demo_market : gmap SchemaAlkaneId SchemaMarketDefs := {[ pool_1 := demo_defs pool_1; pool_2 := demo_defs pool_2 ]}.

(** Two pools, then one of them loses value and changes its class. *)
Definition demo_tvl : list TvlBlock :=
  [ mkTvlBlock 100 1700000000 demo_market {[ pool_1 := mkPoint 700 0 0; pool_2 := mkPoint 0 300 0 ]} [] [] [];
    mkTvlBlock 101 1700000600 demo_market {[ pool_2 := mkPoint 0 0 50 ]} [(bstr "/pools/x", [])] [] [] ].

Lemma demo_tvl_ok A b : b ∈ demo_tvl -> (forall c, map_sum always c (tb_anchors b ∪ A) < 2 ^ 127) -> tvl_block_ok demo_defs A b.
Proof.
  unfold demo_tvl. rewrite elem_of_cons, list_elem_of_singleton. intros Hb Hs.
  assert (Hpool : forall p n, tb_anchors b !! p = Some n -> (p = pool_1 \/ p = pool_2) /\ point_ok n).
  { intros p n Hp. destruct Hb as [-> | ->]; cbn [tb_anchors] in Hp.
    - apply lookup_insert_Some in Hp as [[<- <-]|[_ [<- <-]%lookup_singleton_Some]]; (split; [auto|by intros []]).
    - apply lookup_singleton_Some in Hp as [<- <-]. split; [auto|by intros []]. }
  split; [| |done| | |].
  - destruct Hb as [-> | ->]; split; vm_compute; done.
  - intros p n [Hp Hn]%Hpool. assert (Em : tb_pools b = demo_market) by (by destruct Hb as [-> | ->]). rewrite Em.
    destruct Hp as [-> | ->]; split_and!; try done; repeat split; vm_compute; done.
  - destruct Hb as [-> | ->]; repeat constructor.
  - destruct Hb as [-> | ->]; repeat constructor.
  - destruct Hb as [-> | ->]; repeat constructor.
Qed.

Lemma demo_tvl_chain : tvl_chain demo_defs 0 ∅ demo_tvl.
Proof.
  unfold demo_tvl. cbn [tvl_chain tb_height tb_anchors]. split_and!; try done.
  - apply demo_tvl_ok; [apply elem_of_cons; by left|]. intros []; vm_compute; reflexivity.
  - apply demo_tvl_ok; [apply elem_of_cons; right; by apply list_elem_of_singleton|]. intros []; vm_compute; reflexivity.
Qed.

Lemma tvl_totals_exact_witness :
  exists ns, index_tvl_blocks active_timeframes ∅ demo_tvl = Some ns
    /\ default point_default (snd <$> get_amm_tvl_total_at_or_before_height ns 101) = mkPoint 700 0 50
    /\ default point_default (snd <$> get_token_tvl_total_at_or_before_height ns tok_a 101) = mkPoint 700 0 0.
Proof.
  destruct (tvl_totals_exact demo_defs active_timeframes demo_tvl demo_tvl_chain) as (ns & E & _ & Hr & _). exists ns. split; [exact E|].
  destruct (Hr 101) as [E1 E2]; [split; vm_compute; done|vm_compute; done|]. split.
  - rewrite E1. vm_compute. reflexivity.
  - rewrite E2 by (split; split; vm_compute; done). vm_compute. reflexivity.
Defined.
