(* ===== verification/AmmPools.v ===== *)
(** * Pools

    How the AMM module learns of its factories and pools:
    [src/modules/ammdata/utils/index_factories.rs], [index_pools.rs], [cryptoswap.rs],
    [index_snapshot.rs], the extraction of new pools in [reserves.rs], with the helpers of
    [src/modules/ammdata/main.rs], the tables of [src/modules/ammdata/storage.rs] and the
    balances of a contract in [src/modules/essentials/utils/balances/lib.rs].

    The rows of the essentials module at the block are the namespace [es], which has the
    block's own rows already: the module is indexed first, and a read at the block in
    progress sees its writes.  Its borsh layouts, the summary of a transaction, the
    balance the node reports of a contract in itself and Unicode upper case are the
    class [Essentials].  A remote explorer is not configured while a block is indexed. *)
From stdpp Require Import strings.
From S2P Require Import Prelude Bytes RunesTransfer RunesStore RunesChain RunesInscriptions AlkTrace AlkSheets AlkTransfer.
From S2P Require Import AmmPath AmmCandles AmmActivity AmmVolume AmmBlock AmmWindows.
From stdpp Require Import options.

Open Scope Z_scope.

(** ** Data *)

Record StoredInspectionMetadata := mkMetadata { md_name : bytes; md_opcodes : list Z }.

Record StoredInspectionResult := mkInspection {
  in_metadata : option StoredInspectionMetadata;
  factory_alkane : option SchemaAlkaneId;
}.

Record AlkaneCreationRecord := mkCreation {
  cr_txid : bytes;
  inspection : option StoredInspectionResult;
  cr_names : list bytes;
  cr_symbols : list bytes;
}.

Class Essentials := {
  (** [Vec::<SchemaAlkaneId>::try_from_slice] *)
  alkane_ids_from_slice : bytes -> option (list SchemaAlkaneId);
  decode_creation_record : bytes -> option AlkaneCreationRecord;
  (** The traces of a transaction. *)
  load_tx_summary_v2 : bytes -> option (list EspoSandshrewLikeTrace);
  lookup_self_balance : SchemaAlkaneId -> option Z;
  (** [str::to_uppercase] *)
  to_uppercase : bytes -> bytes;
}.

Record SchemaPoolCreationInfoV1 := mkCreationInfo {
  creator_spk : bytes;
  creation_height : Z;
  initial_token0_amount : Z;
  initial_token1_amount : Z;
  initial_lp_supply : Z;
}.

Record SchemaCanonicalPoolEntry := mkCanonicalPool { ce_pool_id : SchemaAlkaneId; ce_quote_id : SchemaAlkaneId }.

(** Borsh of the rows of this module. *)
Class PoolCodec := {
  market_defs_to_vec : SchemaMarketDefs -> option bytes;
  pool_snapshot_to_vec : SchemaPoolSnapshot -> option bytes;
  pool_snapshot_from_slice : bytes -> option SchemaPoolSnapshot;
  creation_info_to_vec : SchemaPoolCreationInfoV1 -> option bytes;
}.

Record EspoAlkanesTransaction := mkAlkanesTx { at_traces : option (list EspoTrace); at_transaction : Transaction }.

(** What the AMM module reads of a block. *)
Record PoolBlock := mkPoolBlock {
  pb_height : Z;
  pb_ts : Z;
  pb_host : EspoHostFunctionValues;
  pb_transactions : list EspoAlkanesTransaction;
}.

Inductive Network := Bitcoin | OtherNetwork.

(** ** Table keys *)

Definition factory_pools_prefix (factory : SchemaAlkaneId) : bytes := bstr "/factory_pools/v1/" ++ id_be factory ++ bstr "/".
Definition factory_pools_key (factory pool : SchemaAlkaneId) : bytes := factory_pools_prefix factory ++ id_be pool.
Definition pool_factory_key (pool : SchemaAlkaneId) : bytes := bstr "/pool_factory/v1/" ++ id_be pool.
Definition pool_lp_supply_latest_key (pool : SchemaAlkaneId) : bytes := bstr "/pool_lp_supply/latest/" ++ id_be pool.
Definition pool_creation_info_key (pool : SchemaAlkaneId) : bytes := bstr "/pool_creation_info/v1/" ++ id_be pool.
Definition pool_name_index_key (name : bytes) (pool : SchemaAlkaneId) : bytes := bstr "/pool_name_index/" ++ name ++ bstr "/" ++ id_be pool.
Definition amm_factories_prefix : bytes := bstr "/amm_factories/v1/".
Definition amm_factory_key (factory : SchemaAlkaneId) : bytes := amm_factories_prefix ++ id_be factory.
Definition reserves_snapshot_pool_prefix : bytes := bstr "/reserves_snapshot/v2/pool/".
Definition reserves_snapshot_pool_key (pool : SchemaAlkaneId) : bytes := reserves_snapshot_pool_prefix ++ id_be pool.

Definition pool_creations_key (ts seq : Z) (pool : SchemaAlkaneId) : bytes :=
  bstr "/pool_creations/v1/" ++ to_string ts ++ [colon] ++ to_string seq ++ bstr "/" ++ id_be pool.

Definition address_pool_creations_key (address_spk : bytes) (ts seq : Z) (pool : SchemaAlkaneId) : bytes :=
  bstr "/address_pool_creations/v1/" ++ push_spk address_spk ++ be_u64 ts ++ be_u32 seq ++ id_be pool.

Definition parse_alkane_id_from_prefixed_key (prefix key : bytes) : option SchemaAlkaneId :=
  if starts_with key prefix then decode_alkane_id_be (drop (length prefix) key) else None.

(** Keys of the essentials module. *)
Definition ALKANE_V2_PREFIX : bytes := bstr "/alkane/v2/".
Definition alkane_balance_key (owner token : SchemaAlkaneId) : bytes := ALKANE_V2_PREFIX ++ id_be owner ++ bstr "/balance/" ++ id_be token.
Definition alkane_balance_list_prefix (owner : SchemaAlkaneId) : bytes := ALKANE_V2_PREFIX ++ id_be owner ++ bstr "/balance_idx/".
Definition alkane_balance_list_len_key (owner : SchemaAlkaneId) : bytes := alkane_balance_list_prefix owner ++ bstr "length".
Definition alkane_balance_list_idx_key (owner : SchemaAlkaneId) (idx : Z) : bytes := alkane_balance_list_prefix owner ++ be_bytes 4 idx.
Definition alkane_creation_by_id_key (alkane : SchemaAlkaneId) : bytes := bstr "/alkanes/creation/id/" ++ id_be alkane.
Definition alkane_creations_in_block_key (height : Z) : bytes := bstr "/alkanes/creation/in_block/v2/" ++ be_bytes 4 height.
Definition circulating_supply_latest_key (alkane : SchemaAlkaneId) : bytes := bstr "/circulating_supply/latest/" ++ id_be alkane.

(** A key longer than a [u16] can say is cut. *)
Definition kv_row_key (alk : SchemaAlkaneId) (skey : bytes) : bytes :=
  let len := Z.min (Z.of_nat (length skey)) 65535 in
  [z2b 0x01] ++ id_be alk ++ be_bytes 2 len ++ take (Z.to_nat len) skey.

(** ** Numbers and names *)

(** [u128::from_str_radix] of what follows ["0x"], when it is at most [max]. *)
Definition parse_hex_to (max : Z) (s : bytes) : option Z :=
  v ← from_str_radix 16 u128_mod (strip_prefix_or hex_prefix s);
  if max <? v then None else Some v.

Definition hex_u32 (s : bytes) : option Z := parse_hex_to (2 ^ 32 - 1) s.
Definition hex_u64 (s : bytes) : option Z := parse_hex_to (2 ^ 64 - 1) s.

(** [trim_start_matches]: the pattern is removed as often as it is there. *)
Fixpoint trim_start_matches (fuel : nat) (p s : bytes) : bytes :=
  match fuel with
  | O => s
  | S fuel => if starts_with s p then trim_start_matches fuel p (drop (length p) s) else s
  end.

Definition hex_u128 (s : bytes) : option Z := from_str_radix 16 u128_mod (trim_start_matches (length s) hex_prefix s).

Definition schema_id_from_short (id : EspoSandshrewLikeTraceShortId) : option SchemaAlkaneId :=
  block ← hex_u32 (sid_block id);
  tx ← hex_u64 (sid_tx id);
  Some (mkAlkaneId block tx).

(** Two little-endian words of sixteen bytes that are an id. *)
Definition id_from_words (raw : bytes) : option SchemaAlkaneId :=
  let block := from_le (take 16 raw) in
  let tx := from_le (take 16 (drop 16 raw)) in
  if (2 ^ 32 - 1 <? block) || (2 ^ 64 - 1 <? tx) then None else Some (mkAlkaneId block tx).

Definition to_ascii_uppercase (s : bytes) : bytes :=
  (fun b => let x := b2z b in if (0x61 <=? x) && (x <=? 0x7a) then z2b (x - 0x20) else b) <$> s.

(** [str::trim_end] of a string known to be UTF-8. *)
Definition trim_end (s : bytes) : bytes :=
  default s ((fun cs => mjoin (reverse (drop_while is_whitespace (reverse cs)))) <$> chars s).

Definition ends_with (s p : bytes) : bool := starts_with (reverse s) (reverse p).

Definition strip_lp_suffix (raw : bytes) : bytes :=
  let trimmed := trim_end raw in
  let upper := to_ascii_uppercase trimmed in
  if ends_with upper (bstr " LP") && (3 <=? length trimmed)%nat then trim_end (take (length trimmed - 3) trimmed)
  else if ends_with upper (bstr "LP") && (2 <=? length trimmed)%nat then trim_end (take (length trimmed - 2) trimmed)
  else trimmed.

Definition first_nonempty (l : list bytes) : option bytes := head (filter (fun s => s <> []) (trim <$> l)).

(** ** Reads of the essentials rows *)

Section Essentials.
Context {ess : Essentials}.

Definition display_alkane_name (names : list bytes) : option bytes := first_nonempty (reverse names).

Definition display_alkane_name_and_symbol (names symbols : list bytes) : option bytes * option bytes :=
  match display_alkane_name names, first_nonempty symbols with
  | Some name, Some symbol => (Some name, Some symbol)
  | Some name, None => (Some name, Some (to_uppercase name))
  | None, Some symbol => (Some symbol, Some symbol)
  | None, None => (None, None)
  end.

(** [get_creation_ids_in_block(..).map(..).unwrap_or_default()] *)
Definition created_alkanes (es : Namespace) (height : Z) : list SchemaAlkaneId :=
  default [] (es !! alkane_creations_in_block_key height ≫= alkane_ids_from_slice).

(** [get_creation_record(..).ok().and_then(|resp| resp.record)] *)
Definition creation_record (es : Namespace) (alkane : SchemaAlkaneId) : option AlkaneCreationRecord :=
  es !! alkane_creation_by_id_key alkane ≫= decode_creation_record.

Definition get_latest_circulating_supply (es : Namespace) (alkane : SchemaAlkaneId) : Z :=
  default 0 (es !! circulating_supply_latest_key alkane ≫= decode_u128_value).

(** The tokens of the owner's list, in its order. *)
Definition balance_tokens (es : Namespace) (owner : SchemaAlkaneId) : list SchemaAlkaneId :=
  let len := default 0 (es !! alkane_balance_list_len_key owner ≫= fun b => if (length b =? 4)%nat then Some (from_le b) else None) in
  omap (fun idx => es !! alkane_balance_list_idx_key owner idx ≫= decode_alkane_id_be) (seqZ 0 len).

Definition add_balance (es : Namespace) (owner : SchemaAlkaneId) (agg : gmap SchemaAlkaneId Z) (token : SchemaAlkaneId) : gmap SchemaAlkaneId Z :=
  match es !! alkane_balance_key owner token ≫= decode_u128_value with
  | None => agg
  | Some amount => if amount =? 0 then agg else <[token := amount]> agg
  end.

Definition get_alkane_balances (es : Namespace) (owner : SchemaAlkaneId) : gmap SchemaAlkaneId Z :=
  let agg := foldl (add_balance es owner) ∅ (balance_tokens es owner) in
  match lookup_self_balance owner with
  | None => agg
  | Some self_balance => if self_balance =? 0 then delete owner agg else <[owner := self_balance]> agg
  end.

(** [pool_balances.remove(..).unwrap_or(0)] of the base, then of the quote. *)
Definition pool_reserves (es : Namespace) (defs : SchemaMarketDefs) : Z * Z :=
  let balances := get_alkane_balances es (pool_alkane_id defs) in
  (default 0 (balances !! base_alkane_id defs), default 0 (delete (base_alkane_id defs) balances !! quote_alkane_id defs)).

(** The label with the cache it is in afterwards. *)
Definition get_alkane_label (es : Namespace) (cache : gmap SchemaAlkaneId bytes) (alkane : SchemaAlkaneId) : gmap SchemaAlkaneId bytes * bytes :=
  match cache !! alkane with
  | Some label => (cache, label)
  | None =>
      let label := default (to_string (ak_block alkane) ++ [colon] ++ to_string (ak_tx alkane))
                     (creation_record es alkane ≫= fun rec => (display_alkane_name_and_symbol (cr_names rec) (cr_symbols rec)).2) in
      (<[alkane := label]> cache, label)
  end.

(** ** Factories *)

Definition AMM_FACTORY_OPCODES : list Z := [0; 1; 2; 3; 4; 7; 10; 11; 12; 13; 14; 21; 29; 50].

Definition is_amm_factory_metadata (meta : StoredInspectionMetadata) : bool :=
  forallb (fun opcode => bool_decide (opcode ∈ md_opcodes meta)) AMM_FACTORY_OPCODES
  || bool_decide (to_ascii_lowercase (md_name meta) = bstr "ammfactory").

Definition inspection_is_amm_factory (i : StoredInspectionResult) : bool :=
  match in_metadata i with Some meta => is_amm_factory_metadata meta | None => false end.

Definition decode_kv_implementation (raw : bytes) : option SchemaAlkaneId :=
  if (length raw <? 32)%nat then None else id_from_words raw.

(** Rows are the txid of the last write and the value. *)
Definition row_value (raw : bytes) : bytes := if (32 <=? length raw)%nat then drop 32 raw else raw.

Definition lookup_proxy_target (es : Namespace) (alkane : SchemaAlkaneId) : option SchemaAlkaneId :=
  head (omap (fun key => es !! kv_row_key alkane key ≫= fun value => decode_kv_implementation (row_value value))
          [bstr "/implementation"; bstr "/beacon"]).

Definition lookup_proxy_target_cached (es : Namespace) (cache : gmap SchemaAlkaneId (option SchemaAlkaneId)) (alkane : SchemaAlkaneId)
    : gmap SchemaAlkaneId (option SchemaAlkaneId) * option SchemaAlkaneId :=
  match cache !! alkane with
  | Some target => (cache, target)
  | None => let target := lookup_proxy_target es alkane in (<[alkane := target]> cache, target)
  end.

Definition get_amm_factories (ns : Namespace) : list SchemaAlkaneId :=
  omap (parse_alkane_id_from_prefixed_key amm_factories_prefix) (get_list_keys_by_prefix ns amm_factories_prefix).

Record Factories := mkFactories {
  amm_factories : gset SchemaAlkaneId;
  amm_factory_writes : list (bytes * bytes);
  proxy_target_cache : gmap SchemaAlkaneId (option SchemaAlkaneId);
}.

Definition add_factory (f : Factories) (id : SchemaAlkaneId) : Factories :=
  mkFactories ({[id]} ∪ amm_factories f) (amm_factory_writes f ++ [(amm_factory_key id, [])]) (proxy_target_cache f).

Definition record_is_factory (es : Namespace) (id : SchemaAlkaneId) : bool :=
  match (creation_record es id ≫= inspection) with Some i => inspection_is_amm_factory i | None => false end.

(** One alkane created in the block: the factory its record names, then itself. *)
Definition consider_factory (es : Namespace) (f : Factories) (alk : SchemaAlkaneId) : Factories :=
  if bool_decide (alk ∈ amm_factories f) then f
  else
    let is_factory := record_is_factory es alk in
    let f :=
      match (i ← creation_record es alk ≫= inspection; factory_alkane i) with
      | Some factory_id => if bool_decide (factory_id ∈ amm_factories f) then f else add_factory f factory_id
      | None => f
      end in
    let '(f, is_factory) :=
      if is_factory then (f, true)
      else
        let '(cache, target) := lookup_proxy_target_cached es (proxy_target_cache f) alk in
        (mkFactories (amm_factories f) (amm_factory_writes f) cache,
         match target with Some t => record_is_factory es t | None => false end) in
    if is_factory then add_factory f alk else f.

Definition prepare_factories (ns es : Namespace) (height : Z) : gset SchemaAlkaneId * list (bytes * bytes) :=
  let f := foldl (consider_factory es) (mkFactories (list_to_set (get_amm_factories ns)) [] ∅) (created_alkanes es height) in
  (amm_factories f, amm_factory_writes f).

End Essentials.

(** ** The pools a transaction creates *)

Record NewPoolInfo := mkNewPool { np_pool_id : SchemaAlkaneId; np_defs : SchemaMarketDefs; np_factory_id : option SchemaAlkaneId }.

Section Traces.
Context {crates : TraceCrates}.

Definition decode_storage_id_hex_word (raw_hex : bytes) : option SchemaAlkaneId :=
  let hex := strip_prefix_or hex_prefix raw_hex in
  if negb (length hex =? 64)%nat then None else raw ← hex_decode hex; id_from_words raw.

(** The value last written under a key. *)
Definition storage_value (key : bytes) (storage : list EspoSandshrewLikeTraceStorageKV) : option bytes :=
  foldl (fun acc kv => if bool_decide (skv_key kv = key) then Some (skv_value kv) else acc) None storage.

Definition key_alkane_0 : bytes := bstr "/alkane/0".
Definition key_alkane_1 : bytes := bstr "/alkane/1".
Definition key_factory_id : bytes := bstr "/factory_id".

(** The walk over the events: the stack of calls with the innermost first, the pools found. *)
Record PoolWalk := mkPoolWalk {
  pw_stack : list EspoSandshrewLikeTraceShortId;
  pw_results : list NewPoolInfo;
  pw_seen : gset (Z * Z);
}.

Definition created_ids_of (traces : list EspoSandshrewLikeTrace) : gset (bytes * bytes) :=
  list_to_set (omap (fun ev => match ev with Create c => Some (sid_block c, sid_tx c) | _ => None end) (mjoin (events <$> traces))).

(** The return of a contract created in the transaction; [None] is an error. *)
Definition pool_of_return (leaving : EspoSandshrewLikeTraceShortId) (storage : list EspoSandshrewLikeTraceStorageKV) (w : PoolWalk) : option PoolWalk :=
  match storage_value key_alkane_0 storage, storage_value key_alkane_1 storage with
  | Some v0, Some v1 =>
      base_id ← decode_storage_id_hex_word v0;
      quote_id ← decode_storage_id_hex_word v1;
      pool_id ← schema_id_from_short leaving;
      if bool_decide ((ak_block pool_id, ak_tx pool_id) ∈ pw_seen w) then Some w
      else
        let factory_id := storage_value key_factory_id storage ≫= decode_storage_id_hex_word in
        Some (mkPoolWalk (pw_stack w) (pw_results w ++ [mkNewPool pool_id (mkDefs base_id quote_id pool_id) factory_id])
                ({[(ak_block pool_id, ak_tx pool_id)]} ∪ pw_seen w))
  | _, _ => Some w
  end.

Definition pool_step (created_ids : gset (bytes * bytes)) (acc : option PoolWalk) (ev : EspoSandshrewLikeTraceEvent) : option PoolWalk :=
  w ← acc;
  match ev with
  | Invoke inv => Some (mkPoolWalk (myself (context inv) :: pw_stack w) (pw_results w) (pw_seen w))
  | Return ret =>
      match pw_stack w with
      | [] => Some w
      | leaving :: stack =>
          let w := mkPoolWalk stack (pw_results w) (pw_seen w) in
          if bool_decide ((sid_block leaving, sid_tx leaving) ∈ created_ids) then
            match rs_storage (response ret) with [] => Some w | storage => pool_of_return leaving storage w end
          else Some w
      end
  | Create _ => Some w
  end.

Definition extract_new_pools_from_espo_transaction (transaction : EspoAlkanesTransaction) (host : EspoHostFunctionValues) : option (list NewPoolInfo) :=
  match at_traces transaction with
  | None => Some []
  | Some traces =>
      let cleaned_traces := omap (fun t => clean_espo_sandshrew_like_trace (sandshrew_trace t) host) traces in
      if bool_decide (length cleaned_traces = 0%nat) then Some []
      else
        let created_ids := created_ids_of cleaned_traces in
        if bool_decide (created_ids = ∅) then Some []
        else
          w ← foldl (pool_step created_ids) (Some (mkPoolWalk [] [] ∅)) (mjoin (events <$> cleaned_traces));
          Some (pw_results w)
  end.

(** The first return of [pool_id] that names both its tokens. *)
Fixpoint creation_walk (pool_id : SchemaAlkaneId) (stack : list EspoSandshrewLikeTraceShortId) (evs : list EspoSandshrewLikeTraceEvent)
    : option (SchemaAlkaneId * SchemaAlkaneId * option SchemaAlkaneId) :=
  match evs with
  | [] => None
  | Invoke inv :: evs => creation_walk pool_id (myself (context inv) :: stack) evs
  | Create _ :: evs => creation_walk pool_id stack evs
  | Return ret :: evs =>
      match stack with
      | [] => creation_walk pool_id [] evs
      | leaving :: stack =>
          if bool_decide (schema_id_from_short leaving = Some pool_id) then
            let storage := rs_storage (response ret) in
            let word key := storage_value key storage ≫= decode_storage_id_hex_word in
            match word key_alkane_0, word key_alkane_1 with
            | Some base, Some quote => Some (base, quote, word key_factory_id)
            | _, _ => creation_walk pool_id stack evs
            end
          else creation_walk pool_id stack evs
      end
  end.

Definition parse_pool_defs_from_creation_summary (summary : list EspoSandshrewLikeTrace) (pool_id : SchemaAlkaneId)
    : option (SchemaAlkaneId * SchemaAlkaneId * option SchemaAlkaneId) :=
  creation_walk pool_id []
    (mjoin ((fun trace => events (default trace (clean_espo_sandshrew_like_trace trace EspoHostFunctionValues_default))) <$> summary)).

Definition parse_factory_create_call (inv : EspoSandshrewLikeTraceInvokeData) (factories : gset SchemaAlkaneId) : option SchemaAlkaneId :=
  let ins := inputs (context inv) in
  let opcode0 := ins !! 0%nat ≫= hex_u128 in
  let opcode2 := ins !! 2%nat ≫= hex_u128 in
  if negb (bool_decide (opcode0 = Some 1)) && negb (bool_decide (opcode2 = Some 1)) then None
  else
    let known (id : option SchemaAlkaneId) := id ≫= fun id => if bool_decide (id ∈ factories) then Some id else None in
    let legacy :=
      if bool_decide (opcode2 = Some 1) then
        known (b ← ins !! 0%nat; t ← ins !! 1%nat; block ← hex_u32 b; tx ← hex_u64 t; Some (mkAlkaneId block tx))
      else None in
    match legacy with
    | Some id => Some id
    | None => known (schema_id_from_short (myself (context inv)))
    end.

(** The factory that was called last before a contract was created. *)
Definition factory_step (factories : gset SchemaAlkaneId) (acc : option SchemaAlkaneId * gmap SchemaAlkaneId SchemaAlkaneId)
    (ev : EspoSandshrewLikeTraceEvent) : option SchemaAlkaneId * gmap SchemaAlkaneId SchemaAlkaneId :=
  match ev with
  | Invoke inv => match parse_factory_create_call inv factories with Some factory => (Some factory, acc.2) | None => acc end
  | Create c =>
      match acc.1 with
      | Some factory => (None, match schema_id_from_short c with Some id => <[id := factory]> acc.2 | None => acc.2 end)
      | None => acc
      end
  | Return _ => acc
  end.

Definition pool_factories_by_id (traces : list EspoTrace) (host : EspoHostFunctionValues) (factories : gset SchemaAlkaneId)
    : gmap SchemaAlkaneId SchemaAlkaneId :=
  foldl (fun m t =>
           match clean_espo_sandshrew_like_trace (sandshrew_trace t) host with
           | None => m
           | Some cleaned => (foldl (factory_step factories) (None, m) (events cleaned)).2
           end) ∅ traces.

Definition traces_succeed (traces : option (list EspoTrace)) : bool :=
  match traces with
  | None => true
  | Some traces =>
      negb (existsb (fun t => existsb (fun ev => match ev with Return r => bool_decide (status r = Failure) | _ => false end)
                                (events (sandshrew_trace t))) traces)
  end.

End Traces.

(** ** The state the passes fill *)

Record PoolTables := mkPoolTables {
  pool_name_index_writes : list (bytes * bytes);
  factory_pools_writes : list (bytes * bytes);
  pool_factory_writes : list (bytes * bytes);
  pool_creation_info_writes : list (bytes * bytes);
  pool_creations_writes : list (bytes * bytes);
  pool_defs_writes : list (bytes * bytes);
  token_pools_writes : list (bytes * bytes);
  pool_lp_supply_writes : list (bytes * bytes);
  address_pool_creations_writes : list (bytes * bytes);
}.

Definition pool_tables_new : PoolTables := mkPoolTables [] [] [] [] [] [] [] [] [].

(** [IndexState], with the fields of the passes beside those of [AmmBlock]. *)
Record PoolState := mkPoolState {
  ix : IndexState;
  tables : PoolTables;
  canonical_pool_updates : gmap SchemaAlkaneId (list SchemaCanonicalPoolEntry);
  alkane_label_cache : gmap SchemaAlkaneId bytes;
  pool_creation_info_cache : gmap SchemaAlkaneId SchemaPoolCreationInfoV1;
}.

Definition pool_state_new (reserves_snapshot : gmap SchemaAlkaneId SchemaPoolSnapshot) (pools_map : gmap SchemaAlkaneId SchemaMarketDefs) : PoolState :=
  mkPoolState (index_state_new reserves_snapshot pools_map) pool_tables_new ∅ ∅ ∅.

Definition with_ix (s : PoolState) (i : IndexState) : PoolState :=
  mkPoolState i (tables s) (canonical_pool_updates s) (alkane_label_cache s) (pool_creation_info_cache s).

Definition with_tables (s : PoolState) (t : PoolTables) : PoolState :=
  mkPoolState (ix s) t (canonical_pool_updates s) (alkane_label_cache s) (pool_creation_info_cache s).

Definition with_pools (i : IndexState) (pools : gmap SchemaAlkaneId SchemaMarketDefs) : IndexState :=
  mkIndexState (reserves_snapshot i) pools (candle_cache i) (activity_acc i) (index_acc i) (pool_price_overrides i) (canonical_trade_buckets i)
    (in_block_trade_volumes i) (pools_touched i) (pricing_excluded_pools i) (has_trades i) (token_volume_cache i) (table_writes i).

Definition with_override (i : IndexState) (pool : SchemaAlkaneId) (prices : Z * Z) : IndexState :=
  mkIndexState (reserves_snapshot i) (pools_map i) (candle_cache i) (activity_acc i) (index_acc i) (<[pool := prices]> (pool_price_overrides i))
    (canonical_trade_buckets i) (in_block_trade_volumes i) (pools_touched i) (pricing_excluded_pools i) (has_trades i) (token_volume_cache i)
    (table_writes i).

Definition with_excluded (i : IndexState) (excluded : gset SchemaAlkaneId) : IndexState :=
  mkIndexState (reserves_snapshot i) (pools_map i) (candle_cache i) (activity_acc i) (index_acc i) (pool_price_overrides i) (canonical_trade_buckets i)
    (in_block_trade_volumes i) (pools_touched i) excluded (has_trades i) (token_volume_cache i) (table_writes i).

Definition with_activity (i : IndexState) (acc : ActivityWriteAcc) (idx : ActivityIndexAcc) (t : TableWrites) : IndexState :=
  mkIndexState (reserves_snapshot i) (pools_map i) (candle_cache i) acc idx (pool_price_overrides i) (canonical_trade_buckets i)
    (in_block_trade_volumes i) (pools_touched i) (pricing_excluded_pools i) (has_trades i) (token_volume_cache i) t.

Section Passes.
Context {ess : Essentials} {codec : PoolCodec} {crates : TraceCrates}.

(** The pool in the map, its definition and the pools of its tokens. *)
Definition insert_pool (defs : SchemaMarketDefs) (s : PoolState) : PoolState :=
  let pool := pool_alkane_id defs in
  let t := tables s in
  mkPoolState (with_pools (ix s) (<[pool := defs]> (pools_map (ix s))))
    (mkPoolTables (pool_name_index_writes t) (factory_pools_writes t) (pool_factory_writes t) (pool_creation_info_writes t) (pool_creations_writes t)
       (pool_defs_writes t ++ match market_defs_to_vec defs with Some encoded => [(pools_key pool, encoded)] | None => [] end)
       (token_pools_writes t ++ [(token_pools_key (base_alkane_id defs) pool, []); (token_pools_key (quote_alkane_id defs) pool, [])])
       (pool_lp_supply_writes t) (address_pool_creations_writes t))
    (canonical_pool_updates s) (alkane_label_cache s) (pool_creation_info_cache s).

Definition push_factory (factory_id pool : SchemaAlkaneId) (s : PoolState) : PoolState :=
  let t := tables s in
  with_tables s
    (mkPoolTables (pool_name_index_writes t) (factory_pools_writes t ++ [(factory_pools_key factory_id pool, [])])
       (pool_factory_writes t ++ [(pool_factory_key pool, id_be factory_id)]) (pool_creation_info_writes t) (pool_creations_writes t)
       (pool_defs_writes t) (token_pools_writes t) (pool_lp_supply_writes t) (address_pool_creations_writes t)).

Definition push_canonical (units : gset SchemaAlkaneId) (token quote pool : SchemaAlkaneId) (m : gmap SchemaAlkaneId (list SchemaCanonicalPoolEntry))
    : gmap SchemaAlkaneId (list SchemaCanonicalPoolEntry) :=
  if bool_decide (quote ∈ units) then <[token := default [] (m !! token) ++ [mkCanonicalPool pool quote]]> m else m.

Definition push_canonicals (units : gset SchemaAlkaneId) (defs : SchemaMarketDefs) (s : PoolState) : PoolState :=
  let m := push_canonical units (base_alkane_id defs) (quote_alkane_id defs) (pool_alkane_id defs) (canonical_pool_updates s) in
  let m := push_canonical units (quote_alkane_id defs) (base_alkane_id defs) (pool_alkane_id defs) m in
  mkPoolState (ix s) (tables s) m (alkane_label_cache s) (pool_creation_info_cache s).

(** The normalised name of a pool by its label; [fallback] when the label is blank. *)
Definition push_name (es : Namespace) (fallback : bytes) (pool : SchemaAlkaneId) (s : PoolState) : PoolState :=
  let '(cache, label) := get_alkane_label es (alkane_label_cache s) pool in
  let name := trim (strip_lp_suffix label) in
  let name_norm := to_ascii_lowercase (if bool_decide (name = []) then fallback else name) in
  let t := tables s in
  mkPoolState (ix s)
    (mkPoolTables (pool_name_index_writes t ++ if bool_decide (name_norm = []) then [] else [(pool_name_index_key name_norm pool, [])])
       (factory_pools_writes t) (pool_factory_writes t) (pool_creation_info_writes t) (pool_creations_writes t) (pool_defs_writes t)
       (token_pools_writes t) (pool_lp_supply_writes t) (address_pool_creations_writes t))
    (canonical_pool_updates s) cache (pool_creation_info_cache s).

(** The reserves are what the pool holds after the block. *)
Definition seed_reserves (es : Namespace) (defs : SchemaMarketDefs) (s : PoolState) : PoolState :=
  let '(base_reserve, quote_reserve) := pool_reserves es defs in
  with_ix s (set_reserves (ix s) (pool_alkane_id defs)
               (mkPoolSnapshot base_reserve quote_reserve (base_alkane_id defs) (quote_alkane_id defs))).

(** ** Pools of the creation records *)

Definition bootstrap_pool (es : Namespace) (units amm_factories : gset SchemaAlkaneId) (s : PoolState) (pool_id : SchemaAlkaneId) : PoolState :=
  if bool_decide (is_Some (pools_map (ix s) !! pool_id)) then s
  else
    match
      rec ← creation_record es pool_id;
      summary ← load_tx_summary_v2 (cr_txid rec);
      '(base_alkane_id, quote_alkane_id, factory_from_trace) ← parse_pool_defs_from_creation_summary summary pool_id;
      factory_id ← match inspection rec ≫= factory_alkane with Some f => Some f | None => factory_from_trace end;
      if negb (bool_decide (factory_id ∈ amm_factories)) then None
      else if bool_decide (base_alkane_id = quote_alkane_id) then None
      else Some (mkDefs base_alkane_id quote_alkane_id pool_id, factory_id)
    with
    | None => s
    | Some (defs, factory_id) =>
        push_name es [] pool_id (push_canonicals units defs (seed_reserves es defs (push_factory factory_id pool_id (insert_pool defs s))))
    end.

Definition bootstrap_pools_from_creation_records (es : Namespace) (height : Z) (units amm_factories : gset SchemaAlkaneId) (s : PoolState) : PoolState :=
  if bool_decide (amm_factories = ∅) then s else foldl (bootstrap_pool es units amm_factories) s (created_alkanes es height).

(** ** Pools of the block's traces *)

Context {btc : BitcoinCrate} {node : RunesChain.Node} {acodec : ActivityCodec}.

(** [Runestone::decipher] and [Protostone::from_runestone]: the tag and the pointer of each
    protostone; [None] when there is no runestone or it does not decode. *)
Context (protostones_of : Transaction -> option (list (Z * option Z))).

Definition pool_creator_spk_from_protostone (tx : Transaction) : option bytes :=
  protos ← protostones_of tx;
  head (omap (fun ps : Z * option Z =>
                if negb (ps.1 =? 1) then None
                else ptr ← ps.2; out ← output tx !! Z.to_nat ptr; Some (script_pubkey out)) protos).

Definition tx_meta_of (transactions : list EspoAlkanesTransaction) : gmap Txid (bytes * bool) :=
  foldl (fun m atx =>
           <[compute_txid (at_transaction atx) := (default [] (pool_creator_spk_from_protostone (at_transaction atx)), traces_succeed (at_traces atx))]> m)
    ∅ transactions.

(** The previous transaction: of the block, of the cache, or asked of the node. *)
Definition prev_transaction (block_txs cache : gmap Txid Transaction) (prev_txid : Txid) : gmap Txid Transaction * option Transaction :=
  match block_txs !! prev_txid with
  | Some tx => (cache, Some tx)
  | None =>
      match cache !! prev_txid with
      | Some tx => (cache, Some tx)
      | None =>
          match default [] (head (batch_transaction_get_raw [prev_txid])) with
          | [] => (cache, None)
          | raw => match deserialize_tx raw with Some tx => (<[prev_txid := tx]> cache, Some tx) | None => (cache, None) end
          end
      end
  end.

(** The script of the input of least value, the first of them. *)
Definition lowest_input (block_txs : gmap Txid Transaction) (acc : gmap Txid Transaction * option (Z * bytes)) (vin : TxIn)
    : gmap Txid Transaction * option (Z * bytes) :=
  let prev := previous_output vin in
  if is_null prev then acc
  else
    let '(cache, prev_tx) := prev_transaction block_txs acc.1 (op_txid prev) in
    match prev_tx ≫= fun tx => output tx !! Z.to_nat (op_vout prev) with
    | None => (cache, acc.2)
    | Some prev_out =>
        match acc.2 with
        | Some (v, spk) => if value prev_out <? v then (cache, Some (value prev_out, script_pubkey prev_out)) else (cache, acc.2)
        | None => (cache, Some (value prev_out, script_pubkey prev_out))
        end
    end.

Definition creator_of (block_txs cache : gmap Txid Transaction) (tx : Transaction) : gmap Txid Transaction * option bytes :=
  match pool_creator_spk_from_protostone tx with
  | Some spk => (cache, Some spk)
  | None => let '(cache, lowest) := foldl (lowest_input block_txs) (cache, None) (input tx) in (cache, snd <$> lowest)
  end.

Definition u128_to_i128_saturating (v : Z) : Z := Z.min v (2 ^ 127 - 1).

(** The creation of a pool as an activity, with its table rows. *)
Definition record_creation (block_ts : Z) (defs : SchemaMarketDefs) (amount0 amount1 : Z) (a : SchemaActivityV1) (s : PoolState) : PoolState :=
  let pool := pool_alkane_id defs in
  let base := base_alkane_id defs in
  let quote := quote_alkane_id defs in
  let i := ix s in
  let '(acc, res) := activity_push (activity_acc i) pool block_ts a in
  match res with
  | None => with_ix s (with_activity i acc (index_acc i) (table_writes i))
  | Some seq =>
      let w := table_writes i in
      let t := tables s in
      let kind := ac_kind a in
      let spk := address_spk a in
      let row (k : bytes) := (k, [] : bytes) in
      let two := negb (bool_decide (quote = base)) in
      let with_spk := match spk with [] => false | _ => true end in
      let w' :=
        mkTables
          (token_activity_writes w ++ [row (token_activity_key base block_ts seq kind pool)]
             ++ (if two then [row (token_activity_key quote block_ts seq kind pool)] else []))
          (token_activity_amount_writes w ++ [row (token_activity_amount_key base amount0 block_ts seq kind pool)]
             ++ (if two then [row (token_activity_amount_key quote amount1 block_ts seq kind pool)] else []))
          (token_swaps_writes w) (address_pool_swaps_writes w) (address_token_swaps_writes w) (address_pool_mints_writes w)
          (address_pool_burns_writes w)
          (amm_history_all_writes w ++ [row (amm_history_all_key block_ts seq kind pool)])
          (address_amm_history_writes w ++ (if with_spk then [row (address_amm_history_key spk block_ts seq kind pool)] else [])) in
      let t' :=
        mkPoolTables (pool_name_index_writes t) (factory_pools_writes t) (pool_factory_writes t) (pool_creation_info_writes t)
          (pool_creations_writes t ++ [row (pool_creations_key block_ts seq pool)]) (pool_defs_writes t) (token_pools_writes t)
          (pool_lp_supply_writes t)
          (address_pool_creations_writes t ++ (if with_spk then [row (address_pool_creations_key spk block_ts seq pool)] else [])) in
      with_tables (with_ix s (with_activity i acc (index_add (index_acc i) pool block_ts seq a) w')) t'
  end.

(** [entry(pool).or_insert(..)] of empty reserves. *)
Definition empty_reserves (defs : SchemaMarketDefs) (s : PoolState) : PoolState :=
  match reserves_snapshot (ix s) !! pool_alkane_id defs with
  | Some _ => s
  | None => with_ix s (set_reserves (ix s) (pool_alkane_id defs) (mkPoolSnapshot 0 0 (base_alkane_id defs) (quote_alkane_id defs)))
  end.

(** The supply and the creation record of a new pool; [None] when it does not encode. *)
Definition push_creation_info (pool : SchemaAlkaneId) (info : SchemaPoolCreationInfoV1) (s : PoolState) : option PoolState :=
  encoded ← creation_info_to_vec info;
  let t := tables s in
  Some (mkPoolState (ix s)
          (mkPoolTables (pool_name_index_writes t) (factory_pools_writes t) (pool_factory_writes t)
             (pool_creation_info_writes t ++ [(pool_creation_info_key pool, encoded)]) (pool_creations_writes t) (pool_defs_writes t)
             (token_pools_writes t)
             (pool_lp_supply_writes t ++ [(pool_lp_supply_latest_key pool, encode_u128_value (initial_lp_supply info))])
             (address_pool_creations_writes t))
          (canonical_pool_updates s) (alkane_label_cache s) (<[pool := info]> (pool_creation_info_cache s))).

Record Discovery := mkDiscovery {
  ds_state : PoolState;
  prev_tx_cache : gmap Txid Transaction;
  seen_new_pools : gset (Z * Z);
}.

Section Discover.
Context (es : Namespace) (block : PoolBlock) (units amm_factories : gset SchemaAlkaneId).
Context (block_txs : gmap Txid Transaction) (tx_meta : gmap Txid (bytes * bool)).

Definition discover_pool (transaction : EspoAlkanesTransaction) (by_id : gmap SchemaAlkaneId SchemaAlkaneId) (acc : option Discovery) (p : NewPoolInfo)
    : option Discovery :=
  d ← acc;
  let pool_id := np_pool_id p in
  let defs := np_defs p in
  let key := (ak_block pool_id, ak_tx pool_id) in
  if bool_decide (key ∈ seen_new_pools d) then Some d
  else
    let d := mkDiscovery (ds_state d) (prev_tx_cache d) ({[key]} ∪ seen_new_pools d) in
    if bool_decide (is_Some (pools_map (ix (ds_state d)) !! pool_id)) then Some d
    else
      match (match by_id !! pool_id with Some f => Some f | None => np_factory_id p end) with
      | None => Some d
      | Some factory_id =>
          if negb (bool_decide (factory_id ∈ amm_factories)) then Some d
          else
            let s := push_factory factory_id pool_id (push_name es [] pool_id (push_canonicals units defs (empty_reserves defs (insert_pool defs (ds_state d))))) in
            let '(cache, creator) := creator_of block_txs (prev_tx_cache d) (at_transaction transaction) in
            let '(amount0, amount1) := pool_reserves es defs in
            let supply := get_latest_circulating_supply es pool_id in
            s ← push_creation_info pool_id (mkCreationInfo (default [] creator) (pb_height block) amount0 amount1 supply) s;
            let txid := compute_txid (at_transaction transaction) in
            let '(spk, success) := default ([], true) (tx_meta !! txid) in
            let a := mkAct (pb_ts block) txid PoolCreate None (u128_to_i128_saturating amount0) (u128_to_i128_saturating amount1) spk success in
            Some (mkDiscovery (record_creation (pb_ts block) defs amount0 amount1 a s) cache (seen_new_pools d))
      end.

Definition discover_transaction (acc : option Discovery) (transaction : EspoAlkanesTransaction) : option Discovery :=
  match at_traces transaction with
  | None => acc
  | Some traces =>
      let by_id := pool_factories_by_id traces (pb_host block) amm_factories in
      match extract_new_pools_from_espo_transaction transaction (pb_host block) with
      | None => acc
      | Some new_pools => foldl (discover_pool transaction by_id) acc new_pools
      end
  end.

End Discover.

(** The new pools of the block and what is known of its transactions; [None] is an error. *)
Definition discover_new_pools (es : Namespace) (block : PoolBlock) (units amm_factories : gset SchemaAlkaneId) (s : PoolState)
    : option (PoolState * gmap Txid (bytes * bool)) :=
  let block_txs := block_tx_map (at_transaction <$> pb_transactions block) in
  let tx_meta := tx_meta_of (pb_transactions block) in
  d ← foldl (discover_transaction es block units amm_factories block_txs tx_meta) (Some (mkDiscovery s ∅ ∅)) (pb_transactions block);
  Some (ds_state d, tx_meta).

End Passes.

(** ** CryptoSwap pools *)

Definition WAD : Z := 10 ^ 18.

Record CryptoSwapPoolDef := mkCryptoDef { cs_pool : SchemaAlkaneId; coin0 : SchemaAlkaneId; coin1 : SchemaAlkaneId; cs_label : bytes }.

Definition FRBTC : SchemaAlkaneId := mkAlkaneId 32 0.
Definition FRUSD : SchemaAlkaneId := mkAlkaneId 4 1776.

Definition MAINNET_POOLS : list CryptoSwapPoolDef := [mkCryptoDef (mkAlkaneId 4 1778) FRBTC FRUSD (bstr "BTCUSD")].

Definition cryptoswap_pools (network : Network) : list CryptoSwapPoolDef :=
  match network with Bitcoin => MAINNET_POOLS | OtherNetwork => [] end.

Definition cryptoswap_pool_def (network : Network) (pool : SchemaAlkaneId) : option CryptoSwapPoolDef :=
  head (filter (fun def => cs_pool def = pool) (cryptoswap_pools network)).

Definition is_cryptoswap_pool (network : Network) (pool : SchemaAlkaneId) : bool := bool_decide (is_Some (cryptoswap_pool_def network pool)).

Definition STATE_KEYS : list bytes :=
  [bstr "/price_oracle"; bstr "/price_scale"; bstr "/last_prices"; bstr "/balances/0"; bstr "/balances/1"; bstr "/virtual_price"].

Record CryptoSwapState := mkCryptoState {
  price_oracle : Z;
  price_scale : Z;
  last_prices : Z;
  cs_balance0 : Z;
  cs_balance1 : Z;
  virtual_price : Z;
}.

Definition chart_price_wad (s : CryptoSwapState) : option Z :=
  head (filter (fun p => p <> 0) [price_oracle s; price_scale s; last_prices s]).

Definition decode_le_u128 (raw : bytes) : option Z :=
  let value := row_value raw in
  if (length value <? 16)%nat then None
  else if existsb (fun b => negb (b2z b =? 0)) (drop 16 value) then None
  else Some (from_le (take 16 value)).

Definition decode_state (values : list (option bytes)) : option CryptoSwapState :=
  if negb (length values =? length STATE_KEYS)%nat then None
  else
    let slot (i : nat) := default 0 (mjoin (values !! i) ≫= decode_le_u128) in
    let state := mkCryptoState (slot 0%nat) (slot 1%nat) (slot 2%nat) (slot 3%nat) (slot 4%nat) (slot 5%nat) in
    match chart_price_wad state with None => None | Some _ => Some state end.

Definition read_pool_state (es : Namespace) (pool : SchemaAlkaneId) : option CryptoSwapState :=
  decode_state ((fun k => es !! kv_row_key pool k) <$> STATE_KEYS).

(** The product of the scales fits. *)
Definition prices_from_wad (price_wad : Z) : option (Z * Z) :=
  if price_wad =? 0 then None
  else
    let quote_per_base := WAD * PRICE_SCALE / price_wad in
    let base_per_quote := price_wad / (WAD / PRICE_SCALE) in
    if (quote_per_base =? 0) || (base_per_quote =? 0) then None else Some (quote_per_base, base_per_quote).

Section Crypto.
Context {ess : Essentials} {codec : PoolCodec}.

Definition register_cryptoswap_pool (es : Namespace) (units : gset SchemaAlkaneId) (s : PoolState) (def : CryptoSwapPoolDef) : PoolState :=
  match read_pool_state es (cs_pool def) with
  | None => s
  | Some pool_state =>
      let s :=
        match chart_price_wad pool_state ≫= prices_from_wad with
        | Some prices => with_ix s (with_override (ix s) (cs_pool def) prices)
        | None => s
        end in
      if bool_decide (is_Some (pools_map (ix s) !! cs_pool def)) then s
      else
        let defs := mkDefs (coin0 def) (coin1 def) (cs_pool def) in
        push_name es (cs_label def) (cs_pool def) (push_canonicals units defs (seed_reserves es defs (insert_pool defs s)))
  end.

Definition register_cryptoswap_pools (es : Namespace) (network : Network) (units : gset SchemaAlkaneId) (s : PoolState) : PoolState :=
  foldl (register_cryptoswap_pool es units) s (cryptoswap_pools network).

End Crypto.

(** ** Which pools may set prices *)

Definition MAINNET_PRICING_FACTORIES : list SchemaAlkaneId := [mkAlkaneId 4 65522].
Definition MAINNET_PRICING_FACTORY_FORK_HEIGHT : Z := 970000.

Definition pricing_factories_at_height (network : Network) (height : Z) : option (list SchemaAlkaneId) :=
  match network with
  | Bitcoin => if MAINNET_PRICING_FACTORY_FORK_HEIGHT <=? height then Some MAINNET_PRICING_FACTORIES else None
  | OtherNetwork => None
  end.

(** The pools a factory is recorded to have made, stored or pending. *)
Definition pools_of_factory (ns : Namespace) (pending_factory_pools : list (bytes * bytes)) (factory : SchemaAlkaneId) : list SchemaAlkaneId :=
  let prefix := factory_pools_prefix factory in
  omap (parse_alkane_id_from_prefixed_key prefix) (get_list_keys_by_prefix ns prefix ++ pending_factory_pools.*1).

(** The factory recorded of a pool, the pending row first; of two pending rows the last. *)
Definition factory_of_pool (ns : Namespace) (pending_pool_factory : list (bytes * bytes)) (pool : SchemaAlkaneId) : option SchemaAlkaneId :=
  let key := pool_factory_key pool in
  let pending := list_to_map (reverse pending_pool_factory) : gmap bytes bytes in
  raw ← match pending !! key with Some raw => Some raw | None => ns !! key end;
  decode_alkane_id_be raw.

Definition pools_not_in_factories_on (network : Network) (ns : Namespace) (pools factories : list SchemaAlkaneId)
    (pending_pool_factory pending_factory_pools : list (bytes * bytes)) : gset SchemaAlkaneId :=
  let trusted : gset SchemaAlkaneId :=
    list_to_set (filter (fun pool => is_cryptoswap_pool network pool = true) pools)
    ∪ list_to_set (factories ≫= pools_of_factory ns pending_factory_pools)
    ∪ list_to_set (filter (fun pool => match factory_of_pool ns pending_pool_factory pool with Some f => bool_decide (f ∈ factories) | None => false end = true) pools) in
  list_to_set (filter (fun pool => pool ∉ trusted) pools).

(** ** The block *)

Section Block.
Context {ess : Essentials} {codec : PoolCodec} {crates : TraceCrates} {btc : BitcoinCrate} {node : RunesChain.Node} {acodec : ActivityCodec}.
Context (protostones_of : Transaction -> option (list (Z * option Z))).

(** [get_reserves_snapshot(..).snapshot.unwrap_or_default()]; a row that does not decode is passed over. *)
Definition load_reserves_snapshot (ns : Namespace) : gmap SchemaAlkaneId SchemaPoolSnapshot :=
  foldl (fun out key =>
           match (if starts_with key reserves_snapshot_pool_prefix then decode_alkane_id_be (drop (length reserves_snapshot_pool_prefix) key) else None),
                 ns !! key ≫= pool_snapshot_from_slice with
           | Some pool, Some snapshot => <[pool := snapshot]> out
           | _, _ => out
           end) ∅ (get_list_keys_by_prefix ns reserves_snapshot_pool_prefix).

(** The rows of the metrics of tokens and pools, by their place in the batch; the supplies
    the metrics add come first among [pool_details_rows]. *)
Record MetricWrites := mkMetrics {
  derived_token_rows : list (bytes * bytes);
  canonical_pool_rows : list (bytes * bytes);
  pool_metrics_rows : list (bytes * bytes);
  pool_details_rows : list (bytes * bytes);
  metric_deletes : list bytes;
}.

(** What [index_block] does before the balance deltas. *)
Record Indexed := mkIndexed {
  id_state : PoolState;
  id_factory_writes : list (bytes * bytes);
  id_meta : gmap Txid (bytes * bool);
}.

Definition index_pools (ns es : Namespace) (network : Network) (units : gset SchemaAlkaneId) (block : PoolBlock) : option Indexed :=
  let reserves := load_reserves_snapshot ns in
  let s := pool_state_new reserves (pools_map_from_snapshot reserves) in
  let '(factories, factory_writes) := prepare_factories ns es (pb_height block) in
  let s := bootstrap_pools_from_creation_records es (pb_height block) units factories s in
  '(s, meta) ← discover_new_pools protostones_of es block units factories s;
  let s := register_cryptoswap_pools es network units s in
  let s :=
    match pricing_factories_at_height network (pb_height block) with
    | Some allowed =>
        with_ix s (with_excluded (ix s)
          (pools_not_in_factories_on network ns (map_to_list (pools_map (ix s))).*1 allowed (pool_factory_writes (tables s)) (factory_pools_writes (tables s))))
    | None => s
    end in
  Some (mkIndexed s factory_writes meta).

Definition snapshot_puts (m : gmap SchemaAlkaneId SchemaPoolSnapshot) : list (bytes * bytes) :=
  omap (fun e : SchemaAlkaneId * SchemaPoolSnapshot => enc ← pool_snapshot_to_vec e.2; Some (reserves_snapshot_pool_key e.1, enc)) (map_to_list m).

(** The rows of the passes in the order of [prepare_batch]. *)
Definition pool_puts (x : Indexed) : list (bytes * bytes) :=
  let t := tables (id_state x) in
  pool_name_index_writes t ++ id_factory_writes x ++ factory_pools_writes t ++ pool_factory_writes t ++ pool_creation_info_writes t
  ++ pool_creations_writes t ++ pool_defs_writes t ++ token_pools_writes t.

Context `{CandleCodec}.
Context (canonical_quote_units : gset SchemaAlkaneId) (frames token_volume_frames : list Timeframe).

(** The block: the passes, the balance deltas, and the batch with the rows of all. *)
Definition index_block_rows (ns es : Namespace) (network : Network) (block : PoolBlock) (balance_txs : gmap SchemaAlkaneId (list AlkaneBalanceTxEntry))
    (metrics : MetricWrites) : option Namespace :=
  x ← index_pools ns es network canonical_quote_units block;
  let st := process_balance_deltas (pb_ts block) canonical_quote_units frames token_volume_frames (id_meta x) balance_txs (ix (id_state x)) in
  candle_writes ← into_writes ns (candle_cache st);
  let '(volume_candles, volume_totals) := prepare_token_volume (pb_height block) ns (token_volume_cache st) in
  let t := tables (id_state x) in
  set_batch None ns
    (candle_writes ++ derived_token_rows metrics ++ volume_candles ++ volume_totals ++ canonical_pool_rows metrics ++ pool_puts x
       ++ pool_metrics_rows metrics ++ pool_lp_supply_writes t ++ pool_details_rows metrics
       ++ table_puts (table_writes st) (address_pool_creations_writes t) ++ activity_puts ns st ++ snapshot_puts (reserves_snapshot st))
    (metric_deletes metrics).

End Block.
