(* ===== verification/AmmPoolsProps.v ===== *)
(** * Pools: what is registered of them

    The rows of the pools agree with one another and with the reserves: a pool that is
    known has its definition, stands under both its tokens, and under the factory that
    made it.  Every pass of a block keeps this, the batch writes it, and the next block
    loads the pools the block has left.  The properties close the file. *)
From stdpp Require Import strings.
From S2P Require Import Prelude Bytes Rocks RunesTransfer RunesStore RunesChain RunesInscriptions AlkTrace AlkSheets AlkSheetsProps AlkTransfer.
From S2P Require Import AmmPath AmmCandles AmmCandlesProps AmmChart AmmActivity AmmActivityProps AmmVolume AmmBlock AmmBlockProps AmmLog AmmVolumeProps.
From S2P Require Import AmmIndex AmmWindows AmmWindowsProps AmmTvlProps AmmPools AmmClaims AmmIndexClaims.
From stdpp Require Import options.

Open Scope Z_scope.

(** ** Ranges of ids *)

Lemma hex_range max s v : parse_hex_to max s = Some v -> 0 <= v <= max.
Proof.
  unfold parse_hex_to. destruct (from_str_radix _ _ _) as [w|] eqn:E; [|done]. cbn [mbind option_bind].
  apply from_str_radix_range in E; [|done..]. destruct (Z.ltb_spec max w); [done|]. intros [= <-]. lia.
Qed.

Lemma short_id_ok id r : schema_id_from_short id = Some r -> id_ok r.
Proof.
  unfold schema_id_from_short. destruct (hex_u32 _) as [b|] eqn:Eb; [|done]. destruct (hex_u64 _) as [t|] eqn:Et; [|done].
  intros [= <-]. apply hex_range in Eb, Et. unfold id_ok, in_u32, in_u64. cbn. lia.
Qed.

Lemma words_id_ok raw r : id_from_words raw = Some r -> id_ok r.
Proof.
  unfold id_from_words. pose proof (from_le_range (take 16 raw)). pose proof (from_le_range (take 16 (drop 16 raw))).
  destruct (Z.ltb_spec (2 ^ 32 - 1) (from_le (take 16 raw))); [done|]. destruct (Z.ltb_spec (2 ^ 64 - 1) (from_le (take 16 (drop 16 raw)))); [done|].
  intros [= <-]. unfold id_ok, in_u32, in_u64. cbn [ak_block ak_tx]. lia.
Qed.

Lemma decoded_id_ok b r : decode_alkane_id_be b = Some r -> id_ok r /\ b = id_be r.
Proof.
  unfold decode_alkane_id_be. destruct (Nat.eqb_spec (length b) 12) as [Hl|]; [|done]. intros [= <-].
  pose proof (from_be_range (take 4 b)) as H4. pose proof (from_be_range (drop 4 b)) as H8. rewrite length_take, Hl in H4. rewrite length_drop, Hl in H8.
  split; [done|]. unfold id_be. cbn [ak_block ak_tx].
  pose proof (be_bytes_from_be (take 4 b)) as E4. pose proof (be_bytes_from_be (drop 4 b)) as E8. rewrite length_take, Hl in E4. rewrite length_drop, Hl in E8.
  change (4 `min` 12)%nat with 4%nat in E4. change (12 - 4)%nat with 8%nat in E8. rewrite E4, E8. symmetry. apply take_drop.
Qed.

Lemma decode_id_be r : id_ok r -> decode_alkane_id_be (id_be r) = Some r.
Proof.
  intros [Hb Ht]. unfold decode_alkane_id_be. rewrite id_be_length. cbn [Nat.eqb negb]. unfold id_be.
  rewrite take_app_length', drop_app_length' by (by rewrite length_be_bytes). rewrite !from_be_be_bytes, !Z.mod_small by done. by destruct r.
Qed.

Lemma parse_prefixed prefix r : id_ok r -> parse_alkane_id_from_prefixed_key prefix (prefix ++ id_be r) = Some r.
Proof. intros Hr. unfold parse_alkane_id_from_prefixed_key. rewrite starts_with_app, drop_app_length. by apply decode_id_be. Qed.

Lemma parse_prefixed_inv prefix k r : parse_alkane_id_from_prefixed_key prefix k = Some r -> id_ok r /\ k = prefix ++ id_be r.
Proof.
  unfold parse_alkane_id_from_prefixed_key. destruct (starts_with k prefix) eqn:E; [|done]. apply starts_with_iff in E as [r' ->].
  rewrite drop_app_length. intros [Hr ->]%decoded_id_ok. done.
Qed.

(** ** The laws relied on *)

Abbreviation Pools := (gmap SchemaAlkaneId SchemaMarketDefs).

Record defs_ok (pool : SchemaAlkaneId) (defs : SchemaMarketDefs) : Prop := {
  do_pool : pool_alkane_id defs = pool;
  do_id : id_ok pool;
  do_base : id_ok (base_alkane_id defs);
  do_quote : id_ok (quote_alkane_id defs);
}.

Class PoolCodecLaws `{PoolCodec} `{MarketDefsCodec} := {
  market_defs_roundtrip : forall pool d, defs_ok pool d -> exists v, market_defs_to_vec d = Some v /\ market_defs_from_slice v = Some d;
  pool_snapshot_roundtrip : forall s, snapshot_ok s -> id_ok (base_id s) -> id_ok (quote_id s) ->
    exists v, pool_snapshot_to_vec s = Some v /\ pool_snapshot_from_slice v = Some s;
  creation_info_total : forall i, is_Some (creation_info_to_vec i);
}.

(** What borsh decodes is of the width of its type. *)
Class EssentialsLaws `{Essentials} := {
  alkane_ids_ok : forall b l, alkane_ids_from_slice b = Some l -> Forall id_ok l;
  factory_alkane_ok : forall b r i f, decode_creation_record b = Some r -> inspection r = Some i -> factory_alkane i = Some f -> id_ok f;
  self_balance_ok : forall a v, lookup_self_balance a = Some v -> in_u128 v;
}.

(** ** The rows of the pools *)

Lemma pools_key_inj p p' : id_ok p -> id_ok p' -> pools_key p = pools_key p' -> p = p'.
Proof. intros Hp Hp' E%app_inv_head. by apply id_be_inj. Qed.

Lemma pool_factory_key_inj p p' : id_ok p -> id_ok p' -> pool_factory_key p = pool_factory_key p' -> p = p'.
Proof. intros Hp Hp' E%app_inv_head. by apply id_be_inj. Qed.

Lemma reserves_key_inj p p' : id_ok p -> id_ok p' -> reserves_snapshot_pool_key p = reserves_snapshot_pool_key p' -> p = p'.
Proof. intros Hp Hp' E%app_inv_head. by apply id_be_inj. Qed.

Lemma token_pools_key_inj t p t' p' : id_ok t -> id_ok t' -> id_ok p -> id_ok p' -> token_pools_key t p = token_pools_key t' p' -> t = t' /\ p = p'.
Proof.
  intros Ht Ht' Hp Hp' E. unfold token_pools_key, token_pools_prefix in E. rewrite <- !app_assoc in E. apply app_inv_head in E.
  apply app_inj_1 in E as [E1 E2]; [|by rewrite !id_be_length]. split; by apply id_be_inj.
Qed.

Lemma factory_pools_key_inj f p f' p' : id_ok f -> id_ok f' -> id_ok p -> id_ok p' -> factory_pools_key f p = factory_pools_key f' p' -> f = f' /\ p = p'.
Proof.
  intros Hf Hf' Hp Hp' E. unfold factory_pools_key, factory_pools_prefix in E. rewrite <- !app_assoc in E. apply app_inv_head in E.
  apply app_inj_1 in E as [E1 E2]; [|by rewrite !id_be_length]. apply app_inv_head in E2. split; by apply id_be_inj.
Qed.

Definition side (defs : SchemaMarketDefs) (token : SchemaAlkaneId) : Prop := base_alkane_id defs = token \/ quote_alkane_id defs = token.

(** The definitions, the pools of the tokens, the pools of the factories and the factories
    of the pools, each in a namespace of its own while a block is being indexed. *)
Record registry `{PoolCodec} (D T F P : Namespace) (pools : Pools) : Prop := {
  rg_ids : forall pool defs, pools !! pool = Some defs -> defs_ok pool defs;
  rg_defs : forall pool, id_ok pool -> D !! pools_key pool = pools !! pool ≫= market_defs_to_vec;
  rg_tokens : forall token pool, id_ok token -> id_ok pool ->
    is_Some (T !! token_pools_key token pool) <-> exists defs, pools !! pool = Some defs /\ side defs token;
  rg_factory : forall f pool, id_ok f -> id_ok pool ->
    is_Some (F !! factory_pools_key f pool) <-> P !! pool_factory_key pool = Some (id_be f);
  rg_made : forall pool raw, id_ok pool -> P !! pool_factory_key pool = Some raw -> is_Some (pools !! pool) /\ exists f, id_ok f /\ raw = id_be f;
}.

Lemma registry_agree `{PoolCodec} D T F P D' T' F' P' pools :
  registry D T F P pools ->
  (forall pool, D' !! pools_key pool = D !! pools_key pool) ->
  (forall token pool, T' !! token_pools_key token pool = T !! token_pools_key token pool) ->
  (forall f pool, F' !! factory_pools_key f pool = F !! factory_pools_key f pool) ->
  (forall pool, P' !! pool_factory_key pool = P !! pool_factory_key pool) -> registry D' T' F' P' pools.
Proof.
  intros [Hi Hd Ht Hf Hm] ED ET EF EP. constructor; [done| | | |]; intros.
  - by rewrite ED, Hd.
  - by rewrite ET, Ht.
  - by rewrite EF, EP, Hf.
  - rewrite EP in *. by eapply Hm.
Qed.

(** A pool that is new, made by a factory or not. *)
Section Add.
Context `{PoolCodec}.
Context (D T F P : Namespace) (pools : Pools) (pool : SchemaAlkaneId) (defs : SchemaMarketDefs) (v : bytes).
Hypothesis Hrg : registry D T F P pools.
Hypothesis Hdefs : defs_ok pool defs.
Hypothesis Hnew : pools !! pool = None.
Hypothesis Hv : market_defs_to_vec defs = Some v.

Let D' := <[pools_key pool := v]> D.
Let T' : Namespace := <[token_pools_key (quote_alkane_id defs) pool := []]> (<[token_pools_key (base_alkane_id defs) pool := []]> T).
Let pools' := <[pool := defs]> pools.

Lemma add_ids p d : pools' !! p = Some d -> defs_ok p d.
Proof using Hrg Hdefs. unfold pools'. intros [[<- <-]|[_ Hp]]%lookup_insert_Some; [done|by eapply rg_ids]. Qed.

Lemma add_defs p : id_ok p -> D' !! pools_key p = pools' !! p ≫= market_defs_to_vec.
Proof using Hrg Hdefs Hv.
  intros Hp. unfold D', pools'. destruct (decide (pool = p)) as [<-|Hne].
  - by rewrite !lookup_insert_eq.
  - rewrite !lookup_insert_ne; [by eapply rg_defs|done|]. intros E. by apply Hne, pools_key_inj; [apply (do_id _ _ Hdefs)|..].
Qed.

Lemma add_tokens t p : id_ok t -> id_ok p -> is_Some (T' !! token_pools_key t p) <-> exists d, pools' !! p = Some d /\ side d t.
Proof using Hrg Hdefs Hnew.
  intros Ht Hp. destruct Hdefs as [_ Hpool Hb Hq]. unfold T', pools', side. destruct (decide (pool = p)) as [<-|Hne].
  - rewrite lookup_insert_eq. split.
    + intros Hs. exists defs. split; [done|]. destruct (decide (base_alkane_id defs = t)) as [->|Hb']; [by left|].
      destruct (decide (quote_alkane_id defs = t)) as [->|Hq']; [by right|]. exfalso. revert Hs.
      rewrite !lookup_insert_ne by (intros E; apply token_pools_key_inj in E as [? ?]; done). intros Hs.
      apply (rg_tokens _ _ _ _ _ Hrg) in Hs as (d & Hd & _); [congruence|done..].
    + intros (d & [= <-] & [<-|<-]); [|by rewrite lookup_insert_eq].
      destruct (decide (token_pools_key (quote_alkane_id defs) pool = token_pools_key (base_alkane_id defs) pool)) as [->|];
        [by rewrite lookup_insert_eq|by rewrite lookup_insert_ne, lookup_insert_eq].
  - rewrite !lookup_insert_ne; [by eapply rg_tokens|done|..]; intros E; apply token_pools_key_inj in E as [? ?]; done.
Qed.

Lemma registry_add : registry D' T' F P pools'.
Proof using Hrg Hdefs Hnew Hv.
  constructor; [apply add_ids|apply add_defs|apply add_tokens|by eapply rg_factory|].
  intros p raw Hp Hraw. destruct (rg_made _ _ _ _ _ Hrg p raw Hp Hraw) as [Hs Hf]. split; [|done].
  unfold pools'. rewrite lookup_insert_is_Some'. by right.
Qed.

Lemma registry_add_made f :
  id_ok f -> registry D' T' (<[factory_pools_key f pool := []]> F) (<[pool_factory_key pool := id_be f]> P) pools'.
Proof using Hrg Hdefs Hnew Hv.
  intros Hf. pose proof (do_id _ _ Hdefs) as Hpool. constructor; [apply add_ids|apply add_defs|apply add_tokens| |].
  - intros f' p Hf' Hp. destruct (decide (pool = p)) as [<-|Hne].
    + rewrite lookup_insert_eq. split.
      * destruct (decide (f = f')) as [->|Hff]; [done|]. rewrite lookup_insert_ne by (intros E; apply factory_pools_key_inj in E as [? ?]; done).
        intros Hs. apply (rg_factory _ _ _ _ _ Hrg) in Hs; [|done..]. apply (rg_made _ _ _ _ _ Hrg) in Hs as [[d Hd] _]; [congruence|done].
      * intros E%(inj Some). apply id_be_inj in E as ->; [|done..]. by rewrite lookup_insert_eq.
    + rewrite !lookup_insert_ne; [by eapply rg_factory|..]; intros E; [by apply pool_factory_key_inj in E|by apply factory_pools_key_inj in E as [? ?]].
  - intros p raw Hp. unfold pools'. destruct (decide (pool = p)) as [<-|Hne].
    + rewrite !lookup_insert_eq. intros <-%(inj Some). eauto.
    + rewrite lookup_insert_ne by (intros E; by apply pool_factory_key_inj in E). rewrite lookup_insert_ne by done. by eapply rg_made.
Qed.

End Add.

(** ** Rows of other tables *)

Definition pool_prefixes : list bytes :=
  [bstr "/pools/"; bstr "/token_pools/v1/"; bstr "/factory_pools/v1/"; bstr "/pool_factory/v1/"; reserves_snapshot_pool_prefix].

Definition pool_family (k : bytes) : bool := existsb (starts_with k) pool_prefixes.

Definition apart (p : bytes * bytes) : Prop := pool_family p.1 = false.

(** Keys of the other tables, by their first segment. *)
Lemma activity_apart k v : starts_with k (bstr "activity:") = true -> apart (k, v).
Proof. by intros [r ->]%starts_with_iff. Qed.

Lemma candle_apart k v : starts_with k (bstr "fc1:") = true -> apart (k, v).
Proof. by intros [r ->]%starts_with_iff. Qed.

Lemma volume_apart k v : volume_space k = true -> apart (k, v).
Proof. by intros [[r ->]%starts_with_iff|[r ->]%starts_with_iff]%orb_true_iff. Qed.

Lemma append_apart writes pool ts sq a g : Forall apart writes -> Forall apart (append_index_entries writes pool ts sq a g).
Proof. intros Hw. unfold append_index_entries. apply Forall_app. split; [done|]. repeat constructor. Qed.

Lemma push_apart `{ActivityCodec} acc pool ts a : Forall apart (aw_writes acc) -> Forall apart (aw_writes (activity_push acc pool ts a).1).
Proof.
  intros Hw. unfold activity_push. destruct (encode_activity_v1 a); [|done]. cbn [fst aw_writes].
  apply append_apart, append_apart, Forall_app. split; [done|]. by repeat constructor.
Qed.

Lemma index_apart acc pool ts sq a : Forall apart (ai_writes acc) -> Forall apart (ai_writes (index_add acc pool ts sq a)).
Proof. intros Hw. unfold index_add. cbn [ai_writes]. by apply append_apart, append_apart. Qed.

Lemma count_apart ns acc : Forall apart (count_writes ns acc).
Proof. unfold count_writes. apply Forall_app. split; apply Forall_map, Forall_forall; intros ? _; unfold bumped_count; apply activity_apart; done. Qed.

Lemma push_table_apart ts w owner defs sq a : Forall apart (own_tables w) -> Forall apart (own_tables (push_table_rows ts w owner defs sq a)).
Proof.
  unfold own_tables, table_puts, push_table_rows. cbn [token_activity_writes token_activity_amount_writes token_swaps_writes
    address_pool_swaps_writes address_token_swaps_writes address_pool_mints_writes address_pool_burns_writes amm_history_all_writes address_amm_history_writes].
  rewrite !Forall_app. intros (? & ? & ? & ? & ? & ? & ? & ? & ? & ?).
  destruct (bool_decide _), (ac_kind a), (address_spk a); cbn [negb is_trade andb]; split_and!; try done; repeat constructor.
Qed.

(** The rows an [IndexState] holds for the batch. *)
Definition ix_rows (i : IndexState) : list (bytes * bytes) :=
  own_tables (table_writes i) ++ aw_writes (activity_acc i) ++ ai_writes (index_acc i).

Section Moves.
Context `{ActivityCodec}.
Context (ts : Z) (units : gset SchemaAlkaneId) (frames vframes : list Timeframe) (meta : gmap bytes (bytes * bool)).

Lemma process_move_apart st m : Forall apart (ix_rows st) -> Forall apart (ix_rows (process_move ts units frames vframes meta st m)).
Proof.
  unfold ix_rows. rewrite !Forall_app. intros (Hw & Ha & Hi). unfold process_move, process_entry. destruct (reserves_snapshot st !! mv_owner m); [|done].
  destruct (_ && _); [done|]. destruct (kind_of_deltas _ _) as [[kind dir]|]; [|done].
  unfold record_trade, record_activity. cbn zeta. set (a := activity_of _ _ _ _ _ _ _).
  pose proof (push_apart (activity_acc st) (mv_owner m) ts a Ha) as Hp. cbn [set_reserves activity_acc].
  destruct (activity_push (activity_acc st) (mv_owner m) ts a) as [acc [sq|]], (is_trade kind); cbn;
    repeat destruct (trade_prices _ _ _ _); cbn; split_and!; try done; by (apply push_table_apart || apply index_apart).
Qed.

Lemma process_moves_apart st ms : Forall apart (ix_rows st) -> Forall apart (ix_rows (foldl (process_move ts units frames vframes meta) st ms)).
Proof. revert st. induction ms as [|m ms IH]; intros st Hw; cbn; [done|]. by apply IH, process_move_apart. Qed.

End Moves.

(** ** The state while a block is indexed *)

(** The rows of the passes that are in none of the tables of the pools. *)
Definition rest_rows (s : PoolState) : list (bytes * bytes) :=
  let t := tables s in
  pool_name_index_writes t ++ pool_creation_info_writes t ++ pool_creations_writes t ++ pool_lp_supply_writes t ++ address_pool_creations_writes t
  ++ ix_rows (ix s).

Definition under (pre : bytes) (p : bytes * bytes) : Prop := starts_with p.1 pre = true.

Section Tracked.
Set Default Proof Using "Type*".
Context `{PoolCodecLaws} `{EssentialsLaws}.
Context (ns : Namespace) (start : Pools) (factories : gset SchemaAlkaneId) (network : Network).

(** What is known of a pool: it was there before, a factory made it, or the table of the
    network names it. *)
Definition known (P : Namespace) (pool : SchemaAlkaneId) : Prop :=
  is_Some (start !! pool) \/ (exists f, f ∈ factories /\ P !! pool_factory_key pool = Some (id_be f)) \/ is_cryptoswap_pool network pool = true.

Record tracked (s : PoolState) : Prop := {
  tk_registry : registry (apply_puts ns (pool_defs_writes (tables s))) (apply_puts ns (token_pools_writes (tables s)))
                  (apply_puts ns (factory_pools_writes (tables s))) (apply_puts ns (pool_factory_writes (tables s))) (pools_map (ix s));
  tk_sync : pools_map (ix s) = pools_map_from_snapshot (reserves_snapshot (ix s));
  tk_reserves : reserves_ok (reserves_snapshot (ix s));
  tk_start : start ⊆ pools_map (ix s);
  tk_known : forall pool, is_Some (pools_map (ix s) !! pool) -> known (apply_puts ns (pool_factory_writes (tables s))) pool;
  tk_defs : Forall (under (bstr "/pools/")) (pool_defs_writes (tables s));
  tk_tokens : Forall (under (bstr "/token_pools/v1/")) (token_pools_writes (tables s));
  tk_factory : Forall (under (bstr "/factory_pools/v1/")) (factory_pools_writes (tables s));
  tk_made : Forall (under (bstr "/pool_factory/v1/")) (pool_factory_writes (tables s));
  tk_rest : Forall apart (rest_rows s);
  tk_candles : candle_cache (ix s) = ∅;
  tk_overrides : override_ok (pool_price_overrides (ix s));
}.

(** A pass registers one pool. *)
Record grown (s s' : PoolState) (defs : SchemaMarketDefs) (snap : SchemaPoolSnapshot) (fac : option SchemaAlkaneId) : Prop := {
  gr_pools : pools_map (ix s') = <[pool_alkane_id defs := defs]> (pools_map (ix s));
  gr_reserves : reserves_snapshot (ix s') = <[pool_alkane_id defs := snap]> (reserves_snapshot (ix s));
  gr_defs : pool_defs_writes (tables s') = pool_defs_writes (tables s)
    ++ match market_defs_to_vec defs with Some v => [(pools_key (pool_alkane_id defs), v)] | None => [] end;
  gr_tokens : token_pools_writes (tables s') = token_pools_writes (tables s)
    ++ [(token_pools_key (base_alkane_id defs) (pool_alkane_id defs), []); (token_pools_key (quote_alkane_id defs) (pool_alkane_id defs), [])];
  gr_factory : factory_pools_writes (tables s') = factory_pools_writes (tables s)
    ++ match fac with Some f => [(factory_pools_key f (pool_alkane_id defs), [])] | None => [] end;
  gr_made : pool_factory_writes (tables s') = pool_factory_writes (tables s)
    ++ match fac with Some f => [(pool_factory_key (pool_alkane_id defs), id_be f)] | None => [] end;
  gr_rest : Forall apart (rest_rows s) -> Forall apart (rest_rows s');
  gr_candles : candle_cache (ix s') = candle_cache (ix s);
  gr_overrides : pool_price_overrides (ix s') = pool_price_overrides (ix s);
}.

(** The origin of the pool a pass registers. *)
Definition made_by (fac : option SchemaAlkaneId) (pool : SchemaAlkaneId) : Prop :=
  match fac with Some f => id_ok f /\ f ∈ factories | None => is_cryptoswap_pool network pool = true end.

Lemma sync_insert (pools : Pools) res defs snap :
  pools = pools_map_from_snapshot res -> base_id snap = base_alkane_id defs -> quote_id snap = quote_alkane_id defs ->
  <[pool_alkane_id defs := defs]> pools = pools_map_from_snapshot (<[pool_alkane_id defs := snap]> res).
Proof.
  intros -> Hb Hq. unfold pools_map_from_snapshot. apply map_eq. intros p. rewrite map_lookup_imap.
  destruct (decide (pool_alkane_id defs = p)) as [<-|Hne].
  - rewrite !lookup_insert_eq. cbn. rewrite Hb, Hq. by destruct defs.
  - by rewrite !lookup_insert_ne, map_lookup_imap.
Qed.

Lemma tracked_grown s s' pool defs snap fac :
  tracked s -> grown s s' defs snap fac -> defs_ok pool defs -> pools_map (ix s) !! pool = None ->
  snapshot_ok snap -> base_id snap = base_alkane_id defs -> quote_id snap = quote_alkane_id defs -> made_by fac pool -> tracked s'.
Proof.
  intros Ht Hg Hd Hnew Hs Hb Hq Hm. pose proof (do_pool _ _ Hd) as <-. destruct (market_defs_roundtrip _ _ Hd) as (v & Hv & _).
  destruct Ht as [Hr Hy Ho Hst Hk K1 K2 K3 K4 Hrest Hc Hov], Hg as [Gp Gr Gd Gt Gf Gm Grest Gc Gov]. rewrite Hv in Gd.
  constructor; rewrite ?Gp, ?Gr, ?Gd, ?Gt, ?Gf, ?Gm, ?Gc, ?Gov; try done.
  - rewrite !candle_puts_app. cbn [apply_puts foldl fst snd]. destruct fac as [f|]; cbn [apply_puts foldl fst snd].
    + by apply registry_add_made; [..|apply Hm].
    + by apply registry_add.
  - by apply sync_insert.
  - intros p s0 [[<- <-]|[_ Hp]]%lookup_insert_Some; [done|by eapply Ho].
  - apply insert_subseteq_r; [|done]. by eapply lookup_weaken_None.
  - intros p Hp. destruct (decide (pool_alkane_id defs = p)) as [<-|Hne].
    + right. destruct fac as [f|]; [left|by right]. destruct Hm as [_ Hm]. exists f. split; [done|].
      rewrite candle_puts_app. cbn [apply_puts foldl fst snd]. by rewrite lookup_insert_eq.
    + rewrite lookup_insert_ne in Hp by done. destruct (Hk p Hp) as [?|[(f & Hf & Hpf)|?]]; [by left| |by right; right]. right. left. exists f. split; [done|].
      destruct fac as [g|]; [|by rewrite app_nil_r]. rewrite candle_puts_app. cbn [apply_puts foldl fst snd]. rewrite lookup_insert_ne; [done|].
      intros E. apply Hne. apply pool_factory_key_inj; [apply (do_id _ _ Hd)| |done]. destruct Hp as [d Hd']. apply (rg_ids _ _ _ _ _ Hr) in Hd'. apply Hd'.
  - apply Forall_app. split; [done|]. by repeat constructor.
  - apply Forall_app. split; [done|]. by repeat constructor.
  - apply Forall_app. split; [done|]. destruct fac; by repeat constructor.
  - apply Forall_app. split; [done|]. destruct fac; by repeat constructor.
  - by apply Grest.
Qed.

(** ** The passes *)

Lemma decode_u128_range b v : decode_u128_value b = Some v -> in_u128 v.
Proof using Type.
  unfold decode_u128_value. destruct (Nat.eqb_spec (length b) 16) as [Hl|]; [|done]. intros [= <-]. pose proof (from_le_range b) as Hr. by rewrite Hl in Hr.
Qed.

Lemma held_ok es owner token v : get_alkane_balances es owner !! token = Some v -> in_u128 v.
Proof.
  unfold get_alkane_balances.
  assert (Hagg : forall l m, (forall t x, m !! t = Some x -> in_u128 x) -> forall t x, foldl (add_balance es owner) m l !! t = Some x -> in_u128 x).
  { induction l as [|a l IH]; intros m Hm; cbn [foldl]; [done|]. apply IH. intros t x. unfold add_balance.
    destruct (es !! alkane_balance_key owner a ≫= decode_u128_value) as [amount|] eqn:E; [|apply Hm]. destruct (amount =? 0); [apply Hm|].
    intros [[_ <-]|[_ Hx]]%lookup_insert_Some; [|by eapply Hm]. apply bind_Some in E as (raw & _ & E). by eapply decode_u128_range. }
  specialize (Hagg (balance_tokens es owner) ∅ ltac:(intros ? ?; by rewrite lookup_empty)).
  destruct (lookup_self_balance owner) as [b|] eqn:Eb; [|apply Hagg]. destruct (b =? 0).
  - intros [_ Hv]%lookup_delete_Some. by eapply Hagg.
  - intros [[_ <-]|[_ Hv]]%lookup_insert_Some; [by eapply self_balance_ok|by eapply Hagg].
Qed.

Definition seeded (es : Namespace) (defs : SchemaMarketDefs) : SchemaPoolSnapshot :=
  mkPoolSnapshot (pool_reserves es defs).1 (pool_reserves es defs).2 (base_alkane_id defs) (quote_alkane_id defs).

Lemma seeded_ok es defs : snapshot_ok (seeded es defs).
Proof.
  unfold snapshot_ok, seeded, pool_reserves. cbn. split.
  - destruct (_ !! base_alkane_id defs) eqn:E; [by eapply held_ok|done].
  - destruct (delete _ _ !! quote_alkane_id defs) eqn:E; [|done]. apply lookup_delete_Some in E as [_ E]. by eapply held_ok.
Qed.

Lemma bootstrap_grown es units f defs s :
  grown s (push_name es [] (pool_alkane_id defs) (push_canonicals units defs (seed_reserves es defs (push_factory f (pool_alkane_id defs) (insert_pool defs s)))))
    defs (seeded es defs) (Some f).
Proof.
  unfold seeded, seed_reserves. destruct (pool_reserves es defs) as [b q]. unfold push_name. cbn.
  destruct (get_alkane_label es (alkane_label_cache s) (pool_alkane_id defs)) as [cache label]. constructor; try done.
  unfold rest_rows. cbn. rewrite !Forall_app. intros (? & ? & ? & ? & ? & ?). split_and!; try done. case_bool_decide; by repeat constructor.
Qed.

Lemma crypto_grown es units label defs s :
  grown s (push_name es label (pool_alkane_id defs) (push_canonicals units defs (seed_reserves es defs (insert_pool defs s)))) defs (seeded es defs) None.
Proof.
  unfold seeded, seed_reserves. destruct (pool_reserves es defs) as [b q]. unfold push_name. cbn.
  destruct (get_alkane_label es (alkane_label_cache s) (pool_alkane_id defs)) as [cache lbl]. constructor; cbn; rewrite ?app_nil_r; try done.
  unfold rest_rows. cbn. rewrite !Forall_app. intros (? & ? & ? & ? & ? & ?). split_and!; try done. case_bool_decide; by repeat constructor.
Qed.

(** The reserves of a pool that is not known are not there. *)
Lemma unknown_reserves s pool : tracked s -> pools_map (ix s) !! pool = None -> reserves_snapshot (ix s) !! pool = None.
Proof.
  intros Ht. rewrite (tk_sync _ Ht). unfold pools_map_from_snapshot. rewrite map_lookup_imap. by destruct (reserves_snapshot (ix s) !! pool).
Qed.

Lemma discover_grown `{ActivityCodec} es units f defs s info ts a0 a1 a s' :
  reserves_snapshot (ix s) !! pool_alkane_id defs = None ->
  push_creation_info (pool_alkane_id defs) info
    (push_factory f (pool_alkane_id defs) (push_name es [] (pool_alkane_id defs) (push_canonicals units defs (empty_reserves defs (insert_pool defs s))))) = Some s' ->
  grown s (record_creation ts defs a0 a1 a s') defs (mkPoolSnapshot 0 0 (base_alkane_id defs) (quote_alkane_id defs)) (Some f).
Proof.
  intros Hn E. unfold push_name, empty_reserves in E. cbn in E. rewrite Hn in E. cbn in E.
  destruct (get_alkane_label es (alkane_label_cache s) (pool_alkane_id defs)) as [cache lbl]. unfold push_creation_info in E. cbn in E.
  destruct (creation_info_to_vec info) as [enc|]; [|done]. injection E as <-.
  unfold record_creation. cbn. pose proof (fun Ha => push_apart (activity_acc (ix s)) (pool_alkane_id defs) ts a Ha) as Hp.
  destruct (activity_push (activity_acc (ix s)) (pool_alkane_id defs) ts a) as [acc [sq|]]; constructor; try done.
  all: unfold rest_rows, ix_rows, own_tables, table_puts; cbn; rewrite !Forall_app;
    intros (? & ? & ? & ? & ? & (? & ? & ? & ? & ? & ? & ? & ? & ?) & Ha & Hi); split_and!; try done; try (by apply Hp); try (by apply index_apart).
  all: try (case_bool_decide; by repeat constructor). all: try (by repeat constructor).
  all: destruct (address_spk a); by repeat constructor.
Qed.

Hypothesis Hfactories : forall f, f ∈ factories -> id_ok f.

Section Passes.
Context {crates : TraceCrates}.

Lemma storage_word_ok v r : decode_storage_id_hex_word v = Some r -> id_ok r.
Proof using Type.
  unfold decode_storage_id_hex_word. destruct (negb _); [done|]. intros (raw & _ & E)%bind_Some. by eapply words_id_ok.
Qed.

Lemma creation_walk_ok pool stack evs b q fac : creation_walk pool stack evs = Some (b, q, fac) -> id_ok b /\ id_ok q.
Proof using Type.
  revert stack. induction evs as [|[inv|ret|c] evs IH]; intros stack; cbn [creation_walk]; [done|apply IH| |apply IH].
  destruct stack as [|leaving stack]; [apply IH|]. case_bool_decide; [|apply IH]. cbn zeta.
  destruct (storage_value key_alkane_0 _ ≫= _) as [b'|] eqn:Eb; [|apply IH]. destruct (storage_value key_alkane_1 _ ≫= _) as [q'|] eqn:Eq; [|apply IH].
  intros [= <- <- _]. apply bind_Some in Eb as (? & _ & Eb), Eq as (? & _ & Eq). split; by eapply storage_word_ok.
Qed.

Lemma bootstrap_pool_tracked es units s pool : id_ok pool -> tracked s -> tracked (bootstrap_pool es units factories s pool).
Proof.
  intros Hp Ht. unfold bootstrap_pool. case_bool_decide as Hin; [done|].
  destruct (rec ← creation_record es pool; _) as [[defs f]|] eqn:E; [|done].
  apply bind_Some in E as (rec & _ & E). apply bind_Some in E as (summary & _ & E). apply bind_Some in E as ([[b q] fac] & Ew & E).
  apply bind_Some in E as (f' & _ & E). case_bool_decide as Hf; [|done]. cbn [negb] in E. case_bool_decide; [done|]. injection E as <- <-.
  apply creation_walk_ok in Ew as [Hb Hq].
  eapply (tracked_grown s _ pool (mkDefs b q pool)); [done|exact (bootstrap_grown es units f' (mkDefs b q pool) s)|done|..]; try done.
  - by apply eq_None_not_Some.
  - apply seeded_ok.
  - split; [by apply Hfactories|done].
Qed.

Lemma bootstrap_tracked es height units s : tracked s -> tracked (bootstrap_pools_from_creation_records es height units factories s).
Proof.
  intros Ht. unfold bootstrap_pools_from_creation_records. case_bool_decide; [done|].
  assert (Hl : Forall id_ok (created_alkanes es height)).
  { unfold created_alkanes. destruct (_ ≫= _) as [l|] eqn:E; [|constructor]. apply bind_Some in E as (raw & _ & E). by eapply alkane_ids_ok. }
  revert s Ht. induction Hl as [|p l Hp Hl IH]; intros s Ht; cbn; [done|]. by apply IH, bootstrap_pool_tracked.
Qed.

(** Every pool the walk finds has ids of their widths. *)
Definition found_ok (p : NewPoolInfo) : Prop := defs_ok (np_pool_id p) (np_defs p).

Lemma pool_step_ok created evs w w' :
  Forall found_ok (pw_results w) -> foldl (pool_step created) (Some w) evs = Some w' -> Forall found_ok (pw_results w').
Proof using Type.
  assert (Hnone : forall l, foldl (pool_step created) None l = None) by (induction l; done).
  revert w. induction evs as [|ev evs IH]; intros w Hw; cbn [foldl]; [by intros [= <-]|].
  destruct (pool_step created (Some w) ev) as [w1|] eqn:E; [|by rewrite Hnone]. apply IH. clear IH Hnone.
  unfold pool_step in E. cbn [mbind option_bind] in E. destruct ev as [inv|ret|c]; [by injection E as <-| |by injection E as <-].
  destruct (pw_stack w) as [|leaving stack]; [by injection E as <-|]. case_bool_decide; [|by injection E as <-].
  destruct (rs_storage (response ret)) as [|kv storage]; [by injection E as <-|]. unfold pool_of_return in E.
  destruct (storage_value key_alkane_0 _) as [v0|]; [|by injection E as <-]. destruct (storage_value key_alkane_1 _) as [v1|]; [|by injection E as <-].
  apply bind_Some in E as (b & Eb & E). apply bind_Some in E as (q & Eq & E). apply bind_Some in E as (p & Ep & E).
  case_bool_decide; injection E as <-; [done|]. cbn [pw_results]. apply Forall_app. split; [done|]. constructor; [|done]. constructor; cbn; [done|..];
    [by eapply short_id_ok|by eapply storage_word_ok..].
Qed.

Lemma extracted_ok tx host l : extract_new_pools_from_espo_transaction tx host = Some l -> Forall found_ok l.
Proof using Type.
  unfold extract_new_pools_from_espo_transaction. destruct (at_traces tx); [|by intros [= <-]]. cbn zeta. case_bool_decide; [by intros [= <-]|].
  case_bool_decide; [by intros [= <-]|]. intros (w & Ew & [= <-])%bind_Some. by eapply pool_step_ok in Ew.
Qed.

Context {btc : BitcoinCrate} {node : RunesChain.Node} {acodec : ActivityCodec}.
Context (protostones_of : Transaction -> option (list (Z * option Z))).

Lemma discover_pool_tracked es block units block_txs meta tx by_id d p :
  found_ok p -> tracked (ds_state d) ->
  exists d', discover_pool protostones_of es block units factories block_txs meta tx by_id (Some d) p = Some d' /\ tracked (ds_state d').
Proof.
  intros Hp Ht. unfold discover_pool. cbn [mbind option_bind]. case_bool_decide; [by eexists|]. cbn [ds_state]. case_bool_decide as Hin; [by eexists|].
  destruct (match by_id !! np_pool_id p with Some f => Some f | None => np_factory_id p end) as [f|]; [|by eexists].
  case_bool_decide as Hf; cbn [negb]; [|by eexists].
  destruct (creator_of protostones_of block_txs _ _) as [cache creator]. destruct (pool_reserves es (np_defs p)) as [a0 a1].
  pose proof (do_pool _ _ Hp) as Epool. assert (Hp' : defs_ok (np_pool_id p) (np_defs p)) by exact Hp. rewrite <- Epool in *.
  set (info := mkCreationInfo _ _ _ _ _). set (s1 := push_factory _ _ _).
  destruct (push_creation_info (pool_alkane_id (np_defs p)) info s1) as [s2|] eqn:E.
  2:{ exfalso. unfold push_creation_info in E. by destruct (creation_info_total info) as [enc Henc]; rewrite Henc in E. }
  cbn [mbind option_bind]. destruct (default ([], true) (meta !! compute_txid (at_transaction tx))) as [spk ok]. eexists. split; [done|]. cbn [ds_state].
  apply eq_None_not_Some in Hin. assert (Hn := unknown_reserves _ _ Ht Hin).
  eapply (tracked_grown (ds_state d)); [done|eapply (discover_grown es units f); [exact Hn|exact E]|exact Hp'|done|..]; try done. by split; [apply Hfactories|].
Qed.

Lemma discover_tracked es block units s :
  tracked s -> exists s', discover_new_pools protostones_of es block units factories s = Some (s', tx_meta_of protostones_of (pb_transactions block)) /\ tracked s'.
Proof.
  intros Ht. unfold discover_new_pools. cbn zeta. set (txs := block_tx_map _). set (meta := tx_meta_of _ _).
  assert (Hpools : forall tx by_id l d, Forall found_ok l -> tracked (ds_state d) ->
    exists d', foldl (discover_pool protostones_of es block units factories txs meta tx by_id) (Some d) l = Some d' /\ tracked (ds_state d')).
  { intros tx by_id l. induction l as [|p l IH]; intros d Hl Hd; [by eexists|]. apply Forall_cons in Hl as [Hp Hl]. cbn [foldl].
    destruct (discover_pool_tracked es block units txs meta tx by_id d p Hp Hd) as (d' & -> & Hd'). by apply IH. }
  assert (Hall : forall l d, tracked (ds_state d) ->
    exists d', foldl (discover_transaction protostones_of es block units factories txs meta) (Some d) l = Some d' /\ tracked (ds_state d')).
  { induction l as [|tx l IH]; intros d Hd; [by eexists|]. cbn [foldl]. unfold discover_transaction at 2. destruct (at_traces tx) as [traces|]; [|by apply IH].
    destruct (extract_new_pools_from_espo_transaction tx (pb_host block)) as [new|] eqn:E; [|by apply IH].
    destruct (Hpools tx (pool_factories_by_id traces (pb_host block) factories) new d) as (d' & -> & Hd'); [by eapply extracted_ok|done|by apply IH]. }
  destruct (Hall (pb_transactions block) (mkDiscovery s ∅ ∅) Ht) as (d & Ed & Hd). exists (ds_state d). by rewrite Ed.
Qed.

(** ** CryptoSwap *)

Lemma prices_range p prices : in_u128 p -> prices_from_wad p = Some prices -> in_u128 prices.1 /\ in_u128 prices.2.
Proof using Type.
  unfold prices_from_wad, in_u128. intros Hp. destruct (Z.eqb_spec p 0); [done|]. cbn zeta. destruct (_ || _); [done|]. intros [= <-]. cbn [fst snd].
  change (WAD / PRICE_SCALE) with 100. assert (0 <= WAD * PRICE_SCALE / p <= WAD * PRICE_SCALE) by (split; [apply Z.div_pos|apply Z.div_le_upper_bound]; unfold WAD, PRICE_SCALE; nia).
  assert (WAD * PRICE_SCALE < u128_mod) by done. split; [lia|]. split; [apply Z.div_pos; lia|]. apply Z.div_lt_upper_bound; lia.
Qed.

Lemma chart_price_range values s p : decode_state values = Some s -> chart_price_wad s = Some p -> in_u128 p.
Proof using Type.
  unfold decode_state. destruct (negb _); [done|]. cbn zeta.
  assert (Hslot : forall i, in_u128 (default 0 (mjoin (values !! i) ≫= decode_le_u128))).
  { intros i. destruct (mjoin (values !! i)) as [raw|]; [|done]. cbn [mbind option_bind]. unfold decode_le_u128.
    destruct (Nat.ltb_spec (length (row_value raw)) 16) as [|Hl]; [done|]. destruct (existsb _ _); [done|]. cbn [default].
    pose proof (from_le_range (take 16 (row_value raw))) as Hr. rewrite length_take, Nat.min_l in Hr by lia. done. }
  destruct (chart_price_wad _) as [p0|] eqn:E; [|done]. intros [= <-] Hp. rewrite Hp in E. injection E as ->.
  unfold chart_price_wad in Hp. apply head_Some_elem_of, list_elem_of_filter in Hp as [_ Hp]. cbn in Hp.
  rewrite !elem_of_cons, elem_of_nil in Hp. destruct Hp as [->|[->|[->|[]]]]; apply Hslot.
Qed.

Lemma override_tracked s pool prices :
  tracked s -> in_u128 prices.1 -> in_u128 prices.2 -> tracked (with_ix s (with_override (ix s) pool prices)).
Proof.
  intros [] Hp1 Hp2. constructor; try done. cbn. intros p x [[_ <-]|[_ Hx]]%lookup_insert_Some; [done|]. by eapply tk_overrides0.
Qed.

Lemma table_ids def : def ∈ cryptoswap_pools network ->
  defs_ok (cs_pool def) (mkDefs (coin0 def) (coin1 def) (cs_pool def)) /\ is_cryptoswap_pool network (cs_pool def) = true.
Proof using Type.
  destruct network; cbn; [|by rewrite elem_of_nil]. intros ->%list_elem_of_singleton. split; [|done]. by constructor.
Qed.

Lemma crypto_tracked es units s : tracked s -> tracked (register_cryptoswap_pools es network units s).
Proof.
  unfold register_cryptoswap_pools. assert (Hl : Forall (fun def => def ∈ cryptoswap_pools network) (cryptoswap_pools network)) by (by apply Forall_forall).
  revert Hl. generalize (cryptoswap_pools network) at 2 3. intros l Hl. revert s. induction Hl as [|def l Hdef Hl IH]; intros s Ht; cbn [foldl]; [done|].
  apply IH. clear IH Hl. destruct (table_ids def Hdef) as [Hd Hc]. unfold register_cryptoswap_pool.
  destruct (read_pool_state es (cs_pool def)) as [state|] eqn:Es; [|done]. cbn zeta.
  set (s1 := match _ with Some prices => _ | None => s end).
  assert (Ht1 : tracked s1).
  { unfold s1. destruct (chart_price_wad state ≫= prices_from_wad) as [prices|] eqn:E; [|done]. apply bind_Some in E as (p & Ep & E).
    eapply chart_price_range in Ep; [|exact Es]. apply prices_range in E as [? ?]; [|done]. by apply override_tracked. }
  clearbody s1. case_bool_decide as Hin; [done|].
  eapply (tracked_grown s1); [done|exact (crypto_grown es units (cs_label def) (mkDefs (coin0 def) (coin1 def) (cs_pool def)) s1)|exact Hd|..]; try done.
  - by apply eq_None_not_Some.
  - apply seeded_ok.
Qed.

End Passes.
End Tracked.

(** ** Factories *)

Section Factories.
Set Default Proof Using "Type*".
Context `{EssentialsLaws}.

Definition factories_ok (f : Factories) : Prop := (forall id, id ∈ amm_factories f -> id_ok id) /\ Forall apart (amm_factory_writes f).

Lemma add_factory_ok f id : factories_ok f -> id_ok id -> factories_ok (add_factory f id).
Proof using Type.
  intros [Hf Hw] Hid. split; cbn.
  - intros x [->%elem_of_singleton|Hx]%elem_of_union; [done|by apply Hf].
  - apply Forall_app. split; [done|]. by repeat constructor.
Qed.

Lemma consider_ok es f id : factories_ok f -> id_ok id -> factories_ok (consider_factory es f id).
Proof.
  intros Hf Hid. unfold consider_factory. case_bool_decide; [done|]. cbn zeta. set (f1 := match _ with Some _ => _ | None => f end).
  assert (Hf1 : factories_ok f1).
  { unfold f1. destruct (i ← creation_record es id ≫= inspection; factory_alkane i) as [x|] eqn:E; [|done]. case_bool_decide; [done|].
    apply add_factory_ok; [done|]. apply bind_Some in E as (i & E & Hx). apply bind_Some in E as (r & E & Hi). apply bind_Some in E as (raw & _ & E).
    by eapply factory_alkane_ok. }
  clearbody f1. destruct (record_is_factory es id); [by apply add_factory_ok|]. destruct (lookup_proxy_target_cached _ _ _) as [cache target].
  destruct (match target with Some t => record_is_factory es t | None => false end); [|done]. by apply add_factory_ok.
Qed.

Lemma created_ok es height : Forall id_ok (created_alkanes es height).
Proof. unfold created_alkanes. destruct (_ ≫= _) as [l|] eqn:E; [|constructor]. apply bind_Some in E as (raw & _ & E). by eapply alkane_ids_ok. Qed.

Lemma prepare_factories_ok ns es height :
  (forall f, f ∈ (prepare_factories ns es height).1 -> id_ok f) /\ Forall apart (prepare_factories ns es height).2.
Proof.
  unfold prepare_factories. cbn [fst snd].
  assert (Hall : forall l f, Forall id_ok l -> factories_ok f -> factories_ok (foldl (consider_factory es) f l)).
  { induction l as [|a l IH]; intros f Hl Hf; [done|]. apply Forall_cons in Hl as [Ha Hl]. cbn [foldl]. by apply IH, consider_ok. }
  apply Hall; [apply created_ok|]. split; [|constructor]. cbn [amm_factories]. intros id (k & _ & Hk)%elem_of_list_to_set%list_elem_of_omap.
  by apply parse_prefixed_inv in Hk as [? _].
Qed.

End Factories.

(** ** The snapshot of the reserves *)

Lemma keys_by_prefix ns prefix k : k ∈ get_list_keys_by_prefix ns prefix <-> is_Some (ns !! k) /\ starts_with k prefix = true.
Proof.
  unfold get_list_keys_by_prefix. rewrite sort_by_perm, list_elem_of_filter, list_elem_of_fmap. split.
  - intros [Hs ([k' v] & -> & Hv%elem_of_map_to_list)]. split; [by eexists|done].
  - intros [[v Hv] Hs]. split; [done|]. exists (k, v). split; [done|]. by apply elem_of_map_to_list.
Qed.

Section Snapshot.
Context `{PoolCodec}.

Lemma load_lookup ns pool s :
  load_reserves_snapshot ns !! pool = Some s <-> id_ok pool /\ ns !! reserves_snapshot_pool_key pool ≫= pool_snapshot_from_slice = Some s.
Proof.
  unfold load_reserves_snapshot. set (g := fun _ _ => _).
  assert (Hl : forall l, foldl g ∅ l !! pool = Some s
    <-> reserves_snapshot_pool_key pool ∈ l /\ id_ok pool /\ ns !! reserves_snapshot_pool_key pool ≫= pool_snapshot_from_slice = Some s).
  { induction l as [|k l IH] using rev_ind; [cbn; rewrite lookup_empty, elem_of_nil; naive_solver|]. rewrite foldl_app. cbn [foldl]. unfold g at 1.
    change (if starts_with k reserves_snapshot_pool_prefix then decode_alkane_id_be (drop (length reserves_snapshot_pool_prefix) k) else None)
      with (parse_alkane_id_from_prefixed_key reserves_snapshot_pool_prefix k).
    rewrite elem_of_app, list_elem_of_singleton.
    destruct (parse_alkane_id_from_prefixed_key reserves_snapshot_pool_prefix k) as [p|] eqn:Ep.
    - apply parse_prefixed_inv in Ep as [Hp Ek]. change (k = reserves_snapshot_pool_key p) in Ek. subst k.
      destruct (ns !! reserves_snapshot_pool_key p ≫= pool_snapshot_from_slice) as [s'|] eqn:Es.
      + rewrite lookup_insert_Some, IH. split.
        * intros [[<- <-]|[_ (? & ? & ?)]]; [|by split_and!; [left|..]]. by split_and!; [right|..].
        * intros (Hin & Hok & E). destruct (decide (p = pool)) as [->|Hne]; [left; split; congruence|right]. split; [done|]. split_and!; try done.
          destruct Hin as [?|Ek]; [done|]. exfalso. by apply Hne, reserves_key_inj.
      + rewrite IH. split; [intros (? & ? & ?); split_and!; try done; by left|]. intros ([?|Ek] & Hok & E); [by split_and!|].
        apply reserves_key_inj in Ek as ->; [congruence|done..].
    - rewrite IH. split; [intros (? & ? & ?); split_and!; try done; by left|]. intros ([?|Ek] & Hok & E); [by split_and!|].
      exfalso. rewrite <- Ek in Ep. unfold reserves_snapshot_pool_key in Ep. by rewrite parse_prefixed in Ep. }
  rewrite Hl, keys_by_prefix. split; [by intros (_ & ? & ?)|]. intros [Hok E]. split_and!; try done.
  apply bind_Some in E as (raw & E & _). by eexists.
Qed.

End Snapshot.

(** ** A block *)

(** The rows of the pools in a namespace between two blocks. *)
Definition stored_pools `{PoolCodec} (ns : Namespace) : Pools := pools_map_from_snapshot (load_reserves_snapshot ns).

Record pools_indexed `{PoolCodec} (ns : Namespace) : Prop := {
  px_registry : registry ns ns ns ns (stored_pools ns);
  px_reserves : reserves_ok (load_reserves_snapshot ns);
  px_rows : forall pool, id_ok pool -> is_Some (ns !! reserves_snapshot_pool_key pool) -> is_Some (load_reserves_snapshot ns !! pool);
}.

Lemma last_put_apart l k : Forall apart l -> pool_family k = true -> last_put l k = None.
Proof.
  intros Hl Hk. apply last_put_none. intros v Hin. rewrite Forall_forall in Hl. apply Hl in Hin. unfold apart in Hin. cbn [fst] in Hin. congruence.
Qed.

Lemma last_put_under pre l k : Forall (under pre) l -> starts_with k pre = false -> last_put l k = None.
Proof.
  intros Hl Hk. apply last_put_none. intros v Hin. rewrite Forall_forall in Hl. apply Hl in Hin. unfold under in Hin. cbn [fst] in Hin. congruence.
Qed.

Lemma stored_lookup (res : gmap SchemaAlkaneId SchemaPoolSnapshot) pool :
  pools_map_from_snapshot res !! pool = (fun s => mkDefs (base_id s) (quote_id s) pool) <$> res !! pool.
Proof. unfold pools_map_from_snapshot. rewrite map_lookup_imap. by destruct (res !! pool). Qed.

Lemma snapshot_put `{PoolCodec} (m : gmap SchemaAlkaneId SchemaPoolSnapshot) pool :
  (forall p, is_Some (m !! p) -> id_ok p) -> id_ok pool ->
  last_put (snapshot_puts m) (reserves_snapshot_pool_key pool) = m !! pool ≫= pool_snapshot_to_vec.
Proof.
  intros Hids Hp.
  assert (Hin : forall v, (reserves_snapshot_pool_key pool, v) ∈ snapshot_puts m <-> m !! pool ≫= pool_snapshot_to_vec = Some v).
  { intros v. unfold snapshot_puts. rewrite list_elem_of_omap. split.
    - intros ([p s] & Hm%elem_of_map_to_list & E). cbn in E. apply bind_Some in E as (enc & He & [E <-]%(inj Some)%pair_equal_spec).
      apply reserves_key_inj in E as ->; [by rewrite Hm|by apply Hids; eexists|done].
    - intros (s & Hm & He)%bind_Some. exists (pool, s). rewrite elem_of_map_to_list. split; [done|]. cbn. by rewrite He. }
  destruct (m !! pool ≫= pool_snapshot_to_vec) as [v|].
  - apply last_put_unique; [by apply Hin|]. intros v' Hv'%Hin. by injection Hv'.
  - apply last_put_none. by intros v ?%Hin.
Qed.

Lemma snapshot_puts_under `{PoolCodec} m : Forall (under reserves_snapshot_pool_prefix) (snapshot_puts m).
Proof. apply Forall_forall. intros p ([pool s] & _ & (enc & _ & <-%(inj Some))%bind_Some)%list_elem_of_omap. apply starts_with_app. Qed.

(** Saving a snapshot and loading it again. *)
Lemma load_saved `{PoolCodecLaws} ns (res : gmap SchemaAlkaneId SchemaPoolSnapshot) :
  reserves_ok res -> (forall p s, res !! p = Some s -> defs_ok p (mkDefs (base_id s) (quote_id s) p)) ->
  (forall p, id_ok p -> ns !! reserves_snapshot_pool_key p = res !! p ≫= pool_snapshot_to_vec) -> load_reserves_snapshot ns = res.
Proof.
  intros Hok Hdefs Hrow. apply map_eq. intros p. apply option_eq. intros s. rewrite load_lookup. split.
  - intros [Hp Hs]. rewrite Hrow in Hs by done. destruct (res !! p) as [s'|] eqn:Es; [|done]. cbn [mbind option_bind] in Hs.
    destruct (Hdefs p s' Es) as [_ _ Hb Hq]. destruct (pool_snapshot_roundtrip s' (Hok p s' Es) Hb Hq) as (v & Hv & Hv'). rewrite Hv in Hs. cbn in Hs. congruence.
  - intros Es. destruct (Hdefs p s Es) as [_ Hp Hb Hq]. split; [done|]. rewrite Hrow, Es by done. cbn [mbind option_bind].
    destruct (pool_snapshot_roundtrip s (Hok p s Es) Hb Hq) as (v & -> & Hv'). done.
Qed.

Section Block.
Set Default Proof Using "Type*".
Context `{PoolCodecLaws} `{EssentialsLaws} {crates : TraceCrates} {btc : BitcoinCrate} {node : RunesChain.Node} `{ActivityCodec} `{CandleCodecLaws}.
Context (protostones_of : Transaction -> option (list (Z * option Z))).
Context (ns es : Namespace) (network : Network) (units : gset SchemaAlkaneId) (block : PoolBlock).
Hypothesis Hns : pools_indexed ns.

Abbreviation known_factories := (prepare_factories ns es (pb_height block)).1.
Abbreviation tracks := (tracked ns (stored_pools ns) known_factories network).

Lemma new_tracked : tracks (pool_state_new (load_reserves_snapshot ns) (stored_pools ns)).
Proof.
  destruct Hns as [Hr Ho _]. constructor; cbn; try done; try by constructor.
Qed.

Lemma excluded_tracked s ex : tracks s -> tracks (with_ix s (with_excluded (ix s) ex)).
Proof. by intros []. Qed.

(** The passes before the deltas. *)
Lemma index_pools_tracked :
  exists x, index_pools protostones_of ns es network units block = Some x /\ tracks (id_state x) /\ Forall apart (id_factory_writes x).
Proof.
  unfold index_pools. cbn zeta. destruct (prepare_factories_ok ns es (pb_height block)) as [Hf Hw].
  pose proof new_tracked as Ht. destruct (prepare_factories ns es (pb_height block)) as [facs writes] eqn:Ef. cbn [fst snd] in *.
  apply (bootstrap_tracked _ _ _ _ Hf es (pb_height block) units) in Ht.
  apply (discover_tracked _ _ _ _ Hf protostones_of es block units) in Ht as (s & E & Ht). change (pools_map_from_snapshot (load_reserves_snapshot ns)) with (stored_pools ns).
  rewrite E. cbn [mbind option_bind]. apply (crypto_tracked _ _ _ _ Hf es units) in Ht. eexists. split; [done|]. cbn [id_state id_factory_writes].
  split; [|done]. destruct (pricing_factories_at_height network (pb_height block)); [|done]. by destruct Ht.
Qed.

Context (frames vframes : list Timeframe) (balance_txs : gmap SchemaAlkaneId (list AlkaneBalanceTxEntry)) (metrics : MetricWrites).
Hypothesis Hdecode : rows_decode ns.
Hypothesis Hts : in_u64 (pb_ts block).
Hypothesis Htxids : map_Forall (fun _ l => Forall (fun e => length (bt_txid e) = 32%nat) l) balance_txs.

(** The metrics have rows of their own. *)
Record metrics_apart : Prop := {
  ma_derived : Forall apart (derived_token_rows metrics);
  ma_canonical : Forall apart (canonical_pool_rows metrics);
  ma_metrics : Forall apart (pool_metrics_rows metrics);
  ma_details : Forall apart (pool_details_rows metrics);
  ma_deletes : Forall (fun k => pool_family k = false) (metric_deletes metrics);
}.
Hypothesis Hmetrics : metrics_apart.

Lemma moves_ok pools : (forall p d, pools !! p = Some d -> defs_ok p d) -> Forall move_ok (block_moves pools balance_txs).
Proof.
  intros Hp. unfold block_moves. apply Forall_forall. intros m (e & Hm & He)%list_elem_of_bind. destruct e as [owner l]. cbn in Hm.
  unfold btree_entries in He. rewrite sort_by_perm in He. apply elem_of_map_to_list in He. apply Htxids in He. destruct (pools !! owner) as [defs|] eqn:E; [|by apply elem_of_nil in Hm].
  apply list_elem_of_fmap in Hm as (entry & -> & Hin). destruct (Hp _ _ E) as [_ Ho Hb Hq]. rewrite Forall_forall in He. by split_and!; [..|apply He].
Qed.

Definition processed_state (x : Indexed) : IndexState :=
  process_balance_deltas (pb_ts block) units frames vframes (id_meta x) balance_txs (ix (id_state x)).

(** What the deltas leave of the state of the passes. *)
Lemma processed_tracked x :
  tracks (id_state x) ->
  pools_map_from_snapshot (reserves_snapshot (processed_state x)) = pools_map (ix (id_state x))
  /\ reserves_ok (reserves_snapshot (processed_state x))
  /\ Forall apart (ix_rows (processed_state x))
  /\ exists w, into_writes ns (candle_cache (processed_state x)) = Some w /\ Forall apart w.
Proof.
  intros Ht. unfold processed_state. rewrite process_balance_moves. set (ms := block_moves _ _).
  pose proof (moves_ok _ (rg_ids _ _ _ _ _ (tk_registry _ _ _ _ _ Ht))) as Hms. fold ms in Hms.
  destruct (process_moves_fields (pb_ts block) units frames vframes (id_meta x) (ix (id_state x)) ms (tk_reserves _ _ _ _ _ Ht)) as (Hr & _ & Hc & _).
  split_and!.
  - apply map_eq. intros p. rewrite (tk_sync _ _ _ _ _ Ht), !stored_lookup, Hr. unfold reserves_after.
    destruct (reserves_snapshot (ix (id_state x)) !! p) as [s|]; [|done]. cbn. f_equal.
    generalize (filter (of_pool p) ms). intros l. revert s. induction l as [|m l IH]; intros s; cbn; [done|]. rewrite IH. done.
  - intros p s. rewrite Hr. unfold reserves_after. destruct (reserves_snapshot (ix (id_state x)) !! p) as [s0|] eqn:E; [|done]. intros [= <-].
    apply (tk_reserves _ _ _ _ _ Ht) in E. generalize (filter (of_pool p) ms). intros l. revert s0 E. induction l as [|m l IH]; intros s0 E; cbn; [done|].
    by apply IH, moved_snapshot_ok.
  - apply process_moves_apart. pose proof (tk_rest _ _ _ _ _ Ht) as Hrest. unfold rest_rows in Hrest. rewrite !Forall_app in Hrest. apply Hrest.
  - rewrite Hc, (tk_candles _ _ _ _ _ Ht).
    pose proof (block_trades_ok (pb_ts block) _ _ ms Hts Hms (tk_reserves _ _ _ _ _ Ht) (tk_overrides _ _ _ _ _ Ht)) as Hok.
    destruct (into_writes_rows ns (gather frames (block_trades (pb_ts block) (pool_price_overrides (ix (id_state x))) (reserves_snapshot (ix (id_state x))) ms)) Hdecode)
      as (w & Hw & _ & _ & Hwv & _).
    { intros key Hk. apply gather_keys in Hk as (_ & t & Ht' & Hin). eapply trade_key_ok; [|exact Hin]. rewrite Forall_forall in Hok. by apply Hok. }
    exists w. split; [exact Hw|]. apply Forall_forall. intros [k v] Hkv. destruct (Hwv k v Hkv) as (key & _ & _ & _ & -> & _). apply candle_apart, candle_key_fc1.
Qed.

(** The block returns, and the tables of the pools hold the rows of the passes and the snapshot. *)
Lemma block_rows :
  exists x ns', index_pools protostones_of ns es network units block = Some x /\ tracks (id_state x)
    /\ index_block_rows protostones_of units frames vframes ns es network block balance_txs metrics = Some ns'
    /\ forall k, pool_family k = true -> ns' !! k =
         orelse (last_put (snapshot_puts (reserves_snapshot (processed_state x))) k)
           (orelse (last_put (token_pools_writes (tables (id_state x))) k) (orelse (last_put (pool_defs_writes (tables (id_state x))) k)
             (orelse (last_put (pool_factory_writes (tables (id_state x))) k) (orelse (last_put (factory_pools_writes (tables (id_state x))) k) (ns !! k))))).
Proof.
  destruct index_pools_tracked as (x & Ex & Ht & Hfw). destruct (processed_tracked x Ht) as (_ & _ & Hix & w & Hw & Hwa).
  unfold index_block_rows. rewrite Ex. cbn [mbind option_bind]. fold (processed_state x). rewrite Hw. cbn [mbind option_bind].
  pose proof (fun p => volume_puts_space ns (pb_height block) (token_volume_cache (processed_state x)) p) as Hv.
  destruct (prepare_token_volume _ _ _) as [vc vt]. cbn [fst snd] in Hv. exists x. eexists. split_and!; [done|done|apply set_batch_spec|].
  intros k Hk. rewrite apply_puts_last, apply_deletes_lookup, bool_decide_false.
  2:{ intros Hin. pose proof (ma_deletes Hmetrics) as Hd. rewrite Forall_forall in Hd. apply Hd in Hin. congruence. }
  pose proof (tk_rest _ _ _ _ _ Ht) as Hrest. unfold rest_rows in Hrest. rewrite !Forall_app in Hrest. destruct Hrest as (Hr1 & Hr2 & Hr3 & Hr4 & Hr5 & _).
  unfold ix_rows in Hix. rewrite !Forall_app in Hix. destruct Hix as (Hi1 & Hi2 & Hi3).
  assert (Htab : Forall apart (table_puts (table_writes (processed_state x)) (address_pool_creations_writes (tables (id_state x))))).
  { rewrite Forall_forall in Hi1, Hr5. apply Forall_forall. intros p [Hp|Hp]%table_puts_elem; auto. }
  assert (Hvol : Forall apart (vc ++ vt)) by (apply Forall_forall; intros [k' v'] Hp; by apply volume_apart, (Hv _ Hp)). apply Forall_app in Hvol as [Hvc Hvt].
  assert (Hact : Forall apart (activity_puts ns (processed_state x))) by (unfold activity_puts; rewrite !Forall_app; split_and!; [done|done|apply count_apart]).
  destruct Hmetrics. unfold pool_puts. rewrite !last_put_app.
  repeat match goal with Ha : Forall apart ?l |- context [last_put ?l k] => rewrite (last_put_apart l k Ha Hk) end. cbn [orelse].
  by destruct (last_put (snapshot_puts _) k), (last_put (token_pools_writes _) k), (last_put (pool_defs_writes _) k), (last_put (pool_factory_writes _) k),
    (last_put (factory_pools_writes _) k).
Qed.

(** One table of the pools. *)
Lemma own_table pre x l k :
  tracks (id_state x) -> starts_with k pre = true ->
  (pre, l) ∈ [(bstr "/pools/", pool_defs_writes (tables (id_state x))); (bstr "/token_pools/v1/", token_pools_writes (tables (id_state x)));
              (bstr "/factory_pools/v1/", factory_pools_writes (tables (id_state x))); (bstr "/pool_factory/v1/", pool_factory_writes (tables (id_state x)))] ->
  pool_family k = true /\
  orelse (last_put (snapshot_puts (reserves_snapshot (processed_state x))) k)
    (orelse (last_put (token_pools_writes (tables (id_state x))) k) (orelse (last_put (pool_defs_writes (tables (id_state x))) k)
      (orelse (last_put (pool_factory_writes (tables (id_state x))) k) (orelse (last_put (factory_pools_writes (tables (id_state x))) k) (ns !! k)))))
  = apply_puts ns l !! k.
Proof using Type.
  intros Ht Hk Hl. apply starts_with_iff in Hk as [r ->]. rewrite apply_puts_last.
  pose proof (tk_defs _ _ _ _ _ Ht). pose proof (tk_tokens _ _ _ _ _ Ht). pose proof (tk_factory _ _ _ _ _ Ht). pose proof (tk_made _ _ _ _ _ Ht).
  pose proof (snapshot_puts_under (reserves_snapshot (processed_state x))).
  rewrite !elem_of_cons, elem_of_nil in Hl. destruct Hl as [[= -> ->]|[[= -> ->]|[[= -> ->]|[[= -> ->]|[]]]]]; (split; [done|]).
  all: repeat match goal with Hu : Forall (under ?q) ?m |- context [last_put ?m ?k] => rewrite (last_put_under q m k Hu) by done end; done.
Qed.

Lemma block_indexed :
  exists x ns', index_pools protostones_of ns es network units block = Some x /\ tracks (id_state x)
    /\ index_block_rows protostones_of units frames vframes ns es network block balance_txs metrics = Some ns'
    /\ load_reserves_snapshot ns' = reserves_snapshot (processed_state x)
    /\ stored_pools ns' = pools_map (ix (id_state x))
    /\ (forall pool, ns' !! pool_factory_key pool = apply_puts ns (pool_factory_writes (tables (id_state x))) !! pool_factory_key pool)
    /\ pools_indexed ns'.
Proof.
  destruct block_rows as (x & ns' & Ex & Ht & E & Hrows). exists x, ns'.
  destruct (processed_tracked x Ht) as (Hsync & Hok & _). set (res := reserves_snapshot (processed_state x)) in *.
  assert (Hdefs : forall p s, res !! p = Some s -> defs_ok p (mkDefs (base_id s) (quote_id s) p)).
  { intros p s Hs. apply (rg_ids _ _ _ _ _ (tk_registry _ _ _ _ _ Ht)). by rewrite <- Hsync, stored_lookup, Hs. }
  assert (Hids : forall p, is_Some (res !! p) -> id_ok p) by (intros p [s Hs]; apply (do_id _ _ (Hdefs p s Hs))).
  assert (Hrow : forall p, id_ok p -> ns' !! reserves_snapshot_pool_key p = orelse (res !! p ≫= pool_snapshot_to_vec) (ns !! reserves_snapshot_pool_key p)).
  { intros p Hp. rewrite Hrows by done. fold res. rewrite snapshot_put by done.
    by rewrite (last_put_under _ _ _ (tk_tokens _ _ _ _ _ Ht)), (last_put_under _ _ _ (tk_defs _ _ _ _ _ Ht)), (last_put_under _ _ _ (tk_made _ _ _ _ _ Ht)),
      (last_put_under _ _ _ (tk_factory _ _ _ _ _ Ht)). }
  assert (Hold : forall p, id_ok p -> is_Some (ns !! reserves_snapshot_pool_key p) -> is_Some (res !! p)).
  { intros p Hp [s Hs]%(px_rows _ Hns); [|done].
    assert (Hst : stored_pools ns !! p = Some (mkDefs (base_id s) (quote_id s) p)) by (unfold stored_pools; by rewrite stored_lookup, Hs).
    pose proof (lookup_weaken _ _ _ _ Hst (tk_start _ _ _ _ _ Ht)) as Hd. rewrite <- Hsync, stored_lookup in Hd. by destruct (res !! p). }
  assert (Hnew : forall p, id_ok p -> ns' !! reserves_snapshot_pool_key p = res !! p ≫= pool_snapshot_to_vec).
  { intros p Hp. rewrite Hrow by done. destruct (res !! p) as [s|] eqn:Es; cbn [mbind option_bind orelse].
    - destruct (Hdefs p s Es) as [_ _ Hb Hq]. destruct (pool_snapshot_roundtrip s (Hok p s Es) Hb Hq) as (v & -> & _). done.
    - destruct (ns !! reserves_snapshot_pool_key p) eqn:En; [|done]. destruct (Hold p Hp) as [? ?]; [by eexists|congruence]. }
  assert (Hload : load_reserves_snapshot ns' = res) by (by apply load_saved).
  assert (Hstored : stored_pools ns' = pools_map (ix (id_state x))) by (unfold stored_pools; by rewrite Hload).
  assert (Hown : forall pre l k, starts_with k pre = true ->
    (pre, l) ∈ [(bstr "/pools/", pool_defs_writes (tables (id_state x))); (bstr "/token_pools/v1/", token_pools_writes (tables (id_state x)));
                (bstr "/factory_pools/v1/", factory_pools_writes (tables (id_state x))); (bstr "/pool_factory/v1/", pool_factory_writes (tables (id_state x)))] ->
    ns' !! k = apply_puts ns l !! k).
  { intros pre l k Hk Hl. destruct (own_table pre x l k Ht Hk Hl) as [Hfam Eo]. by rewrite Hrows. }
  split_and!; try done.
  - intros pool. by apply (Hown (bstr "/pool_factory/v1/")); [|set_solver].
  - constructor; rewrite ?Hload, ?Hstored; [|done|].
    + eapply registry_agree; [exact (tk_registry _ _ _ _ _ Ht)|..]; intros.
      * by apply (Hown (bstr "/pools/")); [|set_solver].
      * by apply (Hown (bstr "/token_pools/v1/")); [|set_solver].
      * by apply (Hown (bstr "/factory_pools/v1/")); [|set_solver].
      * by apply (Hown (bstr "/pool_factory/v1/")); [|set_solver].
    + intros p Hp. rewrite Hnew by done. destruct (res !! p); [by eexists|by intros []].
Qed.

End Block.

(** ** Readers *)

(** The pools of a token are the pools that trade it. *)
Lemma token_pools_exact `{PoolCodec} ns token pool :
  pools_indexed ns -> id_ok token ->
  pool ∈ get_token_pools ns token <-> exists defs, stored_pools ns !! pool = Some defs /\ side defs token.
Proof.
  intros [Hr _ _] Ht. unfold get_token_pools. rewrite list_elem_of_omap. split.
  - intros (k & [Hk _]%keys_by_prefix & E).
    destruct (starts_with k (token_pools_prefix token)) eqn:Es; [|done].
    assert (Ep : parse_alkane_id_from_prefixed_key (token_pools_prefix token) k = Some pool) by (unfold parse_alkane_id_from_prefixed_key; by rewrite Es).
    apply parse_prefixed_inv in Ep as [Hp ->]. by apply (rg_tokens _ _ _ _ _ Hr).
  - intros (defs & Hd & Hside). assert (Hp : id_ok pool) by apply (rg_ids _ _ _ _ _ Hr _ _ Hd).
    exists (token_pools_key token pool). rewrite keys_by_prefix. unfold token_pools_key. rewrite starts_with_app, drop_app_length, decode_id_be by done.
    split; [|done]. split; [|done]. apply (rg_tokens _ _ _ _ _ Hr); [done..|]. by exists defs.
Qed.

Lemma pool_defs_exact `{PoolCodecLaws} ns pool : pools_indexed ns -> id_ok pool -> get_pool_defs ns pool = stored_pools ns !! pool.
Proof.
  intros [Hr _ _] Hp. unfold get_pool_defs. rewrite (rg_defs _ _ _ _ _ Hr) by done. destruct (stored_pools ns !! pool) as [d|] eqn:E; [|done].
  destruct (market_defs_roundtrip _ _ (rg_ids _ _ _ _ _ Hr _ _ E)) as (v & Hv & Hd). cbn [mbind option_bind]. by rewrite Hv.
Qed.

(** ** Which pools set prices *)

Lemma first_put_map (l : list (bytes * bytes)) k : (list_to_map l : gmap bytes bytes) !! k = first_put l k.
Proof.
  induction l as [|[k' v] l IH]; [done|]. cbn. destruct (decide (k' = k)) as [->|Hne].
  - rewrite lookup_insert_eq. by rewrite bool_decide_true.
  - rewrite lookup_insert_ne, IH by done. by rewrite bool_decide_false.
Qed.

(** The factory of a pool by the rows it will have, from either table. *)
Lemma factory_of_pool_exact ns pending pool f :
  factory_of_pool ns pending pool = Some f <-> id_ok f /\ apply_puts ns pending !! pool_factory_key pool = Some (id_be f).
Proof.
  unfold factory_of_pool. rewrite first_put_map, apply_puts_last. fold (last_put pending (pool_factory_key pool)). unfold orelse.
  destruct (last_put pending (pool_factory_key pool)) as [raw|]; [|destruct (ns !! pool_factory_key pool) as [raw|]]; cbn [mbind option_bind].
  1,2: split; [by intros [? ->]%decoded_id_ok|intros [Hf ->%(inj Some)]; by apply decode_id_be].
  split; [done|by intros [_ ?]].
Qed.

Lemma pools_of_factory_exact ns pending f pool :
  pool ∈ pools_of_factory ns pending f <-> id_ok pool /\ is_Some (apply_puts ns pending !! factory_pools_key f pool).
Proof.
  unfold pools_of_factory. rewrite list_elem_of_omap. rewrite apply_puts_last. unfold orelse. split.
  - intros (k & Hk & [Hp ->]%parse_prefixed_inv). split; [done|]. change (factory_pools_prefix f ++ id_be pool) with (factory_pools_key f pool) in Hk.
    destruct (last_put pending (factory_pools_key f pool)) as [v|] eqn:E; [by eexists|].
    apply elem_of_app in Hk as [[Hk _]%keys_by_prefix|Hk]; [done|]. apply last_put_some in Hk as [? ?]. congruence.
  - intros [Hp Hs]. exists (factory_pools_key f pool). split; [|by apply parse_prefixed]. apply elem_of_app.
    destruct (last_put pending (factory_pools_key f pool)) eqn:E; [right; apply last_put_some; by eexists|left]. apply keys_by_prefix. split; [done|apply starts_with_app].
Qed.

(** A pool is kept out when neither table names an allowed factory for it. *)
Lemma excluded_rows network ns (pools : Pools) (allowed : list SchemaAlkaneId) made by_factory pool :
  Forall id_ok allowed -> id_ok pool ->
  pool ∈ pools_not_in_factories_on network ns (map_to_list pools).*1 allowed made by_factory
  <-> is_Some (pools !! pool) /\ is_cryptoswap_pool network pool = false
      /\ forall f, f ∈ allowed -> apply_puts ns by_factory !! factory_pools_key f pool = None
                               /\ apply_puts ns made !! pool_factory_key pool <> Some (id_be f).
Proof.
  intros Hal Hp. rewrite Forall_forall in Hal.
  assert (Hkeys : forall p, p ∈ (map_to_list pools).*1 <-> is_Some (pools !! p)).
  { intros p. rewrite list_elem_of_fmap. split; [intros ([p' d] & -> & Hd%elem_of_map_to_list); by eexists|].
    intros [d Hd]. exists (p, d). split; [done|]. by apply elem_of_map_to_list. }
  unfold pools_not_in_factories_on. rewrite elem_of_list_to_set, list_elem_of_filter, Hkeys, !not_elem_of_union, !not_elem_of_list_to_set.
  rewrite !list_elem_of_filter, Hkeys, list_elem_of_bind. split.
  - intros [[[Hc Hb] Hm] Hin]. split_and!; [done|by apply not_true_iff_false; intros ?; apply Hc|]. intros f Hf. split.
    + apply eq_None_not_Some. intros Hrow. apply Hb. exists f. by rewrite pools_of_factory_exact.
    + intros E. apply Hm. split; [|done].
      rewrite (proj2 (factory_of_pool_exact ns made pool f)) by (by split; [apply Hal|]). by rewrite bool_decide_true.
  - intros (Hin & Hc & Hno). split_and!; try done.
    + intros [? _]. congruence.
    + intros (f & [_ [v Hv]]%pools_of_factory_exact & Hf). destruct (Hno f Hf). congruence.
    + intros [Hm _]. destruct (factory_of_pool _ _ _) as [f|] eqn:E; [|done]. apply factory_of_pool_exact in E as [_ E]. apply bool_decide_eq_true_1 in Hm.
      by destruct (Hno f Hm).
Qed.

Lemma not_crypto pool : is_cryptoswap_pool Bitcoin pool = false <-> pool <> mkAlkaneId 4 1778.
Proof.
  unfold is_cryptoswap_pool, cryptoswap_pool_def, cryptoswap_pools, MAINNET_POOLS. rewrite filter_cons, filter_nil. cbn [cs_pool]. rewrite bool_decide_eq_false.
  case_decide as D; cbn [head]; [split; [intros Hn; by destruct Hn; eexists|by intros []]|split; [by intros _ ->|by intros _ []]].
Qed.

(** ** The passes hand the deltas a block *)

(** The block the deltas see when the passes have left the state [i], with the creations
    they have recorded. *)
Definition block_of (height ts : Z) (txs : gmap SchemaAlkaneId (list AlkaneBalanceTxEntry)) (meta : gmap bytes (bytes * bool)) (others : OtherWrites)
    (created : list (SchemaAlkaneId * SchemaActivityV1)) (i : IndexState) : AmmBlockIn :=
  mkAmmBlock height ts txs meta (reserves_snapshot i) (pools_map i) (pool_price_overrides i) (pricing_excluded_pools i) created (table_writes i) others.

Section Handed.
Set Default Proof Using "Type*".
Context {ess : Essentials} {codec : PoolCodec} {crates : TraceCrates} {btc : BitcoinCrate} {node : RunesChain.Node} `{ActivityCodec}.
Context (protostones_of : Transaction -> option (list (Z * option Z))) (ts : Z).

(** No trade has been recorded yet, the activity is that of creations, and every pool may set
    prices. *)
Definition handed (s : PoolState) : Prop :=
  exists created, Forall (fun x => ac_kind x.2 = PoolCreate) created
    /\ ix s = block_state (block_of 0 ts ∅ ∅ (mkOthers [] [] [] [] []) created (ix s))
    /\ pricing_excluded_pools (ix s) = ∅.

Ltac same_activity :=
  intros (created & Hc & E & Hex); exists created; split; [exact Hc|]; cbn; destruct (ix _); cbn in *; injection E; intros; by subst.

Lemma handed_pools s defs : handed s -> handed (insert_pool defs s).
Proof. same_activity. Qed.

Lemma handed_override s pool prices : handed s -> handed (with_ix s (with_override (ix s) pool prices)).
Proof. same_activity. Qed.

Lemma handed_reserves s pool snap : handed s -> handed (with_ix s (set_reserves (ix s) pool snap)).
Proof. same_activity. Qed.

Lemma handed_ix s s' : ix s' = ix s -> handed s -> handed s'.
Proof. intros E. unfold handed. by rewrite E. Qed.

Lemma handed_seed es defs s : handed s -> handed (seed_reserves es defs s).
Proof. unfold seed_reserves. destruct (pool_reserves es defs). apply handed_reserves. Qed.

Lemma handed_empty defs s : handed s -> handed (empty_reserves defs s).
Proof. unfold empty_reserves. destruct (_ !! _); [done|apply handed_reserves]. Qed.

Lemma name_ix es fallback pool s : ix (push_name es fallback pool s) = ix s.
Proof. unfold push_name. by destruct (get_alkane_label _ _ _). Qed.

Lemma handed_creation defs a0 a1 a s : ac_kind a = PoolCreate -> handed s -> handed (record_creation ts defs a0 a1 a s).
Proof.
  intros Hk (created & Hc & E & Hex). exists (created ++ [(pool_alkane_id defs, a)]). split; [by apply Forall_app; split; [|repeat constructor]|].
  split; [|unfold record_creation; by destruct (activity_push _ _ _ _) as [? [|]]].
  unfold record_creation, block_state in *. cbn [ab_created ab_ts block_of] in *. rewrite foldl_app. cbn [foldl].
  destruct (foldl (push_both ts) _ created) as [acc idx]. rewrite E. unfold push_both. cbn [activity_acc index_acc fst snd].
  by destruct (activity_push acc (pool_alkane_id defs) ts a) as [acc' [sq|]].
Qed.

Lemma handed_bootstrap es height units facs s : handed s -> handed (bootstrap_pools_from_creation_records es height units facs s).
Proof.
  unfold bootstrap_pools_from_creation_records. destruct (bool_decide _); [done|]. generalize (created_alkanes es height). intros l. revert s.
  induction l as [|pool l IH]; intros s Hs; cbn; [done|]. apply IH. unfold bootstrap_pool. destruct (bool_decide _); [done|].
  destruct (_ ≫= _) as [[defs f]|]; [|done]. eapply handed_ix; [apply name_ix|]. eapply handed_ix; [done|].
  apply handed_seed. eapply handed_ix; [done|]. by apply handed_pools.
Qed.

Lemma handed_crypto es network units s : handed s -> handed (register_cryptoswap_pools es network units s).
Proof.
  unfold register_cryptoswap_pools. generalize (cryptoswap_pools network). intros l. revert s.
  induction l as [|def l IH]; intros s Hs; cbn; [done|]. apply IH. unfold register_cryptoswap_pool. destruct (read_pool_state _ _) as [st|]; [|done].
  set (s0 := match chart_price_wad st ≫= prices_from_wad with Some _ => _ | None => s end).
  assert (Hs0 : handed s0) by (subst s0; destruct (_ ≫= _); [by apply handed_override|done]). clearbody s0. cbn zeta. destruct (bool_decide _); [done|].
  eapply handed_ix; [apply name_ix|]. eapply handed_ix; [done|]. by apply handed_seed, handed_pools.
Qed.

Lemma handed_pool es block units facs block_txs meta tx by_id d p d' :
  pb_ts block = ts -> handed (ds_state d) ->
  discover_pool protostones_of es block units facs block_txs meta tx by_id (Some d) p = Some d' -> handed (ds_state d').
Proof.
  intros Hts Hd. unfold discover_pool. cbn [mbind option_bind]. cbn zeta. destruct (bool_decide _); [by intros [= <-]|]. cbn [ds_state prev_tx_cache seen_new_pools].
  destruct (bool_decide _); [by intros [= <-]|]. destruct (match by_id !! _ with Some _ => _ | None => _ end) as [f|]; [|by intros [= <-]].
  destruct (negb _); [by intros [= <-]|]. destruct (creator_of _ _ _) as [cache creator]. destruct (pool_reserves _ _) as [a0 a1].
  intros (s & Es & Hd')%bind_Some. destruct (default ([], true) (meta !! compute_txid (at_transaction tx))) as [spk ok]. injection Hd' as <-. cbn [ds_state]. rewrite Hts. apply handed_creation; [done|].
  unfold push_creation_info in Es. apply bind_Some in Es as (enc & _ & [= <-]). eapply handed_ix; [done|]. eapply handed_ix; [done|].
  eapply handed_ix; [apply name_ix|]. eapply handed_ix; [done|]. by apply handed_empty, handed_pools.
Qed.

Lemma handed_discover es block units facs s s' meta :
  pb_ts block = ts -> handed s -> discover_new_pools protostones_of es block units facs s = Some (s', meta) -> handed s'.
Proof.
  intros Hts Hs. unfold discover_new_pools. cbn zeta. intros (d & Ed & [= <- _])%bind_Some.
  assert (Hd : forall d, Some (mkDiscovery s ∅ ∅) = Some d -> handed (ds_state d)) by by intros ? [= <-].
  revert Hd d Ed. generalize (Some (mkDiscovery s ∅ ∅)). generalize (tx_meta_of protostones_of (pb_transactions block)). intros meta0.
  generalize (block_tx_map (at_transaction <$> pb_transactions block)). intros btx. generalize (pb_transactions block). intros txs.
  induction txs as [|tx txs IH]; intros od Hod; cbn [foldl]; [done|]. apply IH. unfold discover_transaction.
  destruct (at_traces tx) as [traces|]; [|done]. cbn zeta. destruct (extract_new_pools_from_espo_transaction _ _) as [new|]; [|done].
  generalize (pool_factories_by_id traces (pb_host block) facs). intros by_id. revert od Hod. clear IH. induction new as [|p new IH]; intros od Hod; cbn [foldl]; [done|].
  apply IH. intros d Ed. destruct od as [d0|]; [|done]. eapply handed_pool; [exact Hts|by apply Hod|exact Ed].
Qed.

(** The pools that may not set prices are chosen last, when the network has an allowlist. *)
Lemma passes_handed ns es network units block x :
  pb_ts block = ts -> index_pools protostones_of ns es network units block = Some x ->
  exists s, handed s
    /\ id_state x = match pricing_factories_at_height network (pb_height block) with
                   | Some allowed => with_ix s (with_excluded (ix s)
                       (pools_not_in_factories_on network ns (map_to_list (pools_map (ix s))).*1 allowed (pool_factory_writes (tables s)) (factory_pools_writes (tables s))))
                   | None => s
                   end.
Proof.
  intros Hts Ex. unfold index_pools in Ex. cbn zeta in Ex. destruct (prepare_factories _ _ _) as [facs writes]. apply bind_Some in Ex as ([s meta] & Ed & Ex).
  apply handed_discover in Ed; [|done|by apply handed_bootstrap; exists []]. apply (handed_crypto es network units) in Ed. injection Ex as <-.
  eexists. split; [exact Ed|done].
Qed.

(** What the rest of the module adds, when the passes have left [x] and the deltas [st]. *)
Definition others_of (x : Indexed) (metrics : MetricWrites) (st : IndexState) : OtherWrites :=
  mkOthers (derived_token_rows metrics)
    (canonical_pool_rows metrics ++ pool_puts x ++ pool_metrics_rows metrics ++ pool_lp_supply_writes (tables (id_state x)) ++ pool_details_rows metrics)
    (address_pool_creations_writes (tables (id_state x))) (snapshot_puts (reserves_snapshot st)) (metric_deletes metrics).

(** The whole block is the block of the deltas, started from what the passes have left: their
    pools, reserves, prices and exclusions, and the activity of the creations they found. *)
Theorem block_rows_amm_block `{CandleCodec} ns es network units frames vframes block txs metrics x :
  pb_ts block = ts -> index_pools protostones_of ns es network units block = Some x ->
  exists created, Forall (fun e => ac_kind e.2 = PoolCreate) created
    /\ let st := process_balance_deltas ts units frames vframes (id_meta x) txs (ix (id_state x)) in
       index_block_rows protostones_of units frames vframes ns es network block txs metrics
       = index_amm_block units frames vframes ns (block_of (pb_height block) ts txs (id_meta x) (others_of x metrics st) created (ix (id_state x))).
Proof.
  intros Hts Ex. destruct (passes_handed _ _ _ _ _ _ Hts Ex) as (s & (created & Hc & Es & _) & Hx).
  assert (E : ix (id_state x) = block_state (block_of 0 ts ∅ ∅ (mkOthers [] [] [] [] []) created (ix (id_state x)))).
  { rewrite Hx. destruct (pricing_factories_at_height _ _); [|done]. clear Hx. cbn. destruct (ix s). cbn in *. injection Es. intros. by subst. }
  clear Es Hx. exists created. split; [done|]. cbn zeta. unfold index_block_rows. rewrite Ex. cbn [mbind option_bind]. rewrite Hts.
  unfold index_amm_block, batch_puts, processed. set (b := block_of _ _ _ _ _ _ _).
  assert (Hb : block_state b = ix (id_state x)) by (rewrite E at 1; done). rewrite Hb. cbn [ab_ts ab_meta ab_txs ab_height ab_others b block_of others_of derived_rows pool_rows creation_rows snapshot_rows other_deletes].
  set (st := process_balance_deltas _ _ _ _ _ _ _). destruct (into_writes ns (candle_cache st)) as [w|]; [|done]. cbn [mbind option_bind].
  destruct (prepare_token_volume _ _ _) as [vc vt]. by rewrite <- !app_assoc.
Qed.

End Handed.

(** ** The properties *)

Section Claims.
Set Default Proof Using "Type*".
Context `{PoolCodecLaws} `{EssentialsLaws} {crates : TraceCrates} {btc : BitcoinCrate} {node : RunesChain.Node} `{ActivityCodec} `{CandleCodecLaws}.
Context (protostones_of : Transaction -> option (list (Z * option Z))) (units : gset SchemaAlkaneId) (frames vframes : list Timeframe).

(** C18: The tables of the pools stay in agreement through a block. From a namespace in which
    they agree and whose candle rows decode, indexing any block returns, when the metrics of
    tokens and pools write rows of other tables; afterwards they agree again; no pool is lost; a
    new pool was made by a factory that is known, which its row names, or is one of the
    network's table; the pools of a token are exactly the pools that trade it, and the
    stored definition of a pool is the one its reserves name, so that the next block
    starts from the pools this block has left. *)
Theorem pools_stay_indexed ns es network block balance_txs metrics :
  pools_indexed ns -> rows_decode ns -> in_u64 (pb_ts block) ->
  map_Forall (fun _ l => Forall (fun e => length (bt_txid e) = 32%nat) l) balance_txs -> metrics_apart metrics ->
  exists ns', index_block_rows protostones_of units frames vframes ns es network block balance_txs metrics = Some ns'
    /\ pools_indexed ns'
    /\ stored_pools ns ⊆ stored_pools ns'
    /\ (forall pool, is_Some (stored_pools ns' !! pool) ->
          is_Some (stored_pools ns !! pool)
          \/ (exists f, f ∈ (prepare_factories ns es (pb_height block)).1 /\ ns' !! pool_factory_key pool = Some (id_be f))
          \/ is_cryptoswap_pool network pool = true)
    /\ (forall token pool, id_ok token -> pool ∈ get_token_pools ns' token <-> exists defs, stored_pools ns' !! pool = Some defs /\ side defs token)
    /\ (forall pool, id_ok pool -> get_pool_defs ns' pool = stored_pools ns' !! pool).
Proof.
  intros Hns Hdec Hts Htx Hm.
  destruct (block_indexed protostones_of ns es network units block Hns frames vframes balance_txs metrics Hdec Hts Htx Hm) as (x & ns' & Ex & Ht & E & Hl & Hs & Hf & Hns').
  exists ns'. split_and!; [done|done|rewrite Hs; apply (tk_start _ _ _ _ _ Ht)| |intros; by apply token_pools_exact|intros; by apply pool_defs_exact].
  intros pool Hp. rewrite Hs in Hp. destruct (tk_known _ _ _ _ _ Ht pool Hp) as [?|[(f & Hfac & Hrow)|?]]; [by left| |by right; right].
  right. left. exists f. by rewrite Hf.
Qed.

End Claims.

Section Pricing.
Context {ess : Essentials} {codec : PoolCodec} {crates : TraceCrates} {btc : BitcoinCrate} {node : RunesChain.Node} `{ActivityCodec}.
Context (protostones_of : Transaction -> option (list (Z * option Z))) (units : gset SchemaAlkaneId).

(** C32: Who may set prices is decided by the two factory records, and either is enough.
    Whatever the rows of the namespace, the passes of a block keep a pool from pricing its
    tokens exactly when the chain is mainnet at height 970000 or more, the pool is one the
    passes know other than 4:1778, the one of the network's table, the factory 4:65522 has no row for the
    pool among its pools, and the pool has no row that names this factory as its own; the
    rows this block adds count as well as the stored ones, and a row it adds for the
    pool's factory takes the place of the stored one. A pool with only one of the two rows
    is trusted, and before that height, and on other networks, every pool is. *)
Theorem pricing_exclusion ns es network block x pool :
  index_pools protostones_of ns es network units block = Some x -> id_ok pool ->
  let state := id_state x in
  let factory := mkAlkaneId 4 65522 in
  pool ∈ pricing_excluded_pools (ix state)
  <-> network = Bitcoin /\ 970000 <= pb_height block
      /\ is_Some (pools_map (ix state) !! pool) /\ pool <> mkAlkaneId 4 1778
      /\ apply_puts ns (factory_pools_writes (tables state)) !! factory_pools_key factory pool = None
      /\ apply_puts ns (pool_factory_writes (tables state)) !! pool_factory_key pool <> Some (id_be factory).
Proof.
  intros Ex Hp state factory. subst state. destruct (passes_handed protostones_of (pb_ts block) _ _ _ _ _ _ eq_refl Ex) as (s & (_ & _ & _ & Hex) & ->).
  unfold pricing_factories_at_height. destruct network; [|rewrite Hex; split; [set_solver|by intros []]].
  destruct (Z.leb_spec MAINNET_PRICING_FACTORY_FORK_HEIGHT (pb_height block)) as [Hh|Hh]; unfold MAINNET_PRICING_FACTORY_FORK_HEIGHT in Hh;
    [|rewrite Hex; split; [set_solver|intros (_ & ? & _); lia]].
  cbn. rewrite excluded_rows by (done || by repeat constructor). rewrite not_crypto. unfold MAINNET_PRICING_FACTORIES.
  setoid_rewrite list_elem_of_singleton. split; [intros (G1 & G2 & G3); destruct (G3 factory eq_refl)|intros (_ & _ & G1 & G2 & G3 & G4)]; split_and!; try done.
  by intros f ->.
Qed.

End Pricing.

(** ** A concrete market *)

(** Borsh: fields in their order, little endian. *)
Definition id_le (id : SchemaAlkaneId) : bytes := le_bytes 4 (ak_block id) ++ le_bytes 8 (ak_tx id).
Definition read_id (b : bytes) : SchemaAlkaneId := mkAlkaneId (from_le (take 4 b)) (from_le (take 8 (drop 4 b))).

Lemma le_u r n z : 0 <= z < 256 ^ Z.of_nat n -> from_le (take n (le_bytes n z ++ r)) = z.
Proof. intros Hz. rewrite take_app_length' by (by rewrite length_le_bytes). by rewrite from_le_le_bytes, Z.mod_small. Qed.

Lemma read_id_le id r : id_ok id -> read_id (id_le id ++ r) = id.
Proof.
  intros [Hb Ht]. unfold read_id, id_le. rewrite <- app_assoc, le_u by done. rewrite drop_app_length' by (by rewrite length_le_bytes).
  rewrite le_u by done. by destruct id.
Qed.

Lemma read_id_ok b : id_ok (read_id b).
Proof.
  assert (Hr : forall n l, from_le (take n l) < 256 ^ Z.of_nat n).
  { intros n l. pose proof (from_le_range (take n l)) as Hr. rewrite length_take in Hr. eapply Z.lt_le_trans; [apply Hr|]. apply Z.pow_le_mono_r; lia. }
  unfold id_ok, in_u32, in_u64, read_id. cbn [ak_block ak_tx].
  pose proof (Hr 4%nat b). pose proof (Hr 8%nat (drop 4 b)). pose proof (from_le_range (take 4 b)). pose proof (from_le_range (take 8 (drop 4 b))).
  change (256 ^ Z.of_nat 4) with (2 ^ 32) in *. change (256 ^ Z.of_nat 8) with (2 ^ 64) in *. lia.
Qed.

Lemma id_le_length id : length (id_le id) = 12%nat.
Proof. unfold id_le. by rewrite length_app, !length_le_bytes. Qed.

Definition defs_bytes (d : SchemaMarketDefs) : bytes := id_le (base_alkane_id d) ++ id_le (quote_alkane_id d) ++ id_le (pool_alkane_id d).
Definition snapshot_bytes (s : SchemaPoolSnapshot) : bytes :=
  le_bytes 16 (base_reserve s) ++ le_bytes 16 (quote_reserve s) ++ id_le (base_id s) ++ id_le (quote_id s).

#[local] Instance borsh_pools : PoolCodec := {
  market_defs_to_vec d := Some (defs_bytes d);
  pool_snapshot_to_vec s := Some (snapshot_bytes s);
  pool_snapshot_from_slice b :=
    if (length b =? 56)%nat then Some (mkPoolSnapshot (from_le (take 16 b)) (from_le (take 16 (drop 16 b))) (read_id (drop 32 b)) (read_id (drop 44 b))) else None;
  creation_info_to_vec i :=
    Some (le_bytes 4 (Z.of_nat (length (creator_spk i))) ++ creator_spk i ++ le_bytes 4 (creation_height i) ++ le_bytes 16 (initial_token0_amount i)
            ++ le_bytes 16 (initial_token1_amount i) ++ le_bytes 16 (initial_lp_supply i));
}.

#[local] Instance borsh_defs : MarketDefsCodec := {
  market_defs_from_slice b := if (length b =? 36)%nat then Some (mkDefs (read_id b) (read_id (drop 12 b)) (read_id (drop 24 b))) else None;
}.

#[local] Instance borsh_pools_laws : PoolCodecLaws.
Proof.
  split.
  - intros pool d [Ep Hp Hb Hq]. exists (defs_bytes d). split; [done|]. cbn [market_defs_from_slice borsh_defs]. unfold defs_bytes.
    rewrite !length_app, !id_le_length. cbn [Nat.add Nat.eqb]. rewrite read_id_le by done. rewrite drop_app_length' by (by rewrite id_le_length).
    rewrite read_id_le by done. rewrite app_assoc, drop_app_length' by (by rewrite length_app, !id_le_length).
    rewrite <- (app_nil_r (id_le (pool_alkane_id d))), read_id_le by (by rewrite Ep). by destruct d.
  - intros s [Hrb Hrq] Hb Hq. exists (snapshot_bytes s). split; [done|]. cbn [pool_snapshot_from_slice borsh_pools]. unfold snapshot_bytes.
    rewrite !length_app, !id_le_length, !length_le_bytes. cbn [Nat.add Nat.eqb]. rewrite (le_u _ 16 (base_reserve s) Hrb).
    rewrite (drop_app_length' (le_bytes 16 (base_reserve s))) by (by rewrite length_le_bytes). rewrite (le_u _ 16 (quote_reserve s) Hrq).
    rewrite app_assoc, (drop_app_length' (le_bytes 16 (base_reserve s) ++ _)) by (by rewrite length_app, !length_le_bytes). rewrite read_id_le by done.
    rewrite app_assoc, (drop_app_length' (_ ++ id_le (base_id s))) by (by rewrite !length_app, !length_le_bytes, id_le_length).
    rewrite <- (app_nil_r (id_le (quote_id s))), read_id_le by done. by destruct s.
  - intros i. by eexists.
Defined.

(** The digits of a hex string, two by two. *)
Fixpoint hex_pairs (b : bytes) : option bytes :=
  match b with
  | [] => Some []
  | [_] => None
  | h :: l :: b => h ← to_digit 16 h; l ← to_digit 16 l; rest ← hex_pairs b; Some (z2b (16 * h + l) :: rest)
  end.

#[local] Instance hex_crates : TraceCrates := {| hex_decode := hex_pairs; header_decodes _ := false; coinbase_decodes _ := false |}.

Fixpoint read_ids (n : nat) (b : bytes) : list SchemaAlkaneId :=
  match n with O => [] | S n => read_id b :: read_ids n (drop 12 b) end.

Definition new_pool : SchemaAlkaneId := mkAlkaneId 2 10.
Definition oyl_factory : SchemaAlkaneId := mkAlkaneId 4 65522.

Definition word_0 : bytes := bstr "0x0200000000000000000000000000000000000000000000000000000000000000".
Definition word_1 : bytes := bstr "0x2000000000000000000000000000000000000000000000000000000000000000".

Definition call_of (block tx opcode : bytes) : EspoSandshrewLikeTraceEvent :=
  Invoke (mkInvoke (bstr "call") (mkContext (mkShortId block tx) (mkShortId (bstr "0x0") (bstr "0x0")) [opcode] [] 0) 0).

Definition return_of (storage : list EspoSandshrewLikeTraceStorageKV) : EspoSandshrewLikeTraceEvent :=
  Return (mkReturn Success (mkResponse [] (bstr "0x") storage)).

(** The factory is called, it creates the pool, and the pool writes its tokens. *)
Definition creation_trace : EspoSandshrewLikeTrace :=
  mkTrace [] [call_of (bstr "0x4") (bstr "0xfff2") (bstr "0x1"); Create (mkShortId (bstr "0x2") (bstr "0xa"));
              call_of (bstr "0x2") (bstr "0xa") (bstr "0x0");
              return_of [mkStorageKV key_alkane_0 word_0; mkStorageKV key_alkane_1 word_1]; return_of []].

#[local] Instance demo_essentials : Essentials := {
  alkane_ids_from_slice b := Some (read_ids (Z.to_nat (from_le (take 4 b))) (drop 4 b));
  decode_creation_record b := Some (mkCreation (take 32 b) (Some (mkInspection None (Some (read_id (drop 32 b))))) [] []);
  load_tx_summary_v2 _ := Some [creation_trace];
  lookup_self_balance _ := None;
  to_uppercase b := b;
}.

Lemma read_ids_ok n b : Forall id_ok (read_ids n b).
Proof. revert b. induction n as [|n IH]; intros b; cbn; constructor; [apply read_id_ok|apply IH]. Qed.

#[local] Instance demo_essentials_laws : EssentialsLaws.
Proof.
  split.
  - intros b l [= <-]. apply read_ids_ok.
  - intros b r i f [= <-] [= <-] [= <-]. apply read_id_ok.
  - done.
Defined.

#[local] Instance market_btc : BitcoinCrate := {|
  compute_txid tx := be_bytes 32 (Z.of_nat (length (output tx)));
  is_null _ := false;
  is_op_return _ := false;
  is_p2tr _ := false;
  instructions _ := [];
  tapscript _ := None;
  deserialize_tx _ := None;
  address_from_script _ := None;
|}.

#[local] Instance market_node : RunesChain.Node := {|
  tx_outputs_and_block _ := None;
  header_height _ := None;
  raw_transaction _ := None;
  batch_transaction_get_raw _ := [];
|}.

#[local] Existing Instance borsh_activity.
#[local] Existing Instance borsh_candles.
#[local] Existing Instance borsh_candles_laws.

Definition no_protostones (_ : Transaction) : option (list (Z * option Z)) := None.
Definition no_metrics : MetricWrites := mkMetrics [] [] [] [] [].

(** The block that creates the pool and funds it with 1000 and 2000. *)
Definition creating_tx : EspoAlkanesTransaction := mkAlkanesTx (Some [mkEspoTrace creation_trace 0]) (mkTransaction [] []).
Definition creating_block : PoolBlock := mkPoolBlock 970001 1800000000 EspoHostFunctionValues_default [creating_tx].
Definition funding : gmap SchemaAlkaneId (list AlkaneBalanceTxEntry) :=
  {[ new_pool := [mkBalanceTx (replicate 32 Byte.x00) 970001 {[ demo_base := su_positive 1000; demo_quote := su_positive 2000 ]}] ]}.

(** The balances of the pool after the block, and the record of its creation. *)
Definition funded_rows : Namespace :=
  list_to_map [(alkane_balance_list_len_key new_pool, le_bytes 4 2);
    (alkane_balance_list_idx_key new_pool 0, id_be demo_base); (alkane_balance_list_idx_key new_pool 1, id_be demo_quote);
    (alkane_balance_key new_pool demo_base, le_bytes 16 1000); (alkane_balance_key new_pool demo_quote, le_bytes 16 2000)].
Definition created_rows : Namespace :=
  <[alkane_creations_in_block_key 970001 := le_bytes 4 1 ++ id_le new_pool]>
  (<[alkane_creation_by_id_key new_pool := replicate 32 Byte.x00 ++ id_le oyl_factory]> funded_rows).

Definition market : Namespace := {[ amm_factory_key oyl_factory := [] ]}.

Definition passes (es : Namespace) : option Indexed := index_pools no_protostones market es Bitcoin {[ demo_quote ]} creating_block.
Definition reserves_of (m : gmap SchemaAlkaneId SchemaPoolSnapshot) : option (Z * Z) := (fun s => (base_reserve s, quote_reserve s)) <$> m !! new_pool.
Definition block_reserves (es : Namespace) : option (Z * Z) :=
  x ← passes es; reserves_of (reserves_snapshot (processed_state {[ demo_quote ]} creating_block [M10] [M10] funding x)).

(** A new pool whose creation record is there is registered with its balances after the
    block, and the block's deltas are applied to them: what it was funded with counts
    twice, and its creation is not recorded. *)
Example new_pool_counted_twice :
  get_alkane_balances created_rows new_pool = {[ demo_base := 1000; demo_quote := 2000 ]}
  /\ (x ← passes created_rows; reserves_of (reserves_snapshot (ix (id_state x)))) = Some (1000, 2000)
  /\ block_reserves created_rows = Some (2000, 4000)
  /\ ((fun x => pool_creation_info_writes (tables (id_state x))) <$> passes created_rows) = Some [].
Proof. vm_compute. done. Qed.

(** Without the record the pool is found in the block's traces, starts empty, and the deltas
    give what it holds. *)
Example discovered_pool_counted_once :
  (x ← passes funded_rows; reserves_of (reserves_snapshot (ix (id_state x)))) = Some (0, 0)
  /\ block_reserves funded_rows = Some (1000, 2000)
  /\ ((fun x => length (pool_creation_info_writes (tables (id_state x)))) <$> passes funded_rows) = Some 1%nat.
Proof. vm_compute. done. Qed.

(** A slot that is not a little-endian integer reads as zero; the state is only absent when
    none of the three prices is there. *)
Example unreadable_slot_is_zero :
  decode_state [None; Some (replicate 32 Byte.x00 ++ le_bytes 16 20); None; Some [Byte.x01]; None; Some (replicate 64 Byte.xff)]
  = Some (mkCryptoState 0 20 0 0 0 0).
Proof. vm_compute. done. Qed.

Lemma empty_indexed : pools_indexed ∅.
Proof.
  assert (Hl : load_reserves_snapshot ∅ = ∅) by done. constructor.
  - unfold stored_pools. rewrite Hl. constructor; intros *; rewrite ?lookup_empty; try done; intros; split; intros Hx; try done; destruct Hx as (? & ? & ?); done.
  - rewrite Hl. intros p s. by rewrite lookup_empty.
  - intros p _ Hx. rewrite lookup_empty in Hx. by destruct Hx.
Qed.

Lemma funding_txids : map_Forall (fun _ l => Forall (fun e => length (bt_txid e) = 32%nat) l) funding.
Proof. unfold funding. apply map_Forall_singleton. by repeat constructor. Qed.

Lemma no_metrics_apart : metrics_apart no_metrics.
Proof. by repeat constructor. Qed.

Abbreviation demo_index := (index_block_rows no_protostones {[ demo_quote ]} [M10] [M10] ∅ created_rows Bitcoin creating_block funding no_metrics).

Lemma demo_stored : (ns ← demo_index; stored_pools ns !! new_pool) = Some (mkDefs demo_base demo_quote new_pool).
Proof. vm_compute. done. Qed.

(** The block that creates a pool leaves it under both its tokens. *)
Lemma pools_stay_indexed_witness :
  exists ns, demo_index = Some ns /\ pools_indexed ns /\ get_pool_defs ns new_pool = Some (mkDefs demo_base demo_quote new_pool)
    /\ new_pool ∈ get_token_pools ns demo_base /\ new_pool ∈ get_token_pools ns demo_quote.
Proof.
  destruct (pools_stay_indexed no_protostones {[ demo_quote ]} [M10] [M10] ∅ created_rows Bitcoin creating_block funding no_metrics
    empty_indexed (proj2 demo_rows_empty) ltac:(split; done) funding_txids no_metrics_apart) as (ns & E & Hns & _ & _ & Htok & Hdefs).
  pose proof demo_stored as Hs. rewrite E in Hs. change (stored_pools ns !! new_pool = Some (mkDefs demo_base demo_quote new_pool)) in Hs.
  exists ns. split; [exact E|]. split; [exact Hns|]. rewrite Hdefs by (split; split; done). split; [exact Hs|].
  split; apply Htok; try (split; split; done); eexists; (split; [exact Hs|]); [by left|by right].
Defined.

(** A pool stored with its reserves and only the row of its factory's pools: the row of the
    pool's factory is missing. *)
Definition old_pool_rows : Namespace :=
  <[factory_pools_key oyl_factory new_pool := []]>
  (list_to_map (snapshot_puts {[ new_pool := mkPoolSnapshot 1000 2000 demo_base demo_quote ]})).

(** Beside it a pool no factory record names. *)
Definition stray_pool : SchemaAlkaneId := mkAlkaneId 2 11.
Definition pricing_rows : Namespace :=
  list_to_map (snapshot_puts {[ stray_pool := mkPoolSnapshot 1000 2000 demo_base demo_quote ]}) ∪ old_pool_rows.

Abbreviation pricing_passes := (index_pools no_protostones pricing_rows ∅ Bitcoin {[ demo_quote ]} creating_block).

Lemma pricing_rows_facts :
  (x ← pricing_passes; Some (bool_decide (is_Some (pools_map (ix (id_state x)) !! stray_pool)), factory_pools_writes (tables (id_state x)), pool_factory_writes (tables (id_state x))))
  = Some (true, [], [])
  /\ pricing_rows !! pool_factory_key new_pool = None /\ pricing_rows !! factory_pools_key oyl_factory new_pool = Some []
  /\ pricing_rows !! factory_pools_key oyl_factory stray_pool = None /\ pricing_rows !! pool_factory_key stray_pool = None.
Proof. vm_compute. done. Qed.

(** The pool with one of the two rows may set prices, the stray pool may not. *)
Lemma pricing_exclusion_witness :
  exists x, pricing_passes = Some x
    /\ pricing_rows !! pool_factory_key new_pool = None
    /\ (new_pool ∉ pricing_excluded_pools (ix (id_state x))) /\ stray_pool ∈ pricing_excluded_pools (ix (id_state x)).
Proof.
  destruct pricing_rows_facts as (Hx & Hm & Hb & Hsb & Hsm). destruct pricing_passes as [x|] eqn:Ex; [|done].
  injection Hx as Hin Hfw Hpw. apply bool_decide_eq_true_1 in Hin.
  exists x. split; [done|]. split; [done|].
  rewrite (pricing_exclusion no_protostones {[ demo_quote ]} pricing_rows ∅ Bitcoin creating_block x new_pool Ex) by (split; split; done).
  rewrite (pricing_exclusion no_protostones {[ demo_quote ]} pricing_rows ∅ Bitcoin creating_block x stray_pool Ex) by (split; split; done).
  rewrite Hfw, Hpw. split.
  - intros (_ & _ & _ & _ & Hn & _). change (pricing_rows !! factory_pools_key oyl_factory new_pool = None) in Hn. by rewrite Hb in Hn.
  - split_and!; [done|done|done|done|exact Hsb|]. change (pricing_rows !! pool_factory_key stray_pool <> Some (id_be oyl_factory)). by rewrite Hsm.
Defined.
